(* ===== verification/_CoqProject ===== *)
-Q . S2P
Prelude.v
Wp.v
Bytes.v
Errors.v
Spec.v
Table.v
Pools.v
Manager.v
Invariant.v
Construct.v
Reserve.v
Admission.v
Commit.v
Slots.v
Mirror.v
Reach.v
Layout.v
Tree.v
Batch.v
Workspace.v
Emit.v
BatchSpec.v
Budget.v
SchedError.v
Arena.v
Capture.v
CaptureSpec.v
Cost.v
Streams.v
Inline.v
Log.v
Detok.v
Sequence.v
Generation.v
Append.v
Scheduler.v
Step.v
SchedInv.v
PreStepSpec.v
PostStepSpec.v
StepSafe.v
SchedCalls.v
SchedServe.v
Format.v
Tiles.v
Permute.v
LaneCodec.v
Regions.v
Gguf.v
GgufCodec.v
GgufFile.v
GgufWriter.v
GgufSound.v
GgufRoundtrip.v
Ggml.v
Repack.v
RepackBlock.v
RepackSpec.v
IqLut.v
Dequant.v
DequantSpec.v
Ops.v
OpCheck.v
OpMove.v
OpMatmul.v
OpSample.v
OpValidate.v
Graph.v
Materialize.v
GraphInv.v
GraphTopo.v
GraphMaterialize.v
GraphSchedule.v
GraphBuild.v
RegStatic.v
RegStaticSpec.v
Registry.v
RegistrySpec.v
RegistryUse.v
Sharding.v
