(* ===== verification/Prelude.v ===== *)
(** * R9V: a verification development

    R9V is an inference engine written as a workspace of Rust crates.  This
    library models the parts of it that decide what is computed, and proves
    them correct: the store of sequence state ([r9v-state]), the batch
    metadata of a step, the ops and the step graph ([r9v-ir]), the kernel
    registry ([r9v-registry]), the scheduler ([r9v-sched]) and the tensor
    format ([r9v-format]).  All paths below are under [src/crates/].

    ** How the code is rendered

    A function that returns [Result] is a value of [outcome E A]: [Ok], [Err],
    or [Panic] for an index out of range, a failed [expect] or a checked
    arithmetic overflow, so that "never panics" is a theorem.  A method on
    [&mut self] is an action of the state-and-error monad [stm S E], which
    keeps the state left behind when a call is refused half way; a method on
    [&self] is a function of the state.  Machine integers are [Z] with their
    width written out ([checked_add U32_MAX], [as_u32], [mod 256]); [usize]
    positions in vectors are [nat] where nothing overflows them.  A string is
    its list of UTF-8 bytes, a formatted message its template with its values,
    a float the Standard Library's executable binary32.  Loops are structural
    recursions over the range or the list the code walks; a loop that is
    neither has fuel and a theorem that its fuel suffices (below).  Foreign
    code is a parameter: the device ([StepExecutor]), the cost table, the
    resolver a graph is captured over, the detokenizer behind its trait, the
    hash functions of fingerprints and kernel variants, the JIT provider, the
    parsers of manifest and tune files, the file system and the loader of
    device modules.

    This file holds the monads, machine integers, list lemmas, the hint
    database [total] ("does not panic") and the tactics; [Wp] the
    weakest-precondition rules of the monad, the database [wp] and the
    refinement of one object by another; [Bytes] the enums the components
    share, bytes, little-endian integers, UTF-8 and the floats.

    ** The state manager: [r9v-state/src/spec.rs], [manager.rs]

    [Errors], [Spec] (declarations, sizes, grouping), [Table] (the aligned
    index and id vectors are a finite map), [Pools] (block and slot pools
    behind one interface of least-free-id allocators), [Manager] (every
    operation), [Invariant], then per operation its specification:
    [Construct], [Reserve], [Admission], [Commit], [Slots], [Mirror],
    [Layout], [Budget].  [Reach] composes them: after any sequence of calls
    the manager is well formed, nothing leaks, no id is held twice, and a
    speculative step (write, compact, commit) leaves the accepted tokens
    readable.  The other theorems say exactly when each operation refuses and
    what it leaves behind.

    ** Batches: [r9v-ir/src/batch.rs] and the batch half of [manager.rs]

    [Tree] (tree masks and the cycle walk), [Batch] (the builder and its
    checks), [Workspace] (planning, emission, the owned builders, the
    caller-owned workspace), [Emit] and [BatchSpec].  The builder accepts
    exactly the coherent batches, emission writes the page maps cell by cell,
    and the caller-owned fill agrees with the owned builder.

    ** The scheduler: [r9v-sched/src]

    [SchedError] (the errors, and the launches and resolved variants of
    [r9v-registry/src/launch.rs]), [Cost] (shape buckets and the step cost
    table), [Arena], [Capture], [CaptureSpec] (graph capture over any resolver),
    [Streams] (the event protocol), [Inline], [Log], [Detok], [Sequence],
    [Generation], [Append] (requests, and the bounded text tail against the
    whole text), [Scheduler] (its calls) and [Step] ([Scheduler::step], the
    whole function).  [SchedInv] is the invariant: the tracked sequences are
    the live sequences of the manager, in phases that agree with their
    contexts.  [PreStepSpec], [PostStepSpec] and [StepSafe] show
    that a step never panics and completes or changes nothing; [SchedCalls]
    and [SchedServe] that every request is accounted for once, under the
    bound, and that a caller that keeps stepping finishes all work within the
    work asked for unless a step does not complete.  [SchedServe] also runs a
    small scheduler, the witness of these theorems.

    ** The tensor format: [r9v-format/src]

    [Format] (schemes, layouts, packings, record sizes), [Tiles] (padding,
    tile order, scale records), [Permute] and [LaneCodec] (permutations,
    padding checks, lane codecs), [Regions] (the entry of a native tensor),
    [Gguf] and [GgufCodec] (metadata values, the cursor and the encoders),
    [GgufFile] (the parser, its validation and the entry sizes), [GgufWriter],
    [GgufSound], [GgufRoundtrip].  The tile order is a bijection, every codec
    inverts, padding checks are exact, regions are disjoint pages; a file that
    parses is canonical with unique names and disjoint tensors inside it; a
    file that is emitted parses back to what was written.

    ** Block-quantized tensors: [ggml.rs], [iq.rs], [repack.rs], [iq_lut.rs]

    [Ggml] (the 21 block types of GGUF, the geometry of a tensor's wire bytes,
    the readers of a block and the writer of the codebook types), [Repack]
    (the move into tiles and scale records and the move back), [IqLut] (the
    codebooks) and [Dequant] (the decoders of wire bytes and of the repacked
    form, with the half-precision scales of [scales.rs]).  [RepackBlock] shows
    of each type that the writer of a block inverts its readers, on symbolic
    bytes: a bit of the rebuilt byte is computed as an expression over bits of
    the block and compared once, by reflection.  [RepackSpec] lifts this over
    the loops: a repacked tensor unpacks to the bytes it came from.
    [DequantSpec] shows that both decoders of a tensor agree, that no codebook
    is read out of range, and that a half is widened exactly.  The size of the
    vectors they reserve is not modelled: their wire bytes fit in memory, and
    so does what is made of them.

    ** Ops: [r9v-ir/src/tensor.rs], [op.rs], [sharding.rs], [fusion.rs], [numerics.rs]

    [Ops] (tensors, the rules of [Tensor::new], the op catalog), [OpCheck]
    (the helpers every [validate] calls), [OpMove], [OpMatmul], [OpSample] (the 32 [validate] methods by section) and
    [OpValidate] (the dispatch).  A [validate] is the list of problems it
    pushes; on tensors the constructor accepted it panics for one malformed
    [moe_route] only.  [OpValidate] also reads a check as the condition it tests and
    shows that the matrix product's is its documented signature.  [Sharding]
    holds the three declared tables: a rule matches exactly the instances of
    its patterns, the tables fit the arities the validators accept, a
    validated op has a numerics contract in [f32] or [i32].

    ** The step graph: [r9v-ir/src/graph.rs]

    [Graph] (keys, bindings, the builder's calls, views, the topological
    order) and [Materialize] (copy insertion, validation, the summary);
    [GraphInv] (orders in the abstract, and well-formed graphs,
    kept by every builder call), [GraphTopo], [GraphMaterialize],
    [GraphSchedule] and [GraphBuild].  A builder call never panics and
    changes nothing when refused; an order is found exactly when there is
    one; copies meet every contiguity requirement and make no graph
    unschedulable.

    ** The kernel registry: [r9v-registry/src]

    [RegStatic] ([types.rs]: op ids, the ten static families, their
    validation and their construction from an op and its facts) with
    [RegStaticSpec]: deriving a descriptor succeeds exactly on agreeing facts
    and forgets nothing but the layer and the symbols.  [Registry]
    ([manifest.rs], [tune.rs], [variant.rs], [resolution.rs]) with
    [RegistrySpec]: every loading call keeps the registry valid, and
    [resolve] implements the documented order of the sources.  [RegistryUse]
    composes it with the graph cache, whose launches are of validated
    variants only, and confines the files modules are loaded from.

    ** Bounds

    The counts and sizes come from the source ([MAX_*_HARD], the width of
    each integer).  The cycle walk of a tree mask takes one more turn of fuel
    than there are parents: every step marks a token that was not marked, and
    [cycle_check_exact] shows it never runs out.  The reader's loops over
    declared counts stop at the first item the buffer has no byte for, and
    every item takes at least one byte: [read_loop] has one more turn of fuel
    than the buffer has bytes, running out would be a [Panic], and
    [parse_sound] shows there is none.  [kahn] has one turn per op, since
    every turn takes an op; [resolve_loop], which follows a view to the op
    that made it, has one turn more than there are edges, since a view is
    younger than what it views; [topological_order_correct] holds of both.
    [renormalize], the loop of [f16_to_f32], has ten turns, one for each bit
    of the mantissa: [renormalize_done].
    [drain] of [SchedServe] has the work asked for as its fuel, and
    [work_is_finished] is the theorem that it suffices.

    ** Not modelled

    The plan descriptors and device tables of the IR; quantizing encoders,
    the decoders of the native schemes and the r9v metadata schema of the
    tensor format; the
    model families, which build graphs from a checkpoint's metadata; the
    model loader, tokenizer and templates; the floating-point reference
    kernels; the HIP bindings; configuration, code generation, logging,
    serialization, writing files and the command line.  Of the modelled
    crates: sets of shards ([ShardSet]), the serde adapters and the mutable
    iterators of inline vectors, the serde adapters of the registry and the
    lookup of a tune file by its parent directory, [Display] texts and
    tracing.  Resolution reads the registry under the lock of its owner and
    the module cache under its own: one call at a time.  The mapping of
    definitions to lines is kept beside the library. *)

From stdpp Require Export base gmap sets list list_numbers numbers sorting strings.
From Stdlib Require Export ZArith Lia.

#[global] Open Scope Z_scope.

(** ** Outcomes

    A fallible Rust function returns [Result<A, E>]; an out-of-range index, a
    failed [expect] or an arithmetic overflow in a checked build panics.  The
    three possibilities are kept apart, so that "never panics" is a theorem
    and not a convention. *)
Inductive outcome (E A : Type) : Type :=
| Ok (a : A)
| Err (e : E)
| Panic.
Arguments Ok {E A} a.
Arguments Err {E A} e.
Arguments Panic {E A}.

Definition obind {E A B} (c : outcome E A) (k : A → outcome E B) : outcome E B :=
  match c with
  | Ok a => k a
  | Err e => Err e
  | Panic => Panic
  end.

Definition omap_err {E F A} (f : E → F) (c : outcome E A) : outcome F A :=
  match c with
  | Ok a => Ok a
  | Err e => Err (f e)
  | Panic => Panic
  end.

(** [Option::ok_or]. *)
Definition ok_or {E A} (o : option A) (e : E) : outcome E A :=
  match o with
  | Some a => Ok a
  | None => Err e
  end.

(** [v[i]] and [expect]: the missing value panics. *)
Definition or_panic {E A} (o : option A) : outcome E A :=
  match o with
  | Some a => Ok a
  | None => Panic
  end.

Definition is_Ok {E A} (c : outcome E A) : bool :=
  match c with Ok _ => true | _ => false end.

(** ** State and error

    A method on [&mut self] is a function from the receiver to an outcome and
    the receiver left behind.  The receiver is returned on the error paths
    too: a method that fails half way leaves what it wrote, and "a refusal
    mutates nothing" has to be proved. *)
Definition stm (S E A : Type) : Type := S → outcome E A * S.

Section state_monad.
Context {S E : Type}.

Definition sret {A} (a : A) : stm S E A := λ s, (Ok a, s).
Definition sfail {A} (e : E) : stm S E A := λ s, (Err e, s).
Definition spanic {A} : stm S E A := λ s, (Panic, s).
Definition slift {A} (c : outcome E A) : stm S E A := λ s, (c, s).
Definition sget : stm S E S := λ s, (Ok s, s).
Definition smodify (f : S → S) : stm S E unit := λ s, (Ok tt, f s).
Definition sread {A} (f : S → outcome E A) : stm S E A := λ s, (f s, s).

Definition sbind {A B} (c : stm S E A) (k : A → stm S E B) : stm S E B :=
  λ s, match c s with
       | (Ok a, s') => k a s'
       | (Err e, s') => (Err e, s')
       | (Panic, s') => (Panic, s')
       end.
End state_monad.

(** Running an action on a part of the receiver. *)
Definition szoom {S T E A} (get : S → T) (set : T → S → S) (c : stm T E A) : stm S E A :=
  λ s, let '(r, t) := c (get s) in (r, set t s).

Declare Scope r9v_scope.
Delimit Scope r9v_scope with r9v.
#[global] Open Scope r9v_scope.

Notation "'let*' x := c 'in' k" := (obind c (λ x, k))
  (at level 10, x pattern, c at level 100, k at level 200,
   format "'[v' 'let*'  x  :=  c  'in' '/' k ']'") : r9v_scope.
Notation "'let!' x := c 'in' k" := (sbind c (λ x, k))
  (at level 10, x pattern, c at level 100, k at level 200,
   format "'[v' 'let!'  x  :=  c  'in' '/' k ']'") : r9v_scope.

(** Running a list of actions left to right. *)
Fixpoint sfor {S E A} (f : A → stm S E unit) (l : list A) : stm S E unit :=
  match l with
  | [] => sret tt
  | x :: l => let! _ := f x in sfor f l
  end.

(** [collect] over a fallible closure. *)
Fixpoint omapM {E A B} (f : A → outcome E B) (l : list A) : outcome E (list B) :=
  match l with
  | [] => Ok []
  | x :: l => let* y := f x in let* ys := omapM f l in Ok (y :: ys)
  end.

(** A fallible loop body run for its checks only. *)
Fixpoint oforM {E A} (f : A → outcome E unit) (l : list A) : outcome E unit :=
  match l with
  | [] => Ok tt
  | x :: l => let* _ := f x in oforM f l
  end.

(** A loop without a syntactic bound runs on fuel; [None] is running out of
    it, which is kept apart from every outcome. *)
Definition fbind {E A B} (c : option (outcome E A)) (k : A → option (outcome E B))
    : option (outcome E B) :=
  match c with
  | Some (Ok a) => k a
  | Some (Err e) => Some (Err e)
  | Some Panic => Some Panic
  | None => None
  end.

(** ** Machine integers

    A [u32], [u64] or [usize] is an integer in range; [usize] is 64 bits wide
    (every target of the repository).  The checked operations are the
    [checked_*] methods. *)
Definition U32_MAX : Z := 4294967295.
Definition U64_MAX : Z := 18446744073709551615.
Definition USIZE_MAX : Z := U64_MAX.

Definition checked_add (mx a b : Z) : option Z :=
  if a + b <=? mx then Some (a + b) else None.
Definition checked_sub (a b : Z) : option Z :=
  if b <=? a then Some (a - b) else None.
Definition checked_mul (mx a b : Z) : option Z :=
  if a * b <=? mx then Some (a * b) else None.
Definition checked_div (a b : Z) : option Z :=
  if b =? 0 then None else Some (a / b).
(** [u32::try_from] and the like. *)
Definition try_from (mx a : Z) : option Z :=
  if (0 <=? a) && (a <=? mx) then Some a else None.
Definition saturating_sub (a b : Z) : Z := if b <=? a then a - b else 0.
Definition saturating_add (mx a b : Z) : Z := Z.min mx (a + b).
(** [u32::div_ceil]. *)
Definition div_ceil (a b : Z) : Z :=
  if a mod b =? 0 then a / b else a / b + 1.

Definition is_u32 (a : Z) : Prop := 0 ≤ a ≤ U32_MAX.
Definition is_u64 (a : Z) : Prop := 0 ≤ a ≤ U64_MAX.

(** [0..n] and [lo..hi] as lists. *)
Definition zrange (lo hi : Z) : list Z := seqZ lo (hi - lo).

(** The plain operators of an optimised build wrap around. *)
Definition u64_sub (a b : Z) : Z := (a - b) mod 2 ^ 64.
Definition u32_add (a b : Z) : Z := (a + b) mod 2 ^ 32.
(** [x as u32]. *)
Definition as_u32 (a : Z) : Z := a mod 2 ^ 32.
(** [x as i32]. *)
Definition as_i32 (a : Z) : Z := (a + 2 ^ 31) mod 2 ^ 32 - 2 ^ 31.

Lemma as_u32_small x : 0 ≤ x ≤ U32_MAX → as_u32 x = x.
Proof. intros Hx. unfold as_u32. apply Z.mod_small. unfold U32_MAX in *. lia. Qed.

Lemma as_i32_small x : - 2 ^ 31 ≤ x < 2 ^ 31 → as_i32 x = x.
Proof. intros Hx. unfold as_i32. rewrite Z.mod_small; lia. Qed.

(** ** Vectors *)

(** [0..n] and [start..start + len] on indices. *)
Definition seqn_from (start len : nat) : list nat := seq start len.
Definition seqn (n : nat) : list nat := seqn_from 0 n.

(** [iter().enumerate()]. *)
Definition enumerate {A} (l : list A) : list (nat * A) := imap pair l.

(** [v[i] = x], which panics out of range. *)
Definition vec_set {E A} (i : nat) (x : A) (l : list A) : outcome E (list A) :=
  if (i <? length l)%nat then Ok (<[i := x]> l) else Panic.

(** [v.get(i).and_then(|p| p.as_ref())] on a vector of options. *)
Definition get_some {A} (i : nat) (l : list (option A)) : option A := mjoin (l !! i).

(** [slice::partition_point]: on a slice partitioned by [p] (its documented
    precondition), the number of elements before the first that fails [p]. *)
Fixpoint partition_point {A} (p : A → bool) (l : list A) : nat :=
  match l with
  | [] => 0%nat
  | x :: l => if p x then S (partition_point p l) else 0%nat
  end.

(** [Vec::insert], which panics past the end. *)
Definition vec_insert {E A} (at_ : nat) (x : A) (l : list A) : outcome E (list A) :=
  if (at_ <=? length l)%nat then Ok (take at_ l ++ x :: drop at_ l) else Panic.

(** [Vec::remove], which panics past the end. *)
Definition vec_remove {E A} (at_ : nat) (l : list A) : outcome E (A * list A) :=
  match l !! at_ with
  | Some x => Ok (x, take at_ l ++ drop (S at_) l)
  | None => Panic
  end.

(** [Vec::pop]. *)
Definition vec_pop {A} (l : list A) : option A * list A :=
  match last l with
  | Some x => (Some x, removelast l)
  | None => (None, l)
  end.

(** [iter().sum()]. *)
Definition Zsum (l : list Z) : Z := foldr Z.add 0 l.

(** Ascending and descending vectors without repetition. *)
Definition ascending : list Z → Prop := StronglySorted Z.lt.
Definition descending : list Z → Prop := StronglySorted Z.gt.

(** ** Inversion of monadic code *)

Lemma obind_Ok_inv {E A B} (c : outcome E A) (k : A → outcome E B) b :
  obind c k = Ok b → ∃ a, c = Ok a ∧ k a = Ok b.
Proof. destruct c; simpl; intros; simplify_eq; eauto. Qed.

Lemma obind_Err_inv {E A B} (c : outcome E A) (k : A → outcome E B) e :
  obind c k = Err e → c = Err e ∨ ∃ a, c = Ok a ∧ k a = Err e.
Proof. destruct c; simpl; intros; simplify_eq; eauto. Qed.

(** What cannot panic, as hints. *)
Lemma obind_total {E A B} (c : outcome E A) (k : A → outcome E B) :
  c ≠ Panic → (∀ a, c = Ok a → k a ≠ Panic) → obind c k ≠ Panic.
Proof. destruct c; naive_solver. Qed.
Lemma ok_or_total {E A} (o : option A) (e : E) : ok_or o e ≠ Panic.
Proof. by destruct o. Qed.
Lemma omap_err_total {E F A} (f : E → F) (c : outcome E A) : c ≠ Panic → omap_err f c ≠ Panic.
Proof. by destruct c. Qed.
Lemma Ok_total {E A} (a : A) : Ok (E:=E) a ≠ Panic.
Proof. done. Qed.
Lemma Err_total {E A} (e : E) : Err (A:=A) e ≠ Panic.
Proof. done. Qed.

Create HintDb total.
#[export] Hint Resolve obind_total ok_or_total omap_err_total Ok_total Err_total : total.

Lemma sbind_Ok_inv {S E A B} (c : stm S E A) (k : A → stm S E B) s b s' :
  sbind c k s = (Ok b, s') → ∃ a s1, c s = (Ok a, s1) ∧ k a s1 = (Ok b, s').
Proof. unfold sbind. destruct (c s) as [[]]; intros; simplify_eq; eauto. Qed.

Lemma sbind_Ok {S E A B} (c : stm S E A) (k : A → stm S E B) s a s1 :
  c s = (Ok a, s1) → sbind c k s = k a s1.
Proof. unfold sbind. by intros ->. Qed.

Lemma sbind_Err {S E A B} (c : stm S E A) (k : A → stm S E B) s e s1 :
  c s = (Err e, s1) → sbind c k s = (Err e, s1).
Proof. unfold sbind. by intros ->. Qed.

Lemma oforM_Ok {E A} (f : A → outcome E unit) l :
  oforM f l = Ok tt ↔ Forall (λ x, f x = Ok tt) l.
Proof.
  induction l as [|x l IH]; simpl; [split; [by constructor | done] |].
  rewrite Forall_cons, <- IH.
  destruct (f x) as [[]| |]; simpl; naive_solver.
Qed.

Lemma oforM_result {E A} (f : A → outcome E unit) l :
  match oforM f l with
  | Ok _ => Forall (λ x, f x = Ok tt) l
  | Err e => ∃ x, x ∈ l ∧ f x = Err e
  | Panic => ∃ x, x ∈ l ∧ f x = Panic
  end.
Proof.
  induction l as [|x l IH]; simpl; [done|].
  destruct (f x) as [[]|e|] eqn:Hf; simpl; [|by exists x; split; [left|]..].
  destruct (oforM f l).
  - by constructor.
  - destruct IH as (y & ? & ?). exists y. by split; [right|].
  - destruct IH as (y & ? & ?). exists y. by split; [right|].
Qed.

Lemma omapM_result {E A B} (f : A → outcome E B) l :
  match omapM f l with
  | Ok k => Forall2 (λ x y, f x = Ok y) l k
  | Err e => ∃ x, x ∈ l ∧ f x = Err e
  | Panic => ∃ x, x ∈ l ∧ f x = Panic
  end.
Proof.
  induction l as [|x l IH]; simpl; [constructor|].
  destruct (f x) as [y|e|] eqn:Hf; simpl; [|by exists x; split; [left|]..].
  destruct (omapM f l); simpl.
  - by constructor.
  - destruct IH as (z & ? & ?). exists z. by split; [right|].
  - destruct IH as (z & ? & ?). exists z. by split; [right|].
Qed.

Lemma omapM_Forall2 {E A B} (f : A → outcome E B) l k :
  omapM f l = Ok k ↔ Forall2 (λ x y, f x = Ok y) l k.
Proof.
  revert k. induction l as [|x l IH]; intros k; simpl.
  - split; [intros; simplify_eq; constructor | by inversion 1].
  - split.
    + intros (y & Hy & (ys & Hys & [= <-])%obind_Ok_inv)%obind_Ok_inv.
      constructor; [done | by apply IH].
    + inversion 1 as [|? y ? ys Hy Hys]; subst. rewrite Hy. simpl.
      apply IH in Hys. by rewrite Hys.
Qed.

(** Step over the successful binds of a hypothesis. *)
Ltac inv_ok :=
  repeat match goal with
  | H : obind _ _ = Ok _ |- _ => apply obind_Ok_inv in H as (? & ? & ?)
  | H : sbind _ _ _ = (Ok _, _) |- _ => apply sbind_Ok_inv in H as (? & ? & ? & ?)
  | H : (Ok _, _) = (Ok _, _) |- _ => injection H as ? ?; subst
  | H : Ok _ = Ok _ |- _ => injection H as ?; subst
  | H : (Err _, _) = (Ok _, _) |- _ => discriminate H
  | H : Err _ = Ok _ |- _ => discriminate H
  | H : (Panic, _) = (Ok _, _) |- _ => discriminate H
  | H : Panic = Ok _ |- _ => discriminate H
  | H : ok_or ?o _ = Ok _ |- _ => destruct o eqn:?; simpl in H
  | H : or_panic ?o = Ok _ |- _ => destruct o eqn:?; simpl in H
  end.

(** ** Checked arithmetic *)

Lemma checked_add_Some mx a b r :
  checked_add mx a b = Some r ↔ r = a + b ∧ a + b ≤ mx.
Proof. unfold checked_add. destruct (Z.leb_spec (a + b) mx); naive_solver lia. Qed.

Lemma checked_mul_Some mx a b r :
  checked_mul mx a b = Some r ↔ r = a * b ∧ a * b ≤ mx.
Proof. unfold checked_mul. destruct (Z.leb_spec (a * b) mx); naive_solver lia. Qed.

Lemma checked_sub_Some a b r : checked_sub a b = Some r ↔ r = a - b ∧ b ≤ a.
Proof. unfold checked_sub. destruct (Z.leb_spec b a); naive_solver lia. Qed.

Lemma checked_add_ok mx a b : a + b ≤ mx → checked_add mx a b = Some (a + b).
Proof. intros. by apply checked_add_Some. Qed.
Lemma checked_mul_ok mx a b : a * b ≤ mx → checked_mul mx a b = Some (a * b).
Proof. intros. by apply checked_mul_Some. Qed.
Lemma checked_sub_ok a b : b ≤ a → checked_sub a b = Some (a - b).
Proof. intros. by apply checked_sub_Some. Qed.

Lemma try_from_Some mx a r : try_from mx a = Some r ↔ r = a ∧ 0 ≤ a ≤ mx.
Proof.
  unfold try_from. destruct (Z.leb_spec 0 a), (Z.leb_spec a mx); simpl; naive_solver lia.
Qed.
Lemma try_from_ok mx a : 0 ≤ a ≤ mx → try_from mx a = Some a.
Proof. intros. by apply try_from_Some. Qed.

Lemma div_ceil_spec a b : 0 < b → b * (div_ceil a b - 1) < a ≤ b * div_ceil a b.
Proof.
  intros Hb. unfold div_ceil.
  pose proof (Z.div_mod a b ltac:(lia)). pose proof (Z.mod_pos_bound a b Hb).
  destruct (Z.eqb_spec (a mod b) 0); lia.
Qed.

Lemma elem_of_zrange lo hi x : x ∈ zrange lo hi ↔ lo ≤ x < hi.
Proof. unfold zrange. rewrite elem_of_seqZ. lia. Qed.

(** ** Partition points of sorted vectors *)

Section partition_point.
Context {A : Type}.
Implicit Types (p : A → bool) (l : list A).

Lemma partition_point_le p l : (partition_point p l ≤ length l)%nat.
Proof. induction l as [|x l IH]; simpl; [lia|]. destruct (p x); simpl; lia. Qed.

Lemma partition_point_take p l :
  Forall (λ x, p x = true) (take (partition_point p l) l).
Proof.
  induction l as [|x l IH]; simpl; [constructor|].
  destruct (p x) eqn:?; simpl; by constructor.
Qed.

Lemma partition_point_drop (R : relation A) p l :
  (∀ x y, R x y → p y = true → p x = true) → StronglySorted R l →
  Forall (λ x, p x = false) (drop (partition_point p l) l).
Proof.
  intros Hp. induction 1 as [|x l Hl IH Hx]; simpl; [constructor|].
  destruct (p x) eqn:Hpx; simpl; [done|].
  constructor; [done|]. eapply Forall_impl; [done|]. intros y Hxy.
  destruct (p y) eqn:?; [|done]. by rewrite (Hp x y) in Hpx.
Qed.
End partition_point.

Lemma ascending_pp_drop x l :
  ascending l → Forall (λ y, x ≤ y) (drop (partition_point (λ i, i <? x) l) l).
Proof.
  intros Hl. eapply Forall_impl.
  - apply (partition_point_drop Z.lt); [|done]. intros y z. lia.
  - simpl. intros y. lia.
Qed.

Lemma ascending_pp_take x l :
  Forall (λ y, y < x) (take (partition_point (λ i, i <? x) l) l).
Proof.
  eapply Forall_impl; [apply partition_point_take|]. simpl. intros y. lia.
Qed.

(** The binary search of a sorted vector finds exactly its elements. *)
Lemma ascending_pp_lookup x l :
  ascending l → l !! partition_point (λ i, i <? x) l = Some x ↔ x ∈ l.
Proof.
  intros Hl. split; [apply list_elem_of_lookup_2|]. intros Hx.
  pose proof (ascending_pp_take x l) as Ht. pose proof (ascending_pp_drop x l Hl) as Hd.
  set (k := partition_point (λ i, i <? x) l) in *.
  rewrite <- (take_drop k l) in Hx at 1. apply elem_of_app in Hx as [Hx|Hx].
  { rewrite Forall_forall in Ht. specialize (Ht x Hx). lia. }
  destruct (drop k l) as [|y r] eqn:Hdr; [by apply elem_of_nil in Hx|].
  assert (l !! k = Some y) as Hy.
  { rewrite <- (Nat.add_0_r k), <- lookup_drop, Hdr. done. }
  apply elem_of_cons in Hx as [->|Hx]; [done|].
  assert (ascending (y :: r)) as Hyr.
  { rewrite <- Hdr. rewrite <- (take_drop k l) in Hl. by eapply StronglySorted_app_1_r. }
  apply StronglySorted_cons in Hyr as [Hyr _]. rewrite Forall_forall in Hyr, Hd.
  specialize (Hyr x Hx). specialize (Hd y (list_elem_of_here _ _)). lia.
Qed.

Lemma ascending_insert x l :
  ascending l → x ∉ l →
  let k := partition_point (λ i, i <? x) l in
  ascending (take k l ++ x :: drop k l).
Proof.
  intros Hl Hx k. pose proof (ascending_pp_take x l) as Ht.
  pose proof (ascending_pp_drop x l Hl) as Hd. fold k in Ht, Hd.
  assert (ascending (take k l ++ drop k l)) as Hl' by by rewrite take_drop.
  apply StronglySorted_app in Hl' as (Hm & H1 & H2).
  rewrite Forall_forall in Ht, Hd.
  apply StronglySorted_app. split_and!; [|done|].
  - intros y z Hy Hz. specialize (Ht y Hy).
    apply elem_of_cons in Hz as [->|Hz]; [lia|]. specialize (Hd z Hz). lia.
  - constructor; [done|]. apply Forall_forall. intros y Hy. specialize (Hd y Hy).
    assert (y ≠ x); [|lia]. intros ->. apply Hx. rewrite <- (take_drop k l). set_solver.
Qed.

Lemma descending_pp_drop x l :
  descending l → Forall (λ y, y ≤ x) (drop (partition_point (λ i, x <? i) l) l).
Proof.
  intros Hl. eapply Forall_impl.
  - apply (partition_point_drop Z.gt); [|done]. intros y z. lia.
  - simpl. intros y. lia.
Qed.

Lemma descending_pp_take x l :
  Forall (λ y, x < y) (take (partition_point (λ i, x <? i) l) l).
Proof.
  eapply Forall_impl; [apply partition_point_take|]. simpl. intros y. lia.
Qed.

Lemma descending_insert x l :
  descending l → x ∉ l →
  let k := partition_point (λ i, x <? i) l in
  descending (take k l ++ x :: drop k l).
Proof.
  intros Hl Hx k. pose proof (descending_pp_take x l) as Ht.
  pose proof (descending_pp_drop x l Hl) as Hd. fold k in Ht, Hd.
  assert (descending (take k l ++ drop k l)) as Hl' by by rewrite take_drop.
  apply StronglySorted_app in Hl' as (Hm & H1 & H2).
  rewrite Forall_forall in Ht, Hd.
  apply StronglySorted_app. split_and!; [|done|].
  - intros y z Hy Hz. specialize (Ht y Hy).
    apply elem_of_cons in Hz as [->|Hz]; [lia|]. specialize (Hd z Hz). lia.
  - constructor; [done|]. apply Forall_forall. intros y Hy. specialize (Hd y Hy).
    assert (y ≠ x); [|lia]. intros ->. apply Hx. rewrite <- (take_drop k l). set_solver.
Qed.

Lemma ascending_NoDup l : ascending l → NoDup l.
Proof.
  induction 1 as [|x l Hl IH Hx]; constructor; [|done].
  intros Hin. rewrite Forall_forall in Hx. specialize (Hx x Hin). lia.
Qed.

Lemma descending_NoDup l : descending l → NoDup l.
Proof.
  induction 1 as [|x l Hl IH Hx]; constructor; [|done].
  intros Hin. rewrite Forall_forall in Hx. specialize (Hx x Hin). lia.
Qed.

#[global] Instance Zgt_antisymm : AntiSymm (=) Z.gt.
Proof. intros x y. lia. Qed.
#[global] Instance Zlt_antisymm : AntiSymm (=) Z.lt.
Proof. intros x y. lia. Qed.

(** A descending vector is determined by its elements: the order in which ids
    come back to a free list leaves no trace. *)
Lemma descending_unique l k : descending l → descending k → l ≡ₚ k → l = k.
Proof. apply StronglySorted_unique. apply _. Qed.

Lemma vec_insert_Ok {E A} at_ (x : A) l :
  (at_ ≤ length l)%nat → vec_insert (E:=E) at_ x l = Ok (take at_ l ++ x :: drop at_ l).
Proof. intros. unfold vec_insert. by rewrite (proj2 (Nat.leb_le _ _)). Qed.

Lemma vec_remove_Ok {E A} at_ (x : A) l :
  l !! at_ = Some x → vec_remove (E:=E) at_ l = Ok (x, take at_ l ++ drop (S at_) l).
Proof. unfold vec_remove. by intros ->. Qed.

Lemma insert_at_Permutation {A} at_ (x : A) l : take at_ l ++ x :: drop at_ l ≡ₚ x :: l.
Proof. rewrite <- Permutation_middle, take_drop. done. Qed.

Lemma remove_at_Permutation {A} at_ (x : A) l :
  l !! at_ = Some x → x :: take at_ l ++ drop (S at_) l ≡ₚ l.
Proof. intros H. rewrite <- (take_drop_middle l at_ x H) at 3. apply Permutation_middle. Qed.

Lemma insert_at_length {A} at_ (x : A) l : length (take at_ l ++ x :: drop at_ l) = S (length l).
Proof. rewrite insert_at_Permutation. done. Qed.

(** Inserting and removing at the same position cancel. *)
Lemma remove_insert_at {A} at_ (x : A) l :
  (at_ ≤ length l)%nat →
  let l' := take at_ l ++ x :: drop at_ l in
  l' !! at_ = Some x ∧ take at_ l' ++ drop (S at_) l' = l.
Proof.
  intros Hat l'. assert (length (take at_ l) = at_) as Hlen.
  { rewrite length_take. lia. }
  split.
  - unfold l'. rewrite lookup_app_r by lia. rewrite Hlen, Nat.sub_diag. done.
  - unfold l'. rewrite take_app_le, drop_app_ge by lia.
    rewrite Hlen. rewrite take_take, Nat.min_id.
    replace (S at_ - at_)%nat with 1%nat by lia. simpl. by rewrite drop_0, take_drop.
Qed.

Lemma vec_pop_snoc {A} (l : list A) x : vec_pop (l ++ [x]) = (Some x, l).
Proof. unfold vec_pop. by rewrite last_snoc, removelast_last. Qed.

Lemma vec_pop_Some {A} (l l' : list A) x : vec_pop l = (Some x, l') → l = l' ++ [x].
Proof.
  destruct l as [|y l _] using rev_ind; [done|]. rewrite vec_pop_snoc. naive_solver.
Qed.

Lemma vec_pop_None {A} (l l' : list A) : vec_pop l = (None, l') → l = [] ∧ l' = [].
Proof.
  destruct l as [|y l _] using rev_ind; [unfold vec_pop; naive_solver|].
  rewrite vec_pop_snoc. done.
Qed.

Lemma elem_of_rev {A} (l : list A) x : x ∈ rev l ↔ x ∈ l.
Proof. by rewrite <- Permutation_rev. Qed.

(** ** Blocks of 32 *)

Lemma div_ceil_mono a b c : 0 < c → a ≤ b → div_ceil a c ≤ div_ceil b c.
Proof.
  intros Hc Hab. pose proof (div_ceil_spec a c Hc). pose proof (div_ceil_spec b c Hc). nia.
Qed.

Lemma div_le_div_ceil a c : 0 < c → a / c ≤ div_ceil a c.
Proof.
  intros Hc. unfold div_ceil. destruct (a mod c =? 0); lia.
Qed.

Lemma div_ceil_mul_le a b c : 0 < c → a ≤ b * c → div_ceil a c ≤ b.
Proof. intros Hc Hab. pose proof (div_ceil_spec a c Hc). nia. Qed.

Lemma div_ceil_nonneg a c : 0 < c → 0 ≤ a → 0 ≤ div_ceil a c.
Proof. intros Hc Ha. pose proof (div_ceil_spec a c Hc). nia. Qed.

(** The block of a position below [end_] lies below the ceiling. *)
Lemma pos_block_lt p end_ c : 0 < c → p < end_ → p / c < div_ceil end_ c.
Proof.
  intros Hc Hp. pose proof (div_ceil_spec end_ c Hc).
  pose proof (Z.div_mod p c ltac:(lia)). pose proof (Z.mod_pos_bound p c Hc). nia.
Qed.

(** ** Loops *)

Lemma sfor_app {S E A} (f : A → stm S E unit) l k s :
  sfor f (l ++ k) s = sbind (sfor f l) (λ _, sfor f k) s.
Proof.
  revert s. induction l as [|x l IH]; intros s; simpl; [done|].
  unfold sbind in *. destruct (f x s) as [[[]| |] s']; done.
Qed.

Lemma enumerate_lookup {A} (l : list A) i x k :
  enumerate l !! k = Some (i, x) ↔ i = k ∧ l !! k = Some x.
Proof.
  unfold enumerate. rewrite list_lookup_imap. destruct (l !! k); simpl; naive_solver.
Qed.

Lemma elem_of_enumerate {A} (l : list A) i x : (i, x) ∈ enumerate l ↔ l !! i = Some x.
Proof.
  rewrite list_elem_of_lookup. setoid_rewrite enumerate_lookup. naive_solver.
Qed.

Lemma seqn_S n : seqn (S n) = seqn n ++ [n].
Proof. unfold seqn, seqn_from. by rewrite seq_S. Qed.

Lemma elem_of_seqn k n : k ∈ seqn n ↔ (k < n)%nat.
Proof. unfold seqn, seqn_from. rewrite elem_of_seq. lia. Qed.

Lemma elem_of_concat_map {A B} (f : A → list B) l y :
  y ∈ concat (map f l) ↔ ∃ x, x ∈ l ∧ y ∈ f x.
Proof.
  induction l as [|x l IH]; simpl.
  - rewrite elem_of_nil. split; [done|]. intros (? & []%elem_of_nil & _).
  - rewrite elem_of_app, IH. setoid_rewrite elem_of_cons. naive_solver.
Qed.

Lemma NoDup_take {A} (l : list A) k : NoDup l → NoDup (take k l).
Proof. intros H. rewrite <- (take_drop k l) in H. by apply NoDup_app in H as [? _]. Qed.
Lemma NoDup_drop {A} (l : list A) k : NoDup l → NoDup (drop k l).
Proof. intros H. rewrite <- (take_drop k l) in H. by apply NoDup_app in H as (_ & _ & ?). Qed.

Lemma enumerate_snoc {A} (l : list A) x : enumerate (l ++ [x]) = enumerate l ++ [(length l, x)].
Proof. unfold enumerate. rewrite imap_app. simpl. by rewrite Nat.add_0_r. Qed.

Lemma sfor_snoc {S E A} (f : A → stm S E unit) l x s s' :
  sfor f l s = (Ok tt, s') → sfor f (l ++ [x]) s = f x s'.
Proof.
  intros H. rewrite sfor_app. erewrite sbind_Ok by done. simpl. unfold sbind.
  by destruct (f x s') as [[[]| |] ?].
Qed.

Lemma foldl_add_Zsum l a : foldl Z.add a l = a + Zsum l.
Proof. unfold Zsum. revert a. induction l as [|x l IH]; simpl; intros a; [lia|]. rewrite IH. lia. Qed.

Lemma Zsum_cons x l : Zsum (x :: l) = x + Zsum l.
Proof. done. Qed.

Lemma Zsum_app l k : Zsum (l ++ k) = Zsum l + Zsum k.
Proof. unfold Zsum. induction l as [|x l IH]; simpl; [lia|]. rewrite IH. lia. Qed.

#[global] Instance Zsum_Proper : Proper ((≡ₚ) ==> (=)) Zsum.
Proof. unfold Zsum. induction 1; simpl; lia. Qed.

Lemma Zsum_pos l : Forall (λ x, 0 ≤ x) l → 0 ≤ Zsum l.
Proof. unfold Zsum. induction 1; simpl; lia. Qed.

Lemma omapM_total {E A B} (f : A → outcome E B) (g : A → B) l :
  (∀ x, x ∈ l → f x = Ok (g x)) → omapM f l = Ok (map g l).
Proof.
  induction l as [|x l IH]; simpl; intros H; [done|].
  rewrite H by by left. simpl. rewrite IH by (intros; apply H; by right). done.
Qed.

Lemma concat_map_nil {A B} (g : A → list B) l :
  concat (map g l) = [] ↔ ∀ x, x ∈ l → g x = [].
Proof.
  induction l as [|x l IH]; simpl; [split; [by intros _ y ?%elem_of_nil|done]|].
  rewrite app_nil, IH. split.
  - intros [H0 Hs] y [->|Hy]%elem_of_cons; [done|by apply Hs].
  - intros H. split; [apply H; by left|]. intros y Hy. apply H. by right.
Qed.
