(* ===== verification/Wp.v ===== *)
(** * Reasoning about state and error

    [wp c Q R s]: run from [s], [c] does not panic, its answers satisfy [Q] and
    its refusals [R].  One rule per construct of the state-and-error monad;
    [wp_step] applies the rule the head of the program calls for.

    Refinement of an abstract object: A component and its specification are two objects that answer the same
    operations.  The component refines the specification through a relation on
    their states when related states give equal answers and related successors;
    then no sequence of operations tells them apart. *)

From S2P Require Import Prelude.

#[global] Open Scope Z_scope.

Section wp.
Context {S E : Type}.
Implicit Types (s : S) (e : E).

Definition wp {A} (c : stm S E A) (Q : A → S → Prop) (R : E → S → Prop) s : Prop :=
  match c s with
  | (Ok a, s') => Q a s'
  | (Err e, s') => R e s'
  | (Panic, _) => False
  end.

Lemma wp_bind {A B} (c : stm S E A) (k : A → stm S E B) Q R s :
  wp c (λ a, wp (k a) Q R) R s → wp (sbind c k) Q R s.
Proof. unfold wp, sbind. by destruct (c s) as [[]]. Qed.

Lemma wp_ret {A} (a : A) (Q : A → S → Prop) R s : Q a s → wp (sret a) Q R s.
Proof. done. Qed.

Lemma wp_fail {A} e (Q : A → S → Prop) (R : E → S → Prop) s : R e s → wp (sfail e) Q R s.
Proof. done. Qed.

Lemma wp_get (Q : S → S → Prop) (R : E → S → Prop) s : Q s s → wp sget Q R s.
Proof. done. Qed.

Lemma wp_modify f (Q : unit → S → Prop) (R : E → S → Prop) s : Q tt (f s) → wp (smodify f) Q R s.
Proof. done. Qed.

Lemma wp_lift {A} (c : outcome E A) (Q : A → S → Prop) (R : E → S → Prop) s :
  c ≠ Panic → (∀ a, c = Ok a → Q a s) → (∀ e, c = Err e → R e s) → wp (slift c) Q R s.
Proof. unfold wp, slift. destruct c; auto. Qed.

Lemma wp_mono {A} (c : stm S E A) (Q Q' : A → S → Prop) (R R' : E → S → Prop) s :
  wp c Q R s → (∀ a s', Q a s' → Q' a s') → (∀ e s', R e s' → R' e s') → wp c Q' R' s.
Proof. unfold wp. destruct (c s) as [[]]; auto. Qed.

(** A program that refuses can be given any postcondition for its answers. *)
Lemma wp_refuses {A} (c : stm S E A) (Q : A → S → Prop) (R R' : E → S → Prop) s :
  wp c (λ _ _, False) R s → (∀ e s', R e s' → R' e s') → wp c Q R' s.
Proof. intros Hc ?. eapply wp_mono; [exact Hc|done|done]. Qed.

Lemma wp_outcome {A} (c : stm S E A) Q R s :
  wp c Q R s ↔ (c s).1 ≠ Panic ∧ (∀ a s', c s = (Ok a, s') → Q a s') ∧ (∀ e s', c s = (Err e, s') → R e s').
Proof. unfold wp. destruct (c s) as [[a|e|] s']; simpl; naive_solver. Qed.
End wp.

Lemma wp_zoom {S T E A} (get : S → T) (set : T → S → S) (c : stm T E A) (Q : A → S → Prop) (R : E → S → Prop) s :
  wp c (λ a t, Q a (set t s)) (λ e t, R e (set t s)) (get s) → wp (szoom get set c) Q R s.
Proof. unfold wp, szoom. by destruct (c (get s)) as [[]]. Qed.

(** The rules, as hints. *)
Create HintDb wp.
#[export] Hint Resolve wp_ret wp_fail wp_get wp_modify : wp.

Ltac wp_step :=
  lazymatch goal with
  | |- wp (sbind _ _) _ _ _ => apply wp_bind
  | |- wp (sret _) _ _ _ => apply wp_ret
  | |- wp (sfail _) _ _ _ => apply wp_fail
  | |- wp sget _ _ _ => apply wp_get
  | |- wp (smodify _) _ _ _ => apply wp_modify
  | |- wp (slift _) _ _ _ => apply wp_lift
  | |- wp (szoom _ _ _) _ _ _ => apply wp_zoom
  end; cbn beta.

(** * Refinement of an abstract object *)

Section object.
Context {Op Ans : Type}.

(** An object over states [S]. *)
Abbreviation object S := (Op → S → Ans * S).

(** The answers to a sequence of operations. *)
Fixpoint run {S} (o : object S) (ops : list Op) (s : S) : list Ans * S :=
  match ops with
  | [] => ([], s)
  | op :: ops =>
      let '(a, s') := o op s in
      let '(rest, s'') := run o ops s' in
      (a :: rest, s'')
  end.

(** A forward simulation, for the operations that satisfy [ok]. *)
Class Refines {S A} (ok : Op → Prop) (concrete : object S) (abstract : object A)
    (R : S → A → Prop) : Prop :=
  refines_step op s a : ok op → R s a →
    (concrete op s).1 = (abstract op a).1 ∧ R (concrete op s).2 (abstract op a).2.

Lemma refines_run {S A} ok (concrete : object S) (abstract : object A) R
    `{!Refines ok concrete abstract R} ops s a :
  Forall ok ops → R s a →
  (run concrete ops s).1 = (run abstract ops a).1 ∧
  R (run concrete ops s).2 (run abstract ops a).2.
Proof.
  intros Hops. revert s a. induction Hops as [|op ops Hop Hops IH]; intros s a HR; simpl; [done|].
  destruct (refines_step op s a Hop HR) as [Heq HR'].
  destruct (concrete op s) as [x s'], (abstract op a) as [y a']. simpl in *. subst y.
  destruct (IH s' a' HR') as [Heq' HR''].
  destruct (run concrete ops s') as [xs s''], (run abstract ops a') as [ys a'']. simpl in *.
  by subst ys.
Qed.

(** What related states agree on, a run keeps. *)
Lemma run_invariant {S} (o : object S) (P : S → Prop) ops s :
  (∀ op s, P s → P (o op s).2) → P s → P (run o ops s).2.
Proof.
  intros Hstep. revert s. induction ops as [|op ops IH]; intros s Hs; simpl; [done|].
  specialize (Hstep op s Hs). destruct (o op s) as [x s']. specialize (IH s' Hstep).
  by destruct (run o ops s') as [xs s''].
Qed.
End object.
