(* ===== verification/Bytes.v ===== *)
(** * Bytes and texts

    A [u8] is an integer below 256, a byte buffer and a Rust string are lists
    of them.  Little-endian integers, UTF-8 validity, string literals, prefixes
    and the texts of formatted messages.

    Single-precision floats: The [f32] of the cost table and of the scheduler: IEEE 754 binary32 with
    round-to-nearest-even, as the Standard Library's executable [spec_float]
    at 24 bits of precision and exponent bound 128.  A NaN has no payload.

    Types of the Op IR: The closed sets of [crates/r9v-ir/src]: element types ([dtype.rs]),
    quantization ([quant.rs]), layouts ([layout.rs]), shapes, placements,
    sharding and classes of tensors ([tensor.rs]), state handles ([state.rs])
    and the external bindings of a step graph ([graph.rs]).  Errors carry them,
    so they come before [Errors.v]. *)

From Stdlib Require Export SpecFloat.
From S2P Require Import Prelude.

#[global] Open Scope Z_scope.

(** [DType]. *)
Module DType.
Inductive t : Type := F32 | F16 | Bf16 | E4m3 | E5m2 | I8 | I4 | I32 | U32 | Bool.

#[global] Instance eq_dec : EqDecision t.
Proof. solve_decision. Defined.
End DType.

(** [QuantScheme], with the opaque code of a [SchemeId]. *)
Module QuantScheme.
Inductive t : Type := None | PerRow | Scheme (id : Z) | PerToken | PerBlock32.

#[global] Instance eq_dec : EqDecision t.
Proof. solve_decision. Defined.

(** The scale type a scheme implies. *)
Definition scale_dtype (q : t) : option DType.t :=
  match q with
  | None | Scheme _ => Datatypes.None
  | PerRow => Some DType.F16
  | PerToken | PerBlock32 => Some DType.F32
  end.
End QuantScheme.

(** [LayoutId]: an opaque code, of which these are named. *)
Module LayoutId.
Definition CONTIGUOUS : Z := 0.
Definition L0 : Z := 1.
Definition L1 : Z := 2.
Definition L1S : Z := 3.
End LayoutId.

Module ShapeSymbol.
Inductive t : Type := T | S | Dm | Dff | H | Hkv | D | E | K | V | Np | L.

#[global] Instance eq_dec : EqDecision t.
Proof. solve_decision. Defined.
End ShapeSymbol.

(** [Dim]: concrete after capture, symbolic before. *)
Module Dim.
Inductive t : Type := Concrete (extent : Z) | Symbolic (symbol : ShapeSymbol.t).

#[global] Instance eq_dec : EqDecision t.
Proof. solve_decision. Defined.
End Dim.

Module Placement.
Inductive t : Type := Device (rank : Z) | Host | Tiered.

#[global] Instance eq_dec : EqDecision t.
Proof. solve_decision. Defined.
End Placement.

Module ShardLayout.
Inductive t : Type :=
| Replicated
| ColShard (axis : Z)
| RowShard (axis : Z)
| HeadShard (heads : Z)
| ExpertShard (experts : Z)
| Partial.

#[global] Instance eq_dec : EqDecision t.
Proof. solve_decision. Defined.
End ShardLayout.

(** [Class]. *)
Module TensorClass.
Inductive t : Type := Weight | Activation | State | Staging | Param.

#[global] Instance eq_dec : EqDecision t.
Proof. solve_decision. Defined.
End TensorClass.

Module StateKind.
Inductive t : Type := KvPaged | KvLatent | Recurrent | ConvWindow.

#[global] Instance eq_dec : EqDecision t.
Proof. solve_decision. Defined.
End StateKind.

Record StateHandle : Type := { h_layer : Z; h_kind : StateKind.t }.

(** ** External bindings of a step graph *)

Module ExternalInputKind.
Inductive t : Type :=
| TokenIds | BatchMeta | RngState | GatherStaging | GrammarMask | SamplingParams
| EmbedOverride | EmbedMask | SubgraphHidden.

#[global] Instance eq_dec : EqDecision t.
Proof. solve_decision. Defined.

Definition is_tensor_backed (k : t) : bool :=
  match k with
  | TokenIds | GatherStaging | GrammarMask | EmbedOverride | EmbedMask | SubgraphHidden => true
  | BatchMeta | SamplingParams | RngState => false
  end.
End ExternalInputKind.

Module ExternalOutputKind.
Inductive t : Type := Sampled | AcceptLen | Logits | Hidden | UpdatedRngState.

#[global] Instance eq_dec : EqDecision t.
Proof. solve_decision. Defined.

Definition is_tensor_backed (k : t) : bool :=
  match k with Sampled | AcceptLen | Logits | Hidden => true | UpdatedRngState => false end.
End ExternalOutputKind.

Module PositionsKind.
Inductive t : Type := Scalar | Mrope.

#[global] Instance eq_dec : EqDecision t.
Proof. solve_decision. Defined.
End PositionsKind.

(** * Bytes and texts *)

Abbreviation f32 := spec_float.

Definition f32_prec : Z := 24.
Definition f32_emax : Z := 128.

Definition f32_add : f32 → f32 → f32 := SFadd f32_prec f32_emax.
Definition f32_sub : f32 → f32 → f32 := SFsub f32_prec f32_emax.
Definition f32_mul : f32 → f32 → f32 := SFmul f32_prec f32_emax.

(** [x as f32] of an integer: rounded once, to nearest even. *)
Definition f32_of_Z (x : Z) : f32 := binary_normalize f32_prec f32_emax x 0 false.

(** A decimal literal [n / d], rounded once. *)
Definition f32_lit (n d : Z) : f32 := SFdiv f32_prec f32_emax (f32_of_Z n) (f32_of_Z d).

Definition f32_zero : f32 := S754_zero false.

(** [f32::is_finite]. *)
Definition is_finite (x : f32) : bool :=
  match x with
  | S754_zero _ | S754_finite _ _ _ => true
  | S754_infinity _ | S754_nan => false
  end.

(** The comparisons are false on a NaN. *)
Definition f32_lt (x y : f32) : bool := SFltb x y.
Definition f32_le (x y : f32) : bool := SFleb x y.

(** [x as u64] of a float: truncated, saturating, zero for a NaN. *)
Definition f32_to_u64 (x : f32) : Z :=
  match x with
  | S754_nan | S754_zero _ => 0
  | S754_infinity s => if s then 0 else U64_MAX
  | S754_finite true _ _ => 0
  | S754_finite false m e => Z.min U64_MAX (Z.shiftl (Z.pos m) e)
  end.

(** [f32::to_bits] and [f32::from_bits]: sign, biased exponent and mantissa;
    the payload of a NaN is the default one. *)
Definition f32_to_bits (x : f32) : Z :=
  match x with
  | S754_zero s => if s then 2 ^ 31 else 0
  | S754_infinity s => (if s then 2 ^ 31 else 0) + 255 * 2 ^ 23
  | S754_nan => 255 * 2 ^ 23 + 2 ^ 22
  | S754_finite s m e =>
      (if s then 2 ^ 31 else 0) +
      (if Z.pos m <? 2 ^ 23 then Z.pos m else (e + 150) * 2 ^ 23 + (Z.pos m - 2 ^ 23))
  end.

Definition f32_from_bits (b : Z) : f32 :=
  let s := 2 ^ 31 <=? b in
  let exponent := b / 2 ^ 23 mod 2 ^ 8 in
  let mantissa := b mod 2 ^ 23 in
  if exponent =? 255 then if mantissa =? 0 then S754_infinity s else S754_nan
  else if exponent =? 0 then
    match mantissa with Z.pos m => S754_finite s m (-149) | _ => S754_zero s end
  else
    match mantissa + 2 ^ 23 with Z.pos m => S754_finite s m (exponent - 150) | _ => S754_nan end.

(** ** Facts used by the scheduler *)

Lemma f32_lt_le x y : f32_lt x y = true → f32_le x y = true.
Proof. unfold f32_lt, f32_le, SFltb, SFleb. destruct (SFcompare x y) as [[]|]; done. Qed.

Lemma f32_le_zero_finite x : f32_le x f32_zero = false → is_finite x = true → f32_lt f32_zero x = true.
Proof.
  unfold f32_le, f32_lt, SFleb, SFltb, f32_zero. destruct x as [[]|[]| |[] ? ?]; done.
Qed.

Lemma f32_to_u64_u64 x : is_u64 (f32_to_u64 x).
Proof.
  unfold is_u64. destruct x as [?|[]| |[] m e]; simpl; unfold U64_MAX; try lia.
  pose proof (proj2 (Z.shiftl_nonneg (Z.pos m) e) ltac:(lia)). lia.
Qed.

(** The readings of concrete values. *)
Example f32_tenth : f32_lit 1 10 = S754_finite false 13421773 (-27).
Proof. reflexivity. Qed.
Example f32_halfway : f32_of_Z 16777217 = f32_of_Z 16777216.
Proof. reflexivity. Qed.
Example f32_truncates : f32_to_u64 (f32_mul (f32_lit 5 4) (f32_of_Z 1000)) = 1250.
Proof. reflexivity. Qed.

(** * Bytes and texts *)

(** ** Little-endian integers *)

Definition is_byte (b : Z) : Prop := 0 ≤ b < 256.

(** [x.to_le_bytes()] of an [n]-byte integer. *)
Fixpoint le_bytes (n : nat) (x : Z) : list Z :=
  match n with
  | O => []
  | S n => x mod 256 :: le_bytes n (x / 256)
  end.

(** [from_le_bytes]. *)
Fixpoint of_le_bytes (bytes : list Z) : Z :=
  match bytes with
  | [] => 0
  | b :: bytes => b + 256 * of_le_bytes bytes
  end.

Lemma length_le_bytes n x : length (le_bytes n x) = n.
Proof. revert x. induction n as [|n IH]; intros x; simpl; [done|by rewrite IH]. Qed.

Lemma le_bytes_byte n x : Forall is_byte (le_bytes n x).
Proof.
  revert x. induction n as [|n IH]; intros x; simpl; constructor; [|done].
  unfold is_byte. apply Z.mod_pos_bound. lia.
Qed.

Lemma of_le_bytes_mod n x : of_le_bytes (le_bytes n x) = x mod 256 ^ Z.of_nat n.
Proof.
  revert x. induction n as [|n IH]; intros x; [by rewrite Z.mod_1_r|].
  cbn [le_bytes of_le_bytes]. rewrite IH, Nat2Z.inj_succ, Z.pow_succ_r by lia.
  rewrite Z.rem_mul_r by (try apply Z.pow_pos_nonneg; lia). lia.
Qed.

Lemma of_le_bytes_small n x : 0 ≤ x < 256 ^ Z.of_nat n → of_le_bytes (le_bytes n x) = x.
Proof. intros Hx. rewrite of_le_bytes_mod. by apply Z.mod_small. Qed.

Lemma of_le_bytes_bound l : Forall is_byte l → 0 ≤ of_le_bytes l < 256 ^ Z.of_nat (length l).
Proof.
  induction 1 as [|b l Hb _ IH]; [by simpl; lia|]. unfold is_byte in Hb.
  cbn [of_le_bytes length]. rewrite Nat2Z.inj_succ, Z.pow_succ_r by lia. lia.
Qed.

Lemma le_bytes_of l : Forall is_byte l → le_bytes (length l) (of_le_bytes l) = l.
Proof.
  induction 1 as [|b l Hb _ IH]; simpl; [done|]. unfold is_byte in Hb.
  f_equal.
  - rewrite Z.mul_comm, Z_mod_plus_full. by apply Z.mod_small.
  - rewrite Z.mul_comm, Z.div_add, (Z.div_small b) by lia. done.
Qed.

(** ** UTF-8 *)

Definition between (lo hi b : Z) : bool := (lo <=? b) && (b <=? hi).
Definition is_cont (b : Z) : bool := between 128 191 b.

(** The second byte a lead byte admits. *)
Definition second_ok (b0 b1 : Z) : bool :=
  if b0 =? 224 then between 160 191 b1
  else if b0 =? 237 then between 128 159 b1
  else if b0 =? 240 then between 144 191 b1
  else if b0 =? 244 then between 128 143 b1
  else is_cont b1.

(** [std::str::from_utf8(..).is_ok()]. *)
Fixpoint from_utf8 (bs : list Z) : bool :=
  match bs with
  | [] => true
  | b0 :: bs =>
      if between 0 127 b0 then from_utf8 bs
      else match bs with
           | [] => false
           | b1 :: bs =>
               if between 194 223 b0 then is_cont b1 && from_utf8 bs
               else match bs with
                    | [] => false
                    | b2 :: bs =>
                        if between 224 239 b0 then second_ok b0 b1 && is_cont b2 && from_utf8 bs
                        else match bs with
                             | [] => false
                             | b3 :: bs =>
                                 between 240 244 b0 && second_ok b0 b1 && is_cont b2 && is_cont b3 &&
                                 from_utf8 bs
                             end
                    end
           end
  end.

(** The bytes of an ASCII literal. *)
Definition lit (s : string) : list Z := map (λ c, Z.of_nat (Ascii.nat_of_ascii c)) (String.list_ascii_of_string s).

(** [str::starts_with]. *)
Fixpoint starts_with (prefix s : list Z) : bool :=
  match prefix, s with
  | [], _ => true
  | b :: prefix, c :: s => (b =? c) && starts_with prefix s
  | _ :: _, [] => false
  end.

(** [str::to_ascii_lowercase]. *)
Definition to_ascii_lowercase (s : list Z) : list Z := map (λ b, if between 65 90 b then b + 32 else b) s.

(** ** Texts *)

(** The text of a formatted message: template and printed values, which are
    numbers, optional numbers, floats, names of variants, strings, lists and
    values of the Op IR. *)
Inductive Arg : Type :=
| Num (n : Z)
| Float (x : f32)
| Extent (d : Dim.t)
| Symbol (s : ShapeSymbol.t)
| Dtype (d : DType.t)
| MaybeDtype (d : option DType.t)
| Quant (q : QuantScheme.t)
| Shard (l : ShardLayout.t)
| Kind (k : StateKind.t)
| InputKind (k : ExternalInputKind.t)
| OutputKind (k : ExternalOutputKind.t)
| MaybeNum (n : option Z)
| Name (s : string)
| Str (s : list Z)
| Nums (l : list Z)
| Names (l : list string)
| Strs (l : list (list Z)).

Record Text : Type := msg { t_template : string; t_values : list Arg }.
