(* ===== verification/Errors.v ===== *)
(** * Errors of the sequence-state manager and of the Op IR

    [crates/r9v-state/src/error.rs] and the variants of
    [crates/r9v-ir/src/error.rs] that batch metadata, tree masks, shape
    buckets, tensors, ops and step graphs report.  Where the code formats a message from values, the message
    is a constructor over those values: two refusals are equal exactly when
    the code would print the same template with the same numbers. *)

From S2P Require Import Prelude Bytes.

#[global] Open Scope Z_scope.

(** ** The Op IR errors *)

Inductive IrError : Type :=
| ZeroBatchDim (g s t max_blocks : Z)
| BatchLength (field : string) (expected actual : Z)
| BatchShapeOverflow (field : string) (factors : list Z)
| MissingField (field : string)
| EmptyQuery (seq : nat)
| QueryTokenCount (expected actual : Z)
| TreeBatchMismatch (tree_t batch_t : Z)
| BadParent (token : nat) (parent : Z) (t : Z)
| SelfParent (token : nat)
| AncestorLength (t t_max expected actual : Z)
| AncestorShapeOverflow (t t_max : Z)
| ZeroTreeMax (t : Z)
| TreeCycle (token : Z)
| TreeCycleStateTooSmall (required actual : Z)
| TreeCyclePathTooSmall (required actual : Z)
| TreeParentCrossesSequence (token : nat) (parent : Z) (seq : nat) (seq_start seq_end : Z)
| TreeMaxTooSmall (required actual : Z)
| InvalidBucket (axis : string) (value : Z)
| BucketExceeded (axis : string) (value max : Z)
| OpAttributeInvalid (op attribute : string) (reason : Text)
| InvalidRank (got : nat)
| ZeroExtent (axis : nat)
| PlacementForClass (placement : Placement.t) (class : TensorClass.t)
| QuantForClass (quant : QuantScheme.t) (class : TensorClass.t)
| LayoutForClass (layout : Z) (class : TensorClass.t)
| DTypeForClass (dtype : DType.t) (class : TensorClass.t)
| QuantDType (quant : QuantScheme.t) (dtype : DType.t)
| OpInputCountMismatch (op : string) (expected got : nat)
| OpInputCountCandidatesMismatch (op : string) (expected : list nat) (got : nat)
| OpOutputCountMismatch (op : string) (expected got : nat)
| OpOutputCountCandidatesMismatch (op : string) (expected : list nat) (got : nat)
| OpDTypeMismatch (op tensor : string) (expected : list DType.t) (got : DType.t)
| OpRankMismatch (op tensor : string) (expected got : nat)
| OpShapeMismatch (op tensor : string) (detail : Text)
| OpLayoutMismatch (op tensor : string) (expected got : Z)
| OpQuantMismatch (op tensor : string) (quant : QuantScheme.t)
| OpPlacementMismatch (op tensor : string) (placement : Placement.t)
| OpClassMismatch (op tensor : string) (expected got : TensorClass.t)
| StateHandleKindMismatch (op : string) (expected got : StateKind.t)
| GraphCycle (node : nat)
| GraphNodeNotFound (node : nat)
| GraphEdgeNotFound (edge : nat)
| GraphExternalInputMissing (kind : ExternalInputKind.t) (required_by : string)
| GraphExternalOutputMissing (kind : ExternalOutputKind.t) (required_by : string)
| GraphExternalOutputUnproduced (kind : ExternalOutputKind.t) (edge : nat)
| GraphSourceClassInvalid (class : TensorClass.t)
| PositionsConflict (existing requested : PositionsKind.t)
| GraphPositionsMissing (required_by : string)
| GraphRopePositionsMismatch (node edge expected : nat)
| GraphTensorRankMismatch (edge : nat) (tensor_rank graph_rank : Z)
| StrideMismatch (edge : nat) (actual expected : list Z)
| InvalidAccumulator (got : DType.t)
| Multiple (problems : list IrError).

(** [IrError::from_problems]: none is success, one is reported bare, several
    are wrapped. *)
Definition from_problems (problems : list IrError) : outcome IrError unit :=
  match problems with
  | [] => Ok tt
  | [e] => Err e
  | _ => Err (Multiple problems)
  end.

(** ** The state errors *)

(** The texts of [InvalidItem::reason]. *)
Inductive Reason : Type :=
| DimOutOfRange (name : string) (v : Z)
| WindowOutOfRange (w : Z)
| SinkOutOfRange (n : Z)
| SinksWithoutWindow (s : Z)
| MaxCtxOutOfRange (v : Z)
| MaxCtxNotMultiple (v : Z)
| MaxSeqsOutOfRange (v : Z)
| LayersExceedCap (n : Z)
| LayerIndexTooWide (i : Z)
| LayerIndexExceedsCap (l : Z)
| DeclsExceedCap (n : Z)
| UniqueLayersExceedCap (n : Z)
| GroupsExceedCap (n : Z)
| PoolBelowFixed (pool_bytes fixed_pool shortfall : Z)
| ZeroBlockCost
| BlocksExceedSlotRange (blocks : Z)
| PoolBelowRequired (pool_bytes required shortfall : Z).

Record InvalidItem : Type := { i_index : Z; i_reason : Reason }.

(** The per-sequence problems [plan_batch] joins into one detail. *)
Inductive BatchProblem : Type :=
| DuplicateSequence (i : nat) (seq : Z)
| UnknownSequence (i : nat) (seq : Z)
| QueryLenNotInTail (i : nat) (q tail : Z)
| QueryExceedsMaxCtx (i : nat) (ctx q max_ctx : Z)
| TokenTotalOverflows (i : nat)
| BatchTokensExceedCap (total : Z)
| PositionsLenMismatch (len total : Z)
| TreeCountMismatch (t total : Z).

(** The texts of [InvalidBatch::detail]. *)
Inductive Detail : Type :=
| NotFixedGroup (gi : nat)
| NotPagedGroup (gi : nat)
| NotRecurrentGroup (group : nat)
| GroupOutOfRange (group count : nat)
| HoldsNoSlot (seq : Z) (group : nat)
| HasNoTable (seq : Z)
| ReleaseOutOfRange (id total : Z)
| DoubleRelease (id : Z)
| BlockExceedsPool (id : Z) (gi : nat) (total : Z)
| BlockAlreadyFree (id : Z) (gi : nat)
| BlockDuplicated (id : Z) (gi : nat)
| SlotExceedsPool (id : Z) (gi : nat) (total : Z)
| SlotAlreadyFree (id : Z) (gi : nat)
| StaleSlotRange (start len ctx tail : Z)
| SeqsQueryLensMismatch (seqs query_lens : nat)
| EmptyBatch
| BatchProblems (problems : list BatchProblem)
| SequenceVanished
| WorkspaceCapacity (what : string) (cap need : Z)
| TreeScratchCapacity (need : Z).

(** The texts of [InvalidCompact::detail]. *)
Inductive CompactDetail : Type :=
| NoOutstandingTail
| AcceptedLenExceedsCap (len : nat)
| PositionOutOfTail (p tail : Z)
| DuplicatePosition (p : Z)
| CommitNotCompacted (accepted : Z) (compacted : nat).

Inductive StateError : Type :=
| InvalidConfig (problems : list InvalidItem)
| UnknownSeq (seq : Z)
| SeqLimit (live cap : Z)
| PoolExhausted (group : nat) (required available shortfall end_ max_ctx : Z)
| ReserveTooLarge (end_ max_ctx n : Z)
| InvalidReserve (n tail : Z)
| CommitTooLarge (accepted tail : Z)
| NoReservation (seq : Z)
| UnmappedPosition (group : nat) (pos end_ : Z)
| InvalidCompact (len : nat) (tail : Z) (detail : CompactDetail)
| InvalidBatch (detail : Detail)
| OutOfRange (start : Z) (len : Z) (end_ : Z)
| Overflow (what : string)
| SeqIdOverflow (seq max : Z)
| Ir (e : IrError).

(** [StateResult<T>]. *)
Abbreviation StateResult := (outcome StateError).

Lemma from_problems_Ok problems : from_problems problems = Ok tt ↔ problems = [].
Proof. destruct problems as [|? [|]]; simpl; naive_solver. Qed.

Lemma from_problems_no_panic problems : from_problems problems ≠ Panic.
Proof. destruct problems as [|? [|]]; simpl; naive_solver. Qed.
