(* ===== verification/Spec.v ===== *)
(** * State declarations and layer groups

    [crates/r9v-state/src/spec.rs]: the per-layer state kinds, their
    validation, the byte sizes derived from them, and the grouping of layers
    that share one specification. *)

From S2P Require Import Prelude Errors.

#[global] Open Scope Z_scope.

Definition BLOCK_TOKENS : Z := 32.
Definition BLOCK_TABLE_SENTINEL : Z := U32_MAX.
Definition MAX_CTX_HARD : Z := 2 ^ 20.
Definition MAX_SEQS_HARD : Z := 65536.
Definition MAX_LAYERS_HARD : Z := 1024.
Definition MAX_DECLS_HARD : Z := 4096.
Definition MAX_GROUPS_HARD : Z := 16.
Definition MAX_DIM_HARD : Z := 4096.
Definition MAX_BATCH_TOKENS_HARD : Z := 2 ^ 20.
Definition MAX_RESERVE_HARD : Z := 2 ^ 20.

Inductive CacheDtype : Type := E4M3 | I8 | F16.

Definition cache_bytes (c : CacheDtype) : Z :=
  match c with E4M3 | I8 => 1 | F16 => 2 end.

Inductive Retain : Type :=
| All
| Window (w : Z)
| SinkWindow (n w : Z).

Definition window (r : Retain) : option Z :=
  match r with
  | All => None
  | Window w => Some w
  | SinkWindow _ w => Some w
  end.

Definition is_windowed (r : Retain) : bool :=
  match r with All => false | _ => true end.

Definition from_window_sinks (window : option Z) (sinks : Z) : StateResult Retain :=
  match window with
  | None =>
      if sinks =? 0 then Ok All
      else Err (InvalidConfig [{| i_index := 0; i_reason := SinksWithoutWindow sinks |}])
  | Some w => if sinks =? 0 then Ok (Window w) else Ok (SinkWindow sinks w)
  end.

Inductive StateSpec : Type :=
| KvPaged (hkv d dv : Z) (cache : CacheDtype) (retain : Retain)
| KvLatent (latent rope : Z) (cache : CacheDtype) (retain : Retain)
| Recurrent (h d dv : Z)
| ConvWindow (c w : Z).

#[global] Instance CacheDtype_eq_dec : EqDecision CacheDtype.
Proof. solve_decision. Defined.
#[global] Instance Retain_eq_dec : EqDecision Retain.
Proof. solve_decision. Defined.
#[global] Instance StateSpec_eq_dec : EqDecision StateSpec.
Proof. solve_decision. Defined.

Definition is_paged (s : StateSpec) : bool :=
  match s with KvPaged _ _ _ _ _ | KvLatent _ _ _ _ => true | _ => false end.

Definition is_recurrent (s : StateSpec) : bool :=
  match s with Recurrent _ _ _ | ConvWindow _ _ => true | _ => false end.

Definition retain (s : StateSpec) : option Retain :=
  match s with
  | KvPaged _ _ _ _ r | KvLatent _ _ _ r => Some r
  | Recurrent _ _ _ | ConvWindow _ _ => None
  end.

Definition check_dim (name : string) (v index : Z) : list InvalidItem :=
  if (v =? 0) || (MAX_DIM_HARD <? v)
  then [{| i_index := index; i_reason := DimOutOfRange name v |}] else [].

Definition check_retain (r : Retain) (index : Z) : list InvalidItem :=
  match r with
  | All => []
  | Window w =>
      if (w =? 0) || (MAX_CTX_HARD <? w)
      then [{| i_index := index; i_reason := WindowOutOfRange w |}] else []
  | SinkWindow n w =>
      (if (n =? 0) || (MAX_CTX_HARD <? n)
       then [{| i_index := index; i_reason := SinkOutOfRange n |}] else []) ++
      (if (w =? 0) || (MAX_CTX_HARD <? w)
       then [{| i_index := index; i_reason := WindowOutOfRange w |}] else [])
  end.

(** The problems [push_checks] appends to its buffer. *)
Definition push_checks (s : StateSpec) (index : Z) : list InvalidItem :=
  match s with
  | KvPaged hkv d dv _ r =>
      check_dim "hkv" hkv index ++ check_dim "d" d index ++ check_dim "dv" dv index ++
      check_retain r index
  | KvLatent latent rope _ r =>
      check_dim "latent" latent index ++ check_dim "rope" rope index ++ check_retain r index
  | Recurrent h d dv =>
      check_dim "h" h index ++ check_dim "d" d index ++ check_dim "dv" dv index
  | ConvWindow c w =>
      check_dim "c" c index ++
      (if (w =? 0) || (MAX_DIM_HARD <? w)
       then [{| i_index := index; i_reason := DimOutOfRange "w" w |}] else [])
  end.

Definition check_dims (s : StateSpec) : StateResult unit :=
  match push_checks s U32_MAX with
  | [] => Ok tt
  | problems => Err (InvalidConfig problems)
  end.

Definition per_token_bytes (s : StateSpec) : StateResult Z :=
  let* _ := check_dims s in
  match s with
  | KvPaged hkv d dv cache _ =>
      let* dd := ok_or (checked_add U64_MAX d dv) (Overflow "kv dims") in
      let* vals := ok_or (checked_mul U64_MAX dd (cache_bytes cache)) (Overflow "kv values") in
      let scale_bytes := match cache with E4M3 | I8 => 4 | F16 => 0 end in
      let* per_head := ok_or (checked_add U64_MAX vals scale_bytes) (Overflow "kv scales") in
      ok_or (checked_mul U64_MAX per_head hkv) (Overflow "kv heads")
  | KvLatent latent rope cache _ =>
      let* vals := ok_or (checked_mul U64_MAX latent (cache_bytes cache)) (Overflow "latent values") in
      let scale_bytes := match cache with E4M3 | I8 => 2 | F16 => 0 end in
      let* vals_with_scales :=
        ok_or (checked_add U64_MAX vals scale_bytes) (Overflow "latent scales") in
      let* rope_bytes := ok_or (checked_mul U64_MAX rope 2) (Overflow "rope values") in
      ok_or (checked_add U64_MAX vals_with_scales rope_bytes) (Overflow "latent total")
  | Recurrent _ _ _ | ConvWindow _ _ => Ok 0
  end.

Definition slot_bytes (s : StateSpec) : StateResult Z :=
  let* _ := check_dims s in
  match s with
  | Recurrent h d dv =>
      ok_or (v ← checked_mul U64_MAX h d; v ← checked_mul U64_MAX v dv; checked_mul U64_MAX v 4)
            (Overflow "recurrent slot")
  | ConvWindow c w =>
      let* w1 := ok_or (checked_sub w 1) (Overflow "conv window") in
      ok_or (v ← checked_mul U64_MAX w1 c; checked_mul U64_MAX v 2) (Overflow "conv slot")
  | KvPaged _ _ _ _ _ | KvLatent _ _ _ _ => Ok 0
  end.

Definition per_seq_bytes (s : StateSpec) : StateResult Z :=
  let* single := slot_bytes s in
  if is_recurrent s
  then ok_or (checked_mul U64_MAX single 2) (Overflow "double-buffer per-sequence bytes")
  else Ok 0.

Record LayerGroup : Type := { g_index : nat; g_spec : StateSpec; g_layers : list Z }.

Definition group_per_token_bytes (g : LayerGroup) : StateResult Z :=
  let* per_layer := per_token_bytes (g_spec g) in
  let* count := ok_or (try_from U64_MAX (Z.of_nat (length (g_layers g))))
                      (Overflow "group layer count") in
  ok_or (checked_mul U64_MAX per_layer count) (Overflow "group per-token bytes").

Definition block_bytes (g : LayerGroup) : StateResult Z :=
  let* v := group_per_token_bytes g in
  ok_or (checked_mul U64_MAX v BLOCK_TOKENS) (Overflow "group block bytes").

Definition slots_bytes_per_seq (g : LayerGroup) : StateResult Z :=
  let* per_layer := per_seq_bytes (g_spec g) in
  let* count := ok_or (try_from U64_MAX (Z.of_nat (length (g_layers g))))
                      (Overflow "group layer count") in
  ok_or (checked_mul U64_MAX per_layer count) (Overflow "group slot bytes").

Record StateDecl : Type := { d_layer : Z; d_spec : StateSpec }.

(** One turn of the grouping loop: the layer joins the group of its spec at
    its ascending place, or opens a new group at the end. *)
Definition add_layer (layer : Z) (layers : list Z) : list Z :=
  if decide (layer ∈ layers) then layers
  else let pos := partition_point (λ l, l <? layer) layers in
       take pos layers ++ layer :: drop pos layers.

Fixpoint join_group (decl : StateDecl) (groups : list LayerGroup) : option (list LayerGroup) :=
  match groups with
  | [] => None
  | g :: gs =>
      if decide (g_spec g = d_spec decl)
      then Some ({| g_index := g_index g; g_spec := g_spec g;
                    g_layers := add_layer (d_layer decl) (g_layers g) |} :: gs)
      else gs' ← join_group decl gs; Some (g :: gs')
  end.

Definition group_one (groups : list LayerGroup) (decl : StateDecl) : list LayerGroup :=
  match join_group decl groups with
  | Some groups' => groups'
  | None => groups ++ [{| g_index := length groups; g_spec := d_spec decl;
                          g_layers := [d_layer decl] |}]
  end.

Definition group_declarations_infallible (decls : list StateDecl) : list LayerGroup :=
  foldl group_one [] decls.

(** The problems and declarations collected by the loop of [group_layers],
    which numbers the specs from 0. *)
Definition layer_decl (i : nat) (spec : StateSpec) : list InvalidItem * list StateDecl :=
  match try_from U32_MAX (Z.of_nat i) with
  | None => ([{| i_index := U32_MAX; i_reason := LayerIndexTooWide (Z.of_nat i) |}], [])
  | Some layer =>
      ((if MAX_LAYERS_HARD <=? layer
        then [{| i_index := layer; i_reason := LayerIndexExceedsCap layer |}] else []) ++
       push_checks spec layer,
       [{| d_layer := layer; d_spec := spec |}])
  end.

Definition refuse_many_groups (groups : list LayerGroup) : StateResult (list LayerGroup) :=
  if MAX_GROUPS_HARD <? Z.of_nat (length groups)
  then Err (InvalidConfig [{| i_index := U32_MAX;
                              i_reason := GroupsExceedCap (Z.of_nat (length groups)) |}])
  else Ok groups.

Definition group_layers (specs : list StateSpec) : StateResult (list LayerGroup) :=
  if MAX_LAYERS_HARD <? Z.of_nat (length specs) then
    Err (InvalidConfig [{| i_index := U32_MAX;
                           i_reason := LayersExceedCap (Z.of_nat (length specs)) |}])
  else
    let collected := imap layer_decl specs in
    let problems := concat (map fst collected) in
    let decls := concat (map snd collected) in
    match problems with
    | _ :: _ => Err (InvalidConfig problems)
    | [] => refuse_many_groups (group_declarations_infallible decls)
    end.

(** The problems one declaration contributes in [group_layer_specs]. *)
Definition decl_problems (decl : StateDecl) : list InvalidItem :=
  (if MAX_LAYERS_HARD <=? d_layer decl
   then [{| i_index := d_layer decl; i_reason := LayerIndexExceedsCap (d_layer decl) |}]
   else []) ++ push_checks (d_spec decl) (d_layer decl).

Definition unique_layers (decls : list StateDecl) : gset Z :=
  list_to_set (filter (λ l, l < MAX_LAYERS_HARD) (map d_layer decls)).

Definition group_layer_specs (decls : list StateDecl) : StateResult (list LayerGroup) :=
  if MAX_DECLS_HARD <? Z.of_nat (length decls) then
    Err (InvalidConfig [{| i_index := U32_MAX;
                           i_reason := DeclsExceedCap (Z.of_nat (length decls)) |}])
  else
    let uniq := Z.of_nat (size (unique_layers decls)) in
    let problems :=
      concat (map decl_problems decls) ++
      (if MAX_LAYERS_HARD <? uniq
       then [{| i_index := U32_MAX; i_reason := UniqueLayersExceedCap uniq |}] else []) in
    match problems with
    | _ :: _ => Err (InvalidConfig problems)
    | [] => refuse_many_groups (group_declarations_infallible decls)
    end.

(** ** Specifications used by the theorems *)

(** The fields of a specification are [u32]s. *)
Definition spec_u32 (s : StateSpec) : Prop :=
  match s with
  | KvPaged hkv d dv _ r => is_u32 hkv ∧ is_u32 d ∧ is_u32 dv ∧
      match r with All => True | Window w => is_u32 w | SinkWindow n w => is_u32 n ∧ is_u32 w end
  | KvLatent latent rope _ r => is_u32 latent ∧ is_u32 rope ∧
      match r with All => True | Window w => is_u32 w | SinkWindow n w => is_u32 n ∧ is_u32 w end
  | Recurrent h d dv => is_u32 h ∧ is_u32 d ∧ is_u32 dv
  | ConvWindow c w => is_u32 c ∧ is_u32 w
  end.

Definition valid_spec (s : StateSpec) : Prop := push_checks s U32_MAX = [].

(** The closed formulas of the documentation. *)
Definition token_bytes (s : StateSpec) : Z :=
  match s with
  | KvPaged hkv d dv cache _ =>
      hkv * ((d + dv) * cache_bytes cache + match cache with F16 => 0 | _ => 4 end)
  | KvLatent latent rope cache _ =>
      latent * cache_bytes cache + match cache with F16 => 0 | _ => 2 end + rope * 2
  | _ => 0
  end.

Definition seq_bytes (s : StateSpec) : Z :=
  match s with
  | Recurrent h d dv => h * d * dv * 4 * 2
  | ConvWindow c w => (w - 1) * c * 2 * 2
  | _ => 0
  end.

(** The specs of a declaration list in order of first occurrence. *)
Definition first_occurrences (specs : list StateSpec) : list StateSpec :=
  foldl (λ acc s, if decide (s ∈ acc) then acc else acc ++ [s]) [] specs.

(** What a grouping promises: positions are the indices, specs appear once and
    in first-occurrence order, and the layers of a group are, in ascending
    order and without repetition, exactly the layers declaring its spec. *)
Record groups_ok (decls : list StateDecl) (groups : list LayerGroup) : Prop := {
  go_index : ∀ i g, groups !! i = Some g → g_index g = i;
  go_specs : map g_spec groups = first_occurrences (map d_spec decls);
  go_ascending : ∀ g, g ∈ groups → ascending (g_layers g);
  go_layers : ∀ g l, g ∈ groups →
    l ∈ g_layers g ↔ {| d_layer := l; d_spec := g_spec g |} ∈ decls
}.

(** ** Sizes *)

Lemma check_dim_nil name v i : check_dim name v i = [] ↔ v ≠ 0 ∧ v ≤ MAX_DIM_HARD.
Proof.
  unfold check_dim.
  destruct (Z.eqb_spec v 0), (Z.ltb_spec MAX_DIM_HARD v); simpl;
    split; intros; try discriminate; try (done || lia).
Qed.

Lemma app_nil_iff {A} (l k : list A) : l ++ k = [] ↔ l = [] ∧ k = [].
Proof. split; [apply app_eq_nil | by intros [-> ->]]. Qed.

(** Validity does not depend on the index the problems are reported under. *)
Lemma push_checks_index s i j : push_checks s i = [] → push_checks s j = [].
Proof.
  destruct s as [hkv d dv c r|latent rope c r|h d dv|c w]; simpl;
    rewrite ?app_nil_iff, ?check_dim_nil.
  - intros (? & ? & ? & Hr). split_and!; try tauto.
    destruct r as [|w|n w]; simpl in *; repeat case_match; simplify_eq; done.
  - intros (? & ? & Hr). split_and!; try tauto.
    destruct r as [|w|n w]; simpl in *; repeat case_match; simplify_eq; done.
  - tauto.
  - intros (? & Hw). split; [tauto|]. repeat case_match; simplify_eq; done.
Qed.

Ltac spec_bounds :=
  unfold valid_spec in *; simpl in *;
  rewrite ?app_nil_iff, ?check_dim_nil in *;
  unfold MAX_DIM_HARD, is_u32, U64_MAX in *; destruct_and?.

(** Rewrite the checked operations of a goal whose arguments are bounded. *)
Ltac checked_ok :=
  repeat first
    [ rewrite checked_add_ok by (unfold U64_MAX; nia)
    | rewrite checked_mul_ok by (unfold U64_MAX; nia)
    | rewrite checked_sub_ok by lia
    | rewrite try_from_ok by (unfold U64_MAX; lia)
    | progress simpl ].

Lemma token_bytes_bounds s :
  spec_u32 s → valid_spec s →
  0 ≤ token_bytes s ≤ 2 ^ 27 ∧ (is_paged s = true → 0 < token_bytes s).
Proof.
  intros Hu Hv. destruct s as [hkv d dv c r|latent rope c r|h d dv|c w]; spec_bounds.
  - destruct c; simpl; split; intros; nia.
  - destruct c; simpl; split; intros; nia.
  - split; [lia|done].
  - split; [lia|done].
Qed.

Lemma seq_bytes_bounds s :
  spec_u32 s → valid_spec s → 0 ≤ seq_bytes s ≤ 2 ^ 39.
Proof.
  intros Hu Hv. destruct s as [hkv d dv c r|latent rope c r|h d dv|c w]; spec_bounds.
  - lia.
  - lia.
  - assert (0 ≤ h * d ≤ 4096 * 4096) by nia. nia.
  - destruct (Z.eqb_spec w 0), (Z.ltb_spec 4096 w); simpl in *; try discriminate. nia.
Qed.

Lemma per_token_bytes_valid s :
  spec_u32 s → valid_spec s → per_token_bytes s = Ok (token_bytes s).
Proof.
  intros Hu Hv. unfold per_token_bytes, check_dims. rewrite Hv. simpl.
  destruct s as [hkv d dv c r|latent rope c r|h d dv|c w]; spec_bounds; try done.
  - destruct c; simpl; checked_ok; f_equal; lia.
  - destruct c; simpl; checked_ok; f_equal; lia.
Qed.

Lemma per_seq_bytes_valid s :
  spec_u32 s → valid_spec s → per_seq_bytes s = Ok (seq_bytes s).
Proof.
  intros Hu Hv. unfold per_seq_bytes, slot_bytes, check_dims. rewrite Hv. simpl.
  destruct s as [hkv d dv c r|latent rope c r|h d dv|c w]; spec_bounds; try done.
  - assert (0 ≤ h * d ≤ 4096 * 4096) by nia.
    checked_ok. f_equal.
  - destruct (Z.eqb_spec w 0), (Z.ltb_spec 4096 w); simpl in *; try discriminate.
    checked_ok. f_equal.
Qed.

Lemma per_token_bytes_invalid s :
  push_checks s U32_MAX ≠ [] →
  per_token_bytes s = Err (InvalidConfig (push_checks s U32_MAX)).
Proof. unfold per_token_bytes, check_dims. by destruct (push_checks s U32_MAX). Qed.

Lemma per_seq_bytes_invalid s :
  push_checks s U32_MAX ≠ [] →
  per_seq_bytes s = Err (InvalidConfig (push_checks s U32_MAX)).
Proof. unfold per_seq_bytes, slot_bytes, check_dims. by destruct (push_checks s U32_MAX). Qed.

(** A group as grouping produces it: a valid spec with between one and
    [MAX_DECLS_HARD] layers. *)
Definition group_ok (g : LayerGroup) : Prop :=
  spec_u32 (g_spec g) ∧ valid_spec (g_spec g) ∧
  1 ≤ Z.of_nat (length (g_layers g)) ≤ MAX_DECLS_HARD.

Definition group_block_bytes (g : LayerGroup) : Z :=
  token_bytes (g_spec g) * Z.of_nat (length (g_layers g)) * BLOCK_TOKENS.

Definition group_slot_bytes (g : LayerGroup) : Z :=
  seq_bytes (g_spec g) * Z.of_nat (length (g_layers g)).

Lemma block_bytes_ok g : group_ok g → block_bytes g = Ok (group_block_bytes g).
Proof.
  intros (Hu & Hv & Hlen). unfold block_bytes, group_per_token_bytes.
  rewrite per_token_bytes_valid by done. simpl.
  destruct (token_bytes_bounds _ Hu Hv) as [? _].
  unfold MAX_DECLS_HARD in *. rewrite try_from_ok by (unfold U64_MAX; lia). simpl.
  unfold BLOCK_TOKENS. checked_ok. done.
Qed.

Lemma slots_bytes_per_seq_ok g :
  group_ok g → slots_bytes_per_seq g = Ok (group_slot_bytes g).
Proof.
  intros (Hu & Hv & Hlen). unfold slots_bytes_per_seq.
  rewrite per_seq_bytes_valid by done. simpl.
  pose proof (seq_bytes_bounds _ Hu Hv).
  unfold MAX_DECLS_HARD in *. rewrite try_from_ok by (unfold U64_MAX; lia). simpl.
  checked_ok. done.
Qed.

Lemma group_block_bytes_bounds g :
  group_ok g → 0 ≤ group_block_bytes g ≤ 2 ^ 44 ∧
  (is_paged (g_spec g) = true → 0 < group_block_bytes g).
Proof.
  intros (Hu & Hv & Hlen). destruct (token_bytes_bounds _ Hu Hv) as [? Hp].
  unfold group_block_bytes, MAX_DECLS_HARD, BLOCK_TOKENS in *.
  split; [nia|]. intros ?. specialize (Hp ltac:(done)). nia.
Qed.

Lemma group_slot_bytes_bounds g : group_ok g → 0 ≤ group_slot_bytes g ≤ 2 ^ 51.
Proof.
  intros (Hu & Hv & Hlen). pose proof (seq_bytes_bounds _ Hu Hv).
  unfold group_slot_bytes, MAX_DECLS_HARD in *. nia.
Qed.

Lemma not_paged_recurrent s : is_paged s = false ↔ is_recurrent s = true.
Proof. by destruct s. Qed.

Lemma retain_Some_paged s r : retain s = Some r → is_paged s = true.
Proof. by destruct s. Qed.

(** The outcome of [per_token_bytes] and [per_seq_bytes] on any [u32] spec. *)
Theorem spec_sizes s :
  spec_u32 s →
  (per_token_bytes s, per_seq_bytes s) =
  match push_checks s U32_MAX with
  | [] => (Ok (token_bytes s), Ok (seq_bytes s))
  | problems => (Err (InvalidConfig problems), Err (InvalidConfig problems))
  end.
Proof.
  intros Hu. destruct (push_checks s U32_MAX) as [|p ps] eqn:Hv.
  - by rewrite per_token_bytes_valid, per_seq_bytes_valid.
  - rewrite per_token_bytes_invalid, per_seq_bytes_invalid; rewrite Hv; done.
Qed.

Lemma spec_sizes_witness :
  (per_token_bytes (KvPaged 8 128 128 E4M3 All), per_seq_bytes (KvPaged 8 128 128 E4M3 All))
  = (Ok 2080, Ok 0).
Proof.
  rewrite (spec_sizes (KvPaged 8 128 128 E4M3 All)); [vm_compute; reflexivity|].
  vm_compute. repeat split; discriminate.
Defined.

(** ** Grouping *)

Lemma add_layer_ascending l ls : ascending ls → ascending (add_layer l ls).
Proof.
  intros H. unfold add_layer. case_decide; [done|]. by apply ascending_insert.
Qed.

Lemma elem_of_add_layer l l' ls : l' ∈ add_layer l ls ↔ l' = l ∨ l' ∈ ls.
Proof.
  unfold add_layer. case_decide; [naive_solver|].
  rewrite (insert_at_Permutation _ l ls), elem_of_cons. done.
Qed.

Lemma join_group_None d gs :
  join_group d gs = None ↔ Forall (λ g, g_spec g ≠ d_spec d) gs.
Proof.
  induction gs as [|g gs IH]; simpl; [done|].
  rewrite Forall_cons, <- IH. case_decide; destruct (join_group d gs); simpl; naive_solver.
Qed.

Lemma join_group_Some d gs gs' :
  join_group d gs = Some gs' →
  ∃ i g, gs !! i = Some g ∧ g_spec g = d_spec d ∧
    gs' = <[i := {| g_index := g_index g; g_spec := g_spec g;
                    g_layers := add_layer (d_layer d) (g_layers g) |}]> gs.
Proof.
  revert gs'. induction gs as [|g gs IH]; intros gs'; simpl; [done|].
  case_decide; intros; simplify_eq.
  - by exists 0%nat, g.
  - destruct (join_group d gs) as [gs1|] eqn:Hj; simplify_eq.
    destruct (IH gs1 eq_refl) as (i & g' & ? & ? & ->).
    exists (S i), g'. split_and!; try done. simpl in *. by simplify_eq.
Qed.

Lemma first_occurrences_snoc specs s :
  first_occurrences (specs ++ [s]) =
  (if decide (s ∈ first_occurrences specs) then first_occurrences specs
   else first_occurrences specs ++ [s]).
Proof. unfold first_occurrences. rewrite foldl_app. done. Qed.

Lemma elem_of_first_occurrences s specs : s ∈ first_occurrences specs ↔ s ∈ specs.
Proof.
  induction specs as [|t specs IH] using rev_ind; [done|].
  rewrite first_occurrences_snoc, elem_of_app, list_elem_of_singleton.
  case_decide; rewrite ?elem_of_app, ?list_elem_of_singleton; naive_solver.
Qed.

Lemma first_occurrences_NoDup specs : NoDup (first_occurrences specs).
Proof.
  induction specs as [|t specs IH] using rev_ind; [constructor|].
  rewrite first_occurrences_snoc. case_decide; [done|].
  apply NoDup_app. split_and!; [done| |apply NoDup_singleton]. set_solver.
Qed.

Lemma first_occurrences_length specs :
  (length (first_occurrences specs) ≤ length specs)%nat.
Proof.
  induction specs as [|t specs IH] using rev_ind; [done|].
  rewrite first_occurrences_snoc, length_app. simpl.
  case_decide; rewrite ?length_app; simpl; lia.
Qed.

Lemma groups_ok_join decls gs d i g :
  groups_ok decls gs → gs !! i = Some g → g_spec g = d_spec d →
  groups_ok (decls ++ [d])
    (<[i := {| g_index := g_index g; g_spec := g_spec g;
               g_layers := add_layer (d_layer d) (g_layers g) |}]> gs).
Proof.
  intros [Hix Hsp Hasc Hlay] Hi Hs.
  assert (Hin : g ∈ gs) by by eapply list_elem_of_lookup_2.
  assert (Hspec : map g_spec (<[i:={| g_index := g_index g; g_spec := g_spec g;
      g_layers := add_layer (d_layer d) (g_layers g) |}]> gs) = map g_spec gs).
  { change (map g_spec) with (fmap (M:=list) g_spec). rewrite list_fmap_insert. simpl.
    apply list_insert_id. by rewrite list_lookup_fmap, Hi. }
  assert (Hnd : NoDup (map g_spec gs)) by (rewrite Hsp; apply first_occurrences_NoDup).
  split.
  - intros j h. rewrite list_lookup_insert_Some. intros [(-> & <- & _)|(_ & Hh)]; simpl; eauto.
  - rewrite Hspec, map_app. simpl. rewrite first_occurrences_snoc, <- Hsp.
    rewrite decide_True; [done|]. rewrite <- Hs.
    by apply (list_elem_of_fmap_2 g_spec).
  - intros h (j & Hj)%list_elem_of_lookup. apply list_lookup_insert_Some in Hj
      as [(-> & <- & _)|(_ & Hh)]; [apply add_layer_ascending; eauto|].
    by eapply Hasc, list_elem_of_lookup_2.
  - intros h l (j & Hj)%list_elem_of_lookup.
    rewrite elem_of_app, list_elem_of_singleton.
    apply list_lookup_insert_Some in Hj as [(-> & <- & _)|(Hne & Hh)]; simpl.
    + rewrite elem_of_add_layer, (Hlay _ _ Hin), Hs. destruct d; simpl. naive_solver.
    + rewrite (Hlay h l) by by eapply list_elem_of_lookup_2.
      split; [by left|]. intros [?|<-]; [done|]. simpl in Hs.
      destruct Hne. eapply (NoDup_lookup (map g_spec gs)); [done| |].
      * change (map g_spec) with (fmap (M:=list) g_spec). by rewrite list_lookup_fmap, Hi.
      * change (map g_spec) with (fmap (M:=list) g_spec). rewrite list_lookup_fmap, Hh.
        simpl. by rewrite Hs.
Qed.

Lemma groups_ok_new decls gs d :
  groups_ok decls gs → Forall (λ g, g_spec g ≠ d_spec d) gs →
  groups_ok (decls ++ [d])
    (gs ++ [{| g_index := length gs; g_spec := d_spec d; g_layers := [d_layer d] |}]).
Proof.
  intros [Hix Hsp Hasc Hlay] Hf. rewrite Forall_forall in Hf.
  assert (Hnew : d_spec d ∉ map d_spec decls).
  { intros Hin. rewrite <- elem_of_first_occurrences, <- Hsp in Hin.
    apply list_elem_of_fmap in Hin as (g & Heq & Hg). by apply (Hf g). }
  split.
  - intros i g. rewrite lookup_app_Some, list_lookup_singleton_Some.
    intros [?|[? [? <-]]]; [eauto|]. simpl. lia.
  - rewrite !map_app. simpl. rewrite first_occurrences_snoc, <- Hsp.
    rewrite decide_False; [done|]. rewrite Hsp. by rewrite elem_of_first_occurrences.
  - intros g. rewrite elem_of_app, list_elem_of_singleton.
    intros [?| ->]; [eauto|]. simpl. repeat constructor.
  - intros g l. rewrite !elem_of_app, !list_elem_of_singleton. intros [Hg| ->]; simpl.
    + rewrite (Hlay g l Hg). split; [by left|]. intros [?|<-]; [done|].
      destruct (Hf g Hg). done.
    + rewrite list_elem_of_singleton. split.
      * intros ->. right. by destruct d.
      * intros [Hin|<-]; [|done]. destruct Hnew. apply list_elem_of_fmap. eexists.
        split; [|done]. done.
Qed.

(** The grouping loop meets its specification. *)
Lemma grouping_inv decls :
  groups_ok decls (group_declarations_infallible decls).
Proof.
  unfold group_declarations_infallible.
  induction decls as [|d decls IH] using rev_ind.
  { split; try done; simpl; intros; exfalso; by eapply elem_of_nil. }
  rewrite foldl_app. simpl. unfold group_one at 1.
  destruct (join_group d (foldl group_one [] decls)) as [gs|] eqn:Hj.
  - apply join_group_Some in Hj as (i & g & Hi & Hs & ->). by apply groups_ok_join.
  - apply join_group_None in Hj. by apply groups_ok_new.
Qed.

(** Every layer of an accepted grouping comes from the declarations: no group
    is empty and none has more layers than there are declarations. *)
Lemma groups_ok_layers decls gs g :
  groups_ok decls gs → g ∈ gs → (1 ≤ length (g_layers g) ≤ length decls)%nat.
Proof.
  intros [Hix Hsp Hasc Hlay] Hg.
  assert (Hs : g_spec g ∈ map d_spec decls).
  { rewrite <- elem_of_first_occurrences, <- Hsp. by apply (list_elem_of_fmap_2 g_spec). }
  apply list_elem_of_fmap in Hs as (d & Hd & Hin).
  split.
  - assert (d_layer d ∈ g_layers g) as Hl.
    { apply Hlay; [done|]. rewrite Hd. by destruct d. }
    destruct (g_layers g); [by apply elem_of_nil in Hl|]. simpl. lia.
  - transitivity (length (map d_layer decls)); [|by rewrite length_map].
    apply submseteq_length, NoDup_submseteq; [apply ascending_NoDup; eauto|].
    intros l Hl. apply Hlay in Hl; [|done]. apply list_elem_of_fmap.
    by exists {| d_layer := l; d_spec := g_spec g |}.
Qed.

Lemma concat_nil_inv {A} (ls : list (list A)) :
  concat ls = [] ↔ Forall (λ l, l = []) ls.
Proof.
  induction ls as [|l ls IH]; simpl; [done|].
  rewrite app_nil_iff, Forall_cons, IH. done.
Qed.

Lemma refuse_many_groups_Ok gs gs' :
  refuse_many_groups gs = Ok gs' ↔ gs' = gs ∧ Z.of_nat (length gs) ≤ MAX_GROUPS_HARD.
Proof.
  unfold refuse_many_groups.
  destruct (Z.ltb_spec MAX_GROUPS_HARD (Z.of_nat (length gs))); naive_solver lia.
Qed.

(** An accepted grouping: every spec valid, every layer below the cap, the
    number of groups within the cap. *)
Lemma group_layer_specs_Ok decls gs :
  group_layer_specs decls = Ok gs →
  groups_ok decls gs ∧ Z.of_nat (length gs) ≤ MAX_GROUPS_HARD ∧
  Z.of_nat (length decls) ≤ MAX_DECLS_HARD ∧
  Forall (λ d, valid_spec (d_spec d) ∧ d_layer d < MAX_LAYERS_HARD) decls.
Proof.
  unfold group_layer_specs.
  destruct (Z.ltb_spec MAX_DECLS_HARD (Z.of_nat (length decls))) as [|Hlen]; [done|].
  set (ps := concat (map decl_problems decls)).
  destruct (ps ++ _) as [|p q] eqn:Hps; [|done].
  apply app_nil_iff in Hps as [Hps _]. intros (-> & Hn)%refuse_many_groups_Ok.
  split_and!; [apply grouping_inv|done|done|].
  apply concat_nil_inv in Hps. rewrite Forall_map in Hps.
  eapply Forall_impl; [done|]. intros d. unfold decl_problems. simpl.
  rewrite app_nil_iff. intros [Hl Hv]. split; [by eapply push_checks_index|].
  destruct (Z.leb_spec MAX_LAYERS_HARD (d_layer d)); [done|lia].
Qed.

(** [group_layers] is [group_layer_specs] on the specs numbered from 0. *)
Definition numbered (specs : list StateSpec) : list StateDecl :=
  imap (λ i s, {| d_layer := Z.of_nat i; d_spec := s |}) specs.

Lemma group_layers_collected specs :
  Z.of_nat (length specs) ≤ MAX_LAYERS_HARD →
  imap layer_decl specs =
  map (λ d, (decl_problems d, [d])) (numbered specs).
Proof.
  intros Hlen. apply list_eq. intros i. unfold numbered.
  change (map ?f) with (fmap (M:=list) f).
  rewrite list_lookup_fmap, !list_lookup_imap.
  destruct (specs !! i) as [s|] eqn:Hi; simpl; [|done].
  apply lookup_lt_Some in Hi. unfold layer_decl, MAX_LAYERS_HARD in *.
  rewrite try_from_ok; [|unfold U32_MAX; lia]. unfold decl_problems. simpl. done.
Qed.

Lemma concat_singletons {A} (l : list A) : concat (map (λ x, [x]) l) = l.
Proof. induction l; simpl; congruence. Qed.

Lemma group_layers_Ok specs gs :
  group_layers specs = Ok gs →
  groups_ok (numbered specs) gs ∧ Z.of_nat (length gs) ≤ MAX_GROUPS_HARD ∧
  Z.of_nat (length (numbered specs)) ≤ MAX_DECLS_HARD ∧
  Forall (λ d, valid_spec (d_spec d) ∧ d_layer d < MAX_LAYERS_HARD) (numbered specs).
Proof.
  unfold group_layers.
  destruct (Z.ltb_spec MAX_LAYERS_HARD (Z.of_nat (length specs))) as [|Hlen]; [done|].
  rewrite group_layers_collected by done. rewrite !map_map. simpl.
  rewrite concat_singletons.
  destruct (concat _) as [|p q] eqn:Hps; [|done].
  intros (-> & Hn)%refuse_many_groups_Ok.
  assert (Hl : length (numbered specs) = length specs) by apply length_imap.
  unfold MAX_DECLS_HARD, MAX_LAYERS_HARD in *.
  split_and!; [apply grouping_inv|done|lia|].
  apply concat_nil_inv in Hps. rewrite Forall_map in Hps.
  eapply Forall_impl; [done|]. intros d. unfold decl_problems, MAX_LAYERS_HARD. simpl.
  rewrite app_nil_iff. intros [Hlay Hv]. split; [by eapply push_checks_index|].
  destruct (Z.leb_spec 1024 (d_layer d)); [done|lia].
Qed.

(** The groups an accepted grouping yields are ready for the size functions. *)
Lemma groups_ok_group_ok decls gs :
  groups_ok decls gs → Z.of_nat (length decls) ≤ MAX_DECLS_HARD →
  Forall (λ d, valid_spec (d_spec d) ∧ d_layer d < MAX_LAYERS_HARD) decls →
  Forall (λ d, spec_u32 (d_spec d)) decls →
  Forall group_ok gs.
Proof.
  intros Hok Hlen Hv Hu. apply Forall_forall. intros g Hg.
  pose proof (groups_ok_layers _ _ _ Hok Hg).
  assert (Hs : g_spec g ∈ map d_spec decls).
  { rewrite <- elem_of_first_occurrences, <- (go_specs _ _ Hok).
    by apply (list_elem_of_fmap_2 g_spec). }
  apply list_elem_of_fmap in Hs as (d & Hd & Hin).
  rewrite Forall_forall in Hv, Hu. destruct (Hv d Hin). specialize (Hu d Hin).
  unfold group_ok. rewrite Hd. split_and!; [done|done|lia|lia].
Qed.

(** Grouping puts the declarations of equal specification into one group,
    in the order of first occurrence and numbered in that order, and each
    group lists exactly the layers that declared its specification, ascending
    and without repetition. *)
Theorem group_declarations_ok decls :
  groups_ok decls (group_declarations_infallible decls).
Proof. apply grouping_inv. Qed.
