(* ===== verification/Table.v ===== *)
(** * Block tables

    A sequence keeps, per paged group, a vector of block indices in ascending
    order and a vector of block ids aligned with it ([SeqState::indices] and
    [SeqState::tables] of [crates/r9v-state/src/manager.rs]).  This file shows
    that the pair is a finite map from block index to block id: the binary
    search is lookup, the aligned insertion is insert, the aligned removal is
    delete, and the reverse drain of a span is a filter. *)

From S2P Require Import Prelude.

#[global] Open Scope Z_scope.

(** The pair is aligned: ascending indices, one id per index. *)
Definition aligned (indices table : list Z) : Prop :=
  ascending indices ∧ length table = length indices.

(** The map the pair stands for. *)
Definition page_map (indices table : list Z) : gmap Z Z := list_to_map (zip indices table).

(** The binary search, as [flatten_slot] performs it. *)
Definition find_block (indices table : list Z) (b : Z) : option Z :=
  let at_ := partition_point (λ i, i <? b) indices in
  if decide (indices !! at_ = Some b) then table !! at_ else None.

Section table.
Implicit Types (indices table : list Z).

Lemma aligned_nil : aligned [] [].
Proof. split; [constructor|done]. Qed.

Lemma aligned_fst indices table : aligned indices table → (zip indices table).*1 = indices.
Proof. intros [_ Hl]. apply fst_zip. lia. Qed.

Lemma aligned_snd indices table : aligned indices table → (zip indices table).*2 = table.
Proof. intros [_ Hl]. apply snd_zip. lia. Qed.

Lemma aligned_NoDup indices table : aligned indices table → NoDup (zip indices table).*1.
Proof. intros Ha. rewrite aligned_fst by done. by apply ascending_NoDup, Ha. Qed.

Lemma page_map_lookup indices table b id :
  aligned indices table →
  page_map indices table !! b = Some id ↔ ∃ i, indices !! i = Some b ∧ table !! i = Some id.
Proof.
  intros Ha. unfold page_map. rewrite <- elem_of_list_to_map by by apply aligned_NoDup.
  rewrite list_elem_of_lookup. setoid_rewrite lookup_zip_Some. done.
Qed.

Lemma page_map_dom indices table b :
  aligned indices table → is_Some (page_map indices table !! b) ↔ b ∈ indices.
Proof.
  intros Ha. split.
  - intros [id (i & Hi & _)%page_map_lookup]; [|done]. by eapply list_elem_of_lookup_2.
  - intros (i & Hi)%list_elem_of_lookup.
    destruct (lookup_lt_is_Some_2 table i) as [id Hid].
    { destruct Ha as [_ ->]. by eapply lookup_lt_Some. }
    exists id. apply page_map_lookup; eauto.
Qed.

Lemma page_map_id indices table b id :
  aligned indices table → page_map indices table !! b = Some id → id ∈ table.
Proof. intros Ha (i & _ & Hi)%page_map_lookup; [|done]. by eapply list_elem_of_lookup_2. Qed.

Lemma find_block_page_map indices table b :
  aligned indices table → find_block indices table b = page_map indices table !! b.
Proof.
  intros Ha. unfold find_block. set (k := partition_point _ _).
  destruct (decide (indices !! k = Some b)) as [Hk|Hk].
  - apply option_eq. intros id. rewrite page_map_lookup by done. split; [by exists k|].
    intros (i & Hi & Hid).
    assert (i = k) as ->; [|done].
    eapply NoDup_lookup; [apply ascending_NoDup, Ha|done|done].
  - symmetry. apply eq_None_not_Some. rewrite page_map_dom by done. intros Hin. apply Hk.
    apply ascending_pp_lookup; [apply Ha|done].
Qed.

(** The length of a shorter prefix of a zip. *)
Lemma zip_insert_at {A B} (k : nat) (x : A) (y : B) l l' :
  length l = length l' →
  zip (take k l ++ x :: drop k l) (take k l' ++ y :: drop k l') =
  take k (zip l l') ++ (x, y) :: drop k (zip l l').
Proof.
  intros Hl. rewrite zip_with_app by (rewrite !length_take; lia). simpl.
  by rewrite zip_with_take, zip_with_drop.
Qed.

Lemma zip_remove_span {A B} (i j : nat) (l : list A) (l' : list B) :
  length l = length l' →
  zip (take i l ++ drop j l) (take i l' ++ drop j l') =
  take i (zip l l') ++ drop j (zip l l').
Proof.
  intros Hl. rewrite zip_with_app by (rewrite !length_take; lia).
  by rewrite zip_with_take, zip_with_drop.
Qed.

(** Aligned insertion at the partition point. *)
Lemma aligned_insert indices table b id :
  aligned indices table → b ∉ indices →
  let k := partition_point (λ i, i <? b) indices in
  let indices' := take k indices ++ b :: drop k indices in
  let table' := take k table ++ id :: drop k table in
  aligned indices' table' ∧ page_map indices' table' = <[b := id]> (page_map indices table) ∧
  table' ≡ₚ id :: table ∧ indices' ≡ₚ b :: indices.
Proof.
  intros Ha Hb k indices' table'.
  assert (aligned indices' table') as Ha'.
  { split; [by apply ascending_insert, Hb; apply Ha|].
    unfold indices', table'. rewrite !insert_at_length. by destruct Ha as [_ ->]. }
  split_and!; [done| |apply insert_at_Permutation|apply insert_at_Permutation].
  unfold page_map.
  change (<[b := id]> (list_to_map (zip indices table)))
    with (list_to_map ((b, id) :: zip indices table) : gmap Z Z).
  apply list_to_map_proper; [by apply aligned_NoDup|].
  unfold indices', table'. rewrite zip_insert_at by (symmetry; apply Ha).
  apply insert_at_Permutation.
Qed.

(** Aligned removal of one entry. *)
Lemma aligned_remove indices table b id k :
  aligned indices table → indices !! k = Some b → table !! k = Some id →
  let indices' := take k indices ++ drop (S k) indices in
  let table' := take k table ++ drop (S k) table in
  aligned indices' table' ∧ page_map indices' table' = delete b (page_map indices table) ∧
  id :: table' ≡ₚ table ∧ b :: indices' ≡ₚ indices.
Proof.
  intros Ha Hb Hid indices' table'.
  assert (id :: table' ≡ₚ table) as Ht by by apply remove_at_Permutation.
  assert (b :: indices' ≡ₚ indices) as Hi by by apply remove_at_Permutation.
  assert (aligned indices' table') as Ha'.
  { split.
    - destruct Ha as [Ha _]. rewrite <- (take_drop_middle indices k b Hb) in Ha.
      apply StronglySorted_app in Ha as (Hm & H1 & H2).
      apply StronglySorted_cons in H2 as [_ H2].
      apply StronglySorted_app. split_and!; [|done|done].
      intros x y Hx Hy. apply Hm; [done|by right].
    - apply Permutation_length in Ht, Hi. destruct Ha as [_ Ha]. simpl in *. lia. }
  split_and!; try done.
  assert (page_map indices table = <[b := id]> (page_map indices' table')) as ->.
  { unfold page_map.
    change (<[b := id]> (list_to_map (zip indices' table')))
      with (list_to_map ((b, id) :: zip indices' table') : gmap Z Z).
    apply list_to_map_proper; [by apply aligned_NoDup|].
    unfold indices', table'. rewrite zip_remove_span by (symmetry; apply Ha).
    symmetry. apply remove_at_Permutation, lookup_zip_Some. done. }
  rewrite delete_insert_id; [done|]. apply eq_None_not_Some.
  rewrite page_map_dom by done. intros Hin.
  assert (NoDup (b :: indices')) as [? _]%NoDup_cons; [|done].
  rewrite Hi. by apply ascending_NoDup, Ha.
Qed.

(** Removing a span of an aligned pair. *)
Lemma aligned_remove_span indices table i j :
  aligned indices table → (i ≤ j)%nat →
  aligned (take i indices ++ drop j indices) (take i table ++ drop j table).
Proof.
  intros [Ha Hl] Hij. split.
  - rewrite <- (take_drop i indices) in Ha. apply StronglySorted_app in Ha as (Hm & H1 & H2).
    assert (drop j indices = drop (j - i) (drop i indices)) as Hd
      by (rewrite drop_drop; f_equal; lia).
    rewrite <- (take_drop (j - i) (drop i indices)) in H2.
    apply StronglySorted_app in H2 as (_ & _ & H2).
    apply StronglySorted_app. rewrite Hd. split_and!; [|done|done].
    intros x y Hx Hy. apply Hm; [done|]. rewrite <- (take_drop (j - i) (drop i indices)).
    apply elem_of_app. by right.
  - rewrite !length_app, !length_take, !length_drop. lia.
Qed.

(** The span of an ascending vector between two partition points holds
    exactly the indices of the range. *)
Lemma pp_mono lo hi indices :
  lo ≤ hi →
  Nat.le (partition_point (λ i, i <? lo) indices) (partition_point (λ i, i <? hi) indices).
Proof.
  intros H. induction indices as [|x l IH]; simpl; [lia|].
  destruct (Z.ltb_spec x lo), (Z.ltb_spec x hi); lia.
Qed.

Lemma span_outside lo hi indices x :
  ascending indices → lo ≤ hi →
  let i := partition_point (λ i, i <? lo) indices in
  let j := partition_point (λ i, i <? hi) indices in
  x ∈ take i indices ++ drop j indices ↔ x ∈ indices ∧ ¬ (lo ≤ x < hi).
Proof.
  intros Ha Hlh i j.
  pose proof (ascending_pp_take lo indices) as Ht. pose proof (ascending_pp_drop lo indices Ha) as Hd.
  pose proof (ascending_pp_take hi indices) as Ht'. pose proof (ascending_pp_drop hi indices Ha) as Hd'.
  pose proof (pp_mono lo hi indices Hlh) as Hij. fold i in Ht, Hd, Hij. fold j in Ht', Hd', Hij.
  rewrite Forall_forall in Ht, Hd, Ht', Hd'. rewrite elem_of_app. split.
  - intros [Hx|Hx].
    + specialize (Ht x Hx). split; [|lia]. rewrite <- (take_drop i indices). set_solver.
    + specialize (Hd' x Hx). split; [|lia]. rewrite <- (take_drop j indices). set_solver.
  - intros [Hx Hr]. destruct (Z.lt_ge_cases x lo) as [Hlo|Hlo].
    + left. rewrite <- (take_drop i indices) in Hx. apply elem_of_app in Hx as [|Hx]; [done|].
      specialize (Hd x Hx). lia.
    + right. rewrite <- (take_drop j indices) in Hx. apply elem_of_app in Hx as [Hx|]; [|done].
      specialize (Ht' x Hx). lia.
Qed.

(** Removing the span of a range is removing the range from the map. *)
Lemma page_map_span lo hi indices table b :
  aligned indices table → lo ≤ hi →
  let i := partition_point (λ i, i <? lo) indices in
  let j := partition_point (λ i, i <? hi) indices in
  page_map (take i indices ++ drop j indices) (take i table ++ drop j table) !! b =
  if (lo <=? b) && (b <? hi) then None else page_map indices table !! b.
Proof.
  intros Ha Hlh i j. pose proof (pp_mono lo hi indices Hlh) as Hij. fold i j in Hij.
  pose proof (aligned_remove_span indices table i j Ha Hij) as Ha'.
  assert (∀ id, page_map (take i indices ++ drop j indices) (take i table ++ drop j table) !! b
    = Some id → page_map indices table !! b = Some id) as Hsub.
  { intros id. unfold page_map. rewrite zip_remove_span by (symmetry; apply Ha).
    rewrite <- !elem_of_list_to_map by
      (by apply aligned_NoDup || (rewrite <- zip_remove_span by (symmetry; apply Ha);
        by apply aligned_NoDup)).
    rewrite elem_of_app. intros [H|H].
    - rewrite <- (take_drop i (zip indices table)). set_solver.
    - rewrite <- (take_drop j (zip indices table)). set_solver. }
  pose proof (span_outside lo hi indices b (proj1 Ha) Hlh) as Hout. fold i j in Hout.
  pose proof (page_map_dom _ _ b Ha') as Hd'. pose proof (page_map_dom _ _ b Ha) as Hd.
  destruct (page_map (take i indices ++ _) _ !! b) as [id|] eqn:Hl.
  - assert (b ∈ take i indices ++ drop j indices) as Hin by by apply Hd'.
    apply Hout in Hin as [_ Hr].
    destruct (Z.leb_spec lo b), (Z.ltb_spec b hi); simpl; try lia; by rewrite (Hsub id).
  - destruct ((lo <=? b) && (b <? hi)) eqn:Hr; [done|].
    symmetry. apply eq_None_not_Some. rewrite Hd. intros Hin.
    assert (is_Some (None : option Z)) as [? ?]; [|done]. apply Hd', Hout. split; [done|].
    apply andb_false_iff in Hr as [Hr|Hr]; lia.
Qed.

(** An aligned pair is determined by its map. *)
Lemma aligned_unique indices table indices' table' :
  aligned indices table → aligned indices' table' →
  page_map indices table = page_map indices' table' → indices = indices' ∧ table = table'.
Proof.
  intros Ha Ha' Hm.
  assert (zip indices table ≡ₚ zip indices' table') as Hz.
  { unfold page_map in Hm. apply list_to_map_inj in Hm; [done|by apply aligned_NoDup..]. }
  assert (indices = indices') as <-.
  { eapply (StronglySorted_unique Z.lt); [apply Ha|apply Ha'|].
    rewrite <- (aligned_fst indices table), <- (aligned_fst indices' table') by done.
    by rewrite Hz. }
  split; [done|]. apply list_eq. intros i.
  destruct (indices !! i) as [b|] eqn:Hb.
  - destruct (lookup_lt_is_Some_2 table i) as [x Hx].
    { destruct Ha as [_ ->]. by eapply lookup_lt_Some. }
    assert (page_map indices table !! b = Some x) as Hl.
    { apply page_map_lookup; eauto. }
    rewrite Hm in Hl. apply page_map_lookup in Hl as (j & Hj & Hx'); [|done].
    assert (j = i) as ->; [|congruence].
    eapply NoDup_lookup; [apply ascending_NoDup, Ha|done|done].
  - apply lookup_ge_None in Hb. destruct Ha as [_ Hl], Ha' as [_ Hl'].
    rewrite !lookup_ge_None_2 by lia. done.
Qed.
End table.
