(* ===== verification/Pools.v ===== *)
(** * Pools of blocks and of sequence slots

    [BlockPool] and [FixedPool] of [crates/r9v-state/src/manager.rs], the byte
    offsets of what they hand out, and the interface both satisfy: an
    allocator that always hands out its smallest free id.  The ownership
    accounting of the manager is proved against the interface. *)

From S2P Require Import Prelude Errors Spec.

#[global] Open Scope Z_scope.

(** ** Paged blocks *)

Record BlockPool : Type := {
  p_total : Z;
  p_free : list Z;
  p_base_offset : Z;
  p_block_bytes : Z
}.

Definition set_p_free (free : list Z) (p : BlockPool) : BlockPool :=
  {| p_total := p_total p; p_free := free;
     p_base_offset := p_base_offset p; p_block_bytes := p_block_bytes p |}.

(** [BlockPool::alloc]: the free vector is descending, its last id is the
    smallest. *)
Definition alloc (p : BlockPool) : option Z * BlockPool :=
  let '(id, free) := vec_pop (p_free p) in (id, set_p_free free p).

(** [BlockPool::contains]: a binary search of the descending vector. *)
Definition contains (id : Z) (p : BlockPool) : bool :=
  match p_free p !! partition_point (λ x, id <? x) (p_free p) with
  | Some x => x =? id
  | None => false
  end.

(** [BlockPool::release]. *)
Definition release (id : Z) : stm BlockPool StateError unit := λ p,
  if p_total p <=? id then (Err (InvalidBatch (ReleaseOutOfRange id (p_total p))), p)
  else if contains id p then (Err (InvalidBatch (DoubleRelease id)), p)
  else
    match vec_insert (partition_point (λ x, id <? x) (p_free p)) id (p_free p) with
    | Ok free => (Ok tt, set_p_free free p)
    | Err e => (Err e, p)
    | Panic => (Panic, p)
    end.

(** ** Sequence slots *)

(** The [BTreeSet] of free slots is a finite set of integers. *)
Record FixedPool : Type := {
  f_total_slots : Z;
  f_free : gset Z;
  f_slot_bytes_per_seq : Z;
  f_buffer_bytes : Z;
  f_base_offset : Z
}.

Definition set_f_free (free : gset Z) (p : FixedPool) : FixedPool :=
  {| f_total_slots := f_total_slots p; f_free := free;
     f_slot_bytes_per_seq := f_slot_bytes_per_seq p; f_buffer_bytes := f_buffer_bytes p;
     f_base_offset := f_base_offset p |}.

(** [free.iter().next()]: the least element of the ordered set. *)
Definition least (X : gset Z) : option Z :=
  match elements X with
  | [] => None
  | x :: xs => Some (foldr Z.min x xs)
  end.

(** The allocation inlined in [new_seq]: the least free slot is removed. *)
Definition take_slot (p : FixedPool) : option Z * FixedPool :=
  match least (f_free p) with
  | Some id => (Some id, set_f_free (f_free p ∖ {[ id ]}) p)
  | None => (None, p)
  end.

(** [pool.free.insert(id)]. *)
Definition give_slot (id : Z) (p : FixedPool) : FixedPool :=
  set_f_free ({[ id ]} ∪ f_free p) p.

(** [FixedPool::buffer_offset]. *)
Definition buffer_offset (p : FixedPool) (buffer : Z) : StateResult Z :=
  ok_or (v ← checked_mul U64_MAX buffer (f_buffer_bytes p);
         checked_add U64_MAX v (f_base_offset p))
        (Overflow "fixed buffer offset").

(** [block_offset]. *)
Definition block_offset (base block_id block_bytes : Z) : StateResult Z :=
  ok_or (v ← checked_mul U64_MAX block_id block_bytes; checked_add U64_MAX v base)
        (Overflow "block offset").

(** ** The interface *)

(** What the manager needs of a pool: the ids [0 .. total - 1], each free or
    handed out, the smallest free one handed out first. *)
Class Allocator (P : Type) : Type := {
  pool_ok : P → Prop;
  total_of : P → Z;
  free_of : P → list Z;
  take_of : P → option Z * P;
  give_of : Z → P → P;
  free_NoDup p : pool_ok p → NoDup (free_of p);
  free_range p x : pool_ok p → x ∈ free_of p → 0 ≤ x < total_of p;
  take_None p p' : pool_ok p → take_of p = (None, p') → free_of p = [] ∧ p' = p;
  take_Some p p' x : pool_ok p → take_of p = (Some x, p') →
    pool_ok p' ∧ total_of p' = total_of p ∧ free_of p ≡ₚ x :: free_of p' ∧
    (∀ y, y ∈ free_of p → x ≤ y);
  give_spec p x : pool_ok p → 0 ≤ x < total_of p → x ∉ free_of p →
    pool_ok (give_of x p) ∧ total_of (give_of x p) = total_of p ∧
    free_of (give_of x p) ≡ₚ x :: free_of p
}.

(** The account of a pool: its free ids and the ids handed out are together
    every id once. *)
Definition partitioned {P} `{Allocator P} (p : P) (owned : list Z) : Prop :=
  pool_ok p ∧ free_of p ++ owned ≡ₚ seqZ 0 (total_of p).

Section ledger.
Context {P : Type} `{Allocator P}.
Implicit Types (p : P) (owned : list Z).

Lemma partitioned_NoDup p owned : partitioned p owned → NoDup (free_of p ++ owned).
Proof. intros [_ Hp]. rewrite Hp. apply NoDup_seqZ. Qed.

Lemma partitioned_disjoint p owned x : partitioned p owned → x ∈ owned → x ∉ free_of p.
Proof.
  intros Hp%partitioned_NoDup Hx Hf. apply NoDup_app in Hp as (_ & Hd & _). by apply (Hd x).
Qed.

Lemma partitioned_owned_NoDup p owned : partitioned p owned → NoDup owned.
Proof. intros Hp%partitioned_NoDup. by apply NoDup_app in Hp as (_ & _ & ?). Qed.

Lemma partitioned_range p owned x : partitioned p owned → x ∈ owned → 0 ≤ x < total_of p.
Proof.
  intros [_ Hp] Hx. assert (x ∈ seqZ 0 (total_of p)) as Hin.
  { rewrite <- Hp. apply elem_of_app. by right. }
  apply elem_of_seqZ in Hin. lia.
Qed.

Lemma partitioned_count p owned :
  0 ≤ total_of p → partitioned p owned →
  Z.of_nat (length (free_of p)) + Z.of_nat (length owned) = total_of p.
Proof.
  intros Ht [_ Hp%Permutation_length]. rewrite length_app, length_seqZ in Hp. lia.
Qed.

Lemma partitioned_take p p' x owned :
  partitioned p owned → take_of p = (Some x, p') →
  partitioned p' (x :: owned) ∧ x ∉ owned ∧ total_of p' = total_of p.
Proof.
  intros Hp Ht. destruct Hp as [Hok Hp].
  pose proof (take_Some p p' x Hok Ht) as (Hok' & Htot & Hf & _).
  assert (free_of p' ++ x :: owned ≡ₚ free_of p ++ owned) as Heq.
  { rewrite Hf. simpl. by rewrite Permutation_middle. }
  split_and!; [split; [done|]; rewrite Htot, Heq; done| |done].
  intros Hx. assert (NoDup (free_of p ++ owned)) as Hn by (rewrite Hp; apply NoDup_seqZ).
  apply NoDup_app in Hn as (_ & Hd & _). apply (Hd x); [|done]. rewrite Hf. by left.
Qed.

Lemma partitioned_give p x owned :
  partitioned p (x :: owned) →
  partitioned (give_of x p) owned ∧ total_of (give_of x p) = total_of p.
Proof.
  intros Hp. assert (x ∉ free_of p) as Hx.
  { eapply partitioned_disjoint; [done|]. by left. }
  assert (0 ≤ x < total_of p) as Hr by (eapply partitioned_range; [done|by left]).
  destruct Hp as [Hok Hp].
  destruct (give_spec p x Hok Hr Hx) as (Hok' & Htot & Hf).
  split; [split; [done|]|done]. rewrite Htot, Hf, <- Hp. simpl. by rewrite Permutation_middle.
Qed.

Lemma partitioned_proper p owned owned' :
  owned ≡ₚ owned' → partitioned p owned → partitioned p owned'.
Proof. intros Heq [Hok Hp]. split; [done|]. by rewrite <- Heq. Qed.

(** Every id handed out can be given back, in the order of the list. *)
Lemma partitioned_give_all p ids owned :
  partitioned p (ids ++ owned) →
  partitioned (foldl (λ p x, give_of x p) p ids) owned ∧
  total_of (foldl (λ p x, give_of x p) p ids) = total_of p.
Proof.
  revert p. induction ids as [|x ids IH]; intros p Hp; simpl; [done|].
  destruct (partitioned_give p x (ids ++ owned) Hp) as [Hg Ht].
  destruct (IH _ Hg) as [? ->]. done.
Qed.
End ledger.

#[global] Instance partitioned_Proper {P} `{Allocator P} :
  Proper ((=) ==> (≡ₚ) ==> iff) (partitioned (P:=P)).
Proof.
  intros p ? <- o o' Ho. split; apply partitioned_proper; [done|by symmetry].
Qed.

(** ** The block pool as an allocator *)

Definition block_pool_ok (p : BlockPool) : Prop :=
  descending (p_free p) ∧ Forall (λ x, 0 ≤ x < p_total p) (p_free p).

(** [release] on its success path. *)
Definition give_block (id : Z) (p : BlockPool) : BlockPool :=
  let at_ := partition_point (λ x, id <? x) (p_free p) in
  set_p_free (take at_ (p_free p) ++ id :: drop at_ (p_free p)) p.

Lemma descending_snoc_min l x y : descending (l ++ [x]) → y ∈ l ++ [x] → x ≤ y.
Proof.
  intros Hd Hy. apply StronglySorted_app in Hd as (Hm & _ & _).
  apply elem_of_app in Hy as [Hy|Hy].
  - specialize (Hm y x Hy ltac:(by left)). lia.
  - apply list_elem_of_singleton in Hy. lia.
Qed.

#[global] Program Instance block_pool_allocator : Allocator BlockPool := {|
  pool_ok := block_pool_ok;
  total_of := p_total;
  free_of := p_free;
  take_of := alloc;
  give_of := give_block
|}.
Next Obligation. intros p [Hd _]. by apply descending_NoDup. Qed.
Next Obligation. intros p x [_ Hf] Hx. by eapply Forall_forall in Hf. Qed.
Next Obligation.
  intros p p' _. unfold alloc. destruct (vec_pop (p_free p)) as [o f] eqn:Hp.
  intros [= -> <-]. apply vec_pop_None in Hp as [Hp ->]. split; [done|].
  rewrite <- Hp. by destruct p.
Qed.
Next Obligation.
  intros p p' x [Hd Hf]. unfold alloc. destruct (vec_pop (p_free p)) as [o f] eqn:Hp.
  intros [= -> <-]. apply vec_pop_Some in Hp. rewrite Hp in *. simpl.
  split_and!; [split| | |]; simpl.
  - by apply StronglySorted_app in Hd as (_ & ? & _).
  - by apply Forall_app in Hf as [? _].
  - done.
  - by rewrite Permutation_app_comm.
  - intros y. by apply descending_snoc_min.
Qed.
Next Obligation.
  intros p x [Hd Hf] Hx Hn. unfold give_block. simpl. split_and!; [split| |]; simpl.
  - by apply descending_insert.
  - rewrite insert_at_Permutation. by constructor.
  - done.
  - apply insert_at_Permutation.
Qed.

Lemma contains_spec id p : descending (p_free p) → contains id p = true ↔ id ∈ p_free p.
Proof.
  intros Hd. unfold contains. set (k := partition_point _ _).
  pose proof (descending_pp_take id (p_free p)) as Ht.
  pose proof (descending_pp_drop id (p_free p) Hd) as Hdr. fold k in Ht, Hdr.
  split.
  - destruct (p_free p !! k) as [x|] eqn:Hk; [|done].
    intros ->%Z.eqb_eq. by eapply list_elem_of_lookup_2.
  - intros Hin. rewrite <- (take_drop k (p_free p)) in Hin.
    apply elem_of_app in Hin as [Hin|Hin].
    { rewrite Forall_forall in Ht. specialize (Ht id Hin). lia. }
    destruct (drop k (p_free p)) as [|y r] eqn:He; [by apply elem_of_nil in Hin|].
    rewrite <- (Nat.add_0_r k), <- lookup_drop, He. simpl.
    assert (descending (y :: r)) as Hyr.
    { rewrite <- He. rewrite <- (take_drop k (p_free p)) in Hd.
      by apply StronglySorted_app in Hd as (_ & _ & ?). }
    apply elem_of_cons in Hin as [->|Hin]; [apply Z.eqb_refl|].
    apply StronglySorted_cons in Hyr as [Hyr _]. rewrite Forall_forall in Hyr, Hdr.
    specialize (Hyr id Hin). specialize (Hdr y ltac:(by left)). lia.
Qed.

(** [release] accepts exactly the ids that are handed out. *)
Lemma release_ok id p :
  block_pool_ok p → id < p_total p → id ∉ p_free p →
  release id p = (Ok tt, give_block id p).
Proof.
  intros [Hd Hf] Hlt Hn. unfold release, give_block.
  destruct (Z.leb_spec (p_total p) id); [lia|].
  destruct (contains id p) eqn:Hc; [by apply contains_spec in Hc|].
  rewrite vec_insert_Ok by apply partition_point_le. done.
Qed.

Lemma release_out_of_range id p :
  p_total p ≤ id → release id p = (Err (InvalidBatch (ReleaseOutOfRange id (p_total p))), p).
Proof. intros. unfold release. destruct (Z.leb_spec (p_total p) id); [done|lia]. Qed.

Lemma release_double id p :
  block_pool_ok p → id ∈ p_free p →
  release id p = (Err (InvalidBatch (DoubleRelease id)), p).
Proof.
  intros [Hd Hf] Hin. unfold release. rewrite Forall_forall in Hf.
  specialize (Hf id Hin). destruct (Z.leb_spec (p_total p) id); [lia|].
  by rewrite (proj2 (contains_spec id p Hd)).
Qed.

Lemma give_block_static id p :
  p_total (give_block id p) = p_total p ∧ p_base_offset (give_block id p) = p_base_offset p ∧
  p_block_bytes (give_block id p) = p_block_bytes p.
Proof. done. Qed.

Lemma alloc_static p o p' :
  alloc p = (o, p') → p_total p' = p_total p ∧ p_base_offset p' = p_base_offset p ∧
  p_block_bytes p' = p_block_bytes p.
Proof. unfold alloc. destruct (vec_pop (p_free p)). by intros [= _ <-]. Qed.

(** Giving back what was just taken restores the pool exactly. *)
Lemma give_alloc p p' id :
  block_pool_ok p → alloc p = (Some id, p') → give_block id p' = p.
Proof.
  intros Hok Ha.
  pose proof (take_Some (P:=BlockPool) p p' id Hok Ha) as (Hok' & Htot & Hf & _).
  destruct (alloc_static p (Some id) p' Ha) as (_ & Hb & Hbb). simpl in *.
  assert (id ∉ p_free p') as Hn.
  { pose proof (free_NoDup (P:=BlockPool) p Hok) as Hnd. simpl in Hnd.
    rewrite Hf in Hnd. by apply NoDup_cons in Hnd as [? _]. }
  assert (0 ≤ id < p_total p').
  { rewrite Htot. destruct Hok as [_ Hr]. rewrite Forall_forall in Hr. apply Hr.
    rewrite Hf. by left. }
  pose proof (give_spec (P:=BlockPool) p' id Hok') as Hgs. simpl in Hgs.
  destruct Hgs as ([Hd _] & _ & Hg); [done..|].
  destruct Hok as [Hdp _]. simpl in *.
  assert (p_free (give_block id p') = p_free p) as Hfe.
  { apply descending_unique; [done..|]. by rewrite Hg, Hf. }
  destruct p as [t f b bb], p' as [t' f' b' bb']. simpl in *. subst.
  done.
Qed.

(** ** The slot pool as an allocator *)

Definition fixed_pool_ok (p : FixedPool) : Prop :=
  ∀ x, x ∈ f_free p → 0 ≤ x < f_total_slots p.

Lemma foldr_min_spec x xs : foldr Z.min x xs ∈ x :: xs ∧ ∀ y, y ∈ x :: xs → foldr Z.min x xs ≤ y.
Proof.
  induction xs as [|z xs [IH1 IH2]]; simpl.
  - split; [by left|]. intros y. rewrite list_elem_of_singleton. lia.
  - split.
    + destruct (Z.min_spec z (foldr Z.min x xs)) as [[_ ->]|[_ ->]]; [set_solver|].
      apply elem_of_cons in IH1 as [->|]; set_solver.
    + intros y Hy. apply elem_of_cons in Hy as [->|Hy].
      { specialize (IH2 x ltac:(by left)). lia. }
      apply elem_of_cons in Hy as [->|Hy]; [lia|].
      specialize (IH2 y ltac:(by right)). lia.
Qed.

Lemma least_Some X x : least X = Some x → x ∈ X ∧ ∀ y, y ∈ X → x ≤ y.
Proof.
  unfold least. destruct (elements X) as [|z zs] eqn:He; [done|]. intros [= <-].
  destruct (foldr_min_spec z zs) as [H1 H2]. rewrite <- He in H1.
  split; [by apply elem_of_elements|]. intros y Hy. apply H2. rewrite <- He.
  by apply elem_of_elements.
Qed.

Lemma least_None X : least X = None ↔ X = ∅.
Proof.
  unfold least. split.
  - destruct (elements X) eqn:He; [|done]. intros _. apply elements_empty_inv in He.
    by apply leibniz_equiv.
  - intros ->. by rewrite elements_empty.
Qed.

Lemma elements_remove (X : gset Z) x : x ∈ X → elements X ≡ₚ x :: elements (X ∖ {[ x ]}).
Proof.
  intros Hx. rewrite <- elements_union_singleton by set_solver.
  assert (X = {[ x ]} ∪ X ∖ {[ x ]}) as <-; [|done].
  apply set_eq. intros y. destruct (decide (y = x)); set_solver.
Qed.

#[global] Program Instance fixed_pool_allocator : Allocator FixedPool := {|
  pool_ok := fixed_pool_ok;
  total_of := f_total_slots;
  free_of p := elements (f_free p);
  take_of := take_slot;
  give_of := give_slot
|}.
Next Obligation. intros p _. simpl. apply NoDup_elements. Qed.
Next Obligation. intros p x Hok. simpl. intros Hx%elem_of_elements. by apply Hok. Qed.
Next Obligation.
  intros p p' _. unfold take_slot. destruct (least (f_free p)) eqn:Hl; [done|].
  intros [= <-]. apply least_None in Hl. by rewrite Hl.
Qed.
Next Obligation.
  intros p p' x Hok. unfold take_slot. destruct (least (f_free p)) as [y|] eqn:Hl; [|done].
  intros [= -> <-]. apply least_Some in Hl as [Hin Hmin]. split_and!.
  - intros z. simpl. intros [Hz _]%elem_of_difference. by apply Hok.
  - done.
  - simpl. by apply elements_remove.
  - simpl. intros z Hz%elem_of_elements. by apply Hmin.
Qed.
Next Obligation.
  simpl. intros p x Hok Hx Hn. split_and!; [|done|].
  - intros y. simpl. intros [->%elem_of_singleton|?]%elem_of_union; [done|by apply Hok].
  - simpl. rewrite elements_union_singleton; [done|]. by rewrite <- elem_of_elements.
Qed.

(** ** Releasing several ids *)

Lemma block_owned p owned x :
  partitioned p owned → x ∈ owned → x ∉ p_free p ∧ 0 ≤ x < p_total p.
Proof.
  intros Hp Hx. split.
  - exact (partitioned_disjoint p owned x Hp Hx).
  - exact (partitioned_range p owned x Hp Hx).
Qed.

Lemma slot_owned p owned x :
  partitioned p owned → x ∈ owned → x ∉ f_free p ∧ 0 ≤ x < f_total_slots p.
Proof.
  intros Hp Hx. split.
  - rewrite <- elem_of_elements. exact (partitioned_disjoint p owned x Hp Hx).
  - exact (partitioned_range p owned x Hp Hx).
Qed.

Lemma block_count p owned :
  0 ≤ p_total p → partitioned p owned →
  Z.of_nat (length (p_free p)) + Z.of_nat (length owned) = p_total p.
Proof. exact (partitioned_count p owned). Qed.

Lemma slot_count p owned :
  0 ≤ f_total_slots p → partitioned p owned →
  Z.of_nat (size (f_free p)) + Z.of_nat (length owned) = f_total_slots p.
Proof. exact (partitioned_count p owned). Qed.

Lemma release_all_ok p ids owned :
  partitioned p (ids ++ owned) →
  sfor release ids p = (Ok tt, foldl (λ p x, give_block x p) p ids).
Proof.
  revert p. induction ids as [|x ids IH]; intros p Hp; simpl; [done|].
  destruct (block_owned p _ x Hp) as [Hn Hr]; [by left|].
  erewrite sbind_Ok; [|apply release_ok; [apply Hp|lia|done]].
  apply IH. exact (proj1 (partitioned_give p x (ids ++ owned) Hp)).
Qed.

Lemma give_all_static p ids :
  let p' := foldl (λ p x, give_block x p) p ids in
  p_total p' = p_total p ∧ p_base_offset p' = p_base_offset p ∧
  p_block_bytes p' = p_block_bytes p.
Proof.
  revert p. induction ids as [|x ids IH]; intros p; simpl; [done|].
  destruct (IH (give_block x p)) as (-> & -> & ->). done.
Qed.

Lemma block_pool_eq p q :
  p_total p = p_total q → p_base_offset p = p_base_offset q →
  p_block_bytes p = p_block_bytes q → p_free p = p_free q → p = q.
Proof. destruct p, q. simpl. by intros -> -> -> ->. Qed.

(** Ids handed back to a pool are accepted, and the pool they leave does
    not depend on the order in which they came back: the next allocation is a
    function of which blocks are free, not of the history that freed them. *)
Theorem release_order_irrelevant p ids ids' owned :
  partitioned p (ids ++ owned) → ids ≡ₚ ids' →
  sfor release ids p = sfor release ids' p ∧
  fst (sfor release ids p) = Ok tt ∧
  partitioned (snd (sfor release ids p)) owned.
Proof.
  intros Hp Hperm.
  assert (partitioned p (ids' ++ owned)) as Hp'.
  { eapply (partitioned_proper p); [|done]. by rewrite Hperm. }
  rewrite (release_all_ok p ids owned Hp), (release_all_ok p ids' owned Hp'). simpl.
  destruct (partitioned_give_all p ids owned Hp) as [Hg _].
  destruct (partitioned_give_all p ids' owned Hp') as [Hg' _].
  split_and!; [f_equal|done|done].
  destruct (give_all_static p ids) as (Ht & Hb & Hbb).
  destruct (give_all_static p ids') as (Ht' & Hb' & Hbb').
  apply block_pool_eq; [congruence..|].
  apply descending_unique; [apply Hg|apply Hg'|].
  apply (Permutation_app_inv_r owned). destruct Hg as [_ Hg], Hg' as [_ Hg']. simpl in *.
  rewrite Hg, Hg'. by rewrite Ht, Ht'.
Qed.

Lemma release_order_irrelevant_witness :
  let p := {| p_total := 4; p_free := [3]; p_base_offset := 0; p_block_bytes := 64 |} in
  sfor release [0; 2] p = sfor release [2; 0] p ∧
  p_free (snd (sfor release [0; 2] p)) = [3; 2; 0].
Proof.
  intros p. split; [|reflexivity].
  refine (proj1 (release_order_irrelevant p [0; 2] [2; 0] [1] _ _)).
  - split; [split; [repeat constructor; lia|repeat constructor; simpl; lia]|].
    apply NoDup_Permutation; [vm_compute; repeat constructor; set_solver|apply NoDup_seqZ|].
    intros x. simpl. rewrite elem_of_seqZ, !elem_of_cons, elem_of_nil. lia.
  - apply Permutation_swap.
Defined.

(** ** Byte ranges *)

(** The blocks of a pool occupy disjoint byte ranges inside the range the
    pool was assigned, and no offset overflows. *)
Theorem block_offsets_disjoint base total bytes a b :
  0 ≤ base → 0 < bytes → base + total * bytes ≤ U64_MAX →
  0 ≤ a < total → 0 ≤ b < total → a ≠ b →
  ∃ oa ob, block_offset base a bytes = Ok oa ∧ block_offset base b bytes = Ok ob ∧
    base ≤ oa ∧ oa + bytes ≤ base + total * bytes ∧
    base ≤ ob ∧ ob + bytes ≤ base + total * bytes ∧
    (oa + bytes ≤ ob ∨ ob + bytes ≤ oa).
Proof.
  intros Hbase Hbytes Hmax Ha Hb Hne. exists (a * bytes + base), (b * bytes + base).
  unfold block_offset.
  assert ((a + 1) * bytes ≤ total * bytes) by (apply Z.mul_le_mono_nonneg_r; lia).
  assert ((b + 1) * bytes ≤ total * bytes) by (apply Z.mul_le_mono_nonneg_r; lia).
  rewrite !checked_mul_ok by lia. simpl. rewrite !checked_add_ok by lia. simpl.
  split_and!; try done; try nia.
Qed.

Lemma block_offsets_disjoint_witness :
  ∃ oa ob, block_offset 4096 0 2048 = Ok oa ∧ block_offset 4096 3 2048 = Ok ob ∧
    4096 ≤ oa ∧ oa + 2048 ≤ 4096 + 4 * 2048 ∧
    4096 ≤ ob ∧ ob + 2048 ≤ 4096 + 4 * 2048 ∧
    (oa + 2048 ≤ ob ∨ ob + 2048 ≤ oa).
Proof. apply (block_offsets_disjoint 4096 4 2048 0 3); vm_compute; intuition discriminate. Defined.
