(* ===== verification/Manager.v ===== *)
(** * The sequence-state manager: data and operations

    [StateManager] of [crates/r9v-state/src/manager.rs]: construction,
    admission, reservation, slots, the token mirror, compaction, commit and
    release.  A method on [&mut self] is an action of type [stm StateManager]
    that returns what it left behind on every path, a method on [&self] is a
    function of the manager.  [usize] indices of groups and table entries are
    [nat], the [u32] and [u64] quantities are integers. *)

From S2P Require Import Prelude Errors Spec Pools.

#[global] Open Scope Z_scope.

Definition SLOT_NONE : Z := U32_MAX.
Definition MAX_SLOT_BLOCKS : Z := 134217727.
Definition MAX_COMPACT_TOKENS : nat := 16.

(** ** Configuration *)

Record StateConfig : Type := { max_ctx : Z; max_seqs : Z }.

Definition max_blocks (c : StateConfig) : Z := max_ctx c / BLOCK_TOKENS.

Definition config_problems (c : StateConfig) : list InvalidItem :=
  (if (max_ctx c =? 0) || (MAX_CTX_HARD <? max_ctx c)
   then [{| i_index := U32_MAX; i_reason := MaxCtxOutOfRange (max_ctx c) |}] else []) ++
  (if negb (max_ctx c mod BLOCK_TOKENS =? 0)
   then [{| i_index := U32_MAX; i_reason := MaxCtxNotMultiple (max_ctx c) |}] else []) ++
  (if (max_seqs c =? 0) || (MAX_SEQS_HARD <? max_seqs c)
   then [{| i_index := U32_MAX; i_reason := MaxSeqsOutOfRange (max_seqs c) |}] else []).

Definition validate (c : StateConfig) : StateResult unit :=
  match config_problems c with
  | [] => Ok tt
  | problems => Err (InvalidConfig problems)
  end.

Definition required_pool_bytes (config : StateConfig) (groups : list LayerGroup) : StateResult Z :=
  foldl (λ acc g,
    let* total := acc in
    if is_paged (g_spec g) then
      let* bb := block_bytes g in
      let* full := ok_or (checked_mul U64_MAX bb (max_blocks config))
                         (Overflow "full-context paged pool") in
      ok_or (checked_add U64_MAX total full) (Overflow "pool total")
    else
      let* sb := slots_bytes_per_seq g in
      let* fixed := ok_or (checked_mul U64_MAX sb (max_seqs config))
                          (Overflow "recurrent pool") in
      ok_or (checked_add U64_MAX total fixed) (Overflow "pool total")) (Ok 0) groups.

(** ** State *)

Record SlotRange : Type := { r_seq : Z; r_start : Z; r_len : Z }.

(** [SlotRange::end]. *)
Definition range_end (r : SlotRange) : Z := u32_add (r_start r) (r_len r).

(** The source array keeps only its first [c_len] entries meaningful. *)
Record CompactOp : Type := { c_seq : Z; c_src : list Z; c_dst_start : Z; c_len : Z }.

Definition src_positions (op : CompactOp) : list Z := take (Z.to_nat (c_len op)) (c_src op).

Record SeqState : Type := {
  q_ctx_len : Z;
  q_tail_len : Z;
  q_tables : list (list Z);
  q_indices : list (list Z);
  q_mirror : gmap (nat * Z) Z;
  q_compacted : option nat;
  q_fixed_slots : list (option Z);
  q_parity : list Z
}.

Record StateManager : Type := {
  m_config : StateConfig;
  m_groups : list LayerGroup;
  m_pools : list (option BlockPool);
  m_fixed : list (option FixedPool);
  m_max_blocks : Z;
  m_pool_bytes_total : Z;
  m_fixed_bytes_total : Z;
  m_unusable_bytes : Z;
  m_next_seq : Z;
  m_seqs : gmap Z SeqState;
  m_live_count : Z;
  m_swaps : Z;
  m_commits : Z;
  m_reserve_scratch : list (nat * Z)
}.

(** Field updates. *)
Definition set_lens (ctx tail : Z) (compacted : option nat) (s : SeqState) : SeqState :=
  {| q_ctx_len := ctx; q_tail_len := tail; q_tables := q_tables s; q_indices := q_indices s;
     q_mirror := q_mirror s; q_compacted := compacted;
     q_fixed_slots := q_fixed_slots s; q_parity := q_parity s |}.
Definition set_compacted (compacted : option nat) (s : SeqState) : SeqState :=
  set_lens (q_ctx_len s) (q_tail_len s) compacted s.
Definition set_tables (tables indices : list (list Z)) (s : SeqState) : SeqState :=
  {| q_ctx_len := q_ctx_len s; q_tail_len := q_tail_len s; q_tables := tables;
     q_indices := indices; q_mirror := q_mirror s; q_compacted := q_compacted s;
     q_fixed_slots := q_fixed_slots s; q_parity := q_parity s |}.
Definition set_mirror (mirror : gmap (nat * Z) Z) (s : SeqState) : SeqState :=
  {| q_ctx_len := q_ctx_len s; q_tail_len := q_tail_len s; q_tables := q_tables s;
     q_indices := q_indices s; q_mirror := mirror; q_compacted := q_compacted s;
     q_fixed_slots := q_fixed_slots s; q_parity := q_parity s |}.
Definition set_parity (parity : list Z) (s : SeqState) : SeqState :=
  {| q_ctx_len := q_ctx_len s; q_tail_len := q_tail_len s; q_tables := q_tables s;
     q_indices := q_indices s; q_mirror := q_mirror s; q_compacted := q_compacted s;
     q_fixed_slots := q_fixed_slots s; q_parity := parity |}.

(** The parts of the manager that admission, reservation, commit and release
    write; everything else is fixed at construction. *)
Definition set_store (pools : list (option BlockPool)) (fixed : list (option FixedPool))
    (seqs : gmap Z SeqState) (m : StateManager) : StateManager :=
  {| m_config := m_config m; m_groups := m_groups m; m_pools := pools; m_fixed := fixed;
     m_max_blocks := m_max_blocks m; m_pool_bytes_total := m_pool_bytes_total m;
     m_fixed_bytes_total := m_fixed_bytes_total m; m_unusable_bytes := m_unusable_bytes m;
     m_next_seq := m_next_seq m; m_seqs := seqs; m_live_count := m_live_count m;
     m_swaps := m_swaps m; m_commits := m_commits m;
     m_reserve_scratch := m_reserve_scratch m |}.
Definition set_counts (next_seq live_count swaps commits : Z) (m : StateManager) : StateManager :=
  {| m_config := m_config m; m_groups := m_groups m; m_pools := m_pools m;
     m_fixed := m_fixed m; m_max_blocks := m_max_blocks m;
     m_pool_bytes_total := m_pool_bytes_total m;
     m_fixed_bytes_total := m_fixed_bytes_total m; m_unusable_bytes := m_unusable_bytes m;
     m_next_seq := next_seq; m_seqs := m_seqs m; m_live_count := live_count;
     m_swaps := swaps; m_commits := commits; m_reserve_scratch := m_reserve_scratch m |}.
Definition set_scratch (scratch : list (nat * Z)) (m : StateManager) : StateManager :=
  {| m_config := m_config m; m_groups := m_groups m; m_pools := m_pools m;
     m_fixed := m_fixed m; m_max_blocks := m_max_blocks m;
     m_pool_bytes_total := m_pool_bytes_total m;
     m_fixed_bytes_total := m_fixed_bytes_total m; m_unusable_bytes := m_unusable_bytes m;
     m_next_seq := m_next_seq m; m_seqs := m_seqs m; m_live_count := m_live_count m;
     m_swaps := m_swaps m; m_commits := m_commits m; m_reserve_scratch := scratch |}.
Definition set_seqs (seqs : gmap Z SeqState) (m : StateManager) : StateManager :=
  set_store (m_pools m) (m_fixed m) seqs m.
Definition set_fixed (fixed : list (option FixedPool)) (m : StateManager) : StateManager :=
  set_store (m_pools m) fixed (m_seqs m) m.

(** ** Construction *)

(** The first pass over the groups: the bytes of the fixed pools. *)
Definition fixed_total (max_seqs : Z) (groups : list LayerGroup) : StateResult Z :=
  foldl (λ acc g,
    let* total := acc in
    if is_paged (g_spec g) then Ok total
    else
      let* per_seq := slots_bytes_per_seq g in
      let* grp := ok_or (checked_mul U64_MAX per_seq max_seqs) (Overflow "fixed group pool") in
      ok_or (checked_add U64_MAX total grp) (Overflow "fixed pool total")) (Ok 0) groups.

Definition paged_groups (groups : list LayerGroup) : list LayerGroup :=
  filter (λ g, is_paged (g_spec g) = true) groups.

Definition block_cost_sum (groups : list LayerGroup) : StateResult Z :=
  foldl (λ acc g,
    let* sum := acc in
    let* bb := block_bytes g in
    ok_or (checked_add U64_MAX sum bb) (Overflow "block cost sum")) (Ok 0) (paged_groups groups).

Definition refuse_config {A} (reason : Reason) : StateResult A :=
  Err (InvalidConfig [{| i_index := U32_MAX; i_reason := reason |}]).

(** The split of the usable bytes: the blocks of every paged group and the
    bytes assigned to them. *)
Definition split_paged (max_blocks pool_bytes fixed usable cost : Z) (groups : list LayerGroup)
    : StateResult (Z * Z) :=
  match paged_groups groups with
  | [] => Ok (0, 0)
  | _ =>
      match checked_div usable cost with
      | None => refuse_config ZeroBlockCost
      | Some blocks =>
          match try_from U32_MAX blocks with
          | None => refuse_config (BlocksExceedSlotRange blocks)
          | Some blocks_per_group =>
              if MAX_SLOT_BLOCKS <? blocks_per_group
              then refuse_config (BlocksExceedSlotRange blocks_per_group)
              else if blocks_per_group <? max_blocks then
                let* need_paged := ok_or (checked_mul U64_MAX max_blocks cost)
                                         (Overflow "minimum paged pool") in
                let* required := ok_or (checked_add U64_MAX fixed need_paged)
                                       (Overflow "minimum pool") in
                refuse_config (PoolBelowRequired pool_bytes required
                                 (u64_sub required pool_bytes))
              else
                let* assigned := ok_or (checked_mul U64_MAX blocks_per_group cost)
                                       (Overflow "assigned paged bytes") in
                Ok (blocks_per_group, assigned)
          end
      end
  end.

(** The arena: pools are laid out one after the other in group order. *)
Definition lay_group (blocks_per_group max_seqs : Z)
    (acc : StateResult (list (option BlockPool) * list (option FixedPool) * Z))
    (g : LayerGroup) : StateResult (list (option BlockPool) * list (option FixedPool) * Z) :=
  let* (pools, fixed, base) := acc in
  if is_paged (g_spec g) then
    let* bb := block_bytes g in
    let* bytes := ok_or (checked_mul U64_MAX blocks_per_group bb) (Overflow "group pool bytes") in
    let* base' := ok_or (checked_add U64_MAX base bytes) (Overflow "arena base") in
    Ok (pools ++ [Some {| p_total := blocks_per_group;
                          p_free := rev (zrange 0 blocks_per_group);
                          p_base_offset := base; p_block_bytes := bb |}],
        fixed ++ [None], base')
  else
    let* per_seq := slots_bytes_per_seq g in
    let* grp_bytes := ok_or (checked_mul U64_MAX per_seq max_seqs)
                            (Overflow "fixed group bytes") in
    let* base' := ok_or (checked_add U64_MAX base grp_bytes) (Overflow "arena base") in
    Ok (pools ++ [None],
        fixed ++ [Some {| f_total_slots := max_seqs;
                          f_free := list_to_set (zrange 0 max_seqs);
                          f_slot_bytes_per_seq := per_seq; f_buffer_bytes := per_seq / 2;
                          f_base_offset := base |}], base').

(** [try_reserve_exact] may be refused by the system's allocator: whether it
    grants a capacity is an argument of the constructors. *)
Section construction.
Context (try_reserve_exact : Z → bool).

Definition new_from_validated_groups (config : StateConfig) (groups : list LayerGroup)
    (pool_bytes : Z) : StateResult StateManager :=
  let* fixed_sum := fixed_total (max_seqs config) groups in
  if pool_bytes <? fixed_sum
  then refuse_config (PoolBelowFixed pool_bytes fixed_sum (u64_sub fixed_sum pool_bytes))
  else
    let usable := u64_sub pool_bytes fixed_sum in
    let* cost := block_cost_sum groups in
    let* (blocks_per_group, assigned) :=
      split_paged (max_blocks config) pool_bytes fixed_sum usable cost groups in
    let unusable := u64_sub usable assigned in
    let* (pools, fixed, _) :=
      foldl (lay_group blocks_per_group (max_seqs config)) (Ok ([], [], 0)) groups in
    let* scratch_cap :=
      ok_or (checked_mul USIZE_MAX (Z.of_nat (length (paged_groups groups))) (max_blocks config))
            (Overflow "reserve scratch capacity") in
    if negb (try_reserve_exact scratch_cap) then Err (Overflow "reserve scratch capacity")
    else
      Ok {| m_config := config; m_groups := groups; m_pools := pools; m_fixed := fixed;
            m_max_blocks := max_blocks config; m_pool_bytes_total := assigned;
            m_fixed_bytes_total := fixed_sum; m_unusable_bytes := unusable;
            m_next_seq := 0; m_seqs := ∅; m_live_count := 0; m_swaps := 0; m_commits := 0;
            m_reserve_scratch := [] |}.

(** Both validations are collected before anything is refused. *)
Definition join_problems (config_res : StateResult unit)
    (groups_res : StateResult (list LayerGroup)) : StateResult (list LayerGroup) :=
  match config_res, groups_res with
  | Err (InvalidConfig cp), Err (InvalidConfig gp) => Err (InvalidConfig (cp ++ gp))
  | Err e, _ => Err e
  | _, Err e => Err e
  | Ok _, Ok groups => Ok groups
  | _, _ => Panic
  end.

Definition new (config : StateConfig) (layer_specs : list StateSpec) (pool_bytes : Z)
    : StateResult StateManager :=
  let* groups := join_problems (validate config) (group_layers layer_specs) in
  new_from_validated_groups config groups pool_bytes.

Definition new_with_declarations (config : StateConfig) (declarations : list StateDecl)
    (pool_bytes : Z) : StateResult StateManager :=
  let* groups := join_problems (validate config) (group_layer_specs declarations) in
  new_from_validated_groups config groups pool_bytes.
End construction.

(** ** Admission *)

Definition fixed_slots_check (m : StateManager) : StateResult unit :=
  oforM (λ '(gi, g),
    if is_recurrent (g_spec g) then
      let* pool := ok_or (get_some gi (m_fixed m)) (InvalidBatch (NotFixedGroup gi)) in
      if decide (f_free pool = ∅)
      then Err (SeqLimit (m_live_count m) (max_seqs (m_config m)))
      else Ok tt
    else Ok tt) (enumerate (m_groups m)).

(** The rollback of [new_seq]: the slots already taken go back. *)
Definition return_slots (fixed_slots : list (option Z)) (fixed : list (option FixedPool))
    : list (option FixedPool) :=
  foldl (λ fixed '(rgi, rslot),
    match rslot with
    | Some sid =>
        match get_some rgi fixed with
        | Some rpool => <[rgi := Some (give_slot sid rpool)]> fixed
        | None => fixed
        end
    | None => fixed
    end) fixed (enumerate fixed_slots).

Fixpoint take_slots (live cap : Z) (gs : list (nat * LayerGroup)) (fixed_slots : list (option Z))
    : stm (list (option FixedPool)) StateError (list (option Z)) := λ fixed,
  match gs with
  | [] => (Ok fixed_slots, fixed)
  | (gi, g) :: gs =>
      if negb (is_recurrent (g_spec g)) then take_slots live cap gs fixed_slots fixed
      else
        match get_some gi fixed with
        | None => (Err (InvalidBatch (NotFixedGroup gi)), return_slots fixed_slots fixed)
        | Some pool =>
            match take_slot pool with
            | (None, _) => (Err (SeqLimit live cap), return_slots fixed_slots fixed)
            | (Some id, pool') =>
                match vec_set gi (Some id) fixed_slots with
                | Ok fixed_slots' =>
                    take_slots live cap gs fixed_slots' (<[gi := Some pool']> fixed)
                | Err e => (Err e, <[gi := Some pool']> fixed)
                | Panic => (Panic, <[gi := Some pool']> fixed)
                end
            end
        end
  end.

Definition new_state (groups : list LayerGroup) (fixed_slots : list (option Z)) : SeqState :=
  {| q_ctx_len := 0; q_tail_len := 0;
     q_tables := map (λ _, []) groups; q_indices := map (λ _, []) groups;
     q_mirror := ∅; q_compacted := None; q_fixed_slots := fixed_slots;
     q_parity := replicate (length groups) 0 |}.

(** The checks of [new_seq] that precede every mutation. *)
Definition new_seq_check (tokens : list Z) (m : StateManager) : StateResult (Z * Z) :=
  let len := Z.of_nat (length tokens) in
  let cap := max_seqs (m_config m) in
  let* len_u32 := ok_or (try_from U32_MAX len) (Overflow "prompt length") in
  if max_ctx (m_config m) <? len
  then Err (ReserveTooLarge len_u32 (max_ctx (m_config m)) len_u32)
  else
    let* next_live := ok_or (checked_add U32_MAX (m_live_count m) 1)
                            (Overflow "live sequence count") in
    if U32_MAX <? m_next_seq m then Err (SeqIdOverflow (m_next_seq m) U32_MAX)
    else
      let* next_id := ok_or (checked_add U64_MAX (m_next_seq m) 1) (Overflow "sequence id") in
      if cap <=? m_live_count m then Err (SeqLimit (m_live_count m) cap)
      else
        let* _ := fixed_slots_check m in
        Ok (next_live, next_id).

Definition new_seq (tokens : list Z) : stm StateManager StateError (Z * Z) :=
  let! (next_live, next_id) := sread (new_seq_check tokens) in
  let! m := sget in
  let! fixed_slots :=
    szoom m_fixed set_fixed
      (take_slots (m_live_count m) (max_seqs (m_config m)) (enumerate (m_groups m))
         (replicate (length (m_groups m)) None)) in
  let id := m_next_seq m in
  let! _ := smodify (λ m, set_seqs (<[id := new_state (m_groups m) fixed_slots]> (m_seqs m)) m) in
  let! _ := smodify (λ m, set_counts next_id next_live (m_swaps m) (m_commits m) m) in
  sret (id, 0).

(** ** Sequences *)

(** [StateManager::seq]. *)
Definition seq_state (seq : Z) (m : StateManager) : StateResult SeqState :=
  ok_or (m_seqs m !! seq) (UnknownSeq seq).

(** [StateManager::seq_mut]: an action on the state of a live sequence. *)
Definition seq_mut {A} (seq : Z) (c : stm SeqState StateError A) : stm StateManager StateError A :=
  λ m, match m_seqs m !! seq with
       | None => (Err (UnknownSeq seq), m)
       | Some s => let '(r, s') := c s in (r, set_seqs (<[seq := s']> (m_seqs m)) m)
       end.

Definition ctx_len (seq : Z) (m : StateManager) : StateResult Z :=
  let* s := seq_state seq m in Ok (q_ctx_len s).
Definition tail_len (seq : Z) (m : StateManager) : StateResult Z :=
  let* s := seq_state seq m in Ok (q_tail_len s).

Definition window_start_of (ctx w : Z) : Z := if w <=? ctx then ctx - w else 0.

Definition group_at (group : nat) (m : StateManager) : StateResult LayerGroup :=
  ok_or (m_groups m !! group) (InvalidBatch (GroupOutOfRange group (length (m_groups m)))).

(** The first retained position a spec reports for a context length. *)
Definition spec_window_start (s : StateSpec) (ctx : Z) : Z :=
  match retain s with
  | None | Some All => 0
  | Some (Window w) | Some (SinkWindow _ w) => window_start_of ctx w
  end.

Definition window_start (seq : Z) (group : nat) (m : StateManager) : StateResult Z :=
  let* s := seq_state seq m in
  let* g := group_at group m in
  Ok (spec_window_start (g_spec g) (q_ctx_len s)).

Definition recurrent_active (seq : Z) (group : nat) (m : StateManager) : StateResult Z :=
  let* s := seq_state seq m in
  ok_or (q_parity s !! group) (InvalidBatch (GroupOutOfRange group (length (m_groups m)))).

Definition fixed_slot (seq : Z) (group : nat) (m : StateManager) : StateResult Z :=
  let* s := seq_state seq m in
  let* g := group_at group m in
  if negb (is_recurrent (g_spec g)) then Err (InvalidBatch (NotRecurrentGroup group))
  else ok_or (get_some group (q_fixed_slots s)) (InvalidBatch (HoldsNoSlot seq group)).

Definition recurrent_buffers (seq : Z) (group : nat) (m : StateManager) : StateResult (Z * Z) :=
  let* slot := fixed_slot seq group m in
  let* active_bit := recurrent_active seq group m in
  let* base := ok_or (checked_mul U32_MAX slot 2) (Overflow "fixed buffer id") in
  let* active := ok_or (checked_add U32_MAX base active_bit) (Overflow "fixed buffer id") in
  let* working_bit := (if active_bit =? 0 then Ok 1 else if active_bit =? 1 then Ok 0
                       else Err (Overflow "fixed buffer parity")) in
  let* working := ok_or (checked_add U32_MAX base working_bit) (Overflow "fixed buffer id") in
  Ok (active, working).

Definition fixed_buffer_offset (group : nat) (buffer : Z) (m : StateManager) : StateResult Z :=
  let* pool := ok_or (get_some group (m_fixed m)) (InvalidBatch (NotRecurrentGroup group)) in
  let* total_buffers := ok_or (checked_mul U32_MAX (f_total_slots pool) 2)
                              (Overflow "fixed buffer range") in
  if total_buffers <=? buffer then Err (OutOfRange buffer 1 total_buffers)
  else buffer_offset pool buffer.

Definition free_blocks (group : nat) (m : StateManager) : StateResult Z :=
  let* pool := ok_or (get_some group (m_pools m)) (InvalidBatch (NotPagedGroup group)) in
  ok_or (try_from U32_MAX (Z.of_nat (length (p_free pool)))) (Overflow "free block count").

Definition free_slots (group : nat) (m : StateManager) : StateResult Z :=
  let* pool := ok_or (get_some group (m_fixed m)) (InvalidBatch (NotRecurrentGroup group)) in
  ok_or (try_from U32_MAX (Z.of_nat (size (f_free pool)))) (Overflow "free slot count").

(** ** Reservation *)

(** The block indices of [first .. last] that an ascending table lacks. *)
Definition missing_blocks (held : list Z) (first last : Z) : list Z :=
  filter (λ idx, held !! partition_point (λ i, i <? idx) held ≠ Some idx) (zrange first last).

(** The first pass over one group: record what is missing and refuse when the
    pool has less.  The scratch vector is the state. *)
Definition scan_group (m : StateManager) (s : SeqState) (first last end_ : Z)
    (gg : nat * LayerGroup) : stm (list (nat * Z)) StateError unit :=
  let '(gi, g) := gg in
  if negb (is_paged (g_spec g)) then sret tt
  else
    let! _ := slift (ok_or (try_from U32_MAX (Z.of_nat gi)) (Overflow "group index")) in
    let! held := slift (or_panic (q_indices s !! gi)) in
    let missing := missing_blocks held first last in
    let! _ := smodify (λ scratch, scratch ++ map (pair gi) missing) in
    let! want := slift (ok_or (try_from U64_MAX (Z.of_nat (length missing)))
                              (Overflow "missing block count")) in
    let! pool := slift (or_panic (m_pools m !! gi)) in
    let free_len := match pool with Some p => length (p_free p) | None => 0%nat end in
    let! free := slift (ok_or (try_from U64_MAX (Z.of_nat free_len))
                              (Overflow "free block count")) in
    if free <? want then
      let! available := slift (ok_or (try_from U32_MAX free) (Overflow "free block count")) in
      let! required := slift (ok_or (try_from U32_MAX want) (Overflow "missing block count")) in
      let! shortfall := slift (ok_or (checked_sub required available)
                                     (Overflow "pool shortfall")) in
      sfail (PoolExhausted gi required available shortfall end_ (max_ctx (m_config m)))
    else sret tt.

(** The pools and the sequence table the second pass writes. *)
Definition placing : Type := list (option BlockPool) * gmap Z SeqState.

(** [place_one_block]. *)
Definition place_one_block (seq : Z) (gi : nat) (idx end_ max_ctx : Z)
    : stm placing StateError unit := λ '(pools, seqs),
  match get_some gi pools with
  | None => (Err (InvalidBatch (NotPagedGroup gi)), (pools, seqs))
  | Some pool =>
      match alloc pool with
      | (None, pool') =>
          (Err (PoolExhausted gi 1 0 1 end_ max_ctx), (<[gi := Some pool']> pools, seqs))
      | (Some id, pool') =>
          let pools := <[gi := Some pool']> pools in
          match seqs !! seq with
          | None => (Err (UnknownSeq seq), (pools, seqs))
          | Some s =>
              match q_indices s !! gi with
              | None => (Err (InvalidBatch (HasNoTable seq)), (pools, seqs))
              | Some held =>
                  let at_ := partition_point (λ i, i <? idx) held in
                  match vec_insert at_ idx held with
                  | Ok held' =>
                      let s := set_tables (q_tables s) (<[gi := held']> (q_indices s)) s in
                      match q_tables s !! gi with
                      | None =>
                          (Err (InvalidBatch (HasNoTable seq)), (pools, <[seq := s]> seqs))
                      | Some table =>
                          match vec_insert at_ id table with
                          | Ok table' =>
                              (Ok tt, (pools, <[seq := set_tables (<[gi := table']> (q_tables s))
                                                         (q_indices s) s]> seqs))
                          | Err e => (Err e, (pools, <[seq := s]> seqs))
                          | Panic => (Panic, (pools, <[seq := s]> seqs))
                          end
                      end
                  | Err e => (Err e, (pools, seqs))
                  | Panic => (Panic, (pools, seqs))
                  end
              end
          end
      end
  end.

(** The placing loop: how many records were placed and the first failure. *)
Fixpoint place_loop (seq end_ max_ctx : Z) (scratch : list (nat * Z)) (placed : nat)
    : stm placing StateError (nat * option StateError) := λ st,
  match scratch with
  | [] => (Ok (placed, None), st)
  | (gi, idx) :: scratch =>
      match place_one_block seq gi idx end_ max_ctx st with
      | (Ok _, st') => place_loop seq end_ max_ctx scratch (S placed) st'
      | (Err e, st') => (Ok (placed, Some e), st')
      | (Panic, st') => (Panic, st')
      end
  end.

(** One record of the rollback. *)
Definition unplace (seq : Z) (rec : nat * Z) : stm placing StateError unit := λ '(pools, seqs),
  let '(gi, idx) := rec in
  let taken :=
    s ← seqs !! seq;
    held ← q_indices s !! gi;
    let at_ := partition_point (λ i, i <? idx) held in
    table ← q_tables s !! gi;
    if decide (held !! at_ = Some idx) then
      id ← table !! at_;
      Some (id, set_tables (<[gi := take at_ table ++ drop (S at_) table]> (q_tables s))
                           (<[gi := take at_ held ++ drop (S at_) held]> (q_indices s)) s)
    else None in
  match taken with
  | None => (Ok tt, (pools, seqs))
  | Some (id, s') =>
      let seqs := <[seq := s']> seqs in
      match get_some gi pools with
      | None => (Ok tt, (pools, seqs))
      | Some pool => let '(r, pool') := release id pool in (r, (<[gi := Some pool']> pools, seqs))
      end
  end.

(** [place_reserve_blocks], on the recorded scratch. *)
Definition place_blocks (seq end_ max_ctx : Z) (scratch : list (nat * Z))
    : stm placing StateError unit :=
  let! (placed, failure) := place_loop seq end_ max_ctx scratch 0 in
  match failure with
  | None => sret tt
  | Some e => let! _ := sfor (unplace seq) (take placed scratch) in sfail e
  end.

Definition place_reserve_blocks (seq end_ : Z) : stm StateManager StateError unit := λ m,
  szoom (λ m, (m_pools m, m_seqs m)) (λ '(pools, seqs) m, set_store pools (m_fixed m) seqs m)
    (place_blocks seq end_ (max_ctx (m_config m)) (m_reserve_scratch m)) m.

Definition reserve (seq n : Z) : stm StateManager StateError SlotRange :=
  if (n =? 0) || (MAX_RESERVE_HARD <? n) then
    let! tail := sread (tail_len seq) in sfail (InvalidReserve n tail)
  else
    let! s := sread (seq_state seq) in
    let ctx := q_ctx_len s in
    let tail := q_tail_len s in
    if negb (tail =? 0) then sfail (InvalidReserve n tail)
    else
      let! end_ := slift (ok_or (checked_add U32_MAX ctx n) (Overflow "reserve end")) in
      let! m := sget in
      if max_ctx (m_config m) <? end_ then sfail (ReserveTooLarge end_ (max_ctx (m_config m)) n)
      else
        let first_block := ctx / BLOCK_TOKENS in
        let last_block := div_ceil end_ BLOCK_TOKENS in
        let! _ := smodify (set_scratch []) in
        let! s := sread (seq_state seq) in
        let! _ := szoom m_reserve_scratch set_scratch
                    (sfor (scan_group m s first_block last_block end_)
                       (enumerate (m_groups m))) in
        let! _ := place_reserve_blocks seq end_ in
        let! _ := seq_mut seq (smodify (λ s, set_lens (q_ctx_len s) n None s)) in
        sret {| r_seq := seq; r_start := ctx; r_len := n |}.

(** ** Slots *)

Definition check_range_live (s : SeqState) (range : SlotRange) : StateResult unit :=
  if negb (q_ctx_len s =? r_start range) || negb (q_tail_len s =? r_len range)
  then Err (InvalidBatch (StaleSlotRange (r_start range) (r_len range)
                            (q_ctx_len s) (q_tail_len s)))
  else Ok tt.

Definition flatten_slot (s : SeqState) (group : nat) (pos end_ : Z) : StateResult Z :=
  let missing := UnmappedPosition group pos end_ in
  let* indices := ok_or (q_indices s !! group) missing in
  let* tables := ok_or (q_tables s !! group) missing in
  let block := pos / BLOCK_TOKENS in
  let lane := pos mod BLOCK_TOKENS in
  let at_ := partition_point (λ i, i <? block) indices in
  if decide (indices !! at_ = Some block) then
    let* id := ok_or (tables !! at_) missing in
    ok_or (v ← checked_mul U64_MAX id BLOCK_TOKENS;
           v ← checked_add U64_MAX v lane;
           try_from U32_MAX v) (Overflow "slot id")
  else Err missing.

Definition slot (range : SlotRange) (group : nat) (k : Z) (m : StateManager) : StateResult Z :=
  let* g := group_at group m in
  if r_len range <=? k then Err (OutOfRange k 1 (r_len range))
  else
    let* s := seq_state (r_seq range) m in
    let* _ := check_range_live s range in
    if negb (is_paged (g_spec g)) then Ok SLOT_NONE
    else
      let* pos := ok_or (checked_add U32_MAX (r_start range) k) (Overflow "slot position") in
      flatten_slot s group pos (range_end range).

(** [fill_slots]: the row the caller's buffer holds afterwards. *)
Definition fill_slots (range : SlotRange) (group : nat) (out : list Z) (m : StateManager)
    : StateResult (list Z) :=
  let need := Z.to_nat (r_len range) in
  if (length out <? need)%nat
  then Err (OutOfRange 0 (Z.of_nat (length out)) (r_len range))
  else
    let* g := group_at group m in
    let* s := seq_state (r_seq range) m in
    let* _ := check_range_live s range in
    if negb (is_paged (g_spec g)) then Ok (replicate need SLOT_NONE ++ drop need out)
    else
      let* row := omapM (λ k,
        let* pos := ok_or (checked_add U32_MAX (r_start range) k) (Overflow "slot position") in
        flatten_slot s group pos (range_end range)) (zrange 0 (r_len range)) in
      Ok (row ++ drop need out).

(** ** The token mirror *)

(** The inner loop of [write_tokens] on one paged group. *)
Definition write_group (start : Z) (tokens : list Z) (gi : nat) : stm SeqState StateError unit :=
  sfor (λ '(k, tok),
    let! pos := slift (ok_or (checked_add U32_MAX start (as_u32 (Z.of_nat k)))
                             (Overflow "write position")) in
    smodify (λ s, set_mirror (<[(gi, pos) := tok]> (q_mirror s)) s)) (enumerate tokens).

Definition group_is_paged (m : StateManager) (gi : nat) : bool :=
  match m_groups m !! gi with
  | Some g => is_paged (g_spec g)
  | None => false
  end.

Definition write_tokens (seq start : Z) (tokens : list Z) : stm StateManager StateError unit :=
  let! s := sread (seq_state seq) in
  let count := Z.of_nat (length tokens) in
  let! len := slift (ok_or (try_from U32_MAX count) (Overflow "write length")) in
  let! write_end := slift (ok_or (checked_add U32_MAX start len) (Overflow "write end")) in
  let! reserved_end := slift (ok_or (checked_add U32_MAX (q_ctx_len s) (q_tail_len s))
                                    (Overflow "reserved end")) in
  if start <? q_ctx_len s then sfail (OutOfRange start count reserved_end)
  else if reserved_end <? write_end then sfail (OutOfRange start count reserved_end)
  else
    let! m := sget in
    sfor (λ gi,
      if group_is_paged m gi then seq_mut seq (write_group start tokens gi) else sret tt)
      (seqn (length (m_groups m))).

Definition read_token (seq : Z) (group : nat) (pos : Z) (m : StateManager)
    : StateResult (option Z) :=
  let* s := seq_state seq m in
  if (length (m_groups m) <=? group)%nat
  then Err (InvalidBatch (GroupOutOfRange group (length (m_groups m))))
  else
    let* end_ := ok_or (checked_add U32_MAX (q_ctx_len s) (q_tail_len s))
                       (Overflow "reserved end") in
    if end_ <=? pos then Err (OutOfRange pos 1 end_)
    else Ok (q_mirror s !! (group, pos)).

(** ** Compaction *)

(** The duplicate and range scan. *)
Definition check_accepted (tail : Z) (accepted : list Z) : StateResult unit :=
  let refuse detail := Err (InvalidCompact (length accepted) tail detail) in
  oforM (λ '(i, p),
    if tail <=? p then refuse (PositionOutOfTail p tail)
    else if decide (p ∈ take i accepted) then refuse (DuplicatePosition p)
    else Ok tt) (enumerate accepted).

(** The staged copy of one paged group. *)
Definition compact_group (ctx : Z) (src : list Z) (a : nat) (gi : nat)
    : stm SeqState StateError unit :=
  let! s := sget in
  let staged := map (λ abs, q_mirror s !! (gi, abs)) (take a src) in
  sfor (λ '(i, tok),
    let! dst := slift (ok_or (checked_add U32_MAX ctx (as_u32 (Z.of_nat i)))
                             (Overflow "compact destination")) in
    match tok with
    | Some t => smodify (λ s, set_mirror (<[(gi, dst) := t]> (q_mirror s)) s)
    | None => smodify (λ s, set_mirror (delete (gi, dst) (q_mirror s)) s)
    end) (enumerate staged).

Definition compact (seq : Z) (accepted : list Z) : stm StateManager StateError CompactOp :=
  let! s := sread (seq_state seq) in
  let ctx := q_ctx_len s in
  let tail := q_tail_len s in
  let a := length accepted in
  let refuse detail := sfail (InvalidCompact a tail detail) in
  if tail =? 0 then refuse NoOutstandingTail
  else if (MAX_COMPACT_TOKENS <? a)%nat then refuse (AcceptedLenExceedsCap a)
  else
    let! _ := slift (check_accepted tail accepted) in
    let! abs := slift (omapM (λ p, ok_or (checked_add U32_MAX ctx p) (Overflow "compact source"))
                             accepted) in
    let src := abs ++ replicate (MAX_COMPACT_TOKENS - a) 0 in
    let! _ := slift (oforM (λ i, let* _ := ok_or (checked_add U32_MAX ctx (as_u32 (Z.of_nat i)))
                                                 (Overflow "compact destination") in Ok tt)
                           (seqn a)) in
    let! m := sget in
    let! _ := sfor (λ gi,
      if group_is_paged m gi
      then let! _ := sread (seq_state seq) in seq_mut seq (compact_group ctx src a gi)
      else sret tt) (seqn (length (m_groups m))) in
    let! _ := seq_mut seq (smodify (set_compacted (Some a))) in
    let! len := slift (ok_or (try_from U32_MAX (Z.of_nat a)) (Overflow "compact length")) in
    sret {| c_seq := seq; c_src := src; c_dst_start := ctx; c_len := len |}.

(** ** Commit *)

(** The block indices of a windowed group that fall out at [new_ctx]; the
    empty range [(u32::MAX, 0)] when there are none. *)
Definition evict_range (new_ctx : Z) (s : StateSpec) : Z * Z :=
  match retain s with
  | None | Some All => (U32_MAX, 0)
  | Some r =>
      let w := match r with Window w | SinkWindow _ w => w | All => 0 end in
      let ws := window_start_of new_ctx w in
      let sink_blocks := match r with SinkWindow n _ => div_ceil n BLOCK_TOKENS | _ => 0 end in
      let hi := ws / BLOCK_TOKENS in
      if sink_blocks <? hi then (sink_blocks, hi) else (U32_MAX, 0)
  end.

(** The fixed array of ranges: writing past it panics. *)
Definition evict_ranges (new_ctx : Z) (groups : list LayerGroup) : StateResult (list (Z * Z)) :=
  foldl (λ acc '(gi, g),
    let* evict := acc in
    match evict_range new_ctx (g_spec g) with
    | (lo, hi) => if lo <? hi then vec_set gi (lo, hi) evict else Ok evict
    end) (Ok (replicate (Z.to_nat MAX_GROUPS_HARD) (U32_MAX, 0))) (enumerate groups).

(** The entries of an ascending table in [lo .. hi]. *)
Definition held_span (lo hi : Z) (indices : list Z) : nat * nat :=
  (partition_point (λ i, i <? lo) indices, partition_point (λ i, i <? hi) indices).

(** The check of one group before anything is written. *)
Definition evict_check (seq : Z) (m : StateManager) (s : SeqState) (evict : list (Z * Z))
    (gg : nat * LayerGroup) : StateResult unit :=
  let '(gi, g) := gg in
  let* (lo, hi) := or_panic (evict !! gi) in
  if hi <=? lo then Ok tt
  else if negb (is_paged (g_spec g)) then Err (InvalidBatch (NotPagedGroup gi))
  else
    let* pool := ok_or (get_some gi (m_pools m)) (InvalidBatch (NotPagedGroup gi)) in
    let* indices := ok_or (q_indices s !! gi) (InvalidBatch (HasNoTable seq)) in
    let* tables := ok_or (q_tables s !! gi) (InvalidBatch (HasNoTable seq)) in
    let '(start_at, end_at) := held_span lo hi indices in
    oforM (λ at_,
      let* id := ok_or (tables !! at_) (InvalidBatch (HasNoTable seq)) in
      if p_total pool <=? id then Err (InvalidBatch (ReleaseOutOfRange id (p_total pool)))
      else if contains id pool then Err (InvalidBatch (DoubleRelease id))
      else Ok tt) (seqn_from start_at (end_at - start_at)).

(** One removal of the reverse drain. *)
Definition evict_one (gi at_ : nat) : stm (SeqState * BlockPool) StateError unit :=
  let! (s, _) := sget in
  let! held := slift (or_panic (q_indices s !! gi)) in
  let! (_, held') := slift (vec_remove at_ held) in
  let! _ := smodify (λ '(s, p), (set_tables (q_tables s) (<[gi := held']> (q_indices s)) s, p)) in
  let! table := slift (or_panic (q_tables s !! gi)) in
  let! (id, table') := slift (vec_remove at_ table) in
  let! _ := smodify (λ '(s, p), (set_tables (<[gi := table']> (q_tables s)) (q_indices s) s, p)) in
  szoom snd (λ p '(s, _), (s, p)) (release id).

(** The part of the manager the mutation phase of [commit] borrows. *)
Definition committing : Type := SeqState * list (option BlockPool).

Definition in_evicted (gi : nat) (lo hi : Z) (key : nat * Z) : bool :=
  (key.1 =? gi)%nat && (lo <=? key.2 / BLOCK_TOKENS) && (key.2 / BLOCK_TOKENS <? hi).

Definition evict_group (evict : list (Z * Z)) (gg : nat * LayerGroup)
    : stm committing StateError unit :=
  let '(gi, g) := gg in
  let! (lo, hi) := slift (or_panic (evict !! gi)) in
  if hi <=? lo then sret tt
  else if negb (is_paged (g_spec g)) then sfail (InvalidBatch (NotPagedGroup gi))
  else
    let! (s, pools) := sget in
    let! held := slift (or_panic (q_indices s !! gi)) in
    let '(start_at, end_at) := held_span lo hi held in
    let! pool := slift (ok_or (get_some gi pools) (InvalidBatch (NotPagedGroup gi))) in
    let! _ := szoom (λ '(s, _), (s, pool)) (λ '(s, p) '(_, pools), (s, <[gi := Some p]> pools))
                (sfor (evict_one gi) (rev (seqn_from start_at (end_at - start_at)))) in
    smodify (λ '(s, pools),
      (set_mirror (filter (λ kv, in_evicted gi lo hi kv.1 = false) (q_mirror s)) s, pools)).

(** The parity flips: [s.parity[g.index] ^= 1]. *)
Definition flip_parity (g : LayerGroup) : stm SeqState StateError unit :=
  if is_recurrent (g_spec g) then
    let! s := sget in
    let! b := slift (or_panic (q_parity s !! g_index g)) in
    let! parity := slift (vec_set (g_index g) (Z.lxor b 1) (q_parity s)) in
    smodify (set_parity parity)
  else sret tt.

(** The checks of [commit]: the new context length, the next commit count and
    the next swap count when the buffers swap. *)
Definition commit_check (seq accepted : Z) (m : StateManager)
    : StateResult (Z * Z * option Z * list (Z * Z)) :=
  let* s := seq_state seq m in
  let tail := q_tail_len s in
  if tail =? 0 then Err (NoReservation seq)
  else if tail <? accepted then Err (CommitTooLarge accepted tail)
  else
    let* _ := match q_compacted s with
              | Some c => if accepted =? Z.of_nat c then Ok tt
                          else Err (InvalidCompact c tail
                                      (CommitNotCompacted accepted c))
              | None => Ok tt
              end in
    let* new_ctx := ok_or (checked_add U32_MAX (q_ctx_len s) accepted) (Overflow "commit ctx") in
    let* next_commits := ok_or (checked_add U64_MAX (m_commits m) 1) (Overflow "commit count") in
    let swap := (0 <? accepted) && existsb (λ g, is_recurrent (g_spec g)) (m_groups m) in
    let* next_swaps :=
      (if swap then
         let* n := ok_or (checked_add U64_MAX (m_swaps m) 1) (Overflow "swap count") in
         Ok (Some n)
       else Ok None) in
    let* evict := evict_ranges new_ctx (m_groups m) in
    let* _ := oforM (evict_check seq m s evict) (enumerate (m_groups m)) in
    Ok (new_ctx, next_commits, next_swaps, evict).

(** The mutation phase on the borrowed parts. *)
Definition commit_apply (groups : list LayerGroup) (new_ctx : Z) (swap : bool)
    (evict : list (Z * Z)) : stm committing StateError unit :=
  let! _ := smodify (λ '(s, pools), (set_lens new_ctx 0 None s, pools)) in
  let! _ := sfor (evict_group evict) (enumerate groups) in
  if swap then szoom fst (λ s '(_, pools), (s, pools)) (sfor flip_parity groups) else sret tt.

Definition commit (seq accepted : Z) : stm StateManager StateError unit :=
  let! (new_ctx, next_commits, next_swaps, evict) := sread (commit_check seq accepted) in
  let! s := sread (seq_state seq) in
  let! m := sget in
  let swap := match next_swaps with Some _ => true | None => false end in
  let! _ := szoom (λ m, (s, m_pools m))
              (λ '(s, pools) m, set_store pools (m_fixed m) (<[seq := s]> (m_seqs m)) m)
              (commit_apply (m_groups m) new_ctx swap evict) in
  smodify (λ m, set_counts (m_next_seq m) (m_live_count m)
                  (default (m_swaps m) next_swaps) next_commits m).

(** ** Release *)

(** The validation of the block tables; [seen] is the set of ids met so far
    in the table. *)
Fixpoint free_check_ids (gi : nat) (pool : BlockPool) (seen : gset Z) (ids : list Z)
    : StateResult unit :=
  match ids with
  | [] => Ok tt
  | id :: ids =>
      if p_total pool <=? id then Err (InvalidBatch (BlockExceedsPool id gi (p_total pool)))
      else if contains id pool then Err (InvalidBatch (BlockAlreadyFree id gi))
      else if decide (id ∈ seen) then Err (InvalidBatch (BlockDuplicated id gi))
      else free_check_ids gi pool ({[ id ]} ∪ seen) ids
  end.

Definition free_check_slot (m : StateManager) (gs : nat * option Z) : StateResult unit :=
  let '(gi, slot) := gs in
  match slot with
  | None => Ok tt
  | Some id =>
      let* pool := ok_or (get_some gi (m_fixed m)) (InvalidBatch (NotFixedGroup gi)) in
      if f_total_slots pool <=? id
      then Err (InvalidBatch (SlotExceedsPool id gi (f_total_slots pool)))
      else if decide (id ∈ f_free pool) then Err (InvalidBatch (SlotAlreadyFree id gi))
      else Ok tt
  end.

Definition free_check_table (m : StateManager) (gt : nat * list Z) : StateResult unit :=
  let '(gi, ids) := gt in
  match ids with
  | [] => Ok tt
  | _ =>
      let* pool := ok_or (get_some gi (m_pools m)) (InvalidBatch (NotPagedGroup gi)) in
      free_check_ids gi pool ∅ ids
  end.

Definition free_check (seq : Z) (m : StateManager) : StateResult (SeqState * Z) :=
  let* s := seq_state seq m in
  let* next_live := ok_or (checked_sub (m_live_count m) 1) (Overflow "live sequence count") in
  let* _ := oforM (free_check_table m) (enumerate (q_tables s)) in
  let* _ := oforM (free_check_slot m) (enumerate (q_fixed_slots s)) in
  Ok (s, next_live).

Definition release_table (gt : nat * list Z) : stm (list (option BlockPool)) StateError unit :=
  let '(gi, ids) := gt in
  match ids with
  | [] => sret tt
  | _ =>
      let! pools := sget in
      let! pool := slift (ok_or (get_some gi pools) (InvalidBatch (NotPagedGroup gi))) in
      szoom (λ _, pool) (λ p pools, <[gi := Some p]> pools) (sfor release ids)
  end.

Definition release_slot (gs : nat * option Z) : stm (list (option FixedPool)) StateError unit :=
  let '(gi, slot) := gs in
  match slot with
  | None => sret tt
  | Some id =>
      let! fixed := sget in
      let! pool := slift (ok_or (get_some gi fixed) (InvalidBatch (NotFixedGroup gi))) in
      smodify (λ fixed, <[gi := Some (give_slot id pool)]> fixed)
  end.

Definition free_seq (seq : Z) : stm StateManager StateError unit :=
  let! (s, next_live) := sread (free_check seq) in
  let! _ := smodify (λ m, set_seqs (delete seq (m_seqs m)) m) in
  let! _ := szoom m_pools (λ pools m, set_store pools (m_fixed m) (m_seqs m) m)
              (sfor release_table (enumerate (q_tables s))) in
  let! _ := szoom m_fixed set_fixed (sfor release_slot (enumerate (q_fixed_slots s))) in
  smodify (λ m, set_counts (m_next_seq m) next_live (m_swaps m) (m_commits m) m).
