(* ===== verification/Invariant.v ===== *)
(** * The invariant of the state manager

    What holds of every [StateManager] between calls: the shape of each
    sequence, the window law of its block tables, the account of every pool,
    the arena layout and the counters. *)

From S2P Require Import Prelude Errors Spec Table Pools Manager.

#[global] Open Scope Z_scope.

(** ** What the live sequences own *)

Definition table_of (gi : nat) (s : SeqState) : list Z := default [] (q_tables s !! gi).
Definition indices_of (gi : nat) (s : SeqState) : list Z := default [] (q_indices s !! gi).
Definition slots_of (gi : nat) (s : SeqState) : list Z := option_list (get_some gi (q_fixed_slots s)).

Definition owned (f : SeqState → list Z) (seqs : gmap Z SeqState) : list Z :=
  concat (map (λ kv, f kv.2) (map_to_list seqs)).

Section owned.
Context (f : SeqState → list Z).
Implicit Types (seqs : gmap Z SeqState).

Lemma concat_map_Permutation {A} (h : A → list Z) l k :
  l ≡ₚ k → concat (map h l) ≡ₚ concat (map h k).
Proof.
  induction 1 as [|x l k _ IH|x y l|l k q _ IH1 _ IH2]; simpl.
  - done.
  - by rewrite IH.
  - rewrite !(assoc_L (++)). by rewrite (Permutation_app_comm (h y)).
  - by rewrite IH1.
Qed.

Lemma owned_empty : owned f ∅ = [].
Proof. unfold owned. by rewrite map_to_list_empty. Qed.

Lemma owned_insert seqs k s :
  seqs !! k = None → owned f (<[k := s]> seqs) ≡ₚ f s ++ owned f seqs.
Proof.
  intros Hk. unfold owned.
  rewrite (concat_map_Permutation _ _ _ (map_to_list_insert seqs k s Hk)). done.
Qed.

Lemma owned_lookup seqs k s :
  seqs !! k = Some s → owned f seqs ≡ₚ f s ++ owned f (delete k seqs).
Proof.
  intros Hk. rewrite <- (insert_delete_id seqs k s Hk) at 1.
  apply owned_insert, lookup_delete_eq.
Qed.

Lemma owned_update seqs k s :
  owned f (<[k := s]> seqs) ≡ₚ f s ++ owned f (delete k seqs).
Proof.
  rewrite <- insert_delete_eq. apply owned_insert, lookup_delete_eq.
Qed.

Lemma owned_same seqs k s s' :
  seqs !! k = Some s → f s' ≡ₚ f s → owned f (<[k := s']> seqs) ≡ₚ owned f seqs.
Proof. intros Hk Hf. by rewrite owned_update, (owned_lookup seqs k s Hk), Hf. Qed.

Lemma elem_of_owned seqs x : x ∈ owned f seqs ↔ ∃ k s, seqs !! k = Some s ∧ x ∈ f s.
Proof.
  unfold owned. rewrite elem_of_concat_map. split.
  - intros ([k s] & Hks%elem_of_map_to_list & Hx). eauto.
  - intros (k & s & Hk & Hx). exists (k, s). split; [by apply elem_of_map_to_list|done].
Qed.

(** No id is owned by two sequences when the account is without repetition. *)
Lemma owned_unique seqs k1 k2 s1 s2 x :
  NoDup (owned f seqs) → seqs !! k1 = Some s1 → seqs !! k2 = Some s2 →
  x ∈ f s1 → x ∈ f s2 → k1 = k2.
Proof.
  intros Hn H1 H2 Hx1 Hx2. destruct (decide (k1 = k2)) as [|Hne]; [done|].
  rewrite (owned_lookup seqs k1 s1 H1) in Hn. apply NoDup_app in Hn as (_ & Hd & _).
  destruct (Hd x Hx1). apply elem_of_owned. exists k2, s2.
  split; [|done]. by rewrite lookup_delete_ne.
Qed.

Lemma owned_NoDup seqs k s : NoDup (owned f seqs) → seqs !! k = Some s → NoDup (f s).
Proof.
  intros Hn Hk. rewrite (owned_lookup seqs k s Hk) in Hn. by apply NoDup_app in Hn as (? & _).
Qed.
End owned.

(** ** One sequence *)

Definition sink_blocks (s : StateSpec) : Z :=
  match retain s with
  | Some (SinkWindow n _) => div_ceil n BLOCK_TOKENS
  | _ => 0
  end.

(** The window law: the blocks a group keeps at a context length are the sink
    and those not entirely older than the window. *)
Definition retained (s : StateSpec) (ctx b : Z) : Prop :=
  b < sink_blocks s ∨ spec_window_start s ctx / BLOCK_TOKENS ≤ b.

Record seq_shape (groups : list LayerGroup) (s : SeqState) : Prop := {
  ss_tables : length (q_tables s) = length groups;
  ss_indices : length (q_indices s) = length groups;
  ss_slots : length (q_fixed_slots s) = length groups;
  ss_parity : length (q_parity s) = length groups;
  ss_parity_bit : Forall (λ b, b = 0 ∨ b = 1) (q_parity s);
  ss_paged gi g : groups !! gi = Some g → is_paged (g_spec g) = true →
    aligned (indices_of gi s) (table_of gi s) ∧ get_some gi (q_fixed_slots s) = None;
  ss_fixed gi g : groups !! gi = Some g → is_paged (g_spec g) = false →
    indices_of gi s = [] ∧ table_of gi s = [] ∧ is_Some (get_some gi (q_fixed_slots s))
}.

(** The mapped block indices are the retained ones below a high-water mark
    that covers the reservation. *)
Definition window_law (mb : Z) (spec : StateSpec) (ctx end_ : Z) (indices : list Z) : Prop :=
  ∃ hw, div_ceil end_ BLOCK_TOKENS ≤ hw ≤ mb ∧
    ∀ b, b ∈ indices ↔ 0 ≤ b < hw ∧ retained spec ctx b.

(** Mirrored tokens name mapped blocks of paged groups. *)
Definition mirror_ok (groups : list LayerGroup) (s : SeqState) : Prop :=
  ∀ gi pos tok, q_mirror s !! (gi, pos) = Some tok →
    0 ≤ pos ∧ ∃ g, groups !! gi = Some g ∧ is_paged (g_spec g) = true ∧
      pos / BLOCK_TOKENS ∈ indices_of gi s.

Record seq_ok (cfg : StateConfig) (groups : list LayerGroup) (s : SeqState) : Prop := {
  so_shape : seq_shape groups s;
  so_ctx : 0 ≤ q_ctx_len s;
  so_tail : 0 ≤ q_tail_len s;
  so_end : q_ctx_len s + q_tail_len s ≤ max_ctx cfg;
  so_law gi g : groups !! gi = Some g → is_paged (g_spec g) = true →
    window_law (max_blocks cfg) (g_spec g) (q_ctx_len s) (q_ctx_len s + q_tail_len s)
      (indices_of gi s);
  so_mirror : mirror_ok groups s
}.

(** ** The arena *)

(** The bytes a group's pool takes. *)
Definition group_bytes (bpg seqs : Z) (g : LayerGroup) : Z :=
  if is_paged (g_spec g) then bpg * group_block_bytes g else seqs * group_slot_bytes g.

Definition arena_base (bpg seqs : Z) (groups : list LayerGroup) (gi : nat) : Z :=
  Zsum (map (group_bytes bpg seqs) (take gi groups)).

Definition fixed_weight (seqs : Z) (g : LayerGroup) : Z :=
  if is_paged (g_spec g) then 0 else group_slot_bytes g * seqs.

(** Bytes of the fixed pools, and bytes of one block in every paged group. *)
Definition fixed_bytes (seqs : Z) (groups : list LayerGroup) : Z :=
  Zsum (map (fixed_weight seqs) groups).
Definition block_cost (groups : list LayerGroup) : Z :=
  Zsum (map group_block_bytes (paged_groups groups)).

Definition block_pool_inv (bpg seqs : Z) (groups : list LayerGroup) (gi : nat) (g : LayerGroup)
    (p : BlockPool) (ids : list Z) : Prop :=
  partitioned p ids ∧ p_total p = bpg ∧ p_block_bytes p = group_block_bytes g ∧
  p_base_offset p = arena_base bpg seqs groups gi.

Definition fixed_pool_inv (bpg seqs : Z) (groups : list LayerGroup) (gi : nat) (g : LayerGroup)
    (f : FixedPool) (ids : list Z) : Prop :=
  partitioned f ids ∧ f_total_slots f = seqs ∧ f_slot_bytes_per_seq f = group_slot_bytes g ∧
  f_buffer_bytes f = group_slot_bytes g / 2 ∧ f_base_offset f = arena_base bpg seqs groups gi.

(** The pools of every group, with the sequences that own their ids. *)
Definition pools_inv (bpg seqs_cap : Z) (groups : list LayerGroup)
    (pools : list (option BlockPool)) (seqs : gmap Z SeqState) : Prop :=
  length pools = length groups ∧
  ∀ gi g, groups !! gi = Some g →
    if is_paged (g_spec g)
    then ∃ p, pools !! gi = Some (Some p) ∧
           block_pool_inv bpg seqs_cap groups gi g p (owned (table_of gi) seqs)
    else pools !! gi = Some None.

Definition fixed_inv (bpg seqs_cap : Z) (groups : list LayerGroup)
    (fixed : list (option FixedPool)) (seqs : gmap Z SeqState) : Prop :=
  length fixed = length groups ∧
  ∀ gi g, groups !! gi = Some g →
    if is_paged (g_spec g)
    then fixed !! gi = Some None
    else ∃ f, fixed !! gi = Some (Some f) ∧
           fixed_pool_inv bpg seqs_cap groups gi g f (owned (slots_of gi) seqs).

(** ** The manager *)

Definition config_ok (c : StateConfig) : Prop :=
  0 < max_ctx c ≤ MAX_CTX_HARD ∧ max_ctx c mod BLOCK_TOKENS = 0 ∧
  0 < max_seqs c ≤ MAX_SEQS_HARD.

Definition layout_ok (groups : list LayerGroup) : Prop :=
  Z.of_nat (length groups) ≤ MAX_GROUPS_HARD ∧
  ∀ gi g, groups !! gi = Some g → g_index g = gi ∧ group_ok g.

Record manager_inv (bpg : Z) (m : StateManager) : Prop := {
  mi_config : config_ok (m_config m);
  mi_layout : layout_ok (m_groups m);
  mi_max_blocks : m_max_blocks m = max_blocks (m_config m);
  mi_bpg : 0 ≤ bpg ≤ MAX_SLOT_BLOCKS;
  mi_totals :
    m_pool_bytes_total m = bpg * block_cost (m_groups m) ∧
    m_fixed_bytes_total m = fixed_bytes (max_seqs (m_config m)) (m_groups m) ∧
    0 ≤ m_unusable_bytes m ∧
    m_pool_bytes_total m + m_fixed_bytes_total m + m_unusable_bytes m ≤ U64_MAX;
  mi_pools : pools_inv bpg (max_seqs (m_config m)) (m_groups m) (m_pools m) (m_seqs m);
  mi_fixed : fixed_inv bpg (max_seqs (m_config m)) (m_groups m) (m_fixed m) (m_seqs m);
  mi_seqs id s : m_seqs m !! id = Some s →
    0 ≤ id < m_next_seq m ∧ seq_ok (m_config m) (m_groups m) s;
  mi_next : 0 ≤ m_next_seq m ≤ U32_MAX + 1;
  mi_live : m_live_count m = Z.of_nat (size (m_seqs m)) ∧ m_live_count m ≤ max_seqs (m_config m);
  mi_counters : 0 ≤ m_swaps m ≤ U64_MAX ∧ 0 ≤ m_commits m ≤ U64_MAX
}.

Definition manager_ok (m : StateManager) : Prop := ∃ bpg, manager_inv bpg m.

(** ** Reading the invariant *)

Definition page_map_of (gi : nat) (s : SeqState) : gmap Z Z :=
  page_map (indices_of gi s) (table_of gi s).

Lemma get_some_Some {A} (i : nat) (l : list (option A)) x :
  get_some i l = Some x ↔ l !! i = Some (Some x).
Proof. unfold get_some. destruct (l !! i) as [[]|]; simpl; naive_solver. Qed.

Lemma shape_table groups s gi g :
  seq_shape groups s → groups !! gi = Some g →
  q_tables s !! gi = Some (table_of gi s) ∧ q_indices s !! gi = Some (indices_of gi s).
Proof.
  intros Hs Hg. apply lookup_lt_Some in Hg. unfold table_of, indices_of.
  destruct (lookup_lt_is_Some_2 (q_tables s) gi) as [t ->]; [rewrite (ss_tables _ _ Hs); lia|].
  destruct (lookup_lt_is_Some_2 (q_indices s) gi) as [i ->]; [rewrite (ss_indices _ _ Hs); lia|].
  done.
Qed.

Lemma shape_aligned groups s gi g :
  seq_shape groups s → groups !! gi = Some g → aligned (indices_of gi s) (table_of gi s).
Proof.
  intros Hs Hg. destruct (is_paged (g_spec g)) eqn:Hp; [by apply (ss_paged _ _ Hs gi g)|].
  destruct (ss_fixed _ _ Hs gi g Hg Hp) as (-> & -> & _). apply aligned_nil.
Qed.

Lemma table_of_none gi s : q_tables s !! gi = None → table_of gi s = [].
Proof. unfold table_of. by intros ->. Qed.

(** A pool is a function of the sequences that draw on it: the invariant
    leaves no freedom in the free lists. *)
Lemma block_pool_inv_unique bpg cap groups gi g p p' ids :
  block_pool_inv bpg cap groups gi g p ids → block_pool_inv bpg cap groups gi g p' ids → p = p'.
Proof.
  intros ([[Hd _] Hp] & Ht & Hb & Ho) ([[Hd' _] Hp'] & Ht' & Hb' & Ho').
  apply block_pool_eq; [congruence..|]. apply descending_unique; [done..|].
  apply (Permutation_app_inv_r ids). simpl in *. by rewrite Hp, Hp', Ht, Ht'.
Qed.

Lemma pools_inv_unique bpg cap groups pools pools' seqs :
  pools_inv bpg cap groups pools seqs → pools_inv bpg cap groups pools' seqs → pools = pools'.
Proof.
  intros [Hl Hp] [Hl' Hp']. apply list_eq. intros gi.
  destruct (groups !! gi) as [g|] eqn:Hg.
  - specialize (Hp gi g Hg). specialize (Hp' gi g Hg). destruct (is_paged (g_spec g)).
    + destruct Hp as (p & -> & Hi), Hp' as (p' & -> & Hi').
      by rewrite (block_pool_inv_unique _ _ _ _ _ _ _ _ Hi Hi').
    + congruence.
  - apply lookup_ge_None in Hg. rewrite !lookup_ge_None_2 by lia. done.
Qed.

Lemma pools_inv_paged bpg cap groups pools seqs gi g :
  pools_inv bpg cap groups pools seqs → groups !! gi = Some g → is_paged (g_spec g) = true →
  ∃ p, pools !! gi = Some (Some p) ∧
    block_pool_inv bpg cap groups gi g p (owned (table_of gi) seqs).
Proof. intros [_ Hp] Hg Hpg. specialize (Hp gi g Hg). by rewrite Hpg in Hp. Qed.

Lemma pools_inv_same bpg cap groups pools seqs seqs' :
  pools_inv bpg cap groups pools seqs →
  (∀ gi, owned (table_of gi) seqs' ≡ₚ owned (table_of gi) seqs) →
  pools_inv bpg cap groups pools seqs'.
Proof.
  intros [Hl Hp] Hs. split; [done|]. intros gi g Hg. specialize (Hp gi g Hg).
  destruct (is_paged (g_spec g)); [|done]. destruct Hp as (p & Hpi & [Hpart Hst]).
  exists p. split; [done|]. split; [|done]. by rewrite Hs.
Qed.

Lemma pools_inv_update bpg cap groups pools seqs seqs' gi g p' :
  pools_inv bpg cap groups pools seqs → groups !! gi = Some g → is_paged (g_spec g) = true →
  block_pool_inv bpg cap groups gi g p' (owned (table_of gi) seqs') →
  (∀ gj, gj ≠ gi → owned (table_of gj) seqs' ≡ₚ owned (table_of gj) seqs) →
  pools_inv bpg cap groups (<[gi := Some p']> pools) seqs'.
Proof.
  intros [Hl Hp] Hg Hpg Hp' Hs. split; [by rewrite length_insert|]. intros gj h Hh.
  destruct (decide (gj = gi)) as [->|Hne].
  - assert (h = g) as -> by congruence. rewrite Hpg. exists p'. split; [|done].
    apply list_lookup_insert_eq. apply lookup_lt_Some in Hg. lia.
  - specialize (Hp gj h Hh). rewrite list_lookup_insert_ne by done.
    destruct (is_paged (g_spec h)); [|done]. destruct Hp as (p & Hpi & [Hpart Hst]).
    exists p. split; [done|]. split; [|done]. by rewrite Hs.
Qed.

Lemma fixed_inv_same bpg cap groups fixed seqs seqs' :
  fixed_inv bpg cap groups fixed seqs →
  (∀ gi, owned (slots_of gi) seqs' ≡ₚ owned (slots_of gi) seqs) →
  fixed_inv bpg cap groups fixed seqs'.
Proof.
  intros [Hl Hp] Hs. split; [done|]. intros gi g Hg. specialize (Hp gi g Hg).
  destruct (is_paged (g_spec g)); [done|]. destruct Hp as (p & Hpi & [Hpart Hst]).
  exists p. split; [done|]. split; [|done]. by rewrite Hs.
Qed.

Lemma fixed_inv_update bpg cap groups fixed seqs seqs' gi g f' :
  fixed_inv bpg cap groups fixed seqs → groups !! gi = Some g → is_paged (g_spec g) = false →
  fixed_pool_inv bpg cap groups gi g f' (owned (slots_of gi) seqs') →
  (∀ gj, gj ≠ gi → owned (slots_of gj) seqs' ≡ₚ owned (slots_of gj) seqs) →
  fixed_inv bpg cap groups (<[gi := Some f']> fixed) seqs'.
Proof.
  intros [Hl Hp] Hg Hpg Hp' Hs. split; [by rewrite length_insert|]. intros gj h Hh.
  destruct (decide (gj = gi)) as [->|Hne].
  - assert (h = g) as -> by congruence. rewrite Hpg. exists f'. split; [|done].
    apply list_lookup_insert_eq. apply lookup_lt_Some in Hg. lia.
  - specialize (Hp gj h Hh). rewrite list_lookup_insert_ne by done.
    destruct (is_paged (g_spec h)); [done|]. destruct Hp as (p & Hpi & [Hpart Hst]).
    exists p. split; [done|]. split; [|done]. by rewrite Hs.
Qed.

(** ** Rewriting one group's table *)

Definition with_table (gi : nat) (indices table : list Z) (s : SeqState) : SeqState :=
  set_tables (<[gi := table]> (q_tables s)) (<[gi := indices]> (q_indices s)) s.

(** Two states that differ in their block tables only. *)
Definition same_but_tables (s s' : SeqState) : Prop :=
  s' = set_tables (q_tables s') (q_indices s') s.

#[global] Instance same_but_tables_equivalence : PreOrder same_but_tables.
Proof.
  unfold same_but_tables. split.
  - intros []. done.
  - intros x y z H1 H2. transitivity (set_tables (q_tables z) (q_indices z) y); [exact H2|].
    by rewrite H1.
Qed.

Lemma with_table_same gi indices table s : same_but_tables s (with_table gi indices table s).
Proof. done. Qed.

Lemma with_table_of groups gi g indices table s :
  seq_shape groups s → groups !! gi = Some g →
  table_of gi (with_table gi indices table s) = table ∧
  indices_of gi (with_table gi indices table s) = indices.
Proof.
  intros Hs Hg. apply lookup_lt_Some in Hg. unfold table_of, indices_of. simpl.
  rewrite !list_lookup_insert_eq; [done|..];
    rewrite ?(ss_indices _ _ Hs), ?(ss_tables _ _ Hs); lia.
Qed.

Lemma with_table_ne gi gj indices table s :
  gj ≠ gi →
  table_of gj (with_table gi indices table s) = table_of gj s ∧
  indices_of gj (with_table gi indices table s) = indices_of gj s.
Proof.
  intros Hne. unfold table_of, indices_of. simpl. by rewrite !list_lookup_insert_ne.
Qed.

Lemma with_table_shape groups gi g indices table s :
  seq_shape groups s → groups !! gi = Some g → is_paged (g_spec g) = true →
  aligned indices table → seq_shape groups (with_table gi indices table s).
Proof.
  intros Hs Hg Hp Ha. destruct Hs as [Ht Hi Hsl Hpa Hpb Hpg Hfx] eqn:E.
  destruct (with_table_of groups gi g indices table s Hs Hg) as [Hto Hio].
  split; simpl; rewrite ?length_insert; try done.
  - intros gj h Hh Hph. destruct (decide (gj = gi)) as [->|Hne].
    + rewrite Hto, Hio. split; [done|]. by eapply Hpg.
    + destruct (with_table_ne gi gj indices table s Hne) as [-> ->]. by eapply Hpg.
  - intros gj h Hh Hph. destruct (decide (gj = gi)) as [->|Hne]; [congruence|].
    destruct (with_table_ne gi gj indices table s Hne) as [-> ->]. by eapply Hfx.
Qed.

(** A sequence state is determined by its page maps and the rest. *)
Lemma seq_shape_unique groups s s' :
  seq_shape groups s → seq_shape groups s' → same_but_tables s s' →
  (∀ gi g, groups !! gi = Some g → page_map_of gi s = page_map_of gi s') → s = s'.
Proof.
  intros Hs Hs' Hsame Hmap.
  assert (∀ gi, q_tables s !! gi = q_tables s' !! gi ∧ q_indices s !! gi = q_indices s' !! gi)
    as Heq.
  { intros gi. destruct (groups !! gi) as [g|] eqn:Hg.
    - destruct (shape_table groups s gi g Hs Hg) as [-> ->].
      destruct (shape_table groups s' gi g Hs' Hg) as [-> ->].
      destruct (aligned_unique (indices_of gi s) (table_of gi s) (indices_of gi s') (table_of gi s'))
        as [-> ->]; [by eapply shape_aligned..| |done].
      by eapply Hmap.
    - apply lookup_ge_None in Hg.
      rewrite !lookup_ge_None_2; [done|..];
        rewrite ?(ss_tables _ _ Hs), ?(ss_tables _ _ Hs'), ?(ss_indices _ _ Hs),
          ?(ss_indices _ _ Hs'); lia. }
  rewrite Hsame. destruct s as [c t tb ix mi co fs pa]. unfold set_tables. simpl in *.
  f_equal; apply list_eq; intros gi; by destruct (Heq gi).
Qed.

Lemma seq_shape_ext groups s s' :
  q_tables s' = q_tables s → q_indices s' = q_indices s →
  q_fixed_slots s' = q_fixed_slots s → q_parity s' = q_parity s →
  seq_shape groups s → seq_shape groups s'.
Proof.
  intros Ht Hi Hf Hp [? ? ? ? ? Hpg Hfx].
  split; unfold indices_of, table_of in *; rewrite ?Ht, ?Hi, ?Hf, ?Hp; done.
Qed.

(** Everything fixed at construction. *)
Definition same_static (m m' : StateManager) : Prop :=
  m_config m' = m_config m ∧ m_groups m' = m_groups m ∧ m_max_blocks m' = m_max_blocks m ∧
  m_pool_bytes_total m' = m_pool_bytes_total m ∧
  m_fixed_bytes_total m' = m_fixed_bytes_total m ∧ m_unusable_bytes m' = m_unusable_bytes m.

(** A step that rewrites one live sequence and the block pools. *)
Lemma manager_inv_update bpg m m' seq s s' :
  manager_inv bpg m → m_seqs m !! seq = Some s → same_static m m' →
  m_seqs m' = <[seq := s']> (m_seqs m) → m_fixed m' = m_fixed m →
  m_next_seq m' = m_next_seq m → m_live_count m' = m_live_count m →
  0 ≤ m_swaps m' ≤ U64_MAX → 0 ≤ m_commits m' ≤ U64_MAX →
  pools_inv bpg (max_seqs (m_config m)) (m_groups m) (m_pools m') (m_seqs m') →
  q_fixed_slots s' = q_fixed_slots s → seq_ok (m_config m) (m_groups m) s' →
  manager_inv bpg m'.
Proof.
  intros Hinv Hs (Hc & Hg & Hmb & Hpt & Hft & Hub) Hseqs Hfix Hn Hl Hsw Hco Hp Hslots Hok.
  destruct Hinv as [mc ml mm mb mt mp mf ms mn mlv mco].
  split; rewrite ?Hc, ?Hg, ?Hmb, ?Hpt, ?Hft, ?Hub, ?Hn, ?Hl, ?Hfix; try done.
  - eapply fixed_inv_same; [done|]. intros gi. rewrite Hseqs.
    eapply owned_same; [done|]. unfold slots_of. by rewrite Hslots.
  - intros id t. rewrite Hseqs. intros [[<- <-]|[_ Ht]]%lookup_insert_Some; [|by apply ms].
    split; [by apply (ms seq s)|done].
  - rewrite Hseqs, map_size_insert_Some by eauto. done.
Qed.

Lemma manager_inv_scratch bpg m scratch :
  manager_inv bpg m → manager_inv bpg (set_scratch scratch m).
Proof. by intros []. Qed.
