(* ===== verification/Construct.v ===== *)
(** * Construction of the state manager

    The pool split of [new_from_validated_groups]: when it succeeds, what it
    assigns, where the pools lie, and that the manager it returns satisfies
    the invariant. *)

From S2P Require Import Prelude Errors Spec Table Pools Manager Invariant.

#[global] Open Scope Z_scope.

(** ** The closed forms *)

Definition min_weight (c : StateConfig) (g : LayerGroup) : Z :=
  if is_paged (g_spec g) then group_block_bytes g * max_blocks c
  else group_slot_bytes g * max_seqs c.

(** Fold of a step that adds a weight and refuses to pass [u64::MAX]. *)
Section checked_fold.
Context {A : Type} (step : StateResult Z → A → StateResult Z) (w : A → Z).

Definition checked_step (x : A) : Prop :=
  0 ≤ w x ∧ (∀ e, step (Err e) x = Err e) ∧
  (∀ t, 0 ≤ t → t + w x ≤ U64_MAX → step (Ok t) x = Ok (t + w x)) ∧
  (∀ t, 0 ≤ t ≤ U64_MAX → U64_MAX < t + w x → ∃ what, step (Ok t) x = Err (Overflow what)).

Lemma foldl_err l e : Forall checked_step l → foldl step (Err e) l = Err e.
Proof. induction 1 as [|x l (_ & He & _) _ IH]; simpl; [done|]. by rewrite He. Qed.

Lemma Zsum_nonneg (l : list Z) : Forall (λ x, 0 ≤ x) l → 0 ≤ Zsum l.
Proof. unfold Zsum. induction 1; simpl; lia. Qed.

Lemma checked_weights l : Forall checked_step l → 0 ≤ Zsum (map w l).
Proof.
  intros Hl. apply Zsum_nonneg. rewrite Forall_map.
  eapply Forall_impl; [done|]. by intros x (? & _).
Qed.

Lemma foldl_checked l t :
  Forall checked_step l → 0 ≤ t ≤ U64_MAX →
  if decide (t + Zsum (map w l) ≤ U64_MAX)
  then foldl step (Ok t) l = Ok (t + Zsum (map w l))
  else ∃ what, foldl step (Ok t) l = Err (Overflow what).
Proof.
  intros Hl. revert t. induction Hl as [|x l Hx Hl IH]; intros t Ht; simpl.
  { rewrite decide_True; [f_equal|]; lia. }
  destruct Hx as (Hw & _ & Hok & Hover). pose proof (checked_weights l Hl).
  destruct (decide (t + w x ≤ U64_MAX)) as [Hle|Hgt].
  - rewrite Hok by lia. specialize (IH (t + w x) ltac:(lia)).
    rewrite Z.add_assoc. done.
  - rewrite decide_False by (unfold Zsum in *; lia).
    destruct (Hover t ltac:(lia) ltac:(lia)) as [what ->]. exists what. by apply foldl_err.
Qed.
End checked_fold.

Ltac checked_step_tac :=
  repeat match goal with
  | |- context [checked_mul ?mx ?a ?b] => unfold checked_mul; destruct (Z.leb_spec (a * b) mx); simpl
  | |- context [checked_add ?mx ?a ?b] => unfold checked_add; destruct (Z.leb_spec (a + b) mx); simpl
  end; first [by eauto | by f_equal; lia | exfalso; lia].

Lemma fixed_total_step seqs g :
  0 ≤ seqs → group_ok g →
  checked_step (λ acc g,
    let* total := acc in
    if is_paged (g_spec g) then Ok total
    else
      let* per_seq := slots_bytes_per_seq g in
      let* grp := ok_or (checked_mul U64_MAX per_seq seqs) (Overflow "fixed group pool") in
      ok_or (checked_add U64_MAX total grp) (Overflow "fixed pool total")) (fixed_weight seqs) g.
Proof.
  intros Hs Hg. pose proof (group_slot_bytes_bounds g Hg). unfold checked_step, fixed_weight.
  rewrite (slots_bytes_per_seq_ok g Hg).
  split_and!; destruct (is_paged (g_spec g)); try done; simpl; try nia; intros;
    checked_step_tac.
Qed.

Lemma fixed_total_spec seqs groups :
  0 ≤ seqs → Forall group_ok groups →
  if decide (fixed_bytes seqs groups ≤ U64_MAX)
  then fixed_total seqs groups = Ok (fixed_bytes seqs groups)
  else ∃ what, fixed_total seqs groups = Err (Overflow what).
Proof.
  intros Hs Hg.
  apply (foldl_checked _ (fixed_weight seqs) groups 0); [|unfold U64_MAX; lia].
  eapply Forall_impl; [done|]. intros g. by apply fixed_total_step.
Qed.

Lemma required_pool_bytes_spec c groups :
  0 ≤ max_seqs c → 0 ≤ max_blocks c → Forall group_ok groups →
  if decide (Zsum (map (min_weight c) groups) ≤ U64_MAX)
  then required_pool_bytes c groups = Ok (Zsum (map (min_weight c) groups))
  else ∃ what, required_pool_bytes c groups = Err (Overflow what).
Proof.
  intros Hs Hb Hg. apply (foldl_checked _ (min_weight c) groups 0); [|unfold U64_MAX; lia].
  eapply Forall_impl; [done|]. intros g Hgok.
  pose proof (group_slot_bytes_bounds g Hgok). pose proof (group_block_bytes_bounds g Hgok) as [? _].
  unfold checked_step, min_weight. rewrite (slots_bytes_per_seq_ok g Hgok), (block_bytes_ok g Hgok).
  split_and!; destruct (is_paged (g_spec g)); try done; simpl; try nia; intros;
    checked_step_tac.
Qed.

Lemma paged_groups_ok groups : Forall group_ok groups → Forall group_ok (paged_groups groups).
Proof.
  rewrite !Forall_forall. unfold paged_groups. intros H g [_ Hg]%list_elem_of_filter. by apply H.
Qed.

Lemma block_cost_bounds groups :
  Forall group_ok groups → Z.of_nat (length groups) ≤ MAX_GROUPS_HARD →
  0 ≤ block_cost groups ≤ 2 ^ 48 ∧ (paged_groups groups ≠ [] → 0 < block_cost groups).
Proof.
  intros Hg Hlen. unfold block_cost.
  assert (Z.of_nat (length (paged_groups groups)) ≤ 16) as Hl.
  { unfold MAX_GROUPS_HARD in *. pose proof (length_filter (λ g, is_paged (g_spec g) = true) groups).
    unfold paged_groups. lia. }
  assert (Forall (λ g, group_ok g ∧ is_paged (g_spec g) = true) (paged_groups groups)) as Hp.
  { apply Forall_and. split; [by apply paged_groups_ok|]. unfold paged_groups.
    apply Forall_forall. intros g. by intros [? _]%list_elem_of_filter. }
  assert (∀ l, Forall (λ g, group_ok g ∧ is_paged (g_spec g) = true) l →
    0 ≤ Zsum (map group_block_bytes l) ≤ Z.of_nat (length l) * 2 ^ 44 ∧
    (l ≠ [] → 0 < Zsum (map group_block_bytes l))) as Hsum.
  { unfold Zsum. induction 1 as [|g l [Hgo Hgp] _ IH]; simpl; [done|].
    destruct (group_block_bytes_bounds g Hgo) as [? Hpos]. specialize (Hpos Hgp).
    destruct IH as [IH _]. split; [lia|]. intros _. lia. }
  destruct (Hsum _ Hp) as [H1 H2]. split; [lia|done].
Qed.

Lemma block_cost_sum_spec groups :
  Forall group_ok groups → Z.of_nat (length groups) ≤ MAX_GROUPS_HARD →
  block_cost_sum groups = Ok (block_cost groups).
Proof.
  intros Hg Hlen. destruct (block_cost_bounds groups Hg Hlen) as [Hb _].
  pose proof (foldl_checked (λ acc g,
    let* sum := acc in
    let* bb := block_bytes g in
    ok_or (checked_add U64_MAX sum bb) (Overflow "block cost sum"))
    group_block_bytes (paged_groups groups) 0) as Hf.
  unfold block_cost in *. rewrite decide_True in Hf by (unfold U64_MAX; lia).
  apply Hf; [|unfold U64_MAX; lia].
  eapply Forall_impl; [by apply paged_groups_ok|]. intros g Hgok.
  pose proof (group_block_bytes_bounds g Hgok) as [? _].
  unfold checked_step. rewrite (block_bytes_ok g Hgok).
  split_and!; try done; simpl; try nia; intros; checked_step_tac.
Qed.

Lemma min_weight_split c groups :
  Zsum (map (min_weight c) groups) =
  fixed_bytes (max_seqs c) groups + max_blocks c * block_cost groups.
Proof.
  unfold fixed_bytes, block_cost, paged_groups, Zsum.
  induction groups as [|g groups IH]; simpl; [lia|]. rewrite IH.
  unfold min_weight at 1, fixed_weight at 2.
  destruct (is_paged (g_spec g)) eqn:Hp.
  - rewrite filter_cons_True by done. simpl. lia.
  - rewrite filter_cons_False by congruence. lia.
Qed.

Lemma group_bytes_split bpg seqs groups :
  Zsum (map (group_bytes bpg seqs) groups) = fixed_bytes seqs groups + bpg * block_cost groups.
Proof.
  unfold fixed_bytes, block_cost, paged_groups, Zsum.
  induction groups as [|g groups IH]; simpl; [lia|]. rewrite IH.
  unfold group_bytes at 1, fixed_weight at 2.
  destruct (is_paged (g_spec g)) eqn:Hp.
  - rewrite filter_cons_True by done. simpl. lia.
  - rewrite filter_cons_False by congruence. lia.
Qed.

(** ** The layout of the arena *)

Fixpoint lay_pools (bpg seqs base : Z) (gs : list LayerGroup) : list (option BlockPool) :=
  match gs with
  | [] => []
  | g :: gs =>
      (if is_paged (g_spec g)
       then Some {| p_total := bpg; p_free := rev (zrange 0 bpg);
                    p_base_offset := base; p_block_bytes := group_block_bytes g |}
       else None) :: lay_pools bpg seqs (base + group_bytes bpg seqs g) gs
  end.

Fixpoint lay_fixed (bpg seqs base : Z) (gs : list LayerGroup) : list (option FixedPool) :=
  match gs with
  | [] => []
  | g :: gs =>
      (if is_paged (g_spec g) then None
       else Some {| f_total_slots := seqs; f_free := list_to_set (zrange 0 seqs);
                    f_slot_bytes_per_seq := group_slot_bytes g;
                    f_buffer_bytes := group_slot_bytes g / 2; f_base_offset := base |})
      :: lay_fixed bpg seqs (base + group_bytes bpg seqs g) gs
  end.

Lemma group_bytes_nonneg bpg seqs g :
  0 ≤ bpg → 0 ≤ seqs → group_ok g → 0 ≤ group_bytes bpg seqs g.
Proof.
  intros Hb Hs Hg. unfold group_bytes.
  pose proof (group_slot_bytes_bounds g Hg). pose proof (group_block_bytes_bounds g Hg) as [? _].
  destruct (is_paged (g_spec g)); nia.
Qed.

Lemma group_bytes_sum_nonneg bpg seqs gs :
  0 ≤ bpg → 0 ≤ seqs → Forall group_ok gs → 0 ≤ Zsum (map (group_bytes bpg seqs) gs).
Proof.
  intros Hb Hs Hg. apply Zsum_nonneg. rewrite Forall_map.
  eapply Forall_impl; [done|]. intros g. by apply group_bytes_nonneg.
Qed.

Lemma lay_groups_ok bpg seqs gs ps fs base :
  0 ≤ bpg → 0 ≤ seqs → Forall group_ok gs → 0 ≤ base →
  base + Zsum (map (group_bytes bpg seqs) gs) ≤ U64_MAX →
  foldl (lay_group bpg seqs) (Ok (ps, fs, base)) gs =
  Ok (ps ++ lay_pools bpg seqs base gs, fs ++ lay_fixed bpg seqs base gs,
      base + Zsum (map (group_bytes bpg seqs) gs)).
Proof.
  intros Hb Hs Hg. revert ps fs base.
  induction Hg as [|g gs Hgok Hg IH]; intros ps fs base Hbase Hmax; simpl.
  { rewrite !app_nil_r. do 2 f_equal. lia. }
  pose proof (group_bytes_nonneg bpg seqs g Hb Hs Hgok) as Hgb.
  pose proof (group_bytes_sum_nonneg bpg seqs gs Hb Hs Hg) as Hsum.
  simpl in Hmax. unfold Zsum in Hmax. simpl in Hmax. fold Zsum in Hmax.
  change (foldr Z.add 0) with Zsum in *.
  specialize (IH
    (ps ++ [if is_paged (g_spec g)
            then Some {| p_total := bpg; p_free := rev (zrange 0 bpg);
                         p_base_offset := base; p_block_bytes := group_block_bytes g |}
            else None])
    (fs ++ [if is_paged (g_spec g) then None
            else Some {| f_total_slots := seqs; f_free := list_to_set (zrange 0 seqs);
                         f_slot_bytes_per_seq := group_slot_bytes g;
                         f_buffer_bytes := group_slot_bytes g / 2; f_base_offset := base |}])
    (base + group_bytes bpg seqs g) ltac:(lia) ltac:(lia)).
  rewrite <- !(assoc_L (++)) in IH. simpl in IH.
  rewrite <- Z.add_assoc in IH. rewrite <- IH. f_equal.
  rewrite (block_bytes_ok g Hgok), (slots_bytes_per_seq_ok g Hgok).
  unfold group_bytes in *. destruct (is_paged (g_spec g)); simpl.
  - rewrite checked_mul_ok by lia. simpl. rewrite checked_add_ok by lia. done.
  - rewrite checked_mul_ok by lia. simpl. rewrite checked_add_ok by lia. simpl.
    do 3 f_equal. lia.
Qed.

Lemma lay_pools_lookup bpg seqs base gs gi :
  lay_pools bpg seqs base gs !! gi =
  (λ g, if is_paged (g_spec g)
        then Some {| p_total := bpg; p_free := rev (zrange 0 bpg);
                     p_base_offset := base + arena_base bpg seqs gs gi;
                     p_block_bytes := group_block_bytes g |}
        else None) <$> gs !! gi.
Proof.
  revert base gi. induction gs as [|g gs IH]; intros base gi; [done|].
  destruct gi as [|gi]; simpl.
  - unfold arena_base. simpl. by rewrite Z.add_0_r.
  - rewrite IH. unfold arena_base. simpl. change (foldr Z.add 0) with Zsum.
    destruct (gs !! gi); simpl; [|done]. by rewrite Z.add_assoc.
Qed.

Lemma lay_fixed_lookup bpg seqs base gs gi :
  lay_fixed bpg seqs base gs !! gi =
  (λ g, if is_paged (g_spec g) then None
        else Some {| f_total_slots := seqs; f_free := list_to_set (zrange 0 seqs);
                     f_slot_bytes_per_seq := group_slot_bytes g;
                     f_buffer_bytes := group_slot_bytes g / 2;
                     f_base_offset := base + arena_base bpg seqs gs gi |}) <$> gs !! gi.
Proof.
  revert base gi. induction gs as [|g gs IH]; intros base gi; [done|].
  destruct gi as [|gi]; simpl.
  - unfold arena_base. simpl. by rewrite Z.add_0_r.
  - rewrite IH. unfold arena_base. simpl. change (foldr Z.add 0) with Zsum.
    destruct (gs !! gi); simpl; [|done]. by rewrite Z.add_assoc.
Qed.

Lemma lay_pools_length bpg seqs base gs : length (lay_pools bpg seqs base gs) = length gs.
Proof. revert base. induction gs; intros; simpl; [done|]. by rewrite IHgs. Qed.
Lemma lay_fixed_length bpg seqs base gs : length (lay_fixed bpg seqs base gs) = length gs.
Proof. revert base. induction gs; intros; simpl; [done|]. by rewrite IHgs. Qed.

(** ** A fresh pool *)

Lemma rev_zrange_descending n : descending (rev (zrange 0 n)).
Proof.
  unfold zrange. rewrite Z.sub_0_r. destruct (Z.le_gt_cases 0 n) as [Hn|Hn].
  2: { rewrite seqZ_nil by lia. constructor. }
  rewrite <- (Z2Nat.id n Hn). clear Hn. induction (Z.to_nat n) as [|k IH]; [constructor|].
  rewrite seqZ_S, rev_unit. constructor; [done|].
  apply Forall_forall. intros x Hx. rewrite elem_of_rev in Hx.
  apply elem_of_seqZ in Hx. lia.
Qed.

Lemma fresh_block_pool bpg base bytes :
  0 ≤ bpg →
  partitioned {| p_total := bpg; p_free := rev (zrange 0 bpg);
                 p_base_offset := base; p_block_bytes := bytes |} [].
Proof.
  intros Hb. split.
  - split; [apply rev_zrange_descending|]. simpl. apply Forall_forall.
    intros x Hx. rewrite elem_of_rev in Hx. by apply elem_of_zrange in Hx.
  - simpl. rewrite app_nil_r, <- Permutation_rev. unfold zrange. by rewrite Z.sub_0_r.
Qed.

Lemma fresh_fixed_pool seqs sb bb base :
  partitioned {| f_total_slots := seqs; f_free := list_to_set (zrange 0 seqs);
                 f_slot_bytes_per_seq := sb; f_buffer_bytes := bb; f_base_offset := base |} [].
Proof.
  split.
  - intros x. simpl. rewrite elem_of_list_to_set. by intros ?%elem_of_zrange.
  - simpl. rewrite app_nil_r, elements_list_to_set.
    + unfold zrange. by rewrite Z.sub_0_r.
    + apply NoDup_seqZ.
Qed.

(** ** The constructor *)

(** The manager the constructor builds when every paged group gets [bpg]
    blocks. *)
Definition built (c : StateConfig) (groups : list LayerGroup) (pool_bytes bpg : Z)
    : StateManager :=
  {| m_config := c; m_groups := groups;
     m_pools := lay_pools bpg (max_seqs c) 0 groups;
     m_fixed := lay_fixed bpg (max_seqs c) 0 groups;
     m_max_blocks := max_blocks c;
     m_pool_bytes_total := bpg * block_cost groups;
     m_fixed_bytes_total := fixed_bytes (max_seqs c) groups;
     m_unusable_bytes :=
       pool_bytes - fixed_bytes (max_seqs c) groups - bpg * block_cost groups;
     m_next_seq := 0; m_seqs := ∅; m_live_count := 0; m_swaps := 0; m_commits := 0;
     m_reserve_scratch := [] |}.

(** The blocks the split gives every paged group. *)
Definition split_blocks (c : StateConfig) (groups : list LayerGroup) (pool_bytes : Z) : Z :=
  match paged_groups groups with
  | [] => 0
  | _ => (pool_bytes - fixed_bytes (max_seqs c) groups) / block_cost groups
  end.

Definition scratch_capacity (c : StateConfig) (groups : list LayerGroup) : Z :=
  Z.of_nat (length (paged_groups groups)) * max_blocks c.

Lemma u64_sub_ok a b : 0 ≤ b ≤ a → a ≤ U64_MAX → u64_sub a b = a - b.
Proof. intros. unfold u64_sub, U64_MAX in *. apply Z.mod_small. lia. Qed.

Lemma config_blocks c :
  config_ok c → 0 < max_blocks c ≤ 32768 ∧ max_ctx c = max_blocks c * BLOCK_TOKENS.
Proof.
  intros (Hc & Hm & _). unfold max_blocks, BLOCK_TOKENS, MAX_CTX_HARD in *.
  pose proof (Z.div_mod (max_ctx c) 32 ltac:(lia)). lia.
Qed.

Lemma layout_groups groups : layout_ok groups → Forall group_ok groups.
Proof.
  intros [_ Hg]. apply Forall_forall. intros g (i & Hi)%list_elem_of_lookup.
  by destruct (Hg i g Hi).
Qed.

Lemma fixed_bytes_nonneg seqs groups :
  0 ≤ seqs → Forall group_ok groups → 0 ≤ fixed_bytes seqs groups.
Proof.
  intros Hs Hg. apply Zsum_nonneg. rewrite Forall_map.
  eapply Forall_impl; [done|]. intros g Hgok. unfold fixed_weight. simpl.
  pose proof (group_slot_bytes_bounds g Hgok). destruct (is_paged _); nia.
Qed.

Lemma split_blocks_bounds c groups pool :
  config_ok c → layout_ok groups → fixed_bytes (max_seqs c) groups ≤ pool →
  0 ≤ split_blocks c groups pool ∧
  0 ≤ split_blocks c groups pool * block_cost groups
    ≤ pool - fixed_bytes (max_seqs c) groups ∧
  (paged_groups groups ≠ [] →
   pool - fixed_bytes (max_seqs c) groups
     < (split_blocks c groups pool + 1) * block_cost groups).
Proof.
  intros Hc Hl Hp. pose proof (layout_groups _ Hl) as Hg.
  destruct (block_cost_bounds groups Hg (proj1 Hl)) as [Hb Hpos].
  unfold split_blocks. destruct (paged_groups groups) as [|g gs]; [split_and!; [lia..|done]|].
  specialize (Hpos ltac:(done)). set (u := pool - fixed_bytes (max_seqs c) groups) in *.
  pose proof (Z.div_mod u (block_cost groups) ltac:(lia)).
  pose proof (Z.mod_pos_bound u (block_cost groups) Hpos).
  assert (0 ≤ u / block_cost groups) by (apply Z.div_pos; lia).
  split_and!; [lia|nia|lia|intros _; nia].
Qed.

(** What [split_paged] decides, with the numbers of its refusals. *)
Lemma split_paged_spec c groups pool :
  config_ok c → layout_ok groups → 0 ≤ pool ≤ U64_MAX →
  Zsum (map (min_weight c) groups) ≤ U64_MAX →
  fixed_bytes (max_seqs c) groups ≤ pool →
  split_paged (max_blocks c) pool (fixed_bytes (max_seqs c) groups)
    (pool - fixed_bytes (max_seqs c) groups) (block_cost groups) groups =
  if MAX_SLOT_BLOCKS <? split_blocks c groups pool
  then refuse_config (BlocksExceedSlotRange (split_blocks c groups pool))
  else if pool <? Zsum (map (min_weight c) groups)
  then refuse_config (PoolBelowRequired pool (Zsum (map (min_weight c) groups))
                        (Zsum (map (min_weight c) groups) - pool))
  else Ok (split_blocks c groups pool, split_blocks c groups pool * block_cost groups).
Proof.
  intros Hc Hl Hpool Hmin Hfix. pose proof (layout_groups _ Hl) as Hg.
  destruct (config_blocks c Hc) as [Hmb _].
  destruct (block_cost_bounds groups Hg (proj1 Hl)) as [Hb Hpos].
  assert (0 ≤ max_seqs c) as Hms by (destruct Hc as (_ & _ & ?); lia).
  pose proof (fixed_bytes_nonneg (max_seqs c) groups Hms Hg) as Hfn.
  destruct (split_blocks_bounds c groups pool Hc Hl Hfix) as (Hs0 & Hs1 & Hs2).
  rewrite (min_weight_split c groups) in *.
  unfold split_paged, split_blocks in *.
  destruct (paged_groups groups) as [|g gs] eqn:Hpg.
  { unfold block_cost in *. rewrite Hpg in *. simpl in *.
    destruct (Z.ltb_spec pool (fixed_bytes (max_seqs c) groups + max_blocks c * 0)); [lia|done]. }
  specialize (Hpos ltac:(done)). specialize (Hs2 ltac:(done)).
  unfold checked_div. destruct (Z.eqb_spec (block_cost groups) 0) as [|_]; [lia|].
  set (u := pool - fixed_bytes (max_seqs c) groups) in *. set (n := u / block_cost groups) in *.
  unfold try_from. destruct (Z.leb_spec 0 n); [|lia]. simpl.
  unfold MAX_SLOT_BLOCKS in *.
  destruct (Z.leb_spec n U32_MAX) as [Hn|Hn].
  2: { destruct (Z.ltb_spec 134217727 n); [done|unfold U32_MAX in *; lia]. }
  destruct (Z.ltb_spec 134217727 n) as [|Hn']; [done|].
  destruct (Z.ltb_spec n (max_blocks c)) as [Hlt|Hge].
  - assert ((n + 1) * block_cost groups ≤ max_blocks c * block_cost groups).
    { apply Z.mul_le_mono_nonneg_r; lia. }
    rewrite checked_mul_ok by lia. simpl. rewrite checked_add_ok by lia. simpl.
    rewrite u64_sub_ok by lia.
    destruct (Z.ltb_spec pool (fixed_bytes (max_seqs c) groups + max_blocks c * block_cost groups));
      [done|lia].
  - assert (max_blocks c * block_cost groups ≤ n * block_cost groups).
    { apply Z.mul_le_mono_nonneg_r; lia. }
    rewrite checked_mul_ok by lia. simpl.
    destruct (Z.ltb_spec pool (fixed_bytes (max_seqs c) groups + max_blocks c * block_cost groups));
      [lia|done].
Qed.

(** The decision in closed form. *)
Lemma new_from_validated_groups_eq try_reserve c groups pool r :
  config_ok c → layout_ok groups → 0 ≤ pool ≤ U64_MAX →
  required_pool_bytes c groups = Ok r →
  new_from_validated_groups try_reserve c groups pool =
  if pool <? fixed_bytes (max_seqs c) groups
  then refuse_config (PoolBelowFixed pool (fixed_bytes (max_seqs c) groups)
                        (fixed_bytes (max_seqs c) groups - pool))
  else if MAX_SLOT_BLOCKS <? split_blocks c groups pool
  then refuse_config (BlocksExceedSlotRange (split_blocks c groups pool))
  else if pool <? r then refuse_config (PoolBelowRequired pool r (r - pool))
  else if try_reserve (scratch_capacity c groups)
  then Ok (built c groups pool (split_blocks c groups pool))
  else Err (Overflow "reserve scratch capacity").
Proof.
  intros Hc Hl Hpool Hr. pose proof (layout_groups _ Hl) as Hg.
  destruct (config_blocks c Hc) as [Hmb _].
  assert (0 ≤ max_seqs c) as Hms by (destruct Hc as (_ & _ & ?); lia).
  pose proof (fixed_bytes_nonneg (max_seqs c) groups Hms Hg) as Hfn.
  destruct (block_cost_bounds groups Hg (proj1 Hl)) as [Hb _].
  pose proof (required_pool_bytes_spec c groups Hms ltac:(lia) Hg) as Hreq.
  case_decide as Hmin; [|destruct Hreq as [? Hreq]; congruence].
  assert (r = Zsum (map (min_weight c) groups)) as -> by congruence. clear Hr Hreq.
  assert (fixed_bytes (max_seqs c) groups ≤ U64_MAX) as Hfix.
  { rewrite min_weight_split in Hmin. nia. }
  pose proof (fixed_total_spec (max_seqs c) groups Hms Hg) as Hft.
  rewrite decide_True in Hft by done.
  unfold new_from_validated_groups. rewrite Hft. simpl.
  destruct (Z.ltb_spec pool (fixed_bytes (max_seqs c) groups)) as [Hlt|Hge].
  { rewrite u64_sub_ok by lia. done. }
  rewrite u64_sub_ok by lia.
  rewrite block_cost_sum_spec by (done || apply Hl). simpl.
  rewrite split_paged_spec by done.
  destruct (Z.ltb_spec MAX_SLOT_BLOCKS (split_blocks c groups pool)); [done|].
  destruct (Z.ltb_spec pool (Zsum (map (min_weight c) groups))); [done|]. simpl.
  destruct (split_blocks_bounds c groups pool Hc Hl Hge) as (Hs0 & Hs1 & _).
  rewrite (u64_sub_ok (pool - _)) by lia.
  rewrite lay_groups_ok; try done; try lia.
  2: { rewrite group_bytes_split. lia. }
  simpl. unfold scratch_capacity.
  assert (length (paged_groups groups) ≤ 16)%nat.
  { pose proof (length_filter (λ g, is_paged (g_spec g) = true) groups). destruct Hl as [Hl _].
    unfold MAX_GROUPS_HARD, paged_groups in *. lia. }
  rewrite checked_mul_ok by (unfold USIZE_MAX, U64_MAX; nia). simpl.
  destruct (try_reserve _); done.
Qed.

(** Construction is decided by the numbers: below the fixed pools it
    refuses with that shortfall, above the slot range it refuses, below
    [required_pool_bytes] it refuses with the shortfall to it, and otherwise
    (storage granted) it builds the manager whose paged groups all get the
    largest number of blocks the remaining bytes pay for. *)
Theorem new_from_validated_groups_spec try_reserve c groups pool r :
  config_ok c → layout_ok groups → 0 ≤ pool ≤ U64_MAX →
  required_pool_bytes c groups = Ok r →
  new_from_validated_groups try_reserve c groups pool =
  if pool <? fixed_bytes (max_seqs c) groups
  then refuse_config (PoolBelowFixed pool (fixed_bytes (max_seqs c) groups)
                        (fixed_bytes (max_seqs c) groups - pool))
  else if MAX_SLOT_BLOCKS <? split_blocks c groups pool
  then refuse_config (BlocksExceedSlotRange (split_blocks c groups pool))
  else if pool <? r then refuse_config (PoolBelowRequired pool r (r - pool))
  else if try_reserve (scratch_capacity c groups)
  then Ok (built c groups pool (split_blocks c groups pool))
  else Err (Overflow "reserve scratch capacity").
Proof. apply new_from_validated_groups_eq. Qed.

(** The manager built satisfies the invariant. *)
Lemma built_inv c groups pool bpg :
  config_ok c → layout_ok groups → 0 ≤ bpg ≤ MAX_SLOT_BLOCKS → pool ≤ U64_MAX →
  bpg * block_cost groups ≤ pool - fixed_bytes (max_seqs c) groups →
  manager_inv bpg (built c groups pool bpg).
Proof.
  intros Hc Hl Hb Hpool Hcost. split; simpl; try done.
  - split_and!; [done..|lia|lia].
  - split; [apply lay_pools_length|]. intros gi g Hgi. rewrite lay_pools_lookup, Hgi. simpl.
    destruct (is_paged (g_spec g)); [|done]. eexists. split; [done|].
    rewrite owned_empty. split; [apply fresh_block_pool; lia|done].
  - split; [apply lay_fixed_length|]. intros gi g Hgi. rewrite lay_fixed_lookup, Hgi. simpl.
    destruct (is_paged (g_spec g)); [done|]. eexists. split; [done|].
    rewrite owned_empty. split; [apply fresh_fixed_pool|done].
  - destruct Hc as (_ & _ & ?). rewrite map_size_empty. simpl. lia.
Qed.

(** Whatever the sizes, a construction that succeeds built that manager. *)
Lemma new_from_validated_groups_Ok try_reserve c groups pool m :
  config_ok c → layout_ok groups → 0 ≤ pool ≤ U64_MAX →
  new_from_validated_groups try_reserve c groups pool = Ok m →
  m = built c groups pool (split_blocks c groups pool) ∧
  fixed_bytes (max_seqs c) groups ≤ pool ∧
  split_blocks c groups pool ≤ MAX_SLOT_BLOCKS ∧
  Zsum (map (min_weight c) groups) ≤ pool.
Proof.
  intros Hc Hl Hpool Hm. pose proof (layout_groups _ Hl) as Hg.
  destruct (config_blocks c Hc) as [Hmb _].
  assert (0 ≤ max_seqs c) as Hms by (destruct Hc as (_ & _ & ?); lia).
  pose proof (fixed_bytes_nonneg (max_seqs c) groups Hms Hg) as Hfn.
  destruct (block_cost_bounds groups Hg (proj1 Hl)) as [Hb _].
  pose proof (required_pool_bytes_spec c groups Hms ltac:(lia) Hg) as Hreq.
  case_decide as Hmin.
  - rewrite (new_from_validated_groups_eq _ _ _ _ _ Hc Hl Hpool Hreq) in Hm.
    destruct (Z.ltb_spec pool (fixed_bytes (max_seqs c) groups)); [done|].
    destruct (Z.ltb_spec MAX_SLOT_BLOCKS (split_blocks c groups pool)); [done|].
    destruct (Z.ltb_spec pool (Zsum (map (min_weight c) groups))); [done|].
    destruct (try_reserve _); simplify_eq. done.
  - exfalso. clear Hreq. rewrite min_weight_split in Hmin.
    unfold new_from_validated_groups in Hm. apply obind_Ok_inv in Hm as (f & Hf & Hm).
    pose proof (fixed_total_spec (max_seqs c) groups Hms Hg) as Hft.
    case_decide as Hfix; [|destruct Hft as [? Hft]; congruence].
    assert (f = fixed_bytes (max_seqs c) groups) as -> by congruence.
    destruct (Z.ltb_spec pool (fixed_bytes (max_seqs c) groups)) as [|Hge]; [done|].
    rewrite u64_sub_ok in Hm by lia.
    rewrite block_cost_sum_spec in Hm by (done || apply Hl). simpl in Hm.
    apply obind_Ok_inv in Hm as ([k a] & Hs & _).
    unfold split_paged in Hs. destruct (paged_groups groups) as [|g gs] eqn:Hpg.
    { unfold block_cost in Hmin. rewrite Hpg in Hmin. simpl in Hmin. lia. }
    destruct (split_blocks_bounds c groups pool Hc Hl Hge) as (_ & Hs1 & _).
    unfold split_blocks in Hs1. rewrite Hpg in Hs1.
    unfold checked_div in Hs. destruct (Z.eqb_spec (block_cost groups) 0) as [|_]; [done|].
    destruct (try_from U32_MAX _) as [b|] eqn:Htf; [|done].
    apply try_from_Some in Htf as [-> _].
    destruct (Z.ltb_spec MAX_SLOT_BLOCKS ((pool - fixed_bytes (max_seqs c) groups) / block_cost groups)) as [|_]; [done|].
    destruct (Z.ltb_spec ((pool - fixed_bytes (max_seqs c) groups) / block_cost groups) (max_blocks c)) as [Hlt|Hge'].
    + rewrite checked_mul_ok in Hs by (unfold U64_MAX; nia). simpl in Hs.
      unfold checked_add in Hs.
      destruct (Z.leb_spec (fixed_bytes (max_seqs c) groups + max_blocks c * block_cost groups) U64_MAX);
        [lia|done].
    + apply (Z.mul_le_mono_nonneg_r _ _ (block_cost groups)) in Hge'; lia.
Qed.

(** ** The public constructors *)

Lemma validate_Ok c : is_u32 (max_ctx c) → is_u32 (max_seqs c) → validate c = Ok tt ↔ config_ok c.
Proof.
  unfold validate, config_problems, config_ok, is_u32. intros Hc Hs.
  destruct (Z.eqb_spec (max_ctx c) 0), (Z.ltb_spec MAX_CTX_HARD (max_ctx c)),
    (Z.eqb_spec (max_ctx c mod BLOCK_TOKENS) 0), (Z.eqb_spec (max_seqs c) 0),
    (Z.ltb_spec MAX_SEQS_HARD (max_seqs c)); simpl; split; intros; try done; try lia.
Qed.

Lemma join_problems_Ok a b groups : join_problems a b = Ok groups ↔ a = Ok tt ∧ b = Ok groups.
Proof.
  unfold join_problems. split.
  - destruct a as [[]|[]|], b as [|[]|]; naive_solver.
  - by intros [-> ->].
Qed.

Lemma groups_ok_layout decls gs :
  groups_ok decls gs → Z.of_nat (length gs) ≤ MAX_GROUPS_HARD →
  Z.of_nat (length decls) ≤ MAX_DECLS_HARD →
  Forall (λ d, valid_spec (d_spec d) ∧ d_layer d < MAX_LAYERS_HARD) decls →
  Forall (λ d, spec_u32 (d_spec d)) decls →
  layout_ok gs.
Proof.
  intros Hok Hn Hl Hv Hu. split; [done|]. intros gi g Hgi. split; [by eapply go_index|].
  pose proof (groups_ok_group_ok _ _ Hok Hl Hv Hu) as Hg. rewrite Forall_forall in Hg.
  apply Hg. by eapply list_elem_of_lookup_2.
Qed.

(** Both constructors validate and hand over to [new_from_validated_groups]. *)
Lemma constructed try_reserve c specs decls pool m :
  is_u32 (max_ctx c) → is_u32 (max_seqs c) →
  Forall spec_u32 specs → Forall (λ d, spec_u32 (d_spec d)) decls →
  new try_reserve c specs pool = Ok m ∨ new_with_declarations try_reserve c decls pool = Ok m →
  ∃ groups, config_ok c ∧ layout_ok groups ∧
    new_from_validated_groups try_reserve c groups pool = Ok m.
Proof.
  intros Hcu Hsu Hspecs Hdecls Hnew.
  unfold new, new_with_declarations in Hnew.
  destruct Hnew as [Hnew|Hnew]; apply obind_Ok_inv in Hnew as (groups & Hj & Hm);
    apply join_problems_Ok in Hj as [Hv Hg]; apply validate_Ok in Hv; try done;
    exists groups; (split_and!; [done| |done]).
  - apply group_layers_Ok in Hg as (Hok & Hn & Hlen & Hf).
    eapply groups_ok_layout; try done.
    apply Forall_forall. intros d (i & Hi)%list_elem_of_lookup. unfold numbered in Hi.
    rewrite list_lookup_imap in Hi. destruct (specs !! i) eqn:Hs; simplify_eq/=.
    rewrite Forall_forall in Hspecs. apply Hspecs. by eapply list_elem_of_lookup_2.
  - apply group_layer_specs_Ok in Hg as (Hok & Hn & Hlen & Hf).
    by eapply groups_ok_layout.
Qed.

Lemma constructed_ok try_reserve c groups pool m :
  config_ok c → layout_ok groups → 0 ≤ pool ≤ U64_MAX →
  new_from_validated_groups try_reserve c groups pool = Ok m → manager_ok m.
Proof.
  intros Hc Hl Hpool Hm.
  destruct (new_from_validated_groups_Ok _ _ _ _ _ Hc Hl Hpool Hm) as (-> & Hfix & Hmax & Hmin).
  destruct (split_blocks_bounds c groups pool Hc Hl Hfix) as (Hs0 & Hs1 & Hs2).
  exists (split_blocks c groups pool). apply built_inv; try done; lia.
Qed.

(** A manager that either constructor returns satisfies the invariant,
    holds no sequence, gives every paged group at least one full context of
    blocks, and accounts for every byte of the pool it was given: the paged
    and the fixed pools and the unusable remainder add up to it, and the
    remainder is smaller than one more block in every paged group. *)
Theorem constructors_establish_invariant try_reserve c specs decls pool m :
  is_u32 (max_ctx c) → is_u32 (max_seqs c) → 0 ≤ pool ≤ U64_MAX →
  Forall spec_u32 specs → Forall (λ d, spec_u32 (d_spec d)) decls →
  new try_reserve c specs pool = Ok m ∨ new_with_declarations try_reserve c decls pool = Ok m →
  manager_ok m ∧ m_config m = c ∧ m_seqs m = ∅ ∧
  m_pool_bytes_total m + m_fixed_bytes_total m + m_unusable_bytes m = pool ∧
  (paged_groups (m_groups m) ≠ [] → m_unusable_bytes m < block_cost (m_groups m)) ∧
  (∀ gi p, get_some gi (m_pools m) = Some p → max_blocks c ≤ p_total p).
Proof.
  intros Hcu Hsu Hpool Hspecs Hdecls Hnew.
  destruct (constructed try_reserve c specs decls pool m) as (groups & Hc & Hl & Hm); [done..|].
  pose proof (constructed_ok _ _ _ _ _ Hc Hl Hpool Hm) as Hok.
  destruct (new_from_validated_groups_Ok _ _ _ _ _ Hc Hl Hpool Hm) as (-> & Hfix & Hmax & Hmin).
  destruct (split_blocks_bounds c groups pool Hc Hl Hfix) as (Hs0 & Hs1 & Hs2).
  simpl. split_and!; [|done|done|lia| |].
  - done.
  - intros Hne. specialize (Hs2 Hne). lia.
  - intros gi p. unfold get_some. rewrite lay_pools_lookup.
    destruct (groups !! gi) as [g|] eqn:Hgi; simpl; [|done].
    destruct (is_paged (g_spec g)) eqn:Hp; [|done]. simpl. intros [= <-]. simpl.
    rewrite min_weight_split in Hmin.
    assert (paged_groups groups ≠ []) as Hne.
    { intros Hnil. assert (g ∈ paged_groups groups) as Hin; [|rewrite Hnil in Hin; by apply elem_of_nil in Hin].
      apply list_elem_of_filter. split; [done|]. by eapply list_elem_of_lookup_2. }
    destruct (block_cost_bounds groups (layout_groups _ Hl) (proj1 Hl)) as [_ Hpos].
    specialize (Hs2 Hne). specialize (Hpos Hne).
    destruct (Z.lt_ge_cases (split_blocks c groups pool) (max_blocks c)); [|done].
    assert ((split_blocks c groups pool + 1) * block_cost groups
      ≤ max_blocks c * block_cost groups) by (apply Z.mul_le_mono_nonneg_r; lia). lia.
Qed.

(** ** A small manager for the witnesses *)

Definition demo_config : StateConfig := {| max_ctx := 128; max_seqs := 2 |}.
Definition demo_specs : list StateSpec :=
  [KvPaged 1 4 4 F16 All; KvPaged 1 4 4 F16 (Window 32); ConvWindow 8 4].
Definition demo_bytes : Z := 9000.
Definition demo : StateManager :=
  Eval vm_compute in
  match new (λ _, true) demo_config demo_specs demo_bytes with
  | Ok m => m
  | _ => built demo_config [] 0 0
  end.

Lemma demo_new : new (λ _, true) demo_config demo_specs demo_bytes = Ok demo.
Proof. vm_compute. reflexivity. Qed.

Lemma demo_specs_u32 : Forall spec_u32 demo_specs.
Proof. repeat constructor; simpl; unfold is_u32, U32_MAX; lia. Qed.

Lemma demo_ok : manager_ok demo.
Proof.
  pose proof (new_from_validated_groups_Ok (λ _, true) demo_config (m_groups demo) demo_bytes) as H.
  assert (config_ok demo_config) as Hc by (vm_compute; intuition discriminate).
  assert (Hl : layout_ok (m_groups demo)).
  { apply (groups_ok_layout (numbered demo_specs)).
    - apply (group_layers_Ok demo_specs). reflexivity.
    - vm_compute. discriminate.
    - vm_compute. discriminate.
    - repeat constructor.
    - repeat constructor; simpl; unfold is_u32, U32_MAX; lia. }
  destruct (H demo Hc Hl) as (-> & Hf & Hb & _); [vm_compute; intuition discriminate|reflexivity|].
  eexists. apply built_inv; try done; vm_compute; intuition discriminate.
Qed.

Lemma constructors_establish_invariant_witness :
  new (λ _, true) demo_config demo_specs demo_bytes = Ok demo ∧
  m_pool_bytes_total demo + m_fixed_bytes_total demo + m_unusable_bytes demo = demo_bytes.
Proof.
  split; [exact demo_new|].
  refine (proj1 (proj2 (proj2 (proj2
    (constructors_establish_invariant (λ _, true) demo_config demo_specs [] demo_bytes demo
       _ _ _ demo_specs_u32 _ (or_introl demo_new))))));
    [vm_compute; intuition discriminate..|constructor].
Defined.
