(* ===== verification/Reserve.v ===== *)
(** * Reservation

    [reserve], [place_reserve_blocks] and [place_one_block] of
    [crates/r9v-state/src/manager.rs]: what a reservation maps, that a refusal
    changes nothing, and that the placing loop undoes itself exactly. *)

From S2P Require Import Prelude Errors Spec Table Pools Manager Invariant Construct.

#[global] Open Scope Z_scope.

#[global] Arguments place_one_block : simpl never.
#[global] Arguments unplace : simpl never.
#[global] Arguments scan_group : simpl never.

(** ** Placing one block *)

Definition put_block (gi : nat) (idx id : Z) (s : SeqState) : SeqState :=
  let k := partition_point (λ i, i <? idx) (indices_of gi s) in
  with_table gi (take k (indices_of gi s) ++ idx :: drop k (indices_of gi s))
                (take k (table_of gi s) ++ id :: drop k (table_of gi s)) s.

Definition cut_block (gi : nat) (idx : Z) (s : SeqState) : SeqState :=
  let k := partition_point (λ i, i <? idx) (indices_of gi s) in
  with_table gi (take k (indices_of gi s) ++ drop (S k) (indices_of gi s))
                (take k (table_of gi s) ++ drop (S k) (table_of gi s)) s.

Section placing.
Context (bpg cap : Z) (groups : list LayerGroup) (seq : Z).

Record placing_inv (st : placing) (s : SeqState) : Prop := {
  pl_seq : st.2 !! seq = Some s;
  pl_pools : pools_inv bpg cap groups st.1 st.2;
  pl_shape : seq_shape groups s
}.

Lemma put_block_spec gi g idx id s :
  seq_shape groups s → groups !! gi = Some g → is_paged (g_spec g) = true →
  idx ∉ indices_of gi s →
  seq_shape groups (put_block gi idx id s) ∧
  page_map_of gi (put_block gi idx id s) = <[idx := id]> (page_map_of gi s) ∧
  table_of gi (put_block gi idx id s) ≡ₚ id :: table_of gi s ∧
  indices_of gi (put_block gi idx id s) ≡ₚ idx :: indices_of gi s ∧
  (∀ gj, gj ≠ gi → table_of gj (put_block gi idx id s) = table_of gj s ∧
                   indices_of gj (put_block gi idx id s) = indices_of gj s).
Proof.
  intros Hs Hg Hp Hn. pose proof (shape_aligned groups s gi g Hs Hg) as Ha.
  destruct (aligned_insert _ _ idx id Ha Hn) as (Ha' & Hm & Ht & Hi).
  unfold put_block, page_map_of.
  edestruct (with_table_of groups gi g) as [-> ->]; [done..|].
  split_and!; [by eapply with_table_shape|done|done|done|].
  intros gj Hne. by apply with_table_ne.
Qed.

Lemma cut_block_spec gi g idx id s :
  seq_shape groups s → groups !! gi = Some g → is_paged (g_spec g) = true →
  page_map_of gi s !! idx = Some id →
  let k := partition_point (λ i, i <? idx) (indices_of gi s) in
  indices_of gi s !! k = Some idx ∧ table_of gi s !! k = Some id ∧
  seq_shape groups (cut_block gi idx s) ∧
  page_map_of gi (cut_block gi idx s) = delete idx (page_map_of gi s) ∧
  id :: table_of gi (cut_block gi idx s) ≡ₚ table_of gi s ∧
  (∀ gj, gj ≠ gi → table_of gj (cut_block gi idx s) = table_of gj s ∧
                   indices_of gj (cut_block gi idx s) = indices_of gj s).
Proof.
  intros Hs Hg Hp Hm k. pose proof (shape_aligned groups s gi g Hs Hg) as Ha.
  pose proof (find_block_page_map _ _ idx Ha) as Hf. fold (page_map_of gi s) in Hf.
  unfold find_block in Hf. fold k in Hf. rewrite Hm in Hf. case_decide as Hk; [|done].
  destruct (aligned_remove _ _ idx id k Ha Hk Hf) as (Ha' & Hm' & Ht & _).
  unfold cut_block, page_map_of. fold k.
  destruct (with_table_of groups gi g
    (take k (indices_of gi s) ++ drop (S k) (indices_of gi s))
    (take k (table_of gi s) ++ drop (S k) (table_of gi s)) s Hs Hg) as [-> ->].
  split_and!; try done; [by eapply with_table_shape|].
  intros gj Hne. by apply with_table_ne.
Qed.

(** The account of a group when one sequence's table changes. *)
Lemma owned_insert_seq f (seqs : gmap Z SeqState) s s' id :
  seqs !! seq = Some s → f s' ≡ₚ id :: f s →
  owned f (<[seq := s']> seqs) ≡ₚ id :: owned f seqs.
Proof. intros Hs Hf. rewrite owned_update, (owned_lookup f seqs seq s Hs), Hf. done. Qed.

Lemma owned_unchanged_seq f (seqs : gmap Z SeqState) s s' :
  seqs !! seq = Some s → f s' = f s → owned f (<[seq := s']> seqs) ≡ₚ owned f seqs.
Proof. intros Hs Hf. eapply owned_same; [done|]. by rewrite Hf. Qed.

(** [place_one_block] on a pool with a free block. *)
Lemma place_one_ok pools seqs s gi g idx end_ mc p :
  placing_inv (pools, seqs) s → groups !! gi = Some g → is_paged (g_spec g) = true →
  idx ∉ indices_of gi s → get_some gi pools = Some p → p_free p ≠ [] →
  ∃ id p',
    alloc p = (Some id, p') ∧ id ∈ p_free p ∧ p_free p ≡ₚ id :: p_free p' ∧
    place_one_block seq gi idx end_ mc (pools, seqs) =
      (Ok tt, (<[gi := Some p']> pools, <[seq := put_block gi idx id s]> seqs)) ∧
    placing_inv (<[gi := Some p']> pools, <[seq := put_block gi idx id s]> seqs)
      (put_block gi idx id s).
Proof.
  intros [Hseq Hpools Hs] Hg Hp Hn Hpool Hfree. simpl in *.
  destruct (pools_inv_paged _ _ _ _ _ _ _ Hpools Hg Hp) as (p1 & Hp1 & Hinv).
  apply get_some_Some in Hp1. assert (p1 = p) as -> by congruence. clear Hp1.
  destruct (alloc p) as [[id|] p'] eqn:Ha.
  2: { destruct Hinv as [[Hok _] _].
    destruct (take_None (P:=BlockPool) p p' Hok Ha) as [Hnil _]. done. }
  pose proof Hinv as [Hpart Hst].
  destruct (partitioned_take p p' id _ Hpart Ha) as (Hpart' & _ & Htot).
  destruct (take_Some (P:=BlockPool) p p' id (proj1 Hpart) Ha) as (_ & _ & Hf & _).
  destruct (alloc_static p _ p' Ha) as (_ & Hb & Hbb). simpl in Htot, Hf.
  exists id, p'.
  destruct (put_block_spec gi g idx id s Hs Hg Hp Hn) as (Hs' & _ & Ht & _ & Hother).
  split_and!; [done|rewrite Hf; by left|done| |].
  - unfold place_one_block. rewrite Hpool, Ha, Hseq.
    destruct (shape_table groups s gi g Hs Hg) as [Hti Hii]. rewrite Hii.
    rewrite vec_insert_Ok by apply partition_point_le. simpl. rewrite Hti.
    rewrite vec_insert_Ok.
    + done.
    + pose proof (shape_aligned groups s gi g Hs Hg) as [_ ->]. apply partition_point_le.
  - split; simpl; [apply lookup_insert_eq| |done].
    eapply pools_inv_update; try done.
    + split; [|split_and!; destruct Hst as (? & ? & ?); congruence].
      rewrite (owned_insert_seq (table_of gi) seqs s); done.
    + intros gj Hne. destruct (Hother gj Hne) as [Heq _].
      by apply (owned_unchanged_seq (table_of gj) seqs s).
Qed.

(** [place_one_block] on an empty pool. *)
Lemma place_one_exhausted pools seqs s gi idx end_ mc p :
  placing_inv (pools, seqs) s → get_some gi pools = Some p → p_free p = [] →
  place_one_block seq gi idx end_ mc (pools, seqs) =
  (Err (PoolExhausted gi 1 0 1 end_ mc), (pools, seqs)).
Proof.
  intros _ Hpool Hfree. unfold place_one_block. rewrite Hpool. unfold alloc. rewrite Hfree.
  simpl. f_equal. f_equal. apply list_insert_id. apply get_some_Some in Hpool.
  rewrite Hpool. do 2 f_equal. destruct p. simpl in *. by subst.
Qed.

(** ** The placing loop *)

(** [s'] is [s] with the records of [recs] mapped and nothing else moved. *)
Definition placed (recs : list (nat * Z)) (s s' : SeqState) : Prop :=
  same_but_tables s s' ∧
  (∀ gi b, b ∈ indices_of gi s' ↔ b ∈ indices_of gi s ∨ (gi, b) ∈ recs) ∧
  (∀ gi, page_map_of gi s ⊆ page_map_of gi s').

(** A record names an unmapped block of a paged group. *)
Definition fresh_rec (s : SeqState) (rec : nat * Z) : Prop :=
  ∃ g, groups !! rec.1 = Some g ∧ is_paged (g_spec g) = true ∧ rec.2 ∉ indices_of rec.1 s.

Definition count_in (gi : nat) (recs : list (nat * Z)) : nat :=
  length (filter (λ rec, rec.1 = gi) recs).

Definition free_len (gi : nat) (pools : list (option BlockPool)) : nat :=
  match get_some gi pools with Some p => length (p_free p) | None => 0%nat end.

Lemma placed_nil s : placed [] s s.
Proof.
  split_and!; [done| |done]. intros gi b. rewrite elem_of_nil. tauto.
Qed.

Lemma placed_put s s' gi g idx id recs :
  seq_shape groups s → groups !! gi = Some g → is_paged (g_spec g) = true →
  idx ∉ indices_of gi s → placed recs (put_block gi idx id s) s' →
  placed ((gi, idx) :: recs) s s'.
Proof.
  intros Hs Hg Hp Hn (Hsame & Hin & Hsub).
  destruct (put_block_spec gi g idx id s Hs Hg Hp Hn) as (_ & Hm & _ & Hi & Hother).
  split_and!.
  - etransitivity; [|done]. done.
  - intros gj b. rewrite Hin, elem_of_cons. destruct (decide (gj = gi)) as [->|Hne].
    + rewrite Hi, elem_of_cons. naive_solver.
    + destruct (Hother gj Hne) as [_ ->]. naive_solver.
  - intros gj. etransitivity; [|apply Hsub]. destruct (decide (gj = gi)) as [->|Hne].
    + rewrite Hm. apply insert_subseteq, eq_None_not_Some. unfold page_map_of.
      rewrite page_map_dom; [done|by eapply shape_aligned].
    + unfold page_map_of. by destruct (Hother gj Hne) as [-> ->].
Qed.

Lemma fresh_put s gi g idx id recs :
  seq_shape groups s → groups !! gi = Some g → is_paged (g_spec g) = true →
  idx ∉ indices_of gi s → NoDup ((gi, idx) :: recs) → Forall (fresh_rec s) recs →
  Forall (fresh_rec (put_block gi idx id s)) recs.
Proof.
  intros Hs Hg Hp Hn [Hnin _]%NoDup_cons Hf. rewrite Forall_forall in *.
  intros [gj b] Hin. destruct (Hf _ Hin) as (h & Hh & Hph & Hb). exists h.
  split_and!; [done..|]. simpl in *.
  destruct (put_block_spec gi g idx id s Hs Hg Hp Hn) as (_ & _ & _ & Hi & Hother).
  destruct (decide (gj = gi)) as [->|Hne].
  - rewrite Hi, elem_of_cons. intros [->|?]; [done|done].
  - by destruct (Hother gj Hne) as [_ ->].
Qed.

Lemma free_len_insert gi gj p pools :
  (gi < length pools)%nat →
  free_len gj (<[gi := Some p]> pools) =
  if decide (gj = gi) then length (p_free p) else free_len gj pools.
Proof.
  intros Hlt. unfold free_len, get_some. destruct (decide (gj = gi)) as [->|Hne].
  - by rewrite list_lookup_insert_eq.
  - by rewrite list_lookup_insert_ne.
Qed.

(** The loop places a prefix; it stops short only at an empty pool. *)
Lemma place_loop_gen end_ mc recs : ∀ n pools seqs s,
  placing_inv (pools, seqs) s → NoDup recs → Forall (fresh_rec s) recs →
  ∃ k pools' s' failure,
    place_loop seq end_ mc recs n (pools, seqs) =
      (Ok ((n + k)%nat, failure), (pools', <[seq := s']> seqs)) ∧
    placing_inv (pools', <[seq := s']> seqs) s' ∧
    placed (take k recs) s s' ∧ (k ≤ length recs)%nat ∧
    (∀ gi, free_len gi pools = free_len gi pools' + count_in gi (take k recs))%nat ∧
    match failure with
    | None => k = length recs
    | Some e => ∃ gi idx, recs !! k = Some (gi, idx) ∧ free_len gi pools' = 0%nat ∧
                  e = PoolExhausted gi 1 0 1 end_ mc
    end.
Proof.
  induction recs as [|[gi idx] recs IH]; intros n pools seqs s Hinv Hnd Hfresh; simpl.
  { exists 0%nat, pools, s, None. rewrite insert_id by apply Hinv.
    rewrite Nat.add_0_r. split_and!; try done; try apply placed_nil; intros gi; simpl; lia. }
  pose proof Hfresh as [(g & Hg & Hp & Hn) Hfresh']%Forall_cons. simpl in *.
  destruct (pools_inv_paged _ _ _ _ _ _ _ (pl_pools _ _ Hinv) Hg Hp) as (p & Hpool & _).
  apply get_some_Some in Hpool. simpl in Hpool.
  assert (gi < length pools)%nat as Hlt.
  { apply get_some_Some in Hpool. by eapply lookup_lt_Some. }
  destruct (p_free p) as [|f fs] eqn:Hfree.
  { rewrite (place_one_exhausted pools seqs s gi idx end_ mc p Hinv Hpool Hfree).
    exists 0%nat, pools, s, (Some (PoolExhausted gi 1 0 1 end_ mc)).
    rewrite insert_id by apply Hinv. rewrite Nat.add_0_r.
    split_and!; try done; try apply placed_nil; try (intros; simpl; lia).
    exists gi, idx. split_and!; try done. unfold free_len. by rewrite Hpool, Hfree. }
  destruct (place_one_ok pools seqs s gi g idx end_ mc p Hinv Hg Hp Hn Hpool) as
    (id & p' & Ha & Hin & Hf & Hplace & Hinv'); [by rewrite Hfree|].
  rewrite Hplace.
  destruct (IH (S n) _ _ _ Hinv') as (k & pools' & s' & failure & Hl & Hi & Hpl & Hk & Hc & Hm).
  { by apply NoDup_cons in Hnd as [_ ?]. }
  { eapply fresh_put; try done. apply Hinv. }
  exists (S k), pools', s', failure. rewrite Hl, insert_insert_eq in *.
  split_and!; try done.
  - do 3 f_equal. lia.
  - simpl. eapply placed_put; try done. apply Hinv.
  - lia.
  - intros gj. specialize (Hc gj). rewrite free_len_insert in Hc by done. simpl.
    unfold count_in in *. rewrite filter_cons. simpl.
    destruct (decide (gj = gi)) as [->|Hne].
    + rewrite decide_True by done. simpl. unfold free_len at 1. rewrite Hpool.
      apply Permutation_length in Hf. simpl in Hf. lia.
    + rewrite decide_False by done. lia.
  - destruct failure; [done|]. by f_equal.
Qed.

(** ** The rollback *)

Lemma unplace_ok pools seqs s gi g idx id :
  placing_inv (pools, seqs) s → groups !! gi = Some g → is_paged (g_spec g) = true →
  page_map_of gi s !! idx = Some id →
  ∃ p, unplace seq (gi, idx) (pools, seqs) =
         (Ok tt, (<[gi := Some (give_block id p)]> pools, <[seq := cut_block gi idx s]> seqs)) ∧
       placing_inv (<[gi := Some (give_block id p)]> pools, <[seq := cut_block gi idx s]> seqs)
         (cut_block gi idx s).
Proof.
  intros [Hseq Hpools Hs] Hg Hp Hm. simpl in *.
  destruct (cut_block_spec gi g idx id s Hs Hg Hp Hm) as (Hki & Hkt & Hs' & _ & Ht & Hother).
  destruct (pools_inv_paged _ _ _ _ _ _ _ Hpools Hg Hp) as (p & Hp1 & Hinv).
  destruct (shape_table groups s gi g Hs Hg) as [Hti Hii].
  assert (owned (table_of gi) seqs ≡ₚ
    id :: owned (table_of gi) (<[seq := cut_block gi idx s]> seqs)) as Hown.
  { rewrite owned_update, (owned_lookup (table_of gi) seqs seq s Hseq), <- Ht. done. }
  pose proof Hinv as [Hpart Hst]. rewrite Hown in Hpart.
  destruct (block_owned p _ id Hpart) as [Hnf Hr]; [by left|].
  destruct (partitioned_give p id _ Hpart) as [Hpart' _].
  exists p. split.
  - unfold unplace. rewrite Hseq. simpl. rewrite Hii. simpl. rewrite Hti. simpl.
    rewrite decide_True by done. rewrite Hkt. simpl.
    rewrite (proj2 (get_some_Some gi pools p) Hp1).
    rewrite release_ok; [done|apply Hpart|lia|done].
  - split; simpl; [apply lookup_insert_eq| |done].
    eapply pools_inv_update; try done.
    intros gj Hne. destruct (Hother gj Hne) as [Heq _].
    by apply (owned_unchanged_seq (table_of gj) seqs s).
Qed.

Lemma unplace_all recs : ∀ pools seqs s,
  placing_inv (pools, seqs) s → NoDup recs →
  Forall (λ rec, ∃ g, groups !! rec.1 = Some g ∧ is_paged (g_spec g) = true ∧
                   rec.2 ∈ indices_of rec.1 s) recs →
  ∃ pools' s',
    sfor (unplace seq) recs (pools, seqs) = (Ok tt, (pools', <[seq := s']> seqs)) ∧
    placing_inv (pools', <[seq := s']> seqs) s' ∧ same_but_tables s s' ∧
    ∀ gi b, page_map_of gi s' !! b =
            if decide ((gi, b) ∈ recs) then None else page_map_of gi s !! b.
Proof.
  induction recs as [|[gi idx] recs IH]; intros pools seqs s Hinv Hnd Hf.
  { exists pools, s. simpl. rewrite insert_id by apply Hinv. done. }
  apply Forall_cons in Hf as [(g & Hg & Hp & Hin) Hf]. simpl in *.
  apply NoDup_cons in Hnd as [Hnin Hnd].
  pose proof (pl_shape _ _ Hinv) as Hs.
  pose proof (shape_aligned groups s gi g Hs Hg) as Ha.
  destruct (proj2 (page_map_dom _ _ idx Ha) Hin) as [id Hid].
  destruct (unplace_ok pools seqs s gi g idx id Hinv Hg Hp Hid) as (p & Hun & Hinv').
  destruct (cut_block_spec gi g idx id s Hs Hg Hp Hid) as (_ & _ & Hs' & Hm & _ & Hother).
  assert (∀ gj b, page_map_of gj (cut_block gi idx s) !! b =
    if decide ((gj, b) = (gi, idx)) then None else page_map_of gj s !! b) as Hcut.
  { intros gj b. destruct (decide (gj = gi)) as [->|Hne].
    - rewrite Hm. destruct (decide (b = idx)) as [->|].
      + rewrite decide_True by done. apply lookup_delete_eq.
      + rewrite decide_False by congruence. by rewrite lookup_delete_ne.
    - rewrite decide_False by congruence. unfold page_map_of.
      by destruct (Hother gj Hne) as [-> ->]. }
  destruct (IH _ _ _ Hinv' Hnd) as (pools' & s' & Hrun & Hi & Hsame & Hmap).
  { rewrite Forall_forall in *. intros [gj b] Hb. destruct (Hf _ Hb) as (h & Hh & Hph & Hbin).
    exists h. split_and!; [done..|]. simpl in *.
    apply (page_map_dom _ (table_of gj (cut_block gi idx s))); [by eapply shape_aligned|].
    fold (page_map_of gj (cut_block gi idx s)). rewrite Hcut, decide_False by congruence.
    apply page_map_dom; [by eapply shape_aligned|done]. }
  exists pools', s'. erewrite sbind_Ok by done. rewrite insert_insert_eq in *.
  split_and!; [done|done|by transitivity (cut_block gi idx s)|].
  intros gj b. rewrite Hmap, Hcut.
  destruct (decide ((gj, b) ∈ recs)) as [Hr|Hr].
  - by rewrite decide_True by (by right).
  - destruct (decide ((gj, b) = (gi, idx))) as [Heq|Hne].
    + rewrite decide_True; [done|]. rewrite Heq. by left.
    + rewrite decide_False; [done|]. by intros [?|?]%elem_of_cons.
Qed.
End placing.

(** ** The scan *)

Lemma elem_of_missing held first last b :
  ascending held → b ∈ missing_blocks held first last ↔ first ≤ b < last ∧ b ∉ held.
Proof.
  intros Ha. unfold missing_blocks. rewrite list_elem_of_filter, elem_of_zrange.
  rewrite ascending_pp_lookup by done. tauto.
Qed.

Lemma missing_NoDup held first last : NoDup (missing_blocks held first last).
Proof. apply NoDup_filter, NoDup_seqZ. Qed.

Lemma missing_length held first last :
  first ≤ last → Z.of_nat (length (missing_blocks held first last)) ≤ last - first.
Proof.
  intros H. unfold missing_blocks.
  pose proof (length_filter (λ idx, held !! partition_point (λ i, i <? idx) held ≠ Some idx)
    (zrange first last)). unfold zrange in *. rewrite length_seqZ in *. lia.
Qed.

(** The records of one group, and of all of them. *)
Definition group_recs (s : SeqState) (first last : Z) (gg : nat * LayerGroup) : list (nat * Z) :=
  if is_paged (g_spec gg.2)
  then map (pair gg.1) (missing_blocks (indices_of gg.1 s) first last) else [].

Definition missing_recs (s : SeqState) (first last : Z) (groups : list LayerGroup)
    : list (nat * Z) :=
  concat (map (group_recs s first last) (enumerate groups)).

Lemma scan_group_ok m s first last end_ gi g bpg scratch :
  manager_inv bpg m → seq_shape (m_groups m) s → m_groups m !! gi = Some g →
  0 ≤ first ≤ last → last ≤ 32768 →
  (length (group_recs s first last (gi, g)) ≤ free_len gi (m_pools m))%nat →
  scan_group m s first last end_ (gi, g) scratch =
  (Ok tt, scratch ++ group_recs s first last (gi, g)).
Proof.
  intros Hinv Hs Hg Hfl Hlast Hfree. unfold scan_group, group_recs in *. simpl in *.
  destruct (is_paged (g_spec g)) eqn:Hp; simpl; [|by rewrite app_nil_r].
  pose proof (lookup_lt_Some _ _ _ Hg) as Hlt. pose proof (mi_layout _ _ Hinv) as [Hl _].
  unfold MAX_GROUPS_HARD in Hl.
  destruct (shape_table _ s gi g Hs Hg) as [_ Hii].
  destruct (pools_inv_paged _ _ _ _ _ _ _ (mi_pools _ _ Hinv) Hg Hp) as (p & Hpool & Hpi).
  unfold free_len in Hfree. rewrite (proj2 (get_some_Some _ _ _) Hpool) in Hfree.
  rewrite length_map in Hfree.
  pose proof (missing_length (indices_of gi s) first last ltac:(lia)) as Hml.
  assert (Z.of_nat (length (p_free p)) ≤ MAX_SLOT_BLOCKS) as Hpf.
  { pose proof (mi_bpg _ _ Hinv). destruct Hpi as (Hpart & Ht & _).
    pose proof (block_count p _ ltac:(lia) Hpart). lia. }
  unfold MAX_SLOT_BLOCKS in Hpf.
  unfold sbind, slift, smodify, sret.
  rewrite try_from_ok by (unfold U32_MAX; lia). simpl. rewrite Hii. simpl.
  rewrite try_from_ok by (unfold U64_MAX; lia). simpl. rewrite Hpool. simpl.
  rewrite try_from_ok by (unfold U64_MAX; lia). simpl.
  destruct (Z.ltb_spec (Z.of_nat (length (p_free p)))
    (Z.of_nat (length (missing_blocks (indices_of gi s) first last)))); [lia|done].
Qed.

Lemma scan_group_short m s first last end_ gi g bpg scratch :
  manager_inv bpg m → seq_shape (m_groups m) s → m_groups m !! gi = Some g →
  0 ≤ first ≤ last → last ≤ 32768 →
  (free_len gi (m_pools m) < length (group_recs s first last (gi, g)))%nat →
  let want := Z.of_nat (length (group_recs s first last (gi, g))) in
  let free := Z.of_nat (free_len gi (m_pools m)) in
  scan_group m s first last end_ (gi, g) scratch =
  (Err (PoolExhausted gi want free (want - free) end_ (max_ctx (m_config m))),
   scratch ++ group_recs s first last (gi, g)).
Proof.
  intros Hinv Hs Hg Hfl Hlast Hfree. unfold scan_group, group_recs in *. simpl in *.
  destruct (is_paged (g_spec g)) eqn:Hp; simpl in *; [|lia].
  pose proof (lookup_lt_Some _ _ _ Hg) as Hlt. pose proof (mi_layout _ _ Hinv) as [Hl _].
  unfold MAX_GROUPS_HARD in Hl.
  destruct (shape_table _ s gi g Hs Hg) as [_ Hii].
  destruct (pools_inv_paged _ _ _ _ _ _ _ (mi_pools _ _ Hinv) Hg Hp) as (p & Hpool & Hpi).
  unfold free_len in *. rewrite (proj2 (get_some_Some _ _ _) Hpool) in *.
  rewrite length_map in *.
  pose proof (missing_length (indices_of gi s) first last ltac:(lia)) as Hml.
  unfold sbind, slift, smodify, sret, sfail.
  rewrite try_from_ok by (unfold U32_MAX; lia). simpl. rewrite Hii. simpl.
  rewrite try_from_ok by (unfold U64_MAX; lia). simpl. rewrite Hpool. simpl.
  rewrite try_from_ok by (unfold U64_MAX; lia). simpl.
  destruct (Z.ltb_spec (Z.of_nat (length (p_free p)))
    (Z.of_nat (length (missing_blocks (indices_of gi s) first last)))); [|lia].
  rewrite !try_from_ok by (unfold U32_MAX; lia). simpl.
  rewrite checked_sub_ok by lia. done.
Qed.

Lemma scan_all_ok m s first last end_ bpg l : ∀ scratch,
  manager_inv bpg m → seq_shape (m_groups m) s → 0 ≤ first ≤ last → last ≤ 32768 →
  (∀ gi g, (gi, g) ∈ l → m_groups m !! gi = Some g ∧
     (length (group_recs s first last (gi, g)) ≤ free_len gi (m_pools m))%nat) →
  sfor (scan_group m s first last end_) l scratch =
  (Ok tt, scratch ++ concat (map (group_recs s first last) l)).
Proof.
  induction l as [|[gi g] l IH]; intros scratch Hinv Hs Hfl Hlast Hl; simpl.
  { by rewrite app_nil_r. }
  destruct (Hl gi g ltac:(by left)) as [Hg Hf].
  erewrite sbind_Ok; [|by eapply scan_group_ok]. rewrite IH; try done.
  - by rewrite (assoc_L (++)).
  - intros. apply Hl. by right.
Qed.

(** The first group that lacks blocks, when there is one. *)
Lemma first_short (P : nat * LayerGroup → Prop) `{∀ x, Decision (P x)} l :
  Forall P l ∨ ∃ l1 x l2, l = l1 ++ x :: l2 ∧ Forall P l1 ∧ ¬ P x.
Proof.
  induction l as [|x l IH]; [by left; constructor|].
  destruct (decide (P x)) as [Hx|Hx]; [|by right; exists [], x, l].
  destruct IH as [IH|(l1 & y & l2 & -> & H1 & H2)]; [by left; constructor|].
  right. exists (x :: l1), y, l2. split_and!; [done|by constructor|done].
Qed.

Lemma elem_of_group_recs s first last gi g gj b :
  ascending (indices_of gi s) →
  (gj, b) ∈ group_recs s first last (gi, g) ↔
  gj = gi ∧ is_paged (g_spec g) = true ∧ first ≤ b < last ∧ b ∉ indices_of gi s.
Proof.
  intros Ha. unfold group_recs. simpl. destruct (is_paged (g_spec g)).
  - change (map ?f) with (fmap (M:=list) f). rewrite list_elem_of_fmap.
    setoid_rewrite elem_of_missing; [|done]. naive_solver.
  - rewrite elem_of_nil. naive_solver.
Qed.

Lemma elem_of_missing_recs groups s first last gi b :
  seq_shape groups s →
  (gi, b) ∈ missing_recs s first last groups ↔
  ∃ g, groups !! gi = Some g ∧ is_paged (g_spec g) = true ∧
    first ≤ b < last ∧ b ∉ indices_of gi s.
Proof.
  intros Hs. unfold missing_recs. rewrite elem_of_concat_map. split.
  - intros ([gj g] & Hg & Hb). apply elem_of_enumerate in Hg.
    apply elem_of_group_recs in Hb as (-> & ? & ? & ?); [eauto|].
    by apply (shape_aligned groups s gj g Hs Hg).
  - intros (g & Hg & Hp & Hb & Hn). exists (gi, g). split.
    + by apply elem_of_enumerate.
    + apply elem_of_group_recs; [by apply (shape_aligned groups s gi g Hs Hg)|done].
Qed.

Lemma group_recs_NoDup s first last gg : NoDup (group_recs s first last gg).
Proof.
  unfold group_recs. destruct (is_paged _); [|constructor].
  apply (NoDup_fmap_2 (pair gg.1)), missing_NoDup.
Qed.

Lemma recs_NoDup s first last l :
  NoDup l.*1 → NoDup (concat (map (group_recs s first last) l)).
Proof.
  induction l as [|[gi g] l IH]; simpl; [constructor|]. intros [Hn Hl]%NoDup_cons.
  apply NoDup_app. split_and!; [apply group_recs_NoDup| |by apply IH].
  intros [gj b] H1 H2. apply Hn. apply elem_of_concat_map in H2 as ([gk h] & Hin & Hb).
  assert (∀ gi g, (gj, b) ∈ group_recs s first last (gi, g) → gj = gi) as Hfst.
  { intros gl k. unfold group_recs. simpl. destruct (is_paged _); [|by intros ?%elem_of_nil].
    intros (? & [= -> _] & _)%list_elem_of_fmap. done. }
  rewrite <- (Hfst _ _ H1), (Hfst _ _ Hb). by apply (list_elem_of_fmap_2 fst _ (gk, h)).
Qed.

Lemma enumerate_fst {A} (l : list A) : (enumerate l).*1 = seq 0 (length l).
Proof.
  apply list_eq. intros i. rewrite list_lookup_fmap. unfold enumerate.
  rewrite list_lookup_imap. destruct (l !! i) as [x|] eqn:Hi; simpl.
  - symmetry. apply lookup_seq. split; [lia|]. by eapply lookup_lt_Some.
  - symmetry. apply lookup_seq_ge. by apply lookup_ge_None.
Qed.

Lemma missing_recs_NoDup s first last groups : NoDup (missing_recs s first last groups).
Proof. apply recs_NoDup. rewrite enumerate_fst. apply NoDup_seq. Qed.

Lemma missing_recs_count groups s first last gi :
  seq_shape groups s →
  (count_in gi (missing_recs s first last groups) ≤
   match groups !! gi with
   | Some g => length (group_recs s first last (gi, g))
   | None => 0
   end)%nat.
Proof.
  intros Hs. unfold count_in.
  assert (∀ r, r ∈ filter (λ r : nat * Z, r.1 = gi) (missing_recs s first last groups) →
    ∃ g, groups !! gi = Some g ∧ r ∈ group_recs s first last (gi, g)) as Hin.
  { intros [gj b]. rewrite list_elem_of_filter. simpl. intros [-> Hr].
    apply (elem_of_missing_recs groups) in Hr as (g & Hg & ?); [|done].
    exists g. split; [done|].
    apply elem_of_group_recs; [by apply (shape_aligned groups s gi g Hs Hg)|done]. }
  destruct (groups !! gi) as [g|] eqn:Hg.
  - apply submseteq_length, NoDup_submseteq; [apply NoDup_filter, missing_recs_NoDup|].
    intros r Hr. by destruct (Hin r Hr) as (? & [= <-] & ?).
  - destruct (filter _ _) as [|r rs]; [done|]. destruct (Hin r ltac:(by left)) as (? & ? & _). done.
Qed.

(** ** The window law under a reservation *)

Lemma spec_window_start_bounds s ctx :
  spec_u32 s → 0 ≤ ctx → 0 ≤ spec_window_start s ctx ≤ ctx.
Proof.
  intros Hu Hc. unfold spec_window_start, window_start_of.
  destruct s as [? ? ? ? r|? ? ? r|? ? ?|? ?]; simpl in *; try lia;
    destruct r as [|w|n w]; simpl in *; unfold is_u32 in *; try lia;
    destruct (Z.leb_spec w ctx); lia.
Qed.

Lemma retained_recent s ctx b :
  spec_u32 s → 0 ≤ ctx → ctx / BLOCK_TOKENS ≤ b → retained s ctx b.
Proof.
  intros Hu Hc Hb. right. destruct (spec_window_start_bounds s ctx Hu Hc).
  etransitivity; [|done]. apply Z.div_le_mono; unfold BLOCK_TOKENS; lia.
Qed.

Lemma window_law_reserve mb s ctx end_ held held' :
  spec_u32 s → 0 ≤ ctx ≤ end_ → div_ceil end_ BLOCK_TOKENS ≤ mb →
  window_law mb s ctx ctx held →
  (∀ b, b ∈ held' ↔ b ∈ held ∨ ctx / BLOCK_TOKENS ≤ b < div_ceil end_ BLOCK_TOKENS) →
  window_law mb s ctx end_ held'.
Proof.
  intros Hu Hc Hmb (hw & Hhw & Hheld) Hheld'.
  exists (Z.max hw (div_ceil end_ BLOCK_TOKENS)). split; [lia|].
  pose proof (div_le_div_ceil ctx BLOCK_TOKENS ltac:(done)).
  assert (0 ≤ ctx / BLOCK_TOKENS) by (apply Z.div_pos; unfold BLOCK_TOKENS; lia).
  intros b. rewrite Hheld', Hheld. split.
  - intros [[? ?]|?]; [split; [lia|done]|]. split; [lia|]. apply retained_recent; tauto.
  - intros [? ?]. destruct (Z.lt_ge_cases b hw); [left; split; [lia|done]|right; lia].
Qed.

(** ** [place_reserve_blocks] *)

Section place_blocks.
Context (bpg cap : Z) (groups : list LayerGroup) (seq : Z).

(** Enough free blocks: every record is placed. *)
Lemma place_blocks_ok end_ mc recs pools seqs s :
  placing_inv bpg cap groups seq (pools, seqs) s → NoDup recs →
  Forall (fresh_rec groups s) recs →
  (∀ gi, count_in gi recs ≤ free_len gi pools)%nat →
  ∃ pools' s',
    place_blocks seq end_ mc recs (pools, seqs) = (Ok tt, (pools', <[seq := s']> seqs)) ∧
    placing_inv bpg cap groups seq (pools', <[seq := s']> seqs) s' ∧ placed recs s s' ∧
    (∀ gi, free_len gi pools = free_len gi pools' + count_in gi recs)%nat.
Proof.
  intros Hinv Hnd Hfresh Hcount. unfold place_blocks.
  destruct (place_loop_gen bpg cap groups seq end_ mc recs 0 pools seqs s Hinv Hnd Hfresh)
    as (k & pools' & s' & failure & Hrun & Hinv' & Hpl & Hk & Hc & Hfail).
  erewrite sbind_Ok by done. destruct failure as [e|].
  - exfalso. destruct Hfail as (gi & idx & Hki & Hfree & _). specialize (Hcount gi).
    rewrite (Hc gi), Hfree in Hcount.
    rewrite <- (take_drop_middle recs k _ Hki) in Hcount at 1.
    unfold count_in in Hcount. rewrite filter_app, length_app, filter_cons_True in Hcount by done.
    simpl in Hcount. lia.
  - subst k. rewrite firstn_all in *. exists pools', s'. done.
Qed.

(** A placing pass that runs out of blocks half way undoes the prefix it
    placed and leaves the pools and the sequences exactly as they were. *)
Theorem place_blocks_rollback end_ mc recs pools seqs s gi :
  placing_inv bpg cap groups seq (pools, seqs) s → NoDup recs →
  Forall (fresh_rec groups s) recs →
  (free_len gi pools < count_in gi recs)%nat →
  ∃ gj, place_blocks seq end_ mc recs (pools, seqs) =
    (Err (PoolExhausted gj 1 0 1 end_ mc), (pools, seqs)).
Proof.
  intros Hinv Hnd Hfresh Hcount. unfold place_blocks.
  destruct (place_loop_gen bpg cap groups seq end_ mc recs 0 pools seqs s Hinv Hnd Hfresh)
    as (k & pools' & s' & failure & Hrun & Hinv' & Hpl & Hk & Hc & Hfail).
  erewrite sbind_Ok by done. destruct failure as [e|].
  2: { exfalso. subst k. rewrite firstn_all in Hc. specialize (Hc gi). lia. }
  destruct Hfail as (gj & idx & _ & _ & ->). exists gj. simpl.
  destruct Hpl as (Hsame & Hin & Hsub).
  destruct (unplace_all bpg cap groups seq (take k recs) pools' (<[seq := s']> seqs) s' Hinv')
    as (pools'' & s'' & Hun & Hinv'' & Hsame' & Hmap).
  { by apply NoDup_take. }
  { rewrite Forall_forall in Hfresh |- *. intros r Hr.
    assert (r ∈ recs) as Hr' by by by eapply subseteq_take.
    destruct (Hfresh r Hr') as (g & Hg & Hp & _). exists g. split_and!; [done..|].
    apply Hin. right. by destruct r. }
  erewrite sbind_Ok by done. rewrite insert_insert_eq in *.
  assert (s'' = s) as ->.
  { symmetry. apply (seq_shape_unique groups); [apply Hinv|apply Hinv''|by etransitivity|].
    intros gl g Hg. apply map_eq. intros b. rewrite Hmap.
    pose proof (shape_aligned groups s gl g (pl_shape _ _ _ _ _ _ Hinv) Hg) as Ha.
    case_decide as Hr.
    - apply eq_None_not_Some. unfold page_map_of. rewrite page_map_dom by done.
      rewrite Forall_forall in Hfresh.
      assert ((gl, b) ∈ recs) as Hr' by by by eapply subseteq_take.
      by destruct (Hfresh _ Hr') as (? & _ & _ & ?).
    - destruct (page_map_of gl s !! b) as [id|] eqn:Hid.
      + symmetry. by eapply lookup_weaken.
      + symmetry. apply eq_None_not_Some.
        pose proof (shape_aligned groups s' gl g (pl_shape _ _ _ _ _ _ Hinv') Hg) as Ha'.
        unfold page_map_of. rewrite page_map_dom by done. rewrite Hin.
        intros [Hb|Hb]; [|done]. apply eq_None_not_Some in Hid. apply Hid.
        by apply page_map_dom. }
  assert (pools'' = pools) as ->.
  { eapply pools_inv_unique; [|apply Hinv]. simpl.
    rewrite <- (insert_id seqs seq s) by apply Hinv. apply Hinv''. }
  unfold sfail. rewrite insert_id by apply Hinv. done.
Qed.
End place_blocks.

(** ** [reserve] *)

Definition first_block (s : SeqState) : Z := q_ctx_len s / BLOCK_TOKENS.
Definition last_block (s : SeqState) (n : Z) : Z := div_ceil (q_ctx_len s + n) BLOCK_TOKENS.

(** The blocks a reservation of [n] tokens lacks in group [gi]. *)
Definition needs (s : SeqState) (n : Z) (gi : nat) (g : LayerGroup) : nat :=
  length (group_recs s (first_block s) (last_block s n) (gi, g)).

(** Why a reservation is refused, with the numbers it reports. *)
Inductive reserve_refused (m : StateManager) (seq n : Z) : StateError → Prop :=
| rr_unknown : m_seqs m !! seq = None → reserve_refused m seq n (UnknownSeq seq)
| rr_count s : m_seqs m !! seq = Some s → n = 0 ∨ MAX_RESERVE_HARD < n →
    reserve_refused m seq n (InvalidReserve n (q_tail_len s))
| rr_open s : m_seqs m !! seq = Some s → q_tail_len s ≠ 0 →
    reserve_refused m seq n (InvalidReserve n (q_tail_len s))
| rr_large s : m_seqs m !! seq = Some s → q_tail_len s = 0 →
    max_ctx (m_config m) < q_ctx_len s + n →
    reserve_refused m seq n (ReserveTooLarge (q_ctx_len s + n) (max_ctx (m_config m)) n)
| rr_exhausted s gi g : m_seqs m !! seq = Some s → q_tail_len s = 0 →
    q_ctx_len s + n ≤ max_ctx (m_config m) → m_groups m !! gi = Some g →
    (free_len gi (m_pools m) < needs s n gi g)%nat →
    (∀ gj h, (gj < gi)%nat → m_groups m !! gj = Some h →
       (needs s n gj h ≤ free_len gj (m_pools m))%nat) →
    let want := Z.of_nat (needs s n gi g) in
    let free := Z.of_nat (free_len gi (m_pools m)) in
    reserve_refused m seq n
      (PoolExhausted gi want free (want - free) (q_ctx_len s + n) (max_ctx (m_config m))).

(** When a reservation is admitted. *)
Record reserve_admitted (m : StateManager) (seq n : Z) (s : SeqState) : Prop := {
  ra_seq : m_seqs m !! seq = Some s;
  ra_n : 0 < n ≤ MAX_RESERVE_HARD;
  ra_tail : q_tail_len s = 0;
  ra_end : q_ctx_len s + n ≤ max_ctx (m_config m);
  ra_room gi g : m_groups m !! gi = Some g →
    (needs s n gi g ≤ free_len gi (m_pools m))%nat
}.

(** What an admitted reservation does: the missing blocks of the range are
    mapped in every paged group, mapped ones keep their ids, and nothing of
    the manager but the pools, this sequence and the scratch moves. *)
Record reserve_done (m : StateManager) (seq n : Z) (s s' : SeqState) (m' : StateManager) : Prop := {
  rd_manager : m' = set_scratch (m_reserve_scratch m')
                      (set_store (m_pools m') (m_fixed m) (<[seq := s']> (m_seqs m)) m);
  rd_state : s' = set_lens (q_ctx_len s) n None (set_tables (q_tables s') (q_indices s') s);
  rd_mapped gi g b : m_groups m !! gi = Some g → is_paged (g_spec g) = true →
    b ∈ indices_of gi s' ↔ b ∈ indices_of gi s ∨ first_block s ≤ b < last_block s n;
  rd_kept gi : page_map_of gi s ⊆ page_map_of gi s';
  rd_taken gi g : m_groups m !! gi = Some g →
    (free_len gi (m_pools m') = free_len gi (m_pools m) - needs s n gi g)%nat
}.

Lemma first_last_bounds c s n :
  config_ok c → 0 ≤ q_ctx_len s → 0 < n → q_ctx_len s + n ≤ max_ctx c →
  0 ≤ first_block s ≤ last_block s n ∧ last_block s n ≤ max_blocks c.
Proof.
  intros Hc Hctx Hn Hend. destruct (config_blocks c Hc) as [Hmb Heq].
  unfold first_block, last_block.
  assert (0 < BLOCK_TOKENS) by done.
  pose proof (div_ceil_mul_le (q_ctx_len s + n) (max_blocks c) BLOCK_TOKENS ltac:(done) ltac:(lia)).
  pose proof (div_le_div_ceil (q_ctx_len s) BLOCK_TOKENS ltac:(done)).
  pose proof (div_ceil_mono (q_ctx_len s) (q_ctx_len s + n) BLOCK_TOKENS ltac:(done) ltac:(lia)).
  assert (0 ≤ q_ctx_len s / BLOCK_TOKENS) by (apply Z.div_pos; lia). lia.
Qed.

(** The second pass and the closing writes, after a scan that found room. *)
Lemma reserve_place bpg m seq n s :
  manager_inv bpg m → reserve_admitted m seq n s →
  let recs := missing_recs s (first_block s) (last_block s n) (m_groups m) in
  ∃ s' m',
    (let! _ := place_reserve_blocks seq (q_ctx_len s + n) in
     let! _ := seq_mut seq (smodify (λ s, set_lens (q_ctx_len s) n None s)) in
     sret {| r_seq := seq; r_start := q_ctx_len s; r_len := n |}) (set_scratch recs m) =
    (Ok {| r_seq := seq; r_start := q_ctx_len s; r_len := n |}, m') ∧
    reserve_done m seq n s s' m' ∧ seq_shape (m_groups m) s' ∧
    pools_inv bpg (max_seqs (m_config m)) (m_groups m) (m_pools m') (m_seqs m').
Proof.
  intros Hinv [Hseq Hn Htail Hend Hroom] recs.
  pose proof (so_shape _ _ _ (proj2 (mi_seqs _ _ Hinv seq s Hseq))) as Hs.
  assert (placing_inv bpg (max_seqs (m_config m)) (m_groups m) seq (m_pools m, m_seqs m) s) as Hpi
    by (split; [done|apply Hinv|done]).
  destruct (place_blocks_ok bpg (max_seqs (m_config m)) (m_groups m) seq (q_ctx_len s + n)
    (max_ctx (m_config m)) recs (m_pools m) (m_seqs m) s Hpi)
    as (pools' & s1 & Hrun & Hinv1 & (Hsame & Hin & Hsub) & Hc).
  { apply missing_recs_NoDup. }
  { apply Forall_forall. intros [gi b] Hr.
    apply (elem_of_missing_recs (m_groups m)) in Hr as (g & Hg & Hp & _ & Hnot); [|done].
    by exists g. }
  { intros gi. etransitivity; [by apply missing_recs_count|].
    destruct (m_groups m !! gi) as [g|] eqn:Hg; [by apply Hroom|lia]. }
  exists (set_lens (q_ctx_len s1) n None s1).
  eexists. split; [|split; [split|]].
  - unfold place_reserve_blocks, szoom. unfold sbind at 1. simpl. rewrite Hrun.
    unfold sbind, seq_mut, smodify, sret. simpl. rewrite lookup_insert_eq, insert_insert_eq.
    reflexivity.
  - reflexivity.
  - simpl. rewrite Hsame. done.
  - intros gi g b Hg Hp. simpl.
    change (indices_of gi (set_lens (q_ctx_len s1) n None s1)) with (indices_of gi s1).
    rewrite Hin. unfold recs. rewrite elem_of_missing_recs by done. split.
    + intros [?|(? & _ & _ & ? & _)]; tauto.
    + intros [?|Hb]; [by left|]. destruct (decide (b ∈ indices_of gi s)); [by left|].
      right. eauto.
  - apply Hsub.
  - intros gi g Hg. simpl. specialize (Hc gi). specialize (Hroom gi g Hg).
    assert (count_in gi recs = needs s n gi g) as Hcn; [|lia].
    unfold needs, count_in, recs.
    apply Permutation_length, NoDup_Permutation;
      [apply NoDup_filter, missing_recs_NoDup|apply group_recs_NoDup|].
    intros [gj b]. rewrite list_elem_of_filter, elem_of_missing_recs by done.
    rewrite elem_of_group_recs by by apply (shape_aligned (m_groups m) s gi g Hs Hg).
    simpl. naive_solver.
  - split; [by apply (seq_shape_ext _ s1), Hinv1|]. simpl.
    eapply pools_inv_same; [apply Hinv1|]. intros gi. simpl. by rewrite !owned_update.
Qed.

Lemma seq_state_Some m seq s : m_seqs m !! seq = Some s → seq_state seq m = Ok s.
Proof. unfold seq_state. by intros ->. Qed.
Lemma seq_state_None m seq : m_seqs m !! seq = None → seq_state seq m = Err (UnknownSeq seq).
Proof. unfold seq_state. by intros ->. Qed.

Lemma reserve_cases bpg m seq n :
  manager_inv bpg m → 0 ≤ n →
  match reserve seq n m with
  | (Err e, m') => reserve_refused m seq n e ∧ m' = set_scratch (m_reserve_scratch m') m
  | (Ok r, m') => ∃ s s', reserve_admitted m seq n s ∧ reserve_done m seq n s s' m' ∧
      r = {| r_seq := seq; r_start := q_ctx_len s; r_len := n |} ∧
      seq_shape (m_groups m) s' ∧
      pools_inv bpg (max_seqs (m_config m)) (m_groups m) (m_pools m') (m_seqs m')
  | (Panic, _) => False
  end.
Proof.
  intros Hinv Hn0.
  assert (m = set_scratch (m_reserve_scratch m) m) as Hself by by destruct m.
  unfold reserve.
  destruct (m_seqs m !! seq) as [s|] eqn:Hseq.
  2: { destruct ((n =? 0) || (MAX_RESERVE_HARD <? n)); unfold sbind, sread, tail_len;
         cbv beta; rewrite seq_state_None by done; simpl; by repeat constructor. }
  pose proof (mi_seqs _ _ Hinv seq s Hseq) as [_ Hok].
  destruct (Z.eqb_spec n 0) as [->|Hn]; [|destruct (Z.ltb_spec MAX_RESERVE_HARD n) as [Hmax|Hmax]].
  1-2: cbn [orb]; unfold sbind, sread, tail_len; cbv beta; rewrite (seq_state_Some m seq s) by done; simpl;
         split; [|done]; apply rr_count; [done|lia].
  simpl. unfold sbind at 1, sread at 1. rewrite (seq_state_Some m seq s) by done. simpl.
  destruct (Z.eqb_spec (q_tail_len s) 0) as [Htail|Htail]; simpl.
  2: { split; [by apply rr_open|done]. }
  pose proof (mi_config _ _ Hinv) as Hc. pose proof Hc as (Hctx & _ & _).
  pose proof (so_ctx _ _ _ Hok) as Hc0. pose proof (so_end _ _ _ Hok) as Hce.
  unfold MAX_CTX_HARD, MAX_RESERVE_HARD in *.
  erewrite sbind_Ok; [|unfold slift; by rewrite checked_add_ok by (unfold U32_MAX; lia)].
  erewrite sbind_Ok by done.
  destruct (Z.ltb_spec (max_ctx (m_config m)) (q_ctx_len s + n)) as [Hlarge|Hfit].
  { simpl. split; [by apply rr_large|done]. }
  destruct (first_last_bounds _ s n Hc Hc0 ltac:(lia) Hfit) as [Hfl Hlast].
  destruct (config_blocks _ Hc) as [Hmb _].
  erewrite sbind_Ok by done. erewrite sbind_Ok.
  2: { unfold sread. by rewrite (seq_state_Some _ seq s). }
  fold (first_block s) (last_block s n).
  unfold szoom at 1. unfold sbind at 1. simpl.
  set (P := λ gg : nat * LayerGroup, (needs s n gg.1 gg.2 ≤ free_len gg.1 (m_pools m))%nat).
  pose proof (so_shape _ _ _ Hok) as Hs.
  destruct (first_short P (enumerate (m_groups m))) as [Hall|(l1 & [gi g] & l2 & Hl & H1 & H2)].
  - rewrite Forall_forall in Hall.
    rewrite (scan_all_ok m s (first_block s) (last_block s n) (q_ctx_len s + n) bpg
      (enumerate (m_groups m)) []); try done; [|lia|].
    2: { intros gi g Hg. split; [by apply elem_of_enumerate|]. by apply (Hall (gi, g)). }
    simpl. assert (reserve_admitted m seq n s) as Had.
    { split; [done|unfold MAX_RESERVE_HARD; lia|done|done|].
      intros gi g Hg. apply (Hall (gi, g)). by apply elem_of_enumerate. }
    destruct (reserve_place bpg m seq n s Hinv Had) as (s' & m' & Hrun & Hdone & Hsh & Hpo).
    unfold missing_recs in Hrun. change (set_scratch ?x (set_scratch [] m)) with (set_scratch x m).
    rewrite Hrun. exists s, s'. done.
  - assert (∀ gj h, (gj, h) ∈ enumerate (m_groups m) → m_groups m !! gj = Some h) as Hen
      by (intros; by apply elem_of_enumerate).
    rewrite Forall_forall in H1. rewrite Hl, sfor_app. unfold sbind at 1.
    rewrite (scan_all_ok m s _ _ (q_ctx_len s + n) bpg l1 []); try done; [|lia|].
    2: { intros gj h Hj. split; [apply Hen; rewrite Hl; set_solver|]. by apply (H1 (gj, h)). }
    simpl. unfold sbind at 1.
    assert (m_groups m !! gi = Some g) as Hg by (apply Hen; rewrite Hl; set_solver).
    rewrite (scan_group_short m s _ _ (q_ctx_len s + n) gi g bpg) by (done || lia || (unfold P, needs in H2; simpl in *; lia)).
    simpl. split; [|done]. apply rr_exhausted with (g := g); try done.
    + unfold P in H2. simpl in H2. lia.
    + intros gj h Hlt Hh. apply (H1 (gj, h)).
      assert (enumerate (m_groups m) !! gj = Some (gj, h)) as Hj by by apply enumerate_lookup.
      assert (length l1 = gi) as Hgl.
      { assert (enumerate (m_groups m) !! length l1 = Some (gi, g)) as Hx.
        { rewrite Hl, lookup_app_r, Nat.sub_diag by lia. done. }
        by apply enumerate_lookup in Hx as [? _]. }
      rewrite Hl, lookup_app_l in Hj by lia. by eapply list_elem_of_lookup_2.
Qed.

Lemma reserve_done_inv bpg m seq n s s' m' :
  manager_inv bpg m → reserve_admitted m seq n s → reserve_done m seq n s s' m' →
  seq_shape (m_groups m) s' →
  pools_inv bpg (max_seqs (m_config m)) (m_groups m) (m_pools m') (m_seqs m') →
  manager_inv bpg m'.
Proof.
  intros Hinv [Hseq Hn Htail Hend _] [Hm Hst Hmap _ _] Hsh Hpo.
  pose proof (mi_seqs _ _ Hinv seq s Hseq) as [_ Hok].
  pose proof (mi_config _ _ Hinv) as Hc. pose proof (so_ctx _ _ _ Hok) as Hc0.
  eapply (manager_inv_update bpg m m' seq s s'); try done; try (rewrite Hm; done);
    try (rewrite Hm; apply Hinv); [by rewrite Hst|].
  split; [done|rewrite Hst; simpl; lia..| |].
  - intros gi g Hg Hp.
    assert (q_ctx_len s' = q_ctx_len s ∧ q_tail_len s' = n) as [-> ->] by by rewrite Hst.
    pose proof (so_law _ _ _ Hok gi g Hg Hp) as Hlaw. rewrite Htail, Z.add_0_r in Hlaw.
    destruct (first_last_bounds _ s n Hc Hc0 ltac:(lia) Hend) as [_ Hlast].
    eapply window_law_reserve; [|split; [done|]|done|done|].
    + by destruct (mi_layout _ _ Hinv) as [_ Hl]; destruct (Hl gi g Hg) as [_ [? _]].
    + lia.
    + intros b. by rewrite (Hmap gi g b Hg Hp).
  - intros gi pos tok Hmir. assert (q_mirror s' = q_mirror s) as Heq by by rewrite Hst.
    rewrite Heq in Hmir. destruct (so_mirror _ _ _ Hok gi pos tok Hmir) as (H0 & g & Hg & Hp & Hin).
    split; [done|]. exists g. split_and!; [done..|]. apply (Hmap gi g); [done..|by left].
Qed.

(** C8: [reserve] either refuses, for one of the listed reasons and with their
    numbers, changing nothing but its scratch vector, or admits the range and
    maps exactly its missing blocks; it never panics. *)
Theorem reserve_spec m seq n :
  manager_ok m → 0 ≤ n →
  match reserve seq n m with
  | (Err e, m') => reserve_refused m seq n e ∧ m' = set_scratch (m_reserve_scratch m') m
  | (Ok r, m') => ∃ s s', reserve_admitted m seq n s ∧ reserve_done m seq n s s' m' ∧
      r = {| r_seq := seq; r_start := q_ctx_len s; r_len := n |}
  | (Panic, _) => False
  end.
Proof.
  intros [bpg Hinv] Hn. pose proof (reserve_cases bpg m seq n Hinv Hn) as Hr.
  destruct (reserve seq n m) as [[r|e|] m']; [|done|done].
  destruct Hr as (s & s' & ? & ? & ? & _ & _). by exists s, s'.
Qed.

Lemma reserve_inv bpg m seq n :
  manager_inv bpg m → 0 ≤ n → manager_inv bpg (snd (reserve seq n m)).
Proof.
  intros Hinv Hn. pose proof (reserve_cases bpg m seq n Hinv Hn) as Hr.
  destruct (reserve seq n m) as [[r|e|] m']; simpl.
  - destruct Hr as (s & s' & Had & Hd & _ & Hsh & Hpo). by eapply reserve_done_inv.
  - destruct Hr as [_ ->]. by apply manager_inv_scratch.
  - done.
Qed.

Lemma reserve_spec_witness :
  match reserve 7 5 demo with
  | (Err e, m') => reserve_refused demo 7 5 e
  | _ => False
  end ∧ fst (reserve 7 5 demo) = Err (UnknownSeq 7).
Proof.
  split; [|reflexivity].
  pose proof (reserve_spec demo 7 5 demo_ok ltac:(lia)) as H.
  destruct (reserve 7 5 demo) as [[r|e|] m'] eqn:Hr.
  - vm_compute in Hr. discriminate Hr.
  - exact (proj1 H).
  - exact H.
Defined.
