(* ===== verification/Admission.v ===== *)
(** * Admission and release of sequences

    [new_seq] and [free_seq] of [crates/r9v-state/src/manager.rs]: when a
    sequence is admitted, the slots it gets, and that releasing it gives back
    exactly what it held. *)

From S2P Require Import Prelude Errors Spec Table Pools Manager Invariant Construct Reserve.

#[global] Open Scope Z_scope.

(** ** Fixed slots *)

Lemma owned_length (f : SeqState → list Z) seqs n :
  (∀ k s, seqs !! k = Some s → length (f s) = n) →
  length (owned f seqs) = (size seqs * n)%nat.
Proof.
  induction seqs as [|k s seqs Hk IH] using map_ind; intros Hf; [done|].
  rewrite owned_insert by done. rewrite length_app, map_size_insert_None by done.
  rewrite (Hf k s) by apply lookup_insert_eq. rewrite IH; [lia|].
  intros j t Hj. apply (Hf j). rewrite lookup_insert_ne by congruence. done.
Qed.

Lemma fixed_pool_inv_unique bpg cap groups gi g p p' ids :
  fixed_pool_inv bpg cap groups gi g p ids → fixed_pool_inv bpg cap groups gi g p' ids → p = p'.
Proof.
  intros ([_ Hp] & Ht & Hs & Hb & Ho) ([_ Hp'] & Ht' & Hs' & Hb' & Ho').
  assert (f_free p = f_free p') as Hf.
  { simpl in *. rewrite Ht in Hp. rewrite Ht', <- Hp in Hp'.
    apply Permutation_app_inv_r in Hp'. apply set_eq. intros x.
    rewrite <- !elem_of_elements. by rewrite Hp'. }
  destruct p, p'. simpl in *. congruence.
Qed.

Lemma fixed_inv_unique bpg cap groups fixed fixed' seqs :
  fixed_inv bpg cap groups fixed seqs → fixed_inv bpg cap groups fixed' seqs → fixed = fixed'.
Proof.
  intros [Hl Hp] [Hl' Hp']. apply list_eq. intros gi.
  destruct (groups !! gi) as [g|] eqn:Hg.
  - specialize (Hp gi g Hg). specialize (Hp' gi g Hg). destruct (is_paged (g_spec g)).
    + congruence.
    + destruct Hp as (p & -> & Hi), Hp' as (p' & -> & Hi').
      by rewrite (fixed_pool_inv_unique _ _ _ _ _ _ _ _ Hi Hi').
  - apply lookup_ge_None in Hg. rewrite !lookup_ge_None_2 by lia. done.
Qed.

Section take_slots.
Context (bpg cap : Z) (groups : list LayerGroup) (rest : nat → list Z).

(** The fixed pools while [new_seq] takes slots: what has been taken so far
    and what the live sequences hold are accounted for. *)
Definition taking_inv (fixed : list (option FixedPool)) (slots : list (option Z)) : Prop :=
  length fixed = length groups ∧ length slots = length groups ∧
  ∀ gi g, groups !! gi = Some g →
    if is_paged (g_spec g) then fixed !! gi = Some None ∧ slots !! gi = Some None
    else ∃ f, fixed !! gi = Some (Some f) ∧
      fixed_pool_inv bpg cap groups gi g f (option_list (get_some gi slots) ++ rest gi).

Lemma fixed_pool_take gi g f ids :
  fixed_pool_inv bpg cap groups gi g f ids → Z.of_nat (length ids) < cap →
  ∃ x f', take_slot f = (Some x, f') ∧ least (f_free f) = Some x ∧
    fixed_pool_inv bpg cap groups gi g f' (x :: ids).
Proof.
  intros [Hpart (Ht & Hst)] Hroom. unfold take_slot.
  destruct (least (f_free f)) as [x|] eqn:Hl.
  - exists x, (set_f_free (f_free f ∖ {[ x ]}) f). split_and!; [done..|].
    destruct (partitioned_take f (set_f_free (f_free f ∖ {[ x ]}) f) x ids Hpart) as (Hp & _ & _).
    { simpl. unfold take_slot. by rewrite Hl. }
    split; [done|]. done.
  - exfalso. apply least_None in Hl.
    pose proof (slot_count f ids ltac:(lia) Hpart) as Hc. rewrite Hl, size_empty in Hc. lia.
Qed.

Lemma take_slots_ok live scap l : ∀ fixed slots,
  taking_inv fixed slots → NoDup l.*1 →
  (∀ gi g, groups !! gi = Some g → is_paged (g_spec g) = false →
     Z.of_nat (length (rest gi)) < cap) →
  (∀ gi g, (gi, g) ∈ l → groups !! gi = Some g ∧ slots !! gi = Some None) →
  ∃ fixed' slots',
    take_slots live scap l slots fixed = (Ok slots', fixed') ∧ taking_inv fixed' slots' ∧
    (∀ gi g, (gi, g) ∈ l → is_paged (g_spec g) = false →
       ∃ f x, get_some gi fixed = Some f ∧ get_some gi slots' = Some x ∧
              least (f_free f) = Some x) ∧
    (∀ gi, gi ∉ l.*1 → slots' !! gi = slots !! gi ∧ fixed' !! gi = fixed !! gi).
Proof.
  induction l as [|[gi g] l IH]; intros fixed slots Hinv Hnd Hroom Hl; simpl.
  { exists fixed, slots. split_and!; [done..| |done]. intros ? ? []%elem_of_nil. }
  apply NoDup_cons in Hnd as [Hni Hnd]. destruct (Hl gi g ltac:(by left)) as [Hg Hnone].
  pose proof Hinv as (Hlf & Hls & Hgs). pose proof (Hgs gi g Hg) as Hgi.
  assert (gi < length groups)%nat as Hlt by by eapply lookup_lt_Some.
  destruct (is_recurrent (g_spec g)) eqn:Hr; simpl.
  2: { destruct (is_paged (g_spec g)) eqn:Hp; [|by apply not_paged_recurrent in Hp; congruence].
       destruct (IH fixed slots Hinv Hnd Hroom) as (fixed' & slots' & Hrun & Hi & Htk & Hsame).
       { intros. apply Hl. by right. }
       exists fixed', slots'. split_and!; [done..| |].
       - intros gj h [[= -> ->]|Hj]%elem_of_cons Hph; [congruence|by eapply Htk].
       - intros gj Hj. apply Hsame. set_solver. }
  assert (is_paged (g_spec g) = false) as Hp by by apply not_paged_recurrent.
  rewrite Hp in Hgi. destruct Hgi as (f & Hf & Hfi).
  rewrite (proj2 (get_some_Some gi fixed f) Hf).
  unfold get_some in Hfi. rewrite Hnone in Hfi. simpl in Hfi.
  destruct (fixed_pool_take gi g f (rest gi) Hfi (Hroom gi g Hg Hp)) as (x & f' & Ht & Hle & Hf').
  rewrite Ht. unfold vec_set.
  destruct (Nat.ltb_spec gi (length slots)); [|lia].
  destruct (IH (<[gi := Some f']> fixed) (<[gi := Some x]> slots)) as
    (fixed' & slots' & Hrun & Hi & Htk & Hsame); try done.
  { split_and!; [by rewrite length_insert..|]. intros gj h Hh. specialize (Hgs gj h Hh).
    destruct (decide (gj = gi)) as [->|Hne].
    - assert (h = g) as -> by congruence. rewrite Hp. exists f'.
      rewrite list_lookup_insert_eq by lia. split; [done|].
      unfold get_some. rewrite list_lookup_insert_eq by lia. done.
    - unfold get_some in *. rewrite !list_lookup_insert_ne by done. done. }
  { intros gj h Hj. destruct (Hl gj h ltac:(by right)) as [? ?]. split; [done|].
    rewrite list_lookup_insert_ne; [done|]. intros ->. apply Hni.
    by apply (list_elem_of_fmap_2 fst _ (gj, h)). }
  exists fixed', slots'. split_and!; [done..| |].
  - intros gj h [[= -> ->]|Hj]%elem_of_cons Hph.
    + exists f, x. split_and!; [by apply get_some_Some| |done].
      destruct (Hsame gi Hni) as [Hs _]. unfold get_some. rewrite Hs.
      by rewrite list_lookup_insert_eq.
    + destruct (Htk gj h Hj Hph) as (f1 & x1 & H1 & H2 & H3). exists f1, x1.
      split_and!; [|done..]. unfold get_some in *. rewrite list_lookup_insert_ne in H1; [done|].
      intros ->. apply Hni. by apply (list_elem_of_fmap_2 fst _ (gj, h)).
  - intros gj Hj. destruct (Hsame gj) as [-> ->]; [set_solver|].
    rewrite !list_lookup_insert_ne by set_solver. done.
Qed.
End take_slots.

(** ** [new_seq] *)

Inductive new_seq_refused (m : StateManager) (tokens : list Z) : StateError → Prop :=
| nr_prompt : max_ctx (m_config m) < Z.of_nat (length tokens) ≤ U32_MAX →
    let n := Z.of_nat (length tokens) in
    new_seq_refused m tokens (ReserveTooLarge n (max_ctx (m_config m)) n)
| nr_length : U32_MAX < Z.of_nat (length tokens) →
    new_seq_refused m tokens (Overflow "prompt length")
| nr_ids : m_next_seq m = U32_MAX + 1 →
    new_seq_refused m tokens (SeqIdOverflow (U32_MAX + 1) U32_MAX)
| nr_limit : m_live_count m = max_seqs (m_config m) →
    new_seq_refused m tokens (SeqLimit (m_live_count m) (max_seqs (m_config m))).

Record new_seq_done (m : StateManager) (s : SeqState) (m' : StateManager) : Prop := {
  nd_fresh : m_seqs m !! m_next_seq m = None;
  nd_manager : m' = set_counts (m_next_seq m + 1) (m_live_count m + 1) (m_swaps m) (m_commits m)
                      (set_store (m_pools m) (m_fixed m')
                         (<[m_next_seq m := s]> (m_seqs m)) m);
  nd_state : s = new_state (m_groups m) (q_fixed_slots s);
  nd_slot gi g : m_groups m !! gi = Some g → is_paged (g_spec g) = false →
    ∃ f x, get_some gi (m_fixed m) = Some f ∧ get_some gi (q_fixed_slots s) = Some x ∧
      least (f_free f) = Some x
}.

Lemma fresh_id bpg m : manager_inv bpg m → m_seqs m !! m_next_seq m = None.
Proof.
  intros Hinv. destruct (m_seqs m !! m_next_seq m) as [s|] eqn:Hs; [|done].
  destruct (mi_seqs _ _ Hinv _ _ Hs) as [? _]. lia.
Qed.

Lemma fixed_owned_length bpg m gi g :
  manager_inv bpg m → m_groups m !! gi = Some g → is_paged (g_spec g) = false →
  Z.of_nat (length (owned (slots_of gi) (m_seqs m))) = m_live_count m.
Proof.
  intros Hinv Hg Hp. rewrite (owned_length (slots_of gi) (m_seqs m) 1).
  - destruct (mi_live _ _ Hinv) as [-> _]. lia.
  - intros k s Hs. destruct (mi_seqs _ _ Hinv k s Hs) as [_ Hok].
    destruct (ss_fixed _ _ (so_shape _ _ _ Hok) gi g Hg Hp) as (_ & _ & [x Hx]).
    unfold slots_of. by rewrite Hx.
Qed.

Lemma fixed_slots_check_ok bpg m :
  manager_inv bpg m → m_live_count m < max_seqs (m_config m) → fixed_slots_check m = Ok tt.
Proof.
  intros Hinv Hlive. apply oforM_Ok, Forall_forall. intros [gi g] Hg.
  apply elem_of_enumerate in Hg. destruct (is_recurrent (g_spec g)) eqn:Hr; [|done].
  apply not_paged_recurrent in Hr.
  destruct (mi_fixed _ _ Hinv) as [_ Hf]. specialize (Hf gi g Hg). rewrite Hr in Hf.
  destruct Hf as (f & Hf & Hpart & Ht & _).
  rewrite (proj2 (get_some_Some gi (m_fixed m) f) Hf). simpl.
  rewrite decide_False; [done|]. intros Hnil.
  destruct (mi_config _ _ Hinv) as (_ & _ & ?).
  pose proof (slot_count f _ ltac:(lia) Hpart) as Hc. rewrite Hnil, size_empty in Hc.
  rewrite (fixed_owned_length bpg m gi g Hinv Hg Hr) in Hc. lia.
Qed.

Lemma new_state_shape groups slots :
  length slots = length groups →
  (∀ gi g, groups !! gi = Some g →
     if is_paged (g_spec g) then get_some gi slots = None else is_Some (get_some gi slots)) →
  seq_shape groups (new_state groups slots).
Proof.
  intros Hl Hs.
  assert (∀ gi, default [] (map (λ _ : LayerGroup, @nil Z) groups !! gi) = []) as Hnil.
  { intros gi. change (map ?f) with (fmap (M:=list) f). rewrite list_lookup_fmap.
    by destruct (groups !! gi). }
  split; simpl; rewrite ?length_map, ?length_replicate; try done.
  - apply Forall_replicate. by left.
  - intros gi g Hg Hp. specialize (Hs gi g Hg). rewrite Hp in Hs.
    unfold indices_of, table_of. simpl. rewrite !Hnil. split; [apply aligned_nil|done].
  - intros gi g Hg Hp. specialize (Hs gi g Hg). rewrite Hp in Hs.
    unfold indices_of, table_of. simpl. by rewrite !Hnil.
Qed.

(** A new sequence maps nothing, and the window law holds of nothing. *)
Lemma new_state_ok c groups slots :
  config_ok c → (∀ gi g, groups !! gi = Some g → group_ok g) →
  seq_shape groups (new_state groups slots) → seq_ok c groups (new_state groups slots).
Proof.
  intros Hc Hg Hsh. destruct (config_blocks c Hc) as [Hmb _]. split; simpl; try done.
  - destruct Hc as [? _]. lia.
  - intros gi g Hgi Hp. exists 0. split; [change (div_ceil (0 + 0) BLOCK_TOKENS) with 0; lia|].
    intros b. unfold indices_of. simpl. change (map ?f) with (fmap (M:=list) f).
    rewrite list_lookup_fmap, Hgi. simpl. rewrite elem_of_nil. lia.
Qed.

Lemma new_seq_cases bpg m tokens :
  manager_inv bpg m →
  match new_seq tokens m with
  | (Err e, m') => new_seq_refused m tokens e ∧ m' = m
  | (Ok r, m') => ∃ s, r = (m_next_seq m, 0) ∧ Z.of_nat (length tokens) ≤ max_ctx (m_config m) ∧
      new_seq_done m s m' ∧ manager_inv bpg m'
  | (Panic, _) => False
  end.
Proof.
  intros Hinv. pose proof (mi_config _ _ Hinv) as Hc. pose proof Hc as (Hctx & _ & Hms).
  pose proof (mi_next _ _ Hinv) as Hnext. pose proof (mi_live _ _ Hinv) as [Hlive Hcap].
  unfold MAX_CTX_HARD, MAX_SEQS_HARD in *.
  unfold new_seq. unfold sbind at 1, sread at 1, new_seq_check.
  unfold try_from at 1. destruct (Z.leb_spec 0 (Z.of_nat (length tokens))); [|lia]. simpl.
  destruct (Z.leb_spec (Z.of_nat (length tokens)) U32_MAX) as [Hlen|Hlen]; simpl.
  2: { split; [by constructor|done]. }
  destruct (Z.ltb_spec (max_ctx (m_config m)) (Z.of_nat (length tokens))) as [Hp|Hp]; simpl.
  { split; [by constructor|done]. }
  rewrite checked_add_ok by (unfold U32_MAX; lia). simpl.
  destruct (Z.ltb_spec U32_MAX (m_next_seq m)) as [Hid|Hid]; simpl.
  { assert (m_next_seq m = U32_MAX + 1) as Heq by lia. rewrite Heq.
    split; [by constructor|done]. }
  rewrite checked_add_ok by (unfold U64_MAX, U32_MAX in *; lia). simpl.
  destruct (Z.leb_spec (max_seqs (m_config m)) (m_live_count m)) as [Hfull|Hroom]; simpl.
  { split; [|done]. apply nr_limit. lia. }
  rewrite (fixed_slots_check_ok bpg m Hinv Hroom). simpl.
  set (rest := λ gi, owned (slots_of gi) (m_seqs m)).
  destruct (take_slots_ok bpg (max_seqs (m_config m)) (m_groups m) rest (m_live_count m)
    (max_seqs (m_config m)) (enumerate (m_groups m)) (m_fixed m)
    (replicate (length (m_groups m)) None)) as (fixed' & slots' & Hrun & Hi & Htk & _).
  { destruct (mi_fixed _ _ Hinv) as [Hfl Hf]. split_and!; [done|by rewrite length_replicate|].
    intros gi g Hg. specialize (Hf gi g Hg).
    assert (replicate (length (m_groups m)) (@None Z) !! gi = Some None) as Hrep.
    { apply lookup_replicate_2. by eapply lookup_lt_Some. }
    unfold get_some. rewrite Hrep. by destruct (is_paged (g_spec g)). }
  { rewrite enumerate_fst. apply NoDup_seq. }
  { intros gi g Hg Hpg. unfold rest. rewrite (fixed_owned_length bpg m gi g Hinv Hg Hpg). lia. }
  { intros gi g Hg. apply elem_of_enumerate in Hg. split; [done|].
    apply lookup_replicate_2. by eapply lookup_lt_Some. }
  unfold sbind, sget, szoom, smodify, sret. simpl. rewrite Hrun. simpl.
  exists (new_state (m_groups m) slots').
  pose proof (fresh_id bpg m Hinv) as Hfresh.
  destruct Hi as (Hfl' & Hsl' & Hgs').
  assert (seq_shape (m_groups m) (new_state (m_groups m) slots')) as Hsh.
  { apply new_state_shape; [done|]. intros gi g Hg. specialize (Hgs' gi g Hg).
    destruct (is_paged (g_spec g)) eqn:Hpg.
    - unfold get_some. by destruct Hgs' as [_ ->].
    - destruct (Htk gi g ltac:(by apply elem_of_enumerate) Hpg) as (f & x & _ & -> & _). done. }
  split_and!; [done|done| |].
  - split; [done|done|done|]. intros gi g Hg Hpg. apply Htk with (g := g); [|done].
    by apply elem_of_enumerate.
  - destruct Hinv as [mc [ml1 ml2] mm mb mt mp mf mss mn mlv mco].
    assert (∀ gi, table_of gi (new_state (m_groups m) slots') = []) as Htn.
    { intros gi. unfold table_of. simpl. change (map ?f) with (fmap (M:=list) f).
      rewrite list_lookup_fmap. by destruct (m_groups m !! gi). }
    split; simpl; try done.
    + eapply pools_inv_same; [done|]. intros gi. rewrite owned_insert, Htn by done. done.
    + split; [done|]. intros gi g Hg. specialize (Hgs' gi g Hg).
      destruct (is_paged (g_spec g)); [by destruct Hgs'|].
      destruct Hgs' as (f & Hf & Hpart & Hst). exists f. split; [done|]. split; [|done].
      eapply (partitioned_proper f); [|done]. rewrite owned_insert by done. done.
    + intros id t. intros [[<- <-]|[Hne Ht]]%lookup_insert_Some.
      * split; [lia|]. apply new_state_ok; [done| |done]. intros gi g Hg. by apply (ml2 gi g).
      * destruct (mss id t Ht). split; [lia|done].
    + unfold U32_MAX in *. lia.
    + rewrite map_size_insert_None by done. lia.
Qed.

(** [new_seq] refuses only an over-long prompt, a full manager or an
    exhausted id space, changing nothing; otherwise it returns a fresh id with
    nothing matched, gives the sequence the least free slot of every fixed
    group, and touches no block pool.  A fixed group is never found without a
    slot: the sequence limit is what runs out. *)
Theorem new_seq_spec m tokens :
  manager_ok m →
  match new_seq tokens m with
  | (Err e, m') => new_seq_refused m tokens e ∧ m' = m
  | (Ok r, m') => ∃ s, r = (m_next_seq m, 0) ∧ Z.of_nat (length tokens) ≤ max_ctx (m_config m) ∧
      new_seq_done m s m'
  | (Panic, _) => False
  end.
Proof.
  intros [bpg Hinv]. pose proof (new_seq_cases bpg m tokens Hinv) as H.
  destruct (new_seq tokens m) as [[r|e|] m']; [|done..].
  destruct H as (s & ? & ? & ? & _). by exists s.
Qed.

Lemma new_seq_inv bpg m tokens : manager_inv bpg m → manager_inv bpg (snd (new_seq tokens m)).
Proof.
  intros Hinv. pose proof (new_seq_cases bpg m tokens Hinv) as H.
  destruct (new_seq tokens m) as [[r|e|] m']; simpl.
  - by destruct H as (s & _ & _ & _ & ?).
  - by destruct H as [_ ->].
  - done.
Qed.

(** ** [free_seq] *)

Lemma free_check_ids_ok gi p owned_rest ids : ∀ (seen : gset Z) ids0,
  partitioned p (ids0 ++ ids ++ owned_rest) → (∀ x, x ∈ seen ↔ x ∈ ids0) →
  free_check_ids gi p seen ids = Ok tt.
Proof.
  induction ids as [|x ids IH]; intros seen ids0 Hp Hseen; simpl; [done|].
  destruct (block_owned p _ x Hp) as [Hnf Hr]; [set_solver|].
  destruct (Z.leb_spec (p_total p) x); [lia|].
  destruct (contains x p) eqn:Hc.
  { apply contains_spec in Hc; [done|]. apply Hp. }
  rewrite decide_False.
  - apply (IH _ (ids0 ++ [x])).
    + by rewrite <- (assoc_L (++)).
    + intros y. rewrite elem_of_union, elem_of_singleton, elem_of_app, list_elem_of_singleton, Hseen.
      tauto.
  - rewrite Hseen. intros Hin.
    pose proof (partitioned_owned_NoDup p _ Hp) as Hn.
    apply NoDup_app in Hn as (_ & Hd & _). apply (Hd x Hin). by left.
Qed.

Section release_seq.
Context (bpg cap : Z) (groups : list LayerGroup) (s : SeqState).
Context (rest_blocks rest_slots : nat → list Z).

(** The block pools while the tables listed in [todo] are still to be
    released. *)
Definition releasing_blocks (todo : list nat) (pools : list (option BlockPool)) : Prop :=
  length pools = length groups ∧
  ∀ gi g, groups !! gi = Some g →
    if is_paged (g_spec g)
    then ∃ p, pools !! gi = Some (Some p) ∧
      block_pool_inv bpg cap groups gi g p
        ((if decide (gi ∈ todo) then table_of gi s else []) ++ rest_blocks gi)
    else pools !! gi = Some None.

Definition releasing_slots (todo : list nat) (fixed : list (option FixedPool)) : Prop :=
  length fixed = length groups ∧
  ∀ gi g, groups !! gi = Some g →
    if is_paged (g_spec g) then fixed !! gi = Some None
    else ∃ f, fixed !! gi = Some (Some f) ∧
      fixed_pool_inv bpg cap groups gi g f
        ((if decide (gi ∈ todo) then slots_of gi s else []) ++ rest_slots gi).

Lemma block_pool_give_all gi g p ids rest :
  block_pool_inv bpg cap groups gi g p (ids ++ rest) →
  sfor release ids p = (Ok tt, foldl (λ p x, give_block x p) p ids) ∧
  block_pool_inv bpg cap groups gi g (foldl (λ p x, give_block x p) p ids) rest.
Proof.
  intros [Hp (Ht & Hb & Ho)]. split; [by eapply release_all_ok|].
  destruct (give_all_static p ids) as (Ht' & Ho' & Hb').
  split; [exact (proj1 (partitioned_give_all p ids rest Hp))|].
  split_and!; congruence.
Qed.

Lemma release_tables_ok l : ∀ pools,
  seq_shape groups s → releasing_blocks l.*1 pools → NoDup l.*1 →
  (∀ gi ids, (gi, ids) ∈ l → q_tables s !! gi = Some ids) →
  ∃ pools', sfor release_table l pools = (Ok tt, pools') ∧ releasing_blocks [] pools'.
Proof.
  induction l as [|[gi ids] l IH]; intros pools Hsh Hinv Hnd Hl; simpl in *.
  { exists pools. done. }
  apply NoDup_cons in Hnd as [Hni Hnd]. pose proof (Hl gi ids ltac:(by left)) as Hids.
  assert (table_of gi s = ids) as Htab by (unfold table_of; by rewrite Hids).
  assert (∃ g, groups !! gi = Some g) as [g Hg].
  { apply lookup_lt_is_Some_2. rewrite <- (ss_tables _ _ Hsh). by eapply lookup_lt_Some. }
  pose proof Hinv as [Hlen Hgs].
  assert (∀ pools', length pools' = length groups →
    (∀ gj, gj ≠ gi → pools' !! gj = pools !! gj) →
    (if is_paged (g_spec g) then ∃ p, pools' !! gi = Some (Some p) ∧
       block_pool_inv bpg cap groups gi g p (rest_blocks gi) else pools' !! gi = Some None) →
    releasing_blocks l.*1 pools') as Hstep.
  { intros pools' Hl' Hne Hgi. split; [done|]. intros gj h Hh.
    destruct (decide (gj = gi)) as [->|Hd].
    - assert (h = g) as -> by congruence. rewrite decide_False by done. exact Hgi.
    - rewrite Hne by done. specialize (Hgs gj h Hh). destruct (is_paged (g_spec h)); [|done].
      destruct Hgs as (p & Hp & Hpi). exists p. split; [done|].
      destruct (decide (gj ∈ l.*1)).
      + by rewrite decide_True in Hpi by set_solver.
      + by rewrite decide_False in Hpi by set_solver. }
  specialize (Hgs gi g Hg). rewrite decide_True in Hgs by set_solver. rewrite Htab in Hgs.
  destruct ids as [|x ids].
  - destruct (IH pools) as (pools' & Hrun & Hdone); [done| |done| |].
    + apply Hstep; [done..|]. by destruct (is_paged (g_spec g)).
    + intros. apply Hl. by right.
    + exists pools'. done.
  - destruct (is_paged (g_spec g)) eqn:Hp.
    2: { destruct (ss_fixed _ _ Hsh gi g Hg Hp) as (_ & Hn & _). congruence. }
    destruct Hgs as (p & Hpool & Hpi).
    destruct (block_pool_give_all gi g p (x :: ids) (rest_blocks gi) Hpi) as [Hrel Hpi'].
    destruct (IH (<[gi := Some (foldl (λ p x, give_block x p) p (x :: ids))]> pools))
      as (pools' & Hrun & Hdone); [done| |done| |].
    + apply Hstep.
      * by rewrite length_insert.
      * intros gj Hne. by rewrite list_lookup_insert_ne.
      * exists (foldl (λ p x, give_block x p) p (x :: ids)).
        rewrite list_lookup_insert_eq; [done|]. apply lookup_lt_Some in Hg. lia.
    + intros. apply Hl. by right.
    + exists pools'. split; [|done]. unfold sbind at 1. unfold release_table.
      unfold sbind at 1, sget. unfold sbind at 1, slift.
      rewrite (proj2 (get_some_Some gi pools p) Hpool). cbn [ok_or].
      unfold szoom. rewrite Hrel. exact Hrun.
Qed.

Lemma release_slots_ok l : ∀ fixed,
  seq_shape groups s → releasing_slots l.*1 fixed → NoDup l.*1 →
  (∀ gi o, (gi, o) ∈ l → q_fixed_slots s !! gi = Some o) →
  ∃ fixed', sfor release_slot l fixed = (Ok tt, fixed') ∧ releasing_slots [] fixed'.
Proof.
  induction l as [|[gi o] l IH]; intros fixed Hsh Hinv Hnd Hl; simpl in *.
  { exists fixed. done. }
  apply NoDup_cons in Hnd as [Hni Hnd]. pose proof (Hl gi o ltac:(by left)) as Ho.
  assert (slots_of gi s = option_list o) as Hslot.
  { unfold slots_of, get_some. by rewrite Ho. }
  assert (∃ g, groups !! gi = Some g) as [g Hg].
  { apply lookup_lt_is_Some_2. rewrite <- (ss_slots _ _ Hsh). by eapply lookup_lt_Some. }
  pose proof Hinv as [Hlen Hgs].
  assert (∀ fixed', length fixed' = length groups →
    (∀ gj, gj ≠ gi → fixed' !! gj = fixed !! gj) →
    (if is_paged (g_spec g) then fixed' !! gi = Some None else ∃ f, fixed' !! gi = Some (Some f) ∧
       fixed_pool_inv bpg cap groups gi g f (rest_slots gi)) →
    releasing_slots l.*1 fixed') as Hstep.
  { intros fixed' Hl' Hne Hgi. split; [done|]. intros gj h Hh.
    destruct (decide (gj = gi)) as [->|Hd].
    - assert (h = g) as -> by congruence. rewrite decide_False by done. exact Hgi.
    - rewrite Hne by done. specialize (Hgs gj h Hh). destruct (is_paged (g_spec h)); [done|].
      destruct Hgs as (p & Hp & Hpi). exists p. split; [done|].
      destruct (decide (gj ∈ l.*1)).
      + by rewrite decide_True in Hpi by set_solver.
      + by rewrite decide_False in Hpi by set_solver. }
  specialize (Hgs gi g Hg). rewrite decide_True in Hgs by set_solver. rewrite Hslot in Hgs.
  destruct o as [x|].
  - destruct (is_paged (g_spec g)) eqn:Hp.
    { destruct (ss_paged _ _ Hsh gi g Hg Hp) as [_ Hn]. unfold get_some in Hn.
      rewrite Ho in Hn. done. }
    destruct Hgs as (f & Hf & Hpart & Hst). simpl in Hpart.
    destruct (partitioned_give f x (rest_slots gi) Hpart) as [Hg' _].
    destruct (IH (<[gi := Some (give_slot x f)]> fixed)) as (fixed' & Hrun & Hdone);
      [done| |done| |].
    + apply Hstep.
      * by rewrite length_insert.
      * intros gj Hne. by rewrite list_lookup_insert_ne.
      * exists (give_slot x f). rewrite list_lookup_insert_eq; [done|].
        apply lookup_lt_Some in Hg. lia.
    + intros. apply Hl. by right.
    + exists fixed'. split; [|done]. unfold sbind at 1. unfold release_slot.
      unfold sbind at 1, sget. unfold sbind at 1, slift.
      rewrite (proj2 (get_some_Some gi fixed f) Hf). exact Hrun.
  - destruct (IH fixed) as (fixed' & Hrun & Hdone); [done| |done| |].
    + apply Hstep; [done..|]. by destruct (is_paged (g_spec g)).
    + intros. apply Hl. by right.
    + exists fixed'. done.
Qed.
End release_seq.

Record free_seq_done (m : StateManager) (seq : Z) (m' : StateManager) : Prop := {
  fd_manager : m' = set_counts (m_next_seq m) (m_live_count m - 1) (m_swaps m) (m_commits m)
                      (set_store (m_pools m') (m_fixed m') (delete seq (m_seqs m)) m);
  fd_blocks s gi g p : m_seqs m !! seq = Some s → m_groups m !! gi = Some g →
    get_some gi (m_pools m) = Some p →
    ∃ p', get_some gi (m_pools m') = Some p' ∧ p_free p' ≡ₚ table_of gi s ++ p_free p;
  fd_slots s gi g f : m_seqs m !! seq = Some s → m_groups m !! gi = Some g →
    get_some gi (m_fixed m) = Some f →
    ∃ f', get_some gi (m_fixed m') = Some f' ∧
      f_free f' = list_to_set (slots_of gi s) ∪ f_free f
}.

Lemma free_check_ok bpg m seq s :
  manager_inv bpg m → m_seqs m !! seq = Some s →
  free_check seq m = Ok (s, m_live_count m - 1).
Proof.
  intros Hinv Hs. pose proof (so_shape _ _ _ (proj2 (mi_seqs _ _ Hinv seq s Hs))) as Hsh.
  unfold free_check. rewrite (seq_state_Some m seq s Hs). simpl.
  destruct (mi_live _ _ Hinv) as [Hlive _].
  assert (size (m_seqs m) ≠ 0%nat) as Hsz.
  { intros Hz. apply map_size_empty_iff in Hz. by rewrite Hz, lookup_empty in Hs. }
  rewrite checked_sub_ok by lia. simpl.
  assert (oforM (free_check_table m) (enumerate (q_tables s)) = Ok tt) as ->.
  { apply oforM_Ok, Forall_forall. intros [gi ids] Hids%elem_of_enumerate.
    assert (∃ g, m_groups m !! gi = Some g) as [g Hg].
    { apply lookup_lt_is_Some_2. rewrite <- (ss_tables _ _ Hsh). by eapply lookup_lt_Some. }
    assert (table_of gi s = ids) as Htab by (unfold table_of; by rewrite Hids).
    unfold free_check_table. destruct ids as [|x ids]; [done|].
    destruct (is_paged (g_spec g)) eqn:Hp.
    2: { destruct (ss_fixed _ _ Hsh gi g Hg Hp) as (_ & Hn & _). congruence. }
    destruct (pools_inv_paged _ _ _ _ _ _ _ (mi_pools _ _ Hinv) Hg Hp) as (p & Hpool & Hpart & _).
    rewrite (proj2 (get_some_Some _ _ _) Hpool). cbn [ok_or obind].
    rewrite (owned_lookup (table_of gi) (m_seqs m) seq s Hs), Htab in Hpart.
    apply (free_check_ids_ok gi p (owned (table_of gi) (delete seq (m_seqs m))) (x :: ids) ∅ []);
      [done|set_solver]. }
  simpl.
  assert (oforM (free_check_slot m) (enumerate (q_fixed_slots s)) = Ok tt) as ->; [|done].
  apply oforM_Ok, Forall_forall. intros [gi [x|]] Ho%elem_of_enumerate; [|done].
  assert (∃ g, m_groups m !! gi = Some g) as [g Hg].
  { apply lookup_lt_is_Some_2. rewrite <- (ss_slots _ _ Hsh). by eapply lookup_lt_Some. }
  assert (slots_of gi s = [x]) as Hslot by (unfold slots_of, get_some; by rewrite Ho).
  destruct (mi_fixed _ _ Hinv) as [_ Hf]. specialize (Hf gi g Hg).
  destruct (is_paged (g_spec g)) eqn:Hp.
  { destruct (ss_paged _ _ Hsh gi g Hg Hp) as [_ Hn]. unfold get_some in Hn. by rewrite Ho in Hn. }
  destruct Hf as (f & Hf & Hpart & _). simpl.
  rewrite (proj2 (get_some_Some _ _ _) Hf). simpl.
  rewrite (owned_lookup (slots_of gi) (m_seqs m) seq s Hs), Hslot in Hpart.
  destruct (slot_owned f _ x Hpart) as [Hn Hr]; [by left|].
  destruct (Z.leb_spec (f_total_slots f) x); [lia|]. by rewrite decide_False.
Qed.

Lemma free_seq_cases bpg m seq :
  manager_inv bpg m →
  match m_seqs m !! seq with
  | None => free_seq seq m = (Err (UnknownSeq seq), m)
  | Some s => ∃ m', free_seq seq m = (Ok tt, m') ∧ manager_inv bpg m' ∧
      m' = set_counts (m_next_seq m) (m_live_count m - 1) (m_swaps m) (m_commits m)
             (set_store (m_pools m') (m_fixed m') (delete seq (m_seqs m)) m)
  end.
Proof.
  intros Hinv. unfold free_seq.
  destruct (m_seqs m !! seq) as [s|] eqn:Hs.
  2: { apply sbind_Err. unfold sread, free_check. by rewrite seq_state_None. }
  erewrite sbind_Ok; [|unfold sread; by rewrite (free_check_ok bpg m seq s Hinv Hs)].
  pose proof (so_shape _ _ _ (proj2 (mi_seqs _ _ Hinv seq s Hs))) as Hsh.
  set (rb := λ gi, owned (table_of gi) (delete seq (m_seqs m))).
  set (rs := λ gi, owned (slots_of gi) (delete seq (m_seqs m))).
  destruct (release_tables_ok bpg (max_seqs (m_config m)) (m_groups m) s rb rs
    (enumerate (q_tables s)) (m_pools m) Hsh) as (pools' & Hrunb & Hbl & Hbg).
  { destruct (mi_pools _ _ Hinv) as [Hl Hg]. split; [done|]. intros gi g Hgi.
    specialize (Hg gi g Hgi). destruct (is_paged (g_spec g)); [|done].
    destruct Hg as (p & Hp & Hpart & Hst). exists p. split; [done|]. split; [|done].
    rewrite decide_True. { eapply (partitioned_proper p); [by apply owned_lookup|done]. }
    rewrite enumerate_fst, elem_of_seq, (ss_tables _ _ Hsh). apply lookup_lt_Some in Hgi. lia. }
  { rewrite enumerate_fst. apply NoDup_seq. }
  { intros gi ids Hi. by apply elem_of_enumerate. }
  destruct (release_slots_ok bpg (max_seqs (m_config m)) (m_groups m) s rb rs
    (enumerate (q_fixed_slots s)) (m_fixed m) Hsh) as (fixed' & Hruns & Hsl & Hsg).
  { destruct (mi_fixed _ _ Hinv) as [Hl Hg]. split; [done|]. intros gi g Hgi.
    specialize (Hg gi g Hgi). destruct (is_paged (g_spec g)); [done|].
    destruct Hg as (p & Hp & Hpart & Hst). exists p. split; [done|]. split; [|done].
    rewrite decide_True. { eapply (partitioned_proper p); [by apply owned_lookup|done]. }
    rewrite enumerate_fst, elem_of_seq, (ss_slots _ _ Hsh). apply lookup_lt_Some in Hgi. lia. }
  { rewrite enumerate_fst. apply NoDup_seq. }
  { intros gi o Hi. by apply elem_of_enumerate. }
  unfold sbind, smodify, szoom. simpl. rewrite Hrunb. simpl. rewrite Hruns.
  eexists. split_and!; [reflexivity| |reflexivity].
  destruct Hinv as [mc ml mm mb mt mp mf mss mn [mlv mcap] mco].
  split; simpl; try done.
  - intros id t Ht. apply lookup_delete_Some in Ht as [_ Ht]. by apply mss.
  - rewrite map_size_delete, Hs. simpl.
    assert (size (m_seqs m) ≠ 0%nat) as Hsz.
    { intros Hz. apply map_size_empty_iff in Hz. by rewrite Hz, lookup_empty in Hs. }
    lia.
Qed.

Lemma free_seq_inv bpg m seq : manager_inv bpg m → manager_inv bpg (snd (free_seq seq m)).
Proof.
  intros Hinv. pose proof (free_seq_cases bpg m seq Hinv) as H.
  destruct (m_seqs m !! seq) as [s|].
  - by destruct H as (m' & -> & ? & _).
  - by rewrite H.
Qed.

(** [free_seq] refuses only an unknown sequence; of a live one it always
    succeeds, removes it and gives back to every pool exactly the blocks and
    the slot it held. *)
Theorem free_seq_spec m seq :
  manager_ok m →
  match m_seqs m !! seq with
  | None => free_seq seq m = (Err (UnknownSeq seq), m)
  | Some _ => ∃ m', free_seq seq m = (Ok tt, m') ∧ free_seq_done m seq m'
  end.
Proof.
  intros [bpg Hinv]. pose proof (free_seq_cases bpg m seq Hinv) as H.
  destruct (m_seqs m !! seq) as [s|] eqn:Hs; [|done].
  destruct H as (m' & Hrun & Hinv' & Hm'). exists m'. split; [done|].
  assert (m_groups m' = m_groups m ∧ m_seqs m' = delete seq (m_seqs m) ∧
    m_config m' = m_config m) as (Hgr & Hsq & Hcf) by by rewrite Hm'.
  split; [done| |]; intros t gi g p Ht Hg Hp; assert (t = s) as -> by congruence.
  - destruct (mi_pools _ _ Hinv) as [_ H]. specialize (H gi g Hg).
    destruct (mi_pools _ _ Hinv') as [_ H']. rewrite Hgr in H'. specialize (H' gi g Hg).
    rewrite get_some_Some in Hp. destruct (is_paged (g_spec g)); [|congruence].
    destruct H as (q & Hq & [_ Hpart] & Hst), H' as (p' & Hp' & [_ Hpart'] & Hst').
    assert (q = p) as -> by congruence. exists p'. split; [by apply get_some_Some|].
    rewrite (owned_lookup (table_of gi) (m_seqs m) seq s Hs) in Hpart. rewrite Hsq in Hpart'.
    simpl in *. destruct Hst as [Ht1 _], Hst' as [Ht2 _]. rewrite Ht1, <- Ht2, <- Hpart' in Hpart.
    rewrite (assoc_L (++)) in Hpart. apply Permutation_app_inv_r in Hpart.
    by rewrite <- Hpart, Permutation_app_comm.
  - destruct (mi_fixed _ _ Hinv) as [_ H]. specialize (H gi g Hg).
    destruct (mi_fixed _ _ Hinv') as [_ H']. rewrite Hgr in H'. specialize (H' gi g Hg).
    rewrite get_some_Some in Hp. destruct (is_paged (g_spec g)); [congruence|].
    destruct H as (q & Hq & [_ Hpart] & Hst), H' as (p' & Hp' & [_ Hpart'] & Hst').
    assert (q = p) as -> by congruence. exists p'. split; [by apply get_some_Some|].
    rewrite (owned_lookup (slots_of gi) (m_seqs m) seq s Hs) in Hpart. rewrite Hsq in Hpart'.
    simpl in *. destruct Hst as [Ht1 _], Hst' as [Ht2 _]. rewrite Hcf in Ht2.
    rewrite Ht1, <- Ht2, <- Hpart' in Hpart.
    rewrite (assoc_L (++)) in Hpart. apply Permutation_app_inv_r in Hpart.
    apply set_eq. intros x. rewrite <- elem_of_elements, <- Hpart.
    rewrite elem_of_app, elem_of_elements, elem_of_union, elem_of_list_to_set. tauto.
Qed.

(** The pools follow from the sequences. *)
Lemma same_seqs_same_pools bpg m m' :
  manager_inv bpg m → manager_inv bpg m' → same_static m m' → m_seqs m' = m_seqs m →
  m_pools m' = m_pools m ∧ m_fixed m' = m_fixed m.
Proof.
  intros Hinv Hinv' (Hc & Hg & _) Hs.
  pose proof (mi_pools _ _ Hinv') as Hp. pose proof (mi_fixed _ _ Hinv') as Hf.
  rewrite Hc, Hg, Hs in Hp, Hf. split.
  - eapply pools_inv_unique; [done|apply Hinv].
  - eapply fixed_inv_unique; [done|apply Hinv].
Qed.

(** Which blocks and slots are free is a function of the live sequences
    alone: two managers of the same layout with the same sequences have the
    same pools, whatever was allocated and released on the way. *)
Theorem pools_determined bpg m m' :
  manager_inv bpg m → manager_inv bpg m' → same_static m m' → m_seqs m' = m_seqs m →
  m_pools m' = m_pools m ∧ m_fixed m' = m_fixed m.
Proof. apply same_seqs_same_pools. Qed.

(** Admitting a sequence and releasing it leaves the manager as it was,
    but for the next id. *)
Theorem new_free_roundtrip m tokens id matched m1 :
  manager_ok m → new_seq tokens m = (Ok (id, matched), m1) →
  free_seq id m1 =
  (Ok tt, set_counts (m_next_seq m + 1) (m_live_count m) (m_swaps m) (m_commits m) m).
Proof.
  intros [bpg Hinv] Hnew. pose proof (new_seq_cases bpg m tokens Hinv) as H.
  rewrite Hnew in H. destruct H as (s & [= -> ->] & _ & Hd & Hinv1).
  pose proof (nd_manager _ _ _ Hd) as Hm1. pose proof (nd_fresh _ _ _ Hd) as Hfresh.
  pose proof (free_seq_cases bpg m1 (m_next_seq m) Hinv1) as Hf.
  assert (m_seqs m1 = <[m_next_seq m := s]> (m_seqs m)) as Hsq by by rewrite Hm1.
  rewrite Hsq, lookup_insert_eq in Hf. destruct Hf as (m2 & Hrun & Hinv2 & Hm2).
  rewrite Hrun. f_equal.
  rewrite delete_insert_id in Hm2 by done.
  assert (m_pools m2 = m_pools m ∧ m_fixed m2 = m_fixed m) as [Hp Hfx].
  { apply (same_seqs_same_pools bpg); [done|done| |].
    - rewrite Hm2, Hm1. done.
    - rewrite Hm2. done. }
  rewrite Hm2, Hp, Hfx, Hm1. destruct m. simpl. unfold set_counts, set_store. simpl.
  f_equal. lia.
Qed.

(** The demonstration manager with one sequence. *)
Definition demo1 : StateManager := Eval vm_compute in snd (new_seq [1; 2] demo).

Lemma demo1_new : new_seq [1; 2] demo = (Ok (0, 0), demo1).
Proof. vm_compute. reflexivity. Qed.

Lemma demo1_ok : manager_ok demo1.
Proof.
  destruct demo_ok as [bpg Hinv]. exists bpg.
  pose proof (new_seq_inv bpg demo [1; 2] Hinv) as H. by rewrite demo1_new in H.
Qed.

