(* ===== verification/Commit.v ===== *)
(** * Commit

    [commit] of [crates/r9v-state/src/manager.rs]: when it is refused, which
    blocks a windowed group gives up, what stays mapped, the swap of the
    recurrent buffers, and that the invariant survives. *)

From S2P Require Import Prelude Errors Spec Table Pools Manager Invariant Construct Reserve Admission.

#[global] Open Scope Z_scope.

(** ** The evicted range *)

(** The blocks [commit] drops from a group at the new context length. *)
Definition evicts (s : StateSpec) (ctx b : Z) : bool :=
  let '(lo, hi) := evict_range ctx s in (lo <=? b) && (b <? hi).

Lemma evict_range_cases s ctx :
  spec_u32 s → 0 ≤ ctx ≤ MAX_CTX_HARD →
  let '(lo, hi) := evict_range ctx s in
  (hi ≤ lo ∧ (lo, hi) = (U32_MAX, 0) ∧ ∀ b, 0 ≤ b → retained s ctx b) ∨
  (0 ≤ lo < hi ∧ hi ≤ 32768 ∧ is_paged s = true ∧ lo = sink_blocks s ∧
   hi = spec_window_start s ctx / BLOCK_TOKENS).
Proof.
  intros Hu Hc.
  assert (∀ r n w, retain s = Some r → (r = Window w ∧ n = 0 ∨ r = SinkWindow n w) →
    0 ≤ w ∧ 0 ≤ n) as Hw.
  { intros r n w Hr Hcase. destruct s as [? ? ? ? r'|? ? ? r'|? ? ?|? ?]; simplify_eq/=;
      destruct Hcase as [[-> ->]| ->]; simpl in *; unfold is_u32 in *; lia. }
  assert (∀ b, 0 ≤ b → spec_window_start s ctx / BLOCK_TOKENS ≤ sink_blocks s → retained s ctx b)
    as Hret.
  { intros b Hb Hle. unfold retained. lia. }
  pose proof (spec_window_start_bounds s ctx Hu (proj1 Hc)) as Hws.
  assert (spec_window_start s ctx / BLOCK_TOKENS ≤ 32768) as Hhi.
  { unfold BLOCK_TOKENS, MAX_CTX_HARD in *. apply Z.div_le_upper_bound; lia. }
  assert (0 ≤ spec_window_start s ctx / BLOCK_TOKENS) as Hhi0.
  { apply Z.div_pos; [lia|done]. }
  unfold evict_range, sink_blocks, spec_window_start in *.
  destruct (retain s) as [[|w|n w]|] eqn:Hr.
  - left. split_and!; [unfold U32_MAX; lia|done|]. intros. by apply Hret.
  - destruct (Z.ltb_spec 0 (window_start_of ctx w / BLOCK_TOKENS)).
    + right. split_and!; try lia; try done. by eapply retain_Some_paged.
    + left. split_and!; [unfold U32_MAX; lia|done|]. intros. by apply Hret.
  - destruct (Hw _ n w eq_refl) as [? ?]; [by right|].
    pose proof (div_ceil_nonneg n BLOCK_TOKENS ltac:(done) ltac:(done)).
    destruct (Z.ltb_spec (div_ceil n BLOCK_TOKENS) (window_start_of ctx w / BLOCK_TOKENS)).
    + right. split_and!; try lia; try done. by eapply retain_Some_paged.
    + left. split_and!; [unfold U32_MAX; lia|done|]. intros. by apply Hret.
  - left. split_and!; [unfold U32_MAX; lia|done|]. intros. by apply Hret.
Qed.

(** A block is evicted exactly when it is outside the sink and the window. *)
Lemma evicts_retained s ctx b :
  spec_u32 s → 0 ≤ ctx ≤ MAX_CTX_HARD → 0 ≤ b → evicts s ctx b = false ↔ retained s ctx b.
Proof.
  intros Hu Hc Hb. pose proof (evict_range_cases s ctx Hu Hc) as H. unfold evicts.
  destruct (evict_range ctx s) as [lo hi].
  destruct H as [(Hle & [= -> ->] & Hall)|(Hlt & _ & _ & -> & ->)].
  - split; [intros _; by apply Hall|]. intros _.
    destruct (Z.leb_spec U32_MAX b), (Z.ltb_spec b 0); simpl; lia || done.
  - unfold retained.
    destruct (Z.leb_spec (sink_blocks s) b),
      (Z.ltb_spec b (spec_window_start s ctx / BLOCK_TOKENS)); simpl; split; intros; lia || done.
Qed.

Lemma window_start_of_mono ctx ctx' w :
  0 ≤ w → ctx ≤ ctx' → window_start_of ctx w ≤ window_start_of ctx' w.
Proof.
  intros. unfold window_start_of. destruct (Z.leb_spec w ctx), (Z.leb_spec w ctx'); lia.
Qed.

Lemma spec_window_start_mono s ctx ctx' :
  spec_u32 s → ctx ≤ ctx' → spec_window_start s ctx ≤ spec_window_start s ctx'.
Proof.
  intros Hu Hle. unfold spec_window_start.
  destruct s as [? ? ? ? r|? ? ? r|? ? ?|? ?]; simpl in *; try lia;
    destruct r as [|w|n w]; simpl in *; unfold is_u32 in *; try lia;
    apply window_start_of_mono; lia.
Qed.

Lemma retained_mono s ctx ctx' b :
  spec_u32 s → ctx ≤ ctx' → retained s ctx' b → retained s ctx b.
Proof.
  intros Hu Hle [?|Hb]; [by left|]. right. etransitivity; [|done].
  apply Z.div_le_mono; [done|]. by apply spec_window_start_mono.
Qed.

(** The fixed array of ranges holds the range of every group. *)
Lemma evict_ranges_fold ctx l ev :
  length ev = Z.to_nat MAX_GROUPS_HARD → NoDup l.*1 →
  (∀ gi g, (gi, g) ∈ l → (gi < Z.to_nat MAX_GROUPS_HARD)%nat ∧ ev !! gi = Some (U32_MAX, 0) ∧
     spec_u32 (g_spec g)) →
  0 ≤ ctx ≤ MAX_CTX_HARD →
  ∃ ev', foldl (λ (acc : StateResult (list (Z * Z))) '(gi, g),
      let* evict := acc in
      match evict_range ctx (g_spec g) with
      | (lo, hi) => if lo <? hi then vec_set gi (lo, hi) evict else Ok evict
      end) (Ok ev) l = Ok ev' ∧
    length ev' = length ev ∧
    (∀ gi g, (gi, g) ∈ l → ev' !! gi = Some (evict_range ctx (g_spec g))) ∧
    (∀ gi, gi ∉ l.*1 → ev' !! gi = ev !! gi).
Proof.
  intros Hlen Hnd Hl Hc. revert ev Hlen Hnd Hl. induction l as [|[gi g] l IH]; intros ev Hlen Hnd Hl.
  { exists ev. split_and!; try done. intros ? ? []%elem_of_nil. }
  apply NoDup_cons in Hnd as [Hni Hnd]. simpl in Hni.
  destruct (Hl gi g ltac:(by left)) as (Hlt & Hgi & Hu). simpl.
  pose proof (evict_range_cases (g_spec g) ctx Hu Hc) as Hcase.
  destruct (evict_range ctx (g_spec g)) as [lo hi] eqn:Her.
  set (ev1 := if lo <? hi then <[gi := (lo, hi)]> ev else ev).
  assert ((if lo <? hi then vec_set gi (lo, hi) ev else Ok ev) =
    (Ok ev1 : StateResult (list (Z * Z)))) as ->.
  { unfold ev1, vec_set. destruct (lo <? hi); [|done].
    destruct (Nat.ltb_spec gi (length ev)); [done|lia]. }
  assert (ev1 !! gi = Some (lo, hi)) as Hev1.
  { unfold ev1. destruct (Z.ltb_spec lo hi).
    - apply list_lookup_insert_eq. lia.
    - destruct Hcase as [(_ & -> & _)|(? & _)]; [done|lia]. }
  assert (∀ gj, gj ≠ gi → ev1 !! gj = ev !! gj) as Hne.
  { intros gj Hd. unfold ev1. destruct (lo <? hi); [|done]. by rewrite list_lookup_insert_ne. }
  assert (length ev1 = length ev) as Hlen1.
  { unfold ev1. destruct (lo <? hi); [apply length_insert|done]. }
  destruct (IH ev1) as (ev' & Hrun & Hlen' & Hin & Hout); [by rewrite Hlen1|done| |].
  { intros gj h Hj. destruct (Hl gj h ltac:(by right)) as (? & Hj' & ?). split_and!; [done| |done].
    rewrite Hne; [done|]. intros ->. apply Hni. by apply (list_elem_of_fmap_2 fst _ (gi, h)). }
  exists ev'. split_and!; [done|by rewrite Hlen'| |].
  - intros gj h [[= -> ->]|Hj]%elem_of_cons; [|by apply Hin].
    rewrite Hout, Hev1 by done. by rewrite Her.
  - intros gj Hj. rewrite Hout by set_solver. apply Hne. set_solver.
Qed.

Lemma evict_ranges_ok ctx groups :
  layout_ok groups → 0 ≤ ctx ≤ MAX_CTX_HARD →
  ∃ ev, evict_ranges ctx groups = Ok ev ∧
    ∀ gi g, groups !! gi = Some g → ev !! gi = Some (evict_range ctx (g_spec g)).
Proof.
  intros [Hlen Hg] Hc. unfold evict_ranges.
  destruct (evict_ranges_fold ctx (enumerate groups)
    (replicate (Z.to_nat MAX_GROUPS_HARD) (U32_MAX, 0))) as (ev & Hrun & _ & Hin & _); try done.
  - rewrite enumerate_fst. apply NoDup_seq.
  - intros gi g Hgi%elem_of_enumerate. destruct (Hg gi g Hgi) as [_ [Hu _]].
    apply lookup_lt_Some in Hgi. unfold MAX_GROUPS_HARD in *.
    split_and!; [lia| |done]. apply lookup_replicate_2. lia.
  - exists ev. split; [done|]. intros gi g Hgi. apply Hin. by apply elem_of_enumerate.
Qed.

(** ** The drain of one group *)

#[global] Arguments evict_one : simpl never.
#[global] Arguments evict_group : simpl never.
#[global] Arguments evict_check : simpl never.

Lemma with_table_twice gi indices table indices' table' s :
  with_table gi indices' table' (with_table gi indices table s) = with_table gi indices' table' s.
Proof. unfold with_table, set_tables. simpl. by rewrite !list_insert_insert_eq. Qed.

Lemma with_table_id groups gi g s :
  seq_shape groups s → groups !! gi = Some g → with_table gi (indices_of gi s) (table_of gi s) s = s.
Proof.
  intros Hs Hg. destruct (shape_table groups s gi g Hs Hg) as [Ht Hi].
  unfold with_table, set_tables. rewrite !list_insert_id by done. by destruct s.
Qed.

Section drain.
Context (bpg cap : Z) (groups : list LayerGroup) (gi : nat) (g : LayerGroup).
Context (rest : list Z).

(** One removal: the entry at [at_] goes from both vectors, its block back to
    the pool. *)
Lemma evict_one_ok at_ s p id b ids :
  seq_shape groups s → groups !! gi = Some g →
  indices_of gi s !! at_ = Some b → table_of gi s !! at_ = Some id →
  block_pool_inv bpg cap groups gi g p (id :: ids) →
  ∃ p',
    evict_one gi at_ (s, p) =
      (Ok tt, (with_table gi (take at_ (indices_of gi s) ++ drop (S at_) (indices_of gi s))
                             (take at_ (table_of gi s) ++ drop (S at_) (table_of gi s)) s, p')) ∧
    block_pool_inv bpg cap groups gi g p' ids.
Proof.
  intros Hs Hg Hb Hid Hinv. pose proof Hinv as [Hpart Hst].
  destruct (shape_table groups s gi g Hs Hg) as [Ht Hi].
  destruct (block_owned p _ id Hpart) as [Hn Hr]; [by left|].
  exists (give_block id p). split.
  - unfold evict_one, sbind, sget, slift, smodify, szoom. simpl. rewrite Hi. simpl.
    rewrite (vec_remove_Ok at_ b) by done. simpl. rewrite Ht. simpl.
    rewrite (vec_remove_Ok at_ id) by done. simpl.
    rewrite release_ok; [done|apply Hpart|lia|done].
  - split; [exact (proj1 (partitioned_give p id ids Hpart))|done].
Qed.

(** The reverse drain of [n] entries from position [i]. *)
Lemma evict_loop n i : ∀ s p,
  seq_shape groups s → groups !! gi = Some g → is_paged (g_spec g) = true →
  (i + n ≤ length (indices_of gi s))%nat →
  block_pool_inv bpg cap groups gi g p (rev (take n (drop i (table_of gi s))) ++ rest) →
  ∃ p',
    sfor (evict_one gi) (rev (seqn_from i n)) (s, p) =
      (Ok tt, (with_table gi (take i (indices_of gi s) ++ drop (i + n) (indices_of gi s))
                             (take i (table_of gi s) ++ drop (i + n) (table_of gi s)) s, p')) ∧
    block_pool_inv bpg cap groups gi g p' rest.
Proof.
  induction n as [|n IH]; intros s p Hs Hg Hp Hlen Hinv.
  { exists p. simpl in *. rewrite Nat.add_0_r, !take_drop, (with_table_id groups gi g) by done.
    done. }
  pose proof (shape_aligned groups s gi g Hs Hg) as Ha.
  set (ix := indices_of gi s) in *. set (tb := table_of gi s) in *.
  assert (length tb = length ix) as Hl by apply Ha.
  destruct (lookup_lt_is_Some_2 ix (i + n)) as [b Hb]; [lia|].
  destruct (lookup_lt_is_Some_2 tb (i + n)) as [id Hid]; [lia|].
  assert (take (S n) (drop i tb) = take n (drop i tb) ++ [id]) as Htake.
  { apply take_S_r. by rewrite lookup_drop. }
  rewrite Htake, rev_app_distr in Hinv. simpl in Hinv.
  destruct (evict_one_ok (i + n) s p id b _ Hs Hg Hb Hid Hinv) as (p1 & Hone & Hinv1).
  fold ix tb in Hone. set (s1 := with_table gi _ _ s) in Hone.
  destruct (aligned_remove ix tb b id (i + n) Ha Hb Hid) as (Ha1 & _).
  assert (seq_shape groups s1) as Hs1 by by eapply with_table_shape.
  assert (table_of gi s1 = take (i + n) tb ++ drop (S (i + n)) tb ∧
    indices_of gi s1 = take (i + n) ix ++ drop (S (i + n)) ix) as [Ht1 Hi1]
    by by eapply with_table_of.
  assert (∀ l : list Z, (i + n < length l)%nat →
    take i (take (i + n) l ++ drop (S (i + n)) l) = take i l ∧
    drop (i + n) (take (i + n) l ++ drop (S (i + n)) l) = drop (i + S n) l ∧
    take n (drop i (take (i + n) l ++ drop (S (i + n)) l)) = take n (drop i l)) as Hlist.
  { intros l Hll. split_and!.
    - rewrite take_app_le by (rewrite length_take; lia). rewrite take_take. f_equal. lia.
    - rewrite drop_app_ge by (rewrite length_take; lia). rewrite length_take.
      replace (i + n - (i + n) `min` length l)%nat with 0%nat by lia. rewrite drop_0. f_equal. lia.
    - rewrite !take_drop_commute. f_equal.
      rewrite take_app_le by (rewrite length_take; lia). rewrite take_take. f_equal. lia. }
  destruct (Hlist ix ltac:(lia)) as (Hx1 & Hx2 & _).
  destruct (Hlist tb ltac:(lia)) as (Hy1 & Hy2 & Hy3).
  destruct (IH s1 p1 Hs1 Hg Hp) as (p' & Hrun & Hinv').
  { rewrite Hi1, length_app, length_take, length_drop. lia. }
  { by rewrite Ht1, Hy3. }
  exists p'. split; [|done].
  assert (rev (seqn_from i (S n)) = (i + n)%nat :: rev (seqn_from i n)) as ->.
  { unfold seqn_from. by rewrite seq_S, rev_app_distr. }
  simpl. erewrite sbind_Ok by done. rewrite Hrun, Ht1, Hi1, Hx1, Hx2, Hy1, Hy2.
  unfold s1. by rewrite with_table_twice.
Qed.
End drain.

(** ** The eviction of every group *)

Section evict_groups.
Context (bpg cap : Z) (groups : list LayerGroup) (seq : Z) (seqs : gmap Z SeqState).
Context (ctx : Z) (evict : list (Z * Z)).

(** Two states that differ in their tables and mirror only. *)
Definition same_but_blocks (s s' : SeqState) : Prop :=
  s' = set_mirror (q_mirror s') (set_tables (q_tables s') (q_indices s') s).

#[local] Instance same_but_blocks_preorder : PreOrder same_but_blocks.
Proof.
  unfold same_but_blocks. split.
  - by intros [].
  - intros x y z H1 H2.
    transitivity (set_mirror (q_mirror z) (set_tables (q_tables z) (q_indices z) y)); [exact H2|].
    by rewrite H1.
Qed.

(** The state between two groups of the loop. *)
Definition evicting (st : committing) : Prop :=
  seq_shape groups st.1 ∧ pools_inv bpg cap groups st.2 (<[seq := st.1]> seqs).

Lemma evict_group_ok gi g s pools :
  evicting (s, pools) → groups !! gi = Some g → spec_u32 (g_spec g) → 0 ≤ ctx ≤ MAX_CTX_HARD →
  evict !! gi = Some (evict_range ctx (g_spec g)) →
  ∃ s' pools',
    evict_group evict (gi, g) (s, pools) = (Ok tt, (s', pools')) ∧ evicting (s', pools') ∧
    same_but_blocks s s' ∧
    (∀ b, page_map_of gi s' !! b =
          if evicts (g_spec g) ctx b then None else page_map_of gi s !! b) ∧
    (∀ gj, gj ≠ gi → table_of gj s' = table_of gj s ∧ indices_of gj s' = indices_of gj s) ∧
    (∀ gj pos, q_mirror s' !! (gj, pos) =
       if decide (gj = gi) then
         if evicts (g_spec g) ctx (pos / BLOCK_TOKENS) then None else q_mirror s !! (gj, pos)
       else q_mirror s !! (gj, pos)).
Proof.
  intros [Hs Hpools] Hg Hu Hc Hev. simpl in *.
  pose proof (evict_range_cases (g_spec g) ctx Hu Hc) as Hcase.
  unfold evicts. unfold evict_group, sbind, slift, sget. rewrite Hev. simpl.
  destruct (evict_range ctx (g_spec g)) as [lo hi].
  destruct Hcase as [(Hle & [= -> ->] & _)|(Hlt & Hhi & Hp & _ & _)].
  { exists s, pools. split_and!; [done|split; done|by destruct s| |done|].
    - intros b. destruct (Z.leb_spec U32_MAX b), (Z.ltb_spec b 0); simpl; lia || done.
    - intros gj pos.
      destruct (Z.leb_spec U32_MAX (pos / BLOCK_TOKENS)), (Z.ltb_spec (pos / BLOCK_TOKENS) 0);
        simpl; try lia; by case_decide. }
  destruct (Z.leb_spec hi lo); [lia|]. rewrite Hp. simpl.
  destruct (shape_table groups s gi g Hs Hg) as [Ht Hi]. rewrite Hi. simpl.
  destruct (pools_inv_paged _ _ _ _ _ _ _ Hpools Hg Hp) as (p & Hpool & Hpi).
  rewrite (proj2 (get_some_Some _ _ _) Hpool). simpl.
  set (i := partition_point (λ x, x <? lo) (indices_of gi s)).
  set (j := partition_point (λ x, x <? hi) (indices_of gi s)).
  pose proof (pp_mono lo hi (indices_of gi s) ltac:(lia)) as Hij. fold i j in Hij.
  pose proof (partition_point_le (λ x, x <? hi) (indices_of gi s)) as Hj. fold j in Hj.
  pose proof (shape_aligned groups s gi g Hs Hg) as Ha.
  assert (i + (j - i) = j)%nat as Hijeq by lia.
  set (s1 := with_table gi (take i (indices_of gi s) ++ drop j (indices_of gi s))
                           (take i (table_of gi s) ++ drop j (table_of gi s)) s).
  assert (aligned (take i (indices_of gi s) ++ drop j (indices_of gi s))
            (take i (table_of gi s) ++ drop j (table_of gi s))) as Ha1
    by by apply aligned_remove_span.
  assert (seq_shape groups s1) as Hs1 by by eapply with_table_shape.
  assert (table_of gi s1 = take i (table_of gi s) ++ drop j (table_of gi s) ∧
    indices_of gi s1 = take i (indices_of gi s) ++ drop j (indices_of gi s)) as [Ht1 Hi1]
    by by eapply with_table_of.
  assert (table_of gi s ≡ₚ rev (take (j - i) (drop i (table_of gi s))) ++ table_of gi s1) as Hperm.
  { rewrite Ht1, <- Permutation_rev.
    rewrite <- (take_drop i (table_of gi s)) at 1.
    rewrite <- (take_drop (j - i) (drop i (table_of gi s))) at 1.
    rewrite drop_drop, Hijeq. rewrite !(assoc_L (++)).
    by rewrite (Permutation_app_comm (take i (table_of gi s))). }
  destruct (evict_loop bpg cap groups gi g (owned (table_of gi) (<[seq := s1]> seqs))
    (j - i) i s p Hs Hg Hp) as (p' & Hrun & Hpi').
  { rewrite Hijeq. exact Hj. }
  { destruct Hpi as [Hpart Hst]. split; [|done].
    eapply (partitioned_proper p); [|done]. rewrite !owned_update, (assoc_L (++)).
    by apply Permutation_app_tail. }
  rewrite Hijeq in Hrun. unfold szoom, smodify. cbn [fst snd]. rewrite Hrun. cbn [fst snd].
  fold s1. eexists _, _. split; [reflexivity|].
  set (s2 := set_mirror _ s1).
  assert (page_map_of gi s2 = page_map_of gi s1) as Hpm by done.
  split_and!.
  - split; simpl; [by apply (seq_shape_ext _ s1)|].
    eapply pools_inv_update; try done.
    + destruct Hpi' as [Hpart Hst]. split; [|done].
      eapply (partitioned_proper p'); [|done]. by rewrite !owned_update.
    + intros gj Hne. rewrite !owned_update. f_equiv.
      change (table_of gj s2) with (table_of gj s1).
      assert (table_of gj s1 = table_of gj s) as -> by (by apply with_table_ne). done.
  - done.
  - intros b. rewrite Hpm. unfold page_map_of at 1. rewrite Ht1, Hi1.
    apply (page_map_span lo hi (indices_of gi s) (table_of gi s) b Ha). lia.
  - intros gj Hne. by apply with_table_ne.
  - intros gj pos. simpl. unfold in_evicted.
    destruct (q_mirror s !! (gj, pos)) as [tok|] eqn:Hm.
    + destruct (decide (gj = gi)) as [->|Hne].
      * destruct ((lo <=? pos / BLOCK_TOKENS) && (pos / BLOCK_TOKENS <? hi)) eqn:Hr.
        -- apply map_lookup_filter_None. right. intros x _. simpl.
           rewrite Nat.eqb_refl. simpl. congruence.
        -- apply map_lookup_filter_Some. split; [done|]. simpl.
           rewrite Nat.eqb_refl. done.
      * apply map_lookup_filter_Some. split; [done|]. simpl.
        rewrite (proj2 (Nat.eqb_neq gj gi)); done.
    + assert (filter (λ kv : (nat * Z) * Z, (kv.1.1 =? gi)%nat && (lo <=? kv.1.2 / BLOCK_TOKENS) &&
        (kv.1.2 / BLOCK_TOKENS <? hi) = false) (q_mirror s) !! (gj, pos) = None) as ->.
      { apply map_lookup_filter_None. by left. }
      repeat case_match; done.
Qed.

Lemma evict_groups_ok l : ∀ s pools,
  evicting (s, pools) → NoDup l.*1 → 0 ≤ ctx ≤ MAX_CTX_HARD →
  (∀ gi g, (gi, g) ∈ l → groups !! gi = Some g ∧ spec_u32 (g_spec g) ∧
     evict !! gi = Some (evict_range ctx (g_spec g))) →
  ∃ s' pools',
    sfor (evict_group evict) l (s, pools) = (Ok tt, (s', pools')) ∧ evicting (s', pools') ∧
    same_but_blocks s s' ∧
    (∀ gi g b, (gi, g) ∈ l → page_map_of gi s' !! b =
       if evicts (g_spec g) ctx b then None else page_map_of gi s !! b) ∧
    (∀ gi g pos, (gi, g) ∈ l → q_mirror s' !! (gi, pos) =
       if evicts (g_spec g) ctx (pos / BLOCK_TOKENS) then None else q_mirror s !! (gi, pos)) ∧
    (∀ gi, gi ∉ l.*1 → page_map_of gi s' = page_map_of gi s ∧
       ∀ pos, q_mirror s' !! (gi, pos) = q_mirror s !! (gi, pos)).
Proof.
  induction l as [|[gi g] l IH]; intros s pools Hev Hnd Hc Hl.
  { exists s, pools. split_and!; try done; intros ? ? ? []%elem_of_nil. }
  apply NoDup_cons in Hnd as [Hni Hnd]. simpl in Hni.
  destruct (Hl gi g ltac:(by left)) as (Hg & Hu & Hgi).
  destruct (evict_group_ok gi g s pools Hev Hg Hu Hc Hgi) as
    (s1 & pools1 & Hrun1 & Hev1 & Hsame1 & Hpm1 & Hot1 & Hmi1).
  destruct (IH s1 pools1 Hev1 Hnd Hc) as (s2 & pools2 & Hrun & Hev2 & Hsame & Hpm & Hmi & Hot).
  { intros. apply Hl. by right. }
  exists s2, pools2. simpl. erewrite sbind_Ok by done.
  assert (∀ gj h, (gj, h) ∈ l → gj ≠ gi) as Hne.
  { intros gj h Hin ->. apply Hni. by apply (list_elem_of_fmap_2 fst _ (gi, h)). }
  assert (∀ gj, gj ≠ gi → page_map_of gj s1 = page_map_of gj s) as Hpmo.
  { intros gj Hd. unfold page_map_of. by destruct (Hot1 gj Hd) as [-> ->]. }
  split_and!; [done|done|by transitivity s1| | |].
  - intros gj h b [[= -> ->]|Hin]%elem_of_cons.
    + destruct (Hot gi Hni) as [-> _]. apply Hpm1.
    + rewrite (Hpm gj h b Hin), Hpmo by by eapply Hne. done.
  - intros gj h pos [[= -> ->]|Hin]%elem_of_cons.
    + destruct (Hot gi Hni) as [_ ->]. by rewrite Hmi1, decide_True.
    + rewrite (Hmi gj h pos Hin), Hmi1, decide_False by by eapply Hne. done.
  - intros gj Hj. destruct (Hot gj) as [-> Hm]; [set_solver|]. split; [apply Hpmo; set_solver|].
    intros pos. rewrite Hm, Hmi1, decide_False by set_solver. done.
Qed.
End evict_groups.

(** ** The swap *)

Lemma flip_all_ok l : ∀ s,
  NoDup (map g_index l) → (∀ g, g ∈ l → (g_index g < length (q_parity s))%nat) →
  ∃ parity,
    sfor flip_parity l s = (Ok tt, set_parity parity s) ∧ length parity = length (q_parity s) ∧
    (∀ g, g ∈ l → parity !! g_index g =
       (if is_recurrent (g_spec g) then (λ b, Z.lxor b 1) else id) <$> q_parity s !! g_index g) ∧
    (∀ i, i ∉ map g_index l → parity !! i = q_parity s !! i).
Proof.
  induction l as [|g l IH]; intros s Hnd Hl; simpl.
  { exists (q_parity s). split_and!; try done; [by destruct s|]. intros ? []%elem_of_nil. }
  apply NoDup_cons in Hnd as [Hni Hnd].
  pose proof (Hl g ltac:(by left)) as Hlt.
  destruct (lookup_lt_is_Some_2 (q_parity s) (g_index g) Hlt) as [b Hb].
  set (p1 := if is_recurrent (g_spec g) then <[g_index g := Z.lxor b 1]> (q_parity s) else q_parity s).
  assert (flip_parity g s = (Ok tt, set_parity p1 s)) as Hone.
  { unfold flip_parity, p1. destruct (is_recurrent (g_spec g)).
    - unfold sbind, sget, slift, smodify. rewrite Hb. simpl. unfold vec_set.
      destruct (Nat.ltb_spec (g_index g) (length (q_parity s))); [done|lia].
    - unfold sret. by destruct s. }
  assert (length p1 = length (q_parity s)) as Hlen1.
  { unfold p1. destruct (is_recurrent _); [apply length_insert|done]. }
  destruct (IH (set_parity p1 s) Hnd) as (parity & Hrun & Hlen & Hin & Hout).
  { intros h Hh. simpl. rewrite Hlen1. apply Hl. by right. }
  exists parity. erewrite sbind_Ok by done. simpl in *.
  assert (p1 !! g_index g =
    (if is_recurrent (g_spec g) then (λ b, Z.lxor b 1) else id) <$> Some b) as Hp1.
  { unfold p1. destruct (is_recurrent (g_spec g)); simpl; [|done].
    by rewrite list_lookup_insert_eq. }
  assert (∀ i, i ≠ g_index g → p1 !! i = q_parity s !! i) as Hp1ne.
  { intros i Hne. unfold p1. destruct (is_recurrent _); [|done]. by rewrite list_lookup_insert_ne. }
  split_and!.
  - rewrite Hrun. done.
  - by rewrite Hlen.
  - intros h [->|Hh]%elem_of_cons.
    + rewrite Hout by done. by rewrite Hp1, Hb.
    + rewrite Hin by done. rewrite Hp1ne; [done|]. intros Heq. apply Hni. rewrite <- Heq.
      by apply (list_elem_of_fmap_2 g_index).
  - intros i Hi. rewrite Hout by set_solver. apply Hp1ne. set_solver.
Qed.

Lemma layout_index_NoDup groups : layout_ok groups → NoDup (map g_index groups).
Proof.
  intros [_ Hg]. assert (map g_index groups = seq 0 (length groups)) as ->; [|apply NoDup_seq].
  apply list_eq. intros i. change (map g_index) with (fmap (M:=list) g_index).
  rewrite list_lookup_fmap. destruct (groups !! i) as [g|] eqn:Hi; simpl.
  - destruct (Hg i g Hi) as [-> _]. symmetry. apply lookup_seq.
    split; [lia|]. by eapply lookup_lt_Some.
  - symmetry. apply lookup_seq_ge. by apply lookup_ge_None.
Qed.

(** ** [commit] *)

(** Whether a commit swaps the recurrent buffers. *)
Definition swaps_buffers (m : StateManager) (accepted : Z) : bool :=
  (0 <? accepted) && existsb (λ g, is_recurrent (g_spec g)) (m_groups m).

Inductive commit_refused (m : StateManager) (seq accepted : Z) : StateError → Prop :=
| cr_unknown : m_seqs m !! seq = None → commit_refused m seq accepted (UnknownSeq seq)
| cr_closed s : m_seqs m !! seq = Some s → q_tail_len s = 0 →
    commit_refused m seq accepted (NoReservation seq)
| cr_large s : m_seqs m !! seq = Some s → 0 < q_tail_len s < accepted →
    commit_refused m seq accepted (CommitTooLarge accepted (q_tail_len s))
| cr_compacted s c : m_seqs m !! seq = Some s → q_compacted s = Some c → accepted ≠ Z.of_nat c →
    commit_refused m seq accepted
      (InvalidCompact c (q_tail_len s) (CommitNotCompacted accepted c))
| cr_commits : m_commits m = U64_MAX → commit_refused m seq accepted (Overflow "commit count")
| cr_swaps : swaps_buffers m accepted = true → m_swaps m = U64_MAX →
    commit_refused m seq accepted (Overflow "swap count").

Record commit_admitted (m : StateManager) (seq accepted : Z) (s : SeqState) : Prop := {
  ca_seq : m_seqs m !! seq = Some s;
  ca_open : q_tail_len s ≠ 0;
  ca_accepted : accepted ≤ q_tail_len s;
  ca_compacted c : q_compacted s = Some c → accepted = Z.of_nat c;
  ca_commits : m_commits m < U64_MAX;
  ca_swaps : swaps_buffers m accepted = true → m_swaps m < U64_MAX
}.

(** What a commit does. *)
Record commit_done (m : StateManager) (seq accepted : Z) (s s' : SeqState) (m' : StateManager)
    : Prop := {
  cd_manager : m' = set_counts (m_next_seq m) (m_live_count m)
      (if swaps_buffers m accepted then m_swaps m + 1 else m_swaps m) (m_commits m + 1)
      (set_store (m_pools m') (m_fixed m) (<[seq := s']> (m_seqs m)) m);
  cd_state : q_ctx_len s' = q_ctx_len s + accepted ∧ q_tail_len s' = 0 ∧
      q_compacted s' = None ∧ q_fixed_slots s' = q_fixed_slots s;
  cd_blocks gi g b : m_groups m !! gi = Some g →
      page_map_of gi s' !! b =
      if evicts (g_spec g) (q_ctx_len s') b then None else page_map_of gi s !! b;
  cd_mirror gi g pos : m_groups m !! gi = Some g →
      q_mirror s' !! (gi, pos) =
      if evicts (g_spec g) (q_ctx_len s') (pos / BLOCK_TOKENS) then None
      else q_mirror s !! (gi, pos);
  cd_parity gi g : m_groups m !! gi = Some g →
      q_parity s' !! gi =
      (if (0 <? accepted) && is_recurrent (g_spec g) then (λ b, Z.lxor b 1) else id)
        <$> q_parity s !! gi
}.

(** The pre-check of the evicted ids never refuses. *)
Lemma evict_check_ok bpg m seq s ctx ev gi g :
  manager_inv bpg m → m_seqs m !! seq = Some s → m_groups m !! gi = Some g →
  0 ≤ ctx ≤ MAX_CTX_HARD → ev !! gi = Some (evict_range ctx (g_spec g)) →
  evict_check seq m s ev (gi, g) = Ok tt.
Proof.
  intros Hinv Hs Hg Hc Hev. pose proof (so_shape _ _ _ (proj2 (mi_seqs _ _ Hinv seq s Hs))) as Hsh.
  destruct (mi_layout _ _ Hinv) as [_ Hl]. destruct (Hl gi g Hg) as [_ [Hu _]].
  pose proof (evict_range_cases (g_spec g) ctx Hu Hc) as Hcase.
  unfold evict_check. rewrite Hev. simpl. destruct (evict_range ctx (g_spec g)) as [lo hi].
  destruct (Z.leb_spec hi lo); [done|].
  destruct Hcase as [(? & _)|(_ & _ & Hp & _)]; [lia|]. rewrite Hp. simpl.
  destruct (pools_inv_paged _ _ _ _ _ _ _ (mi_pools _ _ Hinv) Hg Hp) as (p & Hpool & Hpart & _).
  rewrite (proj2 (get_some_Some _ _ _) Hpool). simpl.
  destruct (shape_table _ s gi g Hsh Hg) as [Ht Hi]. rewrite Hi, Ht. simpl.
  apply oforM_Ok, Forall_forall. intros at_ Hat. unfold seqn_from in Hat.
  apply elem_of_seq in Hat.
  pose proof (partition_point_le (λ i, i <? hi) (indices_of gi s)).
  pose proof (shape_aligned _ s gi g Hsh Hg) as [_ Hlen].
  destruct (lookup_lt_is_Some_2 (table_of gi s) at_) as [id Hid]; [lia|].
  rewrite Hid. simpl.
  rewrite (owned_lookup (table_of gi) (m_seqs m) seq s Hs) in Hpart.
  destruct (block_owned p _ id Hpart) as [Hn Hr].
  { apply elem_of_app. left. by eapply list_elem_of_lookup_2. }
  destruct (Z.leb_spec (p_total p) id); [lia|].
  destruct (contains id p) eqn:Hcon; [|done].
  apply contains_spec in Hcon; [done|]. apply Hpart.
Qed.

(** The outcome of the checks. *)
Lemma commit_check_spec bpg m seq accepted :
  manager_inv bpg m → 0 ≤ accepted →
  match commit_check seq accepted m with
  | Err e => commit_refused m seq accepted e
  | Ok (new_ctx, next_commits, next_swaps, evict) => ∃ s, commit_admitted m seq accepted s ∧
      new_ctx = q_ctx_len s + accepted ∧ next_commits = m_commits m + 1 ∧
      next_swaps = (if swaps_buffers m accepted then Some (m_swaps m + 1) else None) ∧
      ∀ gi g, m_groups m !! gi = Some g → evict !! gi = Some (evict_range new_ctx (g_spec g))
  | Panic => False
  end.
Proof.
  intros Hinv Hacc. unfold commit_check.
  destruct (m_seqs m !! seq) as [s|] eqn:Hs.
  2: { rewrite seq_state_None by done. by constructor. }
  rewrite (seq_state_Some m seq s Hs). simpl.
  pose proof (mi_seqs _ _ Hinv seq s Hs) as [_ Hok].
  pose proof (so_ctx _ _ _ Hok). pose proof (so_tail _ _ _ Hok). pose proof (so_end _ _ _ Hok).
  pose proof (mi_config _ _ Hinv) as (Hctx & _ & _).
  destruct (mi_counters _ _ Hinv) as [Hsw Hco].
  destruct (Z.eqb_spec (q_tail_len s) 0) as [|Hopen]; [by eapply cr_closed|].
  destruct (Z.ltb_spec (q_tail_len s) accepted) as [|Hle]; [eapply cr_large; [done|lia]|].
  assert (match q_compacted s with
    | Some c => if accepted =? Z.of_nat c then Ok tt
                else Err (InvalidCompact c (q_tail_len s) (CommitNotCompacted accepted c))
    | None => Ok tt end = Ok tt ∧ (∀ c, q_compacted s = Some c → accepted = Z.of_nat c) ∨
    ∃ c, q_compacted s = Some c ∧ accepted ≠ Z.of_nat c) as [[-> Hcomp]|(c & Hcs & Hne)].
  { destruct (q_compacted s) as [c|]; [|by left].
    destruct (Z.eqb_spec accepted (Z.of_nat c)); [left; naive_solver|right; eauto]. }
  2: { rewrite Hcs. destruct (Z.eqb_spec accepted (Z.of_nat c)); [done|]. simpl.
       by eapply cr_compacted. }
  simpl. rewrite checked_add_ok by (unfold MAX_CTX_HARD, U32_MAX in *; lia). simpl.
  unfold checked_add at 1. destruct (Z.leb_spec (m_commits m + 1) U64_MAX) as [Hc1|Hc1]; simpl.
  2: { apply cr_commits. lia. }
  fold (swaps_buffers m accepted).
  destruct (evict_ranges_ok (q_ctx_len s + accepted) (m_groups m) (mi_layout _ _ Hinv))
    as (ev & Hev & Hevg); [unfold MAX_CTX_HARD in *; lia|].
  assert (oforM (evict_check seq m s ev) (enumerate (m_groups m)) = Ok tt) as Hchk.
  { apply oforM_Ok, Forall_forall. intros [gi g] Hg%elem_of_enumerate.
    apply (evict_check_ok bpg m seq s (q_ctx_len s + accepted)); try done; [lia|by apply Hevg]. }
  destruct (swaps_buffers m accepted) eqn:Hswap; simpl.
  - unfold checked_add at 1. destruct (Z.leb_spec (m_swaps m + 1) U64_MAX); simpl.
    2: { apply cr_swaps; [done|lia]. }
    rewrite Hev. simpl. rewrite Hchk. simpl. exists s.
    split_and!; [|done..]. split; try done; try lia.
  - rewrite Hev. simpl. rewrite Hchk. simpl. exists s.
    split_and!; [|done..]. split; try done; try lia. congruence.
Qed.

(** The mutation phase. *)
Lemma commit_apply_ok bpg m seq s ctx ev (swap : bool) :
  manager_inv bpg m → m_seqs m !! seq = Some s → 0 ≤ ctx ≤ MAX_CTX_HARD →
  (∀ gi g, m_groups m !! gi = Some g → ev !! gi = Some (evict_range ctx (g_spec g))) →
  ∃ s' pools',
    commit_apply (m_groups m) ctx swap ev (s, m_pools m) = (Ok tt, (s', pools')) ∧
    evicting bpg (max_seqs (m_config m)) (m_groups m) seq (m_seqs m) (s', pools') ∧
    (q_ctx_len s' = ctx ∧ q_tail_len s' = 0 ∧ q_compacted s' = None ∧
     q_fixed_slots s' = q_fixed_slots s) ∧
    (∀ gi g b, m_groups m !! gi = Some g → page_map_of gi s' !! b =
       if evicts (g_spec g) ctx b then None else page_map_of gi s !! b) ∧
    (∀ gi g pos, m_groups m !! gi = Some g → q_mirror s' !! (gi, pos) =
       if evicts (g_spec g) ctx (pos / BLOCK_TOKENS) then None else q_mirror s !! (gi, pos)) ∧
    (∀ gi g, m_groups m !! gi = Some g → q_parity s' !! gi =
       (if swap && is_recurrent (g_spec g) then (λ b, Z.lxor b 1) else id) <$> q_parity s !! gi) ∧
    (∀ gi pos, m_groups m !! gi = None → q_mirror s' !! (gi, pos) = q_mirror s !! (gi, pos)).
Proof.
  intros Hinv Hs Hc Hev. pose proof (mi_layout _ _ Hinv) as Hlay.
  pose proof (so_shape _ _ _ (proj2 (mi_seqs _ _ Hinv seq s Hs))) as Hsh.
  set (s0 := set_lens ctx 0 None s).
  assert (evicting bpg (max_seqs (m_config m)) (m_groups m) seq (m_seqs m) (s0, m_pools m)) as H0.
  { split; simpl; [by apply (seq_shape_ext _ s)|].
    eapply pools_inv_same; [apply (mi_pools _ _ Hinv)|]. intros gi.
    by eapply owned_same. }
  destruct (evict_groups_ok bpg (max_seqs (m_config m)) (m_groups m) seq (m_seqs m) ctx ev
    (enumerate (m_groups m)) s0 (m_pools m) H0) as
    (s1 & pools1 & Hrun & [Hsh1 Hp1] & Hsame & Hpm & Hmi & Hout).
  { rewrite enumerate_fst. apply NoDup_seq. }
  { done. }
  { intros gi g Hg%elem_of_enumerate. split_and!; [done| |by apply Hev].
    by destruct Hlay as [_ Hl]; destruct (Hl gi g Hg) as [_ [? _]]. }
  simpl in Hsh1, Hp1.
  assert (∀ gi g, m_groups m !! gi = Some g → (gi, g) ∈ enumerate (m_groups m)) as Hen
    by (intros; by apply elem_of_enumerate).
  assert (∀ gi, m_groups m !! gi = None → gi ∉ (enumerate (m_groups m)).*1) as Hno.
  { intros gi Hgi. rewrite enumerate_fst, elem_of_seq. apply lookup_ge_None in Hgi. lia. }
  assert (q_ctx_len s1 = ctx ∧ q_tail_len s1 = 0 ∧ q_compacted s1 = None ∧
    q_fixed_slots s1 = q_fixed_slots s ∧ q_parity s1 = q_parity s) as (H1 & H2 & H3 & H4 & H5)
    by by rewrite Hsame.
  unfold commit_apply. erewrite sbind_Ok by done. fold s0. erewrite sbind_Ok by done.
  destruct swap.
  - destruct (flip_all_ok (m_groups m) s1 (layout_index_NoDup _ Hlay)) as
      (parity & Hflip & Hlen & Hin & _).
    { intros g (gi & Hgi)%list_elem_of_lookup. destruct Hlay as [_ Hl].
      destruct (Hl gi g Hgi) as [-> _]. rewrite (ss_parity _ _ Hsh1). by eapply lookup_lt_Some. }
    unfold szoom. cbn [fst snd]. rewrite Hflip. exists (set_parity parity s1), pools1.
    assert (∀ gi g, m_groups m !! gi = Some g → parity !! gi =
      (if is_recurrent (g_spec g) then (λ b, Z.lxor b 1) else id) <$> q_parity s !! gi) as Hpar.
    { intros gi g Hg. rewrite <- H5. destruct Hlay as [_ Hl]. destruct (Hl gi g Hg) as [Hix _].
      specialize (Hin g ltac:(by eapply list_elem_of_lookup_2)). by rewrite Hix in Hin. }
    split_and!; try done.
    + split; simpl; [|eapply pools_inv_same; [done|]; intros gi; by rewrite !owned_update].
      destruct Hsh1 as [t1 t2 t3 t4 t5 t6 t7].
      split; simpl; try done; [by rewrite Hlen|].
      apply Forall_lookup. intros gi b Hb.
      destruct (m_groups m !! gi) as [g|] eqn:Hg.
      * rewrite (Hpar gi g Hg), <- H5 in Hb.
        destruct (q_parity s1 !! gi) as [b0|] eqn:Hb0; [|done].
        rewrite Forall_lookup in t5. specialize (t5 gi b0 Hb0). simpl in Hb.
        destruct (is_recurrent (g_spec g)); simplify_eq/=; [|done].
        destruct t5 as [->| ->]; [by right|by left].
      * apply lookup_ge_None in Hg. apply lookup_lt_Some in Hb. lia.
    + intros gi g b Hg. change (page_map_of gi (set_parity parity s1)) with (page_map_of gi s1).
      rewrite (Hpm gi g b (Hen gi g Hg)). done.
    + intros gi g pos Hg. simpl. rewrite (Hmi gi g pos (Hen gi g Hg)). done.
    + intros gi pos Hg. simpl. by destruct (Hout gi (Hno gi Hg)) as [_ ->].
  - exists s1, pools1. split_and!; try done.
    + intros gi g b Hg. rewrite (Hpm gi g b (Hen gi g Hg)). done.
    + intros gi g pos Hg. rewrite (Hmi gi g pos (Hen gi g Hg)). done.
    + intros gi g Hg. rewrite H5. simpl. by rewrite option_fmap_id.
    + intros gi pos Hg. by destruct (Hout gi (Hno gi Hg)) as [_ ->].
Qed.

Lemma window_law_commit mb spec ctx tail ctx' held held' :
  spec_u32 spec → 0 ≤ ctx → ctx ≤ ctx' ≤ ctx + tail → ctx' ≤ MAX_CTX_HARD →
  window_law mb spec ctx (ctx + tail) held →
  (∀ b, b ∈ held' ↔ b ∈ held ∧ evicts spec ctx' b = false) →
  window_law mb spec ctx' ctx' held'.
Proof.
  intros Hu Hc Hc' Hmax (hw & Hhw & Hheld) Hheld'. exists hw. split.
  - pose proof (div_ceil_mono ctx' (ctx + tail) BLOCK_TOKENS ltac:(done) ltac:(lia)). lia.
  - intros b. rewrite Hheld', Hheld. split.
    + intros [[Hb Hr] He]. split; [done|]. apply evicts_retained in He; [done|done|lia|lia].
    + intros [Hb Hr]. split; [split; [done|]|].
      * eapply retained_mono; [done| |done]. lia.
      * apply evicts_retained; [done|lia|lia|done].
Qed.

Lemma commit_cases bpg m seq accepted :
  manager_inv bpg m → 0 ≤ accepted →
  match commit seq accepted m with
  | (Err e, m') => commit_refused m seq accepted e ∧ m' = m
  | (Ok _, m') => ∃ s s', commit_admitted m seq accepted s ∧
      commit_done m seq accepted s s' m' ∧ manager_inv bpg m'
  | (Panic, _) => False
  end.
Proof.
  intros Hinv Hacc. pose proof (commit_check_spec bpg m seq accepted Hinv Hacc) as Hcheck.
  unfold commit. destruct (commit_check seq accepted m) as [[[[ctx nc] ns] ev]|e|] eqn:Hc; [| |done].
  2: { erewrite sbind_Err by (unfold sread; by rewrite Hc). done. }
  destruct Hcheck as (s & Had & -> & -> & -> & Hev).
  erewrite sbind_Ok by (unfold sread; by rewrite Hc). cbn beta iota.
  pose proof (ca_seq _ _ _ _ Had) as Hs.
  erewrite sbind_Ok by (unfold sread; by rewrite (seq_state_Some m seq s Hs)).
  erewrite sbind_Ok by done.
  pose proof (mi_seqs _ _ Hinv seq s Hs) as [Hid Hok].
  pose proof (so_ctx _ _ _ Hok) as Hc0. pose proof (so_end _ _ _ Hok) as Hend.
  pose proof (ca_accepted _ _ _ _ Had) as Hat.
  pose proof (mi_config _ _ Hinv) as (Hctx & _ & _).
  set (swap := match (if swaps_buffers m accepted then Some (m_swaps m + 1) else None) with
               | Some _ => true | None => false end).
  assert (swap = swaps_buffers m accepted) as Hswap by (unfold swap; by destruct (swaps_buffers m accepted)).
  destruct (commit_apply_ok bpg m seq s (q_ctx_len s + accepted) ev swap Hinv Hs) as
    (s' & pools' & Hrun & [Hsh Hpo] & Hst & Hbl & Hmi & Hpar & Hmout); [lia|done|].
  unfold szoom. unfold sbind at 1. cbn beta. fold swap. rewrite Hrun.
  unfold smodify. exists s, s'. split; [done|]. simpl in Hsh, Hpo.
  set (m' := set_counts _ _ _ _ _).
  assert (commit_done m seq accepted s s' m') as Hdone.
  { destruct Hst as (Hs1 & Hs2 & Hs3 & Hs4).
    split; [|done| | |].
    - unfold m'. simpl. by destruct (swaps_buffers m accepted).
    - intros gi g b Hg. rewrite Hs1. by apply Hbl.
    - intros gi g pos Hg. rewrite Hs1. by apply Hmi.
    - intros gi g Hg. rewrite (Hpar gi g Hg), Hswap. unfold swaps_buffers.
      assert (is_recurrent (g_spec g) = true → existsb (λ g, is_recurrent (g_spec g)) (m_groups m) = true) as Hex.
      { intros Hr. apply existsb_exists. exists g. split; [|done].
        apply list_elem_of_In. by eapply list_elem_of_lookup_2. }
      destruct (0 <? accepted); simpl; [|done].
      destruct (is_recurrent (g_spec g)); [by rewrite Hex|by rewrite andb_false_r]. }
  split; [done|].
  destruct Hst as (Hs1 & Hs2 & Hs3 & Hs4).
  assert (∀ gi g b, m_groups m !! gi = Some g →
    b ∈ indices_of gi s' ↔ b ∈ indices_of gi s ∧ evicts (g_spec g) (q_ctx_len s + accepted) b = false)
    as Hixs.
  { intros gi g b Hg.
    pose proof (shape_aligned _ s' gi g Hsh Hg) as Ha'.
    pose proof (shape_aligned _ s gi g (so_shape _ _ _ Hok) Hg) as Ha.
    rewrite <- (page_map_dom _ _ b Ha'), <- (page_map_dom _ _ b Ha).
    fold (page_map_of gi s') (page_map_of gi s). rewrite (Hbl gi g b Hg).
    destruct (evicts _ _ b); [|tauto]. split; [by intros [? ?]|by intros [_ ?]]. }
  eapply (manager_inv_update bpg m m' seq s s'); try done.
  - simpl. destruct (mi_counters _ _ Hinv). pose proof (ca_swaps _ _ _ _ Had) as Hsw.
    destruct (swaps_buffers m accepted); simpl; [specialize (Hsw eq_refl)|]; lia.
  - simpl. destruct (mi_counters _ _ Hinv). pose proof (ca_commits _ _ _ _ Had). lia.
  - split; [done|lia..| |].
    + intros gi g Hg Hp. rewrite Hs1, Hs2, Z.add_0_r.
      pose proof (so_law _ _ _ Hok gi g Hg Hp) as Hlaw.
      eapply window_law_commit; [| | | |done|]; [|lia..|].
      * by destruct (mi_layout _ _ Hinv) as [_ Hl]; destruct (Hl gi g Hg) as [_ [? _]].
      * intros b. by apply Hixs.
    + intros gi pos tok Hm. destruct (m_groups m !! gi) as [g|] eqn:Hg.
      * rewrite (Hmi gi g pos Hg) in Hm. destruct (evicts _ _ _) eqn:He; [done|].
        destruct (so_mirror _ _ _ Hok gi pos tok Hm) as (H0 & g' & Hg' & Hp & Hin).
        assert (g' = g) as -> by congruence.
        split; [done|]. exists g. split_and!; [done..|]. apply (Hixs gi g _ Hg). done.
      * rewrite (Hmout gi pos Hg) in Hm.
        destruct (so_mirror _ _ _ Hok gi pos tok Hm) as (_ & g' & Hg' & _). congruence.
Qed.

(** C9: [commit] refuses only for the listed reasons, changing nothing; it
    never panics and its pre-check of the evicted blocks never fails.
    Otherwise the context grows by the accepted tokens, the reservation
    closes, every group drops exactly the blocks outside its sink and window
    together with their mirrored tokens and keeps the ids of the rest, and
    the recurrent buffers swap exactly when a token was accepted. *)
Theorem commit_spec m seq accepted :
  manager_ok m → 0 ≤ accepted →
  match commit seq accepted m with
  | (Err e, m') => commit_refused m seq accepted e ∧ m' = m
  | (Ok _, m') => ∃ s s', commit_admitted m seq accepted s ∧ commit_done m seq accepted s s' m'
  | (Panic, _) => False
  end.
Proof.
  intros [bpg Hinv] Hacc. pose proof (commit_cases bpg m seq accepted Hinv Hacc) as H.
  destruct (commit seq accepted m) as [[u|e|] m']; [|done..].
  destruct H as (s & s' & ? & ? & _). by exists s, s'.
Qed.

Lemma commit_inv bpg m seq accepted :
  manager_inv bpg m → 0 ≤ accepted → manager_inv bpg (snd (commit seq accepted m)).
Proof.
  intros Hinv Hacc. pose proof (commit_cases bpg m seq accepted Hinv Hacc) as H.
  destruct (commit seq accepted m) as [[u|e|] m']; simpl.
  - by destruct H as (_ & _ & _ & _ & ?).
  - by destruct H as [_ ->].
  - done.
Qed.

(** The demonstration manager with two sequences, 70 tokens reserved on the
    first. *)
Definition demo2 : StateManager :=
  Eval vm_compute in snd (reserve 0 70 (snd (new_seq [] demo1))).

Lemma demo2_ok : manager_ok demo2.
Proof.
  destruct demo1_ok as [bpg Hinv]. exists bpg.
  pose proof (reserve_inv bpg _ 0 70 (new_seq_inv bpg demo1 [] Hinv) ltac:(lia)) as H.
  assert (snd (reserve 0 70 (snd (new_seq [] demo1))) = demo2) as Heq by (vm_compute; reflexivity).
  by rewrite Heq in H.
Qed.

Lemma commit_spec_witness :
  fst (commit 0 66 demo2) = Ok tt ∧
  ∃ s s' m', commit_admitted demo2 0 66 s ∧ commit_done demo2 0 66 s s' m'.
Proof.
  split; [vm_compute; reflexivity|].
  pose proof (commit_spec demo2 0 66 demo2_ok ltac:(lia)) as H.
  destruct (commit 0 66 demo2) as [[u|e|] m'] eqn:Hr.
  - destruct H as (s & s' & Ha & Hd). exists s, s', m'. split; [exact Ha|exact Hd].
  - exfalso. assert (fst (commit 0 66 demo2) = Ok tt) as Hf by (vm_compute; reflexivity).
    rewrite Hr in Hf. discriminate Hf.
  - destruct H.
Defined.
