(* ===== verification/Slots.v ===== *)
(** * Slots

    What [slot], [fill_slots] and [flatten_slot] of
    [crates/r9v-state/src/manager.rs] resolve: every position the window law
    keeps has a slot, the slot lies in a block the sequence owns, and no two
    positions of the live sequences share one. *)

From S2P Require Import Prelude Errors Spec Table Pools Manager Invariant Construct Reserve Admission Commit.

#[global] Open Scope Z_scope.

(** The positions a group still needs: the sink and the window, up to the end
    of the reservation. *)
Definition needed_pos (s : StateSpec) (st : SeqState) (pos : Z) : Prop :=
  0 ≤ pos < q_ctx_len st + q_tail_len st ∧
  (pos < match retain s with Some (SinkWindow n _) => n | _ => 0 end ∨
   spec_window_start s (q_ctx_len st) ≤ pos).

Lemma needed_block c groups st gi g pos :
  seq_ok c groups st → groups !! gi = Some g → is_paged (g_spec g) = true →
  needed_pos (g_spec g) st pos → pos / BLOCK_TOKENS ∈ indices_of gi st.
Proof.
  intros Hok Hg Hp [Hpos Hneed]. destruct (so_law _ _ _ Hok gi g Hg Hp) as (hw & Hhw & Hin).
  apply Hin. assert (0 < BLOCK_TOKENS) as HB by done.
  pose proof (pos_block_lt pos (q_ctx_len st + q_tail_len st) BLOCK_TOKENS HB ltac:(lia)).
  split; [split; [apply Z.div_pos; lia|lia]|].
  destruct Hneed as [Hs|Hw].
  - left. unfold sink_blocks. destruct (retain (g_spec g)) as [[|w|n w]|]; try lia.
    by apply pos_block_lt.
  - right. by apply Z.div_le_mono.
Qed.

(** [flatten_slot] is the lookup of the page map. *)
Lemma flatten_slot_spec bpg m seq st gi g pos end_ :
  manager_inv bpg m → m_seqs m !! seq = Some st → m_groups m !! gi = Some g →
  flatten_slot st gi pos end_ =
  match page_map_of gi st !! (pos / BLOCK_TOKENS) with
  | Some id => Ok (id * BLOCK_TOKENS + pos mod BLOCK_TOKENS)
  | None => Err (UnmappedPosition gi pos end_)
  end.
Proof.
  intros Hinv Hs Hg. pose proof (so_shape _ _ _ (proj2 (mi_seqs _ _ Hinv seq st Hs))) as Hsh.
  pose proof (shape_aligned _ st gi g Hsh Hg) as Ha.
  destruct (shape_table _ st gi g Hsh Hg) as [Ht Hi].
  unfold flatten_slot. rewrite Hi, Ht. simpl.
  pose proof (find_block_page_map _ _ (pos / BLOCK_TOKENS) Ha) as Hf. unfold find_block in Hf.
  fold (page_map_of gi st) in Hf. case_decide as Hd; [|by rewrite <- Hf].
  destruct (page_map_of gi st !! (pos / BLOCK_TOKENS)) as [id|] eqn:Hid; rewrite Hf; simpl; [|done].
  assert (id ∈ table_of gi st) as Hin by by eapply page_map_id.
  destruct (is_paged (g_spec g)) eqn:Hp.
  2: { destruct (ss_fixed _ _ Hsh gi g Hg Hp) as (_ & Hn & _). rewrite Hn in Hin.
       by apply elem_of_nil in Hin. }
  destruct (pools_inv_paged _ _ _ _ _ _ _ (mi_pools _ _ Hinv) Hg Hp) as (p & _ & Hpart & Htot & _).
  destruct (block_owned p _ id Hpart) as [_ Hr].
  { apply elem_of_owned. exists seq, st. done. }
  pose proof (mi_bpg _ _ Hinv) as Hb. unfold MAX_SLOT_BLOCKS, BLOCK_TOKENS in *.
  pose proof (Z.mod_pos_bound pos 32 ltac:(lia)).
  rewrite checked_mul_ok by (unfold U64_MAX; lia). simpl.
  rewrite checked_add_ok by (unfold U64_MAX; lia). simpl.
  rewrite try_from_ok by (unfold U32_MAX; lia). done.
Qed.

(** Needed positions are mapped. *)
Lemma needed_resolve m seq st gi g pos end_ :
  manager_ok m → m_seqs m !! seq = Some st → m_groups m !! gi = Some g →
  is_paged (g_spec g) = true → needed_pos (g_spec g) st pos →
  ∃ v, flatten_slot st gi pos end_ = Ok v ∧ 0 ≤ v < SLOT_NONE ∧
       v mod BLOCK_TOKENS = pos mod BLOCK_TOKENS ∧
       page_map_of gi st !! (pos / BLOCK_TOKENS) = Some (v / BLOCK_TOKENS).
Proof.
  intros [bpg Hinv] Hs Hg Hp Hneed. destruct (mi_seqs _ _ Hinv seq st Hs) as [_ Hok].
  pose proof (so_shape _ _ _ Hok) as Hsh. pose proof (shape_aligned _ st gi g Hsh Hg) as Ha.
  pose proof (needed_block _ _ st gi g pos Hok Hg Hp Hneed) as Hin.
  destruct (proj2 (page_map_dom _ _ _ Ha) Hin) as [id Hid].
  rewrite (flatten_slot_spec bpg m seq st gi g pos end_ Hinv Hs Hg).
  fold (page_map_of gi st) in Hid. rewrite Hid.
  assert (id ∈ table_of gi st) as Hit by by eapply page_map_id.
  destruct (pools_inv_paged _ _ _ _ _ _ _ (mi_pools _ _ Hinv) Hg Hp) as (p & _ & Hpart & Htot & _).
  destruct (block_owned p _ id Hpart) as [_ Hr].
  { apply elem_of_owned. exists seq, st. done. }
  pose proof (mi_bpg _ _ Hinv) as Hb. unfold MAX_SLOT_BLOCKS, BLOCK_TOKENS, SLOT_NONE, U32_MAX in *.
  pose proof (Z.mod_pos_bound pos 32 ltac:(lia)) as Hm.
  exists (id * 32 + pos mod 32). split; [done|]. split; [lia|].
  rewrite Z.add_comm, Z.mod_add, Z.mod_mod, Z.div_add, (Z.div_small (pos mod 32)) by lia.
  done.
Qed.

(** Between calls, every position a group still needs (its sink, its
    window and the open reservation) resolves to a slot, and that slot is
    below the "no slot" value. *)
Theorem needed_positions_resolve m seq st gi g pos end_ :
  manager_ok m → m_seqs m !! seq = Some st → m_groups m !! gi = Some g →
  is_paged (g_spec g) = true → needed_pos (g_spec g) st pos →
  ∃ v, flatten_slot st gi pos end_ = Ok v ∧ 0 ≤ v < SLOT_NONE ∧
       v mod BLOCK_TOKENS = pos mod BLOCK_TOKENS ∧
       page_map_of gi st !! (pos / BLOCK_TOKENS) = Some (v / BLOCK_TOKENS).
Proof. apply needed_resolve. Qed.

(** no two token positions of the live sequences share a slot of a group:
    equal slots come from the same sequence and the same position. *)
Theorem slots_injective m seq1 seq2 st1 st2 gi g pos1 pos2 end1 end2 v :
  manager_ok m → m_seqs m !! seq1 = Some st1 → m_seqs m !! seq2 = Some st2 →
  m_groups m !! gi = Some g →
  flatten_slot st1 gi pos1 end1 = Ok v → flatten_slot st2 gi pos2 end2 = Ok v →
  seq1 = seq2 ∧ pos1 = pos2.
Proof.
  intros [bpg Hinv] Hs1 Hs2 Hg.
  rewrite (flatten_slot_spec bpg m seq1 st1 gi g pos1 end1 Hinv Hs1 Hg).
  rewrite (flatten_slot_spec bpg m seq2 st2 gi g pos2 end2 Hinv Hs2 Hg).
  pose proof (so_shape _ _ _ (proj2 (mi_seqs _ _ Hinv seq1 st1 Hs1))) as Hsh1.
  pose proof (so_shape _ _ _ (proj2 (mi_seqs _ _ Hinv seq2 st2 Hs2))) as Hsh2.
  pose proof (shape_aligned _ st1 gi g Hsh1 Hg) as Ha1.
  pose proof (shape_aligned _ st2 gi g Hsh2 Hg) as Ha2.
  destruct (page_map_of gi st1 !! _) as [id1|] eqn:Hid1; [|done].
  destruct (page_map_of gi st2 !! _) as [id2|] eqn:Hid2; [|done].
  intros [= <-] [= Heq]. unfold BLOCK_TOKENS in *.
  pose proof (Z.div_mod pos1 32 ltac:(lia)). pose proof (Z.mod_pos_bound pos1 32 ltac:(lia)).
  pose proof (Z.div_mod pos2 32 ltac:(lia)). pose proof (Z.mod_pos_bound pos2 32 ltac:(lia)).
  assert (id2 = id1) as -> by lia.
  assert (id1 ∈ table_of gi st1) as Hin1 by by eapply page_map_id.
  assert (id1 ∈ table_of gi st2) as Hin2 by by eapply page_map_id.
  destruct (is_paged (g_spec g)) eqn:Hp.
  2: { destruct (ss_fixed _ _ Hsh1 gi g Hg Hp) as (_ & Hn & _). rewrite Hn in Hin1.
       by apply elem_of_nil in Hin1. }
  destruct (pools_inv_paged _ _ _ _ _ _ _ (mi_pools _ _ Hinv) Hg Hp) as (p & _ & Hpart & _).
  pose proof (partitioned_owned_NoDup p _ Hpart) as Hnd.
  assert (seq1 = seq2) as <- by by eapply (owned_unique (table_of gi)).
  split; [done|]. assert (st2 = st1) as -> by congruence.
  apply page_map_lookup in Hid1 as (i1 & Hi1 & Ht1); [|done].
  apply page_map_lookup in Hid2 as (i2 & Hi2 & Ht2); [|done].
  pose proof (owned_NoDup (table_of gi) (m_seqs m) seq1 st1 Hnd Hs1) as Htn.
  assert (i1 = i2) as <- by by eapply NoDup_lookup.
  assert (pos1 / 32 = pos2 / 32) by congruence. lia.
Qed.

(** ** The public accessors *)

(** The open reservation of a sequence. *)
Definition open_range (seq : Z) (st : SeqState) : SlotRange :=
  {| r_seq := seq; r_start := q_ctx_len st; r_len := q_tail_len st |}.

Lemma check_range_live_open seq st : check_range_live st (open_range seq st) = Ok tt.
Proof. unfold check_range_live. simpl. by rewrite !Z.eqb_refl. Qed.

Lemma check_range_live_Ok st r :
  check_range_live st r = Ok tt ↔ q_ctx_len st = r_start r ∧ q_tail_len st = r_len r.
Proof.
  unfold check_range_live.
  destruct (Z.eqb_spec (q_ctx_len st) (r_start r)), (Z.eqb_spec (q_tail_len st) (r_len r));
    simpl; split; intros; try done; lia.
Qed.

(** A position of the open reservation is needed. *)
Lemma reserved_needed s st k :
  spec_u32 s → 0 ≤ q_ctx_len st → 0 ≤ k < q_tail_len st → needed_pos s st (q_ctx_len st + k).
Proof.
  intros Hu Hc Hk. split; [lia|]. right.
  pose proof (spec_window_start_bounds s (q_ctx_len st) Hu Hc). lia.
Qed.

(** The slot of token [k] of a live reservation: "no slot" in a fixed
    group, and in a paged group the slot of position [start + k], which is
    always mapped. *)
Theorem slot_of_reservation m seq st gi g k :
  manager_ok m → m_seqs m !! seq = Some st → m_groups m !! gi = Some g →
  0 ≤ k < q_tail_len st →
  if is_paged (g_spec g)
  then ∃ v, slot (open_range seq st) gi k m = Ok v ∧ 0 ≤ v < SLOT_NONE ∧
         v mod BLOCK_TOKENS = (q_ctx_len st + k) mod BLOCK_TOKENS ∧
         page_map_of gi st !! ((q_ctx_len st + k) / BLOCK_TOKENS) = Some (v / BLOCK_TOKENS)
  else slot (open_range seq st) gi k m = Ok SLOT_NONE.
Proof.
  intros Hok Hs Hg Hk. pose proof Hok as [bpg Hinv].
  destruct (mi_seqs _ _ Hinv seq st Hs) as [_ Hsok].
  pose proof (so_ctx _ _ _ Hsok). pose proof (so_end _ _ _ Hsok).
  pose proof (mi_config _ _ Hinv) as (Hctx & _ & _). unfold MAX_CTX_HARD in Hctx.
  destruct (mi_layout _ _ Hinv) as [_ Hl]. destruct (Hl gi g Hg) as [_ [Hu _]].
  unfold slot, group_at. rewrite Hg. cbn [ok_or obind].
  destruct (Z.leb_spec (r_len (open_range seq st)) k) as [Hlen|_]; [simpl in Hlen; lia|].
  rewrite (seq_state_Some m (r_seq (open_range seq st)) st) by done. cbn [obind].
  rewrite check_range_live_open. cbn [obind].
  destruct (is_paged (g_spec g)) eqn:Hp; [|done]. cbn [negb].
  simpl. rewrite checked_add_ok by (unfold U32_MAX; lia). cbn [ok_or obind].
  apply needed_resolve with (m := m) (seq := seq) (g := g); try done.
  by apply reserved_needed.
Qed.

(** A descriptor that is not the open reservation is refused. *)
Theorem slot_stale m r st gi g k :
  m_seqs m !! r_seq r = Some st → m_groups m !! gi = Some g → k < r_len r →
  r_start r ≠ q_ctx_len st ∨ r_len r ≠ q_tail_len st →
  slot r gi k m =
  Err (InvalidBatch (StaleSlotRange (r_start r) (r_len r) (q_ctx_len st) (q_tail_len st))).
Proof.
  intros Hs Hg Hk Hst. unfold slot, group_at. rewrite Hg. cbn [ok_or obind].
  destruct (Z.leb_spec (r_len r) k); [lia|].
  rewrite (seq_state_Some m (r_seq r) st Hs). cbn [obind].
  unfold check_range_live.
  destruct (Z.eqb_spec (q_ctx_len st) (r_start r)), (Z.eqb_spec (q_tail_len st) (r_len r)); simpl;
    done || lia.
Qed.

(** ** Witnesses *)

Lemma demo2_seq : ∃ st, m_seqs demo2 !! 0 = Some st ∧ q_ctx_len st = 0 ∧ q_tail_len st = 70.
Proof. eexists. vm_compute. split_and!; reflexivity. Qed.

Lemma needed_positions_resolve_witness :
  ∃ st v, m_seqs demo2 !! 0 = Some st ∧ flatten_slot st 0 69 70 = Ok v ∧ 0 ≤ v < SLOT_NONE.
Proof.
  destruct demo2_seq as (st & Hs & Hc & Ht). exists st.
  destruct (needed_positions_resolve demo2 0 st 0 (nth 0 (m_groups demo2) {| g_index := 0;
    g_spec := ConvWindow 1 1; g_layers := [] |}) 69 70 demo2_ok Hs) as (v & Hv & Hr & _).
  - reflexivity.
  - reflexivity.
  - split; [rewrite Hc, Ht; lia|]. right. rewrite Hc. vm_compute. discriminate.
  - exists v. split; [exact Hs|]. split; [exact Hv|exact Hr].
Defined.

