(* ===== verification/Mirror.v ===== *)
(** * The token mirror

    [write_tokens], [read_token] and [compact] of
    [crates/r9v-state/src/manager.rs]: writes land in the open reservation of
    every paged group and nowhere else, and compaction moves the accepted
    tokens to the front of the reservation even when source and destination
    overlap. *)

From S2P Require Import Prelude Errors Spec Table Pools Manager Invariant Construct Reserve Admission Commit Slots.

#[global] Open Scope Z_scope.

(** ** Overwriting a span *)

(** The mirror with the cells from [start] of one group overwritten. *)
Definition write_span (gi : nat) (start : Z) (vals : list (option Z)) (M : gmap (nat * Z) Z)
    : gmap (nat * Z) Z :=
  foldl (λ M '(i, v), partial_alter (λ _, v) (gi, start + Z.of_nat i) M) M (enumerate vals).

Lemma write_span_snoc gi start vals v M :
  write_span gi start (vals ++ [v]) M =
  partial_alter (λ _, v) (gi, start + Z.of_nat (length vals)) (write_span gi start vals M).
Proof. unfold write_span. by rewrite enumerate_snoc, foldl_app. Qed.

Lemma lookup_write_span gi start vals M gj pos :
  write_span gi start vals M !! (gj, pos) =
  if decide (gj = gi ∧ start ≤ pos < start + Z.of_nat (length vals))
  then mjoin (vals !! Z.to_nat (pos - start)) else M !! (gj, pos).
Proof.
  induction vals as [|v vals IH] using rev_ind.
  { rewrite decide_False; [done|]. simpl. lia. }
  rewrite write_span_snoc, length_app. simpl.
  destruct (decide ((gj, pos) = (gi, start + Z.of_nat (length vals)))) as [[= -> ->]|Hne].
  - rewrite lookup_partial_alter_eq, decide_True by (split; [done|lia]).
    replace (Z.to_nat (start + Z.of_nat (length vals) - start)) with (length vals) by lia.
    by rewrite lookup_app_r, Nat.sub_diag by lia.
  - rewrite lookup_partial_alter_ne by congruence. rewrite IH. repeat case_decide; try done.
    + rewrite lookup_app_l by lia. done.
    + destruct_and?. lia.
    + destruct_and?. subst. destruct (decide (pos = start + Z.of_nat (length vals))); [congruence|].
      exfalso. naive_solver lia.
Qed.

(** Every paged group gets its span. *)
Definition write_spans (groups : list LayerGroup) (start : Z)
    (vals : nat → gmap (nat * Z) Z → list (option Z)) (n : nat) (M : gmap (nat * Z) Z)
    : gmap (nat * Z) Z :=
  foldl (λ M gi,
    match groups !! gi with
    | Some g => if is_paged (g_spec g) then write_span gi start (vals gi M) M else M
    | None => M
    end) M (seqn n).

(** The values of a group may only depend on the group's own cells. *)
Lemma lookup_write_spans groups start vals n M gj pos :
  (∀ gi M M', (∀ p, M !! (gi, p) = M' !! (gi, p)) → vals gi M = vals gi M') →
  write_spans groups start vals n M !! (gj, pos) =
  match groups !! gj with
  | Some g =>
      if decide ((gj < n)%nat ∧ is_paged (g_spec g) = true ∧
                 start ≤ pos < start + Z.of_nat (length (vals gj M)))
      then mjoin (vals gj M !! Z.to_nat (pos - start)) else M !! (gj, pos)
  | None => M !! (gj, pos)
  end.
Proof.
  intros Hv. revert gj pos. induction n as [|n IH]; intros gj pos.
  { change (M !! (gj, pos) = match groups !! gj with
      | Some g => if decide ((gj < 0)%nat ∧ is_paged (g_spec g) = true ∧
          start ≤ pos < start + Z.of_nat (length (vals gj M)))
          then mjoin (vals gj M !! Z.to_nat (pos - start)) else M !! (gj, pos)
      | None => M !! (gj, pos) end).
    destruct (groups !! gj); [|done]. case_decide as Hd; [|done].
    destruct Hd as [Hd _]. lia. }
  unfold write_spans. rewrite seqn_S, foldl_app. simpl.
  fold (write_spans groups start vals n M).
  assert (∀ p, write_spans groups start vals n M !! (n, p) = M !! (n, p)) as Hn.
  { intros p. rewrite IH. destruct (groups !! n); [|done]. rewrite decide_False; [done|lia]. }
  rewrite (Hv n _ M Hn).
  destruct (groups !! n) as [g|] eqn:Hgn.
  - destruct (is_paged (g_spec g)) eqn:Hp.
    + rewrite lookup_write_span. destruct (decide (gj = n)) as [->|Hne].
      * rewrite Hgn, Hp, Hn. apply decide_ext. intuition (congruence || lia).
      * rewrite decide_False by naive_solver. rewrite IH.
        destruct (groups !! gj); [|done]. apply decide_ext. intuition (congruence || lia).
    + rewrite IH. destruct (groups !! gj) as [h|] eqn:Hgj; [|done].
      destruct (decide (gj = n)) as [->|Hne].
      * assert (h = g) as -> by congruence. apply decide_ext. intuition (congruence || lia).
      * apply decide_ext. intuition (congruence || lia).
  - rewrite IH. destruct (groups !! gj) as [h|] eqn:Hgj; [|done].
    destruct (decide (gj = n)) as [->|Hne]; [congruence|].
    apply decide_ext. intuition (congruence || lia).
Qed.

(** ** Loops over the groups *)

Definition with_mirror (seq : Z) (s : SeqState) (M : gmap (nat * Z) Z) (m : StateManager)
    : StateManager := set_seqs (<[seq := set_mirror M s]> (m_seqs m)) m.

Lemma with_mirror_id seq s m :
  m_seqs m !! seq = Some s → with_mirror seq s (q_mirror s) m = m.
Proof.
  intros Hs. unfold with_mirror, set_seqs, set_store.
  replace (set_mirror (q_mirror s) s) with s by by destruct s.
  rewrite insert_id by done. by destruct m.
Qed.

Lemma with_mirror_twice seq s M M' m :
  with_mirror seq (set_mirror M s) M' (with_mirror seq s M m) = with_mirror seq s M' m.
Proof. unfold with_mirror, set_seqs, set_store. simpl. by rewrite insert_insert_eq. Qed.

Lemma mirror_loop (body : nat → stm StateManager StateError unit) groups start vals seq s m n :
  m_seqs m !! seq = Some s → m_groups m = groups →
  (∀ gi g m s, groups !! gi = Some g → is_paged (g_spec g) = true → m_groups m = groups →
     m_seqs m !! seq = Some s →
     body gi m = (Ok tt, with_mirror seq s (write_span gi start (vals gi (q_mirror s)) (q_mirror s)) m)) →
  sfor (λ gi, if group_is_paged m gi then body gi else sret tt) (seqn n) m =
  (Ok tt, with_mirror seq s (write_spans groups start vals n (q_mirror s)) m).
Proof.
  intros Hs Hg Hbody. induction n as [|n IH].
  { unfold write_spans. simpl. by rewrite with_mirror_id. }
  rewrite seqn_S. erewrite sfor_snoc by exact IH.
  unfold group_is_paged. rewrite Hg. unfold write_spans. rewrite seqn_S, foldl_app. simpl.
  fold (write_spans groups start vals n (q_mirror s)).
  destruct (groups !! n) as [g|] eqn:Hgn; [|done].
  destruct (is_paged (g_spec g)) eqn:Hp; [|done].
  erewrite Hbody; [|done|done|done|apply lookup_insert_eq].
  by rewrite with_mirror_twice.
Qed.

(** A change of the mirror that stays on mapped cells keeps the invariant. *)
Lemma with_mirror_inv bpg m seq s M compacted :
  manager_inv bpg m → m_seqs m !! seq = Some s →
  (∀ gi pos tok, M !! (gi, pos) = Some tok →
     0 ≤ pos ∧ ∃ g, m_groups m !! gi = Some g ∧ is_paged (g_spec g) = true ∧
       pos / BLOCK_TOKENS ∈ indices_of gi s) →
  manager_inv bpg (set_seqs (<[seq := set_compacted compacted (set_mirror M s)]> (m_seqs m)) m).
Proof.
  intros Hinv Hs HM. destruct (mi_seqs _ _ Hinv seq s Hs) as [_ Hok].
  eapply (manager_inv_update bpg m _ seq s); try done; try apply Hinv.
  - eapply pools_inv_same; [apply Hinv|]. intros gi. simpl. by eapply owned_same.
  - destruct Hok as [Hsh ? ? ? Hlaw _]. split; try done. by apply (seq_shape_ext _ s).
Qed.

(** Cells of an open reservation are mapped. *)
Lemma reserved_mapped bpg m seq s gi g pos :
  manager_inv bpg m → m_seqs m !! seq = Some s → m_groups m !! gi = Some g →
  is_paged (g_spec g) = true → q_ctx_len s ≤ pos < q_ctx_len s + q_tail_len s →
  0 ≤ pos ∧ pos / BLOCK_TOKENS ∈ indices_of gi s.
Proof.
  intros Hinv Hs Hg Hp Hpos. destruct (mi_seqs _ _ Hinv seq s Hs) as [_ Hok].
  pose proof (so_ctx _ _ _ Hok) as Hc. split; [lia|].
  destruct (mi_layout _ _ Hinv) as [_ Hl]. destruct (Hl gi g Hg) as [_ [Hu _]].
  eapply (needed_block _ _ s gi g); [done..|].
  replace pos with (q_ctx_len s + (pos - q_ctx_len s)) by lia.
  apply reserved_needed; [done|done|lia].
Qed.

(** ** [write_tokens] *)

Lemma write_group_span start tokens gi s :
  0 ≤ start → start + Z.of_nat (length tokens) ≤ U32_MAX →
  write_group start tokens gi s =
  (Ok tt, set_mirror (write_span gi start (Some <$> tokens) (q_mirror s)) s).
Proof.
  intros H0. unfold write_group. induction tokens as [|tok tokens IH] using rev_ind; intros Hle.
  { destruct s. done. }
  rewrite length_app in Hle. simpl in Hle.
  rewrite enumerate_snoc, fmap_app. simpl. rewrite write_span_snoc, length_fmap.
  erewrite sfor_snoc by (apply IH; lia).
  rewrite as_u32_small by lia. rewrite checked_add_ok by lia. done.
Qed.

Lemma seq_mut_Ok {A} seq (c : stm SeqState StateError A) m s r s' :
  m_seqs m !! seq = Some s → c s = (r, s') →
  seq_mut seq c m = (r, set_seqs (<[seq := s']> (m_seqs m)) m).
Proof. unfold seq_mut. by intros -> ->. Qed.

(** Why a write is refused, in the order of the checks. *)
Definition write_refusal (s : SeqState) (start count : Z) : option StateError :=
  if decide (U32_MAX < count) then Some (Overflow "write length")
  else if decide (U32_MAX < start + count) then Some (Overflow "write end")
  else if decide (start < q_ctx_len s ∨ q_ctx_len s + q_tail_len s < start + count)
  then Some (OutOfRange start count (q_ctx_len s + q_tail_len s))
  else None.

(** The mirror after a write: every paged group's span holds the tokens. *)
Definition written (groups : list LayerGroup) (start : Z) (tokens : list Z)
    (M M' : gmap (nat * Z) Z) : Prop :=
  ∀ gi pos, M' !! (gi, pos) =
    match groups !! gi with
    | Some g =>
        if decide (is_paged (g_spec g) = true ∧ start ≤ pos < start + Z.of_nat (length tokens))
        then tokens !! Z.to_nat (pos - start) else M !! (gi, pos)
    | None => M !! (gi, pos)
    end.

Lemma write_spans_written groups start tokens M :
  written groups start tokens M
    (write_spans groups start (λ _ _, Some <$> tokens) (length groups) M).
Proof.
  intros gi pos. rewrite lookup_write_spans by done.
  destruct (groups !! gi) as [g|] eqn:Hg; [|done]. apply lookup_lt_Some in Hg as Hlt.
  rewrite length_fmap, list_lookup_fmap.
  destruct (decide (is_paged _ = true ∧ _)) as [Hd|Hd].
  - rewrite decide_True by (split; [lia|done]). by destruct (tokens !! _).
  - by rewrite decide_False by (intros [_ Hd']; done).
Qed.

(** The whole of [write_tokens] on a live sequence. *)
Lemma write_tokens_cases bpg m seq s start tokens :
  manager_inv bpg m → m_seqs m !! seq = Some s → 0 ≤ start →
  match write_refusal s start (Z.of_nat (length tokens)) with
  | Some e => write_tokens seq start tokens m = (Err e, m)
  | None => ∃ M', write_tokens seq start tokens m = (Ok tt, with_mirror seq s M' m) ∧
      written (m_groups m) start tokens (q_mirror s) M' ∧
      manager_inv bpg (with_mirror seq s M' m)
  end.
Proof.
  intros Hinv Hs H0. destruct (mi_seqs _ _ Hinv seq s Hs) as [_ Hok].
  pose proof (so_ctx _ _ _ Hok). pose proof (so_end _ _ _ Hok).
  pose proof (so_tail _ _ _ Hok).
  pose proof (mi_config _ _ Hinv) as (Hctx & _ & _). unfold MAX_CTX_HARD in Hctx.
  unfold write_tokens, write_refusal.
  erewrite sbind_Ok by (unfold sread; by rewrite (seq_state_Some m seq s Hs)).
  destruct (decide (U32_MAX < _)) as [Hn|Hn].
  { erewrite sbind_Err; [done|]. unfold slift, try_from.
    destruct (Z.leb_spec (Z.of_nat (length tokens)) U32_MAX); [lia|]. by rewrite andb_false_r. }
  erewrite sbind_Ok by (unfold slift; by rewrite try_from_ok by lia).
  destruct (decide (U32_MAX < start + _)) as [He|He].
  { erewrite sbind_Err; [done|]. unfold slift, checked_add.
    destruct (Z.leb_spec (start + Z.of_nat (length tokens)) U32_MAX); [lia|done]. }
  erewrite sbind_Ok by (unfold slift; by rewrite checked_add_ok by lia).
  erewrite sbind_Ok by (unfold slift; by rewrite checked_add_ok by (unfold U32_MAX; lia)).
  destruct (Z.ltb_spec start (q_ctx_len s)).
  { rewrite decide_True by lia. done. }
  destruct (Z.ltb_spec (q_ctx_len s + q_tail_len s) (start + Z.of_nat (length tokens))).
  { rewrite decide_True by lia. done. }
  rewrite decide_False by lia.
  exists (write_spans (m_groups m) start (λ _ _, Some <$> tokens) (length (m_groups m)) (q_mirror s)).
  split; [|split].
  - erewrite sbind_Ok by done. eapply (mirror_loop (λ gi, seq_mut seq (write_group start tokens gi)) (m_groups m)); try done.
    intros gi g m' s' _ _ _ Hs'. eapply seq_mut_Ok; [done|]. apply write_group_span; lia.
  - apply write_spans_written.
  - replace (with_mirror seq s _ m) with (set_seqs (<[seq := set_compacted (q_compacted s)
      (set_mirror (write_spans (m_groups m) start (λ _ _, Some <$> tokens) (length (m_groups m))
        (q_mirror s)) s)]> (m_seqs m)) m) by (unfold with_mirror; by destruct s).
    eapply with_mirror_inv; [done|done|]. intros gi pos tok.
    rewrite write_spans_written. destruct (m_groups m !! gi) as [g|] eqn:Hg.
    + case_decide as Hd; [|rewrite <- Hg; apply (so_mirror _ _ _ Hok)]. intros _. destruct Hd as [Hp Hpos].
      destruct (reserved_mapped bpg m seq s gi g pos) as [? ?]; [done..|lia|]. eauto.
    + intros Hm. destruct (so_mirror _ _ _ Hok gi pos tok Hm) as (_ & g & Hg' & _). congruence.
Qed.

(** ** [check_accepted] *)

(** What makes a list of accepted positions admissible. *)
Definition accepted_ok (tail : Z) (accepted : list Z) : Prop :=
  NoDup accepted ∧ Forall (λ p, p < tail) accepted.

#[global] Instance accepted_ok_dec tail accepted : Decision (accepted_ok tail accepted).
Proof. unfold accepted_ok. apply _. Defined.

(** What each refusal of the scan says about its input. *)
Definition scan_detail (tail : Z) (accepted : list Z) (d : CompactDetail) : Prop :=
  match d with
  | PositionOutOfTail p t => t = tail ∧ p ∈ accepted ∧ tail ≤ p
  | DuplicatePosition p => ∃ i j, (i < j)%nat ∧ accepted !! i = Some p ∧ accepted !! j = Some p
  | _ => False
  end.

Lemma check_accepted_cases tail accepted :
  match check_accepted tail accepted with
  | Ok _ => accepted_ok tail accepted
  | Err e => ∃ d, e = InvalidCompact (length accepted) tail d ∧ scan_detail tail accepted d
  | Panic => False
  end.
Proof.
  unfold check_accepted. pose proof (oforM_result (λ '(i, p),
    if tail <=? p then Err (InvalidCompact (length accepted) tail (PositionOutOfTail p tail))
    else if decide (p ∈ take i accepted)
         then Err (InvalidCompact (length accepted) tail (DuplicatePosition p))
    else Ok tt) (enumerate accepted)) as H.
  destruct (oforM _ (enumerate accepted)) as [[]|e|].
  - assert (∀ i p, accepted !! i = Some p → p < tail ∧ p ∉ take i accepted) as Hall.
    { intros i p Hp%elem_of_enumerate. rewrite Forall_forall in H. specialize (H _ Hp). simpl in H.
      destruct (Z.leb_spec tail p); [done|]. by case_decide. }
    split; [|apply Forall_lookup; intros i p Hp; by apply (Hall i p)].
    apply NoDup_alt. intros i j p Hi Hj.
    destruct (Nat.lt_trichotomy i j) as [Hl|[->|Hl]]; [|done|].
    + destruct (Hall j p Hj) as [_ Hn]. destruct Hn. apply (list_elem_of_lookup_2 _ i).
      by rewrite lookup_take_lt.
    + destruct (Hall i p Hi) as [_ Hn]. destruct Hn. apply (list_elem_of_lookup_2 _ j).
      by rewrite lookup_take_lt.
  - destruct H as ([i p] & Hp%elem_of_enumerate & He). simpl in He.
    destruct (Z.leb_spec tail p).
    + simplify_eq. eexists. split; [done|]. simpl. split_and!; [done| |done].
      by eapply list_elem_of_lookup_2.
    + case_decide as Hd; simplify_eq. eexists. split; [done|].
      apply list_elem_of_lookup_1 in Hd as [j Hj]. simpl.
      apply lookup_take_Some in Hj as [Hj Hlt]. eauto.
  - destruct H as ([i p] & Hp%elem_of_enumerate & He). simpl in He.
    destruct (tail <=? p); [done|]. by case_decide.
Qed.

Lemma scan_detail_refused tail accepted d :
  scan_detail tail accepted d → ¬ accepted_ok tail accepted.
Proof.
  intros Hd [Hnd Hf]. destruct d; simpl in Hd; try done.
  - destruct Hd as (_ & Hp & Hle). rewrite Forall_forall in Hf. specialize (Hf _ Hp). lia.
  - destruct Hd as (i & j & Hlt & Hi & Hj). rewrite NoDup_alt in Hnd.
    specialize (Hnd _ _ _ Hi Hj). lia.
Qed.

(** ** [compact] *)

Definition store_cell (gi : nat) (ctx : Z) : nat * option Z → stm SeqState StateError unit :=
  λ '(i, tok),
    let! dst := slift (ok_or (checked_add U32_MAX ctx (as_u32 (Z.of_nat i)))
                             (Overflow "compact destination")) in
    match tok with
    | Some t => smodify (λ s, set_mirror (<[(gi, dst) := t]> (q_mirror s)) s)
    | None => smodify (λ s, set_mirror (delete (gi, dst) (q_mirror s)) s)
    end.

Lemma store_cells gi ctx vals s :
  0 ≤ ctx → ctx + Z.of_nat (length vals) ≤ U32_MAX →
  sfor (store_cell gi ctx) (enumerate vals) s =
  (Ok tt, set_mirror (write_span gi ctx vals (q_mirror s)) s).
Proof.
  intros H0. induction vals as [|v vals IH] using rev_ind; intros Hle.
  { by destruct s. }
  rewrite length_app in Hle. simpl in Hle.
  rewrite enumerate_snoc, write_span_snoc. erewrite sfor_snoc by (apply IH; lia).
  unfold store_cell. rewrite as_u32_small by lia.
  erewrite sbind_Ok by (unfold slift; by rewrite checked_add_ok by lia). by destruct v.
Qed.

(** The cells a group moves. *)
Definition staged (src : list Z) (a : nat) (gi : nat) (M : gmap (nat * Z) Z) : list (option Z) :=
  map (λ abs, M !! (gi, abs)) (take a src).

Lemma compact_group_span ctx src a gi s :
  0 ≤ ctx → ctx + Z.of_nat a ≤ U32_MAX →
  compact_group ctx src a gi s =
  (Ok tt, set_mirror (write_span gi ctx (staged src a gi (q_mirror s)) (q_mirror s)) s).
Proof.
  intros H0 Ha. unfold compact_group. erewrite sbind_Ok by done.
  apply (store_cells gi ctx (staged src a gi (q_mirror s)) s H0).
  unfold staged. rewrite length_map, length_take. lia.
Qed.

(** The mirror after a compaction: in every paged group the first cells of the
    reservation hold what the accepted cells held before the call, in the
    order given, whatever the overlap. *)
Definition compacted_to (groups : list LayerGroup) (ctx : Z) (accepted : list Z)
    (M M' : gmap (nat * Z) Z) : Prop :=
  ∀ gi pos, M' !! (gi, pos) =
    match groups !! gi with
    | Some g =>
        if decide (is_paged (g_spec g) = true ∧ ctx ≤ pos < ctx + Z.of_nat (length accepted))
        then p ← accepted !! Z.to_nat (pos - ctx); M !! (gi, ctx + p)
        else M !! (gi, pos)
    | None => M !! (gi, pos)
    end.

Lemma write_spans_compacted groups ctx accepted rest M :
  let src := map (Z.add ctx) accepted ++ rest in
  compacted_to groups ctx accepted M
    (write_spans groups ctx (staged src (length accepted)) (length groups) M).
Proof.
  intros src gi pos.
  rewrite lookup_write_spans by (intros gj M1 M2 HM; unfold staged; apply map_ext; intros; apply HM).
  assert (Hst : staged src (length accepted) gi M = map (λ p, M !! (gi, ctx + p)) accepted).
  { unfold staged, src. rewrite take_app_le by (rewrite length_map; lia).
    rewrite firstn_all2 by (rewrite length_map; lia). apply map_map. }
  rewrite Hst, length_map.
  destruct (groups !! gi) as [g|] eqn:Hg; [|done]. apply lookup_lt_Some in Hg as Hlt.
  destruct (decide (is_paged _ = true ∧ _)) as [Hd|Hd].
  - rewrite decide_True by (split; [lia|done]).
    rewrite list_lookup_fmap. by destruct (accepted !! _).
  - by rewrite decide_False by (intros [_ Hd']; done).
Qed.

(** The sources and destinations of an admissible compaction never wrap. *)
Lemma compact_sources ctx tail accepted :
  0 ≤ ctx → ctx + tail ≤ U32_MAX → Forall (λ p, p < tail) accepted →
  omapM (λ p, ok_or (checked_add U32_MAX ctx p) (Overflow "compact source")) accepted =
  Ok (map (Z.add ctx) accepted).
Proof.
  intros H0 He Hf. apply omapM_Forall2. induction Hf as [|p l Hp Hl IH]; simpl; constructor; [|done].
  by rewrite checked_add_ok by lia.
Qed.

Lemma compact_destinations ctx a :
  0 ≤ ctx → ctx + Z.of_nat a ≤ U32_MAX →
  oforM (λ i, let* _ := ok_or (checked_add U32_MAX ctx (as_u32 (Z.of_nat i)))
                              (Overflow "compact destination") in Ok tt) (seqn a) =
  (Ok tt : StateResult unit).
Proof.
  intros H0 He. apply oforM_Ok, Forall_forall. intros i Hi%elem_of_seqn.
  rewrite as_u32_small by lia. by rewrite checked_add_ok by lia.
Qed.

(** No more positions fit below the tail than the tail has. *)
Lemma accepted_le_tail tail accepted :
  Forall (λ p, 0 ≤ p) accepted → accepted_ok tail accepted →
  0 ≤ tail → Z.of_nat (length accepted) ≤ tail.
Proof.
  intros H0 [Hnd Hlt] Ht.
  assert (length accepted ≤ length (zrange 0 tail))%nat as Hle.
  { apply submseteq_length, NoDup_submseteq; [done|]. intros p Hp. apply elem_of_zrange.
    rewrite Forall_forall in H0, Hlt. split; [by apply H0|by apply Hlt]. }
  unfold zrange in Hle. rewrite length_seqZ in Hle. lia.
Qed.

(** When a compaction is admitted. *)
Definition compact_ok (s : SeqState) (accepted : list Z) : Prop :=
  q_tail_len s ≠ 0 ∧ (length accepted ≤ MAX_COMPACT_TOKENS)%nat ∧ accepted_ok (q_tail_len s) accepted.

(** What each refusal says. *)
Definition compact_detail (s : SeqState) (accepted : list Z) (d : CompactDetail) : Prop :=
  match d with
  | NoOutstandingTail => q_tail_len s = 0
  | AcceptedLenExceedsCap a => a = length accepted ∧ (MAX_COMPACT_TOKENS < a)%nat
  | _ => scan_detail (q_tail_len s) accepted d
  end.

(** The descriptor handed to the compaction kernel. *)
Definition compact_op (seq : Z) (s : SeqState) (accepted : list Z) : CompactOp :=
  {| c_seq := seq;
     c_src := map (Z.add (q_ctx_len s)) accepted ++
              replicate (MAX_COMPACT_TOKENS - length accepted) 0;
     c_dst_start := q_ctx_len s;
     c_len := Z.of_nat (length accepted) |}.

(** The manager after a compaction that left the mirror [M]. *)
Definition compacted_manager (seq : Z) (s : SeqState) (a : nat) (M : gmap (nat * Z) Z)
    (m : StateManager) : StateManager :=
  set_seqs (<[seq := set_compacted (Some a) (set_mirror M s)]> (m_seqs m)) m.

Lemma compact_cases bpg m seq s accepted :
  manager_inv bpg m → m_seqs m !! seq = Some s → Forall (λ p, 0 ≤ p) accepted →
  (∃ d, compact seq accepted m = (Err (InvalidCompact (length accepted) (q_tail_len s) d), m) ∧
     compact_detail s accepted d) ∨
  (compact_ok s accepted ∧ ∃ M',
     compact seq accepted m =
       (Ok (compact_op seq s accepted), compacted_manager seq s (length accepted) M' m) ∧
     compacted_to (m_groups m) (q_ctx_len s) accepted (q_mirror s) M' ∧
     manager_inv bpg (compacted_manager seq s (length accepted) M' m)).
Proof.
  intros Hinv Hs H0. destruct (mi_seqs _ _ Hinv seq s Hs) as [_ Hok].
  pose proof (so_ctx _ _ _ Hok). pose proof (so_end _ _ _ Hok). pose proof (so_tail _ _ _ Hok).
  pose proof (mi_config _ _ Hinv) as (Hctx & _ & _). unfold MAX_CTX_HARD in Hctx.
  unfold compact. erewrite sbind_Ok by (unfold sread; by rewrite (seq_state_Some m seq s Hs)).
  destruct (Z.eqb_spec (q_tail_len s) 0) as [Ht|Ht]; [left; by exists NoOutstandingTail|].
  destruct (Nat.ltb_spec MAX_COMPACT_TOKENS (length accepted)) as [Ha|Ha].
  { left. exists (AcceptedLenExceedsCap (length accepted)). by split_and!. }
  pose proof (check_accepted_cases (q_tail_len s) accepted) as Hcase.
  destruct (check_accepted (q_tail_len s) accepted) as [[]|e|] eqn:Hchk; [| |done].
  2:{ destruct Hcase as (d & -> & Hd). left. exists d.
      erewrite sbind_Err by done. split; [done|]. by destruct d. }
  right. split; [done|]. pose proof Hcase as [_ Hlt].
  pose proof (accepted_le_tail _ _ H0 Hcase ltac:(lia)) as Hle.
  set (ctx := q_ctx_len s) in *. set (src := map (Z.add ctx) accepted ++
    replicate (MAX_COMPACT_TOKENS - length accepted) 0).
  exists (write_spans (m_groups m) ctx (staged src (length accepted)) (length (m_groups m))
            (q_mirror s)).
  split; [|split; [apply write_spans_compacted|]].
  - erewrite sbind_Ok by done.
    erewrite sbind_Ok by (unfold slift; rewrite (compact_sources ctx (q_tail_len s)) by (done || unfold U32_MAX; lia); done).
    erewrite sbind_Ok by (unfold slift; rewrite compact_destinations by (unfold U32_MAX; lia); done).
    fold src. erewrite sbind_Ok by done.
    erewrite sbind_Ok.
    2:{ apply (mirror_loop (λ gi, let! _ := sread (seq_state seq) in
          seq_mut seq (compact_group ctx src (length accepted) gi)) (m_groups m) ctx
          (staged src (length accepted)) seq s m); try done.
        intros gi g m' s' _ _ _ Hs'.
        erewrite sbind_Ok by (unfold sread; by rewrite (seq_state_Some m' seq s' Hs')).
        eapply seq_mut_Ok; [done|]. apply compact_group_span; unfold U32_MAX; lia. }
    erewrite sbind_Ok by (eapply seq_mut_Ok; [apply lookup_insert_eq|done]).
    erewrite sbind_Ok by (unfold slift; rewrite try_from_ok by (unfold U32_MAX; lia); done).
    unfold sret, compacted_manager, with_mirror, set_seqs, set_store. simpl.
    by rewrite insert_insert_eq.
  - eapply with_mirror_inv; [done|done|]. intros gi pos tok.
    unfold src. rewrite write_spans_compacted. destruct (m_groups m !! gi) as [g|] eqn:Hg.
    + case_decide as Hd; [|rewrite <- Hg; apply (so_mirror _ _ _ Hok)].
      intros _. destruct Hd as [Hp Hpos].
      destruct (reserved_mapped bpg m seq s gi g pos) as [? ?]; [done..|lia|]. eauto.
    + intros Hm. destruct (so_mirror _ _ _ Hok gi pos tok Hm) as (_ & g & Hg' & _). congruence.
Qed.

(** ** The properties *)

(** [write_tokens] refuses a write outside the open reservation, in the
    order of its checks and with the whole manager unchanged; an admitted
    write stores the tokens in every paged group, changes no other cell and
    keeps the manager well formed. *)
Theorem write_tokens_spec m seq start tokens :
  manager_ok m → 0 ≤ start →
  match m_seqs m !! seq with
  | None => write_tokens seq start tokens m = (Err (UnknownSeq seq), m)
  | Some s =>
      match write_refusal s start (Z.of_nat (length tokens)) with
      | Some e => write_tokens seq start tokens m = (Err e, m)
      | None => ∃ M', write_tokens seq start tokens m = (Ok tt, with_mirror seq s M' m) ∧
          written (m_groups m) start tokens (q_mirror s) M' ∧ manager_ok (with_mirror seq s M' m)
      end
  end.
Proof.
  intros [bpg Hinv] H0. destruct (m_seqs m !! seq) as [s|] eqn:Hs.
  - pose proof (write_tokens_cases bpg m seq s start tokens Hinv Hs H0) as H.
    destruct (write_refusal _ _ _); [done|]. destruct H as (M' & ? & ? & ?).
    exists M'. split_and!; [done..|by exists bpg].
  - unfold write_tokens. erewrite sbind_Err; [done|]. unfold sread, seq_state. by rewrite Hs.
Qed.

(** Reading below the end of the reservation. *)
Lemma read_token_Ok bpg m seq s gi pos :
  manager_inv bpg m → m_seqs m !! seq = Some s → (gi < length (m_groups m))%nat →
  pos < q_ctx_len s + q_tail_len s → read_token seq gi pos m = Ok (q_mirror s !! (gi, pos)).
Proof.
  intros Hinv Hs Hg Hpos. destruct (mi_seqs _ _ Hinv seq s Hs) as [_ Hok].
  pose proof (so_end _ _ _ Hok). pose proof (mi_config _ _ Hinv) as (Hctx & _ & _).
  unfold MAX_CTX_HARD in Hctx.
  unfold read_token. rewrite (seq_state_Some m seq s Hs). cbn [obind].
  destruct (Nat.leb_spec (length (m_groups m)) gi); [lia|].
  rewrite checked_add_ok by (unfold U32_MAX; lia). cbn [ok_or obind].
  by destruct (Z.leb_spec (q_ctx_len s + q_tail_len s) pos); [lia|].
Qed.

(** What [write_tokens] stored is what [read_token] returns from every
    paged group, and every other cell, of this sequence and of the others,
    reads as before. *)
Theorem write_read_roundtrip m seq start tokens m' gi g pos :
  manager_ok m → 0 ≤ start → write_tokens seq start tokens m = (Ok tt, m') →
  m_groups m !! gi = Some g →
  (∀ k tok, is_paged (g_spec g) = true → tokens !! k = Some tok →
     read_token seq gi (start + Z.of_nat k) m' = Ok (Some tok)) ∧
  (is_paged (g_spec g) = false ∨ pos < start ∨ start + Z.of_nat (length tokens) ≤ pos →
     read_token seq gi pos m' = read_token seq gi pos m) ∧
  (∀ other, other ≠ seq → read_token other gi pos m' = read_token other gi pos m).
Proof.
  intros [bpg Hinv] H0 Hw Hg. apply lookup_lt_Some in Hg as Hlt.
  destruct (m_seqs m !! seq) as [s|] eqn:Hs.
  2:{ unfold write_tokens in Hw. erewrite sbind_Err in Hw; [done|].
      unfold sread, seq_state. by rewrite Hs. }
  pose proof (write_tokens_cases bpg m seq s start tokens Hinv Hs H0) as H.
  destruct (write_refusal s start _) as [e|] eqn:Href; [congruence|].
  destruct H as (M' & Hw' & HM & Hinv'). rewrite Hw in Hw'. injection Hw' as ->.
  unfold write_refusal in Href. repeat case_decide; try done.
  assert (Hs' : m_seqs (with_mirror seq s M' m) !! seq = Some (set_mirror M' s))
    by apply lookup_insert_eq.
  split_and!.
  - intros k tok Hp Hk. apply lookup_lt_Some in Hk as Hkl.
    rewrite (read_token_Ok bpg _ seq (set_mirror M' s)) by (done || simpl; lia).
    simpl. rewrite HM, Hg, decide_True by (split; [done|lia]).
    replace (Z.to_nat (start + Z.of_nat k - start)) with k by lia. by rewrite Hk.
  - intros Hout. unfold read_token, seq_state. rewrite Hs, Hs'. cbn [ok_or obind].
    simpl. rewrite HM, Hg, decide_False; [done|]. intros [Hp ?]. destruct Hout; [congruence|lia].
  - intros other Hne. unfold read_token, seq_state. simpl.
    by rewrite lookup_insert_ne by done.
Qed.

(** C10: [compact] is admitted exactly when a reservation is open and the
    accepted positions are distinct, at most sixteen and inside it; it then
    moves, in every paged group, the token of the [i]-th accepted position to
    the [i]-th cell of the reservation, even where the two overlap, records
    the count for [commit] and returns the kernel's descriptor.  A refusal
    names what is wrong and changes nothing. *)
Theorem compact_spec m seq accepted :
  manager_ok m → Forall (λ p, 0 ≤ p) accepted →
  match m_seqs m !! seq with
  | None => compact seq accepted m = (Err (UnknownSeq seq), m)
  | Some s =>
      (compact_ok s accepted → ∃ M',
         compact seq accepted m =
           (Ok (compact_op seq s accepted), compacted_manager seq s (length accepted) M' m) ∧
         compacted_to (m_groups m) (q_ctx_len s) accepted (q_mirror s) M' ∧
         manager_ok (compacted_manager seq s (length accepted) M' m)) ∧
      (¬ compact_ok s accepted → ∃ d,
         compact seq accepted m = (Err (InvalidCompact (length accepted) (q_tail_len s) d), m) ∧
         compact_detail s accepted d)
  end.
Proof.
  intros [bpg Hinv] H0. destruct (m_seqs m !! seq) as [s|] eqn:Hs.
  2:{ unfold compact. erewrite sbind_Err; [done|]. unfold sread, seq_state. by rewrite Hs. }
  destruct (compact_cases bpg m seq s accepted Hinv Hs H0)
    as [(d & Hc & Hd)|(Hok & M' & ? & ? & ?)].
  - split; [|by exists d]. intros (Ht & Ha & Hacc). exfalso.
    assert (¬ scan_detail (q_tail_len s) accepted d)
      by (intros Hsc; by apply (scan_detail_refused _ _ _ Hsc)).
    destruct d; simpl in Hd; done || lia.
  - split; [|done]. intros _. exists M'. split_and!; [done..|by exists bpg].
Qed.

Lemma write_tokens_inv bpg m seq start tokens :
  manager_inv bpg m → 0 ≤ start → manager_inv bpg (snd (write_tokens seq start tokens m)).
Proof.
  intros Hinv H0. destruct (m_seqs m !! seq) as [s|] eqn:Hs.
  - pose proof (write_tokens_cases bpg m seq s start tokens Hinv Hs H0) as H.
    destruct (write_refusal _ _ _); [by rewrite H|]. by destruct H as (M' & -> & _ & ?).
  - unfold write_tokens. erewrite sbind_Err; [done|]. unfold sread, seq_state. by rewrite Hs.
Qed.

Lemma compact_inv bpg m seq accepted :
  manager_inv bpg m → Forall (λ p, 0 ≤ p) accepted →
  manager_inv bpg (snd (compact seq accepted m)).
Proof.
  intros Hinv H0. destruct (m_seqs m !! seq) as [s|] eqn:Hs.
  - destruct (compact_cases bpg m seq s accepted Hinv Hs H0)
      as [(d & -> & _)|(_ & M' & -> & _ & ?)]; done.
  - unfold compact. erewrite sbind_Err; [done|]. unfold sread, seq_state. by rewrite Hs.
Qed.

(** ** Witnesses *)

(** Three tokens in the reservation of the first sequence, and the second and
    the third accepted. *)
Definition demo3 : StateManager := Eval vm_compute in snd (write_tokens 0 10 [5; 6; 7] demo2).

Lemma demo3_write : write_tokens 0 10 [5; 6; 7] demo2 = (Ok tt, demo3).
Proof. vm_compute. reflexivity. Qed.

Lemma demo3_ok : manager_ok demo3.
Proof.
  destruct demo2_ok as [bpg Hinv]. exists bpg.
  pose proof (write_tokens_inv bpg demo2 0 10 [5; 6; 7] Hinv ltac:(lia)) as H.
  by rewrite demo3_write in H.
Qed.

Lemma demo3_seq : ∃ st, m_seqs demo3 !! 0 = Some st ∧ q_ctx_len st = 0 ∧ q_tail_len st = 70.
Proof. eexists. vm_compute. split_and!; reflexivity. Qed.

Lemma write_read_roundtrip_witness :
  read_token 0 0 12 demo3 = Ok (Some 7) ∧ read_token 0 0 13 demo3 = read_token 0 0 13 demo2.
Proof.
  pose proof (write_read_roundtrip demo2 0 10 [5; 6; 7] demo3 0 (nth 0 (m_groups demo2) {| g_index := 0;
    g_spec := ConvWindow 1 1; g_layers := [] |}) 13 demo2_ok ltac:(lia) demo3_write eq_refl)
    as (Hin & Hout & _).
  split; [exact (Hin 2%nat 7 eq_refl eq_refl)|]. apply Hout. right. right. vm_compute. discriminate.
Defined.

Lemma compact_spec_witness :
  fst (compact 0 [12; 11] demo3) =
    Ok {| c_seq := 0; c_src := [12; 11] ++ replicate 14 0; c_dst_start := 0; c_len := 2 |} ∧
  ∃ d, compact 0 [3; 3] demo3 = (Err (InvalidCompact 2 70 d), demo3).
Proof.
  assert (F1 : Forall (λ p, 0 ≤ p) [12; 11]) by (repeat constructor; lia).
  assert (F2 : Forall (λ p, 0 ≤ p) [3; 3]) by (repeat constructor; lia).
  pose proof (compact_spec demo3 0 [12; 11] demo3_ok F1) as H1.
  pose proof (compact_spec demo3 0 [3; 3] demo3_ok F2) as H2.
  destruct demo3_seq as (s & Hs & Hc & Ht). rewrite Hs in H1, H2. split.
  - destruct H1 as [H1 _]. destruct H1 as (M' & Hr & _).
    + unfold compact_ok. rewrite Ht. split; [discriminate|]. split; [vm_compute; lia|].
      split; [by apply (bool_decide_unpack (NoDup [12; 11]))|repeat constructor].
    + rewrite Hr. unfold compact_op. rewrite Hc. reflexivity.
  - destruct H2 as [_ H2]. rewrite Ht in H2. destruct H2 as (d & Hd & _); [|by exists d].
    intros (_ & _ & Hnd & _). apply NoDup_cons in Hnd as [Hn _]. apply Hn. left.
Defined.
