(* ===== verification/Reach.v ===== *)
(** * Every reachable manager

    The public operations of [crates/r9v-state/src/manager.rs] as requests: a
    manager reached from a constructor by any sequence of requests is well
    formed, a refused request changes nothing a later request can see, no
    request panics, and a request on one sequence leaves the others alone. *)

From S2P Require Import Prelude Errors Spec Table Pools Manager Invariant Construct Reserve Admission Commit Slots Mirror.

#[global] Open Scope Z_scope.

Inductive request : Type :=
| NewSeq (tokens : list Z)
| Reserve (seq n : Z)
| WriteTokens (seq start : Z) (tokens : list Z)
| Compact (seq : Z) (accepted : list Z)
| Commit (seq accepted : Z)
| FreeSeq (seq : Z).

Inductive response : Type :=
| SeqStarted (seq matched : Z)
| Reserved (range : SlotRange)
| Compacted (op : CompactOp)
| Done.

Definition sfmap {S E A B} (f : A → B) (c : stm S E A) : stm S E B :=
  let! a := c in sret (f a).

Definition perform (r : request) : stm StateManager StateError response :=
  match r with
  | NewSeq tokens => sfmap (λ '(id, matched), SeqStarted id matched) (new_seq tokens)
  | Reserve seq n => sfmap Reserved (reserve seq n)
  | WriteTokens seq start tokens => sfmap (λ _, Done) (write_tokens seq start tokens)
  | Compact seq accepted => sfmap Compacted (compact seq accepted)
  | Commit seq accepted => sfmap (λ _, Done) (commit seq accepted)
  | FreeSeq seq => sfmap (λ _, Done) (free_seq seq)
  end.

(** The arguments are unsigned. *)
Definition request_ok (r : request) : Prop :=
  match r with
  | NewSeq _ | FreeSeq _ => True
  | Reserve _ n | Commit _ n => 0 ≤ n
  | WriteTokens _ start _ => 0 ≤ start
  | Compact _ accepted => Forall (λ p, 0 ≤ p) accepted
  end.

(** The sequence a request is about; a new sequence takes the next id. *)
Definition target (m : StateManager) (r : request) : Z :=
  match r with
  | NewSeq _ => m_next_seq m
  | Reserve seq _ | WriteTokens seq _ _ | Compact seq _ | Commit seq _ | FreeSeq seq => seq
  end.

Definition same_but_scratch (m m' : StateManager) : Prop :=
  m' = set_scratch (m_reserve_scratch m') m.

Lemma same_but_scratch_refl m : same_but_scratch m m.
Proof. by destruct m. Qed.

Lemma sfmap_eq {S E A B} (f : A → B) (c : stm S E A) s :
  sfmap f c s = (match fst (c s) with Ok a => Ok (f a) | Err e => Err e | Panic => Panic end,
                 snd (c s)).
Proof. unfold sfmap, sbind. by destruct (c s) as [[a|e|] s']. Qed.

(** ** One request *)

(** What every request guarantees, whatever it answers. *)
Record performed (bpg : Z) (m : StateManager) (r : request) (o : StateResult response)
    (m' : StateManager) : Prop := {
  pf_inv : manager_inv bpg m';
  pf_static : same_static m m';
  pf_returns : o ≠ Panic;
  pf_atomic e : o = Err e → same_but_scratch m m';
  pf_others other : other ≠ target m r → m_seqs m' !! other = m_seqs m !! other
}.

Lemma performed_refused bpg m r e m' :
  manager_inv bpg m → same_but_scratch m m' → performed bpg m r (Err e) m'.
Proof.
  intros Hinv Hs. split; [|by rewrite Hs|done|done|by rewrite Hs].
  rewrite Hs. by apply manager_inv_scratch.
Qed.

Lemma perform_cases bpg m r :
  manager_inv bpg m → request_ok r → performed bpg m r (fst (perform r m)) (snd (perform r m)).
Proof.
  intros Hinv Hr. destruct r as [tokens|seq n|seq start tokens|seq accepted|seq accepted|seq];
    simpl in Hr; unfold perform; rewrite sfmap_eq; cbn [fst snd].
  - pose proof (new_seq_cases bpg m tokens Hinv) as H.
    destruct (new_seq tokens m) as [[[id k]|e|] m']; cbn [fst snd]; [|by destruct H as [_ ->];
      apply performed_refused, same_but_scratch_refl|done].
    destruct H as (s & _ & _ & Hd & Hinv'). split; [done|by rewrite (nd_manager _ _ _ Hd)|done|done|].
    intros other Ho. rewrite (nd_manager _ _ _ Hd). simpl in *. by rewrite lookup_insert_ne.
  - pose proof (reserve_cases bpg m seq n Hinv Hr) as H.
    pose proof (reserve_inv bpg m seq n Hinv Hr) as Hinv'.
    destruct (reserve seq n m) as [[r|e|] m']; cbn [fst snd] in *; [| |done].
    + destruct H as (s & s' & _ & Hd & _).
      split; [done|by rewrite (rd_manager _ _ _ _ _ _ Hd)|done|done|].
      intros other Ho. rewrite (rd_manager _ _ _ _ _ _ Hd). simpl in *. by rewrite lookup_insert_ne.
    + destruct H as [_ H]. by apply performed_refused.
  - pose proof (write_tokens_inv bpg m seq start tokens Hinv Hr) as Hinv'.
    destruct (m_seqs m !! seq) as [s|] eqn:Hs.
    + pose proof (write_tokens_cases bpg m seq s start tokens Hinv Hs Hr) as H.
      destruct (write_refusal _ _ _) as [e|].
      * rewrite H in *. by apply performed_refused, same_but_scratch_refl.
      * destruct H as (M' & Hw & _). rewrite Hw in *. cbn [fst snd] in *. split; try done.
        intros other Ho. simpl in *. by rewrite lookup_insert_ne.
    + assert (write_tokens seq start tokens m = (Err (UnknownSeq seq), m)) as Hw.
      { unfold write_tokens. erewrite sbind_Err; [done|]. unfold sread, seq_state. by rewrite Hs. }
      rewrite Hw. by apply performed_refused, same_but_scratch_refl.
  - pose proof (compact_inv bpg m seq accepted Hinv Hr) as Hinv'.
    destruct (m_seqs m !! seq) as [s|] eqn:Hs.
    + destruct (compact_cases bpg m seq s accepted Hinv Hs Hr)
        as [(d & Hw & _)|(_ & M' & Hw & _)]; rewrite Hw in *; cbn [fst snd] in *.
      * by apply performed_refused, same_but_scratch_refl.
      * split; try done. intros other Ho. simpl in *. by rewrite lookup_insert_ne.
    + assert (compact seq accepted m = (Err (UnknownSeq seq), m)) as Hw.
      { unfold compact. erewrite sbind_Err; [done|]. unfold sread, seq_state. by rewrite Hs. }
      rewrite Hw. by apply performed_refused, same_but_scratch_refl.
  - pose proof (commit_cases bpg m seq accepted Hinv Hr) as H.
    destruct (commit seq accepted m) as [[u|e|] m']; cbn [fst snd]; [| |done].
    + destruct H as (s & s' & _ & Hd & Hinv').
      split; [done|by rewrite (cd_manager _ _ _ _ _ _ Hd)|done|done|].
      intros other Ho. rewrite (cd_manager _ _ _ _ _ _ Hd). simpl in *. by rewrite lookup_insert_ne.
    + destruct H as [_ ->]. by apply performed_refused, same_but_scratch_refl.
  - pose proof (free_seq_cases bpg m seq Hinv) as H.
    destruct (m_seqs m !! seq) as [s|] eqn:Hs.
    + destruct H as (m' & -> & Hinv' & Hm'). cbn [fst snd].
      split; [done|by rewrite Hm'|done|done|].
      intros other Ho. rewrite Hm'. simpl in *. by rewrite lookup_delete_ne.
    + rewrite H. by apply performed_refused, same_but_scratch_refl.
Qed.

(** ** Reachable managers *)

Section reachable.
Context (try_reserve_exact : Z → bool).

(** A manager as a constructor returns it. *)
Inductive started : StateManager → Prop :=
| started_new c specs pool m :
    is_u32 (max_ctx c) → is_u32 (max_seqs c) → 0 ≤ pool ≤ U64_MAX → Forall spec_u32 specs →
    new try_reserve_exact c specs pool = Ok m → started m
| started_declared c decls pool m :
    is_u32 (max_ctx c) → is_u32 (max_seqs c) → 0 ≤ pool ≤ U64_MAX →
    Forall (λ d, spec_u32 (d_spec d)) decls →
    new_with_declarations try_reserve_exact c decls pool = Ok m → started m.

(** Any number of requests, answered or refused. *)
Inductive served : StateManager → StateManager → Prop :=
| served_none m : served m m
| served_more m m1 r : served m m1 → request_ok r → served m (snd (perform r m1)).

Lemma started_ok m : started m → manager_ok m ∧ m_seqs m = ∅.
Proof.
  intros Hs.
  assert (∃ c groups pool, config_ok c ∧ layout_ok groups ∧ 0 ≤ pool ≤ U64_MAX ∧
    new_from_validated_groups try_reserve_exact c groups pool = Ok m) as
    (c & groups & pool & Hc & Hl & Hp & Hm).
  { destruct Hs as [c specs pool m Hcx Hcs Hp Hsp Hnew|c decls pool m Hcx Hcs Hp Hsp Hnew].
    - destruct (constructed try_reserve_exact c specs [] pool m) as (groups & ? & ? & ?);
        [done..|by left|]. exists c, groups, pool; do 3 (split; [assumption|]); assumption.
    - destruct (constructed try_reserve_exact c [] decls pool m) as (groups & ? & ? & ?);
        [done|done|done|done|by right|]. exists c, groups, pool; do 3 (split; [assumption|]); assumption. }
  split; [by eapply constructed_ok|].
  by destruct (new_from_validated_groups_Ok _ _ _ _ _ Hc Hl Hp Hm) as (-> & _).
Qed.

Lemma served_inv bpg m m' : manager_inv bpg m → served m m' → manager_inv bpg m' ∧ same_static m m'.
Proof.
  intros Hinv Hsv. revert Hinv. induction Hsv as [m|m m1 r Hsv IH Hr]; intros Hinv.
  { split; [done|]. unfold same_static. by split_and!. }
  destruct (IH Hinv) as [Hinv1 Hst]. pose proof (perform_cases bpg m1 r Hinv1 Hr) as [H1 H2 _ _ _].
  split; [done|]. unfold same_static in *.
  destruct Hst as (?&?&?&?&?&?), H2 as (?&?&?&?&?&?). split_and!; congruence.
Qed.

(** C5: whatever requests a manager has served since it was built, it is well
    formed, and the next request does not panic, leaves every other sequence
    as it was, and if refused leaves the whole manager as it was (but for the
    contents of the scratch vector, which every reservation clears first). *)
Theorem requests_safe m0 m r :
  started m0 → served m0 m → request_ok r →
  manager_ok m ∧ fst (perform r m) ≠ Panic ∧
  (∀ other, other ≠ target m r → m_seqs (snd (perform r m)) !! other = m_seqs m !! other) ∧
  (∀ e, fst (perform r m) = Err e → same_but_scratch m (snd (perform r m))).
Proof.
  intros Hst Hsv Hr. destruct (started_ok m0 Hst) as [[bpg Hinv] _].
  destruct (served_inv bpg m0 m Hinv Hsv) as [Hinv' _].
  destruct (perform_cases bpg m r Hinv' Hr) as [? ? ? ? ?]. split_and!; [by exists bpg|done..].
Qed.

(** C7: no block and no slot is ever lost: once every sequence has been
    released the pools are exactly those the constructor built, whatever was
    served in between. *)
Theorem nothing_leaks m0 m :
  started m0 → served m0 m → m_seqs m = ∅ → m_pools m = m_pools m0 ∧ m_fixed m = m_fixed m0.
Proof.
  intros Hst Hsv He. destruct (started_ok m0 Hst) as [[bpg Hinv] He0].
  destruct (served_inv bpg m0 m Hinv Hsv) as [Hinv' Hstat].
  eapply same_seqs_same_pools; [done..|congruence].
Qed.

(** in every group the free blocks (or slots) and those held by the live
    sequences add up to the pool, and no id is held twice. *)
Theorem ids_conserved m0 m gi g :
  started m0 → served m0 m → m_groups m !! gi = Some g →
  if is_paged (g_spec g)
  then ∃ p, get_some gi (m_pools m) = Some p ∧
         let held := owned (table_of gi) (m_seqs m) in
         free_blocks gi m = Ok (p_total p - Z.of_nat (length held)) ∧ NoDup held ∧
         (∀ id, id ∈ held → 0 ≤ id < p_total p ∧ id ∉ p_free p)
  else ∃ f, get_some gi (m_fixed m) = Some f ∧
         let held := owned (slots_of gi) (m_seqs m) in
         free_slots gi m = Ok (f_total_slots f - Z.of_nat (length held)) ∧ NoDup held ∧
         (∀ id, id ∈ held → 0 ≤ id < f_total_slots f ∧ id ∉ f_free f).
Proof.
  intros Hst Hsv Hg. destruct (started_ok m0 Hst) as [[bpg Hinv0] _].
  destruct (served_inv bpg m0 m Hinv0 Hsv) as [Hinv _].
  destruct (is_paged (g_spec g)) eqn:Hp.
  - destruct (pools_inv_paged _ _ _ _ _ gi g (mi_pools _ _ Hinv) Hg Hp) as (p & Hpl & Hpart & Ht & _).
    exists p. pose proof (mi_bpg _ _ Hinv). unfold MAX_SLOT_BLOCKS in *.
    pose proof (block_count p _ ltac:(lia) Hpart) as Hlen.
    split; [by apply get_some_Some|]. cbv zeta. split_and!.
    + unfold free_blocks. rewrite (proj2 (get_some_Some gi (m_pools m) p) Hpl). cbn [ok_or obind].
      rewrite try_from_ok by (unfold U32_MAX; lia). simpl. f_equal. lia.
    + exact (partitioned_owned_NoDup p _ Hpart).
    + intros id Hid. apply and_comm. by eapply block_owned.
  - pose proof (mi_fixed _ _ Hinv) as [_ Hf]. specialize (Hf gi g Hg). rewrite Hp in Hf.
    destruct Hf as (f & Hfl & Hpart & Ht & _).
    exists f. pose proof (mi_config _ _ Hinv) as (_ & _ & Hms). unfold MAX_SEQS_HARD in *.
    pose proof (slot_count f _ ltac:(lia) Hpart) as Hlen.
    split; [by apply get_some_Some|]. cbv zeta. split_and!.
    + unfold free_slots. rewrite (proj2 (get_some_Some gi (m_fixed m) f) Hfl). cbn [ok_or obind].
      rewrite try_from_ok by (unfold U32_MAX; lia). simpl. f_equal. lia.
    + exact (partitioned_owned_NoDup f _ Hpart).
    + intros id Hid. apply and_comm. by eapply slot_owned.
Qed.
End reachable.

(** ** A speculative step end to end *)

Lemma commit_progress bpg m seq s accepted :
  manager_inv bpg m → m_seqs m !! seq = Some s → q_tail_len s ≠ 0 →
  0 ≤ accepted ≤ q_tail_len s → q_compacted s = Some (Z.to_nat accepted) →
  m_commits m < U64_MAX → m_swaps m < U64_MAX →
  ∃ s' m', commit seq accepted m = (Ok tt, m') ∧ commit_done m seq accepted s s' m' ∧
    manager_inv bpg m'.
Proof.
  intros Hinv Hs Ht Ha Hc Hn Hw. pose proof (commit_cases bpg m seq accepted Hinv (proj1 Ha)) as H.
  destruct (commit seq accepted m) as [[[]|e|] m'] eqn:Hrun; [| |done].
  - destruct H as (s1 & s' & Had & Hd & Hinv').
    assert (s1 = s) as -> by (pose proof (ca_seq _ _ _ _ Had); congruence). by exists s', m'.
  - exfalso. destruct H as [Href _]. destruct Href; simplify_eq; try congruence; lia.
Qed.

(** C6: one speculative step: the tokens of a whole reservation are written,
    the accepted positions compacted and their number committed.  No stage
    refuses; the context grows by that number, and in every paged group the
    [i]-th new context position reads the token of the [i]-th accepted
    position, unless its block already left the window. *)
Theorem speculative_step m seq s tokens accepted :
  manager_ok m → m_seqs m !! seq = Some s → Z.of_nat (length tokens) = q_tail_len s →
  Forall (λ p, 0 ≤ p) accepted → compact_ok s accepted →
  m_commits m < U64_MAX → m_swaps m < U64_MAX →
  ∃ m1 op m2 m3,
    write_tokens seq (q_ctx_len s) tokens m = (Ok tt, m1) ∧
    compact seq accepted m1 = (Ok op, m2) ∧
    src_positions op = map (Z.add (q_ctx_len s)) accepted ∧
    commit seq (c_len op) m2 = (Ok tt, m3) ∧
    let ctx' := q_ctx_len s + Z.of_nat (length accepted) in
    ctx_len seq m3 = Ok ctx' ∧ tail_len seq m3 = Ok 0 ∧
    ∀ gi g i p, m_groups m !! gi = Some g → is_paged (g_spec g) = true → accepted !! i = Some p →
      let pos := q_ctx_len s + Z.of_nat i in
      read_token seq gi pos m3 =
        Ok (if evicts (g_spec g) ctx' (pos / BLOCK_TOKENS) then None else tokens !! Z.to_nat p).
Proof.
  intros [bpg Hinv] Hs Hlen H0 Hok Hn Hw. pose proof Hok as (Ht & Hcap & Hacc).
  destruct (mi_seqs _ _ Hinv seq s Hs) as [_ Hso].
  pose proof (so_ctx _ _ _ Hso). pose proof (so_end _ _ _ Hso). pose proof (so_tail _ _ _ Hso).
  pose proof (mi_config _ _ Hinv) as (Hctx & _ & _). unfold MAX_CTX_HARD in Hctx.
  pose proof (accepted_le_tail _ _ H0 Hacc ltac:(lia)) as Hle.
  pose proof (write_tokens_cases bpg m seq s (q_ctx_len s) tokens Hinv Hs ltac:(lia)) as Hwr.
  unfold write_refusal in Hwr. rewrite !decide_False in Hwr by (unfold U32_MAX; lia).
  destruct Hwr as (M1 & Hrun1 & HM1 & Hinv1).
  assert (Hs1 : m_seqs (with_mirror seq s M1 m) !! seq = Some (set_mirror M1 s))
    by apply lookup_insert_eq.
  destruct (compact_cases bpg _ seq (set_mirror M1 s) accepted Hinv1 Hs1 H0)
    as [(d & _ & Hd)|(_ & M2 & Hrun2 & HM2 & Hinv2)].
  { exfalso. assert (¬ scan_detail (q_tail_len s) accepted d)
      by (intros Hsc; by apply (scan_detail_refused _ _ _ Hsc)).
    destruct d; simpl in Hd; done || lia. }
  set (m2 := compacted_manager seq (set_mirror M1 s) (length accepted) M2 (with_mirror seq s M1 m))
    in *.
  assert (Hs2 : m_seqs m2 !! seq = Some (set_compacted (Some (length accepted))
    (set_mirror M2 (set_mirror M1 s)))) by apply lookup_insert_eq.
  destruct (commit_progress bpg m2 seq _ (Z.of_nat (length accepted)) Hinv2 Hs2)
    as (s3 & m3 & Hrun3 & Hd3 & Hinv3); [done|simpl; lia|simpl; by rewrite Nat2Z.id|done|done|].
  exists (with_mirror seq s M1 m), (compact_op seq (set_mirror M1 s) accepted), m2, m3.
  destruct (cd_state _ _ _ _ _ _ Hd3) as (Hc3 & Ht3 & _). simpl in Hc3.
  assert (Hs3 : m_seqs m3 !! seq = Some s3).
  { rewrite (cd_manager _ _ _ _ _ _ Hd3). apply lookup_insert_eq. }
  cbv zeta. split_and!; [done|done| |done| | |].
  - unfold src_positions, compact_op. simpl. rewrite Nat2Z.id, take_app_le, firstn_all2;
      rewrite ?length_map; done || lia.
  - unfold ctx_len. rewrite (seq_state_Some m3 seq s3 Hs3). simpl. by rewrite Hc3.
  - unfold tail_len. rewrite (seq_state_Some m3 seq s3 Hs3). simpl. by rewrite Ht3.
  - intros gi g i p Hg Hp Hi. set (pos := q_ctx_len s + Z.of_nat i).
    assert (Hg2 : m_groups m2 !! gi = Some g) by done.
    assert (Hg3 : m_groups m3 !! gi = Some g) by by rewrite (cd_manager _ _ _ _ _ _ Hd3).
    apply lookup_lt_Some in Hi as Hil. apply lookup_lt_Some in Hg3 as Hgl.
    assert (0 ≤ p < q_tail_len s) as Hpb.
    { destruct Hacc as [_ Hlt]. rewrite Forall_lookup in H0, Hlt.
      specialize (H0 _ _ Hi). specialize (Hlt _ _ Hi). simpl in *. lia. }
    rewrite (read_token_Ok bpg m3 seq s3) by (done || unfold pos; lia).
    rewrite (cd_mirror _ _ _ _ _ _ Hd3 gi g pos Hg2), Hc3. f_equal.
    destruct (evicts _ _ _); [done|]. simpl.
    rewrite HM2. simpl. rewrite Hg, decide_True by (split; [done|unfold pos; lia]).
    replace (Z.to_nat (pos - q_ctx_len s)) with i by (unfold pos; lia).
    rewrite Hi. simpl. rewrite HM1, Hg, decide_True by (split; [done|lia]).
    f_equal. lia.
Qed.

(** ** Witnesses *)

Lemma demo_started : started (λ _, true) demo.
Proof.
  apply (started_new (λ _, true) demo_config demo_specs demo_bytes demo).
  - split; [discriminate|vm_compute; discriminate].
  - split; [discriminate|vm_compute; discriminate].
  - split; [discriminate|vm_compute; discriminate].
  - apply demo_specs_u32.
  - apply demo_new.
Qed.

Lemma demo2_served : served demo demo2.
Proof.
  assert (snd (perform (Reserve 0 70) (snd (perform (NewSeq []) (snd (perform (NewSeq [1; 2]) demo)))))
    = demo2) as <- by (vm_compute; reflexivity).
  repeat apply served_more; [apply served_none|done|done|done].
Qed.

Lemma requests_safe_witness :
  manager_ok demo2 ∧
  fst (perform (Reserve 1 300) demo2) = Err (ReserveTooLarge 300 128 300) ∧
  same_but_scratch demo2 (snd (perform (Reserve 1 300) demo2)).
Proof.
  pose proof (requests_safe (λ _, true) demo demo2 (Reserve 1 300) demo_started demo2_served
    ltac:(done)) as (Hok & _ & _ & Ha).
  assert (fst (perform (Reserve 1 300) demo2) = Err (ReserveTooLarge 300 128 300)) as He
    by (vm_compute; reflexivity).
  split; [exact Hok|]. split; [exact He|exact (Ha _ He)].
Defined.

Lemma nothing_leaks_witness :
  let m := snd (perform (FreeSeq 0) (snd (perform (NewSeq []) demo))) in
  m_pools m = m_pools demo ∧ m_fixed m = m_fixed demo.
Proof.
  cbv zeta. apply (nothing_leaks (λ _, true) demo _ demo_started).
  - repeat apply served_more; [apply served_none|done|done].
  - vm_compute. reflexivity.
Defined.

(** Three of the seventy reserved tokens are accepted, in an order that
    overlaps their destination. *)
Lemma speculative_step_witness :
  ∃ m3, ctx_len 0 m3 = Ok 3 ∧ read_token 0 0 1 m3 = Ok (Some 107).
Proof.
  destruct (m_seqs demo2 !! 0) as [s|] eqn:Hs; [|vm_compute in Hs; discriminate Hs].
  assert (q_ctx_len s = 0 ∧ q_tail_len s = 70) as [Hc Ht].
  { vm_compute in Hs. injection Hs as <-. by split. }
  destruct (speculative_step demo2 0 s (zrange 100 170) [0; 7; 1] demo2_ok Hs)
    as (m1 & op & m2 & m3 & _ & _ & _ & _ & Hctx & _ & Hread).
  - by rewrite Ht.
  - repeat constructor; lia.
  - unfold compact_ok. rewrite Ht. split; [discriminate|]. split; [vm_compute; lia|].
    split; [by apply (bool_decide_unpack (NoDup [0; 7; 1]))|repeat constructor].
  - vm_compute. reflexivity.
  - vm_compute. reflexivity.
  - exists m3. rewrite Hc in *. split; [exact Hctx|].
    exact (Hread 0%nat (nth 0 (m_groups demo2) {| g_index := 0; g_spec := ConvWindow 1 1;
      g_layers := [] |}) 1%nat 7 eq_refl eq_refl eq_refl).
Defined.
