(* ===== verification/Layout.v ===== *)
(** * The device arena

    Where blocks and double-buffered slots lie in the arena the pools of
    [crates/r9v-state/src/manager.rs] divide: [block_offset],
    [fixed_buffer_offset] and [recurrent_buffers].  No two regions overlap,
    across groups, blocks, buffers and sequences. *)

From S2P Require Import Prelude Errors Spec Table Pools Manager Invariant Construct Reserve Admission Commit.

#[global] Open Scope Z_scope.

(** ** Bases *)

Lemma arena_base_mono bpg seqs groups gi gj g :
  0 ≤ bpg → 0 ≤ seqs → Forall group_ok groups → groups !! gi = Some g → (gi < gj)%nat →
  arena_base bpg seqs groups gi + group_bytes bpg seqs g ≤ arena_base bpg seqs groups gj.
Proof.
  intros Hb Hs Hok Hg Hlt. unfold arena_base.
  assert (take gj groups = take gi groups ++ g :: take (gj - S gi) (drop (S gi) groups)) as ->.
  { rewrite <- (take_drop_middle groups gi g Hg) at 1. apply lookup_lt_Some in Hg.
    rewrite take_app, length_take, take_take, Nat.min_r, Nat.min_l by lia.
    replace (gj - gi)%nat with (S (gj - S gi)) by lia. done. }
  unfold Zsum. rewrite map_app, foldr_app. simpl. fold Zsum.
  assert (∀ l c, foldr Z.add c l = Zsum l + c) as Hfold.
  { intros l c. unfold Zsum. induction l as [|x l IH]; simpl; lia. }
  rewrite (Hfold _ (group_bytes _ _ _ + _)).
  assert (0 ≤ Zsum (map (group_bytes bpg seqs) (take (gj - S gi) (drop (S gi) groups)))).
  { apply group_bytes_sum_nonneg; [done..|]. by apply Forall_take, Forall_drop. }
  unfold Zsum in *. lia.
Qed.

Lemma arena_base_nonneg bpg seqs groups gi :
  0 ≤ bpg → 0 ≤ seqs → Forall group_ok groups → 0 ≤ arena_base bpg seqs groups gi.
Proof. intros. apply group_bytes_sum_nonneg; [done..|]. by apply Forall_take. Qed.

Lemma arena_base_end bpg seqs groups gi g :
  0 ≤ bpg → 0 ≤ seqs → Forall group_ok groups → groups !! gi = Some g →
  arena_base bpg seqs groups gi + group_bytes bpg seqs g ≤
  fixed_bytes seqs groups + bpg * block_cost groups.
Proof.
  intros Hb Hs Hok Hg. apply lookup_lt_Some in Hg as Hlt.
  pose proof (arena_base_mono bpg seqs groups gi (length groups) g Hb Hs Hok Hg Hlt) as H.
  unfold arena_base at 2 in H. rewrite firstn_all in H. by rewrite group_bytes_split in H.
Qed.

Lemma group_slot_bytes_half g : 2 * (group_slot_bytes g / 2) = group_slot_bytes g.
Proof.
  unfold group_slot_bytes. set (n := Z.of_nat _).
  assert (∃ k, seq_bytes (g_spec g) = 2 * k) as [k ->].
  { destruct (g_spec g) as [? ? ? ? ?|? ? ? ?|h d dv|c w]; simpl.
    - by exists 0. - by exists 0. - exists (h * d * dv * 4). lia. - exists ((w - 1) * c * 2). lia. }
  replace (2 * k * n) with (k * n * 2) by lia. rewrite Z.div_mul; lia.
Qed.

(** ** Regions *)

(** What the device addresses: a block of a paged group, or one of the two
    buffers of a slot of a fixed group. *)
Inductive region : Type :=
| BlockRegion (group : nat) (id : Z)
| BufferRegion (group : nat) (buffer : Z).

Definition region_group (r : region) : nat :=
  match r with BlockRegion gi _ | BufferRegion gi _ => gi end.

Definition region_id (r : region) : Z :=
  match r with BlockRegion _ id | BufferRegion _ id => id end.

(** Offset and length of a region, from the code's offset functions. *)
Definition region_at (m : StateManager) (r : region) : StateResult (Z * Z) :=
  match r with
  | BlockRegion gi id =>
      let* p := ok_or (get_some gi (m_pools m)) (InvalidBatch (NotPagedGroup gi)) in
      let* o := block_offset (p_base_offset p) id (p_block_bytes p) in
      Ok (o, p_block_bytes p)
  | BufferRegion gi buffer =>
      let* f := ok_or (get_some gi (m_fixed m)) (InvalidBatch (NotRecurrentGroup gi)) in
      let* o := fixed_buffer_offset gi buffer m in
      Ok (o, f_buffer_bytes f)
  end.

Definition region_ok (m : StateManager) (r : region) : Prop :=
  match r with
  | BlockRegion gi id => ∃ p, get_some gi (m_pools m) = Some p ∧ 0 ≤ id < p_total p
  | BufferRegion gi b => ∃ f, get_some gi (m_fixed m) = Some f ∧ 0 ≤ b < 2 * f_total_slots f
  end.

(** The size of the cells of a group, and a region as a cell of its group. *)
Definition cell_bytes (g : LayerGroup) : Z :=
  if is_paged (g_spec g) then group_block_bytes g else group_slot_bytes g / 2.

(** A region is a cell of its group: the group's bytes are so many cells, and
    the region is the one its id names. *)
Definition in_cell (bpg : Z) (m : StateManager) (r : region) : Prop :=
  let seqs := max_seqs (m_config m) in
  ∃ g cells, m_groups m !! region_group r = Some g ∧ 0 ≤ region_id r < cells ∧
    0 ≤ cell_bytes g ∧ cells * cell_bytes g = group_bytes bpg seqs g ∧
    region_at m r = Ok (arena_base bpg seqs (m_groups m) (region_group r) + region_id r * cell_bytes g,
                        cell_bytes g).

Lemma block_cell bpg m gi id :
  manager_inv bpg m → region_ok m (BlockRegion gi id) → in_cell bpg m (BlockRegion gi id).
Proof.
  intros Hinv Hr. pose proof (mi_config _ _ Hinv) as (_ & _ & Hseqs). pose proof (mi_bpg _ _ Hinv) as Hb.
  pose proof (layout_groups _ (mi_layout _ _ Hinv)) as Hok.
  pose proof (mi_totals _ _ Hinv) as (Htp & Htf & Hun & Hmax).
  set (seqs := max_seqs (m_config m)) in *. unfold MAX_SEQS_HARD in *.
  assert (0 ≤ bpg ∧ 0 ≤ seqs) as [Hb0 Hs0] by lia.
  unfold in_cell. cbv zeta. cbn [region_group region_id]. fold seqs.
  destruct Hr as (p & Hp & Hid). pose proof (mi_pools _ _ Hinv) as [Hl Hpi].
  destruct (m_groups m !! gi) as [g|] eqn:Hg.
  2:{ apply get_some_Some in Hp. apply lookup_lt_Some in Hp. apply lookup_ge_None in Hg. lia. }
  specialize (Hpi gi g Hg). apply get_some_Some in Hp as Hp'.
  destruct (is_paged (g_spec g)) eqn:Hpg; [|congruence].
  destruct Hpi as (q & Hq & _ & Ht & Hbb & Hbo). assert (q = p) as -> by congruence.
  exists g, bpg. unfold cell_bytes, group_bytes. rewrite Hpg.
  assert (group_ok g) as Hgok by (rewrite Forall_forall in Hok; apply Hok; by eapply list_elem_of_lookup_2).
  destruct (group_block_bytes_bounds g Hgok) as [[? ?] _].
  pose proof (arena_base_end bpg seqs (m_groups m) gi g Hb0 Hs0 Hok Hg) as He.
  pose proof (arena_base_nonneg bpg seqs (m_groups m) gi Hb0 Hs0 Hok).
  unfold group_bytes in He. rewrite Hpg in He.
  assert ((id + 1) * group_block_bytes g ≤ bpg * group_block_bytes g) by (apply Z.mul_le_mono_nonneg_r; lia).
  split_and!; [done|lia|lia|lia|done|].
  unfold region_at. rewrite Hp. cbn [ok_or obind]. rewrite Hbb, Hbo. unfold block_offset. fold seqs.
  assert (0 ≤ id * group_block_bytes g) by (apply Z.mul_nonneg_nonneg; lia).
  fold seqs in Htf. rewrite Htp, Htf in Hmax.
  rewrite checked_mul_ok by lia. simpl. rewrite checked_add_ok by lia. simpl.
  do 2 f_equal. lia.
Qed.

Lemma buffer_cell bpg m gi b :
  manager_inv bpg m → region_ok m (BufferRegion gi b) → in_cell bpg m (BufferRegion gi b).
Proof.
  intros Hinv Hr. pose proof (mi_config _ _ Hinv) as (_ & _ & Hseqs). pose proof (mi_bpg _ _ Hinv) as Hb.
  pose proof (layout_groups _ (mi_layout _ _ Hinv)) as Hok.
  pose proof (mi_totals _ _ Hinv) as (Htp & Htf & Hun & Hmax).
  set (seqs := max_seqs (m_config m)) in *. unfold MAX_SEQS_HARD in *.
  assert (0 ≤ bpg ∧ 0 ≤ seqs) as [Hb0 Hs0] by lia.
  unfold in_cell. cbv zeta. cbn [region_group region_id]. fold seqs.
  destruct Hr as (f & Hf & Hbuf). pose proof (mi_fixed _ _ Hinv) as [Hl Hfi].
  destruct (m_groups m !! gi) as [g|] eqn:Hg.
  2:{ apply get_some_Some in Hf. apply lookup_lt_Some in Hf. apply lookup_ge_None in Hg. lia. }
  specialize (Hfi gi g Hg). apply get_some_Some in Hf as Hf'.
  destruct (is_paged (g_spec g)) eqn:Hpg; [congruence|].
  destruct Hfi as (q & Hq & _ & Ht & _ & Hbb & Hbo). assert (q = f) as -> by congruence.
  exists g, (2 * seqs). unfold cell_bytes, group_bytes. rewrite Hpg.
  assert (group_ok g) as Hgok by (rewrite Forall_forall in Hok; apply Hok; by eapply list_elem_of_lookup_2).
  pose proof (group_slot_bytes_bounds g Hgok). pose proof (group_slot_bytes_half g).
  pose proof (arena_base_end bpg seqs (m_groups m) gi g Hb0 Hs0 Hok Hg) as He.
  pose proof (arena_base_nonneg bpg seqs (m_groups m) gi Hb0 Hs0 Hok).
  unfold group_bytes in He. rewrite Hpg in He. fold seqs in Ht, Htf.
  set (h := group_slot_bytes g / 2) in *. assert (0 ≤ h) by lia.
  assert ((b + 1) * h ≤ 2 * seqs * h) by (apply Z.mul_le_mono_nonneg_r; lia).
  split_and!; [done|lia|lia|done|lia|].
  assert (0 ≤ b * h) by (apply Z.mul_nonneg_nonneg; lia).
  rewrite Htp, Htf in Hmax.
  unfold region_at, fixed_buffer_offset. rewrite Hf. cbn [ok_or obind].
  rewrite checked_mul_ok by (unfold U32_MAX; lia). cbn [ok_or obind].
  destruct (Z.leb_spec (f_total_slots f * 2) b); [lia|]. unfold buffer_offset.
  rewrite Hbb, Hbo. fold seqs h. rewrite checked_mul_ok by lia. simpl.
  rewrite checked_add_ok by lia. simpl. do 2 f_equal. lia.
Qed.

Lemma region_cell bpg m r : manager_inv bpg m → region_ok m r → in_cell bpg m r.
Proof. destruct r; [apply block_cell|apply buffer_cell]. Qed.

(** A group has blocks or buffers, not both. *)
Lemma same_cell_same_region bpg m r r' :
  manager_inv bpg m → region_ok m r → region_ok m r' →
  region_group r = region_group r' → region_id r = region_id r' → r = r'.
Proof.
  intros Hinv Hr Hr' Hg Hi.
  assert (∀ gi p f, get_some gi (m_pools m) = Some p → get_some gi (m_fixed m) = Some f → False) as Hx.
  { intros gi p f Hp Hf. apply get_some_Some in Hp, Hf.
    destruct (mi_pools _ _ Hinv) as [Hl Hpi], (mi_fixed _ _ Hinv) as [_ Hfi].
    destruct (m_groups m !! gi) as [g|] eqn:Hgi.
    - specialize (Hpi _ _ Hgi). specialize (Hfi _ _ Hgi). destruct (is_paged (g_spec g)); congruence.
    - apply lookup_lt_Some in Hp. apply lookup_ge_None in Hgi. lia. }
  destruct r as [gi id|gi b], r' as [gj id'|gj b']; simpl in *; subst; try done.
  - destruct Hr as (p & Hp & _), Hr' as (f & Hf & _). by destruct (Hx gj p f).
  - destruct Hr' as (p & Hp & _), Hr as (f & Hf & _). by destruct (Hx gj p f).
Qed.

(** C13: every block and every buffer of a well-formed manager has an address:
    the offset functions do not fail on it, it lies inside the bytes the
    manager accounts for, and no two of them overlap, within a group or across
    groups. *)
Theorem arena_disjoint m r r' :
  manager_ok m → region_ok m r → region_ok m r' → r ≠ r' →
  ∃ o len o' len', region_at m r = Ok (o, len) ∧ region_at m r' = Ok (o', len') ∧
    0 ≤ o ∧ 0 ≤ len ∧ o + len ≤ m_pool_bytes_total m + m_fixed_bytes_total m ∧
    (o + len ≤ o' ∨ o' + len' ≤ o).
Proof.
  intros [bpg Hinv] Hr Hr' Hne.
  destruct (region_cell bpg m r Hinv Hr) as (g & cells & Hg & Hid & Hc & Hb & Hat).
  destruct (region_cell bpg m r' Hinv Hr') as (g' & cells' & Hg' & Hid' & Hc' & Hb' & Hat').
  pose proof (mi_config _ _ Hinv) as (_ & _ & Hseqs). pose proof (mi_bpg _ _ Hinv).
  pose proof (layout_groups _ (mi_layout _ _ Hinv)) as Hok.
  pose proof (mi_totals _ _ Hinv) as (Htp & Htf & _).
  do 4 eexists. split; [exact Hat|]. split; [exact Hat'|].
  set (seqs := max_seqs (m_config m)) in *. assert (0 ≤ bpg ∧ 0 ≤ seqs) as [Hb0 Hs0] by lia.
  pose proof (arena_base_nonneg bpg seqs (m_groups m) (region_group r) Hb0 Hs0 Hok).
  pose proof (arena_base_end bpg seqs (m_groups m) _ g Hb0 Hs0 Hok Hg) as He.
  assert (∀ i n c, 0 ≤ c → 0 ≤ i < n → 0 ≤ i * c ∧ (i + 1) * c ≤ n * c) as Hcell.
  { intros i n c Hc0 Hi. split; [apply Z.mul_nonneg_nonneg; lia|apply Z.mul_le_mono_nonneg_r; lia]. }
  pose proof (Hcell _ _ _ Hc Hid). pose proof (Hcell _ _ _ Hc' Hid').
  split_and!; [lia|lia|lia|].
  destruct (Nat.lt_trichotomy (region_group r) (region_group r')) as [Hlt|[Heq|Hlt]].
  - pose proof (arena_base_mono bpg seqs (m_groups m) _ _ g Hb0 Hs0 Hok Hg Hlt). lia.
  - rewrite Heq in Hg. assert (g' = g) as -> by congruence. rewrite Heq.
    assert (region_id r ≠ region_id r') as Hrne.
    { intros Hr0. by apply Hne, (same_cell_same_region bpg m). }
    destruct (Z.lt_trichotomy (region_id r) (region_id r')) as [?|[?|?]]; [|done|].
    + pose proof (Hcell (region_id r) (region_id r') (cell_bytes g) Hc ltac:(lia)). lia.
    + pose proof (Hcell (region_id r') (region_id r) (cell_bytes g) Hc ltac:(lia)). lia.
  - pose proof (arena_base_mono bpg seqs (m_groups m) _ _ g' Hb0 Hs0 Hok Hg' Hlt). lia.
Qed.

(** ** Double buffering *)

Lemma fixed_slot_of bpg m seq s gi g :
  manager_inv bpg m → m_seqs m !! seq = Some s → m_groups m !! gi = Some g →
  is_paged (g_spec g) = false →
  ∃ slot b, slots_of gi s = [slot] ∧ fixed_slot seq gi m = Ok slot ∧
    0 ≤ slot < max_seqs (m_config m) ∧ q_parity s !! gi = Some b ∧ (b = 0 ∨ b = 1).
Proof.
  intros Hinv Hs Hg Hp. destruct (mi_seqs _ _ Hinv seq s Hs) as [_ Hok].
  pose proof (so_shape _ _ _ Hok) as Hsh. destruct (ss_fixed _ _ Hsh gi g Hg Hp) as (_ & _ & [slot Hslot]).
  destruct (lookup_lt_is_Some_2 (q_parity s) gi) as [b Hb].
  { rewrite (ss_parity _ _ Hsh). by eapply lookup_lt_Some. }
  exists slot, b. assert (slots_of gi s = [slot]) as Hso by (unfold slots_of; by rewrite Hslot).
  split_and!; [done| | | |done|].
  - unfold fixed_slot. rewrite (seq_state_Some m seq s Hs). cbn [obind].
    unfold group_at. rewrite Hg. cbn [ok_or obind].
    rewrite (proj1 (not_paged_recurrent _) Hp). cbn [negb]. by rewrite Hslot.
  - pose proof (mi_fixed _ _ Hinv) as [_ Hfi]. specialize (Hfi gi g Hg). rewrite Hp in Hfi.
    destruct Hfi as (f & _ & Hpart & Ht & _).
    destruct (slot_owned f _ slot Hpart) as [_ [? _]]; [|done].
    apply elem_of_owned. exists seq, s. rewrite Hso. split; [done|by left].
  - pose proof (mi_fixed _ _ Hinv) as [_ Hfi]. specialize (Hfi gi g Hg). rewrite Hp in Hfi.
    destruct Hfi as (f & _ & Hpart & Ht & _).
    destruct (slot_owned f _ slot Hpart) as [_ [_ ?]]; [|lia].
    apply elem_of_owned. exists seq, s. rewrite Hso. split; [done|by left].
  - pose proof (ss_parity_bit _ _ Hsh) as Hbit. rewrite Forall_lookup in Hbit. by eapply Hbit.
Qed.

Lemma recurrent_buffers_of bpg m seq s gi g :
  manager_inv bpg m → m_seqs m !! seq = Some s → m_groups m !! gi = Some g →
  is_paged (g_spec g) = false →
  ∃ slot b, slots_of gi s = [slot] ∧ 0 ≤ slot < max_seqs (m_config m) ∧
    q_parity s !! gi = Some b ∧ (b = 0 ∨ b = 1) ∧
    recurrent_buffers seq gi m = Ok (2 * slot + b, 2 * slot + (1 - b)).
Proof.
  intros Hinv Hs Hg Hp. destruct (fixed_slot_of bpg m seq s gi g Hinv Hs Hg Hp)
    as (slot & b & Hso & Hfs & Hr & Hb & Hbit).
  exists slot, b. split_and!; [done|lia|lia|done|done|].
  pose proof (mi_config _ _ Hinv) as (_ & _ & Hms). unfold MAX_SEQS_HARD in Hms.
  unfold recurrent_buffers, recurrent_active. rewrite Hfs. cbn [obind].
  rewrite (seq_state_Some m seq s Hs). cbn [obind]. rewrite Hb. cbn [ok_or obind].
  rewrite checked_mul_ok by (unfold U32_MAX; lia). cbn [ok_or obind].
  rewrite checked_add_ok by (unfold U32_MAX; lia). cbn [ok_or obind].
  replace (if b =? 0 then Ok 1 else if b =? 1 then Ok 0 else Err (Overflow "fixed buffer parity"))
    with (Ok (E := StateError) (1 - b)) by (destruct Hbit as [-> | ->]; done).
  cbn [obind]. rewrite checked_add_ok by (unfold U32_MAX; lia). simpl. do 2 f_equal; lia.
Qed.

(** in every fixed group a live sequence owns an active and a working
    buffer, two different ones inside the pool, which no other sequence
    owns. *)
Theorem buffers_private m seq s gi g :
  manager_ok m → m_seqs m !! seq = Some s → m_groups m !! gi = Some g →
  is_paged (g_spec g) = false →
  ∃ active working, recurrent_buffers seq gi m = Ok (active, working) ∧ active ≠ working ∧
    region_ok m (BufferRegion gi active) ∧ region_ok m (BufferRegion gi working) ∧
    ∀ other t, other ≠ seq → m_seqs m !! other = Some t →
      ∃ active' working', recurrent_buffers other gi m = Ok (active', working') ∧
        active' ≠ active ∧ active' ≠ working ∧ working' ≠ active ∧ working' ≠ working.
Proof.
  intros [bpg Hinv] Hs Hg Hp.
  destruct (recurrent_buffers_of bpg m seq s gi g Hinv Hs Hg Hp) as (slot & b & Hso & Hr & _ & Hb & Hrb).
  pose proof (mi_fixed _ _ Hinv) as [_ Hfi]. specialize (Hfi gi g Hg). rewrite Hp in Hfi.
  destruct Hfi as (f & Hf & Hpart & Ht & _).
  exists (2 * slot + b), (2 * slot + (1 - b)). split; [done|].
  assert (∀ x, 0 ≤ x < 2 * max_seqs (m_config m) → region_ok m (BufferRegion gi x)) as Hreg.
  { intros x Hx. exists f. split; [by apply get_some_Some|]. lia. }
  split_and!; [lia|apply Hreg; lia|apply Hreg; lia|].
  intros other t Hne Ht'.
  destruct (recurrent_buffers_of bpg m other t gi g Hinv Ht' Hg Hp)
    as (slot' & b' & Hso' & Hr' & _ & Hb' & Hrb').
  exists (2 * slot' + b'), (2 * slot' + (1 - b')). split; [done|].
  assert (slot' ≠ slot) as Hsl; [|lia].
  intros ->. apply Hne. eapply (owned_unique (slots_of gi)); [|done|done|..].
  - exact (partitioned_owned_NoDup f _ Hpart).
  - rewrite Hso'. by left.
  - rewrite Hso. by left.
Qed.

(** A commit swaps the two buffers of every fixed group when it accepts
    anything, publishing the working buffer, and keeps them when it accepts
    nothing. *)
Theorem commit_publishes_working m seq accepted m' gi g :
  manager_ok m → 0 ≤ accepted → commit seq accepted m = (Ok tt, m') →
  m_groups m !! gi = Some g → is_paged (g_spec g) = false →
  ∃ active working, recurrent_buffers seq gi m = Ok (active, working) ∧
    recurrent_buffers seq gi m' =
      Ok (if 0 <? accepted then (working, active) else (active, working)).
Proof.
  intros [bpg Hinv] Ha Hrun Hg Hp. pose proof (commit_cases bpg m seq accepted Hinv Ha) as H.
  rewrite Hrun in H. destruct H as (s & s' & Had & Hd & Hinv').
  pose proof (ca_seq _ _ _ _ Had) as Hs.
  destruct (cd_state _ _ _ _ _ _ Hd) as (_ & _ & _ & Hsl).
  assert (m_seqs m' !! seq = Some s') as Hs'.
  { rewrite (cd_manager _ _ _ _ _ _ Hd). apply lookup_insert_eq. }
  assert (m_groups m' !! gi = Some g) as Hg' by by rewrite (cd_manager _ _ _ _ _ _ Hd).
  destruct (recurrent_buffers_of bpg m seq s gi g Hinv Hs Hg Hp) as (x & b & Hx & _ & Hb & Hbit & Hrb).
  destruct (recurrent_buffers_of bpg m' seq s' gi g Hinv' Hs' Hg' Hp)
    as (x' & b' & Hx' & _ & Hb' & Hbit' & Hrb').
  exists (2 * x + b), (2 * x + (1 - b)). split; [done|]. rewrite Hrb'. f_equal.
  assert (x' = x) as ->.
  { unfold slots_of in *. rewrite Hsl in Hx'. congruence. }
  rewrite (cd_parity _ _ _ _ _ _ Hd gi g Hg), Hb, (proj1 (not_paged_recurrent _) Hp), andb_true_r in Hb'.
  simpl in Hb'. destruct (0 <? accepted); simpl in Hb'; injection Hb' as <-; [|done].
  destruct Hbit as [-> | ->]; simpl; f_equal; lia.
Qed.

(** ** Witnesses *)

Lemma arena_disjoint_witness :
  ∃ o o', region_at demo2 (BlockRegion 1 2) = Ok (o, 512) ∧
    region_at demo2 (BufferRegion 2 1) = Ok (o', 48) ∧ (o + 512 ≤ o' ∨ o' + 48 ≤ o).
Proof.
  destruct (arena_disjoint demo2 (BlockRegion 1 2) (BufferRegion 2 1) demo2_ok)
    as (o & len & o' & len' & H & H' & _ & _ & _ & Hd).
  - eexists. split; [vm_compute; reflexivity|]. vm_compute. split; [discriminate|reflexivity].
  - eexists. split; [vm_compute; reflexivity|]. vm_compute. split; [discriminate|reflexivity].
  - discriminate.
  - exists o, o'. vm_compute in H, H'. injection H as <- <-. injection H' as <- <-.
    split; [vm_compute; reflexivity|]. split; [vm_compute; reflexivity|exact Hd].
Defined.
