(* ===== verification/Tree.v ===== *)
(** * Speculative tree masks

    [TreeMask] of [crates/r9v-ir/src/batch.rs]: the shape and parent rules,
    the three-mark cycle walk and the two validators built from them.  The
    walk is proved to terminate, to read nothing out of range and to report
    every cycle of the parent pointers exactly once, by its least token. *)

From S2P Require Import Prelude Errors.

#[global] Open Scope Z_scope.

(** ** The data and the rules *)

Record TreeMask : Type := {
  t_parents : list Z;
  t_max : Z;
  t_ancestors : list bool
}.

(** [TreeMask::t]. *)
Definition tree_t (m : TreeMask) : nat := length (t_parents m).

(** The helpers push into the caller's vector: each returns what it pushes. *)
Definition push_tree_shape_problems (t t_max ancestors_len : Z) : list IrError :=
  (if (0 <? t) && (t_max =? 0) then [ZeroTreeMax t] else []) ++
  match checked_mul USIZE_MAX t t_max with
  | Some expected =>
      if negb (ancestors_len =? expected) then [AncestorLength t t_max expected ancestors_len]
      else []
  | None => [AncestorShapeOverflow t t_max]
  end.

Definition push_tree_parent_problems (parents : list Z) : list IrError :=
  let t := Z.of_nat (length parents) in
  concat (imap (λ token parent,
    if (parent <? -1) || (as_i32 t <=? parent) then [BadParent token parent t]
    else if parent =? as_i32 (Z.of_nat token) then [SelfParent token] else []) parents).

(** ** The cycle walk *)

(** Where the walk goes on from a token; [None] stops it. *)
Definition next_token (parents : list Z) (token : nat) : outcome IrError (option nat) :=
  let* parent := or_panic (parents !! token) in
  Ok (if (parent <? 0) || (Z.of_nat (length parents) <=? parent) || (parent =? Z.of_nat token)
      then None else Some (Z.to_nat parent)).

Definition position (p : Z → bool) (l : list Z) : option nat :=
  fst <$> list_find (λ x, p x = true) l.

Definition min_of (l : list Z) : option Z :=
  match l with
  | [] => None
  | x :: l => Some (foldl Z.min x l)
  end.

(** One walk: the marks, the staged path and what was pushed. *)
Fixpoint walk (fuel : nat) (parents : list Z) (token : nat) (state path : list Z)
    : option (outcome IrError (list Z * list Z * list IrError)) :=
  match fuel with
  | O => None
  | S fuel =>
      match state !! token with
      | None => Some Panic
      | Some mark =>
          if mark =? 2 then Some (Ok (state, path, []))
          else if mark =? 1 then
            let at_ := as_u32 (Z.of_nat token) in
            let first := default 0%nat (position (λ seen, seen =? at_) path) in
            let cycle_token := default at_ (min_of (drop first path)) in
            Some (Ok (state, path, [TreeCycle cycle_token]))
          else
            let state := <[token := 1]> state in
            let path := path ++ [as_u32 (Z.of_nat token)] in
            match next_token parents token with
            | Ok None => Some (Ok (state, path, []))
            | Ok (Some p) => walk fuel parents p state path
            | Err e => Some (Err e)
            | Panic => Some Panic
            end
      end
  end.

(** [state[token] = 2] for every token of the path. *)
Definition mark_done (path state : list Z) : outcome IrError (list Z) :=
  foldl (λ acc token, let* state := acc in vec_set (Z.to_nat token) 2 state) (Ok state) path.

(** The body of the outer loop.  A walk meets a marked token after at most one
    step per token. *)
Definition check_from (parents : list Z) (acc : list Z * list Z * list IrError) (start : nat)
    : option (outcome IrError (list Z * list Z * list IrError)) :=
  let '(state, path, problems) := acc in
  match state !! start with
  | None => Some Panic
  | Some mark =>
      if mark =? 2 then Some (Ok (state, path, problems))
      else
        fbind (walk (S (length parents)) parents start state []) (λ '(state, path, pushed),
          Some (let* state := mark_done path state in Ok (state, path, problems ++ pushed)))
  end.

Definition check_tree_cycles (parents state path : list Z)
    : option (outcome IrError (list Z * list Z * list IrError)) :=
  foldl (λ acc start, fbind acc (λ acc, check_from parents acc start))
    (Some (Ok (state, path, []))) (seqn (length parents)).

(** ** The two validators *)

(** [TreeMask::new]. *)
Definition tree_new (parents : list Z) (t_max : Z) (ancestors : list bool)
    : option (outcome IrError TreeMask) :=
  let t := Z.of_nat (length parents) in
  let shape := push_tree_shape_problems t t_max (Z.of_nat (length ancestors)) in
  let ids := push_tree_parent_problems parents in
  fbind (check_tree_cycles parents (replicate (length parents) 0) []) (λ '(_, _, cycles),
    Some (let* _ := from_problems (shape ++ ids ++ cycles) in
          Ok {| t_parents := parents; t_max := t_max; t_ancestors := ancestors |})).

(** [validate_tree_slices], with the scratch as it is left.  [path_capacity]
    is [cycle_path.capacity()]. *)
Definition validate_tree_slices (parents : list Z) (t_max : Z) (ancestors : list bool)
    (cycle_state cycle_path : list Z) (path_capacity : Z)
    : option (outcome IrError unit * (list Z * list Z)) :=
  let t := length parents in
  if (length cycle_state <? t)%nat
  then Some (Err (TreeCycleStateTooSmall (Z.of_nat t) (Z.of_nat (length cycle_state))),
             (cycle_state, cycle_path))
  else if path_capacity <? Z.of_nat t
  then Some (Err (TreeCyclePathTooSmall (Z.of_nat t) path_capacity), (cycle_state, cycle_path))
  else
    let shape := push_tree_shape_problems (Z.of_nat t) t_max (Z.of_nat (length ancestors)) in
    let ids := push_tree_parent_problems parents in
    match check_tree_cycles parents (replicate t 0) [] with
    | Some (Ok (state, path, cycles)) =>
        Some (from_problems (shape ++ ids ++ cycles), (state ++ drop t cycle_state, path))
    | Some (Err e) => Some (Err e, (cycle_state, cycle_path))
    | Some Panic => Some (Panic, (cycle_state, cycle_path))
    | None => None
    end.

(** ** Parent chains *)

Section chains.
Context (parents : list Z).
Let n := length parents.

(** One step of a chain: the parent pointers the walk follows. *)
Definition step (i j : nat) : Prop :=
  parents !! i = Some (Z.of_nat j) ∧ (j < n)%nat ∧ j ≠ i.

Lemma step_deterministic i j k : step i j → step i k → j = k.
Proof. intros (Hj & _) (Hk & _). simplify_eq. lia. Qed.

Lemma next_token_spec i :
  (i < n)%nat →
  ∃ o, next_token parents i = Ok o ∧ ∀ j, o = Some j ↔ step i j.
Proof.
  intros Hi. destruct (lookup_lt_is_Some_2 parents i Hi) as [p Hp].
  unfold next_token. rewrite Hp. cbn [or_panic obind]. eexists. split; [done|].
  intros j. unfold step. rewrite Hp. fold n.
  destruct (Z.ltb_spec p 0); simpl; [split; [done|intros ([= ?] & _); lia]|].
  destruct (Z.leb_spec (Z.of_nat n) p); simpl; [split; [done|intros ([= ?] & ? & _); lia]|].
  destruct (Z.eqb_spec p (Z.of_nat i)); [split; [done|intros ([= ?] & _ & ?); lia]|].
  split; [intros [= <-]; split_and!; [f_equal|..]; lia|].
  intros ([= ->] & _ & _). by rewrite Nat2Z.id.
Qed.

(** A cycle is a token that reaches itself; its head is its least token. *)
Definition cycle_head (c : nat) : Prop :=
  tc step c c ∧ ∀ j, tc step c j → (c ≤ j)%nat.

Lemma cycle_next x y : tc step x x → step x y → tc step y x.
Proof.
  intros Hx Hy. inversion Hx as [a b Hs|a b c Hs Hc]; subst.
  - by rewrite (step_deterministic _ _ _ Hy Hs) in *.
  - by rewrite (step_deterministic _ _ _ Hy Hs).
Qed.

Lemma cycle_back x y : tc step x x → tc step x y → tc step y x.
Proof.
  intros Hx Hxy. induction Hxy as [x y Hy|x z y Hz Hzy IH]; [by apply cycle_next|].
  pose proof (cycle_next x z Hx Hz) as Hzx.
  transitivity z; [|done]. apply IH. transitivity x; [done|by constructor].
Qed.

(** A path from [s] that leaves for [t]. *)
Fixpoint chain (s : nat) (path : list nat) (t : nat) : Prop :=
  match path with
  | [] => s = t
  | x :: path => x = s ∧ ∃ y, step x y ∧ chain y path t
  end.

Lemma chain_snoc s path t u : chain s path t → step t u → chain s (path ++ [t]) u.
Proof.
  revert s. induction path as [|x path IH]; simpl; intros s.
  - intros -> Hs. split; [done|]. by exists u.
  - intros (-> & y & Hy & Hc) Hs. split; [done|]. exists y. split; [done|]. by apply IH.
Qed.

Lemma chain_app s p1 p2 t : chain s (p1 ++ p2) t ↔ ∃ u, chain s p1 u ∧ chain u p2 t.
Proof.
  revert s. induction p1 as [|x p1 IH]; simpl; intros s.
  - split; [intros; by exists s|]. by intros (u & -> & ?).
  - split.
    + intros (-> & y & Hy & (u & ? & ?)%IH). exists u. split; [|done]. split; [done|]. by exists y.
    + intros (u & (-> & y & Hy & ?) & ?). split; [done|]. exists y. split; [done|].
      apply IH. by exists u.
Qed.

Lemma chain_reach s path t : chain s path t → path ≠ [] → tc step s t.
Proof.
  revert s. induction path as [|x path IH]; simpl; intros s; [done|].
  intros (-> & y & Hy & Hc) _. destruct path as [|z path].
  - simpl in Hc. subst. by constructor.
  - eapply tc_l; [done|]. by apply IH.
Qed.

Lemma chain_elem s path t x : chain s path t → x ∈ path → tc step x t.
Proof.
  intros Hc (p1 & p2 & ->)%list_elem_of_split.
  apply chain_app in Hc as (u & _ & Hc). pose proof Hc as (-> & _).
  by apply (chain_reach _ (u :: p2)).
Qed.

(** A chain that comes back to its start is a whole cycle. *)
Lemma chain_closed x C y z : chain x C x → y ∈ C → step y z → z ∈ C.
Proof.
  intros Hc (p1 & p2 & ->)%list_elem_of_split Hs.
  apply chain_app in Hc as (u & Hc1 & -> & v & Hv & Hc2).
  rewrite (step_deterministic _ _ _ Hs Hv). destruct p2 as [|w p2].
  - simpl in Hc2. subst v. destruct p1 as [|w p1]; [simpl in Hc1; subst; set_solver|].
    simpl in Hc1. destruct Hc1 as [-> _]. set_solver.
  - destruct Hc2 as [-> _]. set_solver.
Qed.

Lemma chain_cycle x C c y : chain x C x → c ∈ C → tc step c y ↔ y ∈ C.
Proof.
  intros Hc Hin. split.
  - intros Ht. revert Hin. induction Ht as [c y Hs|c d y Hs Ht IH]; intros Hin.
    + by eapply chain_closed.
    + apply IH. by eapply chain_closed.
  - intros Hy. pose proof (chain_elem x C x c Hc Hin) as Hcx.
    apply list_elem_of_split in Hy as (p1 & p2 & ->).
    apply chain_app in Hc as (u & Hc1 & Hc2). pose proof Hc2 as (-> & _).
    destruct p1 as [|w p1]; [simpl in Hc1; by subst|].
    etrans; [exact Hcx|]. by apply (chain_reach _ (w :: p1)).
Qed.
(** Where the tokens of a chain point. *)
Lemma chain_step s path t i j : chain s path t → i ∈ path → step i j → j ∈ path ∨ j = t.
Proof.
  intros Hc (p1 & p2 & ->)%list_elem_of_split Hs.
  apply chain_app in Hc as (u & _ & -> & v & Hv & Hc2).
  rewrite (step_deterministic _ _ _ Hs Hv). destruct p2 as [|w p2]; [by right|].
  destruct Hc2 as [-> _]. left. set_solver.
Qed.

(** ** The marks *)

Hypothesis small : Z.of_nat n ≤ U32_MAX.

Definition zpath (path : list nat) : list Z := map Z.of_nat path.

Lemma zpath_snoc path t : zpath path ++ [Z.of_nat t] = zpath (path ++ [t]).
Proof. unfold zpath. by rewrite map_app. Qed.

(** Between two walks every token is unvisited or done, and the done ones are
    closed under the parent pointers. *)
Definition settled (st : list Z) : Prop :=
  length st = n ∧ (∀ i x, st !! i = Some x → x = 0 ∨ x = 2) ∧
  (∀ i j, st !! i = Some 2 → step i j → st !! j = Some 2).

(** During a walk the path is marked on top. *)
Definition marked (mark : Z) (st0 : list Z) (path : list nat) (st : list Z) : Prop :=
  ∀ i, st !! i = if decide (i ∈ path) then Some mark else st0 !! i.

Definition fresh_path (st0 : list Z) (path : list nat) : Prop :=
  NoDup path ∧ ∀ i, i ∈ path → st0 !! i = Some 0.

Lemma fresh_path_length st0 path : settled st0 → fresh_path st0 path → (length path ≤ n)%nat.
Proof.
  intros (Hl & _) (Hnd & H0). rewrite <- (length_seq n 0).
  apply submseteq_length, NoDup_submseteq; [done|]. intros i Hi%H0%lookup_lt_Some.
  apply elem_of_seq. lia.
Qed.

Lemma marked_snoc st0 path st t :
  marked 1 st0 path st → (t < length st)%nat → marked 1 st0 (path ++ [t]) (<[t := 1]> st).
Proof.
  intros Hm Ht i. destruct (decide (i = t)) as [->|Hne].
  - rewrite list_lookup_insert_eq by done. by rewrite decide_True by set_solver.
  - rewrite list_lookup_insert_ne by done. rewrite Hm. apply decide_ext. set_solver.
Qed.

Lemma settled_reach st i j : settled st → st !! i = Some 2 → tc step i j → st !! j = Some 2.
Proof. intros (_ & _ & Hc) Hi Ht. induction Ht as [i j Hs|i k j Hs _ IH]; eauto. Qed.

(** What a walk leaves. *)
Record walked (st0 : list Z) (path : list nat) (st : list Z) (heads : list nat) : Prop := {
  wk_marked : marked 1 st0 path st;
  wk_fresh : fresh_path st0 path;
  wk_closed i j : i ∈ path → step i j → j ∈ path ∨ st0 !! j = Some 2;
  wk_heads c : c ∈ heads ↔ c ∈ path ∧ cycle_head c;
  wk_NoDup : NoDup heads
}.

Lemma min_of_nats x l :
  ∃ c, min_of (zpath (x :: l)) = Some (Z.of_nat c) ∧ c ∈ x :: l ∧ ∀ y, y ∈ x :: l → (c ≤ y)%nat.
Proof.
  unfold zpath. simpl. revert x. induction l as [|y l IH]; intros x; simpl.
  - exists x. split_and!; [done|by left|]. intros y Hy. set_solver by lia.
  - rewrite <- Nat2Z.inj_min. destruct (IH (x `min` y)%nat) as (c & Hc & Hin & Hmin).
    exists c. split; [done|]. split.
    + apply elem_of_cons in Hin as [->|Hin]; [|set_solver].
      destruct (Nat.min_spec x y) as [[_ ->]|[_ ->]]; set_solver.
    + pose proof (Hmin (x `min` y)%nat ltac:(by left)).
      intros z [->|[->|Hz]%elem_of_cons]%elem_of_cons; [lia|lia|]. apply Hmin. by right.
Qed.

Lemma position_app p1 t p2 :
  t ∉ p1 → position (λ seen, seen =? Z.of_nat t) (zpath (p1 ++ t :: p2)) = Some (length p1).
Proof.
  intros Hni. unfold position, zpath. rewrite map_app. simpl.
  rewrite list_find_app_r.
  - rewrite length_map. simpl. rewrite decide_True by (by apply Z.eqb_eq). done.
  - apply list_find_None, Forall_forall. intros z Hz Hzt.
    apply list_elem_of_In, in_map_iff in Hz as (y & <- & Hy%list_elem_of_In).
    apply Z.eqb_eq in Hzt. assert (y = t) as -> by lia. done.
Qed.
(** The three ways a walk ends. *)
Lemma walk_meets_done st0 path st start token :
  settled st0 → marked 1 st0 path st → fresh_path st0 path → chain start path token →
  st !! token = Some 2 → walked st0 path st [].
Proof.
  intros Hset Hm Hf Hc Ht. pose proof Hf as [_ H0].
  assert (st0 !! token = Some 2) as Ht0 by (rewrite Hm in Ht; by case_decide).
  split; [done|done| | |constructor].
  - intros i j Hi Hs. destruct (chain_step _ _ _ _ _ Hc Hi Hs) as [?| ->]; [by left|by right].
  - intros c. split; [by intros ?%elem_of_nil|]. intros [Hin [Hcyc _]]. exfalso.
    pose proof (cycle_back c token Hcyc (chain_elem _ _ _ _ Hc Hin)) as Hback.
    pose proof (settled_reach _ _ _ Hset Ht0 Hback). specialize (H0 c Hin). congruence.
Qed.

Lemma walk_meets_itself st0 p1 token p2 st start c :
  marked 1 st0 (p1 ++ token :: p2) st → fresh_path st0 (p1 ++ token :: p2) →
  chain start (p1 ++ token :: p2) token →
  c ∈ token :: p2 → (∀ y, y ∈ token :: p2 → (c ≤ y)%nat) →
  walked st0 (p1 ++ token :: p2) st [c].
Proof.
  intros Hm Hf Hc Hcin Hmin.
  assert (chain token (token :: p2) token) as Hcyc.
  { apply chain_app in Hc as (u & _ & Hc). pose proof Hc as (-> & _). done. }
  split; [done|done| | |by apply NoDup_singleton].
  - intros i j Hi Hs. left. destruct (chain_step _ _ _ _ _ Hc Hi Hs) as [?| ->]; set_solver.
  - intros c'. rewrite list_elem_of_singleton. split.
    + intros ->. split; [set_solver|]. split; [by apply (chain_cycle _ _ _ _ Hcyc)|].
      intros j Hj. apply Hmin. by apply (chain_cycle _ _ _ _ Hcyc Hcin).
    + intros [Hin [Hself Hhead]].
      pose proof (cycle_back c' token Hself (chain_elem _ _ _ _ Hc Hin)) as Hback.
      assert (c' ∈ token :: p2) as Hin' by (apply (chain_cycle _ _ _ _ Hcyc ltac:(left)); done).
      specialize (Hmin c' Hin'). specialize (Hhead c). apply Nat.le_antisymm; [|done].
      apply Hhead. by apply (chain_cycle _ _ _ _ Hcyc Hin').
Qed.

Lemma walk_stops st0 path st start token :
  marked 1 st0 (path ++ [token]) st → fresh_path st0 (path ++ [token]) →
  chain start path token → (∀ j, ¬ step token j) → walked st0 (path ++ [token]) st [].
Proof.
  intros Hm Hf Hc Hstop. split; [done|done| | |constructor].
  - intros i j Hi Hs. left. apply elem_of_app in Hi as [Hi|Hi].
    + destruct (chain_step _ _ _ _ _ Hc Hi Hs) as [?| ->]; set_solver.
    + apply list_elem_of_singleton in Hi as ->. by destruct (Hstop j).
  - intros c. split; [by intros ?%elem_of_nil|]. intros [Hin [Hcyc _]]. exfalso.
    assert (tc step token c ∨ token = c) as Hback.
    { apply elem_of_app in Hin as [Hin|Hin].
      - left. apply cycle_back; [done|]. by eapply chain_elem.
      - right. by apply list_elem_of_singleton in Hin. }
    assert (tc step token c) as Hstep by (destruct Hback as [?| ->]; done).
    inversion Hstep; subst; by eapply Hstop.
Qed.

Lemma walk_spec fuel : ∀ st0 path st start token,
  settled st0 → marked 1 st0 path st → length st = n → fresh_path st0 path →
  chain start path token → (token < n)%nat → (n < fuel + length path)%nat →
  st0 !! start = Some 0 →
  ∃ st' path' heads,
    walk fuel parents token st (zpath path) =
      Some (Ok (st', zpath path', map (λ c, TreeCycle (Z.of_nat c)) heads)) ∧
    walked st0 path' st' heads ∧ length st' = n ∧ start ∈ path'.
Proof.
  induction fuel as [|fuel IH]; intros st0 path st start token Hset Hm Hl Hf Hc Ht Hfuel Hst.
  { pose proof (fresh_path_length _ _ Hset Hf). simpl in Hfuel. lia. }
  assert (as_u32 (Z.of_nat token) = Z.of_nat token) as Hu by (apply as_u32_small; lia).
  pose proof Hset as (Hl0 & H02 & _).
  assert (path ≠ [] → start ∈ path) as Hstart.
  { destruct path as [|x path']; [done|]. intros _. destruct Hc as [-> _]. by left. }
  simpl. destruct (lookup_lt_is_Some_2 st token) as [mark Hmark]; [lia|]. rewrite Hmark.
  pose proof (Hm token) as Hmt. rewrite Hmark in Hmt.
  destruct (decide (token ∈ path)) as [Hin|Hni].
  - injection Hmt as ->. simpl. rewrite Hu.
    destruct (list_elem_of_split_l path token Hin) as (p1 & p2 & -> & Hp1).
    destruct (min_of_nats token p2) as (c & Hmin & Hcin & Hcmin).
    assert (drop (length p1) (zpath (p1 ++ token :: p2)) = zpath (token :: p2)) as Hdrop.
    { unfold zpath. rewrite map_app. apply drop_app_length'. by rewrite length_map. }
    rewrite position_app by done. unfold from_option, id. rewrite Hdrop, Hmin. unfold from_option, id.
    exists st, (p1 ++ token :: p2), [c]. split; [done|]. split; [|split; [done|]].
    + by eapply walk_meets_itself.
    + apply Hstart. by destruct p1.
  - destruct (H02 token mark ltac:(done)) as [-> | ->]; simpl.
    + destruct (next_token_spec token Ht) as (o & -> & Ho). rewrite Hu.
      rewrite zpath_snoc.
      assert (Hm' : marked 1 st0 (path ++ [token]) (<[token := 1]> st))
        by (apply marked_snoc; [done|lia]).
      assert (Hf' : fresh_path st0 (path ++ [token])).
      { destruct Hf as [Hnd H0]. split; [apply NoDup_app; split_and!; [done|set_solver|apply NoDup_singleton]|].
        intros i [Hi|Hi%list_elem_of_singleton]%elem_of_app; [by apply H0|by subst]. }
      destruct o as [p|].
      * assert (step token p) as Hs by by apply Ho.
        destruct (IH st0 (path ++ [token]) (<[token := 1]> st) start p) as (st' & path' & heads & H);
          try done; [by rewrite length_insert|by eapply chain_snoc|apply Hs|rewrite length_app; simpl; lia|].
        by exists st', path', heads.
      * exists (<[token := 1]> st), (path ++ [token]), []. split; [done|].
        split; [|split; [by rewrite length_insert|]].
        -- eapply walk_stops; [done..|]. intros j Hj%Ho. done.
        -- destruct path; [simpl in Hc; subst; set_solver|]. apply elem_of_app. left. by apply Hstart.
    + exists st, path, []. split; [done|]. split; [|split; [done|]].
      * by eapply walk_meets_done.
      * apply Hstart. intros ->. simpl in Hc. subst. congruence.
Qed.
(** ** The whole check *)

Lemma mark_done_spec path st :
  (∀ i, i ∈ path → (i < length st)%nat) →
  ∃ st', mark_done (zpath path) st = Ok st' ∧ length st' = length st ∧
    ∀ i, st' !! i = if decide (i ∈ path) then Some 2 else st !! i.
Proof.
  unfold mark_done. induction path as [|t path IH] using rev_ind; intros Hin.
  { exists st. split_and!; [done|done|]. intros i. by rewrite decide_False by apply not_elem_of_nil. }
  destruct IH as (st' & Hrun & Hl & Hlk); [intros i Hi; apply Hin; set_solver|].
  rewrite <- zpath_snoc, foldl_app, Hrun. simpl. unfold vec_set. rewrite Nat2Z.id.
  destruct (Nat.ltb_spec t (length st')) as [Ht|Ht].
  2:{ specialize (Hin t ltac:(set_solver)). lia. }
  eexists. split; [done|]. split; [by rewrite length_insert|].
  intros i. destruct (decide (i = t)) as [->|Hne].
  - rewrite list_lookup_insert_eq by done. by rewrite decide_True by set_solver.
  - rewrite list_lookup_insert_ne by done. rewrite Hlk. apply decide_ext. set_solver.
Qed.

Definition reported (heads : list nat) : list IrError :=
  map (λ c, TreeCycle (Z.of_nat c)) heads.

(** Between two walks exactly the cycles met so far have been reported. *)
Definition checked_inv (st : list Z) (heads : list nat) : Prop :=
  settled st ∧ NoDup heads ∧ ∀ c, c ∈ heads ↔ cycle_head c ∧ st !! c = Some 2.

Lemma walked_settles st path st1 heads st' :
  settled st → walked st path st1 heads → length st' = n →
  (∀ i, st' !! i = if decide (i ∈ path) then Some 2 else st1 !! i) →
  settled st' ∧ (∀ i, st' !! i = if decide (i ∈ path) then Some 2 else st !! i).
Proof.
  intros (Hl & H02 & Hcl) Hw Hl' Hlk.
  assert (∀ i, st' !! i = if decide (i ∈ path) then Some 2 else st !! i) as Hst'.
  { intros i. rewrite Hlk. case_decide; [done|]. rewrite (wk_marked _ _ _ _ Hw).
    by rewrite decide_False. }
  split; [|done]. split_and!; [done| |].
  - intros i x. rewrite Hst'. case_decide; [intros [= <-]; by right|apply H02].
  - intros i j Hi Hs. rewrite Hst' in Hi |- *. destruct (decide (j ∈ path)) as [Hj|Hj]; [done|].
    destruct (decide (i ∈ path)) as [Hip|Hip]; [|by eapply Hcl].
    by destruct (wk_closed _ _ _ _ Hw i j Hip Hs).
Qed.

Lemma check_from_spec st path heads start :
  checked_inv st heads → (start < n)%nat →
  ∃ st' path' heads',
    check_from parents (st, path, reported heads) start = Some (Ok (st', path', reported heads')) ∧
    checked_inv st' heads' ∧ st' !! start = Some 2 ∧ (∀ i, st !! i = Some 2 → st' !! i = Some 2) ∧
    (length path' ≤ length path `max` n)%nat.
Proof.
  intros (Hset & Hnd & Hheads) Hlt. pose proof Hset as (Hl & H02 & _). unfold check_from.
  destruct (lookup_lt_is_Some_2 st start) as [mark Hmark]; [lia|]. rewrite Hmark.
  destruct (Z.eqb_spec mark 2) as [->|Hm2].
  { exists st, path, heads. split_and!; try done; lia. }
  assert (mark = 0) as -> by (destruct (H02 _ _ Hmark); done).
  destruct (walk_spec (S (length parents)) st [] st start start) as (st1 & path1 & new & Hrun & Hw & Hl1 & Hin);
    try done; [split; [constructor|by intros i ?%elem_of_nil]|unfold n; simpl; lia|].
  change (zpath []) with (@nil Z) in Hrun. rewrite Hrun. cbn [fbind].
  pose proof (wk_fresh _ _ _ _ Hw) as [Hpnd Hp0].
  destruct (mark_done_spec path1 st1) as (st' & Hmd & Hl' & Hlk).
  { intros i Hi%Hp0%lookup_lt_Some. lia. }
  destruct (walked_settles st path1 st1 new st' Hset Hw ltac:(congruence) Hlk) as [Hset' Hst'].
  rewrite Hmd. cbn [obind]. exists st', (zpath path1), (heads ++ new). split_and!.
  - unfold reported. by rewrite map_app.
  - split; [done|]. split.
    + apply NoDup_app. split_and!; [done| |by apply (wk_NoDup _ _ _ _ Hw)].
      intros c Hc [Hin' _]%(wk_heads _ _ _ _ Hw). apply Hheads in Hc as [_ Hc].
      specialize (Hp0 c Hin'). congruence.
    + intros c. rewrite elem_of_app, Hheads, (wk_heads _ _ _ _ Hw), Hst'.
      destruct (decide (c ∈ path1)) as [Hc|Hc]; [|tauto].
      pose proof (Hp0 c Hc) as H0. rewrite H0. naive_solver.
  - by rewrite Hst', decide_True.
  - intros i Hi. rewrite Hst'. by case_decide.
  - unfold zpath. rewrite length_map. pose proof (fresh_path_length st path1 Hset (conj Hpnd Hp0)). lia.
Qed.

Lemma check_prefix path k :
  (k ≤ n)%nat →
  ∃ st' path' heads,
    foldl (λ acc start, fbind acc (λ acc, check_from parents acc start))
      (Some (Ok (replicate n 0, path, []))) (seqn k) = Some (Ok (st', path', reported heads)) ∧
    checked_inv st' heads ∧ (∀ i, (i < k)%nat → st' !! i = Some 2) ∧
    (length path' ≤ length path `max` n)%nat.
Proof.
  induction k as [|k IH]; intros Hk.
  - exists (replicate n 0), path, []. split; [done|]. split; [|split; lia].
    assert (∀ i x, replicate n 0 !! i = Some x → x = 0) as H0.
    { intros i x Hx. by apply lookup_replicate in Hx as [-> _]. }
    split; [|split; [constructor|]].
    + split_and!; [apply length_replicate|intros i x Hx%H0; by left|].
      intros i j Hi%H0. done.
    + intros c. split; [by intros ?%elem_of_nil|]. by intros [_ Hc%H0].
  - destruct IH as (st & path1 & heads & Hrun & Hinv & Hdone & Hlen); [lia|].
    rewrite seqn_S, foldl_app, Hrun. cbn [foldl fbind].
    destruct (check_from_spec st path1 heads k Hinv ltac:(lia))
      as (st' & path' & heads' & Hrun' & Hinv' & Hk2 & Hkeep & Hlen').
    exists st', path', heads'. split; [done|]. split; [done|]. split; [|lia].
    intros i Hi. destruct (decide (i = k)) as [->|Hne]; [done|]. apply Hkeep, Hdone. lia.
Qed.

(** The check ends, reads and writes in range, marks every token done and
    reports the head of every cycle once. *)
Lemma check_tree_cycles_spec path :
  ∃ path' heads,
    check_tree_cycles parents (replicate n 0) path =
      Some (Ok (replicate n 2, path', reported heads)) ∧
    NoDup heads ∧ (∀ c, c ∈ heads ↔ cycle_head c) ∧ (length path' ≤ length path `max` n)%nat.
Proof.
  unfold check_tree_cycles. fold n.
  destruct (check_prefix path n ltac:(lia)) as (st & path' & heads & Hrun & (Hset & Hnd & Hh) & Hdone & Hlen).
  assert (st = replicate n 2) as ->.
  { destruct Hset as (Hl & _). apply list_eq_same_length with n; [by rewrite length_replicate|done|].
    intros i x y Hi Hx Hy. rewrite (Hdone i Hi) in Hx. apply lookup_replicate in Hy as [-> _]. congruence. }
  exists path', heads. split; [done|]. split; [done|]. split; [|done]. intros c. rewrite Hh. split; [tauto|].
  intros Hc. split; [done|]. apply lookup_replicate_2.
  destruct Hc as [Hc _]. inversion Hc as [a b [Hs _]|a b d [Hs _] _]; subst; by eapply lookup_lt_Some.
Qed.
End chains.

(** ** Well-formed trees *)

(** What the three rules ask for together. *)
Record tree_ok (parents : list Z) (t_max : Z) (ancestors : list bool) : Prop := {
  tk_columns : (0 < length parents)%nat → t_max ≠ 0;
  tk_mask : Z.of_nat (length ancestors) = Z.of_nat (length parents) * t_max ∧
    Z.of_nat (length parents) * t_max ≤ USIZE_MAX;
  tk_parents i p : parents !! i = Some p → -1 ≤ p < Z.of_nat (length parents) ∧ p ≠ Z.of_nat i;
  tk_acyclic c : ¬ tc (step parents) c c
}.

(** Following the parents ends at a root. *)
Inductive rooted (parents : list Z) : nat → Prop :=
| rooted_root i : parents !! i = Some (-1) → rooted parents i
| rooted_parent i j : step parents i j → rooted parents j → rooted parents i.

Lemma acyclic_chain_NoDup parents s path t :
  (∀ c, ¬ tc (step parents) c c) → chain parents s path t → NoDup path ∧ t ∉ path.
Proof.
  intros Ha. revert s. induction path as [|x path IH]; intros s Hc.
  { split; [constructor|apply not_elem_of_nil]. }
  assert (t ∉ x :: path) as Ht.
  { intros Hin. apply (Ha t). by eapply chain_elem. }
  destruct Hc as (-> & y & Hy & Hc). destruct (IH y Hc) as [Hnd _].
  split; [|done]. constructor; [|done]. intros Hin.
  apply list_elem_of_split in Hin as (p1 & p2 & ->).
  apply chain_app in Hc as (u & Hc1 & (-> & _)). apply (Ha u).
  destruct p1 as [|z p1]; [simpl in Hc1; subst; by constructor|].
  eapply tc_l; [done|]. by eapply (chain_reach _ _ (z :: p1)).
Qed.

Lemma tree_ok_rooted parents t_max ancestors i :
  tree_ok parents t_max ancestors → (i < length parents)%nat → rooted parents i.
Proof.
  intros Hok Hi.
  assert (∀ fuel path token, chain parents i path token → (token < length parents)%nat →
    Forall (λ x, (x < length parents)%nat) path → (length parents < fuel + length path)%nat →
    rooted parents token) as Hgo.
  { induction fuel as [|fuel IH]; intros path token Hc Ht Hp Hf.
    - exfalso. destruct (acyclic_chain_NoDup _ _ _ _ (tk_acyclic _ _ _ Hok) Hc) as [Hnd _].
      assert (length path ≤ length (seq 0 (length parents)))%nat as Hle.
      { apply submseteq_length, NoDup_submseteq; [done|]. intros x Hx. apply elem_of_seq.
        rewrite Forall_forall in Hp. specialize (Hp x Hx). lia. }
      rewrite length_seq in Hle. simpl in Hf. lia.
    - destruct (lookup_lt_is_Some_2 parents token Ht) as [p Hp'].
      destruct (tk_parents _ _ _ Hok token p Hp') as [Hr Hne].
      destruct (decide (p = -1)) as [->|Hm1]; [by constructor|].
      assert (step parents token (Z.to_nat p)) as Hs.
      { split_and!; [rewrite Hp'; f_equal|..]; lia. }
      eapply rooted_parent; [exact Hs|].
      apply (IH (path ++ [token])); [by eapply chain_snoc|lia| |rewrite length_app; simpl; lia].
      apply Forall_app. split; [done|]. by constructor. }
  apply (Hgo (S (length parents)) [] i); [done|done|constructor|simpl; lia].
Qed.

(** ** The rules as predicates *)

Lemma shape_problems_nil t t_max alen :
  0 ≤ t → 0 ≤ t_max →
  push_tree_shape_problems t t_max alen = [] ↔ (0 < t → t_max ≠ 0) ∧ alen = t * t_max ∧ t * t_max ≤ USIZE_MAX.
Proof.
  intros H0 H1. unfold push_tree_shape_problems.
  rewrite app_nil. unfold checked_mul.
  destruct (Z.ltb_spec 0 t), (Z.eqb_spec t_max 0); simpl;
    destruct (Z.leb_spec (t * t_max) USIZE_MAX); simpl;
    destruct (Z.eqb_spec alen (t * t_max)); simpl; naive_solver lia.
Qed.

Lemma concat_imap_nil {A B} (f : nat → A → list B) l :
  concat (imap f l) = [] ↔ ∀ i x, l !! i = Some x → f i x = [].
Proof.
  revert f. induction l as [|x l IH]; intros f; simpl.
  { split; [done|]. done. }
  rewrite app_nil, IH. split.
  - intros [H0 Hs] [|i] y Hy; simplify_eq/=; [done|]. by apply Hs.
  - intros H. split; [by apply (H 0%nat)|]. intros i y Hy. by apply (H (S i)).
Qed.

Lemma parent_problems_nil parents :
  Z.of_nat (length parents) < 2 ^ 31 →
  push_tree_parent_problems parents = [] ↔
  ∀ i p, parents !! i = Some p → -1 ≤ p < Z.of_nat (length parents) ∧ p ≠ Z.of_nat i.
Proof.
  intros Hs. unfold push_tree_parent_problems. rewrite concat_imap_nil.
  rewrite as_i32_small by lia.
  apply forall_proper; intros i. apply forall_proper; intros p.
  split; intros H Hp; specialize (H Hp); apply lookup_lt_Some in Hp.
  - rewrite as_i32_small in H by lia.
    destruct (Z.ltb_spec p (-1)), (Z.leb_spec (Z.of_nat (length parents)) p); try done.
    simpl in H. destruct (Z.eqb_spec p (Z.of_nat i)); [done|]. lia.
  - rewrite as_i32_small by lia.
    destruct (Z.ltb_spec p (-1)), (Z.leb_spec (Z.of_nat (length parents)) p); try lia.
    simpl. destruct (Z.eqb_spec p (Z.of_nat i)); [lia|done].
Qed.

(** ** The properties *)

(** C38: the cycle walk ends on every parent vector, never indexes out of
    range (whatever the parents name), marks every token done, and reports
    each cycle of the parent pointers exactly once, by its least token, and
    nothing else. *)
Theorem cycle_check_exact parents path :
  Z.of_nat (length parents) ≤ U32_MAX →
  ∃ path' heads,
    check_tree_cycles parents (replicate (length parents) 0) path =
      Some (Ok (replicate (length parents) 2, path', reported heads)) ∧
    NoDup heads ∧ ∀ c, c ∈ heads ↔ cycle_head parents c.
Proof.
  intros H. destruct (check_tree_cycles_spec parents H path) as (p & heads & ? & ? & ? & _). by exists p, heads.
Qed.

(** No head means no cycle. *)
Lemma no_head_acyclic parents : (∀ c, ¬ cycle_head parents c) → ∀ c, ¬ tc (step parents) c c.
Proof.
  intros Hno c. induction c as [c IH] using lt_wf_ind. intros Hc.
  apply (Hno c). split; [done|]. intros j Hj.
  destruct (Nat.le_gt_cases c j) as [|Hlt]; [done|]. exfalso.
  apply (IH j Hlt). transitivity c; [by apply cycle_back|done].
Qed.

Lemma reported_nil heads : reported heads = [] ↔ heads = [].
Proof. unfold reported. by destruct heads. Qed.

(** The problems of a tree, and when there are none. *)
Definition tree_problems (parents : list Z) (t_max : Z) (ancestors : list bool) (heads : list nat)
    : list IrError :=
  push_tree_shape_problems (Z.of_nat (length parents)) t_max (Z.of_nat (length ancestors)) ++
  push_tree_parent_problems parents ++ reported heads.

Lemma tree_problems_nil parents t_max ancestors heads :
  Z.of_nat (length parents) < 2 ^ 31 → 0 ≤ t_max →
  (∀ c, c ∈ heads ↔ cycle_head parents c) →
  tree_problems parents t_max ancestors heads = [] ↔ tree_ok parents t_max ancestors.
Proof.
  intros Hs Ht Hh. unfold tree_problems.
  rewrite !app_nil, shape_problems_nil, parent_problems_nil, reported_nil by lia.
  split.
  - intros [[Hc Hm] [Hp ->]]. split; [intros; apply Hc; lia|done|done|].
    apply no_head_acyclic. intros c Hcy%Hh. by apply elem_of_nil in Hcy.
  - intros [Hc Hm Hp Ha]. split_and!; [intros; apply Hc; lia|apply Hm|apply Hm|done|].
    destruct heads as [|c heads]; [done|]. exfalso.
    destruct (proj1 (Hh c) ltac:(left)) as [Hcy _]. by apply (Ha c).
Qed.

Lemma from_problems_cases problems :
  match from_problems problems with
  | Ok _ => problems = []
  | Err e => problems ≠ [] ∧ (problems = [e] ∨ e = Multiple problems)
  | Panic => False
  end.
Proof. destruct problems as [|x [|y l]]; simpl; [done|split; [done|by left]|split; [done|by right]]. Qed.

(** [TreeMask::new] always answers.  It accepts exactly the masks whose
    columns, ancestor length and parent ids are in range and whose parent
    pointers are acyclic, keeps them as given, and then every token's chain of
    parents ends at a root.  A refusal reports every broken rule: the one
    problem itself, or all of them in the order of the checks. *)
Theorem tree_new_spec parents tmax ancestors :
  Z.of_nat (length parents) < 2 ^ 31 → 0 ≤ tmax →
  ∃ heads, (∀ c, c ∈ heads ↔ cycle_head parents c) ∧
  ((tree_ok parents tmax ancestors ∧
    tree_new parents tmax ancestors =
      Some (Ok {| t_parents := parents; t_max := tmax; t_ancestors := ancestors |}) ∧
    ∀ i, (i < length parents)%nat → rooted parents i) ∨
   (¬ tree_ok parents tmax ancestors ∧ ∃ e,
    tree_new parents tmax ancestors = Some (Err e) ∧
    let problems := tree_problems parents tmax ancestors heads in
    problems = [e] ∨ e = Multiple problems)).
Proof.
  intros Hs Ht.
  destruct (check_tree_cycles_spec parents ltac:(unfold U32_MAX; lia) []) as (path & heads & Hrun & _ & Hh & _).
  exists heads. split; [done|]. unfold tree_new. rewrite Hrun. cbn [fbind].
  fold (tree_problems parents tmax ancestors heads).
  pose proof (tree_problems_nil parents tmax ancestors heads Hs Ht Hh) as Hnil.
  pose proof (from_problems_cases (tree_problems parents tmax ancestors heads)) as Hp.
  destruct (from_problems _) as [[]|e|]; [| |done].
  - left. apply Hnil in Hp. split_and!; [done|done|]. intros i Hi. by eapply tree_ok_rooted.
  - right. destruct Hp as [Hne Hp]. split; [by rewrite <- Hnil|]. by exists e.
Qed.

(** On scratch sized for it the slices validator is the mask constructor, and
    leaves the scratch no longer than it was sized. *)
Lemma validate_fresh parents tmax ancestors capacity :
  Z.of_nat (length parents) < 2 ^ 31 → 0 ≤ tmax → Z.of_nat (length parents) ≤ capacity →
  ∃ verdict state path,
    validate_tree_slices parents tmax ancestors (replicate (length parents) 0) [] capacity =
      Some (verdict, (state, path)) ∧
    length state = length parents ∧ (length path ≤ length parents)%nat ∧
    match verdict with
    | Ok _ => tree_ok parents tmax ancestors ∧
        tree_new parents tmax ancestors =
          Some (Ok {| t_parents := parents; t_max := tmax; t_ancestors := ancestors |})
    | Err e => ¬ tree_ok parents tmax ancestors ∧ tree_new parents tmax ancestors = Some (Err e)
    | Panic => False
    end.
Proof.
  intros Hs Ht Hcap. unfold validate_tree_slices, tree_new. rewrite length_replicate, Nat.ltb_irrefl.
  destruct (Z.ltb_spec capacity (Z.of_nat (length parents))); [lia|].
  destruct (check_tree_cycles_spec parents ltac:(unfold U32_MAX; lia) []) as (path & heads & -> & _ & Hh & Hlen).
  cbn [fbind]. fold (tree_problems parents tmax ancestors heads).
  pose proof (tree_problems_nil parents tmax ancestors heads Hs Ht Hh) as Hnil.
  pose proof (from_problems_cases (tree_problems parents tmax ancestors heads)) as Hp.
  eexists _, _, _. split; [done|]. rewrite length_app, length_drop, !length_replicate.
  split; [lia|]. simpl in Hlen. split; [lia|].
  destruct (from_problems _) as [[]|e|]; [| |done].
  - by apply Hnil in Hp.
  - destruct Hp as [Hne _]. by rewrite <- Hnil.
Qed.

(** [validate_tree_slices] gives the same verdict and the same error as
    [TreeMask::new] whenever the scratch is large enough, whatever the scratch
    held before, and otherwise names the scratch that is too small. *)
Theorem validate_tree_slices_agrees parents tmax ancestors state path capacity :
  Z.of_nat (length parents) ≤ U32_MAX →
  match fst <$> validate_tree_slices parents tmax ancestors state path capacity with
  | None => False
  | Some verdict =>
      if (length state <? length parents)%nat
      then verdict = Err (TreeCycleStateTooSmall (Z.of_nat (length parents)) (Z.of_nat (length state)))
      else if capacity <? Z.of_nat (length parents)
      then verdict = Err (TreeCyclePathTooSmall (Z.of_nat (length parents)) capacity)
      else ∃ made, tree_new parents tmax ancestors = Some made ∧
           verdict = (let* _ := made in Ok tt)
  end.
Proof.
  intros Hs. unfold validate_tree_slices, tree_new.
  destruct (length state <? length parents)%nat; [done|].
  destruct (capacity <? Z.of_nat (length parents)); [done|].
  destruct (check_tree_cycles_spec parents Hs []) as (path' & heads & -> & _).
  simpl. eexists. split; [done|]. by destruct (from_problems _) as [[]|e|].
Qed.

(** ** Witnesses *)

Lemma cycle_check_exact_witness :
  ∃ path' heads, check_tree_cycles [1; 2; 1; 0] (replicate 4 0) [] =
    Some (Ok ([2; 2; 2; 2], path', reported heads)) ∧ 1%nat ∈ heads.
Proof.
  destruct (cycle_check_exact [1; 2; 1; 0] []) as (path' & heads & H & _ & Hh).
  - vm_compute. discriminate.
  - exists path', heads. split; [exact H|]. apply Hh. split.
    + eapply tc_l with 2%nat; [split_and!; [reflexivity|simpl; lia|lia]|].
      constructor. split_and!; [reflexivity|simpl; lia|lia].
    + intros j Hj. remember 1%nat as c eqn:Ec.
      assert (∀ a b, tc (step [1; 2; 1; 0]) a b → (1 ≤ a)%nat → (a ≤ 2)%nat → (1 ≤ b)%nat) as Hr.
      { clear. intros a b Ht. induction Ht as [a b (Hs & _)|a d b (Hs & _) Ht IH]; intros H1 H2.
        - assert (a = 1 ∨ a = 2)%nat as [->| ->] by lia; simpl in Hs; simplify_eq; lia.
        - assert (a = 1 ∨ a = 2)%nat as [->| ->] by lia; simpl in Hs; simplify_eq; apply IH; lia. }
      subst c. by apply (Hr 1%nat j Hj); lia.
Defined.

(** The reported token is the least of the cycle, not the token the walk
    started from: the walk from token 0 finds the cycle of 1 and 2. *)
Lemma cycle_token_is_not_the_start :
  tree_new [1; 2; 1] 1 [true; true; true] = Some (Err (TreeCycle 1)).
Proof. vm_compute. reflexivity. Qed.
