(* ===== verification/Batch.v ===== *)
(** * Batch metadata

    [Positions], [BatchMeta] and [BatchMetaBuilder] of
    [crates/r9v-ir/src/batch.rs].  [build] is proved to accept exactly the
    metadata whose every length matches the declared dimensions, and the
    accessors to be total and row-major on what it accepts.  The one input on
    which [build] panics instead of reporting is characterised exactly. *)

From S2P Require Import Prelude Errors Tree.

#[global] Open Scope Z_scope.

(** ** The data *)

Inductive Positions : Type :=
| PerToken (v : list Z)
| Mrope (v : list (Z * Z * Z)).

(** [Positions::len]. *)
Definition positions_len (p : Positions) : Z :=
  match p with
  | PerToken v => Z.of_nat (length v)
  | Mrope v => Z.of_nat (length v)
  end.

(** [Positions::is_empty]. *)
Definition positions_is_empty (p : Positions) : bool := positions_len p =? 0.

Record BatchMeta : Type := {
  bm_g : Z;
  bm_s : Z;
  bm_t : Z;
  bm_max_blocks : Z;
  bm_seq_ids : list Z;
  bm_query_len : list Z;
  bm_ctx_len : list Z;
  bm_positions : Positions;
  bm_slot_map : list Z;
  bm_block_table : list Z;
  bm_window_start : list Z;
  bm_tree : option TreeMask
}.

Record BatchMetaBuilder : Type := {
  b_g : Z;
  b_s : Z;
  b_t : Z;
  b_max_blocks : Z;
  b_seq_ids : option (list Z);
  b_query_len : option (list Z);
  b_ctx_len : option (list Z);
  b_positions : option Positions;
  b_slot_map : option (list Z);
  b_block_table : option (list Z);
  b_window_start : option (list Z);
  b_tree : option TreeMask
}.

(** [BatchMeta::builder]. *)
Definition builder (g s t max_blocks : Z) : BatchMetaBuilder :=
  {| b_g := g; b_s := s; b_t := t; b_max_blocks := max_blocks; b_seq_ids := None;
     b_query_len := None; b_ctx_len := None; b_positions := None; b_slot_map := None;
     b_block_table := None; b_window_start := None; b_tree := None |}.

(** ** The checks *)

(** [check_len]: what it pushes, and the value when it fits. *)
Definition check_len (field : string) (value : option (list Z)) (expected : option Z)
    : list IrError * option (list Z) :=
  match value with
  | Some v =>
      match expected with
      | Some n =>
          if Z.of_nat (length v) =? n then ([], Some v)
          else ([BatchLength field n (Z.of_nat (length v))], None)
      | None => ([], None)
      end
  | None => ([MissingField field], None)
  end.

(** [checked_product]. *)
Definition checked_product (field : string) (factors : list Z) : list IrError * option Z :=
  match foldl (λ acc factor, product ← acc; checked_mul USIZE_MAX product factor) (Some 1) factors with
  | Some product => ([], Some product)
  | None => ([BatchShapeOverflow field factors], None)
  end.

Definition check_positions (t : Z) (value : option Positions) : list IrError * option Positions :=
  match value with
  | Some p =>
      if positions_len p =? t then ([], Some p)
      else ([BatchLength "positions" t (positions_len p)], None)
  | None => ([MissingField "positions"], None)
  end.

(** The query lengths: none empty, and [T] in total. *)
Definition check_queries (t : Z) (query_len : option (list Z)) : list IrError :=
  match query_len with
  | None => []
  | Some q =>
      concat (imap (λ seq len, if len =? 0 then [EmptyQuery seq] else []) q) ++
      (let actual := Zsum q in
       if actual =? t then [] else [QueryTokenCount t actual])
  end.

(** [query_len.iter().copied().max().unwrap_or(0)] on unsigned values. *)
Definition max_query (q : list Z) : Z := foldl Z.max 0 q.

(** One token of one sequence: [tree.parents()[token]] panics past the end. *)
Definition check_token (parents : list Z) (seq seq_start seq_len token : nat)
    : outcome IrError (list IrError) :=
  let* parent := or_panic (parents !! token) in
  let seq_end := (seq_start + seq_len)%nat in
  Ok (if (0 <=? parent) && ((parent <? Z.of_nat seq_start) || (Z.of_nat seq_end <=? parent))
      then [TreeParentCrossesSequence token parent seq (Z.of_nat seq_start) (Z.of_nat seq_end)]
      else []).

(** The walk over the sequences' token ranges. *)
Fixpoint check_crossings (parents : list Z) (seq seq_start : nat) (query_len : list Z)
    : outcome IrError (list IrError) :=
  match query_len with
  | [] => Ok []
  | len :: rest =>
      let seq_len := Z.to_nat len in
      let* here := omapM (check_token parents seq seq_start seq_len) (seqn_from seq_start seq_len) in
      let* more := check_crossings parents (S seq) (seq_start + seq_len) rest in
      Ok (concat here ++ more)
  end.

Definition check_tree (t : Z) (query_len : option (list Z)) (tree : option TreeMask)
    : outcome IrError (list IrError) :=
  match tree with
  | None => Ok []
  | Some tree =>
      let tt_ := Z.of_nat (tree_t tree) in
      let mismatch := if tt_ =? t then [] else [TreeBatchMismatch tt_ t] in
      match query_len with
      | None => Ok mismatch
      | Some q =>
          let required := max_query q in
          let small := if t_max tree <? required then [TreeMaxTooSmall required (t_max tree)] else [] in
          let* crossings := if tt_ =? t then check_crossings (t_parents tree) 0 0 q else Ok [] in
          Ok (mismatch ++ small ++ crossings)
      end
  end.

(** [BatchMetaBuilder::build]. *)
Definition build (b : BatchMetaBuilder) : outcome IrError BatchMeta :=
  let zero := if (b_g b =? 0) || (b_s b =? 0) || (b_t b =? 0) || (b_max_blocks b =? 0)
              then [ZeroBatchDim (b_g b) (b_s b) (b_t b) (b_max_blocks b)] else [] in
  let '(p1, seq_ids) := check_len "seq_ids" (b_seq_ids b) (Some (b_s b)) in
  let '(p2, query_len) := check_len "query_len" (b_query_len b) (Some (b_s b)) in
  let '(p3, ctx_len) := check_len "ctx_len" (b_ctx_len b) (Some (b_s b)) in
  let '(p4, slots) := checked_product "slot_map" [b_g b; b_t b] in
  let '(p5, blocks) := checked_product "block_table" [b_g b; b_s b; b_max_blocks b] in
  let '(p6, windows) := checked_product "window_start" [b_g b; b_s b] in
  let '(p7, slot_map) := check_len "slot_map" (b_slot_map b) slots in
  let '(p8, block_table) := check_len "block_table" (b_block_table b) blocks in
  let '(p9, window_start) := check_len "window_start" (b_window_start b) windows in
  let '(p10, positions) := check_positions (b_t b) (b_positions b) in
  let p11 := check_queries (b_t b) query_len in
  let* p12 := check_tree (b_t b) query_len (b_tree b) in
  let problems := zero ++ p1 ++ p2 ++ p3 ++ p4 ++ p5 ++ p6 ++ p7 ++ p8 ++ p9 ++ p10 ++ p11 ++ p12 in
  let* _ := from_problems problems in
  let* seq_ids := or_panic seq_ids in
  let* query_len := or_panic query_len in
  let* ctx_len := or_panic ctx_len in
  let* positions := or_panic positions in
  let* slot_map := or_panic slot_map in
  let* block_table := or_panic block_table in
  let* window_start := or_panic window_start in
  Ok {| bm_g := b_g b; bm_s := b_s b; bm_t := b_t b; bm_max_blocks := b_max_blocks b;
        bm_seq_ids := seq_ids; bm_query_len := query_len; bm_ctx_len := ctx_len;
        bm_positions := positions; bm_slot_map := slot_map; bm_block_table := block_table;
        bm_window_start := window_start; bm_tree := b_tree b |}.

(** ** The accessors *)

(** [BatchMeta::slot]: the asserts and the indexing panic. *)
Definition meta_slot (group tok : Z) (m : BatchMeta) : outcome IrError Z :=
  if negb (group <? bm_g m) then Panic
  else if negb (tok <? bm_t m) then Panic
  else or_panic (bm_slot_map m !! Z.to_nat (group * bm_t m + tok)).

(** [BatchMeta::block]. *)
Definition meta_block (group seq blk : Z) (m : BatchMeta) : outcome IrError Z :=
  if negb (group <? bm_g m) then Panic
  else if negb (seq <? bm_s m) then Panic
  else if negb (blk <? bm_max_blocks m) then Panic
  else or_panic (bm_block_table m !! Z.to_nat ((group * bm_s m + seq) * bm_max_blocks m + blk)).

(** [BatchMeta::window]. *)
Definition meta_window (group seq : Z) (m : BatchMeta) : outcome IrError Z :=
  if negb (group <? bm_g m) then Panic
  else if negb (seq <? bm_s m) then Panic
  else or_panic (bm_window_start m !! Z.to_nat (group * bm_s m + seq)).

(** [TreeMask::is_ancestor]. *)
Definition is_ancestor (tok pos : Z) (m : TreeMask) : outcome IrError bool :=
  if negb (tok <? Z.of_nat (length (t_parents m))) then Panic
  else if negb (as_u32 pos <? t_max m) then Panic
  else or_panic (t_ancestors m !! Z.to_nat (tok * t_max m + pos)).

(** ** Crossings *)

(** The token range of a sequence in the flattened batch. *)
Definition seq_begin (q : list Z) (seq : nat) : Z := Zsum (take seq q).

(** No parent pointer leaves its sequence. *)
Definition stays_inside (parents q : list Z) : Prop :=
  ∀ seq len token parent, q !! seq = Some len →
    seq_begin q seq ≤ Z.of_nat token < seq_begin q seq + len → parents !! token = Some parent →
    parent < 0 ∨ seq_begin q seq ≤ parent < seq_begin q seq + len.

(** What [check_token] pushes for a token in range. *)
Definition crossing_at (parents : list Z) (seq start len token : nat) : list IrError :=
  match check_token parents seq start len token with Ok l => l | _ => [] end.

Lemma crossing_at_nil parents seq start len token :
  crossing_at parents seq start len token = [] ↔
  ∀ parent, parents !! token = Some parent →
    parent < 0 ∨ Z.of_nat start ≤ parent < Z.of_nat (start + len).
Proof.
  unfold crossing_at, check_token. destruct (parents !! token) as [p|]; [|done].
  cbn [or_panic obind].
  destruct (Z.leb_spec 0 p), (Z.ltb_spec p (Z.of_nat start)),
    (Z.leb_spec (Z.of_nat (start + len)) p); simpl; split; try done;
    try (intros H2; specialize (H2 p eq_refl); lia); intros _ p' [= <-]; lia.
Qed.

Lemma check_tokens_ok parents seq start len :
  (start + len ≤ length parents)%nat →
  omapM (check_token parents seq start len) (seqn_from start len) =
  Ok (map (crossing_at parents seq start len) (seqn_from start len)).
Proof.
  intros Hle. apply omapM_total. intros token Ht%elem_of_seq.
  destruct (lookup_lt_is_Some_2 parents token) as [p Hp]; [lia|].
  unfold crossing_at, check_token. by rewrite Hp.
Qed.

Lemma check_tokens_panic parents seq start len :
  (start ≤ length parents < start + len)%nat →
  omapM (check_token parents seq start len) (seqn_from start len) = Panic.
Proof.
  intros Hlt. pose proof (omapM_result (check_token parents seq start len) (seqn_from start len)) as H.
  destruct (omapM _ _) as [here|e|]; [| |done].
  - exfalso. assert (length parents ∈ seqn_from start len) as Hin by (apply elem_of_seq; lia).
    apply list_elem_of_lookup in Hin as [i Hi].
    destruct (Forall2_lookup_l _ _ _ _ _ H Hi) as (l & _ & Hr).
    unfold check_token in Hr. by rewrite lookup_ge_None_2 in Hr by lia.
  - exfalso. destruct H as (token & _ & He). unfold check_token in He. by destruct (parents !! token).
Qed.

Lemma seq_begin_cons len q seq : seq_begin (len :: q) (S seq) = len + seq_begin q seq.
Proof. done. Qed.

Lemma check_crossings_spec parents q : ∀ seq start,
  Forall (λ x, 0 ≤ x) q → (start ≤ length parents)%nat →
  if decide (Z.of_nat start + Zsum q ≤ Z.of_nat (length parents))
  then ∃ l, check_crossings parents seq start q = Ok l ∧
    (l = [] ↔ ∀ i len token parent, q !! i = Some len →
       Z.of_nat start + seq_begin q i ≤ Z.of_nat token < Z.of_nat start + seq_begin q i + len →
       parents !! token = Some parent →
       parent < 0 ∨ Z.of_nat start + seq_begin q i ≤ parent < Z.of_nat start + seq_begin q i + len)
  else check_crossings parents seq start q = Panic.
Proof.
  induction q as [|len q IH]; intros seq start Hq Hs.
  { rewrite decide_True by (unfold Zsum; simpl; lia). exists []. by split. }
  apply Forall_cons in Hq as [Hlen Hq]. pose proof (Zsum_pos q Hq) as Hpos.
  assert (Zsum (len :: q) = len + Zsum q) as -> by done. simpl.
  destruct (decide (start + Z.to_nat len ≤ length parents)%nat) as [Hfit|Hover].
  - rewrite check_tokens_ok by done. cbn [obind].
    specialize (IH (S seq) (start + Z.to_nat len)%nat Hq Hfit).
    destruct (decide (Z.of_nat (start + Z.to_nat len) + _ ≤ _)) as [Hd|Hd].
    + rewrite decide_True by lia. destruct IH as (l & -> & Hl). cbn [obind].
      eexists. split; [done|]. rewrite app_nil, concat_map_nil, Hl. split.
      * intros [H0 Hmore] [|i] len' token parent Hi Ht Hp.
        -- injection Hi as <-. change (seq_begin (len :: q) 0) with 0 in *.
           specialize (H0 token). rewrite crossing_at_nil in H0.
           destruct (H0 ltac:(apply elem_of_seq; lia) parent Hp); lia.
        -- simpl in Hi. rewrite seq_begin_cons in *.
           destruct (Hmore i len' token parent Hi ltac:(lia) Hp); lia.
      * intros H. split.
        -- intros token Ht%elem_of_seq. apply crossing_at_nil. intros parent Hp.
           pose proof (H 0%nat len token parent eq_refl) as H0.
           change (seq_begin (len :: q) 0) with 0 in H0. destruct (H0 ltac:(lia) Hp); lia.
        -- intros i len' token parent Hi Ht Hp.
           pose proof (H (S i) len' token parent Hi) as H0. rewrite seq_begin_cons in H0.
           destruct (H0 ltac:(lia) Hp); lia.
    + rewrite decide_False by lia. by rewrite IH.
  - rewrite decide_False by lia. by rewrite check_tokens_panic by lia.
Qed.

(** ** What [build] accepts *)

Definition fits (value : option (list Z)) (n : Z) : Prop :=
  ∃ v, value = Some v ∧ Z.of_nat (length v) = n ∧ n ≤ USIZE_MAX.

#[global] Instance fits_dec value n : Decision (fits value n).
Proof.
  destruct value as [v|]; [|right; by intros (? & ? & _)].
  destruct (decide (Z.of_nat (length v) = n ∧ n ≤ USIZE_MAX)) as [H|H].
  - left. by exists v.
  - right. by intros (? & [= <-] & ?).
Defined.

Record tree_fits (t : Z) (q : list Z) (tree : TreeMask) : Prop := {
  tf_tokens : Z.of_nat (tree_t tree) = t;
  tf_columns : Forall (λ len, len ≤ t_max tree) q;
  tf_inside : stays_inside (t_parents tree) q
}.

Record builder_ok (b : BatchMetaBuilder) : Prop := {
  bo_dims : b_g b ≠ 0 ∧ b_s b ≠ 0 ∧ b_t b ≠ 0 ∧ b_max_blocks b ≠ 0;
  bo_seq_ids : fits (b_seq_ids b) (b_s b);
  bo_query_len : fits (b_query_len b) (b_s b);
  bo_ctx_len : fits (b_ctx_len b) (b_s b);
  bo_slot_map : fits (b_slot_map b) (b_g b * b_t b);
  bo_block_table : fits (b_block_table b) (b_g b * b_s b * b_max_blocks b);
  bo_window_start : fits (b_window_start b) (b_g b * b_s b);
  bo_positions : ∃ p, b_positions b = Some p ∧ positions_len p = b_t b;
  bo_queries q : b_query_len b = Some q → Forall (λ len, len ≠ 0) q ∧ Zsum q = b_t b;
  bo_tree q tree : b_query_len b = Some q → b_tree b = Some tree → tree_fits (b_t b) q tree
}.

(** The values are unsigned 32-bit ones. *)
Definition builder_u32 (b : BatchMetaBuilder) : Prop :=
  is_u32 (b_g b) ∧ is_u32 (b_s b) ∧ is_u32 (b_t b) ∧ is_u32 (b_max_blocks b) ∧
  (∀ q, b_query_len b = Some q → Forall is_u32 q) ∧
  (∀ tree, b_tree b = Some tree → is_u32 (t_max tree)).

(** The input [build] does not survive: a tree of the right size, and queries
    of the right number that together ask for more tokens than it has. *)
Definition overruns (b : BatchMetaBuilder) : Prop :=
  ∃ q tree, b_query_len b = Some q ∧ b_tree b = Some tree ∧
    Z.of_nat (length q) = b_s b ∧ Z.of_nat (tree_t tree) = b_t b ∧ b_t b < Zsum q.

(** A field is kept and nothing pushed when it fits; otherwise something is
    pushed. *)
Definition field_checked (value : option (list Z)) (n : Z) (pushed : list IrError)
    (kept : option (list Z)) : Prop :=
  (pushed = [] ↔ fits value n) ∧ (fits value n → kept = value ∧ is_Some value).

Lemma check_len_spec field value n :
  0 ≤ n ≤ USIZE_MAX →
  field_checked value n (check_len field value (Some n)).1 (check_len field value (Some n)).2.
Proof.
  intros Hn. unfold check_len, field_checked, fits. destruct value as [v|]; simpl.
  - destruct (Z.eqb_spec (Z.of_nat (length v)) n) as [He|He]; simpl.
    + split; [|done]. split; [intros _; exists v; split; [done|lia]|done].
    + split; [|by intros (? & [= <-] & ? & _)].
      split; [done|by intros (? & [= <-] & ? & _)].
  - split; [|by intros (? & ? & _)]. split; [done|by intros (? & ? & _)].
Qed.

Lemma check_product_spec field value factors n :
  checked_product field factors = (if n <=? USIZE_MAX then ([], Some n) else ([BatchShapeOverflow field factors], None)) →
  0 ≤ n →
  let p := checked_product field factors in let c := check_len field value p.2 in
  field_checked value n (p.1 ++ c.1) c.2.
Proof.
  intros -> Hn. cbv zeta. destruct (Z.leb_spec n USIZE_MAX); [by apply check_len_spec|].
  assert (¬ fits value n) as Hnf by (intros (? & _ & _ & ?); lia). by split.
Qed.

Lemma product_two field a b :
  is_u32 a → is_u32 b →
  checked_product field [a; b] =
  if a * b <=? USIZE_MAX then ([], Some (a * b)) else ([BatchShapeOverflow field [a; b]], None).
Proof.
  unfold is_u32, checked_product, U32_MAX. intros Ha Hb. cbn [foldl mbind option_bind].
  rewrite checked_mul_ok by (unfold USIZE_MAX, U64_MAX; lia). cbn [mbind option_bind].
  replace (1 * a) with a by lia. unfold checked_mul. by destruct (a * b <=? USIZE_MAX).
Qed.

Lemma product_three field a b c :
  is_u32 a → is_u32 b → is_u32 c →
  checked_product field [a; b; c] =
  if a * b * c <=? USIZE_MAX then ([], Some (a * b * c))
  else ([BatchShapeOverflow field [a; b; c]], None).
Proof.
  unfold is_u32, checked_product, U32_MAX. intros Ha Hb Hc. cbn [foldl mbind option_bind].
  rewrite checked_mul_ok by (unfold USIZE_MAX, U64_MAX; lia). cbn [mbind option_bind].
  replace (1 * a) with a by lia.
  rewrite (checked_mul_ok _ a b) by (unfold USIZE_MAX, U64_MAX; nia). cbn [mbind option_bind].
  unfold checked_mul. by destruct (a * b * c <=? USIZE_MAX).
Qed.

Lemma check_queries_nil t q :
  check_queries t (Some q) = [] ↔ Forall (λ len, len ≠ 0) q ∧ Zsum q = t.
Proof.
  unfold check_queries. rewrite app_nil, concat_imap_nil.
  destruct (Z.eqb_spec (Zsum q) t); [|split; [by intros [_ ?]|by intros [_ ?]]].
  rewrite Forall_lookup. split; intros [H _]; (split; [|done]); intros i x Hx; specialize (H i x Hx);
    simpl in *; by destruct (Z.eqb_spec x 0).
Qed.

Lemma max_query_le q m : 0 ≤ m → max_query q ≤ m ↔ Forall (λ len, len ≤ m) q.
Proof.
  intros Hm. unfold max_query.
  assert (∀ a, foldl Z.max a q ≤ m ↔ a ≤ m ∧ Forall (λ len, len ≤ m) q) as H.
  { induction q as [|x q IH]; simpl; intros a.
    - split; [intros; split; [done|constructor]|tauto].
    - rewrite IH, Forall_cons. rewrite Z.max_lub_iff. tauto. }
  rewrite H. tauto.
Qed.

Lemma check_tree_spec t q tree :
  Forall is_u32 q → 0 ≤ t_max tree →
  if decide (Z.of_nat (tree_t tree) = t ∧ t < Zsum q)
  then check_tree t (Some q) (Some tree) = Panic
  else ∃ l, check_tree t (Some q) (Some tree) = Ok l ∧ (l = [] ↔ tree_fits t q tree).
Proof.
  intros Hq Hm. unfold check_tree.
  assert (Forall (λ x, 0 ≤ x) q) as Hq0 by (eapply Forall_impl; [done|]; by intros ? []).
  pose proof (check_crossings_spec (t_parents tree) q 0 0 Hq0 ltac:(lia)) as Hc.
  fold (tree_t tree) in Hc. rewrite Z.add_0_l in Hc.
  destruct (Z.eqb_spec (Z.of_nat (tree_t tree)) t) as [He|He].
  - destruct (decide (Zsum q ≤ Z.of_nat (tree_t tree))) as [Hd|Hd].
    + rewrite decide_False by lia. destruct Hc as (l & -> & Hl). cbn [obind].
      eexists. split; [done|]. simpl. rewrite app_nil.
      assert ((if t_max tree <? max_query q then [TreeMaxTooSmall (max_query q) (t_max tree)] else [])
        = [] ↔ Forall (λ len, len ≤ t_max tree) q) as ->.
      { rewrite <- max_query_le by done. by destruct (Z.ltb_spec (t_max tree) (max_query q)); split; try done; lia. }
      rewrite Hl. split.
      * intros [? ?]. split; [done|done|]. intros seq len token parent. apply (H0 seq).
      * intros [? ? Hin]. split; [done|]. intros i len token parent. apply (Hin i).
    + rewrite decide_True by lia. by rewrite Hc.
  - rewrite decide_False by tauto. cbn [obind]. eexists. split; [done|].
    split; [done|]. by intros [? _ _].
Qed.

Lemma check_positions_spec t value :
  let fit := ∃ p, value = Some p ∧ positions_len p = t in
  ((check_positions t value).1 = [] ↔ fit) ∧ (fit → (check_positions t value).2 = value).
Proof.
  unfold check_positions. destruct value as [p|]; simpl.
  - destruct (Z.eqb_spec (positions_len p) t); simpl.
    + split; [|done]. split; [intros _; by exists p|done].
    + split; [|by intros (? & [= <-] & ?)]. split; [done|by intros (? & [= <-] & ?)].
  - split; [|by intros (? & ? & _)]. split; [done|by intros (? & ? & _)].
Qed.

(** The metadata [build] returns. *)
Definition built_from (b : BatchMetaBuilder) (m : BatchMeta) : Prop :=
  bm_g m = b_g b ∧ bm_s m = b_s b ∧ bm_t m = b_t b ∧ bm_max_blocks m = b_max_blocks b ∧
  b_seq_ids b = Some (bm_seq_ids m) ∧ b_query_len b = Some (bm_query_len m) ∧
  b_ctx_len b = Some (bm_ctx_len m) ∧ b_positions b = Some (bm_positions m) ∧
  b_slot_map b = Some (bm_slot_map m) ∧ b_block_table b = Some (bm_block_table m) ∧
  b_window_start b = Some (bm_window_start m) ∧ b_tree b = bm_tree m.

Lemma from_problems_err {A} problems (k : unit → outcome IrError A) :
  problems ≠ [] → ∃ e, (let* u := from_problems problems in k u) = Err e.
Proof. intros Hp. destruct problems as [|x [|y l]]; [done|by eexists..]. Qed.

(** The tree rules, given the kept query lengths. *)
Lemma check_tree_kept b kept :
  builder_u32 b → (fits (b_query_len b) (b_s b) → kept = b_query_len b) →
  (¬ fits (b_query_len b) (b_s b) → kept = None) → b_s b ≤ USIZE_MAX →
  (overruns b ∧ check_tree (b_t b) kept (b_tree b) = Panic) ∨
  (¬ overruns b ∧ ∃ l, check_tree (b_t b) kept (b_tree b) = Ok l ∧
     (∀ q, kept = Some q → l = [] ↔ ∀ tree, b_tree b = Some tree → tree_fits (b_t b) q tree)).
Proof.
  intros (Hg & Hs & Ht & Hb & Hq & Htree) Hk Hn Hsz.
  destruct (b_tree b) as [tree|] eqn:Htr.
  2:{ right. split; [by intros (? & ? & _ & ? & _); congruence|]. exists []. by split. }
  destruct kept as [q|] eqn:Hkept.
  - assert (fits (b_query_len b) (b_s b)) as Hf.
    { destruct (decide (fits (b_query_len b) (b_s b))) as [|Hnf]; [done|]. by specialize (Hn Hnf). }
    specialize (Hk Hf). destruct Hf as (v & Hv & Hlen & _).
    assert (v = q) as -> by congruence.
    pose proof (check_tree_spec (b_t b) q tree (Hq q Hv) (proj1 (Htree tree eq_refl))) as H.
    case_decide as Hd.
    + left. split; [exists q, tree|done]. by destruct Hd.
    + right. split.
      * intros (q' & tr' & Hq' & Ht' & _ & ? & ?). simplify_eq. tauto.
      * destruct H as (l & Hl & Hiff). exists l. split; [done|]. intros q' [= <-].
        rewrite Hiff. split; [by intros ? tr [= <-]|auto].
  - right. split.
    + intros (q & tr & Hq' & Ht' & Hlen & _). rewrite Hq' in Hk. discriminate Hk. exists q. split; [done|lia].
    + unfold check_tree. eexists. split; [done|]. done.
Qed.

Lemma check_len_misfit field value n : ¬ fits value n → 0 ≤ n ≤ USIZE_MAX → (check_len field value (Some n)).2 = None.
Proof.
  intros Hf Hn. unfold check_len. destruct value as [v|]; [|done].
  destruct (Z.eqb_spec (Z.of_nat (length v)) n); [|done].
  destruct Hf. exists v. split; [done|lia].
Qed.

Lemma build_cases b :
  builder_u32 b →
  (overruns b ∧ build b = Panic) ∨
  (¬ overruns b ∧ builder_ok b ∧ ∃ m, build b = Ok m ∧ built_from b m) ∨
  (¬ overruns b ∧ ¬ builder_ok b ∧ ∃ e, build b = Err e).
Proof.
  intros Hu. pose proof Hu as (Hg & Hs & Ht & Hmb & _ & _).
  assert (∀ x, is_u32 x → 0 ≤ x ≤ USIZE_MAX) as H32 by (unfold is_u32, USIZE_MAX, U64_MAX, U32_MAX; lia).
  unfold build.
  pose proof (check_len_spec "seq_ids" (b_seq_ids b) (b_s b) (H32 _ Hs)) as F1.
  pose proof (check_len_spec "query_len" (b_query_len b) (b_s b) (H32 _ Hs)) as F2.
  pose proof (check_len_misfit "query_len" (b_query_len b) (b_s b)) as N2.
  pose proof (check_len_spec "ctx_len" (b_ctx_len b) (b_s b) (H32 _ Hs)) as F3.
  pose proof (check_product_spec "slot_map" (b_slot_map b) _ _ (product_two "slot_map" _ _ Hg Ht)
    ltac:(unfold is_u32 in *; nia)) as F7.
  pose proof (check_product_spec "block_table" (b_block_table b) _ _
    (product_three "block_table" _ _ _ Hg Hs Hmb) ltac:(unfold is_u32 in *; apply Z.mul_nonneg_nonneg; nia)) as F8.
  pose proof (check_product_spec "window_start" (b_window_start b) _ _ (product_two "window_start" _ _ Hg Hs)
    ltac:(unfold is_u32 in *; nia)) as F9.
  pose proof (check_positions_spec (b_t b) (b_positions b)) as F10. cbv zeta in F7, F8, F9.
  destruct (check_len "seq_ids" _ _) as [p1 r1], (check_len "query_len" _ _) as [p2 r2],
    (check_len "ctx_len" _ _) as [p3 r3], (checked_product "slot_map" _) as [p4 o4],
    (checked_product "block_table" _) as [p5 o5], (checked_product "window_start" _) as [p6 o6].
  simpl in F7, F8, F9. destruct (check_len "slot_map" _ o4) as [p7 r7],
    (check_len "block_table" _ o5) as [p8 r8], (check_len "window_start" _ o6) as [p9 r9],
    (check_positions _ _) as [p10 r10].
  simpl in F1, F2, F3, F7, F8, F9, F10, N2.
  destruct (check_tree_kept b r2 Hu (λ H, proj1 (proj2 F2 H)) (λ H, N2 H (H32 _ Hs)) (proj2 (H32 _ Hs)))
    as [[Hover ->]|(Hno & p12 & -> & Htree)]; [by left|].
  right. cbn [obind].
  set (zero := if _ || _ then _ else _). set (problems := zero ++ _).
  assert (problems = [] ↔ builder_ok b) as Hprob.
  { unfold problems. rewrite !app_nil.
    destruct F1 as [F1 K1], F2 as [F2 K2], F3 as [F3 K3], F7 as [F7 K7], F8 as [F8 K8], F9 as [F9 K9], F10 as [F10 K10].
    rewrite app_nil in F7, F8, F9.
    assert (zero = [] ↔ b_g b ≠ 0 ∧ b_s b ≠ 0 ∧ b_t b ≠ 0 ∧ b_max_blocks b ≠ 0) as Hz.
    { unfold zero. destruct (Z.eqb_spec (b_g b) 0), (Z.eqb_spec (b_s b) 0), (Z.eqb_spec (b_t b) 0),
        (Z.eqb_spec (b_max_blocks b) 0); simpl; split; try done; intros (?&?&?&?); done. }
    rewrite Hz, F1, F2, F3, F10.
    split.
    - intros (Hd & H1 & H2 & H3 & H4 & H5 & H6 & H7 & H8 & H9 & H10 & H11 & H12).
      destruct (K2 H2) as [-> [q Hq]]. rewrite Hq in *. apply check_queries_nil in H11.
      split; rewrite ?Hq; try done; [by apply F7|by apply F8|by apply F9| |].
      + by intros q' [= <-].
      + intros q' tree [= <-]. by apply (Htree q eq_refl).
    - intros [Hd H1 H2 H3 H7 H8 H9 H10 Hqs Htr].
      destruct (K2 H2) as [-> [q Hq]]. rewrite Hq in *.
      destruct (proj2 F7 H7), (proj2 F8 H8), (proj2 F9 H9). do 11 (split; [done|]).
      split; [by apply check_queries_nil, Hqs|].
      apply (Htree q eq_refl). intros tree. by apply Htr. }
  destruct (decide (problems = [])) as [Hp|Hp].
  - left. split; [done|]. pose proof (proj1 Hprob Hp) as Hbo. split; [done|]. rewrite Hp. cbn [from_problems obind].
    pose proof Hbo as [_ H1 H2 H3 H7 H8 H9 H10 _ _].
    destruct (proj2 F1 H1) as [-> [v1 E1]], (proj2 F2 H2) as [-> [v2 E2]], (proj2 F3 H3) as [-> [v3 E3]],
      (proj2 F7 H7) as [-> [v7 E7]], (proj2 F8 H8) as [-> [v8 E8]], (proj2 F9 H9) as [-> [v9 E9]].
    rewrite (proj2 F10 H10). destruct H10 as (p & E10 & _).
    rewrite E1, E2, E3, E7, E8, E9, E10. cbn [or_panic obind]. eexists. split; [done|].
    unfold built_from. simpl. by rewrite E1, E2, E3, E7, E8, E9, E10.
  - right. split; [done|]. split; [by rewrite <- Hprob|]. by apply from_problems_err.
Qed.

(** ** The properties *)

(** Outside the one overrunning input, [build] accepts exactly the
    builders whose every field is present with the length its dimensions ask
    for, whose queries are nonempty and add up to [T], and whose tree covers
    the batch without leaving a sequence; it returns the fields as given, and
    reports an error on every other builder. *)
Theorem build_spec b :
  builder_u32 b → ¬ overruns b →
  (builder_ok b → ∃ m, build b = Ok m ∧ built_from b m) ∧
  (¬ builder_ok b → ∃ e, build b = Err e).
Proof. intros Hu Hno. destruct (build_cases b Hu) as [[? _]|[(_ & ? & ?)|(_ & ? & ?)]]; tauto. Qed.

(** [build] panics on exactly one kind of input: a tree with one parent
    per token of the batch, next to query lengths of the right number that add
    up to more than [T].  The excess was already recorded as a problem, but
    the crossing check indexes the parents by it before anything is
    reported. *)
Theorem build_panics_exactly b :
  builder_u32 b → build b = Panic ↔ overruns b.
Proof.
  intros Hu. destruct (build_cases b Hu) as [[? ?]|[(? & _ & m & H & _)|(? & _ & e & H)]].
  - done.
  - rewrite H. by split.
  - rewrite H. by split.
Qed.

Lemma built_lengths b m :
  builder_u32 b → build b = Ok m →
  (0 < bm_g m ∧ 0 < bm_s m ∧ 0 < bm_t m ∧ 0 < bm_max_blocks m) ∧
  Z.of_nat (length (bm_slot_map m)) = bm_g m * bm_t m ∧
  Z.of_nat (length (bm_block_table m)) = bm_g m * bm_s m * bm_max_blocks m ∧
  Z.of_nat (length (bm_window_start m)) = bm_g m * bm_s m.
Proof.
  intros Hu Hb. destruct (build_cases b Hu) as [[_ H]|[(_ & Hok & m' & H & Hf)|(_ & _ & e & H)]];
    [congruence| |congruence].
  assert (m' = m) as -> by congruence. destruct Hu as (Hg & Hs & Ht & Hmb & _).
  destruct Hf as (-> & -> & -> & -> & _ & _ & _ & _ & Hsl & Hbl & Hwi & _).
  destruct Hok as [Hd _ _ _ (v1 & E1 & L1 & _) (v2 & E2 & L2 & _) (v3 & E3 & L3 & _) _ _ _].
  unfold is_u32 in *. split; [lia|]. split_and!; congruence.
Qed.

Lemma row_major_bound i j rows cols : 0 ≤ i < rows → 0 ≤ j < cols → 0 ≤ i * cols + j < rows * cols.
Proof. nia. Qed.

Lemma lookup_row (l : list Z) k :
  0 ≤ k < Z.of_nat (length l) → ∃ v, or_panic (E := IrError) (l !! Z.to_nat k) = Ok v.
Proof.
  intros Hk. destruct (lookup_lt_is_Some_2 l (Z.to_nat k)) as [v ->]; [lia|]. by exists v.
Qed.

(** On metadata that [build] returned, the three accessors answer every
    index inside the declared dimensions from the row-major position, and
    panic exactly outside them. *)
Theorem built_accessors b m group seq tok blk :
  builder_u32 b → build b = Ok m → 0 ≤ group → 0 ≤ seq → 0 ≤ tok → 0 ≤ blk →
  (if decide (group < bm_g m ∧ tok < bm_t m)
   then ∃ v, meta_slot group tok m = Ok v ∧
          bm_slot_map m !! Z.to_nat (group * bm_t m + tok) = Some v
   else meta_slot group tok m = Panic) ∧
  (if decide (group < bm_g m ∧ seq < bm_s m ∧ blk < bm_max_blocks m)
   then ∃ v, meta_block group seq blk m = Ok v ∧
          bm_block_table m !! Z.to_nat ((group * bm_s m + seq) * bm_max_blocks m + blk) = Some v
   else meta_block group seq blk m = Panic) ∧
  (if decide (group < bm_g m ∧ seq < bm_s m)
   then ∃ v, meta_window group seq m = Ok v ∧
          bm_window_start m !! Z.to_nat (group * bm_s m + seq) = Some v
   else meta_window group seq m = Panic).
Proof.
  intros Hu Hb Hg0 Hs0 Ht0 Hb0. destruct (built_lengths b m Hu Hb) as (_ & L1 & L2 & L3).
  unfold meta_slot, meta_block, meta_window.
  destruct (Z.ltb_spec group (bm_g m)) as [Hg|Hg]; simpl.
  2:{ rewrite !decide_False by lia. done. }
  split_and!.
  - destruct (Z.ltb_spec tok (bm_t m)) as [Ht|Ht]; simpl; [|by rewrite decide_False by lia].
    rewrite decide_True by done. pose proof (row_major_bound group tok (bm_g m) (bm_t m)).
    destruct (lookup_lt_is_Some_2 (bm_slot_map m) (Z.to_nat (group * bm_t m + tok))) as [v ->]; [lia|].
    by exists v.
  - destruct (Z.ltb_spec seq (bm_s m)) as [Hs|Hs]; simpl; [|by rewrite decide_False by lia].
    destruct (Z.ltb_spec blk (bm_max_blocks m)) as [Hk|Hk]; simpl; [|by rewrite decide_False by lia].
    rewrite decide_True by done. pose proof (row_major_bound group seq (bm_g m) (bm_s m) ltac:(lia) ltac:(lia)) as Hr.
    pose proof (row_major_bound _ blk _ (bm_max_blocks m) Hr ltac:(lia)).
    destruct (lookup_lt_is_Some_2 (bm_block_table m)
      (Z.to_nat ((group * bm_s m + seq) * bm_max_blocks m + blk))) as [v ->]; [lia|].
    by exists v.
  - destruct (Z.ltb_spec seq (bm_s m)) as [Hs|Hs]; simpl; [|by rewrite decide_False by lia].
    rewrite decide_True by done. pose proof (row_major_bound group seq (bm_g m) (bm_s m) ltac:(lia) ltac:(lia)).
    destruct (lookup_lt_is_Some_2 (bm_window_start m) (Z.to_nat (group * bm_s m + seq))) as [v ->]; [lia|].
    by exists v.
Qed.

(** ** Witnesses *)

(** Two sequences of two tokens each, one group, two drafts in a chain each. *)
Definition demo_builder (q : list Z) (tree : option TreeMask) : BatchMetaBuilder :=
  {| b_g := 1; b_s := 2; b_t := 4; b_max_blocks := 1; b_seq_ids := Some [5; 9];
     b_query_len := Some q; b_ctx_len := Some [0; 3]; b_positions := Some (PerToken [0; 1; 3; 4]);
     b_slot_map := Some [0; 1; 35; 36]; b_block_table := Some [0; 1];
     b_window_start := Some [0; 0]; b_tree := tree |}.

Definition demo_tree : TreeMask :=
  {| t_parents := [-1; 0; -1; 2]; t_max := 4; t_ancestors := replicate 16 false |}.

Lemma demo_builder_u32 : builder_u32 (demo_builder [2; 2] (Some demo_tree)).
Proof.
  unfold builder_u32, is_u32, U32_MAX. simpl. split_and!; try lia.
  - intros q [= <-]. repeat constructor; lia.
  - intros tree [= <-]. simpl. lia.
Qed.

Lemma build_spec_witness :
  ∃ m, build (demo_builder [2; 2] (Some demo_tree)) = Ok m ∧
    built_from (demo_builder [2; 2] (Some demo_tree)) m.
Proof.
  destruct (build (demo_builder [2; 2] (Some demo_tree))) as [m|e|] eqn:Hb.
  2,3: vm_compute in Hb; discriminate Hb.
  destruct (build_spec (demo_builder [2; 2] (Some demo_tree)) demo_builder_u32) as [Hyes Hno].
  { intros (q & tree & [= <-] & [= <-] & _ & _ & Hlt). vm_compute in Hlt. discriminate Hlt. }
  destruct (build_cases _ demo_builder_u32) as [[_ H]|[(_ & Hok & _)|(_ & _ & e & H)]].
  - congruence.
  - destruct (Hyes Hok) as (m' & Hm & Hf). exists m'. split; [congruence|exact Hf].
  - congruence.
Defined.

Lemma build_panics_exactly_witness :
  build (demo_builder [2; 3] (Some demo_tree)) = Panic.
Proof.
  apply build_panics_exactly.
  - unfold builder_u32, is_u32, U32_MAX. simpl. split_and!; try lia.
    + intros q [= <-]. repeat constructor; lia.
    + intros tree [= <-]. simpl. lia.
  - exists [2; 3], demo_tree. split_and!; reflexivity.
Defined.
