(* ===== verification/Workspace.v ===== *)
(** * Building batch metadata from the manager

    The batch half of [crates/r9v-state/src/manager.rs]: [plan_batch],
    [emit_batch_into], the owned builders ([batch_meta] and its variants), the
    caller-owned [BatchWorkspace] with its tree storage, and the two fill
    paths the scheduler uses. *)

From S2P Require Import Prelude Errors Spec Table Pools Manager Tree Batch.

#[global] Open Scope Z_scope.

(** ** The plan *)

Record BatchPlan : Type := { bp_total_tokens : Z; bp_total_u64 : Z }.

(** The id scan: a duplicate is a problem, an id too wide is fatal. *)
Fixpoint scan_ids (i : nat) (seqs seen : list Z) : outcome StateError (list BatchProblem) * list Z :=
  match seqs with
  | [] => (Ok [], seen)
  | seq :: seqs =>
      if U32_MAX <? seq then (Err (SeqIdOverflow seq U32_MAX), seen)
      else if decide (seq ∈ seen) then
        let '(r, seen) := scan_ids (S i) seqs seen in
        (let* ps := r in Ok (DuplicateSequence i seq :: ps), seen)
      else scan_ids (S i) seqs (seen ++ [seq])
  end.

(** One sequence of the second scan: its problems and the running total. *)
Definition scan_query (m : StateManager) (acc : list BatchProblem * Z) (iq : nat * (Z * Z))
    : list BatchProblem * Z :=
  let '(problems, total) := acc in
  let '(i, (seq, q)) := iq in
  match seq_state seq m with
  | Ok s =>
      let in_tail := if (q =? 0) || (q_tail_len s <? q) then [QueryLenNotInTail i q (q_tail_len s)] else [] in
      let in_ctx :=
        match checked_add U32_MAX (q_ctx_len s) q with
        | Some end_ => if end_ <=? max_ctx (m_config m) then []
                       else [QueryExceedsMaxCtx i (q_ctx_len s) q (max_ctx (m_config m))]
        | None => [QueryExceedsMaxCtx i (q_ctx_len s) q (max_ctx (m_config m))]
        end in
      match checked_add U64_MAX total q with
      | Some next => (problems ++ in_tail ++ in_ctx, next)
      | None => (problems ++ in_tail ++ in_ctx ++ [TokenTotalOverflows i], total)
      end
  | _ => (problems ++ [UnknownSequence i seq], total)
  end.

(** [plan_batch]; the state is the caller's id scratch. *)
Definition plan_batch (seqs query_lens : list Z) (positions_len tree_t : option Z) (m : StateManager)
    : stm (list Z) StateError BatchPlan :=
  if negb (length seqs =? length query_lens)%nat
  then sfail (InvalidBatch (SeqsQueryLensMismatch (length seqs) (length query_lens)))
  else if (length seqs =? 0)%nat then sfail (InvalidBatch EmptyBatch)
  else
    let! ids := λ _, scan_ids 0 seqs [] in
    let '(problems, total) := foldl (scan_query m) (ids, 0) (enumerate (zip seqs query_lens)) in
    let problems := problems ++
      (if MAX_BATCH_TOKENS_HARD <? total then [BatchTokensExceedCap total] else []) in
    let! total_tokens := slift (ok_or (try_from USIZE_MAX total) (Overflow "total tokens conversion")) in
    let problems := problems ++
      match positions_len with
      | Some len => if negb (len =? total_tokens) then [PositionsLenMismatch len total_tokens] else []
      | None => []
      end ++
      match tree_t with
      | Some t => if negb (t =? total_tokens) then [TreeCountMismatch t total_tokens] else []
      | None => []
      end in
    match problems with
    | [] => sret {| bp_total_tokens := total_tokens; bp_total_u64 := total |}
    | _ => sfail (InvalidBatch (BatchProblems problems))
    end.

(** ** Emission *)

(** The buffers [emit_batch_into] pushes into. *)
Record Emitted : Type := {
  e_seq_ids : list Z;
  e_ctx_lens : list Z;
  e_positions : list Z;
  e_slot_map : list Z;
  e_block_table : list Z;
  e_window_start : list Z
}.

Definition push_id (v : Z) (e : Emitted) : Emitted :=
  {| e_seq_ids := e_seq_ids e ++ [v]; e_ctx_lens := e_ctx_lens e; e_positions := e_positions e;
     e_slot_map := e_slot_map e; e_block_table := e_block_table e; e_window_start := e_window_start e |}.
Definition push_ctx (v : Z) (e : Emitted) : Emitted :=
  {| e_seq_ids := e_seq_ids e; e_ctx_lens := e_ctx_lens e ++ [v]; e_positions := e_positions e;
     e_slot_map := e_slot_map e; e_block_table := e_block_table e; e_window_start := e_window_start e |}.
Definition push_positions (v : list Z) (e : Emitted) : Emitted :=
  {| e_seq_ids := e_seq_ids e; e_ctx_lens := e_ctx_lens e; e_positions := e_positions e ++ v;
     e_slot_map := e_slot_map e; e_block_table := e_block_table e; e_window_start := e_window_start e |}.
Definition push_position (v : Z) (e : Emitted) : Emitted := push_positions [v] e.
Definition push_slots (v : list Z) (e : Emitted) : Emitted :=
  {| e_seq_ids := e_seq_ids e; e_ctx_lens := e_ctx_lens e; e_positions := e_positions e;
     e_slot_map := e_slot_map e ++ v; e_block_table := e_block_table e; e_window_start := e_window_start e |}.
Definition set_block_table (v : list Z) (e : Emitted) : Emitted :=
  {| e_seq_ids := e_seq_ids e; e_ctx_lens := e_ctx_lens e; e_positions := e_positions e;
     e_slot_map := e_slot_map e; e_block_table := v; e_window_start := e_window_start e |}.
Definition push_window (v : Z) (e : Emitted) : Emitted :=
  {| e_seq_ids := e_seq_ids e; e_ctx_lens := e_ctx_lens e; e_positions := e_positions e;
     e_slot_map := e_slot_map e; e_block_table := e_block_table e; e_window_start := e_window_start e ++ [v] |}.

Section emit.
Context (m : StateManager) (seqs query_lens : list Z) (plan : BatchPlan).

(** [self.seq(..)] inside the build. *)
Definition batch_seq (seq : Z) : StateResult SeqState :=
  omap_err (λ _, InvalidBatch SequenceVanished) (seq_state seq m).

Definition emit_id (seq : Z) : stm Emitted StateError unit :=
  let! dev_id := slift (ok_or (try_from U32_MAX seq) (SeqIdOverflow seq U32_MAX)) in
  smodify (push_id dev_id).

Definition emit_ctx (want_positions : bool) (sq : Z * Z) : stm Emitted StateError unit :=
  let '(seq, q) := sq in
  let! s := slift (batch_seq seq) in
  let! _ := smodify (push_ctx (q_ctx_len s)) in
  if want_positions then
    sfor (λ k,
      let! p := slift (ok_or (checked_add U32_MAX (q_ctx_len s) k) (Overflow "batch position")) in
      smodify (push_position p)) (zrange 0 q)
  else sret tt.

(** The slots of one sequence in a paged group. *)
Definition emit_seq_slots (gi : nat) (isq : nat * (Z * Z)) : stm Emitted StateError unit :=
  let '(si, (seq, q)) := isq in
  let! s := slift (batch_seq seq) in
  let! e := sget in
  let! ctx := slift (or_panic (e_ctx_lens e !! si)) in
  let! end_ := slift (ok_or (checked_add U32_MAX ctx q) (Overflow "batch reserved end")) in
  sfor (λ k,
    let! pos := slift (ok_or (checked_add U32_MAX ctx k) (Overflow "batch position")) in
    let! v := slift (flatten_slot s gi pos end_) in
    smodify (push_slots [v])) (zrange 0 q).

Definition emit_slots (gi : nat) (g : LayerGroup) : stm Emitted StateError unit :=
  if negb (is_paged (g_spec g))
  then smodify (push_slots (replicate (Z.to_nat (bp_total_tokens plan)) SLOT_NONE))
  else sfor (emit_seq_slots gi) (enumerate (zip seqs query_lens)).

(** One cell of a block-table row. *)
Definition emit_cell (max_b : Z) (gi si : nat) (seq : Z) (tables : list Z) (cell : nat * Z)
    : stm Emitted StateError unit :=
  let '(at_, idx) := cell in
  let! id := slift (ok_or (tables !! at_) (InvalidBatch (HasNoTable seq))) in
  let! cell := slift (ok_or (try_from USIZE_MAX idx) (Overflow "block table index")) in
  if max_b <=? cell then sfail (Overflow "block table index")
  else
    let! offset := slift (ok_or (v ← checked_mul USIZE_MAX (Z.of_nat gi) (Z.of_nat (length seqs));
                                 v ← checked_add USIZE_MAX v (Z.of_nat si);
                                 v ← checked_mul USIZE_MAX v max_b;
                                 checked_add USIZE_MAX v cell) (Overflow "block table offset")) in
    let! e := sget in
    if (length (e_block_table e) <=? Z.to_nat offset)%nat then sfail (Overflow "block table index")
    else smodify (λ e, set_block_table (<[Z.to_nat offset := id]> (e_block_table e)) e).

(** One row: the cells of a paged group, and the window start. *)
Definition emit_row (max_b : Z) (gi : nat) (g : LayerGroup) (row : nat * Z)
    : stm Emitted StateError unit :=
  let '(si, seq) := row in
  let! s := slift (batch_seq seq) in
  let! _ := (if is_paged (g_spec g) then
    let! indices := slift (ok_or (q_indices s !! gi) (InvalidBatch (HasNoTable seq))) in
    let! tables := slift (ok_or (q_tables s !! gi) (InvalidBatch (HasNoTable seq))) in
    sfor (emit_cell max_b gi si seq tables) (enumerate indices)
  else sret tt) in
  smodify (push_window (spec_window_start (g_spec g) (q_ctx_len s))).

Definition emit_group (max_b : Z) (gg : nat * LayerGroup) : stm Emitted StateError unit :=
  let '(gi, g) := gg in
  let! _ := emit_slots gi g in
  sfor (emit_row max_b gi g) (enumerate seqs).

(** [emit_batch_into]. *)
Definition emit_batch_into (want_positions : bool) : stm Emitted StateError unit :=
  let! _ := sfor emit_id seqs in
  let! _ := sfor (emit_ctx want_positions) (zip seqs query_lens) in
  sfor (emit_group (m_max_blocks m)) (enumerate (m_groups m)).
End emit.

(** ** The owned builders *)

(** The flat sizes, all checked. *)
Definition flat_sizes (m : StateManager) (s_len t_len : Z) : StateResult (Z * Z * Z) :=
  let g_len := Z.of_nat (length (m_groups m)) in
  let* need_slot := ok_or (checked_mul USIZE_MAX g_len t_len) (Overflow "flat slot map size") in
  let* need_block := ok_or (v ← checked_mul USIZE_MAX g_len s_len; checked_mul USIZE_MAX v (m_max_blocks m))
                           (Overflow "flat block table size") in
  let* need_window := ok_or (checked_mul USIZE_MAX g_len s_len) (Overflow "flat window start size") in
  Ok (need_slot, need_block, need_window).

Definition empty_emitted (blocks : Z) : Emitted :=
  {| e_seq_ids := []; e_ctx_lens := []; e_positions := []; e_slot_map := [];
     e_block_table := replicate (Z.to_nat blocks) BLOCK_TABLE_SENTINEL; e_window_start := [] |}.

(** [batch_meta_with_options]. *)
Definition batch_meta_with_options (seqs query_lens : list Z) (positions : option Positions)
    (tree : option TreeMask) (m : StateManager) : StateResult BatchMeta :=
  let* plan := fst (plan_batch seqs query_lens (positions_len <$> positions)
                      ((λ t, Z.of_nat (tree_t t)) <$> tree) m []) in
  let* sizes := flat_sizes m (Z.of_nat (length seqs)) (bp_total_tokens plan) in
  let '(_, total_blocks, _) := sizes in
  let '(r, e) := emit_batch_into m seqs query_lens plan true (empty_emitted total_blocks) in
  let* _ := r in
  let final_positions := default (PerToken (e_positions e)) positions in
  let* num_groups := ok_or (try_from U32_MAX (Z.of_nat (length (m_groups m)))) (Overflow "batch meta group count") in
  let* num_seqs := ok_or (try_from U32_MAX (Z.of_nat (length seqs))) (Overflow "batch meta seq count") in
  let* total_tokens := ok_or (try_from U32_MAX (bp_total_u64 plan)) (Overflow "batch meta total tokens") in
  omap_err Ir (build
    {| b_g := num_groups; b_s := num_seqs; b_t := total_tokens; b_max_blocks := m_max_blocks m;
       b_seq_ids := Some (e_seq_ids e); b_query_len := Some query_lens; b_ctx_len := Some (e_ctx_lens e);
       b_positions := Some final_positions; b_slot_map := Some (e_slot_map e);
       b_block_table := Some (e_block_table e); b_window_start := Some (e_window_start e);
       b_tree := tree |}).

(** [batch_meta_with_tree] and [batch_meta]. *)
Definition batch_meta_with_tree (seqs query_lens : list Z) (tree : option TreeMask) (m : StateManager)
    : StateResult BatchMeta := batch_meta_with_options seqs query_lens None tree m.
Definition batch_meta (seqs query_lens : list Z) (m : StateManager) : StateResult BatchMeta :=
  batch_meta_with_options seqs query_lens None None m.

(** ** The workspace *)

(** [Vec::capacity] of every buffer. *)
Record Capacities : Type := {
  k_seq_ids : Z;
  k_query_lens : Z;
  k_ctx_lens : Z;
  k_positions : Z;
  k_positions_mrope : Z;
  k_slot_map : Z;
  k_block_table : Z;
  k_window_start : Z;
  k_id_scratch : Z;
  k_tree_parents : Z;
  k_tree_ancestors : Z;
  k_tree_cycle_state : Z;
  k_tree_cycle_path : Z
}.

(** The dimensions of the last fill. *)
Record FillDims : Type := {
  fd_g : Z;
  fd_s : Z;
  fd_t : Z;
  fd_max_blocks : Z;
  fd_position_width : Z
}.

(** The tree storage of the slices path. *)
Record HotTree : Type := {
  h_parents : list Z;
  h_ancestors : list bool;
  h_t_max : Z;
  h_len : Z;
  h_anc_len : Z;
  h_present : bool;
  h_cycle_state : list Z;
  h_cycle_path : list Z
}.

(** [BatchWorkspace]; its fields are grouped, the values are the code's. *)
Record BatchWorkspace : Type := {
  w_last : FillDims;
  w_emitted : Emitted;
  w_query_lens : list Z;
  w_positions_mrope : list (Z * Z * Z);
  w_id_scratch : list Z;
  w_tree : option TreeMask;
  w_hot : HotTree;
  w_caps : Capacities
}.

Definition set_hot (tree : option TreeMask) (hot : HotTree) (caps : Capacities) (w : BatchWorkspace)
    : BatchWorkspace :=
  {| w_last := w_last w; w_emitted := w_emitted w; w_query_lens := w_query_lens w;
     w_positions_mrope := w_positions_mrope w; w_id_scratch := w_id_scratch w; w_tree := tree;
     w_hot := hot; w_caps := caps |}.
Definition set_id_scratch (scratch : list Z) (w : BatchWorkspace) : BatchWorkspace :=
  {| w_last := w_last w; w_emitted := w_emitted w; w_query_lens := w_query_lens w;
     w_positions_mrope := w_positions_mrope w; w_id_scratch := scratch; w_tree := w_tree w;
     w_hot := w_hot w; w_caps := w_caps w |}.
Definition set_batch (last : FillDims) (e : Emitted) (query_lens : list Z) (mrope : list (Z * Z * Z))
    (w : BatchWorkspace) : BatchWorkspace :=
  {| w_last := last; w_emitted := e; w_query_lens := query_lens; w_positions_mrope := mrope;
     w_id_scratch := w_id_scratch w; w_tree := w_tree w; w_hot := w_hot w; w_caps := w_caps w |}.

Definition zero_caps : Capacities :=
  {| k_seq_ids := 0; k_query_lens := 0; k_ctx_lens := 0; k_positions := 0; k_positions_mrope := 0;
     k_slot_map := 0; k_block_table := 0; k_window_start := 0; k_id_scratch := 0;
     k_tree_parents := 0; k_tree_ancestors := 0; k_tree_cycle_state := 0; k_tree_cycle_path := 0 |}.

Definition no_tree (state path : list Z) : HotTree :=
  {| h_parents := []; h_ancestors := []; h_t_max := 0; h_len := 0; h_anc_len := 0;
     h_present := false; h_cycle_state := state; h_cycle_path := path |}.

(** [BatchWorkspace::new]. *)
Definition workspace_new : BatchWorkspace :=
  {| w_last := {| fd_g := 0; fd_s := 0; fd_t := 0; fd_max_blocks := 0; fd_position_width := 0 |};
     w_emitted := {| e_seq_ids := []; e_ctx_lens := []; e_positions := []; e_slot_map := [];
                     e_block_table := []; e_window_start := [] |};
     w_query_lens := []; w_positions_mrope := []; w_id_scratch := []; w_tree := None;
     w_hot := no_tree [] []; w_caps := zero_caps |}.

(** [Vec::try_reserve_exact] answers with the capacity it leaves, at least the
    room asked for, or refuses; [Vec::extend] past the capacity grows to an
    amount of the allocator's choice. *)
Section workspace.
Context (try_reserve_exact : Z → Z → option Z) (grown : Z → Z → Z).

Definition reserve_new (cap : Z) : StateResult Z :=
  ok_or (try_reserve_exact 0 cap) (Overflow "workspace capacity").

(** [BatchWorkspace::try_with_capacity]. *)
Definition try_with_capacity (groups max_seqs max_tokens max_blocks : Z) : StateResult BatchWorkspace :=
  let* need_slot := ok_or (checked_mul USIZE_MAX groups max_tokens) (Overflow "workspace slot map size") in
  let* need_block := ok_or (v ← checked_mul USIZE_MAX groups max_seqs; checked_mul USIZE_MAX v max_blocks)
                           (Overflow "workspace block table size") in
  let* need_window := ok_or (checked_mul USIZE_MAX groups max_seqs) (Overflow "workspace window start size") in
  let* c1 := reserve_new max_seqs in
  let* c2 := reserve_new max_seqs in
  let* c3 := reserve_new max_seqs in
  let* c4 := reserve_new max_tokens in
  let* c5 := reserve_new max_tokens in
  let* c6 := reserve_new need_slot in
  let* c7 := reserve_new need_block in
  let* c8 := reserve_new need_window in
  let* c9 := reserve_new max_seqs in
  Ok (set_hot None (no_tree [] [])
        {| k_seq_ids := c1; k_query_lens := c2; k_ctx_lens := c3; k_positions := c4;
           k_positions_mrope := c5; k_slot_map := c6; k_block_table := c7; k_window_start := c8;
           k_id_scratch := c9; k_tree_parents := 0; k_tree_ancestors := 0; k_tree_cycle_state := 0;
           k_tree_cycle_path := 0 |} workspace_new).

(** [reserve_at_least] on a buffer of this length and capacity. *)
Definition reserve_at_least (len cap need : Z) (what : string) : StateResult Z :=
  if cap <? need then
    let* additional := ok_or (checked_sub need len) (Overflow what) in
    ok_or (try_reserve_exact len additional) (Overflow what)
  else Ok cap.

Definition set_tree_caps (parents ancestors state path : Z) (c : Capacities) : Capacities :=
  {| k_seq_ids := k_seq_ids c; k_query_lens := k_query_lens c; k_ctx_lens := k_ctx_lens c;
     k_positions := k_positions c; k_positions_mrope := k_positions_mrope c; k_slot_map := k_slot_map c;
     k_block_table := k_block_table c; k_window_start := k_window_start c;
     k_id_scratch := k_id_scratch c; k_tree_parents := parents; k_tree_ancestors := ancestors;
     k_tree_cycle_state := state; k_tree_cycle_path := path |}.

Definition with_caps (f : Capacities → Capacities) (w : BatchWorkspace) : BatchWorkspace :=
  set_hot (w_tree w) (w_hot w) (f (w_caps w)) w.

(** [BatchWorkspace::try_reserve_tree]; a refusal keeps what was grown. *)
Definition try_reserve_tree (max_tokens max_tree_t_max : Z) : stm BatchWorkspace StateError unit :=
  let! need_anc := slift (ok_or (checked_mul USIZE_MAX max_tokens max_tree_t_max)
                                (Overflow "tree ancestor mask size")) in
  let! w := sget in
  let! c1 := slift (reserve_at_least (Z.of_nat (length (h_parents (w_hot w)))) (k_tree_parents (w_caps w))
                      max_tokens "tree parents capacity") in
  let! _ := smodify (with_caps (λ c, set_tree_caps c1 (k_tree_ancestors c) (k_tree_cycle_state c) (k_tree_cycle_path c) c)) in
  let! c2 := slift (reserve_at_least (Z.of_nat (length (h_ancestors (w_hot w)))) (k_tree_ancestors (w_caps w))
                      need_anc "tree ancestors capacity") in
  let! _ := smodify (with_caps (λ c, set_tree_caps (k_tree_parents c) c2 (k_tree_cycle_state c) (k_tree_cycle_path c) c)) in
  let! c3 := slift (reserve_at_least (Z.of_nat (length (h_cycle_state (w_hot w)))) (k_tree_cycle_state (w_caps w))
                      max_tokens "tree cycle state capacity") in
  let! _ := smodify (with_caps (λ c, set_tree_caps (k_tree_parents c) (k_tree_ancestors c) c3 (k_tree_cycle_path c) c)) in
  let! c4 := slift (reserve_at_least (Z.of_nat (length (h_cycle_path (w_hot w)))) (k_tree_cycle_path (w_caps w))
                      max_tokens "tree cycle path capacity") in
  smodify (with_caps (λ c, set_tree_caps (k_tree_parents c) (k_tree_ancestors c) (k_tree_cycle_state c) c4 c)).

(** [BatchWorkspace::try_with_capacity_and_tree]. *)
Definition try_with_capacity_and_tree (groups max_seqs max_tokens max_blocks max_tree_tokens max_tree_t_max : Z)
    : StateResult BatchWorkspace :=
  let* ws := try_with_capacity groups max_seqs max_tokens max_blocks in
  let '(r, ws) := try_reserve_tree max_tree_tokens max_tree_t_max ws in
  let* _ := r in Ok ws.
End workspace.

(** [BatchWorkspace::with_capacity]: the refusal panics. *)
Definition with_capacity (try_reserve_exact : Z → Z → option Z) (groups max_seqs max_tokens max_blocks : Z)
    : outcome StateError BatchWorkspace :=
  match try_with_capacity try_reserve_exact groups max_seqs max_tokens max_blocks with
  | Ok ws => Ok ws
  | _ => Panic
  end.

(** ** Tree inputs and views *)

Record TreeInput : Type := { ti_parents : list Z; ti_t_max : Z; ti_ancestors : list bool }.
Record TreeView : Type := { tv_parents : list Z; tv_t_max : Z; tv_ancestors : list bool }.

(** [TreeInput::t] and [TreeView::t]. *)
Definition input_t (t : TreeInput) : Z := Z.of_nat (length (ti_parents t)).
Definition view_t (t : TreeView) : Z := Z.of_nat (length (tv_parents t)).

(** [TreeView::is_ancestor]: the asserts and the indexing panic. *)
Definition view_is_ancestor (tok pos : Z) (t : TreeView) : outcome StateError bool :=
  if negb (tok <? view_t t) then Panic
  else if negb (as_u32 pos <? tv_t_max t) then Panic
  else or_panic (tv_ancestors t !! Z.to_nat (tok * tv_t_max t + pos)).

(** [v[..len]]. *)
Definition slice_to {A} (len : Z) (v : list A) : outcome StateError (list A) :=
  if Z.of_nat (length v) <? len then Panic else Ok (take (Z.to_nat len) v).

(** [BatchWorkspace::tree_view]. *)
Definition tree_view (w : BatchWorkspace) : outcome StateError (option TreeView) :=
  let hot := w_hot w in
  if h_present hot then
    let* parents := slice_to (h_len hot) (h_parents hot) in
    let* ancestors := slice_to (h_anc_len hot) (h_ancestors hot) in
    Ok (Some {| tv_parents := parents; tv_t_max := h_t_max hot; tv_ancestors := ancestors |})
  else
    Ok ((λ t, {| tv_parents := t_parents t; tv_t_max := t_max t; tv_ancestors := t_ancestors t |}) <$> w_tree w).

(** [BatchWorkspace::clear_tree]. *)
Definition clear_tree (w : BatchWorkspace) : BatchWorkspace :=
  set_hot (w_tree w) (no_tree (h_cycle_state (w_hot w)) (h_cycle_path (w_hot w))) (w_caps w) w.

(** ** The accessors of the workspace *)

(** [BatchWorkspace::slot]. *)
Definition workspace_slot (group tok : Z) (w : BatchWorkspace) : option Z :=
  i ← checked_mul USIZE_MAX group (fd_t (w_last w));
  i ← checked_add USIZE_MAX i tok;
  e_slot_map (w_emitted w) !! Z.to_nat i.

(** [BatchWorkspace::block]. *)
Definition workspace_block (group seq b : Z) (w : BatchWorkspace) : option Z :=
  i ← checked_mul USIZE_MAX group (fd_s (w_last w));
  i ← checked_add USIZE_MAX i seq;
  i ← checked_mul USIZE_MAX i (fd_max_blocks (w_last w));
  i ← checked_add USIZE_MAX i b;
  e_block_table (w_emitted w) !! Z.to_nat i.

(** [BatchWorkspace::positions_mrope_flat_len] and
    [positions_mrope_flat_value]. *)
Definition positions_mrope_flat_len (w : BatchWorkspace) : Z :=
  Z.of_nat (length (w_positions_mrope w)) * 3.

Definition lane_of (lane : Z) (trip : Z * Z * Z) : Z :=
  let '(a, b, c) := trip in if lane =? 0 then a else if lane =? 1 then b else c.

Definition positions_mrope_flat_value (flat_idx : Z) (w : BatchWorkspace) : option Z :=
  trip ← w_positions_mrope w !! Z.to_nat (flat_idx / 3);
  Some (lane_of (flat_idx mod 3) trip).

(** ** The batch-relative tree rules *)

(** The crossings of the parents, sequence by sequence. *)
Fixpoint batch_crossings (parents : list Z) (seq seq_start : nat) (query_lens : list Z) : list IrError :=
  match query_lens with
  | [] => []
  | seq_len :: rest =>
      let seq_end := (seq_start + Z.to_nat seq_len)%nat in
      concat (map (λ '(token, parent),
        if (0 <=? parent) && ((parent <? Z.of_nat seq_start) || (Z.of_nat seq_end <=? parent))
        then [TreeParentCrossesSequence token parent seq (Z.of_nat seq_start) (Z.of_nat seq_end)]
        else []) (take (seq_end - seq_start) (drop seq_start (enumerate parents)))) ++
      batch_crossings parents (S seq) seq_end rest
  end.

(** [check_tree_batch_rules]. *)
Definition check_tree_batch_rules (parents : list Z) (t_max : Z) (query_lens : list Z)
    : outcome IrError unit :=
  let required := max_query query_lens in
  let small := if t_max <? required then [TreeMaxTooSmall required t_max] else [] in
  let total := Zsum query_lens in
  let crossings := if Z.of_nat (length parents) =? total
                   then batch_crossings parents 0 0 query_lens else [] in
  from_problems (small ++ crossings).

(** ** Filling *)

(** [cap] after a buffer is rewritten with this many elements: pushes and
    extends past the capacity grow it. *)
Definition room (grown : Z → Z → Z) (cap len : Z) : Z := if cap <? len then grown cap len else cap.

(** The capacity checks of the fill paths. *)
Definition check_cap (what : string) (cap need : Z) : StateResult unit :=
  if cap <? need then Err (InvalidBatch (WorkspaceCapacity what cap need)) else Ok tt.

Definition is_mrope (positions : option Positions) : bool :=
  match positions with Some (Mrope _) => true | _ => false end.

(** The checks on every batch buffer, in the order of the code. *)
Definition check_caps (c : Capacities) (want_mrope : bool) (s_len t_len : Z) (sizes : Z * Z * Z)
    : StateResult unit :=
  let '(need_slot, need_block, need_window) := sizes in
  let* _ := check_cap "seq_ids" (k_seq_ids c) s_len in
  let* _ := check_cap "query_lens" (k_query_lens c) s_len in
  let* _ := check_cap "ctx_lens" (k_ctx_lens c) s_len in
  let* _ := (if want_mrope then check_cap "positions_mrope" (k_positions_mrope c) t_len
             else check_cap "positions" (k_positions c) t_len) in
  let* _ := check_cap "slot_map" (k_slot_map c) need_slot in
  let* _ := check_cap "block_table" (k_block_table c) need_block in
  check_cap "window_start" (k_window_start c) need_window.

(** A write-back of the batch buffers with the capacities they now have. *)
Definition room_batch (grown : Z → Z → Z) (e : Emitted) (query_lens : list Z) (mrope : list (Z * Z * Z))
    (c : Capacities) : Capacities :=
  let len {A} (l : list A) := Z.of_nat (length l) in
  {| k_seq_ids := room grown (k_seq_ids c) (len (e_seq_ids e));
     k_query_lens := room grown (k_query_lens c) (len query_lens);
     k_ctx_lens := room grown (k_ctx_lens c) (len (e_ctx_lens e));
     k_positions := room grown (k_positions c) (len (e_positions e));
     k_positions_mrope := room grown (k_positions_mrope c) (len mrope);
     k_slot_map := room grown (k_slot_map c) (len (e_slot_map e));
     k_block_table := room grown (k_block_table c) (len (e_block_table e));
     k_window_start := room grown (k_window_start c) (len (e_window_start e));
     k_id_scratch := k_id_scratch c; k_tree_parents := k_tree_parents c;
     k_tree_ancestors := k_tree_ancestors c; k_tree_cycle_state := k_tree_cycle_state c;
     k_tree_cycle_path := k_tree_cycle_path c |}.

Definition room_scratch (grown : Z → Z → Z) (scratch : list Z) (c : Capacities) : Capacities :=
  {| k_seq_ids := k_seq_ids c; k_query_lens := k_query_lens c; k_ctx_lens := k_ctx_lens c;
     k_positions := k_positions c; k_positions_mrope := k_positions_mrope c; k_slot_map := k_slot_map c;
     k_block_table := k_block_table c; k_window_start := k_window_start c;
     k_id_scratch := room grown (k_id_scratch c) (Z.of_nat (length scratch));
     k_tree_parents := k_tree_parents c; k_tree_ancestors := k_tree_ancestors c;
     k_tree_cycle_state := k_tree_cycle_state c; k_tree_cycle_path := k_tree_cycle_path c |}.

Section fill.
Context (grown : Z → Z → Z) (m : StateManager).

Definition put_batch (e : Emitted) (query_lens : list Z) (mrope : list (Z * Z * Z)) (w : BatchWorkspace)
    : BatchWorkspace :=
  with_caps (room_batch grown e query_lens mrope) (set_batch (w_last w) e query_lens mrope w).

Definition with_last (f : FillDims → FillDims) (w : BatchWorkspace) : BatchWorkspace :=
  set_batch (f (w_last w)) (w_emitted w) (w_query_lens w) (w_positions_mrope w) w.
Definition set_width (v : Z) (d : FillDims) : FillDims :=
  {| fd_g := fd_g d; fd_s := fd_s d; fd_t := fd_t d; fd_max_blocks := fd_max_blocks d; fd_position_width := v |}.
Definition set_last_g (v : Z) (d : FillDims) : FillDims :=
  {| fd_g := v; fd_s := fd_s d; fd_t := fd_t d; fd_max_blocks := fd_max_blocks d;
     fd_position_width := fd_position_width d |}.
Definition set_last_s (v : Z) (d : FillDims) : FillDims :=
  {| fd_g := fd_g d; fd_s := v; fd_t := fd_t d; fd_max_blocks := fd_max_blocks d;
     fd_position_width := fd_position_width d |}.
Definition set_last_t (v : Z) (d : FillDims) : FillDims :=
  {| fd_g := fd_g d; fd_s := fd_s d; fd_t := v; fd_max_blocks := fd_max_blocks d;
     fd_position_width := fd_position_width d |}.
Definition set_last_max_blocks (v : Z) (d : FillDims) : FillDims :=
  {| fd_g := fd_g d; fd_s := fd_s d; fd_t := fd_t d; fd_max_blocks := v;
     fd_position_width := fd_position_width d |}.

(** From the clears to the recorded width: the emission into the cleared
    buffers, then the explicit positions copied verbatim. *)
Definition write_batch (seqs query_lens : list Z) (plan : BatchPlan) (need_block : Z)
    (positions : option Positions) : stm BatchWorkspace StateError unit := λ w,
  let want := match positions with None => true | Some _ => false end in
  let '(r, e) := emit_batch_into m seqs query_lens plan want (empty_emitted need_block) in
  match r with
  | Ok _ =>
      match positions with
      | None => (Ok tt, with_last (set_width 1) (put_batch e query_lens [] w))
      | Some (PerToken v) =>
          (Ok tt, with_last (set_width 1) (put_batch (push_positions v e) query_lens [] w))
      | Some (Mrope v) => (Ok tt, with_last (set_width 3) (put_batch e query_lens v w))
      end
  | failed => (failed, put_batch e query_lens [] w)
  end.

(** The dimensions recorded after a fill. *)
Definition record_dims (g_len s_len : Z) (plan : BatchPlan) : stm BatchWorkspace StateError unit :=
  let! g := slift (ok_or (try_from U32_MAX g_len) (Overflow "batch meta group count")) in
  let! _ := smodify (with_last (set_last_g g)) in
  let! s := slift (ok_or (try_from U32_MAX s_len) (Overflow "batch meta seq count")) in
  let! _ := smodify (with_last (set_last_s s)) in
  let! t := slift (ok_or (try_from U32_MAX (bp_total_u64 plan)) (Overflow "batch meta total tokens")) in
  let! _ := smodify (with_last (set_last_t t)) in
  smodify (with_last (set_last_max_blocks (m_max_blocks m))).

(** The id scratch must hold every sequence before the plan runs in it. *)
Definition check_scratch (s_len : Z) : stm BatchWorkspace StateError unit :=
  sread (λ w, check_cap "id scratch" (k_id_scratch (w_caps w)) s_len).

Definition plan_in_scratch (seqs query_lens : list Z) (positions_len tree_t : option Z)
    : stm BatchWorkspace StateError BatchPlan :=
  szoom w_id_scratch (λ scratch w, with_caps (room_scratch grown scratch) (set_id_scratch scratch w))
    (plan_batch seqs query_lens positions_len tree_t m).

(** [fill_batch_meta_with_options]. *)
Definition fill_batch_meta_with_options (seqs query_lens : list Z) (positions : option Positions)
    (tree : option TreeMask) : stm BatchWorkspace StateError unit :=
  let s_len := Z.of_nat (length seqs) in
  let g_len := Z.of_nat (length (m_groups m)) in
  let! _ := check_scratch s_len in
  let! plan := plan_in_scratch seqs query_lens (positions_len <$> positions)
                 ((λ t, Z.of_nat (tree_t t)) <$> tree) in
  let t_len := bp_total_tokens plan in
  let! sizes := slift (flat_sizes m s_len t_len) in
  let! _ := sread (λ w, check_caps (w_caps w) (is_mrope positions) s_len t_len sizes) in
  let! _ := slift (match tree with
    | Some t => omap_err Ir (check_tree_batch_rules (t_parents t) (t_max t) query_lens)
    | None => Ok tt
    end) in
  let '(_, need_block, _) := sizes in
  let! _ := write_batch seqs query_lens plan need_block positions in
  let! _ := record_dims g_len s_len plan in
  let! _ := smodify clear_tree in
  smodify (λ w, set_hot tree (w_hot w) (w_caps w) w).

(** [fill_batch_meta]. *)
Definition fill_batch_meta (seqs query_lens : list Z) (tree : option TreeMask)
    : stm BatchWorkspace StateError unit :=
  fill_batch_meta_with_options seqs query_lens None tree.

(** ** The slices path *)

(** The buffers [fill_tree] rewrites before it validates. *)
Definition stage_tree (tree : TreeInput) (w : BatchWorkspace) : BatchWorkspace :=
  let hot := w_hot w in
  let c := w_caps w in
  set_hot (w_tree w)
    {| h_parents := ti_parents tree; h_ancestors := ti_ancestors tree; h_t_max := h_t_max hot;
       h_len := h_len hot; h_anc_len := h_anc_len hot; h_present := h_present hot;
       h_cycle_state := replicate (length (ti_parents tree)) 0; h_cycle_path := [] |}
    (set_tree_caps (room grown (k_tree_parents c) (input_t tree))
       (room grown (k_tree_ancestors c) (Z.of_nat (length (ti_ancestors tree))))
       (room grown (k_tree_cycle_state c) (input_t tree)) (k_tree_cycle_path c) c) w.

Definition set_cycle_scratch (state path : list Z) (hot : HotTree) : HotTree :=
  {| h_parents := h_parents hot; h_ancestors := h_ancestors hot; h_t_max := h_t_max hot;
     h_len := h_len hot; h_anc_len := h_anc_len hot; h_present := h_present hot;
     h_cycle_state := state; h_cycle_path := path |}.

(** The stored tree: the owned mask gives way to the slices. *)
Definition store_tree (tree : TreeInput) (need_anc : Z) (w : BatchWorkspace) : BatchWorkspace :=
  let hot := w_hot w in
  set_hot None
    {| h_parents := h_parents hot; h_ancestors := h_ancestors hot; h_t_max := ti_t_max tree;
       h_len := input_t tree; h_anc_len := need_anc; h_present := true;
       h_cycle_state := h_cycle_state hot; h_cycle_path := h_cycle_path hot |} (w_caps w) w.

(** [BatchWorkspace::fill_tree]; [None] is the fuel of the cycle walk. *)
Definition fill_tree (tree : TreeInput) (w : BatchWorkspace)
    : option (outcome StateError unit * BatchWorkspace) :=
  let t := input_t tree in
  let c := w_caps w in
  match checked_mul USIZE_MAX t (ti_t_max tree) with
  | None => Some (Err (Overflow "tree ancestor mask size"), w)
  | Some need_anc =>
      if k_tree_parents c <? t
      then Some (Err (InvalidBatch (WorkspaceCapacity "tree parents" (k_tree_parents c) t)), w)
      else if k_tree_ancestors c <? need_anc
      then Some (Err (InvalidBatch (WorkspaceCapacity "tree ancestors" (k_tree_ancestors c) need_anc)), w)
      else if (k_tree_cycle_state c <? t) || (k_tree_cycle_path c <? t)
      then Some (Err (InvalidBatch (TreeScratchCapacity t)), w)
      else
        let w := stage_tree tree w in
        match validate_tree_slices (h_parents (w_hot w)) (ti_t_max tree) (h_ancestors (w_hot w))
                (h_cycle_state (w_hot w)) (h_cycle_path (w_hot w)) (k_tree_cycle_path (w_caps w)) with
        | None => None
        | Some (validated, (state, path)) =>
            let w := set_hot (w_tree w) (set_cycle_scratch state path (w_hot w)) (w_caps w) w in
            match validated with
            | Ok _ => Some (Ok tt, store_tree tree need_anc w)
            | Err e => Some (Err (Ir e), clear_tree w)
            | Panic => Some (Panic, w)
            end
        end
  end.

(** Before the plan's buffers are touched: the tree is stored or dropped. *)
Definition settle_tree (query_lens : list Z) (tree : option TreeInput) (w : BatchWorkspace)
    : option (outcome StateError unit * BatchWorkspace) :=
  match tree with
  | Some t =>
      match check_tree_batch_rules (ti_parents t) (ti_t_max t) query_lens with
      | Ok _ => fill_tree t w
      | Err e => Some (Err (Ir e), w)
      | Panic => Some (Panic, w)
      end
  | None => Some (Ok tt, clear_tree w)
  end.

(** The tree/batch size match, reported as the builder's mismatch. *)
Definition check_input_size (plan : BatchPlan) (tree : option TreeInput) : StateResult unit :=
  match tree with
  | Some t =>
      if negb (input_t t =? bp_total_tokens plan) then
        let* batch_t := ok_or (try_from U32_MAX (bp_total_u64 plan)) (Overflow "batch meta total tokens") in
        Err (Ir (TreeBatchMismatch (input_t t) batch_t))
      else Ok tt
  | None => Ok tt
  end.

(** What runs before the tree: the plan, the tree's size, the capacities. *)
Definition prepare_slices (seqs query_lens : list Z) (positions : option Positions)
    (tree : option TreeInput) : stm BatchWorkspace StateError (BatchPlan * Z) :=
  let s_len := Z.of_nat (length seqs) in
  let! _ := check_scratch s_len in
  let! plan := plan_in_scratch seqs query_lens (positions_len <$> positions) None in
  let t_len := bp_total_tokens plan in
  let! _ := slift (check_input_size plan tree) in
  let! sizes := slift (flat_sizes m s_len t_len) in
  let! _ := sread (λ w, check_caps (w_caps w) (is_mrope positions) s_len t_len sizes) in
  let '(_, need_block, _) := sizes in
  sret (plan, need_block).

(** [fill_batch_meta_with_options_and_tree_input]. *)
Definition fill_batch_meta_with_options_and_tree_input (seqs query_lens : list Z)
    (positions : option Positions) (tree : option TreeInput) (w : BatchWorkspace)
    : option (outcome StateError unit * BatchWorkspace) :=
  match prepare_slices seqs query_lens positions tree w with
  | (Ok (plan, need_block), w) =>
      match settle_tree query_lens tree w with
      | None => None
      | Some (Ok _, w) =>
          Some ((let! _ := write_batch seqs query_lens plan need_block positions in
                 let! _ := record_dims (Z.of_nat (length (m_groups m))) (Z.of_nat (length seqs)) plan in
                 smodify (λ w, set_hot None (w_hot w) (w_caps w) w)) w)
      | Some refused => Some refused
      end
  | (Err e, w) => Some (Err e, w)
  | (Panic, w) => Some (Panic, w)
  end.

(** [fill_batch_meta_with_tree_input]. *)
Definition fill_batch_meta_with_tree_input (seqs query_lens : list Z) (tree : TreeInput)
    (w : BatchWorkspace) : option (outcome StateError unit * BatchWorkspace) :=
  fill_batch_meta_with_options_and_tree_input seqs query_lens None (Some tree) w.
End fill.
