(* ===== verification/Emit.v ===== *)
(** * What a batch plan accepts, and what is emitted for it

    [plan_batch] and [emit_batch_into] of [crates/r9v-state/src/manager.rs]:
    the plan accepts exactly the coherent batches, and on those the emission
    cannot fail; the slot map, the block table and the window starts it writes
    are given cell by cell in terms of the page maps of the sequences. *)

From S2P Require Import Prelude Errors Spec Table Pools Manager Invariant Construct Reserve Admission Commit Slots Tree Batch Workspace.

#[global] Open Scope Z_scope.

(** ** The batches a plan accepts *)

Record coherent_batch (m : StateManager) (seqs query_lens : list Z) : Prop := {
  cb_lengths : length seqs = length query_lens;
  cb_nonempty : seqs ≠ [];
  cb_distinct : NoDup seqs;
  cb_covered : Forall2 (λ seq q, ∃ s, m_seqs m !! seq = Some s ∧ 1 ≤ q ≤ q_tail_len s) seqs query_lens;
  cb_total : Zsum query_lens ≤ MAX_BATCH_TOKENS_HARD
}.

Lemma scan_ids_result seqs : ∀ i seen,
  (scan_ids i seqs seen).1 ≠ Panic ∧
  ((scan_ids i seqs seen).1 = Ok [] ↔
   Forall (λ x, x ≤ U32_MAX) seqs ∧ NoDup seqs ∧ ∀ x, x ∈ seqs → x ∉ seen).
Proof.
  induction seqs as [|seq seqs IH]; intros i seen; simpl.
  { split; [done|]. split; [|done]. intros _. split; [constructor|].
    split; [constructor|]. by intros x ?%elem_of_nil. }
  rewrite Forall_cons, NoDup_cons. destruct (Z.ltb_spec U32_MAX seq) as [Hw|Hw]; simpl.
  { split; [done|]. split; [done|]. intros ((? & _) & _). lia. }
  case_decide as Hin.
  - destruct (scan_ids (S i) seqs seen) as [r seen'] eqn:Hr. simpl.
    destruct (IH (S i) seen) as [Hp _]. rewrite Hr in Hp. simpl in Hp.
    split; [destruct r; done|]. split; [by destruct r|].
    intros (_ & _ & H). by specialize (H seq ltac:(by left)).
  - destruct (IH (S i) (seen ++ [seq])) as [Hp Hiff]. split; [done|].
    rewrite Hiff. split.
    + intros (Hle & Hnd & Hni). split_and!; try done.
      * intros Hs. apply (Hni seq Hs). set_solver.
      * intros x [->|Hx]%elem_of_cons; [done|]. specialize (Hni x Hx). set_solver.
    + intros ((_ & Hle) & (Hns & Hnd) & Hni). split_and!; try done.
      intros x Hx. specialize (Hni x ltac:(by right)).
      rewrite elem_of_app, list_elem_of_singleton. intros [?|Heq]; [done|by subst].
Qed.

(** One sequence is in order when its query fits the open reservation. *)
Definition covered (m : StateManager) (sq : Z * Z) : Prop :=
  ∃ s, m_seqs m !! sq.1 = Some s ∧ 1 ≤ sq.2 ≤ q_tail_len s.

Lemma scan_query_step m problems total i seq q :
  manager_ok m → is_u32 q → 0 ≤ total ≤ U64_MAX →
  ∃ ps t, scan_query m (problems, total) (i, (seq, q)) = (problems ++ ps, t) ∧
    0 ≤ t ≤ U64_MAX ∧
    (ps = [] ↔ covered m (seq, q) ∧ total + q ≤ U64_MAX) ∧ (ps = [] → t = total + q).
Proof.
  intros [bpg Hinv] Hq Ht. unfold scan_query, seq_state, covered. simpl.
  destruct (m_seqs m !! seq) as [s|] eqn:Hs; simpl.
  2:{ eexists _, total. split; [done|]. split; [done|].
      split; [|done]. split; [done|]. by intros ((? & ? & _) & _). }
  destruct (mi_seqs _ _ Hinv seq s Hs) as [_ Hok].
  pose proof (so_ctx _ _ _ Hok). pose proof (so_tail _ _ _ Hok). pose proof (so_end _ _ _ Hok).
  destruct (mi_config _ _ Hinv) as ((_ & Hmax) & _). unfold MAX_CTX_HARD, is_u32 in *.
  set (in_tail := if _ || _ then _ else _). set (in_ctx := match checked_add U32_MAX _ _ with Some _ => _ | None => _ end).
  assert (in_tail = [] ↔ 1 ≤ q ≤ q_tail_len s) as Htail.
  { unfold in_tail. destruct (Z.eqb_spec q 0), (Z.ltb_spec (q_tail_len s) q); simpl; split; try done; lia. }
  assert (in_tail = [] → in_ctx = []) as Hctx.
  { intros Hin%Htail. unfold in_ctx, U32_MAX in *. rewrite checked_add_ok by (unfold U32_MAX; lia).
    destruct (Z.leb_spec (q_ctx_len s + q) (max_ctx (m_config m))); [done|lia]. }
  unfold checked_add. destruct (Z.leb_spec (total + q) U64_MAX).
  - eexists (in_tail ++ in_ctx), _. split; [done|]. split; [lia|]. rewrite app_nil. split; [|done].
    split.
    + intros [Ha _]. split; [|done]. exists s. split; [done|by apply Htail].
    + intros ((s' & [= <-] & Hr) & _). apply Htail in Hr. auto.
  - eexists _, total. split; [done|]. split; [done|]. split.
    + split; [by intros [? [? ?]%app_nil]%app_nil|]. intros (_ & ?). lia.
    + by intros [? [? ?]%app_nil]%app_nil.
Qed.

Lemma scan_queries m l : ∀ i problems total,
  manager_ok m → Forall (λ sq, is_u32 sq.2) l → 0 ≤ total ≤ U64_MAX →
  ∃ ps t, foldl (scan_query m) (problems, total) (imap (λ k sq, (i + k, sq)%nat) l) = (problems ++ ps, t) ∧
    0 ≤ t ≤ U64_MAX ∧
    (ps = [] ↔ Forall (covered m) l ∧ total + Zsum l.*2 ≤ U64_MAX) ∧
    (ps = [] → t = total + Zsum l.*2).
Proof.
  induction l as [|[seq q] l IH]; intros i problems total Hm Hl Ht; cbn [imap foldl fmap list_fmap snd].
  { exists [], total. rewrite app_nil_r. split; [done|]. split; [done|].
    change (Zsum []) with 0. split; [|lia]. split; [split; [constructor|lia]|done]. }
  apply Forall_cons in Hl as [Hq Hl]. rewrite Nat.add_0_r.
  destruct (scan_query_step m problems total i seq q Hm Hq Ht) as (ps & t & -> & Ht' & Hps & Hpt).
  destruct (IH (S i) (problems ++ ps) t Hm Hl Ht') as (ps' & t' & Heq & Ht'' & Hps' & Hpt').
  exists (ps ++ ps'), t'. rewrite app_assoc, <- Heq. split.
  { f_equal. apply imap_ext. intros k x _. simpl. f_equal. lia. }
  split; [done|]. change (Zsum (q :: l.*2)) with (q + Zsum l.*2).
  assert (0 ≤ Zsum l.*2) as Hpos.
  { apply Zsum_pos, Forall_fmap. eapply Forall_impl; [done|]. by intros x []. }
  rewrite app_nil, Forall_cons. split.
  - rewrite Hps, Hps'. split.
    + intros [[? ?] [? ?]]. rewrite (Hpt (proj2 Hps ltac:(done))) in *. split; [done|lia].
    + intros [[Hc Hcs] Hle]. unfold is_u32 in Hq. simpl in Hq.
      assert (covered m (seq, q) ∧ total + q ≤ U64_MAX) as H1 by (split; [done|lia]).
      split; [done|]. rewrite (Hpt (proj2 Hps H1)). split; [done|lia].
  - intros [H1 H2]. rewrite (Hpt' H2), (Hpt H1). lia.
Qed.

Lemma scan_ids_scratch seqs : ∀ i seen,
  (length (scan_ids i seqs seen).2 ≤ length seen + length seqs)%nat.
Proof.
  induction seqs as [|seq seqs IH]; intros i seen; simpl; [lia|].
  destruct (_ <? _); simpl; [lia|]. case_decide.
  - specialize (IH (S i) seen). destruct (scan_ids _ _ _). simpl in *. lia.
  - specialize (IH (S i) (seen ++ [seq])). rewrite length_app in IH. simpl in IH. lia.
Qed.

Lemma covered_pairs m seqs qs :
  length seqs = length qs →
  Forall (covered m) (zip seqs qs) ↔
  Forall2 (λ seq q, ∃ s, m_seqs m !! seq = Some s ∧ 1 ≤ q ≤ q_tail_len s) seqs qs.
Proof.
  intros Hl. rewrite Forall_lookup, Forall2_lookup. unfold covered. split.
  - intros H i. pose proof (lookup_zip_with pair seqs qs i) as Hz.
    destruct (seqs !! i) as [x|] eqn:Hx, (qs !! i) as [y|] eqn:Hy; simpl in Hz.
    + constructor. by apply (H i (x, y)).
    + apply lookup_ge_None in Hy. apply lookup_lt_Some in Hx. lia.
    + apply lookup_ge_None in Hx. apply lookup_lt_Some in Hy. lia.
    + constructor.
  - intros H i [x y] (Hx & Hy)%lookup_zip_Some. specialize (H i). rewrite Hx, Hy in H.
    by inversion H.
Qed.

(** A covered sequence is live, and live ids fit the device. *)
Lemma covered_ids m seqs qs :
  manager_ok m →
  Forall2 (λ seq q, ∃ s, m_seqs m !! seq = Some s ∧ 1 ≤ q ≤ q_tail_len s) seqs qs →
  Forall (λ x, x ≤ U32_MAX) seqs.
Proof.
  intros [bpg Hinv] Hcov. apply Forall_lookup. intros i x Hx.
  destruct (Forall2_lookup_l _ _ _ _ _ Hcov Hx) as (? & _ & s & Hs & _).
  pose proof (mi_next _ _ Hinv). pose proof (proj1 (mi_seqs _ _ Hinv _ _ Hs)). lia.
Qed.

(** The declared position and tree sizes agree with the total. *)
Definition sizes_agree (total : Z) (sizes : list (option Z)) : Prop :=
  Forall (λ o, ∀ n, o = Some n → n = total) sizes.

Lemma size_problem (total : Z) (o : option Z) (p : Z → BatchProblem) :
  match o with Some n => if negb (n =? total) then [p n] else [] | None => [] end = [] ↔
  ∀ n, o = Some n → n = total.
Proof.
  destruct o as [n|]; [|done]. destruct (Z.eqb_spec n total); simpl; split; try done.
  - by intros _ ? [= <-].
  - intros H. by specialize (H n eq_refl).
Qed.

Lemma covered_zip_snd (seqs qs : list Z) : length seqs = length qs → (zip seqs qs).*2 = qs.
Proof. intros H. apply snd_zip. lia. Qed.

Lemma plan_batch_cases m seqs qs positions_len tree_t scratch :
  manager_ok m → Forall is_u32 qs →
  let '(r, scratch') := plan_batch seqs qs positions_len tree_t m scratch in
  (length scratch' ≤ length scratch `max` length seqs)%nat ∧
  match r with
  | Ok plan => plan = {| bp_total_tokens := Zsum qs; bp_total_u64 := Zsum qs |} ∧
      coherent_batch m seqs qs ∧ sizes_agree (Zsum qs) [positions_len; tree_t]
  | Err _ => ¬ (coherent_batch m seqs qs ∧ sizes_agree (Zsum qs) [positions_len; tree_t])
  | Panic => False
  end.
Proof.
  intros Hm Hq. unfold plan_batch.
  destruct (Nat.eqb_spec (length seqs) (length qs)) as [Hl|Hl]; simpl.
  2:{ split; [lia|]. by intros [[] _]. }
  destruct (Nat.eqb_spec (length seqs) 0) as [H0|H0]; simpl.
  { split; [lia|]. intros [[] _]. by destruct seqs. }
  pose proof (scan_ids_scratch seqs 0 []) as Hlen. simpl in Hlen.
  destruct (scan_ids_result seqs 0 []) as [Hp Hids].
  unfold sbind at 1. destruct (scan_ids 0 seqs []) as [ids scratch'] eqn:Hscan. simpl in Hlen, Hp, Hids.
  destruct ids as [ids|e|]; [| |done].
  2:{ split; [lia|]. intros [[_ _ Hnd Hcov _] _].
      discriminate (proj2 Hids (conj (covered_ids m seqs qs Hm Hcov) (conj Hnd (λ x _, not_elem_of_nil x)))). }
  destruct (scan_queries m (zip seqs qs) 0 ids 0 Hm) as (ps & t & Hfold & Ht & Hps & Hpt).
  { apply Forall_forall. intros [x y] Hxy. rewrite Forall_forall in Hq. apply Hq.
    by apply elem_of_zip_r in Hxy. }
  { unfold U64_MAX; lia. }
  rewrite covered_zip_snd in * by done. rewrite covered_pairs in Hps by done.
  unfold enumerate.
  change (imap pair (zip seqs qs)) with (imap (λ k sq, ((0 + k)%nat, sq)) (zip seqs qs)).
  rewrite Hfold. rewrite try_from_ok by (unfold USIZE_MAX; lia).
  assert (Forall (λ x, 0 ≤ x) qs) as Hq0 by (eapply Forall_impl; [done|]; by intros ? []).
  cbn [ok_or slift sbind].
  set (problems := (_ ++ _) ++ _ ++ _).
  assert (problems = [] ↔ (Ok (E := StateError) ids = Ok [] ∧ Forall2 (λ seq q, ∃ s, m_seqs m !! seq = Some s ∧ 1 ≤ q ≤ q_tail_len s) seqs qs ∧ t ≤ MAX_BATCH_TOKENS_HARD ∧ t = Zsum qs) ∧ sizes_agree (Zsum qs) [positions_len; tree_t]) as Hprob.
  { unfold problems, sizes_agree. rewrite !app_nil, !size_problem, !Forall_cons.
    destruct (Z.ltb_spec MAX_BATCH_TOKENS_HARD t).
    { split; [by intros [[_ ?] _]|]. intros [(_ & _ & ? & _) _]. lia. }
    split.
    - intros [[[-> ->] _] [H1 H2]]. pose proof (Hpt eq_refl) as Heq. rewrite Heq in *.
      destruct (proj1 Hps eq_refl) as [? _]. split_and!; try done; lia.
    - intros [(? & Hc & Hle & ->) (Hs1 & Hs2 & _)].
      assert (ps = []) as -> by (apply Hps; unfold U64_MAX in *; split; [done|lia]).
      split_and!; try done. by simplify_eq. }
  clearbody problems. destruct (decide (problems = [])) as [Hnil|Hnil].
  - rewrite Hnil. apply Hprob in Hnil as [(Hi & Hc & Hle & ->) Hsz]. cbn. split; [lia|]. split; [done|].
    split; [|done]. apply Hids in Hi as (_ & Hnd & _). split; [done|by destruct seqs|done..].
  - destruct problems as [|p probs]; [done|]. cbn. split; [lia|]. intros [[_ _ Hnd Hcov Htot] Hsz]. cut (p :: probs = []); [done|].
    apply Hprob. split; [|done].
    pose proof (proj2 Hids (conj (covered_ids m seqs qs Hm Hcov) (conj Hnd (λ x _, not_elem_of_nil x)))) as Hi.
    assert (t = 0 + Zsum qs) as ->.
    { apply Hpt, Hps. split; [done|]. unfold U64_MAX, MAX_BATCH_TOKENS_HARD in *. lia. }
    split_and!; [done|done|lia|lia].
Qed.

(** ** Emission as a sequence of appends and cell writes *)

Record Delta : Type := {
  d_ids : list Z;
  d_ctx : list Z;
  d_positions : list Z;
  d_slots : list Z;
  d_cells : list (nat * Z);
  d_windows : list Z
}.

Definition d_empty : Delta :=
  {| d_ids := []; d_ctx := []; d_positions := []; d_slots := []; d_cells := []; d_windows := [] |}.
Definition d_app (a b : Delta) : Delta :=
  {| d_ids := d_ids a ++ d_ids b; d_ctx := d_ctx a ++ d_ctx b;
     d_positions := d_positions a ++ d_positions b; d_slots := d_slots a ++ d_slots b;
     d_cells := d_cells a ++ d_cells b; d_windows := d_windows a ++ d_windows b |}.
Definition d_concat (l : list Delta) : Delta := foldr d_app d_empty l.

Definition write_cells (cells : list (nat * Z)) (bt : list Z) : list Z :=
  foldl (λ bt c, <[c.1 := c.2]> bt) bt cells.

Definition d_act (d : Delta) (e : Emitted) : Emitted :=
  {| e_seq_ids := e_seq_ids e ++ d_ids d; e_ctx_lens := e_ctx_lens e ++ d_ctx d;
     e_positions := e_positions e ++ d_positions d; e_slot_map := e_slot_map e ++ d_slots d;
     e_block_table := write_cells (d_cells d) (e_block_table e);
     e_window_start := e_window_start e ++ d_windows d |}.

Lemma d_act_empty e : d_act d_empty e = e.
Proof. destruct e. unfold d_act. simpl. by rewrite !app_nil_r. Qed.

Lemma d_act_app a b e : d_act (d_app a b) e = d_act b (d_act a e).
Proof. unfold d_act, write_cells. simpl. by rewrite !app_assoc, foldl_app. Qed.

Lemma write_cells_length cells bt : length (write_cells cells bt) = length bt.
Proof.
  revert bt. induction cells as [|c cells IH]; simpl; intros bt; [done|].
  unfold write_cells in *. simpl. by rewrite IH, length_insert.
Qed.

(** A loop whose every step appends, from states the appends preserve. *)
Lemma sfor_delta {A} (f : A → stm Emitted StateError unit) (h : A → Delta) (P : Emitted → Prop) l : ∀ e,
  P e → (∀ x e, x ∈ l → P e → f x e = (Ok tt, d_act (h x) e) ∧ P (d_act (h x) e)) →
  sfor f l e = (Ok tt, d_act (d_concat (map h l)) e) ∧ P (d_act (d_concat (map h l)) e).
Proof.
  induction l as [|x l IH]; intros e He H; simpl.
  - by rewrite d_act_empty.
  - destruct (H x e ltac:(by left) He) as [Hx Hp]. unfold sbind. rewrite Hx.
    rewrite d_act_app. apply IH; [done|]. intros y e' Hy. apply H. by right.
Qed.

(** The fields of a joined delta. *)
Lemma d_concat_field {A} (field : Delta → list A) l :
  field d_empty = [] → (∀ a b, field (d_app a b) = field a ++ field b) →
  field (d_concat l) = concat (map field l).
Proof. intros H0 Happ. induction l as [|d l IH]; simpl; [done|]. by rewrite Happ, IH. Qed.

(** What is written to a cell, when the writes to it agree. *)
Lemma write_cells_lookup cells bt i :
  (∀ v w, (i, v) ∈ cells → (i, w) ∈ cells → v = w) → (i < length bt)%nat →
  (∀ v, (i, v) ∈ cells → write_cells cells bt !! i = Some v) ∧
  ((∀ v, (i, v) ∉ cells) → write_cells cells bt !! i = bt !! i).
Proof.
  revert bt. induction cells as [|[j w] cells IH]; intros bt Hag Hi; simpl.
  { split; [by intros v ?%elem_of_nil|done]. }
  unfold write_cells in *. simpl.
  destruct (IH (<[j := w]> bt)) as [Hin Hout].
  { intros v v' Hv Hv'. apply (Hag v v'); by right. }
  { by rewrite length_insert. }
  split.
  - intros v [[= -> ->]|Hv]%elem_of_cons; [|by apply Hin].
    destruct (decide (Exists (λ c, c.1 = j) cells)) as [Hex|Hex].
    + apply Exists_exists in Hex as ([j' v] & Hv & Hj). simpl in Hj. subst j'.
      rewrite (Hin v Hv). f_equal. apply (Hag v w); [by right|by left].
    + rewrite Hout; [by apply list_lookup_insert_eq|]. intros v Hv. apply Hex, Exists_exists. by eexists.
  - intros Hno. rewrite Hout; [|intros v Hv; apply (Hno v); by right].
    apply list_lookup_insert_ne. intros ->. apply (Hno w). by left.
Qed.

(** ** What is emitted *)

Section emitted.
Context (m : StateManager).

(** The state of a live sequence. *)
Definition live (seq : Z) : SeqState := default (new_state [] []) (m_seqs m !! seq).

(** The slot a position resolves to. *)
Definition slot_at (gi : nat) (s : SeqState) (pos : Z) : Z :=
  match page_map_of gi s !! (pos / BLOCK_TOKENS) with
  | Some id => id * BLOCK_TOKENS + pos mod BLOCK_TOKENS
  | None => SLOT_NONE
  end.

(** The positions of a query, and its slots in a group. *)
Definition query_positions (sq : Z * Z) : list Z := seqZ (q_ctx_len (live sq.1)) sq.2.
Definition query_slots (gi : nat) (sq : Z * Z) : list Z := map (slot_at gi (live sq.1)) (query_positions sq).

Definition group_slots (seqs qs : list Z) (gi : nat) (g : LayerGroup) : list Z :=
  if is_paged (g_spec g) then concat (map (query_slots gi) (zip seqs qs))
  else replicate (Z.to_nat (Zsum qs)) SLOT_NONE.

(** The row-major position of a block-table cell. *)
Definition cell_at (n gi si : nat) (b : Z) : nat :=
  Z.to_nat ((Z.of_nat gi * Z.of_nat n + Z.of_nat si) * m_max_blocks m + b).

Definition row_cells (n gi si : nat) (g : LayerGroup) (s : SeqState) : list (nat * Z) :=
  if is_paged (g_spec g) then zip (map (cell_at n gi si) (indices_of gi s)) (table_of gi s) else [].

(** The deltas of the loops, innermost first. *)
Definition id_delta (seq : Z) : Delta :=
  {| d_ids := [seq]; d_ctx := []; d_positions := []; d_slots := []; d_cells := []; d_windows := [] |}.
Definition ctx_delta (want : bool) (sq : Z * Z) : Delta :=
  {| d_ids := []; d_ctx := [q_ctx_len (live sq.1)];
     d_positions := if want then query_positions sq else []; d_slots := []; d_cells := [];
     d_windows := [] |}.
Definition positions_delta (positions : list Z) : Delta :=
  {| d_ids := []; d_ctx := []; d_positions := positions; d_slots := []; d_cells := []; d_windows := [] |}.
Definition slots_delta (slots : list Z) : Delta :=
  {| d_ids := []; d_ctx := []; d_positions := []; d_slots := slots; d_cells := []; d_windows := [] |}.
Definition cells_delta (cells : list (nat * Z)) : Delta :=
  {| d_ids := []; d_ctx := []; d_positions := []; d_slots := []; d_cells := cells; d_windows := [] |}.
Definition row_delta (n gi : nat) (g : LayerGroup) (row : nat * Z) : Delta :=
  {| d_ids := []; d_ctx := []; d_positions := []; d_slots := [];
     d_cells := row_cells n gi row.1 g (live row.2);
     d_windows := [spec_window_start (g_spec g) (q_ctx_len (live row.2))] |}.
Definition group_delta (seqs qs : list Z) (gg : nat * LayerGroup) : Delta :=
  d_app (slots_delta (group_slots seqs qs gg.1 gg.2))
    (d_concat (map (row_delta (length seqs) gg.1 gg.2) (enumerate seqs))).
Definition batch_delta (want : bool) (seqs qs : list Z) : Delta :=
  d_app (d_concat (map id_delta seqs))
    (d_app (d_concat (map (ctx_delta want) (zip seqs qs)))
       (d_concat (map (group_delta seqs qs) (enumerate (m_groups m))))).
End emitted.

Lemma d_concat_mk {A B} (mk : list B → Delta) (f : A → list B) l :
  mk [] = d_empty → (∀ a b, d_app (mk a) (mk b) = mk (a ++ b)) →
  d_concat (map (λ x, mk (f x)) l) = mk (concat (map f l)).
Proof. intros H0 Happ. induction l as [|x l IH]; simpl; [done|]. by rewrite IH, Happ. Qed.

Lemma concat_map_singleton {A B} (f : A → B) l : concat (map (λ x, [f x]) l) = map f l.
Proof. induction l as [|x l IH]; simpl; [done|]. by rewrite IH. Qed.

Lemma zrange_shift lo q : map (λ k, lo + k) (zrange 0 q) = seqZ lo q.
Proof.
  unfold zrange. rewrite Z.sub_0_r. pose proof (fmap_add_seqZ lo 0 q) as H. by rewrite Z.add_0_r in H.
Qed.

Lemma zip_enumerate {A B C} (f : A → C) (l : list A) : ∀ t : list B,
  length t = length l →
  concat (imap (λ i x, match t !! i with Some y => [(f x, y)] | None => [] end) l) = zip (map f l) t.
Proof.
  induction l as [|x l IH]; intros [|y t] Hl; try done. simpl. f_equal. apply IH. simpl in Hl. lia.
Qed.

Section emission.
Context (m : StateManager) (seqs qs : list Z).
Hypothesis Hm : manager_ok m.
Hypothesis Hnd : NoDup seqs.
Hypothesis Hcov : Forall2 (λ seq q, ∃ s, m_seqs m !! seq = Some s ∧ 1 ≤ q ≤ q_tail_len s) seqs qs.

Lemma live_spec seq q :
  (seq, q) ∈ zip seqs qs →
  m_seqs m !! seq = Some (live m seq) ∧ 1 ≤ q ≤ q_tail_len (live m seq) ∧
  seq_ok (m_config m) (m_groups m) (live m seq) ∧ 0 ≤ seq ≤ U32_MAX.
Proof.
  intros (i & (Hx & Hy)%lookup_zip_Some)%list_elem_of_lookup.
  pose proof Hcov as H2. rewrite Forall2_lookup in H2. specialize (H2 i). rewrite Hx, Hy in H2.
  inversion H2 as [? ? (s & Hs & Hq)|]; subst. unfold live. rewrite Hs. simpl.
  destruct Hm as [bpg Hinv]. pose proof (mi_next _ _ Hinv).
  destruct (mi_seqs _ _ Hinv seq s Hs) as [? ?]. split_and!; try done; lia.
Qed.

Lemma live_in seq :
  seq ∈ seqs → m_seqs m !! seq = Some (live m seq) ∧
  seq_ok (m_config m) (m_groups m) (live m seq) ∧ 0 ≤ seq ≤ U32_MAX.
Proof.
  intros (i & Hx)%list_elem_of_lookup. destruct (Forall2_lookup_l _ _ _ _ _ Hcov Hx) as (q & Hq & _).
  destruct (live_spec seq q) as (? & _ & ? & ?); [|done].
  apply list_elem_of_lookup. exists i. by apply lookup_zip_Some.
Qed.

Lemma seq_end_bound seq q :
  (seq, q) ∈ zip seqs qs →
  0 ≤ q_ctx_len (live m seq) ∧ q_ctx_len (live m seq) + q ≤ max_ctx (m_config m) ≤ 2 ^ 20.
Proof.
  intros Hin. destruct (live_spec seq q Hin) as (_ & Hq & Hok & _). destruct Hm as [bpg Hinv].
  pose proof (so_ctx _ _ _ Hok). pose proof (so_end _ _ _ Hok).
  destruct (mi_config _ _ Hinv) as ((_ & ?) & _). unfold MAX_CTX_HARD in *. lia.
Qed.

Lemma live_seqs_bound bpg :
  manager_inv bpg m → Z.of_nat (length seqs) ≤ max_seqs (m_config m).
Proof.
  intros Hinv. destruct (mi_live _ _ Hinv) as [Hl Hle]. rewrite Hl in Hle.
  etrans; [|exact Hle]. rewrite <- size_dom. apply Nat2Z.inj_le.
  rewrite <- (size_list_to_set (C := gset Z) seqs Hnd). apply subseteq_size.
  intros x Hx%elem_of_list_to_set. destruct (live_in x Hx) as [Hs _]. by apply elem_of_dom_2 in Hs.
Qed.

Lemma emit_id_delta seq e : seq ∈ seqs → emit_id seq e = (Ok tt, d_act (id_delta seq) e).
Proof.
  intros Hin. destruct (live_in seq Hin) as (_ & _ & Hr). unfold emit_id.
  rewrite try_from_ok by done. cbn. unfold d_act, push_id. simpl. by rewrite !app_nil_r.
Qed.

Lemma batch_seq_live seq : seq ∈ seqs → batch_seq m seq = Ok (live m seq).
Proof.
  intros Hin. destruct (live_in seq Hin) as (Hs & _). unfold batch_seq, seq_state. by rewrite Hs.
Qed.

Lemma zip_seqs seq q : (seq, q) ∈ zip seqs qs → seq ∈ seqs.
Proof. apply elem_of_zip_l. Qed.

(** A query's positions are pushed one by one. *)
Lemma positions_loop sq e :
  sq ∈ zip seqs qs →
  sfor (λ k,
    let! p := slift (ok_or (checked_add U32_MAX (q_ctx_len (live m sq.1)) k) (Overflow "batch position")) in
    smodify (push_position p)) (zrange 0 sq.2) e = (Ok tt, d_act (positions_delta (query_positions m sq)) e).
Proof.
  intros Hin. destruct sq as [seq q]. pose proof (seq_end_bound seq q Hin) as Hb. simpl.
  unfold query_positions. simpl. rewrite <- (zrange_shift (q_ctx_len (live m seq)) q).
  rewrite <- concat_map_singleton, <- (d_concat_mk positions_delta) by done.
  apply (sfor_delta _ _ (λ _, True)); [done|].
  intros k e' Hk%elem_of_zrange _. split; [|done].
  rewrite checked_add_ok by (unfold U32_MAX; lia). cbn.
  unfold push_position, push_positions, d_act. simpl. by rewrite !app_nil_r.
Qed.

Lemma emit_ctx_delta want sq e :
  sq ∈ zip seqs qs → emit_ctx m want sq e = (Ok tt, d_act (ctx_delta m want sq) e).
Proof.
  intros Hin. pose proof Hin as Hin'. destruct sq as [seq q]. unfold emit_ctx.
  rewrite batch_seq_live by by eapply zip_seqs.
  erewrite sbind_Ok by done. erewrite sbind_Ok by done. destruct want.
  - rewrite (positions_loop (seq, q)) by done. f_equal.
    unfold d_act, push_ctx. simpl. by rewrite !app_nil_r.
  - unfold sret. f_equal. unfold d_act, push_ctx. simpl. by rewrite !app_nil_r.
Qed.

(** The state the group loops run in. *)
Definition ctx_recorded (e : Emitted) : Prop :=
  e_ctx_lens e = map (λ seq, q_ctx_len (live m seq)) seqs.

Lemma emit_seq_slots_delta bpg gi g si sq e :
  manager_inv bpg m → m_groups m !! gi = Some g → is_paged (g_spec g) = true →
  zip seqs qs !! si = Some sq → ctx_recorded e →
  emit_seq_slots m gi (si, sq) e = (Ok tt, d_act (slots_delta (query_slots m gi sq)) e).
Proof.
  intros Hinv Hg Hp Hsi Hctx. destruct sq as [seq q].
  pose proof (list_elem_of_lookup_2 _ _ _ Hsi) as Hin. pose proof (seq_end_bound seq q Hin) as Hb.
  destruct (live_spec seq q Hin) as (Hlive & Hq & Hok & _).
  pose proof Hsi as (Hx & _)%lookup_zip_Some. unfold emit_seq_slots.
  rewrite batch_seq_live by by eapply zip_seqs.
  erewrite sbind_Ok by done. erewrite sbind_Ok by done. unfold ctx_recorded in Hctx.
  rewrite Hctx, list_lookup_fmap, Hx. cbn [fmap option_fmap option_map or_panic].
  erewrite sbind_Ok by done.
  rewrite checked_add_ok by (unfold U32_MAX; lia). erewrite sbind_Ok by done.
  unfold query_slots, query_positions. simpl. rewrite <- (zrange_shift (q_ctx_len (live m seq)) q).
  rewrite map_map, <- concat_map_singleton, <- (d_concat_mk slots_delta) by done.
  apply (sfor_delta _ _ (λ _, True)); [done|].
  intros k e' Hk%elem_of_zrange _. split; [|done].
  rewrite checked_add_ok by (unfold U32_MAX; lia). cbn [ok_or]. erewrite sbind_Ok by done.
  destruct (needed_resolve m seq (live m seq) gi g (q_ctx_len (live m seq) + k) (q_ctx_len (live m seq) + q))
    as (v & Hv & _); [done..| |].
  { destruct (mi_layout _ _ Hinv) as [_ Hl]. destruct (Hl gi g Hg) as [_ [Hu _]].
    apply reserved_needed; [done|lia|lia]. }
  pose proof (flatten_slot_spec bpg m seq _ gi g (q_ctx_len (live m seq) + k)
    (q_ctx_len (live m seq) + q) Hinv Hlive Hg) as Hf.
  rewrite Hv in Hf |- *. cbn. unfold d_act, push_slots, slot_at. simpl.
  destruct (page_map_of gi (live m seq) !! _); [|done]. injection Hf as ->. by rewrite !app_nil_r.
Qed.

Lemma emit_slots_delta bpg gi g plan e :
  manager_inv bpg m → m_groups m !! gi = Some g → bp_total_tokens plan = Zsum qs → ctx_recorded e →
  emit_slots m seqs qs plan gi g e = (Ok tt, d_act (slots_delta (group_slots m seqs qs gi g)) e).
Proof.
  intros Hinv Hg Hplan Hctx. unfold emit_slots, group_slots. destruct (is_paged (g_spec g)) eqn:Hp; simpl.
  - assert (concat (map (query_slots m gi) (zip seqs qs)) =
            concat (map (λ isq, query_slots m gi isq.2) (enumerate (zip seqs qs)))) as ->.
    { f_equal. unfold enumerate. rewrite fmap_imap. apply list_eq. intros i.
      rewrite list_lookup_fmap, list_lookup_imap. by destruct (zip seqs qs !! i). }
    rewrite <- (d_concat_mk slots_delta) by done.
    apply (sfor_delta _ _ ctx_recorded); [done|]. intros [si sq] e' Hin%elem_of_enumerate He'. split.
    + by apply (emit_seq_slots_delta bpg gi g).
    + unfold ctx_recorded, d_act in *. simpl. by rewrite app_nil_r.
  - rewrite Hplan. unfold smodify, d_act, push_slots. simpl. by rewrite !app_nil_r.
Qed.

(** A row: every cell lies inside the table. *)
Definition table_size : Z := Z.of_nat (length (m_groups m)) * Z.of_nat (length seqs) * m_max_blocks m.
Definition table_sized (e : Emitted) : Prop := Z.of_nat (length (e_block_table e)) = table_size.

Lemma cell_bound gi g si b :
  m_groups m !! gi = Some g → (si < length seqs)%nat → 0 ≤ b < m_max_blocks m →
  0 ≤ (Z.of_nat gi * Z.of_nat (length seqs) + Z.of_nat si) * m_max_blocks m + b < table_size.
Proof.
  intros Hg%lookup_lt_Some Hsi Hb. unfold table_size.
  apply row_major_bound; [|done]. apply row_major_bound; lia.
Qed.

Lemma table_size_small : table_size ≤ USIZE_MAX.
Proof.
  destruct Hm as [bpg Hinv]. unfold table_size. rewrite (mi_max_blocks _ _ Hinv).
  pose proof (live_seqs_bound bpg Hinv). destruct (mi_layout _ _ Hinv) as [Hg _].
  destruct (mi_config _ _ Hinv) as (Hc & _ & Hs).
  unfold MAX_CTX_HARD, MAX_GROUPS_HARD, MAX_SEQS_HARD in *.
  assert (0 ≤ max_blocks (m_config m) ≤ 32768) as Hb.
  { unfold max_blocks, BLOCK_TOKENS. split; [apply Z.div_pos; lia|apply Z.div_le_upper_bound; lia]. }
  assert (Z.of_nat (length (m_groups m)) * Z.of_nat (length seqs) ≤ 16 * 65536) by nia.
  unfold USIZE_MAX, U64_MAX. nia.
Qed.

Lemma emit_cell_delta gi g si seq tables at_ idx id e :
  m_groups m !! gi = Some g → (si < length seqs)%nat → 0 ≤ idx < m_max_blocks m →
  tables !! at_ = Some id → table_sized e →
  emit_cell seqs (m_max_blocks m) gi si seq tables (at_, idx) e =
  (Ok tt, d_act (cells_delta [(cell_at m (length seqs) gi si idx, id)]) e).
Proof.
  intros Hg Hsi Hidx Hid He. pose proof (cell_bound gi g si idx Hg Hsi Hidx) as Hb.
  pose proof table_size_small as Hsmall. unfold emit_cell. rewrite Hid. erewrite sbind_Ok by done.
  set (row := Z.of_nat gi * Z.of_nat (length seqs) + Z.of_nat si) in *.
  assert (0 ≤ Z.of_nat gi * Z.of_nat (length seqs) ≤ row ∧ row ≤ row * m_max_blocks m) as [Hr1 Hr2].
  { unfold row. split; [lia|]. nia. }
  rewrite try_from_ok by lia. erewrite sbind_Ok by done.
  destruct (Z.leb_spec (m_max_blocks m) idx); [lia|].
  rewrite checked_mul_ok by lia. cbn [mbind option_bind].
  rewrite checked_add_ok by (fold row; lia). cbn [mbind option_bind]. fold row.
  rewrite checked_mul_ok by lia. cbn [mbind option_bind].
  rewrite checked_add_ok by lia. erewrite sbind_Ok by done. erewrite sbind_Ok by done.
  unfold table_sized in He. destruct (Nat.leb_spec (length (e_block_table e)) (Z.to_nat (row * m_max_blocks m + idx))).
  { lia. }
  unfold smodify, set_block_table, d_act, write_cells, cell_at. fold row. simpl. by rewrite !app_nil_r.
Qed.

Lemma index_bound gi g seq idx :
  m_groups m !! gi = Some g → is_paged (g_spec g) = true → seq ∈ seqs →
  idx ∈ indices_of gi (live m seq) → 0 ≤ idx < m_max_blocks m.
Proof.
  intros Hg Hp Hs Hin. destruct (live_in seq Hs) as (_ & Hok & _). destruct Hm as [bpg Hinv].
  destruct (so_law _ _ _ Hok gi g Hg Hp) as (hw & Hhw & Hiff). apply Hiff in Hin as [? _].
  rewrite (mi_max_blocks _ _ Hinv). lia.
Qed.

Lemma emit_row_delta gi g si seq e :
  m_groups m !! gi = Some g → seqs !! si = Some seq → table_sized e →
  emit_row m seqs (m_max_blocks m) gi g (si, seq) e =
  (Ok tt, d_act (row_delta m (length seqs) gi g (si, seq)) e).
Proof.
  intros Hg Hsi He. pose proof (list_elem_of_lookup_2 _ _ _ Hsi) as Hin.
  unfold emit_row. rewrite batch_seq_live by done. erewrite sbind_Ok by done.
  destruct (live_in seq Hin) as (_ & Hok & _). pose proof (so_shape _ _ _ Hok) as Hsh.
  unfold row_delta, row_cells. simpl. destruct (is_paged (g_spec g)) eqn:Hp.
  2:{ erewrite sbind_Ok by done. unfold smodify, d_act, push_window. simpl. by rewrite !app_nil_r. }
  destruct (shape_table _ _ _ _ Hsh Hg) as [Ht Hi].
  destruct (shape_aligned _ _ _ _ Hsh Hg) as [Hasc Hlen].
  rewrite Hi, Ht.
  assert (sfor (emit_cell seqs (m_max_blocks m) gi si seq (table_of gi (live m seq)))
            (enumerate (indices_of gi (live m seq))) e =
          (Ok tt, d_act (cells_delta (zip (map (cell_at m (length seqs) gi si) (indices_of gi (live m seq)))
                                          (table_of gi (live m seq)))) e)) as Hcells.
  { rewrite <- zip_enumerate by done.
    assert (imap (λ i x, match table_of gi (live m seq) !! i with
                         | Some y => [(cell_at m (length seqs) gi si x, y)] | None => [] end)
              (indices_of gi (live m seq)) =
            map (λ ai, match table_of gi (live m seq) !! ai.1 with
                       | Some y => [(cell_at m (length seqs) gi si ai.2, y)] | None => [] end)
              (enumerate (indices_of gi (live m seq)))) as ->.
    { unfold enumerate. by rewrite fmap_imap. }
    rewrite <- (d_concat_mk cells_delta) by done.
    apply (sfor_delta _ _ table_sized); [done|]. intros [at_ idx] e' Hai%elem_of_enumerate He'.
    destruct (lookup_lt_is_Some_2 (table_of gi (live m seq)) at_) as [id Hid].
    { apply lookup_lt_Some in Hai. lia. }
    cbn [fst snd]. rewrite Hid. split.
    - apply (emit_cell_delta gi g); try done; [by eapply lookup_lt_Some|].
      apply (index_bound gi g seq); try done. by eapply list_elem_of_lookup_2.
    - unfold table_sized, d_act in *. simpl. by rewrite length_insert. }
  erewrite sbind_Ok; cycle 1.
  { do 2 erewrite sbind_Ok by done. exact Hcells. }
  unfold smodify, d_act, push_window. simpl. by rewrite !app_nil_r.
Qed.

Lemma emit_group_delta bpg gi g plan e :
  manager_inv bpg m → m_groups m !! gi = Some g → bp_total_tokens plan = Zsum qs →
  ctx_recorded e → table_sized e →
  emit_group m seqs qs plan (m_max_blocks m) (gi, g) e = (Ok tt, d_act (group_delta m seqs qs (gi, g)) e).
Proof.
  intros Hinv Hg Hplan Hctx He. unfold emit_group, group_delta. simpl. rewrite d_act_app.
  erewrite sbind_Ok by by eapply emit_slots_delta.
  apply (sfor_delta _ _ table_sized); [done|].
  intros [si seq] e' Hin%elem_of_enumerate He'. split; [by apply emit_row_delta|].
  unfold table_sized, d_act in *. simpl. by rewrite write_cells_length.
Qed.

(** The whole emission, from cleared buffers. *)
Lemma emit_batch_delta want plan :
  bp_total_tokens plan = Zsum qs →
  emit_batch_into m seqs qs plan want (empty_emitted table_size) =
  (Ok tt, d_act (batch_delta m want seqs qs) (empty_emitted table_size)).
Proof.
  intros Hplan. destruct Hm as [bpg Hinv]. unfold emit_batch_into, batch_delta. rewrite !d_act_app.
  set (e0 := empty_emitted table_size).
  assert (e_ctx_lens e0 = [] ∧ table_sized e0) as [Hc0 Ht0].
  { split; [done|]. unfold table_sized, e0, empty_emitted, table_size. simpl. rewrite length_replicate.
    rewrite (mi_max_blocks _ _ Hinv). rewrite Z2Nat.id; [done|].
    unfold max_blocks. destruct (mi_config _ _ Hinv) as (Hc & _ & _).
    pose proof (Z.div_pos (max_ctx (m_config m)) BLOCK_TOKENS ltac:(lia) ltac:(done)). nia. }
  destruct (sfor_delta emit_id id_delta (λ e, e_ctx_lens e = [] ∧ table_sized e) seqs e0) as [H1 [Hc1 Ht1]].
  { done. }
  { intros seq e Hin [? ?]. split; [by apply emit_id_delta|]. unfold table_sized, d_act in *. simpl.
    by rewrite app_nil_r. }
  erewrite sbind_Ok by exact H1. set (e1 := d_act _ e0) in *. clearbody e1.
  destruct (sfor_delta (emit_ctx m want) (ctx_delta m want) table_sized (zip seqs qs) e1) as [H2 Ht2].
  { done. }
  { intros sq e Hin He. split; [by apply emit_ctx_delta|]. done. }
  erewrite sbind_Ok by exact H2. set (e2 := d_act _ e1) in *.
  assert (ctx_recorded e2) as Hc2.
  { unfold ctx_recorded, e2, d_act. simpl. rewrite Hc1, (d_concat_field d_ctx) by done. simpl.
    rewrite map_map. simpl. rewrite concat_map_singleton.
    rewrite <- (fst_zip seqs qs) at 2 by (by apply Forall2_length in Hcov; lia).
    by rewrite <- list_fmap_compose. }
  apply (sfor_delta _ _ (λ e, ctx_recorded e ∧ table_sized e)); [done|].
  intros [gi g] e Hin%elem_of_enumerate [? ?]. split; [by eapply emit_group_delta|].
  split.
  - unfold ctx_recorded, d_act in *. simpl.
    rewrite (d_concat_field d_ctx), map_map by done. simpl.
    replace (concat (map _ _)) with (@nil Z); [by rewrite app_nil_r|].
    symmetry. apply concat_map_nil. done.
  - unfold table_sized, d_act in *. simpl. by rewrite write_cells_length.
Qed.
End emission.

(** ** The emitted tensors, entry by entry *)

Lemma concat_lookup {A} (ls : list (list A)) i l k :
  ls !! i = Some l → (k < length l)%nat → concat ls !! (sum_list_with length (take i ls) + k)%nat = l !! k.
Proof.
  revert i. induction ls as [|l' ls IH]; intros [|i] Hi Hk; try done; simpl in *.
  - injection Hi as ->. by rewrite lookup_app_l.
  - rewrite lookup_app_r by lia. rewrite <- (IH i) by done. f_equal. lia.
Qed.

Lemma concat_length {A} (ls : list (list A)) : length (concat ls) = sum_list_with length ls.
Proof. rewrite length_concat. induction ls as [|l ls IH]; simpl; [done|]. by rewrite IH. Qed.

Lemma sum_rows {A} (w : nat) (ls : list (list A)) i :
  Forall (λ l, length l = w) ls → (i ≤ length ls)%nat → sum_list_with length (take i ls) = (i * w)%nat.
Proof.
  intros H. revert i. induction H as [|l ls Hl _ IH]; intros [|i] Hi; simpl in *; [lia..|].
  rewrite IH by lia. lia.
Qed.

Lemma sum_lengths {A B} (f : A → list B) (w : A → Z) l :
  (∀ x, x ∈ l → Z.of_nat (length (f x)) = w x) →
  Z.of_nat (sum_list_with length (map f l)) = Zsum (map w l).
Proof.
  induction l as [|x l IH]; intros H; [done|]. simpl.
  rewrite Nat2Z.inj_add, H, IH by set_solver. done.
Qed.

Lemma row_major_unique i i' j j' w :
  0 ≤ j < w → 0 ≤ j' < w → i * w + j = i' * w + j' → i = i' ∧ j = j'.
Proof. intros. assert (i = i') as -> by nia. split; lia. Qed.

Section tensors.
Context (m : StateManager) (seqs qs : list Z) (want : bool).
Hypothesis Hm : manager_ok m.
Hypothesis Hnd : NoDup seqs.
Hypothesis Hcov : Forall2 (λ seq q, ∃ s, m_seqs m !! seq = Some s ∧ 1 ≤ q ≤ q_tail_len s) seqs qs.

Let emitted := d_act (batch_delta m want seqs qs) (empty_emitted (table_size m seqs)).

Lemma group_fields {A} (field : Delta → list A) :
  field d_empty = [] → (∀ a b, field (d_app a b) = field a ++ field b) →
  field (batch_delta m want seqs qs) =
    concat (map (field ∘ id_delta) seqs) ++ concat (map (field ∘ ctx_delta m want) (zip seqs qs)) ++
    concat (map (λ gg, field (slots_delta (group_slots m seqs qs gg.1 gg.2)) ++
                       concat (map (field ∘ row_delta m (length seqs) gg.1 gg.2) (enumerate seqs)))
              (enumerate (m_groups m))).
Proof.
  intros H0 Happ. unfold batch_delta. rewrite !Happ, !(d_concat_field field) by done.
  rewrite !map_map. do 2 f_equal. f_equal. apply map_ext. intros gg. unfold group_delta.
  by rewrite Happ, (d_concat_field field), map_map by done.
Qed.

Lemma concat_nils {A B} (f : A → list B) l : (∀ x, f x = []) → concat (map f l) = [].
Proof. intros H. apply concat_map_nil. auto. Qed.

Lemma zip_fst : (zip seqs qs).*1 = seqs.
Proof. apply fst_zip. apply Forall2_length in Hcov. lia. Qed.
Lemma zip_snd : (zip seqs qs).*2 = qs.
Proof. apply snd_zip. apply Forall2_length in Hcov. lia. Qed.

Lemma emitted_ids : e_seq_ids emitted = seqs.
Proof.
  unfold emitted, d_act, empty_emitted. cbn [e_seq_ids e_ctx_lens e_positions e_slot_map e_block_table e_window_start app].
  rewrite (group_fields d_ids) by done. unfold compose. simpl.
  rewrite concat_map_singleton, map_id, !concat_nils, app_nil_r; [done| |done].
  intros gg. by rewrite concat_nils.
Qed.

Lemma emitted_ctx : e_ctx_lens emitted = map (λ seq, q_ctx_len (live m seq)) seqs.
Proof.
  unfold emitted, d_act, empty_emitted. cbn [e_seq_ids e_ctx_lens e_positions e_slot_map e_block_table e_window_start app].
  rewrite (group_fields d_ctx) by done. unfold compose. simpl.
  rewrite concat_nils by done. rewrite concat_map_singleton, (concat_nils _ (enumerate (m_groups m))), app_nil_r.
  2:{ intros gg. by rewrite concat_nils. }
  rewrite <- zip_fst at 2. by rewrite <- list_fmap_compose.
Qed.

Lemma emitted_positions :
  e_positions emitted = if want then concat (map (query_positions m) (zip seqs qs)) else [].
Proof.
  unfold emitted, d_act, empty_emitted. cbn [e_seq_ids e_ctx_lens e_positions e_slot_map e_block_table e_window_start app].
  rewrite (group_fields d_positions) by done. unfold compose. simpl.
  rewrite concat_nils by done. rewrite (concat_nils _ (enumerate (m_groups m))), app_nil_r.
  2:{ intros gg. by rewrite concat_nils. }
  destruct want; [done|]. by rewrite concat_nils.
Qed.

Lemma emitted_slots :
  e_slot_map emitted = concat (map (λ gg, group_slots m seqs qs gg.1 gg.2) (enumerate (m_groups m))).
Proof.
  unfold emitted, d_act, empty_emitted. cbn [e_seq_ids e_ctx_lens e_positions e_slot_map e_block_table e_window_start app].
  rewrite (group_fields d_slots) by done. unfold compose. simpl.
  rewrite !concat_nils by done. simpl. f_equal. apply map_ext. intros gg.
  by rewrite concat_nils, app_nil_r.
Qed.

Lemma emitted_windows :
  e_window_start emitted =
  concat (map (λ gg, map (λ seq, spec_window_start (g_spec gg.2) (q_ctx_len (live m seq))) seqs)
            (enumerate (m_groups m))).
Proof.
  unfold emitted, d_act, empty_emitted. cbn [e_seq_ids e_ctx_lens e_positions e_slot_map e_block_table e_window_start app].
  rewrite (group_fields d_windows) by done. unfold compose. simpl.
  rewrite !concat_nils by done. simpl. f_equal. apply map_ext. intros gg.
  rewrite concat_map_singleton. unfold enumerate. rewrite fmap_imap.
  apply list_eq. intros i. rewrite list_lookup_imap, list_lookup_fmap. done.
Qed.

Lemma emitted_cells :
  e_block_table emitted =
  write_cells (concat (map (λ gg, concat (map (λ row, row_cells m (length seqs) gg.1 row.1 gg.2 (live m row.2))
                                             (enumerate seqs))) (enumerate (m_groups m))))
    (replicate (Z.to_nat (table_size m seqs)) BLOCK_TABLE_SENTINEL).
Proof.
  unfold emitted, d_act, empty_emitted. cbn [e_seq_ids e_ctx_lens e_positions e_slot_map e_block_table e_window_start app].
  rewrite (group_fields d_cells) by done. unfold compose. simpl.
  by do 2 rewrite concat_nils by done.
Qed.

(** Queries are as long as they say, and so are the rows of the slot map. *)
Lemma query_slots_length gi sq : sq ∈ zip seqs qs → Z.of_nat (length (query_slots m gi sq)) = sq.2.
Proof.
  intros Hin. destruct sq as [seq q]. destruct (live_spec m seqs qs Hm Hcov seq q Hin) as (_ & Hq & _).
  unfold query_slots, query_positions. rewrite length_map, length_seqZ. simpl. lia.
Qed.

Lemma query_prefix gi si :
  Z.of_nat (sum_list_with length (take si (map (query_slots m gi) (zip seqs qs)))) = seq_begin qs si.
Proof.
  unfold seq_begin. rewrite firstn_map, (sum_lengths _ snd).
  - rewrite <- zip_snd at 2. by rewrite <- fmap_take.
  - intros sq Hin. apply query_slots_length. by eapply subseteq_take.
Qed.

Lemma queries_nonneg : Forall (λ x, 0 ≤ x) qs.
Proof.
  apply Forall_lookup. intros i q Hq. destruct (Forall2_lookup_r _ _ _ _ _ Hcov Hq) as (? & _ & s & _ & ?). lia.
Qed.

Lemma query_bound si q k :
  qs !! si = Some q → 0 ≤ k < q → 0 ≤ seq_begin qs si + k < Zsum qs.
Proof.
  intros Hq Hk. pose proof queries_nonneg as Hnn.
  assert (Zsum qs = seq_begin qs si + (q + Zsum (drop (S si) qs))) as ->.
  { unfold seq_begin. rewrite <- (take_drop_middle qs si q Hq) at 1. by rewrite Zsum_app. }
  pose proof (Zsum_pos (take si qs) (Forall_take _ _ _ Hnn)).
  pose proof (Zsum_pos (drop (S si) qs) (Forall_drop _ _ _ Hnn)). unfold seq_begin in *. lia.
Qed.

Lemma group_slots_length gi g : Z.of_nat (length (group_slots m seqs qs gi g)) = Zsum qs.
Proof.
  pose proof (Zsum_pos qs queries_nonneg). unfold group_slots. destruct (is_paged (g_spec g)).
  - pose proof (query_prefix gi (length (zip seqs qs))) as Hp.
    rewrite take_ge in Hp by (by rewrite length_map). rewrite concat_length, Hp. unfold seq_begin.
    rewrite take_ge; [done|]. rewrite <- zip_snd at 1. by rewrite length_fmap.
  - rewrite length_replicate. lia.
Qed.

Lemma query_at si seq q :
  seqs !! si = Some seq → qs !! si = Some q →
  zip seqs qs !! si = Some (seq, q).
Proof. intros. by apply lookup_zip_Some. Qed.

Lemma enumerate_rows {A} (f : nat * LayerGroup → list A) gi g :
  m_groups m !! gi = Some g → map f (enumerate (m_groups m)) !! gi = Some (f (gi, g)).
Proof.
  intros Hg. rewrite list_lookup_fmap. unfold enumerate. rewrite list_lookup_imap, Hg. done.
Qed.

(** The entry of a row-major table whose rows have one length. *)
Lemma row_lookup {A} (f : nat * LayerGroup → list A) (w : Z) gi g k :
  m_groups m !! gi = Some g → (∀ gg, Z.of_nat (length (f gg)) = w) → 0 ≤ k < w →
  concat (map f (enumerate (m_groups m))) !! Z.to_nat (Z.of_nat gi * w + k) = f (gi, g) !! Z.to_nat k.
Proof.
  intros Hg Hw Hk. pose proof (Hw (gi, g)).
  rewrite <- (concat_lookup (map f (enumerate (m_groups m))) gi (f (gi, g)) (Z.to_nat k)); [| |lia].
  2:{ by apply enumerate_rows. }
  f_equal. rewrite (sum_rows (Z.to_nat w)).
  - nia.
  - apply Forall_forall. intros l (gg & <- & _)%list_elem_of_In%in_map_iff. specialize (Hw gg). lia.
  - rewrite length_map. unfold enumerate. rewrite length_imap. apply lookup_lt_Some in Hg. lia.
Qed.

Lemma emitted_slot gi g si seq q k :
  m_groups m !! gi = Some g → seqs !! si = Some seq → qs !! si = Some q → 0 ≤ k < q →
  e_slot_map emitted !! Z.to_nat (Z.of_nat gi * Zsum qs + (seq_begin qs si + k)) =
  Some (if is_paged (g_spec g) then slot_at gi (live m seq) (q_ctx_len (live m seq) + k) else SLOT_NONE).
Proof.
  intros Hg Hs Hq Hk. pose proof (query_at si seq q Hs Hq) as Hz.
  pose proof (query_prefix gi si) as Hpre. pose proof (query_slots_length gi (seq, q)
    (list_elem_of_lookup_2 _ _ _ Hz)) as Hlen. simpl in Hlen.
  assert (map (query_slots m gi) (zip seqs qs) !! si = Some (query_slots m gi (seq, q))) as Hrow.
  { by rewrite list_lookup_fmap, Hz. }
  pose proof (query_bound si q k Hq Hk) as Hb.
  rewrite emitted_slots, (row_lookup (λ gg, group_slots m seqs qs gg.1 gg.2) (Zsum qs) gi g _ Hg);
    [|intros; apply group_slots_length|done].
  cbn [fst snd]. unfold group_slots. destruct (is_paged (g_spec g)).
  - replace (Z.to_nat (seq_begin qs si + k)) with
      (sum_list_with length (take si (map (query_slots m gi) (zip seqs qs))) + Z.to_nat k)%nat by lia.
    rewrite (concat_lookup _ si (query_slots m gi (seq, q))) by (done || lia).
    unfold query_slots, query_positions. rewrite list_lookup_fmap. simpl.
    rewrite lookup_seqZ_lt by lia. simpl. by rewrite Z2Nat.id by lia.
  - apply lookup_replicate. split; [done|lia].
Qed.

Lemma emitted_window gi g si seq :
  m_groups m !! gi = Some g → seqs !! si = Some seq →
  e_window_start emitted !! Z.to_nat (Z.of_nat gi * Z.of_nat (length seqs) + Z.of_nat si) =
  Some (spec_window_start (g_spec g) (q_ctx_len (live m seq))).
Proof.
  intros Hg Hs. pose proof (lookup_lt_Some _ _ _ Hs).
  rewrite emitted_windows, (row_lookup (λ gg, map (λ seq, spec_window_start (g_spec gg.2) (q_ctx_len (live m seq))) seqs)
    (Z.of_nat (length seqs)) gi g _ Hg); [|intros; by rewrite length_map|lia].
  rewrite Nat2Z.id, list_lookup_fmap, Hs. done.
Qed.

(** The writes of the block table: one per mapped block of a paged group. *)
Lemma cell_written c v :
  (c, v) ∈ concat (map (λ gg, concat (map (λ row, row_cells m (length seqs) gg.1 row.1 gg.2 (live m row.2))
                                         (enumerate seqs))) (enumerate (m_groups m))) ↔
  ∃ gi g si seq b, m_groups m !! gi = Some g ∧ is_paged (g_spec g) = true ∧ seqs !! si = Some seq ∧
    page_map_of gi (live m seq) !! b = Some v ∧ 0 ≤ b < m_max_blocks m ∧ c = cell_at m (length seqs) gi si b.
Proof.
  rewrite elem_of_concat_map. setoid_rewrite elem_of_concat_map. split.
  - intros ([gi g] & Hg%elem_of_enumerate & [si seq] & Hs%elem_of_enumerate & Hin). simpl in Hin.
    unfold row_cells in Hin. destruct (is_paged (g_spec g)) eqn:Hp; [|by apply elem_of_nil in Hin].
    apply list_elem_of_lookup in Hin as (k & (Hk & Hv)%lookup_zip_Some).
    rewrite list_lookup_fmap in Hk. destruct (indices_of gi (live m seq) !! k) as [b|] eqn:Hb; [|done].
    injection Hk as <-. exists gi, g, si, seq, b. split_and!; try done.
    2,3: by eapply (index_bound m seqs qs Hm Hcov gi g seq); try done; eapply list_elem_of_lookup_2.
    destruct (live_in m seqs qs Hm Hcov seq (list_elem_of_lookup_2 _ _ _ Hs)) as (_ & Hok & _).
    apply page_map_lookup; [by eapply shape_aligned; [apply (so_shape _ _ _ Hok)|]|]. by exists k.
  - intros (gi & g & si & seq & b & Hg & Hp & Hs & Hv & _ & ->).
    exists (gi, g). split; [by apply elem_of_enumerate|]. exists (si, seq).
    split; [by apply elem_of_enumerate|]. unfold row_cells. simpl. rewrite Hp.
    destruct (live_in m seqs qs Hm Hcov seq (list_elem_of_lookup_2 _ _ _ Hs)) as (_ & Hok & _).
    apply page_map_lookup in Hv; [|by eapply shape_aligned; [apply (so_shape _ _ _ Hok)|]].
    destruct Hv as (k & Hk & Hv).
    apply list_elem_of_lookup. exists k. apply lookup_zip_Some. split; [|done].
    by rewrite list_lookup_fmap, Hk.
Qed.

Lemma cell_injective gi g si seq b gi' g' si' seq' b' :
  m_groups m !! gi = Some g → m_groups m !! gi' = Some g' →
  seqs !! si = Some seq → seqs !! si' = Some seq' →
  0 ≤ b < m_max_blocks m → 0 ≤ b' < m_max_blocks m →
  cell_at m (length seqs) gi si b = cell_at m (length seqs) gi' si' b' → gi = gi' ∧ si = si' ∧ b = b'.
Proof.
  intros Hg Hg' Hs Hs' Hb Hb' Heq.
  pose proof (lookup_lt_Some _ _ _ Hs). pose proof (lookup_lt_Some _ _ _ Hs').
  pose proof (cell_bound m seqs gi g si b Hg ltac:(done) Hb).
  pose proof (cell_bound m seqs gi' g' si' b' Hg' ltac:(done) Hb').
  unfold cell_at in Heq. apply Z2Nat.inj in Heq; [|lia..].
  apply row_major_unique in Heq as [Heq ->]; [|lia..].
  apply row_major_unique in Heq as [? ?]; lia.
Qed.

Lemma emitted_cell gi g si seq b :
  m_groups m !! gi = Some g → seqs !! si = Some seq → 0 ≤ b < m_max_blocks m →
  e_block_table emitted !! cell_at m (length seqs) gi si b =
  Some (default BLOCK_TABLE_SENTINEL
          (if is_paged (g_spec g) then page_map_of gi (live m seq) !! b else None)).
Proof.
  intros Hg Hs Hb. rewrite emitted_cells.
  pose proof (cell_bound m seqs gi g si b Hg (lookup_lt_Some _ _ _ Hs) Hb) as Hbound.
  assert (∀ v, (cell_at m (length seqs) gi si b, v) ∈ concat (map (λ gg, concat (map (λ row,
    row_cells m (length seqs) gg.1 row.1 gg.2 (live m row.2)) (enumerate seqs))) (enumerate (m_groups m))) ↔
    is_paged (g_spec g) = true ∧ page_map_of gi (live m seq) !! b = Some v) as Hw.
  { intros v. rewrite cell_written. split.
    - intros (gi' & g' & si' & seq' & b' & Hg' & Hp & Hs' & Hv & Hb' & Heq).
      destruct (cell_injective _ _ _ _ _ _ _ _ _ _ Hg Hg' Hs Hs' Hb Hb' Heq) as (<- & <- & <-).
      by simplify_eq.
    - intros [? ?]. by exists gi, g, si, seq, b. }
  edestruct (write_cells_lookup (concat (map (λ gg, concat (map (λ row,
    row_cells m (length seqs) gg.1 row.1 gg.2 (live m row.2)) (enumerate seqs))) (enumerate (m_groups m))))
    (replicate (Z.to_nat (table_size m seqs)) BLOCK_TABLE_SENTINEL) (cell_at m (length seqs) gi si b)) as [Hyes Hno].
  { intros v w [_ Hv]%Hw [_ Hw']%Hw. congruence. }
  { rewrite length_replicate. unfold cell_at. lia. }
  destruct (is_paged (g_spec g)) eqn:Hp; [destruct (page_map_of gi (live m seq) !! b) as [v|] eqn:Hv|].
  - apply Hyes. by apply Hw.
  - rewrite Hno by (intros v [_ ?]%Hw; congruence). apply lookup_replicate. unfold cell_at. split; [done|lia].
  - rewrite Hno by (intros v [? _]%Hw; congruence). apply lookup_replicate. unfold cell_at. split; [done|lia].
Qed.

(** The lengths the builder checks. *)
Lemma rows_length {A} (f : nat * LayerGroup → list A) (w : Z) :
  (∀ gg, Z.of_nat (length (f gg)) = w) →
  Z.of_nat (length (concat (map f (enumerate (m_groups m))))) = Z.of_nat (length (m_groups m)) * w.
Proof.
  intros Hw. rewrite concat_length, (sum_lengths f (λ _, w)) by auto.
  unfold enumerate. rewrite <- (length_imap pair (m_groups m)).
  induction (imap pair (m_groups m)) as [|gg l IH]; simpl; [done|].
  change (Zsum (w :: ?l)) with (w + Zsum l). rewrite IH. lia.
Qed.

Lemma emitted_lengths :
  Z.of_nat (length (e_slot_map emitted)) = Z.of_nat (length (m_groups m)) * Zsum qs ∧
  Z.of_nat (length (e_block_table emitted)) = table_size m seqs ∧
  Z.of_nat (length (e_window_start emitted)) = Z.of_nat (length (m_groups m)) * Z.of_nat (length seqs) ∧
  length (e_ctx_lens emitted) = length seqs ∧
  (want = true → Z.of_nat (length (e_positions emitted)) = Zsum qs).
Proof.
  rewrite emitted_slots, emitted_windows, emitted_cells, emitted_ctx, emitted_positions.
  rewrite write_cells_length, length_replicate, length_map.
  rewrite (rows_length _ (Zsum qs)) by (intros; apply group_slots_length).
  rewrite (rows_length _ (Z.of_nat (length seqs))) by (intros; by rewrite length_map).
  split_and!; try done.
  - unfold table_size. destruct Hm as [bpg Hinv]. rewrite (mi_max_blocks _ _ Hinv).
    destruct (mi_config _ _ Hinv) as (Hc & _ & _).
    pose proof (Z.div_pos (max_ctx (m_config m)) BLOCK_TOKENS ltac:(lia) ltac:(done)).
    unfold max_blocks. nia.
  - intros ->. rewrite concat_length, (sum_lengths (query_positions m) snd).
    + by rewrite <- zip_snd at 2.
    + intros [seq q] Hin. destruct (live_spec m seqs qs Hm Hcov seq q Hin) as (_ & Hq & _).
      unfold query_positions. rewrite length_seqZ. simpl. lia.
Qed.
End tensors.
