(* ===== verification/BatchSpec.v ===== *)
(** * Batch metadata: the owned builder and the fill paths

    What [batch_meta_with_options] returns, value by value, and that the
    caller-owned fill paths of [crates/r9v-state/src/manager.rs] put the same
    tensors into the workspace, keep its capacities and leave it alone when
    they refuse. *)

From S2P Require Import Prelude Errors Spec Table Pools Manager Invariant Construct Reserve Admission Commit Slots Tree Batch Workspace Emit.

#[global] Open Scope Z_scope.

(** ** What the owned builder accepts *)

Definition positions_fit (qs : list Z) (positions : option Positions) : Prop :=
  ∀ p, positions = Some p → positions_len p = Zsum qs.
Definition tree_rules (qs : list Z) (tree : option TreeMask) : Prop :=
  ∀ t, tree = Some t → tree_fits (Zsum qs) qs t.

Record batch_accepted (m : StateManager) (seqs qs : list Z) (positions : option Positions)
    (tree : option TreeMask) : Prop := {
  ba_groups : m_groups m ≠ [];
  ba_coherent : coherent_batch m seqs qs;
  ba_positions : positions_fit qs positions;
  ba_tree : tree_rules qs tree
}.

(** The values of the tensors: the page maps of the sequences, row-major. *)
Record describes (m : StateManager) (seqs qs : list Z) (positions : option Positions)
    (tree : option TreeMask) (bm : BatchMeta) : Prop := {
  de_dims : bm_g bm = Z.of_nat (length (m_groups m)) ∧ bm_s bm = Z.of_nat (length seqs) ∧
    bm_t bm = Zsum qs ∧ bm_max_blocks bm = m_max_blocks m;
  de_rows : bm_seq_ids bm = seqs ∧ bm_query_len bm = qs ∧ bm_tree bm = tree ∧
    bm_ctx_len bm = map (λ seq, q_ctx_len (live m seq)) seqs;
  de_positions : bm_positions bm =
    default (PerToken (concat (map (query_positions m) (zip seqs qs)))) positions;
  de_slot gi g si seq q k :
    m_groups m !! gi = Some g → seqs !! si = Some seq → qs !! si = Some q → 0 ≤ k < q →
    meta_slot (Z.of_nat gi) (seq_begin qs si + k) bm =
    Ok (if is_paged (g_spec g) then slot_at gi (live m seq) (q_ctx_len (live m seq) + k) else SLOT_NONE);
  de_block gi g si seq b :
    m_groups m !! gi = Some g → seqs !! si = Some seq → 0 ≤ b < m_max_blocks m →
    meta_block (Z.of_nat gi) (Z.of_nat si) b bm =
    Ok (default BLOCK_TABLE_SENTINEL (if is_paged (g_spec g) then page_map_of gi (live m seq) !! b else None));
  de_window gi g si seq :
    m_groups m !! gi = Some g → seqs !! si = Some seq →
    meta_window (Z.of_nat gi) (Z.of_nat si) bm = Ok (spec_window_start (g_spec g) (q_ctx_len (live m seq)))
}.

(** The machine widths of the arguments. *)
Definition batch_u32 (qs : list Z) (tree : option TreeMask) : Prop :=
  Forall is_u32 qs ∧ ∀ t, tree = Some t → is_u32 (t_max t).

Section owned.
Context (m : StateManager) (seqs qs : list Z).
Hypothesis Hm : manager_ok m.
Hypothesis Hco : coherent_batch m seqs qs.

Lemma batch_bounds :
  0 ≤ Z.of_nat (length (m_groups m)) ≤ 16 ∧ 0 < Z.of_nat (length seqs) ≤ 65536 ∧
  0 < Zsum qs ≤ 2 ^ 20 ∧ 0 < m_max_blocks m ≤ 32768.
Proof.
  destruct Hco as [Hl Hne Hnd Hcov Htot]. destruct Hm as [bpg Hinv].
  pose proof (live_seqs_bound m seqs qs Hm Hnd Hcov bpg Hinv).
  destruct (mi_layout _ _ Hinv) as [Hg _]. destruct (mi_config _ _ Hinv) as (Hc & Hmod & Hs).
  rewrite (mi_max_blocks _ _ Hinv). unfold MAX_CTX_HARD, MAX_GROUPS_HARD, MAX_SEQS_HARD, MAX_BATCH_TOKENS_HARD in *.
  assert (length seqs ≠ 0%nat) by (by destruct seqs).
  split; [lia|]. split; [lia|]. split.
  - split; [|done]. destruct Hcov as [|seq q seqs' qs' (s & _ & ?) Hcov']; [done|].
    pose proof (Zsum_pos qs' (queries_nonneg m seqs' qs' Hcov')) as Hp.
    change (Zsum (q :: qs')) with (q + Zsum qs'). lia.
  - unfold max_blocks, BLOCK_TOKENS in *. split; [|apply Z.div_le_upper_bound; lia].
    apply Z.div_str_pos. pose proof (Z.div_mod (max_ctx (m_config m)) 32 ltac:(lia)). lia.
Qed.

Lemma flat_sizes_ok :
  flat_sizes m (Z.of_nat (length seqs)) (Zsum qs) =
  Ok (Z.of_nat (length (m_groups m)) * Zsum qs, table_size m seqs,
      Z.of_nat (length (m_groups m)) * Z.of_nat (length seqs)).
Proof.
  pose proof batch_bounds as (Hg & Hs & Ht & Hb). unfold flat_sizes, table_size.
  assert (Z.of_nat (length (m_groups m)) * Z.of_nat (length seqs) ≤ 16 * 65536) by nia.
  assert (Z.of_nat (length (m_groups m)) * Zsum qs ≤ 16 * 2 ^ 20) by nia.
  assert (Z.of_nat (length (m_groups m)) * Z.of_nat (length seqs) * m_max_blocks m ≤ 16 * 65536 * 32768) by nia.
  rewrite !checked_mul_ok by (unfold USIZE_MAX, U64_MAX; lia). simpl.
  rewrite checked_mul_ok by (unfold USIZE_MAX, U64_MAX; lia). done.
Qed.

Definition emitted_batch (want : bool) : Emitted :=
  d_act (batch_delta m want seqs qs) (empty_emitted (table_size m seqs)).

Lemma emit_ok want :
  emit_batch_into m seqs qs {| bp_total_tokens := Zsum qs; bp_total_u64 := Zsum qs |} want
    (empty_emitted (table_size m seqs)) = (Ok tt, emitted_batch want).
Proof. destruct Hco as [_ _ Hnd Hcov _]. by apply emit_batch_delta. Qed.

(** The builder as [batch_meta_with_options] fills it. *)
Definition batch_builder (positions : option Positions) (tree : option TreeMask) : BatchMetaBuilder :=
  let e := emitted_batch true in
  {| b_g := Z.of_nat (length (m_groups m)); b_s := Z.of_nat (length seqs); b_t := Zsum qs;
     b_max_blocks := m_max_blocks m; b_seq_ids := Some (e_seq_ids e); b_query_len := Some qs;
     b_ctx_len := Some (e_ctx_lens e); b_positions := Some (default (PerToken (e_positions e)) positions);
     b_slot_map := Some (e_slot_map e); b_block_table := Some (e_block_table e);
     b_window_start := Some (e_window_start e); b_tree := tree |}.

Lemma batch_builder_u32 positions tree : batch_u32 qs tree → builder_u32 (batch_builder positions tree).
Proof.
  intros [Hq Ht]. pose proof batch_bounds as (Hg & Hs & HT & Hb). unfold builder_u32, batch_builder, is_u32, U32_MAX in *.
  simpl. split_and!; try lia; [by intros q [= <-]|done].
Qed.

Lemma batch_builder_ok positions tree :
  positions_fit qs positions → (∀ t, tree = Some t → Z.of_nat (tree_t t) = Zsum qs) →
  ¬ overruns (batch_builder positions tree) ∧
  (builder_ok (batch_builder positions tree) ↔ m_groups m ≠ [] ∧ tree_rules qs tree).
Proof.
  intros Hpos Htree. pose proof batch_bounds as (Hg & Hs & HT & Hb).
  destruct Hco as [Hl Hne Hnd Hcov Htot].
  destruct (emitted_lengths m seqs qs true Hm Hcov) as (L1 & L2 & L3 & L4 & L5).
  split.
  { intros (q & t & [= <-] & _ & _ & _ & Hlt). simpl in Hlt. lia. }
  pose proof flat_sizes_ok as Hfl. unfold flat_sizes in Hfl.
  split.
  - intros [Hd _ _ _ _ _ _ _ _ Ht]. simpl in Hd, Ht. split.
    + intros Hnil. rewrite Hnil in Hd. simpl in Hd. lia.
    + intros t Heq. by apply Ht.
  - intros [Hgr Htr]. unfold batch_builder, emitted_batch, table_size in *.
    assert (length (m_groups m) ≠ 0%nat) by (by destruct (m_groups m)).
    assert (∀ v n, Z.of_nat (length v) = n → n ≤ 2 ^ 40 → fits (Some v) n) as Hfit.
    { intros v n Hv Hn. exists v. split_and!; [done..|]. unfold USIZE_MAX, U64_MAX. lia. }
    assert (Z.of_nat (length (m_groups m)) * Z.of_nat (length seqs) ≤ 16 * 65536) by nia.
    split; cbn [b_g b_s b_t b_max_blocks b_seq_ids b_query_len b_ctx_len b_positions b_slot_map b_block_table b_window_start b_tree].
    + lia.
    + apply Hfit; [|lia]. by rewrite emitted_ids.
    + apply Hfit; lia.
    + apply Hfit; lia.
    + apply Hfit; [done|nia].
    + apply Hfit; [done|nia].
    + apply Hfit; [done|lia].
    + eexists. split; [done|]. destruct positions as [p|]; simpl; [by apply Hpos|by apply L5].
    + intros q [= <-]. split; [|done]. apply Forall_lookup. intros i q Hq.
      destruct (Forall2_lookup_r _ _ _ _ _ Hcov Hq) as (? & _ & s & _ & ?). lia.
    + intros q t [= <-] Ht. by apply Htr.
Qed.
End owned.

(** The tensors of an accepted batch. *)
Lemma built_describes m seqs qs positions tree bm :
  manager_ok m → coherent_batch m seqs qs → m_groups m ≠ [] →
  built_from (batch_builder m seqs qs positions tree) bm → describes m seqs qs positions tree bm.
Proof.
  intros Hm Hco Hgr Hb. pose proof (batch_bounds m seqs qs Hm Hco) as (Hg & Hs & HT & Hmb).
  destruct Hco as [Hl Hne Hnd Hcov Htot].
  destruct Hb as (E1 & E2 & E3 & E4 & E5 & E6 & E7 & E8 & E9 & E10 & E11 & E12).
  unfold batch_builder in *. cbn [b_g b_s b_t b_max_blocks b_seq_ids b_query_len b_ctx_len b_positions b_slot_map b_block_table b_window_start b_tree] in *.
  apply (inj Some) in E5. apply (inj Some) in E6. apply (inj Some) in E7. apply (inj Some) in E8. apply (inj Some) in E9.
  apply (inj Some) in E10. apply (inj Some) in E11.
  split.
  - done.
  - rewrite <- E5, <- E7, <- E12. split_and!; try done; [by apply emitted_ids|by eapply emitted_ctx].
  - rewrite <- E8. f_equal. f_equal. by apply (emitted_positions m seqs qs true).
  - intros gi g si seq q k Hgi Hsi Hqi Hk. pose proof (lookup_lt_Some _ _ _ Hgi).
    pose proof (query_bound m seqs qs Hcov si q k Hqi Hk) as Hbd. unfold meta_slot.
    rewrite E1, E3, (proj2 (Z.ltb_lt _ _)), (proj2 (Z.ltb_lt _ _)) by lia. cbn [negb]. rewrite <- E9. unfold emitted_batch.
    by erewrite emitted_slot.
  - intros gi g si seq b Hgi Hsi Hbb. pose proof (lookup_lt_Some _ _ _ Hgi).
    pose proof (lookup_lt_Some _ _ _ Hsi). unfold meta_block.
    rewrite E1, E2, E4, !(proj2 (Z.ltb_lt _ _)) by lia. cbn [negb]. rewrite <- E10. unfold emitted_batch.
    fold (cell_at m (length seqs) gi si b). by erewrite emitted_cell.
  - intros gi g si seq Hgi Hsi. pose proof (lookup_lt_Some _ _ _ Hgi).
    pose proof (lookup_lt_Some _ _ _ Hsi). unfold meta_window.
    rewrite E1, E2, !(proj2 (Z.ltb_lt _ _)) by lia. cbn [negb]. rewrite <- E11. unfold emitted_batch.
    by erewrite emitted_window.
Qed.

Lemma sizes_agree_batch qs positions tree :
  sizes_agree (Zsum qs) [positions_len <$> positions; (λ t, Z.of_nat (tree_t t)) <$> tree] ↔
  positions_fit qs positions ∧ (∀ t, tree = Some t → Z.of_nat (tree_t t) = Zsum qs).
Proof.
  unfold sizes_agree, positions_fit. rewrite !Forall_cons. split.
  - intros (H1 & H2 & _). split; [intros p ->; by apply H1|intros t ->; by apply H2].
  - intros [H1 H2]. split_and!; [intros n Hn|intros n Hn|constructor].
    + destruct positions as [p|]; [|done]. injection Hn as <-. by apply H1.
    + destruct tree as [t|]; [|done]. injection Hn as <-. by apply H2.
Qed.

(** The owned builder, once the plan accepted. *)
Lemma batch_meta_build m seqs qs positions tree :
  manager_ok m → coherent_batch m seqs qs →
  sizes_agree (Zsum qs) [positions_len <$> positions; (λ t, Z.of_nat (tree_t t)) <$> tree] →
  Forall is_u32 qs →
  batch_meta_with_options seqs qs positions tree m =
  omap_err Ir (build (batch_builder m seqs qs positions tree)).
Proof.
  intros Hm Hco Hsz Hq. unfold batch_meta_with_options.
  pose proof (batch_bounds m seqs qs Hm Hco) as (Hg & Hs & HT & Hmb).
  pose proof (plan_batch_cases m seqs qs (positions_len <$> positions)
    ((λ t, Z.of_nat (tree_t t)) <$> tree) [] Hm Hq) as Hplan.
  destruct (plan_batch _ _ _ _ _ _) as [r scratch]. cbn [fst].
  destruct r as [plan|e|]; [|tauto..]. destruct Hplan as (_ & -> & _). cbn [obind bp_total_tokens bp_total_u64].
  rewrite flat_sizes_ok by done. cbn [obind]. rewrite emit_ok by done. cbn [obind].
  rewrite !try_from_ok by (unfold U32_MAX; lia). done.
Qed.

Lemma batch_meta_cases m seqs qs positions tree :
  manager_ok m → batch_u32 qs tree →
  match batch_meta_with_options seqs qs positions tree m with
  | Ok bm => batch_accepted m seqs qs positions tree ∧ built_from (batch_builder m seqs qs positions tree) bm
  | Err _ => ¬ batch_accepted m seqs qs positions tree
  | Panic => False
  end.
Proof.
  intros Hm Hu. pose proof Hu as [Hq _].
  pose proof (plan_batch_cases m seqs qs (positions_len <$> positions)
    ((λ t, Z.of_nat (tree_t t)) <$> tree) [] Hm Hq) as Hplan.
  destruct (plan_batch _ _ _ _ _ _) as [r scratch] eqn:Hp. destruct Hplan as [_ Hplan].
  destruct r as [plan|e|]; [|unfold batch_meta_with_options; rewrite Hp; simpl|done].
  - destruct Hplan as (_ & Hco & Hsz). rewrite batch_meta_build by done.
    apply sizes_agree_batch in Hsz as [Hpos Htree].
    destruct (batch_builder_ok m seqs qs Hm Hco positions tree Hpos Htree) as [Hno Hok].
    pose proof (batch_builder_u32 m seqs qs Hm Hco positions tree Hu) as Hbu.
    destruct (build_cases _ Hbu) as [[? _]|[(_ & Hbo & bm & -> & Hf)|(_ & Hbo & e & ->)]]; [done| |]; simpl.
    + apply Hok in Hbo as [Hgr Htr]. done.
    + intros [Hgr _ _ Htr]. apply Hbo, Hok. done.
  - intros [_ Hco Hpos Htr]. apply Hplan. split; [done|]. apply sizes_agree_batch. split; [done|].
    intros t Ht. by destruct (Htr t Ht).
Qed.

(** C14: the owned builder accepts exactly the coherent batches (distinct live
    sequences, every query inside its sequence's open reservation, positions
    and tree of the right size, the tree inside its sequences), never panics,
    and describes them: every slot, block-table cell and window start is the
    one the page maps and contexts of the sequences give, row-major, with
    sentinels in the holes. *)
Theorem batch_meta_spec m seqs qs positions tree :
  manager_ok m → batch_u32 qs tree →
  match batch_meta_with_options seqs qs positions tree m with
  | Ok bm => batch_accepted m seqs qs positions tree ∧ describes m seqs qs positions tree bm
  | Err _ => ¬ batch_accepted m seqs qs positions tree
  | Panic => False
  end.
Proof.
  intros Hm Hu. pose proof (batch_meta_cases m seqs qs positions tree Hm Hu) as H.
  destruct (batch_meta_with_options _ _ _ _ _); [|done..]. destruct H as [Hacc Hf].
  split; [done|]. destruct Hacc. by apply built_describes.
Qed.

(** ** The batch-relative tree rules *)

(** The rules of the fill path are the rules of the builder. *)
Lemma batch_crossings_agree parents q : ∀ seq start,
  Forall (λ x, 0 ≤ x) q → Z.of_nat start + Zsum q ≤ Z.of_nat (length parents) →
  check_crossings parents seq start q = Ok (batch_crossings parents seq start q).
Proof.
  induction q as [|len q IH]; intros seq start Hq Hle; simpl; [done|].
  apply Forall_cons in Hq as [Hlen Hq]. pose proof (Zsum_pos q Hq).
  change (Zsum (len :: q)) with (len + Zsum q) in Hle.
  rewrite check_tokens_ok by lia. cbn [obind]. rewrite IH by (done || lia). cbn [obind].
  f_equal. f_equal. f_equal. replace (start + Z.to_nat len - start)%nat with (Z.to_nat len) by lia.
  apply list_eq. intros i. rewrite !list_lookup_fmap. unfold seqn_from.
  destruct (decide (i < Z.to_nat len)%nat) as [Hi|Hi].
  - rewrite lookup_seq_lt, lookup_take_lt, lookup_drop by done.
    destruct (lookup_lt_is_Some_2 parents (start + i)) as [p Hp]; [lia|].
    unfold enumerate. rewrite list_lookup_imap, Hp. simpl. unfold crossing_at, check_token. by rewrite Hp.
  - rewrite lookup_seq_ge, lookup_take_ge by lia. done.
Qed.

Lemma check_tree_batch_rules_spec parents t_max qs :
  Forall is_u32 qs → 0 ≤ t_max → Z.of_nat (length parents) = Zsum qs →
  check_tree_batch_rules parents t_max qs ≠ Panic ∧
  (check_tree_batch_rules parents t_max qs = Ok tt ↔
   Forall (λ len, len ≤ t_max) qs ∧ stays_inside parents qs).
Proof.
  intros Hq Hm Hlen. unfold check_tree_batch_rules. split; [apply from_problems_no_panic|].
  rewrite from_problems_Ok, app_nil, Hlen, Z.eqb_refl.
  assert (Forall (λ x, 0 ≤ x) qs) as Hq0 by (eapply Forall_impl; [done|]; by intros ? []).
  pose proof (check_crossings_spec parents qs 0 0 Hq0 ltac:(lia)) as Hc.
  rewrite batch_crossings_agree in Hc by (done || lia). rewrite decide_True in Hc by lia.
  destruct Hc as (l & [= ->] & Hl). rewrite Hl, <- max_query_le by done.
  destruct (Z.ltb_spec t_max (max_query qs)); split.
  - by intros [? _].
  - intros [? _]. lia.
  - intros [_ H']. split; [lia|]. intros i len token parent. apply (H' i).
  - intros [_ H']. split; [done|]. intros i len token parent. apply (H' i).
Qed.

(** ** The owned-mask fill *)

(** The capacities hold the batch. *)
Record caps_fit (m : StateManager) (seqs qs : list Z) (positions : option Positions) (c : Capacities)
    : Prop := {
  cf_scratch : Z.of_nat (length seqs) ≤ k_id_scratch c;
  cf_seq_ids : Z.of_nat (length seqs) ≤ k_seq_ids c;
  cf_query_lens : Z.of_nat (length seqs) ≤ k_query_lens c;
  cf_ctx_lens : Z.of_nat (length seqs) ≤ k_ctx_lens c;
  cf_positions : Zsum qs ≤ if is_mrope positions then k_positions_mrope c else k_positions c;
  cf_slot_map : Z.of_nat (length (m_groups m)) * Zsum qs ≤ k_slot_map c;
  cf_block_table : table_size m seqs ≤ k_block_table c;
  cf_window_start : Z.of_nat (length (m_groups m)) * Z.of_nat (length seqs) ≤ k_window_start c
}.

(** The invariant of the vectors: none is longer than its capacity; a stored
    tree lies inside its buffers. *)
Record workspace_ok (w : BatchWorkspace) : Prop := {
  wo_seq_ids : Z.of_nat (length (e_seq_ids (w_emitted w))) ≤ k_seq_ids (w_caps w);
  wo_query_lens : Z.of_nat (length (w_query_lens w)) ≤ k_query_lens (w_caps w);
  wo_ctx_lens : Z.of_nat (length (e_ctx_lens (w_emitted w))) ≤ k_ctx_lens (w_caps w);
  wo_positions : Z.of_nat (length (e_positions (w_emitted w))) ≤ k_positions (w_caps w);
  wo_positions_mrope : Z.of_nat (length (w_positions_mrope w)) ≤ k_positions_mrope (w_caps w);
  wo_slot_map : Z.of_nat (length (e_slot_map (w_emitted w))) ≤ k_slot_map (w_caps w);
  wo_block_table : Z.of_nat (length (e_block_table (w_emitted w))) ≤ k_block_table (w_caps w);
  wo_window_start : Z.of_nat (length (e_window_start (w_emitted w))) ≤ k_window_start (w_caps w);
  wo_id_scratch : Z.of_nat (length (w_id_scratch w)) ≤ k_id_scratch (w_caps w);
  wo_parents : Z.of_nat (length (h_parents (w_hot w))) ≤ k_tree_parents (w_caps w);
  wo_ancestors : Z.of_nat (length (h_ancestors (w_hot w))) ≤ k_tree_ancestors (w_caps w);
  wo_cycle_state : Z.of_nat (length (h_cycle_state (w_hot w))) ≤ k_tree_cycle_state (w_caps w);
  wo_cycle_path : Z.of_nat (length (h_cycle_path (w_hot w))) ≤ k_tree_cycle_path (w_caps w);
  wo_tree : h_present (w_hot w) = true →
    h_len (w_hot w) = Z.of_nat (length (h_parents (w_hot w))) ∧
    h_anc_len (w_hot w) = Z.of_nat (length (h_ancestors (w_hot w)))
}.

(** The batch a workspace holds. *)
Record holds (bm : BatchMeta) (w : BatchWorkspace) : Prop := {
  ho_dims : w_last w = {| fd_g := bm_g bm; fd_s := bm_s bm; fd_t := bm_t bm; fd_max_blocks := bm_max_blocks bm;
                          fd_position_width := match bm_positions bm with PerToken _ => 1 | Mrope _ => 3 end |};
  ho_rows : e_seq_ids (w_emitted w) = bm_seq_ids bm ∧ w_query_lens w = bm_query_len bm ∧
    e_ctx_lens (w_emitted w) = bm_ctx_len bm;
  ho_positions : bm_positions bm = match bm_positions bm with
    | PerToken _ => PerToken (e_positions (w_emitted w))
    | Mrope _ => Mrope (w_positions_mrope w)
    end;
  ho_tensors : e_slot_map (w_emitted w) = bm_slot_map bm ∧
    e_block_table (w_emitted w) = bm_block_table bm ∧ e_window_start (w_emitted w) = bm_window_start bm
}.

(** The owned value over the same tensors, whatever the number of groups. *)
Definition owned_meta (m : StateManager) (seqs qs : list Z) (positions : option Positions)
    (tree : option TreeMask) : BatchMeta :=
  let e := emitted_batch m seqs qs true in
  {| bm_g := Z.of_nat (length (m_groups m)); bm_s := Z.of_nat (length seqs); bm_t := Zsum qs;
     bm_max_blocks := m_max_blocks m; bm_seq_ids := e_seq_ids e; bm_query_len := qs;
     bm_ctx_len := e_ctx_lens e; bm_positions := default (PerToken (e_positions e)) positions;
     bm_slot_map := e_slot_map e; bm_block_table := e_block_table e;
     bm_window_start := e_window_start e; bm_tree := tree |}.

Lemma built_owned m seqs qs positions tree bm :
  built_from (batch_builder m seqs qs positions tree) bm → bm = owned_meta m seqs qs positions tree.
Proof.
  intros (E1 & E2 & E3 & E4 & E5 & E6 & E7 & E8 & E9 & E10 & E11 & E12).
  unfold batch_builder, owned_meta in *.
  cbn [b_g b_s b_t b_max_blocks b_seq_ids b_query_len b_ctx_len b_positions b_slot_map b_block_table b_window_start b_tree] in *.
  destruct bm as [g s t mb ids ql ctx pos sl bt wi tr].
  cbn [bm_g bm_s bm_t bm_max_blocks bm_tree bm_seq_ids bm_query_len bm_ctx_len bm_positions bm_slot_map bm_block_table bm_window_start] in *.
  apply (inj Some) in E5, E6, E7, E8, E9, E10, E11. congruence.
Qed.

Lemma check_cap_Ok what cap need : check_cap what cap need = Ok tt ↔ need ≤ cap.
Proof. unfold check_cap. destruct (Z.ltb_spec cap need); split; try done; lia. Qed.

Lemma obind_unit_Ok (c : StateResult unit) (k : StateResult unit) :
  (let* _ := c in k) = Ok tt ↔ c = Ok tt ∧ k = Ok tt.
Proof. destruct c as [[]| |]; simpl; naive_solver. Qed.

(** A check never panics, whatever it is bound to. *)
Lemma obind_no_panic (c k : StateResult unit) : c ≠ Panic → k ≠ Panic → (let* _ := c in k) ≠ Panic.
Proof. by destruct c as [[]| |]. Qed.

Lemma check_cap_no_panic what cap need : check_cap what cap need ≠ Panic.
Proof. unfold check_cap. by destruct (cap <? need). Qed.

Lemma check_caps_Ok m seqs qs positions c :
  Z.of_nat (length seqs) ≤ k_id_scratch c →
  check_caps c (is_mrope positions) (Z.of_nat (length seqs)) (Zsum qs)
    (Z.of_nat (length (m_groups m)) * Zsum qs, table_size m seqs,
     Z.of_nat (length (m_groups m)) * Z.of_nat (length seqs)) = Ok tt ↔
  caps_fit m seqs qs positions c.
Proof.
  intros Hs. unfold check_caps. rewrite !obind_unit_Ok, !check_cap_Ok.
  assert ((if is_mrope positions then check_cap "positions_mrope" (k_positions_mrope c) (Zsum qs)
           else check_cap "positions" (k_positions c) (Zsum qs)) = Ok tt ↔
          Zsum qs ≤ if is_mrope positions then k_positions_mrope c else k_positions c) as ->.
  { destruct (is_mrope positions); apply check_cap_Ok. }
  split; [intros (?&?&?&?&?&?&?); by split|by intros []].
Qed.

Lemma check_caps_no_panic c want s t sizes : check_caps c want s t sizes ≠ Panic.
Proof.
  unfold check_caps. destruct sizes as [[a b] d].
  repeat (apply obind_no_panic; [|]); try apply check_cap_no_panic.
  destruct want; apply check_cap_no_panic.
Qed.

Section fill.
Context (grown : Z → Z → Z) (m : StateManager) (seqs qs : list Z) (positions : option Positions).
Hypothesis Hm : manager_ok m.

Definition mrope_of : list (Z * Z * Z) :=
  match positions with Some (Mrope v) => v | _ => [] end.

(** The buffers after a fill. *)
Definition filled : Emitted :=
  match positions with
  | None => emitted_batch m seqs qs true
  | Some (PerToken v) => push_positions v (emitted_batch m seqs qs false)
  | Some (Mrope _) => emitted_batch m seqs qs false
  end.

Definition fill_dims : FillDims :=
  {| fd_g := Z.of_nat (length (m_groups m)); fd_s := Z.of_nat (length seqs); fd_t := Zsum qs;
     fd_max_blocks := m_max_blocks m; fd_position_width := if is_mrope positions then 3 else 1 |}.

(** A batch written over a workspace. *)
Definition with_batch (w : BatchWorkspace) : BatchWorkspace := set_batch fill_dims filled qs mrope_of w.

Lemma room_fits cap len : len ≤ cap → room grown cap len = cap.
Proof. intros H. unfold room. destruct (Z.ltb_spec cap len); [lia|done]. Qed.

Lemma filled_lengths :
  coherent_batch m seqs qs → positions_fit qs positions →
  e_seq_ids filled = seqs ∧ length (e_ctx_lens filled) = length seqs ∧
  Z.of_nat (length (e_slot_map filled)) = Z.of_nat (length (m_groups m)) * Zsum qs ∧
  Z.of_nat (length (e_block_table filled)) = table_size m seqs ∧
  Z.of_nat (length (e_window_start filled)) = Z.of_nat (length (m_groups m)) * Z.of_nat (length seqs) ∧
  Z.of_nat (length (e_positions filled)) = (if is_mrope positions then 0 else Zsum qs) ∧
  Z.of_nat (length mrope_of) = (if is_mrope positions then Zsum qs else 0).
Proof.
  intros [_ _ _ Hcov _] Hpos. unfold filled, mrope_of.
  destruct (emitted_lengths m seqs qs true Hm Hcov) as (L1 & L2 & L3 & L4 & L5).
  destruct (emitted_lengths m seqs qs false Hm Hcov) as (M1 & M2 & M3 & M4 & _).
  pose proof (emitted_ids m seqs qs true) as I1. pose proof (emitted_ids m seqs qs false) as I2.
  pose proof (emitted_positions m seqs qs false) as P2.
  fold (emitted_batch m seqs qs true) in *. fold (emitted_batch m seqs qs false) in *.
  destruct positions as [[v|v]|]; cbn [is_mrope push_positions e_seq_ids e_ctx_lens e_slot_map e_block_table e_window_start e_positions].
  - specialize (Hpos _ eq_refl). simpl in Hpos. by rewrite P2.
  - specialize (Hpos _ eq_refl). simpl in Hpos. rewrite P2. done.
  - split_and!; try done. by apply L5.
Qed.

Lemma room_batch_fits c :
  coherent_batch m seqs qs → positions_fit qs positions → caps_fit m seqs qs positions c → 0 ≤ k_positions c →
  0 ≤ k_positions_mrope c → room_batch grown filled qs mrope_of c = c.
Proof.
  intros Hco Hpos [? ? ? ? ? ? ? ?] ? ?. pose proof (filled_lengths Hco Hpos) as (I & L1 & L2 & L3 & L4 & L5 & L6).
  destruct Hco as [Hl _ _ _ _].
  unfold room_batch. rewrite I, L1, L2, L3, L4, L5, L6, <- Hl.
  rewrite !room_fits; [by destruct c|..]; try lia; destruct (is_mrope positions); lia.
Qed.

Lemma write_batch_ok w :
  coherent_batch m seqs qs → positions_fit qs positions → workspace_ok w →
  caps_fit m seqs qs positions (w_caps w) →
  write_batch grown m seqs qs {| bp_total_tokens := Zsum qs; bp_total_u64 := Zsum qs |}
    (table_size m seqs) positions w =
  (Ok tt, with_last (set_width (if is_mrope positions then 3 else 1))
            (set_batch (w_last w) filled qs mrope_of w)).
Proof.
  intros Hco Hpos Hw Hcf. pose proof (wo_positions _ Hw). pose proof (wo_positions_mrope _ Hw).
  assert (put_batch grown filled qs mrope_of w = set_batch (w_last w) filled qs mrope_of w) as Hput.
  { unfold put_batch, with_caps, set_batch, set_hot. simpl. by rewrite room_batch_fits by (done || lia). }
  unfold write_batch. rewrite emit_ok by done.
  unfold filled, mrope_of in *. destruct positions as [[v|v]|]; by rewrite Hput.
Qed.

Lemma record_dims_ok w :
  coherent_batch m seqs qs →
  record_dims m (Z.of_nat (length (m_groups m))) (Z.of_nat (length seqs))
    {| bp_total_tokens := Zsum qs; bp_total_u64 := Zsum qs |}
    (with_last (set_width (if is_mrope positions then 3 else 1)) (set_batch (w_last w) filled qs mrope_of w)) =
  (Ok tt, with_batch w).
Proof.
  intros Hco. pose proof (batch_bounds m seqs qs Hm Hco) as (Hg & Hs & HT & Hmb).
  unfold record_dims. rewrite !try_from_ok by (simpl; unfold U32_MAX; lia).
  unfold sbind, slift, smodify, ok_or. done.
Qed.

(** The plan in the workspace's scratch grows nothing. *)
Lemma plan_in_scratch_ok positions_len tree_t w :
  Forall is_u32 qs → workspace_ok w → Z.of_nat (length seqs) ≤ k_id_scratch (w_caps w) →
  ∃ r scratch, plan_in_scratch grown m seqs qs positions_len tree_t w = (r, set_id_scratch scratch w) ∧
    workspace_ok (set_id_scratch scratch w) ∧
    match r with
    | Ok plan => plan = {| bp_total_tokens := Zsum qs; bp_total_u64 := Zsum qs |} ∧
        coherent_batch m seqs qs ∧ sizes_agree (Zsum qs) [positions_len; tree_t]
    | Err _ => ¬ (coherent_batch m seqs qs ∧ sizes_agree (Zsum qs) [positions_len; tree_t])
    | Panic => False
    end.
Proof.
  intros Hq Hw Hcap. unfold plan_in_scratch, szoom.
  pose proof (plan_batch_cases m seqs qs positions_len tree_t (w_id_scratch w) Hm Hq) as Hplan.
  destruct (plan_batch _ _ _ _ _ _) as [r scratch]. destruct Hplan as [Hlen Hr].
  pose proof (wo_id_scratch _ Hw). exists r, scratch. split; [|split; [|done]].
  - f_equal. unfold with_caps, room_scratch, set_hot, set_id_scratch. simpl.
    rewrite room_fits by lia. by destruct w as [? ? ? ? ? ? ? []].
  - destruct Hw. split; simpl; try done. lia.
Qed.

Lemma set_id_scratch_id w : set_id_scratch (w_id_scratch w) w = w.
Proof. by destruct w. Qed.
End fill.

(** What the fill paths accept: the rules of the owned builder but for its
    refusal of a batch without groups. *)
Record fill_accepted (m : StateManager) (seqs qs : list Z) (positions : option Positions)
    (tree : option TreeMask) : Prop := {
  fa_coherent : coherent_batch m seqs qs;
  fa_positions : positions_fit qs positions;
  fa_tree : tree_rules qs tree
}.

Lemma fill_cases grown m seqs qs positions tree w :
  manager_ok m → batch_u32 qs tree → workspace_ok w →
  ∃ r w', fill_batch_meta_with_options grown m seqs qs positions tree w = (r, w') ∧
  match r with
  | Ok _ => fill_accepted m seqs qs positions tree ∧ caps_fit m seqs qs positions (w_caps w) ∧
      ∃ scratch, w' = set_hot tree (no_tree (h_cycle_state (w_hot w)) (h_cycle_path (w_hot w))) (w_caps w)
                        (with_batch m seqs qs positions (set_id_scratch scratch w)) ∧
                 Z.of_nat (length scratch) ≤ k_id_scratch (w_caps w)
  | Err _ => ¬ (fill_accepted m seqs qs positions tree ∧ caps_fit m seqs qs positions (w_caps w)) ∧
      ∃ scratch, w' = set_id_scratch scratch w ∧ workspace_ok w'
  | Panic => False
  end.
Proof.
  intros Hm [Hq Ht] Hw. unfold fill_batch_meta_with_options, check_scratch.
  unfold sbind at 1, sread at 1.
  destruct (check_cap "id scratch" _ _) as [[]|e|] eqn:Hsc; [| |by apply check_cap_no_panic in Hsc].
  2:{ eexists _, w. split; [done|]. split; [|exists (w_id_scratch w); by rewrite set_id_scratch_id].
      intros [_ [Hcf _ _ _ _ _ _ _]]. apply (check_cap_Ok "id scratch") in Hcf. congruence. }
  apply check_cap_Ok in Hsc.
  destruct (plan_in_scratch_ok grown m seqs qs Hm (positions_len <$> positions)
    ((λ t, Z.of_nat (tree_t t)) <$> tree) w Hq Hw Hsc) as (r & scratch & Hplan & Hw' & Hr).
  unfold sbind at 1. rewrite Hplan. destruct r as [plan|e|]; [| |done].
  2:{ eexists _, _. split; [done|]. split; [|by exists scratch]. intros [[Hco Hpos Htr] _]. apply Hr.
      split; [done|]. apply sizes_agree_batch. split; [done|]. intros t Heq. by destruct (Htr t Heq). }
  destruct Hr as (-> & Hco & [Hpos Htt]%sizes_agree_batch). cbn [bp_total_tokens].
  rewrite flat_sizes_ok by done. erewrite sbind_Ok by done. unfold sbind at 1, sread at 1.
  change (w_caps (set_id_scratch scratch w)) with (w_caps w).
  destruct (check_caps _ _ _ _ _) as [[]|e|] eqn:Hcaps; [| |by apply check_caps_no_panic in Hcaps].
  2:{ eexists _, _. split; [done|]. split; [|by exists scratch]. intros [_ Hcf].
      apply check_caps_Ok in Hcf; [congruence|done]. }
  apply check_caps_Ok in Hcaps; [|done]. unfold sbind at 1, slift at 1.
  assert (match tree with
    | Some t => omap_err Ir (check_tree_batch_rules (t_parents t) (t_max t) qs) | None => Ok tt end ≠ Panic ∧
    (match tree with
    | Some t => omap_err Ir (check_tree_batch_rules (t_parents t) (t_max t) qs) | None => Ok tt end = Ok tt
     ↔ tree_rules qs tree)) as [Hnp Hrules].
  { unfold tree_rules. destruct tree as [t|]; [|by split]. specialize (Htt t eq_refl).
    destruct (check_tree_batch_rules_spec (t_parents t) (t_max t) qs Hq) as [Hnp Hiff];
      [by apply Ht|exact Htt|]. split.
    - by destruct (check_tree_batch_rules _ _ _).
    - assert (omap_err Ir (check_tree_batch_rules (t_parents t) (t_max t) qs) = Ok tt ↔
        check_tree_batch_rules (t_parents t) (t_max t) qs = Ok tt) as ->.
      { by destruct (check_tree_batch_rules _ _ _) as [[]| |]. }
      rewrite Hiff. split; [by intros [? ?] t' [= <-]|].
      intros H. by destruct (H t eq_refl). }
  destruct (match tree with Some _ => _ | None => _ end) as [[]|e|]; [| |done].
  2:{ eexists _, _. split; [done|]. split; [|by exists scratch]. intros [[_ _ Htr] _].
      apply Hrules in Htr. done. }
  unfold sbind at 1. rewrite write_batch_ok by done. unfold sbind at 1. rewrite record_dims_ok by done.
  unfold sbind, smodify. eexists _, _. split; [done|]. split; [split; [done|done|by apply Hrules]|].
  split; [done|]. exists scratch. split; [|by apply (wo_id_scratch _ Hw')]. done.
Qed.

(** ** The slices fill *)

Definition mask_of (t : TreeInput) : TreeMask :=
  {| t_parents := ti_parents t; t_max := ti_t_max t; t_ancestors := ti_ancestors t |}.

Definition input_ok (t : TreeInput) : Prop := tree_ok (ti_parents t) (ti_t_max t) (ti_ancestors t).

(** The tree buffers hold the tree. *)
Definition hot_fit (t : TreeInput) (c : Capacities) : Prop :=
  input_t t ≤ k_tree_parents c ∧ input_t t * ti_t_max t ≤ k_tree_ancestors c ∧
  input_t t ≤ k_tree_cycle_state c ∧ input_t t ≤ k_tree_cycle_path c.

(** The stored tree, with whatever the check left in its scratch. *)
Definition hot_of (t : TreeInput) (state path : list Z) : HotTree :=
  {| h_parents := ti_parents t; h_ancestors := ti_ancestors t; h_t_max := ti_t_max t; h_len := input_t t;
     h_anc_len := input_t t * ti_t_max t; h_present := true; h_cycle_state := state; h_cycle_path := path |}.

Definition scratch_fits (state path : list Z) (c : Capacities) : Prop :=
  Z.of_nat (length state) ≤ k_tree_cycle_state c ∧ Z.of_nat (length path) ≤ k_tree_cycle_path c.

Definition input_small (t : TreeInput) : Prop := input_t t < 2 ^ 31 ∧ is_u32 (ti_t_max t).

Lemma fill_tree_cases grown t w :
  input_small t →
  ∃ r w', fill_tree grown t w = Some (r, w') ∧
  match r with
  | Ok _ => input_ok t ∧ hot_fit t (w_caps w) ∧
      ∃ state path, w' = set_hot None (hot_of t state path) (w_caps w) w ∧ scratch_fits state path (w_caps w)
  | Err _ => ¬ (input_ok t ∧ hot_fit t (w_caps w)) ∧ ∃ hot caps, w' = set_hot (w_tree w) hot caps w
  | Panic => False
  end.
Proof.
  intros [Hs Ht]. pose proof Ht as [Ht0 Ht32]. unfold fill_tree, input_t in *.
  assert (∀ w : BatchWorkspace, ∃ hot caps, w = set_hot (w_tree w) hot caps w) as Hself.
  { intros w0. exists (w_hot w0), (w_caps w0). by destruct w0. }
  rewrite checked_mul_ok by (unfold USIZE_MAX, U64_MAX, U32_MAX in *; nia).
  unfold hot_fit, input_t.
  destruct (Z.ltb_spec (k_tree_parents (w_caps w)) (Z.of_nat (length (ti_parents t)))) as [Hp|Hp].
  { eexists _, w. split; [done|]. split; [intros [_ ?]; lia|apply Hself]. }
  destruct (Z.ltb_spec (k_tree_ancestors (w_caps w)) (Z.of_nat (length (ti_parents t)) * ti_t_max t)) as [Ha|Ha].
  { eexists _, w. split; [done|]. split; [intros [_ ?]; lia|apply Hself]. }
  destruct (Z.ltb_spec (k_tree_cycle_state (w_caps w)) (Z.of_nat (length (ti_parents t)))) as [Hst|Hst]; simpl.
  { eexists _, w. split; [done|]. split; [intros [_ ?]; lia|apply Hself]. }
  destruct (Z.ltb_spec (k_tree_cycle_path (w_caps w)) (Z.of_nat (length (ti_parents t)))) as [Hpa|Hpa].
  { eexists _, w. split; [done|]. split; [intros [_ ?]; lia|apply Hself]. }
  destruct (validate_fresh (ti_parents t) (ti_t_max t) (ti_ancestors t) (k_tree_cycle_path (w_caps w)))
    as (verdict & state & path & -> & Hls & Hlp & Hv); [done..|].
  destruct verdict as [[]|e|]; [| |done].
  - destruct Hv as [Hok _]. eexists _, _. split; [done|]. split; [done|]. split; [lia|].
    exists state, path. split; [|unfold scratch_fits; lia].
    unfold store_tree, stage_tree, set_hot, set_cycle_scratch, hot_of, input_t. simpl. f_equal.
    destruct (tk_mask _ _ _ Hok) as [Hmask _].
    rewrite !room_fits by lia. by destruct (w_caps w).
  - destruct Hv as [Hno _]. eexists _, _. split; [done|]. split; [by intros [? _]|].
    by eexists _, _.
Qed.

Lemma settle_tree_cases grown qs tree w :
  Forall is_u32 qs → (∀ t, tree = Some t → input_small t ∧ input_t t = Zsum qs) →
  ∃ r w', settle_tree grown qs tree w = Some (r, w') ∧
  match r with
  | Ok _ => tree_rules qs (mask_of <$> tree) ∧ (∀ t, tree = Some t → input_ok t ∧ hot_fit t (w_caps w)) ∧
      match tree with
      | Some t => ∃ state path, w' = set_hot None (hot_of t state path) (w_caps w) w ∧
                    scratch_fits state path (w_caps w)
      | None => w' = clear_tree w
      end
  | Err _ => ¬ (tree_rules qs (mask_of <$> tree) ∧ ∀ t, tree = Some t → input_ok t ∧ hot_fit t (w_caps w)) ∧
      ∃ hot caps, w' = set_hot (w_tree w) hot caps w
  | Panic => False
  end.
Proof.
  intros Hq Ht. unfold settle_tree. destruct tree as [t|].
  2:{ eexists _, _. split; [done|]. split; [done|]. by split. }
  destruct (Ht t eq_refl) as [Hsm Hlen]. pose proof Hsm as [Hs [Hm _]]. unfold input_t in *.
  destruct (check_tree_batch_rules_spec (ti_parents t) (ti_t_max t) qs Hq Hm Hlen) as [Hnp Hiff].
  assert (tree_rules qs (mask_of <$> Some t) ↔
    Forall (λ len, len ≤ ti_t_max t) qs ∧ stays_inside (ti_parents t) qs) as Hrules.
  { unfold tree_rules. simpl. split.
    - intros H. by destruct (H _ eq_refl).
    - intros [? ?] t' [= <-]. by split. }
  destruct (check_tree_batch_rules _ _ _) as [[]|e|]; [| |done].
  - destruct (fill_tree_cases grown t w Hsm) as (r & w' & -> & Hr). exists r, w'. split; [done|].
    destruct r as [[]|e|]; [| |done].
    + destruct Hr as (Hok & Hf & Hw'). split; [by apply Hrules, Hiff|]. split; [by intros ? [= <-]|done].
    + destruct Hr as [Hno Hw']. split; [|done]. intros [_ H]. apply Hno. by apply H.
  - eexists _, w. split; [done|]. split.
    + intros [Hr _]. apply Hrules, Hiff in Hr. done.
    + exists (w_hot w), (w_caps w). by destruct w.
Qed.

Lemma check_input_size_cases plan tree :
  check_input_size plan tree ≠ Panic ∧
  (check_input_size plan tree = Ok tt ↔ ∀ t, tree = Some t → input_t t = bp_total_tokens plan).
Proof.
  unfold check_input_size. destruct tree as [t|]; [|by split].
  destruct (Z.eqb_spec (input_t t) (bp_total_tokens plan)) as [He|He]; simpl.
  - split; [done|]. split; [by intros _ t' [= <-]|done].
  - split; [by destruct (try_from _ _)|]. split; [by destruct (try_from _ _)|].
    intros H. by specialize (H t eq_refl).
Qed.

(** Everything before the tree, on the slices path. *)
Lemma prepare_slices_cases grown m seqs qs positions tree w :
  manager_ok m → Forall is_u32 qs → workspace_ok w →
  ∃ r scratch, prepare_slices grown m seqs qs positions tree w = (r, set_id_scratch scratch w) ∧
    let ready := coherent_batch m seqs qs ∧ positions_fit qs positions ∧
      caps_fit m seqs qs positions (w_caps w) ∧ (∀ t, tree = Some t → input_t t = Zsum qs) in
    match r with
    | Ok p => p = ({| bp_total_tokens := Zsum qs; bp_total_u64 := Zsum qs |}, table_size m seqs) ∧
        ready ∧ workspace_ok (set_id_scratch scratch w)
    | Err _ => ¬ ready
    | Panic => False
    end.
Proof.
  intros Hm Hq Hw. unfold prepare_slices, check_scratch. unfold sbind at 1, sread at 1.
  destruct (check_cap "id scratch" _ _) as [[]|e|] eqn:Hsc; [| |by apply check_cap_no_panic in Hsc].
  2:{ exists (Err e), (w_id_scratch w). rewrite set_id_scratch_id. split; [done|].
      intros (_ & _ & [Hcf _ _ _ _ _ _ _] & _). apply (check_cap_Ok "id scratch") in Hcf. congruence. }
  apply check_cap_Ok in Hsc.
  destruct (plan_in_scratch_ok grown m seqs qs Hm (positions_len <$> positions) None w Hq Hw Hsc)
    as (r & scratch & Hplan & Hw' & Hr).
  pose proof (sizes_agree_batch qs positions None) as Hsz. simpl in Hsz.
  unfold sbind at 1. rewrite Hplan. destruct r as [plan|e|]; [| |done].
  2:{ exists (Err e), scratch. split; [done|]. intros (Hco & Hpos & _). apply Hr. split; [done|]. by apply Hsz. }
  destruct Hr as (-> & Hco & [Hpos _]%Hsz). cbn [bp_total_tokens bp_total_u64].
  pose proof (batch_bounds m seqs qs Hm Hco) as (_ & _ & HT & _).
  destruct (check_input_size_cases {| bp_total_tokens := Zsum qs; bp_total_u64 := Zsum qs |} tree) as [Hnp Ht].
  destruct (check_input_size _ _) as [[]|e|]; [| |done].
  2:{ exists (Err e), scratch. split; [done|]. intros (_ & _ & _ & H). apply Ht in H. done. }
  pose proof (proj1 Ht eq_refl) as Htree. simpl in Htree.
  erewrite sbind_Ok by done. rewrite flat_sizes_ok by done. erewrite sbind_Ok by done.
  unfold sbind at 1, sread at 1. change (w_caps (set_id_scratch scratch w)) with (w_caps w).
  destruct (check_caps _ _ _ _ _) as [[]|e|] eqn:Hcaps; [| |by apply check_caps_no_panic in Hcaps].
  2:{ exists (Err e), scratch. split; [done|]. intros (_ & _ & Hcf & _).
      apply check_caps_Ok in Hcf; [congruence|done]. }
  apply check_caps_Ok in Hcaps; [|done]. eexists _, scratch. split; [done|]. done.
Qed.

(** The workspace a slices fill leaves. *)
Definition settled_hot (tree : option TreeInput) (hot0 hot : HotTree) (c : Capacities) : Prop :=
  match tree with
  | Some t => ∃ state path, hot = hot_of t state path ∧ scratch_fits state path c
  | None => hot = no_tree (h_cycle_state hot0) (h_cycle_path hot0)
  end.

Definition tree_in_place (tree : option TreeInput) (c : Capacities) : Prop :=
  ∀ t, tree = Some t → input_ok t ∧ hot_fit t c.

Lemma slices_cases grown m seqs qs positions tree w :
  manager_ok m → Forall is_u32 qs → (∀ t, tree = Some t → input_small t) → workspace_ok w →
  ∃ r w', fill_batch_meta_with_options_and_tree_input grown m seqs qs positions tree w = Some (r, w') ∧
  let accepted := fill_accepted m seqs qs positions (mask_of <$> tree) ∧
    caps_fit m seqs qs positions (w_caps w) ∧ tree_in_place tree (w_caps w) in
  match r with
  | Ok _ => accepted ∧ ∃ scratch hot, settled_hot tree (w_hot w) hot (w_caps w) ∧
      w' = set_hot None hot (w_caps w) (with_batch m seqs qs positions (set_id_scratch scratch w)) ∧
      Z.of_nat (length scratch) ≤ k_id_scratch (w_caps w)
  | Err _ => ¬ accepted ∧ ∃ scratch hot caps, w' = set_hot (w_tree w) hot caps (set_id_scratch scratch w)
  | Panic => False
  end.
Proof.
  intros Hm Hq Hsmall Hw. unfold fill_batch_meta_with_options_and_tree_input.
  destruct (prepare_slices_cases grown m seqs qs positions tree w Hm Hq Hw) as (r & scratch & -> & Hr).
  destruct r as [p|e|]; [| |done].
  2:{ eexists _, _. split; [done|]. split.
      - intros ([Hco Hpos Htr] & Hcf & _). apply Hr. split_and!; try done.
        intros t ->. simpl in Htr. by destruct (Htr (mask_of t) eq_refl).
      - exists scratch, (w_hot w), (w_caps w). by destruct w. }
  destruct Hr as (-> & (Hco & Hpos & Hcf & Hsz) & Hw').
  destruct (settle_tree_cases grown qs tree (set_id_scratch scratch w) Hq) as (r & w2 & -> & Hr).
  { intros t Ht. split; [by apply Hsmall|by apply Hsz]. }
  change (w_caps (set_id_scratch scratch w)) with (w_caps w) in Hr.
  destruct r as [[]|e|]; [| |done].
  2:{ eexists _, w2. split; [done|]. destruct Hr as [Hno (hot & caps & ->)]. split.
      - intros ([_ _ Htr] & _ & Hin). by apply Hno.
      - by exists scratch, hot, caps. }
  destruct Hr as (Htr & Hin & Hw2).
  assert (∃ hot wt, settled_hot tree (w_hot w) hot (w_caps w) ∧
            w2 = set_hot wt hot (w_caps w) (set_id_scratch scratch w) ∧ workspace_ok w2) as (hot & wt & Hset & -> & Hok2).
  { unfold settled_hot. destruct tree as [t|].
    - destruct Hw2 as (state & path & -> & Hs1 & Hs2). eexists _, None. split; [by exists state, path|]. split; [done|].
      destruct (Hin t eq_refl) as [Hok (? & ? & ? & ?)]. destruct (tk_mask _ _ _ Hok) as [Hmask _].
      unfold input_t in *. destruct Hw'. split; simpl in *; try done; lia.
    - subst w2. eexists _, (w_tree w). split; [done|]. split; [done|].
      destruct Hw' as [? ? ? ? ? ? ? ? ? ? ? ? ? ?]. split; simpl in *; try done; lia. }
  unfold sbind at 1. rewrite write_batch_ok by done. unfold sbind at 1. rewrite record_dims_ok by done.
  eexists _, _. split; [done|]. split; [done|]. exists scratch, hot. split; [done|].
  split; [done|]. by apply (wo_id_scratch _ Hw').
Qed.

(** ** The workspace holds what the owned builder returns *)

Lemma with_batch_holds m seqs qs positions tree hot wt c w :
  coherent_batch m seqs qs →
  holds (owned_meta m seqs qs positions tree) (set_hot wt hot c (with_batch m seqs qs positions w)).
Proof.
  intros [_ _ _ Hcov _]. unfold with_batch, owned_meta.
  assert (e_seq_ids (filled m seqs qs positions) = e_seq_ids (emitted_batch m seqs qs true) ∧
    e_ctx_lens (filled m seqs qs positions) = e_ctx_lens (emitted_batch m seqs qs true) ∧
    e_slot_map (filled m seqs qs positions) = e_slot_map (emitted_batch m seqs qs true) ∧
    e_block_table (filled m seqs qs positions) = e_block_table (emitted_batch m seqs qs true) ∧
    e_window_start (filled m seqs qs positions) = e_window_start (emitted_batch m seqs qs true))
    as (I & C & S & B & W).
  { unfold filled, emitted_batch. destruct positions as [[v|v]|];
      cbn [push_positions e_seq_ids e_ctx_lens e_slot_map e_block_table e_window_start];
      rewrite ?emitted_ids, ?(emitted_ctx m seqs qs _ Hcov), ?emitted_slots, ?emitted_cells, ?emitted_windows; done. }
  split; cbn [set_hot set_batch w_last w_emitted w_query_lens w_positions_mrope bm_g bm_s bm_t bm_max_blocks
    bm_seq_ids bm_query_len bm_ctx_len bm_positions bm_slot_map bm_block_table bm_window_start].
  - unfold fill_dims. by destruct positions as [[v|v]|].
  - done.
  - unfold filled, mrope_of. destruct positions as [[v|v]|]; [|done|done].
    cbn [default push_positions e_positions]. f_equal.
    unfold emitted_batch. by rewrite (emitted_positions m seqs qs false).
  - done.
Qed.

(** The invariant of the vectors after a fill. *)
Lemma with_batch_ok m seqs qs positions tree hot w scratch :
  manager_ok m → coherent_batch m seqs qs → positions_fit qs positions →
  caps_fit m seqs qs positions (w_caps w) → workspace_ok w → Z.of_nat (length scratch) ≤ k_id_scratch (w_caps w) →
  workspace_ok (set_hot tree hot (w_caps w) w) →
  workspace_ok (set_hot tree hot (w_caps w) (with_batch m seqs qs positions (set_id_scratch scratch w))).
Proof.
  intros Hm Hco Hpos [? ? ? ? Hp ? ? ?] Hw Hsc Hh.
  pose proof (filled_lengths m seqs qs positions Hm Hco Hpos) as (I & L1 & L2 & L3 & L4 & L5 & L6).
  pose proof (wo_positions _ Hw). pose proof (wo_positions_mrope _ Hw). destruct Hco as [Hl _ _ _ _].
  destruct Hh as [_ _ _ _ _ _ _ _ _ ? ? ? ? ?].
  split; cbn [set_hot set_batch with_batch set_id_scratch w_emitted w_caps w_query_lens w_positions_mrope w_id_scratch w_hot];
    rewrite ?I, ?L1, ?L2, ?L3, ?L4, ?L5, ?L6; try done; try lia; destruct (is_mrope positions); lia.
Qed.

(** Whatever it answers, a fill keeps the workspace well formed. *)
Lemma fill_keeps grown m seqs qs positions tree w :
  manager_ok m → batch_u32 qs tree → workspace_ok w →
  ∃ r w', fill_batch_meta_with_options grown m seqs qs positions tree w = (r, w') ∧ r ≠ Panic ∧
    workspace_ok w' ∧ w_caps w' = w_caps w ∧
    (r = Ok tt ↔ fill_accepted m seqs qs positions tree ∧ caps_fit m seqs qs positions (w_caps w)).
Proof.
  intros Hm Hu Hw. destruct (fill_cases grown m seqs qs positions tree w Hm Hu Hw) as (r & w' & Hrun & Hr).
  exists r, w'. split; [done|]. destruct r as [[]|e|]; [| |done].
  - destruct Hr as ([Hco Hpos Htr] & Hcf & scratch & -> & Hsc). split_and!; try done.
    apply with_batch_ok; try done. destruct Hw. split; simpl; try done; lia.
  - destruct Hr as (Hno & scratch & -> & Hw'). split_and!; try done.
Qed.

Definition view_of (t : TreeMask) : TreeView :=
  {| tv_parents := t_parents t; tv_t_max := t_max t; tv_ancestors := t_ancestors t |}.

(** C15: the caller-owned fill is the owned builder, on a workspace large enough
    and a manager with groups: both accept the same batches, an accepted batch
    leaves the same tensors, dimensions and tree in the workspace without
    growing any buffer, and a refused one leaves everything but the id scratch
    as it was. *)
Theorem fill_equals_owned grown m seqs qs positions tree w :
  manager_ok m → batch_u32 qs tree → workspace_ok w → m_groups m ≠ [] →
  caps_fit m seqs qs positions (w_caps w) →
  match batch_meta_with_options seqs qs positions tree m,
        fill_batch_meta_with_options grown m seqs qs positions tree w with
  | Ok bm, (Ok _, w') => holds bm w' ∧ tree_view w' = Ok (view_of <$> bm_tree bm) ∧
      w_caps w' = w_caps w ∧ workspace_ok w'
  | Err _, (Err _, w') => ∃ scratch, w' = set_id_scratch scratch w
  | _, _ => False
  end.
Proof.
  intros Hm Hu Hw Hgr Hcf.
  pose proof (batch_meta_cases m seqs qs positions tree Hm Hu) as Hown.
  destruct (fill_cases grown m seqs qs positions tree w Hm Hu Hw) as (r & w' & -> & Hr).
  destruct (batch_meta_with_options _ _ _ _ _) as [bm|e|]; [| |done].
  - destruct Hown as [[_ Hco Hpos Htr] ->%built_owned].
    destruct r as [[]|e|]; [| |done]; [|by destruct Hr as [Hno _]; apply Hno].
    destruct Hr as (_ & _ & scratch & -> & Hsc).
    split; [by apply with_batch_holds|]. split; [by destruct tree|]. split; [done|].
    apply with_batch_ok; try done. destruct Hw. split; simpl; try done; lia.
  - destruct r as [[]|e'|]; [| |done]; [|destruct Hr as (_ & sc & ? & _); by exists sc].
    destruct Hr as ([Hco Hpos Htr] & _). by apply Hown.
Qed.

(** the slices fill is the owned builder on the mask its slices stand for:
    given a tree [TreeMask::new] accepts (or none) and room for it, both accept
    the same batches and leave the same tensors; the tree read back through
    [tree_view] is the owned one, no owned mask is kept, nothing grows; and a
    refusal leaves every batch buffer as it was. *)
Theorem slices_fill_equals_owned grown m seqs qs positions tree w :
  manager_ok m → batch_u32 qs (mask_of <$> tree) → workspace_ok w → m_groups m ≠ [] →
  caps_fit m seqs qs positions (w_caps w) → (∀ t, tree = Some t → input_t t < 2 ^ 31) →
  tree_in_place tree (w_caps w) →
  match batch_meta_with_options seqs qs positions (mask_of <$> tree) m,
        fill_batch_meta_with_options_and_tree_input grown m seqs qs positions tree w with
  | Ok bm, Some (Ok _, w') => holds bm w' ∧ tree_view w' = Ok (view_of <$> bm_tree bm) ∧
      w_tree w' = None ∧ w_caps w' = w_caps w ∧ workspace_ok w'
  | Err _, Some (Err _, w') => ∃ scratch hot caps, w' = set_hot (w_tree w) hot caps (set_id_scratch scratch w)
  | _, _ => False
  end.
Proof.
  intros Hm Hu Hw Hgr Hcf Hsz Hin. pose proof Hu as [Hq Ht32].
  pose proof (batch_meta_cases m seqs qs positions (mask_of <$> tree) Hm Hu) as Hown.
  assert (∀ t, tree = Some t → input_small t) as Hsmall.
  { intros t ->. split; [by apply Hsz|]. by apply (Ht32 (mask_of t)). }
  destruct (slices_cases grown m seqs qs positions tree w Hm Hq Hsmall Hw) as (r & w' & -> & Hr).
  destruct (batch_meta_with_options _ _ _ _ _) as [bm|e|]; [| |done].
  - destruct Hown as [[_ Hco Hpos Htr] ->%built_owned].
    destruct r as [[]|e|]; [| |done]; [|by destruct Hr as [Hno _]; apply Hno].
    destruct Hr as (_ & scratch & hot & Hset & -> & Hsc).
    split; [by apply with_batch_holds|]. unfold settled_hot in Hset. destruct tree as [t|].
    + destruct Hset as (state & path & -> & Hs1 & Hs2).
      destruct (Hin t eq_refl) as [Hok (? & ? & ? & ?)]. destruct (tk_mask _ _ _ Hok) as [Hmask _].
      unfold input_t in *. split.
      { unfold tree_view, slice_to, hot_of, input_t. cbn [set_hot w_hot h_present h_len h_anc_len h_parents h_ancestors].
        rewrite !(proj2 (Z.ltb_ge _ _)) by lia. cbn [obind]. rewrite Nat2Z.id.
        rewrite !take_ge by lia. done. }
      split; [done|]. split; [done|]. apply with_batch_ok; try done.
      destruct Hw. split; simpl; unfold input_t; try done; lia.
    + subst hot. split; [done|]. split; [done|]. split; [done|]. apply with_batch_ok; try done.
      destruct Hw. split; simpl; try done; lia.
  - destruct r as [[]|e'|]; [| |done]; [|by destruct Hr].
    destruct Hr as (([Hco Hpos Htr] & _) & _). by apply Hown.
Qed.

(** ** Sizing *)

(** [Vec::try_reserve_exact] as documented: the capacity covers the request. *)
Definition reserves (try_reserve_exact : Z → Z → option Z) : Prop :=
  ∀ len additional c, try_reserve_exact len additional = Some c → len + additional ≤ c.

Lemma reserve_new_Ok tr cap c : reserves tr → reserve_new tr cap = Ok c → cap ≤ c.
Proof. unfold reserve_new. intros Htr H. destruct (tr 0 cap) eqn:Ht; [|done]. injection H as ->. by apply Htr in Ht. Qed.

(** What [try_with_capacity] reserves. *)
Lemma try_with_capacity_caps tr g max_seqs max_tokens max_blocks ws :
  reserves tr → 0 ≤ g → 0 ≤ max_seqs → 0 ≤ max_tokens → 0 ≤ max_blocks →
  try_with_capacity tr g max_seqs max_tokens max_blocks = Ok ws →
  workspace_ok ws ∧ max_seqs ≤ k_seq_ids (w_caps ws) ∧ max_seqs ≤ k_query_lens (w_caps ws) ∧
  max_seqs ≤ k_ctx_lens (w_caps ws) ∧ max_tokens ≤ k_positions (w_caps ws) ∧
  max_tokens ≤ k_positions_mrope (w_caps ws) ∧ g * max_tokens ≤ k_slot_map (w_caps ws) ∧
  g * max_seqs * max_blocks ≤ k_block_table (w_caps ws) ∧ g * max_seqs ≤ k_window_start (w_caps ws) ∧
  max_seqs ≤ k_id_scratch (w_caps ws).
Proof.
  intros Htr Hg Hs Ht Hmb H. unfold try_with_capacity in H. inv_ok.
  repeat match goal with H : reserve_new _ _ = Ok _ |- _ => apply reserve_new_Ok in H; [|done] end.
  repeat match goal with
  | H : checked_mul _ _ _ = Some _ |- _ => apply checked_mul_Some in H as [-> _]
  | H : mbind _ _ = Some _ |- _ => apply bind_Some in H as (? & ? & ?)
  | H : Some _ = Some _ |- _ => injection H as <-
  end.
  assert (0 ≤ g * max_seqs) by (by apply Z.mul_nonneg_nonneg).
  assert (0 ≤ g * max_seqs * max_blocks) by (by apply Z.mul_nonneg_nonneg).
  assert (0 ≤ g * max_tokens) by (by apply Z.mul_nonneg_nonneg).
  split_and!; simpl; try lia. split; simpl; try lia; done.
Qed.

(** a workspace sized for [G] groups, [S] sequences, [T] tokens and the
    manager's blocks has room for every batch of at most that many sequences
    and tokens, scalar or MRoPE, and starts out well formed. *)
Theorem sized_workspace_fits tr m max_seqs max_tokens ws seqs qs positions :
  reserves tr → 0 ≤ max_tokens → 0 ≤ m_max_blocks m →
  try_with_capacity tr (Z.of_nat (length (m_groups m))) max_seqs max_tokens (m_max_blocks m) = Ok ws →
  Z.of_nat (length seqs) ≤ max_seqs → Zsum qs ≤ max_tokens →
  workspace_ok ws ∧ caps_fit m seqs qs positions (w_caps ws).
Proof.
  intros Htr Ht Hmb H Hs Hq. set (g := Z.of_nat (length (m_groups m))) in *. assert (0 ≤ g) as Hg by lia.
  destruct (try_with_capacity_caps tr g max_seqs max_tokens (m_max_blocks m) ws)
    as (Hok & ? & ? & ? & ? & ? & ? & ? & ? & ?); [done|done|lia|done..|].
  assert (0 ≤ g * max_seqs) by (apply Z.mul_nonneg_nonneg; lia).
  assert (g * Z.of_nat (length seqs) ≤ g * max_seqs) by (by apply Z.mul_le_mono_nonneg_l).
  assert (g * Zsum qs ≤ g * max_tokens) by (by apply Z.mul_le_mono_nonneg_l).
  assert (g * Z.of_nat (length seqs) * m_max_blocks m ≤ g * max_seqs * m_max_blocks m)
    by (by apply Z.mul_le_mono_nonneg_r).
  split; [done|]. split; simpl; unfold table_size; fold g; try lia. destruct (is_mrope positions); lia.
Qed.

(** ** Witnesses *)

(** One sequence with seventy reserved tokens; a batch of its next three. *)
Definition demo_reserve (len additional : Z) : option Z := Some (len + additional).
Definition demo_workspace : BatchWorkspace :=
  match try_with_capacity_and_tree demo_reserve (Z.of_nat (length (m_groups demo2))) 1 4 (m_max_blocks demo2) 4 4 with
  | Ok w => w
  | _ => workspace_new
  end.
Definition demo_slices : TreeInput :=
  {| ti_parents := [-1; 0; 0]; ti_t_max := 3; ti_ancestors := replicate 9 false |}.

Lemma demo_batch_u32 tree : (∀ t, tree = Some t → is_u32 (t_max t)) → batch_u32 [3] tree.
Proof. intros H. split; [repeat constructor; unfold U32_MAX; lia|done]. Qed.

Lemma demo_reserves : reserves demo_reserve.
Proof. intros len add c [= <-]. lia. Qed.

Lemma demo_workspace_ok : workspace_ok demo_workspace.
Proof. split; vm_compute; try discriminate. Qed.

Lemma demo_caps_fit positions : caps_fit demo2 [0] [3] positions (w_caps demo_workspace).
Proof.
  split; try (vm_compute; discriminate).
  destruct positions as [[]|]; vm_compute; discriminate.
Qed.

Lemma demo_slices_ok : input_ok demo_slices.
Proof.
  destruct (validate_fresh [-1; 0; 0] 3 (replicate 9 false) 3) as (v & st & p & Hv & _ & _ & H);
    [vm_compute; reflexivity|lia|simpl; lia|].
  destruct v as [|e|]; [by destruct H| |done]. vm_compute in Hv. discriminate Hv.
Qed.

Lemma batch_meta_spec_witness :
  ∃ bm, batch_meta_with_options [0] [3] None None demo2 = Ok bm ∧
    meta_slot 0 1 bm = Ok 1 ∧ meta_window 0 0 bm = Ok 0.
Proof.
  pose proof (batch_meta_spec demo2 [0] [3] None None demo2_ok ltac:(by apply demo_batch_u32)) as H.
  destruct (batch_meta_with_options [0] [3] None None demo2) as [bm|e|] eqn:Hbm.
  2,3: vm_compute in Hbm; discriminate Hbm.
  destruct H as [_ Hd]. exists bm. split; [reflexivity|]. split.
  - pose proof (de_slot _ _ _ _ _ _ Hd 0) as Hs.
    destruct (m_groups demo2 !! 0%nat) as [g|] eqn:Hg; [|vm_compute in Hg; discriminate Hg].
    etrans; [apply (Hs g 0%nat 0 3 1); (reflexivity || lia)|].
    vm_compute in Hg. injection Hg as <-. vm_compute. reflexivity.
  - pose proof (de_window _ _ _ _ _ _ Hd 0) as Hs.
    destruct (m_groups demo2 !! 0%nat) as [g|] eqn:Hg; [|vm_compute in Hg; discriminate Hg].
    etrans; [apply (Hs g 0%nat 0); reflexivity|].
    vm_compute in Hg. injection Hg as <-. vm_compute. reflexivity.
Defined.

Lemma fill_equals_owned_witness :
  ∃ w bm, fill_batch_meta_with_options (λ _ len, len) demo2 [0] [3] None None demo_workspace = (Ok tt, w) ∧
    batch_meta_with_options [0] [3] None None demo2 = Ok bm ∧ holds bm w ∧ w_caps w = w_caps demo_workspace.
Proof.
  pose proof (fill_equals_owned (λ _ len, len) demo2 [0] [3] None None demo_workspace demo2_ok
    ltac:(by apply demo_batch_u32) demo_workspace_ok ltac:(vm_compute; discriminate) (demo_caps_fit None)) as H.
  destruct (batch_meta_with_options [0] [3] None None demo2) as [bm|e|] eqn:Hbm.
  2,3: vm_compute in Hbm; discriminate Hbm.
  destruct (fill_batch_meta_with_options _ demo2 [0] [3] None None demo_workspace) as [[[]|e|] w]; [|done..].
  destruct H as (Hh & _ & Hc & _). exists w, bm. done.
Defined.

(** ** Two divergences *)

(** A manager without groups: the fill accepts the batch the owned builder
    refuses. *)
Definition bare : StateManager :=
  match new (λ _, true) demo_config [] 0 with Ok m => snd (reserve 0 2 (snd (new_seq [] m))) | _ => demo2 end.

Lemma bare_batch_diverges :
  batch_meta_with_options [0] [2] None None bare = Err (Ir (ZeroBatchDim 0 1 2 4)) ∧
  fst (fill_batch_meta (λ _ len, len) bare [0] [2] None demo_workspace) = Ok tt.
Proof. split; vm_compute; reflexivity. Qed.

(** An ancestor slice longer than its declared shape passes the capacity check
    and grows the buffer before the validation refuses it. *)
Lemma long_ancestors_grow :
  match fill_tree (λ _ len, len)
          {| ti_parents := [-1]; ti_t_max := 1; ti_ancestors := replicate 40 false |} demo_workspace with
  | Some (Err (Ir (AncestorLength 1 1 1 40)), w) =>
      k_tree_ancestors (w_caps demo_workspace) = 16 ∧ k_tree_ancestors (w_caps w) = 40
  | _ => False
  end.
Proof. vm_compute. split; reflexivity. Qed.
