(* ===== verification/Budget.v ===== *)
(** * Budget and statistics

    [budget] and [stats] of [crates/r9v-state/src/manager.rs].  The free bytes
    they report and the bytes the live sequences hold add up to what was
    assigned, group by group and in total, and none of the [expect]s they rely
    on can fire.  The utilization, a quotient of two counts in floating point,
    is kept as the two counts. *)

From S2P Require Import Prelude Errors Spec Table Pools Manager Invariant Construct Reserve Admission Commit Mirror.

#[global] Open Scope Z_scope.

Record GroupBudget : Type := {
  gb_index : nat;
  gb_total_blocks : Z;
  gb_free_blocks : Z;
  gb_block_bytes : Z;
  gb_base_offset : Z;
  gb_total_slots : Z;
  gb_free_slots : Z;
  gb_slot_bytes_per_seq : Z
}.

Record Budget : Type := {
  bg_groups : list GroupBudget;
  bg_pool_bytes_total : Z;
  bg_pool_bytes_free : Z;
  bg_fixed_bytes_total : Z;
  bg_fixed_bytes_free : Z;
  bg_host_free : Z;
  bg_unusable_bytes : Z
}.

(** [utilization] is [st_allocated / st_total], or 0 when there is no block. *)
Record Stats : Type := {
  st_prefix_hit_rate : Z;
  st_evictions : Z;
  st_swaps : Z;
  st_commits : Z;
  st_allocated : Z;
  st_total : Z
}.

(** The paged half of an entry: what it adds to the free bytes, and the entry. *)
Definition paged_entry (pool : option BlockPool) (entry : GroupBudget) : StateResult (Z * GroupBudget) :=
  match pool with
  | None => Ok (0, entry)
  | Some p =>
      let free := Z.of_nat (length (p_free p)) in
      let* free_blocks := or_panic (try_from U32_MAX free) in
      Ok (free * p_block_bytes p,
          {| gb_index := gb_index entry; gb_total_blocks := p_total p; gb_free_blocks := free_blocks;
             gb_block_bytes := p_block_bytes p; gb_base_offset := p_base_offset p;
             gb_total_slots := gb_total_slots entry; gb_free_slots := gb_free_slots entry;
             gb_slot_bytes_per_seq := gb_slot_bytes_per_seq entry |})
  end.

(** The fixed half. *)
Definition fixed_entry (pool : option FixedPool) (entry : GroupBudget) : StateResult (Z * GroupBudget) :=
  match pool with
  | None => Ok (0, entry)
  | Some f =>
      let free := Z.of_nat (size (f_free f)) in
      let* free_slots := or_panic (try_from U32_MAX free) in
      Ok (free * f_slot_bytes_per_seq f,
          {| gb_index := gb_index entry; gb_total_blocks := gb_total_blocks entry;
             gb_free_blocks := gb_free_blocks entry; gb_block_bytes := gb_block_bytes entry;
             gb_base_offset := f_base_offset f; gb_total_slots := f_total_slots f;
             gb_free_slots := free_slots; gb_slot_bytes_per_seq := f_slot_bytes_per_seq f |})
  end.

(** One round of the loop; the sums are 128 bits wide and cannot overflow. *)
Definition budget_group (m : StateManager) (gi : nat) : StateResult (Z * Z * GroupBudget) :=
  let* pool := or_panic (m_pools m !! gi) in
  let* (paged, entry) := paged_entry pool
    {| gb_index := gi; gb_total_blocks := 0; gb_free_blocks := 0; gb_block_bytes := 0; gb_base_offset := 0;
       gb_total_slots := 0; gb_free_slots := 0; gb_slot_bytes_per_seq := 0 |} in
  let* pool := or_panic (m_fixed m !! gi) in
  let* (fixed, entry) := fixed_entry pool entry in
  Ok (paged, fixed, entry).

(** [StateManager::budget]. *)
Definition budget (m : StateManager) : StateResult Budget :=
  let* entries := omapM (budget_group m) (seqn (length (m_groups m))) in
  let* pool_free := or_panic (try_from U64_MAX (Zsum (map (λ e, e.1.1) entries))) in
  let* fixed_free := or_panic (try_from U64_MAX (Zsum (map (λ e, e.1.2) entries))) in
  Ok {| bg_groups := map snd entries; bg_pool_bytes_total := m_pool_bytes_total m;
        bg_pool_bytes_free := pool_free; bg_fixed_bytes_total := m_fixed_bytes_total m;
        bg_fixed_bytes_free := fixed_free; bg_host_free := 0; bg_unusable_bytes := m_unusable_bytes m |}.

(** The allocated blocks of one pool. *)
Definition pool_allocated (p : BlockPool) : StateResult Z :=
  or_panic (checked_sub (p_total p) (Z.of_nat (length (p_free p)))).

(** [StateManager::stats]. *)
Definition stats (m : StateManager) : StateResult Stats :=
  let pools := omap id (m_pools m) in
  let* allocated := omapM pool_allocated pools in
  Ok {| st_prefix_hit_rate := 0; st_evictions := 0; st_swaps := m_swaps m; st_commits := m_commits m;
        st_allocated := Zsum allocated; st_total := Zsum (map p_total pools) |}.

(** ** What the sequences hold *)

Definition held_blocks (m : StateManager) (gi : nat) : Z := Z.of_nat (length (owned (table_of gi) (m_seqs m))).
Definition held_slots (m : StateManager) (gi : nat) : Z := Z.of_nat (length (owned (slots_of gi) (m_seqs m))).

Definition held_paged_bytes (m : StateManager) : Z :=
  Zsum (imap (λ gi g, if is_paged (g_spec g) then held_blocks m gi * group_block_bytes g else 0) (m_groups m)).
Definition held_fixed_bytes (m : StateManager) : Z :=
  Zsum (imap (λ gi g, if is_paged (g_spec g) then 0 else held_slots m gi * group_slot_bytes g) (m_groups m)).

(** An entry as the invariant gives it. *)
Definition entry_of (bpg : Z) (m : StateManager) (gi : nat) (g : LayerGroup) : GroupBudget :=
  let base := arena_base bpg (max_seqs (m_config m)) (m_groups m) gi in
  if is_paged (g_spec g)
  then {| gb_index := gi; gb_total_blocks := bpg; gb_free_blocks := bpg - held_blocks m gi;
          gb_block_bytes := group_block_bytes g; gb_base_offset := base; gb_total_slots := 0;
          gb_free_slots := 0; gb_slot_bytes_per_seq := 0 |}
  else {| gb_index := gi; gb_total_blocks := 0; gb_free_blocks := 0; gb_block_bytes := 0;
          gb_base_offset := base; gb_total_slots := max_seqs (m_config m);
          gb_free_slots := max_seqs (m_config m) - held_slots m gi;
          gb_slot_bytes_per_seq := group_slot_bytes g |}.

Lemma Zsum_imap_add {A} (f g : nat → A → Z) l :
  Zsum (imap f l) + Zsum (imap g l) = Zsum (imap (λ i x, f i x + g i x) l).
Proof.
  revert f g. induction l as [|x l IH]; intros f g; [done|].
  cbn [imap]. rewrite !Zsum_cons. specialize (IH (f ∘ S) (g ∘ S)).
  unfold compose in *. rewrite <- IH. lia.
Qed.

Lemma imap_const {A B} (f : A → B) l : imap (λ _ x, f x) l = map f l.
Proof. induction l as [|x l IH]; [done|]. cbn. f_equal. exact IH. Qed.

Lemma paged_sum bpg groups :
  Zsum (map (λ g, if is_paged (g_spec g) then bpg * group_block_bytes g else 0) groups) =
  bpg * Zsum (map group_block_bytes (paged_groups groups)).
Proof.
  unfold paged_groups. induction groups as [|g l IH]; [unfold Zsum; simpl; lia|].
  cbn [map]. rewrite !Zsum_cons. rewrite IH, filter_cons.
  destruct (is_paged (g_spec g)).
  - rewrite decide_True by done. cbn [map]. rewrite !Zsum_cons. lia.
  - rewrite decide_False by done. lia.
Qed.

Section budget.
Context (bpg : Z) (m : StateManager).
Hypothesis Hinv : manager_inv bpg m.

Definition paged_free (gi : nat) (g : LayerGroup) : Z :=
  if is_paged (g_spec g) then (bpg - held_blocks m gi) * group_block_bytes g else 0.
Definition fixed_free (gi : nat) (g : LayerGroup) : Z :=
  if is_paged (g_spec g) then 0 else (max_seqs (m_config m) - held_slots m gi) * group_slot_bytes g.

Lemma budget_group_ok gi g :
  m_groups m !! gi = Some g →
  budget_group m gi = Ok (paged_free gi g, fixed_free gi g, entry_of bpg m gi g) ∧
  (if is_paged (g_spec g) then 0 ≤ held_blocks m gi ≤ bpg else 0 ≤ held_slots m gi ≤ max_seqs (m_config m)).
Proof.
  intros Hg. unfold budget_group, paged_free, fixed_free, entry_of.
  destruct (mi_config _ _ Hinv) as (_ & _ & Hms). pose proof (mi_bpg _ _ Hinv) as Hbpg.
  unfold MAX_SLOT_BLOCKS, MAX_SEQS_HARD in *.
  destruct (mi_pools _ _ Hinv) as [_ Hp]. specialize (Hp gi g Hg).
  destruct (mi_fixed _ _ Hinv) as [_ Hf]. specialize (Hf gi g Hg).
  destruct (is_paged (g_spec g)).
  - destruct Hp as (p & Hpl & Hpart & Ht & Hb & Ho).
    pose proof (block_count p _ ltac:(lia) Hpart) as Hlen. fold (held_blocks m gi) in Hlen.
    assert (0 ≤ held_blocks m gi) by (unfold held_blocks; lia).
    rewrite Hpl, Hf. cbn [or_panic obind paged_entry]. rewrite try_from_ok by (unfold U32_MAX; lia).
    cbn [or_panic obind fixed_entry]. split; [|lia]. f_equal. rewrite Ht, Hb, Ho.
    replace (Z.of_nat (length (p_free p))) with (bpg - held_blocks m gi) by lia. done.
  - destruct Hf as (f & Hfl & Hpart & Ht & Hb & _ & Ho).
    pose proof (slot_count f _ ltac:(lia) Hpart) as Hlen. fold (held_slots m gi) in Hlen.
    assert (0 ≤ held_slots m gi) by (unfold held_slots; lia).
    rewrite Hp, Hfl. cbn [or_panic obind paged_entry fixed_entry]. rewrite try_from_ok by (unfold U32_MAX; lia).
    cbn [or_panic obind]. split; [|lia]. f_equal. rewrite Ht, Hb, Ho.
    replace (Z.of_nat (size (f_free f))) with (max_seqs (m_config m) - held_slots m gi) by lia. done.
Qed.

Definition entries : list (Z * Z * GroupBudget) :=
  imap (λ gi g, (paged_free gi g, fixed_free gi g, entry_of bpg m gi g)) (m_groups m).

Lemma budget_entries : omapM (budget_group m) (seqn (length (m_groups m))) = Ok entries.
Proof.
  apply omapM_Forall2, Forall2_lookup. intros gi. unfold entries, seqn, seqn_from.
  rewrite list_lookup_imap. destruct (m_groups m !! gi) as [g|] eqn:Hg; simpl.
  - rewrite lookup_seq_lt by (by eapply lookup_lt_Some). constructor. by apply budget_group_ok.
  - rewrite lookup_seq_ge by (by apply lookup_ge_None). constructor.
Qed.

Lemma held_nonneg gi : 0 ≤ held_blocks m gi ∧ 0 ≤ held_slots m gi.
Proof. unfold held_blocks, held_slots. lia. Qed.

(** Free and held bytes are what was assigned. *)
Lemma paged_bytes : Zsum (imap paged_free (m_groups m)) + held_paged_bytes m = m_pool_bytes_total m.
Proof.
  destruct (mi_totals _ _ Hinv) as (-> & _). unfold held_paged_bytes, block_cost, paged_groups, paged_free.
  rewrite Zsum_imap_add.
  rewrite (imap_ext _ (λ _ g, if is_paged (g_spec g) then bpg * group_block_bytes g else 0)).
  2:{ intros gi g _. destruct (is_paged (g_spec g)); lia. }
  rewrite imap_const. apply paged_sum.
Qed.

Lemma fixed_bytes_free : Zsum (imap fixed_free (m_groups m)) + held_fixed_bytes m = m_fixed_bytes_total m.
Proof.
  destruct (mi_totals _ _ Hinv) as (_ & -> & _). unfold held_fixed_bytes, fixed_bytes, fixed_free.
  rewrite Zsum_imap_add.
  rewrite (imap_ext _ (λ _ g, fixed_weight (max_seqs (m_config m)) g)).
  2:{ intros gi g _. unfold fixed_weight. destruct (is_paged (g_spec g)); lia. }
  by rewrite imap_const.
Qed.

Lemma sums_nonneg :
  0 ≤ Zsum (imap paged_free (m_groups m)) ∧ 0 ≤ held_paged_bytes m ∧
  0 ≤ Zsum (imap fixed_free (m_groups m)) ∧ 0 ≤ held_fixed_bytes m.
Proof.
  destruct (mi_layout _ _ Hinv) as [_ Hl].
  unfold held_paged_bytes, held_fixed_bytes.
  split_and!; apply Zsum_pos, Forall_lookup; intros gi x; rewrite list_lookup_imap;
    destruct (m_groups m !! gi) as [g|] eqn:Hg; [|done| |done| |done| |done]; intros [= <-];
    destruct (budget_group_ok gi g Hg) as [_ Hb]; destruct (Hl gi g Hg) as [_ Hok];
    destruct (group_block_bytes_bounds g Hok) as [? _]; pose proof (group_slot_bytes_bounds g Hok); unfold paged_free, fixed_free;
    destruct (is_paged (g_spec g)); try lia; apply Z.mul_nonneg_nonneg; lia.
Qed.

Lemma budget_ok :
  ∃ b, budget m = Ok b ∧ bg_groups b = imap (entry_of bpg m) (m_groups m) ∧
    bg_pool_bytes_free b = Zsum (imap paged_free (m_groups m)) ∧
    bg_fixed_bytes_free b = Zsum (imap fixed_free (m_groups m)) ∧
    bg_pool_bytes_total b = m_pool_bytes_total m ∧ bg_fixed_bytes_total b = m_fixed_bytes_total m ∧
    bg_unusable_bytes b = m_unusable_bytes m.
Proof.
  pose proof paged_bytes. pose proof fixed_bytes_free. pose proof sums_nonneg.
  destruct (mi_totals _ _ Hinv) as (_ & _ & ? & ?).
  assert (map (λ e, e.1.1) entries = imap paged_free (m_groups m)) as E1 by (unfold entries; by rewrite fmap_imap).
  assert (map (λ e, e.1.2) entries = imap fixed_free (m_groups m)) as E2 by (unfold entries; by rewrite fmap_imap).
  assert (map snd entries = imap (entry_of bpg m) (m_groups m)) as E3 by (unfold entries; by rewrite fmap_imap).
  unfold budget. rewrite budget_entries. cbn [obind]. rewrite E1, E2, E3.
  rewrite try_from_ok by lia. cbn [or_panic obind]. rewrite try_from_ok by lia. cbn [or_panic obind].
  eexists. split; [done|]. done.
Qed.

(** The allocated blocks are the held ones. *)
Definition pool_held (o : option BlockPool) : Z :=
  match o with Some p => p_total p - Z.of_nat (length (p_free p)) | None => 0 end.
Definition pool_total (o : option BlockPool) : Z :=
  match o with Some p => p_total p | None => 0 end.

Lemma pools_by_group (f : option BlockPool → Z) (g : nat → LayerGroup → Z) :
  (∀ gi gr, m_groups m !! gi = Some gr → ∀ o, m_pools m !! gi = Some o → f o = g gi gr) →
  map f (m_pools m) = imap g (m_groups m).
Proof.
  intros H. destruct (mi_pools _ _ Hinv) as [Hlen _]. apply list_eq. intros gi.
  rewrite list_lookup_fmap, list_lookup_imap.
  destruct (m_groups m !! gi) as [gr|] eqn:Hg.
  - destruct (lookup_lt_is_Some_2 (m_pools m) gi) as [o Ho]; [rewrite Hlen; by eapply lookup_lt_Some|].
    rewrite Ho. simpl. f_equal. by eapply H.
  - apply lookup_ge_None in Hg. rewrite lookup_ge_None_2 by lia. done.
Qed.

Lemma held_of_group gi g o :
  m_groups m !! gi = Some g → m_pools m !! gi = Some o →
  pool_held o = (if is_paged (g_spec g) then held_blocks m gi else 0) ∧
  pool_total o = (if is_paged (g_spec g) then bpg else 0) ∧ 0 ≤ pool_held o ≤ pool_total o.
Proof.
  intros Hg Ho. destruct (mi_pools _ _ Hinv) as [_ Hp]. specialize (Hp gi g Hg).
  destruct (is_paged (g_spec g)).
  - destruct Hp as (p & Hpl & Hpart & Ht & _). simplify_eq. simpl. pose proof (mi_bpg _ _ Hinv).
    pose proof (block_count p _ ltac:(lia) Hpart) as Hc. fold (held_blocks m gi) in Hc. pose proof (held_nonneg gi). lia.
  - simplify_eq. simpl. lia.
Qed.

Lemma allocated_pools pools :
  Forall (λ o, 0 ≤ pool_held o) pools →
  ∃ l, omapM pool_allocated (omap id pools) = Ok l ∧ Zsum l = Zsum (map pool_held pools) ∧
    Zsum (map p_total (omap id pools)) = Zsum (map pool_total pools).
Proof.
  induction 1 as [|o pools Ho _ IH]; [by exists []|]. destruct IH as (l & Hl & Hs & Ht).
  destruct o as [p|].
  - change (omap id (Some p :: pools)) with (p :: omap id pools). simpl in Ho. cbn [omapM].
    assert (pool_allocated p = Ok (p_total p - Z.of_nat (length (p_free p)))) as ->.
    { unfold pool_allocated. by rewrite checked_sub_ok by lia. }
    cbn [obind]. rewrite Hl. cbn [obind]. eexists. split; [done|].
    cbn [map pool_held pool_total]. rewrite !Zsum_cons. lia.
  - change (omap id (None :: pools)) with (omap id pools). exists l. split; [done|].
    cbn [map pool_held pool_total]. rewrite !Zsum_cons. lia.
Qed.

Lemma stats_ok :
  ∃ st, stats m = Ok st ∧ st_swaps st = m_swaps m ∧ st_commits st = m_commits m ∧
    st_allocated st = Zsum (imap (λ gi g, if is_paged (g_spec g) then held_blocks m gi else 0) (m_groups m)) ∧
    st_total st = Zsum (imap (λ _ g, if is_paged (g_spec g) then bpg else 0) (m_groups m)) ∧
    0 ≤ st_allocated st ≤ st_total st.
Proof.
  assert (∀ o, o ∈ m_pools m → 0 ≤ pool_held o ≤ pool_total o) as Hr.
  { intros o (gi & Ho)%list_elem_of_lookup. destruct (mi_pools _ _ Hinv) as [Hlen _].
    destruct (lookup_lt_is_Some_2 (m_groups m) gi) as [g Hg]; [rewrite <- Hlen; by eapply lookup_lt_Some|].
    by destruct (held_of_group gi g o Hg Ho) as (_ & _ & ?). }
  destruct (allocated_pools (m_pools m)) as (l & Hl & Hs & Ht).
  { apply Forall_forall. intros o Ho. by apply Hr. }
  unfold stats. rewrite Hl. cbn [obind]. eexists. split; [done|]. simpl. rewrite Hs, Ht.
  rewrite <- (pools_by_group pool_held), <- (pools_by_group pool_total).
  - do 4 (split; [done|]). clear Hl Hs Ht. induction (m_pools m) as [|o pools IH]; [by unfold Zsum|].
    pose proof (Hr o ltac:(by left)). cbn [map]. rewrite !Zsum_cons.
    assert (0 ≤ Zsum (map pool_held pools) ≤ Zsum (map pool_total pools)); [|lia].
    apply IH. intros o' Ho'. apply Hr. by right.
  - intros gi g Hg o Ho. by destruct (held_of_group gi g o Hg Ho) as (_ & ? & _).
  - intros gi g Hg o Ho. by apply held_of_group.
Qed.
End budget.

(** The budget of a well-formed manager: the call never panics; free bytes
    and the bytes the live sequences hold add up to what was assigned, for the
    paged and for the fixed pools; everything assigned plus the unusable rest
    fits 64 bits; and the statistics count the held blocks, at most as many as
    there are. *)
Theorem budget_conserved m :
  manager_ok m →
  ∃ b st, budget m = Ok b ∧ stats m = Ok st ∧
    bg_pool_bytes_free b + held_paged_bytes m = bg_pool_bytes_total b ∧
    bg_fixed_bytes_free b + held_fixed_bytes m = bg_fixed_bytes_total b ∧
    0 ≤ bg_pool_bytes_free b ∧ 0 ≤ bg_fixed_bytes_free b ∧
    bg_pool_bytes_total b + bg_fixed_bytes_total b + bg_unusable_bytes b ≤ U64_MAX ∧
    (∀ gi g, m_groups m !! gi = Some g → ∃ e, bg_groups b !! gi = Some e ∧ gb_index e = gi ∧
       gb_free_blocks e + (if is_paged (g_spec g) then held_blocks m gi else 0) = gb_total_blocks e ∧
       gb_free_slots e + (if is_paged (g_spec g) then 0 else held_slots m gi) = gb_total_slots e) ∧
    0 ≤ st_allocated st ≤ st_total st ∧
    st_allocated st = Zsum (imap (λ gi g, if is_paged (g_spec g) then held_blocks m gi else 0) (m_groups m)).
Proof.
  intros [bpg Hinv]. destruct (budget_ok bpg m Hinv) as (b & Hb & Hg & Hpf & Hff & Hpt & Hft & Hu).
  destruct (stats_ok bpg m Hinv) as (st & Hst & _ & _ & Ha & _ & Hr).
  destruct (mi_totals _ _ Hinv) as (_ & _ & _ & Htot).
  pose proof (paged_bytes bpg m Hinv). pose proof (fixed_bytes_free bpg m Hinv).
  pose proof (sums_nonneg bpg m Hinv) as (? & _ & ? & _).
  exists b, st. rewrite Hpf, Hff, Hpt, Hft, Hu. split_and!; try done; try lia.
  intros gi g Hgi. rewrite Hg, list_lookup_imap, Hgi. simpl. eexists. split; [done|].
  unfold entry_of. destruct (is_paged (g_spec g)); simpl; split_and!; try done; lia.
Qed.

Lemma budget_conserved_witness :
  ∃ b, budget demo3 = Ok b ∧ 0 < bg_pool_bytes_free b ∧
    bg_pool_bytes_free b + held_paged_bytes demo3 = bg_pool_bytes_total b.
Proof.
  destruct (budget_conserved demo3 demo3_ok) as (b & st & Hb & _ & Hs & _).
  exists b. split; [exact Hb|]. split; [|exact Hs].
  vm_compute in Hb. injection Hb as <-. vm_compute. reflexivity.
Defined.
