(* ===== verification/SchedError.v ===== *)
(** * Errors of the scheduler

    [crates/r9v-sched/src/error.rs], with the shape-bucket keys the errors
    carry.  A formatted detail is its template together with the numbers it
    prints, so two refusals are equal exactly when the texts are.

    Kernel launches: The launch types of [crates/r9v-registry/src]: operation identifiers and
    tiers ([types.rs]), resolved variants ([resolution.rs]), and the launch
    lists of a captured graph with their dispatch ([launch.rs]). *)

From S2P Require Import Prelude Bytes Errors.

#[global] Open Scope Z_scope.

(** [OpId]. *)
Module OpId.
Inductive t : Type :=
| EmbedGather | NgramGather | QuantAct | Cast | Copy | GatherRows | ScatterAddRows | Split | Concat
| Norm | ResidualAdd | ActMul | Activation | LogitSoftcap | Rope | Matmul | MoeRoute | MoeFfn
| StateWriteKv | Attention | CausalConv1d | LinearAttnScan | LogitsPostprocess | Sample | Verify
| AllReduce | AllGather | ReduceScatter | AllToAll | Send | Recv | Barrier.

#[global] Instance eq_dec : EqDecision t.
Proof. solve_decision. Defined.
End OpId.

Inductive Tier : Type := T0 | T0v | T1 | T2.

#[global] Instance Tier_eq_dec : EqDecision Tier.
Proof. solve_decision. Defined.

Record LaunchGeometry : Type := {
  g_grid : Z * Z * Z;
  g_block : Z * Z * Z;
  g_shared_mem_bytes : Z
}.

(** A string and a path are their bytes; [ArchName] is a string. *)
Abbreviation ArchName := (list Z).

(** [ArtifactOrigin]: where the code object of a variant lives. *)
Inductive ArtifactOrigin : Type := Shipped | Local (base_dir : option (list Z)).

Record ResolvedVariant : Type := {
  v_variant_hash : Z;
  v_arch : ArchName;
  v_op : OpId.t;
  v_tier : Tier;
  v_entry_symbol : list Z;
  v_launch_geometry : LaunchGeometry;
  v_workspace_bytes : Z;
  v_static_bytes : Z;
  v_static_flops : Z;
  v_code_object_path : option (list Z);
  v_artifact_origin : option ArtifactOrigin;
  v_code_object_bytes : option (list Z);
  v_validated : bool
}.

(** [LaunchEntry]; its constructor is [LaunchEntry::new]. *)
Record LaunchEntry : Type := {
  e_variant_hash : Z;
  e_entry_symbol : list Z;
  e_geometry : LaunchGeometry;
  e_workspace_bytes : Z;
  e_static_bytes : Z;
  e_static_flops : Z;
  e_args_blob : list Z
}.

(** [LaunchList]: the recorded entries in replay order. *)
Record LaunchList : Type := { ll_entries : list LaunchEntry }.

Definition launch_list_new : LaunchList := {| ll_entries := [] |}.
Definition launch_record (entry : LaunchEntry) (l : LaunchList) : LaunchList :=
  {| ll_entries := ll_entries l ++ [entry] |}.
Definition launch_list_len (l : LaunchList) : nat := length (ll_entries l).
Definition launch_list_is_empty (l : LaunchList) : bool := bool_decide (ll_entries l = []).

(** [LaunchRecord] and the in-memory [StubDevice] that keeps them. *)
Record LaunchRecord : Type := {
  lr_variant_hash : Z;
  lr_entry_symbol : list Z;
  lr_workspace_used : Z;
  lr_static_bytes : Z;
  lr_static_flops : Z;
  lr_geometry : LaunchGeometry
}.

Definition record_of (entry : LaunchEntry) : LaunchRecord :=
  {| lr_variant_hash := e_variant_hash entry; lr_entry_symbol := e_entry_symbol entry;
     lr_workspace_used := e_workspace_bytes entry; lr_static_bytes := e_static_bytes entry;
     lr_static_flops := e_static_flops entry; lr_geometry := e_geometry entry |}.

(** ** Dispatch *)

(** [DeviceExecutor] and [ProfileSink], over the world they act on. *)
Class DeviceExecutor (W E : Type) : Type := launch_kernel : LaunchEntry → stm W E unit.

Record ProfileSink (W E : Type) : Type := {
  record_start : LaunchEntry → stm W E unit;
  record_end : LaunchEntry → stm W E unit
}.
Arguments record_start {W E} _ _ _.
Arguments record_end {W E} _ _ _.

Section dispatch.
Context {W E : Type} `{DeviceExecutor W E}.

(** [dispatch_launch]: the end is recorded whether or not the launch failed,
    and the launch error takes precedence. *)
Definition dispatch_launch (entry : LaunchEntry) (profiler : option (ProfileSink W E)) : stm W E unit :=
  match profiler with
  | Some sink =>
      let! _ := record_start sink entry in
      λ w, let '(launch_res, w1) := launch_kernel entry w in
           match launch_res with
           | Panic => (Panic, w1)
           | _ =>
               let '(end_res, w2) := record_end sink entry w1 in
               (match launch_res, end_res with
                | _, Panic => Panic
                | Ok _, Ok _ => Ok tt
                | Err e, _ => Err e
                | Ok _, Err e => Err e
                | Panic, _ => Panic
                end, w2)
           end
  | None => launch_kernel entry
  end.

Definition replay (l : LaunchList) (profiler : option (ProfileSink W E)) : stm W E unit :=
  sfor (λ entry, dispatch_launch entry profiler) (ll_entries l).
End dispatch.

(** The stub device appends a record per launch and never fails. *)
#[global] Instance stub_device E : DeviceExecutor (list LaunchRecord) E :=
  λ entry, smodify (λ records, records ++ [record_of entry]).

(** ** Facts *)

(** Replaying a list on the stub device records its entries in order. *)
Lemma replay_stub {E} (l : LaunchList) (records : list LaunchRecord) :
  replay (E:=E) l None records = (Ok tt, records ++ map record_of (ll_entries l)).
Proof.
  unfold replay. destruct l as [entries]. simpl. revert records.
  induction entries as [|entry entries IH]; intros records; simpl; [by rewrite app_nil_r|].
  erewrite sbind_Ok by reflexivity. rewrite IH. by rewrite <- app_assoc.
Qed.

(** * Errors of the scheduler *)

(** [StepGraphKey] of [crates/r9v-ir/src/graph.rs]. *)
Record StepGraphKey : Type := {
  k_plan_id : Z;
  k_rank : Z;
  k_s : Z;
  k_t_dec : Z;
  k_t_pre : Z;
  k_segment : Z
}.

#[global] Instance StepGraphKey_eq_dec : EqDecision StepGraphKey.
Proof. solve_decision. Defined.

(** The problems collected by the request and configuration validators. *)
Inductive RequestProblem : Type :=
| EmptyPrompt
| ZeroMaxTokens
| InvalidSampling (problem : IrError)
| ZeroMinChunk
| ChunkBounds (max_chunk min_chunk : Z)
| NotOneSeq (max_seqs : Z)
| NotZeroDraft (k_max : Z)
| ZeroVocab
| BadManualBudget (ms : f32)
| BadMinAccept (v : f32)
| ZeroMaxOutstanding.

(** The reasons of [GraphCaptureFailed]; a registry refusal is its text. *)
Inductive CaptureReason : Type :=
| EmptyProgram
| NoSampleOp
| ResolveFailed (op : OpId.t) (desc : string) (e : Text)
| MissingTemplate (op : OpId.t) (desc : string)
| MissingSlot (op : OpId.t) (workspace_bytes : Z)
| MisalignedSlot (op : OpId.t) (slot : Z)
| ShortBlob (op : OpId.t) (len slot required_len : Z)
| NoLaunches.

Inductive SchedError : Type :=
| SState (e : StateError)
| SIr (e : IrError)
| InvalidRequest (problems : list RequestProblem)
| ArithmeticOverflow (what : string) (details : Text)
| ArenaOverflow (required available shortfall : Z)
| GraphCaptureFailed (key : StepGraphKey) (reason : CaptureReason)
| DetokenizeError (detail : Text)
| ExecutionFailed (detail : Text)
| InvalidCost (context : string) (value : f32)
| CapacityExceeded (outstanding maximum : Z)
| StaleStep (expected : option Z) (got : Z)
| Internal (what : Text).

(** [SchedResult<T>]. *)
Abbreviation SchedResult := (outcome SchedError).

(** [SchedError::overflow]. *)
Definition overflow (what template : string) (values : list Z) : SchedError :=
  ArithmeticOverflow what (msg template (map Num values)).
