(* ===== verification/Arena.v ===== *)
(** * The workspace arena

    [crates/r9v-sched/src/arena.rs]: a bump allocator of 256-byte aligned
    slices inside a capacity that only grows. *)

From S2P Require Import Prelude Bytes SchedError.

#[global] Open Scope Z_scope.

Definition WORKSPACE_ALIGNMENT : Z := 256.

Record WorkspaceArena : Type := {
  a_rank : Z;
  a_capacity_bytes : Z;
  a_allocated_bytes : Z;
  a_peak_bytes : Z;
  a_generation : Z
}.

Definition arena_new (rank capacity_bytes : Z) : WorkspaceArena :=
  {| a_rank := rank; a_capacity_bytes := capacity_bytes; a_allocated_bytes := 0;
     a_peak_bytes := 0; a_generation := 1 |}.

Definition available_bytes (a : WorkspaceArena) : Z :=
  saturating_sub (a_capacity_bytes a) (a_allocated_bytes a).

Definition arena (A : Type) : Type := stm WorkspaceArena SchedError A.

Definition set_allocated (allocated peak : Z) (a : WorkspaceArena) : WorkspaceArena :=
  {| a_rank := a_rank a; a_capacity_bytes := a_capacity_bytes a; a_allocated_bytes := allocated;
     a_peak_bytes := peak; a_generation := a_generation a |}.

Definition set_capacity (capacity generation : Z) (a : WorkspaceArena) : WorkspaceArena :=
  {| a_rank := a_rank a; a_capacity_bytes := capacity; a_allocated_bytes := a_allocated_bytes a;
     a_peak_bytes := a_peak_bytes a; a_generation := generation |}.

(** [(x + mask) & !mask] on [u64]. *)
Definition align_up (x align_mask : Z) : option Z :=
  match checked_add U64_MAX x align_mask with
  | Some sum => Some (Z.land sum (U64_MAX - align_mask))
  | None => None
  end.

Definition allocate_slice (size_bytes : Z) : arena Z :=
  let! align_mask := slift (ok_or (checked_sub WORKSPACE_ALIGNMENT 1)
                              (overflow "arena_alignment" "invalid alignment" [])) in
  let! a := sget in
  let allocated := a_allocated_bytes a in
  let! aligned_offset := slift (ok_or (align_up allocated align_mask)
      (overflow "arena_alignment" "allocated={} align_mask={}" [allocated; align_mask])) in
  let! new_allocated := slift (ok_or (checked_add U64_MAX aligned_offset size_bytes)
      (overflow "arena_slice" "offset={} size={}" [aligned_offset; size_bytes])) in
  if a_capacity_bytes a <? new_allocated then
    sfail (ArenaOverflow new_allocated (a_capacity_bytes a)
             (saturating_sub new_allocated (a_capacity_bytes a)))
  else
    let! _ := smodify (set_allocated new_allocated
                (if a_peak_bytes a <? new_allocated then new_allocated else a_peak_bytes a)) in
    sret aligned_offset.

Definition check_requirement (a : WorkspaceArena) (required_bytes : Z) : SchedResult unit :=
  if a_capacity_bytes a <? required_bytes then
    Err (ArenaOverflow required_bytes (a_capacity_bytes a)
           (saturating_sub required_bytes (a_capacity_bytes a)))
  else Ok tt.

Definition arena_reset : arena unit := smodify (λ a, set_allocated 0 (a_peak_bytes a) a).

(** The new capacity is stored before the generation is counted. *)
Definition grow (new_capacity_bytes : Z) : arena unit :=
  let! a := sget in
  if new_capacity_bytes <=? a_capacity_bytes a then sret tt
  else
    let! align_mask := slift (ok_or (checked_sub WORKSPACE_ALIGNMENT 1)
                                (overflow "arena_growth" "invalid alignment" [])) in
    let! aligned_cap := slift (ok_or (align_up new_capacity_bytes align_mask)
        (overflow "arena_growth" "overflow aligning new capacity {}" [new_capacity_bytes])) in
    let! _ := smodify (set_capacity aligned_cap (a_generation a)) in
    let! generation := slift (ok_or (checked_add U64_MAX (a_generation a) 1)
                                (overflow "arena_generation" "generation counter overflow" [])) in
    smodify (set_capacity aligned_cap generation).

(** ** One slice *)

Record arena_ok (a : WorkspaceArena) : Prop := {
  ao_capacity : is_u64 (a_capacity_bytes a);
  ao_allocated : 0 ≤ a_allocated_bytes a ≤ a_capacity_bytes a;
  ao_peak : a_allocated_bytes a ≤ a_peak_bytes a ≤ a_capacity_bytes a;
  ao_generation : is_u64 (a_generation a)
}.

(** The least multiple of the alignment that is at least [x]. *)
Definition aligned (x : Z) : Z := WORKSPACE_ALIGNMENT * div_ceil x WORKSPACE_ALIGNMENT.

Lemma aligned_bounds x : x ≤ aligned x < x + WORKSPACE_ALIGNMENT.
Proof.
  unfold aligned. pose proof (div_ceil_spec x WORKSPACE_ALIGNMENT ltac:(done)).
  unfold WORKSPACE_ALIGNMENT in *. lia.
Qed.

Lemma aligned_divide x : (WORKSPACE_ALIGNMENT | aligned x).
Proof. unfold aligned. apply Z.divide_factor_l. Qed.

Lemma align_mask_land x :
  0 ≤ x ≤ U64_MAX → Z.land x (U64_MAX - 255) = 256 * (x / 256).
Proof.
  intros Hx. change 256 with (2 ^ 8) at 1 2. rewrite (Z.mul_comm (2 ^ 8)).
  rewrite <- Z.shiftr_div_pow2, <- Z.shiftl_mul_pow2 by lia.
  apply Z.bits_inj'. intros n Hn.
  rewrite Z.land_spec, Z.shiftl_spec by lia.
  replace (U64_MAX - 255) with (Z.shiftl (Z.ones 56) 8) by reflexivity.
  rewrite Z.shiftl_spec by lia. destruct (Z.ltb_spec n 8) as [Hn8|Hn8].
  { rewrite !(Z.testbit_neg_r _ (n - 8)) by lia. apply andb_false_r. }
  rewrite Z.shiftr_spec, Z.sub_add by lia. destruct (Z.ltb_spec (n - 8) 56) as [Hn64|Hn64].
  { rewrite Z.ones_spec_low by lia. apply andb_true_r. }
  rewrite Z.ones_spec_high, andb_false_r by lia. symmetry.
  destruct (Z.eq_dec x 0) as [->|Hx0]; [apply Z.bits_0|].
  apply Z.bits_above_log2; [lia|]. apply Z.log2_lt_pow2; [lia|].
  apply Z.le_lt_trans with U64_MAX; [lia|]. apply Z.lt_le_trans with (2 ^ 64); [done|].
  apply Z.pow_le_mono_r; lia.
Qed.

Lemma align_up_spec x :
  0 ≤ x →
  align_up x 255 = if x + 255 <=? U64_MAX then Some (aligned x) else None.
Proof.
  intros Hx. unfold align_up, checked_add.
  destruct (Z.leb_spec (x + 255) U64_MAX) as [Hle|]; [|done].
  rewrite align_mask_land by lia. f_equal. unfold aligned, div_ceil, WORKSPACE_ALIGNMENT.
  f_equal. destruct (Z.eqb_spec (x mod 256) 0);
    symmetry; (apply Z.div_unique with (if x mod 256 =? 0 then 255 else x mod 256 - 1)
      || idtac); pose proof (Z.div_mod x 256 ltac:(done)); pose proof (Z.mod_pos_bound x 256 ltac:(done));
    destruct (Z.eqb_spec (x mod 256) 0); lia.
Qed.

(** What [allocate_slice] does: it refuses, changing nothing, exactly when the
    aligned slice does not fit the capacity or the address width. *)
Lemma allocate_slice_cases a size :
  arena_ok a → 0 ≤ size →
  let o := aligned (a_allocated_bytes a) in
  allocate_slice size a =
    if U64_MAX <? a_allocated_bytes a + 255 then
      (Err (overflow "arena_alignment" "allocated={} align_mask={}" [a_allocated_bytes a; 255]), a)
    else if U64_MAX <? o + size then
      (Err (overflow "arena_slice" "offset={} size={}" [o; size]), a)
    else if a_capacity_bytes a <? o + size then
      (Err (ArenaOverflow (o + size) (a_capacity_bytes a) (o + size - a_capacity_bytes a)), a)
    else (Ok o, set_allocated (o + size) (Z.max (a_peak_bytes a) (o + size)) a).
Proof.
  intros [Hc Ha Hp _] Hsize o. unfold allocate_slice.
  erewrite sbind_Ok by reflexivity. erewrite sbind_Ok by reflexivity.
  change (256 - 1) with 255. rewrite align_up_spec by lia.
  destruct (Z.ltb_spec U64_MAX (a_allocated_bytes a + 255)).
  { rewrite (proj2 (Z.leb_gt _ _)) by lia. done. }
  rewrite (proj2 (Z.leb_le _ _)) by lia. erewrite sbind_Ok by reflexivity. fold o.
  unfold checked_add. destruct (Z.ltb_spec U64_MAX (o + size)).
  { rewrite (proj2 (Z.leb_gt _ _)) by lia. done. }
  rewrite (proj2 (Z.leb_le _ _)) by lia. erewrite sbind_Ok by reflexivity.
  destruct (Z.ltb_spec (a_capacity_bytes a) (o + size)).
  { unfold sfail, saturating_sub. rewrite (proj2 (Z.leb_le _ _)) by lia. done. }
  erewrite sbind_Ok by reflexivity. unfold sret. f_equal. f_equal.
  destruct (Z.ltb_spec (a_peak_bytes a) (o + size)); lia.
Qed.

Lemma allocate_slice_ok a size o a' :
  arena_ok a → 0 ≤ size → allocate_slice size a = (Ok o, a') →
  o = aligned (a_allocated_bytes a) ∧ arena_ok a' ∧ a_capacity_bytes a' = a_capacity_bytes a ∧
  a_allocated_bytes a' = o + size ∧ o + size ≤ a_capacity_bytes a.
Proof.
  intros Ha Hsize. rewrite allocate_slice_cases by done.
  destruct (Z.ltb_spec U64_MAX (a_allocated_bytes a + 255)); [by intros [=]|].
  destruct (Z.ltb_spec U64_MAX (aligned (a_allocated_bytes a) + size)); [by intros [=]|].
  destruct (Z.ltb_spec (a_capacity_bytes a) (aligned (a_allocated_bytes a) + size)); [by intros [=]|].
  intros [= <- <-]. destruct Ha as [? ? ? ?]. pose proof (aligned_bounds (a_allocated_bytes a)).
  split_and!; [done| |done|done|done]. constructor; cbn; [done|lia|lia|done].
Qed.

(** ** A step's slices *)

(** Serving a list of requests in order, as a capture does. *)
Fixpoint allocate_all (sizes : list Z) : arena (list Z) :=
  match sizes with
  | [] => sret []
  | size :: sizes =>
      let! o := allocate_slice size in
      let! os := allocate_all sizes in
      sret (o :: os)
  end.

(** The reference layout: each slice at the first aligned byte after the one
    before it, and where the last one ends. *)
Fixpoint layout (from : Z) (sizes : list Z) : list Z :=
  match sizes with
  | [] => []
  | size :: sizes => aligned from :: layout (aligned from + size) sizes
  end.

Fixpoint layout_end (from : Z) (sizes : list Z) : Z :=
  match sizes with
  | [] => from
  | size :: sizes => layout_end (aligned from + size) sizes
  end.

Lemma layout_end_ge from sizes : Forall (λ n, 0 ≤ n) sizes → from ≤ layout_end from sizes.
Proof.
  intros Hs. revert from. induction Hs as [|n sizes Hn Hs IH]; intros from; simpl; [done|].
  pose proof (aligned_bounds from). specialize (IH (aligned from + n)). lia.
Qed.

Lemma length_layout from sizes : length (layout from sizes) = length sizes.
Proof. revert from. induction sizes; intros; simpl; auto. Qed.

(** Slices of the layout start after [from], are aligned, come in order, and
    end before the end. *)
Lemma layout_slices from sizes :
  Forall (λ n, 0 ≤ n) sizes →
  ∀ i o n, layout from sizes !! i = Some o → sizes !! i = Some n →
    from ≤ o ∧ (WORKSPACE_ALIGNMENT | o) ∧ o + n ≤ layout_end from sizes ∧
    ∀ j o', (i < j)%nat → layout from sizes !! j = Some o' → o + n ≤ o'.
Proof.
  intros Hs. revert from. induction Hs as [|n0 sizes Hn Hs IH]; intros from i o n; [done|].
  pose proof (aligned_bounds from). destruct i as [|i]; simpl.
  - intros [= <-] [= <-]. split_and!; [lia|apply aligned_divide|by apply layout_end_ge|].
    intros [|j] o' Hj Ho'; [lia|]. simpl in Ho'.
    destruct (lookup_lt_is_Some_2 sizes j) as [n' Hn'].
    { apply lookup_lt_Some in Ho'. by rewrite length_layout in Ho'. }
    by destruct (IH _ _ _ _ Ho' Hn') as [? _].
  - intros Ho Hn'. destruct (IH _ _ _ _ Ho Hn') as (? & ? & ? & Hlt).
    split_and!; [lia|done|done|]. intros [|j] o' Hj Ho'; [lia|].
    apply (Hlt j); [lia|done].
Qed.

(** An over-long alignment sum is past every capacity. *)
Lemma aligned_past a size :
  arena_ok a → 0 ≤ size → U64_MAX < a_allocated_bytes a + 255 →
  a_capacity_bytes a < aligned (a_allocated_bytes a) + size.
Proof.
  intros [Hc Ha _ _] Hsize Hpast. unfold aligned, div_ceil, WORKSPACE_ALIGNMENT.
  unfold is_u64, U64_MAX in *. pose proof (Z.div_mod (a_allocated_bytes a) 256 ltac:(done)).
  pose proof (Z.mod_pos_bound (a_allocated_bytes a) 256 ltac:(done)).
  destruct (Z.eqb_spec (a_allocated_bytes a mod 256) 0); lia.
Qed.

(** [allocate_slice] refuses exactly when the slice does not fit, and then the
    arena is as it was. *)
Lemma allocate_slice_result a size :
  arena_ok a → 0 ≤ size →
  match allocate_slice size a with
  | (Ok _, _) => aligned (a_allocated_bytes a) + size ≤ a_capacity_bytes a
  | (Err _, a') => a_capacity_bytes a < aligned (a_allocated_bytes a) + size ∧ a' = a
  | (Panic, _) => False
  end.
Proof.
  intros Ha Hsize. rewrite allocate_slice_cases by done. pose proof (ao_capacity _ Ha) as Hc.
  unfold is_u64 in Hc.
  destruct (Z.ltb_spec U64_MAX (a_allocated_bytes a + 255)).
  { split; [by apply aligned_past|done]. }
  destruct (Z.ltb_spec U64_MAX (aligned (a_allocated_bytes a) + size)); [split; [lia|done]|].
  destruct (Z.ltb_spec (a_capacity_bytes a) (aligned (a_allocated_bytes a) + size)); [split; [lia|done]|].
  lia.
Qed.

(** What serving all the requests leaves behind. *)
Record slices_served (a : WorkspaceArena) (sizes os : list Z) (a' : WorkspaceArena) : Prop := {
  ss_ok : arena_ok a';
  ss_capacity : a_capacity_bytes a' = a_capacity_bytes a;
  ss_layout : os = layout (a_allocated_bytes a) sizes;
  ss_end : a_allocated_bytes a' = layout_end (a_allocated_bytes a) sizes;
  ss_fits : layout_end (a_allocated_bytes a) sizes ≤ a_capacity_bytes a
}.

Lemma allocate_all_result a sizes :
  arena_ok a → Forall (λ n, 0 ≤ n) sizes →
  match allocate_all sizes a with
  | (Ok os, a') => slices_served a sizes os a'
  | (Err _, a') => ∃ served size rest, sizes = served ++ size :: rest ∧
      slices_served a served (layout (a_allocated_bytes a) served) a' ∧
      a_capacity_bytes a < aligned (a_allocated_bytes a') + size
  | (Panic, _) => False
  end.
Proof.
  intros Ha Hs. revert a Ha. induction Hs as [|n sizes Hn Hs IH]; intros a Ha; simpl.
  { constructor; simpl; [done..|]. apply Ha. }
  pose proof (allocate_slice_result a n Ha Hn) as Hres. unfold sbind at 1.
  destruct (allocate_slice n a) as [[o|e|] a1] eqn:Hal; [| |done].
  - apply allocate_slice_ok in Hal as (-> & Ha1 & Hc1 & Hal1 & Hfit); [|done..].
    specialize (IH a1 Ha1). rewrite Hal1 in IH. unfold sbind.
    destruct (allocate_all sizes a1) as [[os|e|] a2]; [| |done].
    + destruct IH as [H2 Hc2 -> He Hf]. rewrite Hal1 in *.
      constructor; simpl; congruence || lia || done.
    + destruct IH as (served & size & rest & -> & [H2 Hc2 Hl He Hf] & Hpast). rewrite Hal1 in *.
      exists (n :: served), size, rest. split; [done|].
      split; [constructor; simpl; congruence || lia || done | lia].
  - destruct Hres as [Hpast ->]. exists [], n, sizes. split; [done|]. split; [|lia].
    constructor; simpl; [done..|]. apply Ha.
Qed.

(** Serving any list of workspace requests gives slices that are 256-byte
    aligned, lie inside the capacity, start after what was allocated before
    and never overlap; the call refuses exactly at the first slice that does
    not fit, keeping the ones before it, and never panics. *)
Theorem slices_disjoint a sizes :
  arena_ok a → Forall (λ n, 0 ≤ n) sizes →
  match allocate_all sizes a with
  | (Ok os, a') => slices_served a sizes os a' ∧
      ∀ i o n, os !! i = Some o → sizes !! i = Some n →
        a_allocated_bytes a ≤ o ∧ (WORKSPACE_ALIGNMENT | o) ∧ o + n ≤ a_capacity_bytes a ∧
        ∀ j o', (i < j)%nat → os !! j = Some o' → o + n ≤ o'
  | (Err _, a') => ∃ served size rest, sizes = served ++ size :: rest ∧
      slices_served a served (layout (a_allocated_bytes a) served) a' ∧
      a_capacity_bytes a < aligned (a_allocated_bytes a') + size
  | (Panic, _) => False
  end.
Proof.
  intros Ha Hs. pose proof (allocate_all_result a sizes Ha Hs) as H.
  destruct (allocate_all sizes a) as [[os|e|] a']; [|done..].
  split; [done|]. destruct H as [_ _ -> _ Hf]. intros i o n Ho Hn.
  destruct (layout_slices _ _ Hs i o n Ho Hn) as (? & ? & ? & ?). split_and!; [done..|lia|done].
Qed.

(** ** Growth *)

Lemma grow_cases a n :
  is_u64 (a_capacity_bytes a) → 0 ≤ n → 
  grow n a =
    if n <=? a_capacity_bytes a then (Ok tt, a)
    else if U64_MAX <? n + 255 then
      (Err (overflow "arena_growth" "overflow aligning new capacity {}" [n]), a)
    else if U64_MAX <? a_generation a + 1 then
      (Err (overflow "arena_generation" "generation counter overflow" []),
       set_capacity (aligned n) (a_generation a) a)
    else (Ok tt, set_capacity (aligned n) (a_generation a + 1) a).
Proof.
  intros Hc Hn. unfold grow. erewrite sbind_Ok by reflexivity.
  destruct (n <=? a_capacity_bytes a); [done|]. erewrite sbind_Ok by reflexivity.
  change (256 - 1) with 255. rewrite align_up_spec by lia.
  destruct (Z.ltb_spec U64_MAX (n + 255)).
  { rewrite (proj2 (Z.leb_gt _ _)) by lia. done. }
  rewrite (proj2 (Z.leb_le _ _)) by lia. erewrite sbind_Ok by reflexivity.
  erewrite sbind_Ok by reflexivity. unfold checked_add.
  destruct (Z.ltb_spec U64_MAX (a_generation a + 1)).
  { rewrite (proj2 (Z.leb_gt _ _)) by lia. done. }
  rewrite (proj2 (Z.leb_le _ _)) by lia. done.
Qed.

(** A growth that is refused because the generation counter is exhausted has
    already changed the capacity. *)
Lemma grow_refused_changes :
  let a := set_capacity 256 U64_MAX (arena_new 0 0) in
  grow 512 a = (Err (overflow "arena_generation" "generation counter overflow" []),
                set_capacity 512 U64_MAX a).
Proof. reflexivity. Qed.

(** A successful growth covers the requirement and keeps the arena well formed. *)
Lemma grow_covers a n a' :
  arena_ok a → 0 ≤ n → grow n a = (Ok tt, a') →
  arena_ok a' ∧ check_requirement a' n = Ok tt ∧ a_capacity_bytes a ≤ a_capacity_bytes a' ∧
  a_allocated_bytes a' = a_allocated_bytes a.
Proof.
  intros [Hc Ha Hp Hg] Hn. rewrite grow_cases by done. pose proof (aligned_bounds n).
  unfold check_requirement. destruct (Z.leb_spec n (a_capacity_bytes a)) as [Hle|Hgt].
  { intros [= <-]. split_and!; [done|by rewrite (proj2 (Z.ltb_ge _ _)) by lia|lia|done]. }
  destruct (Z.ltb_spec U64_MAX (n + 255)); [by intros [=]|].
  destruct (Z.ltb_spec U64_MAX (a_generation a + 1)); [by intros [=]|].
  intros [= <-]. cbn. unfold is_u64, WORKSPACE_ALIGNMENT in *.
  split_and!; [|by rewrite (proj2 (Z.ltb_ge _ _)) by lia|lia|done].
  constructor; cbn; unfold is_u64; lia.
Qed.
