(* ===== verification/Capture.v ===== *)
(** * Step graph capture

    [crates/r9v-sched/src/graph.rs]: capturing a step graph lays the workspace
    of every launch at its own aligned offset and binds the offset into the
    launch's arguments; the cache captures lazily, growing the arena and
    recapturing when a graph needs more of it.

    The kernel registry of another crate is the parameter [resolve]; the
    resolvers and template builders of a program are closures the caller
    supplies, fields of its operations. *)

From S2P Require Import Prelude Bytes SchedError Arena.

#[global] Open Scope Z_scope.

Record CapturedGraph : Type := {
  cg_key : StepGraphKey;
  cg_launches : LaunchList;
  cg_required_workspace_bytes : Z;
  cg_workspace_offsets : list Z;
  cg_resolved_tiers : list (OpId.t * Tier)
}.

Record StepProgramOp (OpStatic : Type) : Type := {
  p_op_id : OpId.t;
  p_desc : string;
  p_resolver : StepGraphKey → option OpStatic;
  p_args_template_builder : StepGraphKey → option (list Z);
  p_workspace_slot : option Z
}.
Arguments Build_StepProgramOp {OpStatic} _ _ _ _ _.
Arguments p_op_id {OpStatic} _.
Arguments p_desc {OpStatic} _.
Arguments p_resolver {OpStatic} _ _.
Arguments p_args_template_builder {OpStatic} _ _.
Arguments p_workspace_slot {OpStatic} _.

(** [StepGraphProgram]: its operations in order. *)
Definition StepGraphProgram (OpStatic : Type) : Type := list (StepProgramOp OpStatic).

(** [u64::to_le_bytes]. *)
Definition to_le_bytes : Z → list Z := le_bytes 8.

(** [args[slot..slot + 8].copy_from_slice(bytes)]. *)
Definition copy_from_slice (slot : nat) (bytes args : list Z) : list Z :=
  take slot args ++ bytes ++ drop (slot + length bytes) args.

Section capture.
Context {OpStatic : Type} (resolve : OpId.t → OpStatic → outcome Text ResolvedVariant).
Implicit Type op : StepProgramOp OpStatic.
Implicit Type program : StepGraphProgram OpStatic.

Definition step_program_op_new (op_id : OpId.t) (desc : string)
    (resolver : StepGraphKey → option OpStatic) (args_template : list Z) (workspace_slot : option Z)
    : StepProgramOp OpStatic :=
  {| p_op_id := op_id; p_desc := desc; p_resolver := resolver;
     p_args_template_builder := λ _, Some args_template; p_workspace_slot := workspace_slot |}.

Definition with_args_builder (builder : StepGraphKey → option (list Z)) (workspace_slot : option Z) op
    : StepProgramOp OpStatic :=
  {| p_op_id := p_op_id op; p_desc := p_desc op; p_resolver := p_resolver op;
     p_args_template_builder := builder; p_workspace_slot := workspace_slot |}.

Definition with_args_template (template : list Z) (workspace_slot : option Z) op
    : StepProgramOp OpStatic :=
  with_args_builder (λ _, Some template) workspace_slot op.

Definition with_workspace_slot (slot : option Z) op : StepProgramOp OpStatic :=
  with_args_builder (p_args_template_builder op) slot op.

Definition add_op op program : StepGraphProgram OpStatic := program ++ [op].

(** The variables of the capture loop. *)
Record Capturing : Type := {
  w_launches : LaunchList;
  w_tiers : list (OpId.t * Tier);
  w_offsets : list Z;
  w_current_offset : Z
}.

Definition capturing_new : Capturing :=
  {| w_launches := launch_list_new; w_tiers := []; w_offsets := []; w_current_offset := 0 |}.

(** The next multiple of 256. *)
Definition align_offset (current_offset : Z) : SchedResult Z :=
  if current_offset mod 256 =? 0 then Ok current_offset
  else
    let remainder := current_offset mod 256 in
    let pad := 256 - remainder in
    ok_or (checked_add U64_MAX current_offset pad)
      (overflow "workspace_alignment" "alignment overflow" []).

(** The slot an operation's workspace is bound to, checked against its blob. *)
Definition workspace_slot_of (key : StepGraphKey) op (workspace_bytes : Z) (args_blob : list Z)
    : SchedResult Z :=
  let* slot := ok_or (p_workspace_slot op)
                 (GraphCaptureFailed key (MissingSlot (p_op_id op) workspace_bytes)) in
  if negb (slot mod 8 =? 0) then Err (GraphCaptureFailed key (MisalignedSlot (p_op_id op) slot))
  else
    let* required_len := ok_or (checked_add USIZE_MAX slot 8)
        (overflow "workspace_slot" "workspace slot offset overflow" []) in
    if Z.of_nat (length args_blob) <? required_len then
      Err (GraphCaptureFailed key
             (ShortBlob (p_op_id op) (Z.of_nat (length args_blob)) slot required_len))
    else Ok slot.

(** Where the workspace goes, the blob it is bound in, and where the next one
    starts. *)
Definition bind_workspace (key : StepGraphKey) op (workspace_bytes : Z) (args_blob : list Z)
    (current_offset : Z) : SchedResult (Z * list Z * Z) :=
  let* slot := workspace_slot_of key op workspace_bytes args_blob in
  let* aligned_offset := align_offset current_offset in
  let* slot_range_end := ok_or (checked_add USIZE_MAX slot 8)
      (overflow "workspace_slot" "workspace slot range overflow" []) in
  if Z.of_nat (length args_blob) <? slot_range_end then
    Err (Internal (msg "workspace slot range out of args blob" []))
  else
    let args_blob := copy_from_slice (Z.to_nat slot) (to_le_bytes aligned_offset) args_blob in
    let* next_offset := ok_or (checked_add U64_MAX aligned_offset workspace_bytes)
        (overflow "workspace_offset" "workspace offset overflow" []) in
    Ok (aligned_offset, args_blob, next_offset).

Definition launch_entry (v : ResolvedVariant) (args_blob : list Z) : LaunchEntry :=
  {| e_variant_hash := v_variant_hash v; e_entry_symbol := v_entry_symbol v;
     e_geometry := v_launch_geometry v; e_workspace_bytes := v_workspace_bytes v;
     e_static_bytes := v_static_bytes v; e_static_flops := v_static_flops v;
     e_args_blob := args_blob |}.

(** One operation: it participates when its resolver says so. *)
Definition capture_op (key : StepGraphKey) op (w : Capturing) : SchedResult Capturing :=
  match p_resolver op key with
  | None => Ok w
  | Some op_static =>
      let* variant := omap_err (λ e, GraphCaptureFailed key (ResolveFailed (p_op_id op) (p_desc op) e))
                        (resolve (p_op_id op) op_static) in
      let tiers := w_tiers w ++ [(p_op_id op, v_tier variant)] in
      let* args_blob := ok_or (p_args_template_builder op key)
                          (GraphCaptureFailed key (MissingTemplate (p_op_id op) (p_desc op))) in
      let* bound := if 0 <? v_workspace_bytes variant
                    then bind_workspace key op (v_workspace_bytes variant) args_blob (w_current_offset w)
                    else Ok (0, args_blob, w_current_offset w) in
      let '(offset, args_blob, next_offset) := bound in
      Ok {| w_launches := launch_record (launch_entry variant args_blob) (w_launches w);
            w_tiers := tiers; w_offsets := w_offsets w ++ [offset]; w_current_offset := next_offset |}
  end.

Fixpoint capture_ops (key : StepGraphKey) program (w : Capturing) : SchedResult Capturing :=
  match program with
  | [] => Ok w
  | op :: program => let* w := capture_op key op w in capture_ops key program w
  end.

(** The slices of the launches that have a workspace. *)
Definition slice_bounds (w : Capturing) : SchedResult (list (Z * Z)) :=
  let* bounds := omapM (λ '(start, entry),
      if e_workspace_bytes entry =? 0 then Ok None
      else
        let* end_ := ok_or (checked_add U64_MAX start (e_workspace_bytes entry))
            (overflow "workspace_bounds" "upper bound overflow" []) in
        Ok (Some (start, end_))) (zip (w_offsets w) (ll_entries (w_launches w))) in
  Ok (omap id bounds).

Definition check_pair (i : nat) (a : Z * Z) (j : nat) (b : Z * Z) : SchedResult unit :=
  if negb ((a.2 <=? b.1) || (b.2 <=? a.1)) then
    Err (Internal (msg "detected overlapping workspace slices between launch {} [{}..{}) and launch {} [{}..{})"
      (map Num [Z.of_nat i; a.1; a.2; Z.of_nat j; b.1; b.2])))
  else Ok tt.

(** [for i in .. { for j in i + 1.. }]. *)
Definition check_overlaps (bounds : list (Z * Z)) : SchedResult unit :=
  oforM (λ '(i, a), oforM (λ '(j, b), check_pair i a j b) (drop (S i) (enumerate bounds)))
    (enumerate bounds).

(** [StepGraphBuilder::capture]. *)
Definition capture (key : StepGraphKey) program (a : WorkspaceArena) : SchedResult CapturedGraph :=
  if bool_decide (program = []) then Err (GraphCaptureFailed key EmptyProgram)
  else if negb (existsb (λ op, bool_decide (p_op_id op = OpId.Sample)) program) then
    Err (GraphCaptureFailed key NoSampleOp)
  else
    let* w := capture_ops key program capturing_new in
    if launch_list_is_empty (w_launches w) then Err (GraphCaptureFailed key NoLaunches)
    else
      let total_required_workspace := w_current_offset w in
      let* _ := check_requirement a total_required_workspace in
      let* bounds := slice_bounds w in
      let* _ := check_overlaps bounds in
      Ok {| cg_key := key; cg_launches := w_launches w;
            cg_required_workspace_bytes := total_required_workspace;
            cg_workspace_offsets := w_offsets w; cg_resolved_tiers := w_tiers w |}.
End capture.

(** ** The cache *)

(** The derived order of [StepGraphKey], in which a map lists its keys. *)
Definition key_fields (k : StepGraphKey) : list Z :=
  [k_plan_id k; k_rank k; k_s k; k_t_dec k; k_t_pre k; k_segment k].

Fixpoint lex_le (a b : list Z) : bool :=
  match a, b with
  | [], _ => true
  | _ :: _, [] => false
  | x :: a, y :: b => (x <? y) || (x =? y) && lex_le a b
  end.

Definition key_le (a b : StepGraphKey) : Prop := lex_le (key_fields a) (key_fields b) = true.

#[global] Instance key_le_dec : RelDecision key_le.
Proof. intros a b. unfold key_le. apply _. Defined.

#[global] Instance StepGraphKey_countable : Countable StepGraphKey.
Proof.
  refine (inj_countable' (λ k, (k_plan_id k, k_rank k, k_s k, k_t_dec k, k_t_pre k, k_segment k))
    (λ '(a, b, c, d, e, f), Build_StepGraphKey a b c d e f) _).
  by intros [].
Defined.

Definition WARM_S : list Z := [1; 2; 4].
Definition WARM_T_DEC : list Z := [1; 2; 4; 8; 16; 32].
Definition WARM_T_PRE : list Z := [0; 128; 512; 2048].

Record GraphCache (OpStatic : Type) : Type := {
  gc_program : StepGraphProgram OpStatic;
  gc_graphs : gmap StepGraphKey CapturedGraph;
  gc_arena_generation : Z
}.
Arguments Build_GraphCache {OpStatic} _ _ _.
Arguments gc_program {OpStatic} _.
Arguments gc_graphs {OpStatic} _.
Arguments gc_arena_generation {OpStatic} _.

Section cache.
Context {OpStatic : Type} (resolve : OpId.t → OpStatic → outcome Text ResolvedVariant).

Definition cache_new (program : StepGraphProgram OpStatic) : GraphCache OpStatic :=
  {| gc_program := program; gc_graphs := ∅; gc_arena_generation := 1 |}.

(** The shapes of the eager capture: one sequence, every warm decode and
    prefill bucket. *)
Definition warm_keys (plan_id rank : Z) : list StepGraphKey :=
  concat (map (λ s,
    concat (map (λ t_dec,
      if t_dec <? s then []
      else map (λ t_pre, {| k_plan_id := plan_id; k_rank := rank; k_s := s; k_t_dec := t_dec;
                            k_t_pre := t_pre; k_segment := 0 |}) WARM_T_PRE) WARM_T_DEC)) [1]).

(** Capturing a list of keys into a map, stopping at the first refusal; what
    was captured before it stays. *)
Definition capture_keys (program : StepGraphProgram OpStatic) (a : WorkspaceArena)
    (keys : list StepGraphKey) : stm (gmap StepGraphKey CapturedGraph) SchedError unit :=
  sfor (λ key,
    let! g := slift (capture resolve key program a) in
    smodify (λ graphs, <[key := g]> graphs)) keys.

Definition eager_capture_warm_buckets (plan_id rank : Z) (program : StepGraphProgram OpStatic)
    (a : WorkspaceArena) : SchedResult (GraphCache OpStatic) :=
  let '(r, graphs) := capture_keys program a (warm_keys plan_id rank) ∅ in
  let* _ := r in
  Ok {| gc_program := program; gc_graphs := graphs; gc_arena_generation := a_generation a |}.

Definition cache (A : Type) : Type := stm (GraphCache OpStatic * WorkspaceArena) SchedError A.

Definition on_arena {A} (c : arena A) : cache A := szoom snd (λ a '(gc, _), (gc, a)) c.
Definition set_graphs (graphs : gmap StepGraphKey CapturedGraph) (gc : GraphCache OpStatic)
    : GraphCache OpStatic :=
  {| gc_program := gc_program gc; gc_graphs := graphs; gc_arena_generation := gc_arena_generation gc |}.
Definition on_graphs {A} (c : stm (gmap StepGraphKey CapturedGraph) SchedError A) : cache A :=
  szoom (λ '(gc, _), gc_graphs gc) (λ graphs '(gc, a), (set_graphs graphs gc, a)) c.

Definition set_generation (generation : Z) (gc : GraphCache OpStatic) : GraphCache OpStatic :=
  {| gc_program := gc_program gc; gc_graphs := gc_graphs gc; gc_arena_generation := generation |}.

Definition sorted_keys (graphs : gmap StepGraphKey CapturedGraph) : list StepGraphKey :=
  merge_sort key_le (map_to_list graphs).*1.

(** Growing the arena and recapturing every cached graph, then the new one. *)
Definition grow_and_capture (key : StepGraphKey) (required : Z) : cache CapturedGraph :=
  let! _ := on_arena (grow required) in
  let! st := sget in
  let '(gc, a) := st in
  let new_gen := a_generation a in
  let! _ := on_graphs (capture_keys (gc_program gc) a (sorted_keys (gc_graphs gc))) in
  let! _ := smodify (λ '(gc, a), (set_generation new_gen gc, a)) in
  slift (capture resolve key (gc_program gc) a).

(** The graph of a key, and whether it was captured by this call. *)
Definition get_or_capture (key : StepGraphKey) : cache (CapturedGraph * bool) :=
  let! st := sget in
  let '(gc, a) := st in
  match gc_graphs gc !! key with
  | Some graph => sret (graph, false)
  | None =>
      let! captured :=
        match capture resolve key (gc_program gc) a with
        | Ok g => sret g
        | Err (ArenaOverflow required _ _) => grow_and_capture key required
        | Err e => sfail e
        | Panic => spanic
        end in
      let! _ := on_graphs (smodify (λ graphs, <[key := captured]> graphs)) in
      sret (captured, true)
  end.
End cache.
