(* ===== verification/CaptureSpec.v ===== *)
(** * What a captured graph is

    The workspace of a captured graph is the reference layout of the arena, so
    its slices are aligned and disjoint; every offset is bound where its
    operation declared; and the cache keeps graphs that fit the arena. *)

From S2P Require Import Prelude Bytes SchedError Arena Capture.

#[global] Open Scope Z_scope.

(** ** Offsets and bytes *)

Lemma layout_snoc from sizes n :
  layout from (sizes ++ [n]) = layout from sizes ++ [aligned (layout_end from sizes)].
Proof. revert from. induction sizes as [|m sizes IH]; intros from; simpl; [done|]. by rewrite IH. Qed.

Lemma layout_end_snoc from sizes n :
  layout_end from (sizes ++ [n]) = aligned (layout_end from sizes) + n.
Proof. revert from. induction sizes as [|m sizes IH]; intros from; simpl; [done|]. by rewrite IH. Qed.

Lemma align_offset_spec x :
  0 ≤ x → align_offset x = if aligned x <=? U64_MAX then Ok (aligned x)
                           else if x mod 256 =? 0 then Ok x
                           else Err (overflow "workspace_alignment" "alignment overflow" []).
Proof.
  intros Hx. unfold align_offset, aligned, WORKSPACE_ALIGNMENT, div_ceil.
  pose proof (Z.div_mod x 256 ltac:(done)). pose proof (Z.mod_pos_bound x 256 ltac:(done)).
  destruct (Z.eqb_spec (x mod 256) 0) as [Hmod|Hmod].
  - replace (256 * (x / 256)) with x by lia. by destruct (x <=? U64_MAX).
  - unfold checked_add. replace (x + (256 - x mod 256)) with (256 * (x / 256 + 1)) by lia.
    by destruct (256 * (x / 256 + 1) <=? U64_MAX).
Qed.

(** Reading eight little-endian bytes back. *)
Lemma length_to_le_bytes x : length (to_le_bytes x) = 8%nat.
Proof. done. Qed.

Lemma of_to_le_bytes x : is_u64 x → of_le_bytes (to_le_bytes x) = x.
Proof. intros Hx. apply (of_le_bytes_small 8). unfold is_u64, U64_MAX in *. lia. Qed.

(** ** The captured launches *)

Section capture_spec.
Context {OpStatic : Type} (resolve : OpId.t → OpStatic → outcome Text ResolvedVariant).
Implicit Type op : StepProgramOp OpStatic.

(** The registry answers with unsigned sizes, and the slots are unsigned. *)
Definition registry_ok : Prop :=
  (∀ id s, resolve id s ≠ Panic) ∧ ∀ id s v, resolve id s = Ok v → is_u64 (v_workspace_bytes v).

Definition program_ok (program : StepGraphProgram OpStatic) : Prop :=
  Forall (λ op, ∀ slot, p_workspace_slot op = Some slot → 0 ≤ slot) program.

(** [blob] is [args] with [offset] written at [slot] and nothing else changed. *)
Record blob_bound (slot offset : Z) (args blob : list Z) : Prop := {
  bb_slot : 0 ≤ slot ∧ (8 | slot);
  bb_room : slot + 8 ≤ Z.of_nat (length args);
  bb_length : length blob = length args;
  bb_value : of_le_bytes (take 8 (drop (Z.to_nat slot) blob)) = offset;
  bb_rest i : (i < Z.to_nat slot ∨ Z.to_nat slot + 8 ≤ i)%nat → blob !! i = args !! i
}.

(** What a launch of the graph is: the resolved variant of an operation that
    participates for the key, its offset bound in its arguments. *)
Definition launch_of (key : StepGraphKey) op (launch : Z * LaunchEntry) : Prop :=
  ∃ op_static v args, p_resolver op key = Some op_static ∧ resolve (p_op_id op) op_static = Ok v ∧
    p_args_template_builder op key = Some args ∧
    launch.2 = launch_entry v (e_args_blob launch.2) ∧
    if 0 <? v_workspace_bytes v then
      ∃ slot, p_workspace_slot op = Some slot ∧ blob_bound slot launch.1 args (e_args_blob launch.2)
    else launch.1 = 0 ∧ e_args_blob launch.2 = args.

Definition participating (key : StepGraphKey) (program : list (StepProgramOp OpStatic)) : list (StepProgramOp OpStatic) :=
  filter (λ op, is_Some (p_resolver op key)) program.

(** The workspace slices: offset and size of the launches that have one. *)
Definition slices (launches : list (Z * LaunchEntry)) : list (Z * Z) :=
  omap (λ '(o, e), if e_workspace_bytes e =? 0 then None else Some (o, e_workspace_bytes e)) launches.

Record captured (key : StepGraphKey) (program : list (StepProgramOp OpStatic)) (w : Capturing) : Prop := {
  ck_length : length (w_offsets w) = length (ll_entries (w_launches w));
  ck_launches : Forall2 (launch_of key) (participating key program)
                  (zip (w_offsets w) (ll_entries (w_launches w)));
  ck_sizes : Forall (λ s, 0 < s) (slices (zip (w_offsets w) (ll_entries (w_launches w)))).*2;
  ck_layout : (slices (zip (w_offsets w) (ll_entries (w_launches w)))).*1 =
    layout 0 (slices (zip (w_offsets w) (ll_entries (w_launches w)))).*2;
  ck_end : w_current_offset w = layout_end 0 (slices (zip (w_offsets w) (ll_entries (w_launches w)))).*2;
  ck_u64 : is_u64 (w_current_offset w)
}.

Lemma blob_bound_copy slot offset args :
  0 ≤ slot → (8 | slot) → is_u64 offset → slot + 8 ≤ Z.of_nat (length args) →
  blob_bound slot offset args (copy_from_slice (Z.to_nat slot) (to_le_bytes offset) args).
Proof.
  intros Hs H8 Ho Hroom. unfold copy_from_slice. rewrite length_to_le_bytes.
  assert (length (take (Z.to_nat slot) args) = Z.to_nat slot) as Hlen by (rewrite length_take; lia).
  constructor; [done|done| | |].
  - rewrite !length_app, Hlen, length_drop, length_to_le_bytes. lia.
  - rewrite drop_app_ge by lia. rewrite Hlen, Nat.sub_diag, drop_0, take_app_le by done.
    rewrite take_ge by done. by apply of_to_le_bytes.
  - intros i [Hi|Hi].
    + rewrite lookup_app_l by lia. by apply lookup_take_lt.
    + rewrite lookup_app_r, lookup_app_r by (rewrite ?Hlen, ?length_to_le_bytes; lia).
      rewrite lookup_drop, Hlen, length_to_le_bytes. f_equal. lia.
Qed.

Lemma bind_workspace_spec key op size args current :
  0 ≤ current → 0 < size → (∀ slot, p_workspace_slot op = Some slot → 0 ≤ slot) → is_u64 current →
  match bind_workspace key op size args current with
  | Ok (offset, blob, next) => offset = aligned current ∧ next = aligned current + size ∧ is_u64 next ∧
      ∃ slot, p_workspace_slot op = Some slot ∧ blob_bound slot offset args blob
  | Err e => ∀ t, e ≠ Internal t
  | Panic => False
  end.
Proof.
  intros Hc Hsize Hslot Hu. unfold bind_workspace, workspace_slot_of.
  destruct (p_workspace_slot op) as [slot|]; simpl; [|done]. specialize (Hslot slot eq_refl).
  destruct (Z.eqb_spec (slot mod 8) 0) as [H8|]; simpl; [|done].
  unfold checked_add, overflow. destruct (slot + 8 <=? USIZE_MAX) eqn:Hslot8; simpl; [|done].
  destruct (Z.ltb_spec (Z.of_nat (length args)) (slot + 8)); simpl; [done|].
  rewrite align_offset_spec by done. unfold overflow. pose proof (aligned_bounds current).
  destruct (Z.leb_spec (aligned current) U64_MAX) as [Hfit|Hpast]; simpl.
  2: { destruct (Z.eqb_spec (current mod 256) 0) as [Hm|]; simpl; [|done].
       unfold aligned, div_ceil, WORKSPACE_ALIGNMENT in *. rewrite Hm in *. simpl in *.
       pose proof (Z.div_mod current 256 ltac:(done)). unfold is_u64 in Hu. lia. }
  rewrite ?Hslot8. simpl. rewrite (proj2 (Z.ltb_ge _ _)) by lia.
  destruct (Z.leb_spec (aligned current + size) U64_MAX); simpl; [|done]. split_and!; [done|done|unfold is_u64; lia|].
  exists slot. split; [done|]. apply blob_bound_copy; [done|by apply Z.mod_divide|unfold is_u64; lia|done].
Qed.

Lemma slices_snoc offsets entries o e :
  length offsets = length entries →
  slices (zip (offsets ++ [o]) (entries ++ [e])) =
  slices (zip offsets entries) ++ (if e_workspace_bytes e =? 0 then [] else [(o, e_workspace_bytes e)]).
Proof.
  intros Hlen. unfold slices. rewrite zip_with_app by done. rewrite omap_app. f_equal. simpl.
  by destruct (e_workspace_bytes e =? 0).
Qed.

Lemma capture_op_spec key program op w :
  registry_ok → (∀ slot, p_workspace_slot op = Some slot → 0 ≤ slot) → captured key program w →
  match capture_op resolve key op w with
  | Ok w' => captured key (program ++ [op]) w'
  | Err e => ∀ t, e ≠ Internal t
  | Panic => False
  end.
Proof.
  intros [Hnp Hws] Hslot [Hlen Hl Hs Hlay Hend Hu]. unfold capture_op, participating in *.
  destruct (p_resolver op key) as [op_static|] eqn:Hr.
  2: { constructor; try done. unfold participating. rewrite filter_app. simpl.
       rewrite filter_cons, decide_False by (rewrite Hr; by intros []). by rewrite filter_nil, app_nil_r. }
  specialize (Hnp (p_op_id op) op_static). specialize (Hws (p_op_id op) op_static).
  destruct (resolve (p_op_id op) op_static) as [v|e|] eqn:Hres; simpl; [|done|done].
  specialize (Hws v eq_refl). unfold is_u64 in Hws.
  destruct (p_args_template_builder op key) as [args|] eqn:Hargs; simpl; [|done].
  assert (∀ o blob next,
    (if 0 <? v_workspace_bytes v then
       (o = aligned (w_current_offset w) ∧ next = aligned (w_current_offset w) + v_workspace_bytes v) ∧
       ∃ slot, p_workspace_slot op = Some slot ∧ blob_bound slot o args blob
     else next = w_current_offset w ∧ o = 0 ∧ blob = args) → is_u64 next →
    captured key (program ++ [op])
      {| w_launches := launch_record (launch_entry v blob) (w_launches w);
         w_tiers := w_tiers w ++ [(p_op_id op, v_tier v)]; w_offsets := w_offsets w ++ [o];
         w_current_offset := next |}) as Hdone.
  { intros o blob next Hbound Hnext. constructor; simpl; rewrite ?slices_snoc by done.
    - rewrite !length_app. simpl. lia.
    - unfold participating. rewrite filter_app, zip_with_app by done. apply Forall2_app; [done|].
      rewrite filter_cons, decide_True by (rewrite Hr; by eexists). rewrite filter_nil. constructor; [|constructor].
      exists op_static, v, args. split_and!; [done..|]. simpl.
      destruct (Z.ltb_spec 0 (v_workspace_bytes v)); [by destruct Hbound|by destruct Hbound as [_ [-> ->]]].
    - rewrite fmap_app. apply Forall_app. split; [done|]. simpl.
      destruct (Z.eqb_spec (v_workspace_bytes v) 0); constructor; [simpl; lia|constructor].
    - rewrite !fmap_app. simpl. destruct (Z.eqb_spec (v_workspace_bytes v) 0) as [Hz|Hnz]; simpl.
      + by rewrite !app_nil_r.
      + rewrite layout_snoc, Hlay, <- Hend. rewrite (proj2 (Z.ltb_lt _ _)) in Hbound by lia.
        by destruct Hbound as [[-> _] _].
    - rewrite fmap_app. simpl. destruct (Z.eqb_spec (v_workspace_bytes v) 0) as [Hz|Hnz]; simpl.
      + rewrite app_nil_r, <- Hend. rewrite Hz in Hbound. by destruct Hbound as [-> _].
      + rewrite layout_end_snoc, <- Hend. rewrite (proj2 (Z.ltb_lt _ _)) in Hbound by lia.
        by destruct Hbound as [[_ ->] _].
    - done. }
  destruct (Z.ltb_spec 0 (v_workspace_bytes v)) as [Hpos|Hzero].
  - pose proof (bind_workspace_spec key op (v_workspace_bytes v) args (w_current_offset w)
      ltac:(unfold is_u64 in Hu; lia) Hpos Hslot Hu) as Hb.
    destruct (bind_workspace _ _ _ _ _) as [[[o blob] next]|e|]; simpl; [|done|done].
    destruct Hb as (-> & -> & Hn & Hslot'). by apply Hdone.
  - simpl. by apply Hdone.
Qed.

Lemma capture_ops_spec key done_ops program w :
  registry_ok → program_ok program → captured key done_ops w →
  match capture_ops resolve key program w with
  | Ok w' => captured key (done_ops ++ program) w'
  | Err e => ∀ t, e ≠ Internal t
  | Panic => False
  end.
Proof.
  intros Hreg Hp. revert done_ops w. induction Hp as [|op program Hop Hp IH]; intros done_ops w Hw; simpl.
  { by rewrite app_nil_r. }
  pose proof (capture_op_spec key done_ops op w Hreg Hop Hw) as Hc.
  destruct (capture_op resolve key op w) as [w'|e|]; simpl; [|done|done].
  specialize (IH (done_ops ++ [op]) w' Hc). by rewrite <- app_assoc in IH.
Qed.

Lemma capture_ops_no_overflow key program w r av sh :
  capture_ops resolve key program w ≠ Err (ArenaOverflow r av sh).
Proof.
  revert w. induction program as [|op program IH]; intros w; simpl; [done|].
  intros [Hop|(w' & _ & Hrest)]%obind_Err_inv; [|by apply IH in Hrest].
  revert Hop. unfold capture_op, bind_workspace, workspace_slot_of, align_offset, ok_or, overflow.
  destruct (p_resolver op key); [|done]. destruct (resolve _ _); simpl; [|done..].
  destruct (p_args_template_builder op key); simpl; [|done].
  repeat (case_match; simpl; try done).
Qed.

(** ** The checks at the end *)

Lemma slice_bounds_spec key program w :
  captured key program w →
  slice_bounds w = Ok (map (λ '(o, n), (o, o + n)) (slices (zip (w_offsets w) (ll_entries (w_launches w))))).
Proof.
  intros [_ _ Hs Hlay Hend Hu]. unfold slice_bounds.
  assert (Forall (λ '(o, n), 0 < n ∧ o + n ≤ U64_MAX) (slices (zip (w_offsets w) (ll_entries (w_launches w))))) as Hall.
  { apply Forall_forall. intros [o n] Hin. apply list_elem_of_lookup in Hin as [i Hi].
    set (sl := slices _) in *.
    assert (sl.*2 !! i = Some n) as Hn by (by rewrite list_lookup_fmap, Hi).
    assert (layout 0 sl.*2 !! i = Some o) as Ho by (rewrite <- Hlay, list_lookup_fmap, Hi; done).
    assert (Forall (λ n, 0 ≤ n) sl.*2) as Hs' by (eapply Forall_impl; [exact Hs|simpl; lia]).
    destruct (layout_slices 0 sl.*2 Hs' i o n Ho Hn) as (_ & _ & Hle & _).
    rewrite Forall_forall in Hs. specialize (Hs n (list_elem_of_lookup_2 _ _ _ Hn)).
    rewrite <- Hend in Hle. unfold is_u64 in Hu. lia. }
  clear Hs Hlay Hend Hu. revert Hall.
  generalize (zip (w_offsets w) (ll_entries (w_launches w))) as launches. intros launches Hall.
  erewrite (proj2 (omapM_Forall2 _ launches (map (λ '(o, e),
    if e_workspace_bytes e =? 0 then None else Some (o, o + e_workspace_bytes e)) launches))).
  - simpl. f_equal. unfold slices. clear Hall. induction launches as [|[o e] launches IH]; [done|].
    cbn. destruct (e_workspace_bytes e =? 0); cbn; [exact IH|f_equal; exact IH].
  - apply Forall2_fmap_r, Forall_Forall2_diag, Forall_forall. intros [o e] Hin. cbn.
    destruct (Z.eqb_spec (e_workspace_bytes e) 0) as [|Hne]; [done|].
    rewrite Forall_forall in Hall. destruct (Hall (o, e_workspace_bytes e)) as [_ Hle].
    { unfold slices. apply list_elem_of_omap. exists (o, e). split; [done|].
      by rewrite (proj2 (Z.eqb_neq _ _) Hne). }
    by rewrite checked_add_ok.
Qed.

Lemma check_overlaps_ok (bounds : list (Z * Z)) :
  (∀ i j a b, (i < j)%nat → bounds !! i = Some a → bounds !! j = Some b → a.2 ≤ b.1) →
  check_overlaps bounds = Ok tt.
Proof.
  intros Hdis. unfold check_overlaps. apply oforM_Ok, Forall_forall. intros [i a] Hi%elem_of_enumerate.
  apply oforM_Ok, Forall_forall. intros [j b] Hj. apply list_elem_of_lookup in Hj as [k Hk].
  rewrite lookup_drop, enumerate_lookup in Hk. destruct Hk as [-> Hk].
  unfold check_pair. by rewrite (proj2 (Z.leb_le _ _)) by (apply (Hdis i (S i + k)%nat a b); [lia|done..]).
Qed.

(** The slices of a layout, as intervals. *)
Lemma layout_intervals (sl : list (Z * Z)) :
  Forall (λ n, 0 < n) sl.*2 → sl.*1 = layout 0 sl.*2 →
  ∀ i o n, sl !! i = Some (o, n) →
    (WORKSPACE_ALIGNMENT | o) ∧ 0 ≤ o ∧ o + n ≤ layout_end 0 sl.*2 ∧
    ∀ j o' n', (i < j)%nat → sl !! j = Some (o', n') → o + n ≤ o'.
Proof.
  intros Hs Hlay i o n Hi.
  assert (Forall (λ n, 0 ≤ n) sl.*2) as Hs' by (eapply Forall_impl; [exact Hs|simpl; lia]).
  destruct (layout_slices 0 sl.*2 Hs' i o n) as (? & ? & ? & Hlt).
  { by rewrite <- Hlay, list_lookup_fmap, Hi. }
  { by rewrite list_lookup_fmap, Hi. }
  split_and!; [done..|]. intros j o' n' Hj Hj'. apply (Hlt j); [done|].
  by rewrite <- Hlay, list_lookup_fmap, Hj'.
Qed.

(** A captured graph of [program] for [key] that an arena of [capacity] bytes
    holds. *)
Record graph_ok (key : StepGraphKey) (program : StepGraphProgram OpStatic) (capacity : Z)
    (g : CapturedGraph) : Prop := {
  gk_key : cg_key g = key;
  gk_some : ll_entries (cg_launches g) ≠ [];
  gk_length : length (cg_workspace_offsets g) = length (ll_entries (cg_launches g));
  gk_launches : Forall2 (launch_of key) (participating key program)
                  (zip (cg_workspace_offsets g) (ll_entries (cg_launches g)));
  gk_fits : 0 ≤ cg_required_workspace_bytes g ≤ capacity;
  gk_slices i o n :
    slices (zip (cg_workspace_offsets g) (ll_entries (cg_launches g))) !! i = Some (o, n) →
    (WORKSPACE_ALIGNMENT | o) ∧ 0 ≤ o ∧ o + n ≤ cg_required_workspace_bytes g ∧
    ∀ j o' n', (i < j)%nat →
      slices (zip (cg_workspace_offsets g) (ll_entries (cg_launches g))) !! j = Some (o', n') → o + n ≤ o'
}.

Lemma captured_new key : captured key [] capturing_new.
Proof. by constructor. Qed.

Lemma capture_cases key program a :
  registry_ok → program_ok program →
  match capture resolve key program a with
  | Ok g => graph_ok key program (a_capacity_bytes a) g
  | Err e => (∀ t, e ≠ Internal t) ∧
      ∀ required available shortfall, e = ArenaOverflow required available shortfall →
        a_capacity_bytes a < required ∧ is_u64 required ∧
        ∀ a', required ≤ a_capacity_bytes a' → is_Ok (capture resolve key program a') = true
  | Panic => False
  end.
Proof.
  intros Hreg Hp. unfold capture. case_bool_decide; [by split|].
  destruct (existsb _ program); cbn [negb]; [|by split].
  pose proof (capture_ops_spec key [] program capturing_new Hreg Hp (captured_new key)) as Hops.
  destruct (capture_ops resolve key program capturing_new) as [w|e|] eqn:Hcap; cbn [obind]; [| |done].
  2: { split; [done|]. intros r av sh ->. by apply capture_ops_no_overflow in Hcap. }
  simpl in Hops. pose proof Hops as [Hlen Hl Hs Hlay Hend Hu].
  unfold launch_list_is_empty. case_bool_decide as Hnil; [by split|].
  assert (check_overlaps (map (λ '(o, n), (o, o + n))
    (slices (zip (w_offsets w) (ll_entries (w_launches w))))) = Ok tt) as Hcheck.
  { apply check_overlaps_ok. intros i j x y Hij Hi Hj. rewrite list_lookup_fmap in Hi, Hj.
    set (sl := slices _) in *. destruct (sl !! i) as [[o n]|] eqn:Ei; [|done].
    destruct (sl !! j) as [[o' n']|] eqn:Ej; [|done]. simpl in Hi, Hj. simplify_eq. simpl.
    destruct (layout_intervals sl Hs Hlay i o n Ei) as (_ & _ & _ & Hlt). by apply (Hlt j o' n'). }
  unfold check_requirement. destruct (Z.ltb_spec (a_capacity_bytes a) (w_current_offset w)) as [Hbig|Hfit]; cbn [obind].
  - split; [done|]. intros r av sh [= <- _ _]. split_and!; [done|done|]. intros a' Ha'.
    rewrite (proj2 (Z.ltb_ge _ _)) by lia. cbn [obind].
    by rewrite (slice_bounds_spec key program w Hops); cbn [obind]; rewrite Hcheck.
  - rewrite (slice_bounds_spec key program w Hops). cbn [obind]. rewrite Hcheck. cbn [obind].
    constructor; cbn; try done.
    + unfold is_u64 in Hu. lia.
    + rewrite Hend. by apply layout_intervals.
Qed.

(** A capture that succeeds is the same in every arena that holds the graph. *)
Lemma capture_stable key program a a' g :
  capture resolve key program a = Ok g → cg_required_workspace_bytes g ≤ a_capacity_bytes a' →
  capture resolve key program a' = Ok g.
Proof.
  unfold capture. case_bool_decide; [done|]. destruct (existsb _ program); [|done]. cbn [negb].
  destruct (capture_ops resolve key program capturing_new) as [w|e|]; [|done..]. cbn [obind].
  destruct (launch_list_is_empty (w_launches w)); [done|]. unfold check_requirement.
  destruct (a_capacity_bytes a <? w_current_offset w); [done|]. cbn [obind].
  destruct (slice_bounds w) as [bounds|e|]; [|done..]. cbn [obind].
  destruct (check_overlaps bounds) as [u|e|]; [|done..]. cbn [obind].
  intros [= <-]. cbn. intros Hle. by rewrite (proj2 (Z.ltb_ge _ _)) by done.
Qed.

(** ** The cache *)

(** Every cached graph is what capturing its key in the arena gives. *)
Definition cache_ok (gc : GraphCache OpStatic) (a : WorkspaceArena) : Prop :=
  ∀ key g, gc_graphs gc !! key = Some g → capture resolve key (gc_program gc) a = Ok g.

Lemma cache_ok_grow gc a a' :
  registry_ok → program_ok (gc_program gc) → cache_ok gc a → a_capacity_bytes a ≤ a_capacity_bytes a' →
  cache_ok gc a'.
Proof.
  intros Hreg Hp Hok Hle key g Hg. specialize (Hok key g Hg). apply (capture_stable _ _ a); [done|].
  pose proof (capture_cases key (gc_program gc) a Hreg Hp) as Hc. rewrite Hok in Hc.
  pose proof (gk_fits _ _ _ _ Hc). lia.
Qed.

Lemma capture_keys_same program a keys graphs :
  Forall (λ key, ∃ g, graphs !! key = Some g ∧ capture resolve key program a = Ok g) keys →
  capture_keys resolve program a keys graphs = (Ok tt, graphs).
Proof.
  unfold capture_keys. intros Hall. induction Hall as [|key keys (g & Hg & Hc) Hall IH]; simpl; [done|].
  rewrite (sbind_Ok _ _ graphs tt graphs); [done|]. rewrite Hc.
  erewrite sbind_Ok by reflexivity. unfold smodify. by rewrite insert_id.
Qed.

Lemma sorted_keys_elem graphs key : key ∈ sorted_keys graphs → is_Some (graphs !! key).
Proof.
  unfold sorted_keys. rewrite merge_sort_Permutation, list_elem_of_fmap.
  intros ([k g] & -> & Hin%elem_of_map_to_list). by eexists.
Qed.

Lemma grow_and_capture_cases key required gc a :
  registry_ok → program_ok (gc_program gc) → cache_ok gc a → arena_ok a → 0 ≤ required →
  match grow required a with
  | (Ok _, a') => ∃ gc', gc_graphs gc' = gc_graphs gc ∧ gc_program gc' = gc_program gc ∧
      gc_arena_generation gc' = a_generation a' ∧ cache_ok gc' a' ∧
      grow_and_capture resolve key required (gc, a) = (capture resolve key (gc_program gc) a', (gc', a'))
  | (r, a') => ∃ e, r = Err e ∧ grow_and_capture resolve key required (gc, a) = (Err e, (gc, a'))
  end.
Proof.
  intros Hreg Hp Hok Ha Hreq. unfold grow_and_capture.
  pose proof (grow_covers a required) as Hcov.
  assert (∀ r a', grow required a = (r, a') → on_arena (OpStatic:=OpStatic) (grow required) (gc, a) = (r, (gc, a'))) as Hon.
  { intros r a' Hg. unfold on_arena, szoom. cbn [snd]. by rewrite Hg. }
  destruct (grow required a) as [[[]|e|] a'] eqn:Hg; specialize (Hon _ _ eq_refl).
  2: { exists e. split; [done|]. by erewrite sbind_Err by exact Hon. }
  2: { rewrite grow_cases in Hg by (done || apply Ha). repeat (case_match; try done). }
  destruct (Hcov a' Ha Hreq eq_refl) as (_ & _ & Hle & _).
  pose proof (cache_ok_grow gc a a' Hreg Hp Hok Hle) as Hok'.
  erewrite sbind_Ok by exact Hon. erewrite sbind_Ok by reflexivity. cbn beta iota zeta.
  assert (on_graphs (capture_keys resolve (gc_program gc) a' (sorted_keys (gc_graphs gc))) (gc, a') =
    (Ok tt, (set_graphs (gc_graphs gc) gc, a'))) as Hkeys.
  { unfold on_graphs, szoom. rewrite capture_keys_same; [done|].
    apply Forall_forall. intros k [g Hg']%sorted_keys_elem. exists g. auto. }
  erewrite sbind_Ok by exact Hkeys. erewrite sbind_Ok by reflexivity. unfold slift.
  exists (set_generation (a_generation a') (set_graphs (gc_graphs gc) gc)). by split_and!.
Qed.

Lemma cache_ok_insert gc a key g :
  cache_ok gc a → capture resolve key (gc_program gc) a = Ok g →
  cache_ok (set_graphs (<[key := g]> (gc_graphs gc)) gc) a.
Proof.
  intros Hok Hg k h. cbn. intros [[-> ->]|[Hne Hk]]%lookup_insert_Some; [done|by apply Hok].
Qed.

Lemma capture_keys_ok gc a keys graphs' r :
  cache_ok gc a → capture_keys resolve (gc_program gc) a keys (gc_graphs gc) = (r, graphs') →
  cache_ok (set_graphs graphs' gc) a.
Proof.
  revert gc. induction keys as [|key keys IH]; intros gc Hok.
  { intros [= <- <-]. by destruct gc. }
  unfold capture_keys in *. simpl. unfold sbind at 1 2. unfold slift.
  destruct (capture resolve key (gc_program gc) a) as [g|e|] eqn:Hcap.
  - unfold smodify. intros Hrun. exact (IH _ (cache_ok_insert gc a key g Hok Hcap) Hrun).
  - intros [= <- <-]. by destruct gc.
  - intros [= <- <-]. by destruct gc.
Qed.

(** The warm buckets are cached as capturing them gives. *)
Lemma eager_capture_ok plan rank program a gc :
  eager_capture_warm_buckets resolve plan rank program a = Ok gc →
  gc_program gc = program ∧ cache_ok gc a ∧ gc_arena_generation gc = a_generation a.
Proof.
  unfold eager_capture_warm_buckets.
  destruct (capture_keys resolve program a (warm_keys plan rank) ∅) as [r graphs] eqn:Hrun.
  destruct r as [[]|e|]; [|done..]. intros [= <-]. split_and!; [done| |done].
  refine (capture_keys_ok {| gc_program := program; gc_graphs := ∅; gc_arena_generation := a_generation a |} a _ _ _ _ Hrun).
  intros key g. cbn. by rewrite lookup_empty.
Qed.

(** A graph captured in [a'] joins a cache that is right for [a']. *)
Lemma store_graph (c : cache (OpStatic:=OpStatic) CapturedGraph) key gc a gc' a' g :
  c (gc, a) = (Ok g, (gc', a')) →
  (let! captured := c in
   let! _ := on_graphs (smodify (λ graphs, <[key := captured]> graphs)) in
   sret (captured, true)) (gc, a) =
  (Ok (g, true), (set_graphs (<[key := g]> (gc_graphs gc')) gc', a')).
Proof. intros Hc. by erewrite sbind_Ok by exact Hc. Qed.

Lemma grow_refusal a n e a' :
  arena_ok a → 0 ≤ n → grow n a = (Err e, a') →
  (∀ t, e ≠ Internal t) ∧ (∀ r av sh, e ≠ ArenaOverflow r av sh) ∧
  arena_ok a' ∧ a_capacity_bytes a ≤ a_capacity_bytes a'.
Proof.
  intros Ha Hn. pose proof Ha as [Hc Hal Hpk Hgen]. rewrite grow_cases by done. pose proof (aligned_bounds n).
  unfold overflow. destruct (Z.leb_spec n (a_capacity_bytes a)); [done|].
  destruct (Z.ltb_spec U64_MAX (n + 255)); [intros [= <- <-]; split_and!; done|].
  destruct (Z.ltb_spec U64_MAX (a_generation a + 1)); [|done].
  intros [= <- <-]. cbn. unfold is_u64, WORKSPACE_ALIGNMENT in *. split_and!; [done|done| |lia].
  constructor; cbn; unfold is_u64; lia.
Qed.

Lemma not_cached (gc : GraphCache OpStatic) key : gc_graphs gc !! key = None → true = negb (bool_decide (is_Some (gc_graphs gc !! key))).
Proof. intros ->. by rewrite bool_decide_eq_false_2 by (by intros []). Qed.

(** A key that is not cached. *)
Lemma capture_missing key gc a :
  registry_ok → program_ok (gc_program gc) → arena_ok a → cache_ok gc a →
  match
    (match capture resolve key (gc_program gc) a with
     | Ok g => sret g
     | Err (ArenaOverflow required _ _) => grow_and_capture resolve key required
     | Err e => sfail e
     | Panic => spanic
     end) (gc, a)
  with
  | (Ok g, (gc', a')) => cache_ok gc' a' ∧ arena_ok a' ∧ gc_program gc' = gc_program gc ∧
      a_capacity_bytes a ≤ a_capacity_bytes a' ∧ capture resolve key (gc_program gc) a' = Ok g ∧
      gc_graphs gc' = gc_graphs gc ∧
      (gc_arena_generation gc = a_generation a → gc_arena_generation gc' = a_generation a')
  | (Err e, (gc', a')) => gc_graphs gc' = gc_graphs gc ∧
      (∀ t, e ≠ Internal t) ∧ (∀ r av sh, e ≠ ArenaOverflow r av sh) ∧
      cache_ok gc' a' ∧ arena_ok a' ∧ gc_program gc' = gc_program gc
  | (Panic, _) => False
  end.
Proof.
  intros Hreg Hp Ha Hok. pose proof (capture_cases key (gc_program gc) a Hreg Hp) as Hc.
  destruct (capture resolve key (gc_program gc) a) as [g|e|] eqn:Hcap; [by split_and!| |done].
  destruct Hc as [Hint Hover]. destruct e as [| | | |required av sh| | | | | | |].
  all: try (split_and!; [done|exact Hint|by intros ? ? ? [=]|done..]).
  destruct (Hover required av sh eq_refl) as (Hbig & Hu & Hfits). unfold is_u64 in Hu.
  pose proof (grow_and_capture_cases key required gc a Hreg Hp Hok Ha ltac:(lia)) as Hgrow.
  pose proof (grow_covers a required) as Hcov. pose proof (grow_refusal a required) as Href.
  destruct (grow required a) as [[[]|e|] a'] eqn:Hg.
  - destruct Hgrow as (gc' & Hgr & Hpr & Hgen & Hok' & ->).
    destruct (Hcov a' Ha ltac:(lia) eq_refl) as (Ha' & Hreq & Hle & _).
    assert (required ≤ a_capacity_bytes a') as Hcap'.
    { unfold check_requirement in Hreq. destruct (Z.ltb_spec (a_capacity_bytes a') required); [done|lia]. }
    specialize (Hfits a' Hcap'). destruct (capture resolve key (gc_program gc) a') as [g|e|]; [|done..].
    by split_and!.
  - destruct Hgrow as (e' & [= <-] & ->).
    destruct (Href e a' Ha ltac:(lia) eq_refl) as (? & ? & ? & ?).
    split_and!; [done..|by apply (cache_ok_grow gc a)|done|done].
  - destruct Hgrow as (e & [=] & _).
Qed.

Lemma get_or_capture_cases key gc a :
  registry_ok → program_ok (gc_program gc) → arena_ok a → cache_ok gc a →
  match get_or_capture resolve key (gc, a) with
  | (Ok (g, was_captured), (gc', a')) => cache_ok gc' a' ∧ arena_ok a' ∧
      gc_program gc' = gc_program gc ∧ a_capacity_bytes a ≤ a_capacity_bytes a' ∧
      graph_ok key (gc_program gc) (a_capacity_bytes a') g ∧
      was_captured = negb (bool_decide (is_Some (gc_graphs gc !! key))) ∧
      gc_graphs gc' = <[key := g]> (gc_graphs gc) ∧
      (gc_arena_generation gc = a_generation a → gc_arena_generation gc' = a_generation a')
  | (Err e, (gc', a')) => cache_ok gc' a' ∧ arena_ok a' ∧ gc_program gc' = gc_program gc ∧
      gc_graphs gc' = gc_graphs gc ∧ gc_graphs gc !! key = None ∧
      (∀ t, e ≠ Internal t) ∧ (∀ r av sh, e ≠ ArenaOverflow r av sh)
  | (Panic, _) => False
  end.
Proof.
  intros Hreg Hp Ha Hok. unfold get_or_capture. erewrite sbind_Ok by reflexivity. cbn beta iota.
  destruct (gc_graphs gc !! key) as [g|] eqn:Hk.
  - pose proof (Hok key g Hk) as Hcap. pose proof (capture_cases key (gc_program gc) a Hreg Hp) as Hc.
    rewrite Hcap in Hc. split_and!; try done. by rewrite insert_id.
  - pose proof (capture_missing key gc a Hreg Hp Ha Hok) as Hm.
    set (c := match capture resolve key (gc_program gc) a with Ok _ => _ | Err _ => _ | Panic => _ end) in *.
    destruct (c (gc, a)) as [[g|e|] [gc' a']] eqn:Hrun; [| |done].
    + destruct Hm as (Hok' & Ha' & Hpr & Hle & Hcap & Hgr & Hgen).
      rewrite (store_graph _ key _ _ _ _ _ Hrun).
      pose proof (capture_cases key (gc_program gc) a' Hreg Hp) as Hc. rewrite Hcap in Hc.
      split_and!; try done; [|by cbn; rewrite Hgr].
      apply cache_ok_insert; [done|by rewrite Hpr].
    + destruct Hm as (? & ? & ? & ? & ? & ?). by erewrite sbind_Err by exact Hrun.
Qed.
End capture_spec.

(** C39: asking the cache for a graph never panics and keeps every cached graph
    what a capture in the present arena gives.  An answer is the cached graph,
    or a graph captured now, after growing the arena if it needed more; it
    fits the arena, its workspace slices are aligned and disjoint, and each is
    bound in the arguments of its launch.  A refusal leaves the cached graphs
    as they were and right for the arena, and is never an internal error. *)
Theorem get_or_capture_spec {OpStatic} (resolve : OpId.t → OpStatic → outcome Text ResolvedVariant) key gc a :
  registry_ok resolve → program_ok (gc_program gc) → arena_ok a → cache_ok resolve gc a →
  match get_or_capture resolve key (gc, a) with
  | (Ok (g, was_captured), (gc', a')) => cache_ok resolve gc' a' ∧ arena_ok a' ∧
      gc_program gc' = gc_program gc ∧ a_capacity_bytes a ≤ a_capacity_bytes a' ∧
      graph_ok resolve key (gc_program gc) (a_capacity_bytes a') g ∧
      was_captured = negb (bool_decide (is_Some (gc_graphs gc !! key))) ∧
      gc_graphs gc' = <[key := g]> (gc_graphs gc) ∧
      (gc_arena_generation gc = a_generation a → gc_arena_generation gc' = a_generation a')
  | (Err e, (gc', a')) => cache_ok resolve gc' a' ∧ arena_ok a' ∧ gc_program gc' = gc_program gc ∧
      gc_graphs gc' = gc_graphs gc ∧ gc_graphs gc !! key = None ∧
      (∀ t, e ≠ Internal t) ∧ (∀ r av sh, e ≠ ArenaOverflow r av sh)
  | (Panic, _) => False
  end.
Proof. apply get_or_capture_cases. Qed.

(** A registry with one variant of 300 workspace bytes, and a program whose
    two launches bind their workspace at the start of their arguments. *)
Definition toy_resolve (id : OpId.t) (s : unit) : outcome Text ResolvedVariant :=
  Ok {| v_variant_hash := 7; v_arch := lit "gfx1100"; v_op := id; v_tier := T1; v_entry_symbol := lit "matmul";
        v_launch_geometry := {| g_grid := (1, 1, 1); g_block := (1, 1, 1); g_shared_mem_bytes := 0 |};
        v_workspace_bytes := 300; v_static_bytes := 0; v_static_flops := 0; v_code_object_path := None;
        v_artifact_origin := Some Shipped; v_code_object_bytes := None; v_validated := true |}.

Definition toy_program : StepGraphProgram unit :=
  let op id := step_program_op_new id "op" (λ _, Some tt) (repeat 0 12) (Some 0) in
  [op OpId.Matmul; op OpId.Sample].

Definition toy_key : StepGraphKey :=
  {| k_plan_id := 1; k_rank := 0; k_s := 1; k_t_dec := 1; k_t_pre := 0; k_segment := 0 |}.

Lemma get_or_capture_spec_witness :
  registry_ok toy_resolve ∧ program_ok toy_program ∧ arena_ok (arena_new 0 256) ∧
  cache_ok toy_resolve (cache_new toy_program) (arena_new 0 256) ∧
  ∃ g gc' a', get_or_capture toy_resolve toy_key (cache_new toy_program, arena_new 0 256) =
      (Ok (g, true), (gc', a')) ∧
    cache_ok toy_resolve gc' a' ∧ graph_ok toy_resolve toy_key toy_program (a_capacity_bytes a') g ∧
    cg_workspace_offsets g = [0; 512] ∧ a_capacity_bytes a' = 1024.
Proof.
  assert (registry_ok toy_resolve) as Hreg.
  { split; [done|]. intros id s v [= <-]. cbn. unfold is_u64, U64_MAX. lia. }
  assert (program_ok toy_program) as Hp by (repeat constructor; by intros slot [= <-]).
  assert (arena_ok (arena_new 0 256)) as Ha by (constructor; cbn; unfold is_u64, U64_MAX; lia).
  assert (cache_ok toy_resolve (cache_new toy_program) (arena_new 0 256)) as Hok by (by intros key g ?).
  split_and!; [done..|].
  pose proof (get_or_capture_spec toy_resolve toy_key (cache_new toy_program) (arena_new 0 256) Hreg Hp Ha Hok) as H.
  destruct (get_or_capture toy_resolve toy_key (cache_new toy_program, arena_new 0 256))
    as [[[g b]|e|] [gc' a']] eqn:E; [| |done].
  2: { exfalso. revert E. by vm_compute. }
  destruct H as (? & _ & _ & _ & ? & -> & _). exists g, gc', a'. split_and!; [done..| |].
  all: revert E; vm_compute; by intros [= <- <- <-].
Defined.
