(* ===== verification/Cost.v ===== *)
(** * The step cost table

    [crates/r9v-sched/src/cost.rs]: costs in milliseconds per shape bucket, the
    budget they resolve to, and the choice of a prefill chunk.  The trait is a
    class over the one method without a default body.

    Shape buckets: The bucket functions of [crates/r9v-ir/src/graph.rs]: batch dimensions are
    rounded up to one of thirteen sizes. *)

From S2P Require Import Prelude Bytes Errors SchedError.

#[global] Open Scope Z_scope.

Definition BUCKET_SIZES : list Z :=
  [1; 2; 4; 8; 16; 32; 64; 128; 256; 512; 1024; 2048; 4096].

(** [for &b in &BUCKET_SIZES { if v <= b { return Ok(b) } }]. *)
Fixpoint first_bucket (sizes : list Z) (v : Z) : option Z :=
  match sizes with
  | [] => None
  | b :: sizes => if v <=? b then Some b else first_bucket sizes v
  end.

Definition bucket_s (s : Z) : outcome IrError Z :=
  if s =? 0 then Err (InvalidBucket "S" s)
  else ok_or (first_bucket BUCKET_SIZES s) (BucketExceeded "S" s 4096).

Definition bucket_t_dec (t_dec : Z) : outcome IrError Z :=
  if t_dec =? 0 then Err (InvalidBucket "T_dec" t_dec)
  else ok_or (first_bucket BUCKET_SIZES t_dec) (BucketExceeded "T_dec" t_dec 4096).

Definition bucket_t_pre (t_pre : Z) : outcome IrError Z :=
  if t_pre =? 0 then Ok 0
  else ok_or (first_bucket BUCKET_SIZES t_pre) (BucketExceeded "T_pre" t_pre 4096).

(** [match bucket { Ok(v) => v, Err(e) => { problems.push(e); 0 } }]. *)
Definition bucket_or_problem (r : outcome IrError Z) : Z * list IrError :=
  match r with
  | Ok v => (v, [])
  | Err e => (0, [e])
  | Panic => (0, [])
  end.

Definition bucket_step (s t_dec t_pre : Z) : outcome IrError (Z * Z * Z) :=
  let '(b_s, p_s) := bucket_or_problem (bucket_s s) in
  let '(b_dec, p_dec) := bucket_or_problem (bucket_t_dec t_dec) in
  let '(b_pre, p_pre) := bucket_or_problem (bucket_t_pre t_pre) in
  let* _ := from_problems (p_s ++ p_dec ++ p_pre) in
  Ok (b_s, b_dec, b_pre).

(** ** What they compute *)

(** [b] is the least size that holds [v]. *)
Definition bucket_of (v b : Z) : Prop :=
  b ∈ BUCKET_SIZES ∧ v ≤ b ∧ ∀ b', b' ∈ BUCKET_SIZES → v ≤ b' → b ≤ b'.

Lemma first_bucket_spec sizes v :
  StronglySorted Z.lt sizes →
  match first_bucket sizes v with
  | Some b => b ∈ sizes ∧ v ≤ b ∧ ∀ b', b' ∈ sizes → v ≤ b' → b ≤ b'
  | None => ∀ b, b ∈ sizes → b < v
  end.
Proof.
  induction 1 as [|b sizes Hs IH Hb]; simpl; [by intros ? ?%elem_of_nil|].
  rewrite Forall_forall in Hb. destruct (Z.leb_spec v b).
  - split_and!; [left|done|]. intros b' [->|Hin]%elem_of_cons ?; [lia|]. specialize (Hb b' Hin). lia.
  - destruct (first_bucket sizes v) as [b0|].
    + destruct IH as (? & ? & Hmin). split_and!; [by right|done|].
      intros b' [->|Hin]%elem_of_cons ?; [lia|auto].
    + intros b' [->|Hin]%elem_of_cons; [done|auto].
Qed.

Lemma bucket_sizes_sorted : StronglySorted Z.lt BUCKET_SIZES.
Proof. unfold BUCKET_SIZES. repeat constructor. Qed.

Lemma bucket_sizes_range b : b ∈ BUCKET_SIZES → 1 ≤ b ≤ 4096.
Proof.
  intros Hb. assert (Forall (λ b, 1 ≤ b ≤ 4096) BUCKET_SIZES) as H by (repeat constructor; lia).
  rewrite Forall_forall in H. auto.
Qed.

Lemma first_bucket_Some v b : first_bucket BUCKET_SIZES v = Some b → bucket_of v b.
Proof. intros H. pose proof (first_bucket_spec _ v bucket_sizes_sorted) as Hs. by rewrite H in Hs. Qed.

Lemma first_bucket_total v :
  if v <=? 4096 then ∃ b, first_bucket BUCKET_SIZES v = Some b ∧ bucket_of v b
  else first_bucket BUCKET_SIZES v = None.
Proof.
  pose proof (first_bucket_spec _ v bucket_sizes_sorted) as Hs.
  destruct (Z.leb_spec v 4096), (first_bucket BUCKET_SIZES v) as [b|] eqn:Hb.
  - exists b. split; [done|]. by apply first_bucket_Some.
  - specialize (Hs 4096 ltac:(unfold BUCKET_SIZES; set_solver)). lia.
  - destruct Hs as (Hin & ? & _). apply bucket_sizes_range in Hin. lia.
  - done.
Qed.

Lemma bucket_of_range v b : bucket_of v b → v ≤ b ≤ 4096 ∧ 1 ≤ b.
Proof. intros (Hin & ? & _). apply bucket_sizes_range in Hin. lia. Qed.

(** A bucket wastes less than half of itself. *)
Lemma bucket_of_tight v b : 1 ≤ v → bucket_of v b → b < 2 * v.
Proof.
  intros Hv (Hin & Hle & Hmin).
  assert (Forall (λ b, b = 1 ∨ b / 2 ∈ BUCKET_SIZES ∧ b = 2 * (b / 2)) BUCKET_SIZES) as Hhalves.
  { apply (bool_decide_unpack _). by vm_compute. }
  rewrite Forall_forall in Hhalves. destruct (Hhalves b Hin) as [->|[Hhalf Heq]]; [lia|].
  destruct (Z.le_gt_cases v (b / 2)) as [Hlow|]; [|lia].
  specialize (Hmin _ Hhalf Hlow). lia.
Qed.

(** The problems of a step's dimensions, in the order they are collected. *)
Definition step_problems (s t_dec t_pre : Z) : list IrError :=
  (if s =? 0 then [InvalidBucket "S" s]
   else if 4096 <? s then [BucketExceeded "S" s 4096] else []) ++
  (if t_dec =? 0 then [InvalidBucket "T_dec" t_dec]
   else if 4096 <? t_dec then [BucketExceeded "T_dec" t_dec 4096] else []) ++
  (if 4096 <? t_pre then [BucketExceeded "T_pre" t_pre 4096] else []).

(** A zero prefill stays zero; everything else takes its bucket. *)
Definition pre_bucket_of (t_pre b : Z) : Prop :=
  if t_pre =? 0 then b = 0 else bucket_of t_pre b.

Lemma bucket_or_problem_total (zero exceeded : IrError) v :
  let r := if v =? 0 then Err zero else ok_or (first_bucket BUCKET_SIZES v) exceeded in
  (bucket_or_problem r).2 =
    (if v =? 0 then [zero] else if 4096 <? v then [exceeded] else []) ∧
  ((bucket_or_problem r).2 = [] → bucket_of v (bucket_or_problem r).1).
Proof.
  destruct (v =? 0); [done|]. pose proof (first_bucket_total v) as Ht.
  destruct (Z.leb_spec v 4096).
  - destruct Ht as (b & -> & Hb). rewrite (proj2 (Z.ltb_ge _ _)) by lia. done.
  - rewrite Ht, (proj2 (Z.ltb_lt _ _)) by lia. done.
Qed.

Lemma bucket_step_cases s t_dec t_pre :
  0 ≤ s → 0 ≤ t_dec → 0 ≤ t_pre →
  match bucket_step s t_dec t_pre with
  | Ok (b_s, b_dec, b_pre) => step_problems s t_dec t_pre = [] ∧
      bucket_of s b_s ∧ bucket_of t_dec b_dec ∧ pre_bucket_of t_pre b_pre ∧
      b_s < 2 * s ∧ b_dec < 2 * t_dec ∧ (b_pre < 2 * t_pre ∨ b_pre = 0)
  | Err e => step_problems s t_dec t_pre ≠ [] ∧
      from_problems (step_problems s t_dec t_pre) = Err e
  | Panic => False
  end.
Proof.
  intros Hs Hd Hp. unfold bucket_step.
  destruct (bucket_or_problem_total (InvalidBucket "S" s) (BucketExceeded "S" s 4096) s) as [Ps Bs].
  destruct (bucket_or_problem_total (InvalidBucket "T_dec" t_dec)
    (BucketExceeded "T_dec" t_dec 4096) t_dec) as [Pd Bd].
  fold (bucket_s s) in Ps, Bs. fold (bucket_t_dec t_dec) in Pd, Bd.
  assert ((bucket_or_problem (bucket_t_pre t_pre)).2 =
      (if 4096 <? t_pre then [BucketExceeded "T_pre" t_pre 4096] else []) ∧
    ((bucket_or_problem (bucket_t_pre t_pre)).2 = [] →
     pre_bucket_of t_pre (bucket_or_problem (bucket_t_pre t_pre)).1)) as [Pp Bp].
  { destruct (bucket_or_problem_total (InvalidBucket "T_pre" t_pre)
      (BucketExceeded "T_pre" t_pre 4096) t_pre) as [P B].
    unfold bucket_t_pre, pre_bucket_of. destruct (Z.eqb_spec t_pre 0) as [->|]; [done|]. done. }
  destruct (bucket_or_problem (bucket_s s)) as [b_s p_s].
  destruct (bucket_or_problem (bucket_t_dec t_dec)) as [b_dec p_dec].
  destruct (bucket_or_problem (bucket_t_pre t_pre)) as [b_pre p_pre]. simpl in *.
  replace (p_s ++ p_dec ++ p_pre) with (step_problems s t_dec t_pre)
    by (unfold step_problems; congruence).
  pose proof (from_problems_no_panic (step_problems s t_dec t_pre)) as Hnp.
  destruct (from_problems (step_problems s t_dec t_pre)) as [[]|e|] eqn:Hfp; simpl; [| |done].
  - apply from_problems_Ok in Hfp. split; [done|]. unfold step_problems in Hfp.
    rewrite <- Ps, <- Pd, <- Pp in Hfp.
    apply app_eq_nil in Hfp as [-> [-> ->]%app_eq_nil].
    specialize (Bs eq_refl). specialize (Bd eq_refl). specialize (Bp eq_refl).
    assert (s ≠ 0) by (intros ->; done). assert (t_dec ≠ 0) by (intros ->; done).
    split_and!; [done..|apply bucket_of_tight; [lia|done]|apply bucket_of_tight; [lia|done]|].
    unfold pre_bucket_of in Bp. destruct (Z.eqb_spec t_pre 0); [by right|].
    left. apply bucket_of_tight; [lia|done].
  - split; [|done]. intros Hnil. rewrite Hnil in Hfp. done.
Qed.

(** A step's dimensions are accepted exactly when no axis is zero (prefill
    may be) and none is above 4096, with every offending axis reported; an
    accepted axis gets the least bucket that holds it, which is less than
    twice its value. *)
Theorem bucket_step_spec s t_dec t_pre :
  0 ≤ s → 0 ≤ t_dec → 0 ≤ t_pre →
  match bucket_step s t_dec t_pre with
  | Ok (b_s, b_dec, b_pre) => step_problems s t_dec t_pre = [] ∧
      bucket_of s b_s ∧ bucket_of t_dec b_dec ∧ pre_bucket_of t_pre b_pre ∧
      b_s < 2 * s ∧ b_dec < 2 * t_dec ∧ (b_pre < 2 * t_pre ∨ b_pre = 0)
  | Err e => step_problems s t_dec t_pre ≠ [] ∧
      from_problems (step_problems s t_dec t_pre) = Err e
  | Panic => False
  end.
Proof. apply bucket_step_cases. Qed.

(** * The step cost table *)

Inductive ProfileMode : Type := Latency | Throughput.
Inductive StepBudgetConfig : Type := Manual (ms : f32) | Auto.

Definition validate_cost_ms (context : string) (value : f32) : SchedResult f32 :=
  if negb (is_finite value) || f32_lt value f32_zero then Err (InvalidCost context value)
  else Ok value.

Definition validate_budget_ms (value : f32) : SchedResult f32 :=
  if negb (is_finite value) || f32_le value f32_zero then Err (InvalidCost "step_budget" value)
  else Ok value.

(** [CostTable::cost_ms]. *)
Class CostTable (T : Type) : Type := cost_ms : T → Z → Z → Z → SchedResult f32.
#[global] Hint Mode CostTable + : typeclass_instances.

(** [estimate_pre_step_ms]. *)
Definition estimate_pre_step_ms (budget_ms : f32) : f32 :=
  if negb (is_finite budget_ms) || f32_le budget_ms f32_zero then f32_zero
  else f32_mul budget_ms (f32_lit 1 10).

Section cost_table.
Context {T : Type} `{CostTable T}.
Implicit Type t : T.

Definition resolve_budget_ms t (config : StepBudgetConfig) (profile : ProfileMode) : SchedResult f32 :=
  let* b := match config with
    | Manual ms => Ok ms
    | Auto =>
        let* base := cost_ms t 1 1 0 in
        Ok match profile with
           | Latency => f32_mul (f32_lit 5 4) base
           | Throughput => f32_mul (f32_of_Z 8) base
           end
    end in
  validate_budget_ms b.

(** [let d_cost = if s_dec > 0 && t_dec > 0 { cost } else { 0.0 }]. *)
Definition decode_cost t (s_dec t_dec : Z) : SchedResult f32 :=
  if (0 <? s_dec) && (0 <? t_dec) then cost_ms t s_dec t_dec 0 else Ok f32_zero.

Definition prefill_room_ms t (budget_ms : f32) (s_dec t_dec : Z) (pre_step_estimate_ms : f32)
    : SchedResult f32 :=
  if negb (is_finite budget_ms) || negb (is_finite pre_step_estimate_ms) then
    Err (InvalidCost "prefill_room_inputs"
           (if negb (is_finite budget_ms) then budget_ms else pre_step_estimate_ms))
  else
    let* d_cost := decode_cost t s_dec t_dec in
    Ok (f32_sub (f32_sub budget_ms d_cost) pre_step_estimate_ms).

(** [s_dec.checked_add(1).unwrap_or(s_dec)]. *)
Definition next_s (s_dec : Z) : Z := default s_dec (checked_add U32_MAX s_dec 1).

(** Whether the marginal cost of a chunk of [b] fits the room. *)
Definition fits_room t (s_dec t_dec : Z) (d_cost room_ms : f32) (b : Z) : SchedResult bool :=
  let* next_cost := cost_ms t (next_s s_dec) t_dec b in
  Ok (f32_le (f32_sub next_cost d_cost) room_ms).

(** [for &b in BUCKET_SIZES.iter().rev()]. *)
Fixpoint scan_chunks t (s_dec t_dec : Z) (d_cost room_ms : f32) (remaining min_chunk max_chunk : Z)
    (sizes : list Z) : SchedResult (option Z) :=
  match sizes with
  | [] => Ok None
  | b :: sizes =>
      if (min_chunk <=? b) && (b <=? max_chunk) && (b <=? remaining) then
        let* fits := fits_room t s_dec t_dec d_cost room_ms b in
        if fits : bool then Ok (Some b)
        else scan_chunks t s_dec t_dec d_cost room_ms remaining min_chunk max_chunk sizes
      else scan_chunks t s_dec t_dec d_cost room_ms remaining min_chunk max_chunk sizes
  end.

Definition select_prefill_chunk t (remaining_prompt s_dec t_dec : Z) (room_ms : f32)
    (min_chunk max_chunk : Z) : SchedResult (option Z) :=
  if negb (is_finite room_ms) then Err (InvalidCost "prefill_room" room_ms)
  else if f32_le room_ms f32_zero || (remaining_prompt =? 0) then Ok None
  else
    let* d_cost := decode_cost t s_dec t_dec in
    if remaining_prompt <? min_chunk then
      let* fits := fits_room t s_dec t_dec d_cost room_ms min_chunk in
      Ok (if fits : bool then Some remaining_prompt else None)
    else scan_chunks t s_dec t_dec d_cost room_ms remaining_prompt min_chunk max_chunk
           (rev BUCKET_SIZES).
End cost_table.

(** ** The in-memory table *)

Record CostTableStub : Type := {
  ct_exact_table : gmap (Z * Z * Z) f32;
  ct_base_decode_ms : f32;
  ct_decode_token_ms : f32;
  ct_prefill_token_ms : f32
}.

Definition cost_table_new (base_decode_ms decode_token_ms prefill_token_ms : f32) : CostTableStub :=
  {| ct_exact_table := ∅; ct_base_decode_ms := base_decode_ms;
     ct_decode_token_ms := decode_token_ms; ct_prefill_token_ms := prefill_token_ms |}.

Definition cost_table_default : CostTableStub :=
  cost_table_new (f32_of_Z 8) (f32_lit 1 20) (f32_lit 1 200).

(** [bucket.unwrap_or(dflt)]. *)
Definition bucket_or (dflt : Z) (r : outcome IrError Z) : Z :=
  match r with Ok b => b | _ => dflt end.

(** The bucket of a shape, with zero axes raised and unbucketed ones dropped. *)
Definition table_key (s t_dec t_pre : Z) : Z * Z * Z :=
  (bucket_or 1 (bucket_s (Z.max s 1)), bucket_or 1 (bucket_t_dec (Z.max t_dec 1)),
   bucket_or 0 (bucket_t_pre t_pre)).

Definition set_bucket_cost (s t_dec t_pre : Z) (cost_ms : f32) (t : CostTableStub) : CostTableStub :=
  {| ct_exact_table := <[table_key s t_dec t_pre := cost_ms]> (ct_exact_table t);
     ct_base_decode_ms := ct_base_decode_ms t; ct_decode_token_ms := ct_decode_token_ms t;
     ct_prefill_token_ms := ct_prefill_token_ms t |}.

Definition stub_cost (t : CostTableStub) (s t_dec t_pre : Z) : SchedResult f32 :=
  let '(b_s, b_dec, b_pre) := table_key s t_dec t_pre in
  validate_cost_ms "cost_table"
    match ct_exact_table t !! (b_s, b_dec, b_pre) with
    | Some c => c
    | None =>
        let c := ct_base_decode_ms t in
        let c := if b_s <? b_dec
                 then f32_add c (f32_mul (f32_of_Z (b_dec - b_s)) (ct_decode_token_ms t)) else c in
        if 0 <? b_pre then f32_add c (f32_mul (f32_of_Z b_pre) (ct_prefill_token_ms t)) else c
    end.

#[global] Instance stub_cost_table : CostTable CostTableStub := stub_cost.

(** ** What they compute *)

(** A resolved budget is a positive number. *)
Lemma resolve_budget_positive {T} `{CostTable T} (t : T) config profile b :
  resolve_budget_ms t config profile = Ok b → is_finite b = true ∧ f32_lt f32_zero b = true.
Proof.
  unfold resolve_budget_ms. intros (x & _ & Hv)%obind_Ok_inv. unfold validate_budget_ms in Hv.
  destruct (is_finite x) eqn:Hf; [|done]. simpl in Hv.
  destruct (f32_le x f32_zero) eqn:Hle; [done|]. injection Hv as <-.
  split; [done|]. by apply f32_le_zero_finite.
Qed.

(** The stub refuses a table value instead of clamping it. *)
Lemma stub_cost_valid t s t_dec t_pre c :
  stub_cost t s t_dec t_pre = Ok c → is_finite c = true ∧ f32_lt c f32_zero = false.
Proof.
  unfold stub_cost. destruct (table_key s t_dec t_pre) as [[b_s b_dec] b_pre].
  unfold validate_cost_ms. set (v := match _ !! _ with Some _ => _ | None => _ end).
  destruct (is_finite v) eqn:Hf; [|done]. simpl. destruct (f32_lt v f32_zero) eqn:Hl; [done|].
  intros [= <-]. done.
Qed.

Section selection.
Context {T : Type} `{CostTable T} (t : T).
Context (remaining s_dec t_dec : Z) (room_ms d_cost : f32) (min_chunk max_chunk : Z).

(** The chunks the selection may answer: buckets between the bounds that the
    prompt still has, and all of a prompt shorter than the least chunk. *)
Definition candidate (b : Z) : Prop :=
  b ∈ BUCKET_SIZES ∧ min_chunk ≤ b ≤ max_chunk ∧ b ≤ remaining.

Lemma scan_chunks_spec sizes :
  StronglySorted Z.gt sizes →
  match scan_chunks t s_dec t_dec d_cost room_ms remaining min_chunk max_chunk sizes with
  | Ok (Some c) => c ∈ sizes ∧ min_chunk ≤ c ≤ max_chunk ∧ c ≤ remaining ∧
      fits_room t s_dec t_dec d_cost room_ms c = Ok true ∧
      ∀ b, b ∈ sizes → min_chunk ≤ b ≤ max_chunk → b ≤ remaining → c < b →
        fits_room t s_dec t_dec d_cost room_ms b = Ok false
  | Ok None => ∀ b, b ∈ sizes → min_chunk ≤ b ≤ max_chunk → b ≤ remaining →
        fits_room t s_dec t_dec d_cost room_ms b = Ok false
  | Err e => ∃ b, b ∈ sizes ∧ min_chunk ≤ b ≤ max_chunk ∧ b ≤ remaining ∧
        fits_room t s_dec t_dec d_cost room_ms b = Err e
  | Panic => ∃ b, b ∈ sizes ∧ fits_room t s_dec t_dec d_cost room_ms b = Panic
  end.
Proof.
  induction 1 as [|b sizes Hs IH Hb]; [by intros ? ?%elem_of_nil|]. cbn [scan_chunks].
  rewrite Forall_forall in Hb.
  destruct (Z.leb_spec min_chunk b), (Z.leb_spec b max_chunk), (Z.leb_spec b remaining); cbn [andb].
  1: destruct (fits_room t s_dec t_dec d_cost room_ms b) as [[]|e|] eqn:Hf; simpl.
  1: { split_and!; [left|lia|lia|lia|done|]. intros b' [->|Hin]%elem_of_cons ? ? ?; [lia|].
       specialize (Hb b' Hin). lia. }
  2: { exists b. split_and!; [left|lia..|done]. }
  2: { exists b. split; [left|done]. }
  all: destruct (scan_chunks _ _ _ _ _ _ _ _ sizes) as [[c|]|e|].
  all: try (destruct IH as (b' & ? & IH); exists b'; split; [by right|exact IH]).
  all: try (intros b' [->|Hin]%elem_of_cons ? ?; [done || lia|by apply IH]).
  all: destruct IH as (? & ? & ? & ? & IH); split_and!; [by right|lia..|done|].
  all: intros b' [->|Hin]%elem_of_cons ? ? ?; [done || lia|by apply IH].
Qed.

Lemma sizes_descend : StronglySorted Z.gt (rev BUCKET_SIZES).
Proof. unfold BUCKET_SIZES. simpl. repeat constructor. Qed.

(** The chunk [c] is what the cost model allows: the whole of a prompt shorter
    than the least chunk when that chunk fits the room, and otherwise the
    largest candidate that fits. *)
Definition chunk_allowed (c : Z) : Prop :=
  if remaining <? min_chunk then
    c = remaining ∧ fits_room t s_dec t_dec d_cost room_ms min_chunk = Ok true
  else candidate c ∧ fits_room t s_dec t_dec d_cost room_ms c = Ok true ∧
    ∀ b, candidate b → c < b → fits_room t s_dec t_dec d_cost room_ms b = Ok false.

Definition nothing_fits : Prop :=
  if remaining <? min_chunk then fits_room t s_dec t_dec d_cost room_ms min_chunk = Ok false
  else ∀ b, candidate b → fits_room t s_dec t_dec d_cost room_ms b = Ok false.
End selection.

(** A table answers or refuses. *)
Definition cost_total {T} `{CostTable T} (t : T) : Prop :=
  ∀ s t_dec t_pre, cost_ms t s t_dec t_pre ≠ Panic.

Lemma stub_total (t : CostTableStub) : cost_total t.
Proof.
  intros s d p. unfold cost_ms, stub_cost_table, stub_cost.
  destruct (table_key s d p) as [[? ?] ?]. unfold validate_cost_ms. by case_match.
Qed.

Lemma fits_room_total {T} `{CostTable T} (t : T) s d c r b :
  cost_total t → fits_room t s d c r b ≠ Panic.
Proof.
  intros Ht. unfold fits_room. specialize (Ht (next_s s) d b).
  by destruct (cost_ms t (next_s s) d b).
Qed.

Lemma decode_cost_total {T} `{CostTable T} (t : T) s d : cost_total t → decode_cost t s d ≠ Panic.
Proof. intros Ht. unfold decode_cost. case_match; [apply Ht|done]. Qed.

Lemma select_prefill_chunk_cases {T} `{CostTable T} (t : T) remaining s_dec t_dec room_ms min_chunk max_chunk :
  cost_total t → 0 ≤ remaining → 0 < min_chunk ≤ max_chunk →
  match select_prefill_chunk t remaining s_dec t_dec room_ms min_chunk max_chunk with
  | Ok (Some c) => is_finite room_ms = true ∧ f32_lt f32_zero room_ms = true ∧
      0 < c ≤ remaining ∧ c ≤ max_chunk ∧
      ∃ d, decode_cost t s_dec t_dec = Ok d ∧
        chunk_allowed t remaining s_dec t_dec room_ms d min_chunk max_chunk c
  | Ok None => is_finite room_ms = true ∧
      (f32_le room_ms f32_zero = true ∨ remaining = 0 ∨
       ∃ d, decode_cost t s_dec t_dec = Ok d ∧
         nothing_fits t remaining s_dec t_dec room_ms d min_chunk max_chunk)
  | Err e => (is_finite room_ms = false ∧ e = InvalidCost "prefill_room" room_ms) ∨
      ∃ s d p, cost_ms t s d p = Err e
  | Panic => False
  end.
Proof.
  intros Ht Hrem Hchunk. unfold select_prefill_chunk.
  destruct (is_finite room_ms) eqn:Hfin; [|by left]. cbn [negb].
  destruct (f32_le room_ms f32_zero) eqn:Hpos; [by split; [|left]|]. cbn [orb].
  destruct (Z.eqb_spec remaining 0) as [->|Hrem0]; [by split; [|right; left]|].
  pose proof (f32_le_zero_finite _ Hpos Hfin) as Hlt.
  pose proof (decode_cost_total t s_dec t_dec Ht) as Hnp.
  destruct (decode_cost t s_dec t_dec) as [d|e|] eqn:Hd; cbn [obind]; [| |done].
  2: { right. unfold decode_cost in Hd. case_match; [eauto|done]. }
  assert (∀ b e, fits_room t s_dec t_dec d room_ms b = Err e → ∃ s d p, cost_ms t s d p = Err e) as Herr.
  { unfold fits_room. intros b e [He|(? & ? & ?)]%obind_Err_inv; [eauto|done]. }
  unfold chunk_allowed, nothing_fits. destruct (Z.ltb_spec remaining min_chunk) as [Hshort|Hlong].
  - pose proof (fits_room_total t s_dec t_dec d room_ms min_chunk Ht).
    destruct (fits_room t s_dec t_dec d room_ms min_chunk) as [[]|e|] eqn:Hf; cbn [obind]; [| | |done].
    + split_and!; [done..|lia|lia|lia|]. by exists d.
    + split; [done|]. right; right. by exists d.
    + right. eauto.
  - pose proof (scan_chunks_spec t remaining s_dec t_dec room_ms d min_chunk max_chunk _ sizes_descend) as Hs.
    assert (∀ b, b ∈ rev BUCKET_SIZES ↔ b ∈ BUCKET_SIZES) as Hrev by (intros; apply elem_of_rev).
    destruct (scan_chunks _ _ _ _ _ _ _ _ _) as [[c|]|e|].
    + destruct Hs as (Hin & ? & ? & Hf & Hmax). apply Hrev in Hin.
      split_and!; [done..|lia|lia|lia|]. exists d. split; [done|]. split; [done|]. split; [done|].
      intros b (Hb & ? & ?) ?. apply Hmax; [by apply Hrev|lia..].
    + split; [done|]. right; right. exists d. split; [done|]. intros b (Hb & ? & ?).
      apply Hs; [by apply Hrev|lia..].
    + right. destruct Hs as (b & _ & _ & _ & Hf). eauto.
    + destruct Hs as (b & _ & Hf). by eapply fits_room_total.
Qed.

(** the prefill chunk the scheduler admits is the largest bucket between
    the chunk bounds that the prompt still has and whose marginal cost fits
    the room, or the whole rest of a prompt shorter than the least chunk;
    nothing is admitted exactly when the room is not positive, the prompt is
    done or nothing fits; and only a room that is not a number or a table that
    refuses is an error. *)
Theorem select_prefill_chunk_spec {T} `{CostTable T} (t : T) remaining s_dec t_dec room_ms min_chunk max_chunk :
  cost_total t → 0 ≤ remaining → 0 < min_chunk ≤ max_chunk →
  match select_prefill_chunk t remaining s_dec t_dec room_ms min_chunk max_chunk with
  | Ok (Some c) => is_finite room_ms = true ∧ f32_lt f32_zero room_ms = true ∧
      0 < c ≤ remaining ∧ c ≤ max_chunk ∧
      ∃ d, decode_cost t s_dec t_dec = Ok d ∧
        chunk_allowed t remaining s_dec t_dec room_ms d min_chunk max_chunk c
  | Ok None => is_finite room_ms = true ∧
      (f32_le room_ms f32_zero = true ∨ remaining = 0 ∨
       ∃ d, decode_cost t s_dec t_dec = Ok d ∧
         nothing_fits t remaining s_dec t_dec room_ms d min_chunk max_chunk)
  | Err e => (is_finite room_ms = false ∧ e = InvalidCost "prefill_room" room_ms) ∨
      ∃ s d p, cost_ms t s d p = Err e
  | Panic => False
  end.
Proof. apply select_prefill_chunk_cases. Qed.
