(* ===== verification/Streams.v ===== *)
(** * The event chain of a step

    [crates/r9v-sched/src/streams.rs]: the trace of synchronization events of
    one step over the compute, communication and copy streams, and the check
    that it is the protocol of a step. *)

From S2P Require Import Prelude Bytes SchedError.

#[global] Open Scope Z_scope.

Definition MAX_EVENTS_PER_STEP : nat := 16.

Inductive StreamKind : Type := Compute | Comms | Copy.

Inductive EventKind : Type :=
| UploadComplete | WaitUpload | ComputeComplete | WaitCompute | ReadbackComplete
| CommsComplete | WaitComms.

#[global] Instance StreamKind_eq_dec : EqDecision StreamKind.
Proof. solve_decision. Defined.
#[global] Instance EventKind_eq_dec : EqDecision EventKind.
Proof. solve_decision. Defined.

Record StepEventRecord : Type := {
  r_step_id : Z;
  r_stream : StreamKind;
  r_event_kind : EventKind;
  r_event_id : Z;
  r_awaited_event : option Z
}.

Record StepEventChain : Type := {
  c_event_counter : Z;
  c_current_step : option Z;
  c_records : list (option StepEventRecord);
  c_count : nat
}.

Definition no_records : list (option StepEventRecord) := replicate MAX_EVENTS_PER_STEP None.

Definition chain_new : StepEventChain :=
  {| c_event_counter := 0; c_current_step := None; c_records := no_records; c_count := 0 |}.

Definition chain (A : Type) : Type := stm StepEventChain SchedError A.

Definition begin_step (step_id : Z) : chain unit :=
  smodify (λ c, {| c_event_counter := c_event_counter c; c_current_step := Some step_id;
                   c_records := no_records; c_count := 0 |}).

Definition chain_clear : chain unit :=
  smodify (λ c, {| c_event_counter := c_event_counter c; c_current_step := None;
                   c_records := no_records; c_count := 0 |}).

Definition chain_len (c : StepEventChain) : nat := c_count c.
Definition chain_is_empty (c : StepEventChain) : bool := (c_count c =? 0)%nat.

Definition chain_get (c : StepEventChain) (index : nat) : option StepEventRecord :=
  if (index <? c_count c)%nat then get_some index (c_records c) else None.

Definition set_event_counter (n : Z) (c : StepEventChain) : StepEventChain :=
  {| c_event_counter := n; c_current_step := c_current_step c; c_records := c_records c;
     c_count := c_count c |}.

Definition next_event_id : chain Z :=
  let! c := sget in
  let! next := slift (ok_or (checked_add U64_MAX (c_event_counter c) 1)
                        (overflow "event_id" "u64 event counter overflow" [])) in
  let! _ := smodify (set_event_counter next) in
  sret next.

Definition store_record (r : StepEventRecord) (c : StepEventChain) : StepEventChain :=
  {| c_event_counter := c_event_counter c; c_current_step := c_current_step c;
     c_records := <[c_count c := Some r]> (c_records c); c_count := S (c_count c) |}.

Definition record_entry (step_id : Z) (stream : StreamKind) (event_kind : EventKind)
    (awaited_event : option Z) : chain Z :=
  let! c := sget in
  if (MAX_EVENTS_PER_STEP <=? c_count c)%nat then
    sfail (overflow "step_event_storage" "maximum {} events per step exceeded"
             [Z.of_nat MAX_EVENTS_PER_STEP])
  else
    let! eid := next_event_id in
    let! c := sget in
    if (length (c_records c) <=? c_count c)%nat then
      sfail (Internal (msg "step event storage index out of bounds" []))
    else
      let! _ := smodify (store_record
        {| r_step_id := step_id; r_stream := stream; r_event_kind := event_kind;
           r_event_id := eid; r_awaited_event := awaited_event |}) in
      sret eid.

Definition record_upload_complete (step_id : Z) : chain Z :=
  record_entry step_id Copy UploadComplete None.

Definition wait_kind (stream : StreamKind) : EventKind :=
  match stream with
  | Compute => WaitUpload
  | Copy => WaitCompute
  | Comms => WaitComms
  end.

Definition record_wait (step_id : Z) (stream : StreamKind) (awaited_event : Z) : chain Z :=
  record_entry step_id stream (wait_kind stream) (Some awaited_event).

Definition record_compute_complete (step_id : Z) : chain Z :=
  record_entry step_id Compute ComputeComplete None.

Definition record_readback_complete (step_id : Z) : chain Z :=
  record_entry step_id Copy ReadbackComplete None.

Definition record_comms_event (step_id : Z) (event_kind : EventKind) : chain Z :=
  record_entry step_id Comms event_kind None.

(** ** The check *)

(** [{:?}]. *)
Definition stream_name (s : StreamKind) : Arg :=
  Name match s with Compute => "Compute" | Comms => "Comms" | Copy => "Copy" end.

Definition kind_name (k : EventKind) : Arg :=
  Name match k with
  | UploadComplete => "UploadComplete" | WaitUpload => "WaitUpload"
  | ComputeComplete => "ComputeComplete" | WaitCompute => "WaitCompute"
  | ReadbackComplete => "ReadbackComplete" | CommsComplete => "CommsComplete"
  | WaitComms => "WaitComms"
  end.

(** [if bad { return Err(ExecutionFailed { detail }) }]. *)
Definition refuse_if (bad : bool) (template : string) (values : list Arg) : SchedResult unit :=
  if bad then Err (ExecutionFailed (msg template values)) else Ok tt.

Definition is_record (r : StepEventRecord) (stream : StreamKind) (kind : EventKind) : bool :=
  bool_decide (r_stream r = stream) && bool_decide (r_event_kind r = kind).

Definition awaits (r : StepEventRecord) (eid : Z) : bool :=
  bool_decide (r_awaited_event r = Some eid).

Definition get_record (c : StepEventChain) (step_id : Z) (i : nat) : SchedResult StepEventRecord :=
  ok_or (chain_get c i)
    (ExecutionFailed (msg "step {}: missing event record {}" [Num step_id; Num (Z.of_nat i)])).

Definition validate_step_chain (c : StepEventChain) (step_id : Z) : SchedResult unit :=
  let* _ := refuse_if (negb (c_count c =? 5)%nat)
      "step {}: expected exactly 5 stream events in event chain, found {}"
      [Num step_id; Num (Z.of_nat (c_count c))] in
  let* r0 := get_record c step_id 0 in
  let* r1 := get_record c step_id 1 in
  let* r2 := get_record c step_id 2 in
  let* r3 := get_record c step_id 3 in
  let* r4 := get_record c step_id 4 in
  let* _ := refuse_if (negb (forallb (λ r, r_step_id r =? step_id) [r0; r1; r2; r3; r4]))
      "step {}: event record step_id mismatch" [Num step_id] in
  let* _ := refuse_if (negb ((r_event_id r0 <? r_event_id r1) && (r_event_id r1 <? r_event_id r2)
                          && (r_event_id r2 <? r_event_id r3) && (r_event_id r3 <? r_event_id r4)))
      "step {}: non-monotonic event IDs in event chain" [Num step_id] in
  let* _ := refuse_if (negb (is_record r0 Copy UploadComplete))
      "step {}: event 0 must be Copy UploadComplete, got {:?} on {:?}"
      [Num step_id; kind_name (r_event_kind r0); stream_name (r_stream r0)] in
  let upload_eid := r_event_id r0 in
  let* _ := refuse_if (negb (is_record r1 Compute WaitUpload && awaits r1 upload_eid))
      "step {}: event 1 must be Compute wait referencing UploadComplete ({}), got {:?} on {:?} awaiting {:?}"
      [Num step_id; Num upload_eid; kind_name (r_event_kind r1); stream_name (r_stream r1);
       MaybeNum (r_awaited_event r1)] in
  let* _ := refuse_if (negb (is_record r2 Compute ComputeComplete))
      "step {}: event 2 must be Compute ComputeComplete, got {:?} on {:?}"
      [Num step_id; kind_name (r_event_kind r2); stream_name (r_stream r2)] in
  let compute_eid := r_event_id r2 in
  let* _ := refuse_if (negb (is_record r3 Copy WaitCompute && awaits r3 compute_eid))
      "step {}: event 3 must be Copy wait referencing ComputeComplete ({}), got {:?} on {:?} awaiting {:?}"
      [Num step_id; Num compute_eid; kind_name (r_event_kind r3); stream_name (r_stream r3);
       MaybeNum (r_awaited_event r3)] in
  refuse_if (negb (is_record r4 Copy ReadbackComplete))
      "step {}: event 4 must be Copy ReadbackComplete, got {:?} on {:?}"
      [Num step_id; kind_name (r_event_kind r4); stream_name (r_stream r4)].

(** ** The trace *)

(** The records of the current step, in order. *)
Definition trace (c : StepEventChain) : list StepEventRecord :=
  omap id (take (c_count c) (c_records c)).

Record chain_ok (c : StepEventChain) : Prop := {
  co_length : length (c_records c) = MAX_EVENTS_PER_STEP;
  co_count : (c_count c ≤ MAX_EVENTS_PER_STEP)%nat;
  co_filled : ∃ l, take (c_count c) (c_records c) = map Some l;
  co_counter : is_u64 (c_event_counter c)
}.

Lemma omap_id_Some {A} (l : list A) : omap id (map Some l) = l.
Proof. induction l as [|x l IH]; simpl; [done|]. unfold omap in *. by rewrite IH. Qed.

Lemma trace_filled c : chain_ok c → take (c_count c) (c_records c) = map Some (trace c).
Proof. intros [_ _ [l Hl] _]. unfold trace. by rewrite Hl, omap_id_Some. Qed.

Lemma length_trace c : chain_ok c → length (trace c) = c_count c.
Proof.
  intros Hc. pose proof (f_equal length (trace_filled c Hc)) as H.
  rewrite length_map, length_take in H. destruct Hc as [Hl Hn _ _]. lia.
Qed.

Lemma chain_get_trace c i : chain_ok c → chain_get c i = trace c !! i.
Proof.
  intros Hc. unfold chain_get. pose proof (length_trace c Hc) as Hlen.
  destruct (Nat.ltb_spec i (c_count c)) as [Hi|Hi].
  - unfold get_some. rewrite <- (lookup_take_lt _ (c_count c)) by done.
    rewrite (trace_filled c Hc), list_lookup_fmap. by destruct (trace c !! i).
  - symmetry. apply lookup_ge_None. lia.
Qed.

Lemma chain_new_ok : chain_ok chain_new.
Proof.
  constructor; simpl; [done|unfold MAX_EVENTS_PER_STEP; lia|by exists []|].
  unfold is_u64, U64_MAX; lia.
Qed.

(** [begin_step] and [clear] empty the trace and keep the id counter. *)
Lemma begin_step_spec c sid :
  chain_ok c → ∃ c', begin_step sid c = (Ok tt, c') ∧ chain_ok c' ∧ trace c' = [] ∧
    c_event_counter c' = c_event_counter c ∧ c_current_step c' = Some sid.
Proof.
  intros Hc. eexists. split; [reflexivity|]. split; [|done]. destruct Hc.
  constructor; simpl; [done|unfold MAX_EVENTS_PER_STEP; lia|by exists []|done].
Qed.

Lemma chain_clear_spec c :
  chain_ok c → ∃ c', chain_clear c = (Ok tt, c') ∧ chain_ok c' ∧ trace c' = [] ∧
    c_event_counter c' = c_event_counter c ∧ c_current_step c' = None.
Proof.
  intros Hc. eexists. split; [reflexivity|]. split; [|done]. destruct Hc.
  constructor; simpl; [done|unfold MAX_EVENTS_PER_STEP; lia|by exists []|done].
Qed.

Lemma next_event_id_eq c :
  next_event_id c =
    if c_event_counter c + 1 <=? U64_MAX then
      (Ok (c_event_counter c + 1), set_event_counter (c_event_counter c + 1) c)
    else (Err (overflow "event_id" "u64 event counter overflow" []), c).
Proof. unfold next_event_id, checked_add, sbind, sget, slift. simpl. by destruct (_ <=? _). Qed.

(** A record takes the next id and the next place; with sixteen records or an
    exhausted counter it is refused and nothing changes. *)
Lemma record_entry_spec c sid stream kind awaited :
  chain_ok c →
  match record_entry sid stream kind awaited c with
  | (Ok eid, c') => chain_ok c' ∧ eid = c_event_counter c + 1 ∧ c_event_counter c' = eid ∧
      c_current_step c' = c_current_step c ∧
      trace c' = trace c ++ [{| r_step_id := sid; r_stream := stream; r_event_kind := kind;
                                r_event_id := eid; r_awaited_event := awaited |}]
  | (Err _, c') => c' = c ∧ (c_count c = MAX_EVENTS_PER_STEP ∨ c_event_counter c = U64_MAX)
  | (Panic, _) => False
  end.
Proof.
  intros Hc. pose proof (trace_filled c Hc) as Hf. destruct Hc as [Hl Hn [l Hfill] Hu].
  unfold record_entry. erewrite sbind_Ok by reflexivity.
  destruct (Nat.leb_spec MAX_EVENTS_PER_STEP (c_count c)) as [Hfull|Hroom]; [split; [done|left; lia]|].
  unfold is_u64 in Hu. unfold sbind at 1. rewrite next_event_id_eq.
  destruct (Z.leb_spec (c_event_counter c + 1) U64_MAX); [|split; [done|right; lia]].
  erewrite sbind_Ok by reflexivity. simpl. rewrite Hl, (proj2 (Nat.leb_gt _ _)) by lia.
  erewrite sbind_Ok by reflexivity. unfold sret.
  set (r := Build_StepEventRecord _ _ _ _ _).
  assert (take (S (c_count c)) (<[c_count c:=Some r]> (c_records c)) = map Some (trace c ++ [r])) as Htake.
  { erewrite take_S_r by (apply list_lookup_insert_eq; lia).
    rewrite take_insert_ge by lia. by rewrite Hf, map_app. }
  split_and!; [|done..|].
  - constructor; simpl; [by rewrite length_insert|lia|eauto|unfold is_u64; lia].
  - unfold trace at 1. simpl. by rewrite Htake, omap_id_Some.
Qed.

(** ** The protocol of a step *)

(** The five records of a step: upload; compute waits for that upload; compute
    done; copy waits for that compute; readback.  Their ids ascend. *)
Definition event (sid : Z) (stream : StreamKind) (kind : EventKind) (eid : Z) (awaited : option Z)
    : StepEventRecord :=
  {| r_step_id := sid; r_stream := stream; r_event_kind := kind; r_event_id := eid;
     r_awaited_event := awaited |}.

Definition step_protocol (sid : Z) (l : list StepEventRecord) : Prop :=
  ∃ e0 e1 e2 e3 e4 w0 w2 w4, e0 < e1 ∧ e1 < e2 ∧ e2 < e3 ∧ e3 < e4 ∧
    l = [event sid Copy UploadComplete e0 w0;
         event sid Compute WaitUpload e1 (Some e0);
         event sid Compute ComputeComplete e2 w2;
         event sid Copy WaitCompute e3 (Some e2);
         event sid Copy ReadbackComplete e4 w4].

Lemma refuse_if_Ok bad template values : refuse_if bad template values = Ok tt ↔ bad = false.
Proof. unfold refuse_if. by destruct bad. Qed.

Lemma refuse_bind {A} bad template values (k : unit → SchedResult A) a :
  obind (refuse_if bad template values) k = Ok a ↔ bad = false ∧ k tt = Ok a.
Proof. destruct bad; simpl; naive_solver. Qed.

Lemma refuse_if_total {A} bad template values (k : unit → SchedResult A) :
  k tt ≠ Panic → obind (refuse_if bad template values) k ≠ Panic.
Proof. by destruct bad. Qed.

Lemma is_record_iff r stream kind : is_record r stream kind = true ↔ r_stream r = stream ∧ r_event_kind r = kind.
Proof. unfold is_record. rewrite andb_true_iff, !bool_decide_eq_true. done. Qed.

Lemma awaits_iff r eid : awaits r eid = true ↔ r_awaited_event r = Some eid.
Proof. apply bool_decide_eq_true. Qed.

Lemma is_record_eta r stream kind :
  is_record r stream kind = true →
  r = event (r_step_id r) stream kind (r_event_id r) (r_awaited_event r).
Proof. intros [<- <-]%is_record_iff. by destruct r. Qed.

Lemma validate_step_chain_iff c sid :
  chain_ok c →
  validate_step_chain c sid ≠ Panic ∧
  (validate_step_chain c sid = Ok tt ↔ step_protocol sid (trace c)).
Proof.
  intros Hc. pose proof (length_trace c Hc) as Hlen. unfold validate_step_chain, get_record.
  rewrite !chain_get_trace by done. rewrite refuse_bind, negb_false_iff, Nat.eqb_eq, <- Hlen.
  generalize (trace c) as l. intros l.
  destruct l as [|r0 [|r1 [|r2 [|r3 [|r4 [|r5 l]]]]]].
  1-5,7: split; [done|]; split; [by intros [? _]|];
    intros (?&?&?&?&?&?&?&?&_&_&_&_&[=]).
  cbn [lookup list_lookup ok_or obind length forallb].
  split. { repeat apply refuse_if_total. unfold refuse_if. by case_match. }
  rewrite !refuse_bind, refuse_if_Ok, !negb_false_iff, !andb_true_iff, !Z.ltb_lt, !Z.eqb_eq, !awaits_iff.
  split.
  - intros (_ & (H0 & H1 & H2 & H3 & H4 & _) & (((? & ?) & ?) & ?) & R0 & (R1 & W1) & R2 & (R3 & W3) & R4).
    exists (r_event_id r0), (r_event_id r1), (r_event_id r2), (r_event_id r3), (r_event_id r4),
      (r_awaited_event r0), (r_awaited_event r2), (r_awaited_event r4).
    apply is_record_eta in R0, R1, R2, R3, R4. rewrite H0 in R0. rewrite H1, W1 in R1.
    rewrite H2 in R2. rewrite H3, W3 in R3. rewrite H4 in R4.
    split_and!; [done..|]. by rewrite <- R0, <- R1, <- R2, <- R3, <- R4.
  - intros (e0 & e1 & e2 & e3 & e4 & w0 & w2 & w4 & ? & ? & ? & ? & Heq).
    injection Heq as -> -> -> -> ->. unfold is_record, event. simpl.
    split_and!; done.
Qed.

(** The records the scheduler makes during a step. *)
Definition step_events (sid : Z) : chain unit :=
  let! _ := begin_step sid in
  let! upload_eid := record_upload_complete sid in
  let! _ := record_wait sid Compute upload_eid in
  let! compute_eid := record_compute_complete sid in
  let! _ := record_wait sid Copy compute_eid in
  let! _ := record_readback_complete sid in
  sret tt.

(** While ids last, a step recorded in order passes the check. *)
Lemma step_events_validate c sid :
  chain_ok c → c_event_counter c + 5 ≤ U64_MAX →
  ∃ c', step_events sid c = (Ok tt, c') ∧ chain_ok c' ∧ c_event_counter c' = c_event_counter c + 5 ∧
    validate_step_chain c' sid = Ok tt.
Proof.
  intros Hc Hids. unfold step_events.
  destruct (begin_step_spec c sid Hc) as (c0 & E0 & K0 & T0 & N0 & _).
  erewrite sbind_Ok by done.
  assert (∀ c stream kind awaited, chain_ok c → (length (trace c) < 5)%nat → c_event_counter c < U64_MAX →
    ∃ c', record_entry sid stream kind awaited c = (Ok (c_event_counter c + 1), c') ∧ chain_ok c' ∧
      c_event_counter c' = c_event_counter c + 1 ∧
      trace c' = trace c ++ [event sid stream kind (c_event_counter c + 1) awaited]) as Hrec.
  { intros c1 stream kind awaited K Hl Hu.
    pose proof (record_entry_spec c1 sid stream kind awaited K) as H. rewrite length_trace in Hl by done.
    destruct (record_entry sid stream kind awaited c1) as [[eid|e|] c2]; [| |done].
    - destruct H as (? & -> & ? & ? & ?). by exists c2.
    - destruct H as [_ [H|H]]; [unfold MAX_EVENTS_PER_STEP in H; lia|lia]. }
  destruct (Hrec c0 Copy UploadComplete None K0) as (c1 & E1 & K1 & N1 & T1); [by rewrite T0; simpl; lia|lia|].
  rewrite T0 in T1. unfold record_upload_complete. erewrite sbind_Ok by done.
  destruct (Hrec c1 Compute WaitUpload (Some (c_event_counter c0 + 1)) K1) as (c2 & E2 & K2 & N2 & T2);
    [by rewrite T1; simpl; lia|lia|].
  rewrite T1 in T2. unfold record_wait at 1, wait_kind. erewrite sbind_Ok by done.
  destruct (Hrec c2 Compute ComputeComplete None K2) as (c3 & E3 & K3 & N3 & T3); [by rewrite T2; simpl; lia|lia|].
  rewrite T2 in T3. unfold record_compute_complete. erewrite sbind_Ok by done.
  destruct (Hrec c3 Copy WaitCompute (Some (c_event_counter c2 + 1)) K3) as (c4 & E4 & K4 & N4 & T4);
    [by rewrite T3; simpl; lia|lia|].
  rewrite T3 in T4. unfold record_wait, wait_kind. erewrite sbind_Ok by done.
  destruct (Hrec c4 Copy ReadbackComplete None K4) as (c5 & E5 & K5 & N5 & T5); [by rewrite T4; simpl; lia|lia|].
  rewrite T4 in T5. unfold record_readback_complete. erewrite sbind_Ok by done.
  exists c5. split_and!; [done|done|lia|]. apply validate_step_chain_iff; [done|].
  rewrite T5. do 8 eexists. split_and!; [..|reflexivity]; lia.
Qed.

(** The end-of-step check accepts exactly the traces that follow the
    protocol of the step: the upload precedes the replay, which waits for that
    very upload, and the readback waits for that very replay; anything
    missing, extra, reordered or stale is a typed refusal and never a panic. *)
Theorem validate_step_chain_exact c sid :
  chain_ok c →
  validate_step_chain c sid ≠ Panic ∧
  (validate_step_chain c sid = Ok tt ↔ step_protocol sid (trace c)).
Proof. apply validate_step_chain_iff. Qed.

Lemma validate_step_chain_exact_witness :
  ∃ c, step_events 7 chain_new = (Ok tt, c) ∧ chain_ok c ∧ step_protocol 7 (trace c).
Proof.
  eexists. split; [reflexivity|]. match goal with |- chain_ok ?c ∧ _ => assert (chain_ok c) as K end.
  { constructor; simpl; [done|unfold MAX_EVENTS_PER_STEP; lia| |unfold is_u64, U64_MAX; lia].
    by exists [event 7 Copy UploadComplete 1 None; event 7 Compute WaitUpload 2 (Some 1);
               event 7 Compute ComputeComplete 3 None; event 7 Copy WaitCompute 4 (Some 3);
               event 7 Copy ReadbackComplete 5 None]. }
  split; [done|]. apply (validate_step_chain_exact _ 7 K). reflexivity.
Defined.
