(* ===== verification/Inline.v ===== *)
(** * Inline vectors

    [InlineVec] of [crates/r9v-sched/src/types.rs]: a vector of fixed capacity
    stored in an array of options, refined to a bounded list. *)

From S2P Require Import Prelude Wp Bytes SchedError.

#[global] Open Scope Z_scope.

Record InlineVec (A : Type) : Type := { iv_data : list (option A); iv_len : nat }.
Arguments Build_InlineVec {A} _ _.
Arguments iv_data {A} _.
Arguments iv_len {A} _.

Section inline_vec.
Context {A : Type}.
Implicit Type v : InlineVec A.

Definition iv_new (cap : nat) : InlineVec A := {| iv_data := replicate cap None; iv_len := 0 |}.

Definition iv_capacity v : nat := length (iv_data v).
Definition iv_is_empty v : bool := (iv_len v =? 0)%nat.

Definition iv_push (item : A) : stm (InlineVec A) SchedError unit :=
  let! v := sget in
  if (iv_len v <? iv_capacity v)%nat then
    if (iv_len v <? length (iv_data v))%nat then
      smodify (λ v, {| iv_data := <[iv_len v := Some item]> (iv_data v); iv_len := S (iv_len v) |})
    else sfail (Internal (msg "inline vec push index" []))
  else sfail (overflow "inline_vec_push" "capacity {} exceeded" [Z.of_nat (iv_capacity v)]).

(** [take] empties the slot after the length has been lowered. *)
Definition iv_pop v : option A * InlineVec A :=
  if (0 <? iv_len v)%nat then
    let n := pred (iv_len v) in
    (get_some n (iv_data v), {| iv_data := alter (λ _, None) n (iv_data v); iv_len := n |})
  else (None, v).

Definition iv_clear v : InlineVec A :=
  {| iv_data := replicate (min (iv_len v) (length (iv_data v))) None ++ drop (iv_len v) (iv_data v);
     iv_len := 0 |}.

Definition iv_get v (index : nat) : option A :=
  if (index <? iv_len v)%nat then get_some index (iv_data v) else None.

Definition iv_first v : option A := iv_get v 0.

(** The elements [iter] yields. *)
Definition iv_iter v : list A := omap id (take (iv_len v) (iv_data v)).

(** The elements the owning iterator yields: all of the array, flattened. *)
Definition iv_into_iter v : list A := omap id (iv_data v).

(** [clone] pushes the elements into a new vector. *)
Definition iv_clone v : InlineVec A :=
  foldl (λ w x, (iv_push x w).2) (iv_new (iv_capacity v)) (iv_iter v).

(** [==]: the lengths, then the elements pairwise. *)
Definition iv_eq `{EqDecision A} v w : bool :=
  if negb (iv_len v =? iv_len w)%nat then false
  else forallb (λ '(a, b), bool_decide (a = b)) (zip (iv_iter v) (iv_iter w)).

(** ** The bounded list *)

Inductive iv_op : Type :=
| IvPush (x : A) | IvPop | IvClear | IvGet (i : nat) | IvLen | IvIter | IvIntoIter.

Inductive iv_answer : Type :=
| IvDone (o : SchedResult unit)
| IvItem (o : option A)
| IvNat (n : nat)
| IvList (l : list A).

Definition iv_object (op : iv_op) v : iv_answer * InlineVec A :=
  match op with
  | IvPush x => let '(o, v') := iv_push x v in (IvDone o, v')
  | IvPop => let '(o, v') := iv_pop v in (IvItem o, v')
  | IvClear => (IvDone (Ok tt), iv_clear v)
  | IvGet i => (IvItem (iv_get v i), v)
  | IvLen => (IvNat (iv_len v), v)
  | IvIter => (IvList (iv_iter v), v)
  | IvIntoIter => (IvList (iv_into_iter v), v)
  end.

Definition list_object (cap : nat) (op : iv_op) (l : list A) : iv_answer * list A :=
  match op with
  | IvPush x =>
      if (length l <? cap)%nat then (IvDone (Ok tt), l ++ [x])
      else (IvDone (Err (overflow "inline_vec_push" "capacity {} exceeded" [Z.of_nat cap])), l)
  | IvPop => (IvItem (last l), removelast l)
  | IvClear => (IvDone (Ok tt), [])
  | IvGet i => (IvItem (l !! i), l)
  | IvLen => (IvNat (length l), l)
  | IvIter | IvIntoIter => (IvList l, l)
  end.

(** The array holds the list and then nothing. *)
Definition iv_holds (cap : nat) v (l : list A) : Prop :=
  (length l ≤ cap)%nat ∧ iv_len v = length l ∧
  iv_data v = map Some l ++ replicate (cap - length l) None.

Lemma omap_some_none l n : omap id (map Some l ++ replicate n None) = (l : list A).
Proof.
  induction l as [|x l IH]; simpl.
  - induction n as [|n IH]; simpl; done.
  - unfold omap in *. by rewrite IH.
Qed.

Lemma iv_holds_new cap : iv_holds cap (iv_new cap) [].
Proof. unfold iv_holds. simpl. rewrite Nat.sub_0_r. split_and!; [lia|done|done]. Qed.

Lemma iv_holds_push cap v l x :
  iv_holds cap v l → (length l < cap)%nat →
  ∃ v', iv_push x v = (Ok tt, v') ∧ iv_holds cap v' (l ++ [x]).
Proof.
  intros (Hl & Hn & Hd) Hroom. unfold iv_push. erewrite sbind_Ok by reflexivity.
  assert (length (iv_data v) = cap) as Hcap by (rewrite Hd, length_app, length_map, length_replicate; lia).
  unfold iv_capacity. rewrite Hcap, Hn, !(proj2 (Nat.ltb_lt _ _)) by lia.
  eexists. split; [reflexivity|]. unfold iv_holds. rewrite length_app. simpl. rewrite Hn, Hd.
  split_and!; [lia|lia|]. rewrite insert_app_r_alt by (rewrite length_map; lia).
  rewrite length_map, Nat.sub_diag, map_app, <- app_assoc. f_equal.
  replace (cap - length l)%nat with (S (cap - (length l + 1)))%nat by lia. done.
Qed.

#[export] Instance iv_refines cap : Refines (λ _, True) iv_object (list_object cap) (iv_holds cap).
Proof.
  intros op v l _ Hv. pose proof Hv as (Hl & Hn & Hd).
  assert (length (iv_data v) = cap) as Hcap by (rewrite Hd, length_app, length_map, length_replicate; lia).
  assert (∀ i, (i < length l)%nat → get_some i (iv_data v) = l !! i) as Hget.
  { intros i Hi. unfold get_some. rewrite Hd, lookup_app_l by (rewrite length_map; lia).
    rewrite list_lookup_fmap. by destruct (l !! i). }
  assert (iv_iter v = l) as Hiter.
  { unfold iv_iter. rewrite Hn, Hd, take_app_le by (rewrite length_map; lia).
    rewrite take_ge by (rewrite length_map; lia). pose proof (omap_some_none l 0) as H.
    simpl in H. by rewrite app_nil_r in H. }
  destruct op; simpl.
  - destruct (Nat.ltb_spec (length l) cap).
    + destruct (iv_holds_push cap v l x Hv) as (v' & -> & Hv'); done.
    + unfold iv_push. erewrite sbind_Ok by reflexivity. unfold iv_capacity.
      rewrite Hcap, Hn, (proj2 (Nat.ltb_ge _ _)) by lia. done.
  - unfold iv_pop. rewrite Hn. destruct l as [|x l _] using rev_ind; [done|].
    rewrite length_app in *. simpl in *. rewrite (proj2 (Nat.ltb_lt _ _)) by lia.
    rewrite last_snoc, removelast_last. replace (pred (length l + 1)) with (length l) by lia.
    rewrite Hget by lia. rewrite lookup_app_r, Nat.sub_diag by lia. split; [done|].
    unfold iv_holds. simpl. split_and!; [lia|done|]. rewrite Hd, map_app. simpl.
    rewrite <- app_assoc. replace (length l) with (length (map Some l) + 0)%nat at 1
      by (rewrite length_map; lia). rewrite alter_app_r. f_equal. simpl.
    by replace (cap - length l)%nat with (S (cap - (length l + 1)))%nat by lia.
  - split; [done|]. unfold iv_holds, iv_clear. simpl. split_and!; [lia|done|].
    rewrite Hn, Hcap, Nat.min_l, Hd by lia. rewrite drop_app_ge by (rewrite length_map; lia).
    rewrite length_map, Nat.sub_diag, Nat.sub_0_r. simpl. rewrite drop_0, <- replicate_add. f_equal. lia.
  - split; [|done]. unfold iv_get. rewrite Hn. destruct (Nat.ltb_spec i (length l)); [by rewrite Hget|].
    by rewrite lookup_ge_None_2 by lia.
  - by rewrite Hn.
  - by rewrite Hiter.
  - split; [|done]. unfold iv_into_iter. by rewrite Hd, omap_some_none.
Qed.

Lemma iv_iter_holds cap v l : iv_holds cap v l → iv_iter v = l.
Proof. intros Hv. destruct (iv_refines cap IvIter v l I Hv) as [H _]. by injection H. Qed.

(** Two inline vectors are equal exactly when they hold the same elements. *)
Lemma iv_eq_holds `{EqDecision A} cap v w l k :
  iv_holds cap v l → iv_holds cap w k → iv_eq v w = bool_decide (l = k).
Proof.
  intros Hv Hw. unfold iv_eq. rewrite (iv_iter_holds _ _ _ Hv), (iv_iter_holds _ _ _ Hw).
  destruct Hv as (_ & -> & _), Hw as (_ & -> & _).
  destruct (Nat.eqb_spec (length l) (length k)) as [Hlen|Hlen]; simpl.
  2: { symmetry. apply bool_decide_eq_false. congruence. }
  revert k Hlen. induction l as [|x l IH]; intros [|y k] Hlen; simpl in *; try done.
  rewrite IH by lia. destruct (bool_decide_reflect (x = y)), (bool_decide_reflect (l = k)); simpl;
    symmetry; try apply bool_decide_eq_true; try apply bool_decide_eq_false; congruence.
Qed.

(** Cloning keeps the elements. *)
Lemma iv_clone_holds cap v l : iv_holds cap v l → iv_holds cap (iv_clone v) l.
Proof.
  intros Hv. pose proof (iv_iter_holds cap v l Hv) as Hiter.
  pose proof Hv as (Hl & _ & Hd). unfold iv_clone, iv_capacity. rewrite Hiter.
  replace (length (iv_data v)) with cap by (rewrite Hd, length_app, length_map, length_replicate; lia).
  clear Hiter Hv Hd v. assert (∀ k v p, iv_holds cap v p → (length p + length k ≤ cap)%nat →
    iv_holds cap (foldl (λ w x, (iv_push x w).2) v k) (p ++ k)) as Hgen.
  { induction k as [|x k IH]; intros v p Hp Hlen; simpl in *; [by rewrite app_nil_r|].
    destruct (iv_holds_push cap v p x Hp) as (v' & -> & Hv'); [lia|].
    simpl. replace (p ++ x :: k) with ((p ++ [x]) ++ k) by (by rewrite <- app_assoc).
    apply IH; [done|]. rewrite length_app. simpl. lia. }
  apply (Hgen l _ []); [apply iv_holds_new|done].
Qed.
End inline_vec.
Arguments iv_new {A} _.
