(* ===== verification/Log.v ===== *)
(** * The schedule log

    [crates/r9v-sched/src/log.rs]: the records of completed steps in a ring of
    fixed capacity, refined to the window of the last records of an unbounded
    log. *)

From S2P Require Import Prelude Wp Bytes SchedError Inline.

#[global] Open Scope Z_scope.

Definition SCHEDULE_LOG_CAPACITY : nat := 4096.

Inductive GraphMode : Type := GmAuto | GmList | GmHipGraph.

Record ScheduleRecord : Type := {
  sr_step_id : Z;
  sr_t_pre_us : Z;
  sr_t_draft_us : Z;
  sr_t_device_us : Z;
  sr_t_post_us : Z;
  sr_s : Z;
  sr_t_dec : Z;
  sr_t_pre : Z;
  sr_chunk : Z;
  sr_k : InlineVec Z;
  sr_accept_len : InlineVec Z;
  sr_forced_admission : bool;
  sr_budget_ms : f32;
  sr_bucket : Z * Z * Z;
  sr_graph_mode : GraphMode;
  sr_captured : bool;
  sr_paused : InlineVec Z;
  sr_segment_sync_us : Z
}.

Record ScheduleLogRing : Type := {
  l_buffer : list (option ScheduleRecord);
  l_write_idx : nat;
  l_total_written : Z;
  l_capacity : nat
}.

Definition ring_new (capacity : nat) : ScheduleLogRing :=
  let cap := if (capacity =? 0)%nat then SCHEDULE_LOG_CAPACITY else capacity in
  {| l_buffer := replicate cap None; l_write_idx := 0; l_total_written := 0; l_capacity := cap |}.

Definition ring_push (record : ScheduleRecord) : stm ScheduleLogRing SchedError unit :=
  let! r := sget in
  let! next_total := slift (ok_or (checked_add U64_MAX (l_total_written r) 1)
                              (overflow "total_written" "u64 total_written counter overflow" [])) in
  let idx := l_write_idx r in
  if (idx <? length (l_buffer r))%nat then
    smodify (λ r, {| l_buffer := <[idx := Some record]> (l_buffer r);
                     l_write_idx := (S (l_write_idx r) mod l_capacity r)%nat;
                     l_total_written := next_total; l_capacity := l_capacity r |})
  else sfail (Internal (msg "schedule log write index" [])).

Definition ring_len (r : ScheduleLogRing) : nat :=
  if l_total_written r <? Z.of_nat (l_capacity r) then Z.to_nat (l_total_written r) else l_capacity r.

Definition ring_is_empty (r : ScheduleLogRing) : bool := (ring_len r =? 0)%nat.

(** The records in chronological order: the first [n] cells while the ring is
    filling, and the cells from the write position around once it is full. *)
Definition ring_to_vec (r : ScheduleLogRing) : list ScheduleRecord :=
  if l_total_written r <? Z.of_nat (l_capacity r) then
    omap id (take (Z.to_nat (l_total_written r)) (l_buffer r))
  else
    omap (λ i, get_some ((l_write_idx r + i) mod l_capacity r)%nat (l_buffer r)) (seqn (l_capacity r)).

Definition ring_clear (r : ScheduleLogRing) : ScheduleLogRing :=
  {| l_buffer := map (λ _, None) (l_buffer r); l_write_idx := 0; l_total_written := 0;
     l_capacity := l_capacity r |}.

(** ** The ring as an object *)

Inductive log_op : Type :=
| LogPush (record : ScheduleRecord) | LogLen | LogIsEmpty | LogTotal | LogToVec | LogClear.

Inductive log_answer : Type :=
| LogDone (o : SchedResult unit)
| LogNat (n : nat)
| LogBool (b : bool)
| LogCount (n : Z)
| LogRecords (l : list ScheduleRecord).

Definition ring_object (op : log_op) (r : ScheduleLogRing) : log_answer * ScheduleLogRing :=
  match op with
  | LogPush record => let '(o, r') := ring_push record r in (LogDone o, r')
  | LogLen => (LogNat (ring_len r), r)
  | LogIsEmpty => (LogBool (ring_is_empty r), r)
  | LogTotal => (LogCount (l_total_written r), r)
  | LogToVec => (LogRecords (ring_to_vec r), r)
  | LogClear => (LogDone (Ok tt), ring_clear r)
  end.

(** The specification keeps every record pushed since the last clear and shows
    the last [cap] of them. *)
Definition log_window (cap : nat) (l : list ScheduleRecord) : list ScheduleRecord :=
  drop (length l - cap) l.

Definition log_object (cap : nat) (op : log_op) (l : list ScheduleRecord) : log_answer * list ScheduleRecord :=
  match op with
  | LogPush record =>
      if Z.of_nat (length l) <? U64_MAX then (LogDone (Ok tt), l ++ [record])
      else (LogDone (Err (overflow "total_written" "u64 total_written counter overflow" [])), l)
  | LogLen => (LogNat (length (log_window cap l)), l)
  | LogIsEmpty => (LogBool (bool_decide (log_window cap l = [])), l)
  | LogTotal => (LogCount (Z.of_nat (length l)), l)
  | LogToVec => (LogRecords (log_window cap l), l)
  | LogClear => (LogDone (Ok tt), [])
  end.

(** Record [k] of the log sits in cell [k mod cap], unless a later one took
    the cell; the cells not yet written are empty. *)
Record ring_holds (cap : nat) (r : ScheduleLogRing) (l : list ScheduleRecord) : Prop := {
  rh_cap : (0 < cap)%nat;
  rh_capacity : l_capacity r = cap;
  rh_length : length (l_buffer r) = cap;
  rh_total : l_total_written r = Z.of_nat (length l);
  rh_total_u64 : Z.of_nat (length l) ≤ U64_MAX;
  rh_write : l_write_idx r = (length l mod cap)%nat;
  rh_cells k : (length l - cap ≤ k < length l)%nat → l_buffer r !! (k mod cap)%nat = Some (l !! k);
  rh_empty i : (length l ≤ i < cap)%nat → l_buffer r !! i = Some None
}.

Lemma ring_holds_new cap : (0 < cap)%nat → ring_holds cap (ring_new cap) [].
Proof.
  intros Hcap. unfold ring_new. destruct (Nat.eqb_spec cap 0); [lia|].
  constructor; simpl; try done || lia.
  - apply length_replicate.
  - by rewrite Nat.Div0.mod_0_l.
  - intros i Hi. by rewrite lookup_replicate_2 by lia.
Qed.

Lemma ring_holds_clear cap r l : ring_holds cap r l → ring_holds cap (ring_clear r) [].
Proof.
  intros []. constructor; simpl; try done || lia.
  - by rewrite length_map.
  - by rewrite Nat.Div0.mod_0_l.
  - intros i Hi. rewrite list_lookup_fmap.
    destruct (lookup_lt_is_Some_2 (l_buffer r) i) as [x ->]; [lia|done].
Qed.

Lemma mod_window_inj cap a b : (a < b)%nat → (b < a + cap)%nat → (a mod cap ≠ b mod cap)%nat.
Proof.
  intros Hab Hb Heq. pose proof (Nat.div_mod a cap ltac:(lia)). pose proof (Nat.div_mod b cap ltac:(lia)).
  rewrite Heq in *. assert (cap * (a / cap) + cap ≤ cap * (b / cap) ∨ a / cap = b / cap)%nat; [|nia].
  destruct (Nat.lt_trichotomy (a / cap) (b / cap)) as [?|[?|?]]; [left; nia|by right|nia].
Qed.

Lemma ring_holds_push cap r l record :
  ring_holds cap r l → Z.of_nat (length l) < U64_MAX →
  ∃ r', ring_push record r = (Ok tt, r') ∧ ring_holds cap r' (l ++ [record]).
Proof.
  intros [Hc Hcap Hlen Htot Hu Hw Hcells Hempty] Hroom. unfold ring_push.
  erewrite sbind_Ok by reflexivity. rewrite Htot, checked_add_ok by lia.
  erewrite sbind_Ok by reflexivity.
  pose proof (Nat.mod_upper_bound (length l) cap ltac:(lia)) as Hmod.
  rewrite Hw, Hlen, (proj2 (Nat.ltb_lt _ _)) by lia. eexists. split; [reflexivity|].
  constructor; simpl; rewrite ?length_app, ?length_insert; simpl; [done|done|done|lia|lia| | |].
  - rewrite Hw, Hcap. rewrite <- Nat.Div0.add_mod_idemp_l. by rewrite Nat.add_1_r.
  - intros k Hk. destruct (decide (k = length l)) as [->|Hne].
    + rewrite list_lookup_insert_eq by lia. by rewrite lookup_app_r, Nat.sub_diag by lia.
    + rewrite list_lookup_insert_ne by (apply not_eq_sym, mod_window_inj; lia).
      rewrite lookup_app_l by lia. apply Hcells. lia.
  - intros i Hi. rewrite list_lookup_insert_ne by (rewrite Nat.mod_small; lia). apply Hempty. lia.
Qed.

Lemma omap_id_all {A} (l : list (option A)) k : l = map Some k → omap id l = k.
Proof.
  intros ->. induction k as [|x k IH]; simpl; [done|]. unfold omap in *. by rewrite IH.
Qed.

Lemma ring_to_vec_holds cap r l : ring_holds cap r l → ring_to_vec r = log_window cap l.
Proof.
  intros [Hc Hcap Hlen Htot Hu Hw Hcells Hempty]. unfold ring_to_vec, log_window.
  rewrite Htot, Hcap, Hw. destruct (Z.ltb_spec (Z.of_nat (length l)) (Z.of_nat cap)) as [Hlt|Hge].
  - rewrite Nat2Z.id. replace (length l - cap)%nat with 0%nat by lia. rewrite drop_0.
    apply omap_id_all. apply list_eq. intros i. rewrite list_lookup_fmap.
    destruct (Nat.lt_ge_cases i (length l)) as [Hi|Hi].
    + rewrite lookup_take_lt by lia. specialize (Hcells i ltac:(lia)).
      rewrite Nat.mod_small in Hcells by lia. rewrite Hcells.
      destruct (lookup_lt_is_Some_2 l i Hi) as [x ->]. done.
    + rewrite lookup_take_ge by lia. by rewrite lookup_ge_None_2 by lia.
  - apply list_eq. intros i.
    assert (omap (λ i, get_some ((length l mod cap + i) mod cap)%nat (l_buffer r)) (seqn cap) =
            omap id (map (λ i, l !! (length l - cap + i)%nat) (seqn cap))) as ->.
    { unfold omap. generalize (elem_of_seqn). intros Hseq.
      assert (∀ i, i ∈ seqn cap → get_some ((length l mod cap + i) mod cap)%nat (l_buffer r) =
        l !! (length l - cap + i)%nat) as Hi.
      { intros j Hj%elem_of_seqn. unfold get_some.
        assert ((length l mod cap + j) mod cap = (length l - cap + j) mod cap)%nat as ->.
        { rewrite Nat.Div0.add_mod_idemp_l. replace (length l + j)%nat with (length l - cap + j + 1 * cap)%nat by lia.
          by rewrite Nat.Div0.mod_add. }
        by rewrite Hcells by lia. }
      clear Hseq. induction (seqn cap) as [|j k IH]; simpl; [done|].
      rewrite Hi by left. rewrite IH; [done|]. intros. apply Hi. by right. }
    assert (map (λ i, l !! (length l - cap + i)%nat) (seqn cap) = map Some (drop (length l - cap) l)) as Hmap.
    { apply list_eq. intros j. rewrite !list_lookup_fmap, lookup_drop. unfold seqn, seqn_from.
      destruct (Nat.lt_ge_cases j cap) as [Hj|Hj].
      - rewrite lookup_seq_lt by done. simpl.
        destruct (lookup_lt_is_Some_2 l (length l - cap + j)) as [x Hx]; [lia|]. by rewrite Hx.
      - rewrite lookup_seq_ge by done. simpl. by rewrite lookup_ge_None_2 by lia. }
    by rewrite (omap_id_all _ _ Hmap).
Qed.

Lemma length_log_window cap l : length (log_window cap l) = Nat.min (length l) cap.
Proof. unfold log_window. rewrite length_drop. lia. Qed.

Lemma ring_len_holds cap r l : ring_holds cap r l → ring_len r = length (log_window cap l).
Proof.
  intros [Hc Hcap Hlen Htot _ _ _ _]. unfold ring_len. rewrite Htot, Hcap, Nat2Z.id, length_log_window.
  destruct (Z.ltb_spec (Z.of_nat (length l)) (Z.of_nat cap)); lia.
Qed.

#[export] Instance ring_refines cap :
  Refines (λ _, True) ring_object (log_object cap) (ring_holds cap).
Proof.
  intros op r l _ Hr. pose proof (rh_total _ _ _ Hr) as Htot. pose proof (rh_total_u64 _ _ _ Hr).
  destruct op; simpl.
  - destruct (Z.ltb_spec (Z.of_nat (length l)) U64_MAX) as [Hroom|Hfull].
    + destruct (ring_holds_push cap r l record Hr Hroom) as (r' & -> & Hr'). done.
    + unfold ring_push. erewrite sbind_Ok by reflexivity. unfold checked_add.
      rewrite Htot, (proj2 (Z.leb_gt _ _)) by lia. done.
  - by rewrite (ring_len_holds _ _ _ Hr).
  - split; [|done]. unfold ring_is_empty. rewrite (ring_len_holds _ _ _ Hr). do 2 f_equal.
    destruct (log_window cap l) eqn:Hw; [done|].
    by rewrite bool_decide_eq_false_2 by done.
  - by rewrite Htot.
  - by rewrite (ring_to_vec_holds _ _ _ Hr).
  - split; [done|]. by eapply ring_holds_clear.
Qed.

(** The ring is indistinguishable from a log that keeps every record and
    shows the last [capacity] of them, oldest first: any sequence of pushes,
    readings and clears gives the same answers, wrap-around and the overflow of
    the total included. *)
Theorem ring_refines_log capacity ops :
  let cap := if (capacity =? 0)%nat then SCHEDULE_LOG_CAPACITY else capacity in
  (run ring_object ops (ring_new capacity)).1 = (run (log_object cap) ops []).1 ∧
  ring_holds cap (run ring_object ops (ring_new capacity)).2 (run (log_object cap) ops []).2.
Proof.
  intros cap. assert (0 < cap)%nat as Hcap.
  { unfold cap, SCHEDULE_LOG_CAPACITY. destruct (Nat.eqb_spec capacity 0); lia. }
  assert (ring_new capacity = ring_new cap) as ->.
  { unfold ring_new at 1. fold cap. unfold ring_new. by rewrite (proj2 (Nat.eqb_neq cap 0)) by lia. }
  apply (refines_run (λ _, True) ring_object (log_object cap) (ring_holds cap)).
  - by apply Forall_forall.
  - by apply ring_holds_new.
Qed.
