(* ===== verification/Detok.v ===== *)
(** * Incremental detokenization

    The [Detokenizer] trait and [ByteDetokenizer] of
    [crates/r9v-sched/src/types.rs]: tokens are bytes, a multi-byte UTF-8 code
    point is buffered until it is complete.  A string is its bytes. *)

From S2P Require Import Prelude Bytes SchedError.

#[global] Open Scope Z_scope.

(** ** The trait *)

(** A detokenizer and the string it appends to. *)
Definition detok (D A : Type) : Type := stm (D * list Z) SchedError A.

Class Detokenizer (D : Type) : Type := {
  append_token : Z → Z → detok D Z;
  buffered_len : D → Z → Z;
  detok_reset : Z → D → D
}.
#[global] Hint Mode Detokenizer + : typeclass_instances.

(** The default bodies. *)
Fixpoint detokenize_from {D} `{Detokenizer D} (seq_id total : Z) (tokens : list Z) : detok D Z :=
  match tokens with
  | [] => sret total
  | t :: tokens =>
      let! n := append_token seq_id t in
      let! total := slift (ok_or (checked_add USIZE_MAX total n)
                             (overflow "detokenize_to" "total bytes overflow" [])) in
      detokenize_from seq_id total tokens
  end.

Definition detokenize_to {D} `{Detokenizer D} (seq_id : Z) (tokens : list Z) : detok D Z :=
  detokenize_from seq_id 0 tokens.

Definition detokenize {D} `{Detokenizer D} (seq_id : Z) (tokens : list Z) (d : D) : SchedResult (list Z) * D :=
  let '(r, (d', s)) := detokenize_to seq_id tokens (d, []) in
  (let* _ := r in Ok s, d').

(** ** Bytes *)

Record ByteDetokenizer : Type := {
  d_active_seq : option Z;
  d_buf : list Z;
  d_buf_len : nat;
  d_expected_len : nat
}.

Definition byte_detokenizer_new : ByteDetokenizer :=
  {| d_active_seq := None; d_buf := [0; 0; 0; 0]; d_buf_len := 0; d_expected_len := 0 |}.

Definition byte_buffered_len (d : ByteDetokenizer) (seq_id : Z) : Z :=
  if bool_decide (d_active_seq d = Some seq_id) then Z.of_nat (d_buf_len d) else 0.

Definition set_buf (buf : list Z) (len expected : nat) (d : ByteDetokenizer) : ByteDetokenizer :=
  {| d_active_seq := d_active_seq d; d_buf := buf; d_buf_len := len; d_expected_len := expected |}.

Definition byte_reset (seq_id : Z) (d : ByteDetokenizer) : ByteDetokenizer :=
  if bool_decide (d_active_seq d = Some seq_id)
  then {| d_active_seq := None; d_buf := d_buf d; d_buf_len := 0; d_expected_len := 0 |} else d.

(** Another sequence's partial code point is dropped. *)
Definition activate (seq_id : Z) (d : ByteDetokenizer) : ByteDetokenizer :=
  if bool_decide (d_active_seq d = Some seq_id) then d
  else {| d_active_seq := Some seq_id; d_buf := d_buf d; d_buf_len := 0; d_expected_len := 0 |}.

Definition detok_error (template : string) (values : list Z) : SchedError :=
  DetokenizeError (msg template (map Num values)).

Definition modify_detok (f : ByteDetokenizer → ByteDetokenizer) : detok ByteDetokenizer unit :=
  smodify (λ '(d, out), (f d, out)).

Definition push_str (s : list Z) : detok ByteDetokenizer unit :=
  smodify (λ '(d, out), (d, out ++ s)).

(** The length a lead byte announces. *)
Definition lead_len (b : Z) : option nat :=
  if between 194 223 b then Some 2%nat
  else if between 224 239 b then Some 3%nat
  else if between 240 244 b then Some 4%nat
  else None.

Definition start_byte (b : Z) : detok ByteDetokenizer Z :=
  if b <=? 127 then
    let! _ := push_str [b] in
    sret 1
  else
    match lead_len b with
    | Some n =>
        let! dc := sget in
        if (0 <? length (d_buf dc.1))%nat then
          let! _ := modify_detok (λ d, set_buf (<[0%nat := b]> (d_buf d)) 1 n d) in
          sret 0
        else sfail (detok_error "detokenizer buffer unavailable" [])
    | None => sfail (detok_error "unsupported or invalid UTF-8 start byte: 0x{:02X}" [b])
    end.

Definition continue_byte (b : Z) : detok ByteDetokenizer Z :=
  let! dc := sget in
  let pos := d_buf_len dc.1 in
  if is_cont b then
    if (pos <? length (d_buf dc.1))%nat then
      let! _ := modify_detok (λ d, set_buf (<[pos := b]> (d_buf d)) (S pos) (d_expected_len d) d) in
      let! dc := sget in
      if (d_buf_len dc.1 =? d_expected_len dc.1)%nat then
        let total := d_buf_len dc.1 in
        let! _ := modify_detok (λ d, set_buf (d_buf d) 0 0 d) in
        let! dc := sget in
        if (total <=? length (d_buf dc.1))%nat then
          let pending := take total (d_buf dc.1) in
          if from_utf8 pending then
            let! _ := push_str pending in
            sret (Z.of_nat total)
          else sfail (detok_error "invalid UTF-8 byte sequence: {e}" pending)
        else sfail (detok_error "detokenizer buffer slice 0..{} unavailable" [Z.of_nat total])
      else sret 0
    else sfail (detok_error "detokenizer buffer overflow at position {}" [Z.of_nat pos])
  else
    let! _ := modify_detok (λ d, set_buf (d_buf d) 0 0 d) in
    sfail (detok_error "expected UTF-8 continuation byte (0x80..=0xBF), got 0x{:02X}" [b]).

Definition byte_append_token (seq_id token : Z) : detok ByteDetokenizer Z :=
  if 255 <? token then sfail (detok_error "token id {} exceeds byte range (0..=255)" [token])
  else
    let b := Z.land token 255 in
    let! _ := modify_detok (activate seq_id) in
    let! dc := sget in
    if (d_buf_len dc.1 =? 0)%nat then start_byte b else continue_byte b.

#[global] Instance byte_detokenizer : Detokenizer ByteDetokenizer :=
  {| append_token := byte_append_token; buffered_len := byte_buffered_len; detok_reset := byte_reset |}.

(** ** Decoding facts *)

Lemma between_iff lo hi b : between lo hi b = true ↔ lo ≤ b ≤ hi.
Proof. unfold between. rewrite andb_true_iff, !Z.leb_le. done. Qed.
Lemma between_no lo hi b : b < lo ∨ hi < b → between lo hi b = false.
Proof. intros H. apply not_true_iff_false. rewrite between_iff. lia. Qed.

Lemma lead_len_Some b n :
  lead_len b = Some n →
  between 0 127 b = false ∧
  ((n = 2%nat ∧ between 194 223 b = true) ∨
   (n = 3%nat ∧ between 194 223 b = false ∧ between 224 239 b = true) ∨
   (n = 4%nat ∧ between 194 223 b = false ∧ between 224 239 b = false ∧ between 240 244 b = true)).
Proof.
  unfold lead_len. intros H.
  destruct (between 194 223 b) eqn:H2, (between 224 239 b) eqn:H3, (between 240 244 b) eqn:H4;
    try discriminate H; injection H as <-;
    (split; [apply between_no; rewrite ?between_iff in *; lia|naive_solver]).
Qed.

(** A code point in front splits off. *)
Lemma from_utf8_char b0 n c rest :
  lead_len b0 = Some n → length (b0 :: c) = n →
  from_utf8 (b0 :: c ++ rest) = from_utf8 (b0 :: c) && from_utf8 rest.
Proof.
  intros [Ha H]%lead_len_Some Hlen.
  destruct H as [[-> H2]|[(-> & H2 & H3)|(-> & H2 & H3 & H4)]];
    destruct c as [|b1 [|b2 [|b3 [|]]]]; try discriminate Hlen; simpl;
    rewrite Ha, H2, ?H3, ?H4; simpl; rewrite !andb_true_r; rewrite ?andb_assoc; done.
Qed.

(** A lead byte followed by fewer bytes than it announces is not complete. *)
Lemma from_utf8_short b0 n c :
  lead_len b0 = Some n → (length (b0 :: c) < n)%nat → from_utf8 (b0 :: c) = false.
Proof.
  intros [Ha H]%lead_len_Some Hlen.
  destruct H as [[-> H2]|[(-> & H2 & H3)|(-> & H2 & H3 & H4)]];
    destruct c as [|b1 [|b2 [|b3 c]]]; simpl in *; try lia; rewrite Ha, ?H2, ?H3; done.
Qed.

(** Only a byte that is ASCII or announces a length can start one. *)
Lemma from_utf8_bad_lead b0 c : 127 < b0 → lead_len b0 = None → from_utf8 (b0 :: c) = false.
Proof.
  intros Ha H. unfold lead_len in H. simpl. rewrite (between_no 0 127) by lia.
  destruct (between 194 223 b0), (between 224 239 b0), (between 240 244 b0); try discriminate H.
  by destruct c as [|b1 [|b2 [|b3 c]]].
Qed.

Lemma second_ok_cont b0 b1 : second_ok b0 b1 = true → is_cont b1 = true.
Proof. unfold second_ok, is_cont. repeat case_match; rewrite ?between_iff; lia || done. Qed.

(** Within a code point every byte but the first continues it. *)
Lemma from_utf8_bad_cont b0 n c b rest :
  lead_len b0 = Some n → (length (b0 :: c) < n)%nat → is_cont b = false →
  from_utf8 (b0 :: c ++ b :: rest) = false.
Proof.
  intros [Ha H]%lead_len_Some Hlen Hb.
  assert (∀ b0, second_ok b0 b = false) as Hsec.
  { intros b'. apply not_true_iff_false. intros Hs%second_ok_cont. congruence. }
  destruct H as [[-> H2]|[(-> & H2 & H3)|(-> & H2 & H3 & H4)]];
    destruct c as [|b1 [|b2 [|b3 c]]]; simpl in *; try lia; rewrite Ha, ?H2, ?H3, ?H4;
    repeat (destruct rest as [|? rest]; simpl; rewrite ?H2, ?H3, ?H4, ?Hsec, ?Hb, ?andb_false_r; simpl; try done).
Qed.

Lemma from_utf8_ascii b rest : 0 ≤ b ≤ 127 → from_utf8 (b :: rest) = from_utf8 rest.
Proof. intros Hb. simpl. by rewrite (proj2 (between_iff 0 127 b)) by lia. Qed.

(** ** One byte *)

(** The bytes of an unfinished code point. *)
Inductive partial : list Z → nat → Prop :=
| partial_none : partial [] 0
| partial_some b0 c n : lead_len b0 = Some n → (length (b0 :: c) < n)%nat →
    Forall (λ b, is_cont b = true) c → partial (b0 :: c) n.

(** The detokenizer holds exactly the unfinished bytes of [seq_id]. *)
Record detok_holds (d : ByteDetokenizer) (seq_id : Z) (pend : list Z) (n : nat) : Prop := {
  dh_active : d_active_seq d = Some seq_id;
  dh_room : length (d_buf d) = 4%nat;
  dh_len : d_buf_len d = length pend;
  dh_bytes : take (length pend) (d_buf d) = pend;
  dh_expected : d_expected_len d = n;
  dh_partial : partial pend n
}.

Lemma partial_room pend n : partial pend n → (length pend < 4)%nat.
Proof.
  destruct 1 as [|b0 c n H Hlen _]; [simpl; lia|].
  apply lead_len_Some in H as [_ [[-> _]|[[-> _]|[-> _]]]]; lia.
Qed.

(** What a byte does to the unfinished bytes: the text it completes and what
    is left, or nothing when no continuation can be valid. *)
Definition feed (pend : list Z) (n : nat) (b : Z) : option (list Z * list Z * nat) :=
  match pend with
  | [] => if b <=? 127 then Some ([b], [], 0%nat)
          else match lead_len b with Some k => Some ([], [b], k) | None => None end
  | _ => if is_cont b then
           if (S (length pend) =? n)%nat then
             if from_utf8 (pend ++ [b]) then Some (pend ++ [b], [], 0%nat) else None
           else Some ([], pend ++ [b], n)
         else None
  end.

Lemma byte_append_feed d seq_id pend n b out :
  detok_holds d seq_id pend n → 0 ≤ b ≤ 255 →
  match feed pend n b with
  | Some (txt, pend', n') => ∃ d', byte_append_token seq_id b (d, out) =
      (Ok (Z.of_nat (length txt)), (d', out ++ txt)) ∧ detok_holds d' seq_id pend' n'
  | None => ∃ e d', byte_append_token seq_id b (d, out) = (Err e, (d', out))
  end.
Proof.
  intros [Hact Hroom Hlen Hbytes Hexp Hpart] Hb. unfold byte_append_token.
  rewrite (proj2 (Z.ltb_ge 255 b)) by lia.
  assert (Z.land b 255 = b) as ->.
  { change 255 with (Z.ones 8). rewrite Z.land_ones by lia. apply Z.mod_small. lia. }
  erewrite sbind_Ok by reflexivity. erewrite sbind_Ok by reflexivity.
  assert (activate seq_id d = d) as -> by (unfold activate; by rewrite bool_decide_eq_true_2).
  cbn [fst]. rewrite Hlen. pose proof (partial_room _ _ Hpart) as Hp4.
  destruct pend as [|b0 c]; cbn [feed].
  - cbn [length Nat.eqb]. unfold start_byte. destruct (Z.leb_spec b 127).
    { erewrite sbind_Ok by reflexivity. eexists. split; [reflexivity|].
      inversion Hpart as [Hn|]. by constructor; [..|congruence|constructor]. }
    destruct (lead_len b) as [k|] eqn:Hk.
    2: { do 2 eexists. reflexivity. }
    erewrite sbind_Ok by reflexivity. cbn [fst]. rewrite Hroom. cbn [Nat.ltb Nat.leb].
    erewrite sbind_Ok by reflexivity. eexists. rewrite app_nil_r. split; [reflexivity|].
    destruct (d_buf d) as [|x buf] eqn:Hbuf; [done|].
    constructor; cbn; [done|done|done|done|done|].
    apply partial_some; [done| |constructor].
    apply lead_len_Some in Hk as [_ [[-> _]|[[-> _]|[-> _]]]]; simpl; lia.
  - rewrite (proj2 (Nat.eqb_neq (length (b0 :: c)) 0)) by (cbn; lia).
    unfold continue_byte. erewrite sbind_Ok by reflexivity. cbn [fst]. rewrite Hlen.
    destruct (is_cont b) eqn:Hc.
    2: { erewrite sbind_Ok by reflexivity. do 2 eexists. reflexivity. }
    rewrite Hroom, (proj2 (Nat.ltb_lt _ _)) by done.
    erewrite sbind_Ok by reflexivity. erewrite sbind_Ok by reflexivity.
    set (pend := b0 :: c) in *. cbn [set_buf d_buf d_buf_len d_expected_len fst].
    assert (take (S (length pend)) (<[length pend := b]> (d_buf d)) = pend ++ [b]) as Htake.
    { erewrite take_S_r by (apply list_lookup_insert_eq; lia).
      rewrite take_insert_ge by lia. by rewrite Hbytes. }
    rewrite Hexp. destruct (Nat.eqb_spec (S (length pend)) n) as [Hn|Hn].
    + erewrite sbind_Ok by reflexivity. erewrite sbind_Ok by reflexivity.
      cbn [set_buf d_buf fst]. rewrite length_insert, Hroom, (proj2 (Nat.leb_le _ _)) by lia.
      rewrite Htake. destruct (from_utf8 (pend ++ [b])).
      * erewrite sbind_Ok by reflexivity. eexists. split.
        { unfold sret. rewrite length_app. cbn [length]. by rewrite Nat.add_1_r. }
        constructor; cbn; [done|by rewrite length_insert|done|done|done|constructor].
      * do 2 eexists. reflexivity.
    + eexists. rewrite app_nil_r. split; [reflexivity|].
      constructor; cbn -[take]; [done|by rewrite length_insert|rewrite length_app; cbn; lia| |done|].
      { rewrite length_app. cbn [length]. by rewrite Nat.add_1_r. }
      inversion Hpart as [|? ? ? Hlead Hl Hcs]; subst. apply partial_some; [done| |].
      * rewrite length_cons, length_app. cbn in *. lia.
      * apply Forall_app. by repeat constructor.
Qed.

(** The state [append_token] continues from: its own bytes if the sequence is
    the active one, and a clean buffer if it is not. *)
Definition detok_ready (d : ByteDetokenizer) (seq_id : Z) (pend : list Z) (n : nat) : Prop :=
  detok_holds (activate seq_id d) seq_id pend n.

Lemma activate_idem seq_id d : activate seq_id (activate seq_id d) = activate seq_id d.
Proof.
  unfold activate. destruct (bool_decide (d_active_seq d = Some seq_id)) eqn:E; [by rewrite E|].
  simpl. by rewrite bool_decide_eq_true_2.
Qed.

Lemma detok_holds_ready d seq_id pend n : detok_holds d seq_id pend n → detok_ready d seq_id pend n.
Proof. intros H. unfold detok_ready, activate. by rewrite bool_decide_eq_true_2 by apply H. Qed.

Lemma detok_ready_new seq_id : detok_ready byte_detokenizer_new seq_id [] 0.
Proof. constructor; try done. constructor. Qed.

Lemma byte_append_activate seq_id b d out :
  b ≤ 255 → byte_append_token seq_id b (activate seq_id d, out) = byte_append_token seq_id b (d, out).
Proof.
  intros Hb. unfold byte_append_token. rewrite (proj2 (Z.ltb_ge 255 b)) by lia.
  unfold sbind, modify_detok, smodify. by rewrite activate_idem.
Qed.

Lemma buffered_ready d seq_id pend n : detok_ready d seq_id pend n → byte_buffered_len d seq_id = Z.of_nat (length pend).
Proof.
  intros [_ _ Hl _ _ _]. unfold byte_buffered_len, activate in *. case_bool_decide; [by rewrite Hl|].
  simpl in Hl. lia.
Qed.

(** Text that splits off the front of any valid string. *)
Definition whole (txt : list Z) : Prop := ∀ rest, from_utf8 (txt ++ rest) = from_utf8 rest.

Lemma whole_nil : whole []. Proof. done. Qed.
Lemma whole_app a b : whole a → whole b → whole (a ++ b).
Proof. intros Ha Hb rest. by rewrite <- app_assoc, Ha, Hb. Qed.
Lemma whole_valid txt : whole txt → from_utf8 txt = true.
Proof. intros H. specialize (H []). by rewrite app_nil_r in H. Qed.

Lemma partial_invalid pend n : partial pend n → pend ≠ [] → from_utf8 pend = false.
Proof. destruct 1 as [|b0 c n Hl Hn _]; [done|]. intros _. by eapply from_utf8_short. Qed.

Lemma feed_sound pend n b :
  partial pend n → 0 ≤ b ≤ 255 →
  match feed pend n b with
  | Some (txt, pend', n') => pend ++ [b] = txt ++ pend' ∧ whole txt ∧ partial pend' n'
  | None => ∀ rest, from_utf8 (pend ++ b :: rest) = false
  end.
Proof.
  intros Hp Hb. destruct pend as [|b0 c]; cbn [feed].
  - destruct (Z.leb_spec b 127).
    { split; [done|]. split; [|constructor]. intros rest. apply from_utf8_ascii. lia. }
    destruct (lead_len b) as [k|] eqn:Hk.
    + split; [done|]. split; [apply whole_nil|]. apply partial_some; [done| |constructor].
      apply lead_len_Some in Hk as [_ [[-> _]|[[-> _]|[-> _]]]]; simpl; lia.
    + intros rest. by apply from_utf8_bad_lead.
  - inversion Hp as [|? ? ? Hlead Hlen Hcs]; subst. destruct (is_cont b) eqn:Hc.
    2: { intros rest. by eapply from_utf8_bad_cont. }
    destruct (Nat.eqb_spec (S (length (b0 :: c))) n) as [Hn|Hn].
    + assert (∀ rest, from_utf8 ((b0 :: c) ++ b :: rest) = from_utf8 ((b0 :: c) ++ [b]) && from_utf8 rest) as Hsplit.
      { intros rest. replace ((b0 :: c) ++ b :: rest) with (b0 :: (c ++ [b]) ++ rest)
          by (by rewrite <- app_assoc).
        apply from_utf8_char with n; [done|]. rewrite length_cons, length_app. simpl in *. lia. }
      destruct (from_utf8 ((b0 :: c) ++ [b])) eqn:Hv.
      * rewrite app_nil_r. split; [done|]. split; [|constructor]. intros rest.
        rewrite <- app_assoc. change ([b] ++ rest) with (b :: rest). by rewrite Hsplit.
      * intros rest. by rewrite Hsplit.
    + split; [done|]. split; [apply whole_nil|]. apply partial_some; [done| |].
      * rewrite length_cons, length_app. simpl in *. lia.
      * apply Forall_app. by repeat constructor.
Qed.

(** Feeding bytes one by one splits the stream into whole text and an
    unfinished code point, or shows that no continuation is valid. *)
Lemma detokenize_from_spec d seq_id total pend n bs out :
  detok_ready d seq_id pend n → Forall (λ b, 0 ≤ b ≤ 255) bs → 0 ≤ total →
  total + Z.of_nat (length pend + length bs) ≤ USIZE_MAX →
  match detokenize_from seq_id total bs (d, out) with
  | (Ok k, (d', out')) => ∃ txt pend' n', pend ++ bs = txt ++ pend' ∧ whole txt ∧
      detok_ready d' seq_id pend' n' ∧ out' = out ++ txt ∧ k = total + Z.of_nat (length txt)
  | (Err _, _) => ∀ rest, from_utf8 (pend ++ bs ++ rest) = false
  | (Panic, _) => False
  end.
Proof.
  intros Hd Hbs. revert d total pend n out Hd.
  induction Hbs as [|b bs Hb Hbs IH]; intros d total pend n out Hd Htot Hmax; cbn [detokenize_from].
  { exists [], pend, n. rewrite !app_nil_r. split_and!; [done|apply whole_nil|done|done|simpl; lia]. }
  pose proof (byte_append_feed _ _ _ _ b out Hd Hb) as Hfeed. rewrite byte_append_activate in Hfeed by lia.
  pose proof (feed_sound pend n b (dh_partial _ _ _ _ Hd) Hb) as Hsound.
  destruct (feed pend n b) as [[[txt pend'] n']|].
  - destruct Hfeed as (d' & Happ & Hd'). destruct Hsound as (Heq & Hw & Hp').
    assert (length pend + 1 = length txt + length pend')%nat as Hlen.
    { pose proof (f_equal length Heq) as H. rewrite !length_app in H. simpl in H. lia. }
    cbn [length] in Hmax. change (append_token seq_id b) with (byte_append_token seq_id b).
    erewrite sbind_Ok by exact Happ. rewrite checked_add_ok by lia.
    erewrite sbind_Ok by reflexivity.
    specialize (IH d' (total + Z.of_nat (length txt)) pend' n' (out ++ txt) (detok_holds_ready _ _ _ _ Hd')
      ltac:(lia) ltac:(lia)).
    destruct (detokenize_from seq_id (total + Z.of_nat (length txt)) bs (d', out ++ txt)) as [[k|e|] [d'' out'']]; [| |done].
    + destruct IH as (txt2 & pend2 & n2 & Heq2 & Hw2 & Hd2 & -> & ->).
      exists (txt ++ txt2), pend2, n2. split_and!.
      * replace (pend ++ b :: bs) with ((pend ++ [b]) ++ bs) by (by rewrite <- app_assoc).
        by rewrite Heq, <- app_assoc, Heq2, app_assoc.
      * by apply whole_app.
      * done.
      * by rewrite app_assoc.
      * rewrite length_app. lia.
    + intros rest. replace (pend ++ (b :: bs) ++ rest) with ((pend ++ [b]) ++ bs ++ rest)
        by (by rewrite <- app_assoc).
      rewrite Heq, <- app_assoc, Hw. apply IH.
  - destruct Hfeed as (e & d' & Happ). change (append_token seq_id b) with (byte_append_token seq_id b).
    erewrite sbind_Err by exact Happ. intros rest. apply Hsound.
Qed.

(** Decoding a sequence's bytes one token at a time is decoding them all at
    once: what has been emitted is the longest whole text of the stream, the
    rest is the one unfinished code point reported as buffered, a valid stream
    is emitted entirely, and a refusal means that no continuation of the
    stream is valid UTF-8. *)
Theorem incremental_decode_exact d seq_id pend n bs out :
  detok_ready d seq_id pend n → Forall (λ b, 0 ≤ b ≤ 255) bs →
  Z.of_nat (length pend + length bs) ≤ USIZE_MAX →
  match detokenize_to seq_id bs (d, out) with
  | (Ok k, (d', out')) => ∃ txt pend' n', out' = out ++ txt ∧ pend ++ bs = txt ++ pend' ∧
      k = Z.of_nat (length txt) ∧ from_utf8 txt = true ∧ partial pend' n' ∧
      detok_ready d' seq_id pend' n' ∧ buffered_len d' seq_id = Z.of_nat (length pend') ∧
      (from_utf8 (pend ++ bs) = true ↔ pend' = [])
  | (Err _, _) => ∀ rest, from_utf8 (pend ++ bs ++ rest) = false
  | (Panic, _) => False
  end.
Proof.
  intros Hd Hbs Hmax. unfold detokenize_to.
  pose proof (detokenize_from_spec d seq_id 0 pend n bs out Hd Hbs ltac:(lia) ltac:(lia)) as H.
  destruct (detokenize_from seq_id 0 bs (d, out)) as [[k|e|] [d' out']]; [|done|done].
  destruct H as (txt & pend' & n' & Heq & Hw & Hd' & -> & ->). exists txt, pend', n'.
  split_and!; [done|done|lia|by apply whole_valid|apply Hd'|done|by eapply buffered_ready|].
  rewrite Heq, Hw. split; [|by intros ->].
  intros Hv. destruct (decide (pend' = [])) as [|Hne]; [done|].
  rewrite (partial_invalid pend' n') in Hv; [done|apply Hd'|done].
Qed.

Lemma incremental_decode_exact_witness :
  detok_ready byte_detokenizer_new 5 [] 0 ∧
  match detokenize_to 5 [72; 226; 130; 172; 195] (byte_detokenizer_new, []) with
  | (Ok k, (d', out')) => k = 4 ∧ out' = [72; 226; 130; 172] ∧ buffered_len d' 5 = 1 ∧
      ∃ txt pend' n', out' = [] ++ txt ∧ [72; 226; 130; 172; 195] = txt ++ pend' ∧ partial pend' n'
  | _ => False
  end.
Proof.
  split; [apply detok_ready_new|].
  pose proof (incremental_decode_exact byte_detokenizer_new 5 [] 0 [72; 226; 130; 172; 195] []
    (detok_ready_new 5) ltac:(repeat constructor; lia) ltac:(unfold USIZE_MAX, U64_MAX; simpl; lia)) as H.
  vm_compute detokenize_to in H |- *. destruct H as (txt & pend' & n' & Ho & Heq & _ & _ & Hp & _).
  split_and!; try reflexivity. by exists txt, pend', n'.
Defined.
