(* ===== verification/Sequence.v ===== *)
(** * Requests and sequences

    The request, stop-criteria and sequence types of
    [crates/r9v-sched/src/types.rs], with the sampling parameters of
    [crates/r9v-ir/src/op.rs] they carry.  A string is its UTF-8 bytes. *)

From S2P Require Import Prelude Bytes Errors SchedError Detok.

#[global] Open Scope Z_scope.

(** ** Stop criteria *)

Record StopCriteria : Type := {
  sc_eos_token_ids : gset Z;
  sc_stop_strings : list (list Z);
  sc_max_stop_len : Z
}.

Definition stop_default : StopCriteria :=
  {| sc_eos_token_ids := ∅; sc_stop_strings := []; sc_max_stop_len := 256 |}.

(** [iter().map(|s| s.len()).max().unwrap_or(0)]. *)
Definition max_len (strings : list (list Z)) : Z :=
  foldr (λ s m, Z.max (Z.of_nat (length s)) m) 0 strings.

Definition stop_new (eos_token_ids : list Z) (stop_strings : list (list Z)) : StopCriteria :=
  {| sc_eos_token_ids := list_to_set eos_token_ids; sc_stop_strings := stop_strings;
     sc_max_stop_len := max_len stop_strings |}.

Definition is_eos (sc : StopCriteria) (token_id : Z) : bool :=
  bool_decide (token_id ∈ sc_eos_token_ids sc).

(** [text.find(pat)]: the first byte offset at which [pat] occurs. *)
Fixpoint is_prefix (pat text : list Z) : bool :=
  match pat, text with
  | [], _ => true
  | p :: pat, t :: text => (p =? t) && is_prefix pat text
  | _ :: _, [] => false
  end.

Fixpoint str_find (pat text : list Z) : option nat :=
  if is_prefix pat text then Some 0%nat
  else match text with
       | [] => None
       | _ :: text => S <$> str_find pat text
       end.

Definition earlier (earliest : option (nat * list Z)) (idx : nat) (stop_str : list Z)
    : option (nat * list Z) :=
  match earliest with
  | Some (earliest_idx, _) => if (idx <? earliest_idx)%nat then Some (idx, stop_str) else earliest
  | None => Some (idx, stop_str)
  end.

Definition check_stop_string (sc : StopCriteria) (text : list Z) : option (nat * list Z) :=
  foldl (λ earliest stop_str,
      if bool_decide (stop_str = []) then earliest
      else match str_find stop_str text with
           | Some idx => earlier earliest idx stop_str
           | None => earliest
           end)
    None (sc_stop_strings sc).

(** ** Sampling parameters *)

Record SamplingParams : Type := {
  sp_temperature : f32;
  sp_top_k : Z;
  sp_top_p : f32;
  sp_min_p : f32;
  sp_repetition_penalty : f32;
  sp_presence_penalty : f32;
  sp_frequency_penalty : f32;
  sp_logit_bias : list (Z * f32)
}.

Definition f32_one : f32 := f32_of_Z 1.

Definition attribute_problem (bad : bool) (attribute requirement : string) (value : f32) : list IrError :=
  if bad then [OpAttributeInvalid "sampling_params" attribute (msg (requirement ++ ", got {}") [Float value])]
  else [].

Definition sampling_problems (p : SamplingParams) : list IrError :=
  attribute_problem (negb (is_finite (sp_temperature p)) || f32_lt (sp_temperature p) f32_zero)
    "temperature" "must be finite and >= 0.0" (sp_temperature p) ++
  attribute_problem (negb (is_finite (sp_top_p p)) || f32_le (sp_top_p p) f32_zero
                     || f32_lt f32_one (sp_top_p p))
    "top_p" "must be finite and in (0.0, 1.0]" (sp_top_p p) ++
  attribute_problem (negb (is_finite (sp_min_p p)) || f32_lt (sp_min_p p) f32_zero
                     || f32_lt f32_one (sp_min_p p))
    "min_p" "must be finite and in [0.0, 1.0]" (sp_min_p p) ++
  attribute_problem (negb (is_finite (sp_repetition_penalty p))
                     || f32_le (sp_repetition_penalty p) f32_zero)
    "repetition_penalty" "must be finite and > 0.0" (sp_repetition_penalty p) ++
  attribute_problem (negb (is_finite (sp_presence_penalty p)))
    "presence_penalty" "must be finite" (sp_presence_penalty p) ++
  attribute_problem (negb (is_finite (sp_frequency_penalty p)))
    "frequency_penalty" "must be finite" (sp_frequency_penalty p) ++
  concat (map (λ '(token, bias),
      if negb (is_finite bias)
      then [OpAttributeInvalid "sampling_params" "logit_bias"
              (msg "token {} has non-finite bias {}" [Num token; Float bias])] else [])
    (sp_logit_bias p)).

Definition sampling_validate (p : SamplingParams) : outcome IrError unit :=
  from_problems (sampling_problems p).

(** ** Requests *)

Record Request : Type := {
  q_id : Z;
  q_tokens : list Z;
  q_sampling : SamplingParams;
  q_max_tokens : Z;
  q_stop : StopCriteria;
  q_stream : bool;
  q_seed : Z
}.

(** The problems of the sampling parameters, unwrapped. *)
Definition request_sampling_problems (p : SamplingParams) : list RequestProblem :=
  match sampling_validate p with
  | Err (Multiple errs) => map InvalidSampling errs
  | Err err => [InvalidSampling err]
  | _ => []
  end.

Definition new_with_seed (id : Z) (tokens : list Z) (sampling : SamplingParams) (max_tokens : Z)
    (stop : StopCriteria) (stream : bool) (seed : Z) : SchedResult Request :=
  let problems :=
    (if bool_decide (tokens = []) then [EmptyPrompt] else []) ++
    (if max_tokens =? 0 then [ZeroMaxTokens] else []) ++
    request_sampling_problems sampling in
  if negb (bool_decide (problems = [])) then Err (InvalidRequest problems)
  else Ok {| q_id := id; q_tokens := tokens; q_sampling := sampling; q_max_tokens := max_tokens;
             q_stop := stop; q_stream := stream; q_seed := seed |}.

Definition request_new (id : Z) (tokens : list Z) (sampling : SamplingParams) (max_tokens : Z)
    (stop : StopCriteria) (stream : bool) : SchedResult Request :=
  new_with_seed id tokens sampling max_tokens stop stream id.

Definition with_seed (r : Request) (seed : Z) : Request :=
  {| q_id := q_id r; q_tokens := q_tokens r; q_sampling := q_sampling r;
     q_max_tokens := q_max_tokens r; q_stop := q_stop r; q_stream := q_stream r; q_seed := seed |}.

(** ** Sequences *)

Inductive FinishReason : Type :=
| Eos (token : Z) | MaxTokens | StopString (s : list Z) | Cancelled.

Inductive SequencePhase : Type :=
| Queued | Prefilling (done : Z) | Decoding | Finished (reason : FinishReason).

Record Sequence : Type := {
  s_req : Request;
  s_seq_id : Z;
  s_phase : SequencePhase;
  s_ctx_len : Z;
  s_generated : list Z;
  s_accept_ema : f32;
  s_arrival_order : Z;
  s_wait_steps : Z;
  s_accumulated_wait_ms : f32;
  s_detokenized_tail : list Z;
  s_tail_start_byte : Z;
  s_token_byte_spans : list (Z * Z * Z);
  s_pending_utf8_start : option (Z * Z)
}.

(** The capacities the constructor reserves are not observable. *)
Definition sequence_new (req : Request) (seq_id arrival_order : Z) : Sequence :=
  {| s_req := req; s_seq_id := seq_id; s_phase := Queued; s_ctx_len := 0; s_generated := [];
     s_accept_ema := f32_one; s_arrival_order := arrival_order; s_wait_steps := 0;
     s_accumulated_wait_ms := f32_zero; s_detokenized_tail := []; s_tail_start_byte := 0;
     s_token_byte_spans := []; s_pending_utf8_start := None |}.

Definition is_finished (s : Sequence) : bool :=
  match s_phase s with Finished _ => true | _ => false end.

Definition prompt_len (s : Sequence) : Z := as_u32 (Z.of_nat (length (q_tokens (s_req s)))).

Definition remaining_prompt (s : Sequence) : Z :=
  match s_phase s with
  | Queued => prompt_len s
  | Prefilling done => saturating_sub (prompt_len s) done
  | _ => 0
  end.

(** The fields a generated token moves. *)
Record Tracking : Type := {
  k_generated : list Z;
  k_tail : list Z;
  k_tail_start : Z;
  k_spans : list (Z * Z * Z);
  k_pending : option (Z * Z)
}.

Definition tracking (s : Sequence) : Tracking :=
  {| k_generated := s_generated s; k_tail := s_detokenized_tail s; k_tail_start := s_tail_start_byte s;
     k_spans := s_token_byte_spans s; k_pending := s_pending_utf8_start s |}.

Definition set_tracking (k : Tracking) (s : Sequence) : Sequence :=
  {| s_req := s_req s; s_seq_id := s_seq_id s; s_phase := s_phase s; s_ctx_len := s_ctx_len s;
     s_generated := k_generated k; s_accept_ema := s_accept_ema s;
     s_arrival_order := s_arrival_order s; s_wait_steps := s_wait_steps s;
     s_accumulated_wait_ms := s_accumulated_wait_ms s; s_detokenized_tail := k_tail k;
     s_tail_start_byte := k_tail_start k; s_token_byte_spans := k_spans k;
     s_pending_utf8_start := k_pending k |}.

Definition set_tail (tail : list Z) (s : Sequence) : Sequence :=
  let k := tracking s in
  set_tracking {| k_generated := k_generated k; k_tail := tail; k_tail_start := k_tail_start k;
                  k_spans := k_spans k; k_pending := k_pending k |} s.
Definition set_generated (generated : list Z) (s : Sequence) : Sequence :=
  let k := tracking s in
  set_tracking {| k_generated := generated; k_tail := k_tail k; k_tail_start := k_tail_start k;
                  k_spans := k_spans k; k_pending := k_pending k |} s.
Definition set_spans (spans : list (Z * Z * Z)) (pending : option (Z * Z)) (s : Sequence) : Sequence :=
  let k := tracking s in
  set_tracking {| k_generated := k_generated k; k_tail := k_tail k; k_tail_start := k_tail_start k;
                  k_spans := spans; k_pending := pending |} s.
Definition set_tail_start (start : Z) (s : Sequence) : Sequence :=
  let k := tracking s in
  set_tracking {| k_generated := k_generated k; k_tail := k_tail k; k_tail_start := start;
                  k_spans := k_spans k; k_pending := k_pending k |} s.

Definition reset_tail_state (s : Sequence) : Sequence :=
  set_tracking {| k_generated := s_generated s; k_tail := []; k_tail_start := 0; k_spans := [];
                  k_pending := None |} s.

(** ** Appending a generated token *)

Section append.
Context {D : Type} `{Detokenizer D}.

Definition seqm (A : Type) : Type := stm (Sequence * D) SchedError A.

(** The detokenizer appends to the tail; what it wrote stays on every path. *)
Definition run_detok (token : Z) : seqm Z :=
  λ '(s, d),
    let '(r, (d', out)) := append_token (s_seq_id s) token (d, s_detokenized_tail s) in
    (r, (set_tail out s, d')).

Definition modify_seq (f : Sequence → Sequence) : seqm unit := smodify (λ '(s, d), (f s, d)).
Definition get_seq : seqm Sequence := sread (λ '(s, _), Ok s).
Definition get_buffered : seqm Z := sread (λ '(s, d), Ok (buffered_len d (s_seq_id s))).

(** The span of the new text: deferred while a code point is unfinished, from
    the first contributing token once it is complete. *)
Definition record_span (token_idx token_start_byte token_end_byte appended_bytes : Z) (s : Sequence)
    : Sequence :=
  if appended_bytes =? 0 then
    match s_pending_utf8_start s with
    | None => set_spans (s_token_byte_spans s) (Some (token_idx, token_start_byte)) s
    | Some _ => s
    end
  else
    match s_pending_utf8_start s with
    | Some (pending_idx, pending_byte) =>
        set_spans (s_token_byte_spans s ++ [(pending_idx, pending_byte, token_end_byte)]) None s
    | None => set_spans (s_token_byte_spans s ++ [(token_idx, token_start_byte, token_end_byte)]) None s
    end.

(** The first token whose span ends past the match. *)
Fixpoint cut_index (spans : list (Z * Z * Z)) (absolute_match_byte dflt : Z) : Z :=
  match spans with
  | [] => dflt
  | (idx, _, end_) :: spans =>
      if absolute_match_byte <? end_ then idx else cut_index spans absolute_match_byte dflt
  end.

(** [char_indices().map(|(i, _)| i).find(|&i| i >= excess)]. *)
Fixpoint char_start_from (excess i : nat) (bytes : list Z) : option nat :=
  match bytes with
  | [] => None
  | b :: bytes =>
      if negb (is_cont b) && (excess <=? i)%nat then Some i else char_start_from excess (S i) bytes
  end.

(** [str::is_char_boundary]. *)
Definition is_char_boundary (bytes : list Z) (i : nat) : bool :=
  match bytes !! i with
  | Some b => negb (is_cont b)
  | None => (i =? length bytes)%nat
  end.

(** [drain(..n)] panics past the end and inside a code point. *)
Definition drain_front (n : nat) (bytes : list Z) : SchedResult (list Z) :=
  if is_char_boundary bytes n then Ok (drop n bytes) else Panic.

Definition max_keep (max_stop_len : Z) : Z :=
  Z.max (default 512 (checked_mul USIZE_MAX max_stop_len 2)) 128.

(** Step 6: the tail is cut back to about [max_stop_len] bytes. *)
Definition bound_tail : seqm unit :=
  let! s := get_seq in
  let max_stop := sc_max_stop_len (q_stop (s_req s)) in
  let tail := s_detokenized_tail s in
  if 0 <? max_stop then
    if max_keep max_stop <? Z.of_nat (length tail) then
      let excess := Z.to_nat (saturating_sub (Z.of_nat (length tail)) max_stop) in
      let trim_bytes := default excess (char_start_from excess 0 tail) in
      if (0 <? trim_bytes)%nat && (trim_bytes <=? length tail)%nat then
        let! rest := slift (drain_front trim_bytes tail) in
        let! _ := modify_seq (set_tail rest) in
        let! start := slift (ok_or (checked_add USIZE_MAX (s_tail_start_byte s) (Z.of_nat trim_bytes))
                               (overflow "tail_start_byte" "overflow" [])) in
        let! _ := modify_seq (set_tail_start start) in
        modify_seq (λ s, set_spans (filter (λ '(_, _, end_), s_tail_start_byte s < end_)
                                      (s_token_byte_spans s)) (s_pending_utf8_start s) s)
      else sret tt
    else sret tt
  else sret tt.

(** Step 5: the stop strings over the tail. *)
Definition stop_match (token_idx : Z) : seqm (option (FinishReason * bool)) :=
  let! s := get_seq in
  match check_stop_string (q_stop (s_req s)) (s_detokenized_tail s) with
  | Some (match_offset, matched_str) =>
      let! absolute_match_byte :=
        slift (ok_or (checked_add USIZE_MAX (s_tail_start_byte s) (Z.of_nat match_offset))
                 (overflow "match_byte" "match byte overflow" [])) in
      let cut_token_idx := cut_index (s_token_byte_spans s) absolute_match_byte token_idx in
      let! _ := modify_seq (λ s, set_generated (take (Z.to_nat cut_token_idx) (s_generated s)) s) in
      sret (Some (StopString matched_str, cut_token_idx <=? token_idx))
  | None => sret None
  end.

(** Steps 1 to 4: detokenize, record, and the finishes that precede the stop
    strings. *)
Definition track_token (token : Z) : seqm (option (option FinishReason * bool)) :=
  let! s := get_seq in
  let fills_budget := q_max_tokens (s_req s) <=?
                      saturating_add USIZE_MAX (Z.of_nat (length (s_generated s))) 1 in
  let eos := is_eos (q_stop (s_req s)) token in
  let token_idx := Z.of_nat (length (s_generated s)) in
  let! token_start_byte :=
    slift (ok_or (checked_add USIZE_MAX (s_tail_start_byte s) (Z.of_nat (length (s_detokenized_tail s))))
             (overflow "tail_bytes" "tail byte offset overflow" [])) in
  let! appended_bytes := run_detok token in
  let! token_end_byte :=
    slift (ok_or (checked_add USIZE_MAX token_start_byte appended_bytes)
             (overflow "tail_bytes" "token end byte overflow" [])) in
  let! _ := modify_seq (λ s, set_generated (s_generated s ++ [token]) s) in
  let! _ := modify_seq (record_span token_idx token_start_byte token_end_byte appended_bytes) in
  if fills_budget then sret (Some (Some MaxTokens, false))
  else
    let! buffered := get_buffered in
    if 0 <? buffered then sret (Some (None, false))
    else if eos then sret (Some (Some (Eos token), false))
    else sret None.

Definition append_generated_token (token : Z) : seqm (option FinishReason * bool) :=
  let! s := get_seq in
  let token_idx := Z.of_nat (length (s_generated s)) in
  let! early := track_token token in
  match early with
  | Some r => sret r
  | None =>
      let! matched := if negb (bool_decide (sc_stop_strings (q_stop (s_req s)) = []))
                      then stop_match token_idx else sret None in
      match matched with
      | Some (reason, trimmed) => sret (Some reason, trimmed)
      | None =>
          let! _ := bound_tail in
          sret (None, false)
      end
  end.
End append.
