(* ===== verification/Generation.v ===== *)
(** * Generation against the whole text

    A sequence keeps only a bounded tail of its text.  The reference sequence
    keeps all of it; the two generate the same tokens and finish for the same
    reason. *)

From S2P Require Import Prelude Bytes Errors SchedError Detok Sequence.

#[global] Open Scope Z_scope.

(** ** UTF-8 text *)

Lemma is_cont_iff b : is_cont b = true ↔ 128 ≤ b ≤ 191.
Proof. apply between_iff. Qed.
Lemma is_cont_no b : is_cont b = false ↔ ¬ 128 ≤ b ≤ 191.
Proof. rewrite <- not_true_iff_false, is_cont_iff. done. Qed.

(** A valid string starts with one whole code point. *)
Lemma utf8_step b0 bs :
  from_utf8 (b0 :: bs) = true →
  ∃ c rest, bs = c ++ rest ∧ (length c ≤ 3)%nat ∧ is_cont b0 = false ∧ whole (b0 :: c) ∧
    from_utf8 rest = true.
Proof.
  intros Hv. destruct (between 0 127 b0) eqn:Ha.
  { exists [], bs. simpl in Hv. rewrite Ha in Hv. split_and!; [done|simpl; lia| |by intros rest; simpl; rewrite Ha|done].
    apply is_cont_no. apply between_iff in Ha. lia. }
  destruct (lead_len b0) as [n|] eqn:Hlead.
  2: { exfalso. destruct (Z.lt_ge_cases 127 b0); [by rewrite from_utf8_bad_lead in Hv|].
       simpl in Hv. rewrite Ha in Hv. rewrite !(between_no _ _ b0) in Hv by
         (apply not_true_iff_false in Ha; rewrite between_iff in Ha; lia).
       by destruct bs as [|? [|? [|? ?]]]. }
  destruct (Nat.le_gt_cases n (length (b0 :: bs))) as [Hlong|Hshort].
  2: { by rewrite (from_utf8_short b0 n) in Hv. }
  assert (1 < n ≤ 4)%nat as Hn by (apply lead_len_Some in Hlead as [_ [[-> _]|[[-> _]|[-> _]]]]; lia).
  exists (take (n - 1) bs), (drop (n - 1) bs). rewrite take_drop.
  assert (length (b0 :: take (n - 1) bs) = n) as Hlen.
  { simpl in *. rewrite length_take. lia. }
  assert (∀ rest, from_utf8 (b0 :: take (n - 1) bs ++ rest) = from_utf8 (b0 :: take (n - 1) bs) && from_utf8 rest)
    as Hsplit by (intros rest; by apply from_utf8_char with n).
  rewrite <- (take_drop (n - 1) bs), Hsplit in Hv. apply andb_true_iff in Hv as [Hc Hrest].
  split_and!; [done|simpl in Hlen; lia| |intros rest; by rewrite <- app_comm_cons, Hsplit, Hc|done].
  apply is_cont_no. apply lead_len_Some in Hlead as [_ H]. rewrite !between_iff in H. lia.
Qed.

Lemma valid_whole_len n txt : (length txt ≤ n)%nat → from_utf8 txt = true → whole txt.
Proof.
  revert txt. induction n as [|n IH]; intros [|b0 bs] Hlen Hv; simpl in Hlen; try apply whole_nil; [lia|].
  apply utf8_step in Hv as (c & rest & -> & _ & _ & Hw & Hrest).
  rewrite app_comm_cons. apply whole_app; [done|]. apply IH; [|done].
  rewrite length_app in Hlen. lia.
Qed.

Lemma valid_whole txt : from_utf8 txt = true → whole txt.
Proof. by apply valid_whole_len with (length txt). Qed.

Lemma valid_app a b : from_utf8 a = true → from_utf8 b = true → from_utf8 (a ++ b) = true.
Proof. intros Ha Hb. by rewrite (valid_whole a Ha). Qed.

(** The first byte of a valid string starts a code point. *)
Lemma valid_head b bs : from_utf8 (b :: bs) = true → is_cont b = false.
Proof. intros (? & ? & _ & _ & ? & _)%utf8_step. done. Qed.

(** Among any four consecutive bytes of a valid string one starts a code point. *)
Lemma valid_start_near n txt i :
  (length txt ≤ n)%nat → from_utf8 txt = true → (i + 4 ≤ length txt)%nat →
  ∃ j b, (i ≤ j < i + 4)%nat ∧ txt !! j = Some b ∧ is_cont b = false.
Proof.
  revert txt i. induction n as [|n IH]; intros [|b0 bs] i Hn Hv Hi; simpl in *; try lia.
  destruct i as [|i].
  { exists 0%nat, b0. split_and!; [lia|lia|done|by eapply valid_head]. }
  apply utf8_step in Hv as (c & rest & -> & Hc & _ & _ & Hrest). rewrite length_app in *.
  destruct (Nat.lt_ge_cases i (length c)) as [Hin|Hout].
  - destruct rest as [|b1 rest]; [simpl in *; lia|]. exists (S (length c)), b1.
    split_and!; [lia|lia| |by eapply valid_head]. simpl. by rewrite lookup_app_r, Nat.sub_diag by lia.
  - destruct (IH rest (i - length c)%nat) as (j & b & Hj & Hb & Hs); [lia|done|lia|].
    exists (S (length c + j)), b. split_and!; [lia|lia| |done]. simpl.
    rewrite lookup_app_r by lia. by replace (length c + j - length c)%nat with j by lia.
Qed.

(** ** Searching *)

Definition occurs (pat text : list Z) (k : nat) : Prop := ∃ rest, drop k text = pat ++ rest.

Lemma is_prefix_spec pat text : is_prefix pat text = true ↔ ∃ rest, text = pat ++ rest.
Proof.
  revert text. induction pat as [|p pat IH]; intros [|t text]; simpl.
  - split; [by exists []|done].
  - split; [by eexists|done].
  - split; [done|]. by intros [? ?].
  - rewrite andb_true_iff, Z.eqb_eq, IH. split.
    + intros [-> [rest ->]]. by exists rest.
    + intros [rest [= -> ->]]. eauto.
Qed.

Lemma str_find_spec pat text :
  match str_find pat text with
  | Some k => occurs pat text k ∧ (k ≤ length text)%nat ∧ ∀ j, (j < k)%nat → ¬ occurs pat text j
  | None => ∀ j, (j ≤ length text)%nat → ¬ occurs pat text j
  end.
Proof.
  induction text as [|t text IH]; simpl.
  - destruct (is_prefix pat []) eqn:Hp.
    + apply is_prefix_spec in Hp as [rest Hr]. split_and!; [by exists rest|lia|lia].
    + intros j Hj [rest Hr]. rewrite drop_nil in Hr.
      assert (is_prefix pat [] = true) by (apply is_prefix_spec; eauto). congruence.
  - destruct (is_prefix pat (t :: text)) eqn:Hp.
    { apply is_prefix_spec in Hp as [rest Hr]. split_and!; [by exists rest|lia|lia]. }
    assert (¬ occurs pat (t :: text) 0) as H0.
    { intros [rest Hr]. rewrite drop_0 in Hr.
      assert (is_prefix pat (t :: text) = true) by (apply is_prefix_spec; eauto). congruence. }
    destruct (str_find pat text) as [k|]; simpl.
    + destruct IH as (Hk & Hle & Hmin). split_and!; [done|lia|]. intros [|j] Hj; [done|].
      apply Hmin. lia.
    + intros [|j] Hj; [done|]. apply IH. lia.
Qed.

Lemma str_find_Some pat text k :
  str_find pat text = Some k ↔
  occurs pat text k ∧ (k ≤ length text)%nat ∧ ∀ j, (j < k)%nat → ¬ occurs pat text j.
Proof.
  pose proof (str_find_spec pat text) as H. split; [by intros Heq; rewrite Heq in H|].
  intros (Hk & Hle & Hmin). destruct (str_find pat text) as [k'|].
  - destruct H as (Hk' & Hle' & Hmin'). f_equal.
    destruct (Nat.lt_trichotomy k k') as [Hlt|[->|Hlt]]; [by destruct (Hmin' k Hlt)|done|by destruct (Hmin k' Hlt)].
  - by destruct (H k Hle).
Qed.

Lemma str_find_None pat text :
  str_find pat text = None ↔ ∀ j, (j ≤ length text)%nat → ¬ occurs pat text j.
Proof.
  pose proof (str_find_spec pat text) as H. split; [by intros Heq; rewrite Heq in H|].
  intros Hno. destruct (str_find pat text) as [k|]; [|done]. destruct H as (Hk & Hle & _).
  by destruct (Hno k Hle).
Qed.

Lemma occurs_drop pat text ts k : occurs pat (drop ts text) k ↔ occurs pat text (ts + k).
Proof. unfold occurs. rewrite drop_drop. done. Qed.

(** Cutting off a front with no occurrence shifts the first one. *)
Lemma str_find_drop pat text ts :
  (ts ≤ length text)%nat → (∀ k, occurs pat text k → (k ≤ length text)%nat → (ts ≤ k)%nat) →
  str_find pat (drop ts text) = (λ k, k - ts)%nat <$> str_find pat text.
Proof.
  intros Hts Hfront. destruct (str_find pat text) as [k|] eqn:Hf; simpl.
  - apply str_find_Some in Hf as (Hk & Hle & Hmin). specialize (Hfront k Hk Hle).
    apply str_find_Some. rewrite length_drop. split_and!; [|lia|].
    + apply occurs_drop. by replace (ts + (k - ts))%nat with k by lia.
    + intros j Hj Ho%occurs_drop. by apply (Hmin (ts + j)%nat); [lia|].
  - apply str_find_None. rewrite str_find_None in Hf. intros j Hj Ho%occurs_drop.
    rewrite length_drop in Hj. apply (Hf (ts + j)%nat); [lia|done].
Qed.

(** ** The stop check on a tail *)

Definition shift (ts : nat) (m : option (nat * list Z)) : option (nat * list Z) :=
  (λ '(k, s), ((k - ts)%nat, s)) <$> m.

Lemma check_stop_drop sc text ts :
  (ts ≤ length text)%nat →
  (∀ pat k, pat ∈ sc_stop_strings sc → pat ≠ [] → occurs pat text k → (k ≤ length text)%nat → (ts ≤ k)%nat) →
  check_stop_string sc (drop ts text) = shift ts (check_stop_string sc text) ∧
  ∀ k s, check_stop_string sc text = Some (k, s) → (ts ≤ k)%nat.
Proof.
  intros Hts. unfold check_stop_string. generalize (sc_stop_strings sc) as strings. intros strings Hfront.
  assert (∀ acc, (∀ k s, acc = Some (k, s) → (ts ≤ k)%nat) →
    let step text := (λ earliest stop_str,
      if bool_decide (stop_str = []) then earliest
      else match str_find stop_str text with
           | Some idx => earlier earliest idx stop_str
           | None => earliest
           end) in
    foldl (step (drop ts text)) (shift ts acc) strings = shift ts (foldl (step text) acc strings) ∧
    ∀ k s, foldl (step text) acc strings = Some (k, s) → (ts ≤ k)%nat) as H.
  2: { destruct (H None) as [H1 H2]; [done|]. done. }
  induction strings as [|pat strings IH]; intros acc Hacc step; [by split|].
  assert (∀ pat k, pat ∈ strings → pat ≠ [] → occurs pat text k → (k ≤ length text)%nat → (ts ≤ k)%nat) as Hfront'.
  { intros p k Hp. apply Hfront. by right. }
  specialize (IH Hfront'). cbn [foldl].
  assert (∃ acc', step text acc pat = acc' ∧ step (drop ts text) (shift ts acc) pat = shift ts acc' ∧
    ∀ k s, acc' = Some (k, s) → (ts ≤ k)%nat) as (acc' & -> & -> & Hacc'); [|by apply IH].
  eexists. split; [reflexivity|]. unfold step. case_bool_decide as Hne; [done|].
  rewrite str_find_drop; [|done|by intros k; apply (Hfront pat k); [left|]].
  destruct (str_find pat text) as [idx|] eqn:Hf; simpl; [|done].
  assert (ts ≤ idx)%nat as Hidx.
  { apply str_find_Some in Hf as (Ho & Hle & _). apply (Hfront pat); [left|done..]. }
  destruct acc as [[k s]|]; simpl.
  - specialize (Hacc k s eq_refl).
    destruct (Nat.ltb_spec idx k), (Nat.ltb_spec (idx - ts) (k - ts)); try lia; simpl;
      (split; [done|intros ? ? [= <- <-]; done]).
  - split; [done|]. by intros ? ? [= <- <-].
Qed.

(** When the check finds nothing, no stop string occurs. *)
Lemma check_stop_None sc text :
  check_stop_string sc text = None →
  ∀ pat k, pat ∈ sc_stop_strings sc → pat ≠ [] → (k ≤ length text)%nat → ¬ occurs pat text k.
Proof.
  unfold check_stop_string. generalize (sc_stop_strings sc) as strings. intros strings.
  set (step := (λ earliest stop_str, _)).
  assert (∀ acc, foldl step acc strings = None → acc = None ∧
    ∀ pat, pat ∈ strings → pat ≠ [] → str_find pat text = None) as H.
  { induction strings as [|p strings IH]; intros acc Hf; simpl in Hf.
    { split; [done|]. by intros ? ?%elem_of_nil. }
    apply IH in Hf as [Hs Hrest]. unfold step in Hs. case_bool_decide as Hp.
    - split; [done|]. intros pat [->|Hin]%elem_of_cons; [done|auto].
    - destruct (str_find p text) as [idx|] eqn:Hfind.
      { unfold earlier in Hs. destruct acc as [[? ?]|]; [by case_match|done]. }
      split; [done|]. intros pat [->|Hin]%elem_of_cons; [done|auto]. }
  intros Hnone pat k Hin Hne Hk. destruct (H _ Hnone) as [_ Hall].
  specialize (Hall pat Hin Hne). rewrite str_find_None in Hall. auto.
Qed.

(** ** Detokenizers *)

(** What the trait documents: [append_token] appends text to the output, which
    it does not read, and answers the length of what it appended, which is
    well-formed. *)
Definition appends {D} (c : detok D Z) (d : D) : Prop :=
  ∃ r d' txt, (∀ out, c (d, out) = (r, (d', out ++ txt))) ∧ r ≠ Panic ∧
    from_utf8 txt = true ∧ ∀ k, r = Ok k → k = Z.of_nat (length txt).

Class DetokenizerLaws (D : Type) `{Detokenizer D} : Prop :=
  append_token_law seq_id t (d : D) : appends (append_token seq_id t) d.

Lemma appends_refused {D} (c : detok D Z) d d' e : (∀ out, c (d, out) = (Err e, (d', out))) → appends c d.
Proof.
  intros H. exists (Err e), d', []. split; [|done]. intros out. by rewrite app_nil_r.
Qed.

Lemma appends_silent {D} (c : detok D Z) d d' : (∀ out, c (d, out) = (Ok 0, (d', out))) → appends c d.
Proof.
  intros H. exists (Ok 0), d', []. split; [intros out; by rewrite app_nil_r|].
  split_and!; [done|done|]. by intros k [= <-].
Qed.

Lemma appends_text {D} (c : detok D Z) d d' txt :
  (∀ out, c (d, out) = (Ok (Z.of_nat (length txt)), (d', out ++ txt))) → from_utf8 txt = true → appends c d.
Proof.
  intros H Hv. exists (Ok (Z.of_nat (length txt))), d', txt. split_and!; [done..|].
  by intros k [= <-].
Qed.

Ltac run_detok_code :=
  repeat (erewrite sbind_Ok by reflexivity; cbn [fst]).

Lemma start_byte_appends b d : 0 ≤ b → appends (start_byte b) d.
Proof.
  intros Hb. unfold start_byte. destruct (Z.leb_spec b 127).
  { apply appends_text with d [b]; [done|]. by rewrite from_utf8_ascii by lia. }
  destruct (lead_len b) as [n|]; [|by eapply appends_refused].
  destruct (0 <? length (d_buf d))%nat eqn:Hroom.
  - apply appends_silent with (set_buf (<[0%nat := b]> (d_buf d)) 1 n d).
    intros out. run_detok_code. by rewrite Hroom.
  - eapply appends_refused. intros out. run_detok_code. by rewrite Hroom.
Qed.

Lemma continue_byte_appends b d : appends (continue_byte b) d.
Proof.
  unfold continue_byte. destruct (is_cont b); [|by eapply appends_refused].
  destruct (d_buf_len d <? length (d_buf d))%nat eqn:Hroom.
  2: { eapply appends_refused. intros out. run_detok_code. by rewrite Hroom. }
  set (d2 := set_buf (<[d_buf_len d := b]> (d_buf d)) (S (d_buf_len d)) (d_expected_len d) d).
  destruct (d_buf_len d2 =? d_expected_len d2)%nat eqn:Hfull.
  2: { apply appends_silent with d2. intros out. run_detok_code. rewrite Hroom. run_detok_code.
       fold d2. by rewrite Hfull. }
  set (d3 := set_buf (d_buf d2) 0 0 d2).
  assert ((d_buf_len d2 <=? length (d_buf d3))%nat = true) as Hlen.
  { apply Nat.leb_le. apply Nat.ltb_lt in Hroom. cbn. rewrite length_insert. lia. }
  set (pending := take (d_buf_len d2) (d_buf d3)).
  assert (length pending = d_buf_len d2) as Hpend.
  { unfold pending. apply Nat.leb_le in Hlen. rewrite length_take. lia. }
  destruct (from_utf8 pending) eqn:Hv.
  - apply appends_text with d3 pending; [|done]. intros out. run_detok_code. rewrite Hroom.
    run_detok_code. fold d2. rewrite Hfull. run_detok_code. fold d3. rewrite Hlen. fold pending.
    rewrite Hv. run_detok_code. by rewrite Hpend.
  - apply appends_refused with d3 (detok_error "invalid UTF-8 byte sequence: {e}" pending).
    intros out. run_detok_code. rewrite Hroom. run_detok_code. fold d2. rewrite Hfull.
    run_detok_code. fold d3. rewrite Hlen. fold pending. by rewrite Hv.
Qed.

#[export] Instance byte_detokenizer_laws : DetokenizerLaws ByteDetokenizer.
Proof.
  intros seq_id t d. change (append_token seq_id t) with (byte_append_token seq_id t).
  unfold byte_append_token. destruct (255 <? t); [by eapply appends_refused|].
  set (b := Z.land t 255). assert (0 ≤ b) as Hb by (apply Z.land_nonneg; right; lia).
  set (d1 := activate seq_id d).
  assert (appends (if (d_buf_len d1 =? 0)%nat then start_byte b else continue_byte b) d1)
    as (r & d' & txt & Hrun & Hr).
  { case_match; [by apply start_byte_appends|apply continue_byte_appends]. }
  exists r, d', txt. split; [|done]. intros out. run_detok_code. fold d1. apply Hrun.
Qed.

(** ** The reference sequence *)

Section generation.
Context {D : Type} `{DetokenizerLaws D}.
Implicit Types (s w : Sequence) (d : D).

(** [append_generated_token] with step 6 left open. *)
Definition append_then (step6 : seqm (D:=D) unit) (token : Z) : seqm (option FinishReason * bool) :=
  let! s := get_seq in
  let token_idx := Z.of_nat (length (s_generated s)) in
  let! early := track_token token in
  match early with
  | Some r => sret r
  | None =>
      let! matched := if negb (bool_decide (sc_stop_strings (q_stop (s_req s)) = []))
                      then stop_match token_idx else sret None in
      match matched with
      | Some (reason, trimmed) => sret (Some reason, trimmed)
      | None =>
          let! _ := step6 in
          sret (None, false)
      end
  end.

Lemma append_bounded : append_generated_token (D:=D) = append_then bound_tail.
Proof. reflexivity. Qed.

(** The reference keeps the whole text. *)
Definition append_whole : Z → seqm (D:=D) (option FinishReason * bool) := append_then (sret tt).

(** Appending tokens up to the first finish. *)
Fixpoint generate (app : Z → seqm (D:=D) (option FinishReason * bool)) (tokens : list Z)
    : seqm (option (FinishReason * bool)) :=
  match tokens with
  | [] => sret None
  | t :: tokens =>
      let! r := app t in
      match r with
      | (Some reason, trimmed) => sret (Some (reason, trimmed))
      | (None, _) => generate app tokens
      end
  end.

(** [s] keeps the text of [w] from byte [ts] on; no stop string ends within
    the first [checked] bytes, and no code point before [ts] is as close as a
    stop string to them. *)
Record mirrors (s w : Sequence) (ts checked : nat) : Prop := {
  mi_req : s_req s = s_req w;
  mi_id : s_seq_id s = s_seq_id w;
  mi_generated : s_generated s = s_generated w;
  mi_pending : s_pending_utf8_start s = s_pending_utf8_start w;
  mi_start : s_tail_start_byte s = Z.of_nat ts;
  mi_whole : s_tail_start_byte w = 0;
  mi_tail : s_detokenized_tail s = drop ts (s_detokenized_tail w);
  mi_ts : (ts ≤ length (s_detokenized_tail w))%nat;
  mi_spans : s_token_byte_spans s =
    filter (λ '(_, _, end_), Z.of_nat ts < end_) (s_token_byte_spans w);
  mi_valid : from_utf8 (s_detokenized_tail w) = true;
  mi_usize : Z.of_nat (length (s_detokenized_tail w)) ≤ USIZE_MAX;
  mi_checked : (checked ≤ length (s_detokenized_tail w))%nat;
  mi_no_match pat k : pat ∈ sc_stop_strings (q_stop (s_req w)) → pat ≠ [] →
    occurs pat (s_detokenized_tail w) k → (checked < k + length pat)%nat;
  mi_front k b : (k < ts)%nat → s_detokenized_tail w !! k = Some b → is_cont b = false →
    Z.of_nat k + sc_max_stop_len (q_stop (s_req w)) ≤ Z.of_nat checked
}.

(** The stop strings are strings, and the tail is sized for them. *)
Record stop_ok (sc : StopCriteria) : Prop := {
  so_strings : Forall (λ pat, from_utf8 pat = true) (sc_stop_strings sc);
  so_len : Forall (λ pat, Z.of_nat (length pat) ≤ sc_max_stop_len sc) (sc_stop_strings sc);
  so_sized : sc_max_stop_len sc = 0 ∨ 4 ≤ sc_max_stop_len sc
}.

Lemma occurs_head pat b bs text k : pat = b :: bs → occurs pat text k → text !! k = Some b.
Proof.
  intros -> [rest Hr]. rewrite <- (Nat.add_0_r k), <- lookup_drop, Hr. done.
Qed.

Lemma occurs_app pat text more k :
  occurs pat (text ++ more) k → (k + length pat ≤ length text)%nat → occurs pat text k.
Proof.
  intros [rest Hr] Hlen. rewrite drop_app_le in Hr by lia.
  exists (drop (length pat) (drop k text)).
  rewrite <- (take_drop (length pat) (drop k text)) at 1. f_equal.
  assert (take (length pat) (drop k text ++ more) = take (length pat) (pat ++ rest)) as Ht by by rewrite Hr.
  rewrite take_app_le in Ht by (rewrite length_drop; lia). by rewrite take_app_length in Ht.
Qed.

(** Every match in the text starts in the tail. *)
Lemma mirrors_front s w ts checked :
  mirrors s w ts checked → stop_ok (q_stop (s_req w)) →
  ∀ pat k, pat ∈ sc_stop_strings (q_stop (s_req w)) → pat ≠ [] →
    occurs pat (s_detokenized_tail w) k → (k ≤ length (s_detokenized_tail w))%nat → (ts ≤ k)%nat.
Proof.
  intros M [Hs Hl _] pat k Hin Hne Ho _. destruct (Nat.le_gt_cases ts k) as [|Hlt]; [done|]. exfalso.
  rewrite Forall_forall in Hs, Hl. specialize (Hs pat Hin). specialize (Hl pat Hin).
  pose proof (mi_no_match _ _ _ _ M pat k Hin Hne Ho) as Hpast.
  destruct pat as [|b pat]; [done|].
  pose proof (mi_front _ _ _ _ M k b Hlt (occurs_head _ _ _ _ _ eq_refl Ho) (valid_head _ _ Hs)). lia.
Qed.

Lemma cut_index_filter spans (ts m : Z) dflt :
  ts ≤ m → cut_index (filter (λ '(_, _, end_), ts < end_) spans) m dflt = cut_index spans m dflt.
Proof.
  intros Hle. induction spans as [|[[idx st] end_] spans IH]; [done|].
  rewrite filter_cons. case_decide as Hend; simpl; rewrite IH; [done|].
  by rewrite (proj2 (Z.ltb_ge m end_)) by lia.
Qed.

(** ** Track and match *)

(** The bounded and the whole sequence answer a token alike. *)
Definition same_answer {A} (x y : SchedResult A * (Sequence * D)) (Q : A → Sequence → Sequence → D → Prop) : Prop :=
  x.1 = y.1 ∧ s_generated x.2.1 = s_generated y.2.1 ∧ x.1 ≠ Panic ∧
  ∀ a, x.1 = Ok a → x.2.2 = y.2.2 ∧ Q a x.2.1 y.2.1 x.2.2.

Lemma record_span_mirrors s w ts checked token idx st end_ n :
  mirrors s w ts checked → (n ≠ 0 → Z.of_nat ts < end_) →
  mirrors (record_span idx st end_ n (set_generated (s_generated s ++ [token]) s))
          (record_span idx st end_ n (set_generated (s_generated w ++ [token]) w)) ts checked.
Proof.
  intros [] Hend. unfold record_span. cbn.
  rewrite mi_pending0. destruct (Z.eqb_spec n 0) as [->|Hn].
  - destruct (s_pending_utf8_start w) as [p|] eqn:Hp; constructor; cbn; congruence || done.
  - specialize (Hend Hn). assert (∀ e, filter (λ '(_, _, end_), Z.of_nat ts < end_) (s_token_byte_spans w ++ [(e, end_)]) =
      s_token_byte_spans s ++ [(e, end_)]) as Hf.
    { intros [i x]. rewrite filter_app, mi_spans0. f_equal. rewrite filter_cons.
      by rewrite decide_True by done. }
    destruct (s_pending_utf8_start w) as [[pi pb]|] eqn:Hp; constructor; cbn; try congruence || done;
      by rewrite Hf.
Qed.

(** What step 1 to 4 answer once the token is recorded. *)
Definition early_answer (token : Z) s d' : option (option FinishReason * bool) :=
  if q_max_tokens (s_req s) <=? saturating_add USIZE_MAX (Z.of_nat (length (s_generated s))) 1
  then Some (Some MaxTokens, false)
  else if 0 <? buffered_len d' (s_seq_id s) then Some (None, false)
  else if is_eos (q_stop (s_req s)) token then Some (Some (Eos token), false)
  else None.

Definition text_end s : Z := s_tail_start_byte s + Z.of_nat (length (s_detokenized_tail s)).

Definition recorded (token k : Z) (txt : list Z) s : Sequence :=
  record_span (Z.of_nat (length (s_generated s))) (text_end s) (text_end s + k) k
    (set_generated (s_generated s ++ [token]) (set_tail (s_detokenized_tail s ++ txt) s)).

Lemma record_span_id idx st end_ n s : s_seq_id (record_span idx st end_ n s) = s_seq_id s.
Proof. unfold record_span. by repeat case_match. Qed.

Lemma track_token_eq token s d r d' txt :
  (∀ out, append_token (s_seq_id s) token (d, out) = (r, (d', out ++ txt))) →
  track_token token (s, d) =
    if USIZE_MAX <? text_end s then
      (Err (overflow "tail_bytes" "tail byte offset overflow" []), (s, d))
    else
      let s1 := set_tail (s_detokenized_tail s ++ txt) s in
      match r with
      | Ok k =>
          if USIZE_MAX <? text_end s + k then
            (Err (overflow "tail_bytes" "token end byte overflow" []), (s1, d'))
          else (Ok (early_answer token s d'), (recorded token k txt s, d'))
      | Err e => (Err e, (s1, d'))
      | Panic => (Panic, (s1, d'))
      end.
Proof.
  intros Happ. unfold track_token. erewrite sbind_Ok by reflexivity. unfold checked_add.
  fold (text_end s). destruct (Z.ltb_spec USIZE_MAX (text_end s)).
  { by rewrite (proj2 (Z.leb_gt _ _)) by lia. }
  rewrite (proj2 (Z.leb_le _ _)) by lia. erewrite sbind_Ok by reflexivity.
  unfold sbind at 1, run_detok. rewrite Happ. destruct r as [k|e|]; [|done|done].
  destruct (Z.ltb_spec USIZE_MAX (text_end s + k)).
  { by rewrite (proj2 (Z.leb_gt _ _)) by lia. }
  rewrite (proj2 (Z.leb_le _ _)) by lia. do 3 (erewrite sbind_Ok by reflexivity).
  unfold early_answer. destruct (_ <=? saturating_add _ _ _); [done|].
  erewrite sbind_Ok by reflexivity. rewrite record_span_id.
  change (s_seq_id (set_generated _ _)) with (s_seq_id s).
  destruct (0 <? _); [done|]. by destruct (is_eos _ _).
Qed.

Lemma set_tail_mirrors s w ts checked txt :
  mirrors s w ts checked → from_utf8 txt = true →
  Z.of_nat (length (s_detokenized_tail w)) + Z.of_nat (length txt) ≤ USIZE_MAX →
  mirrors (set_tail (s_detokenized_tail s ++ txt) s) (set_tail (s_detokenized_tail w ++ txt) w) ts checked.
Proof.
  intros [] Hv Hmax. constructor; cbn; rewrite ?length_app; try done; try lia.
  - rewrite mi_tail0. by rewrite drop_app_le by lia.
  - by apply valid_app.
  - intros pat k Hin Hne Ho. destruct (Nat.le_gt_cases (k + length pat) checked) as [Hle|]; [|done].
    apply (mi_no_match0 pat k Hin Hne). eapply occurs_app; [done|lia].
  - intros k b Hk. rewrite lookup_app_l by lia. by apply mi_front0.
Qed.

Lemma mirrors_text_end s w ts checked : mirrors s w ts checked → text_end s = text_end w.
Proof.
  intros []. unfold text_end. rewrite mi_start0, mi_whole0, mi_tail0, length_drop. lia.
Qed.

Lemma track_token_same token s w d ts checked :
  mirrors s w ts checked →
  same_answer (track_token token (s, d)) (track_token token (w, d))
    (λ _ s' w' _, mirrors s' w' ts checked ∧ length (s_generated w') = S (length (s_generated w)) ∧
       s_req w' = s_req w).
Proof.
  intros M. destruct (append_token_law (s_seq_id w) token d) as (r & d' & txt & Happ & Hnp & Hv & Hk).
  rewrite (track_token_eq token s d r d' txt) by (by rewrite (mi_id _ _ _ _ M)).
  rewrite (track_token_eq token w d r d' txt) by done. rewrite (mirrors_text_end s w ts checked M).
  assert (s_generated s = s_generated w) as Hgen by apply M.
  destruct (Z.ltb_spec USIZE_MAX (text_end w)); [by split_and!|]. cbn zeta.
  destruct r as [k|e|]; [|by split_and!|done]. rewrite (Hk k eq_refl).
  destruct (Z.ltb_spec USIZE_MAX (text_end w + Z.of_nat (length txt))); [by split_and!|].
  assert (text_end w = Z.of_nat (length (s_detokenized_tail w))) as Hend
    by (unfold text_end; rewrite (mi_whole _ _ _ _ M); lia).
  assert (mirrors (recorded token (Z.of_nat (length txt)) txt s)
                  (recorded token (Z.of_nat (length txt)) txt w) ts checked) as M'.
  { unfold recorded. rewrite (mirrors_text_end s w ts checked M), Hgen.
    pose proof (record_span_mirrors _ _ ts checked token (Z.of_nat (length (s_generated w))) (text_end w)
      (text_end w + Z.of_nat (length txt)) (Z.of_nat (length txt))
      (set_tail_mirrors s w ts checked txt M Hv ltac:(lia))) as Hrec.
    cbn in Hrec. rewrite Hgen in Hrec. apply Hrec. pose proof (mi_ts _ _ _ _ M). lia. }
  assert (early_answer token s d' = early_answer token w d') as Hearly.
  { unfold early_answer. by rewrite (mi_req _ _ _ _ M), (mi_id _ _ _ _ M), Hgen. }
  unfold same_answer. cbn [fst snd]. rewrite Hearly. split_and!; [done|apply M'|done|].
  intros a _. split; [done|]. split_and!; [done| |].
  - unfold recorded, record_span. repeat case_match; cbn; rewrite length_app; simpl; lia.
  - unfold recorded, record_span. by repeat case_match.
Qed.

Lemma mirrors_checked s w ts checked :
  mirrors s w ts checked →
  (∀ pat k, pat ∈ sc_stop_strings (q_stop (s_req w)) → pat ≠ [] →
    (k ≤ length (s_detokenized_tail w))%nat → ¬ occurs pat (s_detokenized_tail w) k) →
  mirrors s w ts (length (s_detokenized_tail w)).
Proof.
  intros [] Hno. constructor; try done.
  - intros pat k Hin Hne Ho. destruct (Nat.le_gt_cases k (length (s_detokenized_tail w))) as [Hle|]; [|lia].
    by destruct (Hno pat k Hin Hne Hle).
  - intros k b Hk Hb Hs. specialize (mi_front0 k b Hk Hb Hs). lia.
Qed.

Lemma stop_match_same idx s w d ts checked :
  mirrors s w ts checked → stop_ok (q_stop (s_req w)) →
  same_answer (stop_match idx (s, d)) (stop_match idx (w, d))
    (λ a s' w' _, a = None → s' = s ∧ w' = w ∧ mirrors s w ts (length (s_detokenized_tail w))).
Proof.
  intros M Hok. pose proof (mi_ts _ _ _ _ M) as Hts. pose proof (mi_usize _ _ _ _ M) as Hu.
  pose proof (mi_generated _ _ _ _ M) as Hgen.
  destruct (check_stop_drop (q_stop (s_req w)) (s_detokenized_tail w) ts Hts
    (mirrors_front s w ts checked M Hok)) as [Hcheck Hge].
  unfold stop_match. erewrite !sbind_Ok by reflexivity.
  rewrite (mi_req _ _ _ _ M), (mi_tail _ _ _ _ M), Hcheck.
  destruct (check_stop_string (q_stop (s_req w)) (s_detokenized_tail w)) as [[k pat]|] eqn:Hc; simpl.
  - specialize (Hge k pat eq_refl). rewrite (mi_start _ _ _ _ M), (mi_whole _ _ _ _ M).
    replace (Z.of_nat ts + Z.of_nat (k - ts)) with (0 + Z.of_nat k) by lia.
    unfold checked_add. replace (Z.of_nat ts + Z.of_nat (k - ts) <=? USIZE_MAX) with (0 + Z.of_nat k <=? USIZE_MAX)
      by (f_equal; lia).
    replace (Z.of_nat ts + Z.of_nat (k - ts)) with (0 + Z.of_nat k) by lia.
    destruct (0 + Z.of_nat k <=? USIZE_MAX); [|by split_and!].
    erewrite !sbind_Ok by reflexivity. rewrite (mi_spans _ _ _ _ M), cut_index_filter by lia.
    unfold same_answer. simpl. rewrite Hgen. split_and!; [done..|]. intros a [= <-]. done.
  - unfold same_answer. simpl. split_and!; [done..|]. intros a [= <-]. split; [done|]. intros _.
    split_and!; [done..|]. apply (mirrors_checked s w ts checked M). by apply check_stop_None.
Qed.

(** ** The bounded tail *)

Lemma char_start_spec excess i bytes :
  match char_start_from excess i bytes with
  | Some j => (i ≤ j)%nat ∧ (excess ≤ j)%nat ∧ (∃ b, bytes !! (j - i)%nat = Some b ∧ is_cont b = false) ∧
      ∀ k b, (i ≤ k < j)%nat → bytes !! (k - i)%nat = Some b → is_cont b = false → (k < excess)%nat
  | None => ∀ k b, (i ≤ k)%nat → bytes !! (k - i)%nat = Some b → is_cont b = false → (k < excess)%nat
  end.
Proof.
  revert i. induction bytes as [|x bytes IH]; intros i; simpl; [done|].
  assert (∀ k b, (i ≤ k)%nat → (x :: bytes) !! (k - i)%nat = Some b →
    (k = i ∧ b = x) ∨ (S i ≤ k)%nat ∧ bytes !! (k - S i)%nat = Some b) as Hcase.
  { intros k b Hk. destruct (decide (k = i)) as [->|Hne].
    - rewrite Nat.sub_diag. intros [= ->]. by left.
    - replace (k - i)%nat with (S (k - S i)) by lia. right. split; [lia|done]. }
  destruct (is_cont x) eqn:Hx, (Nat.leb_spec excess i) as [Hle|Hgt]; simpl.
  2, 4: specialize (IH (S i)).
  1: specialize (IH (S i)).
  4: { split_and!; [lia|done|exists x; by rewrite Nat.sub_diag|lia]. }
  all: destruct (char_start_from excess (S i) bytes) as [j|].
  1, 3, 5: destruct IH as (H1 & H2 & (b & Hb & Hs) & Hmin); split_and!; [lia|done| |].
  1, 3, 5: exists b; split; [by replace (j - i)%nat with (S (j - S i)) by lia|done].
  all: intros k b0 Hk Hb0 Hs0; destruct (Hcase k b0) as [[-> ->]|[? ?]]; [lia|done|..]; try congruence; try lia.
  all: eapply IH || eapply Hmin; try done; lia.
Qed.

Lemma filter_spans_filter (a b : Z) (l : list (Z * Z * Z)) :
  a ≤ b →
  filter (λ '(_, _, end_), b < end_) (filter (λ '(_, _, end_), a < end_) l) =
  filter (λ '(_, _, end_), b < end_) l.
Proof.
  intros Hab. induction l as [|[[i st] e] l IH]; [done|].
  rewrite (filter_cons _ (i, st, e) l). case_decide as Ha.
  - rewrite !filter_cons, IH. done.
  - rewrite filter_cons, decide_False by lia. done.
Qed.

(** Cutting the front at a code point keeps the mirror. *)
Lemma mirrors_trim s w ts j rest :
  mirrors s w ts (length (s_detokenized_tail w)) →
  rest = drop j (s_detokenized_tail s) → (j ≤ length (s_detokenized_tail s))%nat →
  (∀ k b, (k < j)%nat → s_detokenized_tail s !! k = Some b → is_cont b = false →
    Z.of_nat k + sc_max_stop_len (q_stop (s_req w)) ≤ Z.of_nat (length (s_detokenized_tail s))) →
  let s1 := set_tail_start (Z.of_nat ts + Z.of_nat j) (set_tail rest s) in
  mirrors (set_spans (filter (λ '(_, _, end_), s_tail_start_byte s1 < end_) (s_token_byte_spans s1))
             (s_pending_utf8_start s1) s1) w (ts + j) (length (s_detokenized_tail w)).
Proof.
  intros [] -> Hj Hfront s1. rewrite mi_tail0, length_drop in Hj, Hfront.
  constructor; cbn; try done; try lia.
  - by rewrite mi_tail0, drop_drop.
  - rewrite mi_spans0, filter_spans_filter by lia. by rewrite Nat2Z.inj_add.
  - intros k b Hk Hb Hs. destruct (Nat.lt_ge_cases k ts) as [Hlt|Hge]; [by apply (mi_front0 k b)|].
    specialize (Hfront (k - ts)%nat b). rewrite lookup_drop in Hfront.
    replace (ts + (k - ts))%nat with k in Hfront by lia. specialize (Hfront ltac:(lia) Hb Hs). lia.
Qed.

(** Step 6 on a mirrored sequence: it succeeds and the mirror holds on. *)
Lemma bound_tail_keeps s w d ts :
  mirrors s w ts (length (s_detokenized_tail w)) → stop_ok (q_stop (s_req w)) →
  ∃ s' ts', bound_tail (s, d) = (Ok tt, (s', d)) ∧
    mirrors s' w ts' (length (s_detokenized_tail w)).
Proof.
  intros M Hok. pose proof (mi_ts _ _ _ _ M) as Hts. pose proof (mi_usize _ _ _ _ M) as Hu.
  assert (length (s_detokenized_tail s) = (length (s_detokenized_tail w) - ts)%nat) as Hlen
    by (rewrite (mi_tail _ _ _ _ M); apply length_drop).
  unfold bound_tail. erewrite sbind_Ok by reflexivity. rewrite (mi_req _ _ _ _ M).
  set (mx := sc_max_stop_len (q_stop (s_req w))).
  destruct (Z.ltb_spec 0 mx) as [Hmx|]; [|by exists s, ts].
  destruct (Z.ltb_spec (max_keep mx) (Z.of_nat (length (s_detokenized_tail s)))) as [Hbig|]; [|by exists s, ts].
  assert (128 < Z.of_nat (length (s_detokenized_tail s))) as H128 by (unfold max_keep in Hbig; lia).
  assert (4 ≤ mx) as Hmx4 by (destruct (so_sized _ Hok); unfold mx in *; lia).
  set (excess := Z.to_nat (saturating_sub _ mx)).
  assert (Z.of_nat excess = Z.max 0 (Z.of_nat (length (s_detokenized_tail s)) - mx)) as Hexc.
  { unfold excess, saturating_sub. destruct (Z.leb_spec mx (Z.of_nat (length (s_detokenized_tail s)))); lia. }
  pose proof (char_start_spec excess 0 (s_detokenized_tail s)) as Hstart.
  destruct (char_start_from excess 0 (s_detokenized_tail s)) as [j|]; simpl.
  2: { exfalso. destruct (valid_start_near _ (s_detokenized_tail w) (ts + excess) (le_n _) (mi_valid _ _ _ _ M))
         as (j & b & Hj & Hb & Hs); [lia|].
       specialize (Hstart (j - ts)%nat b ltac:(lia)). rewrite Nat.sub_0_r, (mi_tail _ _ _ _ M), lookup_drop in Hstart.
       replace (ts + (j - ts))%nat with j in Hstart by lia. specialize (Hstart Hb Hs). lia. }
  destruct Hstart as (_ & Hej & (b & Hb & Hs) & Hmin). rewrite Nat.sub_0_r in Hb.
  pose proof (lookup_lt_Some _ _ _ Hb) as Hj.
  destruct (Nat.ltb_spec 0 j) as [Hj0|Hj0]; [|by exists s, ts].
  rewrite (proj2 (Nat.leb_le _ _)) by lia. simpl.
  unfold drain_front, is_char_boundary. rewrite Hb, Hs. simpl.
  erewrite sbind_Ok by reflexivity. erewrite sbind_Ok by reflexivity.
  rewrite (mi_start _ _ _ _ M), checked_add_ok by lia.
  erewrite sbind_Ok by reflexivity. erewrite sbind_Ok by reflexivity.
  eexists _, (ts + j)%nat. split; [reflexivity|].
  apply (mirrors_trim s w ts j _ M eq_refl); [lia|].
  intros k b0 Hk Hb0 Hs0. specialize (Hmin k b0 ltac:(lia)). rewrite Nat.sub_0_r in Hmin.
  specialize (Hmin Hb0 Hs0). fold mx. lia.
Qed.

(** ** Generation *)

(** Steps 5 and 6 after a token is recorded. *)
Definition after_track (step6 : seqm (D:=D) unit) (strings : list (list Z)) (token_idx : Z)
    : seqm (option FinishReason * bool) :=
  let! matched := if negb (bool_decide (strings = [])) then stop_match token_idx else sret None in
  match matched with
  | Some (reason, trimmed) => sret (Some reason, trimmed)
  | None =>
      let! _ := step6 in
      sret (None, false)
  end.

Lemma after_track_same idx s w d ts checked :
  mirrors s w ts checked → stop_ok (q_stop (s_req w)) →
  same_answer (after_track bound_tail (sc_stop_strings (q_stop (s_req w))) idx (s, d))
    (after_track (sret tt) (sc_stop_strings (q_stop (s_req w))) idx (w, d))
    (λ a s' w' _, a.1 = None → s_req w' = s_req w ∧ ∃ ts' checked', mirrors s' w' ts' checked').
Proof.
  intros M Hok. unfold after_track.
  assert (∀ d, mirrors s w ts (length (s_detokenized_tail w)) →
    same_answer ((let! _ := bound_tail in sret (None (A:=FinishReason), false)) (s, d))
      ((let! _ := sret tt in sret (None, false)) (w, d))
      (λ a s' w' _, a.1 = None → s_req w' = s_req w ∧ ∃ ts' checked', mirrors s' w' ts' checked')) as Hbound.
  { clear d. intros d M'. destruct (bound_tail_keeps s w d ts M' Hok) as (s' & ts' & Hb & M'').
    rewrite (sbind_Ok _ _ _ _ _ Hb). unfold same_answer. simpl.
    split_and!; [done|apply M''|done|]. intros a [= <-]. eauto. }
  case_bool_decide as Hnil; cbn [negb].
  { erewrite !sbind_Ok by reflexivity. apply Hbound. apply (mirrors_checked s w ts checked M).
    rewrite Hnil. by intros pat k ?%elem_of_nil. }
  pose proof (stop_match_same idx s w d ts checked M Hok) as (H1 & H2 & H3 & H4). unfold sbind at 1 3.
  destruct (stop_match idx (s, d)) as [r1 [s1 d1]], (stop_match idx (w, d)) as [r2 [w1 d2]].
  cbn [fst snd] in *. subst r2. destruct r1 as [[[reason trimmed]|]|e|]; [| |by split_and!|done].
  - destruct (H4 _ eq_refl) as [<- _]. unfold same_answer. simpl. split_and!; [done..|]. by intros a [= <-].
  - destruct (H4 _ eq_refl) as [<- (-> & -> & M1)]; [done|]. by apply Hbound.
Qed.

Lemma append_same token s w d ts checked :
  mirrors s w ts checked → stop_ok (q_stop (s_req w)) →
  same_answer (append_generated_token token (s, d)) (append_whole token (w, d))
    (λ a s' w' _, a.1 = None → s_req w' = s_req w ∧ ∃ ts' checked', mirrors s' w' ts' checked').
Proof.
  intros M Hok. rewrite append_bounded. unfold append_whole, append_then.
  rewrite (sbind_Ok get_seq _ (s, d) s (s, d)), (sbind_Ok get_seq _ (w, d) w (w, d)) by done.
  rewrite (mi_generated _ _ _ _ M), (mi_req _ _ _ _ M).
  pose proof (track_token_same token s w d ts checked M) as (H1 & H2 & H3 & H4). unfold sbind at 1 4.
  destruct (track_token token (s, d)) as [r1 [s1 d1]], (track_token token (w, d)) as [r2 [w1 d2]].
  cbn [fst snd] in *. subst r2. destruct r1 as [[early|]|e|]; [| |by split_and!|done].
  - destruct (H4 _ eq_refl) as [<- (M1 & _ & Hreq)]. unfold same_answer. simpl. split_and!; [done..|].
    intros a [= <-]. eauto.
  - destruct (H4 _ eq_refl) as [<- (M1 & _ & Hreq)]. rewrite <- Hreq in Hok |- *.
    apply (after_track_same _ s1 w1 d1 ts checked M1 Hok).
Qed.

Lemma generate_same tokens s w d ts checked :
  mirrors s w ts checked → stop_ok (q_stop (s_req w)) →
  (generate append_generated_token tokens (s, d)).1 = (generate append_whole tokens (w, d)).1 ∧
  s_generated (generate append_generated_token tokens (s, d)).2.1 =
    s_generated (generate append_whole tokens (w, d)).2.1 ∧
  (generate append_generated_token tokens (s, d)).1 ≠ Panic.
Proof.
  revert s w d ts checked. induction tokens as [|t tokens IH]; intros s w d ts checked M Hok; simpl.
  { split_and!; [done|apply M|done]. }
  pose proof (append_same t s w d ts checked M Hok) as (H1 & H2 & H3 & H4). unfold sbind.
  destruct (append_generated_token t (s, d)) as [r1 [s1 d1]], (append_whole t (w, d)) as [r2 [w1 d2]].
  cbn [fst snd] in *. subst r2. destruct r1 as [[[reason|] trimmed]|e|]; [by split_and!| |by split_and!|done].
  destruct (H4 _ eq_refl) as [<- Hnone]. destruct (Hnone eq_refl) as (Hreq & ts' & checked' & M').
  apply (IH s1 w1 d1 ts' checked' M'). by rewrite Hreq.
Qed.

Lemma mirrors_new req seq_id arrival : mirrors (sequence_new req seq_id arrival) (sequence_new req seq_id arrival) 0 0.
Proof.
  constructor; simpl; try done || lia.
  intros pat k _ Hne _. destruct pat; [done|]. simpl. lia.
Qed.
End generation.

(** C40: keeping only a bounded tail of the text loses nothing: whatever tokens
    the device samples, a sequence gives the same answer to each, finishes at
    the same token for the same reason, keeps the same tokens after a stop
    match and refuses alike as a sequence that keeps the whole text and
    searches all of it; and it never panics.  This needs the bound to be at
    least a code point: with a shorter one see [append_panics]. *)
Theorem bounded_tail_exact {D} `{DetokenizerLaws D} req seq_id arrival tokens (d : D) :
  stop_ok (q_stop req) →
  let s := sequence_new req seq_id arrival in
  (generate append_generated_token tokens (s, d)).1 = (generate append_whole tokens (s, d)).1 ∧
  s_generated (generate append_generated_token tokens (s, d)).2.1 =
    s_generated (generate append_whole tokens (s, d)).2.1 ∧
  (generate append_generated_token tokens (s, d)).1 ≠ Panic.
Proof. intros Hok s. apply (generate_same tokens s s d 0 0); [apply mirrors_new|done]. Qed.

(** A greedy request with one stop string, for the concrete runs. *)
Definition greedy_sampling : SamplingParams :=
  {| sp_temperature := f32_zero; sp_top_k := 0; sp_top_p := f32_one; sp_min_p := f32_zero;
     sp_repetition_penalty := f32_one; sp_presence_penalty := f32_zero;
     sp_frequency_penalty := f32_zero; sp_logit_bias := [] |}.

Definition stop_request (stop_string : list Z) : Request :=
  {| q_id := 1; q_tokens := [72; 105]; q_sampling := greedy_sampling; q_max_tokens := 1000;
     q_stop := stop_new [] [stop_string]; q_stream := false; q_seed := 1 |}.

(** "STOP" after two bytes. *)
Lemma bounded_tail_exact_witness :
  stop_ok (q_stop (stop_request [83; 84; 79; 80])) ∧
  let s := sequence_new (stop_request [83; 84; 79; 80]) 0 1 in
  let tokens := [97; 98; 83; 84; 79; 80; 97] in
  (generate append_generated_token tokens (s, byte_detokenizer_new)).1 =
    (generate append_whole tokens (s, byte_detokenizer_new)).1 ∧
  (generate append_generated_token tokens (s, byte_detokenizer_new)).1 ≠ Panic.
Proof.
  assert (stop_ok (q_stop (stop_request [83; 84; 79; 80]))) as Hok.
  { constructor; [repeat constructor|repeat constructor; simpl; lia|right; simpl; lia]. }
  split; [done|]. intros s tokens.
  destruct (bounded_tail_exact (stop_request [83; 84; 79; 80]) 0 1 tokens byte_detokenizer_new Hok)
    as (H1 & _ & H2). by split.
Defined.

(** The tail is past its bound and its last [max_stop_len] bytes are all inside
    one code point. *)
Definition splits_code_point (max_stop_len : Z) (tail : list Z) : Prop :=
  0 < max_stop_len ∧ max_keep max_stop_len < Z.of_nat (length tail) ∧
  max_stop_len < Z.of_nat (length tail) ∧
  ∀ j b, Z.of_nat (length tail) - max_stop_len ≤ Z.of_nat j → tail !! j = Some b → is_cont b = true.

Lemma bound_tail_panics {D} `{Detokenizer D} s (d : D) :
  (bound_tail (s, d)).1 = Panic ↔
  splits_code_point (sc_max_stop_len (q_stop (s_req s))) (s_detokenized_tail s).
Proof.
  unfold bound_tail, splits_code_point. erewrite sbind_Ok by reflexivity.
  set (mx := sc_max_stop_len (q_stop (s_req s))). set (tail := s_detokenized_tail s).
  destruct (Z.ltb_spec 0 mx); [|simpl; split; [done|lia]].
  destruct (Z.ltb_spec (max_keep mx) (Z.of_nat (length tail))); [|simpl; split; [done|lia]].
  set (excess := Z.to_nat (saturating_sub _ mx)).
  assert (Z.of_nat excess = Z.max 0 (Z.of_nat (length tail) - mx)) as Hexc.
  { unfold excess, saturating_sub. destruct (Z.leb_spec mx (Z.of_nat (length tail))); lia. }
  pose proof (char_start_spec excess 0 tail) as Hstart.
  destruct (char_start_from excess 0 tail) as [j|]; simpl.
  - destruct Hstart as (_ & Hej & (b & Hb & Hs) & _). rewrite Nat.sub_0_r in Hb.
    split.
    + intros Hp. exfalso. revert Hp. destruct (_ && _); [|done].
      unfold drain_front, is_char_boundary. rewrite Hb, Hs. simpl.
      erewrite sbind_Ok by reflexivity. erewrite sbind_Ok by reflexivity.
      unfold sbind, slift. by destruct (checked_add _ _ _).
    + intros (_ & _ & _ & Hall). rewrite (Hall j b) in Hs; [done|lia|done].
  - assert (∀ j b, (excess ≤ j)%nat → tail !! j = Some b → is_cont b = true) as Hall.
    { intros j b Hj Hb. destruct (is_cont b) eqn:Hs; [done|].
      specialize (Hstart j b ltac:(lia)). rewrite Nat.sub_0_r in Hstart. specialize (Hstart Hb Hs). lia. }
    destruct (Nat.ltb_spec 0 excess) as [Hpos|Hzero]; simpl.
    + rewrite (proj2 (Nat.leb_le _ _)) by lia. split.
      * intros _. split_and!; [done|done|lia|]. intros j b Hj. apply Hall. lia.
      * intros _. unfold drain_front, is_char_boundary.
        destruct (lookup_lt_is_Some_2 tail excess) as [b Hb]; [lia|].
        by rewrite Hb, (Hall excess b) by done.
    + split; [done|lia].
Qed.

Lemma step6_panics {D} `{Detokenizer D} s (d : D) :
  ((let! _ := bound_tail in sret (None (A:=FinishReason), false)) (s, d)).1 = Panic ↔
  splits_code_point (sc_max_stop_len (q_stop (s_req s))) (s_detokenized_tail s).
Proof. rewrite <- (bound_tail_panics s d). unfold sbind. by destruct (bound_tail (s, d)) as [[[]|e|] ?]. Qed.

Lemma stop_match_result {D} `{Detokenizer D} idx s (d : D) :
  match check_stop_string (q_stop (s_req s)) (s_detokenized_tail s) with
  | None => stop_match idx (s, d) = (Ok None, (s, d))
  | Some _ => (stop_match idx (s, d)).1 ≠ Panic ∧ (stop_match idx (s, d)).1 ≠ Ok None
  end.
Proof.
  unfold stop_match. rewrite (sbind_Ok get_seq _ (s, d) s (s, d)) by done.
  destruct (check_stop_string _ _) as [[k pat]|]; [|done].
  unfold sbind, slift. by destruct (checked_add _ _ _).
Qed.

Lemma after_track_panics {D} `{DetokenizerLaws D} strings idx s (d : D) :
  (after_track bound_tail strings idx (s, d)).1 = Panic ↔
  (strings ≠ [] → check_stop_string (q_stop (s_req s)) (s_detokenized_tail s) = None) ∧
  splits_code_point (sc_max_stop_len (q_stop (s_req s))) (s_detokenized_tail s).
Proof.
  unfold after_track. case_bool_decide as Hnil; cbn [negb].
  - rewrite (sbind_Ok _ _ _ None (s, d)) by done. rewrite step6_panics. naive_solver.
  - pose proof (stop_match_result idx s d) as Hm.
    destruct (check_stop_string _ _) as [m|] eqn:Hc.
    + destruct Hm as [Hm1 Hm2]. split; [|naive_solver]. unfold sbind at 1.
      by destruct (stop_match idx (s, d)) as [[[[]|]|e|] ?].
    + rewrite (sbind_Ok _ _ _ _ _ Hm), step6_panics. naive_solver.
Qed.

(** Appending a token panics exactly when no finish applies, no stop string
    matches, and the tail, grown past its bound, ends with [max_stop_len]
    bytes of one unbroken code point: the cut then falls inside that code
    point.  It happens for stop strings of one to three bytes. *)
Theorem append_panics_exactly {D} `{DetokenizerLaws D} token s (d : D) :
  (append_generated_token token (s, d)).1 = Panic ↔
  ∃ s1 d1, track_token token (s, d) = (Ok None, (s1, d1)) ∧
    (sc_stop_strings (q_stop (s_req s)) ≠ [] →
      check_stop_string (q_stop (s_req s1)) (s_detokenized_tail s1) = None) ∧
    splits_code_point (sc_max_stop_len (q_stop (s_req s1))) (s_detokenized_tail s1).
Proof.
  rewrite append_bounded. unfold append_then. rewrite (sbind_Ok get_seq _ (s, d) s (s, d)) by done.
  assert ((track_token token (s, d)).1 ≠ Panic) as Htrack.
  { destruct (append_token_law (s_seq_id s) token d) as (r & d' & txt & Happ & Hnp & _).
    rewrite (track_token_eq token s d r d' txt Happ). by repeat case_match. }
  unfold sbind at 1. destruct (track_token token (s, d)) as [[[early|]|e|] [s1 d1]]; [| | |done].
  1, 3: split; [done|by intros (? & ? & [=] & _)].
  rewrite (after_track_panics (sc_stop_strings (q_stop (s_req s))) (Z.of_nat (length (s_generated s))) s1 d1).
  split; [eauto|]. by intros (? & ? & [= <- <-] & ?).
Qed.

(** A stop string of one byte and an accented letter after 127 characters. *)
Lemma append_panics_exactly_witness :
  let s := set_tail (replicate 127 97) (sequence_new (stop_request [10]) 0 1) in
  let c := (append_generated_token 195 (s, byte_detokenizer_new)).2 in
  (append_generated_token 169 c).1 = Panic ∧
  ∃ s1 d1, track_token 169 c = (Ok None, (s1, d1)) ∧
    splits_code_point (sc_max_stop_len (q_stop (s_req s1))) (s_detokenized_tail s1).
Proof.
  intros s c. assert ((append_generated_token 169 c).1 = Panic) as Hp by (by vm_compute).
  split; [done|]. clearbody c. destruct c as [s0 d0].
  apply append_panics_exactly in Hp as (s1 & d1 & Ht & _ & Hs). by exists s1, d1.
Defined.
