(* ===== verification/Append.v ===== *)
(** * What one append does to a sequence

    The facts of [append_generated_token] the scheduler needs: which fields it
    moves, that a refusal leaves the generated tokens and only adds text, and
    that it does not panic on a tail in which code points start often enough. *)

From S2P Require Import Prelude Bytes Errors SchedError Detok Sequence Generation.

#[global] Open Scope Z_scope.

(** Among any four consecutive bytes one starts a code point. *)
Definition well_spaced (txt : list Z) : Prop :=
  ∀ i, (i + 4 ≤ length txt)%nat → ∃ j b, (i ≤ j < i + 4)%nat ∧ txt !! j = Some b ∧ is_cont b = false.

Lemma well_spaced_nil : well_spaced [].
Proof. intros i Hi. simpl in Hi. lia. Qed.

Lemma well_spaced_app a b : well_spaced a → from_utf8 b = true → well_spaced (a ++ b).
Proof.
  intros Ha Hb i Hi. rewrite length_app in Hi.
  destruct (Nat.le_gt_cases (i + 4) (length a)) as [Hin|Hout].
  { destruct (Ha i Hin) as (j & x & Hj & Hx & Hs). exists j, x. split_and!; [lia|lia| |done].
    by apply lookup_app_l_Some. }
  destruct (Nat.le_gt_cases (length a) i) as [Hafter|Hacross].
  - destruct (valid_start_near _ b (i - length a) (le_n _) Hb) as (j & x & Hj & Hx & Hs); [lia|].
    exists (length a + j)%nat, x. split_and!; [lia|lia| |done].
    rewrite lookup_app_r by lia. by replace (length a + j - length a)%nat with j by lia.
  - destruct b as [|x b]; [simpl in Hi; lia|]. exists (length a), x.
    split_and!; [lia|lia| |by eapply valid_head]. by rewrite lookup_app_r, Nat.sub_diag by lia.
Qed.

Lemma well_spaced_drop n txt : well_spaced txt → well_spaced (drop n txt).
Proof.
  intros Ht i Hi. rewrite length_drop in Hi. destruct (Ht (n + i)%nat) as (j & x & Hj & Hx & Hs); [lia|].
  exists (j - n)%nat, x. split_and!; [lia|lia| |done]. rewrite lookup_drop.
  by replace (n + (j - n))%nat with j by lia.
Qed.

(** The tail is sized for whole code points, or not bounded at all. *)
Definition stop_sized (sc : StopCriteria) : Prop := sc_max_stop_len sc = 0 ∨ 4 ≤ sc_max_stop_len sc.

(** Only the fields of [Tracking] differ. *)
Definition same_record (s s' : Sequence) : Prop := s' = set_tracking (tracking s') s.

Lemma same_record_refl s : same_record s s.
Proof. by destruct s. Qed.

Lemma same_record_trans s1 s2 s3 : same_record s1 s2 → same_record s2 s3 → same_record s1 s3.
Proof. unfold same_record. intros -> ->. reflexivity. Qed.

Lemma same_record_set k s : same_record s (set_tracking k s).
Proof. by destruct k. Qed.

Lemma record_span_record idx st end_ n s : same_record s (record_span idx st end_ n s).
Proof. unfold record_span. repeat case_match; apply same_record_set || apply same_record_refl. Qed.

(** The tail only grew, or was cut and starts later. *)
Definition tail_grew (s s' : Sequence) : Prop :=
  (s_tail_start_byte s' = s_tail_start_byte s ∧
   ∃ txt, from_utf8 txt = true ∧ s_detokenized_tail s' = s_detokenized_tail s ++ txt) ∨
  s_tail_start_byte s < s_tail_start_byte s'.

(** A stop match lies inside the text. *)
Lemma check_stop_bound sc text k pat : check_stop_string sc text = Some (k, pat) → (k ≤ length text)%nat.
Proof.
  unfold check_stop_string. set (step := (λ earliest stop_str, _)).
  assert (∀ strings acc, (∀ k pat, acc = Some (k, pat) → (k ≤ length text)%nat) →
    ∀ k pat, foldl step acc strings = Some (k, pat) → (k ≤ length text)%nat) as H; [|by apply H].
  induction strings as [|p strings IH]; intros acc Hacc; [done|]. cbn [foldl]. apply IH.
  unfold step. case_bool_decide; [done|]. destruct (str_find p text) as [idx|] eqn:Hf; [|done].
  apply str_find_Some in Hf as (_ & Hle & _).
  destruct acc as [[k0 s0]|]; simpl; [|by intros ? ? [= <- <-]].
  case_match; [by intros ? ? [= <- <-]|done].
Qed.

Section append.
Context {D : Type} `{DetokenizerLaws D}.
Implicit Types (s : Sequence) (d : D).

Lemma bound_tail_cases s d :
  stop_sized (q_stop (s_req s)) → well_spaced (s_detokenized_tail s) → text_end s ≤ USIZE_MAX →
  ∃ s', bound_tail (s, d) = (Ok tt, (s', d)) ∧ same_record s s' ∧ s_generated s' = s_generated s ∧
    well_spaced (s_detokenized_tail s') ∧
    (s' = s ∨ s_tail_start_byte s < s_tail_start_byte s').
Proof.
  intros Hsized Hws Hend. pose proof (bound_tail_panics s d) as Hp.
  assert ((bound_tail (s, d)).1 ≠ Panic) as Hnp.
  { rewrite Hp. intros (Hpos & Hbig & _ & Hall). unfold max_keep in Hbig.
    destruct (Hws (length (s_detokenized_tail s) - 4)%nat) as (j & b & Hj & Hb & Hs); [lia|].
    rewrite (Hall j b) in Hs; [done|destruct Hsized; lia|done]. }
  clear Hp. revert Hnp. unfold bound_tail. erewrite sbind_Ok by reflexivity.
  assert (∃ s', (Ok tt, (s, d)) = (Ok (E:=SchedError) tt, (s', d)) ∧ same_record s s' ∧
    s_generated s' = s_generated s ∧ well_spaced (s_detokenized_tail s') ∧
    (s' = s ∨ s_tail_start_byte s < s_tail_start_byte s')) as Hsame.
  { exists s. split_and!; [done|apply same_record_refl|done|done|by left]. }
  destruct (0 <? _); [|done]. destruct (_ <? Z.of_nat _); [|done].
  set (j := default _ (char_start_from _ _ _)). destruct (Nat.ltb_spec 0 j) as [Hj|]; [|done].
  destruct (Nat.leb_spec j (length (s_detokenized_tail s))) as [Hle|]; [|done]. cbn [andb].
  unfold drain_front. destruct (is_char_boundary _ _); [|done]. intros _.
  erewrite sbind_Ok by reflexivity. erewrite sbind_Ok by reflexivity.
  unfold text_end in Hend. rewrite checked_add_ok by lia.
  erewrite sbind_Ok by reflexivity. erewrite sbind_Ok by reflexivity.
  eexists. split; [reflexivity|]. split_and!; [|done| |].
  - do 3 (eapply same_record_trans; [|apply same_record_set]). apply same_record_refl.
  - by apply well_spaced_drop.
  - right. cbn. lia.
Qed.

(** What an append answers and leaves. *)
Record appended (token : Z) (s : Sequence) (a : option FinishReason * bool) (s' : Sequence) : Prop := {
  ap_record : same_record s s';
  ap_spaced : well_spaced (s_detokenized_tail s');
  ap_tail : tail_grew s s';
  ap_more : a.1 = None → a.2 = false ∧ s_generated s' = s_generated s ++ [token] ∧
    Z.of_nat (length (s_generated s)) + 1 < q_max_tokens (s_req s);
  ap_finish : ∃ n, s_generated s' = take n (s_generated s ++ [token])
}.

Lemma stop_match_cases idx s d :
  text_end s ≤ USIZE_MAX →
  (stop_match idx (s, d) = (Ok None, (s, d))) ∨
  ∃ reason trimmed s' n, stop_match idx (s, d) = (Ok (Some (reason, trimmed)), (s', d)) ∧
    s' = set_generated (take n (s_generated s)) s.
Proof.
  intros Hend. unfold stop_match. rewrite (sbind_Ok get_seq _ (s, d) s (s, d)) by done.
  destruct (check_stop_string _ _) as [[k pat]|] eqn:Hc; [|by left]. right.
  apply check_stop_bound in Hc.
  unfold text_end in Hend. rewrite checked_add_ok by lia. erewrite sbind_Ok by reflexivity.
  erewrite sbind_Ok by reflexivity. eauto 10.
Qed.

(** The state after the token is recorded. *)
Lemma track_token_cases token s d :
  well_spaced (s_detokenized_tail s) →
  match track_token token (s, d) with
  | (Ok early, (s', _)) => same_record s s' ∧ well_spaced (s_detokenized_tail s') ∧ tail_grew s s' ∧
      s_tail_start_byte s' = s_tail_start_byte s ∧ s_generated s' = s_generated s ++ [token] ∧
      text_end s' ≤ USIZE_MAX ∧
      (∀ trimmed, early = Some (None, trimmed) ∨ early = None →
        saturating_add USIZE_MAX (Z.of_nat (length (s_generated s))) 1 < q_max_tokens (s_req s)) ∧
      ∀ a, early = Some a → a.2 = false
  | (Err e, (s', _)) => same_record s s' ∧ well_spaced (s_detokenized_tail s') ∧ tail_grew s s' ∧
      s_tail_start_byte s' = s_tail_start_byte s ∧ s_generated s' = s_generated s ∧
      s_token_byte_spans s' = s_token_byte_spans s ∧ s_pending_utf8_start s' = s_pending_utf8_start s
  | (Panic, _) => False
  end.
Proof.
  intros Hws. destruct (append_token_law (s_seq_id s) token d) as (r & d' & txt & Happ & Hnp & Hv & Hk).
  rewrite (track_token_eq token s d r d' txt Happ).
  assert (tail_grew s s) as Hsame.
  { left. split; [done|]. exists []. by rewrite app_nil_r. }
  destruct (Z.ltb_spec USIZE_MAX (text_end s)) as [|Hend]; [split_and!; try done; apply same_record_refl|].
  assert (well_spaced (s_detokenized_tail s ++ txt)) as Hws' by by apply well_spaced_app.
  assert (∀ s', s_tail_start_byte s' = s_tail_start_byte s →
    s_detokenized_tail s' = s_detokenized_tail s ++ txt → tail_grew s s') as Hgrew.
  { intros s' H1 H2. left. split; [done|]. by exists txt. }
  cbv zeta. destruct r as [k|e|]; [| |done].
  2: { split_and!; try done; by apply Hgrew. }
  rewrite (Hk k eq_refl). destruct (Z.ltb_spec USIZE_MAX (text_end s + Z.of_nat (length txt))) as [|Hend'].
  { split_and!; try done; by apply Hgrew. }
  assert (same_record s (recorded token (Z.of_nat (length txt)) txt s) ∧
    s_tail_start_byte (recorded token (Z.of_nat (length txt)) txt s) = s_tail_start_byte s ∧
    s_detokenized_tail (recorded token (Z.of_nat (length txt)) txt s) = s_detokenized_tail s ++ txt ∧
    s_generated (recorded token (Z.of_nat (length txt)) txt s) = s_generated s ++ [token]) as (R1 & R2 & R3 & R4).
  { unfold recorded. split.
    - eapply same_record_trans; [|apply record_span_record].
      eapply same_record_trans; apply same_record_set.
    - unfold record_span. by repeat case_match. }
  split_and!; try done; [by rewrite R3|by apply Hgrew| | |].
  - unfold text_end in *. rewrite R2, R3, length_app. lia.
  - intros trimmed. unfold early_answer.
    destruct (Z.leb_spec (q_max_tokens (s_req s)) (saturating_add USIZE_MAX (Z.of_nat (length (s_generated s))) 1)).
    + intros [[=]|[=]].
    + lia.
  - unfold early_answer. intros a. repeat case_match; by intros [= <-].
Qed.

Lemma append_cases token s d :
  stop_sized (q_stop (s_req s)) → well_spaced (s_detokenized_tail s) →
  q_max_tokens (s_req s) ≤ U32_MAX →
  match append_generated_token token (s, d) with
  | (Ok a, (s', _)) => appended token s a s'
  | (Err e, (s', _)) => same_record s s' ∧ well_spaced (s_detokenized_tail s') ∧ tail_grew s s' ∧
      s_tail_start_byte s' = s_tail_start_byte s ∧ s_generated s' = s_generated s
  | (Panic, _) => False
  end.
Proof.
  intros Hsized Hws Hmax. rewrite append_bounded. unfold append_then.
  rewrite (sbind_Ok get_seq _ (s, d) s (s, d)) by done.
  pose proof (track_token_cases token s d Hws) as Htrack. unfold sbind at 1.
  destruct (track_token token (s, d)) as [[early|e|] [s1 d1]]; [| |done].
  2: { destruct Htrack as (? & ? & ? & ? & ? & _). by split_and!. }
  destruct Htrack as (Hrec & Hws1 & Hgrew & Hstart & Hgen & Hend & Hmore & Htrim).
  assert (∀ trimmed, early = Some (None, trimmed) ∨ early = None →
    Z.of_nat (length (s_generated s)) + 1 < q_max_tokens (s_req s)) as Hmore'.
  { intros trimmed He. specialize (Hmore trimmed He). unfold saturating_add, USIZE_MAX, U64_MAX, U32_MAX in *. lia. }
  assert (∃ n, s_generated s ++ [token] = take n (s_generated s ++ [token])) as Hall.
  { exists (length (s_generated s ++ [token])). by rewrite take_ge. }
  destruct early as [a|].
  { constructor; [done|done|done| |by rewrite Hgen]. destruct a as [[|] trimmed]; [done|].
    intros _. specialize (Htrim _ eq_refl). split_and!; [done|done|eauto]. }
  specialize (Hmore' false (or_intror eq_refl)).
  assert (s_req s1 = s_req s) as Hreq by by rewrite Hrec.
  assert (∀ c : seqm (D:=D) (option (FinishReason * bool)), c (s1, d1) = (Ok None, (s1, d1)) →
    match (let! matched := c in
           match matched with
           | Some (reason, trimmed) => sret (Some reason, trimmed)
           | None => let! _ := bound_tail in sret (None, false)
           end) (s1, d1) with
    | (Ok a, (s', _)) => appended token s a s' | _ => False end) as Hbound.
  { intros c Hc. rewrite (sbind_Ok _ _ _ _ _ Hc).
    destruct (bound_tail_cases s1 d1) as (s2 & Hb & Hrec2 & Hgen2 & Hws2 & Hcut); [by rewrite Hreq|done|done|].
    rewrite (sbind_Ok _ _ _ _ _ Hb). constructor; [by eapply same_record_trans|done| | |by rewrite Hgen2, Hgen].
    - destruct Hcut as [->|Hcut]; [done|right; lia].
    - intros _. by rewrite Hgen2. }
  case_bool_decide as Hnil; cbn [negb].
  { specialize (Hbound (sret None) eq_refl). by case_match; [|..]; repeat case_match. }
  destruct (stop_match_cases (Z.of_nat (length (s_generated s))) s1 d1 Hend) as [Hm|(reason & trimmed & s2 & n & Hm & ->)].
  { specialize (Hbound _ Hm). by repeat case_match. }
  rewrite (sbind_Ok _ _ _ _ _ Hm). constructor; cbn; [|done| |done|].
  - eapply same_record_trans; [exact Hrec|apply same_record_set].
  - exact Hgrew.
  - exists n. by rewrite Hgen.
Qed.
End append.
