(* ===== verification/Scheduler.v ===== *)
(** * The scheduler

    [crates/r9v-sched/src/scheduler.rs] and [proposer.rs]: the queue of
    requests, the one active sequence, and the step that plans an admission,
    reserves state, fills the batch, runs the device and commits.

    The device ([StepExecutor]), the cost table and the kernel registry are
    supplied by the caller and are parameters; the log lines of [tracing] are
    not modelled. *)

From S2P Require Import Prelude Bytes Errors Spec Manager Workspace SchedError Arena Capture Cost Streams Inline Log Detok Sequence.

#[global] Open Scope Z_scope.

(** ** Data *)

(** [NoOpProposer]: its hooks do nothing. *)
Inductive NoOpProposer : Type := proposer_new.
Definition on_prefill (seq : Z) (tokens : list Z) (p : NoOpProposer) : NoOpProposer := p.
Definition draft (seq k : Z) (p : NoOpProposer) : NoOpProposer := p.
Definition observe (seq : Z) (accepted : list Z) (p : NoOpProposer) : NoOpProposer := p.
Definition proposer_reset (seq : Z) (p : NoOpProposer) : NoOpProposer := p.

Record DeviceStepSample : Type := { ds_step_id : Z; ds_token : Z; ds_accept_len : Z }.

Record StepInputs : Type := {
  in_step_id : Z;
  in_seq_id : Z;
  in_reservation : SlotRange;
  in_batch : BatchWorkspace;
  in_sampling : SamplingParams;
  in_seed : Z;
  in_rng_counter : Z;
  in_prompt_tokens : list Z;
  in_generated_tokens : list Z;
  in_prefill : option (Z * Z);
  in_ctx_len : Z
}.

(** [StepExecutor], over the world it acts on. *)
Class StepExecutor (W : Type) : Type := {
  upload_inputs : StepInputs → stm W SchedError unit;
  replay_graph : CapturedGraph → stm W SchedError unit;
  readback_sample : stm W SchedError DeviceStepSample
}.
#[global] Hint Mode StepExecutor + : typeclass_instances.

Record SchedulerConfig : Type := {
  sg_step_budget_ms : StepBudgetConfig;
  sg_profile : ProfileMode;
  sg_prefill_min_chunk : Z;
  sg_prefill_max_chunk : Z;
  sg_max_wait_ms : Z;
  sg_max_seqs : Z;
  sg_k_max : Z;
  sg_min_accept : f32;
  sg_graph_mode : GraphMode;
  sg_plan_id : Z;
  sg_rank : Z;
  sg_vocab_size : Z;
  sg_max_outstanding : Z
}.

Definition DEFAULT_MAX_OUTSTANDING : Z := 1024.

Definition scheduler_config_default : SchedulerConfig :=
  {| sg_step_budget_ms := Auto; sg_profile := Latency; sg_prefill_min_chunk := 128;
     sg_prefill_max_chunk := 2048; sg_max_wait_ms := 500; sg_max_seqs := 1; sg_k_max := 0;
     sg_min_accept := f32_lit 3 10; sg_graph_mode := GmAuto; sg_plan_id := 1; sg_rank := 0;
     sg_vocab_size := 32000; sg_max_outstanding := DEFAULT_MAX_OUTSTANDING |}.

Definition problem_if (bad : bool) (p : RequestProblem) : list RequestProblem :=
  if bad then [p] else [].

Definition budget_problems (b : StepBudgetConfig) : list RequestProblem :=
  match b with
  | Manual ms => problem_if (negb (is_finite ms) || f32_le ms f32_zero) (BadManualBudget ms)
  | Auto => []
  end.

(** [SchedulerConfig::validate]. *)
Definition scheduler_validate (c : SchedulerConfig) : SchedResult unit :=
  let problems :=
    problem_if (sg_prefill_min_chunk c =? 0) ZeroMinChunk ++
    problem_if (sg_prefill_max_chunk c <? sg_prefill_min_chunk c)
      (ChunkBounds (sg_prefill_max_chunk c) (sg_prefill_min_chunk c)) ++
    problem_if (negb (sg_max_seqs c =? 1)) (NotOneSeq (sg_max_seqs c)) ++
    problem_if (negb (sg_k_max c =? 0)) (NotZeroDraft (sg_k_max c)) ++
    problem_if (sg_vocab_size c =? 0) ZeroVocab ++
    budget_problems (sg_step_budget_ms c) ++
    problem_if (negb (is_finite (sg_min_accept c)) || f32_lt (sg_min_accept c) f32_zero
                || f32_lt f32_one (sg_min_accept c)) (BadMinAccept (sg_min_accept c)) ++
    problem_if (sg_max_outstanding c =? 0) ZeroMaxOutstanding in
  if negb (bool_decide (problems = [])) then Err (InvalidRequest problems) else Ok tt.

Record InFlightStep : Type := { if_step_id : Z; if_seq_id : Z; if_reservation : SlotRange }.

Inductive AdmissionPlan : Type :=
| PlanDecode (bucket : Z * Z * Z) (cost_ms : f32) (next_step : Z)
| PlanPrefill (chunk : Z) (forced : bool) (bucket : Z * Z * Z) (cost_ms : f32) (next_step : Z)
| PlanWait.

Record Step : Type := {
  sp_step_id : Z;
  sp_seqs_decode : InlineVec Z;
  sp_seqs_prefill : InlineVec (Z * Z);
  sp_k : InlineVec Z;
  sp_bucket : Z * Z * Z;
  sp_graphs : InlineVec StepGraphKey
}.

Record StepResult : Type := {
  rs_step : Step;
  rs_step_id : Z;
  rs_bucket : Z * Z * Z;
  rs_accepted_tokens : InlineVec (Z * InlineVec Z);
  rs_finished_sequences : InlineVec (Z * FinishReason);
  rs_record : ScheduleRecord
}.

(** [let _ = v.push(x)]. *)
Definition pushed {A} (x : A) (v : InlineVec A) : InlineVec A := (iv_push x v).2.

(** A vector of capacity one holding [x], and an empty one. *)
Definition iv_one {A} (x : A) : InlineVec A := pushed x (iv_new 1).

(** ** Assignments to a sequence *)

Definition set_progress (phase : SequencePhase) (ctx_len : Z) (accept_ema : f32) (wait_steps : Z)
    (accumulated_wait_ms : f32) (s : Sequence) : Sequence :=
  {| s_req := s_req s; s_seq_id := s_seq_id s; s_phase := phase; s_ctx_len := ctx_len;
     s_generated := s_generated s; s_accept_ema := accept_ema; s_arrival_order := s_arrival_order s;
     s_wait_steps := wait_steps; s_accumulated_wait_ms := accumulated_wait_ms;
     s_detokenized_tail := s_detokenized_tail s; s_tail_start_byte := s_tail_start_byte s;
     s_token_byte_spans := s_token_byte_spans s; s_pending_utf8_start := s_pending_utf8_start s |}.

Definition set_phase (phase : SequencePhase) (s : Sequence) : Sequence :=
  set_progress phase (s_ctx_len s) (s_accept_ema s) (s_wait_steps s) (s_accumulated_wait_ms s) s.

(** What an ended sequence becomes before its request and tokens are kept. *)
Definition ended (reason : FinishReason) (s : Sequence) : Sequence :=
  set_phase (Finished reason) (reset_tail_state s).

(** ** State *)

Section scheduler.
Context {T D OpStatic : Type}.

Record Scheduler : Type := {
  h_config : SchedulerConfig;
  h_state_manager : StateManager;
  h_cost_table : T;
  h_arena : WorkspaceArena;
  h_batch_workspace : BatchWorkspace;
  h_graph_cache : GraphCache OpStatic;
  h_event_chain : StepEventChain;
  h_schedule_log : ScheduleLogRing;
  h_proposer : NoOpProposer;
  h_detokenizer : D;
  h_step_counter : Z;
  h_arrival_counter : Z;
  h_in_flight : option InFlightStep;
  h_last_committed_step : option Z;
  h_queued : list Sequence;
  h_active : option Sequence;
  h_paused : option Sequence;
  h_pending_pause_report : option Z;
  h_finished : gmap Z (Request * list Z * FinishReason)
}.
Implicit Type h : Scheduler.

Definition set_state_manager (v : StateManager) h : Scheduler :=
  {| h_config := h_config h; h_state_manager := v; h_cost_table := h_cost_table h;
     h_arena := h_arena h; h_batch_workspace := h_batch_workspace h; h_graph_cache := h_graph_cache h;
     h_event_chain := h_event_chain h; h_schedule_log := h_schedule_log h; h_proposer := h_proposer h;
     h_detokenizer := h_detokenizer h; h_step_counter := h_step_counter h;
     h_arrival_counter := h_arrival_counter h; h_in_flight := h_in_flight h;
     h_last_committed_step := h_last_committed_step h; h_queued := h_queued h; h_active := h_active h;
     h_paused := h_paused h; h_pending_pause_report := h_pending_pause_report h;
     h_finished := h_finished h |}.

(** What the device phase writes. *)
Definition set_device (arena : WorkspaceArena) (workspace : BatchWorkspace) (cache : GraphCache OpStatic)
    (chain : StepEventChain) h : Scheduler :=
  {| h_config := h_config h; h_state_manager := h_state_manager h; h_cost_table := h_cost_table h;
     h_arena := arena; h_batch_workspace := workspace; h_graph_cache := cache;
     h_event_chain := chain; h_schedule_log := h_schedule_log h; h_proposer := h_proposer h;
     h_detokenizer := h_detokenizer h; h_step_counter := h_step_counter h;
     h_arrival_counter := h_arrival_counter h; h_in_flight := h_in_flight h;
     h_last_committed_step := h_last_committed_step h; h_queued := h_queued h; h_active := h_active h;
     h_paused := h_paused h; h_pending_pause_report := h_pending_pause_report h;
     h_finished := h_finished h |}.

(** The log, the two token hooks and the pause report. *)
Definition set_hooks (log : ScheduleLogRing) (proposer : NoOpProposer) (detok : D) (pause : option Z) h
    : Scheduler :=
  {| h_config := h_config h; h_state_manager := h_state_manager h; h_cost_table := h_cost_table h;
     h_arena := h_arena h; h_batch_workspace := h_batch_workspace h; h_graph_cache := h_graph_cache h;
     h_event_chain := h_event_chain h; h_schedule_log := log; h_proposer := proposer;
     h_detokenizer := detok; h_step_counter := h_step_counter h;
     h_arrival_counter := h_arrival_counter h; h_in_flight := h_in_flight h;
     h_last_committed_step := h_last_committed_step h; h_queued := h_queued h; h_active := h_active h;
     h_paused := h_paused h; h_pending_pause_report := pause; h_finished := h_finished h |}.

(** The counters and the step in flight. *)
Definition set_steps (step_counter arrival_counter : Z) (in_flight : option InFlightStep)
    (last_committed : option Z) h : Scheduler :=
  {| h_config := h_config h; h_state_manager := h_state_manager h; h_cost_table := h_cost_table h;
     h_arena := h_arena h; h_batch_workspace := h_batch_workspace h; h_graph_cache := h_graph_cache h;
     h_event_chain := h_event_chain h; h_schedule_log := h_schedule_log h; h_proposer := h_proposer h;
     h_detokenizer := h_detokenizer h; h_step_counter := step_counter;
     h_arrival_counter := arrival_counter; h_in_flight := in_flight;
     h_last_committed_step := last_committed; h_queued := h_queued h; h_active := h_active h;
     h_paused := h_paused h; h_pending_pause_report := h_pending_pause_report h;
     h_finished := h_finished h |}.

(** Where the sequences are. *)
Definition set_places (queued : list Sequence) (active paused : option Sequence)
    (finished : gmap Z (Request * list Z * FinishReason)) h : Scheduler :=
  {| h_config := h_config h; h_state_manager := h_state_manager h; h_cost_table := h_cost_table h;
     h_arena := h_arena h; h_batch_workspace := h_batch_workspace h; h_graph_cache := h_graph_cache h;
     h_event_chain := h_event_chain h; h_schedule_log := h_schedule_log h; h_proposer := h_proposer h;
     h_detokenizer := h_detokenizer h; h_step_counter := h_step_counter h;
     h_arrival_counter := h_arrival_counter h; h_in_flight := h_in_flight h;
     h_last_committed_step := h_last_committed_step h; h_queued := queued; h_active := active;
     h_paused := paused; h_pending_pause_report := h_pending_pause_report h; h_finished := finished |}.

Definition set_arena v h : Scheduler :=
  set_device v (h_batch_workspace h) (h_graph_cache h) (h_event_chain h) h.
Definition set_batch_workspace v h : Scheduler :=
  set_device (h_arena h) v (h_graph_cache h) (h_event_chain h) h.
Definition set_event_chain v h : Scheduler :=
  set_device (h_arena h) (h_batch_workspace h) (h_graph_cache h) v h.
Definition set_schedule_log v h : Scheduler :=
  set_hooks v (h_proposer h) (h_detokenizer h) (h_pending_pause_report h) h.
Definition set_proposer v h : Scheduler :=
  set_hooks (h_schedule_log h) v (h_detokenizer h) (h_pending_pause_report h) h.
Definition set_detokenizer v h : Scheduler :=
  set_hooks (h_schedule_log h) (h_proposer h) v (h_pending_pause_report h) h.
Definition set_pending_pause v h : Scheduler :=
  set_hooks (h_schedule_log h) (h_proposer h) (h_detokenizer h) v h.
Definition set_step_counter v h : Scheduler :=
  set_steps v (h_arrival_counter h) (h_in_flight h) (h_last_committed_step h) h.
Definition set_arrival_counter v h : Scheduler :=
  set_steps (h_step_counter h) v (h_in_flight h) (h_last_committed_step h) h.
Definition set_in_flight v h : Scheduler :=
  set_steps (h_step_counter h) (h_arrival_counter h) v (h_last_committed_step h) h.
Definition set_last_committed v h : Scheduler :=
  set_steps (h_step_counter h) (h_arrival_counter h) (h_in_flight h) v h.
Definition set_queued v h : Scheduler := set_places v (h_active h) (h_paused h) (h_finished h) h.
Definition set_active v h : Scheduler := set_places (h_queued h) v (h_paused h) (h_finished h) h.
Definition set_paused v h : Scheduler := set_places (h_queued h) (h_active h) v (h_finished h) h.
Definition set_finished v h : Scheduler := set_places (h_queued h) (h_active h) (h_paused h) v h.

(** [self.finished.insert(seq_id, (req, generated, reason))]. *)
Definition keep_result (s : Sequence) (reason : FinishReason) h : Scheduler :=
  set_finished (<[s_seq_id s := (s_req s, s_generated s, reason)]> (h_finished h)) h.

Definition sched (A : Type) : Type := stm Scheduler SchedError A.

(** Calls on the parts. *)
Definition on_manager {A} (c : stm StateManager StateError A) : stm Scheduler StateError A :=
  szoom h_state_manager set_state_manager c.
Definition on_chain {A} (c : chain A) : sched A := szoom h_event_chain set_event_chain c.
Definition on_proposer (f : NoOpProposer → NoOpProposer) : sched unit :=
  smodify (λ h, set_proposer (f (h_proposer h)) h).

(** [map_err(SchedError::State)]. *)
Definition smap_err {S E F A} (f : E → F) (c : stm S E A) : stm S F A :=
  λ s, let '(r, s') := c s in (omap_err f r, s').
End scheduler.
Arguments Scheduler : clear implicits.
Arguments sched T D OpStatic A : clear implicits.

(** ** Outside the step *)

Section operations.
Context {T D OpStatic : Type} `{CostTable T, Detokenizer D}.
Context (resolve : OpId.t → OpStatic → outcome Text ResolvedVariant).
Context (try_reserve_exact : Z → Z → option Z).

Local Notation Scheduler := (Scheduler T D OpStatic).
Local Notation sched := (sched T D OpStatic).
Implicit Type h : Scheduler.

(** [Scheduler::new]; the detokenizer is the caller's, see [set_detokenizer]. *)
Definition scheduler_new (config : SchedulerConfig) (state_manager : StateManager) (cost_table : T)
    (program : StepGraphProgram OpStatic) (arena : WorkspaceArena) (detok : D) : SchedResult Scheduler :=
  let* _ := scheduler_validate config in
  let* graph_cache := eager_capture_warm_buckets resolve (sg_plan_id config) (sg_rank config) program arena in
  let max_tokens := Z.max (sg_prefill_max_chunk config) 1 in
  let* batch_workspace := omap_err SState
    (try_with_capacity try_reserve_exact (Z.of_nat (length (m_groups state_manager))) 1 max_tokens
       (max_blocks (m_config state_manager))) in
  Ok {| h_config := config; h_state_manager := state_manager; h_cost_table := cost_table;
        h_arena := arena; h_batch_workspace := batch_workspace; h_graph_cache := graph_cache;
        h_event_chain := chain_new; h_schedule_log := ring_new 4096; h_proposer := proposer_new;
        h_detokenizer := detok; h_step_counter := 0; h_arrival_counter := 0; h_in_flight := None;
        h_last_committed_step := None; h_queued := []; h_active := None; h_paused := None;
        h_pending_pause_report := None; h_finished := ∅ |}.

Definition abort_open_reservation (seq_id : Z) : sched bool :=
  let! tail := sread (λ h, omap_err SState (tail_len seq_id (h_state_manager h))) in
  if tail =? 0 then sret false
  else
    let! _ := smap_err SState (on_manager (commit seq_id 0)) in
    let! _ := smodify (set_in_flight None) in
    sret true.

Definition is_some_nat {A} (o : option A) : nat := if o then 1%nat else 0%nat.

Definition active_sequence_count h : nat :=
  (length (h_queued h) + is_some_nat (h_active h) + is_some_nat (h_paused h))%nat.
Definition is_idle h : bool := (active_sequence_count h =? 0)%nat.
Definition outstanding_count h : nat :=
  (size (h_finished h) + length (h_queued h) + is_some_nat (h_active h) + is_some_nat (h_paused h))%nat.

Definition enqueue_request (req : Request) : sched Z :=
  let! h := sget in
  let outstanding := Z.of_nat (outstanding_count h) in
  let maximum := sg_max_outstanding (h_config h) in
  if maximum <=? outstanding then sfail (CapacityExceeded outstanding maximum)
  else
    let! next_arrival := slift (ok_or (checked_add U64_MAX (h_arrival_counter h) 1)
                                  (overflow "arrival_counter" "arrival counter overflow" [])) in
    let! (seq_id, _) := smap_err SState (on_manager (new_seq (q_tokens req))) in
    let! _ := smodify (set_arrival_counter next_arrival) in
    let sequence := sequence_new req seq_id next_arrival in
    let! _ := smodify (λ h, set_queued (h_queued h ++ [sequence]) h) in
    sret seq_id.

(** The end of a sequence taken out of its place: its state is released, its
    hooks are reset, its result is kept. *)
Definition release_cancelled (seq : Sequence) : sched unit :=
  let seq_id := s_seq_id seq in
  let! _ := smap_err SState (on_manager (free_seq seq_id)) in
  let! _ := smodify (λ h, set_detokenizer (detok_reset seq_id (h_detokenizer h)) h) in
  on_proposer (proposer_reset seq_id).

Definition keep_cancelled (seq : Sequence) : sched unit :=
  smodify (keep_result (ended Cancelled seq) Cancelled).

Definition try_unpause_sequences : sched unit :=
  smodify (λ h,
    match h_active h, h_paused h with
    | None, Some candidate => set_active (Some candidate) (set_paused None h)
    | _, _ => h
    end).

Definition holds_id (seq_id : Z) (o : option Sequence) : option Sequence :=
  match o with
  | Some s => if s_seq_id s =? seq_id then Some s else None
  | None => None
  end.

(** [iter().position(p)], with the element. *)
Fixpoint find_pos (p : Sequence → bool) (l : list Sequence) : option (nat * Sequence) :=
  match l with
  | [] => None
  | s :: l => if p s then Some (0%nat, s) else prod_map S id <$> find_pos p l
  end.

Definition cancel_sequence (seq_id : Z) : sched bool :=
  let! h := sget in
  match holds_id seq_id (h_active h) with
  | Some seq =>
      let! _ := smodify (set_active None) in
      let! _ := release_cancelled seq in
      let! _ := keep_cancelled seq in
      let! _ := try_unpause_sequences in
      sret true
  | None =>
      match find_pos (λ s, s_seq_id s =? seq_id) (h_queued h) with
      | Some (pos, seq) =>
          let! _ := smodify (λ h, set_queued (delete pos (h_queued h)) h) in
          let! _ := release_cancelled seq in
          let! _ := keep_cancelled seq in
          sret true
      | None =>
          match holds_id seq_id (h_paused h) with
          | Some seq =>
              let! _ := smodify (set_paused None) in
              let! _ := release_cancelled seq in
              let! _ := smodify (λ h,
                if bool_decide (h_pending_pause_report h = Some seq_id) then set_pending_pause None h
                else h) in
              let! _ := keep_cancelled seq in
              sret true
          | None => sret false
          end
      end
  end.

Definition holds_req (req_id : Z) (o : option Sequence) : option Sequence :=
  match o with
  | Some s => if q_id (s_req s) =? req_id then Some s else None
  | None => None
  end.

Definition cancel_request (req_id : Z) : sched bool :=
  let! h := sget in
  match holds_req req_id (h_active h) with
  | Some active => cancel_sequence (s_seq_id active)
  | None =>
      match find_pos (λ s, q_id (s_req s) =? req_id) (h_queued h) with
      | Some (_, seq) => cancel_sequence (s_seq_id seq)
      | None =>
          match holds_req req_id (h_paused h) with
          | Some seq => cancel_sequence (s_seq_id seq)
          | None => sret false
          end
      end
  end.

Definition get_finished_result (seq_id : Z) h : option (Request * list Z * FinishReason) :=
  h_finished h !! seq_id.

Definition take_finished_result (seq_id : Z) : sched (option (Request * list Z * FinishReason)) :=
  λ h, (Ok (h_finished h !! seq_id), set_finished (delete seq_id (h_finished h)) h).
End operations.
