(* ===== verification/Step.v ===== *)
(** * A scheduler step

    [Scheduler::step] of [crates/r9v-sched/src/scheduler.rs]: the plan of an
    admission, the reservation and the batch, the device phase, and the
    post-step that appends, commits and logs.  A function that returns early
    with [Ok(None)] answers [None]. *)

From S2P Require Import Prelude Bytes Errors Manager Workspace SchedError Arena Capture Cost Streams Inline Log Detok Sequence Scheduler.

#[global] Open Scope Z_scope.

(** ** Assignments to a sequence *)

Definition set_ctx_len (n : Z) (s : Sequence) : Sequence :=
  set_progress (s_phase s) n (s_accept_ema s) (s_wait_steps s) (s_accumulated_wait_ms s) s.
Definition set_accept_ema (v : f32) (s : Sequence) : Sequence :=
  set_progress (s_phase s) (s_ctx_len s) v (s_wait_steps s) (s_accumulated_wait_ms s) s.

(** [wait_steps += 1] checked, then [accumulated_wait_ms += budget_ms]. *)
Definition charge_wait (budget_ms : f32) (s : Sequence) : SchedResult Sequence :=
  let* n := ok_or (checked_add U64_MAX (s_wait_steps s) 1) (overflow "wait_steps" "wait steps overflow" []) in
  Ok (set_progress (s_phase s) (s_ctx_len s) (s_accept_ema s) n
        (f32_add (s_accumulated_wait_ms s) budget_ms) s).

Definition advance_ctx (n : Z) (s : Sequence) : SchedResult Sequence :=
  let* ctx := ok_or (checked_add U32_MAX (s_ctx_len s) n) (overflow "ctx_len" "ctx len overflow" []) in
  Ok (set_ctx_len ctx s).

(** [0.8 * ema + 0.2 * accept_len]. *)
Definition update_ema (accept_len : Z) (s : Sequence) : Sequence :=
  set_accept_ema (f32_add (f32_mul (f32_lit 4 5) (s_accept_ema s))
                    (f32_mul (f32_lit 1 5) (f32_of_Z accept_len))) s.

(** [String::truncate]: nothing past the end, a panic inside a code point. *)
Definition truncate_str (n : nat) (bytes : list Z) : SchedResult (list Z) :=
  if (n <=? length bytes)%nat then
    if is_char_boundary bytes n then Ok (take n bytes) else Panic
  else Ok bytes.

(** [rollback_append], from the snapshot [snap] taken before the append. *)
Definition rollback_append (snap seq : Sequence) : SchedResult Sequence :=
  let seq := set_spans (take (length (s_token_byte_spans snap)) (s_token_byte_spans seq))
               (s_pending_utf8_start snap)
               (set_generated (take (length (s_generated snap)) (s_generated seq)) seq) in
  if (s_tail_start_byte seq =? s_tail_start_byte snap)
     && (length (s_detokenized_tail snap) <=? length (s_detokenized_tail seq))%nat
  then
    let* tail := truncate_str (length (s_detokenized_tail snap)) (s_detokenized_tail seq) in
    Ok (set_tail tail seq)
  else Ok seq.

(** The admission of a step, destructured from its plan. *)
Record Admission : Type := {
  am_chunk : Z;
  am_forced : bool;
  am_bucket : Z * Z * Z;
  am_cost_ms : f32;
  am_next_step : Z;
  am_is_decode : bool
}.

Definition admission_of (plan : AdmissionPlan) : option Admission :=
  match plan with
  | PlanWait => None
  | PlanDecode bucket cost next =>
      Some {| am_chunk := 0; am_forced := false; am_bucket := bucket; am_cost_ms := cost;
              am_next_step := next; am_is_decode := true |}
  | PlanPrefill chunk forced bucket cost next =>
      Some {| am_chunk := chunk; am_forced := forced; am_bucket := bucket; am_cost_ms := cost;
              am_next_step := next; am_is_decode := false |}
  end.

(** [reserve_n], also the query length of the batch. *)
Definition reserve_n (adm : Admission) : Z := if am_is_decode adm then 1 else am_chunk adm.

(** What pre-step hands to the device phase and to post-step. *)
Record Prepared : Type := {
  pp_seq : Sequence;
  pp_adm : Admission;
  pp_reservation : SlotRange;
  pp_step : Step;
  pp_key : StepGraphKey;
  pp_budget_ms : f32;
  pp_pre_ms : f32
}.

(** Whether the chunk leaves prompt tokens unprocessed. *)
Definition is_intermediate (p : Prepared) : bool :=
  negb (am_is_decode (pp_adm p)) &&
  match s_phase (pp_seq p) with
  | Prefilling done => saturating_add U32_MAX done (am_chunk (pp_adm p)) <? prompt_len (pp_seq p)
  | _ => false
  end.

Definition expected_accept (p : Prepared) : Z := if is_intermediate p then 0 else 1.

(** [match c { Ok(a) => ok(a), Err(e) => err(e) }]. *)
Definition scase {S E F A B} (c : stm S E A) (ok : A → stm S F B) (err : E → stm S F B) : stm S F B :=
  λ s, match c s with
       | (Ok a, s') => ok a s'
       | (Err e, s') => err e s'
       | (Panic, s') => (Panic, s')
       end.

Section step.
Context {T D OpStatic W : Type} `{CostTable T, Detokenizer D, StepExecutor W}.
Context (resolve : OpId.t → OpStatic → outcome Text ResolvedVariant) (grown : Z → Z → Z).

Local Notation Scheduler := (Scheduler T D OpStatic).
Local Notation sched := (sched T D OpStatic).
Implicit Types (h : Scheduler) (seq : Sequence).

(** ** Admission *)

Definition plan_decode h (next_step : Z) : SchedResult AdmissionPlan :=
  let* bucket := omap_err SIr (bucket_step 1 1 0) in
  let '(s, t_dec, t_pre) := bucket in
  let* cost := cost_ms (h_cost_table h) s t_dec t_pre in
  Ok (PlanDecode bucket cost next_step).

(** The chunk and whether it is forced; [None] is a wait. *)
Definition choose_chunk h seq (remaining : Z) (budget_ms : f32) (chunk_opt : option Z) : option (Z * bool) :=
  match chunk_opt with
  | Some c => Some (c, false)
  | None =>
      if f32_le (f32_of_Z (sg_max_wait_ms (h_config h))) (f32_add (s_accumulated_wait_ms seq) budget_ms)
      then Some (Z.min remaining (sg_prefill_min_chunk (h_config h)), true)
      else None
  end.

Definition plan_prefill h seq (done : Z) (budget_ms pre_step_estimate_ms : f32) (next_step : Z)
    : SchedResult AdmissionPlan :=
  let t := h_cost_table h in
  let* remaining := ok_or (checked_sub (prompt_len seq) done)
                      (overflow "prefill_remaining" "prompt len underflow" []) in
  let* room := prefill_room_ms t budget_ms 0 0 pre_step_estimate_ms in
  let* chunk_opt := select_prefill_chunk t remaining 0 0 room
      (sg_prefill_min_chunk (h_config h)) (sg_prefill_max_chunk (h_config h)) in
  match choose_chunk h seq remaining budget_ms chunk_opt with
  | None => Ok PlanWait
  | Some (chunk, forced) =>
      let* bucket := omap_err SIr (bucket_step 1 1 chunk) in
      let '(s, t_dec, t_pre) := bucket in
      let* cost := cost_ms t s t_dec t_pre in
      Ok (PlanPrefill chunk forced bucket cost next_step)
  end.

Definition plan_admission h seq (budget_ms pre_step_estimate_ms : f32) : SchedResult AdmissionPlan :=
  let* next_step := ok_or (checked_add U64_MAX (h_step_counter h) 1)
                      (overflow "step_counter" "step counter overflow" []) in
  match s_phase seq with
  | Decoding => plan_decode h next_step
  | Prefilling done => plan_prefill h seq done budget_ms pre_step_estimate_ms next_step
  | Queued | Finished _ => Err (Internal (msg "plan_admission called for inactive sequence" []))
  end.

(** ** Failure *)

(** [self.active = Some(seq); return Err(e)]. *)
Definition restore {A} seq (e : SchedError) : sched A :=
  let! _ := smodify (set_active (Some seq)) in sfail e.

Definition or_restore {A} seq (c : SchedResult A) : sched A :=
  match c with
  | Ok a => sret a
  | Err e => restore seq e
  | Panic => spanic
  end.

Definition abort_tail (seq_id : Z) : sched unit := λ h,
  match tail_len seq_id (h_state_manager h) with
  | Ok tail =>
      if 0 <? tail then scase (on_manager (commit seq_id 0)) sret (λ _, sret tt) h else (Ok tt, h)
  | Err _ => (Ok tt, h)
  | Panic => (Panic, h)
  end.

(** [return Err(self.fail_step(seq, original))]. *)
Definition fail_step {A} seq (original : SchedError) : sched A :=
  let! _ := smodify (set_active (Some seq)) in
  let! _ := smodify (set_in_flight None) in
  let! _ := abort_tail (s_seq_id seq) in
  sfail original.

Definition or_fail {A} seq (c : SchedResult A) : sched A :=
  match c with
  | Ok a => sret a
  | Err e => fail_step seq e
  | Panic => spanic
  end.

(** ** Pre-step *)

Definition promote : sched unit :=
  smodify (λ h,
    match h_active h with
    | Some _ => h
    | None =>
        match h_paused h, h_queued h with
        | Some candidate, _ => set_active (Some candidate) (set_paused None h)
        | None, seq :: queued => set_active (Some (set_phase (Prefilling 0) seq)) (set_queued queued h)
        | None, [] => h
        end
    end).

(** The wait is charged and the sequence stays active. *)
Definition wait_admission (budget_ms : f32) seq : sched unit :=
  let! seq := or_restore seq (charge_wait budget_ms seq) in
  smodify (set_active (Some seq)).

Definition pause_decode seq : sched unit :=
  let! _ := smodify (set_pending_pause (Some (s_seq_id seq))) in
  smodify (set_paused (Some seq)).

(** The reservation; memory pressure pauses a decode and makes a prompt wait. *)
Definition reserve_step (budget_ms : f32) (adm : Admission) seq : sched (option SlotRange) :=
  scase (on_manager (reserve (s_seq_id seq) (reserve_n adm)))
    (λ r, sret (Some r))
    (λ e, match e with
          | PoolExhausted _ _ _ _ _ _ =>
              let! _ := if am_is_decode adm then pause_decode seq else wait_admission budget_ms seq in
              sret None
          | _ => restore seq (SState e)
          end).

(** The chunk must lie inside the prompt; the proposer sees its tokens. *)
Definition notify_prefill (adm : Admission) seq : sched unit :=
  match s_phase seq with
  | Prefilling done =>
      match checked_add USIZE_MAX done (am_chunk adm) with
      | Some slice_end =>
          if slice_end <=? Z.of_nat (length (q_tokens (s_req seq))) then
            on_proposer (on_prefill (s_seq_id seq)
              (take (Z.to_nat (slice_end - done)) (drop (Z.to_nat done) (q_tokens (s_req seq)))))
          else fail_step seq (overflow "slice_end" "prefill slice out of bounds" [])
      | None => fail_step seq (overflow "slice_end" "prefill slice out of bounds" [])
      end
  | _ => fail_step seq (Internal (msg "prefill step without Prefilling phase" []))
  end.

Definition fill_step (adm : Admission) seq : sched unit :=
  scase (λ h, szoom h_batch_workspace set_batch_workspace
               (fill_batch_meta grown (h_state_manager h) [s_seq_id seq] [reserve_n adm] None) h)
    sret (λ e, fail_step seq (SState e)).

Definition graph_key h (bucket : Z * Z * Z) : StepGraphKey :=
  let '(s, t_dec, t_pre) := bucket in
  {| k_plan_id := sg_plan_id (h_config h); k_rank := sg_rank (h_config h); k_s := s; k_t_dec := t_dec;
     k_t_pre := t_pre; k_segment := 0 |}.

(** The public descriptor of the step. *)
Definition describe_step (adm : Admission) (seq_id : Z) (key : StepGraphKey) : Step :=
  {| sp_step_id := am_next_step adm;
     sp_seqs_decode := if am_is_decode adm then iv_one seq_id else iv_new 1;
     sp_seqs_prefill := if am_is_decode adm then iv_new 1 else iv_one (seq_id, am_chunk adm);
     sp_k := iv_one 0; sp_bucket := am_bucket adm; sp_graphs := iv_one key |}.

(** The forced wait, the reservation, the batch, and the step id. *)
Definition begin_admission (budget_ms pre_ms : f32) (adm : Admission) seq : sched (option Prepared) :=
  let! seq := if am_forced adm then or_restore seq (charge_wait budget_ms seq) else sret seq in
  let! _ := if am_is_decode adm then on_proposer (draft (s_seq_id seq) 0) else sret tt in
  let! reserved := reserve_step budget_ms adm seq in
  match reserved with
  | None => sret None
  | Some reservation =>
      let! _ := if am_is_decode adm then sret tt else notify_prefill adm seq in
      let! _ := fill_step adm seq in
      let step_id := am_next_step adm in
      let! _ := smodify (set_step_counter step_id) in
      let! h := sget in
      let key := graph_key h (am_bucket adm) in
      let! _ := smodify (set_in_flight (Some {| if_step_id := step_id; if_seq_id := s_seq_id seq;
                                                if_reservation := reservation |})) in
      sret (Some {| pp_seq := seq; pp_adm := adm; pp_reservation := reservation;
                    pp_step := describe_step adm (s_seq_id seq) key; pp_key := key;
                    pp_budget_ms := budget_ms; pp_pre_ms := pre_ms |})
  end.

Definition plan_and_admit (budget_ms pre_ms : f32) seq : sched (option Prepared) :=
  match s_phase seq with
  | Queued | Finished _ =>
      let! _ := smodify (set_active (Some seq)) in sret None
  | _ =>
      let! h := sget in
      let! plan := or_restore seq (plan_admission h seq budget_ms pre_ms) in
      match admission_of plan with
      | None => let! _ := wait_admission budget_ms seq in sret None
      | Some adm => begin_admission budget_ms pre_ms adm seq
      end
  end.

Definition pre_step : sched (option Prepared) :=
  let! h := sget in
  if is_idle h then sret None
  else
    let! budget_ms := slift (resolve_budget_ms (h_cost_table h) (sg_step_budget_ms (h_config h))
                               (sg_profile (h_config h))) in
    let! _ := promote in
    let! h := sget in
    match h_active h with
    | None => sret None
    | Some seq =>
        let! _ := smodify (set_active None) in
        plan_and_admit budget_ms (estimate_pre_step_ms budget_ms) seq
    end.

(** ** The device phase *)

(** The scheduler and the world of the device. *)
Definition run (A : Type) : Type := stm (Scheduler * W) SchedError A.
Definition on_host {A} (c : sched A) : run A := szoom fst (λ h '(_, w), (h, w)) c.
Definition on_device {A} (c : stm W SchedError A) : run A := szoom snd (λ w '(h, _), (h, w)) c.

Definition on_cache {A} (c : cache (OpStatic:=OpStatic) A) : sched A :=
  szoom (λ h, (h_graph_cache h, h_arena h))
    (λ '(gc, a) h, set_device a (h_batch_workspace h) gc (h_event_chain h) h) c.

Definition step_inputs (p : Prepared) h : StepInputs :=
  let seq := pp_seq p in
  {| in_step_id := am_next_step (pp_adm p); in_seq_id := s_seq_id seq; in_reservation := pp_reservation p;
     in_batch := h_batch_workspace h; in_sampling := q_sampling (s_req seq); in_seed := q_seed (s_req seq);
     in_rng_counter := am_next_step (pp_adm p); in_prompt_tokens := q_tokens (s_req seq);
     in_generated_tokens := s_generated seq;
     in_prefill := match s_phase seq with
                   | Prefilling done => Some (done, am_chunk (pp_adm p)) | _ => None end;
     in_ctx_len := s_ctx_len seq |}.

(** Upload, replay and readback, with the events that order them. *)
Definition device_chain (p : Prepared) : run (DeviceStepSample * bool) :=
  let step_id := am_next_step (pp_adm p) in
  let! (h, _) := sget in
  let! _ := on_device (upload_inputs (step_inputs p h)) in
  let! upload_eid := on_host (on_chain (record_upload_complete step_id)) in
  let! _ := on_host (on_chain (record_wait step_id Compute upload_eid)) in
  let! (graph, was_captured) := on_host (on_cache (get_or_capture resolve (pp_key p))) in
  let! _ := on_device (replay_graph graph) in
  let! compute_eid := on_host (on_chain (record_compute_complete step_id)) in
  let! _ := on_host (on_chain (record_wait step_id Copy compute_eid)) in
  let! sample := on_device readback_sample in
  let! _ := on_host (on_chain (record_readback_complete step_id)) in
  let! (h, _) := sget in
  let! _ := slift (validate_step_chain (h_event_chain h) step_id) in
  sret (sample, was_captured).

(** The echo of the step id, and the accept contract of a step without drafts. *)
Definition check_sample (p : Prepared) (sample : DeviceStepSample) : SchedResult unit :=
  let step_id := am_next_step (pp_adm p) in
  if negb (ds_step_id sample =? step_id) then Err (StaleStep (Some step_id) (ds_step_id sample))
  else if negb (ds_accept_len sample =? expected_accept p) then
    Err (ExecutionFailed (msg
      "k=0 step requires device accept_len == {}, got {} (seq {}, step {}, intermediate={})"
      [Num (expected_accept p); Num (ds_accept_len sample); Num (s_seq_id (pp_seq p)); Num step_id;
       Name (if is_intermediate p then "true" else "false")]))
  else Ok tt.

Definition device_phase (p : Prepared) : run (DeviceStepSample * bool) :=
  let! _ := on_host (smodify (λ h, set_arena (arena_reset (h_arena h)).2 h)) in
  let! _ := on_host (on_chain (begin_step (am_next_step (pp_adm p)))) in
  scase (device_chain p)
    (λ '(sample, captured),
      let! _ := on_host (or_fail (pp_seq p) (check_sample p sample)) in
      sret (sample, captured))
    (λ e, on_host (fail_step (pp_seq p) e)).

(** ** Post-step *)

(** Appending through the scheduler's detokenizer; the sequence is returned on
    every path. *)
Definition append_step (token : Z) seq : sched (SchedResult (option FinishReason * bool) * Sequence) :=
  λ h, let '(r, (seq, d)) := append_generated_token token (seq, h_detokenizer h) in
       match r with
       | Panic => (Panic, set_detokenizer d h)
       | _ => (Ok (r, seq), set_detokenizer d h)
       end.

Definition commit_step (seq_id n : Z) : stm Scheduler StateError unit := on_manager (commit seq_id n).

(** A refused commit leaves the tail open and the sequence active. *)
Definition commit_or {A} seq (n : Z) (undo : SchedResult Sequence) (k : sched A) : sched A :=
  scase (commit_step (s_seq_id seq) n) (λ _, k)
    (λ e, let! seq := slift undo in restore seq (SState e)).

Definition mark_committed (step_id : Z) : sched unit :=
  let! _ := smodify (set_last_committed (Some step_id)) in
  smodify (set_in_flight None).

(** The outcome of the phase: sequence, finish, accepted length and tokens. *)
Record Posted : Type := {
  po_seq : Sequence;
  po_finish : option FinishReason;
  po_accept_len : Z;
  po_accepted : InlineVec (Z * InlineVec Z)
}.

Definition posted seq (finish : option FinishReason) (trimmed : bool) (sample : DeviceStepSample) : Posted :=
  {| po_seq := seq; po_finish := finish;
     po_accept_len := if trimmed then 0 else ds_accept_len sample;
     po_accepted := if trimmed then iv_new 1
                    else iv_one (s_seq_id seq, iv_one (ds_token sample)) |}.

(** The last chunk of a prompt: its token is appended, then the chunk committed. *)
Definition post_prompt_end (p : Prepared) (done : Z) (sample : DeviceStepSample) : sched Posted :=
  let snap := pp_seq p in
  let chunk := am_chunk (pp_adm p) in
  let! (r, seq) := append_step (ds_token sample) (set_phase Decoding snap) in
  match r with
  | Ok (finish, trimmed) =>
      commit_or seq chunk (let* s := rollback_append snap seq in Ok (set_phase (Prefilling done) s))
        (let! seq := or_restore seq (advance_ctx chunk seq) in
         let! _ := mark_committed (am_next_step (pp_adm p)) in
         sret (posted seq finish trimmed sample))
  | Err e =>
      let! seq := slift (rollback_append snap seq) in
      fail_step (set_phase (Prefilling done) seq) e
  | Panic => spanic
  end.

(** A chunk that leaves some of the prompt: progress without a token. *)
Definition post_prompt_chunk (p : Prepared) (new_done : Z) : sched Posted :=
  let seq := pp_seq p in
  let chunk := am_chunk (pp_adm p) in
  commit_or seq chunk (Ok seq)
    (let! seq := or_restore seq (advance_ctx chunk seq) in
     let seq := set_phase (Prefilling new_done) seq in
     let! _ := mark_committed (am_next_step (pp_adm p)) in
     sret {| po_seq := seq; po_finish := None; po_accept_len := 0; po_accepted := iv_new 1 |}).

(** A decode: the append is not rolled back when it refuses. *)
Definition post_decode (p : Prepared) (sample : DeviceStepSample) : sched Posted :=
  let snap := pp_seq p in
  let! (r, seq) := append_step (ds_token sample) snap in
  match r with
  | Ok (finish, trimmed) =>
      commit_or seq 1 (rollback_append snap seq)
        (let! seq := or_restore seq (advance_ctx 1 seq) in
         let! _ := mark_committed (am_next_step (pp_adm p)) in
         let po := posted seq finish trimmed sample in
         let! _ := on_proposer (observe (s_seq_id seq) [ds_token sample]) in
         sret {| po_seq := update_ema (po_accept_len po) seq; po_finish := finish;
                 po_accept_len := po_accept_len po; po_accepted := po_accepted po |})
  | Err e => fail_step seq e
  | Panic => spanic
  end.

Definition post_phase (p : Prepared) (sample : DeviceStepSample) : sched Posted :=
  let seq := pp_seq p in
  match s_phase seq with
  | Prefilling done =>
      let! new_done := or_fail seq (ok_or (checked_add U32_MAX done (am_chunk (pp_adm p)))
                                      (overflow "prefill_done" "prefill done overflow" [])) in
      if prompt_len seq <=? new_done then post_prompt_end p done sample
      else post_prompt_chunk p new_done
  | Decoding => post_decode p sample
  | _ => fail_step seq (Internal (msg "step admitted for inactive phase" []))
  end.

(** The end of a sequence: its state is released and its result kept. *)
Definition finish_sequence seq (reason : FinishReason) : sched unit :=
  let seq_id := s_seq_id seq in
  scase (on_manager (free_seq seq_id))
    (λ _,
      let! _ := smodify (λ h, set_detokenizer (detok_reset seq_id (h_detokenizer h)) h) in
      let! _ := on_proposer (proposer_reset seq_id) in
      let! _ := smodify (keep_result (ended reason seq) reason) in
      let! _ := smodify (set_active None) in
      try_unpause_sequences)
    (λ e, restore seq (SState e)).

(** [(ms * 1000.0) as u64]. *)
Definition micros (ms : f32) : Z := f32_to_u64 (f32_mul ms (f32_of_Z 1000)).

Definition step_record (p : Prepared) (captured : bool) (accept_len : Z) (paused : option Z) h : ScheduleRecord :=
  let adm := pp_adm p in
  {| sr_step_id := am_next_step adm; sr_t_pre_us := micros (pp_pre_ms p); sr_t_draft_us := 0;
     sr_t_device_us := micros (am_cost_ms adm); sr_t_post_us := 0; sr_s := 1;
     sr_t_dec := if am_is_decode adm then 1 else 0; sr_t_pre := am_chunk adm; sr_chunk := am_chunk adm;
     sr_k := iv_one 0; sr_accept_len := iv_one accept_len; sr_forced_admission := am_forced adm;
     sr_budget_ms := pp_budget_ms p; sr_bucket := am_bucket adm;
     sr_graph_mode := sg_graph_mode (h_config h); sr_captured := captured;
     sr_paused := match paused with Some id => iv_one id | None => iv_new 1 end;
     sr_segment_sync_us := 0 |}.

(** The record of the step takes the pending pause report. *)
Definition log_step (p : Prepared) (captured : bool) (accept_len : Z) : sched ScheduleRecord :=
  let! h := sget in
  let paused := h_pending_pause_report h in
  let! _ := smodify (set_pending_pause None) in
  let record := step_record p captured accept_len paused h in
  let! _ := szoom h_schedule_log set_schedule_log (ring_push record) in
  sret record.

Definition post_step (p : Prepared) (sample : DeviceStepSample) (captured : bool) : sched StepResult :=
  let! po := post_phase p sample in
  let seq := po_seq po in
  let! _ := match po_finish po with
            | Some reason => finish_sequence seq reason
            | None => smodify (set_active (Some seq))
            end in
  let! record := log_step p captured (po_accept_len po) in
  sret {| rs_step := pp_step p; rs_step_id := am_next_step (pp_adm p); rs_bucket := am_bucket (pp_adm p);
          rs_accepted_tokens := po_accepted po;
          rs_finished_sequences := match po_finish po with
                                   | Some reason => iv_one (s_seq_id seq, reason) | None => iv_new 1 end;
          rs_record := record |}.

Definition step : run (option StepResult) :=
  let! prepared := on_host pre_step in
  match prepared with
  | None => sret None
  | Some p =>
      let! (sample, captured) := device_phase p in
      let! result := on_host (post_step p sample captured) in
      sret (Some result)
  end.
End step.
