(* ===== verification/SchedInv.v ===== *)
(** * The invariant of the scheduler

    What holds of every [Scheduler] between calls: the sequences it tracks are
    exactly the live sequences of its state manager, each in a phase that
    agrees with its context and its tokens; the device side and the counters
    are well formed. *)

From S2P Require Import Prelude Wp Bytes Errors Spec Pools Manager Invariant Reserve Admission Commit Workspace BatchSpec SchedError Arena Capture CaptureSpec Cost Streams Log Detok Sequence Generation Append Scheduler Step.

#[global] Open Scope Z_scope.

(** ** One sequence *)

Definition prompt_of (s : Sequence) : Z := Z.of_nat (length (q_tokens (s_req s))).
Definition tokens_of (s : Sequence) : Z := Z.of_nat (length (s_generated s)).

(** What [Request::new] validates, with a tail sized for whole code points. *)
Record well_formed_request (q : Request) : Prop := {
  wq_prompt : q_tokens q ≠ [];
  wq_max_tokens : 0 < q_max_tokens q ≤ U32_MAX;
  wq_stop : stop_sized (q_stop q)
}.

(** The context is the prompt ingested so far, then the prompt and all tokens
    but the last, which the next decode ingests. *)
Definition phase_ok (s : Sequence) : Prop :=
  match s_phase s with
  | Queued => s_ctx_len s = 0 ∧ s_generated s = []
  | Prefilling done => s_ctx_len s = done ∧ 0 ≤ done < prompt_of s ∧ s_generated s = []
  | Decoding => s_ctx_len s = prompt_of s + tokens_of s - 1 ∧ 0 < tokens_of s < q_max_tokens (s_req s)
  | Finished _ => False
  end.

(** A tracked sequence and its state, with [tail] reserved tokens. *)
Record seq_fits (m : StateManager) (tail : Z) (s : Sequence) : Prop := {
  fit_request : well_formed_request (s_req s);
  fit_phase : phase_ok s;
  fit_spaced : well_spaced (s_detokenized_tail s);
  fit_prompt : prompt_of s ≤ max_ctx (m_config m);
  fit_state : ∃ st, m_seqs m !! s_seq_id s = Some st ∧ q_ctx_len st = s_ctx_len s ∧
    q_tail_len st = tail ∧ q_compacted st = None ∧
    (s_phase s = Queued → ∀ gi, indices_of gi st = [])
}.

Lemma seq_fits_same m m' tail s :
  seq_fits m tail s → m_seqs m' !! s_seq_id s = m_seqs m !! s_seq_id s → m_config m' = m_config m →
  seq_fits m' tail s.
Proof. intros [] Hs Hc. constructor; rewrite ?Hs, ?Hc; done. Qed.

Lemma phase_prompt_len m tail s : manager_ok m → seq_fits m tail s → prompt_len s = prompt_of s.
Proof.
  intros [bpg Hinv] [_ _ _ Hp _]. destruct (mi_config _ _ Hinv) as (Hc & _ & _).
  unfold prompt_len. apply as_u32_small. unfold prompt_of, MAX_CTX_HARD, U32_MAX in *. lia.
Qed.

(** ** Where the sequences are *)

Definition tracked (queued : list Sequence) (active paused : option Sequence) : list Sequence :=
  queued ++ option_list active ++ option_list paused.

Abbreviation results := (gmap Z (Request * list Z * FinishReason)).

Record places_ok (tail : Z → Z) (m : StateManager) (queued : list Sequence)
    (active paused : option Sequence) (finished : results) : Prop := {
  pl_manager : manager_ok m;
  pl_ids : NoDup (map s_seq_id (tracked queued active paused));
  pl_live id : is_Some (m_seqs m !! id) ↔ id ∈ map s_seq_id (tracked queued active paused);
  pl_fits s : s ∈ tracked queued active paused → seq_fits m (tail (s_seq_id s)) s;
  pl_queued s : s ∈ queued → s_phase s = Queued;
  pl_active s : active = Some s → s_phase s ≠ Queued;
  pl_paused s : paused = Some s → s_phase s = Decoding ∧ active = None;
  pl_finished id : is_Some (finished !! id) →
    0 ≤ id < m_next_seq m ∧ id ∉ map s_seq_id (tracked queued active paused)
}.

Lemma tracked_active queued seq paused :
  tracked queued (Some seq) paused ≡ₚ seq :: tracked queued None paused.
Proof. unfold tracked. simpl. by rewrite Permutation_middle. Qed.

Lemma elem_of_tracked queued active paused s :
  s ∈ tracked queued active paused ↔ s ∈ queued ∨ active = Some s ∨ paused = Some s.
Proof.
  unfold tracked. rewrite !elem_of_app. destruct active, paused; simpl; rewrite ?elem_of_nil, ?list_elem_of_singleton;
    naive_solver.
Qed.

Lemma places_tail tail tail' m queued active paused finished :
  places_ok tail m queued active paused finished → (∀ id, tail' id = tail id) →
  places_ok tail' m queued active paused finished.
Proof. intros [] Ht. constructor; try done. intros s Hs. rewrite Ht. auto. Qed.

(** The active sequence moves on in a manager that changed only its state. *)
Lemma places_move tail tail' m m' queued seq seq' paused finished st' :
  places_ok tail m queued (Some seq) paused finished →
  manager_ok m' → m_config m' = m_config m → m_next_seq m' = m_next_seq m →
  m_seqs m' = <[s_seq_id seq := st']> (m_seqs m) → s_seq_id seq' = s_seq_id seq →
  s_phase seq' ≠ Queued → seq_fits m' (tail' (s_seq_id seq)) seq' →
  (∀ id, id ≠ s_seq_id seq → tail' id = tail id) →
  places_ok tail' m' queued (Some seq') paused finished.
Proof.
  intros [Hm Hids Hlive Hfits Hq Ha Hp Hf] Hm' Hc Hn Hs Hid Hphase Hfit Htail.
  assert (map s_seq_id (tracked queued (Some seq') paused) = map s_seq_id (tracked queued (Some seq) paused)) as Heq.
  { unfold tracked. rewrite !map_app. simpl. by rewrite Hid. }
  constructor; rewrite ?Heq; try done.
  - intros id. rewrite Hs. destruct (decide (id = s_seq_id seq)) as [->|Hne].
    + rewrite lookup_insert_eq. split; [|eauto]. intros _.
      apply Hlive. destruct (fit_state _ _ _ (Hfits seq (proj2 (elem_of_tracked _ _ _ _) (or_intror (or_introl eq_refl)))))
        as (st & ? & _). eauto.
    + rewrite lookup_insert_ne by done. apply Hlive.
  - intros s Hin. apply elem_of_tracked in Hin as [Hin|[[= <-]|Hin]].
    2: by rewrite Hid.
    all: assert (s_seq_id s ≠ s_seq_id seq) as Hne.
    1, 3: intros Heqid; rewrite (Permutation_map s_seq_id (tracked_active queued seq paused)) in Hids;
      cbn [map] in Hids; apply NoDup_cons in Hids as [Hno _]; apply Hno; rewrite <- Heqid;
      apply list_elem_of_fmap_2, elem_of_tracked; auto.
    all: rewrite Htail by done.
    all: apply (seq_fits_same m); [apply Hfits, elem_of_tracked; auto| |done].
    all: by rewrite Hs, lookup_insert_ne by done.
  - by intros s [= <-].
  - intros s Hs'. destruct (Hp s Hs') as [? ?]. done.
  - intros id Hin. rewrite Hn. by apply Hf.
Qed.

(** What a step reports of a sequence. *)
Definition record_of (s : Sequence) : Z * (Request * Z * list Z) :=
  (s_seq_id s, (s_req s, s_ctx_len s, s_generated s)).

(** Sequences that differ in their text, their waiting and their estimates. *)
Record same_progress (s s' : Sequence) : Prop := {
  sp_record : record_of s' = record_of s;
  sp_phase : s_phase s' = s_phase s;
  sp_spaced : well_spaced (s_detokenized_tail s')
}.

Lemma same_progress_id s s' : same_progress s s' → s_seq_id s' = s_seq_id s.
Proof. by intros [[= -> _ _ _] _ _]. Qed.

Lemma fits_same m tail s s' : seq_fits m tail s → same_progress s s' → seq_fits m tail s'.
Proof.
  intros [? Hp ? Hl Hst] [[= Hid Hreq Hctx Hgen] Hph Hsp].
  unfold phase_ok, prompt_of, tokens_of in *.
  constructor; unfold phase_ok, prompt_of, tokens_of; rewrite ?Hid, ?Hreq, ?Hctx, ?Hgen, ?Hph; done.
Qed.

Lemma places_swap tail m queued seq seq' paused finished :
  places_ok tail m queued (Some seq) paused finished → same_progress seq seq' →
  places_ok tail m queued (Some seq') paused finished.
Proof.
  intros Hpl Hsame. pose proof (same_progress_id _ _ Hsame) as Hid.
  pose proof (pl_fits _ _ _ _ _ _ Hpl seq) as Hfit.
  specialize (Hfit ltac:(apply elem_of_tracked; auto)).
  destruct (fit_state _ _ _ Hfit) as (st & Hst & _).
  apply (places_move tail tail m m queued seq seq' paused finished st); try done.
  - apply Hpl.
  - by rewrite insert_id.
  - rewrite (sp_phase _ _ Hsame). by eapply pl_active.
  - by eapply fits_same.
Qed.

(** A sequence leaves its place with its state released, and its result is
    kept. *)
Lemma places_drop tail m queued active paused finished seq m' queued' active' paused' r :
  places_ok tail m queued active paused finished →
  tracked queued active paused ≡ₚ seq :: tracked queued' active' paused' →
  (∀ s, s ∈ queued' → s ∈ queued) → active' = active ∨ active' = None → paused' = paused ∨ paused' = None →
  (∀ id, id ≠ s_seq_id seq → tail id = 0) →
  manager_ok m' → m_config m' = m_config m → m_next_seq m' = m_next_seq m →
  m_seqs m' = delete (s_seq_id seq) (m_seqs m) →
  places_ok (λ _, 0) m' queued' active' paused' (<[s_seq_id seq := r]> finished).
Proof.
  intros [Hm Hids Hlive Hfits Hq Ha Hp Hf] Hperm Hqs Has Hps Htail Hm' Hc Hn Hs.
  pose proof (Permutation_map s_seq_id Hperm) as Heq. cbn [map] in Heq.
  rewrite Heq in Hids. apply NoDup_cons in Hids as [Hno Hids]. constructor; try done.
  - intros id. rewrite Hs. destruct (decide (id = s_seq_id seq)) as [->|Hne].
    + rewrite lookup_delete_eq. split; [by intros []|done].
    + rewrite lookup_delete_ne, Hlive, Heq, elem_of_cons by done. naive_solver.
  - intros s Hin. assert (s_seq_id s ≠ s_seq_id seq) as Hne.
    { intros Hid. apply Hno. rewrite <- Hid. by apply list_elem_of_fmap_2. }
    assert (s ∈ tracked queued active paused) as Hin' by (rewrite Hperm; by right).
    specialize (Hfits s Hin'). rewrite Htail in Hfits by done.
    apply (seq_fits_same m); [done| |done]. by rewrite Hs, lookup_delete_ne.
  - intros s Hin. auto.
  - intros s ->. destruct Has as [<-|]; [by apply Ha|done].
  - intros s ->. destruct Hps as [<-|]; [|done]. destruct (Hp s eq_refl) as [? ->]. by destruct Has as [->| ->].
  - intros id. destruct (decide (id = s_seq_id seq)) as [->|Hne].
    + intros _. split; [|done]. rewrite Hn.
      assert (seq ∈ tracked queued active paused) as Hin by (rewrite Hperm; by left).
      destruct (fit_state _ _ _ (Hfits seq Hin)) as (st & Hst & _).
      destruct Hm as [bpg Hinv]. by destruct (mi_seqs _ _ Hinv _ _ Hst).
    + rewrite lookup_insert_ne by done. intros [Hr Hin]%Hf. rewrite Hn. split; [done|].
      rewrite Heq in Hin. by intros ?; apply Hin; right.
Qed.

(** ** Which reservations are open *)

Definition closed : Z → Z := λ _, 0.

(** One reservation of [n] tokens is open. *)
Definition open (id n : Z) : Z → Z := λ i, if i =? id then n else 0.

Lemma open_eq id n : open id n id = n.
Proof. unfold open. by rewrite Z.eqb_refl. Qed.
Lemma open_ne id n i : i ≠ id → open id n i = 0.
Proof. intros. unfold open. by rewrite (proj2 (Z.eqb_neq _ _)). Qed.

Lemma open_zero id i : open id 0 i = closed i.
Proof. unfold open, closed. by case_match. Qed.

(** ** The device side, the counters, the configuration *)

Section invariant.
Context {T D OpStatic : Type} `{CostTable T, DetokenizerLaws D}.
Context (resolve : OpId.t → OpStatic → outcome Text ResolvedVariant).
Local Notation Scheduler := (Scheduler T D OpStatic).
Implicit Type h : Scheduler.

Record device_ok (a : WorkspaceArena) (w : BatchWorkspace) (gc : GraphCache OpStatic) (c : StepEventChain) : Prop := {
  dv_arena : arena_ok a;
  dv_workspace : workspace_ok w;
  dv_program : program_ok (gc_program gc);
  dv_cache : cache_ok resolve gc a;
  dv_chain : chain_ok c
}.

(** The log is no longer than the steps issued, so it never refuses one. *)
Record steps_ok (counter : Z) (last : option Z) (log : ScheduleLogRing) : Prop := {
  sk_counter : is_u64 counter;
  sk_last n : last = Some n → 0 < n ≤ counter;
  sk_log : ∃ l, ring_holds 4096 log l ∧ Z.of_nat (length l) ≤ counter
}.

Record config_fine (c : SchedulerConfig) (t : T) : Prop := {
  cf_chunks : 0 < sg_prefill_min_chunk c ≤ sg_prefill_max_chunk c ∧ sg_prefill_max_chunk c ≤ U32_MAX;
  cf_cost : cost_total t
}.

Record sched_inv (tail : Z → Z) h : Prop := {
  si_places : places_ok tail (h_state_manager h) (h_queued h) (h_active h) (h_paused h) (h_finished h);
  si_device : device_ok (h_arena h) (h_batch_workspace h) (h_graph_cache h) (h_event_chain h);
  si_steps : steps_ok (h_step_counter h) (h_last_committed_step h) (h_schedule_log h);
  si_config : config_fine (h_config h) (h_cost_table h)
}.

(** Between calls no reservation is open and no step is in flight. *)
Definition sched_ok h : Prop := sched_inv closed h ∧ h_in_flight h = None.

(** The commit counters of the manager are not used up. *)
Definition commits_left (m : StateManager) : Prop := m_commits m < U64_MAX ∧ m_swaps m < U64_MAX.

(** At most [k] commits later. *)
Definition spent (k : Z) (m m' : StateManager) : Prop :=
  m_commits m ≤ m_commits m' ≤ m_commits m + k ∧ m_swaps m ≤ m_swaps m' ≤ m_swaps m + k.

Lemma spent_left m m' : spent 0 m m' → commits_left m → commits_left m'.
Proof. unfold spent, commits_left. lia. Qed.

(** The sequences a scheduler tracks. *)
Definition sequences h : list Sequence := tracked (h_queued h) (h_active h) (h_paused h).

(** The requests, contexts and tokens of the tracked sequences. *)
Definition progress h : list (Z * (Request * Z * list Z)) := map record_of (sequences h).

(** A call that completed no step: nothing a caller can ask about moved. *)
Record unmoved h0 h : Prop := {
  um_progress : progress h ≡ₚ progress h0;
  um_finished : h_finished h = h_finished h0;
  um_last : h_last_committed_step h = h_last_committed_step h0;
  um_log : h_schedule_log h = h_schedule_log h0;
  um_config : h_config h = h_config h0;
  um_cost : h_cost_table h = h_cost_table h0;
  um_arrival : h_arrival_counter h = h_arrival_counter h0;
  um_next : m_next_seq (h_state_manager h) = m_next_seq (h_state_manager h0);
  um_groups : m_groups (h_state_manager h) = m_groups (h_state_manager h0)
}.

(** What is left when a step stops early. *)
Record stays h0 h : Prop := {
  st_ok : sched_ok h;
  st_unmoved : unmoved h0 h;
  st_counter : h_step_counter h0 ≤ h_step_counter h ≤ h_step_counter h0 + 1;
  st_commits : spent 1 (h_state_manager h0) (h_state_manager h)
}.

(** A step with its sequence in hand: taken out of its place, with a
    reservation of [n] tokens ([0]: none). *)
Record holding h0 (counter n : Z) (seq : Sequence) h : Prop := {
  hd_inv : sched_inv (open (s_seq_id seq) n) (set_active (Some seq) h);
  hd_active : h_active h = None;
  hd_unmoved : unmoved h0 (set_active (Some seq) h);
  hd_counter : h_step_counter h = counter;
  hd_range : h_step_counter h0 ≤ counter ≤ h_step_counter h0 + 1;
  hd_left : commits_left (h_state_manager h0);
  hd_commits : spent 0 (h_state_manager h0) (h_state_manager h);
  hd_reserved : 0 ≤ n
}.

Lemma progress_active s h : h_active h = None → progress (set_active (Some s) h) ≡ₚ record_of s :: progress h.
Proof.
  intros Ha. unfold progress, sequences. rewrite Ha.
  exact (Permutation_map record_of (tracked_active (h_queued h) s (h_paused h))).
Qed.

Lemma unmoved_refl h : unmoved h h.
Proof. by constructor. Qed.

Lemma unmoved_trans h0 h1 h2 : unmoved h0 h1 → unmoved h1 h2 → unmoved h0 h2.
Proof.
  intros [P1 ? ? ? ? ? ? ? ?] [P2 ? ? ? ? ? ? ? ?]. constructor; [by rewrite P2|congruence..].
Qed.

(** Changes of the manager, the device side and the hooks move nothing a
    caller can ask about. *)
Lemma unmoved_step h0 h h' :
  unmoved h0 h → progress h' ≡ₚ progress h → h_finished h' = h_finished h →
  h_last_committed_step h' = h_last_committed_step h → h_schedule_log h' = h_schedule_log h →
  h_config h' = h_config h → h_cost_table h' = h_cost_table h → h_arrival_counter h' = h_arrival_counter h →
  m_next_seq (h_state_manager h') = m_next_seq (h_state_manager h) →
  m_groups (h_state_manager h') = m_groups (h_state_manager h) → unmoved h0 h'.
Proof. intros Hu. intros. eapply unmoved_trans; [exact Hu|by constructor]. Qed.

End invariant.
