(* ===== verification/PreStepSpec.v ===== *)
(** * The pre-step keeps everything

    Planning an admission never panics and never plans past the prompt; the
    reservation either opens the planned tail or leaves the sequence waiting,
    paused or restored; the batch is filled; and the step id is the next one.

    The stages of a step: Each stage of [Scheduler::step] keeps the invariant and loses nothing:
    failing after the reservation, planning and reserving, the device phase,
    and the post-step. *)

From S2P Require Import Prelude Wp Bytes Errors Spec Pools Manager Invariant Reserve Admission Commit Workspace Emit BatchSpec SchedError Arena Capture CaptureSpec Cost Streams Inline Log Detok Sequence Generation Append Scheduler Step SchedInv.

#[global] Open Scope Z_scope.

Lemma scase_Ok {S E F A B} (c : stm S E A) (ok : A → stm S F B) err s a s' :
  c s = (Ok a, s') → scase c ok err s = ok a s'.
Proof. unfold scase. by intros ->. Qed.
Lemma scase_Err {S E F A B} (c : stm S E A) (ok : A → stm S F B) err s e s' :
  c s = (Err e, s') → scase c ok err s = err e s'.
Proof. unfold scase. by intros ->. Qed.

Lemma wp_scase {S E F A B} (c : stm S E A) (ok : A → stm S F B) err Q R s :
  wp c (λ a, wp (ok a) Q R) (λ e, wp (err e) Q R) s → wp (scase c ok err) Q R s.
Proof. unfold wp, scase. by destruct (c s) as [[]]. Qed.

Lemma in_hand queued seq paused : seq ∈ tracked queued (Some seq) paused.
Proof. apply elem_of_tracked. auto. Qed.

(** ** Committing the open reservation *)

Section step_manager.
Context (m : StateManager) (queued : list Sequence) (seq : Sequence) (paused : option Sequence) (finished : results).

(** What a commit of [k] tokens does to the manager of the active sequence. *)
Record committed_by (k : Z) (m' : StateManager) (st' : SeqState) : Prop := {
  cb_manager : manager_ok m';
  cb_config : m_config m' = m_config m;
  cb_groups : m_groups m' = m_groups m;
  cb_next : m_next_seq m' = m_next_seq m;
  cb_seqs : m_seqs m' = <[s_seq_id seq := st']> (m_seqs m);
  cb_state : q_ctx_len st' = s_ctx_len seq + k ∧ q_tail_len st' = 0 ∧ q_compacted st' = None;
  cb_counts : m_commits m' = m_commits m + 1 ∧ m_swaps m ≤ m_swaps m' ≤ m_swaps m + 1
}.

Lemma commit_places n k :
  places_ok (open (s_seq_id seq) n) m queued (Some seq) paused finished →
  0 < n → 0 ≤ k ≤ n → commits_left m →
  ∃ m' st', commit (s_seq_id seq) k m = (Ok tt, m') ∧ committed_by k m' st'.
Proof.
  intros Hpl Hn Hk [Hc Hw]. destruct (pl_manager _ _ _ _ _ _ Hpl) as [bpg Hinv].
  destruct (fit_state _ _ _ (pl_fits _ _ _ _ _ _ Hpl seq (in_hand _ _ _))) as (st & Hst & Hctx & Htail & Hcomp & _).
  rewrite open_eq in Htail. pose proof (commit_cases bpg m (s_seq_id seq) k Hinv (proj1 Hk)) as H.
  destruct (commit (s_seq_id seq) k m) as [[[]|e|] m'] eqn:Hrun; [| |done].
  - destruct H as (s1 & s' & Had & Hd & Hinv'). assert (s1 = st) as ->.
    { pose proof (ca_seq _ _ _ _ Had). congruence. }
    pose proof (cd_manager _ _ _ _ _ _ Hd) as Hm'. destruct (cd_state _ _ _ _ _ _ Hd) as (? & ? & ? & _).
    exists m', s'. split; [done|]. rewrite Hm'. constructor; simpl; try done; [by exists bpg; rewrite <- Hm'| |].
    + split_and!; [lia|done|done].
    + destruct (swaps_buffers m k); lia.
  - exfalso. destruct H as [Href _]. destruct Href; simplify_eq; try congruence; lia.
Qed.
End step_manager.

Section stages.
Context {T D OpStatic W : Type} `{CostTable T, DetokenizerLaws D, StepExecutor W}.
Context (resolve : OpId.t → OpStatic → outcome Text ResolvedVariant) (grown : Z → Z → Z).
Local Notation Scheduler := (Scheduler T D OpStatic).
Local Notation sched := (sched T D OpStatic).
Local Notation sched_inv := (sched_inv resolve).
Local Notation sched_ok := (sched_ok resolve).
Local Notation stays := (stays resolve).
Local Notation holding := (holding resolve).
Implicit Types (h : Scheduler) (seq : Sequence).

Lemma on_manager_run {A} (c : stm StateManager StateError A) h r m' :
  c (h_state_manager h) = (r, m') → on_manager c h = (r, set_state_manager m' h).
Proof. unfold on_manager, szoom. by intros ->. Qed.

(** The invariant after a move of the active sequence and its manager. *)
Lemma inv_move tail tail' h seq seq' m' st' :
  sched_inv tail (set_active (Some seq) h) →
  manager_ok m' → m_config m' = m_config (h_state_manager h) →
  m_next_seq m' = m_next_seq (h_state_manager h) →
  m_seqs m' = <[s_seq_id seq := st']> (m_seqs (h_state_manager h)) → s_seq_id seq' = s_seq_id seq →
  s_phase seq' ≠ Queued → seq_fits m' (tail' (s_seq_id seq)) seq' →
  (∀ id, id ≠ s_seq_id seq → tail' id = tail id) →
  sched_inv tail' (set_active (Some seq') (set_state_manager m' h)).
Proof.
  intros [Hpl Hdv Hst Hcf] **. constructor; [|exact Hdv|exact Hst|exact Hcf].
  eapply places_move; [exact Hpl|done..].
Qed.

Lemma inv_tail tail tail' h : sched_inv tail h → (∀ id, tail' id = tail id) → sched_inv tail' h.
Proof. intros [Hpl Hdv Hst Hcf] Ht. constructor; [by eapply places_tail|done..]. Qed.

Lemma inv_swap tail h seq seq' :
  sched_inv tail (set_active (Some seq) h) → same_progress seq seq' →
  sched_inv tail (set_active (Some seq') h).
Proof. intros [Hpl Hdv Hst Hcf] Hs. constructor; [exact (places_swap _ _ _ _ _ _ _ Hpl Hs)|done..]. Qed.

Lemma progress_swap h seq seq' :
  h_active h = None → same_progress seq seq' →
  progress (set_active (Some seq') h) ≡ₚ progress (set_active (Some seq) h).
Proof. intros Ha [Hr _ _]. by rewrite !progress_active, Hr. Qed.

Lemma holding_swap h0 c n seq seq' h : holding h0 c n seq h → same_progress seq seq' → holding h0 c n seq' h.
Proof.
  intros [Hinv Ha Hu Hc Hr Hl Hs Hn] Hsame. constructor; try done.
  - rewrite (same_progress_id _ _ Hsame). by eapply inv_swap.
  - eapply unmoved_step; [exact Hu|by apply progress_swap|done..].
Qed.

(** The fields the holder may write. *)
Lemma holding_in_flight h0 c n seq h f : holding h0 c n seq h → holding h0 c n seq (set_in_flight f h).
Proof. intros [[Hpl Hdv Hst Hcf] Ha [] Hc Hr Hl Hs Hn]. constructor; try done; by constructor. Qed.

Lemma holding_hooks h0 c n seq h p d pause :
  holding h0 c n seq h → holding h0 c n seq (set_hooks (h_schedule_log h) p d pause h).
Proof. intros [[Hpl Hdv Hst Hcf] Ha [] Hc Hr Hl Hs Hn]. constructor; try done; by constructor. Qed.

Lemma holding_device h0 c n seq h a w gc ch :
  holding h0 c n seq h → device_ok resolve a w gc ch → holding h0 c n seq (set_device a w gc ch h).
Proof. intros [[Hpl Hdv Hst Hcf] Ha [] Hc Hr Hl Hs Hn] Hd. constructor; try done; by constructor. Qed.

(** Without a reservation nothing is owed. *)
Lemma holding_stays h0 c seq h :
  holding h0 c 0 seq h → h_in_flight h = None → stays h0 (set_active (Some seq) h).
Proof.
  intros [Hinv Ha Hu Hc Hr Hl Hs Hn] Hf. constructor; [split; [|done]|done|cbn; by rewrite Hc|].
  - eapply inv_tail; [exact Hinv|]. intros id. by rewrite open_zero.
  - cbn. unfold spent in *. lia.
Qed.

Lemma wp_restore {A} h0 c seq h e (Q : A → _ → Prop) :
  holding h0 c 0 seq h → h_in_flight h = None → wp (restore seq e) Q (λ _ h', stays h0 h') h.
Proof. intros Hh Hf. unfold restore. do 3 wp_step. by eapply holding_stays. Qed.

(** The tail left open is committed away. *)
Lemma abort_tail_spec h0 c n seq h :
  holding h0 c n seq h → h_in_flight h = None →
  ∃ m', abort_tail (s_seq_id seq) (set_active (Some seq) h) = (Ok tt, set_active (Some seq) (set_state_manager m' h)) ∧
    stays h0 (set_active (Some seq) (set_state_manager m' h)).
Proof.
  intros Hh Hfl. pose proof Hh as [Hinv Ha Hu Hc Hr Hl Hs Hn]. pose proof (si_places _ _ _ Hinv) as Hpl.
  pose proof (pl_fits _ _ _ _ _ _ Hpl seq (in_hand _ _ _)) as Hfit.
  destruct (fit_state _ _ _ Hfit) as (st & Hst & Hctx & Htail & _ & Hq). rewrite open_eq in Htail. cbn in Hst.
  pose proof (pl_active _ _ _ _ _ _ Hpl seq eq_refl) as Hphase.
  unfold abort_tail, tail_len, seq_state. cbn. rewrite Hst. cbn. rewrite Htail.
  destruct (Z.ltb_spec 0 n) as [Hpos|Hzero].
  - destruct (commit_places (h_state_manager h) (h_queued h) seq (h_paused h) (h_finished h) n 0 Hpl Hpos ltac:(lia)
      (spent_left _ _ Hs Hl)) as (m' & st' & Hrun & [Hm' Hcfg Hg Hnx Hsq (Hc' & Ht' & Hcm') Hct]).
    exists m'. split.
    { unfold scase. by rewrite (on_manager_run _ (set_active (Some seq) h) _ _ Hrun). }
    constructor; [split; [|done]| |cbn; lia|cbn; unfold spent in *; lia].
    + eapply inv_move; [exact Hinv|done..| |by intros id Hid; rewrite open_ne by done].
      destruct Hfit as [? ? ? ? _]. constructor; [done..|by rewrite Hcfg|].
      exists st'. rewrite Hsq, lookup_insert_eq. split_and!; [done|lia|done|done|done].
    + eapply unmoved_step; [exact Hu|done..].
  - exists (h_state_manager h). assert (n = 0) as -> by lia. destruct h. split; [done|]. by eapply holding_stays.
Qed.

(** Failing after the reservation: the sequence is active again, its tail is
    gone, and the error is the original one. *)
Lemma wp_fail_step {A} h0 c n seq h e (Q : A → _ → Prop) :
  holding h0 c n seq h → wp (fail_step seq e) Q (λ _ h', stays h0 h') h.
Proof.
  intros Hh. destruct (abort_tail_spec h0 c n seq (set_in_flight None h)) as (m' & Hrun & Hst).
  { by apply holding_in_flight. }
  { done. }
  unfold fail_step. do 5 wp_step. unfold wp at 1.
  change (set_in_flight None (set_active (Some seq) h)) with (set_active (Some seq) (set_in_flight None h)).
  by rewrite Hrun.
Qed.

Lemma wp_or_restore {A} h0 c seq h (o : SchedResult A) (Q : A → _ → Prop) :
  holding h0 c 0 seq h → h_in_flight h = None → o ≠ Panic → (∀ a, o = Ok a → Q a h) →
  wp (or_restore seq o) Q (λ _ h', stays h0 h') h.
Proof. intros Hh Hf Hp HQ. destruct o; [by apply HQ|by eapply wp_restore|done]. Qed.

Lemma wp_or_fail {A} h0 c n seq h (o : SchedResult A) (Q : A → _ → Prop) :
  holding h0 c n seq h → o ≠ Panic → (∀ a, o = Ok a → Q a h) →
  wp (or_fail seq o) Q (λ _ h', stays h0 h') h.
Proof. intros Hh Hp HQ. destruct o; [by apply HQ|by eapply wp_fail_step|done]. Qed.
End stages.

(** * The pre-step keeps everything *)

(** ** Opening the reservation *)

Section manager.
Context (m : StateManager) (queued : list Sequence) (seq : Sequence) (paused : option Sequence) (finished : results).

(** What a reservation of [n] tokens does to the manager of the active sequence. *)
Record reserved_by (n : Z) (m' : StateManager) (r : SlotRange) : Prop := {
  rb_places : places_ok (open (s_seq_id seq) n) m' queued (Some seq) paused finished;
  rb_range : r = {| r_seq := s_seq_id seq; r_start := s_ctx_len seq; r_len := n |};
  rb_count : 0 < n;
  rb_groups : m_groups m' = m_groups m;
  rb_next : m_next_seq m' = m_next_seq m;
  rb_commits : spent 0 m m'
}.

Lemma reserve_places n :
  places_ok (open (s_seq_id seq) 0) m queued (Some seq) paused finished → 0 ≤ n →
  match reserve (s_seq_id seq) n m with
  | (Ok r, m') => reserved_by n m' r
  | (Err e, m') => reserve_refused m (s_seq_id seq) n e ∧ m' = set_scratch (m_reserve_scratch m') m
  | (Panic, _) => False
  end.
Proof.
  intros Hpl Hn. destruct (pl_manager _ _ _ _ _ _ Hpl) as [bpg Hinv].
  pose proof (pl_fits _ _ _ _ _ _ Hpl seq (in_hand _ _ _)) as Hfit.
  destruct (fit_state _ _ _ Hfit) as (st & Hst & Hctx & Htail & Hcomp & Hq).
  pose proof (pl_active _ _ _ _ _ _ Hpl seq eq_refl) as Hphase.
  pose proof (reserve_cases bpg m (s_seq_id seq) n Hinv Hn) as Hr.
  destruct (reserve (s_seq_id seq) n m) as [[r|e|] m']; [|done|done].
  destruct Hr as (s & s' & Had & Hd & -> & Hsh & Hpo).
  assert (s = st) as -> by (pose proof (ra_seq _ _ _ _ Had); congruence).
  pose proof (reserve_done_inv bpg m (s_seq_id seq) n st s' m' Hinv Had Hd Hsh Hpo) as Hinv'.
  pose proof (rd_manager _ _ _ _ _ _ Hd) as Hm. pose proof (rd_state _ _ _ _ _ _ Hd) as Hs'.
  constructor; [| |by destruct (ra_n _ _ _ _ Had)|by rewrite Hm|by rewrite Hm|rewrite Hm; unfold spent; cbn; lia].
  - eapply (places_move _ _ m m' _ seq seq _ _ s'); try done.
    + by exists bpg.
    + by rewrite Hm.
    + by rewrite Hm.
    + by rewrite Hm.
    + destruct Hfit as [? ? ? ? _]. constructor; [done..|by rewrite Hm|].
      exists s'. rewrite Hm. cbn. rewrite lookup_insert_eq, Hs'. cbn. rewrite open_eq. split_and!; done.
    + intros id Hid. by rewrite !open_ne.
  - by rewrite Hctx.
Qed.

Lemma places_scratch tail sc :
  places_ok tail m queued (Some seq) paused finished →
  places_ok tail (set_scratch sc m) queued (Some seq) paused finished.
Proof.
  intros [[bpg Hm] ? ? Hfits ? ? ? ?]. constructor; try done.
  - exists bpg. by apply manager_inv_scratch.
  - intros s Hs. by apply (seq_fits_same m); [apply Hfits|..].
Qed.
End manager.

(** A decode that cannot reserve gives up its place, keeping everything. *)
Lemma places_pause tail m queued seq paused finished :
  places_ok tail m queued (Some seq) paused finished → s_phase seq = Decoding →
  paused = None ∧ places_ok tail m queued None (Some seq) finished.
Proof.
  intros Hpl Hph. destruct paused as [p|]; [by destruct (pl_paused _ _ _ _ _ _ Hpl p eq_refl)|].
  split; [done|].
  assert (tracked queued None (Some seq) = tracked queued (Some seq) None) as Heq.
  { unfold tracked. by rewrite app_nil_r. }
  destruct Hpl as [Hm Hids Hlive Hfits Hq Ha Hp Hf]. constructor; rewrite ?Heq; try done.
  by intros s [= <-].
Qed.

(** The head of the queue starts its prompt. *)
Lemma places_start tail m seq queued finished :
  places_ok tail m (seq :: queued) None None finished →
  places_ok tail m queued (Some (set_phase (Prefilling 0) seq)) None finished.
Proof.
  intros [Hm Hids Hlive Hfits Hq Ha Hp Hf].
  assert (tracked (seq :: queued) None None ≡ₚ seq :: tracked queued None None) as Hperm by done.
  assert (map s_seq_id (tracked queued (Some (set_phase (Prefilling 0) seq)) None) ≡ₚ
    map s_seq_id (tracked (seq :: queued) None None)) as Heq.
  { by rewrite tracked_active. }
  constructor; rewrite ?Heq; try done.
  - intros id. by rewrite Heq.
  - intros s Hs. apply elem_of_tracked in Hs as [Hs|[[= <-]|?]]; [| |done].
    + apply Hfits, elem_of_tracked. left. by right.
    + destruct (Hfits seq) as [Hreq Hph Hsp Hpr (st & ? & ? & ? & ? & ?)]; [apply elem_of_tracked; left; by left|].
      specialize (Hq seq ltac:(by left)). unfold phase_ok in Hph. rewrite Hq in Hph. destruct Hph as [Hc Hg].
      constructor; try done.
      * unfold phase_ok. cbn. split_and!; [done|done| |done].
        pose proof (wq_prompt _ Hreq). unfold prompt_of. cbn. destruct (q_tokens (s_req seq)); [done|simpl; lia].
      * exists st. by split_and!.
  - intros s Hs. apply Hq. by right.
  - by intros s [= <-].
  - intros id Hid. rewrite Heq. by apply Hf.
Qed.

Lemma places_resume tail m queued seq finished :
  places_ok tail m queued None (Some seq) finished → places_ok tail m queued (Some seq) None finished.
Proof.
  assert (tracked queued None (Some seq) = tracked queued (Some seq) None) as Heq.
  { unfold tracked. by rewrite app_nil_r. }
  intros [Hm Hids Hlive Hfits Hq Ha Hp Hf]. rewrite Heq in Hids, Hlive, Hfits, Hf. constructor; try done.
  intros s [= <-]. by destruct (Hp seq eq_refl) as [-> _].
Qed.

Section prestep.
Context {T D OpStatic W : Type} `{CostTable T, DetokenizerLaws D, StepExecutor W}.
Context (resolve : OpId.t → OpStatic → outcome Text ResolvedVariant) (grown : Z → Z → Z).
Local Notation Scheduler := (Scheduler T D OpStatic).
Local Notation sched := (sched T D OpStatic).
Local Notation stays := (stays resolve).
Local Notation holding := (holding resolve).
Implicit Types (h : Scheduler) (seq : Sequence).

Lemma charge_wait_spec b seq :
  charge_wait b seq ≠ Panic ∧
  (well_spaced (s_detokenized_tail seq) → ∀ seq', charge_wait b seq = Ok seq' → same_progress seq seq').
Proof.
  unfold charge_wait. split; [eauto with total|]. intros Hws seq' (n & _ & [= <-])%obind_Ok_inv. by constructor.
Qed.

Lemma holding_spaced h0 c n seq h : holding h0 c n seq h → well_spaced (s_detokenized_tail seq).
Proof.
  intros Hh. apply (fit_spaced _ _ _ (pl_fits _ _ _ _ _ _ (si_places _ _ _ (hd_inv _ _ _ _ _ _ Hh)) seq (in_hand _ _ _))).
Qed.

(** The wait is charged and the sequence is active again. *)
Lemma wp_wait_admission h0 c seq h b :
  holding h0 c 0 seq h → h_in_flight h = None →
  wp (wait_admission b seq) (λ _ h', stays h0 h') (λ _ h', stays h0 h') h.
Proof.
  intros Hh Hf. unfold wait_admission. wp_step. destruct (charge_wait_spec b seq) as [Hnp Hsame].
  eapply wp_or_restore; [done..|]. intros seq' Hc. wp_step.
  eapply holding_stays; [eapply holding_swap; [done|]|done]. by eauto using holding_spaced.
Qed.

Lemma holding_pause h0 c seq h :
  holding h0 c 0 seq h → h_in_flight h = None → s_phase seq = Decoding →
  stays h0 (set_paused (Some seq) (set_pending_pause (Some (s_seq_id seq)) h)).
Proof.
  intros [[Hpl Hdv Hst Hcf] Ha Hu Hc Hr Hl Hs Hn] Hf Hph.
  destruct (places_pause _ _ _ _ _ _ Hpl Hph) as [Hnone Hpl'].
  constructor; [split; [|done]| |cbn; lia|cbn; unfold spent in *; lia].
  - constructor; [|exact Hdv|exact Hst|exact Hcf]. cbn. rewrite Ha.
    eapply places_tail; [exact Hpl'|]. intros id. by rewrite open_zero.
  - eapply unmoved_step; [exact Hu| |done..]. unfold progress, sequences, tracked. cbn in *.
    rewrite Ha, Hnone. cbn. done.
Qed.

(** A manager that moved only this sequence. *)
Lemma holding_reserved h0 c n seq h m' r :
  holding h0 c 0 seq h →
  reserved_by (h_state_manager h) (h_queued h) seq (h_paused h) (h_finished h) n m' r →
  holding h0 c n seq (set_state_manager m' h).
Proof.
  intros [[Hpl Hdv Hst Hcf] Ha Hu Hc Hr Hl Hs Hn] [Hpl' _ Hpos Hg Hnx Hsp].
  constructor; try done; [|cbn; unfold spent in *; lia|lia].
  by eapply unmoved_step; [exact Hu|..].
Qed.

Lemma holding_scratch h0 c n seq h sc :
  holding h0 c n seq h → holding h0 c n seq (set_state_manager (set_scratch sc (h_state_manager h)) h).
Proof.
  intros [[Hpl Hdv Hst Hcf] Ha Hu Hc Hr Hl Hs Hn]. constructor; try done.
  - constructor; [|done..]. by apply places_scratch.
  - by eapply unmoved_step; [exact Hu|..].
Qed.

(** What a reservation leaves in hand. *)
Definition opened h0 (c : Z) (adm : Admission) seq (r : option SlotRange) h : Prop :=
  match r with
  | Some r => holding h0 c (reserve_n adm) seq h ∧ 0 < reserve_n adm ∧ h_in_flight h = None ∧
      r = {| r_seq := s_seq_id seq; r_start := s_ctx_len seq; r_len := reserve_n adm |}
  | None => stays h0 h
  end.

Lemma wp_reserve_step h0 c seq h adm b :
  holding h0 c 0 seq h → h_in_flight h = None → 0 ≤ reserve_n adm →
  (am_is_decode adm = true → s_phase seq = Decoding) →
  wp (reserve_step b adm seq) (opened h0 c adm seq) (λ _ h', stays h0 h') h.
Proof.
  intros Hh Hf Hn Hdec. unfold reserve_step. apply wp_scase. unfold on_manager. wp_step.
  pose proof (reserve_places (h_state_manager h) (h_queued h) seq (h_paused h) (h_finished h) (reserve_n adm)
    (si_places _ _ _ (hd_inv _ _ _ _ _ _ Hh)) Hn) as Hr.
  unfold wp at 1. destruct (reserve _ _ _) as [[r|e|] m'] eqn:Hrun; [| |done].
  - wp_step. cbn. split_and!; [by eapply holding_reserved|apply Hr|done|apply Hr].
  - destruct Hr as [_ ->]. pose proof (holding_scratch _ _ _ _ _ (m_reserve_scratch m') Hh) as Hh'.
    destruct e; try (eapply wp_restore; [exact Hh'|done]).
    wp_step. destruct (am_is_decode adm).
    + unfold pause_decode. do 4 wp_step. by eapply holding_pause; [exact Hh'|..]; auto.
    + eapply wp_mono; [eapply wp_wait_admission; [exact Hh'|done]| |done]. intros [] h' Hst. by wp_step.
Qed.

(** ** Planning *)

(** An admission of the next step, within the prompt. *)
Record planned (counter : Z) seq (adm : Admission) : Prop := {
  pn_next : am_next_step adm = counter + 1 ∧ counter + 1 ≤ U64_MAX;
  pn_phase : match s_phase seq with
             | Decoding => am_is_decode adm = true ∧ am_chunk adm = 0
             | Prefilling done => am_is_decode adm = false ∧ 0 < am_chunk adm ≤ prompt_of seq - done
             | _ => False
             end
}.

Lemma prefill_room_total (t : T) b s d p : cost_total t → prefill_room_ms t b s d p ≠ Panic.
Proof.
  intros Ht. unfold prefill_room_ms. case_match; [done|].
  apply obind_total; [by apply decode_cost_total|done].
Qed.

Lemma resolve_budget_total (t : T) c p : cost_total t → resolve_budget_ms t c p ≠ Panic.
Proof.
  intros Ht. unfold resolve_budget_ms. apply obind_total; [|intros b _; unfold validate_budget_ms; by case_match].
  destruct c; try done. apply obind_total; [by apply Ht|done].
Qed.

Lemma bucket_step_total s d p : 0 ≤ s → 0 ≤ d → 0 ≤ p → bucket_step s d p ≠ Panic.
Proof. intros. pose proof (bucket_step_cases s d p) as Hb. destruct (bucket_step s d p); [done..|]. naive_solver. Qed.

Lemma choose_chunk_range h seq remaining b o c forced :
  0 < sg_prefill_min_chunk (h_config h) → 0 < remaining → (∀ c, o = Some c → 0 < c ≤ remaining) →
  choose_chunk h seq remaining b o = Some (c, forced) → 0 < c ≤ remaining.
Proof.
  intros Hmin Hrem Ho. unfold choose_chunk. destruct o as [c'|].
  - intros [= <- _]. auto.
  - case_match; [|done]. intros [= <- _]. lia.
Qed.

Lemma plan_admission_spec h seq b e :
  cost_total (h_cost_table h) → config_fine (h_config h) (h_cost_table h) → phase_ok seq →
  prompt_len seq = prompt_of seq →
  plan_admission h seq b e ≠ Panic ∧
  ∀ plan adm, plan_admission h seq b e = Ok plan → admission_of plan = Some adm → planned (h_step_counter h) seq adm.
Proof.
  intros Ht [Hch _] Hph Hlen. unfold plan_admission, phase_ok in *.
  destruct (checked_add U64_MAX (h_step_counter h) 1) as [next|] eqn:Hnext; [|by split].
  apply checked_add_Some in Hnext as [-> Hle]. cbn [ok_or obind].
  assert (∀ c, 0 ≤ c → omap_err SIr (bucket_step 1 1 c) ≠ Panic) as Hb.
  { intros c ?. apply omap_err_total, bucket_step_total; lia. }
  destruct (s_phase seq) as [|done| |] eqn:Hphase; [by split| | |by split].
  - unfold plan_prefill. destruct Hph as (Hc & Hd & _). rewrite Hlen.
    unfold checked_sub. rewrite (proj2 (Z.leb_le _ _)) by lia. cbn [ok_or obind].
    pose proof (prefill_room_total (h_cost_table h) b 0 0 e Ht) as Hr.
    destruct (prefill_room_ms _ _ _ _ _) as [room|?|]; cbn [obind]; [|by split|done].
    pose proof (select_prefill_chunk_cases (h_cost_table h) (prompt_of seq - done) 0 0 room
      (sg_prefill_min_chunk (h_config h)) (sg_prefill_max_chunk (h_config h)) Ht ltac:(lia) ltac:(lia)) as Hsel.
    destruct (select_prefill_chunk _ _ _ _ _ _ _) as [o|?|]; cbn [obind]; [|by split|done].
    destruct (choose_chunk h seq (prompt_of seq - done) b o) as [[chunk forced]|] eqn:Hchoice;
      [|by split; [|intros ? ? [= <-]]].
    apply choose_chunk_range in Hchoice; [|lia|lia|].
    2: { intros c ->. lia. }
    split.
    + apply obind_total; [apply Hb; lia|]. intros [[s d] p] _. apply obind_total; [apply Ht|done].
    + intros plan adm ([[s d] p] & _ & (cost & _ & [= <-])%obind_Ok_inv)%obind_Ok_inv [= <-].
      constructor; cbn; [done|]. by rewrite Hphase.
  - unfold plan_decode. split.
    + apply obind_total; [by apply Hb|]. intros [[s d] p] _. apply obind_total; [apply Ht|done].
    + intros plan adm ([[s d] p] & _ & (cost & _ & [= <-])%obind_Ok_inv)%obind_Ok_inv [= <-].
      constructor; cbn; [done|]. by rewrite Hphase.
Qed.

(** ** Admitting *)

Lemma holding_prompt h0 c n seq h : holding h0 c n seq h →
  seq_fits (h_state_manager h) n seq ∧ prompt_len seq = prompt_of seq ∧ s_phase seq ≠ Queued ∧
  manager_ok (h_state_manager h) ∧ is_u32 n ∧ prompt_of seq ≤ U32_MAX.
Proof.
  intros Hh. pose proof (si_places _ _ _ (hd_inv _ _ _ _ _ _ Hh)) as Hpl.
  pose proof (pl_fits _ _ _ _ _ _ Hpl seq (in_hand _ _ _)) as Hfit. rewrite open_eq in Hfit.
  pose proof (pl_manager _ _ _ _ _ _ Hpl) as Hm. pose proof (phase_prompt_len _ _ _ Hm Hfit).
  split_and!; [done|done|by eapply pl_active|done| |].
  - destruct (fit_state _ _ _ Hfit) as (st & Hst & _ & Htail & _). destruct Hm as [bpg Hinv]. cbn in Hst.
    destruct (mi_seqs _ _ Hinv _ st Hst) as [_ Hok]. pose proof (so_end _ _ _ Hok). pose proof (so_ctx _ _ _ Hok).
    destruct (mi_config _ _ Hinv) as (Hc & _ & _). pose proof (so_tail _ _ _ Hok).
    unfold is_u32, U32_MAX, MAX_CTX_HARD in *. cbn in *. lia.
  - pose proof (fit_prompt _ _ _ Hfit). destruct Hm as [bpg Hinv]. destruct (mi_config _ _ Hinv) as (Hc & _ & _).
    unfold U32_MAX, MAX_CTX_HARD in *. cbn in *. lia.
Qed.

Lemma holding_proposer h0 c n seq h f :
  holding h0 c n seq h → holding h0 c n seq (set_proposer (f (h_proposer h)) h).
Proof. apply holding_hooks. Qed.

(** The planned chunk lies inside the prompt, so its tokens are announced. *)
Lemma notify_prefill_runs seq adm counter h :
  planned counter seq adm → am_is_decode adm = false → phase_ok seq → prompt_of seq ≤ U32_MAX →
  ∃ f, notify_prefill adm seq h = (Ok tt, set_proposer (f (h_proposer h)) h).
Proof.
  intros [_ Hp] Hdec Hph Hu. unfold notify_prefill, phase_ok in *.
  destruct (s_phase seq) as [|d| |]; [done| | |done]; [|by destruct Hp; congruence].
  destruct Hp as [_ [Hpos Hle]]. unfold U32_MAX, prompt_of in *.
  rewrite checked_add_ok by (unfold USIZE_MAX, U64_MAX; lia). rewrite (proj2 (Z.leb_le _ _)) by lia.
  eexists. reflexivity.
Qed.

Lemma wp_fill_step h0 c seq adm h :
  holding h0 c (reserve_n adm) seq h → h_in_flight h = None →
  wp (fill_step grown adm seq) (λ _ h', holding h0 c (reserve_n adm) seq h' ∧ h_in_flight h' = None)
    (λ _ h', stays h0 h') h.
Proof.
  intros Hh Hf. destruct (holding_prompt _ _ _ _ _ Hh) as (_ & _ & _ & Hm & Hn & _).
  pose proof (si_device _ _ _ (hd_inv _ _ _ _ _ _ Hh)) as [Ha Hw Hp Hc Hch].
  unfold fill_step. apply wp_scase.
  destruct (fill_keeps grown (h_state_manager h) [s_seq_id seq] [reserve_n adm] None None (h_batch_workspace h) Hm)
    as (r & w' & Hrun & Hnp & Hw' & _); [split; [by apply Forall_singleton|done]|done|].
  unfold wp at 1, szoom, fill_batch_meta. rewrite Hrun.
  assert (holding h0 c (reserve_n adm) seq (set_batch_workspace w' h)) as Hh' by by apply holding_device.
  destruct r as [[]|e|]; [by wp_step|by eapply wp_fail_step|done].
Qed.

(** The step id is issued. *)
Lemma holding_next h0 c n seq h :
  holding h0 c n seq h → c = h_step_counter h0 → c + 1 ≤ U64_MAX → holding h0 (c + 1) n seq (set_step_counter (c + 1) h).
Proof.
  intros [[Hpl Hdv [Hu Hlast (l & Hl & Hlen)] Hcf] Ha Hum Hc Hr Hlf Hs Hn] -> Hle. cbn in *. unfold is_u64 in *.
  constructor; try done; [|by destruct Hum; constructor|lia].
  constructor; try done. constructor; [cbn; unfold is_u64; lia| |exists l; split; [done|cbn; lia]].
  intros k Hk. specialize (Hlast k Hk). cbn; lia.
Qed.

(** What pre-step hands over. *)
Record prepared h0 (p : Prepared) h : Prop := {
  pr_holding : holding h0 (h_step_counter h0 + 1) (reserve_n (pp_adm p)) (pp_seq p) h;
  pr_planned : planned (h_step_counter h0) (pp_seq p) (pp_adm p);
  pr_range : pp_reservation p =
    {| r_seq := s_seq_id (pp_seq p); r_start := s_ctx_len (pp_seq p); r_len := reserve_n (pp_adm p) |};
  pr_step : sp_step_id (pp_step p) = am_next_step (pp_adm p)
}.

(** Either a step is prepared or nothing moved. *)
Definition prestepped h0 (o : option Prepared) h : Prop :=
  match o with Some p => prepared h0 p h | None => stays h0 h end.

Lemma planned_reserve counter seq adm : planned counter seq adm → 0 < reserve_n adm ∧
  (am_is_decode adm = true → s_phase seq = Decoding).
Proof.
  intros [_ Hp]. unfold reserve_n. destruct (s_phase seq); try done.
  - destruct Hp as [-> ?]. by split; [lia|].
  - destruct Hp as [-> ?]. done.
Qed.

Lemma planned_same counter seq seq' adm : same_progress seq seq' → planned counter seq adm → planned counter seq' adm.
Proof.
  intros [[= Hid Hr Hc Hg] Hph _] [Hn Hp]. constructor; [done|]. unfold prompt_of in *. by rewrite Hph, Hr.
Qed.

Local Notation stops h0 := (λ (_ : SchedError) h', stays h0 h').

(** The forced wait, before anything is reserved. *)
Lemma wp_force h0 c b adm seq h :
  holding h0 c 0 seq h → h_in_flight h = None →
  wp (if am_forced adm then or_restore seq (charge_wait b seq) else sret seq)
    (λ seq' h', h' = h ∧ same_progress seq seq') (stops h0) h.
Proof.
  intros Hh Hf. destruct (charge_wait_spec b seq) as [Hnp Hsame]. pose proof (holding_spaced _ _ _ _ _ Hh) as Hws.
  destruct (am_forced adm).
  - eapply wp_or_restore; [done..|]. intros seq' Hc. split; [done|eauto].
  - wp_step. by split.
Qed.

Lemma wp_draft h0 c adm seq h :
  holding h0 c 0 seq h → h_in_flight h = None →
  wp (if am_is_decode adm then on_proposer (draft (s_seq_id seq) 0) else sret tt)
    (λ _ h', holding h0 c 0 seq h' ∧ h_in_flight h' = None) (stops h0) h.
Proof.
  intros Hh Hf. destruct (am_is_decode adm); [unfold on_proposer|]; wp_step; [|done].
  split; [by apply holding_proposer|done].
Qed.

Lemma wp_notify h0 c n counter adm seq h :
  holding h0 c n seq h → h_in_flight h = None → planned counter seq adm →
  wp (if am_is_decode adm then sret tt else notify_prefill adm seq)
    (λ _ h', holding h0 c n seq h' ∧ h_in_flight h' = None) (stops h0) h.
Proof.
  intros Hh Hf Hp. destruct (am_is_decode adm) eqn:Hdec; [by wp_step|].
  destruct (holding_prompt _ _ _ _ _ Hh) as (Hfit & _ & _ & _ & _ & Hu).
  destruct (notify_prefill_runs seq adm counter h Hp Hdec (fit_phase _ _ _ Hfit) Hu) as (f & Hrun).
  unfold wp. rewrite Hrun. split; [by apply holding_proposer|done].
Qed.

Lemma wp_begin_admission h0 b e adm seq h :
  holding h0 (h_step_counter h0) 0 seq h → h_in_flight h = None → planned (h_step_counter h0) seq adm →
  wp (begin_admission grown b e adm seq) (prestepped h0) (stops h0) h.
Proof.
  intros Hh Hf Hp. unfold begin_admission. wp_step.
  eapply wp_mono; [by apply (wp_force h0 (h_step_counter h0))| |done]. intros seq' ? [-> Hsame].
  pose proof (holding_swap _ _ _ _ _ _ _ Hh Hsame) as Hh'. pose proof (planned_same _ _ _ _ Hsame Hp) as Hp'.
  destruct (planned_reserve _ _ _ Hp') as [Hpos Hdec].
  wp_step. eapply wp_mono; [by eapply wp_draft| |done]. intros [] h1 [Hh1 Hf1].
  wp_step. eapply wp_mono; [eapply wp_reserve_step; [exact Hh1|done|lia|done]| |done].
  intros [r|] h2 Hr; [|by wp_step]. destruct Hr as (Hh2 & _ & Hf2 & ->).
  wp_step. eapply wp_mono; [by eapply wp_notify| |done]. intros [] h3 [Hh3 Hf3].
  wp_step. eapply wp_mono; [by eapply wp_fill_step| |done]. intros [] h4 [Hh4 Hf4].
  destruct (pn_next _ _ _ Hp') as [Hnext Hmax]. do 7 wp_step. cbn.
  constructor; [|done..]. apply holding_in_flight. rewrite Hnext. by apply holding_next.
Qed.

Lemma wp_plan_and_admit h0 b e seq h :
  holding h0 (h_step_counter h0) 0 seq h → h_in_flight h = None →
  wp (plan_and_admit grown b e seq) (prestepped h0) (stops h0) h.
Proof.
  intros Hh Hf. destruct (holding_prompt _ _ _ _ _ Hh) as (Hfit & Hlen & Hq & _).
  pose proof (fit_phase _ _ _ Hfit) as Hph. pose proof (si_config _ _ _ (hd_inv _ _ _ _ _ _ Hh)) as Hcf.
  destruct (plan_admission_spec h seq b e (cf_cost _ _ Hcf) Hcf Hph Hlen) as [Hnp Hplan].
  rewrite (hd_counter _ _ _ _ _ _ Hh) in Hplan.
  assert (wp (let! h := sget in
      let! plan := or_restore seq (plan_admission h seq b e) in
      match admission_of plan with
      | None => let! _ := wait_admission b seq in sret None
      | Some adm => begin_admission grown b e adm seq
      end) (prestepped h0) (stops h0) h) as Hmain.
  { do 3 wp_step. eapply wp_or_restore; [done..|]. intros plan Hok.
    destruct (admission_of plan) as [adm|] eqn:Hadm.
    - apply wp_begin_admission; [done..|by eapply Hplan].
    - wp_step. eapply wp_mono; [by eapply wp_wait_admission| |done]. intros [] h' Hst. by wp_step. }
  unfold plan_and_admit, phase_ok in *. by destruct (s_phase seq).
Qed.

(** The next sequence is active. *)
Lemma promote_ok h0 : sched_ok resolve h0 → commits_left (h_state_manager h0) →
  ∃ h, promote h0 = (Ok tt, h) ∧
    match h_active h with
    | None => stays h0 h
    | Some seq => holding h0 (h_step_counter h0) 0 seq (set_active None h) ∧ h_in_flight h = None
    end.
Proof.
  intros Hok Hl. pose proof Hok as [[Hpl Hdv Hst Hcf] Hf].
  assert (∀ h seq, h_active h = Some seq → h_in_flight h = None →
    places_ok closed (h_state_manager h) (h_queued h) (Some seq) (h_paused h) (h_finished h) →
    unmoved h0 h → device_ok resolve (h_arena h) (h_batch_workspace h) (h_graph_cache h) (h_event_chain h) →
    h_step_counter h = h_step_counter h0 → h_state_manager h = h_state_manager h0 →
    holding h0 (h_step_counter h0) 0 seq (set_active None h) ∧ h_in_flight h = None) as Hgo.
  { intros h seq Ha Hf' Hpl' Hu Hdv' Hc Hm. split; [|done]. pose proof Hu as [? ? Hlast Hlog Hcfg Hct ? ? ?].
    constructor; try done; [| |lia|cbn; rewrite Hm; unfold spent; lia].
    - constructor; cbn; rewrite ?Hc, ?Hlast, ?Hlog, ?Hcfg, ?Hct; try done.
      eapply places_tail; [exact Hpl'|]. intros id. apply open_zero.
    - destruct Hu. constructor; try done. change (map record_of (tracked (h_queued h) (Some seq) (h_paused h)) ≡ₚ progress h0).
      by rewrite <- Ha. }
  unfold promote, smodify. eexists. split; [reflexivity|].
  destruct (h_active h0) as [seq|] eqn:Ha.
  { rewrite Ha. apply Hgo; try done. }
  destruct (h_paused h0) as [cand|] eqn:Hp.
  { refine (Hgo (set_active (Some cand) (set_paused None h0)) cand eq_refl Hf _ _ Hdv eq_refl eq_refl);
      [by apply places_resume|].
    constructor; try done. unfold progress, sequences, tracked. cbn. by rewrite Ha, Hp. }
  destruct (h_queued h0) as [|seq queued] eqn:Hq.
  { rewrite Ha. constructor; [done|apply unmoved_refl|lia|unfold spent; lia]. }
  refine (Hgo (set_active (Some (set_phase (Prefilling 0) seq)) (set_queued queued h0)) _ eq_refl Hf _ _ Hdv eq_refl eq_refl).
  { cbn. rewrite Hp. by apply places_start. }
  constructor; try done.
  change (map record_of (tracked queued (Some (set_phase (Prefilling 0) seq)) (h_paused h0)) ≡ₚ
    map record_of (tracked (h_queued h0) (h_active h0) (h_paused h0))).
  by rewrite Ha, Hp, Hq, tracked_active.
Qed.

Lemma wp_pre_step h0 : sched_ok resolve h0 → commits_left (h_state_manager h0) →
  wp (pre_step grown) (prestepped h0) (stops h0) h0.
Proof.
  intros Hok Hl. assert (stays h0 h0) as Hsame.
  { constructor; [done|apply unmoved_refl|lia|unfold spent; lia]. }
  unfold pre_step. do 2 wp_step. destruct (is_idle h0); [by wp_step|].
  do 2 wp_step.
  - apply resolve_budget_total. apply (cf_cost _ _ (si_config _ _ _ (proj1 Hok))).
  - intros b Hb. destruct (promote_ok h0 Hok Hl) as (h & Hrun & Hh). wp_step. unfold wp at 1. rewrite Hrun.
    do 2 wp_step. destruct (h_active h) as [seq|] eqn:Ha; [|by wp_step]. do 2 wp_step.
    destruct Hh as [Hh Hf]. by apply wp_plan_and_admit.
  - done.
Qed.
End prestep.
