(* ===== verification/PostStepSpec.v ===== *)
(** * The post-step

    The token is appended before the commit, the commit consumes exactly the
    reservation, and then the step is logged: post-step either completes the
    step, advancing one sequence and no other, or leaves every sequence where
    it was.

    The device phase keeps everything: Whatever the executor answers, short of a panic, the device phase either
    hands post-step a sample that echoes the step, obeys the accept contract
    and follows the event protocol, or gives the reservation back. *)

From S2P Require Import Prelude Wp Bytes Errors Spec Pools Manager Invariant Reserve Admission Commit Workspace BatchSpec SchedError Arena Capture CaptureSpec Cost Streams Inline Log Detok Sequence Generation Append Scheduler Step SchedInv PreStepSpec.

#[global] Open Scope Z_scope.

(** The executor answers or refuses; it does not panic. *)
Class StepExecutorLaws (W : Type) `{StepExecutor W} : Prop := {
  upload_total i (w : W) : (upload_inputs i w).1 ≠ Panic;
  replay_total g (w : W) : (replay_graph g w).1 ≠ Panic;
  readback_total (w : W) : (readback_sample w).1 ≠ Panic
}.

Section device.
Context {T D OpStatic W : Type} `{CostTable T, DetokenizerLaws D, StepExecutorLaws W}.
Context (resolve : OpId.t → OpStatic → outcome Text ResolvedVariant) (grown : Z → Z → Z).
Local Notation Scheduler := (Scheduler T D OpStatic).
Local Notation stays := (stays resolve).
Local Notation holding := (holding resolve).
Local Notation prepared := (prepared resolve).
Implicit Types (h : Scheduler) (w : W).

Lemma wp_on_host {A} (c : sched T D OpStatic A) Q R h w :
  wp c (λ a h', Q a (h', w)) (λ e h', R e (h', w)) h → wp (on_host c) Q R (h, w).
Proof. intros Hc. unfold on_host. wp_step. exact Hc. Qed.

Lemma wp_on_device {A} (c : stm W SchedError A) Q R h w :
  (c w).1 ≠ Panic → (∀ a w', Q a (h, w')) → (∀ e w', R e (h, w')) → wp (on_device c) Q R (h, w).
Proof.
  intros Hnp HQ HR. unfold on_device. wp_step. unfold wp. cbn [snd].
  destruct (c w) as [[a|e|] w']; auto.
Qed.

Lemma prepared_device h0 p h a b gc ch :
  prepared h0 p h → device_ok resolve a b gc ch → prepared h0 p (set_device a b gc ch h).
Proof. intros [Hh Hp Hr Hs] Hd. constructor; try done. by apply holding_device. Qed.

Lemma prepared_device_ok h0 p h :
  prepared h0 p h → device_ok resolve (h_arena h) (h_batch_workspace h) (h_graph_cache h) (h_event_chain h).
Proof. intros Hp. apply (si_device _ _ _ (hd_inv _ _ _ _ _ _ (pr_holding _ _ _ _ Hp))). Qed.

(** A chain operation that keeps the chain well formed keeps the step. *)
Lemma wp_on_chain {A} (c : chain A) h0 p h w :
  (∀ ch, chain_ok ch → wp c (λ _ ch', chain_ok ch') (λ _ ch', chain_ok ch') ch) → prepared h0 p h →
  wp (on_host (on_chain c)) (λ _ '(h', _), prepared h0 p h') (λ _ '(h', _), prepared h0 p h') (h, w).
Proof.
  intros Hc Hp. pose proof (prepared_device_ok _ _ _ Hp) as [Ha Hw Hpr Hca Hch].
  apply wp_on_host. unfold on_chain. wp_step. eapply wp_mono; [by apply Hc|..].
  - intros a ch' Hch'. by apply prepared_device.
  - intros e ch' Hch'. by apply prepared_device.
Qed.

Lemma record_entry_keeps sid stream kind awaited ch :
  chain_ok ch → wp (record_entry sid stream kind awaited) (λ _ ch', chain_ok ch') (λ _ ch', chain_ok ch') ch.
Proof.
  intros Hch. pose proof (record_entry_spec ch sid stream kind awaited Hch) as Hr. unfold wp.
  destruct (record_entry _ _ _ _ ch) as [[eid|e|] ch']; [by destruct Hr|by destruct Hr as [-> _]|done].
Qed.

Lemma wp_on_cache h0 p h w key :
  registry_ok resolve → prepared h0 p h →
  wp (on_host (on_cache (get_or_capture resolve key))) (λ _ '(h', _), prepared h0 p h')
    (λ _ '(h', _), prepared h0 p h') (h, w).
Proof.
  intros Hreg Hp. pose proof (prepared_device_ok _ _ _ Hp) as [Ha Hw Hpr Hca Hch].
  apply wp_on_host. unfold on_cache. wp_step.
  pose proof (get_or_capture_cases resolve key (h_graph_cache h) (h_arena h) Hreg Hpr Ha Hca) as Hg.
  unfold wp. destruct (get_or_capture _ _ _) as [[[g captured]|e|] [gc' a']]; [| |done].
  - destruct Hg as (? & ? & Hpr' & _). apply prepared_device; [done|]. by constructor; rewrite ?Hpr'.
  - destruct Hg as (? & ? & Hpr' & _). apply prepared_device; [done|]. by constructor; rewrite ?Hpr'.
Qed.

(** What post-step may rely on. *)
Record sampled h0 (p : Prepared) (sample : DeviceStepSample) h : Prop := {
  sm_prepared : prepared h0 p h;
  sm_protocol : step_protocol (am_next_step (pp_adm p)) (trace (h_event_chain h))
}.

Lemma wp_device_chain h0 p h w :
  registry_ok resolve → prepared h0 p h →
  wp (device_chain resolve p) (λ '(sample, _) '(h', _), sampled h0 p sample h')
    (λ _ '(h', _), prepared h0 p h') (h, w).
Proof.
  intros Hreg Hp. unfold device_chain. do 2 wp_step.
  wp_step. apply wp_on_device; [apply upload_total| |done]. intros [] w1.
  wp_step. eapply wp_mono; [by apply (wp_on_chain _ h0 p); [intros ch; apply record_entry_keeps|]| |done].
  clear h w Hp. intros eid1 [h w] Hp.
  wp_step. eapply wp_mono; [by apply (wp_on_chain _ h0 p); [intros ch; apply record_entry_keeps|]| |done].
  clear h w Hp. intros eid2 [h w] Hp.
  wp_step. eapply wp_mono; [by apply (wp_on_cache h0 p)| |done].
  clear h w Hp. intros [g captured] [h w] Hp.
  wp_step. apply wp_on_device; [apply replay_total| |done]. intros [] w2.
  wp_step. eapply wp_mono; [by apply (wp_on_chain _ h0 p); [intros ch; apply record_entry_keeps|]| |done].
  clear h w Hp. intros eid3 [h w] Hp.
  wp_step. eapply wp_mono; [by apply (wp_on_chain _ h0 p); [intros ch; apply record_entry_keeps|]| |done].
  clear h w Hp. intros eid4 [h w] Hp.
  wp_step. apply wp_on_device; [apply readback_total| |done]. intros sample w3.
  wp_step. eapply wp_mono; [by apply (wp_on_chain _ h0 p); [intros ch; apply record_entry_keeps|]| |done].
  clear h w Hp. intros eid5 [h w] Hp.
  do 3 wp_step.
  destruct (validate_step_chain_iff (h_event_chain h) (am_next_step (pp_adm p))
    (dv_chain _ _ _ _ _ (prepared_device_ok _ _ _ Hp))) as [Hnp Hiff].
  wp_step; [done| |done]. intros [] Hv. wp_step. constructor; [done|by apply Hiff].
Qed.

(** The sample echoes the step and keeps the accept contract. *)
Definition echoes (p : Prepared) (sample : DeviceStepSample) : Prop :=
  ds_step_id sample = am_next_step (pp_adm p) ∧ ds_accept_len sample = expected_accept p.

Lemma check_sample_iff p sample : check_sample p sample ≠ Panic ∧ (check_sample p sample = Ok tt ↔ echoes p sample).
Proof.
  unfold check_sample, echoes. destruct (Z.eqb_spec (ds_step_id sample) (am_next_step (pp_adm p))); cbn [negb].
  2: { split; [done|]. split; [done|]. by intros []. }
  destruct (Z.eqb_spec (ds_accept_len sample) (expected_accept p)); cbn [negb]; [done|].
  split; [done|]. split; [done|]. by intros [].
Qed.

Lemma wp_device_phase h0 p h w :
  registry_ok resolve → prepared h0 p h →
  wp (device_phase resolve p) (λ '(sample, _) '(h', _), sampled h0 p sample h' ∧ echoes p sample)
    (λ _ '(h', _), stays h0 h') (h, w).
Proof.
  intros Hreg Hp. unfold device_phase. wp_step. apply wp_on_host. wp_step.
  assert (prepared h0 p (set_arena (arena_reset (h_arena h)).2 h)) as Hp1.
  { destruct (prepared_device_ok _ _ _ Hp) as [Ha Hw Hpr Hca Hch]. apply prepared_device; [done|].
    constructor; try done. destruct Ha. constructor; cbn; try done; lia. }
  wp_step. apply wp_on_host. unfold on_chain, begin_step. do 2 wp_step.
  destruct (prepared_device_ok _ _ _ Hp1) as [Ha Hw Hpr Hca Hch].
  destruct (begin_step_spec _ (am_next_step (pp_adm p)) Hch) as (ch' & Hrun & Hch' & _).
  injection Hrun as <-. match goal with |- wp _ _ _ (?x, _) =>
    assert (prepared h0 p x) as Hp2 by (by apply (prepared_device _ _ _ _ _ _ _ Hp1)); revert Hp2; generalize x end.
  clear h Hp Hp1 Ha Hw Hpr Hca Hch Hch'. intros h Hp.
  apply wp_scase. eapply wp_mono; [by apply (wp_device_chain h0)|..].
  - clear h w Hp. intros [sample captured] [h w] Hs. wp_step. apply wp_on_host.
    destruct (check_sample_iff p sample) as [Hnp Hiff].
    eapply wp_or_fail; [apply Hs|done|]. intros [] Hok. wp_step. split; [done|by apply Hiff].
  - clear h w Hp. intros e [h w] Hp. apply wp_on_host. eapply wp_fail_step. apply Hp.
Qed.
End device.

(** * The post-step *)

(** ** The append, and undoing it *)

Lemma same_record_fields s s' : same_record s s' →
  s_seq_id s' = s_seq_id s ∧ s_req s' = s_req s ∧ s_phase s' = s_phase s ∧ s_ctx_len s' = s_ctx_len s.
Proof. intros Hs. by rewrite Hs. Qed.

Lemma same_progress_tracked s s' :
  same_record s s' → s_generated s' = s_generated s → well_spaced (s_detokenized_tail s') → same_progress s s'.
Proof.
  intros Hs Hg Hws. destruct (same_record_fields _ _ Hs) as (Hi & Hr & Hp & Hc).
  constructor; [|done|done]. unfold record_of. by rewrite Hi, Hr, Hc, Hg.
Qed.

Lemma boundary_after a b : from_utf8 b = true → is_char_boundary (a ++ b) (length a) = true.
Proof.
  intros Hb. unfold is_char_boundary. destruct b as [|x b].
  - by rewrite app_nil_r, lookup_ge_None_2, Nat.eqb_refl by done.
  - rewrite lookup_app_r, Nat.sub_diag by lia. cbn. by rewrite (valid_head x b Hb).
Qed.

(** A refused append is undone exactly. *)
Lemma rollback_refused snap s done_ :
  same_record (set_phase Decoding snap) s → tail_grew (set_phase Decoding snap) s →
  s_tail_start_byte s = s_tail_start_byte snap → s_generated s = s_generated snap →
  s_phase snap = Prefilling done_ → well_spaced (s_detokenized_tail snap) →
  ∃ s', rollback_append snap s = Ok s' ∧ same_progress snap (set_phase (Prefilling done_) s').
Proof.
  intros Hrec Hgrew Hstart Hgen Hph Hws. destruct (same_record_fields _ _ Hrec) as (Hi & Hr & _ & Hc).
  destruct Hgrew as [(_ & txt & Hv & Htail)|Hlt]; [|cbn in Hlt; lia].
  cbn in Hi, Hr, Hc, Htail. unfold rollback_append. cbn. rewrite Hstart, Z.eqb_refl, Htail. cbn [andb].
  rewrite (proj2 (Nat.leb_le _ _)) by (rewrite length_app; lia). unfold truncate_str.
  rewrite (proj2 (Nat.leb_le _ _)) by (rewrite length_app; lia). rewrite boundary_after by done.
  rewrite take_app_length. cbn [obind]. eexists. split; [reflexivity|].
  constructor; cbn; [|done|done]. unfold record_of. cbn. by rewrite Hi, Hr, Hc, Hgen, firstn_all.
Qed.

Section poststep.
Context {T D OpStatic W : Type} `{CostTable T, DetokenizerLaws D, StepExecutorLaws W}.
Context (resolve : OpId.t → OpStatic → outcome Text ResolvedVariant).
Local Notation Scheduler := (Scheduler T D OpStatic).
Local Notation stays := (stays resolve).
Local Notation holding := (holding resolve).
Local Notation prepared := (prepared resolve).
Implicit Types (h : Scheduler).
Local Notation stops h0 := (λ (_ : SchedError) h', stays h0 h').

Lemma wp_append_step token s h Q R :
  well_formed_request (s_req s) → well_spaced (s_detokenized_tail s) →
  (∀ d a s', appended token s a s' → Q (Ok a, s') (set_detokenizer d h)) →
  (∀ d e s', same_record s s' → well_spaced (s_detokenized_tail s') → tail_grew s s' →
     s_tail_start_byte s' = s_tail_start_byte s → s_generated s' = s_generated s →
     Q (Err e, s') (set_detokenizer d h)) →
  wp (append_step token s) Q R h.
Proof.
  intros [_ Hmax Hstop] Hws HQ HR. unfold wp, append_step.
  pose proof (append_cases token s (h_detokenizer h) Hstop Hws (proj2 Hmax)) as Ha.
  destruct (append_generated_token token (s, h_detokenizer h)) as [[a|e|] [s' d]]; [by apply HQ| |done].
  destruct Ha as (? & ? & ? & ? & ?). by apply HR.
Qed.

(** The state once the phase is done: the manager committed, the step is the
    last committed one and nothing is in flight. *)
Definition settled (h : Scheduler) (m' : StateManager) (d : D) (pr : NoOpProposer) (step_id : Z) : Scheduler :=
  set_hooks (h_schedule_log h) pr d (h_pending_pause_report h)
    (set_steps (h_step_counter h) (h_arrival_counter h) None (Some step_id) (set_state_manager m' h)).

Record posts (p : Prepared) (token : Z) h (po : Posted) h' : Prop := {
  ps_state : ∃ m' st' d pr, h' = settled h m' d pr (am_next_step (pp_adm p)) ∧
    committed_by (h_state_manager h) (pp_seq p) (reserve_n (pp_adm p)) m' st';
  ps_same : s_seq_id (po_seq po) = s_seq_id (pp_seq p) ∧ s_req (po_seq po) = s_req (pp_seq p) ∧
    s_ctx_len (po_seq po) = s_ctx_len (pp_seq p) + reserve_n (pp_adm p);
  ps_more : po_finish po = None → s_phase (po_seq po) ≠ Queued ∧ phase_ok (po_seq po) ∧
    well_spaced (s_detokenized_tail (po_seq po)) ∧
    (s_generated (po_seq po) = s_generated (pp_seq p) ∨
     s_generated (po_seq po) = s_generated (pp_seq p) ++ [token]);
  ps_end r : po_finish po = Some r → ∃ k, s_generated (po_seq po) = take k (s_generated (pp_seq p) ++ [token])
}.

(** The commit of the whole reservation cannot be refused, and the context
    cannot overflow. *)
Lemma wp_commit {A} h0 p d h seq undo (k : sched T D OpStatic A) Q R :
  prepared h0 p h → s_seq_id seq = s_seq_id (pp_seq p) →
  (∀ m' st', committed_by (h_state_manager h) (pp_seq p) (reserve_n (pp_adm p)) m' st' →
     wp k Q R (set_state_manager m' (set_detokenizer d h))) →
  wp (commit_or seq (reserve_n (pp_adm p)) undo k) Q R (set_detokenizer d h).
Proof.
  intros Hp Hid Hk. pose proof (pr_holding _ _ _ _ Hp) as Hh. pose proof (pr_planned _ _ _ _ Hp) as Hpl.
  destruct (planned_reserve _ _ _ Hpl) as [Hpos _].
  destruct (commit_places (h_state_manager h) (h_queued h) (pp_seq p) (h_paused h) (h_finished h)
    (reserve_n (pp_adm p)) (reserve_n (pp_adm p)) (si_places _ _ _ (hd_inv _ _ _ _ _ _ Hh)) Hpos ltac:(lia)
    (spent_left _ _ (hd_commits _ _ _ _ _ _ Hh) (hd_left _ _ _ _ _ _ Hh))) as (m' & st' & Hrun & Hc).
  unfold commit_or. apply wp_scase. unfold commit_step, on_manager. wp_step. rewrite Hid. unfold wp at 1.
  change (h_state_manager (set_detokenizer d h)) with (h_state_manager h). rewrite Hrun. by eapply Hk.
Qed.

Lemma advance_ctx_ok h0 p h seq :
  prepared h0 p h → s_ctx_len seq = s_ctx_len (pp_seq p) →
  advance_ctx (reserve_n (pp_adm p)) seq = Ok (set_ctx_len (s_ctx_len (pp_seq p) + reserve_n (pp_adm p)) seq).
Proof.
  intros Hp Hc. pose proof (si_places _ _ _ (hd_inv _ _ _ _ _ _ (pr_holding _ _ _ _ Hp))) as Hpl.
  pose proof (pl_fits _ _ _ _ _ _ Hpl _ (in_hand _ _ _)) as Hfit. rewrite open_eq in Hfit.
  destruct (fit_state _ _ _ Hfit) as (st & Hst & Hctx & Htail & _).
  destruct (pl_manager _ _ _ _ _ _ Hpl) as [bpg Hinv]. cbn in Hst.
  destruct (mi_seqs _ _ Hinv _ st Hst) as [_ Hok]. pose proof (so_end _ _ _ Hok).
  destruct (mi_config _ _ Hinv) as (Hmax & _ & _). cbn in *.
  unfold advance_ctx. rewrite Hc, checked_add_ok by (unfold U32_MAX, MAX_CTX_HARD in *; lia). done.
Qed.

Lemma prepared_fit h0 p h : prepared h0 p h → seq_fits (h_state_manager h) (reserve_n (pp_adm p)) (pp_seq p) ∧
  prompt_len (pp_seq p) = prompt_of (pp_seq p) ∧ prompt_of (pp_seq p) ≤ U32_MAX.
Proof.
  intros Hp. by destruct (holding_prompt _ _ _ _ _ _ (pr_holding _ _ _ _ Hp)) as (? & ? & _ & _ & _ & ?).
Qed.

Lemma holding_detok h0 c n seq h d : holding h0 c n seq h → holding h0 c n seq (set_detokenizer d h).
Proof. intros Hh. by apply holding_hooks. Qed.

(** The decode: one more token and one more position. *)
Lemma wp_post_decode h0 p sample h :
  prepared h0 p h → s_phase (pp_seq p) = Decoding →
  wp (post_decode p sample) (λ po h', posts p (ds_token sample) h po h') (stops h0) h.
Proof.
  intros Hp Hph. destruct (prepared_fit _ _ _ Hp) as ([Hreq Hok Hws Hpr _] & _).
  pose proof (pr_planned _ _ _ _ Hp) as [_ Hplan]. rewrite Hph in Hplan. destruct Hplan as [Hdec _].
  assert (reserve_n (pp_adm p) = 1) as Hn by (unfold reserve_n; by rewrite Hdec).
  unfold post_decode. wp_step. apply wp_append_step; [done..| |].
  - intros d [finish trimmed] seq' [Hrec Hws' _ Hmore Hfin]. destruct (same_record_fields _ _ Hrec) as (Hi & Hr & Hph' & Hc).
    rewrite <- Hn. apply (wp_commit h0); [done|done|]. intros m' st' Hcb. wp_step.
    rewrite (advance_ctx_ok h0 p h) by done. cbn [or_restore]. unfold mark_committed, on_proposer. repeat wp_step.
    constructor; cbn.
    + exists m', st', d, (observe (s_seq_id seq') [ds_token sample] (h_proposer h)). by split.
    + done.
    + intros ->. destruct (Hmore eq_refl) as (_ & Hg & Hlen). rewrite Hph', Hph. split_and!; [done| |done|by right].
      unfold phase_ok, prompt_of, tokens_of in *. cbn. rewrite Hph in Hok. rewrite Hph', Hph, Hg, Hr, Hn, length_app.
      cbn in *. lia.
    + intros r _. exact Hfin.
  - intros d e seq' Hrec Hws' _ _ Hg. eapply wp_fail_step. eapply holding_swap; [|by apply same_progress_tracked].
    apply holding_detok, Hp.
Qed.

(** The last chunk: the prompt is in, and its first token. *)
Lemma wp_post_prompt_end h0 p done_ sample h :
  prepared h0 p h → s_phase (pp_seq p) = Prefilling done_ → prompt_of (pp_seq p) ≤ done_ + am_chunk (pp_adm p) →
  wp (post_prompt_end p done_ sample) (λ po h', posts p (ds_token sample) h po h') (stops h0) h.
Proof.
  intros Hp Hph Hend. destruct (prepared_fit _ _ _ Hp) as ([Hreq Hok Hws Hpr _] & _).
  pose proof (pr_planned _ _ _ _ Hp) as [_ Hplan]. rewrite Hph in Hplan. destruct Hplan as [Hdec Hchunk].
  assert (reserve_n (pp_adm p) = am_chunk (pp_adm p)) as Hn by (unfold reserve_n; by rewrite Hdec).
  unfold phase_ok in Hok. rewrite Hph in Hok. destruct Hok as (Hctx & Hd & Hgen).
  unfold post_prompt_end. wp_step. apply wp_append_step; [done..| |].
  - intros d [finish trimmed] seq' [Hrec Hws' _ Hmore Hfin]. destruct (same_record_fields _ _ Hrec) as (Hi & Hr & Hph' & Hc).
    cbn in Hi, Hr, Hph', Hc, Hmore, Hfin.
    rewrite <- Hn. apply (wp_commit h0); [done|done|]. intros m' st' Hcb. wp_step.
    rewrite (advance_ctx_ok h0 p h) by done. cbn [or_restore]. unfold mark_committed. repeat wp_step.
    constructor; cbn.
    + exists m', st', d, (h_proposer h). by split.
    + done.
    + intros ->. destruct (Hmore eq_refl) as (_ & Hg & Hlen). rewrite Hph'. split_and!; [done| |done|by right].
      unfold phase_ok, prompt_of, tokens_of in *. cbn. rewrite Hph', Hg, Hr, Hn, length_app.
      rewrite Hgen in *. cbn in *. lia.
    + intros r _. exact Hfin.
  - intros d e seq' Hrec Hws' Hgrew Hstart Hg. wp_step.
    destruct (rollback_refused (pp_seq p) seq' done_) as (s' & Hrun & Hsame); try done.
    rewrite Hrun. wp_step; [done| |done]. intros ? [= <-]. eapply wp_fail_step. eapply holding_swap; [|exact Hsame].
    apply holding_detok, Hp.
Qed.

(** A chunk in the middle of the prompt: positions without a token. *)
Lemma wp_post_prompt_chunk h0 p done_ token h :
  prepared h0 p h → s_phase (pp_seq p) = Prefilling done_ → done_ + am_chunk (pp_adm p) < prompt_of (pp_seq p) →
  wp (post_prompt_chunk p (done_ + am_chunk (pp_adm p))) (λ po h', posts p token h po h') (stops h0) h.
Proof.
  intros Hp Hph Hmid. destruct (prepared_fit _ _ _ Hp) as ([Hreq Hok Hws Hpr _] & _).
  pose proof (pr_planned _ _ _ _ Hp) as [_ Hplan]. rewrite Hph in Hplan. destruct Hplan as [Hdec Hchunk].
  assert (reserve_n (pp_adm p) = am_chunk (pp_adm p)) as Hn by (unfold reserve_n; by rewrite Hdec).
  unfold phase_ok in Hok. rewrite Hph in Hok. destruct Hok as (Hctx & Hd & Hgen).
  assert (h = set_detokenizer (h_detokenizer h) h) as Heq by by destruct h.
  unfold post_prompt_chunk. rewrite <- Hn.
  refine (eq_ind _ (λ x, wp _ _ _ x) _ _ (eq_sym Heq)). apply (wp_commit h0); [done|done|]. intros m' st' Hcb. wp_step.
  rewrite (advance_ctx_ok h0 p h) by done. cbn [or_restore]. unfold mark_committed. repeat wp_step.
  constructor; cbn.
  - exists m', st', (h_detokenizer h), (h_proposer h). by split.
  - done.
  - intros _. split; [done|]. split; [|by split; [|left]].
    unfold prompt_of in *. cbn. split_and!; [lia|lia|lia|done].
  - done.
Qed.

Lemma wp_post_phase h0 p sample h :
  prepared h0 p h → wp (post_phase p sample) (λ po h', posts p (ds_token sample) h po h') (stops h0) h.
Proof.
  intros Hp. destruct (prepared_fit _ _ _ Hp) as ([Hreq Hok Hws Hpr _] & Hlen & Hu).
  pose proof (pr_planned _ _ _ _ Hp) as [_ Hplan]. unfold post_phase, phase_ok in *.
  destruct (s_phase (pp_seq p)) as [|done_| |] eqn:Hph; [done| |by apply wp_post_decode|done].
  rewrite checked_add_ok by lia. cbn [ok_or or_fail]. do 2 wp_step. rewrite Hlen.
  destruct (Z.leb_spec (prompt_of (pp_seq p)) (done_ + am_chunk (pp_adm p))).
  - by apply wp_post_prompt_end.
  - by apply wp_post_prompt_chunk.
Qed.
End poststep.
