(* ===== verification/StepSafe.v ===== *)
(** * A step is safe

    From a well-formed scheduler a step never panics and leaves a well-formed
    scheduler; it completes, advancing exactly one sequence by exactly its
    reservation under the next step id, or it changes nothing a caller can ask
    about, whatever the executor, the registry and the detokenizer refuse. *)

From S2P Require Import Prelude Wp Bytes Errors Spec Pools Manager Invariant Reserve Admission Commit Workspace BatchSpec SchedError Arena Capture CaptureSpec Cost Streams Inline Log Detok Sequence Generation Append Scheduler Step SchedInv PreStepSpec PostStepSpec.

#[global] Open Scope Z_scope.

(** A sequence that ends leaves its place and keeps its result. *)
Lemma places_finish tail m queued seq paused finished m' r :
  places_ok tail m queued (Some seq) paused finished → (∀ id, id ≠ s_seq_id seq → tail id = 0) →
  manager_ok m' → m_config m' = m_config m → m_next_seq m' = m_next_seq m →
  m_seqs m' = delete (s_seq_id seq) (m_seqs m) →
  paused = None ∧ places_ok closed m' queued None None (<[s_seq_id seq := r]> finished).
Proof.
  intros Hpl **. assert (paused = None) as ->.
  { destruct paused as [s|]; [by destruct (pl_paused _ _ _ _ _ _ Hpl s eq_refl)|done]. }
  split; [done|]. eapply places_drop; [exact Hpl|apply tracked_active|auto..|done].
Qed.

Section stepsafe.
Context {T D OpStatic W : Type} `{CostTable T, DetokenizerLaws D, StepExecutorLaws W}.
Context (resolve : OpId.t → OpStatic → outcome Text ResolvedVariant) (grown : Z → Z → Z).
Local Notation Scheduler := (Scheduler T D OpStatic).
Local Notation sched_ok := (sched_ok resolve).
Local Notation stays := (stays resolve).
Local Notation holding := (holding resolve).
Local Notation prepared := (prepared resolve).
Implicit Types (h : Scheduler).
Local Notation stops h0 := (λ (_ : SchedError) h', stays h0 h').

(** What a completed step did: one sequence advanced by at least one position
    and at most one token, or ended with its result kept; the others and the
    other results are untouched. *)
Inductive advanced h0 h : Prop :=
| adv_more id req ctx generated n generated' rest :
    progress h0 ≡ₚ (id, (req, ctx, generated)) :: rest →
    progress h ≡ₚ (id, (req, ctx + n, generated')) :: rest → 0 < n →
    generated' = generated ∨ (∃ token, generated' = generated ++ [token]) →
    h_finished h = h_finished h0 → advanced h0 h
| adv_ended id req ctx generated rest token k reason :
    progress h0 ≡ₚ (id, (req, ctx, generated)) :: rest → progress h ≡ₚ rest →
    h_finished h = <[id := (req, take k (generated ++ [token]), reason)]> (h_finished h0) → advanced h0 h.

Record completed h0 (res : StepResult) h : Prop := {
  cm_ok : sched_ok h;
  cm_advanced : advanced h0 h;
  cm_step : rs_step_id res = h_step_counter h0 + 1 ∧ sp_step_id (rs_step res) = rs_step_id res;
  cm_counter : h_step_counter h = rs_step_id res ∧ h_last_committed_step h = Some (rs_step_id res);
  cm_log : ring_push (rs_record res) (h_schedule_log h0) = (Ok tt, h_schedule_log h);
  cm_config : h_config h = h_config h0 ∧ h_cost_table h = h_cost_table h0 ∧
    h_arrival_counter h = h_arrival_counter h0;
  cm_commits : spent 1 (h_state_manager h0) (h_state_manager h);
  cm_next : m_next_seq (h_state_manager h) = m_next_seq (h_state_manager h0)
}.

(** The log takes the record. *)
Lemma log_step_runs p captured accept_len h l :
  ring_holds 4096 (h_schedule_log h) l → Z.of_nat (length l) < U64_MAX →
  ∃ record ring, log_step p captured accept_len h = (Ok record, set_schedule_log ring (set_pending_pause None h)) ∧
    ring_push record (h_schedule_log h) = (Ok tt, ring) ∧ ring_holds 4096 ring (l ++ [record]).
Proof.
  intros Hl Hlen. unfold log_step. erewrite sbind_Ok by reflexivity. erewrite sbind_Ok by reflexivity.
  cbn beta zeta. set (record := step_record _ _ _ _ _).
  destruct (ring_holds_push 4096 (h_schedule_log h) l record Hl Hlen) as (ring & Hrun & Hring).
  exists record, ring. split; [|done]. erewrite sbind_Ok; [reflexivity|]. unfold szoom.
  change (h_schedule_log (set_pending_pause None h)) with (h_schedule_log h). by rewrite Hrun.
Qed.

(** A prepared step, and the log it will extend. *)
Record before h0 p h l : Prop := {
  bf_prepared : prepared h0 p h;
  bf_log : ring_holds 4096 (h_schedule_log h) l;
  bf_room : Z.of_nat (length l) ≤ h_step_counter h0
}.

Lemma before_step h0 p h : sched_ok h0 → prepared h0 p h → ∃ l, before h0 p h l.
Proof.
  intros [[_ _ [_ _ (l & Hl & Hlen)] _] _] Hp. exists l. constructor; [done| |done].
  pose proof (um_log _ _ (hd_unmoved _ _ _ _ _ _ (pr_holding _ _ _ _ Hp))) as Heq. cbn in Heq. by rewrite Heq.
Qed.

Lemma progress_hand h0 p h : prepared h0 p h → progress h0 ≡ₚ record_of (pp_seq p) :: progress h.
Proof.
  intros Hp. pose proof (pr_holding _ _ _ _ Hp) as Hh.
  rewrite <- (um_progress _ _ (hd_unmoved _ _ _ _ _ _ Hh)). apply progress_active, Hh.
Qed.

(** What both endings share: the log, the counter and the device side. *)
Lemma completed_by h0 p h l m2 d pr act fin ring res :
  let h2 := set_places (h_queued h) act (h_paused h) fin (settled h m2 d pr (am_next_step (pp_adm p))) in
  before h0 p h l → spent 1 (h_state_manager h) m2 ∧ m_next_seq m2 = m_next_seq (h_state_manager h) →
  ring_push (rs_record res) (h_schedule_log h) = (Ok tt, ring) → ring_holds 4096 ring (l ++ [rs_record res]) →
  rs_step_id res = am_next_step (pp_adm p) → rs_step res = pp_step p →
  places_ok closed m2 (h_queued h) act (h_paused h) fin → advanced h0 h2 →
  completed h0 res (set_schedule_log ring (set_pending_pause None h2)).
Proof.
  intros h2 [Hp Hl Hroom] [Hsp Hsn] Hpush Hring Hid Hstep Hpl Hadv.
  pose proof (pr_holding _ _ _ _ Hp) as [Hinv Ha Hu Hc Hr Hlf Hs Hn].
  pose proof Hu as [_ _ _ Hlog Hcfg Hcost Harr Hnx _]. cbn in *.
  destruct (pn_next _ _ _ (pr_planned _ _ _ _ Hp)) as [Hnext Hmax].
  destruct Hinv as [_ Hdv [Hcu _ _] Hcf]. cbn in *. constructor; cbn.
  - split; [|done]. constructor; cbn; [done|exact Hdv| |exact Hcf].
    constructor; cbn; [done|intros k [= <-]; unfold is_u64 in *; lia|].
    eexists. split; [exact Hring|]. rewrite length_app. simpl. lia.
  - destruct Hadv; [eapply adv_more|eapply adv_ended]; done.
  - split; [by rewrite Hid|]. by rewrite Hstep, Hid, (pr_step _ _ _ _ Hp).
  - rewrite Hid. split; [lia|done].
  - by rewrite <- Hlog.
  - done.
  - unfold spent in *. lia.
  - congruence.
Qed.

Lemma wp_log_step h0 p h l m2 d pr act fin captured acc (k : ScheduleRecord → StepResult) R :
  let h2 := set_places (h_queued h) act (h_paused h) fin (settled h m2 d pr (am_next_step (pp_adm p))) in
  before h0 p h l → spent 1 (h_state_manager h) m2 ∧ m_next_seq m2 = m_next_seq (h_state_manager h) →
  (∀ record, rs_record (k record) = record ∧ rs_step_id (k record) = am_next_step (pp_adm p) ∧
     rs_step (k record) = pp_step p) →
  places_ok closed m2 (h_queued h) act (h_paused h) fin → advanced h0 h2 →
  wp (log_step p captured acc) (λ record h', completed h0 (k record) h') R h2.
Proof.
  intros h2 Hb Hsp Hk Hpl Hadv. pose proof Hb as [Hp Hl Hroom].
  destruct (pn_next _ _ _ (pr_planned _ _ _ _ Hp)) as [_ Hmax].
  destruct (log_step_runs p captured acc h2 l Hl) as (record & ring & Hrun & Hpush & Hring); [lia|].
  destruct (Hk record) as (Hr & Hi & Hs). unfold wp. rewrite Hrun.
  apply (completed_by h0 p h l); rewrite ?Hr; done.
Qed.

(** The sequence goes on. *)
Lemma places_more h0 p h po m' st' :
  prepared h0 p h → committed_by (h_state_manager h) (pp_seq p) (reserve_n (pp_adm p)) m' st' →
  s_seq_id (po_seq po) = s_seq_id (pp_seq p) → s_req (po_seq po) = s_req (pp_seq p) →
  s_ctx_len (po_seq po) = s_ctx_len (pp_seq p) + reserve_n (pp_adm p) →
  s_phase (po_seq po) ≠ Queued → phase_ok (po_seq po) → well_spaced (s_detokenized_tail (po_seq po)) →
  places_ok closed m' (h_queued h) (Some (po_seq po)) (h_paused h) (h_finished h).
Proof.
  intros Hp [Hm Hc Hg Hn Hs (Hctx & Htail & Hcomp) _] Hid Hreq Hctx' Hph Hok Hws.
  pose proof (si_places _ _ _ (hd_inv _ _ _ _ _ _ (pr_holding _ _ _ _ Hp))) as Hpl.
  destruct (prepared_fit _ _ _ _ Hp) as ([Hwf _ _ Hpr _] & _). cbn in Hpl.
  eapply places_move; [exact Hpl|done..| |by intros i Hi; rewrite open_ne].
  constructor; [by rewrite Hreq|done|done| |].
  - unfold prompt_of in *. by rewrite Hreq, Hc.
  - exists st'. rewrite Hs, Hid, lookup_insert_eq. by rewrite Hctx'.
Qed.

(** The sequence ends. *)
Lemma wp_finish_sequence h0 p h m' st' d pr seq reason Q R :
  prepared h0 p h → committed_by (h_state_manager h) (pp_seq p) (reserve_n (pp_adm p)) m' st' →
  s_seq_id seq = s_seq_id (pp_seq p) → s_req seq = s_req (pp_seq p) →
  (∀ m2 d2, spent 1 (h_state_manager h) m2 ∧ m_next_seq m2 = m_next_seq (h_state_manager h) →
     let fin := <[s_seq_id (pp_seq p) := (s_req (pp_seq p), s_generated seq, reason)]> (h_finished h) in
     places_ok closed m2 (h_queued h) None (h_paused h) fin →
     Q tt (set_places (h_queued h) None (h_paused h) fin (settled h m2 d2 pr (am_next_step (pp_adm p))))) →
  wp (finish_sequence seq reason) Q R (settled h m' d pr (am_next_step (pp_adm p))).
Proof.
  intros Hp [Hm Hc Hg Hn Hs _ Hct] Hid Hreq HQ.
  pose proof (pr_holding _ _ _ _ Hp) as [Hinv Ha _ _ _ _ _ _]. pose proof (si_places _ _ _ Hinv) as Hpl.
  destruct Hm as [bpg Hm]. pose proof (free_seq_cases bpg m' (s_seq_id (pp_seq p)) Hm) as Hfree.
  rewrite Hs, lookup_insert_eq in Hfree. destruct Hfree as (m2 & Hrun & Hinv2 & Heq). cbn in Hpl.
  destruct (places_finish _ _ _ _ _ _ m2 (s_req (pp_seq p), s_generated seq, reason) Hpl) as [Hpaused Hpl2].
  { intros i Hi. by rewrite open_ne. }
  { by exists bpg. }
  { rewrite Heq. exact Hc. }
  { rewrite Heq. exact Hn. }
  { rewrite Heq. cbn. by rewrite delete_insert_eq. }
  unfold finish_sequence. rewrite Hid. apply wp_scase. unfold on_manager, wp at 1, szoom. cbn [h_state_manager settled].
  change (h_state_manager (settled h m' d pr (am_next_step (pp_adm p)))) with m'. rewrite Hrun.
  unfold on_proposer, keep_result, try_unpause_sequences. repeat wp_step.
  cbn. rewrite Hid, Hreq, Hpaused. apply (HQ m2 (detok_reset (s_seq_id (pp_seq p)) d)); [|by rewrite Hpaused].
  unfold spent. rewrite Heq. cbn. split; [lia|done].
Qed.

Lemma wp_post_step h0 p sample captured h :
  sched_ok h0 → prepared h0 p h →
  wp (post_step p sample captured) (completed h0) (stops h0) h.
Proof.
  intros Hok Hp. destruct (before_step _ _ _ Hok Hp) as [l Hb]. pose proof (progress_hand _ _ _ Hp) as Hhand.
  pose proof (pr_holding _ _ _ _ Hp) as [_ Ha Hu _ _ _ _ _]. unfold post_step. wp_step.
  eapply wp_mono; [by eapply wp_post_phase| |done].
  intros po h1 [(m' & st' & d & pr & -> & Hcb) (Hid & Hreq & Hctx) Hmore Hend]. wp_step.
  assert (0 < reserve_n (pp_adm p)) as Hpos by by eapply planned_reserve, Hp.
  destruct (po_finish po) as [reason|] eqn:Hfin.
  - eapply (wp_finish_sequence h0); [done..|]. intros m2 d2 Hsp fin Hpl. wp_step.
    eapply wp_mono; [|intros record h' Hc; wp_step; exact Hc|intros ? ? HR; exact HR].
    eapply (wp_log_step h0 p h l m2 d2 pr None fin); [done|done|done|done|].
    destruct (Hend reason eq_refl) as [k Hg]. eapply adv_ended; [exact Hhand| |]; [by unfold progress, sequences; rewrite Ha|].
    pose proof (um_finished _ _ Hu) as Hf. cbn in Hf. cbn. unfold fin. by rewrite Hg, Hf.
  - destruct (Hmore eq_refl) as (Hph & Hph' & Hws & Hg). wp_step. wp_step.
    eapply wp_mono; [|intros record h' Hc; wp_step; exact Hc|intros ? ? HR; exact HR].
    eapply (wp_log_step h0 p h l m' d pr (Some (po_seq po)) (h_finished h)); [done| |done| |].
    + destruct Hcb. unfold spent. split; [lia|done].
    + by eapply places_more.
    + eapply adv_more; [exact Hhand| |exact Hpos| |].
      * etransitivity; [apply (progress_active (po_seq po) h Ha)|].
        unfold record_of. rewrite Hid, Hreq, Hctx. reflexivity.
      * destruct Hg as [->| ->]; eauto.
      * apply Hu.
Qed.

(** The whole step. *)
Lemma step_cases h (w : W) :
  registry_ok resolve → sched_ok h → commits_left (h_state_manager h) →
  match step resolve grown (h, w) with
  | (Ok (Some res), (h', _)) => completed h res h'
  | (Ok None, (h', _)) | (Err _, (h', _)) => stays h h'
  | (Panic, _) => False
  end.
Proof.
  intros Hreg Hok Hl.
  assert (wp (step resolve grown)
    (λ o '(h', _), match o with Some res => completed h res h' | None => stays h h' end)
    (λ _ '(h', _), stays h h') (h, w)) as Hwp.
  { unfold step. wp_step. apply wp_on_host. eapply wp_mono; [by apply wp_pre_step| |done].
    intros [p|] h1 Hp; [|by wp_step]. wp_step.
    eapply wp_mono; [by apply wp_device_phase| |by intros e []]. intros [sample captured] [h2 w2] [[Hp2 _] _].
    wp_step. apply wp_on_host. eapply wp_mono; [by apply wp_post_step| |done]. by intros res h3 Hc; wp_step. }
  unfold wp in Hwp. destruct (step resolve grown (h, w)) as [[[res|]|e|] [h' w']]; exact Hwp.
Qed.
(** C1: A scheduler step is safe: from a well-formed scheduler, with commit
    counters left and whatever the device, the registry and the detokenizer
    refuse, a step never panics; it completes, advancing exactly one sequence
    under the next step id, logging it, keeping the result of a sequence that
    ended and leaving every other sequence and result alone, or it changes no
    sequence, result, log entry or committed step id; either way the scheduler
    it leaves is well formed, with no reservation open and no step in flight. *)
Theorem step_safe h (w : W) :
  registry_ok resolve → sched_ok h → commits_left (h_state_manager h) →
  match step resolve grown (h, w) with
  | (Ok (Some res), (h', _)) => completed h res h'
  | (Ok None, (h', _)) | (Err _, (h', _)) => stays h h'
  | (Panic, _) => False
  end.
Proof. apply step_cases. Qed.
End stepsafe.
