(* ===== verification/SchedCalls.v ===== *)
(** * The calls around a step

    [Scheduler::new], [enqueue_request], [cancel_sequence], [cancel_request]
    and [take_finished_result] keep the invariant of the scheduler: a new
    scheduler is well formed, a request is admitted to the end of the queue
    under a fresh id or refused without effect, and a cancellation releases
    exactly the sequence it names. *)

From S2P Require Import Prelude Wp Bytes Errors Spec Pools Manager Invariant Reserve Admission Commit Workspace Emit BatchSpec SchedError Arena Capture CaptureSpec Cost Streams Inline Log Detok Sequence Generation Append Scheduler Step SchedInv PreStepSpec.

#[global] Open Scope Z_scope.

(** ** The places *)

(** A request goes to the end of the queue. *)
Lemma places_enqueue m queued active paused finished st m' req arrival :
  places_ok closed m queued active paused finished → well_formed_request req →
  Z.of_nat (length (q_tokens req)) ≤ max_ctx (m_config m) → new_seq_done m st m' → manager_ok m' →
  places_ok closed m' (queued ++ [sequence_new req (m_next_seq m) arrival]) active paused finished.
Proof.
  intros [[bpg Hm] Hids Hlive Hfits Hq Ha Hp Hf] Hreq Hlen [Hfresh Heq Hst _] Hm'.
  set (seq := sequence_new req (m_next_seq m) arrival).
  assert (tracked (queued ++ [seq]) active paused ≡ₚ seq :: tracked queued active paused) as Hperm.
  { unfold tracked. rewrite <- app_assoc. simpl. by rewrite <- Permutation_middle. }
  pose proof (Permutation_map s_seq_id Hperm) as Hpm. cbn [map] in Hpm.
  assert (s_seq_id seq ∉ map s_seq_id (tracked queued active paused)) as Hno.
  { intros Hin%Hlive. cbn in Hin. rewrite Hfresh in Hin. by destruct Hin. }
  assert (m_seqs m' = <[m_next_seq m := st]> (m_seqs m)) as Hsq by by rewrite Heq.
  assert (m_config m' = m_config m ∧ m_next_seq m' = m_next_seq m + 1) as [Hc Hn] by by rewrite Heq.
  constructor; [done| | | | |done| |].
  - rewrite Hpm. by constructor.
  - intros id. rewrite Hsq, Hpm, elem_of_cons. change (s_seq_id seq) with (m_next_seq m).
    destruct (decide (id = m_next_seq m)) as [->|Hne].
    + rewrite lookup_insert_eq. naive_solver.
    + rewrite lookup_insert_ne, Hlive by done. naive_solver.
  - intros s. rewrite Hperm, elem_of_cons. intros [->|Hin].
    + constructor; cbn; [done|done|apply well_spaced_nil|by rewrite Hc|].
      exists st. rewrite Hsq, lookup_insert_eq, Hst. split_and!; [done..|].
      intros _ gi. unfold indices_of, new_state. cbn. rewrite list_lookup_fmap.
      by destruct (m_groups m !! gi).
    + apply (seq_fits_same m); [by apply Hfits| |done]. rewrite Hsq, lookup_insert_ne; [done|].
      intros Hid. apply Hno. cbn. rewrite Hid. by apply list_elem_of_fmap_2.
  - intros s Hin. apply elem_of_app in Hin as [Hin|Hin]; [by apply Hq|].
    by apply list_elem_of_singleton in Hin as ->.
  - intros s Hs. by apply Hp.
  - intros id Hid. destruct (Hf id Hid) as [? Hin]. rewrite Hn, Hpm, elem_of_cons. split; [lia|].
    intros [->|?]; [cbn in *; lia|done].
Qed.

Lemma tracked_delete queued pos seq active paused :
  queued !! pos = Some seq → tracked queued active paused ≡ₚ seq :: tracked (delete pos queued) active paused.
Proof. intros Hpos. exact (Permutation_app_tail _ (delete_Permutation queued pos seq Hpos)). Qed.

Lemma elem_of_delete_queue (queued : list Sequence) pos s : s ∈ delete pos queued → s ∈ queued.
Proof. intros Hin. by apply list_elem_of_delete_inv in Hin. Qed.

Lemma find_pos_Some p queued pos seq : find_pos p queued = Some (pos, seq) → queued !! pos = Some seq ∧ p seq = true.
Proof.
  revert pos. induction queued as [|s l IH]; intros pos; simpl; [done|].
  destruct (p s) eqn:Hp; [by intros [= <- <-]|].
  destruct (find_pos p l) as [[k s']|]; [|done]. intros [= <- <-]. by apply IH.
Qed.

Lemma find_pos_None p queued s : find_pos p queued = None → s ∈ queued → p s = false.
Proof.
  induction queued as [|s' l IH]; simpl; [by intros _ ?%elem_of_nil|].
  destruct (p s') eqn:Hp; [done|]. destruct (find_pos p l); [done|].
  intros _ [->|Hin]%elem_of_cons; [done|by apply IH].
Qed.

Section calls.
Context {T D OpStatic : Type} `{CostTable T, DetokenizerLaws D}.
Context (resolve : OpId.t → OpStatic → outcome Text ResolvedVariant).
Context (try_reserve_exact : Z → Z → option Z).
Local Notation Scheduler := (Scheduler T D OpStatic).
Local Notation sched_ok := (sched_ok resolve).
Implicit Types (h : Scheduler).

(** What a call outside a step leaves alone. *)
Record beside h0 h : Prop := {
  bs_log : h_schedule_log h = h_schedule_log h0;
  bs_steps : h_step_counter h = h_step_counter h0 ∧ h_last_committed_step h = h_last_committed_step h0;
  bs_config : h_config h = h_config h0 ∧ h_cost_table h = h_cost_table h0;
  bs_commits : spent 0 (h_state_manager h0) (h_state_manager h)
}.

Lemma spent_refl m : spent 0 m m.
Proof. unfold spent. lia. Qed.

(** ** Enqueueing *)

Record enqueued h0 (req : Request) (id : Z) h : Prop := {
  en_ok : sched_ok h;
  en_id : id = m_next_seq (h_state_manager h0) ∧ m_next_seq (h_state_manager h) = id + 1;
  en_fresh : id ∉ map s_seq_id (sequences h0) ∧ h_finished h0 !! id = None;
  en_progress : progress h ≡ₚ (id, (req, 0, [])) :: progress h0;
  en_last : ∃ seq, h_queued h = h_queued h0 ++ [seq] ∧ record_of seq = (id, (req, 0, []));
  en_finished : h_finished h = h_finished h0;
  en_room : Z.of_nat (outstanding_count h0) < sg_max_outstanding (h_config h0);
  en_beside : beside h0 h
}.

(** The refusals of [enqueue_request]. *)
Inductive enqueue_refused h (req : Request) : SchedError → Prop :=
| er_capacity : sg_max_outstanding (h_config h) ≤ Z.of_nat (outstanding_count h) →
    enqueue_refused h req (CapacityExceeded (Z.of_nat (outstanding_count h)) (sg_max_outstanding (h_config h)))
| er_arrival : U64_MAX ≤ h_arrival_counter h →
    enqueue_refused h req (overflow "arrival_counter" "arrival counter overflow" [])
| er_state e : new_seq_refused (h_state_manager h) (q_tokens req) e → enqueue_refused h req (SState e).

Lemma progress_perm h l : sequences h ≡ₚ l → progress h ≡ₚ map record_of l.
Proof. apply Permutation_map. Qed.

Lemma enqueue_cases h req :
  sched_ok h → well_formed_request req →
  match enqueue_request req h with
  | (Ok id, h') => enqueued h req id h'
  | (Err e, h') => h' = h ∧ enqueue_refused h req e
  | (Panic, _) => False
  end.
Proof.
  intros [[Hpl Hdv Hst Hcf] Hfl] Hreq.
  change (wp (enqueue_request req) (λ id h', enqueued h req id h') (λ e h', h' = h ∧ enqueue_refused h req e) h).
  unfold enqueue_request. do 2 wp_step.
  destruct (Z.leb_spec (sg_max_outstanding (h_config h)) (Z.of_nat (outstanding_count h))) as [Hfull|Hroom].
  { wp_step. split; [done|by constructor]. }
  unfold checked_add. do 2 wp_step; [by case_match| |].
  2: { intros e He. split; [done|]. revert He. destruct (Z.leb_spec (h_arrival_counter h + 1) U64_MAX); [done|].
    intros [= <-]. apply er_arrival. lia. }
  intros arrival _. wp_step. pose proof (pl_manager _ _ _ _ _ _ Hpl) as [bpg Hm].
  pose proof (new_seq_cases bpg (h_state_manager h) (q_tokens req) Hm) as Hn.
  unfold wp, smap_err, on_manager, szoom.
  destruct (new_seq (q_tokens req) (h_state_manager h)) as [[r|e|] m'] eqn:Hrun; [| |done].
  - destruct Hn as (st & -> & Hlen & Hd & Hm'). cbn.
    pose proof Hd as [_ Heq _ _].
    assert (places_ok closed m' (h_queued h ++ [sequence_new req (m_next_seq (h_state_manager h)) arrival])
      (h_active h) (h_paused h) (h_finished h)) as Hpl' by (eapply places_enqueue; [done..|by exists bpg]).
    assert (m_next_seq (h_state_manager h) ∉ map s_seq_id (sequences h)) as Hno.
    { intros Hin%(pl_live _ _ _ _ _ _ Hpl). rewrite (nd_fresh _ _ _ Hd) in Hin. by destruct Hin. }
    constructor; cbn; try done.
    + rewrite Heq. done.
    + split; [done|]. apply eq_None_not_Some. intros [? _]%(pl_finished _ _ _ _ _ _ Hpl). lia.
    + unfold progress, sequences, tracked. cbn. rewrite <- app_assoc. simpl.
      by rewrite <- Permutation_middle.
    + eexists. by split.
    + constructor; cbn; try done. rewrite Heq. unfold spent. cbn. lia.
  - destruct Hn as [Hrefused ->]. cbn. split; [by destruct h|by apply er_state].
Qed.
(** ** Cancelling *)

Record cancelled h0 (id : Z) h : Prop := {
  cn_ok : sched_ok h;
  cn_progress : ∃ req ctx generated, progress h0 ≡ₚ (id, (req, ctx, generated)) :: progress h ∧
    h_finished h = <[id := (req, generated, Cancelled)]> (h_finished h0);
  cn_next : m_next_seq (h_state_manager h) = m_next_seq (h_state_manager h0);
  cn_beside : beside h0 h
}.

(** Releasing a sequence that left its place [h1] of [h0]. *)
Lemma wp_release h0 seq queued active paused pause :
  sched_ok h0 → sequences h0 ≡ₚ seq :: tracked queued active paused →
  (∀ s, s ∈ queued → s ∈ h_queued h0) → active = h_active h0 ∨ active = None →
  paused = h_paused h0 ∨ paused = None →
  ∃ m d, release_cancelled seq (set_places queued active paused (h_finished h0) h0) =
      (Ok tt, set_places queued active paused (h_finished h0)
         (set_hooks (h_schedule_log h0) (h_proposer h0) d (h_pending_pause_report h0) (set_state_manager m h0))) ∧
    cancelled h0 (s_seq_id seq) (keep_result (ended Cancelled seq) Cancelled
      (set_places queued active paused (h_finished h0)
         (set_hooks (h_schedule_log h0) (h_proposer h0) d pause (set_state_manager m h0)))).
Proof.
  intros [[Hpl Hdv Hst Hcf] Hfl] Hperm Hq Ha Hp.
  destruct (pl_manager _ _ _ _ _ _ Hpl) as [bpg Hm].
  pose proof (free_seq_cases bpg _ (s_seq_id seq) Hm) as Hfree.
  assert (is_Some (m_seqs (h_state_manager h0) !! s_seq_id seq)) as [st Hseq].
  { apply (pl_live _ _ _ _ _ _ Hpl). apply list_elem_of_fmap_2. unfold sequences in Hperm. rewrite Hperm. by left. }
  rewrite Hseq in Hfree. destruct Hfree as (m & Hrun & Hinv & Heq).
  exists m, (detok_reset (s_seq_id seq) (h_detokenizer h0)). split.
  { unfold release_cancelled, smap_err, sbind at 1.
    by rewrite (on_manager_run _ (set_places queued active paused (h_finished h0) h0) _ _ Hrun). }
  constructor.
  - split; [|done]. constructor; [|exact Hdv|exact Hst|exact Hcf]. cbn.
    eapply (places_drop closed _ _ _ _ _ seq m); try done; [by exists bpg|by rewrite Heq..].
  - exists (s_req seq), (s_ctx_len seq), (s_generated seq). split; [|done].
    exact (progress_perm _ _ Hperm).
  - cbn. by rewrite Heq.
  - constructor; try done. cbn. rewrite Heq. unfold spent. cbn. lia.
Qed.

Lemma holds_id_Some id o s : holds_id id o = Some s → o = Some s ∧ s_seq_id s = id.
Proof. unfold holds_id. destruct o as [x|]; [|done]. destruct (Z.eqb_spec (s_seq_id x) id); [|done]. by intros [= ->]. Qed.

Lemma holds_id_None id o s : holds_id id o = None → o = Some s → s_seq_id s ≠ id.
Proof. unfold holds_id. intros Hn ->. by destruct (Z.eqb_spec (s_seq_id s) id). Qed.

(** [cancel_sequence] answers whether the sequence was there, and then has
    released it. *)
Lemma cancel_cases h id :
  sched_ok h →
  match cancel_sequence id h with
  | (Ok true, h') => cancelled h id h'
  | (Ok false, h') => h' = h ∧ id ∉ map s_seq_id (sequences h)
  | _ => False
  end.
Proof.
  intros Hok. unfold cancel_sequence. erewrite sbind_Ok by reflexivity.
  destruct (holds_id id (h_active h)) as [s|] eqn:Ha; [|destruct (find_pos _ _) as [[pos s]|] eqn:Hq;
    [|destruct (holds_id id (h_paused h)) as [s|] eqn:Hp]].
  - apply holds_id_Some in Ha as [Ha <-].
    assert (h_paused h = None) as Hp.
    { destruct (h_paused h) as [p|] eqn:Hp; [|done].
      destruct (pl_paused _ _ _ _ _ _ (si_places _ _ _ (proj1 Hok)) p Hp) as [_ ?]. congruence. }
    destruct (wp_release h s (h_queued h) None (h_paused h) (h_pending_pause_report h)) as (m & d & Hrun & Hc);
      [done| |auto..|].
    { unfold sequences. rewrite Ha. apply tracked_active. }
    erewrite sbind_Ok by reflexivity. rewrite (sbind_Ok _ _ _ _ _ Hrun).
    erewrite sbind_Ok by reflexivity. erewrite sbind_Ok by reflexivity. unfold sret.
    cbn -[keep_result]. revert Hc. unfold keep_result. cbn. by rewrite Hp.
  - apply find_pos_Some in Hq as [Hpos <-%Z.eqb_eq].
    destruct (wp_release h s (delete pos (h_queued h)) (h_active h) (h_paused h) (h_pending_pause_report h))
      as (m & d & Hrun & Hc); [done|by apply tracked_delete|by intros ? ?%elem_of_delete_queue|auto..|].
    erewrite sbind_Ok by reflexivity. rewrite (sbind_Ok _ _ _ _ _ Hrun). by erewrite sbind_Ok by reflexivity.
  - apply holds_id_Some in Hp as [Hp <-].
    destruct (wp_release h s (h_queued h) (h_active h) None
      (if bool_decide (h_pending_pause_report h = Some (s_seq_id s)) then None else h_pending_pause_report h))
      as (m & d & Hrun & Hc); [done| |auto..|].
    { unfold sequences, tracked. rewrite Hp. simpl. rewrite app_nil_r, app_assoc. by rewrite Permutation_app_comm. }
    erewrite sbind_Ok by reflexivity. rewrite (sbind_Ok _ _ _ _ _ Hrun).
    erewrite sbind_Ok by reflexivity. erewrite sbind_Ok by reflexivity. unfold sret.
    cbn -[keep_result]. by case_bool_decide.
  - split; [done|]. intros (s & -> & Hin)%list_elem_of_fmap. unfold sequences in Hin.
    apply elem_of_tracked in Hin as [Hin|[Hin|Hin]].
    + by pose proof (find_pos_None _ _ _ Hq Hin) as ?%Z.eqb_neq.
    + by eapply holds_id_None in Hin.
    + by eapply holds_id_None in Hin.
Qed.

(** [cancel_request] cancels one sequence of that request, if there is one. *)
Lemma cancel_request_cases h req_id :
  sched_ok h →
  match cancel_request req_id h with
  | (Ok true, h') => ∃ s, s ∈ sequences h ∧ q_id (s_req s) = req_id ∧ cancelled h (s_seq_id s) h'
  | (Ok false, h') => h' = h ∧ ∀ s, s ∈ sequences h → q_id (s_req s) ≠ req_id
  | _ => False
  end.
Proof.
  intros Hok. unfold cancel_request. erewrite sbind_Ok by reflexivity.
  assert (∀ s, s ∈ sequences h → q_id (s_req s) = req_id →
    match cancel_sequence (s_seq_id s) h with
    | (Ok true, h') => ∃ s, s ∈ sequences h ∧ q_id (s_req s) = req_id ∧ cancelled h (s_seq_id s) h'
    | (Ok false, h') => h' = h ∧ ∀ s, s ∈ sequences h → q_id (s_req s) ≠ req_id
    | _ => False
    end) as Hone.
  { intros s Hin Hid. pose proof (cancel_cases h (s_seq_id s) Hok) as Hc.
    destruct (cancel_sequence (s_seq_id s) h) as [[[]|e|] h']; [by exists s| |done..].
    destruct Hc as [_ Hno]. destruct Hno. by apply list_elem_of_fmap_2. }
  assert (∀ o s, holds_req req_id o = Some s → o = Some s ∧ q_id (s_req s) = req_id) as Hsome.
  { intros [x|] s; simpl; [|done]. destruct (Z.eqb_spec (q_id (s_req x)) req_id); [|done]. by intros [= ->]. }
  assert (∀ o s, holds_req req_id o = None → o = Some s → q_id (s_req s) ≠ req_id) as Hnone.
  { intros o s Hn ->. simpl in Hn. by destruct (Z.eqb_spec (q_id (s_req s)) req_id). }
  destruct (holds_req req_id (h_active h)) as [s|] eqn:Ha; [|destruct (find_pos _ _) as [[pos s]|] eqn:Hq;
    [|destruct (holds_req req_id (h_paused h)) as [s|] eqn:Hp]].
  - apply Hsome in Ha as [Ha Hid]. apply Hone; [|done]. unfold sequences. apply elem_of_tracked. auto.
  - apply find_pos_Some in Hq as [Hpos Hid%Z.eqb_eq]. apply Hone; [|done]. unfold sequences.
    apply elem_of_tracked. left. by eapply list_elem_of_lookup_2.
  - apply Hsome in Hp as [Hp Hid]. apply Hone; [|done]. unfold sequences. apply elem_of_tracked. auto.
  - split; [done|]. intros s Hin. unfold sequences in Hin. apply elem_of_tracked in Hin as [Hin|[Hin|Hin]].
    + by pose proof (find_pos_None _ _ _ Hq Hin) as ?%Z.eqb_neq.
    + exact (Hnone _ _ Ha Hin).
    + exact (Hnone _ _ Hp Hin).
Qed.

(** ** Taking a result *)

Record taken h0 (id : Z) (o : option (Request * list Z * FinishReason)) h : Prop := {
  tk_ok : sched_ok h;
  tk_result : o = h_finished h0 !! id;
  tk_finished : h_finished h = delete id (h_finished h0);
  tk_progress : progress h = progress h0;
  tk_next : m_next_seq (h_state_manager h) = m_next_seq (h_state_manager h0);
  tk_beside : beside h0 h
}.

Lemma take_cases h id : sched_ok h → ∃ o h', take_finished_result id h = (Ok o, h') ∧ taken h id o h'.
Proof.
  intros [[[Hm Hids Hlive Hfits Hq Ha Hp Hf] Hdv Hst Hcf] Hfl]. do 2 eexists. split; [reflexivity|].
  constructor; try done.
  - split; [|done]. constructor; [|exact Hdv|exact Hst|exact Hcf]. constructor; try done.
    cbn. intros i Hi. apply Hf. destruct (decide (i = id)) as [->|Hne].
    + rewrite lookup_delete_eq in Hi. by destruct Hi.
    + by rewrite lookup_delete_ne in Hi.
  - constructor; try done. apply spent_refl.
Qed.
(** ** A new scheduler *)

(** What [Scheduler::new] is given: a manager without sequences, an arena, a
    program, a cost table, and widths that are unsigned. *)
Record supplied (config : SchedulerConfig) (m : StateManager) (t : T) (program : StepGraphProgram OpStatic)
    (a : WorkspaceArena) : Prop := {
  su_manager : manager_ok m ∧ m_seqs m = ∅;
  su_chunks : 0 ≤ sg_prefill_min_chunk config ∧ sg_prefill_max_chunk config ≤ U32_MAX;
  su_cost : cost_total t;
  su_program : program_ok program;
  su_arena : arena_ok a;
  su_reserves : reserves try_reserve_exact
}.

Lemma scheduler_validate_Ok c : scheduler_validate c = Ok tt →
  sg_prefill_min_chunk c ≠ 0 ∧ sg_prefill_min_chunk c ≤ sg_prefill_max_chunk c ∧ sg_max_seqs c = 1 ∧
  sg_k_max c = 0 ∧ sg_vocab_size c ≠ 0 ∧ sg_max_outstanding c ≠ 0.
Proof.
  unfold scheduler_validate, problem_if. intros Hv.
  destruct (bool_decide _) eqn:Hb in Hv; [|done]. apply bool_decide_eq_true in Hb.
  repeat match type of Hb with _ ++ _ = [] => apply app_eq_nil in Hb as [?Hn Hb] end.
  repeat match goal with Hx : (if ?b then [_] else []) = [] |- _ => destruct b eqn:?; [discriminate Hx|clear Hx] end.
  repeat match goal with Hx : negb _ = false |- _ => apply negb_false_iff in Hx end. lia.
Qed.

Lemma scheduler_new_ok config m t program a d h :
  supplied config m t program a →
  scheduler_new resolve try_reserve_exact config m t program a d = Ok h →
  sched_ok h ∧ is_idle h = true ∧ h_finished h = ∅ ∧ h_state_manager h = m ∧ h_config h = config ∧
  sg_max_outstanding config ≠ 0.
Proof.
  intros [[Hm Hnone] [Hmin Hmax] Hcost Hprog Harena Htr]. unfold scheduler_new.
  destruct (scheduler_validate config) as [[]|e|] eqn:Hv; [|done..]. cbn [obind].
  destruct (scheduler_validate_Ok _ Hv) as (Hz & Hle & _ & _ & _ & Hout).
  destruct (eager_capture_warm_buckets _ _ _ _ _) as [gc|e|] eqn:Hgc; [|done..]. cbn [obind].
  destruct (try_with_capacity _ _ _ _ _) as [ws|e|] eqn:Hws; [|done..]. cbn [obind omap_err].
  intros [= <-]. destruct (eager_capture_ok _ _ _ _ _ _ Hgc) as (Hpr & Hcache & _).
  destruct Hm as [bpg Hinv]. split; [|done]. split; [|done]. constructor; cbn.
  - constructor; cbn; [by exists bpg|apply NoDup_nil; done| | | |done|done|].
    + intros id. rewrite Hnone, lookup_empty, elem_of_nil. by split; [intros []|].
    + by intros s ?%elem_of_nil.
    + by intros s ?%elem_of_nil.
    + intros id []%lookup_empty_is_Some.
  - constructor; [done| |by rewrite Hpr|done|apply chain_new_ok].
    destruct (mi_config _ _ Hinv) as (Hc & _).
    refine (proj1 (try_with_capacity_caps _ _ _ _ _ _ Htr _ _ _ _ Hws)); try lia. unfold max_blocks, BLOCK_TOKENS. apply Z.div_pos; lia.
  - constructor; [unfold is_u64, U64_MAX; lia|done|]. exists []. split; [by apply ring_holds_new; lia|done].
  - constructor; [lia|done].
Qed.
End calls.
