(* ===== verification/SchedServe.v ===== *)
(** * Serving requests

    The public calls of a [Scheduler] in any order: every state they reach is
    well formed, no request is lost and none is answered twice, the number of
    outstanding requests stays under its bound, and the steps that complete
    are bounded by the work that was asked for, so that a scheduler whose
    steps complete finishes every request.

    A small scheduler: One model, one device that answers every step, and a run of a request from
    its prompt to its last token. *)

From S2P Require Import Prelude Wp Bytes Errors Spec Pools Manager Invariant Construct Reserve Admission Commit Workspace BatchSpec SchedError Arena Capture CaptureSpec Cost Streams Inline Log Detok Sequence Generation Append Scheduler Step SchedInv PreStepSpec PostStepSpec StepSafe SchedCalls.

#[global] Open Scope Z_scope.

Inductive call : Type :=
| EnqueueCall (req : Request)
| CancelCall (id : Z)
| CancelRequestCall (req_id : Z)
| TakeCall (id : Z)
| StepCall.

Inductive answer : Type :=
| EnqueuedAs (id : Z)
| WasThere (b : bool)
| Took (id : Z) (o : option (Request * list Z * FinishReason))
| Stepped (o : option StepResult).

(** The arguments a caller can build: [Request::new] validates. *)
Definition call_ok (c : call) : Prop :=
  match c with EnqueueCall req => well_formed_request req | _ => True end.

(** The ids a call handed out, the results it gave away, whether it
    completed a step, and the positions it asked for. *)
Definition issued_by (o : outcome SchedError answer) : list Z :=
  match o with Ok (EnqueuedAs id) => [id] | _ => [] end.
Definition taken_by (o : outcome SchedError answer) : list Z :=
  match o with Ok (Took id (Some _)) => [id] | _ => [] end.
Definition completes (o : outcome SchedError answer) : Z :=
  match o with Ok (Stepped (Some _)) => 1 | _ => 0 end.
Definition asked (c : call) : Z :=
  match c with EnqueueCall req => Z.of_nat (length (q_tokens req)) + q_max_tokens req | _ => 0 end.

(** The prompt positions and tokens a tracked sequence may still take. *)
Definition work_of (r : Z * (Request * Z * list Z)) : Z :=
  let '(_, (req, ctx, _)) := r in Z.of_nat (length (q_tokens req)) + q_max_tokens req - ctx.

Lemma put_back (X : gset Z) id : id ∈ X → X ∖ {[id]} ∪ {[id]} = X.
Proof. intros Hin. apply set_eq. intros x. destruct (decide (x = id)); set_solver. Qed.

Section serve.
Context {T D OpStatic W : Type} `{CostTable T, DetokenizerLaws D, StepExecutorLaws W}.
Context (resolve : OpId.t → OpStatic → outcome Text ResolvedVariant) (grown : Z → Z → Z).
Local Notation Scheduler := (Scheduler T D OpStatic).
Local Notation sched_ok := (sched_ok resolve).
Implicit Types (h : Scheduler) (w : W).

Definition perform_call (c : call) : run (T:=T) (D:=D) (OpStatic:=OpStatic) (W:=W) answer :=
  match c with
  | EnqueueCall req => let! id := on_host (enqueue_request req) in sret (EnqueuedAs id)
  | CancelCall id => let! b := on_host (cancel_sequence id) in sret (WasThere b)
  | CancelRequestCall req_id => let! b := on_host (cancel_request req_id) in sret (WasThere b)
  | TakeCall id => let! o := on_host (take_finished_result id) in sret (Took id o)
  | StepCall => let! o := step resolve grown in sret (Stepped o)
  end.

(** Calls in a row; a refusal does not stop the caller. *)
Fixpoint serve (cs : list call) (s : Scheduler * W) : list (outcome SchedError answer) * (Scheduler * W) :=
  match cs with
  | [] => ([], s)
  | c :: cs => let '(o, s) := perform_call c s in let '(os, s) := serve cs s in (o :: os, s)
  end.

(** The requests a caller can still ask about. *)
Definition accounted h : gset Z := list_to_set (map fst (progress h)) ∪ dom (h_finished h).
Definition outstanding h : Z := Z.of_nat (outstanding_count h).
Definition work h : Z := Zsum (map work_of (progress h)).

Record served h (cs : list call) (os : list (outcome SchedError answer)) h' : Prop := {
  sv_ok : sched_ok h';
  sv_returns : Forall (λ o, o ≠ Panic) os;
  sv_spent : spent (Z.of_nat (length cs)) (h_state_manager h) (h_state_manager h');
  sv_accounted : accounted h' ∪ list_to_set (concat (map taken_by os)) =
    accounted h ∪ list_to_set (concat (map issued_by os));
  sv_issued : concat (map issued_by os) =
    seqZ (m_next_seq (h_state_manager h)) (m_next_seq (h_state_manager h') - m_next_seq (h_state_manager h));
  sv_next : m_next_seq (h_state_manager h) ≤ m_next_seq (h_state_manager h');
  sv_results id r : h_finished h !! id = Some r → id ∉ concat (map taken_by os) → h_finished h' !! id = Some r;
  sv_bound : h_config h' = h_config h ∧
    (outstanding h ≤ sg_max_outstanding (h_config h) → outstanding h' ≤ sg_max_outstanding (h_config h));
  sv_work : Zsum (map completes os) + work h' ≤ work h + Zsum (map asked cs)
}.

(** ** What the invariant gives *)

Lemma elem_progress h id : id ∈ map fst (progress h) ↔ id ∈ map s_seq_id (sequences h).
Proof. unfold progress. by rewrite map_map. Qed.

Lemma outstanding_eq h : outstanding h = Z.of_nat (length (progress h)) + Z.of_nat (size (h_finished h)).
Proof.
  unfold outstanding, outstanding_count, progress, sequences, tracked. rewrite length_map, !length_app.
  destruct (h_active h), (h_paused h); simpl; lia.
Qed.

Lemma idle_progress h : is_idle h = true ↔ progress h = [].
Proof.
  unfold is_idle, active_sequence_count, progress, sequences, tracked. rewrite Nat.eqb_eq.
  split; [|intros Hnil%(f_equal length); rewrite length_map, !length_app in Hnil; destruct (h_active h), (h_paused h);
    simpl in *; lia].
  intros Hz. apply length_zero_iff_nil. rewrite length_map, !length_app. destruct (h_active h), (h_paused h); simpl in *; lia.
Qed.

(** Every tracked sequence has work left. *)
Lemma work_pos h r : sched_ok h → r ∈ progress h → 0 < work_of r.
Proof.
  intros [[Hpl _ _ _] _] (s & -> & Hin)%list_elem_of_fmap.
  destruct (pl_fits _ _ _ _ _ _ Hpl s Hin) as [[Hne [Hmax _] _] Hph _ _ _].
  unfold work_of, record_of, phase_ok, prompt_of, tokens_of in *.
  destruct (s_phase s); [|lia|lia|done]. destruct Hph as [-> _]. lia.
Qed.

Lemma work_nonneg h : sched_ok h → 0 ≤ work h ∧ (work h = 0 → is_idle h = true).
Proof.
  intros Hok. unfold work. rewrite idle_progress.
  assert (∀ r, r ∈ progress h → 0 < work_of r) as Hpos by (intros r; by apply work_pos).
  induction (progress h) as [|r l IH]; [done|]. simpl.
  pose proof (Hpos r ltac:(by left)). destruct IH as [? _]; [|split; [lia|intros; lia]].
  intros r' Hr'. apply Hpos. by right.
Qed.

Lemma tracked_not_finished h id : sched_ok h → id ∈ map fst (progress h) → h_finished h !! id = None.
Proof.
  intros [[Hpl _ _ _] _] Hin%elem_progress. apply eq_None_not_Some.
  by intros [_ ?]%(pl_finished _ _ _ _ _ _ Hpl).
Qed.

(** ** One call *)

(** The accounts in terms of a list of records. *)
Lemma accounted_eq h l : progress h ≡ₚ l → accounted h = list_to_set (map fst l) ∪ dom (h_finished h).
Proof. intros Hp. unfold accounted. f_equal. apply list_to_set_perm_L. by apply Permutation_map. Qed.
Lemma work_eq h l : progress h ≡ₚ l → work h = Zsum (map work_of l).
Proof. intros Hp. unfold work. apply Zsum_Proper. by apply Permutation_map. Qed.
Lemma outstanding_perm h l :
  progress h ≡ₚ l → outstanding h = Z.of_nat (length l) + Z.of_nat (size (h_finished h)).
Proof. intros Hp. rewrite outstanding_eq. by rewrite (Permutation_length Hp). Qed.

Lemma served_one h c o h' :
  sched_ok h' → o ≠ Panic → spent 1 (h_state_manager h) (h_state_manager h') →
  accounted h' ∪ list_to_set (taken_by o) = accounted h ∪ list_to_set (issued_by o) →
  issued_by o = seqZ (m_next_seq (h_state_manager h)) (m_next_seq (h_state_manager h') - m_next_seq (h_state_manager h)) →
  m_next_seq (h_state_manager h) ≤ m_next_seq (h_state_manager h') →
  (∀ id r, h_finished h !! id = Some r → id ∉ taken_by o → h_finished h' !! id = Some r) →
  h_config h' = h_config h →
  (outstanding h ≤ sg_max_outstanding (h_config h) → outstanding h' ≤ sg_max_outstanding (h_config h)) →
  completes o + work h' ≤ work h + asked c →
  served h [c] [o] h'.
Proof.
  intros. constructor; simpl; rewrite ?app_nil_r; try done.
  - by constructor.
  - lia.
Qed.

(** A call that moved nothing. *)
Lemma served_same h c o h' :
  sched_ok h' → o ≠ Panic → spent 1 (h_state_manager h) (h_state_manager h') →
  taken_by o = [] → issued_by o = [] → completes o = 0 → 0 ≤ asked c →
  progress h' ≡ₚ progress h → h_finished h' = h_finished h → h_config h' = h_config h →
  m_next_seq (h_state_manager h') = m_next_seq (h_state_manager h) → served h [c] [o] h'.
Proof.
  intros Hok Ho Hs Ht Hi Hc Ha Hp Hf Hcf Hn. apply served_one; rewrite ?Ht, ?Hi, ?Hn; try done.
  - by rewrite (accounted_eq _ _ Hp), Hf.
  - by rewrite Z.sub_diag.
  - by rewrite Hf.
  - by rewrite (outstanding_perm _ _ Hp), Hf, <- outstanding_eq.
  - rewrite (work_eq _ _ Hp), Hc. unfold work. lia.
Qed.

(** A sequence that ended, with its result. *)
Lemma ended_outstanding h h' id p r :
  sched_ok h → progress h ≡ₚ (id, p) :: progress h' → h_finished h' = <[id := r]> (h_finished h) →
  accounted h' = accounted h ∧ outstanding h' = outstanding h ∧
  (∀ i x, h_finished h !! i = Some x → h_finished h' !! i = Some x).
Proof.
  intros Hok Hp Hf. assert (h_finished h !! id = None) as Hno.
  { apply tracked_not_finished; [done|]. rewrite Hp. by left. }
  split_and!.
  - rewrite (accounted_eq _ _ Hp). unfold accounted. rewrite Hf. simpl. rewrite dom_insert_L. by rewrite (assoc_L (∪)), (comm_L (∪) (list_to_set _)).
  - rewrite (outstanding_perm _ _ Hp), outstanding_eq, Hf, map_size_insert_None by done. simpl. lia.
  - intros i x Hi. rewrite Hf, lookup_insert_ne; [done|congruence].
Qed.

Lemma served_step h res h' :
  sched_ok h → completed resolve h res h' → served h [StepCall] [Ok (Stepped (Some res))] h'.
Proof.
  intros Hok [Hok' Hadv _ _ _ (Hcf & _ & _) Hsp Hnext].
  apply served_one; rewrite ?Hnext; try done; simpl; rewrite ?Z.sub_diag; try done.
  all: destruct Hadv as [id req ctx gen n gen' rest Hp Hp' Hn _ Hf|id req ctx gen rest token k reason Hp Hp' Hf];
    try (rewrite <- Hp' in Hp; destruct (ended_outstanding h h' id _ _ Hok Hp Hf) as (Hacc & Hout & Hres)).
  - by rewrite (accounted_eq _ _ Hp), (accounted_eq _ _ Hp'), Hf.
  - by rewrite Hacc.
  - rewrite Hf. auto.
  - auto.
  - by rewrite (outstanding_perm _ _ Hp), (outstanding_perm _ _ Hp'), Hf.
  - by rewrite Hout.
  - rewrite (work_eq _ _ Hp), (work_eq _ _ Hp'). cbn [map]. rewrite !Zsum_cons. unfold work_of. lia.
  - rewrite (work_eq _ _ Hp). cbn [map]. rewrite !Zsum_cons.
    pose proof (work_pos h (id, (req, ctx, gen)) Hok ltac:(rewrite Hp; by left)). unfold work. lia.
Qed.

Lemma spent_1 m m' : spent 0 m m' → spent 1 m m'.
Proof. unfold spent. lia. Qed.

Lemma served_refused h c e : sched_ok h → 0 ≤ asked c → served h [c] [Err e] h.
Proof. intros. apply served_same; try done. apply spent_1, spent_refl. Qed.

Lemma served_enqueue h req id h' :
  sched_ok h → well_formed_request req → enqueued resolve h req id h' →
  served h [EnqueueCall req] [Ok (EnqueuedAs id)] h'.
Proof.
  intros Hok Hreq [Hok' [Hid Hn] [Hno Hnf] Hp _ Hf Hroom [_ _ [Hcf _] Hsp]].
  apply served_one; rewrite ?Hn; simpl; try done.
  - by apply spent_1.
  - rewrite (accounted_eq _ _ Hp). unfold accounted. rewrite Hf. simpl.
    by rewrite (union_empty_r_L), !(assoc_L (∪)), union_empty_r_L, <- (assoc_L (∪)), (comm_L (∪) {[id]}).
  - rewrite <- Hid. replace (id + 1 - id) with 1 by lia. done.
  - lia.
  - by rewrite Hf.
  - intros _. rewrite (outstanding_perm _ _ Hp), Hf. pose proof (outstanding_eq h) as Ho. unfold outstanding in Ho.
    simpl. lia.
  - rewrite (work_eq _ _ Hp). cbn [map]. rewrite Zsum_cons. unfold work, work_of. lia.
Qed.

Lemma served_cancel h c id h' :
  sched_ok h → cancelled resolve h id h' → 0 ≤ asked c → served h [c] [Ok (WasThere true)] h'.
Proof.
  intros Hok [Hok' (req & ctx & gen & Hp & Hf) Hn [_ _ [Hcf _] Hsp]] Ha.
  destruct (ended_outstanding h h' id _ _ Hok Hp Hf) as (Hacc & Hout & Hres).
  pose proof (work_pos h (id, (req, ctx, gen)) Hok ltac:(rewrite Hp; by left)) as Hpos.
  apply served_one; rewrite ?Hn, ?Hacc, ?Hout; simpl; rewrite ?Z.sub_diag; try done; auto.
  - by apply spent_1.
  - rewrite (work_eq _ _ Hp). cbn [map]. rewrite !Zsum_cons. unfold work. lia.
Qed.

Lemma served_take h id o h' : sched_ok h → taken resolve h id o h' → served h [TakeCall id] [Ok (Took id o)] h'.
Proof.
  intros Hok [Hok' Ho Hf Hp Hn [_ _ [Hcf _] Hsp]]. destruct o as [r|].
  2: { apply served_same; try done; [by apply spent_1|by rewrite Hp|]. by rewrite Hf, delete_id. }
  assert (id ∉ map fst (progress h)) as Hno.
  { intros Hin%tracked_not_finished; congruence. }
  assert (id ∈ dom (h_finished h)) as Hin by (apply elem_of_dom; by rewrite <- Ho).
  apply served_one; rewrite ?Hn; simpl; rewrite ?Z.sub_diag; try done.
  - by apply spent_1.
  - unfold accounted. rewrite Hp, Hf, dom_delete_L, !union_empty_r_L, <- (assoc_L (∪)).
    by rewrite put_back.
  - intros i r' Hi Hni. rewrite Hf, lookup_delete_ne; [done|]. intros ->. apply Hni. by left.
  - rewrite !outstanding_eq, Hp, Hf, map_size_delete, <- Ho. lia.
  - unfold work. rewrite Hp. lia.
Qed.

Lemma perform_call_served c h w :
  registry_ok resolve → call_ok c → sched_ok h → commits_left (h_state_manager h) →
  let '(o, (h', w')) := perform_call c (h, w) in served h [c] [o] h'.
Proof.
  intros Hreg Hc Hok Hl. destruct c as [req|id|req_id|id|]; unfold perform_call, on_host, szoom, sbind; simpl.
  - pose proof (enqueue_cases resolve h req Hok Hc) as He.
    destruct (enqueue_request req h) as [[id|e|] h']; [by apply served_enqueue| |done].
    destruct He as [-> _]. apply served_refused; [done|]. destruct Hc as [_ [? _] _]. simpl. lia.
  - pose proof (cancel_cases resolve h id Hok) as He.
    destruct (cancel_sequence id h) as [[[]|e|] h']; [by eapply served_cancel| |done..].
    destruct He as [-> _]. apply served_same; try done. apply spent_1, spent_refl.
  - pose proof (cancel_request_cases resolve h req_id Hok) as He.
    destruct (cancel_request req_id h) as [[[]|e|] h']; [| |done..].
    + destruct He as (s & _ & _ & He). by eapply served_cancel.
    + destruct He as [-> _]. apply served_same; try done. apply spent_1, spent_refl.
  - destruct (take_cases resolve h id Hok) as (o & h' & [= <- <-] & Ht). by apply served_take.
  - pose proof (step_cases resolve grown h w Hreg Hok Hl) as Hs.
    destruct (step resolve grown (h, w)) as [[[res|]|e|] [h' w']]; [by apply served_step| | |done].
    all: destruct Hs as [Hok' [Hp Hf _ _ Hcf _ _ Hn _] _ Hsp]; by apply served_same.
Qed.

(** ** Calls in a row *)

Lemma served_nil h : sched_ok h → served h [] [] h.
Proof. intros. constructor; simpl; rewrite ?Z.sub_diag; try done; [apply spent_refl|lia]. Qed.

Lemma served_cons h c o h1 cs os h' :
  served h [c] [o] h1 → served h1 cs os h' → served h (c :: cs) (o :: os) h'.
Proof.
  intros [Ok1 Ret1 Sp1 Acc1 Is1 Nx1 Res1 [Cf1 Bd1] Wk1] [Ok2 Ret2 Sp2 Acc2 Is2 Nx2 Res2 [Cf2 Bd2] Wk2].
  cbn [map concat] in *. rewrite app_nil_r in Acc1, Is1, Res1. rewrite app_nil_r in Acc1. constructor; cbn [map concat].
  - done.
  - apply Forall_cons in Ret1 as [? _]. by constructor.
  - cbn [length] in *. unfold spent in *. lia.
  - rewrite !list_to_set_app_L, (comm_L (∪) (list_to_set (taken_by o))), (assoc_L (∪)), Acc2.
    rewrite <- (assoc_L (∪)), (comm_L (∪) (list_to_set (concat _))), (assoc_L (∪)), Acc1. by rewrite <- (assoc_L (∪)).
  - rewrite Is1, Is2. set (n := m_next_seq (h_state_manager h)) in *. set (n1 := m_next_seq (h_state_manager h1)) in *.
    set (n2 := m_next_seq (h_state_manager h')) in *. replace (n2 - n) with ((n1 - n) + (n2 - n1)) by lia.
    rewrite seqZ_app by lia. by replace (n + (n1 - n)) with n1 by lia.
  - lia.
  - intros id r Hid Hno. apply not_elem_of_app in Hno as [? ?]. auto.
  - rewrite Cf1 in Cf2, Bd2. auto.
  - rewrite !Zsum_cons in *. unfold Zsum at 1 2 in Wk1. simpl in Wk1. lia.
Qed.

Lemma serve_served cs h w :
  registry_ok resolve → Forall call_ok cs → sched_ok h →
  m_commits (h_state_manager h) + Z.of_nat (length cs) ≤ U64_MAX →
  m_swaps (h_state_manager h) + Z.of_nat (length cs) ≤ U64_MAX →
  let '(os, (h', _)) := serve cs (h, w) in served h cs os h'.
Proof.
  intros Hreg Hcs. revert h w. induction Hcs as [|c cs Hc Hcs IH]; intros h w Hok Hm Hw; simpl.
  { by apply served_nil. }
  cbn [length] in *.
  pose proof (perform_call_served c h w Hreg Hc Hok ltac:(unfold commits_left; lia)) as Hone.
  destruct (perform_call c (h, w)) as [o [h1 w1]]. pose proof (sv_spent _ _ _ _ Hone) as Hsp.
  unfold spent in Hsp. cbn [length] in Hsp. specialize (IH h1 w1 (sv_ok _ _ _ _ Hone) ltac:(lia) ltac:(lia)).
  destruct (serve cs (h1, w1)) as [os [h' w']]. by eapply served_cons.
Qed.

(** A scheduler that a caller got from [Scheduler::new]. *)
Definition started try_reserve_exact h : Prop :=
  ∃ config m t program a d, supplied try_reserve_exact config m t program a ∧
    0 ≤ sg_max_outstanding config ∧
    scheduler_new resolve try_reserve_exact config m t program a d = Ok h.

Lemma started_facts tr h : started tr h →
  sched_ok h ∧ progress h = [] ∧ h_finished h = ∅ ∧ 0 ≤ sg_max_outstanding (h_config h).
Proof.
  intros (config & m & t & program & a & d & Hsu & Hmax & Hnew).
  destruct (scheduler_new_ok _ _ _ _ _ _ _ _ _ Hsu Hnew) as (Hok & Hidle & Hf & _ & -> & _).
  by apply idle_progress in Hidle.
Qed.

Section started.
Context (try_reserve_exact : Z → Z → option Z) (h : Scheduler) (cs : list call) (w : W).
Context (Hstart : started try_reserve_exact h) (Hreg : registry_ok resolve) (Hcs : Forall call_ok cs).
Context (Hroom : m_commits (h_state_manager h) + Z.of_nat (length cs) ≤ U64_MAX ∧
  m_swaps (h_state_manager h) + Z.of_nat (length cs) ≤ U64_MAX).

Lemma started_served : let '(os, (h', _)) := serve cs (h, w) in served h cs os h'.
Proof. apply serve_served; [done|done|by eapply started_facts|apply Hroom..]. Qed.


(** C3: No request is lost, duplicated or answered twice: the ids handed out
    are consecutive and never reused, and after any calls the ids handed out
    are exactly those still tracked, those whose result is kept, and those
    whose result was taken; a kept result stays until it is taken. *)
Theorem requests_accounted :
  let '(os, (h', _)) := serve cs (h, w) in
  let issued := concat (map issued_by os) in
  let taken := concat (map taken_by os) in
  issued = seqZ (m_next_seq (h_state_manager h)) (Z.of_nat (length issued)) ∧
  accounted h' ∪ list_to_set taken = list_to_set issued ∧
  NoDup (map fst (progress h')) ∧
  (∀ id, id ∈ map fst (progress h') → h_finished h' !! id = None).
Proof.
  pose proof started_served as Hs. destruct (serve cs (h, w)) as [os [h' w']].
  destruct (started_facts _ _ Hstart) as (_ & Hp & Hf & _).
  destruct Hs as [Hok _ _ Hacc Hiss Hn _ _ _]. cbv zeta. split_and!.
  - rewrite Hiss at 2. rewrite length_seqZ, Z2Nat.id by lia. done.
  - rewrite Hacc. unfold accounted. rewrite Hp, Hf, dom_empty_L. simpl. by rewrite !union_empty_l_L.
  - unfold progress. rewrite map_map. apply (pl_ids _ _ _ _ _ _ (si_places _ _ _ (proj1 Hok))).
  - intros id. by apply tracked_not_finished.
Qed.

(** What the fields of a tracked sequence hold, at their widths. *)
Record widths (m : StateManager) (s : Sequence) : Prop := {
  wd_id : 0 ≤ s_seq_id s < m_next_seq m ∧ is_u32 (s_seq_id s);
  wd_ctx : 0 ≤ s_ctx_len s ≤ max_ctx (m_config m) ∧ is_u32 (s_ctx_len s);
  wd_phase : match s_phase s with Prefilling n => 0 ≤ n < prompt_of s ∧ is_u32 n | Finished _ => False | _ => True end;
  wd_tokens : 0 ≤ tokens_of s < q_max_tokens (s_req s) ∧ is_u32 (tokens_of s);
  wd_prompt : prompt_len s = prompt_of s ∧
    remaining_prompt s = Z.max 0 (prompt_of s - s_ctx_len s)
}.

Lemma widths_fit (s0 : Scheduler) s : sched_ok s0 → s ∈ sequences s0 → widths (h_state_manager s0) s.
Proof.
  intros [[Hpl _ _ _] _] Hin. pose proof (pl_manager _ _ _ _ _ _ Hpl) as [bpg Hm].
  pose proof (pl_fits _ _ _ _ _ _ Hpl s Hin) as Hfit.
  pose proof (phase_prompt_len _ _ _ (pl_manager _ _ _ _ _ _ Hpl) Hfit) as Hlen.
  pose proof Hfit as [[Hne [Hpos Hmax] _] Hph _ Hpr (st & Hst & Hctx & Htail & _)].
  destruct (mi_seqs _ _ Hm _ _ Hst) as [Hid Hok]. pose proof (so_end _ _ _ Hok) as Hend.
  destruct (mi_config _ _ Hm) as (Hc & _ & _). pose proof (mi_next _ _ Hm) as Hnext.
  assert (0 ≤ s_ctx_len s ∧ 0 ≤ tokens_of s < q_max_tokens (s_req s)) as [Hctx0 Htok].
  { unfold phase_ok, tokens_of in *. destruct (s_phase s).
    1,2: destruct Hph as (? & ?); split; [lia|]; assert (s_generated s = []) as -> by tauto; simpl; lia.
    - unfold prompt_of in *. lia.
    - done. }
  unfold closed, MAX_CTX_HARD, U32_MAX in *. constructor; unfold is_u32, U32_MAX; [lia|lia| |lia|].
  - unfold phase_ok, prompt_of in *. destruct (s_phase s); [done| |done|done]. lia.
  - split; [done|]. unfold remaining_prompt, saturating_sub, phase_ok in *. rewrite Hlen.
    unfold prompt_of, tokens_of in *. destruct (s_phase s) as [|n| |]; [lia| |lia|done]. by destruct (Z.leb_spec n (Z.of_nat (length (q_tokens (s_req s))))); lia.
Qed.

(** The fields of the sequences keep their widths, whatever the calls: in
    every scheduler a caller can reach, the id and the context of a tracked
    sequence, the prompt positions it has ingested and the tokens it has
    generated fit their [u32], the context stays inside the configured
    maximum, the generated tokens stay below those wanted, the prompt length
    is not truncated by its cast, and the step counter fits its [u64] and is
    at least the last committed step. *)
Theorem reachable_widths :
  let '(_, (h', _)) := serve cs (h, w) in
  (∀ s, s ∈ sequences h' → widths (h_state_manager h') s) ∧ is_u64 (h_step_counter h') ∧
  (∀ n, h_last_committed_step h' = Some n → 0 < n ≤ h_step_counter h').
Proof.
  pose proof started_served as Hs. destruct (serve cs (h, w)) as [os [h' w']].
  pose proof (sv_ok _ _ _ _ Hs) as Hok. split_and!.
  - intros s. by apply widths_fit.
  - apply (sk_counter _ _ _ (si_steps _ _ _ (proj1 Hok))).
  - apply (sk_last _ _ _ (si_steps _ _ _ (proj1 Hok))).
Qed.
End started.

(** ** Stepping until there is nothing left *)

Inductive drained : Type :=
| Idle (s : Scheduler * W)
| Stalled (s : Scheduler * W)
| OutOfSteps (s : Scheduler * W).

(** A caller that steps while there is work and its steps complete. *)
Fixpoint drain (fuel : nat) (s : Scheduler * W) : drained :=
  if is_idle s.1 then Idle s
  else match fuel with
       | O => OutOfSteps s
       | S fuel => match step resolve grown s with
                   | (Ok (Some _), s') => drain fuel s'
                   | _ => Stalled s
                   end
       end.

(** Stepping loses no request. *)
Record drains h h' : Prop := {
  dr_ok : sched_ok h';
  dr_accounted : accounted h' = accounted h;
  dr_results id r : h_finished h !! id = Some r → h_finished h' !! id = Some r
}.

Lemma drain_cases fuel h w :
  registry_ok resolve → sched_ok h → work h ≤ Z.of_nat fuel →
  m_commits (h_state_manager h) + Z.of_nat fuel ≤ U64_MAX →
  m_swaps (h_state_manager h) + Z.of_nat fuel ≤ U64_MAX →
  match drain fuel (h, w) with
  | Idle (h', _) => drains h h' ∧ is_idle h' = true
  | Stalled (h', w') => drains h h' ∧ is_idle h' = false ∧ completes (perform_call StepCall (h', w')).1 = 0
  | OutOfSteps _ => False
  end.
Proof.
  intros Hreg. revert h w. induction fuel as [|fuel IH]; intros h w Hok Hwork Hm Hw; simpl.
  all: destruct (is_idle h) eqn:Hidle; [by split; [constructor|]|].
  - destruct (work_nonneg h Hok) as [Hnn Hz]. rewrite Hz in Hidle by lia. done.
  - assert (commits_left (h_state_manager h)) as Hl by (unfold commits_left; lia).
    pose proof (perform_call_served StepCall h w Hreg I Hok Hl) as Hone. unfold perform_call, sbind in Hone.
    destruct (step resolve grown (h, w)) as [[[res|]|e|] [h1 w1]] eqn:Hrun.
    2-4: by split_and!; [constructor|done|unfold perform_call, sbind; rewrite Hrun].
    destruct Hone as [Hok1 _ Hsp Hacc _ _ Hres _ Hwk]. unfold spent in Hsp. simpl in *.
    specialize (IH h1 w1 Hok1 ltac:(lia) ltac:(lia) ltac:(lia)). rewrite !union_empty_r_L in Hacc.
    assert (∀ h', drains h1 h' → drains h h') as Htrans.
    { intros h' [? Hacc' Hres']. constructor; [done|by rewrite Hacc'|]. intros id r Hid. apply Hres', Hres; [done|].
      by apply not_elem_of_nil. }
    destruct (drain fuel (h1, w1)) as [[h' w']|[h' w']|]; [| |done]; destruct IH; auto.
Qed.

(** C2: Work is finished: a caller that keeps stepping while there is work
    stops within as many steps as there are prompt positions and tokens still
    asked for, either because a step of a non-idle scheduler did not complete,
    or because the scheduler is idle and every request it tracked has its
    result; results that were there stay. *)
Theorem work_is_finished h (w : W) fuel :
  registry_ok resolve → sched_ok h → work h ≤ Z.of_nat fuel →
  m_commits (h_state_manager h) + Z.of_nat fuel ≤ U64_MAX →
  m_swaps (h_state_manager h) + Z.of_nat fuel ≤ U64_MAX →
  match drain fuel (h, w) with
  | Idle (h', _) => sched_ok h' ∧ progress h' = [] ∧
      (∀ id, id ∈ map fst (progress h) → is_Some (h_finished h' !! id)) ∧
      ∀ id r, h_finished h !! id = Some r → h_finished h' !! id = Some r
  | Stalled (h', w') => sched_ok h' ∧ progress h' ≠ [] ∧ completes (perform_call StepCall (h', w')).1 = 0
  | OutOfSteps _ => False
  end.
Proof.
  intros Hreg Hok Hwork Hm Hw. pose proof (drain_cases fuel h w Hreg Hok Hwork Hm Hw) as Hd.
  destruct (drain fuel (h, w)) as [[h' w']|[h' w']|]; [| |done].
  - destruct Hd as [[Hok' Hacc Hres] Hidle%idle_progress]. split_and!; [done|done| |done].
    intros id Hin. assert (id ∈ accounted h') as Hin'.
    { rewrite Hacc. apply elem_of_union_l. by apply elem_of_list_to_set. }
    unfold accounted in Hin'. rewrite Hidle in Hin'. cbn [map list_to_set] in Hin'.
    rewrite union_empty_l_L in Hin'. by apply elem_of_dom.
  - destruct Hd as ([Hok' _ _] & Hidle & Hc). split_and!; [done| |done]. rewrite <- idle_progress. by rewrite Hidle.
Qed.
End serve.

(** * A small scheduler *)

(** A device that samples the letter A, once the prompt is in. *)
Record ToyDevice : Type := { ty_inputs : option StepInputs }.

Definition toy_sample (i : StepInputs) : DeviceStepSample :=
  let accept := match in_prefill i with
                | Some (processed, chunk) => if processed + chunk <? Z.of_nat (length (in_prompt_tokens i)) then 0 else 1
                | None => 1
                end in
  {| ds_step_id := in_step_id i; ds_token := 65; ds_accept_len := accept |}.

#[global] Instance toy_executor : StepExecutor ToyDevice := {|
  upload_inputs i := smodify (λ _, {| ty_inputs := Some i |});
  replay_graph _ := sret tt;
  readback_sample := let! d := sget in
    match ty_inputs d with Some i => sret (toy_sample i) | None => sfail (Internal (msg "nothing uploaded" [])) end
|}.

#[export] Instance toy_executor_laws : StepExecutorLaws ToyDevice.
Proof. split; try done. intros [[i|]]; done. Qed.

Definition toy_start : SchedResult (Scheduler CostTableStub ByteDetokenizer unit) :=
  scheduler_new toy_resolve demo_reserve scheduler_config_default demo cost_table_default toy_program
    (arena_new 0 1024) byte_detokenizer_new.

(** The scheduler itself; the fallback is not reached. *)
Definition toy_scheduler : Scheduler CostTableStub ByteDetokenizer unit :=
  Eval vm_compute in
  match toy_start with
  | Ok h => h
  | _ =>
      {| h_config := scheduler_config_default; h_state_manager := demo; h_cost_table := cost_table_default;
         h_arena := arena_new 0 1024; h_batch_workspace := workspace_new; h_graph_cache := cache_new toy_program;
         h_event_chain := chain_new; h_schedule_log := ring_new 1; h_proposer := proposer_new;
         h_detokenizer := byte_detokenizer_new; h_step_counter := 0; h_arrival_counter := 0; h_in_flight := None;
         h_last_committed_step := None; h_queued := []; h_active := None; h_paused := None;
         h_pending_pause_report := None; h_finished := ∅ |}
  end.

Lemma toy_start_Ok : toy_start = Ok toy_scheduler.
Proof. vm_compute. reflexivity. Qed.

Lemma toy_registry : registry_ok toy_resolve.
Proof. split; [done|]. intros id s v [= <-]. cbn. unfold is_u64, U64_MAX. lia. Qed.

Lemma toy_program_ok : program_ok toy_program.
Proof. repeat (constructor; [by intros slot [= <-]|]). by constructor. Qed.

Lemma toy_supplied : supplied demo_reserve scheduler_config_default demo cost_table_default toy_program (arena_new 0 1024).
Proof.
  constructor; [by split; [apply demo_ok|]|done|apply stub_total|apply toy_program_ok| |apply demo_reserves].
  constructor; cbn; unfold is_u64, U64_MAX; lia.
Qed.

Lemma toy_started : started toy_resolve demo_reserve toy_scheduler.
Proof.
  exists scheduler_config_default, demo, cost_table_default, toy_program, (arena_new 0 1024), byte_detokenizer_new.
  split_and!; [apply toy_supplied|done|apply toy_start_Ok].
Qed.

(** Three prompt tokens, two tokens wanted. *)
Definition toy_sampling : SamplingParams :=
  {| sp_temperature := f32_one; sp_top_k := 0; sp_top_p := f32_one; sp_min_p := f32_zero;
     sp_repetition_penalty := f32_one; sp_presence_penalty := f32_zero; sp_frequency_penalty := f32_zero;
     sp_logit_bias := [] |}.
Definition toy_request : Request :=
  {| q_id := 7; q_tokens := [1; 2; 3]; q_sampling := toy_sampling; q_max_tokens := 2; q_stop := stop_default;
     q_stream := false; q_seed := 7 |}.

Lemma toy_request_new : request_new 7 [1; 2; 3] toy_sampling 2 stop_default false = Ok toy_request.
Proof. vm_compute. reflexivity. Qed.

Lemma toy_request_ok : well_formed_request toy_request.
Proof. constructor; [done|unfold U32_MAX; cbn; lia|right; cbn; lia]. Qed.

Definition toy_device : ToyDevice := {| ty_inputs := None |}.
Definition toy_grown (_ len : Z) : Z := len.
Definition toy_calls : list call := [EnqueueCall toy_request; StepCall; StepCall; StepCall; TakeCall 0].

Lemma toy_calls_ok : Forall call_ok toy_calls.
Proof. repeat constructor; apply toy_request_ok. Qed.

Lemma toy_room : m_commits (h_state_manager toy_scheduler) + Z.of_nat (length toy_calls) ≤ U64_MAX ∧
  m_swaps (h_state_manager toy_scheduler) + Z.of_nat (length toy_calls) ≤ U64_MAX.
Proof. by vm_compute. Qed.

(** The scheduler with the request queued. *)
Definition toy_queued : Scheduler CostTableStub ByteDetokenizer unit :=
  Eval vm_compute in (enqueue_request toy_request toy_scheduler).2.

Lemma toy_queued_ok : sched_ok toy_resolve toy_queued.
Proof.
  destruct (started_facts _ _ _ toy_started) as [Hok _].
  pose proof (enqueue_cases toy_resolve toy_scheduler toy_request Hok toy_request_ok) as He.
  assert (enqueue_request toy_request toy_scheduler = (Ok 0, toy_queued)) as Hrun by (vm_compute; reflexivity).
  rewrite Hrun in He. apply He.
Qed.

Definition completed_step {E A S} (r : outcome E (option A) * S) : bool :=
  match r.1 with Ok (Some _) => true | _ => false end.

Definition ended_idle (d : drained (T:=CostTableStub) (D:=ByteDetokenizer) (OpStatic:=unit) (W:=ToyDevice)) : bool :=
  match d with Idle _ => true | _ => false end.

(** The prompt is taken in one step, with the first token. *)
Lemma step_safe_witness :
  ∃ res h' w', step toy_resolve toy_grown (toy_queued, toy_device) = (Ok (Some res), (h', w')) ∧
    completed toy_resolve toy_queued res h'.
Proof.
  pose proof (step_safe toy_resolve toy_grown toy_queued toy_device toy_registry toy_queued_ok ltac:(done)) as H.
  assert (completed_step (step toy_resolve toy_grown (toy_queued, toy_device)) = true) as Hc by (vm_compute; reflexivity).
  destruct (step toy_resolve toy_grown (toy_queued, toy_device)) as [[[res|]|e|] [h' w']]; [|done..].
  by exists res, h', w'.
Defined.


Lemma requests_accounted_witness :
  let '(os, (h', _)) := serve toy_resolve toy_grown toy_calls (toy_scheduler, toy_device) in
  concat (map issued_by os) = [0] ∧ concat (map taken_by os) = [0] ∧ accounted h' ∪ {[0]} = {[0]}.
Proof.
  pose proof (requests_accounted toy_resolve toy_grown demo_reserve toy_scheduler toy_calls toy_device toy_started
    toy_registry toy_calls_ok toy_room) as H.
  destruct (serve _ _ _ _) as [os [h' w']] eqn:E. cbv zeta in H. destruct H as (_ & Hacc & _).
  assert (concat (map issued_by (serve toy_resolve toy_grown toy_calls (toy_scheduler, toy_device)).1) = [0] ∧
    concat (map taken_by (serve toy_resolve toy_grown toy_calls (toy_scheduler, toy_device)).1) = [0]) as [Hi Ht]
    by (split; vm_compute; reflexivity).
  rewrite E in Hi, Ht. cbn [fst] in Hi, Ht. clear E.
  rewrite Hi, Ht in Hacc. cbn [list_to_set] in Hacc. rewrite !union_empty_r_L in Hacc.
  split; [exact Hi|]. split; [exact Ht|exact Hacc].
Defined.

Lemma work_is_finished_witness :
  ∃ h' w', drain toy_resolve toy_grown 5%nat (toy_queued, toy_device) = Idle (h', w') ∧
    is_Some (h_finished h' !! 0).
Proof.
  pose proof (work_is_finished toy_resolve toy_grown toy_queued toy_device 5%nat toy_registry toy_queued_ok) as H.
  assert (ended_idle (drain toy_resolve toy_grown 5%nat (toy_queued, toy_device)) = true) as Hi by (vm_compute; reflexivity).
  destruct (drain _ _ _ _) as [[h' w']|s|s]; [|done..].
  exists h', w'. split; [done|]. apply H; [by vm_compute..|]. vm_compute. by left.
Defined.

(** After the prompt and one decode the request is gone from the places; after
    the prompt alone it is decoding. *)
Lemma reachable_widths_witness :
  let '(_, (h', _)) := serve toy_resolve toy_grown [EnqueueCall toy_request; StepCall] (toy_scheduler, toy_device) in
  length (sequences h') = 1%nat ∧ ∀ s, s ∈ sequences h' → widths (h_state_manager h') s.
Proof.
  pose proof (reachable_widths toy_resolve toy_grown demo_reserve toy_scheduler [EnqueueCall toy_request; StepCall]
    toy_device toy_started toy_registry) as H.
  assert (length (sequences (serve toy_resolve toy_grown [EnqueueCall toy_request; StepCall]
    (toy_scheduler, toy_device)).2.1) = 1%nat) as Hl by (vm_compute; reflexivity).
  destruct (serve _ _ _ _) as [os [h' w']]. split; [exact Hl|].
  apply H; [by repeat constructor; apply toy_request_ok|by vm_compute].
Defined.
