(* ===== verification/Format.v ===== *)
(** * The tensor format

    [crates/r9v-format/src]: the errors of [error.rs], the scheme ids of
    [scheme.rs] with their record sizes ([geometry.rs], [repack.rs],
    [iq.rs]), and the layouts and packings of [layout.rs]. *)

From S2P Require Import Prelude Bytes.

#[global] Open Scope Z_scope.

(** ** Errors *)

Inductive FormatError : Type :=
| InvalidDim (name : string) (value : Z) (reason : string)
| InvalidBlock (name : string) (value : Z) (reason : string)
| FmtOverflow (what : string) (detail : Text)
| UnknownLayout (value : Text)
| InvalidBitWidth (bits : Z)
| LengthMismatch (what : string) (expected got : Z)
| UnknownScheme (value : Text)
| UnknownGgmlType (code : Z)
| ReservedScheme (scheme owner : string)
| SchemeMismatch (scheme expected got : string)
| InvalidScale (scheme : string) (record bits : Z) (reason : string)
| UnsupportedLayout (scheme layout : string)
| ValueOutOfRange (what : string) (position value : Z)
| PaddingNonzero (row col value : Z)
| Multiple (problems : list FormatError)
| BadMagic (found : Z)
| UnsupportedVersion (found : Z) (accepted : list Z)
| Truncated (offset need : Z) (what : string)
| Malformed (offset : Z) (detail : Text)
| DuplicateKey (key : list Z)
| DuplicateTensor (name : Text)
| InvalidAlignment (value : Z)
| KvTypeMismatch (key : list Z) (found expected : string)
| MissingKey (key : list Z)
| UnknownTensorType (code : Z) (tensor : list Z)
| BadTensorRange (name : list Z) (start end_ : Z) (reason : Text)
| FormatVersion (found max : Z)
| Io (path message : list Z).

Abbreviation FormatResult := (outcome FormatError).

(** [FormatError::collect], and [collect_problems] of a nonempty list. *)
Definition collect (problems : list FormatError) : FormatResult unit :=
  match problems with
  | [] => Ok tt
  | [single] => Err single
  | problems => Err (Multiple problems)
  end.

Lemma collect_Ok problems : collect problems = Ok tt ↔ problems = [].
Proof. destruct problems as [|p [|q l]]; done. Qed.
Lemma collect_total problems : collect problems ≠ Panic.
Proof. destruct problems as [|p [|q l]]; done. Qed.
#[export] Hint Resolve collect_total : total.

(** [if c { problems.push(p) }]. *)
Definition problem_if (c : bool) (p : FormatError) : list FormatError := if c then [p] else [].

Lemma problem_if_nil c p : problem_if c p = [] ↔ c = false.
Proof. by destruct c. Qed.

(** A loop with an accumulator, and one that pushes several items a turn. *)
Fixpoint ofoldM {E A B} (f : A → B → outcome E A) (acc : A) (l : list B) : outcome E A :=
  match l with
  | [] => Ok acc
  | x :: l => let* acc := f acc x in ofoldM f acc l
  end.

Definition oflatM {E A B} (f : A → outcome E (list B)) (l : list A) : outcome E (list B) :=
  let* ls := omapM f l in Ok (concat ls).

Lemma ofoldM_app {E A B} (f : A → B → outcome E A) acc l k :
  ofoldM f acc (l ++ k) = let* acc := ofoldM f acc l in ofoldM f acc k.
Proof. revert acc. induction l as [|x l IH]; intros acc; simpl; [done|]. destruct (f acc x); simpl; auto. Qed.

Lemma oflatM_total {E A B} (f : A → outcome E (list B)) (g : A → list B) l :
  (∀ x, x ∈ l → f x = Ok (g x)) → oflatM f l = Ok (concat (map g l)).
Proof. intros H. unfold oflatM. by rewrite (omapM_total f g). Qed.

(** [u32::is_multiple_of], by a constant that is not zero. *)
Definition is_multiple_of (a b : Z) : bool := a mod b =? 0.

(** ** Scheme ids *)

Inductive SchemeId : Type :=
| I8R | I8B128 | I4K | E4M3B128 | I8B32F | I4B32F | I4B32FM | I5B32F | I5B32FM | I5K | I6K
| I3K | I2K | I4Nl | I4Xs | Iq3Xxs | Iq3S | Iq2Xxs | Iq2Xs | Iq2S | Iq1S | Iq1M.

#[global] Instance SchemeId_eq_dec : EqDecision SchemeId.
Proof. solve_decision. Defined.

Definition scheme_code (s : SchemeId) : Z :=
  match s with
  | I8R => 1 | I8B128 => 2 | I4K => 3 | E4M3B128 => 4 | I8B32F => 5 | I4B32F => 6 | I4B32FM => 7
  | I5B32F => 8 | I5B32FM => 9 | I5K => 10 | I6K => 11 | I3K => 12 | I2K => 13 | I4Nl => 14
  | I4Xs => 15 | Iq3Xxs => 16 | Iq3S => 17 | Iq2Xxs => 18 | Iq2Xs => 19 | Iq2S => 20 | Iq1S => 21
  | Iq1M => 22
  end.

Definition scheme_from_code (code : Z) : FormatResult SchemeId :=
  match code with
  | 1 => Ok I8R | 2 => Ok I8B128 | 3 => Ok I4K | 4 => Ok E4M3B128 | 5 => Ok I8B32F | 6 => Ok I4B32F
  | 7 => Ok I4B32FM | 8 => Ok I5B32F | 9 => Ok I5B32FM | 10 => Ok I5K | 11 => Ok I6K | 12 => Ok I3K
  | 13 => Ok I2K | 14 => Ok I4Nl | 15 => Ok I4Xs | 16 => Ok Iq3Xxs | 17 => Ok Iq3S | 18 => Ok Iq2Xxs
  | 19 => Ok Iq2Xs | 20 => Ok Iq2S | 21 => Ok Iq1S | 22 => Ok Iq1M
  | _ => Err (UnknownScheme (msg "{}" [Num code]))
  end.

Definition scheme_name (s : SchemeId) : string :=
  match s with
  | I8R => "i8_r" | I8B128 => "i8_b128" | I4K => "i4_k" | E4M3B128 => "e4m3_b128" | I8B32F => "i8_b32f"
  | I4B32F => "i4_b32f" | I4B32FM => "i4_b32fm" | I5B32F => "i5_b32f" | I5B32FM => "i5_b32fm"
  | I5K => "i5_k" | I6K => "i6_k" | I3K => "i3_k" | I2K => "i2_k" | I4Nl => "i4_nl" | I4Xs => "i4_xs"
  | Iq3Xxs => "iq3_xxs" | Iq3S => "iq3_s" | Iq2Xxs => "iq2_xxs" | Iq2Xs => "iq2_xs" | Iq2S => "iq2_s"
  | Iq1S => "iq1_s" | Iq1M => "iq1_m"
  end.

Definition scheme_all : list SchemeId :=
  [I8R; I8B128; I4K; E4M3B128; I8B32F; I4B32F; I4B32FM; I5B32F; I5B32FM; I5K; I6K; I3K; I2K; I4Nl; I4Xs;
   Iq3Xxs; Iq3S; Iq2Xxs; Iq2Xs; Iq2S; Iq1S; Iq1M].

(** A match on a string against the names of a list. *)
Fixpoint named {A} (name : A → string) (s : list Z) (l : list A) : option A :=
  match l with
  | [] => None
  | a :: l => if bool_decide (s = lit (name a)) then Some a else named name s l
  end.

Definition scheme_from_name (s : list Z) : FormatResult SchemeId :=
  ok_or (named scheme_name s scheme_all) (UnknownScheme (msg "{}" [Str s])).

Definition owner_card (s : SchemeId) : string :=
  match s with
  | I8R | I8B128 | I4K | E4M3B128 => "A2.2"
  | I8B32F | I4B32F | I4B32FM | I5B32F | I5B32FM | I5K | I6K | I3K | I2K => "A2.3"
  | _ => "A2.4"
  end.

Inductive NativeScheme : Type := NI8R | NI8B128 | NI4K | NE4M3B128.

Definition as_native (s : SchemeId) : FormatResult NativeScheme :=
  match s with
  | I8R => Ok NI8R | I8B128 => Ok NI8B128 | I4K => Ok NI4K | E4M3B128 => Ok NE4M3B128
  | _ => Err (ReservedScheme (scheme_name s) (owner_card s))
  end.

(** ** Layouts and packings *)

Inductive Layout : Type := L0 | L1 | L1S.
#[global] Instance Layout_eq_dec : EqDecision Layout.
Proof. solve_decision. Defined.

Definition layout_code (l : Layout) : Z := match l with L0 => 1 | L1 => 2 | L1S => 3 end.
Definition layout_from_code (code : Z) : FormatResult Layout :=
  match code with
  | 1 => Ok L0 | 2 => Ok L1 | 3 => Ok L1S
  | _ => Err (UnknownLayout (msg "{}" [Num code]))
  end.
Definition layout_name (l : Layout) : string := match l with L0 => "l0" | L1 => "l1" | L1S => "l1s" end.
Definition layout_from_name (s : list Z) : FormatResult Layout :=
  ok_or (named layout_name s [L0; L1; L1S]) (UnknownLayout (msg "{}" [Str s])).

Inductive Packing : Type := Nibble4 | Byte | Half16 | BitPlanes (bits : Z).

Definition bit_planes (bits : Z) : FormatResult Packing :=
  match bits with
  | 2 | 3 | 5 | 6 => Ok (BitPlanes bits)
  | _ => Err (InvalidBitWidth bits)
  end.

Definition bytes_per_lane (p : Packing) : Z :=
  match p with
  | Nibble4 => 4
  | Byte => 8
  | Half16 => 16
  | BitPlanes bits => div_ceil (8 * bits) 8
  end.

Definition LANES_PER_TILE : Z := 32.
Definition tile_bytes (p : Packing) : Z := bytes_per_lane p * LANES_PER_TILE.

(** ** Sizes of the schemes *)

Definition scale_record_bytes (s : SchemeId) : FormatResult Z :=
  let* n := as_native s in
  Ok (match n with NI8R | NI8B128 | NE4M3B128 => 2 | NI4K => 16 end).

Definition outer_block (s : SchemeId) : FormatResult (option Z) :=
  let* n := as_native s in
  Ok (match n with NI8R => None | NI8B128 | NE4M3B128 => Some 128 | NI4K => Some 256 end).

(** [bits_per_weight], for a row of [k] weights. *)
Definition bits_per_weight (s : SchemeId) (k : Z) : FormatResult (Z * Z) :=
  let* n := as_native s in
  match n with
  | NI8R =>
      if k =? 0 then Err (InvalidDim "k" 0 "must be at least 1")
      else
        let* bits := ok_or (v ← checked_mul U64_MAX k 8; checked_add U64_MAX v 16)
                       (FmtOverflow "i8_r bits_per_weight" (msg "k={k}" [Num k])) in
        Ok (bits, k)
  | NI8B128 | NE4M3B128 =>
      if (k =? 0) || negb (k mod 128 =? 0) then Err (InvalidBlock "k" k "must be a nonzero multiple of 128")
      else
        let* bits := ok_or (checked_mul U64_MAX (k / 128) 1040)
                       (FmtOverflow "b128 bits_per_weight" (msg "k={k}" [Num k])) in
        Ok (bits, k)
  | NI4K =>
      if (k =? 0) || negb (k mod 256 =? 0) then Err (InvalidBlock "k" k "must be a nonzero multiple of 256")
      else
        let* bits := ok_or (checked_mul U64_MAX (k / 256) 1152)
                       (FmtOverflow "i4_k bits_per_weight" (msg "k={k}" [Num k])) in
        Ok (bits, k)
  end.

Definition repack_record_bytes (s : SchemeId) : FormatResult Z :=
  match s with
  | I8R | I8B128 | E4M3B128 => scale_record_bytes s
  | I4K => Ok 16
  | I8B32F | I4B32F | I5B32F => Ok 2
  | I4B32FM | I5B32FM => Ok 4
  | I5K => Ok 16
  | I6K => Ok 18
  | I3K => Ok 14
  | I2K => Ok 20
  | I4Nl | Iq2Xxs => Ok 2
  | I4Xs => Ok 8
  | Iq3Xxs => Ok 34
  | Iq3S => Ok 46
  | Iq2Xs => Ok 10
  | Iq2S => Ok 50
  | Iq1S => Ok 18
  | Iq1M => Ok 24
  end.

Definition repack_outer_block (s : SchemeId) : FormatResult (option Z) :=
  match s with
  | I8R | I8B128 | I4K | E4M3B128 => outer_block s
  | I8B32F | I4B32F | I4B32FM | I5B32F | I5B32FM | I4Nl => Ok (Some 32)
  | _ => Ok (Some 256)
  end.

Definition repack_packing (s : SchemeId) : FormatResult Packing :=
  match s with
  | I8R | I8B128 | E4M3B128 | I8B32F => Ok Byte
  | I4K | I4B32F | I4B32FM | I4Nl | I4Xs => Ok Nibble4
  | I5B32F | I5B32FM | I5K => bit_planes 5
  | I6K => bit_planes 6
  | I3K => bit_planes 3
  | I2K => bit_planes 2
  | Iq3Xxs | Iq3S | Iq2Xxs | Iq2Xs | Iq2S | Iq1S | Iq1M => Ok Byte
  end.

(** The wire bits of one block; the schemes of the other block size are
    unreachable in each arm. *)
Definition wire_bits_32 (s : SchemeId) : FormatResult Z :=
  match s with
  | I8B32F => Ok 272 | I4B32F => Ok 144 | I4B32FM => Ok 160 | I5B32F => Ok 176 | I5B32FM => Ok 192
  | I4Nl => Ok 144
  | _ => Err (SchemeMismatch (scheme_name s) "32-block repack scheme" (scheme_name s))
  end.
Definition wire_bits_256 (s : SchemeId) : FormatResult Z :=
  match s with
  | I5K => Ok 1408 | I6K => Ok 1680 | I3K => Ok 880 | I2K => Ok 672 | I4Xs => Ok 1088 | Iq3Xxs => Ok 784
  | Iq3S => Ok 880 | Iq2Xxs => Ok 528 | Iq2Xs => Ok 592 | Iq2S => Ok 656 | Iq1S => Ok 400 | Iq1M => Ok 448
  | _ => Err (SchemeMismatch (scheme_name s) "K-block repack scheme" (scheme_name s))
  end.

Definition repack_bits_per_weight (s : SchemeId) (k : Z) : FormatResult (Z * Z) :=
  match s with
  | I8R | I8B128 | I4K | E4M3B128 => bits_per_weight s k
  | I8B32F | I4B32F | I4B32FM | I5B32F | I5B32FM | I4Nl =>
      if (k =? 0) || negb (k mod 32 =? 0) then Err (InvalidBlock "k" k "must be a nonzero multiple of 32")
      else
        let* wire_bits := wire_bits_32 s in
        let* bits := ok_or (checked_mul U64_MAX (k / 32) wire_bits)
                       (FmtOverflow "repack bits_per_weight" (msg "scheme={} k={k}" [Name (scheme_name s); Num k])) in
        Ok (bits, k)
  | _ =>
      if (k =? 0) || negb (k mod 256 =? 0) then Err (InvalidBlock "k" k "must be a nonzero multiple of 256")
      else
        let* wire_bits := wire_bits_256 s in
        let* bits := ok_or (checked_mul U64_MAX (k / 256) wire_bits)
                       (FmtOverflow "repack bits_per_weight" (msg "scheme={} k={k}" [Name (scheme_name s); Num k])) in
        Ok (bits, k)
  end.

(** [IqKind] and [index_granularity] of [iq.rs]. *)
Inductive IqKind : Type :=
| KIq4Nl | KIq4Xs | KIq3Xxs | KIq3S | KIq2Xxs | KIq2Xs | KIq2S | KIq1S | KIq1M.

Definition iq_kind_name (k : IqKind) : string :=
  match k with
  | KIq4Nl => "IQ4_NL" | KIq4Xs => "IQ4_XS" | KIq3Xxs => "IQ3_XXS" | KIq3S => "IQ3_S" | KIq2Xxs => "IQ2_XXS"
  | KIq2Xs => "IQ2_XS" | KIq2S => "IQ2_S" | KIq1S => "IQ1_S" | KIq1M => "IQ1_M"
  end.

Definition scheme_iq_kind (s : SchemeId) : option IqKind :=
  match s with
  | I4Nl => Some KIq4Nl | I4Xs => Some KIq4Xs | Iq3Xxs => Some KIq3Xxs | Iq3S => Some KIq3S
  | Iq2Xxs => Some KIq2Xxs | Iq2Xs => Some KIq2Xs | Iq2S => Some KIq2S | Iq1S => Some KIq1S | Iq1M => Some KIq1M
  | _ => None
  end.

Definition index_granularity (k : IqKind) : Z :=
  match k with
  | KIq4Nl | KIq4Xs => 1
  | KIq3Xxs | KIq3S | KIq2Xxs | KIq2Xs => 4
  | KIq2S | KIq1S | KIq1M => 8
  end.

(** ** Codes and names are injective *)

Lemma scheme_code_roundtrip s : scheme_from_code (scheme_code s) = Ok s.
Proof. by destruct s. Qed.

Lemma scheme_from_code_inv code s : scheme_from_code code = Ok s → scheme_code s = code.
Proof.
  unfold scheme_from_code.
  repeat match goal with |- match ?p with _ => _ end = _ → _ => destruct p end; intros [= <-]; done.
Qed.

Lemma layout_code_roundtrip l : layout_from_code (layout_code l) = Ok l.
Proof. by destruct l. Qed.

Lemma scheme_name_roundtrip s : scheme_from_name (lit (scheme_name s)) = Ok s.
Proof. by destruct s. Qed.

Lemma layout_name_roundtrip l : layout_from_name (lit (layout_name l)) = Ok l.
Proof. by destruct l. Qed.
