(* ===== verification/Tiles.v ===== *)
(** * Padded dimensions and the tile order

    [crates/r9v-format/src/layout.rs] and [geometry.rs]: the padding of an
    [n] by [k] matrix to whole tiles of 16 by 16, the order in which the
    [L1] layout stores them and the elements of a tile, the rows of the [L0]
    layout and the grouping of scale records. *)

From S2P Require Import Prelude Bytes Format.

#[global] Open Scope Z_scope.

Definition TILE_N : Z := 16.
Definition TILE_K : Z := 16.
Definition ELEMS_PER_LANE : Z := 8.
Definition ELEMS_PER_TILE : Z := 256.
Definition LANE_K : Z := 8.

(** ** Padded dimensions *)

(** [round_up_u32]: the sum is formed in [u64], where it fits. *)
Definition round_up_u32 (value align : Z) (what : string) : FormatResult Z :=
  let detail := msg "value={value} align={align}" [Num value; Num align] in
  let* steps := ok_or (checked_add U64_MAX value (align - 1)) (FmtOverflow what detail) in
  ok_or (try_from U32_MAX (steps / align * align)) (FmtOverflow what detail).

Record PaddedDims : Type := {
  pd_n : Z;
  pd_k : Z;
  n_padded : Z;
  k_padded : Z;
}.

#[global] Instance PaddedDims_eq_dec : EqDecision PaddedDims.
Proof. solve_decision. Defined.

Definition bad_superblock (s : Z) : bool := (s =? 0) || negb (is_multiple_of s TILE_K).

Definition dims_problems (n k : Z) (superblock_k : option Z) : list FormatError :=
  problem_if (n =? 0) (InvalidDim "n" 0 "must be at least 1") ++
  problem_if (k =? 0) (InvalidDim "k" 0 "must be at least 1") ++
  match superblock_k with
  | Some s => problem_if (bad_superblock s)
                (InvalidBlock "superblock_k" s "must be a nonzero multiple of 16")
  | None => []
  end.

(** [PaddedDims::new]. *)
Definition dims_new (n k : Z) (superblock_k : option Z) : FormatResult PaddedDims :=
  let block := match superblock_k with
               | Some s => if bad_superblock s then TILE_K else s
               | None => TILE_K
               end in
  let* _ := collect (dims_problems n k superblock_k) in
  let* np := round_up_u32 n TILE_N "padded_n" in
  let* kp := round_up_u32 k (Z.max block TILE_K) "padded_k" in
  Ok {| pd_n := n; pd_k := k; n_padded := np; k_padded := kp |}.

Definition n_tiles (d : PaddedDims) : Z := n_padded d / TILE_N.
Definition k_tiles (d : PaddedDims) : Z := k_padded d / TILE_K.
Definition tile_count (d : PaddedDims) : Z := n_tiles d * k_tiles d.
Definition row_blocks (d : PaddedDims) : Z := n_tiles d.

Definition value_region_bytes (d : PaddedDims) (packing : Packing) : FormatResult Z :=
  ok_or (checked_mul U64_MAX (tile_count d) (tile_bytes packing))
    (FmtOverflow "value_region_bytes"
       (msg "tiles={} tile_bytes={}" [Num (tile_count d); Num (tile_bytes packing)])).

(** ** The tile order *)

Definition l1_lane (n_in_tile kgroup : Z) : FormatResult Z :=
  if TILE_N <=? n_in_tile then Err (InvalidDim "n_in_tile" n_in_tile "must be below 16")
  else if 2 <=? kgroup then Err (InvalidDim "kgroup" kgroup "must be 0 or 1")
  else Ok (kgroup * TILE_N + n_in_tile).

Definition l1_elem (lane j : Z) : FormatResult Z :=
  if LANES_PER_TILE <=? lane then Err (InvalidDim "lane" lane "must be below 32")
  else if ELEMS_PER_LANE <=? j then Err (InvalidDim "j" j "must be below 8")
  else Ok (lane * ELEMS_PER_LANE + j).

Definition tile_index (n_base k_base : Z) (d : PaddedDims) : FormatResult Z :=
  let* _ := collect
    (problem_if (negb (is_multiple_of n_base TILE_N)) (InvalidDim "n_base" n_base "must be a multiple of 16") ++
     problem_if (negb (is_multiple_of k_base TILE_K)) (InvalidDim "k_base" k_base "must be a multiple of 16") ++
     problem_if (n_padded d <=? n_base) (InvalidDim "n_base" n_base "must be below padded N") ++
     problem_if (k_padded d <=? k_base) (InvalidDim "k_base" k_base "must be below padded K")) in
  ok_or (row ← checked_mul U64_MAX (n_base / TILE_N) (k_tiles d);
         checked_add U64_MAX row (k_base / TILE_K))
    (FmtOverflow "tile_index" (msg "n_base={n_base} k_base={k_base}" [Num n_base; Num k_base])).

Definition tile_origin (tile : Z) (d : PaddedDims) : FormatResult (Z * Z) :=
  if tile_count d <=? tile then Err (InvalidDim "tile" tile "must be below the tile count")
  else
    let n_base := as_u32 (tile / k_tiles d * TILE_N) in
    let k_base := as_u32 (tile mod k_tiles d * TILE_K) in
    Ok (n_base, k_base).

Definition l1_forward_index (n k : Z) (d : PaddedDims) : FormatResult Z :=
  let* _ := collect
    (problem_if (n_padded d <=? n) (InvalidDim "n" n "must be below padded N") ++
     problem_if (k_padded d <=? k) (InvalidDim "k" k "must be below padded K")) in
  let tile := n / TILE_N * k_tiles d + k / TILE_K in
  let lane := k mod TILE_K / LANE_K * TILE_N + n mod TILE_N in
  Ok (tile * ELEMS_PER_TILE + lane * ELEMS_PER_LANE + k mod LANE_K).

Definition l1_inverse_index (pos : Z) (d : PaddedDims) : FormatResult (Z * Z) :=
  let total := tile_count d * ELEMS_PER_TILE in
  if total <=? pos then Err (InvalidDim "pos" pos "must be below the tiled element count")
  else
    let tile := pos / ELEMS_PER_TILE in
    let lane := pos mod ELEMS_PER_TILE / ELEMS_PER_LANE in
    let j := (pos mod ELEMS_PER_TILE) mod ELEMS_PER_LANE in
    let n := as_u32 (tile / k_tiles d * TILE_N + lane mod TILE_N) in
    let k := as_u32 (tile mod k_tiles d * TILE_K + lane / TILE_N * LANE_K + j) in
    Ok (n, k).

Definition row_block_tiles (nb : Z) (d : PaddedDims) : FormatResult (Z * Z) :=
  if row_blocks d <=? nb then Err (InvalidDim "nb" nb "must be below the row-block count")
  else
    let start := nb * k_tiles d in
    Ok (start, start + k_tiles d).

Definition lane_byte_offset (lane : Z) (packing : Packing) : FormatResult Z :=
  if LANES_PER_TILE <=? lane then Err (InvalidDim "lane" lane "must be below 32")
  else Ok (lane * bytes_per_lane packing).

(** ** Rows of the [L0] layout *)

Definition l0_row_values_bytes (dim_elems elem_bytes : Z) : FormatResult Z :=
  let* _ := collect
    (problem_if (dim_elems =? 0) (InvalidDim "dim_elems" 0 "must be at least 1") ++
     problem_if (elem_bytes =? 0) (InvalidDim "elem_bytes" 0 "must be at least 1")) in
  ok_or (checked_mul U64_MAX dim_elems elem_bytes)
    (FmtOverflow "l0_row_values_bytes"
       (msg "dim_elems={dim_elems} elem_bytes={elem_bytes}" [Num dim_elems; Num elem_bytes])).

Definition l0_row_stride_bytes (dim_elems elem_bytes k_blocks record_bytes : Z) : FormatResult Z :=
  let '(values, problems) :=
    match l0_row_values_bytes dim_elems elem_bytes with
    | Ok values => (Some values, [])
    | Err (Multiple inner) => (None, inner)
    | Err single => (None, [single])
    | Panic => (None, [])
    end in
  let* _ := collect
    (problems ++
     problem_if (k_blocks =? 0) (InvalidBlock "k_blocks" 0 "must be at least 1") ++
     problem_if (record_bytes =? 0) (InvalidBlock "record_bytes" 0 "must be at least 1")) in
  let* values := or_panic values in
  ok_or (scales ← checked_mul U64_MAX k_blocks record_bytes; checked_add U64_MAX scales values)
    (FmtOverflow "l0_row_stride_bytes"
       (msg "k_blocks={k_blocks} record_bytes={record_bytes}" [Num k_blocks; Num record_bytes])).

Definition l0_row_offset_bytes (row stride_bytes : Z) : FormatResult Z :=
  ok_or (checked_mul U64_MAX row stride_bytes)
    (FmtOverflow "l0_row_offset_bytes" (msg "row={row} stride={stride_bytes}" [Num row; Num stride_bytes])).

Definition l0_region_bytes (rows stride_bytes : Z) : FormatResult Z :=
  if rows =? 0 then Err (InvalidDim "rows" 0 "must be at least 1")
  else
    ok_or (checked_mul U64_MAX rows stride_bytes)
      (FmtOverflow "l0_region_bytes" (msg "rows={rows} stride={stride_bytes}" [Num rows; Num stride_bytes])).

(** ** Scale records *)

Definition scale_block_counts (d : PaddedDims) (block_b : Z) : FormatResult (Z * Z) :=
  if (block_b =? 0) || negb (is_multiple_of block_b TILE_K)
  then Err (InvalidBlock "block_b" block_b "must be a nonzero multiple of 16")
  else if negb (is_multiple_of (k_padded d) block_b)
  then Err (InvalidBlock "block_b" block_b "must divide padded K")
  else Ok (n_tiles d, k_padded d / block_b).

Definition scale_record_count (n_blocks k_blocks : Z) : FormatResult Z :=
  ok_or (blocks ← checked_mul U64_MAX n_blocks k_blocks; checked_mul U64_MAX blocks TILE_N)
    (FmtOverflow "scale_record_count"
       (msg "n_blocks={n_blocks} k_blocks={k_blocks}" [Num n_blocks; Num k_blocks])).

Definition scale_region_bytes (record_count record_bytes : Z) : FormatResult Z :=
  if record_bytes =? 0 then Err (InvalidBlock "record_bytes" 0 "must be at least 1")
  else
    ok_or (checked_mul U64_MAX record_count record_bytes)
      (FmtOverflow "scale_region_bytes"
         (msg "records={record_count} record_bytes={record_bytes}" [Num record_count; Num record_bytes])).

(** [ScaleGeometry]. *)
Record ScaleGeometry : Type := {
  sg_scheme : SchemeId;
  sg_n_blocks : Z;
  sg_k_blocks : Z;
  sg_record_bytes : Z;
  sg_records : Z;
  sg_region_bytes : Z;
}.

Definition record_offset (g : ScaleGeometry) (nb kb row : Z) : FormatResult Z :=
  let* _ := collect
    (problem_if (sg_n_blocks g <=? nb) (InvalidDim "nb" nb "must be below the row-block count") ++
     problem_if (sg_k_blocks g <=? kb) (InvalidDim "kb" kb "must be below the K-block count") ++
     problem_if (TILE_N <=? row) (InvalidDim "row" row "must be below 16")) in
  ok_or (v ← checked_mul U64_MAX nb (sg_k_blocks g); v ← checked_add U64_MAX v kb;
         v ← checked_mul U64_MAX v TILE_N; v ← checked_add U64_MAX v row;
         checked_mul U64_MAX v (sg_record_bytes g))
    (FmtOverflow "scale record_offset"
       (msg "nb={nb} kb={kb} row={row} records={} record_bytes={}"
          [Num nb; Num kb; Num row; Num (sg_records g); Num (sg_record_bytes g)])).

Definition scale_geometry (scheme : SchemeId) (layout : Layout) (d : PaddedDims) : FormatResult ScaleGeometry :=
  match layout with
  | L0 => Err (UnsupportedLayout (scheme_name scheme) (layout_name layout))
  | L1 | L1S =>
      let* record_bytes := scale_record_bytes scheme in
      let* outer := outer_block scheme in
      let block := match outer with Some b => b | None => k_padded d end in
      let* (n_blocks, k_blocks) := scale_block_counts d block in
      let* records := scale_record_count n_blocks k_blocks in
      let* region := scale_region_bytes records record_bytes in
      Ok {| sg_scheme := scheme; sg_n_blocks := n_blocks; sg_k_blocks := k_blocks;
            sg_record_bytes := record_bytes; sg_records := records; sg_region_bytes := region |}
  end.

(** Linear arithmetic with quotients and remainders by constants. *)
Ltac divlia := Z.to_euclidean_division_equations; lia.

(** ** Padded dimensions are well formed *)

(** What every [PaddedDims] satisfies: whole tiles, no smaller than the
    matrix, each less than one block larger. *)
Record dims_ok (d : PaddedDims) : Prop := {
  do_n : 1 ≤ pd_n d ≤ n_padded d;
  do_k : 1 ≤ pd_k d ≤ k_padded d;
  do_n_tight : n_padded d < pd_n d + TILE_N;
  do_n_tile : n_padded d = TILE_N * n_tiles d;
  do_k_tile : k_padded d = TILE_K * k_tiles d;
  do_n_max : n_padded d ≤ U32_MAX;
  do_k_max : k_padded d ≤ U32_MAX;
}.

Lemma round_up_u32_Ok value align what r :
  0 ≤ value → 0 < align → round_up_u32 value align what = Ok r →
  value ≤ r < value + align ∧ r mod align = 0 ∧ r ≤ U32_MAX.
Proof.
  intros Hv Ha. unfold round_up_u32. intros (steps & Hs & Hr)%obind_Ok_inv.
  destruct (checked_add _ _ _) as [s|] eqn:Hc; [|done]. simpl in Hs. injection Hs as <-.
  apply checked_add_Some in Hc as [-> _].
  destruct (try_from _ _) as [t|] eqn:Ht; [|done]. simpl in Hr. injection Hr as <-.
  apply try_from_Some in Ht as [-> Ht]. rewrite Z.mod_mul by lia.
  pose proof (Z.div_mod (value + (align - 1)) align ltac:(lia)).
  pose proof (Z.mod_pos_bound (value + (align - 1)) align ltac:(lia)). lia.
Qed.

Lemma round_up_u32_total value align what : round_up_u32 value align what ≠ Panic.
Proof. unfold round_up_u32. auto with total. Qed.
#[export] Hint Resolve round_up_u32_total : total.

(** The block K is padded to. *)
Definition k_block (superblock_k : option Z) : Z := default TILE_K superblock_k.

Lemma dims_new_Ok n k sb d :
  0 ≤ n → 0 ≤ k → (∀ s, sb = Some s → 0 ≤ s) → dims_new n k sb = Ok d →
  dims_ok d ∧ pd_n d = n ∧ pd_k d = k ∧ k_padded d < k + k_block sb ∧ k_padded d mod k_block sb = 0.
Proof.
  intros Hn Hk Hs. unfold dims_new.
  intros ([] & Hp & (np & Hnp & (kp & Hkp & [= <-])%obind_Ok_inv)%obind_Ok_inv)%obind_Ok_inv.
  apply collect_Ok in Hp. unfold dims_problems in Hp.
  apply app_nil in Hp as [?%problem_if_nil [?%problem_if_nil Hb]%app_nil].
  apply Z.eqb_neq in H, H0.
  assert (match sb with Some s => if bad_superblock s then TILE_K else s | None => TILE_K end = k_block sb
          ∧ 16 ≤ k_block sb ∧ k_block sb mod 16 = 0) as (Heq & Hge & Hm).
  { destruct sb as [s|]; [|done]. apply problem_if_nil in Hb. rewrite Hb. split; [done|]. simpl.
    unfold bad_superblock, is_multiple_of, TILE_K in Hb.
    apply orb_false_iff in Hb as [?%Z.eqb_neq Hb%negb_false_iff%Z.eqb_eq]. specialize (Hs s eq_refl).
    split; [|done]. assert (s ≠ 0) by done. pose proof (Z.div_mod s 16 ltac:(lia)). lia. }
  rewrite Heq in Hkp. rewrite Z.max_l in Hkp by (unfold TILE_K; lia).
  apply round_up_u32_Ok in Hnp as (? & Hnm & ?); [|lia|done].
  apply round_up_u32_Ok in Hkp as (? & Hkm & ?); [|lia|lia].
  split; [|by simpl; split_and!; try lia].
  unfold TILE_N, TILE_K in *.
  assert (kp mod 16 = 0) as Hk16.
  { apply Z.mod_divide in Hkm; [|lia]. apply Z.mod_divide in Hm; [|lia].
    apply Z.mod_divide; [lia|]. by eapply Z.divide_trans. }
  constructor; unfold n_tiles, k_tiles, TILE_N, TILE_K; simpl; try lia; by apply Z_div_exact_full_2.
Qed.

Lemma dims_new_total n k sb : dims_new n k sb ≠ Panic.
Proof. unfold dims_new. auto 7 with total. Qed.
#[export] Hint Resolve dims_new_total : total.

(** [tile_count * 256] counts the elements of the padded matrix, and fits in
    a [u64]: the plain products of the source never wrap. *)
Definition elems (d : PaddedDims) : Z := n_padded d * k_padded d.

Section dims.
Context (d : PaddedDims) (Hd : dims_ok d).

Lemma k_tiles_pos : 1 ≤ k_tiles d.
Proof using Hd. destruct Hd. unfold TILE_K in *. lia. Qed.
Lemma n_tiles_pos : 1 ≤ n_tiles d.
Proof using Hd. destruct Hd. unfold TILE_N in *. lia. Qed.

Lemma elems_tiles : elems d = tile_count d * ELEMS_PER_TILE.
Proof using Hd.
  unfold elems, tile_count. rewrite (do_n_tile d Hd), (do_k_tile d Hd).
  unfold TILE_N, TILE_K, ELEMS_PER_TILE. lia.
Qed.

Lemma elems_u64 : 0 < elems d ≤ U64_MAX.
Proof using Hd. destruct Hd. unfold elems, U32_MAX, U64_MAX in *. nia. Qed.

(** The position of an element in tile order. *)
Definition forward_pos (n k : Z) : Z :=
  (n / TILE_N * k_tiles d + k / TILE_K) * ELEMS_PER_TILE +
  (k mod TILE_K / LANE_K * TILE_N + n mod TILE_N) * ELEMS_PER_LANE + k mod LANE_K.

Definition inverse_n (pos : Z) : Z :=
  pos / ELEMS_PER_TILE / k_tiles d * TILE_N + pos mod ELEMS_PER_TILE / ELEMS_PER_LANE mod TILE_N.
Definition inverse_k (pos : Z) : Z :=
  (pos / ELEMS_PER_TILE) mod k_tiles d * TILE_K + pos mod ELEMS_PER_TILE / ELEMS_PER_LANE / TILE_N * LANE_K +
  (pos mod ELEMS_PER_TILE) mod ELEMS_PER_LANE.

Lemma forward_pos_bound n k :
  0 ≤ n < n_padded d → 0 ≤ k < k_padded d → 0 ≤ forward_pos n k < elems d.
Proof using Hd.
  intros Hn Hk. rewrite elems_tiles. unfold forward_pos, tile_count.
  rewrite (do_n_tile d Hd) in Hn. rewrite (do_k_tile d Hd) in Hk.
  unfold TILE_N, TILE_K, LANE_K, ELEMS_PER_TILE, ELEMS_PER_LANE in *.
  assert (0 ≤ n / 16 < n_tiles d) by divlia. assert (0 ≤ k / 16 < k_tiles d) by divlia.
  assert (0 ≤ n / 16 * k_tiles d + k / 16 < n_tiles d * k_tiles d) by nia. divlia.
Qed.

Lemma inverse_bound pos :
  0 ≤ pos < elems d → 0 ≤ inverse_n pos < n_padded d ∧ 0 ≤ inverse_k pos < k_padded d.
Proof using Hd.
  pose proof k_tiles_pos as Hk. rewrite elems_tiles. unfold inverse_n, inverse_k, tile_count.
  rewrite (do_n_tile d Hd), (do_k_tile d Hd).
  unfold TILE_N, TILE_K, LANE_K, ELEMS_PER_TILE, ELEMS_PER_LANE in *. intros Hp.
  assert (0 ≤ pos / 256 < n_tiles d * k_tiles d) as Ht by divlia.
  assert (0 ≤ pos / 256 / k_tiles d < n_tiles d).
  { split; [apply Z.div_pos; lia|]. apply Z.div_lt_upper_bound; lia. }
  pose proof (Z.mod_pos_bound (pos / 256) (k_tiles d) ltac:(lia)).
  split; divlia.
Qed.

Lemma inverse_forward n k :
  0 ≤ n < n_padded d → 0 ≤ k < k_padded d →
  inverse_n (forward_pos n k) = n ∧ inverse_k (forward_pos n k) = k.
Proof using Hd.
  intros Hn Hk. unfold inverse_n, inverse_k, forward_pos.
  rewrite (do_n_tile d Hd) in Hn. rewrite (do_k_tile d Hd) in Hk.
  unfold TILE_N, TILE_K, LANE_K, ELEMS_PER_TILE, ELEMS_PER_LANE in *.
  set (t := n / 16 * k_tiles d + k / 16).
  assert (0 ≤ k / 16 < k_tiles d) by divlia.
  replace ((t * 256 + (k mod 16 / 8 * 16 + n mod 16) * 8 + k mod 8) / 256) with t by divlia.
  replace ((t * 256 + (k mod 16 / 8 * 16 + n mod 16) * 8 + k mod 8) mod 256)
    with ((k mod 16 / 8 * 16 + n mod 16) * 8 + k mod 8) by divlia.
  assert (t / k_tiles d = n / 16) as ->.
  { unfold t. rewrite Z.div_add_l by divlia. rewrite (Z.div_small (k / 16)) by divlia. lia. }
  assert (t mod k_tiles d = k / 16) as ->.
  { unfold t. rewrite Z.add_comm, Z_mod_plus_full. apply Z.mod_small. lia. }
  split; divlia.
Qed.

Lemma forward_inverse pos : 0 ≤ pos < elems d → forward_pos (inverse_n pos) (inverse_k pos) = pos.
Proof using Hd.
  pose proof k_tiles_pos as Hk. intros Hp. unfold inverse_n, inverse_k, forward_pos.
  unfold TILE_N, TILE_K, LANE_K, ELEMS_PER_TILE, ELEMS_PER_LANE in *.
  set (a := pos / 256 / k_tiles d). set (b := (pos / 256) mod k_tiles d).
  assert (pos / 256 = a * k_tiles d + b) as Hab.
  { unfold a, b. rewrite (Z.div_mod (pos / 256) (k_tiles d)) at 1 by divlia. lia. }
  pose proof (Z.mod_pos_bound pos 256 ltac:(lia)) as Hm. pose proof (Z.div_mod pos 256 ltac:(lia)) as Hp2.
  rewrite Hab in Hp2. set (r := pos mod 256) in *. clearbody a b r.
  replace ((a * 16 + r / 8 mod 16) / 16) with a by divlia.
  replace ((a * 16 + r / 8 mod 16) mod 16) with (r / 8 mod 16) by divlia.
  replace ((b * 16 + r / 8 / 16 * 8 + r mod 8) / 16) with b by divlia.
  replace ((b * 16 + r / 8 / 16 * 8 + r mod 8) mod 16 / 8) with (r / 8 / 16) by divlia.
  replace ((b * 16 + r / 8 / 16 * 8 + r mod 8) mod 8) with (r mod 8) by divlia.
  divlia.
Qed.

Lemma l1_forward_index_Ok n k :
  n < n_padded d → k < k_padded d → l1_forward_index n k d = Ok (forward_pos n k).
Proof. intros Hn Hk. unfold l1_forward_index. by rewrite !(proj2 (Z.leb_gt _ _)) by divlia. Qed.

Lemma l1_inverse_index_Ok pos :
  0 ≤ pos < elems d → l1_inverse_index pos d = Ok (inverse_n pos, inverse_k pos).
Proof using Hd.
  intros Hp. unfold l1_inverse_index. rewrite <- elems_tiles. rewrite (proj2 (Z.leb_gt _ _)) by divlia.
  pose proof (inverse_bound pos Hp) as [Hn Hk]. destruct Hd.
  rewrite !as_u32_small; [done|unfold inverse_k in *; lia|unfold inverse_n in *; lia].
Qed.

(** The tile a position is in. *)
Lemma tile_of_forward n k :
  0 ≤ n < n_padded d → 0 ≤ k < k_padded d →
  tile_origin (forward_pos n k / ELEMS_PER_TILE) d = Ok (n / TILE_N * TILE_N, k / TILE_K * TILE_K) ∧
  tile_index (n / TILE_N * TILE_N) (k / TILE_K * TILE_K) d = Ok (forward_pos n k / ELEMS_PER_TILE) ∧
  row_block_tiles (n / TILE_N) d = Ok (n / TILE_N * k_tiles d, n / TILE_N * k_tiles d + k_tiles d) ∧
  n / TILE_N * k_tiles d ≤ forward_pos n k / ELEMS_PER_TILE < n / TILE_N * k_tiles d + k_tiles d.
Proof using Hd.
  intros Hn Hk. pose proof (do_n_max d Hd). pose proof (do_k_max d Hd).
  assert (forward_pos n k / ELEMS_PER_TILE = n / TILE_N * k_tiles d + k / TILE_K) as ->.
  { unfold forward_pos, TILE_N, TILE_K, LANE_K, ELEMS_PER_TILE, ELEMS_PER_LANE.
    set (t := n / 16 * k_tiles d + k / 16). clearbody t. divlia. }
  pose proof (do_n_tile d Hd) as En. pose proof (do_k_tile d Hd) as Ek.
  assert (0 ≤ n / TILE_N < n_tiles d) as Hnt by (unfold TILE_N in *; divlia).
  assert (0 ≤ k / TILE_K < k_tiles d) as Hkt by (unfold TILE_K in *; divlia).
  assert (n / TILE_N * k_tiles d + k / TILE_K < n_tiles d * k_tiles d) as Ht by nia.
  split_and!; [| | |lia|lia].
  - unfold tile_origin, tile_count. rewrite (proj2 (Z.leb_gt _ _)) by lia. cbv zeta.
    rewrite Z.div_add_l, (Z.div_small (k / TILE_K)), Z.add_0_r by lia.
    rewrite (Z.add_comm (_ * _)), Z_mod_plus_full, (Z.mod_small (k / TILE_K)) by lia.
    rewrite !as_u32_small; [done|unfold TILE_K in *; divlia|unfold TILE_N in *; divlia].
  - unfold tile_index, is_multiple_of. rewrite !Z.mod_mul by (unfold TILE_N, TILE_K; lia).
    rewrite !(proj2 (Z.leb_gt _ _)) by (unfold TILE_N, TILE_K in *; divlia). simpl.
    rewrite !Z.div_mul by (unfold TILE_N, TILE_K; lia). unfold U32_MAX, TILE_N, TILE_K in *.
    rewrite checked_mul_ok by (unfold U64_MAX; nia). simpl.
    rewrite checked_add_ok by (unfold U64_MAX; nia). done.
  - unfold row_block_tiles, row_blocks. rewrite (proj2 (Z.leb_gt _ _)) by lia. done.
Qed.
End dims.

(** ** What the dimensions promise *)

(** The smallest multiple of [b] that is at least [x]. *)
Definition padded_to (b x r : Z) : Prop := x ≤ r < x + b ∧ r mod b = 0.

Lemma round_up_u32_cases value align what :
  0 ≤ value ≤ U32_MAX → 0 < align ≤ U32_MAX →
  match round_up_u32 value align what with
  | Ok r => padded_to align value r ∧ r ≤ U32_MAX
  | Err e => e = FmtOverflow what (msg "value={value} align={align}" [Num value; Num align]) ∧
             ∀ r, padded_to align value r → U32_MAX < r
  | Panic => False
  end.
Proof.
  intros Hv Ha. pose proof (round_up_u32_total value align what) as Ht.
  destruct (round_up_u32 value align what) as [r|e|] eqn:Hr; [|split|done].
  - apply round_up_u32_Ok in Hr; [|lia..]. unfold padded_to. naive_solver.
  - unfold round_up_u32 in Hr. rewrite checked_add_ok in Hr by (unfold U32_MAX, U64_MAX in *; lia).
    simpl in Hr. destruct (try_from _ _); simpl in Hr; congruence.
  - intros r [Hr1 Hr2]. unfold round_up_u32 in Hr.
    rewrite checked_add_ok in Hr by (unfold U32_MAX, U64_MAX in *; lia). simpl in Hr.
    destruct (try_from _ _) eqn:Hf; simpl in Hr; [congruence|].
    assert ((value + (align - 1)) / align * align = r) as Heq.
    { apply Z.mod_divide in Hr2 as [q ->]; [|lia].
      assert ((value + (align - 1)) / align = q) as ->; [|done].
      symmetry. apply (Z.div_unique _ _ _ (value + (align - 1) - q * align)); lia. }
    rewrite Heq in Hf. unfold try_from in Hf.
    destruct (Z.leb_spec 0 r), (Z.leb_spec r U32_MAX); simpl in Hf; [done|lia..].
Qed.

(** [PaddedDims::new] on every input of its type.  Without problems both
    extents are padded to the smallest multiple of their block (16 rows; the
    superblock's columns, 16 without one) that fits a [u32], both whole
    tiles; with problems all of them are reported, in order; the only other
    error is a padded extent past [u32::MAX].  It never panics. *)
Theorem dims_new_spec n k sb :
  is_u32 n → is_u32 k → (∀ s, sb = Some s → is_u32 s) →
  match dims_new n k sb with
  | Ok d => dims_problems n k sb = [] ∧ dims_ok d ∧ pd_n d = n ∧ pd_k d = k ∧
            padded_to TILE_N n (n_padded d) ∧ padded_to (k_block sb) k (k_padded d)
  | Err e => collect (dims_problems n k sb) = Err e ∨
             dims_problems n k sb = [] ∧
             ((∀ r, padded_to TILE_N n r → U32_MAX < r) ∨ (∀ r, padded_to (k_block sb) k r → U32_MAX < r))
  | Panic => False
  end.
Proof.
  intros [Hn Hn'] [Hk Hk'] Hs. pose proof (dims_new_total n k sb) as Ht.
  destruct (dims_new n k sb) as [d|e|] eqn:Hd; [| |done].
  - assert (dims_problems n k sb = []) as Hp.
    { unfold dims_new in Hd. apply obind_Ok_inv in Hd as ([] & Hc & _). by apply collect_Ok. }
    apply dims_new_Ok in Hd as (Hd & <- & <- & ? & ?); [|lia|lia|intros s ->; by apply (Hs s)].
    split; [done|]. split; [done|]. repeat (split; [done|]). split; [|split; [destruct Hd; lia|done]].
    split; [destruct Hd; lia|]. rewrite (do_n_tile d Hd), Z.mul_comm. apply Z_mod_mult.
  - unfold dims_new in Hd. destruct (collect _) as [[]|e'|] eqn:Hc; simpl in Hd; [|left; congruence|done].
    right. apply collect_Ok in Hc. split; [done|].
    assert (match sb with Some s => if bad_superblock s then TILE_K else s | None => TILE_K end = k_block sb
            ∧ 16 ≤ k_block sb ≤ U32_MAX) as [Hb Hbb].
    { unfold dims_problems in Hc. apply app_nil in Hc as [_ [_ Hc]%app_nil].
      destruct sb as [s|]; [|by split]. apply problem_if_nil in Hc. rewrite Hc. simpl. split; [done|].
      unfold bad_superblock, is_multiple_of, TILE_K in Hc.
      apply orb_false_iff in Hc as [?%Z.eqb_neq Hc%negb_false_iff%Z.eqb_eq].
      specialize (Hs s eq_refl) as [??]. pose proof (Z.div_mod s 16 ltac:(lia)). lia. }
    rewrite Hb, Z.max_l in Hd by (unfold TILE_K; lia).
    pose proof (round_up_u32_cases n TILE_N "padded_n" ltac:(lia) ltac:(by split)) as Hrn.
    pose proof (round_up_u32_cases k (k_block sb) "padded_k" ltac:(lia) ltac:(lia)) as Hrk.
    destruct (round_up_u32 n _ _) as [np|en|]; simpl in Hd;
      [|left; apply Hrn|done].
    destruct (round_up_u32 k _ _) as [kp|ek|]; simpl in Hd;
      [done|right; apply Hrk|done].
Qed.

(** C16: the tile order is a bijection.  Over the dimensions of any successful
    [PaddedDims::new], [l1_forward_index] and [l1_inverse_index] are mutually
    inverse between the elements of the padded matrix and the positions below
    [tile_count * 256], which fit a [u64]; the tile of a position is the one
    [tile_origin] and [tile_index] exchange, and it lies in the contiguous
    span [row_block_tiles] gives the row's block. *)
Theorem tile_order_bijection n0 k0 sb d :
  is_u32 n0 → is_u32 k0 → (∀ s, sb = Some s → is_u32 s) → dims_new n0 k0 sb = Ok d →
  (∀ n k, 0 ≤ n < n_padded d → 0 ≤ k < k_padded d →
     ∃ pos, l1_forward_index n k d = Ok pos ∧ 0 ≤ pos < tile_count d * ELEMS_PER_TILE ∧
            l1_inverse_index pos d = Ok (n, k) ∧
            tile_origin (pos / ELEMS_PER_TILE) d = Ok (n / TILE_N * TILE_N, k / TILE_K * TILE_K) ∧
            tile_index (n / TILE_N * TILE_N) (k / TILE_K * TILE_K) d = Ok (pos / ELEMS_PER_TILE) ∧
            ∃ start, row_block_tiles (n / TILE_N) d = Ok (start, start + k_tiles d) ∧
                     start ≤ pos / ELEMS_PER_TILE < start + k_tiles d) ∧
  (∀ pos, 0 ≤ pos < tile_count d * ELEMS_PER_TILE →
     ∃ n k, l1_inverse_index pos d = Ok (n, k) ∧ 0 ≤ n < n_padded d ∧ 0 ≤ k < k_padded d ∧
            l1_forward_index n k d = Ok pos) ∧
  tile_count d * ELEMS_PER_TILE ≤ U64_MAX.
Proof.
  intros [Hn0 _] [Hk0 _] Hs Hnew.
  apply dims_new_Ok in Hnew as (Hd & _); [|done|done|intros s ->; by apply (Hs s)].
  rewrite <- (elems_tiles d Hd). split_and!; [|intros pos Hp|apply elems_u64, Hd].
  - intros n k Hn Hk. pose proof (forward_pos_bound d Hd n k Hn Hk) as Hb.
    destruct (inverse_forward d Hd n k Hn Hk) as [En Ek].
    exists (forward_pos d n k). split_and!; [by apply l1_forward_index_Ok; lia|lia|lia|..].
    + rewrite l1_inverse_index_Ok by done. by rewrite En, Ek.
    + by apply tile_of_forward.
    + by apply tile_of_forward.
    + exists (n / TILE_N * k_tiles d). by apply tile_of_forward.
  - destruct (inverse_bound d Hd pos Hp) as [Hn Hk].
    exists (inverse_n d pos), (inverse_k d pos). split_and!; try lia.
    + by apply l1_inverse_index_Ok.
    + rewrite l1_forward_index_Ok by lia. by rewrite forward_inverse.
Qed.

Lemma tile_order_bijection_witness :
  let d := {| pd_n := 20; pd_k := 40; n_padded := 32; k_padded := 48 |} in
  dims_new 20 40 None = Ok d ∧
  ∃ pos, l1_forward_index 17 33 d = Ok pos ∧ l1_inverse_index pos d = Ok (17, 33).
Proof.
  intros d. split; [reflexivity|].
  destruct (tile_order_bijection 20 40 None d) as [H _];
    [vm_compute; split; discriminate..|discriminate|reflexivity|].
  destruct (H 17 33) as (pos & Hf & _ & Hi & _); [vm_compute; split; [discriminate|reflexivity]..|].
  exists pos. exact (conj Hf Hi).
Defined.

(** ** Scale records *)

Lemma scale_record_bytes_Ok s b : scale_record_bytes s = Ok b → 1 ≤ b ≤ 16.
Proof. unfold scale_record_bytes. destruct s; simpl; intros [= <-] || done; lia. Qed.

Lemma scale_geometry_Ok scheme layout d g :
  dims_ok d → scale_geometry scheme layout d = Ok g →
  scale_record_bytes scheme = Ok (sg_record_bytes g) ∧ sg_scheme g = scheme ∧ layout ≠ L0 ∧
  sg_n_blocks g = n_tiles d ∧ 1 ≤ sg_k_blocks g ∧
  (∃ b, k_padded d = sg_k_blocks g * b ∧ b mod TILE_K = 0 ∧
        (b = k_padded d ∨ outer_block scheme = Ok (Some b))) ∧
  sg_records g = sg_n_blocks g * sg_k_blocks g * TILE_N ∧
  sg_region_bytes g = sg_records g * sg_record_bytes g ∧ sg_region_bytes g ≤ U64_MAX.
Proof.
  intros Hd Hg. unfold scale_geometry in Hg. destruct layout; [done|..].
  all: apply obind_Ok_inv in Hg as (rb & Hrb & (ob & Hob & Hg)%obind_Ok_inv).
  all: set (block := match ob with Some b => b | None => k_padded d end) in Hg.
  all: apply obind_Ok_inv in Hg as ([nb kb] & Hc & (rec & Hr & (reg & Hreg & [= <-])%obind_Ok_inv)%obind_Ok_inv).
  all: unfold scale_block_counts in Hc.
  all: destruct (_ || _) eqn:H1 in Hc; [done|]; destruct (negb _) eqn:H2 in Hc; [done|].
  all: injection Hc as <- <-.
  all: apply orb_false_iff in H1 as [Hb0%Z.eqb_neq Hb1%negb_false_iff%Z.eqb_eq].
  all: apply negb_false_iff, Z.eqb_eq in H2.
  all: unfold scale_record_count in Hr.
  all: destruct (checked_mul _ (n_tiles d) _) as [bl|] eqn:Hbl; [simpl in Hr|done].
  all: apply checked_mul_Some in Hbl as [-> _].
  all: destruct (checked_mul _ _ TILE_N) as [bl|] eqn:Hbl; [simpl in Hr|done].
  all: apply checked_mul_Some in Hbl as [-> _]; injection Hr as <-.
  all: unfold scale_region_bytes in Hreg; destruct (rb =? 0); [done|].
  all: destruct (checked_mul _ _ rb) as [bl|] eqn:Hbl; [simpl in Hreg|done].
  all: apply checked_mul_Some in Hbl as [-> ?]; injection Hreg as <-.
  all: assert (k_padded d = k_padded d / block * block) as Hk
    by (rewrite Z.mul_comm; by apply Z_div_exact_full_2).
  all: assert (0 < block) by (unfold block; destruct ob as [b|];
    [unfold outer_block in Hob; destruct scheme; simpl in Hob; simplify_eq; lia|destruct Hd; lia]).
  all: simpl; split_and!; try done; [pose proof (do_k d Hd); nia|].
  all: exists block; split_and!; try done; unfold block; destruct ob; [by right|by left].
Qed.

(** Scale records.  A [ScaleGeometry] of any scheme that has one covers
    the padded matrix in blocks of 16 rows by its outer block, in a region of
    exactly [records * record_bytes] bytes; every record in range has an
    offset, in ascending (row-block, K-block, row) order, that lies inside
    the region, and two different records never overlap. *)
Theorem scale_records_disjoint scheme layout d g :
  dims_ok d → scale_geometry scheme layout d = Ok g →
  sg_n_blocks g * TILE_N = n_padded d ∧
  sg_region_bytes g = sg_n_blocks g * sg_k_blocks g * TILE_N * sg_record_bytes g ∧
  (∀ nb kb row, 0 ≤ nb < sg_n_blocks g → 0 ≤ kb < sg_k_blocks g → 0 ≤ row < TILE_N →
     record_offset g nb kb row = Ok (((nb * sg_k_blocks g + kb) * TILE_N + row) * sg_record_bytes g) ∧
     0 ≤ ((nb * sg_k_blocks g + kb) * TILE_N + row) * sg_record_bytes g ≤
         sg_region_bytes g - sg_record_bytes g) ∧
  (∀ nb kb row nb' kb' row' off off',
     0 ≤ nb → 0 ≤ kb → 0 ≤ row → 0 ≤ nb' → 0 ≤ kb' → 0 ≤ row' →
     record_offset g nb kb row = Ok off → record_offset g nb' kb' row' = Ok off' →
     (nb, kb, row) ≠ (nb', kb', row') →
     off + sg_record_bytes g ≤ off' ∨ off' + sg_record_bytes g ≤ off).
Proof.
  intros Hd Hg. apply scale_geometry_Ok in Hg as (Hrb & _ & _ & Hn & Hk & _ & Hr & Hreg & Hmax); [|done].
  apply scale_record_bytes_Ok in Hrb. pose proof (do_n_tile d Hd).
  assert (∀ nb kb row, 0 ≤ nb < sg_n_blocks g → 0 ≤ kb < sg_k_blocks g → 0 ≤ row < TILE_N →
     record_offset g nb kb row = Ok (((nb * sg_k_blocks g + kb) * TILE_N + row) * sg_record_bytes g) ∧
     0 ≤ ((nb * sg_k_blocks g + kb) * TILE_N + row) * sg_record_bytes g ≤
         sg_region_bytes g - sg_record_bytes g) as Hin.
  { intros nb kb row H1 H2 H3.
    assert (nb * sg_k_blocks g + kb < sg_n_blocks g * sg_k_blocks g) by nia.
    assert (0 ≤ (nb * sg_k_blocks g + kb) * TILE_N + row < sg_records g) by (unfold TILE_N in *; nia).
    assert (0 ≤ ((nb * sg_k_blocks g + kb) * TILE_N + row) * sg_record_bytes g ≤
         sg_region_bytes g - sg_record_bytes g) by nia.
    split; [|done]. unfold record_offset. rewrite !(proj2 (Z.leb_gt _ _)) by lia. simpl.
    assert (sg_records g ≤ U64_MAX) by nia.
    rewrite checked_mul_ok by (unfold TILE_N in *; nia). simpl.
    rewrite checked_add_ok by (unfold TILE_N in *; nia). simpl.
    rewrite checked_mul_ok by lia. simpl. rewrite checked_add_ok by lia. simpl.
    rewrite checked_mul_ok by lia. done. }
  split; [unfold TILE_N in *; lia|]. split; [by rewrite Hreg, Hr|]. split; [done|].
  intros nb kb row nb' kb' row' off off' ? ? ? ? ? ? Ho Ho' Hne.
  assert (∀ nb kb row off, record_offset g nb kb row = Ok off →
    nb < sg_n_blocks g ∧ kb < sg_k_blocks g ∧ row < TILE_N) as Hlt.
  { clear. intros nb kb row off (? & Hc & _)%obind_Ok_inv. destruct x. apply collect_Ok in Hc.
    apply app_nil in Hc as [?%problem_if_nil [?%problem_if_nil ?%problem_if_nil]%app_nil]. lia. }
  pose proof (Hlt _ _ _ _ Ho) as (?&?&?). pose proof (Hlt _ _ _ _ Ho') as (?&?&?).
  destruct (Hin nb kb row) as [Ho1 _]; [lia..|]. destruct (Hin nb' kb' row') as [Ho2 _]; [lia..|].
  rewrite Ho in Ho1. rewrite Ho' in Ho2. injection Ho1 as ->. injection Ho2 as ->.
  set (p := (nb * sg_k_blocks g + kb) * TILE_N + row).
  set (p' := (nb' * sg_k_blocks g + kb') * TILE_N + row').
  assert (p ≠ p'); [|nia]. intros Hp. apply Hne. unfold p, p', TILE_N in *.
  assert (row = row') as -> by lia. assert (nb * sg_k_blocks g + kb = nb' * sg_k_blocks g + kb') by lia.
  assert (nb = nb') as -> by nia. f_equal. f_equal. nia.
Qed.

