(* ===== verification/Permute.v ===== *)
(** * Tile-order images of tensors

    [crates/r9v-format/src/permute.rs] and [sparse.rs]: moving the elements
    of a padded matrix between row-major and tile order, checking the padding,
    and packing lanes of eight elements into nibbles, bit planes and the
    2-bit indices of the sparse layout.

    Permutations and lane codecs are lossless: The loops of [Permute.v] move every element exactly once, and each lane
    codec reads back what it packed. *)

From S2P Require Import Prelude Bytes Format Tiles.

#[global] Open Scope Z_scope.

(** ** Permutations *)

Definition expect_len (got expected : Z) (what : string) : FormatResult unit :=
  if negb (got =? expected) then Err (LengthMismatch what expected got) else Ok tt.

Definition len {A} (l : list A) : Z := Z.of_nat (length l).

(** [v[i]] and [v[i] = x] at an index of the source's width. *)
Definition vec_get {E A} (l : list A) (i : Z) : outcome E A := or_panic (l !! Z.to_nat i).
Definition vec_put {E A} (l : list A) (i : Z) (x : A) : outcome E (list A) := vec_set (Z.to_nat i) x l.

(** The row-major index of an element. *)
Definition row_major (d : PaddedDims) (n k : Z) : Z := n * k_padded d + k.

Definition zeros (total : Z) : list Z := replicate (Z.to_nat total) 0.

(** The loop shared by [l1_forward_elems] and [l1_pack_bytes]. *)
Definition forward_loop (what : string) (src : list Z) (d : PaddedDims) : FormatResult (list Z) :=
  let total := n_padded d * k_padded d in
  let* _ := expect_len (len src) total what in
  ofoldM (λ dst n,
    ofoldM (λ dst k,
      let* pos := l1_forward_index n k d in
      let* x := vec_get src (row_major d n k) in
      vec_put dst pos x) dst (zrange 0 (k_padded d)))
    (zeros total) (zrange 0 (n_padded d)).

(** The loop shared by [l1_inverse_elems] and [l1_unpack_bytes]. *)
Definition inverse_loop (what : string) (tiled : list Z) (d : PaddedDims) : FormatResult (list Z) :=
  let total := n_padded d * k_padded d in
  let* _ := expect_len (len tiled) total what in
  ofoldM (λ dst '(pos, value),
    let* (n, k) := l1_inverse_index (Z.of_nat pos) d in
    vec_put dst (row_major d n k) value)
    (zeros total) (enumerate tiled).

Definition l1_forward_elems : list Z → PaddedDims → FormatResult (list Z) :=
  forward_loop "l1 row-major elements".
Definition l1_inverse_elems : list Z → PaddedDims → FormatResult (list Z) :=
  inverse_loop "l1 tile-order elements".
Definition l1_pack_bytes : list Z → PaddedDims → FormatResult (list Z) := forward_loop "l1 row-major bytes".
Definition l1_unpack_bytes : list Z → PaddedDims → FormatResult (list Z) := inverse_loop "l1 tile-order bytes".
Definition l1_pack_halfs : list Z → PaddedDims → FormatResult (list Z) := l1_forward_elems.
Definition l1_unpack_halfs : list Z → PaddedDims → FormatResult (list Z) := l1_inverse_elems.

(** ** Padding *)

Definition pad_row_major_elems (src : list Z) (n k : Z) (d : PaddedDims) : FormatResult (list Z) :=
  if negb (n =? pd_n d) || negb (k =? pd_k d)
  then Err (LengthMismatch "unpadded row-major elements" (n * k) (len src))
  else
    let* _ := expect_len (len src) (n * k) "unpadded row-major elements" in
    ofoldM (λ dst row,
      ofoldM (λ dst col,
        let* x := vec_get src (row * k + col) in
        vec_put dst (row_major d row col) x) dst (zrange 0 k))
      (zeros (n_padded d * k_padded d)) (zrange 0 n).

Definition padding_cell (tiled : list Z) (d : PaddedDims) (n k : Z) : FormatResult (list FormatError) :=
  if (n <? pd_n d) && (k <? pd_k d) then Ok []
  else
    let* pos := l1_forward_index n k d in
    let* value := vec_get tiled pos in
    Ok (problem_if (negb (value =? 0)) (PaddingNonzero n k value)).

Definition verify_padding_zeros_elems (tiled : list Z) (d : PaddedDims) : FormatResult unit :=
  let* _ := expect_len (len tiled) (n_padded d * k_padded d) "l1 tile-order elements" in
  let* problems :=
    oflatM (λ n, oflatM (padding_cell tiled d n) (zrange 0 (k_padded d))) (zrange 0 (n_padded d)) in
  collect problems.

Definition verify_padding_zeros_bytes : list Z → PaddedDims → FormatResult unit := verify_padding_zeros_elems.

(** ** Halves *)

Definition encode_halfs_le (tiled : list Z) : list Z := concat (map (le_bytes 2) tiled).

(** [slice::chunks_exact], the remainder left out. *)
Fixpoint chunks {A} (count size : nat) (l : list A) : list (list A) :=
  match count with
  | O => []
  | S count => take size l :: chunks count size (drop size l)
  end.
Definition chunks_exact {A} (size : nat) (l : list A) : list (list A) := chunks (length l / size) size l.

Definition decode_halfs_le (bytes : list Z) : FormatResult (list Z) :=
  if negb (is_multiple_of (len bytes) 2)
  then Err (LengthMismatch "half16 little-endian bytes" (len bytes + 1) (len bytes))
  else Ok (map of_le_bytes (chunks_exact 2 bytes)).

(** ** Nibbles *)

Definition nat_lanes : nat := 32.
Definition nat_lane : nat := 8.
Definition nat_tile : nat := 256.

(** The problems of values at or above a limit. *)
Definition out_of_range (what : string) (limit : Z) (src : list Z) : list FormatError :=
  concat (map (λ '(pos, value), problem_if (limit <=? value) (ValueOutOfRange what (Z.of_nat pos) value))
            (enumerate src)).

Definition even_total (what : string) (d : PaddedDims) : FormatResult unit :=
  let total := n_padded d * k_padded d in
  if negb (is_multiple_of total 2)
  then Err (FmtOverflow what (msg "padded element count {total} is not a nibble pair" [Num total]))
  else Ok tt.

Definition pack_nibble_lane (tile : list Z) (lane : nat) : FormatResult (list Z) :=
  let base := (lane * nat_lane)%nat in
  omapM (λ m,
    let* lo := or_panic (tile !! (base + 2 * m)%nat) in
    let* hi := or_panic (tile !! (base + 2 * m + 1)%nat) in
    Ok (Z.lor lo (Z.shiftl hi 4 mod 256))) (seqn 4).

Definition l1_pack_nibbles (src : list Z) (d : PaddedDims) : FormatResult (list Z) :=
  let* _ := expect_len (len src) (n_padded d * k_padded d) "l1 row-major nibbles" in
  let* _ := even_total "l1_pack_nibbles" d in
  let* _ := collect (out_of_range "nibble" 16 src) in
  let* tiled := l1_pack_bytes src d in
  oflatM (λ tile, oflatM (pack_nibble_lane tile) (seqn nat_lanes)) (chunks_exact nat_tile tiled).

Definition unpack_nibble_lane (tile : list Z) (lane : nat) : FormatResult (list Z) :=
  let base := (lane * 4)%nat in
  oflatM (λ m,
    let* byte := or_panic (tile !! (base + m)%nat) in
    Ok [Z.land byte 15; Z.shiftr byte 4]) (seqn 4).

(** The expansion of [l1_unpack_nibbles], which [l1_unpack_nibbles_for_check]
    repeats. *)
Definition expand_nibbles (tiled : list Z) : FormatResult (list Z) :=
  oflatM (λ tile, oflatM (unpack_nibble_lane tile) (seqn nat_lanes)) (chunks_exact (nat_tile / 2) tiled).

Definition l1_unpack_nibbles (tiled : list Z) (d : PaddedDims) : FormatResult (list Z) :=
  let* _ := even_total "l1_unpack_nibbles" d in
  let* _ := expect_len (len tiled) (n_padded d * k_padded d / 2) "l1 tile-order nibble bytes" in
  let* expanded := expand_nibbles tiled in
  l1_unpack_bytes expanded d.

Definition l1_unpack_nibbles_for_check (tiled : list Z) (d : PaddedDims) : FormatResult (list Z) :=
  let* _ := even_total "l1 nibble check" d in
  let* _ := expect_len (len tiled) (n_padded d * k_padded d / 2) "l1 tile-order nibble bytes" in
  expand_nibbles tiled.

Definition verify_padding_zeros_nibbles (tiled : list Z) (d : PaddedDims) : FormatResult unit :=
  let* expanded := l1_unpack_nibbles_for_check tiled d in
  verify_padding_zeros_bytes expanded d.

(** ** Bit planes *)

(** [acc |= v[base + j] << (j * w)] for [j] in [0..n]. *)
Definition gather (w : Z) (v : list Z) (base n : nat) : FormatResult Z :=
  ofoldM (λ acc j,
    let* x := or_panic (v !! (base + j)%nat) in
    Ok (Z.lor acc (Z.shiftl x (Z.of_nat j * w)))) 0 (seqn n).

(** [(acc >> (j * w)) & mask] for [j] in [0..n]. *)
Definition spread (w acc : Z) (n : nat) : list Z :=
  map (λ j, Z.land (Z.shiftr acc (Z.of_nat j * w)) (2 ^ w - 1)) (seqn n).

Definition l1_pack_planes (src : list Z) (d : PaddedDims) (bits : Z) : FormatResult (list Z) :=
  let* packing := bit_planes bits in
  let* _ := expect_len (len src) (n_padded d * k_padded d) "l1 row-major plane values" in
  let* _ := collect (out_of_range "bit-plane value" (Z.shiftl 1 bits) src) in
  let* tiled := l1_forward_elems src d in
  let per_lane_bytes := Z.to_nat (bytes_per_lane packing) in
  oflatM (λ tile,
    oflatM (λ lane,
      let* acc := gather bits tile (lane * nat_lane) nat_lane in
      Ok (map (λ b, Z.shiftr acc (Z.of_nat b * 8) mod 256) (seqn per_lane_bytes)))
    (seqn nat_lanes)) (chunks_exact nat_tile tiled).

(** [l1_unpack_planes_to_elems], the first part of [l1_unpack_planes]. *)
Definition l1_unpack_planes_to_elems (tiled : list Z) (d : PaddedDims) (bits : Z) : FormatResult (list Z) :=
  let* packing := bit_planes bits in
  let per_lane_bytes := Z.to_nat (bytes_per_lane packing) in
  let expected := tile_count d * tile_bytes packing in
  let* _ := expect_len (len tiled) expected "l1 tile-order plane bytes" in
  oflatM (λ tile,
    oflatM (λ lane,
      let* acc := gather 8 tile (lane * per_lane_bytes) per_lane_bytes in
      Ok (spread bits acc nat_lane))
    (seqn nat_lanes)) (chunks_exact (Z.to_nat (tile_bytes packing)) tiled).

Definition l1_unpack_planes (tiled : list Z) (d : PaddedDims) (bits : Z) : FormatResult (list Z) :=
  let* elems := l1_unpack_planes_to_elems tiled d bits in
  l1_inverse_elems elems d.

Definition verify_padding_zeros_planes (tiled : list Z) (d : PaddedDims) (bits : Z) : FormatResult unit :=
  let* elems := l1_unpack_planes_to_elems tiled d bits in
  verify_padding_zeros_elems elems d.

(** ** The sparse layout *)

Definition L1S_KEPT_PER_TILE : Z := 256.
Definition L1S_INDEX_BYTES_PER_TILE : Z := 64.

Definition l1s_value_dims (d : PaddedDims) (superblock_k : option Z) : FormatResult PaddedDims :=
  let bad s := (s =? 0) || negb (is_multiple_of s 32) in
  let compressed_sb := s ← superblock_k; if bad s then None else Some (s / 2) in
  let* _ := collect
    (problem_if (negb (is_multiple_of (pd_k d) 2)) (InvalidDim "k" (pd_k d) "must be even for 2:4 compression") ++
     match superblock_k with
     | Some s => problem_if (bad s) (InvalidBlock "superblock_k" s
         "must be a nonzero multiple of 32 so the halved superblock stays tile-aligned")
     | None => []
     end) in
  dims_new (pd_n d) (pd_k d / 2) compressed_sb.

Definition l1s_index_lane (n_in_tile kgroup : Z) : FormatResult Z := l1_lane n_in_tile kgroup.

Definition l1s_index_region_bytes (tiles : Z) : FormatResult Z :=
  ok_or (checked_mul U64_MAX tiles L1S_INDEX_BYTES_PER_TILE)
    (FmtOverflow "l1s_index_region_bytes" (msg "tiles={tiles}" [Num tiles])).

Definition l1s_pack_indices (kept : list Z) (d : PaddedDims) : FormatResult (list Z) :=
  let tiles := tile_count d in
  let* expected := ok_or (checked_mul U64_MAX tiles L1S_KEPT_PER_TILE)
                     (FmtOverflow "l1s kept indices" (msg "tiles={tiles}" [Num tiles])) in
  let* _ := expect_len (len kept) expected "l1s kept indices" in
  let* _ := collect (out_of_range "l1s index" 4 kept) in
  oflatM (λ tile,
    oflatM (λ lane,
      let* acc := gather 2 (map (λ v, Z.land v 3) tile) (lane * nat_lane) nat_lane in
      Ok [Z.land acc 255; Z.shiftr acc 8 mod 256])
    (seqn nat_lanes)) (chunks_exact nat_tile kept).

Definition l1s_unpack_indices (bytes : list Z) (d : PaddedDims) : FormatResult (list Z) :=
  let tiles := tile_count d in
  let* expected := l1s_index_region_bytes tiles in
  let* _ := expect_len (len bytes) expected "l1s index bytes" in
  oflatM (λ tile,
    oflatM (λ lane,
      let* acc := gather 8 tile (lane * 2) 2 in
      Ok (spread 2 acc nat_lane))
    (seqn nat_lanes)) (chunks_exact (Z.to_nat L1S_INDEX_BYTES_PER_TILE) bytes).

(** [L1sRegions] and [L1Regions]: the regions of one entry in order. *)
Record L1sRegions : Type := { ls_values : Z; ls_scales : Z; ls_indices : Z }.

Definition l1s_regions_new (d : PaddedDims) (value_tile_bytes scales_bytes : Z) : FormatResult L1sRegions :=
  let* values := ok_or (checked_mul U64_MAX (tile_count d) value_tile_bytes)
    (FmtOverflow "l1s values_bytes" (msg "tiles={} tile_bytes={value_tile_bytes}"
       [Num (tile_count d); Num value_tile_bytes])) in
  let* indices := l1s_index_region_bytes (tile_count d) in
  Ok {| ls_values := values; ls_scales := scales_bytes; ls_indices := indices |}.

Definition indices_offset (r : L1sRegions) : FormatResult Z :=
  ok_or (checked_add U64_MAX (ls_values r) (ls_scales r))
    (FmtOverflow "l1s indices_offset" (msg "values={} scales={}" [Num (ls_values r); Num (ls_scales r)])).

Definition l1s_total_bytes (r : L1sRegions) : FormatResult Z :=
  let* off := indices_offset r in
  ok_or (checked_add U64_MAX off (ls_indices r))
    (FmtOverflow "l1s total_bytes" (msg "indices={} bytes={}" [Num off; Num (ls_indices r)])).

Record L1Regions : Type := { lr_values : Z; lr_scales : Z }.

Definition l1_regions_new (d : PaddedDims) (value_tile_bytes scales_bytes : Z) : FormatResult L1Regions :=
  let* values := ok_or (checked_mul U64_MAX (tile_count d) value_tile_bytes)
    (FmtOverflow "l1 values_bytes" (msg "tiles={} tile_bytes={value_tile_bytes}"
       [Num (tile_count d); Num value_tile_bytes])) in
  Ok {| lr_values := values; lr_scales := scales_bytes |}.

Definition l1_total_bytes (r : L1Regions) : FormatResult Z :=
  ok_or (checked_add U64_MAX (lr_values r) (lr_scales r))
    (FmtOverflow "l1 total_bytes" (msg "values={} scales={}" [Num (lr_values r); Num (lr_scales r)])).

(** * Permutations and lane codecs are lossless *)

(** ** Loops that put every element in its place *)

Section scatter.
Context {A B E : Type} (place : B → nat) (value : B → A).

Lemma scatter_Ok (f : list A → B → outcome E (list A)) m l dst :
  length dst = m → (∀ b dst, b ∈ l → length dst = m → f dst b = Ok (<[place b := value b]> dst)) →
  NoDup l → (∀ b c, b ∈ l → c ∈ l → place b = place c → b = c) → (∀ b, b ∈ l → (place b < m)%nat) →
  ∃ dst', ofoldM f dst l = Ok dst' ∧ length dst' = m ∧
    (∀ b, b ∈ l → dst' !! place b = Some (value b)) ∧
    (∀ i, (∀ b, b ∈ l → place b ≠ i) → dst' !! i = dst !! i).
Proof.
  intros Hm Hf Hnd. revert dst Hm Hf. induction Hnd as [|b l Hb Hnd IH]; intros dst Hm Hf Hinj Hlt; simpl.
  - exists dst. split_and!; [done..| |done]. intros b Hb. by apply elem_of_nil in Hb.
  - rewrite Hf by (by left || done). simpl.
    destruct (IH (<[place b:=value b]> dst)) as (dst' & Hd & Hl & Hin & Hout).
    { by rewrite length_insert. } { intros c k Hc. apply Hf. by right. }
    { intros c e Hc He. apply Hinj; by right. } { intros c Hc. apply Hlt. by right. }
    exists dst'. split_and!; [done..| |].
    + intros c [->|Hc]%elem_of_cons; [|by apply Hin].
      rewrite Hout; [apply list_lookup_insert_eq; rewrite Hm; apply Hlt; by left|].
      intros c Hc Heq. apply Hb. rewrite <- (Hinj c b); [done|by right|by left|done].
    + intros i Hi. rewrite Hout by (intros c Hc; apply Hi; by right).
      apply list_lookup_insert_ne. apply Hi. by left.
Qed.
End scatter.

(** A loop in a loop is a loop over the pairs. *)
Lemma ofoldM_nested {E A B C} (f : A → B → C → outcome E A) acc (lb : list B) (lc : list C) :
  ofoldM (λ acc b, ofoldM (λ acc c, f acc b c) acc lc) acc lb =
  ofoldM (λ acc '(b, c), f acc b c) acc (list_prod lb lc).
Proof.
  assert (∀ b acc, ofoldM (λ acc c, f acc b c) acc lc = ofoldM (λ acc '(b, c), f acc b c) acc (map (pair b) lc)) as Hin.
  { intros b. induction lc as [|c lc IH]; intros k; simpl; [done|]. destruct (f k b c); simpl; auto. }
  revert acc. induction lb as [|b lb IH]; intros acc; simpl; [done|].
  rewrite ofoldM_app, <- Hin. destruct (ofoldM _ acc lc); simpl; auto.
Qed.

Lemma vec_put_Ok {E A} (l : list A) i (x : A) :
  0 ≤ i < len l → vec_put (E:=E) l i x = Ok (<[Z.to_nat i := x]> l).
Proof. intros Hi. unfold vec_put, vec_set, len in *. by rewrite (proj2 (Nat.ltb_lt _ _)) by lia. Qed.

Lemma vec_get_Ok {E} (l : list Z) i : 0 ≤ i < len l → vec_get (E:=E) l i = Ok (l !!! Z.to_nat i).
Proof.
  intros Hi. unfold vec_get, len in *. destruct (lookup_lt_is_Some_2 l (Z.to_nat i)) as [x Hx]; [lia|].
  by rewrite Hx, (list_lookup_total_correct _ _ _ Hx).
Qed.

Lemma expect_len_refl n what : expect_len n n what = Ok tt.
Proof. unfold expect_len. by rewrite Z.eqb_refl. Qed.

Lemma elem_of_list_prod' {A B} (l : list A) (k : list B) x y : (x, y) ∈ list_prod l k ↔ x ∈ l ∧ y ∈ k.
Proof. rewrite !list_elem_of_In. apply in_prod_iff. Qed.

Lemma elem_of_cells {N K n k} : (n, k) ∈ list_prod (zrange 0 N) (zrange 0 K) ↔ 0 ≤ n < N ∧ 0 ≤ k < K.
Proof. rewrite elem_of_list_prod', !elem_of_zrange. done. Qed.

Lemma NoDup_list_prod {A B} (l : list A) (k : list B) : NoDup l → NoDup k → NoDup (list_prod l k).
Proof.
  intros Hl Hk. induction Hl as [|x l Hx Hl IH]; simpl; [constructor|].
  apply NoDup_app. split_and!; [|intros [a b] Hab Hab'|done].
  - apply NoDup_fmap_2; [|done]. intros a b. by injection 1.
  - apply elem_of_list_prod' in Hab' as [Ha _].
    apply list_elem_of_fmap in Hab as (y & [= -> _] & _). done.
Qed.

Lemma NoDup_cells N K : NoDup (list_prod (zrange 0 N) (zrange 0 K)).
Proof. apply NoDup_list_prod; apply NoDup_seqZ. Qed.

Lemma NoDup_enumerate {A} (l : list A) : NoDup (enumerate l).
Proof.
  apply (NoDup_fmap_1 fst). unfold enumerate. rewrite fmap_imap.
  change (NoDup (imap (λ j _, id j) l)). rewrite imap_seq_0, list_fmap_id. apply NoDup_seq.
Qed.

(** ** The permutation *)

Section permute.
Context (d : PaddedDims) (Hd : dims_ok d).
Implicit Types (src tiled : list Z).

Lemma row_major_cell_bound n k : 0 ≤ n < n_padded d → 0 ≤ k < k_padded d → 0 ≤ row_major d n k < elems d.
Proof. intros Hn Hk. unfold row_major, elems. nia. Qed.

Lemma row_major_inj n k n' k' :
  0 ≤ k < k_padded d → 0 ≤ k' < k_padded d → row_major d n k = row_major d n' k' → n = n' ∧ k = k'.
Proof. unfold row_major. intros ?? H. assert (n = n') as -> by nia. lia. Qed.

(** Every index below [elems] is the row-major index of a cell. *)
Lemma row_major_split i :
  0 ≤ i < elems d → ∃ n k, 0 ≤ n < n_padded d ∧ 0 ≤ k < k_padded d ∧ i = row_major d n k.
Proof using Hd.
  pose proof (do_k d Hd). unfold elems, row_major. intros Hi.
  exists (i / k_padded d), (i mod k_padded d).
  pose proof (Z.mod_pos_bound i (k_padded d) ltac:(lia)).
  split_and!; [apply Z.div_pos; lia|apply Z.div_lt_upper_bound; lia|lia|lia|].
  rewrite (Z.div_mod i (k_padded d)) at 1 by lia. lia.
Qed.

Lemma len_zeros n : 0 ≤ n → len (zeros n) = n.
Proof. intros. unfold len, zeros. rewrite length_replicate. lia. Qed.

(** What the forward loop builds: element [(n, k)] at its tile position. *)
Lemma forward_loop_Ok what src :
  len src = elems d →
  ∃ t, forward_loop what src d = Ok t ∧ len t = elems d ∧
       ∀ n k, 0 ≤ n < n_padded d → 0 ≤ k < k_padded d →
         t !! Z.to_nat (forward_pos d n k) = src !! Z.to_nat (row_major d n k).
Proof using Hd.
  intros Hl. unfold forward_loop. fold (elems d). rewrite Hl, expect_len_refl. simpl.
  rewrite ofoldM_nested. pose proof (elems_u64 d Hd).
  set (body := λ dst '(n, k), let* pos := l1_forward_index n k d in
                              let* x := vec_get src (row_major d n k) in vec_put dst pos x).
  destruct (scatter_Ok (λ '(n, k), Z.to_nat (forward_pos d n k))
              (λ '(n, k), src !!! Z.to_nat (row_major d n k)) body (Z.to_nat (elems d))
              (list_prod (zrange 0 (n_padded d)) (zrange 0 (k_padded d))) (zeros (elems d)))
    as (t & Ht & Hlt & Hin & _).
  - unfold zeros. by rewrite length_replicate.
  - intros [n k] dst [Hn Hk]%elem_of_cells Hdst. unfold body. rewrite l1_forward_index_Ok by lia. simpl.
    rewrite vec_get_Ok by (rewrite Hl; by apply row_major_cell_bound). simpl.
    apply vec_put_Ok. unfold len. rewrite Hdst, Z2Nat.id by lia. by apply forward_pos_bound.
  - apply NoDup_cells.
  - intros [n k] [n' k'] [Hn Hk]%elem_of_cells [Hn' Hk']%elem_of_cells Heq.
    pose proof (forward_pos_bound d Hd n k Hn Hk). pose proof (forward_pos_bound d Hd n' k' Hn' Hk').
    destruct (inverse_forward d Hd n k Hn Hk) as [En Ek].
    destruct (inverse_forward d Hd n' k' Hn' Hk') as [En' Ek'].
    assert (forward_pos d n k = forward_pos d n' k') as Heq' by lia. congruence.
  - intros [n k] [Hn Hk]%elem_of_cells. pose proof (forward_pos_bound d Hd n k Hn Hk). lia.
  - exists t. split; [exact Ht|]. split; [unfold len; lia|]. intros n k Hn Hk.
    specialize (Hin (n, k) ltac:(by apply elem_of_cells)). simpl in Hin. rewrite Hin.
    symmetry. apply list_lookup_lookup_total_lt.
    pose proof (row_major_cell_bound n k Hn Hk). unfold len in Hl. lia.
Qed.

Lemma inverse_loop_Ok what tiled :
  len tiled = elems d →
  ∃ s, inverse_loop what tiled d = Ok s ∧ len s = elems d ∧
       ∀ n k, 0 ≤ n < n_padded d → 0 ≤ k < k_padded d →
         s !! Z.to_nat (row_major d n k) = tiled !! Z.to_nat (forward_pos d n k).
Proof using Hd.
  intros Hl. unfold inverse_loop. fold (elems d). rewrite Hl, expect_len_refl. simpl.
  pose proof (elems_u64 d Hd). unfold len in Hl.
  assert (∀ p x, (p, x) ∈ enumerate tiled → 0 ≤ Z.of_nat p < elems d) as Hp.
  { intros p x Hx%elem_of_enumerate%lookup_lt_Some. lia. }
  destruct (scatter_Ok (E:=FormatError) (λ '(p, x), Z.to_nat (row_major d (inverse_n d (Z.of_nat p)) (inverse_k d (Z.of_nat p))))
              (λ '(p, x), x) (λ dst '(pos, value), let* (n, k) := l1_inverse_index (Z.of_nat pos) d in
    vec_put (E:=FormatError) dst (row_major d n k) value) (Z.to_nat (elems d)) (enumerate tiled) (zeros (elems d)))
    as (s & Hs & Hls & Hin & _).
  - unfold zeros. by rewrite length_replicate.
  - intros [p x] dst Hx Hdst. rewrite l1_inverse_index_Ok by eauto. simpl.
    apply vec_put_Ok. unfold len. rewrite Hdst, Z2Nat.id by lia.
    destruct (inverse_bound d Hd (Z.of_nat p)); [by eauto|]. by apply row_major_cell_bound.
  - apply NoDup_enumerate.
  - intros [p x] [p' x'] Hx Hx' Heq.
    destruct (inverse_bound d Hd (Z.of_nat p)) as [Hn Hk]; [by eauto|].
    destruct (inverse_bound d Hd (Z.of_nat p')) as [Hn' Hk']; [by eauto|].
    pose proof (row_major_cell_bound _ _ Hn Hk). pose proof (row_major_cell_bound _ _ Hn' Hk').
    apply Z2Nat.inj in Heq; [|lia..]. apply row_major_inj in Heq as [En Ek]; [|done..].
    assert (p = p') as <-.
    { apply Nat2Z.inj. rewrite <- (forward_inverse d Hd (Z.of_nat p)), <- (forward_inverse d Hd (Z.of_nat p')) by eauto.
      congruence. }
    apply elem_of_enumerate in Hx, Hx'. congruence.
  - intros [p x] Hx. destruct (inverse_bound d Hd (Z.of_nat p)) as [Hn Hk]; [by eauto|].
    pose proof (row_major_cell_bound _ _ Hn Hk). lia.
  - exists s. split; [exact Hs|]. split; [unfold len; lia|]. intros n k Hn Hk.
    pose proof (forward_pos_bound d Hd n k Hn Hk) as Hb.
    destruct (lookup_lt_is_Some_2 tiled (Z.to_nat (forward_pos d n k))) as [x Hx]; [lia|].
    specialize (Hin (Z.to_nat (forward_pos d n k), x) ltac:(by apply elem_of_enumerate)).
    simpl in Hin. rewrite Z2Nat.id in Hin by lia.
    destruct (inverse_forward d Hd n k Hn Hk) as [-> ->] in Hin. congruence.
Qed.

(** Lists that agree on every cell are equal. *)
Lemma row_major_eq src src' :
  len src = elems d → len src' = elems d →
  (∀ n k, 0 ≤ n < n_padded d → 0 ≤ k < k_padded d →
     src !! Z.to_nat (row_major d n k) = src' !! Z.to_nat (row_major d n k)) → src = src'.
Proof using Hd.
  unfold len. intros Hl Hl' H. apply list_eq_same_length with (length src); [lia|done|].
  intros i x y Hi Hx Hy. destruct (row_major_split (Z.of_nat i)) as (n & k & Hn & Hk & Heq); [lia|].
  specialize (H n k Hn Hk). rewrite <- Heq, Nat2Z.id in H. congruence.
Qed.

Lemma tile_order_eq tiled tiled' :
  len tiled = elems d → len tiled' = elems d →
  (∀ n k, 0 ≤ n < n_padded d → 0 ≤ k < k_padded d →
     tiled !! Z.to_nat (forward_pos d n k) = tiled' !! Z.to_nat (forward_pos d n k)) → tiled = tiled'.
Proof using Hd.
  unfold len. intros Hl Hl' H. apply list_eq_same_length with (length tiled); [lia|done|].
  intros i x y Hi Hx Hy. destruct (inverse_bound d Hd (Z.of_nat i)) as [Hn Hk]; [lia|].
  specialize (H _ _ Hn Hk). rewrite forward_inverse, Nat2Z.id in H by (done || lia). congruence.
Qed.

Lemma forward_loop_bad what src :
  len src ≠ elems d → forward_loop what src d = Err (LengthMismatch what (elems d) (len src)).
Proof. intros H. unfold forward_loop, expect_len. fold (elems d). by apply Z.eqb_neq in H as ->. Qed.
Lemma inverse_loop_bad what src :
  len src ≠ elems d → inverse_loop what src d = Err (LengthMismatch what (elems d) (len src)).
Proof. intros H. unfold inverse_loop, expect_len. fold (elems d). by apply Z.eqb_neq in H as ->. Qed.

Lemma inverse_forward_loop what what' src t :
  len src = elems d → forward_loop what src d = Ok t → inverse_loop what' t d = Ok src.
Proof using Hd.
  intros Hl Ht. destruct (forward_loop_Ok what src Hl) as (t' & Ht' & Hlt & Hin).
  assert (t' = t) as -> by congruence. destruct (inverse_loop_Ok what' t Hlt) as (s & Hs & Hls & Hin').
  rewrite Hs. f_equal. apply row_major_eq; [done..|]. intros n k Hn Hk. by rewrite Hin', Hin.
Qed.

Lemma forward_inverse_loop what what' tiled s :
  len tiled = elems d → inverse_loop what tiled d = Ok s → forward_loop what' s d = Ok tiled.
Proof using Hd.
  intros Hl Ht. destruct (inverse_loop_Ok what tiled Hl) as (s' & Hs' & Hls & Hin).
  assert (s' = s) as -> by congruence. destruct (forward_loop_Ok what' s Hls) as (t & Ht' & Hlt & Hin').
  rewrite Ht'. f_equal. apply tile_order_eq; [done..|]. intros n k Hn Hk. by rewrite Hin', Hin.
Qed.
End permute.

(** [f] moves the elements of every list of the right length so that [g]
    moves them back; every other length is refused. *)
Definition lossless (f g : list Z → PaddedDims → FormatResult (list Z)) (d : PaddedDims) : Prop :=
  ∀ l, if decide (len l = elems d)
       then ∃ t, f l d = Ok t ∧ len t = elems d ∧ g t d = Ok l
       else ∃ what, f l d = Err (LengthMismatch what (elems d) (len l)).

Lemma forward_lossless d what what' :
  dims_ok d → lossless (forward_loop what) (inverse_loop what') d.
Proof.
  intros Hd l. case_decide as Hl; [|exists what; by apply forward_loop_bad].
  destruct (forward_loop_Ok d Hd what l Hl) as (t & Ht & Hlt & _). exists t.
  split_and!; [done..|]. by apply (inverse_forward_loop d Hd what what').
Qed.
Lemma inverse_lossless d what what' :
  dims_ok d → lossless (inverse_loop what) (forward_loop what') d.
Proof.
  intros Hd l. case_decide as Hl; [|exists what; by apply inverse_loop_bad].
  destruct (inverse_loop_Ok d Hd what l Hl) as (t & Ht & Hlt & _). exists t.
  split_and!; [done..|]. by apply (forward_inverse_loop d Hd what what').
Qed.

(** Tile-order images lose nothing.  Over well-formed dimensions the
    forward and inverse images of bytes and of 16-bit elements are mutually
    inverse on all lists of [n_padded * k_padded] elements and refuse every
    other length with both lengths; element [(n, k)] of the matrix is found
    at position [l1_forward_index n k] of the image. *)
Theorem tile_image_lossless d :
  dims_ok d →
  lossless l1_pack_bytes l1_unpack_bytes d ∧ lossless l1_unpack_bytes l1_pack_bytes d ∧
  lossless l1_forward_elems l1_inverse_elems d ∧ lossless l1_inverse_elems l1_forward_elems d ∧
  lossless l1_pack_halfs l1_unpack_halfs d ∧ lossless l1_unpack_halfs l1_pack_halfs d ∧
  ∀ src t n k, l1_pack_bytes src d = Ok t ∨ l1_forward_elems src d = Ok t →
    0 ≤ n < n_padded d → 0 ≤ k < k_padded d →
    ∃ pos x, l1_forward_index n k d = Ok pos ∧
             t !! Z.to_nat pos = Some x ∧ src !! Z.to_nat (n * k_padded d + k) = Some x.
Proof.
  intros Hd. split_and!; try by (apply forward_lossless || apply inverse_lossless).
  intros src t n k Ht Hn Hk. assert (∃ what, forward_loop what src d = Ok t) as [what Hw] by (destruct Ht; eauto).
  destruct (decide (len src = elems d)) as [Hl|Hl]; [|by rewrite forward_loop_bad in Hw].
  destruct (forward_loop_Ok d Hd what src Hl) as (t' & Ht' & _ & Hin). assert (t' = t) as -> by congruence.
  pose proof (row_major_cell_bound d n k Hn Hk). unfold len in Hl.
  destruct (lookup_lt_is_Some_2 src (Z.to_nat (row_major d n k))) as [x Hx]; [lia|].
  exists (forward_pos d n k), x. rewrite Hin by done. split_and!; [|done..]. apply l1_forward_index_Ok; lia.
Qed.

(** One tile, for the witnesses: a 3 by 5 matrix. *)
Definition one_tile : PaddedDims := {| pd_n := 3; pd_k := 5; n_padded := 16; k_padded := 16 |}.
Lemma one_tile_ok : dims_ok one_tile.
Proof. constructor; vm_compute; intuition discriminate. Qed.

Lemma tile_image_lossless_witness :
  dims_new 3 5 None = Ok one_tile ∧
  ∃ t, l1_pack_bytes (zrange 0 256) one_tile = Ok t ∧ l1_unpack_bytes t one_tile = Ok (zrange 0 256) ∧
       t !! 136%nat = Some 24.
Proof.
  split; [reflexivity|].
  destruct (tile_image_lossless one_tile one_tile_ok) as (H & _ & _ & _ & _ & _ & Hat).
  specialize (H (zrange 0 256)).
  destruct (decide _) as [_|Hne] in H; [|exfalso; apply Hne; reflexivity].
  destruct H as (t & Ht & _ & Hu). exists t. split_and!; [exact Ht|exact Hu|].
  destruct (Hat _ _ 1 8 (or_introl Ht)) as (pos & x & Hp & Hx & Hs); [vm_compute; intuition discriminate..|].
  injection Hp as <-. injection Hs as <-. exact Hx.
Defined.

(** ** Padding *)

Section padding.
Context (d : PaddedDims) (Hd : dims_ok d).

Definition is_padding (n k : Z) : Prop :=
  0 ≤ n < n_padded d ∧ 0 ≤ k < k_padded d ∧ ¬ (n < pd_n d ∧ k < pd_k d).

Lemma padding_cell_Ok tiled n k :
  len tiled = elems d → 0 ≤ n < n_padded d → 0 ≤ k < k_padded d →
  padding_cell tiled d n k =
    Ok (if (n <? pd_n d) && (k <? pd_k d) then []
        else problem_if (negb (tiled !!! Z.to_nat (forward_pos d n k) =? 0))
               (PaddingNonzero n k (tiled !!! Z.to_nat (forward_pos d n k)))).
Proof using Hd.
  intros Hl Hn Hk. unfold padding_cell. destruct (_ && _); [done|].
  rewrite l1_forward_index_Ok by lia. simpl.
  rewrite vec_get_Ok by (rewrite Hl; by apply forward_pos_bound). done.
Qed.

(** The check of a list of the right length never fails otherwise than by
    the nonzero padding cells, all of them reported in row-major order. *)
Lemma verify_padding_Ok tiled :
  len tiled = elems d →
  verify_padding_zeros_elems tiled d = Ok tt ↔
  ∀ n k, is_padding n k → tiled !! Z.to_nat (forward_pos d n k) = Some 0.
Proof using Hd.
  intros Hl. unfold verify_padding_zeros_elems. fold (elems d). rewrite Hl, expect_len_refl. simpl.
  set (cell := λ n k, if (n <? pd_n d) && (k <? pd_k d) then []
        else problem_if (negb (tiled !!! Z.to_nat (forward_pos d n k) =? 0))
               (PaddingNonzero n k (tiled !!! Z.to_nat (forward_pos d n k)))).
  rewrite (oflatM_total _ (λ n, concat (map (cell n) (zrange 0 (k_padded d))))).
  2:{ intros n Hn%elem_of_zrange. apply oflatM_total. intros k Hk%elem_of_zrange. by apply padding_cell_Ok. }
  simpl. rewrite collect_Ok, concat_map_nil.
  assert (∀ n k, 0 ≤ n < n_padded d → 0 ≤ k < k_padded d →
    tiled !! Z.to_nat (forward_pos d n k) = Some (tiled !!! Z.to_nat (forward_pos d n k))) as Hsome.
  { intros n k Hn Hk. apply list_lookup_lookup_total_lt.
    pose proof (forward_pos_bound d Hd n k Hn Hk). unfold len in Hl. lia. }
  split.
  - intros H n k (Hn & Hk & Hp). specialize (H n ltac:(by apply elem_of_zrange)).
    rewrite concat_map_nil in H. specialize (H k ltac:(by apply elem_of_zrange)).
    unfold cell in H. destruct (_ && _) eqn:Hb in H.
    { apply andb_true_iff in Hb as [?%Z.ltb_lt ?%Z.ltb_lt]. by destruct Hp. }
    apply problem_if_nil, negb_false_iff, Z.eqb_eq in H. by rewrite Hsome, H.
  - intros H n Hn%elem_of_zrange. apply concat_map_nil. intros k Hk%elem_of_zrange. unfold cell.
    destruct (_ && _) eqn:Hb; [done|]. apply problem_if_nil, negb_false_iff, Z.eqb_eq.
    apply andb_false_iff in Hb. rewrite !Z.ltb_ge in Hb.
    specialize (H n k ltac:(unfold is_padding; lia)). rewrite Hsome in H by done. by injection H.
Qed.

(** Padding a matrix: its elements in place, zeros elsewhere. *)
Lemma pad_row_major_Ok src :
  len src = pd_n d * pd_k d →
  ∃ p, pad_row_major_elems src (pd_n d) (pd_k d) d = Ok p ∧ len p = elems d ∧
    (∀ n k, 0 ≤ n < pd_n d → 0 ≤ k < pd_k d →
       p !! Z.to_nat (row_major d n k) = src !! Z.to_nat (n * pd_k d + k)) ∧
    (∀ n k, is_padding n k → p !! Z.to_nat (row_major d n k) = Some 0).
Proof using Hd.
  intros Hl. unfold pad_row_major_elems. rewrite !Z.eqb_refl. simpl. rewrite Hl, expect_len_refl. simpl.
  rewrite ofoldM_nested. fold (elems d). pose proof (elems_u64 d Hd).
  pose proof (do_n d Hd) as Hn0. pose proof (do_k d Hd) as Hk0.
  set (body := λ dst '(row, col), let* x := vec_get src (row * pd_k d + col) in vec_put dst (row_major d row col) x).
  destruct (scatter_Ok (λ '(n, k), Z.to_nat (row_major d n k))
              (λ '(n, k), src !!! Z.to_nat (n * pd_k d + k)) body (Z.to_nat (elems d))
              (list_prod (zrange 0 (pd_n d)) (zrange 0 (pd_k d))) (zeros (elems d)))
    as (p & Hp & Hlp & Hin & Hout).
  - unfold zeros. by rewrite length_replicate.
  - intros [n k] dst [Hn Hk]%elem_of_cells Hdst. unfold body.
    rewrite vec_get_Ok by (rewrite Hl; nia). simpl. apply vec_put_Ok. unfold len. rewrite Hdst, Z2Nat.id by lia.
    apply row_major_cell_bound; lia.
  - apply NoDup_cells.
  - intros [n k] [n' k'] [Hn Hk]%elem_of_cells [Hn' Hk']%elem_of_cells Heq.
    pose proof (row_major_cell_bound d n k ltac:(lia) ltac:(lia)).
    pose proof (row_major_cell_bound d n' k' ltac:(lia) ltac:(lia)).
    apply Z2Nat.inj in Heq; [|lia..]. apply row_major_inj in Heq as [-> ->]; [done|lia..].
  - intros [n k] [Hn Hk]%elem_of_cells. pose proof (row_major_cell_bound d n k ltac:(lia) ltac:(lia)). lia.
  - exists p. split_and!; [exact Hp|unfold len; lia|..].
    + intros n k Hn Hk. rewrite (Hin (n, k)) by by apply elem_of_cells.
      symmetry. apply list_lookup_lookup_total_lt. unfold len in Hl. nia.
    + intros n k (Hn & Hk & Hpad). rewrite Hout.
      * pose proof (row_major_cell_bound d n k Hn Hk). apply lookup_replicate. split; [done|lia].
      * intros [n' k'] [Hn' Hk']%elem_of_cells Heq. apply Hpad.
        pose proof (row_major_cell_bound d n k Hn Hk). pose proof (row_major_cell_bound d n' k' ltac:(lia) ltac:(lia)).
        apply Z2Nat.inj in Heq; [|lia..]. apply row_major_inj in Heq as [-> ->]; lia.
Qed.
End padding.

(** Padding.  Every [n] by [k] matrix pads to an image whose tile order
    passes [verify_padding_zeros_elems] and still reads back each of its
    elements; and the check accepts a tile stream exactly when every position
    outside the matrix holds zero. *)
Theorem padding_is_verified d src :
  dims_ok d → len src = pd_n d * pd_k d →
  (∃ p t, pad_row_major_elems src (pd_n d) (pd_k d) d = Ok p ∧ l1_forward_elems p d = Ok t ∧
     verify_padding_zeros_elems t d = Ok tt ∧ l1_inverse_elems t d = Ok p ∧
     ∀ n k, 0 ≤ n < pd_n d → 0 ≤ k < pd_k d →
       p !! Z.to_nat (row_major d n k) = src !! Z.to_nat (n * pd_k d + k)) ∧
  (∀ t, len t = elems d →
     verify_padding_zeros_elems t d = Ok tt ↔
     ∀ n k pos, is_padding d n k → l1_forward_index n k d = Ok pos → t !! Z.to_nat pos = Some 0).
Proof.
  intros Hd Hl. split.
  - destruct (pad_row_major_Ok d Hd src Hl) as (p & Hp & Hlp & Hin & Hpad).
    destruct (forward_loop_Ok d Hd "l1 row-major elements" p Hlp) as (t & Ht & Hlt & Hat).
    exists p, t. split_and!; try done.
    + apply verify_padding_Ok; [done..|]. intros n k Hnk. rewrite Hat by apply Hnk. by apply Hpad.
    + by apply (inverse_forward_loop d Hd "l1 row-major elements" "l1 tile-order elements").
  - intros t Hlt. rewrite verify_padding_Ok by done. split.
    + intros H n k pos Hnk. rewrite l1_forward_index_Ok by apply Hnk. intros [= <-]. by apply H.
    + intros H n k Hnk. apply (H n k); [done|]. apply l1_forward_index_Ok; apply Hnk.
Qed.

Lemma padding_is_verified_witness :
  ∃ p t, pad_row_major_elems (zrange 1 16) 3 5 one_tile = Ok p ∧ l1_forward_elems p one_tile = Ok t ∧
         verify_padding_zeros_elems t one_tile = Ok tt.
Proof.
  destruct (padding_is_verified one_tile (zrange 1 16) one_tile_ok eq_refl) as [(p & t & Hp & Ht & Hv & _) _].
  exists p, t. exact (conj Hp (conj Ht Hv)).
Defined.
