(* ===== verification/LaneCodec.v ===== *)
(** * Lane codecs

    A lane is eight consecutive elements of a tile; each packing turns it
    into a few bytes.  Digits in a base of 2^w, the loops of [Permute.v] that
    gather and spread them, and the round trips of nibbles, bit planes and
    sparse indices. *)

From S2P Require Import Prelude Bytes Format Tiles Permute.

#[global] Open Scope Z_scope.

(** ** Digits *)

Section digits.
Context (w : Z) (Hw : 0 < w).

Definition is_digit (x : Z) : Prop := 0 ≤ x < 2 ^ w.

(** The number whose base-2^w digits, lowest first, are [l]. *)
Definition of_digits (l : list Z) : Z := foldr (λ x acc, x + 2 ^ w * acc) 0 l.

(** The [n] lowest digits of [x]. *)
Fixpoint digits (n : nat) (x : Z) : list Z :=
  match n with
  | O => []
  | S n => x mod 2 ^ w :: digits n (x / 2 ^ w)
  end.

Lemma base_pos : 0 < 2 ^ w.
Proof using Hw. apply Z.pow_pos_nonneg; lia. Qed.

Lemma length_digits n x : length (digits n x) = n.
Proof. revert x. induction n as [|n IH]; intros x; simpl; [done|by rewrite IH]. Qed.

Lemma digits_Forall n x : Forall is_digit (digits n x).
Proof using Hw.
  pose proof base_pos. revert x. induction n as [|n IH]; intros x; simpl; constructor; [|done].
  apply Z.mod_pos_bound. lia.
Qed.

Lemma of_digits_bound l : Forall is_digit l → 0 ≤ of_digits l < 2 ^ (w * len l).
Proof using Hw.
  pose proof base_pos. induction 1 as [|x l Hx _ IH]; [by rewrite Z.mul_0_r|].
  unfold is_digit, len in *. simpl length. rewrite Nat2Z.inj_succ, Z.mul_succ_r, Z.pow_add_r by nia.
  simpl. nia.
Qed.

Lemma of_digits_snoc l x : of_digits (l ++ [x]) = of_digits l + x * 2 ^ (w * len l).
Proof using Hw.
  induction l as [|y l IH]; simpl; [unfold len; simpl; rewrite !Z.mul_0_r, Z.pow_0_r; lia|].
  rewrite IH. unfold len. simpl length. rewrite Nat2Z.inj_succ, Z.mul_succ_r, Z.pow_add_r by nia. ring.
Qed.

Lemma digits_of l : Forall is_digit l → digits (length l) (of_digits l) = l.
Proof using Hw.
  pose proof base_pos. induction 1 as [|x l Hx _ IH]; simpl; [done|]. unfold is_digit in Hx. f_equal.
  - rewrite Z.mul_comm, Z_mod_plus_full. by apply Z.mod_small.
  - rewrite Z.mul_comm, Z.div_add, (Z.div_small x) by lia. done.
Qed.

Lemma of_digits_mod n x : of_digits (digits n x) = x mod 2 ^ (w * Z.of_nat n).
Proof using Hw.
  pose proof base_pos. revert x. induction n as [|n IH]; intros x; simpl.
  - by rewrite Z.mul_0_r, Z.mod_1_r.
  - rewrite IH. change (Z.pos (Pos.of_succ_nat n)) with (Z.of_nat (S n)).
    rewrite Nat2Z.inj_succ, Z.mul_succ_r, Z.add_comm, (Z.add_comm (w * _)), Z.pow_add_r, Z.rem_mul_r by (try apply Z.pow_pos_nonneg; nia).
    lia.
Qed.

(** Setting bits above those of a number adds. *)
Lemma lor_above m acc x : 0 ≤ m → 0 ≤ acc < 2 ^ m → Z.lor acc (Z.shiftl x m) = acc + x * 2 ^ m.
Proof.
  intros Hm Hacc. rewrite <- Z.shiftl_mul_pow2 by done.
  rewrite Z.add_nocarry_lxor, Z.lxor_lor; [done|..];
    apply Z.bits_inj'; intros i Hi; rewrite Z.land_spec, Z.bits_0.
  all: destruct (decide (i < m)) as [Hlt|Hge];
    [rewrite Z.shiftl_spec_low by lia; by rewrite andb_false_r|].
  all: assert (Z.testbit acc i = false) as ->; [|done].
  all: destruct (decide (acc = 0)) as [->|Hne]; [apply Z.bits_0|].
  all: apply Z.bits_above_log2; [lia|]; apply Z.lt_le_trans with m; [|lia].
  all: apply Z.log2_lt_pow2; lia.
Qed.

Lemma shiftr_shiftr_w x j : Z.shiftr x (Z.of_nat (S j) * w) = Z.shiftr (x / 2 ^ w) (Z.of_nat j * w).
Proof using Hw. rewrite <- Z.shiftr_div_pow2, Z.shiftr_shiftr by nia. f_equal. lia. Qed.

Lemma map_seqn_S {A} (f : nat → A) n : map f (seqn (S n)) = f 0%nat :: map (λ j, f (S j)) (seqn n).
Proof using. unfold seqn, seqn_from. cbn [seq map]. by rewrite <- seq_shift, map_map. Qed.

Lemma spread_digits x n : map (λ j, Z.shiftr x (Z.of_nat j * w) mod 2 ^ w) (seqn n) = digits n x.
Proof using Hw.
  revert x. induction n as [|n IH]; intros x; [done|]. rewrite map_seqn_S. simpl digits.
  rewrite Z.mul_0_l, Z.shiftr_0_r. f_equal.
  rewrite <- IH. apply map_ext. intros j. by rewrite shiftr_shiftr_w.
Qed.

Lemma spread_eq x n : spread w x n = digits n x.
Proof using Hw.
  rewrite <- spread_digits. unfold spread. apply map_ext. intros j.
  rewrite <- Z.land_ones by lia. by rewrite Z.ones_equiv, Z.sub_1_r.
Qed.

(** Gathering from a vector reads the number of its digits. *)
Lemma gather_Ok v base n :
  (base + n ≤ length v)%nat → Forall is_digit (take n (drop base v)) →
  gather w v base n = Ok (of_digits (take n (drop base v))).
Proof using Hw.
  unfold gather. induction n as [|n IH]; intros Hlen Hf; [done|].
  destruct (lookup_lt_is_Some_2 v (base + n)) as [x Hx]; [lia|].
  assert (take (S n) (drop base v) = take n (drop base v) ++ [x]) as Ht.
  { apply take_S_r. by rewrite lookup_drop. }
  rewrite Ht in Hf |- *. apply Forall_app in Hf as [Hf Hxd].
  rewrite seqn_S, ofoldM_app, IH by (done || lia). simpl. rewrite Hx. simpl.
  pose proof (of_digits_bound _ Hf) as Hb. rewrite of_digits_snoc.
  assert (len (take n (drop base v)) = Z.of_nat n) as Hn.
  { unfold len. rewrite length_take, length_drop. lia. }
  rewrite Hn in *. rewrite (Z.mul_comm (Z.of_nat n)), lor_above by (done || nia). done.
Qed.
End digits.

Arguments of_digits w l : simpl never.

(** Bytes are digits in base 256. *)
Lemma digits_of_bytes w n l :
  0 < w → length l = n → Forall (is_digit w) l → w * Z.of_nat n = 8 * w →
  digits w n (of_digits 8 (digits 8 (Z.to_nat w) (of_digits w l))) = l.
Proof.
  intros Hw Hl Hf Hn. rewrite of_digits_mod by lia. rewrite Z2Nat.id, <- Hn by lia.
  pose proof (of_digits_bound w Hw l Hf) as Hb. unfold len in Hb. rewrite Hl in Hb.
  rewrite Z.mod_small by done. rewrite <- Hl. by apply digits_of.
Qed.

(** ** Chunks *)

Section chunks.
Context {A : Type}.
Implicit Types (l : list A) (c s : nat).

Lemma length_chunks c s l : length (chunks c s l) = c.
Proof. revert l. induction c as [|c IH]; intros l; simpl; [done|by rewrite IH]. Qed.

Lemma concat_chunks c s l : length l = (c * s)%nat → concat (chunks c s l) = l.
Proof.
  revert l. induction c as [|c IH]; intros l Hl; simpl; [by apply nil_length_inv in Hl|].
  rewrite IH by (rewrite length_drop; lia). apply take_drop.
Qed.

Lemma chunks_concat s (ls : list (list A)) :
  Forall (λ x, length x = s) ls → chunks (length ls) s (concat ls) = ls.
Proof.
  induction 1 as [|x ls Hx _ IH]; simpl; [done|]. by rewrite take_app_length', drop_app_length', IH.
Qed.

Lemma chunks_Forall (P : A → Prop) c s l :
  length l = (c * s)%nat → Forall P l → Forall (λ x, length x = s ∧ Forall P x) (chunks c s l).
Proof.
  revert l. induction c as [|c IH]; intros l Hl HP; simpl; constructor.
  - rewrite length_take. split; [lia|by apply Forall_take].
  - apply IH; [rewrite length_drop; lia|by apply Forall_drop].
Qed.

Lemma chunks_seqn c s l : chunks c s l = map (λ i, take s (drop (i * s) l)) (seqn c).
Proof.
  revert l. induction c as [|c IH]; intros l; [done|]. rewrite map_seqn_S. simpl. f_equal.
  rewrite IH. apply map_ext. intros i. by rewrite drop_drop.
Qed.

Lemma chunks_split a c s l : chunks (a + c) s l = chunks a s l ++ chunks c s (drop (a * s) l).
Proof.
  revert l. induction a as [|a IH]; intros l; simpl; [done|].
  rewrite IH, drop_drop. done.
Qed.

Lemma chunks_take a s l : chunks a s (take (a * s) l) = chunks a s l.
Proof.
  rewrite !chunks_seqn. apply map_ext_in. intros i Hi%list_elem_of_In%elem_of_seqn.
  rewrite !take_drop_commute, take_take. do 2 f_equal. nia.
Qed.

(** Chunks of chunks. *)
Lemma chunks_nested {B} (g : list A → B) t c s l :
  concat (map (λ tile, map g (chunks c s tile)) (chunks t (c * s) l)) = map g (chunks (t * c) s l).
Proof.
  revert l. induction t as [|t IH]; intros l; simpl; [done|].
  rewrite chunks_split, map_app, IH. by rewrite chunks_take.
Qed.
End chunks.

Lemma length_concat_const {A} s (ls : list (list A)) :
  Forall (λ x, length x = s) ls → length (concat ls) = (length ls * s)%nat.
Proof. induction 1 as [|x ls Hx _ IH]; simpl; [done|]. rewrite length_app. lia. Qed.

Lemma chunks_exact_eq {A} c n (l : list A) :
  (0 < n)%nat → length l = (c * n)%nat → chunks_exact n l = chunks c n l.
Proof. intros Hn Hl. unfold chunks_exact. by rewrite Hl, Nat.div_mul by lia. Qed.

(** ** Codecs lane by lane *)

Section lanes.
Context (P : Z → Prop) (s : nat) (Hs : (0 < s)%nat) (enc : list Z → list Z).

(** Every lane of [s] items encoded in turn. *)
Definition lanewise (t : nat) (l : list Z) : list Z := concat (map enc (chunks (t * nat_lanes) s l)).

Lemma concat_concat_map {A B} (f : A → list (list B)) l :
  concat (map (λ x, concat (f x)) l) = concat (concat (map f l)).
Proof. induction l as [|x l IH]; simpl; [done|]. by rewrite concat_app, IH. Qed.

(** The loops over the lanes of the tiles encode lane by lane. *)
Lemma tile_loop_Ok (f : list Z → nat → FormatResult (list Z)) t l :
  length l = (t * (nat_lanes * s))%nat → Forall P l →
  (∀ tile lane, (lane * s + s ≤ length tile)%nat → Forall P (take s (drop (lane * s) tile)) →
     f tile lane = Ok (enc (take s (drop (lane * s) tile)))) →
  oflatM (λ tile, oflatM (f tile) (seqn nat_lanes)) (chunks_exact (nat_lanes * s) l) = Ok (lanewise t l).
Proof using Hs.
  intros Hl HP Hf. rewrite (chunks_exact_eq t) by (done || unfold nat_lanes; lia).
  rewrite (oflatM_total _ (λ tile, concat (map enc (chunks nat_lanes s tile)))).
  - f_equal. unfold lanewise. by rewrite concat_concat_map, chunks_nested.
  - intros tile Htile. pose proof (chunks_Forall P t _ l Hl HP) as Hch.
    rewrite Forall_forall in Hch. destruct (Hch tile Htile) as [Hlt HPt].
    rewrite (oflatM_total _ (λ lane, enc (take s (drop (lane * s) tile)))).
    + by rewrite chunks_seqn, map_map.
    + intros lane Hlane%elem_of_seqn. apply Hf; [unfold nat_lanes in *; nia|].
      by apply Forall_take, Forall_drop.
Qed.

Lemma lanewise_length s' t l :
  (∀ c, length c = s → Forall P c → length (enc c) = s') →
  length l = (t * (nat_lanes * s))%nat → Forall P l → length (lanewise t l) = (t * (nat_lanes * s'))%nat.
Proof using.
  clear Hs. intros He Hl HP. unfold lanewise.
  assert (Forall (λ x, length x = s') (map enc (chunks (t * nat_lanes) s l))) as Hf.
  { apply Forall_map. eapply Forall_impl; [apply (chunks_Forall P); [lia|done]|]. naive_solver. }
  rewrite (length_concat_const s') by done. rewrite length_map, length_chunks. lia.
Qed.
End lanes.

(** Decoding lane by lane what was encoded lane by lane. *)
Lemma lanewise_roundtrip (P : Z → Prop) s s' enc dec t l :
  length l = (t * (nat_lanes * s))%nat → Forall P l →
  (∀ c, length c = s → Forall P c → length (enc c) = s' ∧ dec (enc c) = c) →
  lanewise s' dec t (lanewise s enc t l) = l.
Proof.
  intros Hl HP He. unfold lanewise.
  assert (Forall (λ x, length x = s ∧ Forall P x) (chunks (t * nat_lanes) s l)) as Hf
    by (apply chunks_Forall; [lia|done]).
  rewrite <- (length_chunks (t * nat_lanes) s l) at 1.
  rewrite <- (length_map enc (chunks _ _ _)) at 1. rewrite chunks_concat.
  - rewrite map_map. rewrite <- (concat_chunks (t * nat_lanes) s l) at 2 by lia. f_equal.
    rewrite <- (map_id (chunks _ _ _)) at 2. apply map_ext_in. intros c Hc%list_elem_of_In.
    rewrite Forall_forall in Hf. destruct (Hf c Hc) as [? ?]. by apply He.
  - apply Forall_map. eapply Forall_impl; [exact Hf|]. simpl. intros c [? ?]. by apply He.
Qed.

(** ** The codecs of the source *)

Lemma out_of_range_nil what limit src : out_of_range what limit src = [] ↔ Forall (λ x, x < limit) src.
Proof.
  unfold out_of_range. rewrite concat_map_nil, Forall_forall. split.
  - intros H x (p & Hp)%list_elem_of_lookup. specialize (H (p, x) ltac:(by apply elem_of_enumerate)).
    apply problem_if_nil in H. lia.
  - intros H [p x] Hp%elem_of_enumerate%list_elem_of_lookup_2. apply problem_if_nil.
    specialize (H x Hp). simpl in H. lia.
Qed.

Lemma collect_out_of_range what limit src :
  Forall (λ x, x < limit) src ∧ collect (out_of_range what limit src) = Ok tt ∨
  ¬ Forall (λ x, x < limit) src ∧ ∃ e, collect (out_of_range what limit src) = Err e.
Proof.
  rewrite <- (out_of_range_nil what).
  destruct (out_of_range what limit src) as [|p [|q l]]; simpl; [by left|right; naive_solver..].
Qed.

Definition is_u16 (x : Z) : Prop := 0 ≤ x < 65536.

Section codecs.
Context (d : PaddedDims) (Hd : dims_ok d).

Definition tiles : nat := Z.to_nat (tile_count d).

Lemma elems_lanes : Z.to_nat (elems d) = (tiles * (nat_lanes * nat_lane))%nat.
Proof using Hd.
  rewrite (elems_tiles d Hd). unfold tiles, nat_lanes, nat_lane, ELEMS_PER_TILE.
  pose proof (n_tiles_pos d Hd). pose proof (k_tiles_pos d Hd). unfold tile_count. nia.
Qed.

Lemma tile_count_nonneg : 0 ≤ tile_count d.
Proof using Hd. pose proof (n_tiles_pos d Hd). pose proof (k_tiles_pos d Hd). unfold tile_count. nia. Qed.

Lemma forward_loop_Forall (P : Z → Prop) what src t :
  forward_loop what src d = Ok t → Forall P src → Forall P t.
Proof using Hd.
  intros Ht HP. destruct (decide (len src = elems d)) as [Hl|Hl]; [|by rewrite forward_loop_bad in Ht].
  destruct (forward_loop_Ok d Hd what src Hl) as (t' & Ht' & Hlt & Hat). assert (t' = t) as -> by congruence.
  apply Forall_forall. intros x (i & Hi)%list_elem_of_lookup. pose proof (lookup_lt_Some _ _ _ Hi).
  unfold len in Hlt. destruct (inverse_bound d Hd (Z.of_nat i)) as [Hn Hk]; [lia|].
  specialize (Hat _ _ Hn Hk). rewrite forward_inverse, Nat2Z.id in Hat by (done || lia).
  rewrite Forall_forall in HP. apply HP. apply list_elem_of_lookup. rewrite Hi in Hat. eauto.
Qed.

(** What a codec promises on lists of [total] values below [limit]: they fit
    in [nbytes] bytes that read back; anything else is refused, the values
    out of range by the list of all of them. *)
Definition codec_ok (pack unpack : list Z → FormatResult (list Z)) (limit total nbytes : Z) : Prop :=
  ∀ src, Forall is_u16 src →
    if decide (len src = total) then
      if decide (Forall (λ x, x < limit) src)
      then ∃ bytes, pack src = Ok bytes ∧ len bytes = nbytes ∧ Forall is_byte bytes ∧ unpack bytes = Ok src
      else ∃ what e, pack src = Err e ∧ collect (out_of_range what limit src) = Err e
    else ∃ what, pack src = Err (LengthMismatch what total (len src)).

Lemma bit_planes_Ok bits p : bit_planes bits = Ok p →
  p = BitPlanes bits ∧ bytes_per_lane p = bits ∧ tile_bytes p = 32 * bits ∧ 2 ≤ bits ≤ 6.
Proof.
  unfold bit_planes. intros H. assert (bits = 2 ∨ bits = 3 ∨ bits = 5 ∨ bits = 6) as Hb.
  { destruct bits as [|[[[]|[]|]|[[]|[]|]|]|]; simplify_eq; naive_solver. }
  destruct Hb as [->|[->|[->| ->]]]; injection H as <-; naive_solver lia.
Qed.

Definition plane_enc (bits : Z) (c : list Z) : list Z := digits 8 (Z.to_nat bits) (of_digits bits c).
Definition plane_dec (bits : Z) (c : list Z) : list Z := digits bits nat_lane (of_digits 8 c).

Lemma plane_lane bits c :
  2 ≤ bits ≤ 6 → length c = nat_lane → Forall (is_digit bits) c →
  length (plane_enc bits c) = Z.to_nat bits ∧ plane_dec bits (plane_enc bits c) = c.
Proof.
  intros Hb Hl Hf. unfold plane_enc, plane_dec. split; [apply length_digits|].
  apply digits_of_bytes; [lia|done|done|unfold nat_lane; lia].
Qed.

Lemma bytes_digits l : Forall is_byte l ↔ Forall (is_digit 8) l.
Proof. done. Qed.

Lemma below_digits bits src :
  Forall is_u16 src → Forall (λ x, x < Z.shiftl 1 bits) src → 0 ≤ bits → Forall (is_digit bits) src.
Proof.
  intros H1 H2 Hb. rewrite Z.shiftl_1_l in H2.
  eapply Forall_impl; [exact (proj2 (Forall_and _ _) (conj H1 H2))|].
  intros x [[? _] ?]. by split.
Qed.

Lemma planes_codec bits :
  (∃ p, bit_planes bits = Ok p) →
  codec_ok (λ src, l1_pack_planes src d bits) (λ bytes, l1_unpack_planes bytes d bits)
    (2 ^ bits) (elems d) (tile_count d * (32 * bits)).
Proof using Hd.
  intros [p Hp] src Hsrc. unfold l1_pack_planes. rewrite Hp. simpl. fold (elems d).
  pose proof (bit_planes_Ok bits p Hp) as (_ & Hpl & Htb & Hb).
  case_decide as Hl; [|exists "l1 row-major plane values"; unfold expect_len; by apply Z.eqb_neq in Hl as ->].
  rewrite Hl, expect_len_refl. simpl.
  destruct (collect_out_of_range "bit-plane value" (Z.shiftl 1 bits) src) as [[Hlt Hc]|[Hlt (e & Hc)]];
    rewrite Z.shiftl_1_l in Hlt; [rewrite decide_True by done|rewrite decide_False by done].
  2:{ exists "bit-plane value", e. rewrite Hc. rewrite Z.shiftl_1_l in Hc. done. }
  rewrite Hc. simpl.
  destruct (forward_loop_Ok d Hd "l1 row-major elements" src Hl) as (t & Ht & Hlt' & _).
  change (l1_forward_elems src d) with (forward_loop "l1 row-major elements" src d). rewrite Ht. simpl.
  assert (length t = (tiles * (nat_lanes * nat_lane))%nat) as Hlen
    by (rewrite <- elems_lanes; unfold len in Hlt'; lia).
  assert (Forall (is_digit bits) t) as Hdig.
  { eapply forward_loop_Forall; [exact Ht|]. apply below_digits; [done|by rewrite Z.shiftl_1_l|lia]. }
  rewrite Hpl. change nat_tile with (nat_lanes * nat_lane)%nat.
  rewrite (tile_loop_Ok (is_digit bits) nat_lane ltac:(unfold nat_lane; lia) (plane_enc bits) _ tiles) by
    (done || intros tile lane Hle Hf; rewrite gather_Ok by (done || lia); simpl; f_equal;
             apply (spread_digits 8); lia).
  assert (∀ c, length c = nat_lane → Forall (is_digit bits) c →
    length (plane_enc bits c) = Z.to_nat bits ∧ plane_dec bits (plane_enc bits c) = c) as Hlane
    by (intros; by apply plane_lane).
  pose proof (lanewise_length (is_digit bits) nat_lane (plane_enc bits) (Z.to_nat bits) tiles t) as Hel.
  specialize (Hel ltac:(intros; by apply Hlane) Hlen Hdig).
  set (bytes := lanewise nat_lane (plane_enc bits) tiles t) in *.
  assert (Forall is_byte bytes) as Hbytes.
  { unfold bytes, lanewise. apply Forall_concat, Forall_map, Forall_forall. intros c _.
    apply bytes_digits, digits_Forall. lia. }
  assert (len bytes = tile_count d * (32 * bits)) as Hbl.
  { unfold len. rewrite Hel. unfold tiles, nat_lanes. pose proof tile_count_nonneg. lia. }
  exists bytes. split_and!; [done..|]. unfold l1_unpack_planes, l1_unpack_planes_to_elems. rewrite Hp. simpl.
  rewrite Htb, Hbl, expect_len_refl. simpl. rewrite Hpl.
  replace (Z.to_nat (32 * bits)) with (nat_lanes * Z.to_nat bits)%nat by (unfold nat_lanes; lia).
  rewrite (tile_loop_Ok is_byte (Z.to_nat bits) ltac:(lia) (plane_dec bits) _ tiles) by
    (done || intros tile lane Hle Hf; rewrite (gather_Ok 8) by (done || lia); simpl; f_equal;
             apply (spread_eq bits); lia).
  simpl. unfold bytes. rewrite (lanewise_roundtrip (is_digit bits) nat_lane (Z.to_nat bits)) by done.
  by apply (inverse_forward_loop d Hd "l1 row-major elements" "l1 tile-order elements").
Qed.

(** Nibbles. *)
Definition nibble_enc (c : list Z) : list Z :=
  match c with
  | [a0; a1; a2; a3; a4; a5; a6; a7] => [a0 + 16 * a1; a2 + 16 * a3; a4 + 16 * a5; a6 + 16 * a7]
  | _ => []
  end.
Definition nibble_dec (c : list Z) : list Z := concat (map (λ b, [b mod 16; b / 16]) c).

Lemma nibble_lane c :
  length c = nat_lane → Forall (is_digit 4) c →
  length (nibble_enc c) = 4%nat ∧ Forall is_byte (nibble_enc c) ∧ nibble_dec (nibble_enc c) = c.
Proof.
  intros Hl Hf. do 9 (destruct c as [|? c]; [try discriminate Hl|]); [|discriminate Hl].
  rewrite !Forall_cons in Hf. unfold is_digit in Hf. change (2 ^ 4) with 16 in Hf.
  split_and!; [done|simpl; rewrite !Forall_cons; unfold is_byte; split_and!; try lia; constructor|].
  unfold nibble_dec, nibble_enc. simpl.
  rewrite !(Z.mul_comm 16), !Z_mod_plus_full, !Z.div_add, !Z.mod_small, !Z.div_small by lia. done.
Qed.

Lemma nibble_pair a b : 0 ≤ a < 16 → 0 ≤ b < 16 → Z.lor a (Z.shiftl b 4 mod 256) = a + 16 * b.
Proof.
  intros Ha Hb. rewrite Z.mod_small by (rewrite Z.shiftl_mul_pow2; lia).
  rewrite lor_above by (change (2 ^ 4) with 16; lia). change (2 ^ 4) with 16. lia.
Qed.

(** A list split at a lane of a tile shows its elements one by one. *)
Lemma pack_nibble_lane_Ok tile lane :
  (lane * nat_lane + nat_lane ≤ length tile)%nat → Forall (is_digit 4) (take nat_lane (drop (lane * nat_lane) tile)) →
  pack_nibble_lane tile lane = Ok (nibble_enc (take nat_lane (drop (lane * nat_lane) tile))).
Proof.
  intros Hle Hf. unfold pack_nibble_lane. set (base := (lane * nat_lane)%nat) in *.
  set (c := take nat_lane (drop base tile)) in *.
  assert (length c = nat_lane) as Hl by (unfold c; rewrite length_take, length_drop; lia).
  assert (∀ j, (j < nat_lane)%nat → tile !! (base + j)%nat = c !! j) as Hat.
  { intros j Hj. unfold c. by rewrite lookup_take_lt, lookup_drop by lia. }
  cbn [omapM seqn seqn_from seq]. rewrite <- !Nat.add_assoc, !Hat by (unfold nat_lane; lia).
  clearbody c. do 9 (destruct c as [|? c]; [try discriminate Hl|]); [|discriminate Hl].
  rewrite !Forall_cons in Hf. simpl. unfold is_digit in Hf. change (2 ^ 4) with 16 in Hf.
  by rewrite !nibble_pair by lia.
Qed.

Lemma unpack_nibble_lane_Ok tile lane :
  (lane * 4 + 4 ≤ length tile)%nat → Forall is_byte (take 4 (drop (lane * 4) tile)) →
  unpack_nibble_lane tile lane = Ok (nibble_dec (take 4 (drop (lane * 4) tile))).
Proof.
  intros Hle Hf. unfold unpack_nibble_lane. set (base := (lane * 4)%nat) in *.
  set (c := take 4 (drop base tile)) in *.
  assert (length c = 4%nat) as Hl by (unfold c; rewrite length_take, length_drop; lia).
  assert (∀ j, (j < 4)%nat → tile !! (base + j)%nat = c !! j) as Hat.
  { intros j Hj. unfold c. by rewrite lookup_take_lt, lookup_drop by lia. }
  unfold oflatM. cbn [omapM seqn seqn_from seq]. rewrite !Hat by lia.
  clearbody c. do 5 (destruct c as [|? c]; [try discriminate Hl|]); [|discriminate Hl]. simpl.
  unfold nibble_dec. simpl. change 15 with (Z.ones 4). rewrite !Z.land_ones, !Z.shiftr_div_pow2 by lia. done.
Qed.

Lemma elems_even what : even_total what d = Ok tt.
Proof using Hd.
  unfold even_total. fold (elems d). rewrite (elems_tiles d Hd). unfold is_multiple_of, ELEMS_PER_TILE.
  replace (tile_count d * 256) with (tile_count d * 128 * 2) by lia. by rewrite Z_mod_mult.
Qed.

Lemma nibbles_codec :
  codec_ok (λ src, l1_pack_nibbles src d) (λ bytes, l1_unpack_nibbles bytes d)
    16 (elems d) (tile_count d * 128).
Proof using Hd.
  intros src Hsrc. unfold l1_pack_nibbles. fold (elems d).
  case_decide as Hl; [|exists "l1 row-major nibbles"; unfold expect_len; by apply Z.eqb_neq in Hl as ->].
  rewrite Hl, expect_len_refl, elems_even. cbn [obind].
  destruct (collect_out_of_range "nibble" 16 src) as [[Hlt Hc]|[Hlt (e & Hc)]];
    [rewrite decide_True by done|rewrite decide_False by done].
  2:{ exists "nibble", e. by rewrite Hc. }
  rewrite Hc. simpl.
  destruct (forward_loop_Ok d Hd "l1 row-major bytes" src Hl) as (t & Ht & Hlt' & _).
  change (l1_pack_bytes src d) with (forward_loop "l1 row-major bytes" src d). rewrite Ht. simpl.
  assert (length t = (tiles * (nat_lanes * nat_lane))%nat) as Hlen
    by (rewrite <- elems_lanes; unfold len in Hlt'; lia).
  assert (Forall (is_digit 4) t) as Hdig.
  { eapply forward_loop_Forall; [exact Ht|]. apply below_digits; [done|done|lia]. }
  change nat_tile with (nat_lanes * nat_lane)%nat.
  rewrite (tile_loop_Ok (is_digit 4) nat_lane ltac:(unfold nat_lane; lia) nibble_enc _ tiles) by
    (done || intros; by apply pack_nibble_lane_Ok).
  pose proof (lanewise_length (is_digit 4) nat_lane nibble_enc 4 tiles t) as Hel.
  specialize (Hel ltac:(intros; by apply nibble_lane) Hlen Hdig).
  set (bytes := lanewise nat_lane nibble_enc tiles t) in *.
  assert (Forall is_byte bytes) as Hbytes.
  { unfold bytes, lanewise. apply Forall_concat, Forall_map.
    eapply Forall_impl; [apply (chunks_Forall (is_digit 4)); [lia|done]|]. intros c [? ?]. by apply nibble_lane. }
  assert (len bytes = tile_count d * 128) as Hbl.
  { unfold len. rewrite Hel. unfold tiles, nat_lanes. pose proof tile_count_nonneg. lia. }
  exists bytes. split_and!; [done..|]. unfold l1_unpack_nibbles. rewrite elems_even. cbn [obind].
  fold (elems d). rewrite (elems_tiles d Hd) at 1. unfold ELEMS_PER_TILE.
  replace (tile_count d * 256 / 2) with (tile_count d * 128)
    by (replace (tile_count d * 256) with (tile_count d * 128 * 2) by lia; by rewrite Z.div_mul).
  rewrite Hbl, expect_len_refl. cbn [obind]. unfold expand_nibbles.
  change (nat_tile / 2)%nat with (nat_lanes * 4)%nat.
  rewrite (tile_loop_Ok is_byte 4 ltac:(lia) nibble_dec _ tiles) by
    (done || intros; by apply unpack_nibble_lane_Ok).
  simpl. unfold bytes. rewrite (lanewise_roundtrip (is_digit 4) nat_lane 4) by
    (done || intros; split; by apply nibble_lane).
  by apply (inverse_forward_loop d Hd "l1 row-major bytes" "l1 tile-order bytes").
Qed.

(** Sparse indices. *)
Lemma index_lane_Ok tile lane :
  (lane * nat_lane + nat_lane ≤ length tile)%nat → Forall (is_digit 2) (take nat_lane (drop (lane * nat_lane) tile)) →
  (let* acc := gather 2 (map (λ v, Z.land v 3) tile) (lane * nat_lane) nat_lane in
   Ok [Z.land acc 255; Z.shiftr acc 8 mod 256]) =
  Ok (E:=FormatError) (plane_enc 2 (take nat_lane (drop (lane * nat_lane) tile))).
Proof.
  intros Hle Hf.
  assert (take nat_lane (drop (lane * nat_lane) (map (λ v, Z.land v 3) tile)) =
          take nat_lane (drop (lane * nat_lane) tile)) as Heq.
  { change (map (λ v, Z.land v 3) tile) with ((λ v, Z.land v 3) <$> tile).
    rewrite <- fmap_drop, <- fmap_take. rewrite <- (map_id (take _ _)) at 2. apply map_ext_in.
    intros x Hx%list_elem_of_In. rewrite Forall_forall in Hf. specialize (Hf x Hx).
    change 3 with (Z.ones 2). rewrite Z.land_ones by lia. by apply Z.mod_small. }
  rewrite gather_Ok; [|lia|by rewrite length_map|by rewrite Heq]. rewrite Heq. cbn [obind].
  set (x := of_digits 2 _). unfold plane_enc. change (Z.to_nat 2) with 2%nat. cbn [digits].
  change 255 with (Z.ones 8). rewrite Z.land_ones, Z.shiftr_div_pow2 by lia. done.
Qed.

Lemma indices_codec :
  codec_ok (λ src, l1s_pack_indices src d) (λ bytes, l1s_unpack_indices bytes d) 4 (elems d) (tile_count d * 64).
Proof using Hd.
  intros src Hsrc. unfold l1s_pack_indices. pose proof (elems_u64 d Hd) as Hmax. pose proof tile_count_nonneg.
  assert (tile_count d * L1S_KEPT_PER_TILE = elems d) as Htot by (by rewrite (elems_tiles d Hd)).
  rewrite checked_mul_ok by (rewrite Htot; lia). simpl. rewrite Htot.
  case_decide as Hl; [|exists "l1s kept indices"; unfold expect_len; by apply Z.eqb_neq in Hl as ->].
  rewrite Hl, expect_len_refl. cbn [obind].
  destruct (collect_out_of_range "l1s index" 4 src) as [[Hlt Hc]|[Hlt (e & Hc)]];
    [rewrite decide_True by done|rewrite decide_False by done].
  2:{ exists "l1s index", e. by rewrite Hc. }
  rewrite Hc. cbn [obind].
  assert (length src = (tiles * (nat_lanes * nat_lane))%nat) as Hlen
    by (rewrite <- elems_lanes; unfold len in Hl; lia).
  assert (Forall (is_digit 2) src) as Hdig by (apply below_digits; [done|done|lia]).
  change nat_tile with (nat_lanes * nat_lane)%nat.
  rewrite (tile_loop_Ok (is_digit 2) nat_lane ltac:(unfold nat_lane; lia) (plane_enc 2) _ tiles) by
    (done || intros; by apply index_lane_Ok).
  pose proof (lanewise_length (is_digit 2) nat_lane (plane_enc 2) 2 tiles src) as Hel.
  specialize (Hel ltac:(intros; by apply plane_lane) Hlen Hdig).
  set (bytes := lanewise nat_lane (plane_enc 2) tiles src) in *.
  assert (Forall is_byte bytes) as Hbytes.
  { unfold bytes, lanewise. apply Forall_concat, Forall_map, Forall_forall. intros c _.
    apply bytes_digits, digits_Forall. lia. }
  assert (len bytes = tile_count d * 64) as Hbl.
  { unfold len. rewrite Hel. unfold tiles, nat_lanes. lia. }
  exists bytes. split_and!; [done..|]. unfold l1s_unpack_indices, l1s_index_region_bytes.
  unfold L1S_KEPT_PER_TILE, L1S_INDEX_BYTES_PER_TILE in *. rewrite checked_mul_ok by lia. cbn [ok_or obind].
  rewrite Hbl, expect_len_refl. cbn [obind]. change (Z.to_nat 64) with (nat_lanes * 2)%nat.
  rewrite (tile_loop_Ok is_byte 2 ltac:(lia) (plane_dec 2) _ tiles) by
    (done || intros tile lane Hle Hf; rewrite (gather_Ok 8) by (done || lia); simpl; f_equal;
             apply (spread_eq 2); lia).
  f_equal. unfold bytes. apply (lanewise_roundtrip (is_digit 2) nat_lane 2); [done..|].
  intros c Hlc Hfc. by apply (plane_lane 2 c).
Qed.
End codecs.

(** Halves. *)
Lemma chunks_exact_concat {A} s (ls : list (list A)) :
  (0 < s)%nat → Forall (λ x, length x = s) ls → chunks_exact s (concat ls) = ls.
Proof.
  intros Hs Hf. rewrite (chunks_exact_eq (length ls)); [by apply chunks_concat|done|].
  by apply length_concat_const.
Qed.

Lemma halfs_roundtrip l : Forall is_u16 l → decode_halfs_le (encode_halfs_le l) = Ok l.
Proof.
  intros Hl. unfold decode_halfs_le, encode_halfs_le.
  assert (Forall (λ x, length x = 2%nat) (map (le_bytes 2) l)) as Hf
    by (apply Forall_map, Forall_forall; intros x _; apply length_le_bytes).
  assert (is_multiple_of (len (concat (map (le_bytes 2) l))) 2 = true) as ->.
  { unfold len, is_multiple_of. rewrite (length_concat_const 2) by done.
    rewrite Nat2Z.inj_mul, Z_mod_mult. done. }
  simpl. rewrite chunks_exact_concat by (done || lia). rewrite map_map.
  f_equal. rewrite <- (map_id l) at 2. apply map_ext_in. intros x Hx%list_elem_of_In.
  rewrite Forall_forall in Hl. apply (of_le_bytes_small 2). specialize (Hl x Hx). by unfold is_u16 in Hl.
Qed.

(** C17: packings lose nothing.  Over well-formed dimensions, nibbles, the
    bit planes of every width the format has and the indices of the sparse
    layout fit exactly the bytes per tile their packing declares and read
    back as they were packed; lists of the wrong length and values that do
    not fit are refused, the values with all their positions.  Sixteen-bit
    elements survive their little-endian bytes. *)
Theorem lane_codecs_lossless d :
  dims_ok d →
  codec_ok (λ src, l1_pack_nibbles src d) (λ bytes, l1_unpack_nibbles bytes d)
    16 (elems d) (tile_count d * tile_bytes Nibble4) ∧
  (∀ bits p, bit_planes bits = Ok p →
     codec_ok (λ src, l1_pack_planes src d bits) (λ bytes, l1_unpack_planes bytes d bits)
       (2 ^ bits) (elems d) (tile_count d * tile_bytes p)) ∧
  codec_ok (λ src, l1s_pack_indices src d) (λ bytes, l1s_unpack_indices bytes d)
    4 (elems d) (tile_count d * L1S_INDEX_BYTES_PER_TILE) ∧
  (∀ l, Forall is_u16 l → decode_halfs_le (encode_halfs_le l) = Ok l).
Proof.
  intros Hd. split_and!.
  - by apply nibbles_codec.
  - intros bits p Hp. destruct (bit_planes_Ok bits p Hp) as (_ & _ & -> & _). apply planes_codec; eauto.
  - by apply indices_codec.
  - apply halfs_roundtrip.
Qed.

Lemma lane_codecs_lossless_witness :
  let src := map (λ x, x mod 8) (zrange 0 256) in
  (∃ bytes, l1_pack_planes src one_tile 3 = Ok bytes ∧ len bytes = 96 ∧
            l1_unpack_planes bytes one_tile 3 = Ok src) ∧
  (∃ bytes, l1_pack_nibbles src one_tile = Ok bytes ∧ len bytes = 128 ∧
            l1_unpack_nibbles bytes one_tile = Ok src).
Proof.
  intros src. destruct (lane_codecs_lossless one_tile one_tile_ok) as (Hn & Hp & _).
  assert (Forall is_u16 src) as Hu.
  { apply Forall_map, Forall_forall. intros x _. pose proof (Z.mod_pos_bound x 8 eq_refl). split; lia. }
  assert (∀ m, 8 ≤ m → Forall (λ x, x < m) src) as Hlt.
  { intros m Hm. apply Forall_map, Forall_forall. intros x _. pose proof (Z.mod_pos_bound x 8 eq_refl). lia. }
  split.
  - specialize (Hp 3 (BitPlanes 3) eq_refl src Hu). rewrite decide_True in Hp by reflexivity.
    rewrite decide_True in Hp by (by apply Hlt). destruct Hp as (b & H1 & H2 & _ & H4). eauto.
  - specialize (Hn src Hu). rewrite decide_True in Hn by reflexivity.
    rewrite decide_True in Hn by (by apply Hlt). destruct Hn as (b & H1 & H2 & _ & H4). eauto.
Defined.
