(* ===== verification/Regions.v ===== *)
(** * Regions of a native tensor entry

    [entry_regions] of [crates/r9v-format/src/container.rs]: where the
    values, the scale records and the sparse indices of one tensor lie in its
    entry of whole 4 KiB pages. *)

From S2P Require Import Prelude Bytes Format Tiles Permute.

#[global] Open Scope Z_scope.

Definition NATIVE_ALIGNMENT : Z := 4096.
Definition SCALE_ALIGN : Z := 256.

(** [align_up] of [container.rs]: [align] is a nonzero power of two. *)
Definition align_up (value align : Z) : option Z :=
  v ← checked_add U64_MAX value (align - 1); Some (v / align * align).

Definition index_dims (d : PaddedDims) (kind : IqKind) : FormatResult PaddedDims :=
  let gran := index_granularity kind in
  if gran <=? 1
  then Err (SchemeMismatch (iq_kind_name kind) "packed-index iq type" (iq_kind_name kind))
  else if negb (is_multiple_of (pd_k d) gran)
  then Err (InvalidBlock "k" (pd_k d) "must be a multiple of the iq index granularity")
  else dims_new (pd_n d) (pd_k d / gran) None.

Definition iq_value_dims (d : PaddedDims) (kind : IqKind) : FormatResult PaddedDims :=
  match kind with
  | KIq4Nl | KIq4Xs => Ok d
  | _ => index_dims d kind
  end.

Record EntryRegions : Type := {
  er_values_offset : Z;
  er_values_bytes : Z;
  er_scales_offset : Z;
  er_scales_bytes : Z;
  er_indices_offset : Z;
  er_indices_bytes : Z;
  er_entry_bytes : Z;
}.

Definition offsets (r : EntryRegions) : list Z :=
  [er_values_offset r; er_scales_offset r; er_indices_offset r].

(** The schemes the sparse layout is defined for. *)
Definition is_native_scheme (s : SchemeId) : bool :=
  match s with I8R | I8B128 | I4K | E4M3B128 => true | _ => false end.

(** The values and indices of an [L1] or [L1S] entry. *)
Definition value_and_index_bytes (scheme : SchemeId) (layout : Layout) (d : PaddedDims)
    (superblock : option Z) (packing : Packing) : FormatResult (Z * Z) :=
  match layout with
  | L1S =>
      let* value_dims := l1s_value_dims d superblock in
      let* values := ok_or (checked_mul U64_MAX (tile_count value_dims) (tile_bytes packing))
                       (FmtOverflow "l1s values_bytes" (msg "tiles={}" [Num (tile_count value_dims)])) in
      let* indices := l1s_index_region_bytes (tile_count value_dims) in
      Ok (values, indices)
  | L0 | L1 =>
      let* value_dims := match scheme_iq_kind scheme with
                         | Some kind => iq_value_dims d kind
                         | None => Ok d
                         end in
      let* values := value_region_bytes value_dims packing in
      Ok (values, 0)
  end.

Definition entry_regions (scheme : SchemeId) (layout : Layout) (n k : Z) : FormatResult EntryRegions :=
  match layout with
  | L0 =>
      let* (bits, _) := repack_bits_per_weight scheme k in
      let row_bytes := bits / 8 in
      let* values := l0_region_bytes n row_bytes in
      let* entry := ok_or (align_up values NATIVE_ALIGNMENT)
                      (FmtOverflow "l0 entry_bytes" (msg "values_bytes={values_bytes}" [Num values])) in
      Ok {| er_values_offset := 0; er_values_bytes := values; er_scales_offset := entry; er_scales_bytes := 0;
            er_indices_offset := entry; er_indices_bytes := 0; er_entry_bytes := entry |}
  | L1 | L1S =>
      if bool_decide (layout = L1S) && negb (is_native_scheme scheme)
      then Err (UnsupportedLayout (scheme_name scheme) (layout_name layout))
      else
        let* superblock := repack_outer_block scheme in
        let* d := dims_new n k superblock in
        let* packing := repack_packing scheme in
        let* record_bytes := repack_record_bytes scheme in
        let block := default (k_padded d) superblock in
        let* (n_blocks, k_blocks) := scale_block_counts d block in
        let* records := scale_record_count n_blocks k_blocks in
        let* scales := scale_region_bytes records record_bytes in
        let* (values, indices) := value_and_index_bytes scheme layout d superblock packing in
        let* scales_offset := ok_or (align_up values SCALE_ALIGN)
          (FmtOverflow "scales_offset" (msg "values_bytes={values_bytes}" [Num values])) in
        let* indices_offset := ok_or (checked_add U64_MAX scales_offset scales)
          (FmtOverflow "indices_offset" (msg "scales_offset={scales_offset} scales_bytes={scales_bytes}"
             [Num scales_offset; Num scales])) in
        let* end_ := ok_or (checked_add U64_MAX indices_offset indices)
          (FmtOverflow "entry_bytes" (msg "indices_offset={indices_offset} indices_bytes={indices_bytes}"
             [Num indices_offset; Num indices])) in
        let* entry := ok_or (align_up end_ NATIVE_ALIGNMENT)
          (FmtOverflow "entry_bytes" (msg "regions_end={indices_offset}+{indices_bytes} align={NATIVE_ALIGNMENT}"
             [Num indices_offset; Num indices; Num NATIVE_ALIGNMENT])) in
        Ok {| er_values_offset := 0; er_values_bytes := values; er_scales_offset := scales_offset;
              er_scales_bytes := scales;
              er_indices_offset := if bool_decide (layout = L1S) then indices_offset else entry;
              er_indices_bytes := indices; er_entry_bytes := entry |}
  end.

(** ** Proofs *)

Lemma align_up_Some value align r :
  0 ≤ value → 0 < align → align_up value align = Some r →
  value ≤ r < value + align ∧ r mod align = 0 ∧ r ≤ U64_MAX.
Proof.
  intros Hv Ha. unfold align_up. destruct (checked_add _ _ _) as [v|] eqn:Hc; [|done]. simpl. intros [= <-].
  apply checked_add_Some in Hc as [-> Hm]. rewrite Z.mod_mul by lia.
  pose proof (Z.div_mod (value + (align - 1)) align ltac:(lia)).
  pose proof (Z.mod_pos_bound (value + (align - 1)) align ltac:(lia)). lia.
Qed.

Lemma align_up_ok value align :
  0 ≤ value → 0 < align → value + (align - 1) ≤ U64_MAX → ∃ r, align_up value align = Some r.
Proof. intros. unfold align_up. rewrite checked_add_ok by done. eauto. Qed.

(** What is already aligned stays. *)
Lemma align_up_aligned value align :
  0 ≤ value → 0 < align → value mod align = 0 → value + (align - 1) ≤ U64_MAX → align_up value align = Some value.
Proof.
  intros Hv Ha Hm Hmax. destruct (align_up_ok value align) as [r Hr]; [done..|]. rewrite Hr. f_equal.
  apply align_up_Some in Hr as (? & Hrm & _); [|done..].
  apply Z.mod_divide in Hm as [q ->]; [|lia]. apply Z.mod_divide in Hrm as [p ->]; [|lia].
  assert (p = q) as ->; [nia|done].
Qed.

Lemma bits_per_weight_total s k : repack_bits_per_weight s k ≠ Panic.
Proof.
  unfold repack_bits_per_weight, bits_per_weight. destruct s; simpl; repeat case_match; simpl; auto with total.
Qed.
Lemma repack_outer_block_total s : repack_outer_block s ≠ Panic.
Proof. by destruct s. Qed.
Lemma repack_packing_total s : repack_packing s ≠ Panic.
Proof. by destruct s. Qed.
Lemma repack_record_bytes_total s : repack_record_bytes s ≠ Panic.
Proof. by destruct s. Qed.
Lemma scale_block_counts_total d b : scale_block_counts d b ≠ Panic.
Proof. unfold scale_block_counts. repeat case_match; done. Qed.
Lemma scale_region_bytes_total r b : scale_region_bytes r b ≠ Panic.
Proof. unfold scale_region_bytes. case_match; auto with total. Qed.
Lemma scale_record_count_total n k : scale_record_count n k ≠ Panic.
Proof. unfold scale_record_count. auto with total. Qed.
Lemma l0_region_bytes_total n k : l0_region_bytes n k ≠ Panic.
Proof. unfold l0_region_bytes. case_match; auto with total. Qed.
Lemma value_region_bytes_total d p : value_region_bytes d p ≠ Panic.
Proof. unfold value_region_bytes. auto with total. Qed.
Lemma l1s_value_dims_total d s : l1s_value_dims d s ≠ Panic.
Proof. unfold l1s_value_dims. auto with total. Qed.
Lemma iq_value_dims_total d k : iq_value_dims d k ≠ Panic.
Proof. unfold iq_value_dims, index_dims. repeat case_match; auto with total. Qed.
#[export] Hint Resolve bits_per_weight_total repack_outer_block_total repack_packing_total
  repack_record_bytes_total scale_block_counts_total scale_region_bytes_total scale_record_count_total
  l0_region_bytes_total value_region_bytes_total l1s_value_dims_total iq_value_dims_total : total.

Lemma value_and_index_total s l d b p : value_and_index_bytes s l d b p ≠ Panic.
Proof.
  unfold value_and_index_bytes, l1s_index_region_bytes.
  destruct l; repeat first [apply obind_total; [|intros]]; auto with total.
  all: case_match; auto with total.
Qed.
#[export] Hint Resolve value_and_index_total : total.

Lemma entry_regions_total s l n k : entry_regions s l n k ≠ Panic.
Proof.
  unfold entry_regions. destruct l; [|destruct (_ && _); [done|]..].
  all: repeat first [apply obind_total; [auto with total|intros [? ?] _]
                    |apply obind_total; [auto with total|intros ? _]]; auto with total.
Qed.

Lemma ok_or_Ok {E A} (o : option A) (e : E) a : ok_or o e = Ok a ↔ o = Some a.
Proof. destruct o; simpl; naive_solver. Qed.

Lemma outer_block_pos s b : repack_outer_block s = Ok (Some b) → 0 ≤ b.
Proof. destruct s; simpl; intros [= <-]; lia. Qed.

Lemma l1s_value_dims_ok d sb d' :
  dims_ok d → (∀ s, sb = Some s → 0 ≤ s) → l1s_value_dims d sb = Ok d' → dims_ok d'.
Proof.
  intros Hd Hs. unfold l1s_value_dims. intros ([] & _ & H)%obind_Ok_inv. destruct Hd.
  apply dims_new_Ok in H as [? _]; [done|lia|apply Z.div_pos; lia|].
  intros s. destruct sb as [t|]; [|done]. simpl. specialize (Hs t eq_refl). case_match; [done|].
  intros [= <-]. apply Z.div_pos; lia.
Qed.

Lemma iq_value_dims_ok d k d' : dims_ok d → iq_value_dims d k = Ok d' → dims_ok d'.
Proof.
  intros Hd. unfold iq_value_dims. assert (index_dims d k = Ok d' → dims_ok d') as Hi.
  { unfold index_dims. case_match; [done|]. case_match; [done|]. destruct Hd.
    intros H'. apply dims_new_Ok in H' as [? _]; [done|lia| |done].
    apply Z.div_pos; [lia|]. destruct k; simpl; lia. }
  destruct k; try done; by intros [= <-].
Qed.

Lemma tile_bytes_pos scheme p : repack_packing scheme = Ok p → 0 < tile_bytes p.
Proof. unfold repack_packing. destruct scheme; simpl; intros [= <-]; done. Qed.

Lemma value_and_index_Ok s l d sb p v i :
  dims_ok d → (∀ b, sb = Some b → 0 ≤ b) → repack_packing s = Ok p →
  value_and_index_bytes s l d sb p = Ok (v, i) → 0 < v ∧ 0 ≤ i ∧ (l ≠ L1S → i = 0).
Proof.
  intros Hd Hsb Hp%tile_bytes_pos. unfold value_and_index_bytes. intros H.
  assert (∀ d', dims_ok d' → 0 < tile_count d') as Htc.
  { intros d' Hd'. pose proof (n_tiles_pos d' Hd'). pose proof (k_tiles_pos d' Hd'). unfold tile_count. nia. }
  destruct l.
  3:{ apply obind_Ok_inv in H as (vd & Hvd & (x & Hx%ok_or_Ok & (y & Hy%ok_or_Ok & [= <- <-])%obind_Ok_inv)%obind_Ok_inv).
      apply l1s_value_dims_ok in Hvd; [|done..]. specialize (Htc _ Hvd).
      apply checked_mul_Some in Hx as [-> _]. apply checked_mul_Some in Hy as [-> _].
      unfold L1S_INDEX_BYTES_PER_TILE. split_and!; [nia|lia|done]. }
  all: apply obind_Ok_inv in H as (vd & Hvd & (x & Hx%ok_or_Ok & [= <- <-])%obind_Ok_inv).
  all: assert (dims_ok vd) as Hvd' by (destruct (scheme_iq_kind s); [by eapply iq_value_dims_ok|by simplify_eq]).
  all: specialize (Htc _ Hvd'); apply checked_mul_Some in Hx as [-> _]; split_and!; [nia|lia|done].
Qed.

Lemma l0_bytes_pos scheme k bits wt n values :
  0 ≤ n → 0 ≤ k → repack_bits_per_weight scheme k = Ok (bits, wt) → l0_region_bytes n (bits / 8) = Ok values →
  0 < values.
Proof.
  intros Hn Hk Hb Hv. unfold l0_region_bytes in Hv. destruct (Z.eqb_spec n 0) as [|Hn0]; [done|].
  apply ok_or_Ok, checked_mul_Some in Hv as [-> _].
  assert (8 ≤ bits); [|assert (1 ≤ bits / 8) by (apply Z.div_le_lower_bound; lia); nia].
  unfold repack_bits_per_weight, bits_per_weight in Hb.
  destruct scheme; simpl in Hb; destruct (Z.eqb_spec k 0) as [|Hk0]; simpl in Hb; try done.
  all: try (destruct (negb _) eqn:Hm in Hb; [done|]; apply negb_false_iff, Z.eqb_eq in Hm).
  all: apply obind_Ok_inv in Hb as (b & Hb%ok_or_Ok & [= -> _]).
  all: try (destruct (checked_mul _ k 8) eqn:Hc in Hb; [|done]; apply checked_mul_Some in Hc as [-> _];
            simpl in Hb; apply checked_add_Some in Hb as [-> _]; lia).
  all: apply checked_mul_Some in Hb as [-> _].
  all: match type of Hm with _ mod ?b = 0 => pose proof (Z.div_mod k b ltac:(lia)) end; lia.
Qed.

Lemma scale_bytes_nonneg d b nb kb rec rb scales :
  dims_ok d → (∀ s, b = Some s → 0 ≤ s) → scale_block_counts d (default (k_padded d) b) = Ok (nb, kb) →
  scale_record_count nb kb = Ok rec → (∃ s, repack_record_bytes s = Ok rb) →
  scale_region_bytes rec rb = Ok scales → 0 ≤ scales.
Proof.
  intros Hd Hb Hc Hrec [s Hrb] Hsc. unfold scale_block_counts in Hc.
  destruct (_ || _) eqn:Ho in Hc; [done|]. destruct (negb _) in Hc; [done|]. injection Hc as <- <-.
  assert (0 ≤ default (k_padded d) b) as Hb0.
  { destruct b; simpl; [by apply Hb|]. pose proof (do_k d Hd). lia. }
  apply orb_false_iff in Ho as [Hne%Z.eqb_neq _].
  pose proof (n_tiles_pos d Hd). pose proof (do_k d Hd).
  assert (0 ≤ k_padded d / default (k_padded d) b) by (apply Z.div_pos; lia).
  unfold scale_record_count in Hrec. apply ok_or_Ok in Hrec.
  destruct (checked_mul _ (n_tiles d) _) as [x|] eqn:Hx; [|done]. apply checked_mul_Some in Hx as [-> _].
  simpl in Hrec. apply checked_mul_Some in Hrec as [-> _].
  unfold scale_region_bytes in Hsc. destruct (rb =? 0); [done|].
  apply ok_or_Ok, checked_mul_Some in Hsc as [-> _].
  assert (0 ≤ rb) by (destruct s; injection Hrb as <-; lia). unfold TILE_N. nia.
Qed.

(** C18: the regions of an entry.  For every scheme, layout and shape,
    [entry_regions] either reports an error or places values, scales and
    indices in this order without overlap, scales on a 256-byte boundary, in
    an entry of whole 4 KiB pages less than one page longer than they need;
    absent regions are empty and point at the end.  It never panics. *)
Theorem entry_regions_sound scheme layout n k :
  is_u32 n → is_u32 k →
  match entry_regions scheme layout n k with
  | Ok r =>
      er_values_offset r = 0 ∧ 0 < er_values_bytes r ≤ er_scales_offset r ∧
      er_scales_offset r mod SCALE_ALIGN = 0 ∧ 0 ≤ er_scales_bytes r ∧
      er_scales_offset r + er_scales_bytes r ≤ er_indices_offset r ∧ 0 ≤ er_indices_bytes r ∧
      er_indices_offset r + er_indices_bytes r ≤ er_entry_bytes r ∧
      er_entry_bytes r mod NATIVE_ALIGNMENT = 0 ∧ er_entry_bytes r ≤ U64_MAX ∧
      (layout ≠ L1S → er_indices_bytes r = 0 ∧ er_indices_offset r = er_entry_bytes r) ∧
      (layout = L0 → er_scales_bytes r = 0 ∧ er_scales_offset r = er_entry_bytes r ∧
                     er_entry_bytes r < er_values_bytes r + NATIVE_ALIGNMENT) ∧
      (layout ≠ L0 → er_scales_offset r < er_values_bytes r + SCALE_ALIGN ∧
         er_entry_bytes r < er_scales_offset r + er_scales_bytes r + er_indices_bytes r + NATIVE_ALIGNMENT)
  | Err _ => True
  | Panic => False
  end.
Proof.
  intros [Hn _] [Hk _]. pose proof (entry_regions_total scheme layout n k) as Ht.
  destruct (entry_regions scheme layout n k) as [r| |] eqn:Hr; [clear Ht|done|done].
  unfold NATIVE_ALIGNMENT, SCALE_ALIGN. destruct (decide (layout = L0)) as [->|Hl0].
  - unfold entry_regions in Hr. apply obind_Ok_inv in Hr as ([bits wt] & Hb & Hr).
    apply obind_Ok_inv in Hr as (values & Hvs & (entry & Hen%ok_or_Ok & [= <-])%obind_Ok_inv).
    assert (0 < values) as Hv by exact (l0_bytes_pos scheme k bits wt n values Hn Hk Hb Hvs).
    apply align_up_Some in Hen as (? & Hm & ?); [|unfold NATIVE_ALIGNMENT; lia..].
    unfold NATIVE_ALIGNMENT in *. cbn. split_and!; intros; split_and?; try done; try lia.
    apply Z.mod_divide in Hm as [q ->]; [|lia]. apply Z.mod_divide; [lia|]. exists (16 * q). lia.
  - assert (entry_regions scheme layout n k = Ok r) as Hr' by done.
    unfold entry_regions in Hr.
    destruct layout; [done|..]; (destruct (_ && _); [done|]).
    all: apply obind_Ok_inv in Hr as (sb & Hsb & Hr); apply obind_Ok_inv in Hr as (d & Hd & Hr);
         apply obind_Ok_inv in Hr as (p & Hp & Hr); apply obind_Ok_inv in Hr as (rb & Hrb & Hr);
         apply obind_Ok_inv in Hr as ([nb kb] & Hc & Hr); apply obind_Ok_inv in Hr as (recs & Hrec & Hr);
         apply obind_Ok_inv in Hr as (scales & Hsc & Hr); apply obind_Ok_inv in Hr as ([v i] & Hvi & Hr);
         apply obind_Ok_inv in Hr as (so & Hso%ok_or_Ok & Hr); apply obind_Ok_inv in Hr as (io & Hio%ok_or_Ok & Hr);
         apply obind_Ok_inv in Hr as (e & He%ok_or_Ok & Hr); apply obind_Ok_inv in Hr as (en & Hen%ok_or_Ok & [= <-]).
    all: assert (∀ b, sb = Some b → 0 ≤ b) as Hb by (intros b ->; by eapply outer_block_pos).
    all: apply dims_new_Ok in Hd as (Hd & _); [|done..].
    all: apply value_and_index_Ok in Hvi as (Hv & Hi & Hi0); [|done..].
    all: assert (0 ≤ scales) as Hsc0 by (eapply scale_bytes_nonneg; eauto).
    all: apply align_up_Some in Hso as (? & Hsm & ?); [|unfold SCALE_ALIGN; lia..].
    all: apply checked_add_Some in Hio as [-> ?]; apply checked_add_Some in He as [-> ?].
    all: apply align_up_Some in Hen as (? & Hem & ?); [|unfold NATIVE_ALIGNMENT, SCALE_ALIGN in *; lia..].
    all: unfold NATIVE_ALIGNMENT, SCALE_ALIGN in *; cbn.
    all: split_and!; intros; split_and?; try done; try lia; specialize (Hi0 ltac:(discriminate)); lia.
Qed.

Lemma entry_regions_sound_witness :
  entry_regions I4K L1 40 1000 =
    Ok {| er_values_offset := 0; er_values_bytes := 24576; er_scales_offset := 24576; er_scales_bytes := 3072;
          er_indices_offset := 28672; er_indices_bytes := 0; er_entry_bytes := 28672 |} ∧
  24576 mod SCALE_ALIGN = 0.
Proof.
  pose proof (entry_regions_sound I4K L1 40 1000 ltac:(vm_compute; split; discriminate)
                ltac:(vm_compute; split; discriminate)) as H.
  assert (entry_regions I4K L1 40 1000 =
    Ok {| er_values_offset := 0; er_values_bytes := 24576; er_scales_offset := 24576; er_scales_bytes := 3072;
          er_indices_offset := 28672; er_indices_bytes := 0; er_entry_bytes := 28672 |}) as E by reflexivity.
  rewrite E in H. split; [exact E|]. destruct H as (_ & _ & H & _). exact H.
Defined.
