(* ===== verification/Gguf.v ===== *)
(** * GGUF values and tables

    The data of [crates/r9v-format/src/container.rs]: metadata types and
    values, tensor types with their wire sizes, the bounds-checked cursor
    that decodes them and the writer's encoders. *)

From S2P Require Import Prelude Bytes Format Tiles Permute Regions.

#[global] Open Scope Z_scope.

Definition GGUF_MAGIC : Z := 1179993927.
Definition GGUF_VERSION : Z := 3.
Definition GGUF_VERSIONS_ACCEPTED : list Z := [2; 3].
Definition GGUF_DEFAULT_ALIGNMENT : Z := 32.
Definition R9V_FORMAT_VERSION : Z := 1.
Definition R9V_TENSOR_TYPE_BASE : Z := 1000.

(** ** Metadata types and values *)

Inductive KvType : Type :=
| KtU8 | KtI8 | KtU16 | KtI16 | KtU32 | KtI32 | KtF32 | KtBool | KtStr | KtArray | KtU64 | KtI64 | KtF64.

#[global] Instance KvType_eq_dec : EqDecision KvType.
Proof. solve_decision. Defined.

Definition kv_code (t : KvType) : Z :=
  match t with
  | KtU8 => 0 | KtI8 => 1 | KtU16 => 2 | KtI16 => 3 | KtU32 => 4 | KtI32 => 5 | KtF32 => 6 | KtBool => 7
  | KtStr => 8 | KtArray => 9 | KtU64 => 10 | KtI64 => 11 | KtF64 => 12
  end.

Definition kv_from_code (code offset : Z) : FormatResult KvType :=
  match code with
  | 0 => Ok KtU8 | 1 => Ok KtI8 | 2 => Ok KtU16 | 3 => Ok KtI16 | 4 => Ok KtU32 | 5 => Ok KtI32
  | 6 => Ok KtF32 | 7 => Ok KtBool | 8 => Ok KtStr | 9 => Ok KtArray | 10 => Ok KtU64 | 11 => Ok KtI64
  | 12 => Ok KtF64
  | _ => Err (Malformed offset (msg "unknown GGUF metadata type code {code}" [Num code]))
  end.

Definition kv_type_name (t : KvType) : string :=
  match t with
  | KtU8 => "UINT8" | KtI8 => "INT8" | KtU16 => "UINT16" | KtI16 => "INT16" | KtU32 => "UINT32"
  | KtI32 => "INT32" | KtF32 => "FLOAT32" | KtBool => "BOOL" | KtStr => "STRING" | KtArray => "ARRAY"
  | KtU64 => "UINT64" | KtI64 => "INT64" | KtF64 => "FLOAT64"
  end.

(** Floats are their bit patterns, strings their UTF-8 bytes. *)
Inductive KvValue : Type :=
| VU8 (v : Z) | VI8 (v : Z) | VU16 (v : Z) | VI16 (v : Z) | VU32 (v : Z) | VI32 (v : Z) | VF32 (v : Z)
| VBool (v : bool) | VStr (s : list Z) | VArray (elem : KvType) (items : list KvValue)
| VU64 (v : Z) | VI64 (v : Z) | VF64 (v : Z).

Definition kv_type (v : KvValue) : KvType :=
  match v with
  | VU8 _ => KtU8 | VI8 _ => KtI8 | VU16 _ => KtU16 | VI16 _ => KtI16 | VU32 _ => KtU32 | VI32 _ => KtI32
  | VF32 _ => KtF32 | VBool _ => KtBool | VStr _ => KtStr | VArray _ _ => KtArray | VU64 _ => KtU64
  | VI64 _ => KtI64 | VF64 _ => KtF64
  end.

Fixpoint encoded_len (v : KvValue) : Z :=
  match v with
  | VU8 _ | VI8 _ | VBool _ => 1
  | VU16 _ | VI16 _ => 2
  | VU32 _ | VI32 _ | VF32 _ => 4
  | VU64 _ | VI64 _ | VF64 _ => 8
  | VStr s => 8 + len s
  | VArray _ items => foldl (λ n item, n + encoded_len item) (4 + 8) items
  end.

Record KvEntry : Type := { key : list Z; value : KvValue }.

(** ** Tensor types *)

Inductive TensorType : Type :=
| TF32 | TF16 | TQ4_0 | TQ4_1 | TQ5_0 | TQ5_1 | TQ8_0 | TQ8_1 | TQ2_K | TQ3_K | TQ4_K | TQ5_K | TQ6_K | TQ8_K
| TIQ2_XXS | TIQ2_XS | TIQ3_XXS | TIQ1_S | TIQ4_NL | TIQ3_S | TIQ2_S | TIQ4_XS | TI8 | TI16 | TI32 | TI64
| TF64 | TIQ1_M | TBF16 | TTQ1_0 | TTQ2_0 | TMXFP4 | TNVFP4 | TQ1_0
| R9v (scheme : SchemeId)
| Unknown (code : Z).

#[global] Instance TensorType_eq_dec : EqDecision TensorType.
Proof. solve_decision. Defined.

(** [R9vTensorType::code] and [from_code]. *)
Definition r9v_code (s : SchemeId) : Z := R9V_TENSOR_TYPE_BASE + scheme_code s.
Definition r9v_from_code (code : Z) : option SchemeId :=
  if code <=? R9V_TENSOR_TYPE_BASE then None
  else match scheme_from_code (code - R9V_TENSOR_TYPE_BASE) with Ok s => Some s | _ => None end.

Definition tensor_code (t : TensorType) : Z :=
  match t with
  | TF32 => 0 | TF16 => 1 | TQ4_0 => 2 | TQ4_1 => 3 | TQ5_0 => 6 | TQ5_1 => 7 | TQ8_0 => 8 | TQ8_1 => 9
  | TQ2_K => 10 | TQ3_K => 11 | TQ4_K => 12 | TQ5_K => 13 | TQ6_K => 14 | TQ8_K => 15 | TIQ2_XXS => 16
  | TIQ2_XS => 17 | TIQ3_XXS => 18 | TIQ1_S => 19 | TIQ4_NL => 20 | TIQ3_S => 21 | TIQ2_S => 22
  | TIQ4_XS => 23 | TI8 => 24 | TI16 => 25 | TI32 => 26 | TI64 => 27 | TF64 => 28 | TIQ1_M => 29
  | TBF16 => 30 | TTQ1_0 => 34 | TTQ2_0 => 35 | TMXFP4 => 39 | TNVFP4 => 40 | TQ1_0 => 41
  | R9v s => r9v_code s
  | Unknown code => code
  end.

Definition tensor_from_code (code : Z) : TensorType :=
  match code with
  | 0 => TF32 | 1 => TF16 | 2 => TQ4_0 | 3 => TQ4_1 | 6 => TQ5_0 | 7 => TQ5_1 | 8 => TQ8_0 | 9 => TQ8_1
  | 10 => TQ2_K | 11 => TQ3_K | 12 => TQ4_K | 13 => TQ5_K | 14 => TQ6_K | 15 => TQ8_K | 16 => TIQ2_XXS
  | 17 => TIQ2_XS | 18 => TIQ3_XXS | 19 => TIQ1_S | 20 => TIQ4_NL | 21 => TIQ3_S | 22 => TIQ2_S
  | 23 => TIQ4_XS | 24 => TI8 | 25 => TI16 | 26 => TI32 | 27 => TI64 | 28 => TF64 | 29 => TIQ1_M
  | 30 => TBF16 | 34 => TTQ1_0 | 35 => TTQ2_0 | 39 => TMXFP4 | 40 => TNVFP4 | 41 => TQ1_0
  | _ => match r9v_from_code code with Some s => R9v s | None => Unknown code end
  end.

(** [TensorType::name], in pieces. *)
Definition tensor_type_name (t : TensorType) : list Arg :=
  match t with
  | TF32 => [Name "F32"] | TF16 => [Name "F16"] | TQ4_0 => [Name "Q4_0"] | TQ4_1 => [Name "Q4_1"]
  | TQ5_0 => [Name "Q5_0"] | TQ5_1 => [Name "Q5_1"] | TQ8_0 => [Name "Q8_0"] | TQ8_1 => [Name "Q8_1"]
  | TQ2_K => [Name "Q2_K"] | TQ3_K => [Name "Q3_K"] | TQ4_K => [Name "Q4_K"] | TQ5_K => [Name "Q5_K"]
  | TQ6_K => [Name "Q6_K"] | TQ8_K => [Name "Q8_K"] | TIQ2_XXS => [Name "IQ2_XXS"]
  | TIQ2_XS => [Name "IQ2_XS"] | TIQ3_XXS => [Name "IQ3_XXS"] | TIQ1_S => [Name "IQ1_S"]
  | TIQ4_NL => [Name "IQ4_NL"] | TIQ3_S => [Name "IQ3_S"] | TIQ2_S => [Name "IQ2_S"]
  | TIQ4_XS => [Name "IQ4_XS"] | TI8 => [Name "I8"] | TI16 => [Name "I16"] | TI32 => [Name "I32"]
  | TI64 => [Name "I64"] | TF64 => [Name "F64"] | TIQ1_M => [Name "IQ1_M"] | TBF16 => [Name "BF16"]
  | TTQ1_0 => [Name "TQ1_0"] | TTQ2_0 => [Name "TQ2_0"] | TMXFP4 => [Name "MXFP4"]
  | TNVFP4 => [Name "NVFP4"] | TQ1_0 => [Name "Q1_0"]
  | R9v s => [Name "R9V_"; Name (scheme_name s)]
  | Unknown code => [Name "UNKNOWN_"; Num code]
  end.

Definition quant_size (t : TensorType) : option (Z * Z) :=
  match t with
  | TF32 => Some (1, 4) | TF16 => Some (1, 2) | TQ4_0 => Some (32, 18) | TQ4_1 => Some (32, 20)
  | TQ5_0 => Some (32, 22) | TQ5_1 => Some (32, 24) | TQ8_0 => Some (32, 34) | TQ8_1 => Some (32, 40)
  | TQ2_K => Some (256, 84) | TQ3_K => Some (256, 110) | TQ4_K => Some (256, 144) | TQ5_K => Some (256, 176)
  | TQ6_K => Some (256, 210) | TQ8_K => Some (256, 292) | TIQ2_XXS => Some (256, 66)
  | TIQ2_XS => Some (256, 74) | TIQ3_XXS => Some (256, 98) | TIQ1_S => Some (256, 50)
  | TIQ4_NL => Some (32, 18) | TIQ3_S => Some (256, 110) | TIQ2_S => Some (256, 82)
  | TIQ4_XS => Some (256, 136) | TI8 => Some (1, 1) | TI16 => Some (1, 2) | TI32 => Some (1, 4)
  | TI64 => Some (1, 8) | TF64 => Some (1, 8) | TIQ1_M => Some (256, 56) | TBF16 => Some (1, 2)
  | TTQ1_0 => Some (256, 54) | TTQ2_0 => Some (256, 66) | TMXFP4 => Some (32, 17) | TNVFP4 => Some (64, 36)
  | TQ1_0 => Some (128, 18)
  | R9v _ | Unknown _ => None
  end.

(** [for d in dims { p = p.checked_mul(d)?; }] from one. *)
Definition checked_product (dims : list Z) : option Z :=
  foldl (λ acc d, p ← acc; checked_mul U64_MAX p d) (Some 1) dims.

Definition data_nbytes (t : TensorType) (dims : list Z) : option Z :=
  '(block_len, block_bytes) ← quant_size t;
  match dims with
  | [] => None
  | d0 :: _ =>
      if existsb (λ d, d =? 0) dims then None
      else if (block_len =? 0) || negb (is_multiple_of d0 block_len) then None
      else
        elems ← checked_product dims;
        blocks ← checked_div elems block_len;
        checked_mul U64_MAX blocks block_bytes
  end.

(** [TensorInfo]; [dims] innermost first, as in the file. *)
Record TensorInfo : Type := { t_name : list Z; t_dims : list Z; t_dtype : TensorType; t_offset : Z }.

Definition shape (t : TensorInfo) : list Z := rev (t_dims t).
Definition n_elems (t : TensorInfo) : option Z := checked_product (t_dims t).

(** ** The cursor *)

Record Cursor : Type := { c_bytes : list Z; c_pos : Z }.
Abbreviation reader := (stm Cursor FormatError).

Definition remaining (c : Cursor) : Z := len (c_bytes c) - c_pos c.

Definition take_bytes (n : Z) (what : string) : reader (list Z) :=
  λ c, if remaining c <? n then (Err (Truncated (c_pos c) n what), c)
       else (Ok (take (Z.to_nat n) (drop (Z.to_nat (c_pos c)) (c_bytes c))),
             {| c_bytes := c_bytes c; c_pos := c_pos c + n |}).

(** [from_le_bytes] of the next [n] bytes. *)
Definition read_uint (n : Z) (what : string) : reader Z :=
  let! b := take_bytes n what in sret (of_le_bytes b).
Definition read_u8 : string → reader Z := read_uint 1.
Definition read_u16 : string → reader Z := read_uint 2.
Definition read_u32 : string → reader Z := read_uint 4.
Definition read_u64 : string → reader Z := read_uint 8.

(** [x as i8] and the like, from the unsigned integer of [w] bits. *)
Definition as_signed (w x : Z) : Z := if x <? 2 ^ (w - 1) then x else x - 2 ^ w.
Definition read_i8 (what : string) : reader Z := let! x := read_u8 what in sret (as_signed 8 x).
Definition read_i16 (what : string) : reader Z := let! x := read_u16 what in sret (as_signed 16 x).
Definition read_i32 (what : string) : reader Z := let! x := read_u32 what in sret (as_signed 32 x).
Definition read_i64 (what : string) : reader Z := let! x := read_u64 what in sret (as_signed 64 x).
Definition read_f32 (what : string) : reader Z := read_u32 what.
Definition read_f64 (what : string) : reader Z := read_u64 what.

Definition read_bool (what : string) : reader bool :=
  let! c := sget in
  let! b := read_u8 what in
  match b with
  | 0 => sret false
  | 1 => sret true
  | v => sfail (Malformed (c_pos c) (msg "BOOL value {v} is not 0 or 1" [Num v]))
  end.

Definition read_str (what : string) : reader (list Z) :=
  let! c := sget in
  let! n := read_u64 "string length" in
  let! raw := take_bytes n what in
  if from_utf8 raw then sret raw
  else sfail (Malformed (c_pos c) (msg "invalid UTF-8 in {what}: {e}" [Name what])).

Definition read_scalar (ty : KvType) : reader KvValue :=
  match ty with
  | KtU8 => let! v := read_u8 "u8 value" in sret (VU8 v)
  | KtI8 => let! v := read_i8 "i8 value" in sret (VI8 v)
  | KtU16 => let! v := read_u16 "u16 value" in sret (VU16 v)
  | KtI16 => let! v := read_i16 "i16 value" in sret (VI16 v)
  | KtU32 => let! v := read_u32 "u32 value" in sret (VU32 v)
  | KtI32 => let! v := read_i32 "i32 value" in sret (VI32 v)
  | KtF32 => let! v := read_f32 "f32 value" in sret (VF32 v)
  | KtBool => let! v := read_bool "bool value" in sret (VBool v)
  | KtStr => let! s := read_str "string value" in sret (VStr s)
  | KtU64 => let! v := read_u64 "u64 value" in sret (VU64 v)
  | KtI64 => let! v := read_i64 "i64 value" in sret (VI64 v)
  | KtF64 => let! v := read_f64 "f64 value" in sret (VF64 v)
  | KtArray =>
      let! c := sget in
      sfail (Malformed (c_pos c) (msg "nested arrays are not valid GGUF metadata" []))
  end.

(** [while i < n { items.push(read()?); i += 1; }].  Every read of the format
    takes at least one byte or fails, so one more turn than there are bytes
    is fuel enough; running out of it would be a [Panic]. *)
Fixpoint read_loop {A} (fuel : nat) (n : Z) (read : reader A) : reader (list A) :=
  if n <=? 0 then sret []
  else match fuel with
       | O => spanic
       | S fuel =>
           let! x := read in
           let! xs := read_loop fuel (n - 1) read in
           sret (x :: xs)
       end.

Definition read_many {A} (n : Z) (read : reader A) : reader (list A) :=
  let! c := sget in read_loop (S (length (c_bytes c))) n read.

Definition read_value (ty : KvType) : reader KvValue :=
  match ty with
  | KtArray =>
      let! c := sget in
      let! code := read_u32 "array element type" in
      let! elem := slift (kv_from_code code (c_pos c)) in
      let! n := read_u64 "array length" in
      let! items := read_many n (read_scalar elem) in
      sret (VArray elem items)
  | ty => read_scalar ty
  end.

(** One entry of the metadata table, and one row of the tensor table. *)
Definition read_kv : reader KvEntry :=
  let! k := read_str "metadata key" in
  let! c := sget in
  let! code := read_u32 "metadata type" in
  let! ty := slift (kv_from_code code (c_pos c)) in
  let! v := read_value ty in
  sret {| key := k; value := v |}.

Definition read_tensor : reader TensorInfo :=
  let! name := read_str "tensor name" in
  let! n_dims := read_u32 "tensor dimension count" in
  let! dims := read_many n_dims (read_u64 "tensor dimension") in
  let! code := read_u32 "tensor type" in
  let! offset := read_u64 "tensor offset" in
  sret {| t_name := name; t_dims := dims; t_dtype := tensor_from_code code; t_offset := offset |}.

(** ** Encoders *)

Definition encode_str (s : list Z) : list Z := le_bytes 8 (len s) ++ s.

Fixpoint encode_value (v : KvValue) : list Z :=
  match v with
  | VU8 v | VI8 v => le_bytes 1 v
  | VU16 v | VI16 v => le_bytes 2 v
  | VU32 v | VI32 v | VF32 v => le_bytes 4 v
  | VBool v => [if v then 1 else 0]
  | VStr s => encode_str s
  | VArray elem items => le_bytes 4 (kv_code elem) ++ le_bytes 8 (len items) ++ concat (map encode_value items)
  | VU64 v | VI64 v | VF64 v => le_bytes 8 v
  end.

Definition encode_kv (e : KvEntry) : list Z :=
  encode_str (key e) ++ le_bytes 4 (kv_code (kv_type (value e))) ++ encode_value (value e).

Definition encode_tensor (t : TensorInfo) : list Z :=
  encode_str (t_name t) ++ le_bytes 4 (len (t_dims t)) ++ concat (map (le_bytes 8) (t_dims t)) ++
  le_bytes 4 (tensor_code (t_dtype t)) ++ le_bytes 8 (t_offset t).
