(* ===== verification/GgufCodec.v ===== *)
(** * The cursor and the encoders agree

    A reader [reads] what an encoder wrote, and whatever a reader accepts is
    exactly what the encoder would have written; no reader panics. *)

From S2P Require Import Prelude Bytes Format Tiles Permute Regions Gguf.

#[global] Open Scope Z_scope.

Definition cur (bytes : list Z) (pos : Z) : Cursor := {| c_bytes := bytes; c_pos := pos |}.

Lemma len_app {A} (l k : list A) : len (l ++ k) = len l + len k.
Proof. unfold len. rewrite length_app. lia. Qed.
Lemma len_nonneg {A} (l : list A) : 0 ≤ len l.
Proof. unfold len. lia. Qed.
Lemma len_le_bytes n x : len (le_bytes n x) = Z.of_nat n.
Proof. unfold len. by rewrite length_le_bytes. Qed.
Lemma len_cons {A} (x : A) l : len (x :: l) = 1 + len l.
Proof. unfold len. simpl length. lia. Qed.

(** ** Reading what was written *)

Section reads.
Context {A B : Type}.

Definition reads {C} (r : reader C) (enc : list Z) (a : C) : Prop :=
  ∀ pre rest, r (cur (pre ++ enc ++ rest) (len pre)) = (Ok a, cur (pre ++ enc ++ rest) (len pre + len enc)).

Lemma reads_ret (a : A) : reads (sret a) [] a.
Proof. intros pre rest. unfold sret. by rewrite Z.add_0_r. Qed.

Lemma reads_bind (r : reader A) (k : A → reader B) e1 e2 a b :
  reads r e1 a → reads (k a) e2 b → reads (sbind r k) (e1 ++ e2) b.
Proof.
  intros Hr Hk pre rest. unfold sbind. rewrite <- app_assoc, Hr.
  specialize (Hk (pre ++ e1) rest). rewrite <- !app_assoc, len_app in Hk.
  rewrite Hk, len_app. by rewrite Z.add_assoc.
Qed.

(** A reader that looks at the position only for its messages. *)
Lemma reads_get (k : Cursor → reader B) e b : (∀ c, reads (k c) e b) → reads (let! c := sget in k c) e b.
Proof. intros Hk pre rest. apply Hk. Qed.

Lemma reads_lift (c : FormatResult A) (k : A → reader B) e a b :
  c = Ok a → reads (k a) e b → reads (sbind (slift c) k) e b.
Proof. intros -> Hk pre rest. apply Hk. Qed.

Lemma reads_map (r : reader A) (f : A → B) e a : reads r e a → reads (let! x := r in sret (f x)) e (f a).
Proof.
  intros Hr. rewrite <- (app_nil_r e). eapply reads_bind; [done|]. intros pre rest.
  unfold sret. by rewrite Z.add_0_r.
Qed.
End reads.

Lemma reads_take e n what : n = len e → reads (take_bytes n what) e e.
Proof.
  intros -> pre rest. unfold take_bytes, remaining, cur. simpl. rewrite !len_app.
  pose proof (len_nonneg rest). rewrite (proj2 (Z.ltb_ge _ _)) by lia.
  unfold len. rewrite !Nat2Z.id. by rewrite drop_app_length, take_app_length.
Qed.

Lemma reads_uint n x what :
  0 ≤ x < 256 ^ Z.of_nat n → reads (read_uint (Z.of_nat n) what) (le_bytes n x) x.
Proof.
  intros Hx. unfold read_uint. rewrite <- (of_le_bytes_small n x) at 2 by done.
  apply reads_map, reads_take. by rewrite len_le_bytes.
Qed.

Lemma as_signed_mod n x :
  (0 < n)%nat → - 2 ^ (8 * Z.of_nat n - 1) ≤ x < 2 ^ (8 * Z.of_nat n - 1) →
  as_signed (8 * Z.of_nat n) (x mod 256 ^ Z.of_nat n) = x.
Proof.
  intros Hn Hx. change 256 with (2 ^ 8). rewrite <- Z.pow_mul_r by lia.
  set (w := 8 * Z.of_nat n) in *. assert (2 ^ w = 2 * 2 ^ (w - 1)) as Hw.
  { rewrite <- Z.pow_succ_r by lia. f_equal. lia. }
  unfold as_signed. destruct (decide (0 ≤ x)) as [H0|H0].
  - rewrite Z.mod_small by lia. by rewrite (proj2 (Z.ltb_lt _ _)) by lia.
  - rewrite <- (Z_mod_plus_full x 1). rewrite Z.mul_1_l, Z.mod_small by lia.
    rewrite (proj2 (Z.ltb_ge _ _)) by lia. lia.
Qed.

Lemma reads_int n x what :
  (0 < n)%nat → - 2 ^ (8 * Z.of_nat n - 1) ≤ x < 2 ^ (8 * Z.of_nat n - 1) →
  reads (let! y := read_uint (Z.of_nat n) what in sret (as_signed (8 * Z.of_nat n) y)) (le_bytes n x) x.
Proof.
  intros Hn Hx. rewrite <- (as_signed_mod n x) at 2 by done. rewrite <- (of_le_bytes_mod n x).
  apply (reads_map _ (as_signed (8 * Z.of_nat n))). unfold read_uint.
  apply reads_map, reads_take. by rewrite len_le_bytes.
Qed.

(** [String::len] fits a [u64]. *)
Definition str_ok (s : list Z) : Prop := from_utf8 s = true ∧ len s ≤ U64_MAX.

Lemma reads_str s what : str_ok s → reads (read_str what) (encode_str s) s.
Proof.
  intros [Hu Hl]. unfold read_str, encode_str. apply reads_get. intros c.
  eapply reads_bind; [apply (reads_uint 8); pose proof (len_nonneg s); unfold U64_MAX in Hl; lia|].
  cbv beta. rewrite <- (app_nil_r s) at 2.
  eapply reads_bind; [by apply reads_take|]. rewrite Hu. apply reads_ret.
Qed.

(** ** Values of their types *)

Definition scalar_ok (v : KvValue) : Prop :=
  match v with
  | VU8 v => 0 ≤ v < 2 ^ 8 | VI8 v => - 2 ^ 7 ≤ v < 2 ^ 7
  | VU16 v => 0 ≤ v < 2 ^ 16 | VI16 v => - 2 ^ 15 ≤ v < 2 ^ 15
  | VU32 v | VF32 v => 0 ≤ v < 2 ^ 32 | VI32 v => - 2 ^ 31 ≤ v < 2 ^ 31
  | VU64 v | VF64 v => 0 ≤ v < 2 ^ 64 | VI64 v => - 2 ^ 63 ≤ v < 2 ^ 63
  | VBool _ => True
  | VStr s => str_ok s
  | VArray _ _ => False
  end.

(** What the reader accepts; [add_kv] refuses in addition the empty array of
    arrays. *)
Definition value_ok (v : KvValue) : Prop :=
  match v with
  | VArray elem items =>
      Forall (λ i, kv_type i = elem ∧ scalar_ok i) items ∧ len items ≤ U64_MAX
  | v => scalar_ok v
  end.

Lemma reads_scalar v : scalar_ok v → reads (read_scalar (kv_type v)) (encode_value v) v.
Proof.
  intros Hv. destruct v; simpl in Hv; cbn [kv_type read_scalar encode_value]; try done.
  - apply (reads_map _ VU8), (reads_uint 1). simpl. lia.
  - apply (reads_map _ VI8), (reads_int 1); [lia|]. simpl. lia.
  - apply (reads_map _ VU16), (reads_uint 2). simpl. lia.
  - apply (reads_map _ VI16), (reads_int 2); [lia|]. simpl. lia.
  - apply (reads_map _ VU32), (reads_uint 4). simpl. lia.
  - apply (reads_map _ VI32), (reads_int 4); [lia|]. simpl. lia.
  - apply (reads_map _ VF32), (reads_uint 4). simpl. lia.
  - apply (reads_map _ VBool). unfold read_bool. apply reads_get. intros c.
    destruct v; [change [1] with (le_bytes 1 1 ++ [])|change [0] with (le_bytes 1 0 ++ [])].
    all: eapply reads_bind; [apply (reads_uint 1); simpl; lia|apply reads_ret].
  - by apply (reads_map _ VStr), reads_str.
  - apply (reads_map _ VU64), (reads_uint 8). simpl. lia.
  - apply (reads_map _ VI64), (reads_int 8); [lia|]. simpl. lia.
  - apply (reads_map _ VF64), (reads_uint 8). simpl. lia.
Qed.

(** ** Loops *)

Lemma reads_loop {A} (r : reader A) fuel es xs :
  Forall2 (reads r) es xs → (length xs ≤ fuel)%nat → reads (read_loop fuel (len xs) r) (concat es) xs.
Proof.
  intros Hes. revert fuel. induction Hes as [|e x es xs Hr _ IH]; intros fuel Hf.
  - destruct fuel; apply reads_ret.
  - destruct fuel as [|fuel]; [simpl in Hf; lia|]. rewrite len_cons. cbn [read_loop concat].
    pose proof (len_nonneg xs). rewrite (proj2 (Z.leb_gt _ _)) by lia.
    eapply reads_bind; [exact Hr|]. cbv beta. replace (1 + len xs - 1) with (len xs) by lia.
    rewrite <- (app_nil_r (concat es)).
    eapply reads_bind; [apply IH; simpl in Hf; lia|]. apply reads_ret.
Qed.

(** Items of at least a byte are no more than the bytes there are. *)
Lemma concat_length_le (es : list (list Z)) :
  Forall (λ e, 1 ≤ length e)%nat es → (length es ≤ length (concat es))%nat.
Proof. induction 1; simpl; rewrite ?length_app; lia. Qed.

Lemma reads_many {A} (r : reader A) es xs n :
  Forall2 (reads r) es xs → Forall (λ e, 1 ≤ length e)%nat es → n = len xs →
  reads (read_many n r) (concat es) xs.
Proof.
  intros Hes Hlen -> pre rest. unfold read_many, sget, sbind. apply reads_loop; [done|].
  apply concat_length_le in Hlen. apply Forall2_length in Hes. simpl. rewrite !length_app. lia.
Qed.

Lemma length_scalar v : scalar_ok v → (1 ≤ length (encode_value v))%nat.
Proof.
  destruct v; simpl; intros; rewrite ?length_app; simpl; try lia; try done.
Qed.

Lemma kv_code_roundtrip t off : kv_from_code (kv_code t) off = Ok t.
Proof. by destruct t. Qed.

Lemma kv_code_u32 t : 0 ≤ kv_code t < 2 ^ 32.
Proof. destruct t; simpl; lia. Qed.

Lemma reads_value v : value_ok v → reads (read_value (kv_type v)) (encode_value v) v.
Proof.
  intros Hv. destruct v as [| | | | | | | | |elem items| | |]; try by (apply reads_scalar).
  destruct Hv as [Hitems Hl]. cbn [kv_type read_value encode_value]. apply reads_get. intros c.
  eapply reads_bind; [apply (reads_uint 4), kv_code_u32|]. cbv beta.
  eapply reads_lift; [apply kv_code_roundtrip|]. cbv beta.
  eapply reads_bind; [apply (reads_uint 8); pose proof (len_nonneg items); unfold U64_MAX in Hl; lia|]. cbv beta.
  apply (reads_map _ (VArray elem)). apply reads_many; [| |done].
  - apply Forall2_fmap_l, Forall_Forall2_diag. eapply Forall_impl; [exact Hitems|].
    intros i [<- Hi]. by apply reads_scalar.
  - apply Forall_map. eapply Forall_impl; [exact Hitems|]. intros i [_ Hi]. by apply length_scalar.
Qed.

Definition kv_ok (e : KvEntry) : Prop := str_ok (key e) ∧ value_ok (value e).

Lemma reads_kv e : kv_ok e → reads read_kv (encode_kv e) e.
Proof.
  intros [Hk Hv]. destruct e as [k v]. unfold read_kv, encode_kv. cbn [key value] in *.
  eapply reads_bind; [by apply reads_str|]. apply reads_get. intros c.
  eapply reads_bind; [apply (reads_uint 4), kv_code_u32|]. cbv beta.
  eapply reads_lift; [apply kv_code_roundtrip|]. cbv beta.
  by apply (reads_map _ (λ v, {| key := k; value := v |})), reads_value.
Qed.

(** A tensor type is what its code decodes to. *)
Definition dtype_ok (t : TensorType) : Prop := tensor_from_code (tensor_code t) = t ∧ is_u32 (tensor_code t).

Definition tensor_ok (t : TensorInfo) : Prop :=
  str_ok (t_name t) ∧ len (t_dims t) ≤ U32_MAX ∧ Forall is_u64 (t_dims t) ∧ dtype_ok (t_dtype t) ∧ is_u64 (t_offset t).

Lemma reads_tensor t : tensor_ok t → reads read_tensor (encode_tensor t) t.
Proof.
  intros (Hn & Hl & Hd & (Ht & Htc) & Ho). destruct t as [n dims ty off]. cbn [t_name t_dims t_dtype t_offset] in *.
  unfold read_tensor, encode_tensor. cbn [t_name t_dims t_dtype t_offset].
  unfold is_u64, is_u32, U32_MAX, U64_MAX in *.
  eapply reads_bind; [by apply reads_str|]. cbv beta.
  eapply reads_bind; [apply (reads_uint 4); pose proof (len_nonneg dims); lia|]. cbv beta.
  eapply reads_bind; [apply (reads_many _ (map (le_bytes 8) dims) dims)|]; [| |done|].
  - apply Forall2_fmap_l, Forall_Forall2_diag. eapply Forall_impl; [exact Hd|].
    intros d [? ?]. apply (reads_uint 8). lia.
  - apply Forall_map, Forall_forall. intros d _. rewrite length_le_bytes. lia.
  - cbv beta. eapply reads_bind; [apply (reads_uint 4); lia|]. cbv beta. rewrite Ht.
    apply (reads_map _ (λ o, {| t_name := n; t_dims := dims; t_dtype := ty; t_offset := o |})), (reads_uint 8). lia.
Qed.

(** ** Accepting only what would be written *)

Definition cur_ok (c : Cursor) : Prop := Forall is_byte (c_bytes c) ∧ 0 ≤ c_pos c ≤ len (c_bytes c).

(** The bytes of [e] come next. *)
Definition next (c : Cursor) (e : list Z) : Prop :=
  ∃ rest, drop (Z.to_nat (c_pos c)) (c_bytes c) = e ++ rest.

Definition advance (c : Cursor) (e : list Z) : Cursor := cur (c_bytes c) (c_pos c + len e).

Definition parses {A} (Q : A → list Z → Prop) (r : reader A) : Prop :=
  ∀ c, cur_ok c →
    match r c with
    | (Ok a, c') => ∃ e, Q a e ∧ next c e ∧ c' = advance c e
    | (Err _, _) => True
    | (Panic, _) => False
    end.

Lemma advance_ok c e : cur_ok c → next c e → cur_ok (advance c e).
Proof.
  intros [Hb Hp] [rest Hr]. split; [done|]. simpl. split; [pose proof (len_nonneg e); lia|].
  assert (len (drop (Z.to_nat (c_pos c)) (c_bytes c)) = len e + len rest) as Hl by (by rewrite Hr, len_app).
  unfold len in *. rewrite length_drop in Hl. lia.
Qed.

Lemma next_app c e1 e2 : cur_ok c → next c e1 → next (advance c e1) e2 → next c (e1 ++ e2).
Proof.
  intros [_ Hp] [r1 H1] [r2 H2]. exists r2. rewrite H1. simpl in H2. pose proof (len_nonneg e1).
  rewrite Z2Nat.inj_add, <- drop_drop, H1 in H2 by lia. unfold len in H2. rewrite Nat2Z.id, drop_app_length in H2.
  by rewrite H2, app_assoc.
Qed.

Lemma advance_app c e1 e2 : advance (advance c e1) e2 = advance c (e1 ++ e2).
Proof. unfold advance. simpl. by rewrite len_app, Z.add_assoc. Qed.

Lemma next_nil c : next c [].
Proof. by eexists. Qed.
Lemma advance_nil c : advance c [] = c.
Proof. destruct c. unfold advance, cur. simpl. unfold len. simpl. by rewrite Z.add_0_r. Qed.

(** How readers compose. *)
Lemma parses_mono {A} (Q R : A → list Z → Prop) r : (∀ a e, Q a e → R a e) → parses Q r → parses R r.
Proof. intros H Hr c Hc. specialize (Hr c Hc). destruct (r c) as [[a| |] c']; naive_solver. Qed.

Lemma parses_ret {A} (R : A → list Z → Prop) a : R a [] → parses R (sret a).
Proof. intros H c _. exists []. split; [done|]. split; [apply next_nil|]. by rewrite advance_nil. Qed.

Lemma parses_fail {A} (R : A → list Z → Prop) e : parses R (sfail e).
Proof. by intros c _. Qed.

Lemma parses_bind {A B} (Q : A → list Z → Prop) (R : B → list Z → Prop) r k :
  parses Q r → (∀ a e, Q a e → parses (λ b e', R b (e ++ e')) (k a)) → parses R (sbind r k).
Proof.
  intros Hr Hk c Hc. specialize (Hr c Hc). unfold sbind. destruct (r c) as [[a| |] c']; [|done|done].
  destruct Hr as (e & HQ & Hn & ->). specialize (Hk a e HQ (advance c e) ltac:(by apply advance_ok)).
  destruct (k a (advance c e)) as [[b| |] c'']; [|done|done].
  destruct Hk as (e' & HR & Hn' & ->). exists (e ++ e').
  split; [done|]. split; [by apply next_app|]. by rewrite advance_app.
Qed.

Lemma parses_get {A} (R : A → list Z → Prop) k : (∀ c, parses R (k c)) → parses R (let! c := sget in k c).
Proof. intros H c Hc. exact (H c c Hc). Qed.

Lemma parses_lift {A B} (R : B → list Z → Prop) (o : FormatResult A) k :
  o ≠ Panic → (∀ a, o = Ok a → parses R (k a)) → parses R (sbind (slift o) k).
Proof. intros Ho H c Hc. unfold sbind, slift. destruct o; [by apply H|done|done]. Qed.

Lemma parses_map {A B} (Q : A → list Z → Prop) (R : B → list Z → Prop) r f :
  parses Q r → (∀ a e, Q a e → R (f a) e) → parses R (let! x := r in sret (f x)).
Proof. intros Hr H. eapply parses_bind; [done|]. intros a e HQ. apply parses_ret. rewrite app_nil_r. by apply H. Qed.
Lemma parses_take n what :
  0 ≤ n → parses (λ b e, e = b ∧ len b = n ∧ Forall is_byte b) (take_bytes n what).
Proof.
  intros Hn c [Hb Hp]. unfold take_bytes, remaining. destruct (Z.ltb_spec (len (c_bytes c) - c_pos c) n); [done|].
  set (b := take (Z.to_nat n) (drop (Z.to_nat (c_pos c)) (c_bytes c))).
  assert (len b = n) as Hl.
  { unfold b, len in *. rewrite length_take, length_drop. lia. }
  exists b. split_and!; [done|done|by apply Forall_take, Forall_drop| |by unfold advance; rewrite Hl].
  eexists. symmetry. apply take_drop.
Qed.

Lemma parses_uint n what :
  parses (λ x e, e = le_bytes n x ∧ 0 ≤ x < 256 ^ Z.of_nat n) (read_uint (Z.of_nat n) what).
Proof.
  unfold read_uint. eapply parses_map; [apply parses_take; lia|].
  intros b e (-> & Hl & Hb). assert (length b = n) as <- by (unfold len in Hl; lia).
  rewrite le_bytes_of by done. split; [done|by apply of_le_bytes_bound].
Qed.

Lemma le_bytes_wrap n x k : le_bytes n (x + k * 256 ^ Z.of_nat n) = le_bytes n x.
Proof.
  revert x k. induction n as [|n IH]; intros x k; [done|]. cbn [le_bytes].
  rewrite Nat2Z.inj_succ, Z.pow_succ_r by lia.
  replace (x + k * (256 * 256 ^ Z.of_nat n)) with (x + (k * 256 ^ Z.of_nat n) * 256) by ring.
  by rewrite Z_mod_plus_full, Z.div_add, IH by lia.
Qed.

Lemma parses_int n what :
  (0 < n)%nat →
  parses (λ x e, e = le_bytes n x ∧ - 2 ^ (8 * Z.of_nat n - 1) ≤ x < 2 ^ (8 * Z.of_nat n - 1))
    (let! y := read_uint (Z.of_nat n) what in sret (as_signed (8 * Z.of_nat n) y)).
Proof.
  intros Hn. eapply parses_map; [apply parses_uint|]. intros x e [-> Hx]. cbv beta.
  assert (256 ^ Z.of_nat n = 2 * 2 ^ (8 * Z.of_nat n - 1)) as Hw.
  { change 256 with (2 ^ 8). rewrite <- Z.pow_mul_r, <- Z.pow_succ_r by lia. f_equal. lia. }
  assert (2 ^ (8 * Z.of_nat n) = 256 ^ Z.of_nat n) as Hw' by (by rewrite Z.pow_mul_r by lia).
  unfold as_signed. destruct (Z.ltb_spec x (2 ^ (8 * Z.of_nat n - 1))); [split; [done|lia]|].
  rewrite Hw'. split; [|lia]. rewrite <- (le_bytes_wrap n (x - _) 1). f_equal. lia.
Qed.

Lemma parses_str what : parses (λ s e, e = encode_str s ∧ str_ok s) (read_str what).
Proof.
  unfold read_str. apply parses_get. intros c.
  eapply parses_bind; [apply (parses_uint 8)|]. intros n e [-> Hn]. cbv beta.
  eapply parses_bind; [apply parses_take; lia|]. intros raw e (-> & Hl & _). cbv beta.
  destruct (from_utf8 raw) eqn:Hu; [|apply parses_fail]. apply parses_ret. rewrite app_nil_r.
  unfold encode_str, str_ok, U64_MAX. rewrite Hl. split; [done|]. split; [done|lia].
Qed.

Lemma parses_scalar ty :
  parses (λ v e, e = encode_value v ∧ kv_type v = ty ∧ scalar_ok v) (read_scalar ty).
Proof.
  destruct ty; cbn [read_scalar].
  all: try (eapply parses_map; [first [apply (parses_uint 1)|apply (parses_uint 2)|apply (parses_uint 4)
                                     |apply (parses_uint 8)|apply (parses_int 1); lia|apply (parses_int 2); lia
                                     |apply (parses_int 4); lia|apply (parses_int 8); lia|apply parses_str]|];
            intros v e [-> Hv]; split_and!; done).
  - eapply (parses_map (λ b e, e = [if b : bool then 1 else 0])); [|intros b e ->; done].
    unfold read_bool. apply parses_get. intros c. eapply parses_bind; [apply (parses_uint 1)|].
    intros b e [-> Hb]. cbv beta. destruct b as [|[]|]; try apply parses_fail; by apply parses_ret.
  - apply parses_get. intros c. apply parses_fail.
Qed.

(** Items of at least a byte: the fuel of [read_many] never runs out. *)
Lemma parses_loop {A} (Q : A → list Z → Prop) r fuel n c :
  parses (λ a e, Q a e ∧ (1 ≤ length e)%nat) r → cur_ok c → 0 ≤ n → remaining c < Z.of_nat fuel →
  match read_loop fuel n r c with
  | (Ok xs, c') => ∃ es, Forall2 Q xs es ∧ len xs = n ∧ next c (concat es) ∧ c' = advance c (concat es)
  | (Err _, _) => True
  | (Panic, _) => False
  end.
Proof.
  intros Hr. revert n c. induction fuel as [|fuel IH]; intros n c Hc Hn Hf.
  - destruct Hc as [_ Hp]. unfold remaining in Hf. lia.
  - cbn [read_loop]. destruct (Z.leb_spec n 0).
    { exists []. split; [constructor|]. split; [unfold len; simpl; lia|]. split; [apply next_nil|].
      by rewrite advance_nil. }
    unfold sbind. specialize (Hr c Hc). destruct (r c) as [[a| |] c1]; [|done|done].
    destruct Hr as (e & [HQ He] & Hnext & ->).
    specialize (IH (n - 1) (advance c e) ltac:(by apply advance_ok) ltac:(lia)).
    specialize (IH ltac:(unfold remaining, advance, len in *; simpl; lia)).
    destruct (read_loop fuel (n - 1) r (advance c e)) as [[xs| |] c2]; [|done|done].
    destruct IH as (es & HF & Hl & Hn2 & ->). exists (e :: es).
    split_and!; [by constructor|rewrite len_cons; lia|by apply next_app|by rewrite advance_app].
Qed.

Lemma parses_many {A} (Q : A → list Z → Prop) n r :
  parses (λ a e, Q a e ∧ (1 ≤ length e)%nat) r → 0 ≤ n →
  parses (λ xs e, ∃ es, Forall2 Q xs es ∧ len xs = n ∧ e = concat es) (read_many n r).
Proof.
  intros Hr Hn c Hc. unfold read_many, sget, sbind.
  pose proof (parses_loop Q r (S (length (c_bytes c))) n c Hr Hc Hn) as H.
  specialize (H ltac:(destruct Hc; unfold remaining, len in *; lia)).
  destruct (read_loop _ n r c) as [[xs| |] c']; naive_solver.
Qed.

Lemma kv_from_code_Ok code off t : kv_from_code code off = Ok t → kv_code t = code.
Proof.
  unfold kv_from_code.
  repeat match goal with |- match ?p with _ => _ end = _ → _ => destruct p end; intros [= <-]; done.
Qed.
Lemma kv_from_code_total code off : kv_from_code code off ≠ Panic.
Proof.
  unfold kv_from_code.
  repeat match goal with |- match ?p with _ => _ end ≠ _ => destruct p end; done.
Qed.

(** Lists of values and their encodings. *)
Lemma Forall2_encoded {A} (enc : A → list Z) (P : A → Prop) xs es :
  Forall2 (λ x e, e = enc x ∧ P x) xs es → es = map enc xs ∧ Forall P xs.
Proof. induction 1 as [|x e xs es [-> Hx] _ [-> Hxs]]; [by split; [|constructor]|]. split; [done|by constructor]. Qed.

Lemma parses_value ty :
  parses (λ v e, e = encode_value v ∧ kv_type v = ty ∧ value_ok v) (read_value ty).
Proof.
  destruct (decide (ty = KtArray)) as [->|Hne].
  - cbn [read_value]. apply parses_get. intros c. eapply parses_bind; [apply (parses_uint 4)|].
    intros code e [-> _]. cbv beta. apply parses_lift; [apply kv_from_code_total|].
    intros elem Helem. eapply parses_bind; [apply (parses_uint 8)|]. intros n e [-> Hn]. cbv beta.
    eapply parses_map; [apply (parses_many (λ v e, e = encode_value v ∧ (kv_type v = elem ∧ scalar_ok v)))|]; [|lia|].
    + eapply parses_mono; [|apply parses_scalar]. intros v e (-> & Ht & Hv).
      split; [done|]. by apply length_scalar.
    + intros xs e (es & HF & Hl & ->). apply Forall2_encoded in HF as [-> HF]. cbv beta.
      cbn [encode_value kv_type value_ok]. rewrite Hl, (kv_from_code_Ok _ _ _ Helem).
      split_and!; [done|done|done|unfold U64_MAX; lia].
  - assert (read_value ty = read_scalar ty) as -> by by destruct ty.
    eapply parses_mono; [|apply parses_scalar]. intros v e (-> & Ht & Hv).
    split_and!; [done..|]. destruct v; try done.
Qed.

Lemma parses_kv : parses (λ kv e, e = encode_kv kv ∧ kv_ok kv) read_kv.
Proof.
  unfold read_kv. eapply parses_bind; [apply parses_str|]. intros k e [-> Hk]. cbv beta.
  apply parses_get. intros c. eapply parses_bind; [apply (parses_uint 4)|]. intros code e [-> _]. cbv beta.
  apply parses_lift; [apply kv_from_code_total|]. intros ty Hty.
  eapply parses_map; [apply parses_value|]. intros v e (-> & <- & Hv). cbv beta. unfold encode_kv. cbn [key value].
  rewrite (kv_from_code_Ok _ _ _ Hty). split; [done|]. by split.
Qed.

Lemma r9v_from_code_Some code s : r9v_from_code code = Some s → r9v_code s = code.
Proof.
  unfold r9v_from_code. destruct (Z.leb_spec code R9V_TENSOR_TYPE_BASE); [done|].
  destruct (scheme_from_code _) eqn:Hs; [|done..]. intros [= <-]. apply scheme_from_code_inv in Hs.
  unfold r9v_code. lia.
Qed.

Lemma tensor_code_from code : tensor_code (tensor_from_code code) = code.
Proof.
  assert (tensor_code (match r9v_from_code code with Some s => R9v s | None => Unknown code end) = code).
  { destruct (r9v_from_code code) eqn:H; [|done]. by apply r9v_from_code_Some. }
  unfold tensor_from_code.
  repeat match goal with |- tensor_code (match ?p with _ => _ end) = _ => is_var p; destruct p end; done.
Qed.

Lemma parses_tensor : parses (λ t e, e = encode_tensor t ∧ tensor_ok t) read_tensor.
Proof.
  unfold read_tensor. eapply parses_bind; [apply parses_str|]. intros n e [-> Hs]. cbv beta.
  eapply parses_bind; [apply (parses_uint 4)|]. intros nd e [-> Hnd]. cbv beta.
  eapply parses_bind; [apply (parses_many (λ x e, e = le_bytes 8 x ∧ is_u64 x))|]; [|lia|].
  { eapply parses_mono; [|apply (parses_uint 8)]. intros x e [-> Hx]. unfold is_u64, U64_MAX.
    split; [split; [done|lia]|]. rewrite length_le_bytes. lia. }
  intros dims e (es & HF & Hl & ->). apply Forall2_encoded in HF as [-> HF]. cbv beta.
  eapply parses_bind; [apply (parses_uint 4)|]. intros code e [-> Hc]. cbv beta.
  eapply parses_map; [apply (parses_uint 8)|]. intros off e [-> Ho]. cbv beta.
  unfold encode_tensor, tensor_ok, dtype_ok. cbn [t_name t_dims t_dtype t_offset].
  rewrite tensor_code_from, Hl. unfold is_u64, is_u32, U32_MAX, U64_MAX in *. split; [done|].
  split_and!; try done; lia.
Qed.
