(* ===== verification/GgufFile.v ===== *)
(** * Reading a GGUF file

    [GgufFile] of [crates/r9v-format/src/container.rs]: entry sizes of native
    and standard tensors, the validation of the tables, the parser and the
    views of a file. *)

From S2P Require Import Prelude Bytes Format Tiles Permute Regions Gguf.

#[global] Open Scope Z_scope.

(** A metadata table as its lookup function. *)
Abbreviation lookup_fn := (list Z → option KvValue).

Definition mismatch (k : list Z) (found : KvValue) (expected : string) : FormatError :=
  KvTypeMismatch k (kv_type_name (kv_type found)) expected.

Definition tensor_key (name : list Z) (suffix : string) : list Z := lit "r9v.tensor." ++ name ++ lit suffix.

(** ** Declared metadata of a tensor *)

Definition check_r9v_tensor_scheme (lookup : lookup_fn) (name : list Z) (scheme : SchemeId) : FormatResult unit :=
  let scheme_key := tensor_key name ".scheme" in
  match lookup scheme_key with
  | None => Ok tt
  | Some (VStr s) =>
      let* declared := scheme_from_name s in
      if negb (bool_decide (declared = scheme))
      then Err (SchemeMismatch (scheme_name declared) (scheme_name scheme) (scheme_name declared))
      else Ok tt
  | Some other => Err (mismatch scheme_key other "STRING")
  end.

(** [Role] of [meta.rs]. *)
Inductive Role : Type := Matmul | Embed | LmHead | NgramTable | RVector.
#[global] Instance Role_eq_dec : EqDecision Role.
Proof. solve_decision. Defined.

Definition role_name (r : Role) : string :=
  match r with
  | Matmul => "matmul" | Embed => "embed" | LmHead => "lm_head" | NgramTable => "ngram_table" | RVector => "vector"
  end.
Definition role_debug (r : Role) : string :=
  match r with
  | Matmul => "Matmul" | Embed => "Embed" | LmHead => "LmHead" | NgramTable => "NgramTable" | RVector => "Vector"
  end.
Definition role_parse (s : list Z) : FormatResult Role :=
  ok_or (named role_name s [Matmul; Embed; LmHead; NgramTable; RVector])
    (Malformed 0 (msg "r9v role {text:?}: expected one of matmul, embed, lm_head, ngram_table, vector" [Str s])).

Definition parse_role_item (roles_key name : list Z) (item : KvValue) : FormatResult Role :=
  match item with
  | VStr s =>
      match role_parse s with
      | Ok role => Ok role
      | Err _ => Err (Malformed 0 (msg "tensor {name:?} has unknown role {s:?} (Spec 2 §4)" [Str name; Str s]))
      | Panic => Panic
      end
  | other => Err (mismatch roles_key other "STRING")
  end.

Definition valid_roles (roles : list Role) : bool :=
  match roles with
  | [Matmul] | [Embed] | [LmHead] | [NgramTable] | [RVector] | [Embed; LmHead] => true
  | _ => false
  end.

Definition parse_tensor_roles (lookup : lookup_fn) (name : list Z) : FormatResult (option (list Role)) :=
  let roles_key := tensor_key name ".roles" in
  match lookup roles_key with
  | Some (VArray elem items) =>
      if negb (bool_decide (elem = KtStr)) then Err (KvTypeMismatch roles_key (kv_type_name elem) "STRING")
      else if bool_decide (items = []) then Err (Malformed 0 (msg "tensor {name:?} roles array is empty (Spec 2 §4)" [Str name]))
      else
        let* parsed := omapM (parse_role_item roles_key name) items in
        if negb (valid_roles parsed)
        then Err (Malformed 0 (msg "tensor {name:?} has invalid roles combination {parsed:?} (Spec 2 §4)"
                                 [Str name; Names (map role_debug parsed)]))
        else Ok (Some parsed)
  | Some other => Err (mismatch roles_key other "ARRAY")
  | None => Ok None
  end.

Definition parse_region_item (regions_key : list Z) (item : KvValue) : FormatResult Z :=
  match item with
  | VU64 v => Ok v
  | other => Err (mismatch regions_key other "UINT64")
  end.

Definition parse_explicit_regions (val : KvValue) (regions_key name : list Z) : FormatResult (list Z) :=
  match val with
  | VArray elem items =>
      if negb (bool_decide (elem = KtU64)) then Err (KvTypeMismatch regions_key (kv_type_name elem) "UINT64")
      else if negb (len items =? 3)
      then Err (Malformed 0 (msg "tensor {name:?} regions has {} item(s), expected 3 (Spec 2 §6)" [Str name; Num (len items)]))
      else
        let* explicit := omapM (parse_region_item regions_key) items in
        let* e0 := vec_get explicit 0 in
        let* e1 := vec_get explicit 1 in
        let* e2 := vec_get explicit 2 in
        if negb (e0 =? 0) || (e1 <? e0) || (e2 <? e1) || negb (e1 mod 256 =? 0)
        then Err (Malformed 0 (msg "tensor {name:?} has invalid explicit region offsets {explicit:?} (Spec 2 §6)"
                                 [Str name; Nums explicit]))
        else Ok explicit
  | other => Err (mismatch regions_key other "ARRAY")
  end.

Definition validate_explicit_regions (lookup : lookup_fn) (name : list Z) (expected : list Z) : FormatResult unit :=
  let regions_key := tensor_key name ".regions" in
  match lookup regions_key with
  | Some val =>
      let* explicit := parse_explicit_regions val regions_key name in
      if negb (bool_decide (explicit = expected))
      then Err (Malformed 0 (msg "tensor {name:?} explicit regions {explicit:?} do not match derived regions {expected:?} (Spec 2 §6)"
                               [Str name; Nums explicit; Nums expected]))
      else Ok tt
  | None => Ok tt
  end.

Definition validate_explicit_regions_retained (lookup : lookup_fn) (name : list Z) (entry_bytes : Z) : FormatResult unit :=
  validate_explicit_regions lookup name [0; entry_bytes; entry_bytes].

(** ** Entry sizes *)

(** [K], the innermost extent, and [N], the product of the others. *)
Definition dim_k (name : list Z) (dims : list Z) : FormatResult Z :=
  let* d0 := vec_get dims 0 in
  ok_or (try_from U32_MAX d0) (FmtOverflow "tensor k dim" (msg "tensor {:?} dim[0]={}" [Str name; Num d0])).

Definition dim_n (name : list Z) (dims : list Z) : FormatResult Z :=
  if (length dims =? 1)%nat then Ok 1
  else
    let* prod := ok_or (checked_product (tail dims))
                   (FmtOverflow "tensor n dims product" (msg "tensor {:?}" [Str name])) in
    ok_or (try_from U32_MAX prod)
      (FmtOverflow "tensor n dim" (msg "tensor {:?} product={prod}" [Str name; Num prod])).

Definition sparse_flag (lookup : lookup_fn) (name : list Z) : FormatResult bool :=
  let sparse_key := tensor_key name ".sparse" in
  match lookup sparse_key with
  | Some (VStr s) =>
      if bool_decide (s = lit "none") then Ok false
      else if bool_decide (s = lit "s24") then Ok true
      else Err (Malformed 0 (msg "tensor {:?} sparse value {s:?}: expected none or s24 (Spec 2 §4)" [Str name; Str s]))
  | Some other => Err (mismatch sparse_key other "STRING")
  | None => Ok false
  end.

(** The roles a one-dimensional tensor may declare. *)
Definition check_vector_roles (dims : list Z) (name : list Z) (roles : option (list Role)) : FormatResult unit :=
  match roles with
  | Some roles =>
      if (length dims =? 1)%nat && negb (bool_decide (roles = [RVector]))
      then Err (Malformed 0 (msg "1D tensor {:?} has non-vector role {roles:?} (Spec 2 §4, §5)"
                               [Str name; Names (map role_debug roles)]))
      else Ok tt
  | None => Ok tt
  end.

Definition layout_of_roles (roles : list Role) : Layout :=
  if bool_decide (roles = [Embed; LmHead]) then L1
  else if bool_decide (Embed ∈ roles) || bool_decide (NgramTable ∈ roles) || bool_decide (RVector ∈ roles) then L0
  else L1.

(** The layout of a dense tensor: vectors, declared roles, then the file's. *)
Definition dense_layout (dims : list Z) (roles : option (list Role)) (global : FormatResult Layout) : FormatResult Layout :=
  if (length dims =? 1)%nat then Ok L0
  else match roles with
       | Some roles => Ok (layout_of_roles roles)
       | None => global
       end.

(** The layout [r9v.layout_id] gives the file, read at the tensor. *)
Definition file_layout (lookup : lookup_fn) : FormatResult Layout :=
  match lookup (lit "r9v.layout_id") with
  | Some (VStr s) => ok_or (named layout_name (to_ascii_lowercase s) [L0; L1S; L1]) (UnknownLayout (msg "{}" [Str s]))
  | Some other => Err (mismatch (lit "r9v.layout_id") other "STRING")
  | None => Err (MissingKey (lit "r9v.layout_id"))
  end.

(** The regions of a tensor of a scheme, once its scheme and shape are
    known; the writer runs the same checks. *)
Definition r9v_regions (lookup : lookup_fn) (global : FormatResult Layout) (name : list Z) (dims : list Z)
    (scheme : SchemeId) (n k : Z) : FormatResult EntryRegions :=
  let* is_sparse := sparse_flag lookup name in
  let* roles := parse_tensor_roles lookup name in
  let* _ := if (length dims =? 1)%nat && is_sparse
            then Err (Malformed 0 (msg "1D vector {:?} cannot be sparse (Spec 2 §4, §5)" [Str name]))
            else check_vector_roles dims name roles in
  let* _ :=
    if is_sparse then
      let* _ := match roles with
                | Some roles =>
                    if negb (bool_decide (roles = [Matmul]))
                    then Err (Malformed 0 (msg "sparse tensor {:?} has non-matmul role {roles:?} (Spec 2 §4, §5)"
                                             [Str name; Names (map role_debug roles)]))
                    else Ok tt
                | None => Ok tt
                end in
      if negb (is_native_scheme scheme) then Err (UnsupportedLayout (scheme_name scheme) (layout_name L1S)) else Ok tt
    else Ok tt in
  let* layout := if is_sparse then Ok L1S else dense_layout dims roles global in
  let* regions := entry_regions scheme layout n k in
  let* _ := validate_explicit_regions lookup name (offsets regions) in
  Ok regions.

(** What an unquantized tensor of a native file may not declare. *)
Definition check_unquantized (lookup : lookup_fn) (name : list Z) (dtype : TensorType) : FormatResult unit :=
  match lookup (tensor_key name ".scheme") with
  | Some _ => Err (Malformed 0 (msg "unquantized tensor {:?} ({}) cannot declare a quantization scheme"
                                  (Str name :: tensor_type_name dtype)))
  | None =>
      let sparse_key := tensor_key name ".sparse" in
      match lookup sparse_key with
      | Some (VStr s) =>
          if bool_decide (s = lit "none") then Ok tt
          else if bool_decide (s = lit "s24")
          then Err (Malformed 0 (msg "unquantized tensor {:?} cannot be sparse (Spec 2 §4)" [Str name]))
          else Err (Malformed 0 (msg "tensor {:?} sparse value {s:?}: expected none or s24 (Spec 2 §4)" [Str name; Str s]))
      | Some other => Err (mismatch sparse_key other "STRING")
      | None => Ok tt
      end
  end.

Definition padded_entry (values_bytes : Z) : FormatResult Z :=
  ok_or (align_up values_bytes NATIVE_ALIGNMENT)
    (FmtOverflow "tensor entry_bytes" (msg "values_bytes={values_bytes}" [Num values_bytes])).

Definition half_type_name (dtype : TensorType) : string :=
  match dtype with TF16 => "f16" | TBF16 => "bf16" | _ => "unquantized" end.

(** [F16] and [BF16]; [what] names the element count in its overflow. *)
Definition half_entry_bytes (lookup : lookup_fn) (global : FormatResult Layout) (what : string)
    (name : list Z) (dims : list Z) (dtype : TensorType) : FormatResult Z :=
  let* _ := check_unquantized lookup name dtype in
  let* roles := parse_tensor_roles lookup name in
  let* _ := check_vector_roles dims name roles in
  let* layout := dense_layout dims roles global in
  let* entry :=
    match layout with
    | L0 =>
        let* elems := ok_or (checked_product dims) (FmtOverflow what (msg "tensor {:?}" [Str name])) in
        let* values := ok_or (checked_mul U64_MAX elems 2)
                         (FmtOverflow "tensor values_bytes" (msg "tensor {:?}" [Str name])) in
        padded_entry values
    | L1 =>
        let* k := dim_k name dims in
        let* n := dim_n name dims in
        let* d := dims_new n k None in
        let* values := value_region_bytes d Half16 in
        padded_entry values
    | L1S => Err (UnsupportedLayout (half_type_name dtype) (layout_name L1S))
    end in
  let* _ := validate_explicit_regions_retained lookup name entry in
  Ok entry.

(** [F32]: vectors only, with their role declared. *)
Definition f32_entry_bytes (lookup : lookup_fn) (name : list Z) (dims : list Z) : FormatResult Z :=
  let* _ := check_unquantized lookup name TF32 in
  if negb (length dims =? 1)%nat
  then Err (Malformed 0 (msg "native F32 tensor {:?} must be 1D (got {} dims; Spec 2 §3.3)" [Str name; Num (len dims)]))
  else
    let* roles := parse_tensor_roles lookup name in
    let* _ :=
      match roles with
      | Some [RVector] => Ok tt
      | Some roles => Err (Malformed 0 (msg "native F32 tensor {:?} declared roles {:?}, expected explicitly [vector] (Spec 2 §3.3, §4)"
                                          [Str name; Names (map role_debug roles)]))
      | None => Err (Malformed 0 (msg "native F32 tensor {:?} is missing required explicit role [vector] (Spec 2 §3.3, §4)"
                                    [Str name]))
      end in
    let* elems := ok_or (checked_product dims) (FmtOverflow "tensor n_elems" (msg "tensor {:?}" [Str name])) in
    let* values := ok_or (checked_mul U64_MAX elems 4)
                     (FmtOverflow "tensor values_bytes" (msg "tensor {:?}" [Str name])) in
    let* entry := padded_entry values in
    let* _ := validate_explicit_regions_retained lookup name entry in
    Ok entry.

Definition unsupported_native (name : list Z) (dtype : TensorType) : FormatError :=
  Malformed 0 (msg "native container contains unsupported tensor type {:?} for tensor {:?} (Spec 2 §3.3, §6)"
                 (tensor_type_name dtype ++ [Str name])).

(** The entry size of a tensor of a native file. *)
Definition native_nbytes (lookup : lookup_fn) (info : TensorInfo) : FormatResult Z :=
  let name := t_name info in
  let dims := t_dims info in
  if bool_decide (dims = []) then Err (Malformed 0 (msg "tensor {:?} has zero dimensions" [Str name]))
  else if existsb (λ d, d =? 0) dims
  then Err (Malformed 0 (msg "tensor {:?} has zero dimension in {:?}" [Str name; Nums dims]))
  else
    match t_dtype info with
    | R9v scheme =>
        let* _ := check_r9v_tensor_scheme lookup name scheme in
        let* k := dim_k name dims in
        let* n := dim_n name dims in
        let* regions := r9v_regions lookup (file_layout lookup) name dims scheme n k in
        Ok (er_entry_bytes regions)
    | (TF16 | TBF16) as dtype => half_entry_bytes lookup (file_layout lookup) "tensor n_elems" name dims dtype
    | TF32 => f32_entry_bytes lookup name dims
    | dtype => Err (unsupported_native name dtype)
    end.

(** The data size of a tensor of a standard file, or why it has none. *)
Definition standard_nbytes (info : TensorInfo) : FormatResult Z :=
  let name := t_name info in
  let dims := t_dims info in
  match data_nbytes (t_dtype info) dims with
  | Some nbytes => Ok nbytes
  | None =>
      if bool_decide (dims = []) then Err (Malformed 0 (msg "tensor {:?} has zero dimensions" [Str name]))
      else if existsb (λ d, d =? 0) dims
      then Err (Malformed 0 (msg "tensor {:?} has zero dimension in {:?}" [Str name; Nums dims]))
      else match quant_size (t_dtype info) with
           | Some (block_len, _) =>
               let* d0 := vec_get dims 0 in
               if (block_len =? 0) || negb (is_multiple_of d0 block_len)
               then Err (Malformed 0 (msg "tensor {:?} ({}): innermost dimension {} is not a multiple of block length {}"
                                        (Str name :: tensor_type_name (t_dtype info) ++ [Num d0; Num block_len])))
               else Err (Malformed 0 (msg "tensor {:?} ({}): {} element(s) are not a whole number of blocks"
                                        (Str name :: tensor_type_name (t_dtype info) ++
                                         [Num (default U64_MAX (n_elems info))])))
           | None => Err (Malformed 0 (msg "tensor {:?} ({}): no wire block size is known"
                                         (Str name :: tensor_type_name (t_dtype info))))
           end
  end.

Definition nbytes_in (lookup : lookup_fn) (native : bool) (info : TensorInfo) : FormatResult Z :=
  match t_dtype info with
  | Unknown code => Err (UnknownTensorType code (t_name info))
  | _ => if native then native_nbytes lookup info else standard_nbytes info
  end.

(** ** The file *)

Record GgufFile : Type := {
  g_version : Z;
  g_alignment : Z;
  g_kvs : list KvEntry;
  g_kv_index : gmap (list Z) nat;
  g_tensors : list TensorInfo;
  g_tensor_index : gmap (list Z) nat;
  g_data_start : Z;
  g_file_size : Z;
  g_header_range : Z * Z;
  g_kv_range : Z * Z;
  g_ti_range : Z * Z;
}.

Definition kv (f : GgufFile) (k : list Z) : option KvValue :=
  i ← g_kv_index f !! k; value <$> g_kvs f !! i.
Definition tensor (f : GgufFile) (name : list Z) : option TensorInfo :=
  i ← g_tensor_index f !! name; g_tensors f !! i.

Definition is_r9v (t : TensorType) : bool := match t with R9v _ => true | _ => false end.

(** [is_native] over the two tables; the writer decides the same way. *)
Definition native_tables (keys : list (list Z)) (dtypes : list TensorType) : bool :=
  existsb (starts_with (lit "r9v.")) keys || existsb is_r9v dtypes.
Definition is_native (f : GgufFile) : bool := native_tables (map key (g_kvs f)) (map t_dtype (g_tensors f)).
Definition is_standard_gguf (f : GgufFile) : bool := negb (is_native f).

Definition tensor_nbytes (f : GgufFile) (info : TensorInfo) : FormatResult Z := nbytes_in (kv f) (is_native f) info.

(** ** Validation *)

(** The index of a table: the first entry of each name, and a problem for
    every later one. *)
Definition index_step (dup : list Z → FormatError) (acc : gmap (list Z) nat * list FormatError)
    (entry : nat * list Z) : gmap (list Z) nat * list FormatError :=
  let '(index, problems) := acc in
  let '(i, name) := entry in
  match index !! name with
  | Some _ => (index, problems ++ [dup name])
  | None => (<[name := i]> index, problems)
  end.
Definition index_names (dup : list Z → FormatError) (names : list (list Z)) : gmap (list Z) nat * list FormatError :=
  foldl (index_step dup) (∅, []) (enumerate names).

Definition is_power_of_two (v : Z) : bool := negb (v =? 0) && (Z.land v (v - 1) =? 0).

(** The alignment [general.alignment] declares. *)
Definition declared_alignment (f : GgufFile) : Z * list FormatError :=
  match kv f (lit "general.alignment") with
  | Some (VU32 v) =>
      if (v =? 0) || negb (is_power_of_two v) then (GGUF_DEFAULT_ALIGNMENT, [InvalidAlignment v]) else (v, [])
  | Some other => (GGUF_DEFAULT_ALIGNMENT, [mismatch (lit "general.alignment") other "UINT32"])
  | None => (GGUF_DEFAULT_ALIGNMENT, [])
  end.

Definition accept_format_version (version : option Z) : FormatResult unit :=
  match version with
  | None => Ok tt
  | Some v => if v <=? R9V_FORMAT_VERSION then Ok tt else Err (FormatVersion v R9V_FORMAT_VERSION)
  end.

(** The problem of a result, if it is an error. *)
Definition problem_of {A} (r : FormatResult A) : list FormatError := match r with Err e => [e] | _ => [] end.

(** [r9v.layout_id], upper or lower case. *)
Definition canonical_layout (s : list Z) : list Z :=
  if bool_decide (s = lit "L0") then lit "l0"
  else if bool_decide (s = lit "L1") then lit "l1"
  else if bool_decide (s = lit "L1S") then lit "l1s"
  else s.

Definition native_header_problems (f : GgufFile) (alignment : Z) : list FormatError :=
  problem_if (negb (alignment =? 4096)) (InvalidAlignment alignment) ++
  match kv f (lit "r9v.format_version") with
  | Some (VU32 v) => problem_of (accept_format_version (Some v))
  | Some other => [mismatch (lit "r9v.format_version") other "UINT32"]
  | None => [MissingKey (lit "r9v.format_version")]
  end ++
  match kv f (lit "r9v.layout_id") with
  | Some (VStr s) => problem_of (layout_from_name (canonical_layout s))
  | Some other => [mismatch (lit "r9v.layout_id") other "STRING"]
  | None => [MissingKey (lit "r9v.layout_id")]
  end.

Definition has_split_decl (f : GgufFile) : bool :=
  bool_decide (is_Some (kv f (lit "split.no"))) || bool_decide (is_Some (kv f (lit "split.count"))) ||
  bool_decide (is_Some (kv f (lit "split.tensors.count"))) ||
  existsb (λ e, starts_with (lit "split.") (key e)) (g_kvs f).

(** One number of the split declaration, with the problem of its absence. *)
Definition split_u16 (f : GgufFile) (k : string) : option Z * list FormatError :=
  match kv f (lit k) with
  | Some (VU16 v) => (Some v, [])
  | Some other => (None, [mismatch (lit k) other "UINT16"])
  | None => (None, [MissingKey (lit k)])
  end.
Definition split_i32 (f : GgufFile) (k : string) : option Z * list FormatError :=
  match kv f (lit k) with
  | Some (VI32 v) => (Some v, [])
  | Some other => (None, [mismatch (lit k) other "INT32"])
  | None => (None, [MissingKey (lit k)])
  end.

Definition malformed_if (c : bool) (detail : Text) : list FormatError := problem_if c (Malformed 0 detail).

Definition split_problems (f : GgufFile) : list FormatError :=
  let '(no, p1) := split_u16 f "split.no" in
  let '(count, p2) := split_u16 f "split.count" in
  let '(total, p3) := split_i32 f "split.tensors.count" in
  p1 ++ p2 ++ p3 ++
  match no, count, total with
  | Some no, Some count, Some total =>
      (if count =? 0 then [Malformed 0 (msg "split.count must be >= 1" [])]
       else malformed_if (count <=? no) (msg "split.no {no} must be < split.count {count}" [Num no; Num count])) ++
      (if total <? 0 then [Malformed 0 (msg "split.tensors.count {tensors_count} must be >= 0" [Num total])]
       else if count =? 1 then
         malformed_if (negb (no =? 0)) (msg "single-shard split.no is {no}, expected 0" [Num no]) ++
         malformed_if (negb (total =? len (g_tensors f)))
           (msg "split.tensors.count is {tensors_count}, expected {}" [Num total; Num (len (g_tensors f))])
       else
         malformed_if (total <? len (g_tensors f))
           (msg "shard tensor count {} exceeds total split.tensors.count {tensors_count}"
              [Num (len (g_tensors f)); Num total]))
  | _, _, _ => []
  end.

Definition bad_range (name : list Z) (start end_ : Z) (reason : Text) : FormatError :=
  BadTensorRange name start end_ reason.

(** The byte range of one tensor, checked against the file size. *)
Definition tensor_span (f : GgufFile) (alignment : Z) (entry : nat * TensorInfo)
    : FormatResult (list FormatError * list (Z * Z * nat)) :=
  let '(index, t) := entry in
  match checked_add U64_MAX (g_data_start f) (t_offset t) with
  | None => Ok ([bad_range (t_name t) U64_MAX U64_MAX
                   (msg "data_start {} + offset {} overflows" [Num (g_data_start f); Num (t_offset t)])], [])
  | Some start =>
      let p := problem_if (negb (is_multiple_of (t_offset t) alignment))
                 (bad_range (t_name t) start start
                    (msg "tensor offset {} is not a multiple of alignment {alignment}" [Num (t_offset t); Num alignment])) in
      match tensor_nbytes f t with
      | Panic => Panic
      | Err e => Ok (p ++ [e], [])
      | Ok nbytes =>
          match checked_add U64_MAX start nbytes with
          | None => Ok (p ++ [bad_range (t_name t) start U64_MAX
                                (msg "range end {start} + {nbytes} bytes overflows" [Num start; Num nbytes])], [])
          | Some end_ =>
              if g_file_size f <? end_
              then Ok (p ++ [bad_range (t_name t) start end_
                               (msg "range end {end} is beyond file size {}" [Num end_; Num (g_file_size f)])], [])
              else Ok (p, [(start, end_, index)])
          end
      end
  end.

(** [spans.sort()]: lexicographic. *)
Definition span_le (a b : Z * Z * nat) : Prop :=
  let '(s1, e1, i1) := a in let '(s2, e2, i2) := b in
  s1 < s2 ∨ s1 = s2 ∧ (e1 < e2 ∨ e1 = e2 ∧ (i1 ≤ i2)%nat).
#[global] Instance span_le_dec : RelDecision span_le.
Proof. intros [[s1 e1] i1] [[s2 e2] i2]. unfold span_le. apply _. Defined.

Definition tensor_name_at (f : GgufFile) (i : nat) : FormatResult (list Z) :=
  let* t := or_panic (g_tensors f !! i) in Ok (t_name t).

(** The sweep over the sorted spans, with the furthest end so far. *)
Fixpoint overlap_problems (f : GgufFile) (mx : Z * Z * nat) (spans : list (Z * Z * nat)) : FormatResult (list FormatError) :=
  match spans with
  | [] => Ok []
  | (start, end_, index) :: spans =>
      let '(max_start, max_end, max_index) := mx in
      let* p :=
        if start <? max_end then
          let* name := tensor_name_at f index in
          let* other := tensor_name_at f max_index in
          Ok [bad_range name start end_
                (msg "overlaps {:?} [{max_start}, {max_end})" [Str other; Num max_start; Num max_end])]
        else Ok [] in
      let mx := if max_end <? end_ then (start, end_, index) else mx in
      let* ps := overlap_problems f mx spans in
      Ok (p ++ ps)
  end.

(** Native files: table order is file order, without gaps. *)
Definition sequence_step (f : GgufFile) (alignment : Z) (acc : Z * bool * list FormatError) (t : TensorInfo)
    : FormatResult (Z * bool * list FormatError) :=
  let '(expected, ok, problems) := acc in
  let start := saturating_add U64_MAX (g_data_start f) (t_offset t) in
  let '(ok, problems) :=
    if t_offset t =? expected then (ok, problems)
    else (false, problems ++
      [if expected <? t_offset t then
         bad_range (t_name t) start start
           (msg "native tensor {:?} offset {} does not immediately follow previous tensor end offset {} (dead gap of {} bytes)"
              [Str (t_name t); Num (t_offset t); Num expected; Num (t_offset t - expected)])
       else
         bad_range (t_name t) start start
           (msg "native tensor {:?} offset {} is out of sequence (expected offset {})"
              [Str (t_name t); Num (t_offset t); Num expected])]) in
  match tensor_nbytes f t with
  | Ok nbytes =>
      match (padded ← align_up nbytes alignment; checked_add U64_MAX expected padded) with
      | Some next_off => Ok (next_off, ok, problems)
      | None => Ok (expected, false, problems ++
                      [FmtOverflow "native expected_offset" (msg "tensor {:?} nbytes={nbytes}" [Str (t_name t); Num nbytes])])
      end
  | Err _ => Ok (expected, false, problems)
  | Panic => Panic
  end.

Definition sequence_problems (f : GgufFile) (alignment : Z) : FormatResult (list FormatError) :=
  let* (expected, ok, problems) := ofoldM (sequence_step f alignment) (0, true, []) (g_tensors f) in
  if (ok : bool) then
    let '(size, p) :=
      match checked_add U64_MAX (g_data_start f) expected with
      | Some s => (s, [])
      | None => (U64_MAX, [FmtOverflow "native expected_file_size"
                             (msg "data_start={} expected_offset={expected_offset}" [Num (g_data_start f); Num expected])])
      end in
    Ok (problems ++ p ++
      problem_if (size <? g_file_size f)
        (bad_range (default [] (t_name <$> last (g_tensors f))) size (g_file_size f)
           (msg "native file size {} exceeds end of tensor data {} (dead gap of {} bytes)"
              [Num (g_file_size f); Num size; Num (g_file_size f - size)])))
  else Ok problems.

(** [validate]: the file with its indexes, alignment and data start, or all
    the problems found. *)
Definition validate (f : GgufFile) (size_explicit : bool) : FormatResult GgufFile :=
  let '(kv_index, p1) := index_names DuplicateKey (map key (g_kvs f)) in
  let '(tensor_index, p2) := index_names (λ n, DuplicateTensor (msg "{}" [Str n])) (map t_name (g_tensors f)) in
  let f := {| g_version := g_version f; g_alignment := g_alignment f; g_kvs := g_kvs f; g_kv_index := kv_index;
              g_tensors := g_tensors f; g_tensor_index := tensor_index; g_data_start := g_data_start f;
              g_file_size := g_file_size f; g_header_range := g_header_range f; g_kv_range := g_kv_range f;
              g_ti_range := g_ti_range f |} in
  let '(alignment, p3) := declared_alignment f in
  let p4 := if is_native f then native_header_problems f alignment else [] in
  let p5 := if has_split_decl f then split_problems f else [] in
  let '(data_start, p6) :=
    match align_up (g_ti_range f).2 alignment with
    | Some start => (start, [])
    | None => (g_data_start f, [FmtOverflow "data_start" (msg "ti_end={} align={alignment}" [Num (g_ti_range f).2; Num alignment])])
    end in
  let f := {| g_version := g_version f; g_alignment := alignment; g_kvs := g_kvs f; g_kv_index := g_kv_index f;
              g_tensors := g_tensors f; g_tensor_index := g_tensor_index f; g_data_start := data_start;
              g_file_size := g_file_size f; g_header_range := g_header_range f; g_kv_range := g_kv_range f;
              g_ti_range := g_ti_range f |} in
  let problems := p1 ++ p2 ++ p3 ++ p4 ++ p5 ++ p6 in
  if size_explicit && (g_file_size f <? g_data_start f) then
    let* _ := collect (problems ++
      [Malformed 0 (msg "logical file size {} is smaller than data section start {}"
                      [Num (g_file_size f); Num (g_data_start f)])]) in
    Ok f
  else
    let p7 := problem_if (negb size_explicit && bool_decide (g_tensors f = []) && is_native f &&
                          (g_file_size f <? g_data_start f))
                (bad_range [] (g_file_size f) (g_data_start f)
                   (msg "data section start {} is beyond file size {}" [Num (g_data_start f); Num (g_file_size f)])) in
    let* spans := omapM (tensor_span f alignment) (enumerate (g_tensors f)) in
    let p8 := concat (map fst spans) in
    let* p9 :=
      match merge_sort span_le (concat (map snd spans)) with
      | [] => Ok []
      | first :: rest => overlap_problems f first rest
      end in
    let* p10 := if is_native f then sequence_problems f alignment else Ok [] in
    let* _ := collect (problems ++ p7 ++ p8 ++ p9 ++ p10) in
    Ok f.

(** ** Parsing *)

(** The header and the two tables, with the positions of their ends. *)
Definition read_tables : reader (Z * list KvEntry * list TensorInfo * (Z * Z * Z)) :=
  let! magic := read_u32 "magic" in
  if negb (magic =? GGUF_MAGIC) then sfail (BadMagic magic)
  else
    let! version := read_u32 "version" in
    if negb (bool_decide (version ∈ GGUF_VERSIONS_ACCEPTED))
    then sfail (UnsupportedVersion version GGUF_VERSIONS_ACCEPTED)
    else
      let! n_tensors := read_u64 "tensor count" in
      let! n_kv := read_u64 "metadata count" in
      let! c1 := sget in
      let! kvs := read_many n_kv read_kv in
      let! c2 := sget in
      let! tensors := read_many n_tensors read_tensor in
      let! c3 := sget in
      sret (version, kvs, tensors, (c_pos c1, c_pos c2, c_pos c3)).

Definition parse_internal (bytes : list Z) (file_size : Z) (size_explicit : bool) : FormatResult GgufFile :=
  let* (version, kvs, tensors, (header_end, kv_end, ti_end)) := (read_tables {| c_bytes := bytes; c_pos := 0 |}).1 in
  validate
    {| g_version := version; g_alignment := GGUF_DEFAULT_ALIGNMENT; g_kvs := kvs; g_kv_index := ∅;
       g_tensors := tensors; g_tensor_index := ∅; g_data_start := ti_end; g_file_size := file_size;
       g_header_range := (0, header_end); g_kv_range := (header_end, kv_end); g_ti_range := (kv_end, ti_end) |}
    size_explicit.

Definition parse (bytes : list Z) : FormatResult GgufFile := parse_internal bytes (len bytes) false.
Definition parse_metadata_only (bytes : list Z) (file_size : Z) : FormatResult GgufFile :=
  parse_internal bytes file_size true.

(** ** Views *)

Definition slice {E} (bytes : list Z) (start end_ : Z) : outcome E (list Z) :=
  if (start <=? end_) && (end_ <=? len bytes)
  then Ok (take (Z.to_nat (end_ - start)) (drop (Z.to_nat start) bytes))
  else Panic.

Definition tensor_bytes (f : GgufFile) (name bytes : list Z) : FormatResult (list Z) :=
  let* info := ok_or (tensor f name) (Malformed 0 (msg "no tensor named {name:?} in this shard" [Str name])) in
  let* start := ok_or (checked_add U64_MAX (g_data_start f) (t_offset info))
    (bad_range (t_name info) U64_MAX U64_MAX (msg "data_start + offset overflows" [])) in
  if negb (is_multiple_of (t_offset info) (g_alignment f))
  then Err (bad_range (t_name info) start start
              (msg "tensor offset {} is not a multiple of alignment {}" [Num (t_offset info); Num (g_alignment f)]))
  else
    let* nbytes := tensor_nbytes f info in
    let* end_ := ok_or (checked_add U64_MAX start nbytes)
      (bad_range (t_name info) start U64_MAX (msg "range end overflows" [])) in
    if len bytes <? end_
    then Err (bad_range (t_name info) start end_
                (msg "range end {end} is beyond buffer size {}" [Num end_; Num (len bytes)]))
    else slice bytes start end_.

(** [entry_xxh3] and [file_fp], over the hash functions of [r9v-common]. *)
Definition entry_xxh3 (xxh3_64 : list Z → Z) (f : GgufFile) (name bytes : list Z) : FormatResult Z :=
  let* b := tensor_bytes f name bytes in Ok (xxh3_64 b).

Definition file_fp (xxh3_128 : list Z → Z) (f : GgufFile) (bytes : list Z) (shard_count : Z) : FormatResult Z :=
  let max_needed := Z.max (Z.max (g_header_range f).2 (g_ti_range f).2) (g_kv_range f).2 in
  if len bytes <? max_needed
  then Err (Truncated (len bytes) (max_needed - len bytes) "file_fp metadata bytes")
  else
    let* header := slice bytes (g_header_range f).1 (g_header_range f).2 in
    let* ti := slice bytes (g_ti_range f).1 (g_ti_range f).2 in
    let* kvb := slice bytes (g_kv_range f).1 (g_kv_range f).2 in
    Ok (xxh3_128 (header ++ ti ++ kvb ++ le_bytes 8 (g_file_size f) ++ le_bytes 8 shard_count)).

Definition model_fp (xxh3_128 : list Z → Z) (file_fp : Z) (tensor_hashes : list Z) : Z :=
  xxh3_128 (le_bytes 16 file_fp ++ concat (map (le_bytes 8) tensor_hashes)).
