(* ===== verification/GgufWriter.v ===== *)
(** * Writing a GGUF file

    [GgufWriter] of [crates/r9v-format/src/container.rs]: adding entries and
    tensors, and emitting the file, the native checks included. *)

From S2P Require Import Prelude Bytes Format Tiles Permute Regions Gguf GgufFile.

#[global] Open Scope Z_scope.

Record OutTensor : Type := {
  o_name : list Z;
  o_shape : list Z;
  o_dtype : TensorType;
  o_data : list Z;
}.

Record GgufWriter : Type := {
  w_kvs : list KvEntry;
  w_tensors : list OutTensor;
  w_alignment : Z;
}.
Abbreviation writer := (stm GgufWriter FormatError).

Definition writer_new : GgufWriter :=
  {| w_kvs := []; w_tensors := []; w_alignment := GGUF_DEFAULT_ALIGNMENT |}.

Definition with_alignment (w : GgufWriter) (alignment : Z) : FormatResult GgufWriter :=
  if (alignment =? 0) || negb (is_power_of_two alignment) then Err (InvalidAlignment alignment)
  else Ok {| w_kvs := w_kvs w; w_tensors := w_tensors w; w_alignment := alignment |}.

Definition check_array_item (k : list Z) (elem : KvType) (item : KvValue) : FormatResult unit :=
  match item with
  | VArray _ _ => Err (Malformed 0 (msg "metadata key {key:?}: nested arrays are not valid GGUF metadata" [Str k]))
  | _ => if negb (bool_decide (kv_type item = elem))
         then Err (KvTypeMismatch k (kv_type_name (kv_type item)) (kv_type_name elem))
         else Ok tt
  end.

Definition check_array (k : list Z) (v : KvValue) : FormatResult unit :=
  match v with
  | VArray elem items =>
      if bool_decide (elem = KtArray)
      then Err (Malformed 0 (msg "metadata key {key:?}: declared array element type cannot be Array" [Str k]))
      else oforM (check_array_item k elem) items
  | _ => Ok tt
  end.

Definition add_kv (k : list Z) (v : KvValue) : writer unit :=
  let! w := sget in
  if existsb (λ e, bool_decide (key e = k)) (w_kvs w) then sfail (DuplicateKey k)
  else
    let! _ := slift (check_array k v) in
    smodify (λ w, {| w_kvs := w_kvs w ++ [{| key := k; value := v |}]; w_tensors := w_tensors w;
                     w_alignment := w_alignment w |}).

Definition invalid_shape (name shape : list Z) (dtype : TensorType) : FormatError :=
  Malformed 0 (msg "tensor {name:?}: invalid shape {shape:?} for type {dtype:?}"
                 (Str name :: Nums shape :: tensor_type_name dtype)).

(** The length an [L1] entry of 16-bit elements has, if it has one. *)
Definition l1_half_len (dims : list Z) : option Z :=
  k ← (d0 ← head dims; try_from U32_MAX d0);
  n ← (if (length dims =? 1)%nat then Some 1 else p ← checked_product (tail dims); try_from U32_MAX p);
  match dims_new n k None with
  | Ok d => match value_region_bytes d Half16 with
            | Ok vb => align_up vb NATIVE_ALIGNMENT
            | _ => None
            end
  | _ => None
  end.

(** The checks of [add_tensor] on the data, by type. *)
Definition check_tensor_data (name shape : list Z) (dtype : TensorType) (data : list Z) : FormatResult unit :=
  let file_dims := rev shape in
  let actual := len data in
  match dtype with
  | R9v _ =>
      if bool_decide (data = []) || negb (is_multiple_of actual NATIVE_ALIGNMENT)
      then Err (LengthMismatch "native tensor data" NATIVE_ALIGNMENT actual)
      else Ok tt
  | TF16 | TBF16 =>
      let* wire_len := ok_or (data_nbytes dtype file_dims) (invalid_shape name shape dtype) in
      let* l0_len := ok_or (align_up wire_len NATIVE_ALIGNMENT)
                       (FmtOverflow "tensor l0 len" (msg "wire_len={wire_len}" [Num wire_len])) in
      if (actual =? wire_len) || (actual =? l0_len) || bool_decide (l1_half_len file_dims = Some actual) then Ok tt
      else Err (LengthMismatch "tensor data" wire_len actual)
  | TF32 =>
      let* wire_len := ok_or (data_nbytes dtype file_dims) (invalid_shape name shape dtype) in
      let l0_len := if (length file_dims =? 1)%nat then align_up wire_len NATIVE_ALIGNMENT else None in
      if (actual =? wire_len) || bool_decide (l0_len = Some actual) then Ok tt
      else Err (LengthMismatch "tensor data" wire_len actual)
  | dtype =>
      match quant_size dtype with
      | Some (block_len, _) =>
          let* d0 := vec_get file_dims 0 in
          if (block_len =? 0) || negb (is_multiple_of d0 block_len)
          then Err (Malformed 0 (msg "tensor {name:?}: innermost dimension {file_dim0} is not a multiple of block length {block_len}"
                                   [Str name; Num d0; Num block_len]))
          else
            let* expected := ok_or (data_nbytes dtype file_dims) (invalid_shape name shape dtype) in
            if negb (expected =? actual) then Err (LengthMismatch "tensor data" expected actual) else Ok tt
      | None => Err (Malformed 0 (msg "tensor {name:?}: unsupported type {dtype:?}" (Str name :: tensor_type_name dtype)))
      end
  end.

Definition check_shape (name shape : list Z) : FormatResult unit :=
  if bool_decide (shape = []) then Err (Malformed 0 (msg "tensor {name:?}: shape cannot be empty" [Str name]))
  else if existsb (λ d, d =? 0) shape
  then Err (Malformed 0 (msg "tensor {name:?}: shape contains zero dimension" [Str name]))
  else Ok tt.

Definition add_tensor (name shape : list Z) (dtype : TensorType) (data : list Z) : writer unit :=
  let! w := sget in
  if existsb (λ t, bool_decide (o_name t = name)) (w_tensors w)
  then sfail (DuplicateTensor (msg "{}" [Str name]))
  else
    let! _ := slift (check_shape name shape) in
    let! _ := slift (check_tensor_data name shape dtype data) in
    smodify (λ w, {| w_kvs := w_kvs w;
                     w_tensors := w_tensors w ++ [{| o_name := name; o_shape := shape; o_dtype := dtype; o_data := data |}];
                     w_alignment := w_alignment w |}).

(** [kvs.iter().find(..)]. *)
Definition find_kv (kvs : list KvEntry) (k : list Z) : option KvValue :=
  value <$> (snd <$> list_find (λ e, key e = k) kvs).
Definition writer_kv (w : GgufWriter) (k : list Z) : option KvValue := find_kv (w_kvs w) k.

Definition writer_native (w : GgufWriter) : bool :=
  native_tables (map key (w_kvs w)) (map o_dtype (w_tensors w)).

(** ** Emitting *)

Definition check_len (what : string) (expected got : Z) : FormatResult unit :=
  if negb (got =? expected) then Err (LengthMismatch what expected got) else Ok tt.

(** [r9v.format_version] and [r9v.layout_id] of a native file. *)
Definition emit_version (w : GgufWriter) : FormatResult unit :=
  match writer_kv w (lit "r9v.format_version") with
  | Some (VU32 v) => accept_format_version (Some v)
  | Some other => Err (mismatch (lit "r9v.format_version") other "UINT32")
  | None => Err (MissingKey (lit "r9v.format_version"))
  end.

Definition emit_layout (w : GgufWriter) : FormatResult Layout :=
  match writer_kv w (lit "r9v.layout_id") with
  | Some (VStr s) => layout_from_name (canonical_layout s)
  | Some other => Err (mismatch (lit "r9v.layout_id") other "STRING")
  | None => Err (MissingKey (lit "r9v.layout_id"))
  end.

Definition emit_scheme (lookup : lookup_fn) (name : list Z) (scheme : SchemeId) : FormatResult unit :=
  let scheme_key := tensor_key name ".scheme" in
  match lookup scheme_key with
  | Some (VStr s) =>
      if negb (bool_decide (s = lit (scheme_name scheme)))
      then Err (Malformed 0 (msg "tensor {:?} declared scheme {:?}, expected {:?} (Spec 2 §4)"
                               [Str name; Str s; Name (scheme_name scheme)]))
      else Ok tt
  | Some other => Err (mismatch scheme_key other "STRING")
  | None => Ok tt
  end.

(** [F32] of the writer: the first extent is the element count. *)
Definition emit_f32_bytes (lookup : lookup_fn) (name : list Z) (dims : list Z) : FormatResult Z :=
  let* _ := check_unquantized lookup name TF32 in
  if negb (length dims =? 1)%nat
  then Err (Malformed 0 (msg "native F32 tensor {:?} must be 1D (got {} dims; Spec 2 §3.3)" [Str name; Num (len dims)]))
  else
    let* roles := parse_tensor_roles lookup name in
    let* _ :=
      match roles with
      | Some [RVector] => Ok tt
      | Some roles => Err (Malformed 0 (msg "native F32 tensor {:?} declared roles {:?}, expected explicitly [vector] (Spec 2 §3.3, §4)"
                                          [Str name; Names (map role_debug roles)]))
      | None => Err (Malformed 0 (msg "native F32 tensor {:?} is missing required explicit role [vector] (Spec 2 §3.3, §4)"
                                    [Str name]))
      end in
    let* d0 := vec_get dims 0 in
    let* values := ok_or (checked_mul U64_MAX d0 4)
                     (FmtOverflow "tensor values_bytes" (msg "tensor {:?}" [Str name])) in
    let* entry := padded_entry values in
    let* _ := validate_explicit_regions_retained lookup name entry in
    Ok entry.

(** The checks on one tensor of a native file. *)
Definition emit_native_tensor (lookup : lookup_fn) (global : Layout) (t : OutTensor) : FormatResult unit :=
  let name := o_name t in
  let dims := rev (o_shape t) in
  let got := len (o_data t) in
  match o_dtype t with
  | R9v scheme =>
      let* k := dim_k name dims in
      let* n := dim_n name dims in
      let* _ := emit_scheme lookup name scheme in
      let* regions := r9v_regions lookup (Ok global) name dims scheme n k in
      check_len "native tensor data" (er_entry_bytes regions) got
  | (TF16 | TBF16) as dtype =>
      let* entry := half_entry_bytes lookup (Ok global) "tensor elems" name dims dtype in
      check_len "native tensor data" entry got
  | TF32 =>
      let* entry := emit_f32_bytes lookup name dims in
      check_len "native tensor data" entry got
  | dtype => Err (unsupported_native name dtype)
  end.

Definition emit_standard_tensor (t : OutTensor) : FormatResult unit :=
  match data_nbytes (o_dtype t) (rev (o_shape t)) with
  | Some expected => check_len "tensor data" expected (len (o_data t))
  | None => Ok tt
  end.

(** Everything checked before a byte is written. *)
Definition emit_checks (w : GgufWriter) : FormatResult unit :=
  if writer_native w then
    let* _ := if negb (w_alignment w =? 4096) then Err (InvalidAlignment (w_alignment w)) else Ok tt in
    let* _ := emit_version w in
    let* global := emit_layout w in
    oforM (emit_native_tensor (writer_kv w) global) (w_tensors w)
  else oforM emit_standard_tensor (w_tensors w).

(** The tensor table: each offset advances by the padded size before it. *)
Definition table_step (alignment : Z) (acc : Z * list TensorInfo) (t : OutTensor) : FormatResult (Z * list TensorInfo) :=
  let '(offset, rows) := acc in
  let row := {| t_name := o_name t; t_dims := rev (o_shape t); t_dtype := o_dtype t; t_offset := offset |} in
  let size := len (o_data t) in
  let* offset := ok_or (padded ← align_up size alignment; checked_add U64_MAX offset padded)
    (FmtOverflow "tensor table offset" (msg "tensor {:?} size={size}" [Str (o_name t); Num size])) in
  Ok (offset, rows ++ [row]).

Definition tensor_table (w : GgufWriter) : FormatResult (Z * list TensorInfo) :=
  ofoldM (table_step (w_alignment w)) (0, []) (w_tensors w).

(** [out.resize(out.len() + pad, 0)]. *)
Definition pad_zeros (n : Z) : list Z := replicate (Z.to_nat n) 0.

Definition padded_data (alignment : Z) (t : OutTensor) : FormatResult (list Z) :=
  let size := len (o_data t) in
  let* padded := ok_or (align_up size alignment)
    (FmtOverflow "tensor data padding" (msg "tensor {:?} size={size}" [Str (o_name t); Num size])) in
  Ok (o_data t ++ pad_zeros (padded - size)).

(** The header and the metadata table. *)
Definition encode_head (w : GgufWriter) : list Z :=
  le_bytes 4 GGUF_MAGIC ++ le_bytes 4 GGUF_VERSION ++ le_bytes 8 (len (w_tensors w)) ++
  le_bytes 8 (len (w_kvs w)) ++ concat (map encode_kv (w_kvs w)).

Definition emit (w : GgufWriter) : FormatResult (list Z) :=
  let* _ := emit_checks w in
  let* (_, rows) := tensor_table w in
  let out := encode_head w ++ concat (map encode_tensor rows) in
  let* start := ok_or (align_up (len out) (w_alignment w))
    (FmtOverflow "data section padding" (msg "header_len={}" [Num (len out)])) in
  let* data := oflatM (padded_data (w_alignment w)) (w_tensors w) in
  Ok (out ++ pad_zeros (start - len out) ++ data).
