(* ===== verification/GgufSound.v ===== *)
(** * What a parsed GGUF file guarantees

    No input makes the reader panic, and the file of a successful parse has
    unique names, aligned and disjoint tensors inside the file, and tables
    that are exactly the bytes read. *)

From S2P Require Import Prelude Bytes Format Tiles Permute Regions Gguf GgufCodec GgufFile.

#[global] Open Scope Z_scope.

(** ** Nothing panics *)

Lemma named_scheme_total s : scheme_from_name s ≠ Panic.
Proof. unfold scheme_from_name. auto with total. Qed.
Lemma layout_from_name_total s : layout_from_name s ≠ Panic.
Proof. unfold layout_from_name. auto with total. Qed.
Lemma role_parse_total s : role_parse s ≠ Panic.
Proof. unfold role_parse. auto with total. Qed.
#[export] Hint Resolve named_scheme_total layout_from_name_total role_parse_total : total.

Lemma omapM_no_panic {E A B} (f : A → outcome E B) l : (∀ x, f x ≠ Panic) → omapM f l ≠ Panic.
Proof. intros H. induction l as [|x l IH]; simpl; auto with total. Qed.
#[export] Hint Resolve omapM_no_panic : total.

Lemma check_r9v_tensor_scheme_total lk n s : check_r9v_tensor_scheme lk n s ≠ Panic.
Proof.
  unfold check_r9v_tensor_scheme. repeat case_match; try done. apply obind_total; auto with total.
  intros. by case_match.
Qed.

Lemma parse_role_item_total k n i : parse_role_item k n i ≠ Panic.
Proof.
  unfold parse_role_item. destruct i; try done. pose proof (role_parse_total s).
  destruct (role_parse s); done.
Qed.
Lemma parse_tensor_roles_total lk n : parse_tensor_roles lk n ≠ Panic.
Proof.
  unfold parse_tensor_roles. repeat case_match; try done.
  apply obind_total; [apply omapM_no_panic; intros; apply parse_role_item_total|]. intros. by case_match.
Qed.

Lemma vec_get_total {E A} (l : list A) i : (Z.to_nat i < length l)%nat → vec_get (E:=E) l i ≠ Panic.
Proof. intros Hi. unfold vec_get. apply lookup_lt_is_Some_2 in Hi as [x ->]. done. Qed.

Lemma parse_explicit_regions_total v k n : parse_explicit_regions v k n ≠ Panic.
Proof.
  unfold parse_explicit_regions. destruct v as [| | | | | | | | |elem items| | |]; try done.
  destruct (negb (bool_decide _)); [done|]. destruct (negb (len items =? 3)) eqn:Hl; [done|]. apply negb_false_iff, Z.eqb_eq in Hl.
  apply obind_total; [apply omapM_no_panic; intros i; by destruct i|].
  intros l Hm. apply omapM_Forall2, Forall2_length in Hm. unfold len in Hl.
  repeat (apply obind_total; [apply vec_get_total; lia|intros ? _]). by case_match.
Qed.
Lemma validate_explicit_regions_total lk n e : validate_explicit_regions lk n e ≠ Panic.
Proof.
  unfold validate_explicit_regions. case_match; [|done].
  apply obind_total; [apply parse_explicit_regions_total|]. intros. by case_match.
Qed.
Lemma sparse_flag_total lk n : sparse_flag lk n ≠ Panic.
Proof. unfold sparse_flag. repeat case_match; done. Qed.
Lemma check_vector_roles_total d n r : check_vector_roles d n r ≠ Panic.
Proof. unfold check_vector_roles. repeat case_match; done. Qed.
Lemma check_unquantized_total lk n t : check_unquantized lk n t ≠ Panic.
Proof. unfold check_unquantized. repeat case_match; done. Qed.
Lemma file_layout_total lk : file_layout lk ≠ Panic.
Proof. unfold file_layout. repeat case_match; auto with total. Qed.
Lemma dense_layout_total d r g : g ≠ Panic → dense_layout d r g ≠ Panic.
Proof. unfold dense_layout. repeat case_match; done. Qed.
Lemma dim_k_total n d : d ≠ [] → dim_k n d ≠ Panic.
Proof.
  intros Hd. unfold dim_k. apply obind_total; [|auto with total].
  apply vec_get_total. destruct d; [done|simpl; lia].
Qed.
Lemma dim_n_total n d : dim_n n d ≠ Panic.
Proof. unfold dim_n. case_match; auto with total. Qed.
Lemma padded_entry_total v : padded_entry v ≠ Panic.
Proof. unfold padded_entry. auto with total. Qed.
#[export] Hint Resolve check_r9v_tensor_scheme_total parse_tensor_roles_total validate_explicit_regions_total
  sparse_flag_total check_vector_roles_total check_unquantized_total file_layout_total dense_layout_total
  dim_k_total dim_n_total padded_entry_total entry_regions_total : total.

Lemma r9v_regions_total lk g name dims s n k : g ≠ Panic → r9v_regions lk g name dims s n k ≠ Panic.
Proof.
  intros Hg. unfold r9v_regions.
  apply obind_total; [auto with total|intros sp _].
  apply obind_total; [auto with total|intros roles _].
  apply obind_total; [case_match; auto with total|intros _ _].
  apply obind_total; [repeat case_match; try done; simpl; repeat case_match; done|intros _ _].
  apply obind_total; [case_match; auto with total|intros layout _]. auto with total.
Qed.

Lemma half_entry_bytes_total lk g w name dims t :
  g ≠ Panic → dims ≠ [] → half_entry_bytes lk g w name dims t ≠ Panic.
Proof.
  intros Hg Hd. unfold half_entry_bytes.
  apply obind_total; [auto with total|intros _ _]. apply obind_total; [auto with total|intros roles _].
  apply obind_total; [auto with total|intros _ _]. apply obind_total; [auto with total|intros layout _].
  apply obind_total; [|unfold validate_explicit_regions_retained; auto with total].
  destruct layout; auto 12 with total.
Qed.

Lemma f32_entry_bytes_total lk name dims : f32_entry_bytes lk name dims ≠ Panic.
Proof.
  unfold f32_entry_bytes, validate_explicit_regions_retained. apply obind_total; [auto with total|intros _ _].
  case_match; [done|]. apply obind_total; [auto with total|intros roles _].
  apply obind_total; [repeat case_match; done|intros _ _]. auto 8 with total.
Qed.

Lemma nbytes_in_total lk native info : nbytes_in lk native info ≠ Panic.
Proof.
  assert (native_nbytes lk info ≠ Panic) as Hn.
  { unfold native_nbytes. case_bool_decide as Hd; [done|]. case_match; [done|].
    destruct (t_dtype info); try done.
    - apply f32_entry_bytes_total.
    - apply half_entry_bytes_total; auto with total.
    - apply half_entry_bytes_total; auto with total.
    - repeat (apply obind_total; [auto using r9v_regions_total with total|intros ? _]). done. }
  assert (standard_nbytes info ≠ Panic) as Hs.
  { unfold standard_nbytes. case_match; [done|]. case_bool_decide as Hd; [done|]. case_match; [done|].
    destruct (quant_size _) as [[bl bb]|]; [|done].
    apply obind_total; [|intros; repeat case_match; done].
    apply vec_get_total. destruct (t_dims info); [done|simpl; lia]. }
  unfold nbytes_in. destruct (t_dtype info); try done; by destruct native.
Qed.

(** ** Indexes *)

Lemma list_elem_of_first {A} `{EqDecision A} (x : A) (l : list A) :
  x ∈ l ↔ ∃ i, l !! i = Some x ∧ ∀ j, (j < i)%nat → l !! j ≠ Some x.
Proof.
  split; [|intros (i & Hi & _); by eapply list_elem_of_lookup_2].
  induction l as [|y l IH]; [by intros ?%elem_of_nil|]. destruct (decide (x = y)) as [->|Hne].
  - intros _. exists 0%nat. split; [done|lia].
  - intros [->|Hx]%elem_of_cons; [done|]. destruct (IH Hx) as (i & Hi & Hf). exists (S i).
    split; [done|]. intros [|j] Hj; [simpl; congruence|]. apply Hf. lia.
Qed.

Section index.
Context (dup : list Z → FormatError).

(** The index of a table maps every name to its first position. *)
Lemma index_names_spec names :
  let '(index, problems) := index_names dup names in
  (∀ name i, index !! name = Some i ↔ names !! i = Some name ∧ ∀ j, (j < i)%nat → names !! j ≠ Some name) ∧
  (problems = [] ↔ NoDup names).
Proof.
  unfold index_names. induction names as [|name names IH] using rev_ind.
  { simpl. split; [|by split; [constructor|]]. intros n i. rewrite lookup_empty. naive_solver. }
  rewrite enumerate_snoc, foldl_app. simpl.
  destruct (foldl (index_step dup) (∅, []) (enumerate names)) as [index problems]. destruct IH as [Hi Hp]. simpl.
  assert (∀ i n, (i < length names)%nat → (names ++ [name]) !! i = Some n ↔ names !! i = Some n) as Hlt.
  { intros i n Hlt. by rewrite lookup_app_l. }
  assert (is_Some (index !! name) ↔ name ∈ names) as Hin.
  { split.
    - intros [i [H _]%Hi]. by eapply list_elem_of_lookup_2.
    - intros (i & Hn & Hfirst)%list_elem_of_first. exists i. by apply Hi. }
  destruct (index !! name) as [i0|] eqn:H0.
  - assert (name ∈ names) as Hm by (apply Hin; eauto). split.
    + intros n i. rewrite Hi. split.
      * intros [Hl Hf]. pose proof (lookup_lt_Some _ _ _ Hl). split; [by apply Hlt|].
        intros j Hj. rewrite Hlt by lia. by apply Hf.
      * intros [Hl Hf]. destruct (decide (i < length names)%nat) as [Hil|Hil].
        { split; [by apply Hlt|]. intros j Hj. specialize (Hf j Hj). by rewrite Hlt in Hf by lia. }
        apply Hi in H0 as [Hl0 _]. pose proof (lookup_lt_Some _ _ _ Hl0).
        apply lookup_lt_Some in Hl as Hl2. rewrite length_app in Hl2. simpl in Hl2.
        assert (i = length names) as -> by lia. rewrite lookup_app_r, Nat.sub_diag in Hl by lia. injection Hl as ->.
        exfalso. apply (Hf i0); [lia|]. by apply Hlt.
    + split; [by intros [_ ?]%app_nil|]. intros (_ & Hd & _)%NoDup_app. exfalso. eapply Hd; [exact Hm|by left].
  - assert (name ∉ names) as Hm.
    { by intros [i Hc]%Hin. }
    split.
    + intros n i. destruct (decide (n = name)) as [->|Hne].
      * rewrite lookup_insert_eq. split.
        { intros [= <-]. split; [by rewrite lookup_app_r, Nat.sub_diag by lia|].
          intros j Hj. rewrite lookup_app_l by lia. intros Hc. apply Hm. by eapply list_elem_of_lookup_2. }
        intros [Hl _]. f_equal. apply lookup_app_Some in Hl as [Hl|[Hge Hl]].
        { exfalso. apply Hm. by eapply list_elem_of_lookup_2. }
        destruct (i - length names)%nat eqn:Hd; [lia|done].
      * rewrite lookup_insert_ne by done. rewrite Hi. split.
        { intros [Hl Hf]. pose proof (lookup_lt_Some _ _ _ Hl). split; [by apply Hlt|].
          intros j Hj. rewrite Hlt by lia. by apply Hf. }
        intros [Hl Hf]. apply lookup_app_Some in Hl as [Hl|[Hge Hl]].
        { pose proof (lookup_lt_Some _ _ _ Hl). split; [done|].
          intros j Hj. specialize (Hf j Hj). by rewrite Hlt in Hf by lia. }
        destruct (i - length names)%nat as [|[|m]]; simpl in Hl; [|done..]. by injection Hl as <-.
    + rewrite Hp. split.
      * intros Hnd. apply NoDup_app. split_and!; [done| |apply NoDup_singleton].
        intros x Hx ->%list_elem_of_singleton. done.
      * by intros [? _]%NoDup_app.
Qed.

End index.

(** ** Spans *)

Definition span_start (s : Z * Z * nat) : Z := s.1.1.
Definition span_end (s : Z * Z * nat) : Z := s.1.2.

(** A clean sweep separates every two spans. *)
Lemma overlap_sound f mx spans :
  overlap_problems f mx spans = Ok [] →
  Forall (λ s, span_end mx ≤ span_start s) spans ∧
  ForallOrdPairs (λ a b, span_end a ≤ span_start b) spans.
Proof.
  revert mx. induction spans as [|[[s e] i] spans IH]; intros [[ms me] mi] Ho; [by split; constructor|].
  cbn [overlap_problems] in Ho. apply obind_Ok_inv in Ho as (p & Hp & (ps & Hps & [= Hnil])%obind_Ok_inv).
  apply app_nil in Hnil as [-> ->].
  destruct (Z.ltb_spec s me) as [Hlt|Hge].
  { apply obind_Ok_inv in Hp as (? & _ & (? & _ & ?)%obind_Ok_inv). done. }
  apply IH in Hps as [Hf Ho]. unfold span_start, span_end in *. simpl.
  assert (∀ x, x ∈ spans → me ≤ x.1.1 ∧ e ≤ x.1.1) as Hx.
  { rewrite Forall_forall in Hf. intros x Hx. specialize (Hf x Hx).
    destruct (Z.ltb_spec me e); simpl in Hf; lia. }
  split; constructor; try done; apply Forall_forall; intros x Hxs; apply Hx in Hxs; simpl; lia.
Qed.

Lemma overlap_total f mx spans :
  (mx.2 < length (g_tensors f))%nat → Forall (λ s : Z * Z * nat, (s.2 < length (g_tensors f))%nat) spans →
  overlap_problems f mx spans ≠ Panic.
Proof.
  intros Hmx Hs. revert mx Hmx. induction Hs as [|[[s e] i] spans Hi _ IH]; intros [[ms me] mi] Hmx; [done|].
  cbn [overlap_problems]. simpl in *.
  assert (∀ j, (j < length (g_tensors f))%nat → tensor_name_at f j ≠ Panic) as Ht.
  { intros j Hj. unfold tensor_name_at. apply lookup_lt_is_Some_2 in Hj as [t ->]. done. }
  apply obind_total.
  { case_match; [|done]. repeat (apply obind_total; [by apply Ht|intros ? _]). done. }
  intros p _. apply obind_total; [|done]. apply IH. by case_match.
Qed.

Lemma tensor_nbytes_total f t : tensor_nbytes f t ≠ Panic.
Proof. apply nbytes_in_total. Qed.
#[export] Hint Resolve tensor_nbytes_total : total.

Lemma tensor_span_total f al e : tensor_span f al e ≠ Panic.
Proof.
  unfold tensor_span. destruct e as [i t]. case_match; [|done].
  pose proof (tensor_nbytes_total f t). destruct (tensor_nbytes f t); [|done..]. repeat case_match; done.
Qed.

(** The span a tensor contributes, if any, is its own. *)
Lemma tensor_span_Ok f al i t p sp :
  tensor_span f al (i, t) = Ok (p, sp) →
  Forall (λ s : Z * Z * nat, s.2 = i) sp ∧
  (p = [] → ∃ n, tensor_nbytes f t = Ok n ∧ sp = [(g_data_start f + t_offset t, g_data_start f + t_offset t + n, i)] ∧
     t_offset t mod al = 0 ∧ g_data_start f + t_offset t + n ≤ g_file_size f ∧
     g_data_start f + t_offset t + n ≤ U64_MAX).
Proof.
  unfold tensor_span. destruct (checked_add _ _ _) as [start|] eqn:Hs; [|intros [= <- <-]; by split; [constructor|]].
  apply checked_add_Some in Hs as [-> Hs]. set (st := g_data_start f + t_offset t) in *.
  destruct (tensor_nbytes f t) as [n|e|]; [| |done].
  2:{ intros [= <- <-]. split; [constructor|]. by intros [_ ?]%app_nil. }
  destruct (checked_add _ st n) as [en|] eqn:He.
  2:{ intros [= <- <-]. split; [constructor|]. by intros [_ ?]%app_nil. }
  apply checked_add_Some in He as [-> He].
  destruct (Z.ltb_spec (g_file_size f) (st + n)).
  { intros [= <- <-]. split; [constructor|]. by intros [_ ?]%app_nil. }
  intros [= <- <-]. split; [by repeat constructor|]. intros Hp%problem_if_nil%negb_false_iff%Z.eqb_eq.
  exists n. done.
Qed.

Lemma sequence_step_total f al acc t : sequence_step f al acc t ≠ Panic.
Proof.
  unfold sequence_step. destruct acc as [[e ok] p]. pose proof (tensor_nbytes_total f t).
  destruct (if t_offset t =? e then _ else _) as [ok' p']. destruct (tensor_nbytes f t); [|done..]. by case_match.
Qed.

Lemma ofoldM_total {E A B} (f : A → B → outcome E A) acc l : (∀ a x, f a x ≠ Panic) → ofoldM f acc l ≠ Panic.
Proof. intros H. revert acc. induction l as [|x l IH]; intros acc; simpl; auto with total. Qed.

Lemma sequence_problems_total f al : sequence_problems f al ≠ Panic.
Proof.
  unfold sequence_problems. apply obind_total; [apply ofoldM_total, sequence_step_total|].
  intros [[e ok] p] _. destruct ok; [|done]. by case_match.
Qed.
#[export] Hint Resolve sequence_problems_total : total.

(** ** Validation *)

(** The facts a validated file satisfies. *)
Record file_ok (f : GgufFile) : Prop := {
  fo_keys : NoDup (map key (g_kvs f));
  fo_names : NoDup (map t_name (g_tensors f));
  fo_kv : ∀ e, e ∈ g_kvs f → kv f (key e) = Some (value e);
  fo_tensor : ∀ t, t ∈ g_tensors f → tensor f (t_name t) = Some t;
  fo_align : 0 < g_alignment f ∧ is_power_of_two (g_alignment f) = true;
  fo_start : g_data_start f mod g_alignment f = 0 ∧ (g_ti_range f).2 ≤ g_data_start f;
  fo_spans : ∀ i t, g_tensors f !! i = Some t → ∃ n, tensor_nbytes f t = Ok n ∧
     t_offset t mod g_alignment f = 0 ∧ g_data_start f + t_offset t + n ≤ g_file_size f ∧
     g_data_start f + t_offset t + n ≤ U64_MAX;
  fo_disjoint : ∀ i j t u n m, i ≠ j → g_tensors f !! i = Some t → g_tensors f !! j = Some u →
     tensor_nbytes f t = Ok n → tensor_nbytes f u = Ok m →
     t_offset t + n ≤ t_offset u ∨ t_offset u + m ≤ t_offset t;
}.

Lemma merge_sort_perm (l : list (Z * Z * nat)) : merge_sort span_le l ≡ₚ l.
Proof. apply merge_sort_Permutation. Qed.

(** The spans of validation, when none of its problems arose. *)
Lemma spans_sound f al spans ps :
  omapM (tensor_span f al) (enumerate (g_tensors f)) = Ok spans → concat (map fst spans) = [] →
  match merge_sort span_le (concat (map snd spans)) with
  | [] => Ok []
  | first :: rest => overlap_problems f first rest
  end = Ok ps → ps = [] →
  (∀ i t, g_tensors f !! i = Some t → ∃ n, tensor_nbytes f t = Ok n ∧ t_offset t mod al = 0 ∧
     g_data_start f + t_offset t + n ≤ g_file_size f ∧ g_data_start f + t_offset t + n ≤ U64_MAX) ∧
  (∀ i j t u n m, i ≠ j → g_tensors f !! i = Some t → g_tensors f !! j = Some u →
     tensor_nbytes f t = Ok n → tensor_nbytes f u = Ok m →
     t_offset t + n ≤ t_offset u ∨ t_offset u + m ≤ t_offset t).
Proof.
  intros Hsp Hp Ho ->. apply omapM_Forall2 in Hsp.
  assert (∀ i t, g_tensors f !! i = Some t → ∃ n, tensor_nbytes f t = Ok n ∧ t_offset t mod al = 0 ∧
     g_data_start f + t_offset t + n ≤ g_file_size f ∧ g_data_start f + t_offset t + n ≤ U64_MAX ∧
     (g_data_start f + t_offset t, g_data_start f + t_offset t + n, i) ∈ concat (map snd spans)) as Hspan.
  { intros i t Ht. assert (enumerate (g_tensors f) !! i = Some (i, t)) as He by (by apply enumerate_lookup).
    destruct (Forall2_lookup_l _ _ _ _ _ Hsp He) as ([p sp] & Hs & Hts).
    apply tensor_span_Ok in Hts as [_ Hts]. apply list_elem_of_lookup_2 in Hs as Hin.
    destruct Hts as (n & Hn & -> & Hal & Hle & Hu); [exact (proj1 (concat_map_nil fst spans) Hp _ Hin)|].
    exists n. split_and!; [done..|]. apply elem_of_concat_map. exists (p, [(g_data_start f + t_offset t, g_data_start f + t_offset t + n, i)]).
    split; [done|]. by left. }
  split.
  { intros i t Ht. destruct (Hspan i t Ht) as (n & ? & ? & ? & ? & _). eauto. }
  intros i j t u n m Hne Ht Hu Hn Hm.
  destruct (Hspan i t Ht) as (n' & Hn' & _ & _ & _ & Hi). destruct (Hspan j u Hu) as (m' & Hm' & _ & _ & _ & Hj).
  assert (n' = n) as -> by congruence. assert (m' = m) as -> by congruence.
  rewrite <- merge_sort_perm in Hi, Hj.
  destruct (merge_sort span_le _) as [|first rest]; [by apply elem_of_nil in Hi|].
  apply overlap_sound in Ho as [Hf Hpairs].
  assert (ForallOrdPairs (λ a b, span_end a ≤ span_start b) (first :: rest)) as Hall by (by constructor).
  apply list_elem_of_In in Hi, Hj. destruct (ForallOrdPairs_In Hall _ _ Hi Hj) as [Heq|[H|H]].
  - congruence.
  - left. unfold span_end, span_start in H. simpl in H. lia.
  - right. unfold span_end, span_start in H. simpl in H. lia.
Qed.

(** A lookup through the index finds the entry of the name. *)
Lemma index_lookup {A} (name : A → list Z) dup (l : list A) :
  NoDup (map name l) → ∀ x, x ∈ l → ((index_names dup (map name l)).1 !! name x ≫= λ i, l !! i) = Some x.
Proof.
  intros Hnd x (k & Hk)%list_elem_of_lookup. pose proof (index_names_spec dup (map name l)) as H.
  destruct (index_names dup (map name l)) as [index problems]. destruct H as [Hi _]. simpl.
  assert (map name l !! k = Some (name x)) as Hnk by (by rewrite list_lookup_fmap, Hk).
  assert (index !! name x = Some k) as ->; [|done].
  apply Hi. split; [done|]. intros j Hj Hc. assert (j = k) as -> by (by eapply NoDup_lookup). lia.
Qed.

Lemma declared_alignment_ok f :
  0 < (declared_alignment f).1 ∧ is_power_of_two (declared_alignment f).1 = true ∨
  ∃ v, kv f (lit "general.alignment") = Some (VU32 v) ∧ v < 0.
Proof.
  unfold declared_alignment. destruct (kv f _) as [v|] eqn:Hk; [|by left].
  destruct v as [| | | |v| | | | | | | |]; try by left. destruct (_ || _) eqn:Hb; [by left|].
  apply orb_false_iff in Hb as [?%Z.eqb_neq Hp%negb_false_iff]. destruct (decide (v < 0)); [right; eauto|left].
  simpl. split; [lia|done].
Qed.

(** The numbers a parsed table holds are in their types. *)
Definition tables_ok (f : GgufFile) : Prop :=
  Forall kv_ok (g_kvs f) ∧ Forall tensor_ok (g_tensors f) ∧ 0 ≤ (g_ti_range f).2.

Lemma kv_elem f k v : kv f k = Some v → ∃ e, e ∈ g_kvs f ∧ value e = v.
Proof.
  unfold kv. destruct (g_kv_index f !! k) as [i|]; [simpl|done].
  destruct (g_kvs f !! i) as [e|] eqn:He; [|done]. intros [= <-]. exists e.
  split; [by eapply list_elem_of_lookup_2|done].
Qed.

Lemma declared_alignment_pos f :
  Forall kv_ok (g_kvs f) → 0 < (declared_alignment f).1 ∧ is_power_of_two (declared_alignment f).1 = true.
Proof.
  intros Hk. destruct (declared_alignment_ok f) as [H|(v & (e & He & Hv)%kv_elem & Hneg)]; [done|].
  rewrite Forall_forall in Hk. destruct (Hk e He) as [_ Hve]. rewrite Hv in Hve. simpl in Hve. lia.
Qed.

(** The file between the two halves of validation. *)
Definition indexed (f : GgufFile) : GgufFile :=
  {| g_version := g_version f; g_alignment := g_alignment f; g_kvs := g_kvs f;
     g_kv_index := (index_names DuplicateKey (map key (g_kvs f))).1; g_tensors := g_tensors f;
     g_tensor_index := (index_names (λ n, DuplicateTensor (msg "{}" [Str n])) (map t_name (g_tensors f))).1;
     g_data_start := g_data_start f; g_file_size := g_file_size f; g_header_range := g_header_range f;
     g_kv_range := g_kv_range f; g_ti_range := g_ti_range f |}.
Definition placed (f : GgufFile) (alignment data_start : Z) : GgufFile :=
  {| g_version := g_version f; g_alignment := alignment; g_kvs := g_kvs f; g_kv_index := g_kv_index f;
     g_tensors := g_tensors f; g_tensor_index := g_tensor_index f; g_data_start := data_start;
     g_file_size := g_file_size f; g_header_range := g_header_range f; g_kv_range := g_kv_range f;
     g_ti_range := g_ti_range f |}.

(** The problems of the tables, before any range. *)
Definition table_problems (f : GgufFile) : list FormatError :=
  let g := indexed f in
  let alignment := (declared_alignment g).1 in
  (index_names DuplicateKey (map key (g_kvs f))).2 ++
  (index_names (λ n, DuplicateTensor (msg "{}" [Str n])) (map t_name (g_tensors f))).2 ++
  (declared_alignment g).2 ++
  (if is_native g then native_header_problems g alignment else []) ++
  (if has_split_decl g then split_problems g else []) ++
  match align_up (g_ti_range f).2 alignment with
  | Some _ => []
  | None => [FmtOverflow "data_start" (msg "ti_end={} align={alignment}" [Num (g_ti_range f).2; Num alignment])]
  end.

(** The file validation returns. *)
Definition validated (f : GgufFile) : GgufFile :=
  let g := indexed f in
  let alignment := (declared_alignment g).1 in
  placed g alignment (default (g_data_start f) (align_up (g_ti_range f).2 alignment)).

(** The second half: ranges and sequence. *)
Definition range_problems (f : GgufFile) (size_explicit : bool) : FormatResult (list FormatError) :=
  let p7 := problem_if (negb size_explicit && bool_decide (g_tensors f = []) && is_native f &&
                        (g_file_size f <? g_data_start f))
              (bad_range [] (g_file_size f) (g_data_start f)
                 (msg "data section start {} is beyond file size {}" [Num (g_data_start f); Num (g_file_size f)])) in
  let* spans := omapM (tensor_span f (g_alignment f)) (enumerate (g_tensors f)) in
  let* p9 :=
    match merge_sort span_le (concat (map snd spans)) with
    | [] => Ok []
    | first :: rest => overlap_problems f first rest
    end in
  let* p10 := if is_native f then sequence_problems f (g_alignment f) else Ok [] in
  Ok (p7 ++ concat (map fst spans) ++ p9 ++ p10).

Lemma obind_assoc {E A B C} (c : outcome E A) (f : A → outcome E B) (g : B → outcome E C) :
  obind (obind c f) g = obind c (λ x, obind (f x) g).
Proof. by destruct c. Qed.

(** [validate] in these terms. *)
Lemma validate_eq f ex :
  validate f ex =
    if ex && (g_file_size f <? g_data_start (validated f)) then
      let* _ := collect (table_problems f ++
        [Malformed 0 (msg "logical file size {} is smaller than data section start {}"
                        [Num (g_file_size f); Num (g_data_start (validated f))])]) in Ok (validated f)
    else
      let* ps := range_problems (validated f) ex in
      let* _ := collect (table_problems f ++ ps) in Ok (validated f).
Proof.
  unfold validate, table_problems, range_problems, validated, indexed.
  destruct (index_names DuplicateKey _) as [ki p1]. destruct (index_names _ (map t_name _)) as [ti p2]. cbn [fst snd].
  set (g := {| g_version := g_version f |}). change (g_data_start f) with (g_data_start g).
  destruct (declared_alignment g) as [al p3]. cbn [fst snd].
  change (g_ti_range g) with (g_ti_range f).
  set (ds := match align_up (g_ti_range f).2 al with Some s => (s, []) | None => _ end).
  assert (ds = (default (g_data_start g) (align_up (g_ti_range f).2 al),
    match align_up (g_ti_range f).2 al with Some _ => []
    | None => [FmtOverflow "data_start" (msg "ti_end={} align={alignment}" [Num (g_ti_range f).2; Num al])] end)) as ->
    by (unfold ds; by destruct (align_up _ al)).
  unfold placed. cbn [g_data_start g_file_size g_tensors g_alignment].
  change (g_file_size g) with (g_file_size f).
  destruct (ex && _).
  { by rewrite <- !app_assoc. }
  rewrite obind_assoc. destruct (omapM _ _) as [spans| |]; [|done..]. cbn [obind]. cbv zeta.
  rewrite obind_assoc. destruct (match merge_sort _ _ with [] => _ | _ => _ end) as [p9| |]; [|done..]. cbn [obind].
  rewrite obind_assoc. destruct (if is_native _ then sequence_problems _ _ else _) as [p10| |]; [|done..]. cbn [obind].
  by rewrite <- !app_assoc.
Qed.

Lemma spans_total f al spans :
  omapM (tensor_span f al) (enumerate (g_tensors f)) = Ok spans →
  match merge_sort span_le (concat (map snd spans)) with
  | [] => Ok []
  | first :: rest => overlap_problems f first rest
  end ≠ Panic.
Proof.
  intros Hsp%omapM_Forall2.
  assert (Forall (λ s : Z * Z * nat, (s.2 < length (g_tensors f))%nat) (merge_sort span_le (concat (map snd spans)))) as Hall.
  { rewrite merge_sort_perm. apply Forall_forall. intros s (x & Hx & Hs)%elem_of_concat_map.
    apply list_elem_of_lookup in Hx as [k Hk]. destruct (Forall2_lookup_r _ _ _ _ _ Hsp Hk) as ([i t] & He & Hts).
    apply enumerate_lookup in He as [-> Ht]. destruct x as [p sp]. apply tensor_span_Ok in Hts as [Hf _].
    rewrite Forall_forall in Hf. rewrite (Hf s Hs). by eapply lookup_lt_Some. }
  destruct (merge_sort span_le _) as [|first rest]; [done|]. apply Forall_cons in Hall as [? ?].
  by apply overlap_total.
Qed.

Lemma validate_total f ex : validate f ex ≠ Panic.
Proof.
  rewrite validate_eq. case_match; [auto with total|]. apply obind_total; [|auto with total].
  unfold range_problems. apply obind_total; [apply omapM_no_panic, tensor_span_total|intros spans Hs].
  apply obind_total; [by eapply spans_total|intros p9 _].
  apply obind_total; [|done]. case_match; auto with total.
Qed.

(** A file that validates has every guarantee of [file_ok]. *)
Lemma validate_sound f ex f' :
  tables_ok f → validate f ex = Ok f' →
  f' = validated f ∧ file_ok f' ∧ table_problems f = [] ∧ range_problems f' ex = Ok [].
Proof.
  intros (Hkv & Hti & Hend) Hv. rewrite validate_eq in Hv.
  destruct (ex && _).
  { apply obind_Ok_inv in Hv as ([] & Hc%collect_Ok & _). by apply app_nil in Hc as [_ ?]. }
  apply obind_Ok_inv in Hv as (ps & Hr & ([] & Hc%collect_Ok & [= <-])%obind_Ok_inv).
  apply app_nil in Hc as [Ht ->]. split; [done|]. split; [|done].
  unfold table_problems in Ht. apply app_nil in Ht as [Hk Ht]. apply app_nil in Ht as [Hn Ht].
  apply app_nil in Ht as [_ Ht]. apply app_nil in Ht as [_ Ht]. apply app_nil in Ht as [_ Hal].
  pose proof (index_names_spec DuplicateKey (map key (g_kvs f))) as Hki.
  pose proof (index_names_spec (λ n, DuplicateTensor (msg "{}" [Str n])) (map t_name (g_tensors f))) as Hni.
  assert (NoDup (map key (g_kvs f))) as Hkeys.
  { destruct (index_names DuplicateKey _). by apply Hki. }
  assert (NoDup (map t_name (g_tensors f))) as Hnames.
  { destruct (index_names _ (map t_name _)). by apply Hni. }
  pose proof (declared_alignment_pos (indexed f) Hkv) as Hpos.
  destruct (align_up (g_ti_range f).2 (declared_alignment (indexed f)).1) as [ds|] eqn:Hds; [clear Hal|done].
  apply align_up_Some in Hds as Hds'; [|done|lia].
  unfold range_problems in Hr. apply obind_Ok_inv in Hr as (spans & Hsp & Hr).
  apply obind_Ok_inv in Hr as (p9 & Hp9 & (p10 & _ & [= Hnil])%obind_Ok_inv).
  apply app_nil in Hnil as [_ Hnil]. apply app_nil in Hnil as [Hp8 Hnil]. apply app_nil in Hnil as [Hp9n _].
  destruct (spans_sound _ _ _ _ Hsp Hp8 Hp9 Hp9n) as [Hspans Hdis].
  constructor; try done.
  - intros e He. unfold kv, validated, placed, indexed. cbn [g_kv_index g_kvs].
    pose proof (index_lookup key DuplicateKey (g_kvs f) Hkeys e He) as Hl. cbn beta in Hl.
    destruct ((index_names DuplicateKey _).1 !! key e) as [i|]; [|done]. simpl in *. by rewrite Hl.
  - intros t Ht. by apply (index_lookup t_name _ (g_tensors f) Hnames t Ht).
  - unfold validated, placed, indexed. cbn [g_data_start g_alignment g_ti_range]. fold (indexed f).
    rewrite Hds. simpl. lia.
Qed.

(** ** Parsing *)

(** Running a reader from a cursor. *)
Definition wpr {A} (r : reader A) (c : Cursor) (Φ : A → Cursor → Prop) : Prop :=
  match r c with
  | (Ok a, c') => Φ a c'
  | (Err _, _) => True
  | (Panic, _) => False
  end.

Lemma wpr_bind {A B} (r : reader A) (k : A → reader B) c Φ : wpr r c (λ a c', wpr (k a) c' Φ) → wpr (sbind r k) c Φ.
Proof. unfold wpr, sbind. by destruct (r c) as [[a| |] c']. Qed.

Lemma advance_pos c e : c_pos (advance c e) = c_pos c + len e.
Proof. done. Qed.

(** A reader after [e0] has been read from [c0]. *)
Lemma wpr_parses {A} (Q : A → list Z → Prop) r c0 e0 Φ :
  cur_ok c0 → next c0 e0 → parses Q r → (∀ a e, Q a e → next c0 (e0 ++ e) → Φ a (advance c0 (e0 ++ e))) →
  wpr r (advance c0 e0) Φ.
Proof.
  intros Hc Hn Hr H. specialize (Hr _ (advance_ok _ _ Hc Hn)). unfold wpr.
  destruct (r (advance c0 e0)) as [[a| |] c']; [|done..].
  destruct Hr as (e & HQ & Hn' & ->). rewrite advance_app. apply H; [done|]. by apply next_app.
Qed.

(** The encoding of the header and the two tables. *)
Definition encode_tables (version : Z) (kvs : list KvEntry) (tensors : list TensorInfo) : list Z :=
  le_bytes 4 GGUF_MAGIC ++ le_bytes 4 version ++ le_bytes 8 (len tensors) ++ le_bytes 8 (len kvs) ++
  concat (map encode_kv kvs) ++ concat (map encode_tensor tensors).

Lemma next_at_start bytes e : next (cur bytes 0) e → ∃ rest, bytes = e ++ rest.
Proof. intros [rest Hr]. exists rest. exact Hr. Qed.

Lemma length_encode_kv e : (1 ≤ length (encode_kv e))%nat.
Proof. unfold encode_kv, encode_str. rewrite !length_app, length_le_bytes. lia. Qed.
Lemma length_encode_tensor t : (1 ≤ length (encode_tensor t))%nat.
Proof. unfold encode_tensor, encode_str. rewrite !length_app, length_le_bytes. lia. Qed.

Lemma parses_kvs n :
  0 ≤ n → parses (λ kvs e, e = concat (map encode_kv kvs) ∧ len kvs = n ∧ Forall kv_ok kvs) (read_many n read_kv).
Proof.
  intros Hn. eapply parses_mono; [|apply (parses_many (λ v e, e = encode_kv v ∧ kv_ok v)); [|done]].
  - intros kvs e (es & HF & Hl & ->). by apply Forall2_encoded in HF as [-> HF].
  - eapply parses_mono; [|apply parses_kv]. intros v e [-> Hkv]. split; [done|apply length_encode_kv].
Qed.
Lemma parses_tensors n :
  0 ≤ n → parses (λ ts e, e = concat (map encode_tensor ts) ∧ len ts = n ∧ Forall tensor_ok ts)
            (read_many n read_tensor).
Proof.
  intros Hn. eapply parses_mono; [|apply (parses_many (λ v e, e = encode_tensor v ∧ tensor_ok v)); [|done]].
  - intros kvs e (es & HF & Hl & ->). by apply Forall2_encoded in HF as [-> HF].
  - eapply parses_mono; [|apply parses_tensor]. intros v e [-> Hkv]. split; [done|apply length_encode_tensor].
Qed.

(** What the tables read are: canonical, well typed, where they say. *)
Lemma read_tables_spec bytes :
  Forall is_byte bytes → len bytes ≤ U64_MAX →
  wpr read_tables (cur bytes 0) (λ r _,
    let '(version, kvs, tensors, (header_end, kv_end, ti_end)) := r in
    version ∈ GGUF_VERSIONS_ACCEPTED ∧ Forall kv_ok kvs ∧ Forall tensor_ok tensors ∧
    (∃ rest, bytes = encode_tables version kvs tensors ++ rest) ∧
    header_end = 24 ∧ kv_end = 24 + len (concat (map encode_kv kvs)) ∧
    ti_end = len (encode_tables version kvs tensors)).
Proof.
  intros Hb Hmax. assert (cur_ok (cur bytes 0)) as Hc.
  { split; [done|]. simpl. pose proof (len_nonneg bytes). lia. }
  pose proof (next_nil (cur bytes 0)) as Hn0. rewrite <- (advance_nil (cur bytes 0)) at 1.
  unfold read_tables. apply wpr_bind, (wpr_parses _ _ _ _ _ Hc Hn0 (parses_uint 4 "magic")).
  intros magic e1 [-> _] Hn1. destruct (negb (magic =? GGUF_MAGIC)) eqn:Hm; [done|].
  apply negb_false_iff, Z.eqb_eq in Hm as ->.
  apply wpr_bind, (wpr_parses _ _ _ _ _ Hc Hn1 (parses_uint 4 "version")). intros version e2 [-> _] Hn2.
  destruct (negb (bool_decide _)) eqn:Hv; [done|]. apply negb_false_iff, bool_decide_eq_true in Hv.
  apply wpr_bind, (wpr_parses _ _ _ _ _ Hc Hn2 (parses_uint 8 "tensor count")). intros nt e3 [-> Hnt] Hn3.
  apply wpr_bind, (wpr_parses _ _ _ _ _ Hc Hn3 (parses_uint 8 "metadata count")). intros nk e4 [-> Hnk] Hn4.
  apply wpr_bind. unfold sget at 1, wpr at 1. apply wpr_bind, (wpr_parses _ _ _ _ _ Hc Hn4 (parses_kvs nk (proj1 Hnk))).
  intros kvs e5 (-> & Hlk & HFk) Hn5. apply wpr_bind. unfold sget at 1, wpr at 1.
  apply wpr_bind, (wpr_parses _ _ _ _ _ Hc Hn5 (parses_tensors nt (proj1 Hnt))).
  intros tensors e6 (-> & Hlt & HFt) Hn6. apply wpr_bind. unfold sget, wpr, sret.
  assert (encode_tables version kvs tensors =
    ((((([] ++ le_bytes 4 GGUF_MAGIC) ++ le_bytes 4 version) ++ le_bytes 8 nt) ++ le_bytes 8 nk) ++
     concat (map encode_kv kvs)) ++ concat (map encode_tensor tensors)) as He.
  { unfold encode_tables. rewrite Hlk, Hlt. by rewrite <- !app_assoc. }
  split_and!; [done..| |done| |].
  - rewrite He. by apply next_at_start.
  - rewrite advance_pos, !len_app, !len_le_bytes. done.
  - by rewrite He, advance_pos.
Qed.

(** C36: reading a GGUF file.  On no buffer does [parse] or
    [parse_metadata_only] panic.  A file that parses carries an accepted
    version, its buffer starts with exactly the encoding of its header and
    tables, whose keys and tensor names are unique and found by [kv] and
    [tensor]; the data section starts on the file's alignment behind the
    tables; and every tensor's range has a size, starts aligned, lies inside
    the file and overlaps no other. *)
Theorem parse_sound bytes file_size ex :
  Forall is_byte bytes → len bytes ≤ U64_MAX →
  match parse_internal bytes file_size ex with
  | Ok f =>
      g_version f ∈ GGUF_VERSIONS_ACCEPTED ∧ g_file_size f = file_size ∧ tables_ok f ∧
      (∃ rest, bytes = encode_tables (g_version f) (g_kvs f) (g_tensors f) ++ rest) ∧
      g_header_range f = (0, 24) ∧ g_kv_range f = (24, 24 + len (concat (map encode_kv (g_kvs f)))) ∧
      g_ti_range f = ((g_kv_range f).2, len (encode_tables (g_version f) (g_kvs f) (g_tensors f))) ∧
      file_ok f
  | Err _ => True
  | Panic => False
  end.
Proof.
  intros Hb Hmax. unfold parse_internal. pose proof (read_tables_spec bytes Hb Hmax) as Hr. unfold wpr, cur in Hr.
  destruct (read_tables _) as [[[[[version kvs] tensors] [[he ke] te]]| |] c']; [|done..].
  destruct Hr as (Hv & Hk & Ht & Hrest & -> & -> & ->). cbn [fst obind].
  set (f := {| g_version := version |}).
  pose proof (validate_total f ex) as Hvt. destruct (validate f ex) as [f'| |] eqn:Hval; [|done..].
  assert (tables_ok f) as Htab.
  { split_and!; [done..|]. simpl. apply len_nonneg. }
  destruct (validate_sound f ex f' Htab Hval) as (-> & Hok & _). done.
Qed.

(** [tensor_bytes] of a parsed file and its own buffer. *)
Lemma tensor_bytes_ok f bytes t :
  file_ok f → tables_ok f → t ∈ g_tensors f → g_file_size f = len bytes →
  ∃ n, tensor_nbytes f t = Ok n ∧
    (0 ≤ n → tensor_bytes f (t_name t) bytes =
      Ok (take (Z.to_nat n) (drop (Z.to_nat (g_data_start f + t_offset t)) bytes))).
Proof.
  intros Hok (_ & Htens & Hend) Ht Hsize. pose proof Ht as (i & Hi)%list_elem_of_lookup.
  destruct (fo_spans f Hok i t Hi) as (n & Hn & Hal & Hle & Hu). exists n. split; [done|]. intros H0.
  unfold tensor_bytes. rewrite (fo_tensor f Hok t Ht). cbn [ok_or obind].
  rewrite Forall_forall in Htens. destruct (Htens t Ht) as (_ & _ & _ & _ & [Hoff _]).
  rewrite checked_add_ok by lia. cbn [ok_or obind]. unfold is_multiple_of. rewrite Hal. cbn [Z.eqb negb].
  rewrite Hn. cbn [obind]. rewrite checked_add_ok by lia. cbn [ok_or obind].
  rewrite (proj2 (Z.ltb_ge _ _)) by lia. unfold slice.
  rewrite (proj2 (Z.leb_le _ _)), (proj2 (Z.leb_le _ _)) by lia. simpl.
  do 2 f_equal. f_equal. lia.
Qed.
