(* ===== verification/GgufRoundtrip.v ===== *)
(** * Emitted files read back

    Every file [GgufWriter::emit] produces parses, to the same metadata, the
    same tensors and the same data.

    Two small GGUF files: Concrete writers, one standard and one native, at which the theorems
    about reading and writing files are applied. *)

From Stdlib Require Import FunctionalExtensionality.
From S2P Require Import Prelude Bytes Format Tiles Permute Regions Gguf GgufCodec GgufFile GgufWriter GgufSound.

#[global] Open Scope Z_scope.

(** ** Writers built by calls *)

Inductive WriterCall : Type :=
| CallKv (k : list Z) (v : KvValue)
| CallTensor (name shape : list Z) (dtype : TensorType) (data : list Z).

Definition perform (c : WriterCall) : writer unit :=
  match c with
  | CallKv k v => add_kv k v
  | CallTensor name shape dtype data => add_tensor name shape dtype data
  end.

(** The calls in order; a refused one leaves the writer as it was. *)
Definition build (w : GgufWriter) (calls : list WriterCall) : GgufWriter :=
  foldl (λ w c, (perform c w).2) w calls.

(** Arguments in their types: an array's items one level deep. *)
Definition item_typed (v : KvValue) : Prop := match v with VArray _ _ => True | v => scalar_ok v end.
Definition value_typed (v : KvValue) : Prop :=
  match v with
  | VArray _ items => Forall item_typed items ∧ len items ≤ U64_MAX
  | v => scalar_ok v
  end.
Definition call_typed (c : WriterCall) : Prop :=
  match c with
  | CallKv k v => str_ok k ∧ value_typed v
  | CallTensor name shape dtype data =>
      str_ok name ∧ Forall is_u64 shape ∧ len shape ≤ U32_MAX ∧ Forall is_byte data
  end.

(** What the calls establish. *)
Record out_ok (t : OutTensor) : Prop := {
  oo_name : str_ok (o_name t);
  oo_shape : Forall is_u64 (o_shape t);
  oo_rank : len (o_shape t) ≤ U32_MAX;
  oo_dims : check_shape (o_name t) (o_shape t) = Ok tt;
  oo_data : check_tensor_data (o_name t) (o_shape t) (o_dtype t) (o_data t) = Ok tt;
  oo_bytes : Forall is_byte (o_data t);
}.

Record writer_ok (w : GgufWriter) : Prop := {
  wo_keys : NoDup (map key (w_kvs w));
  wo_names : NoDup (map o_name (w_tensors w));
  wo_kvs : Forall kv_ok (w_kvs w);
  wo_tensors : Forall out_ok (w_tensors w);
  wo_align : 0 < w_alignment w ∧ is_power_of_two (w_alignment w) = true;
}.

Lemma check_array_ok k v : check_array k v = Ok tt → value_typed v → value_ok v.
Proof.
  destruct v as [| | | | | | | | |elem items| | |]; try done. simpl. case_bool_decide; [done|].
  intros Hc%oforM_Ok [Hi Hl]. split; [|done]. rewrite Forall_forall in *.
  intros i Hin. specialize (Hc i Hin). specialize (Hi i Hin).
  unfold check_array_item in Hc. destruct i; try done; case_bool_decide; done.
Qed.

Lemma existsb_absent {A} (name : A → list Z) n l :
  existsb (λ x, bool_decide (name x = n)) l = false → n ∉ map name l.
Proof.
  intros He Hn. apply list_elem_of_fmap in Hn as (x & -> & Hx).
  assert (existsb (λ y, bool_decide (name y = name x)) l = true) as Ht; [|congruence].
  apply existsb_exists. exists x. split; [by apply list_elem_of_In|by apply bool_decide_eq_true].
Qed.

Lemma NoDup_snoc_map {A} (name : A → list Z) l x :
  NoDup (map name l) → name x ∉ map name l → NoDup (map name (l ++ [x])).
Proof.
  intros Hl Hx. rewrite map_app. apply NoDup_app. split_and!; [done| |apply NoDup_singleton].
  intros y Hy ->%list_elem_of_singleton. done.
Qed.

Lemma perform_ok c w : call_typed c → writer_ok w → writer_ok (perform c w).2.
Proof.
  intros Hc Hw. destruct c as [k v|name shape dtype data]; simpl in *.
  - destruct Hc as [Hk Hv]. unfold add_kv, sbind, sget, slift, smodify.
    destruct (existsb _ _) eqn:He; [done|]. destruct (check_array k v) as [[]| |] eqn:Hca; [|done..].
    destruct Hw. constructor; try done; simpl.
    + apply NoDup_snoc_map; [done|]. by apply existsb_absent.
    + apply Forall_app. split; [done|]. constructor; [|constructor]. split; [done|]. by eapply check_array_ok.
  - destruct Hc as (Hn & Hs & Hr & Hd). unfold add_tensor, sbind, sget, slift, smodify.
    destruct (existsb _ _) eqn:He; [done|]. destruct (check_shape name shape) as [[]| |] eqn:Hcs; [|done..].
    destruct (check_tensor_data name shape dtype data) as [[]| |] eqn:Hct; [|done..].
    destruct Hw. constructor; try done; simpl.
    + apply NoDup_snoc_map; [done|]. by apply existsb_absent.
    + apply Forall_app. split; [done|]. constructor; [|constructor]. by constructor.
Qed.

Lemma build_ok w calls : Forall call_typed calls → writer_ok w → writer_ok (build w calls).
Proof.
  unfold build. intros Hc. revert w. induction Hc as [|c calls Hc _ IH]; intros w Hw; [done|].
  simpl. apply IH. by apply perform_ok.
Qed.

Lemma with_alignment_ok al w : 0 ≤ al → with_alignment writer_new al = Ok w → writer_ok w.
Proof.
  unfold with_alignment. intros Ha. destruct (_ || _) eqn:Hb; [done|]. intros [= <-].
  apply orb_false_iff in Hb as [?%Z.eqb_neq Hp%negb_false_iff].
  constructor; simpl; try constructor; done || lia.
Qed.

(** ** The tensor table and the data section *)

Section table.
Context (al : Z) (Hal : 0 < al).

Definition padded (t : OutTensor) : Z := default 0 (align_up (len (o_data t)) al).

Fixpoint rows_from (off : Z) (ts : list OutTensor) : list TensorInfo :=
  match ts with
  | [] => []
  | t :: ts => {| t_name := o_name t; t_dims := rev (o_shape t); t_dtype := o_dtype t; t_offset := off |}
               :: rows_from (off + padded t) ts
  end.

Definition total (ts : list OutTensor) : Z := Zsum (map padded ts).

Lemma padded_ok t p :
  align_up (len (o_data t)) al = Some p → padded t = p ∧ len (o_data t) ≤ p ∧ p mod al = 0.
Proof using Hal.
  intros Hp. unfold padded. rewrite Hp. pose proof (len_nonneg (o_data t)).
  apply align_up_Some in Hp as (? & ? & _); [|lia..]. simpl. lia.
Qed.

Definition fits (t : OutTensor) : Prop := ∃ p, align_up (len (o_data t)) al = Some p.

Lemma fits_padded t : fits t → align_up (len (o_data t)) al = Some (padded t) ∧ 0 ≤ len (o_data t) ≤ padded t ∧ padded t mod al = 0.
Proof using Hal.
  intros [p Hp]. destruct (padded_ok t p Hp) as (-> & ? & ?). pose proof (len_nonneg (o_data t)). done.
Qed.

Lemma table_steps off rows ts off' rows' :
  ofoldM (table_step al) (off, rows) ts = Ok (off', rows') →
  rows' = rows ++ rows_from off ts ∧ off' = off + total ts ∧ Forall fits ts ∧ (ts ≠ [] → off' ≤ U64_MAX).
Proof using Hal.
  revert off rows. induction ts as [|t ts IH]; intros off rows; simpl.
  { intros [= <- <-]. unfold total. simpl. rewrite app_nil_r. split_and!; [done|lia|constructor|done]. }
  intros ([off1 rows1] & Ht & Hrest)%obind_Ok_inv. unfold table_step in Ht.
  apply obind_Ok_inv in Ht as (o & Ho%ok_or_Ok & [= <- <-]).
  destruct (align_up (len (o_data t)) al) as [p|] eqn:Hp; [|done]. simpl in Ho.
  apply checked_add_Some in Ho as [-> Hmax]. destruct (padded_ok t p Hp) as (Hpp & _).
  apply IH in Hrest as (-> & -> & Hf & Hm). rewrite Hpp, <- app_assoc. unfold total. cbn [map]. rewrite Zsum_cons, Hpp.
  split_and!; [done|lia|constructor; [by eexists|done]|]. intros _. destruct ts as [|u ts]; [unfold total; simpl; lia|].
  apply Hm. done.
Qed.

Lemma total_nonneg ts : Forall fits ts → 0 ≤ total ts ∧ total ts mod al = 0.
Proof using Hal.
  unfold total. induction 1 as [|t ts Ht _ [IH1 IH2]]; simpl; [by rewrite Z.mod_0_l by lia|].
  apply fits_padded in Ht as (_ & ? & Hm). split; [unfold Zsum in *; simpl; lia|].
  unfold Zsum in *. simpl. apply Z.mod_divide in Hm as [q ->]; [|lia]. apply Z.mod_divide in IH2 as [p ->]; [|lia].
  rewrite <- Z.mul_add_distr_r. apply Z_mod_mult.
Qed.

Definition data_from (ts : list OutTensor) : list Z :=
  concat (map (λ t, o_data t ++ pad_zeros (padded t - len (o_data t))) ts).

Lemma data_section ts data : oflatM (padded_data al) ts = Ok data → data = data_from ts.
Proof using Hal.
  unfold oflatM. intros (ls & Hls%omapM_Forall2 & [= <-])%obind_Ok_inv. unfold data_from. f_equal.
  induction Hls as [|t l ts ls Ht _ IH]; [done|]. simpl. rewrite <- IH. f_equal.
  unfold padded_data in Ht. apply obind_Ok_inv in Ht as (p & Hp%ok_or_Ok & [= <-]).
  by destruct (padded_ok t p Hp) as (-> & _).
Qed.

Lemma len_data_from ts : Forall fits ts → len (data_from ts) = total ts.
Proof using Hal.
  unfold data_from, total. induction 1 as [|t ts Ht _ IH]; [done|]. cbn [map concat]. rewrite Zsum_cons, !len_app, IH.
  apply fits_padded in Ht as (_ & Hp & _). unfold pad_zeros, len in *. rewrite length_replicate. lia.
Qed.

Lemma rows_lookup off ts i :
  rows_from off ts !! i = (λ t, {| t_name := o_name t; t_dims := rev (o_shape t); t_dtype := o_dtype t;
                                   t_offset := off + total (take i ts) |}) <$> ts !! i.
Proof using.
  clear Hal. revert off i. induction ts as [|t ts IH]; intros off [|i]; simpl; try done.
  - do 2 f_equal. unfold total. simpl. lia.
  - rewrite IH. destruct (ts !! i); [|done]. simpl. do 2 f_equal. unfold total. cbn [map]. rewrite Zsum_cons. lia.
Qed.

Lemma length_rows off ts : length (rows_from off ts) = length ts.
Proof using. clear Hal. revert off. induction ts as [|t ts IH]; intros off; simpl; [done|by rewrite IH]. Qed.

Lemma rows_map {B} (g : TensorInfo → B) (h : OutTensor → B) off ts :
  (∀ t off, g {| t_name := o_name t; t_dims := rev (o_shape t); t_dtype := o_dtype t; t_offset := off |} = h t) →
  map g (rows_from off ts) = map h ts.
Proof using. clear Hal. intros H. revert off. induction ts as [|t ts IH]; intros off; simpl; [done|by rewrite H, IH]. Qed.

(** The data of a tensor starts at its offset. *)
Lemma data_at ts i t :
  Forall fits ts → ts !! i = Some t →
  take (Z.to_nat (len (o_data t))) (drop (Z.to_nat (total (take i ts))) (data_from ts)) = o_data t ∧
  total (take i ts) + len (o_data t) ≤ total ts.
Proof using Hal.
  intros Hf Hi. assert (Forall fits (take i ts)) as Hpre by by apply Forall_take.
  assert (Forall fits (drop (S i) ts)) as Hpost by by apply Forall_drop.
  rewrite Forall_forall in Hf. pose proof (fits_padded t (Hf t (list_elem_of_lookup_2 _ _ _ Hi))) as (_ & Hp & _).
  pose proof (len_data_from _ Hpre) as Hl. destruct (total_nonneg _ Hpost) as [Hpos _].
  assert (data_from ts = data_from (take i ts) ++ o_data t ++ pad_zeros (padded t - len (o_data t)) ++ data_from (drop (S i) ts)) as Hd.
  { rewrite <- (take_drop_middle ts i t Hi) at 1. unfold data_from. rewrite map_app, concat_app. cbn [map concat].
    by rewrite <- app_assoc. }
  split.
  - rewrite Hd, <- Hl. unfold len. rewrite !Nat2Z.id, drop_app_length, take_app_length. done.
  - rewrite <- (take_drop_middle ts i t Hi) at 2. unfold total in *. rewrite map_app, Zsum_app. cbn [map].
    rewrite Zsum_cons. lia.
Qed.
End table.

(** ** The two lookups *)

Lemma find_kv_first kvs k v :
  find_kv kvs k = Some v ↔ ∃ i e, kvs !! i = Some e ∧ key e = k ∧ value e = v ∧
    ∀ j, (j < i)%nat → map key kvs !! j ≠ Some k.
Proof.
  unfold find_kv. split.
  - destruct (list_find _ kvs) as [[i e]|] eqn:Hf; [|done]. intros [= <-].
    apply list_find_Some in Hf as (Hi & Hk & Hj). exists i, e. split_and!; [done..|].
    intros j Hlt Hc. apply list_lookup_fmap_Some in Hc as (e' & -> & He'). by apply (Hj j e').
  - intros (i & e & Hi & Hk & <- & Hj). assert (list_find (λ e, key e = k) kvs = Some (i, e)) as ->; [|done].
    apply list_find_Some. split_and!; [done..|]. intros j y Hy Hlt Hky. apply (Hj j Hlt).
    rewrite list_lookup_fmap, Hy. simpl. by rewrite Hky.
Qed.

(** The reader's index answers as the writer's scan. *)
Lemma kv_find f k : kv (indexed f) k = find_kv (g_kvs f) k.
Proof.
  pose proof (index_names_spec DuplicateKey (map key (g_kvs f))) as H.
  unfold kv, indexed. cbn [g_kv_index g_kvs].
  destruct (index_names DuplicateKey (map key (g_kvs f))) as [index problems]. destruct H as [Hi _]. simpl.
  destruct (find_kv (g_kvs f) k) as [v|] eqn:Hf.
  - apply find_kv_first in Hf as (i & e & He & Hk & Hv & Hj).
    assert (index !! k = Some i) as ->; [|simpl; by rewrite He, <- Hv].
    apply Hi. split; [|done]. by rewrite list_lookup_fmap, He, <- Hk.
  - destruct (index !! k) as [i|] eqn:Hik; [|done]. simpl. apply Hi in Hik as [Hl Hj].
    apply list_lookup_fmap_Some in Hl as (e & -> & He). rewrite He. simpl.
    assert (find_kv (g_kvs f) (key e) = Some (value e)) as Hc; [|congruence].
    apply find_kv_first. eauto 10.
Qed.

Lemma kv_validated f : kv (validated f) = kv (indexed f).
Proof. done. Qed.

(** ** The two sizes of a tensor *)

Lemma named_In {A} (nm : A → string) s l a : named nm s l = Some a → a ∈ l ∧ s = lit (nm a).
Proof.
  induction l as [|b l IH]; simpl; [done|]. case_bool_decide as Hs.
  - intros [= <-]. split; [by left|done].
  - intros [Ha ?]%IH. split; [by right|done].
Qed.

(** The writer's reading of [r9v.layout_id] is the reader's. *)
Lemma layout_agrees w g : emit_layout w = Ok g → file_layout (writer_kv w) = Ok g.
Proof.
  unfold emit_layout, file_layout. destruct (writer_kv w _) as [v|]; [|done]. destruct v as [| | | | | | | |s| | | |]; try done.
  unfold layout_from_name, canonical_layout. intros H%ok_or_Ok.
  case_bool_decide as H1; [subst s; by injection H as <-|].
  case_bool_decide as H2; [subst s; by injection H as <-|].
  case_bool_decide as H3; [subst s; by injection H as <-|].
  apply named_In in H as [_ ->]. by destruct g.
Qed.

Lemma scheme_agrees lk n s : emit_scheme lk n s = Ok tt → check_r9v_tensor_scheme lk n s = Ok tt.
Proof.
  unfold emit_scheme, check_r9v_tensor_scheme. destruct (lk _) as [v|]; [|done].
  destruct v as [| | | | | | | |t| | | |]; try done. case_bool_decide as Ht; [|done]. intros _. subst t.
  rewrite scheme_name_roundtrip. simpl. by rewrite bool_decide_eq_true_2.
Qed.

Lemma half_agrees lk g w w' name dims t n :
  half_entry_bytes lk g w name dims t = Ok n → half_entry_bytes lk g w' name dims t = Ok n.
Proof.
  unfold half_entry_bytes. intros H.
  apply obind_Ok_inv in H as (x1 & -> & H). apply obind_Ok_inv in H as (x2 & -> & H).
  apply obind_Ok_inv in H as (x3 & Hx3 & H). apply obind_Ok_inv in H as (lay & Hlay & H).
  apply obind_Ok_inv in H as (e & He & H). cbn [obind]. rewrite Hx3. cbn [obind]. rewrite Hlay. cbn [obind].
  rewrite <- H. destruct lay; [|by rewrite He|done].
  apply obind_Ok_inv in He as (el & Hel%ok_or_Ok & He). rewrite Hel. cbn [ok_or obind]. by rewrite He.
Qed.

Lemma f32_agrees lk name dims n :
  Forall is_u64 dims → emit_f32_bytes lk name dims = Ok n → f32_entry_bytes lk name dims = Ok n.
Proof.
  unfold emit_f32_bytes, f32_entry_bytes. intros Hd (x1 & -> & H)%obind_Ok_inv. cbn [obind].
  destruct (length dims =? 1)%nat eqn:Hl; [|done]. cbn [negb] in *. apply Nat.eqb_eq in Hl.
  destruct dims as [|d [|]]; try done. apply Forall_cons in Hd as [[Hd1 Hd2] _].
  apply obind_Ok_inv in H as (roles & -> & H). cbn [obind]. apply obind_Ok_inv in H as (x2 & -> & H). cbn [obind].
  assert (checked_product [d] = Some d) as ->; [|exact H].
  change (checked_product [d]) with (checked_mul U64_MAX 1 d). unfold checked_mul. rewrite Z.mul_1_l.
  by rewrite (proj2 (Z.leb_le _ _)).
Qed.

(** The row of a tensor, at any offset. *)
Definition row (t : OutTensor) (off : Z) : TensorInfo :=
  {| t_name := o_name t; t_dims := rev (o_shape t); t_dtype := o_dtype t; t_offset := off |}.

Lemma shape_dims t : out_ok t → rev (o_shape t) ≠ [] ∧ existsb (λ d, d =? 0) (rev (o_shape t)) = false.
Proof.
  intros [_ _ _ Hc _ _]. unfold check_shape in Hc. case_bool_decide as Hne; [done|].
  destruct (existsb _ (o_shape t)) eqn:He; [done|]. split.
  - intros Hr. apply Hne. rewrite <- (rev_involutive (o_shape t)), Hr. done.
  - apply not_true_is_false. intros Ht. apply existsb_exists in Ht as (d & Hd & Hz).
    assert (existsb (λ d, d =? 0) (o_shape t) = true); [|congruence].
    apply existsb_exists. exists d. split; [by apply in_rev|done].
Qed.

Lemma not_unknown t : out_ok t → ∀ c, o_dtype t ≠ Unknown c.
Proof. intros [_ _ _ _ Hc _] c Ht. rewrite Ht in Hc. done. Qed.

Lemma data_nbytes_known t : out_ok t → is_r9v (o_dtype t) = false → is_Some (data_nbytes (o_dtype t) (rev (o_shape t))).
Proof.
  intros [_ _ _ _ Hc _] Hr. unfold check_tensor_data in Hc.
  destruct (o_dtype t); try done; simpl in Hc.
  all: try (apply obind_Ok_inv in Hc as (n & Hn%ok_or_Ok & _); rewrite Hn; done).
  all: apply obind_Ok_inv in Hc as (d0 & _ & Hc).
  all: destruct (negb _) in Hc; [done|].
  all: apply obind_Ok_inv in Hc as (n & Hn%ok_or_Ok & _); rewrite Hn; done.
Qed.

Lemma check_len_Ok what e g : check_len what e g = Ok tt → g = e.
Proof. unfold check_len. destruct (Z.eqb_spec g e); done. Qed.

(** A tensor that passed the writer's checks has, for the reader, the size
    of its data. *)
Lemma sizes_agree w t off :
  writer_ok w → emit_checks w = Ok tt → t ∈ w_tensors w →
  nbytes_in (writer_kv w) (writer_native w) (row t off) = Ok (len (o_data t)).
Proof.
  intros Hw He Ht. pose proof (wo_tensors w Hw) as Hok. rewrite Forall_forall in Hok. specialize (Hok t Ht).
  pose proof (not_unknown t Hok) as Hnu. destruct (shape_dims t Hok) as [Hne Hz].
  unfold emit_checks in He. unfold nbytes_in. cbn [t_dtype row].
  destruct (writer_native w) eqn:Hnat.
  - apply obind_Ok_inv in He as (? & _ & (? & _ & (g & Hg & He)%obind_Ok_inv)%obind_Ok_inv).
    apply layout_agrees in Hg. apply oforM_Ok in He. rewrite Forall_forall in He. specialize (He t Ht).
    assert (native_nbytes (writer_kv w) (row t off) = Ok (len (o_data t))) as Hn;
      [|destruct (o_dtype t); try exact Hn; by destruct (Hnu code)].
    unfold native_nbytes. cbn [t_name t_dims t_dtype row]. rewrite bool_decide_eq_false_2, Hz by done.
    unfold emit_native_tensor in He. rewrite Hg. destruct (o_dtype t); try done.
    + apply obind_Ok_inv in He as (n & Hn & He%check_len_Ok). rewrite He.
      apply f32_agrees; [|done]. apply Forall_rev. apply Hok.
    + apply obind_Ok_inv in He as (n & Hn & He%check_len_Ok). rewrite He. by eapply half_agrees.
    + apply obind_Ok_inv in He as (n & Hn & He%check_len_Ok). rewrite He. by eapply half_agrees.
    + apply obind_Ok_inv in He as (k & Hk & (n & Hn & ([] & Hs & (r & Hr & Hl%check_len_Ok)%obind_Ok_inv)%obind_Ok_inv)%obind_Ok_inv).
      rewrite (scheme_agrees _ _ _ Hs), Hk, Hn. cbn [obind]. rewrite Hr. cbn [obind]. by rewrite Hl.
  - apply oforM_Ok in He. rewrite Forall_forall in He. specialize (He t Ht).
    assert (is_r9v (o_dtype t) = false) as Hr.
    { unfold writer_native, native_tables in Hnat. apply orb_false_iff in Hnat as [_ Hnat].
      apply not_true_is_false. intros Hc. assert (existsb is_r9v (map o_dtype (w_tensors w)) = true); [|congruence].
      apply existsb_exists. exists (o_dtype t). split; [|done]. apply in_map. by apply list_elem_of_In. }
    destruct (data_nbytes_known t Hok Hr) as [n Hn]. unfold emit_standard_tensor in He. rewrite Hn in He.
    apply check_len_Ok in He.
    assert (standard_nbytes (row t off) = Ok (len (o_data t))) as Hs;
      [|destruct (o_dtype t); try exact Hs; by destruct (Hnu code)].
    unfold standard_nbytes. cbn [t_name t_dims t_dtype row]. by rewrite Hn, He.
Qed.

(** ** Ranges of an emitted file *)

#[global] Instance span_le_trans : Transitive span_le.
Proof. intros [[s1 e1] i1] [[s2 e2] i2] [[s3 e3] i3]. unfold span_le. lia. Qed.
#[global] Instance span_le_antisymm : AntiSymm (=) span_le.
Proof. intros [[s1 e1] i1] [[s2 e2] i2]. unfold span_le. intros. repeat f_equal; lia. Qed.
#[global] Instance span_le_total : Total span_le.
Proof. intros [[s1 e1] i1] [[s2 e2] i2]. unfold span_le. lia. Qed.

Lemma merge_sort_sorted l : StronglySorted span_le l → merge_sort span_le l = l.
Proof.
  intros Hl. apply (StronglySorted_unique span_le); [|done|apply merge_sort_Permutation].
  apply Sorted_StronglySorted; [apply _|]. apply Sorted_merge_sort. apply _.
Qed.

Section ranges.
Context (f : GgufFile) (al : Z) (Hal : 0 < al).
Notation start := (g_data_start f).

(** The spans of the tensors from offset [off] and index [k] on. *)
Fixpoint spans_from (off : Z) (k : nat) (ts : list OutTensor) : list (Z * Z * nat) :=
  match ts with
  | [] => []
  | t :: ts => (start + off, start + off + len (o_data t), k) :: spans_from (off + padded al t) (S k) ts
  end.

(** The conditions under which the reader finds nothing wrong. *)
Definition placed_ok (off : Z) (ts : list OutTensor) : Prop :=
  0 ≤ off ∧ off mod al = 0 ∧ Forall (fits al) ts ∧ 0 ≤ start ∧
  start + off + total al ts ≤ g_file_size f ∧ g_file_size f ≤ U64_MAX ∧
  Forall (λ t, ∀ o, tensor_nbytes f (row t o) = Ok (len (o_data t))) ts.

Lemma placed_cons off t ts :
  placed_ok off (t :: ts) →
  placed_ok (off + padded al t) ts ∧ align_up (len (o_data t)) al = Some (padded al t) ∧
  0 ≤ len (o_data t) ≤ padded al t ∧ start + off + padded al t ≤ g_file_size f ∧
  ∀ o, tensor_nbytes f (row t o) = Ok (len (o_data t)).
Proof using Hal.
  intros (H0 & Hm & [Hft Hf]%Forall_cons & Hs & Hsz & Hmax & [Hn Hns]%Forall_cons).
  destruct (fits_padded al Hal t Hft) as (Hp & Hlen & Hpm). destruct (total_nonneg al Hal ts Hf) as [Ht _].
  unfold total in *. cbn [map] in Hsz. rewrite Zsum_cons in Hsz.
  assert ((off + padded al t) mod al = 0) as Hm'.
  { apply Z.mod_divide in Hm as [a ->]; [|lia]. apply Z.mod_divide in Hpm as [b Hb]; [|lia]. rewrite Hb.
    rewrite <- Z.mul_add_distr_r. apply Z_mod_mult. }
  split_and!; try done; try lia. unfold placed_ok, total. split_and!; try done; lia.
Qed.

Lemma spans_run off k ts :
  placed_ok off ts →
  omapM (tensor_span f al) (imap (λ i r, ((k + i)%nat, r)) (rows_from al off ts)) =
    Ok (map (λ s, ([], [s])) (spans_from off k ts)).
Proof using Hal.
  revert off k. induction ts as [|t ts IH]; intros off k Hp; [done|].
  pose proof Hp as (H0 & Hm & _ & Hs & _ & Hmax & _).
  apply placed_cons in Hp as (Hp & _ & Hlen & Hsz & Hn).
  cbn [rows_from]. rewrite imap_cons. cbn [omapM].
  assert (tensor_span f al ((k + 0)%nat, row t off) = Ok ([], [(start + off, start + off + len (o_data t), k)])) as Ht.
  { unfold tensor_span. cbn [t_offset row]. rewrite checked_add_ok by lia. unfold is_multiple_of. rewrite Hm.
    fold (row t off). rewrite Hn. rewrite checked_add_ok by lia. rewrite (proj2 (Z.ltb_ge _ _)) by lia.
    by rewrite Nat.add_0_r. }
  fold (row t off). rewrite Ht. cbn [obind spans_from map].
  assert (imap ((λ i r, ((k + i)%nat, r)) ∘ S) (rows_from al (off + padded al t) ts) =
          imap (λ i r, ((S k + i)%nat, r)) (rows_from al (off + padded al t) ts)) as ->.
  { apply imap_ext. intros i x _. simpl. f_equal. lia. }
  by rewrite (IH _ (S k) Hp).
Qed.

Lemma spans_from_bound off k ts :
  placed_ok off ts → Forall (λ s : Z * Z * nat, start + off ≤ s.1.1 ≤ s.1.2 ∧ (k ≤ s.2)%nat) (spans_from off k ts).
Proof using Hal.
  revert off k. induction ts as [|t ts IH]; intros off k Hp; [constructor|].
  apply placed_cons in Hp as (Hp & _ & Hlen & _ & _). simpl. constructor; [simpl; lia|].
  eapply Forall_impl; [by apply (IH _ (S k))|]. intros [[s e] i]. simpl. lia.
Qed.

Lemma spans_from_sorted off k ts : placed_ok off ts → StronglySorted span_le (spans_from off k ts).
Proof using Hal.
  revert off k. induction ts as [|t ts IH]; intros off k Hp; [constructor|].
  apply placed_cons in Hp as (Hp & _ & Hlen & _ & _). simpl. constructor; [by apply IH|].
  eapply Forall_impl; [by apply (spans_from_bound _ (S k))|]. intros [[s e] i]. unfold span_le. simpl. lia.
Qed.

Lemma overlap_none mx off k ts :
  placed_ok off ts → mx.1.2 ≤ start + off → overlap_problems f mx (spans_from off k ts) = Ok [].
Proof using Hal.
  revert mx off k. induction ts as [|t ts IH]; intros [[ms me] mi] off k Hp Hle; [done|].
  apply placed_cons in Hp as (Hp & _ & Hlen & _ & _). simpl in Hle. cbn [spans_from overlap_problems].
  rewrite (proj2 (Z.ltb_ge _ _)) by lia. cbn [obind]. rewrite IH; [done|done|].
  destruct (Z.ltb_spec me (start + off + len (o_data t))); simpl; lia.
Qed.

Lemma sequence_run off ts :
  placed_ok off ts →
  ofoldM (sequence_step f al) (off, true, []) (rows_from al off ts) = Ok (off + total al ts, true, []).
Proof using Hal.
  revert off. induction ts as [|t ts IH]; intros off Hp.
  { simpl. unfold total. simpl. by rewrite Z.add_0_r. }
  pose proof Hp as (H0 & _ & _ & Hs & _ & Hmax & _).
  apply placed_cons in Hp as (Hp & Hal' & Hlen & Hsz & Hn). cbn [rows_from ofoldM].
  fold (row t off). unfold sequence_step at 1. cbn [t_offset row]. rewrite Z.eqb_refl. fold (row t off).
  rewrite Hn, Hal'. simpl. rewrite checked_add_ok by lia. cbn [obind]. rewrite IH by done.
  unfold total. cbn [map]. rewrite Zsum_cons, Z.add_assoc. done.
Qed.

Lemma map_nil_fst (l : list (Z * Z * nat)) : concat (map fst (map (λ s, ([] : list FormatError, [s])) l)) = [].
Proof using. by induction l. Qed.
Lemma map_one_snd (l : list (Z * Z * nat)) : concat (map snd (map (λ s, ([] : list FormatError, [s])) l)) = l.
Proof using. induction l as [|s l IH]; [done|]. simpl. by rewrite IH. Qed.

(** An emitted file has no range problems. *)
Lemma ranges_clean ts :
  g_alignment f = al → g_tensors f = rows_from al 0 ts → placed_ok 0 ts →
  start + total al ts = g_file_size f → range_problems f false = Ok [].
Proof using Hal.
  intros Ha Ht Hp Hsz. pose proof Hp as (_ & _ & Hf & Hs & _ & Hmax & _).
  destruct (total_nonneg al Hal ts Hf) as [Htot _]. unfold range_problems. rewrite Ha, Ht.
  pose proof (spans_run 0 0 ts Hp) as Hrun.
  change (imap (λ i r, ((0 + i)%nat, r)) (rows_from al 0 ts)) with (enumerate (rows_from al 0 ts)) in Hrun.
  rewrite Hrun. cbn [obind]. rewrite map_one_snd, map_nil_fst, merge_sort_sorted by by apply spans_from_sorted.
  assert (match spans_from 0 0 ts with [] => Ok [] | first :: rest => overlap_problems f first rest end = Ok []) as ->.
  { destruct ts as [|t ts]; [done|]. apply placed_cons in Hp as (Hp & _ & Hlen & _ & _).
    cbn [spans_from]. apply overlap_none; [done|]. simpl. lia. }
  cbn [obind]. rewrite (proj2 (Z.ltb_ge _ _)) by lia. rewrite andb_false_r. cbn [problem_if app].
  assert ((if is_native f then sequence_problems f al else Ok []) = Ok []) as ->; [|done].
  destruct (is_native f); [|done]. unfold sequence_problems. rewrite Ht, sequence_run by done. cbn [obind].
  rewrite Z.add_0_l, checked_add_ok by lia. by rewrite (proj2 (Z.ltb_ge _ _)) by lia.
Qed.
End ranges.

(** ** The tables of an emitted file *)

Lemma sbind_reads {A B} (r : reader A) (k : A → reader B) pre e rest a :
  reads r e a → sbind r k (cur (pre ++ e ++ rest) (len pre)) = k a (cur ((pre ++ e) ++ rest) (len (pre ++ e))).
Proof. intros Hr. unfold sbind. rewrite Hr, len_app. by rewrite <- app_assoc. Qed.

Lemma Forall2_map_diag {A} (P : list Z → A → Prop) (enc : A → list Z) l :
  Forall (λ x, P (enc x) x) l → Forall2 P (map enc l) l.
Proof. induction 1; simpl; by constructor. Qed.

Lemma read_encoded_tables version kvs tensors rest :
  version ∈ GGUF_VERSIONS_ACCEPTED → Forall kv_ok kvs → Forall tensor_ok tensors →
  len kvs ≤ U64_MAX → len tensors ≤ U64_MAX →
  (read_tables (cur (encode_tables version kvs tensors ++ rest) 0)).1 =
    Ok (version, kvs, tensors, (24, 24 + len (concat (map encode_kv kvs)), len (encode_tables version kvs tensors))).
Proof.
  intros Hv Hk Ht Hlk Hlt. assert (0 ≤ version < 2 ^ 32) as Hv32.
  { unfold GGUF_VERSIONS_ACCEPTED in Hv. rewrite !elem_of_cons, elem_of_nil in Hv. lia. }
  pose proof (len_nonneg kvs). pose proof (len_nonneg tensors). unfold U64_MAX in *.
  unfold encode_tables, read_tables. rewrite <- !app_assoc.
  change (cur ?b 0) with (cur ([] ++ b) (len (@nil Z))).
  rewrite (sbind_reads _ _ [] _ _ GGUF_MAGIC) by (apply (reads_uint 4); done).
  rewrite Z.eqb_refl. cbn [negb].
  rewrite (sbind_reads _ _ _ _ _ version) by (apply (reads_uint 4); done).
  rewrite bool_decide_eq_true_2 by done. cbn [negb].
  rewrite (sbind_reads _ _ _ _ _ (len tensors)) by (apply (reads_uint 8); lia).
  rewrite (sbind_reads _ _ _ _ _ (len kvs)) by (apply (reads_uint 8); lia).
  unfold sbind at 1, sget at 1.
  rewrite (sbind_reads _ _ _ (concat (map encode_kv kvs)) _ kvs).
  2:{ apply reads_many; [| |done].
      - apply Forall2_map_diag. eapply Forall_impl; [exact Hk|]. apply reads_kv.
      - apply Forall_map, Forall_forall. intros e _. apply length_encode_kv. }
  unfold sbind at 1, sget at 1.
  rewrite (sbind_reads _ _ _ (concat (map encode_tensor tensors)) _ tensors).
  2:{ apply reads_many; [| |done].
      - apply Forall2_map_diag. eapply Forall_impl; [exact Ht|]. apply reads_tensor.
      - apply Forall_map, Forall_forall. intros e _. apply length_encode_tensor. }
  unfold sbind, sget, sret. cbn [fst]. unfold cur. cbn [c_pos]. rewrite !len_app, !len_le_bytes. change (len (@nil Z)) with 0.
  apply (f_equal (λ p, Ok (version, kvs, tensors, p))). apply (f_equal2 pair); [apply (f_equal2 pair)|]; lia.
Qed.

(** ** The round trip *)

(** The alignment the metadata declares is the writer's. *)
Definition alignment_declared (w : GgufWriter) : Prop :=
  match writer_kv w (lit "general.alignment") with
  | Some v => v = VU32 (w_alignment w)
  | None => w_alignment w = GGUF_DEFAULT_ALIGNMENT
  end.

Definition no_split (w : GgufWriter) : Prop := Forall (λ e, starts_with (lit "split.") (key e) = false) (w_kvs w).

Lemma starts_with_refl p s : starts_with p (p ++ s) = true.
Proof. induction p as [|b p IH]; simpl; [done|]. by rewrite Z.eqb_refl. Qed.

Lemma find_kv_key kvs k v : find_kv kvs k = Some v → ∃ e, e ∈ kvs ∧ key e = k.
Proof. intros (i & e & Hi & Hk & _)%find_kv_first. exists e. split; [by eapply list_elem_of_lookup_2|done]. Qed.

Lemma no_split_key w k : no_split w → find_kv (w_kvs w) (lit "split." ++ k) = None.
Proof.
  intros Hs. destruct (find_kv _ _) eqn:Hf; [|done]. apply find_kv_key in Hf as (e & He & Hk).
  unfold no_split in Hs. rewrite Forall_forall in Hs. specialize (Hs e He).
  by rewrite Hk, starts_with_refl in Hs.
Qed.

(** The file [parse_internal] builds from an emitted one before validation. *)
Definition emitted (w : GgufWriter) (rows : list TensorInfo) (size : Z) : GgufFile :=
  let kv_end := 24 + len (concat (map encode_kv (w_kvs w))) in
  let ti_end := len (encode_tables GGUF_VERSION (w_kvs w) rows) in
  {| g_version := GGUF_VERSION; g_alignment := GGUF_DEFAULT_ALIGNMENT; g_kvs := w_kvs w; g_kv_index := ∅;
     g_tensors := rows; g_tensor_index := ∅; g_data_start := ti_end; g_file_size := size;
     g_header_range := (0, 24); g_kv_range := (24, kv_end); g_ti_range := (kv_end, ti_end) |}.

Section emitted.
Context (w : GgufWriter) (size : Z) (Hw : writer_ok w).
Notation rows := (rows_from (w_alignment w) 0 (w_tensors w)).
Notation f := (emitted w rows size).

Lemma emitted_kv k : kv (indexed f) k = writer_kv w k.
Proof using. clear Hw. by rewrite kv_find. Qed.

Lemma emitted_native : is_native (indexed f) = writer_native w.
Proof using.
  clear Hw. unfold is_native, writer_native. cbn [g_kvs g_tensors indexed emitted].
  by rewrite (rows_map _ t_dtype o_dtype).
Qed.

Lemma emitted_alignment : alignment_declared w → declared_alignment (indexed f) = (w_alignment w, []).
Proof using Hw.
  intros Ha. unfold declared_alignment. rewrite emitted_kv. unfold alignment_declared in Ha.
  destruct (writer_kv w _) as [v|]; [|by rewrite Ha]. rewrite Ha.
  destruct (wo_align w Hw) as [Hpos ->]. by rewrite (proj2 (Z.eqb_neq _ _)) by lia.
Qed.

Lemma emitted_tables_clean start :
  alignment_declared w → no_split w → emit_checks w = Ok tt →
  align_up (g_ti_range f).2 (w_alignment w) = Some start → table_problems f = [].
Proof using Hw.
  intros Ha Hs He Hst. unfold table_problems. rewrite emitted_alignment by done. cbn [fst snd]. rewrite Hst.
  pose proof (index_names_spec DuplicateKey (map key (g_kvs f))) as Hki.
  pose proof (index_names_spec (λ n, DuplicateTensor (msg "{}" [Str n])) (map t_name (g_tensors f))) as Hni.
  cbn [g_kvs g_tensors emitted] in *. rewrite (rows_map _ t_name o_name) in * by done.
  destruct (index_names DuplicateKey _) as [ki p1]. destruct (index_names _ (map o_name _)) as [ti p2]. cbn [snd].
  rewrite (proj2 (proj2 Hki) (wo_keys w Hw)), (proj2 (proj2 Hni) (wo_names w Hw)). cbn [app].
  rewrite emitted_native.
  assert (has_split_decl (indexed f) = false) as ->.
  { unfold has_split_decl. rewrite !emitted_kv. unfold writer_kv.
    assert (∀ k, find_kv (w_kvs w) (lit "split." ++ k) = None) as Hn by (intros; by apply no_split_key).
    change (lit "split.no") with (lit "split." ++ lit "no").
    change (lit "split.count") with (lit "split." ++ lit "count").
    change (lit "split.tensors.count") with (lit "split." ++ lit "tensors.count"). rewrite !Hn, !bool_decide_eq_false_2 by by intros [? ?].
    cbn [orb]. apply not_true_is_false. intros (e & Hin & Hst')%existsb_exists. apply list_elem_of_In in Hin.
    unfold no_split in Hs. rewrite Forall_forall in Hs. specialize (Hs e Hin). cbn beta in Hs, Hst'. congruence. }
  destruct (writer_native w) eqn:Hnat; [|done]. rewrite app_nil_r.
  unfold emit_checks in He. rewrite Hnat in He.
  apply obind_Ok_inv in He as ([] & Hal & He). apply obind_Ok_inv in He as ([] & Hver & He).
  apply obind_Ok_inv in He as (g & Hlay & _). unfold native_header_problems. rewrite !emitted_kv.
  destruct (negb (w_alignment w =? 4096)); [done|]. cbn [problem_if app].
  unfold emit_version in Hver. destruct (writer_kv w (lit "r9v.format_version")) as [v|]; [|done].
  destruct v; try done. rewrite Hver. cbn [problem_of app].
  unfold emit_layout in Hlay. destruct (writer_kv w (lit "r9v.layout_id")) as [v'|]; [|done].
  destruct v'; try done. by rewrite Hlay.
Qed.
End emitted.

Lemma dtype_known t : (∀ c, t ≠ Unknown c) → dtype_ok t.
Proof. unfold dtype_ok, is_u32, U32_MAX. intros H. destruct t; try (split; [done|simpl; lia]); [|by destruct (H code)]. by destruct scheme. Qed.

Lemma rows_ok al off ts :
  0 < al → 0 ≤ off → Forall (fits al) ts → (ts ≠ [] → off + total al ts ≤ U64_MAX) → Forall out_ok ts →
  Forall tensor_ok (rows_from al off ts).
Proof.
  intros Hal Ho Hf Hm Hok. revert off Ho Hm Hf. induction Hok as [|t ts Ht Hts IH]; intros off Ho Hm Hf; [constructor|].
  apply Forall_cons in Hf as [Hft Hf]. destruct (fits_padded al Hal t Hft) as (_ & Hp & _).
  destruct (total_nonneg al Hal ts Hf) as [Htot _]. specialize (Hm ltac:(done)).
  unfold total in *. cbn [map] in Hm. rewrite Zsum_cons in Hm. cbn [rows_from]. constructor.
  - unfold tensor_ok. cbn [t_name t_dims t_dtype t_offset]. pose proof (oo_rank t Ht). split_and!.
    + apply Ht.
    + unfold len in *. rewrite length_rev. lia.
    + apply Forall_rev, Ht.
    + apply dtype_known. by apply not_unknown.
    + unfold is_u64. lia.
  - apply IH; [lia|intros _; lia|done].
Qed.

Lemma Ok_inv {E A} (a b : A) : Ok (E:=E) a = Ok b → b = a.
Proof. by intros [= ->]. Qed.

(** The pieces of an emitted file. *)
Lemma emit_parts w bytes :
  0 < w_alignment w → emit w = Ok bytes →
  let rows := rows_from (w_alignment w) 0 (w_tensors w) in
  let tables := encode_tables GGUF_VERSION (w_kvs w) rows in
  ∃ start, emit_checks w = Ok tt ∧ align_up (len tables) (w_alignment w) = Some start ∧
    bytes = tables ++ pad_zeros (start - len tables) ++ data_from (w_alignment w) (w_tensors w) ∧
    len tables ≤ start ∧ Forall (fits (w_alignment w)) (w_tensors w) ∧
    len bytes = start + total (w_alignment w) (w_tensors w) ∧
    (w_tensors w ≠ [] → total (w_alignment w) (w_tensors w) ≤ U64_MAX).
Proof.
  intros Hal He. cbn zeta. unfold emit in He. apply obind_Ok_inv in He as ([] & Hc & He).
  apply obind_Ok_inv in He as ([off rows] & Ht & He). apply (table_steps _ Hal) in Ht as (-> & -> & Hf & Hm).
  cbn [app] in He. rewrite Z.add_0_l in Hm.
  assert (encode_head w ++ concat (map encode_tensor (rows_from (w_alignment w) 0 (w_tensors w))) =
          encode_tables GGUF_VERSION (w_kvs w) (rows_from (w_alignment w) 0 (w_tensors w))) as Henc.
  { unfold encode_head, encode_tables. unfold len at 3. rewrite length_rows, <- !app_assoc. done. }
  rewrite Henc in He. apply obind_Ok_inv in He as (start & Hs%ok_or_Ok & He).
  apply obind_Ok_inv in He as (data & Hd & ->%Ok_inv). apply (data_section _ Hal) in Hd as ->.
  pose proof (align_up_Some _ _ _ (len_nonneg _) Hal Hs) as (Hle & _).
  exists start. split_and!; try done; [lia|]. rewrite !len_app, (len_data_from _ Hal) by done.
  unfold pad_zeros at 1. unfold len at 2. rewrite length_replicate. lia.
Qed.


(** The reader gives every tensor the size of its data. *)
Lemma emitted_sizes w rows size t off :
  writer_ok w → emit_checks w = Ok tt → t ∈ w_tensors w → rows = rows_from (w_alignment w) 0 (w_tensors w) →
  tensor_nbytes (validated (emitted w rows size)) (row t off) = Ok (len (o_data t)).
Proof.
  intros Hw Hc Ht ->. unfold tensor_nbytes. rewrite <- (sizes_agree w t off Hw Hc Ht).
  f_equal; [|by rewrite <- (emitted_native w size)].
  apply functional_extensionality. intros k. rewrite kv_validated. apply emitted_kv.
Qed.

(** The tables of the file and its ranges, with the writer's data. *)
Lemma emitted_validates w bytes :
  writer_ok w → alignment_declared w → no_split w → emit w = Ok bytes → len bytes ≤ U64_MAX →
  let rows := rows_from (w_alignment w) 0 (w_tensors w) in
  let f := emitted w rows (len bytes) in
  tables_ok f ∧ validate f false = Ok (validated f) ∧ g_alignment (validated f) = w_alignment w ∧
  align_up (g_ti_range f).2 (w_alignment w) = Some (g_data_start (validated f)).
Proof.
  intros Hw Ha Hs He Hmax. cbn zeta. destruct (wo_align w Hw) as [Hal _].
  destruct (emit_parts w bytes Hal He) as (start & Hc & Hst & _ & Hle & Hf & Hlen & Hm).
  set (rows := rows_from (w_alignment w) 0 (w_tensors w)) in *. set (f := emitted w rows (len bytes)).
  pose proof (emitted_alignment w (len bytes) Hw Ha) as Hda. fold rows in Hda. fold f in Hda.
  destruct (total_nonneg _ Hal _ Hf) as [Htot _]. pose proof (len_nonneg (encode_tables GGUF_VERSION (w_kvs w) rows)) as Ht0.
  assert (tables_ok f) as Htab.
  { split_and!; [apply Hw| |done]. apply rows_ok; try done. by apply Hw. }
  assert (g_alignment (validated f) = w_alignment w) as Hva by (simpl; by rewrite Hda).
  assert (g_data_start (validated f) = start) as Hvs.
  { unfold validated, placed. cbn [g_data_start]. rewrite Hda. cbn [fst]. cbn [g_ti_range f emitted snd] in *. by rewrite Hst. }
  split; [done|]. rewrite Hvs. split; [|done].
  pose proof (emitted_tables_clean w (len bytes) Hw start Ha Hs Hc Hst) as Htc. fold rows in Htc. fold f in Htc.
  rewrite validate_eq, Htc. cbn [andb].
  rewrite (ranges_clean (validated f) (w_alignment w) Hal (w_tensors w)); [done|done|done| |].
  - unfold placed_ok. rewrite Hvs. split_and!; try done; try lia.
    + simpl. lia.
    + apply Forall_forall. intros t Ht o. by apply emitted_sizes.
  - rewrite Hvs. simpl. lia.
Qed.

(** There are no more table entries than bytes. *)
Lemma length_concat_map {A} (f : A → list Z) l :
  (∀ x, (1 ≤ length (f x))%nat) → (length l ≤ length (concat (map f l)))%nat.
Proof. intros Hf. induction l as [|x l IH]; simpl; [lia|]. rewrite length_app. specialize (Hf x). lia. Qed.

Lemma tables_counted version kvs tensors :
  len kvs ≤ len (encode_tables version kvs tensors) ∧ len tensors ≤ len (encode_tables version kvs tensors).
Proof.
  pose proof (length_concat_map encode_kv kvs length_encode_kv).
  pose proof (length_concat_map encode_tensor tensors length_encode_tensor).
  unfold encode_tables. rewrite !len_app, !len_le_bytes. unfold len. lia.
Qed.

(** Cutting a tensor's bytes out of the emitted buffer. *)
Lemma cut_data (tables pad data : list Z) start off n :
  start = len tables + len pad → 0 ≤ off →
  take n (drop (Z.to_nat (start + off)) (tables ++ pad ++ data)) = take n (drop (Z.to_nat off) data).
Proof.
  intros -> Ho. rewrite app_assoc. unfold len in *.
  replace (Z.to_nat _) with (length (tables ++ pad) + Z.to_nat off)%nat by (rewrite length_app; lia).
  by rewrite <- drop_drop, drop_app_length.
Qed.

Lemma emitted_data w bytes i t f :
  writer_ok w → emit w = Ok bytes → w_tensors w !! i = Some t →
  f = validated (emitted w (rows_from (w_alignment w) 0 (w_tensors w)) (len bytes)) →
  file_ok f → tables_ok f → align_up (g_ti_range f).2 (w_alignment w) = Some (g_data_start f) →
  tensor_bytes f (o_name t) bytes = Ok (o_data t).
Proof.
  intros Hw He Hi Hf Hok Htab Hst. destruct (wo_align w Hw) as [Hal _].
  destruct (emit_parts w bytes Hal He) as (start & Hc & Hst' & Hb & Hle & Hfit & Hlen & _).
  assert (g_data_start f = start) as Hs.
  { rewrite Hf in Hst at 1. cbn [g_ti_range validated placed indexed emitted snd] in Hst. congruence. }
  assert (row t (total (w_alignment w) (take i (w_tensors w))) ∈ g_tensors f) as Ht.
  { apply list_elem_of_lookup. exists i. rewrite Hf. cbn [g_tensors validated placed indexed emitted].
    rewrite rows_lookup, Hi. done. }
  destruct (tensor_bytes_ok f bytes _ Hok Htab Ht) as (n & Hn & Hcut); [by rewrite Hf|].
  assert (n = len (o_data t)) as ->.
  { rewrite Hf, emitted_sizes in Hn by (done || by eapply list_elem_of_lookup_2). by injection Hn. }
  cbn [t_name row] in Hcut. rewrite Hcut by apply len_nonneg. cbn [t_offset row]. rewrite Hs, Hb. f_equal.
  destruct (data_at _ Hal _ _ _ Hfit Hi) as [Hd _]. rewrite cut_data; [done| |].
  - unfold pad_zeros, len in *. rewrite length_replicate. lia.
  - apply (total_nonneg _ Hal). by apply Forall_take.
Qed.

(** C37: writing and reading back.  Take a writer built by any calls of
    [with_alignment], [add_kv] and [add_tensor], whose metadata declares the
    alignment it pads to and no [split.] keys.  Whatever [emit] produces,
    [parse] accepts: with the version written, the writer's alignment, the
    same metadata in the same order, the same tensors with their extents
    reversed, and [tensor_bytes] returns each tensor's data unchanged. *)
Theorem emit_parse_roundtrip al w0 calls bytes :
  0 ≤ al → with_alignment writer_new al = Ok w0 → Forall call_typed calls →
  let w := build w0 calls in
  alignment_declared w → no_split w → emit w = Ok bytes → len bytes ≤ U64_MAX →
  ∃ f, parse bytes = Ok f ∧ g_version f = GGUF_VERSION ∧ g_alignment f = w_alignment w ∧ g_kvs f = w_kvs w ∧
    map (λ t, (t_name t, t_dims t, t_dtype t)) (g_tensors f) =
      map (λ t, (o_name t, rev (o_shape t), o_dtype t)) (w_tensors w) ∧
    ∀ t, t ∈ w_tensors w → tensor_bytes f (o_name t) bytes = Ok (o_data t).
Proof.
  intros H0 Hnew Hcalls w Ha Hs He Hmax.
  assert (writer_ok w) as Hw by (by eapply build_ok, with_alignment_ok).
  destruct (emitted_validates w bytes Hw Ha Hs He Hmax) as (Htab & Hval & Hva & Hst).
  destruct (emit_parts w bytes (proj1 (wo_align w Hw)) He) as (start & _ & _ & Hb & _).
  pose proof (validate_sound _ _ _ Htab Hval) as (_ & Hok & _).
  set (rows := rows_from (w_alignment w) 0 (w_tensors w)) in *.
  exists (validated (emitted w rows (len bytes))). split.
  { destruct Htab as (Hk & Ht & _). unfold parse, parse_internal. rewrite Hb at 1.
    change {| c_bytes := ?b; c_pos := 0 |} with (cur b 0).
    pose proof (tables_counted GGUF_VERSION (w_kvs w) rows) as Hcount. rewrite Hb, len_app in Hmax.
    match type of Hmax with _ + len ?r ≤ _ => pose proof (len_nonneg r) end.
    rewrite read_encoded_tables; [exact Hval|by right; left|done|done|lia|lia]. }
  split_and!; [done|done|done| |].
  - cbn [g_tensors validated placed indexed emitted]. by apply rows_map.
  - intros t (i & Hi)%list_elem_of_lookup. by eapply emitted_data.
Qed.

(** * Two small GGUF files *)

Definition standard_calls : list WriterCall :=
  [CallKv (lit "general.name") (VStr (lit "abc"));
   CallKv (lit "x.arr") (VArray KtI16 [VI16 (-3); VI16 7]);
   CallKv (lit "x.arr") (VBool true);
   CallTensor (lit "t0") [2; 32] TQ8_0 (replicate 68 7);
   CallTensor (lit "t1") [5] TF32 (replicate 20 9)].

Definition native_calls : list WriterCall :=
  [CallKv (lit "general.alignment") (VU32 4096);
   CallKv (lit "r9v.format_version") (VU32 1);
   CallKv (lit "r9v.layout_id") (VStr (lit "L1"));
   CallKv (lit "r9v.tensor.b.roles") (VArray KtStr [VStr (lit "vector")]);
   CallTensor (lit "b") [40] TF32 (replicate 4096 3)].

Definition native_start : GgufWriter := {| w_alignment := 4096; w_kvs := []; w_tensors := [] |}.

(** The bytes of a writer, if it emits any. *)
Definition bytes_of (w : GgufWriter) : list Z := match emit w with Ok bytes => bytes | _ => [] end.

Definition standard_bytes : list Z := bytes_of (build writer_new standard_calls).
Definition native_bytes : list Z := bytes_of (build native_start native_calls).

(** The duplicate key is refused, the rest is in the file. *)
Example standard_keys : map key (w_kvs (build writer_new standard_calls)) = [lit "general.name"; lit "x.arr"].
Proof. reflexivity. Qed.

Example native_bytes_length : len native_bytes = 8192.
Proof. vm_compute. reflexivity. Qed.

(** The native file reads back too. *)
Example native_parses :
  match parse native_bytes with Ok f => is_native f && (g_alignment f =? 4096) | _ => false end = true.
Proof. vm_compute. reflexivity. Qed.

(** A truncated file is an error, not a panic. *)
Example truncated_is_error :
  match parse (take 100 standard_bytes) with Err _ => true | _ => false end = true.
Proof. vm_compute. reflexivity. Qed.

Definition bytesb (l : list Z) : bool := forallb (λ b, (0 <=? b) && (b <? 256)) l.
Lemma bytesb_ok l : bytesb l = true → Forall is_byte l.
Proof.
  unfold bytesb. rewrite forallb_forall, Forall_forall. intros H b Hb%list_elem_of_In. specialize (H b Hb).
  apply andb_true_iff in H as [?%Z.leb_le ?%Z.ltb_lt]. unfold is_byte. lia.
Qed.

Lemma standard_typed : Forall call_typed standard_calls.
Proof.
  unfold standard_calls. repeat constructor; try (apply bytesb_ok; reflexivity); unfold U64_MAX, U32_MAX, len; simpl; try lia.
  all: try done.
Qed.

(** A result that is not an error. *)
Definition parsed {A} (r : FormatResult A) : bool := match r with Ok _ => true | _ => false end.

Lemma parse_sound_witness : ∃ f, parse_internal standard_bytes (len standard_bytes) false = Ok f ∧ file_ok f.
Proof.
  assert (Forall is_byte standard_bytes) as Hb by (apply bytesb_ok; vm_compute; reflexivity).
  assert (len standard_bytes ≤ U64_MAX) as Hl by (vm_compute; discriminate).
  assert (parsed (parse_internal standard_bytes (len standard_bytes) false) = true) as Hp by (vm_compute; reflexivity).
  pose proof (parse_sound standard_bytes (len standard_bytes) false Hb Hl) as H.
  revert Hp H. generalize (parse_internal standard_bytes (len standard_bytes) false).
  intros [f|e|] Hp H; [|discriminate Hp..]. exists f. split; [reflexivity|].
  destruct H as (_ & _ & _ & _ & _ & _ & _ & H). exact H.
Defined.

Lemma emit_parse_roundtrip_witness :
  ∃ f, parse standard_bytes = Ok f ∧ g_alignment f = 32 ∧ tensor_bytes f (lit "t1") standard_bytes = Ok (replicate 20 9).
Proof.
  destruct (emit_parse_roundtrip 32 writer_new standard_calls standard_bytes) as (f & Hp & _ & Ha & _ & _ & Hd).
  - lia.
  - reflexivity.
  - apply standard_typed.
  - vm_compute. reflexivity.
  - repeat constructor.
  - vm_compute. reflexivity.
  - vm_compute. discriminate.
  - exists f. split_and!; [exact Hp|exact Ha|].
    apply (Hd {| o_name := lit "t1"; o_shape := [5]; o_dtype := TF32; o_data := replicate 20 9 |}).
    vm_compute. right. left.
Defined.
