(* ===== verification/Ggml.v ===== *)
(** * GGUF wire blocks

    [crates/r9v-format/src/ggml.rs] and the block readers of [iq.rs]: the
    quantised types of the GGUF file with their codes, block sizes and
    schemes, the geometry of a tensor's wire bytes, and the logical values and
    codebook indices of one block. *)

From S2P Require Import Prelude Bytes Format Tiles Permute.

#[global] Open Scope Z_scope.

(** ** Types *)

Module GgmlType.
Inductive t : Type :=
| F16 | Q4_0 | Q4_1 | Q5_0 | Q5_1 | Q8_0 | Q2_K | Q3_K | Q4_K | Q5_K | Q6_K
| IQ2_XXS | IQ2_XS | IQ3_XXS | IQ1_S | IQ4_NL | IQ3_S | IQ2_S | IQ4_XS | IQ1_M | BF16.

#[global] Instance t_eq_dec : EqDecision t.
Proof. solve_decision. Defined.
End GgmlType.

Import GgmlType.

Definition ggml_all : list GgmlType.t :=
  [F16; Q4_0; Q4_1; Q5_0; Q5_1; Q8_0; Q2_K; Q3_K; Q4_K; Q5_K; Q6_K; IQ2_XXS; IQ2_XS; IQ3_XXS; IQ1_S; IQ4_NL;
   IQ3_S; IQ2_S; IQ4_XS; IQ1_M; BF16].

Definition ggml_code (g : GgmlType.t) : Z :=
  match g with
  | F16 => 1 | Q4_0 => 2 | Q4_1 => 3 | Q5_0 => 6 | Q5_1 => 7 | Q8_0 => 8 | Q2_K => 10 | Q3_K => 11 | Q4_K => 12
  | Q5_K => 13 | Q6_K => 14 | IQ2_XXS => 16 | IQ2_XS => 17 | IQ3_XXS => 18 | IQ1_S => 19 | IQ4_NL => 20
  | IQ3_S => 21 | IQ2_S => 22 | IQ4_XS => 23 | IQ1_M => 29 | BF16 => 30
  end.

Definition ggml_from_code (code : Z) : FormatResult GgmlType.t :=
  match code with
  | 1 => Ok F16 | 2 => Ok Q4_0 | 3 => Ok Q4_1 | 6 => Ok Q5_0 | 7 => Ok Q5_1 | 8 => Ok Q8_0 | 10 => Ok Q2_K
  | 11 => Ok Q3_K | 12 => Ok Q4_K | 13 => Ok Q5_K | 14 => Ok Q6_K | 16 => Ok IQ2_XXS | 17 => Ok IQ2_XS
  | 18 => Ok IQ3_XXS | 19 => Ok IQ1_S | 20 => Ok IQ4_NL | 21 => Ok IQ3_S | 22 => Ok IQ2_S | 23 => Ok IQ4_XS
  | 29 => Ok IQ1_M | 30 => Ok BF16
  | _ => Err (UnknownGgmlType code)
  end.

Definition ggml_name (g : GgmlType.t) : string :=
  match g with
  | F16 => "F16" | Q4_0 => "Q4_0" | Q4_1 => "Q4_1" | Q5_0 => "Q5_0" | Q5_1 => "Q5_1" | Q8_0 => "Q8_0"
  | Q2_K => "Q2_K" | Q3_K => "Q3_K" | Q4_K => "Q4_K" | Q5_K => "Q5_K" | Q6_K => "Q6_K" | IQ2_XXS => "IQ2_XXS"
  | IQ2_XS => "IQ2_XS" | IQ3_XXS => "IQ3_XXS" | IQ1_S => "IQ1_S" | IQ4_NL => "IQ4_NL" | IQ3_S => "IQ3_S"
  | IQ2_S => "IQ2_S" | IQ4_XS => "IQ4_XS" | IQ1_M => "IQ1_M" | BF16 => "BF16"
  end.

Definition ggml_from_name (s : list Z) : FormatResult GgmlType.t :=
  ok_or (named ggml_name s ggml_all) (UnknownScheme (msg "{}" [Str s])).

Definition ggml_scheme (g : GgmlType.t) : option SchemeId :=
  match g with
  | Q8_0 => Some I8B32F | Q4_0 => Some I4B32F | Q4_1 => Some I4B32FM | Q5_0 => Some I5B32F
  | Q5_1 => Some I5B32FM | Q4_K => Some I4K | Q5_K => Some I5K | Q6_K => Some I6K | Q3_K => Some I3K
  | Q2_K => Some I2K | IQ4_NL => Some I4Nl | IQ4_XS => Some I4Xs | IQ3_XXS => Some Iq3Xxs
  | IQ3_S => Some Iq3S | IQ2_XXS => Some Iq2Xxs | IQ2_XS => Some Iq2Xs | IQ2_S => Some Iq2S
  | IQ1_S => Some Iq1S | IQ1_M => Some Iq1M
  | F16 | BF16 => None
  end.

Definition is_quantized (g : GgmlType.t) : bool := match g with F16 | BF16 => false | _ => true end.

Definition block_len (g : GgmlType.t) : Z :=
  match g with
  | F16 | BF16 => 1
  | Q4_0 | Q4_1 | Q5_0 | Q5_1 | Q8_0 | IQ4_NL => 32
  | _ => 256
  end.

Definition block_bytes (g : GgmlType.t) : Z :=
  match g with
  | F16 | BF16 => 2 | Q4_0 => 18 | Q4_1 => 20 | Q5_0 => 22 | Q5_1 => 24 | Q8_0 => 34 | Q2_K => 84
  | Q3_K => 110 | Q4_K => 144 | Q5_K => 176 | Q6_K => 210 | IQ2_XXS => 66 | IQ2_XS => 74 | IQ3_XXS => 98
  | IQ1_S => 50 | IQ4_NL => 18 | IQ3_S => 110 | IQ2_S => 82 | IQ4_XS => 136 | IQ1_M => 56
  end.

Definition superblock_k (g : GgmlType.t) : option Z :=
  match g with
  | F16 | BF16 => None
  | Q4_0 | Q4_1 | Q5_0 | Q5_1 | Q8_0 | IQ4_NL => Some 32
  | _ => Some 256
  end.

(** [iq_kind] and [is_iq] of [iq.rs]. *)
Definition iq_kind (g : GgmlType.t) : option IqKind :=
  match g with
  | IQ4_NL => Some KIq4Nl | IQ4_XS => Some KIq4Xs | IQ3_XXS => Some KIq3Xxs | IQ3_S => Some KIq3S
  | IQ2_XXS => Some KIq2Xxs | IQ2_XS => Some KIq2Xs | IQ2_S => Some KIq2S | IQ1_S => Some KIq1S
  | IQ1_M => Some KIq1M
  | _ => None
  end.
Definition is_iq (g : GgmlType.t) : bool := match iq_kind g with Some _ => true | None => false end.

(** ** Geometry of the wire bytes *)

Record WireGeometry : Type := {
  wg_ggml : GgmlType.t;
  wg_n_rows : Z;
  wg_k : Z;
  wg_blocks_per_row : Z;
  wg_total_bytes : Z;
}.

(** Of a nonempty list. *)
Definition single_or_multiple (problems : list FormatError) : FormatError :=
  match problems with [single] => single | problems => Multiple problems end.

Definition shape_problems (g : GgmlType.t) (n_rows k : Z) : list FormatError :=
  problem_if (n_rows =? 0) (InvalidDim "n_rows" 0 "must be at least 1") ++
  problem_if (k =? 0) (InvalidDim "k" 0 "must be at least 1") ++
  problem_if (negb (k =? 0) && negb (is_multiple_of k (block_len g)))
    (InvalidBlock "k" k "must be a multiple of the ggml block length").

Definition wire_geometry (g : GgmlType.t) (wire : list Z) (n_rows k : Z) : FormatResult WireGeometry :=
  match shape_problems g n_rows k with
  | [] =>
      let blocks_per_row := k / block_len g in
      let* expected := ok_or (v ← checked_mul U64_MAX n_rows blocks_per_row; checked_mul U64_MAX v (block_bytes g))
        (FmtOverflow "ggml wire bytes" (msg "n_rows={n_rows} k={k} block={} block_bytes={}"
           [Num n_rows; Num k; Name (ggml_name g); Num (block_bytes g)])) in
      if negb (len wire =? expected)
      then Err (single_or_multiple [LengthMismatch "ggml wire bytes" expected (len wire)])
      else Ok {| wg_ggml := g; wg_n_rows := n_rows; wg_k := k; wg_blocks_per_row := blocks_per_row;
                 wg_total_bytes := expected |}
  | problems => Err (single_or_multiple problems)
  end.

(** ** Slices and bytes *)

(** [l.get(a..b)]. *)
Definition slice {A} (a b : nat) (l : list A) : option (list A) :=
  if (a <=? b)%nat && (b <=? length l)%nat then Some (take (b - a) (drop a l)) else None.

(** [l] with [src] in place of what starts at [a]. *)
Definition splice {A} (a : nat) (src l : list A) : list A := take a l ++ src ++ drop (a + length src) l.

(** [dst[a..b].copy_from_slice(src)]. *)
Definition copy_into {E A} (a b : nat) (src dst : list A) : outcome E (list A) :=
  if (a <=? b)%nat && (b <=? length dst)%nat && (length src =? b - a)%nat then Ok (splice a src dst) else Panic.

(** [v[i] |= x]. *)
Definition vec_or {E} (i : nat) (x : Z) (l : list Z) : outcome E (list Z) :=
  let* old := or_panic (l !! i) in vec_set i (Z.lor old x) l.

(** [x as u8], and shifts that drop the bits above the type. *)
Definition as_u8 (x : Z) : Z := x mod 256.
Definition shl8 (x k : Z) : Z := Z.shiftl x k mod 256.
Definition shl32 (x k : Z) : Z := Z.shiftl x k mod 2 ^ 32.

(** [u16_le] and [u32_le], [u16_at] and [u32_at] of [iq.rs] and [u16_pair] of
    [repack.rs]. *)
Definition u16_le (block : list Z) (offset : nat) (what : string) : FormatResult Z :=
  match block !! offset, block !! S offset with
  | Some lo, Some hi => Ok (of_le_bytes [lo; hi])
  | _, _ => Err (LengthMismatch what (Z.of_nat (offset + 2)) (len block))
  end.

Definition u32_le (block : list Z) (offset : nat) (what : string) : FormatResult Z :=
  let* bytes := omapM (λ i, ok_or (block !! (offset + i)%nat)
                              (LengthMismatch what (Z.of_nat (offset + 4)) (len block))) (seqn 4) in
  Ok (of_le_bytes bytes).

Definition expect_block (what : string) (block : list Z) (g : GgmlType.t) : FormatResult unit :=
  expect_len (len block) (block_bytes g) what.

(** A byte of a block of [g]. *)
Definition block_get (g : GgmlType.t) (what : string) (block : list Z) (i : nat) : FormatResult Z :=
  ok_or (block !! i) (LengthMismatch what (block_bytes g) (len block)).

(** ** Codebook indices *)

Definition wire_index_len (k : IqKind) : nat :=
  match k with
  | KIq4Nl => 32
  | KIq4Xs => 256
  | KIq3Xxs | KIq3S | KIq2Xxs | KIq2Xs => 64
  | KIq2S | KIq1S | KIq1M => 32
  end.

Definition record_len (k : IqKind) : nat :=
  match k with
  | KIq4Nl => 2 | KIq4Xs => 8 | KIq3Xxs => 34 | KIq3S => 46 | KIq2Xxs => 2 | KIq2Xs => 10 | KIq2S => 50
  | KIq1S => 18 | KIq1M => 24
  end.

(** [copy_span] into [dest[a..b]]. *)
Definition copy_span (what : string) (block : list Z) (offset : nat) (a b : nat) (dest : list Z)
    : FormatResult (list Z) :=
  let fail := Err (LengthMismatch what (Z.of_nat (offset + (b - a))) (len block)) in
  if (length block <? offset)%nat || (length block - offset <? b - a)%nat then fail
  else match slice offset (offset + (b - a)) block with
       | Some src => copy_into a b src dest
       | None => fail
       end.

Definition expect_parsed (k : IqKind) (idx rec : list Z) : FormatResult unit :=
  let* _ := expect_len (len idx) (Z.of_nat (wire_index_len k)) "iq parsed indices" in
  expect_len (len rec) (Z.of_nat (record_len k)) "iq parsed record".

(** The nibbles written over a buffer of [nib_len] of them. *)
Definition unpack_nibbles (k : IqKind) (block : list Z) (nib_len : nat) : FormatResult (list Z) :=
  match k with
  | KIq4Nl =>
      if negb (length block =? 18)%nat || negb (nib_len =? 32)%nat
      then Err (LengthMismatch "iq4_nl nibbles" 18 (len block))
      else omapM (λ p,
             let* byte := ok_or (block !! (2 + p mod 16)%nat) (LengthMismatch "iq4_nl values" 18 (len block)) in
             Ok (if (p <? 16)%nat then Z.land byte 15 else Z.shiftr byte 4)) (seqn 32)
  | KIq4Xs =>
      if negb (length block =? 136)%nat || negb (nib_len =? 256)%nat
      then Err (LengthMismatch "iq4_xs nibbles" 136 (len block))
      else omapM (λ j,
             let* byte := ok_or (block !! (8 + j / 32 * 16 + j mod 16)%nat)
                            (LengthMismatch "iq4_xs values" 136 (len block)) in
             Ok (if (j mod 32 <? 16)%nat then Z.land byte 15 else Z.shiftr byte 4)) (seqn 256)
  | _ => Err (SchemeMismatch (iq_kind_name k) "4-bit-per-weight iq type" (iq_kind_name k))
  end.

Definition parse_block (k : IqKind) (g : GgmlType.t) (block idx rec : list Z) : FormatResult (list Z * list Z) :=
  let* _ := expect_block "iq wire block" block g in
  let* _ := expect_parsed k idx rec in
  match k with
  | KIq4Nl =>
      let* idx := unpack_nibbles k block (length idx) in
      let* rec := copy_span "iq4_nl record" block 0 0 2 rec in
      Ok (idx, rec)
  | KIq4Xs =>
      let* idx := unpack_nibbles k block (length idx) in
      let* rec := copy_span "iq4_xs record" block 0 0 8 rec in
      Ok (idx, rec)
  | KIq3Xxs =>
      let* idx := copy_span "iq3_xxs indices" block 2 0 64 idx in
      let* rec := copy_span "iq3_xxs scale" block 0 0 2 rec in
      let* rec := copy_span "iq3_xxs scales" block 66 2 34 rec in
      Ok (idx, rec)
  | KIq3S =>
      let* idx := copy_span "iq3_s indices" block 2 0 64 idx in
      let* rec := copy_span "iq3_s scale" block 0 0 2 rec in
      let* rec := copy_span "iq3_s high bits" block 66 2 10 rec in
      let* rec := copy_span "iq3_s signs" block 74 10 42 rec in
      let* rec := copy_span "iq3_s scales" block 106 42 46 rec in
      Ok (idx, rec)
  | KIq2Xxs =>
      let* idx := copy_span "iq2_xxs indices" block 2 0 64 idx in
      let* rec := copy_span "iq2_xxs scale" block 0 0 2 rec in
      Ok (idx, rec)
  | KIq2Xs =>
      let* idx := copy_span "iq2_xs indices" block 2 0 64 idx in
      let* rec := copy_span "iq2_xs scale" block 0 0 2 rec in
      let* rec := copy_span "iq2_xs scales" block 66 2 10 rec in
      Ok (idx, rec)
  | KIq2S =>
      let* idx := copy_span "iq2_s indices" block 2 0 32 idx in
      let* rec := copy_span "iq2_s scale" block 0 0 2 rec in
      let* rec := copy_span "iq2_s signs" block 34 2 34 rec in
      let* rec := copy_span "iq2_s high bits" block 66 34 42 rec in
      let* rec := copy_span "iq2_s scales" block 74 42 50 rec in
      Ok (idx, rec)
  | KIq1S =>
      let* idx := copy_span "iq1_s indices" block 2 0 32 idx in
      let* rec := copy_span "iq1_s scale" block 0 0 2 rec in
      let* rec := copy_span "iq1_s high bits" block 34 2 18 rec in
      Ok (idx, rec)
  | KIq1M =>
      let* idx := copy_span "iq1_m indices" block 0 0 32 idx in
      let* rec := copy_span "iq1_m high bits" block 32 0 16 rec in
      let* rec := copy_span "iq1_m scales" block 48 16 24 rec in
      Ok (idx, rec)
  end.

Definition nibble_logical (k : IqKind) (g : GgmlType.t) (block out : list Z) : FormatResult (list Z) :=
  match k with
  | KIq4Nl | KIq4Xs =>
      let* _ := expect_len (len out) (block_len g) "iq logical values" in
      unpack_nibbles k block (length out)
  | _ => Err (SchemeMismatch (iq_kind_name k) "4-bit-per-weight iq type" (iq_kind_name k))
  end.

Definition write_block (k : IqKind) (g : GgmlType.t) (idx rec block : list Z) : FormatResult (list Z) :=
  let* _ := expect_block "iq wire block" block g in
  let* _ := expect_parsed k idx rec in
  let block := map (λ _, 0) block in
  let nibble_pair lo hi := Z.lor (Z.land lo 15) (shl8 (Z.land hi 15) 4) in
  match k with
  | KIq4Nl =>
      let* block := copy_span "iq4_nl record" rec 0 0 2 block in
      ofoldM (λ block p,
        let* lo := or_panic (idx !! p) in
        let* hi := or_panic (idx !! (p + 16)%nat) in
        vec_set (2 + p) (nibble_pair lo hi) block) block (seqn 16)
  | KIq4Xs =>
      let* block := copy_span "iq4_xs record" rec 0 0 8 block in
      ofoldM (λ block g, ofoldM (λ block p,
        let* lo := or_panic (idx !! (g * 32 + p)%nat) in
        let* hi := or_panic (idx !! (g * 32 + 16 + p)%nat) in
        vec_set (8 + g * 16 + p) (nibble_pair lo hi) block) block (seqn 16)) block (seqn 8)
  | KIq3Xxs =>
      let* block := copy_span "iq3_xxs scale" rec 0 0 2 block in
      let* block := copy_span "iq3_xxs indices" idx 0 2 66 block in
      copy_span "iq3_xxs scales" rec 2 66 98 block
  | KIq3S =>
      let* block := copy_span "iq3_s scale" rec 0 0 2 block in
      let* block := copy_span "iq3_s indices" idx 0 2 66 block in
      let* block := copy_span "iq3_s high bits" rec 2 66 74 block in
      let* block := copy_span "iq3_s signs" rec 10 74 106 block in
      copy_span "iq3_s scales" rec 42 106 110 block
  | KIq2Xxs =>
      let* block := copy_span "iq2_xxs scale" rec 0 0 2 block in
      copy_span "iq2_xxs indices" idx 0 2 66 block
  | KIq2Xs =>
      let* block := copy_span "iq2_xs scale" rec 0 0 2 block in
      let* block := copy_span "iq2_xs indices" idx 0 2 66 block in
      copy_span "iq2_xs scales" rec 2 66 74 block
  | KIq2S =>
      let* block := copy_span "iq2_s scale" rec 0 0 2 block in
      let* block := copy_span "iq2_s indices" idx 0 2 34 block in
      let* block := copy_span "iq2_s signs" rec 2 34 66 block in
      let* block := copy_span "iq2_s high bits" rec 34 66 74 block in
      copy_span "iq2_s scales" rec 42 74 82 block
  | KIq1S =>
      let* block := copy_span "iq1_s scale" rec 0 0 2 block in
      let* block := copy_span "iq1_s indices" idx 0 2 34 block in
      copy_span "iq1_s high bits" rec 2 34 50 block
  | KIq1M =>
      let* block := copy_span "iq1_m indices" idx 0 0 32 block in
      let* block := copy_span "iq1_m high bits" rec 0 32 48 block in
      copy_span "iq1_m scales" rec 16 48 56 block
  end.

(** ** Logical values of a block *)

(** The arm of a type that an outer match has excluded. *)
Definition excluded {A} (g : GgmlType.t) (expected : string) : FormatResult A :=
  Err (SchemeMismatch (ggml_name g) expected (ggml_name g)).

Definition half_values (block out : list Z) : FormatResult (list Z) :=
  omapM (λ i, u16_le block (2 * i) "ggml half block") (seqn (length out)).

Definition q8_values (g : GgmlType.t) (block out : list Z) : FormatResult (list Z) :=
  omapM (λ i, block_get g "q8_0 values" block (2 + i)) (seqn (length out)).

Definition q4_values (g : GgmlType.t) (block out : list Z) : FormatResult (list Z) :=
  let* base := match g with Q4_0 => Ok 2%nat | Q4_1 => Ok 4%nat | _ => excluded g "q4_0/1 block" end in
  ofoldM (λ out j,
    let* byte := block_get g "q4_0/1 values" block (base + j) in
    let* out := vec_set j (Z.land byte 15) out in
    vec_set (j + 16) (Z.shiftr byte 4) out) out (seqn 16).

Definition q5_values (g : GgmlType.t) (block out : list Z) : FormatResult (list Z) :=
  let* (qh_off, qs_off) := match g with
                           | Q5_0 => Ok (2%nat, 6%nat)
                           | Q5_1 => Ok (4%nat, 8%nat)
                           | _ => excluded g "q5_0/1 block"
                           end in
  let* qh := u32_le block qh_off "q5_0/1 high bits" in
  ofoldM (λ out j,
    let* byte := block_get g "q5_0/1 values" block (qs_off + j) in
    let lo := Z.land byte 15 in
    let hi := Z.shiftr byte 4 in
    let* out := vec_set j (Z.lor lo (Z.shiftl (Z.land (Z.shiftr qh (Z.of_nat j)) 1) 4)) out in
    vec_set (j + 16) (Z.lor hi (Z.shiftl (Z.land (Z.shiftr qh (Z.of_nat (j + 16))) 1) 4)) out) out (seqn 16).

Definition k45_values (g : GgmlType.t) (block out : list Z) : FormatResult (list Z) :=
  let* qs_off := match g with Q5_K => Ok 48%nat | Q4_K => Ok 16%nat | _ => excluded g "q4_k/q5_k block" end in
  let* out := ofoldM (λ out j, ofoldM (λ out p,
      let* byte := block_get g "q4_k/q5_k values" block (qs_off + j / 2 * 32 + p) in
      vec_set (j * 32 + p) (Z.land (Z.shiftr byte (Z.of_nat (j mod 2 * 4))) 15) out) out (seqn 32)) out (seqn 8) in
  if decide (g = Q5_K) then
    ofoldM (λ out j, ofoldM (λ out p,
      let* byte := block_get g "q5_k high bits" block (16 + p) in
      vec_or (j * 32 + p) (Z.shiftl (Z.land (Z.shiftr byte (Z.of_nat j)) 1) 4) out) out (seqn 32)) out (seqn 8)
  else Ok out.

Definition q6_values (g : GgmlType.t) (block out : list Z) : FormatResult (list Z) :=
  ofoldM (λ out j,
    let big := (j / 2)%nat in
    let pos0 := (j mod 2 * 16)%nat in
    ofoldM (λ out p,
      let big_p := (pos0 + p)%nat in
      let flat := (big * 32 + big_p)%nat in
      let gr := (flat / 128)%nat in
      let s := (flat mod 128 / 64)%nat in
      let b := (flat mod 64)%nat in
      let* lo := block_get g "q6_k low bits" block (gr * 64 + b) in
      let lo := Z.land (Z.shiftr lo (Z.of_nat (s * 4))) 15 in
      let group := (big / 4)%nat in
      let pair := (big mod 4)%nat in
      let* hi := block_get g "q6_k high bits" block (128 + group * 32 + big_p) in
      let hi := Z.land (Z.shiftr hi (Z.of_nat (pair * 2))) 3 in
      vec_set (j * 16 + p) (Z.lor lo (Z.shiftl hi 4)) out) out (seqn 16)) out (seqn 16).

Definition k23_values (g : GgmlType.t) (block out : list Z) : FormatResult (list Z) :=
  let* qs_off := match g with Q3_K => Ok 32%nat | Q2_K => Ok 16%nat | _ => excluded g "q3_k/q2_k block" end in
  let* out := ofoldM (λ out j,
    let group := (j / 8)%nat in
    let half := (j mod 8 mod 2)%nat in
    let shift := (j mod 8 / 2 * 2)%nat in
    ofoldM (λ out p,
      let* byte := block_get g "q3_k/q2_k values" block (qs_off + group * 32 + half * 16 + p) in
      vec_set (j * 16 + p) (Z.land (Z.shiftr byte (Z.of_nat shift)) 3) out) out (seqn 16)) out (seqn 16) in
  if decide (g = Q3_K) then
    ofoldM (λ out j, ofoldM (λ out p,
      let* byte := block_get g "q3_k high bits" block (j mod 2 * 16 + p) in
      vec_or (j * 16 + p) (Z.shiftl (Z.lxor (Z.land (Z.shiftr byte (Z.of_nat (j / 2))) 1) 1) 2) out)
      out (seqn 16)) out (seqn 16)
  else Ok out.

Definition block_values (g : GgmlType.t) (block out : list Z) : FormatResult (list Z) :=
  let* _ := expect_block "ggml wire block" block g in
  let* _ := expect_len (len out) (block_len g) "ggml logical values" in
  match g with
  | F16 | BF16 => half_values block out
  | Q8_0 => q8_values g block out
  | Q4_0 | Q4_1 => q4_values g block out
  | Q5_0 | Q5_1 => q5_values g block out
  | Q4_K | Q5_K => k45_values g block out
  | Q6_K => q6_values g block out
  | Q3_K | Q2_K => k23_values g block out
  | IQ4_NL | IQ4_XS =>
      let* kind := match iq_kind g with Some kind => Ok kind | None => excluded g "iq4 ggml type" end in
      nibble_logical kind g block out
  | IQ2_XXS | IQ2_XS | IQ3_XXS | IQ1_S | IQ3_S | IQ2_S | IQ1_M => excluded g "per-weight logical values"
  end.

Lemma ggml_code_roundtrip g : ggml_from_code (ggml_code g) = Ok g.
Proof. by destruct g. Qed.
Lemma ggml_name_roundtrip g : ggml_from_name (lit (ggml_name g)) = Ok g.
Proof. by destruct g. Qed.
