(* ===== verification/Repack.v ===== *)
(** * Repacking of GGUF tensors

    [crates/r9v-format/src/repack.rs] and the repacking of [iq.rs]: the wire
    blocks of a tensor taken apart into tile-order values and a region of
    scale records, and put together again. *)

From S2P Require Import Prelude Bytes Format Tiles Permute Regions Ggml.

Import GgmlType.

#[global] Open Scope Z_scope.

Record RepackedTensor : Type := {
  rt_ggml : GgmlType.t;
  rt_scheme : option SchemeId;
  rt_dims : PaddedDims;
  rt_values : list Z;
  rt_scales : list Z;
}.

(** ** Scale records of a block *)

Definition record_span (g : GgmlType.t) : option (nat * nat) :=
  match g with
  | Q8_0 | Q4_0 | Q5_0 => Some (0%nat, 2%nat)
  | Q4_1 | Q5_1 => Some (0%nat, 4%nat)
  | Q4_K | Q5_K => Some (0%nat, 16%nat)
  | Q3_K => Some (96%nat, 14%nat)
  | IQ4_NL => Some (0%nat, 2%nat)
  | IQ4_XS => Some (0%nat, 8%nat)
  | _ => None
  end.

(** [block.get(a..b)], or the length the block should have had. *)
Definition get_span (what : string) (expected : Z) (block : list Z) (a b : nat) : FormatResult (list Z) :=
  ok_or (slice a b block) (LengthMismatch what expected (len block)).

(** The record written over a buffer. *)
Definition copy_block_record (g : GgmlType.t) (block record : list Z) : FormatResult (list Z) :=
  match g with
  | Q6_K =>
      let* _ := expect_len (len record) 18 "repack scale record" in
      let* wire_d := get_span "q6_k wire scales" 210 block 208 210 in
      let* wire_sc := get_span "q6_k wire scales" 208 block 192 208 in
      let* record := copy_into 0 2 wire_d record in
      copy_into 2 18 wire_sc record
  | Q2_K =>
      let* _ := expect_len (len record) 20 "repack scale record" in
      let* wire_scales := get_span "q2_k wire scales" 16 block 0 16 in
      let* wire_d := get_span "q2_k wire scales" 84 block 80 84 in
      let* record := copy_into 0 16 wire_scales record in
      copy_into 16 20 wire_d record
  | F16 | BF16 => excluded g "quantized ggml block"
  | IQ4_NL | IQ4_XS | IQ3_XXS | IQ3_S | IQ2_XXS | IQ2_XS | IQ2_S | IQ1_S | IQ1_M =>
      excluded g "card-A2.3 scale record (iq records via crate::iq)"
  | Q8_0 | Q4_0 | Q4_1 | Q5_0 | Q5_1 | Q4_K | Q5_K | Q3_K =>
      let* (start, length_) := match record_span g with
                               | Some span => Ok span
                               | None => excluded g "contiguous wire scale span"
                               end in
      let* _ := expect_len (len record) (Z.of_nat length_) "repack scale record" in
      let* src := get_span "ggml wire block" (Z.of_nat (start + length_)) block start (start + length_) in
      copy_into 0 (length record) src record
  end.

(** ** Wire blocks from values and records *)

Definition put_halfs (values block : list Z) : FormatResult (list Z) :=
  ofoldM (λ block '(i, v),
    let* block := vec_set (2 * i) (v mod 256) block in
    vec_set (2 * i + 1) (v / 256 mod 256) block) block (enumerate values).

Definition put_q8 (values record block : list Z) : FormatResult (list Z) :=
  match slice 0 2 record, slice 0 34 block with
  | Some rec, Some _ =>
      let* block := copy_into 0 2 rec block in
      ofoldM (λ block '(i, v), vec_set (2 + i) (as_u8 v) block) block (enumerate values)
  | _, _ => Err (LengthMismatch "q8_0 wire block" 34 (len block))
  end.

Definition put_q4 (g : GgmlType.t) (values record block : list Z) : FormatResult (list Z) :=
  let* base := match g with Q4_0 => Ok 2%nat | Q4_1 => Ok 4%nat | _ => excluded g "q4_0/1 block" end in
  let* block := copy_into 0 (length record) record block in
  ofoldM (λ block j,
    let* lo := or_panic (values !! j) in
    let* hi := or_panic (values !! (j + 16)%nat) in
    vec_set (base + j) (Z.lor (as_u8 lo) (shl8 (as_u8 hi) 4)) block) block (seqn 16).

Definition put_q5 (g : GgmlType.t) (values record block : list Z) : FormatResult (list Z) :=
  let* (qh_off, qs_off) := match g with
                           | Q5_0 => Ok (2%nat, 6%nat)
                           | Q5_1 => Ok (4%nat, 8%nat)
                           | _ => excluded g "q5_0/1 block"
                           end in
  let* block := copy_into 0 (length record) record block in
  let* (block, qh) := ofoldM (λ '(block, qh) j,
    let* lo := or_panic (values !! j) in
    let* hi := or_panic (values !! (j + 16)%nat) in
    let* block := vec_set (qs_off + j) (Z.lor (Z.land (as_u8 lo) 15) (shl8 (Z.land (as_u8 hi) 15) 4)) block in
    let qh := Z.lor qh (shl32 (Z.shiftr lo 4) (Z.of_nat j)) in
    let qh := Z.lor qh (shl32 (Z.shiftr hi 4) (Z.of_nat (j + 16))) in
    Ok (block, qh)) (block, 0) (seqn 16) in
  copy_into qh_off (qh_off + 4) (le_bytes 4 qh) block.

Definition put_k45 (g : GgmlType.t) (values record block : list Z) : FormatResult (list Z) :=
  let* block := copy_into 0 16 record block in
  let* qs_off := match g with Q5_K => Ok 48%nat | Q4_K => Ok 16%nat | _ => excluded g "q4_k/q5_k block" end in
  let* block := ofoldM (λ block gr, ofoldM (λ block b,
      let* lo := or_panic (values !! (2 * gr * 32 + b)%nat) in
      let* hi := or_panic (values !! ((2 * gr + 1) * 32 + b)%nat) in
      vec_set (qs_off + gr * 32 + b) (Z.lor (Z.land (as_u8 lo) 15) (shl8 (Z.land (as_u8 hi) 15) 4)) block)
    block (seqn 32)) block (seqn 4) in
  if decide (g = Q5_K) then
    ofoldM (λ block p,
      let* byte := ofoldM (λ byte j,
        let* v := or_panic (values !! (j * 32 + p)%nat) in
        Ok (Z.lor byte (shl8 (as_u8 (Z.shiftr v 4)) (Z.of_nat j)))) 0 (seqn 8) in
      vec_set (16 + p) byte block) block (seqn 32)
  else Ok block.

Definition put_q6 (values record block : list Z) : FormatResult (list Z) :=
  let* d := get_span "i6_k record" 2 record 0 2 in
  let* sc := get_span "i6_k record" 18 record 2 18 in
  let* block := copy_into 192 208 sc block in
  let* block := copy_into 208 210 d block in
  ofoldM (λ block j,
    let big := (j / 2)%nat in
    let pos0 := (j mod 2 * 16)%nat in
    ofoldM (λ block p,
      let big_p := (pos0 + p)%nat in
      let flat := (big * 32 + big_p)%nat in
      let gr := (flat / 128)%nat in
      let s := (flat mod 128 / 64)%nat in
      let b := (flat mod 64)%nat in
      let* v := or_panic (values !! (j * 16 + p)%nat) in
      let* block := vec_or (gr * 64 + b) (shl8 (Z.land (as_u8 v) 15) (Z.of_nat (s * 4))) block in
      let group := (big / 4)%nat in
      let pair := (big mod 4)%nat in
      vec_or (128 + group * 32 + big_p) (shl8 (Z.land (as_u8 (Z.shiftr v 4)) 3) (Z.of_nat (pair * 2))) block)
    block (seqn 16)) block (seqn 16).

Definition put_k23 (g : GgmlType.t) (values record block : list Z) : FormatResult (list Z) :=
  let* qs_off := match g with Q3_K => Ok 32%nat | Q2_K => Ok 16%nat | _ => excluded g "q3_k/q2_k block" end in
  let* block :=
    if decide (g = Q3_K) then copy_into 96 110 record block
    else
      let* scales := get_span "q2_k record" 16 record 0 16 in
      let* d := get_span "q2_k record" 20 record 16 20 in
      let* block := copy_into 0 16 scales block in
      copy_into 80 84 d block in
  let* block := ofoldM (λ block j,
    let group := (j / 8)%nat in
    let half := (j mod 8 mod 2)%nat in
    let shift := (j mod 8 / 2 * 2)%nat in
    ofoldM (λ block p,
      let* v := or_panic (values !! (j * 16 + p)%nat) in
      vec_or (qs_off + group * 32 + half * 16 + p) (shl8 (Z.land (as_u8 v) 3) (Z.of_nat shift)) block)
    block (seqn 16)) block (seqn 16) in
  if decide (g = Q3_K) then
    ofoldM (λ block j, ofoldM (λ block p,
      let* v := or_panic (values !! (j * 16 + p)%nat) in
      let bit := as_u8 (Z.lxor (Z.land (Z.shiftr v 2) 1) 1) in
      vec_or (j mod 2 * 16 + p) (shl8 bit (Z.of_nat (j / 2))) block) block (seqn 16)) block (seqn 16)
  else Ok block.

Definition write_wire_block (g : GgmlType.t) (values record block : list Z) : FormatResult (list Z) :=
  let* _ := expect_len (len values) (block_len g) "repack logical values" in
  let* _ := expect_len (len block) (block_bytes g) "ggml wire block" in
  match g with
  | F16 | BF16 => put_halfs values block
  | Q8_0 => put_q8 values record block
  | Q4_0 | Q4_1 => put_q4 g values record block
  | Q5_0 | Q5_1 => put_q5 g values record block
  | Q4_K | Q5_K => put_k45 g values record block
  | Q6_K => put_q6 values record block
  | Q3_K | Q2_K => put_k23 g values record block
  | IQ4_NL | IQ4_XS | IQ3_XXS | IQ3_S | IQ2_XXS | IQ2_XS | IQ2_S | IQ1_S | IQ1_M =>
      excluded g "card-A2.3 wire block (iq inverts via crate::iq)"
  end.

(** ** Tensors *)

(** [&v[a..b]]. *)
Definition index_slice {A} (a b : nat) (l : list A) : FormatResult (list A) := or_panic (slice a b l).

Definition pack_logical (g : GgmlType.t) (logical : list Z) (d : PaddedDims) : FormatResult (list Z) :=
  match g with
  | F16 | BF16 => let* tiled := l1_pack_halfs logical d in Ok (encode_halfs_le tiled)
  | Q8_0 => l1_pack_bytes (map as_u8 logical) d
  | Q4_0 | Q4_1 | Q4_K => l1_pack_nibbles (map as_u8 logical) d
  | Q5_0 | Q5_1 | Q5_K => l1_pack_planes logical d 5
  | Q6_K => l1_pack_planes logical d 6
  | Q3_K => l1_pack_planes logical d 3
  | Q2_K => l1_pack_planes logical d 2
  | IQ4_NL | IQ4_XS | IQ3_XXS | IQ3_S | IQ2_XXS | IQ2_XS | IQ2_S | IQ1_S | IQ1_M =>
      excluded g "card-A2.3 logical packing (iq packs via crate::iq)"
  end.

(** The loops that write the record of every wire block at its place in
    [[N/16][K/B][16]] order; [record_of] reads the record of a block. *)
Definition records_loop (record_of : list Z → FormatResult (list Z)) (wire : list Z)
    (n_rows n_blocks k_blocks row_blocks bytes record : nat) : FormatResult (list Z) :=
  ofoldM (λ out nb, ofoldM (λ out kb, ofoldM (λ out row,
    let source := (nb * 16 + row)%nat in
    let dest := (((nb * k_blocks + kb) * 16 + row) * record)%nat in
    if (source <? n_rows)%nat then
      let base := ((source * row_blocks + kb) * bytes)%nat in
      let* block := index_slice base (base + bytes) wire in
      let* scratch := record_of block in
      copy_into dest (dest + record) scratch out
    else Ok out) out (seqn 16)) out (seqn k_blocks))
    (replicate (n_blocks * k_blocks * 16 * record) 0) (seqn n_blocks).

Definition pack_scales (g : GgmlType.t) (wire : list Z) (d : PaddedDims) (geo : WireGeometry)
    : FormatResult (list Z) :=
  match ggml_scheme g with
  | None => Ok []
  | Some scheme =>
      let* record := repack_record_bytes scheme in
      let* outer := repack_outer_block scheme in
      let outer := default (k_padded d) outer in
      let record := Z.to_nat record in
      records_loop (λ block, copy_block_record g block (replicate record 0)) wire
        (Z.to_nat (wg_n_rows geo)) (Z.to_nat (n_padded d / 16)) (Z.to_nat (k_padded d / outer))
        (Z.to_nat (wg_blocks_per_row geo)) (Z.to_nat (block_bytes g)) record
  end.

(** The loop that lays the values of every wire block out row by row. *)
Definition logical_loop (values_of : list Z → FormatResult (list Z)) (wire : list Z)
    (n_rows row_blocks bytes stride count total : nat) : FormatResult (list Z) :=
  ofoldM (λ logical row, ofoldM (λ logical b,
    let base := ((row * row_blocks + b) * bytes)%nat in
    let* block := index_slice base (base + bytes) wire in
    let* parsed := values_of block in
    let dest := (row * stride + b * count)%nat in
    copy_into dest (dest + count) parsed logical) logical (seqn row_blocks))
    (replicate total 0) (seqn n_rows).

Definition is_nibble_kind (k : IqKind) : bool := match k with KIq4Nl | KIq4Xs => true | _ => false end.

(** The block of the scale grouping of an IQ type. *)
Definition iq_outer (k : IqKind) : Z := match k with KIq4Nl => 32 | _ => 256 end.

Definition iq_repack (g : GgmlType.t) (wire : list Z) (n_rows k : Z) : FormatResult RepackedTensor :=
  let* kind := match iq_kind g with Some kind => Ok kind | None => excluded g "iq ggml type" end in
  let* geo := wire_geometry g wire n_rows k in
  let* d := dims_new n_rows k (superblock_k g) in
  let bytes := Z.to_nat (block_bytes g) in
  let reclen := record_len kind in
  let row_blocks := Z.to_nat (wg_blocks_per_row geo) in
  let parsed_idx := replicate (wire_index_len kind) 0 in
  let parsed_rec := replicate reclen 0 in
  let* value_dims := if is_nibble_kind kind then Ok d else index_dims d kind in
  let stride := Z.to_nat (k_padded value_dims) in
  let* logical := logical_loop
    (λ block, let* (idx, _) := parse_block kind g block parsed_idx parsed_rec in
              index_slice 0 (wire_index_len kind) idx)
    wire (Z.to_nat n_rows) row_blocks bytes stride (wire_index_len kind)
    (Z.to_nat (n_padded d) * Z.to_nat (k_padded value_dims)) in
  let* values := if is_nibble_kind kind then l1_pack_nibbles logical value_dims
                 else l1_pack_bytes logical value_dims in
  let* scales := records_loop
    (λ block, let* (_, rec) := parse_block kind g block parsed_idx parsed_rec in Ok rec)
    wire (Z.to_nat (wg_n_rows geo)) (Z.to_nat (n_padded d / 16)) (Z.to_nat (k_padded d / iq_outer kind))
    row_blocks bytes reclen in
  Ok {| rt_ggml := g; rt_scheme := ggml_scheme g; rt_dims := d; rt_values := values; rt_scales := scales |}.

Definition repack (g : GgmlType.t) (wire : list Z) (n_rows k : Z) : FormatResult RepackedTensor :=
  if is_iq g then iq_repack g wire n_rows k
  else
    let* geo := wire_geometry g wire n_rows k in
    let* d := dims_new n_rows k (superblock_k g) in
    let block_len := Z.to_nat (block_len g) in
    let* logical := logical_loop (λ block, block_values g block (replicate block_len 0))
      wire (Z.to_nat n_rows) (Z.to_nat (wg_blocks_per_row geo)) (Z.to_nat (block_bytes g))
      (Z.to_nat (k_padded d)) block_len (Z.to_nat (n_padded d) * Z.to_nat (k_padded d)) in
    let* values := pack_logical g logical d in
    let* scales := pack_scales g wire d geo in
    Ok {| rt_ggml := g; rt_scheme := ggml_scheme g; rt_dims := d; rt_values := values; rt_scales := scales |}.

(** ** Back to the wire *)

(** The refusal of a tensor whose scheme is not that of its type. *)
Definition scheme_or (g : GgmlType.t) (s : option SchemeId) : string :=
  match s with Some s => scheme_name s | None => ggml_name g end.
Definition scheme_or_halves (s : option SchemeId) : string :=
  match s with Some s => scheme_name s | None => "unquantized halves" end.

Definition check_scheme (t : RepackedTensor) : FormatResult unit :=
  if decide (ggml_scheme (rt_ggml t) = rt_scheme t) then Ok tt
  else Err (SchemeMismatch (scheme_or (rt_ggml t) (rt_scheme t)) (scheme_or_halves (ggml_scheme (rt_ggml t)))
              (scheme_or_halves (rt_scheme t))).

(** The packing, record length and number of K-blocks. *)
Definition repacked_geometry (t : RepackedTensor) : FormatResult (Packing * nat * nat) :=
  if is_iq (rt_ggml t)
  then excluded (rt_ggml t) "card-A2.3 repacked tensor (iq validates via crate::iq)"
  else
    let d := rt_dims t in
    let* (packing, record, outer) :=
      match rt_scheme t with
      | Some scheme =>
          let* packing := repack_packing scheme in
          let* record := repack_record_bytes scheme in
          let* outer := repack_outer_block scheme in
          Ok (packing, record, default (k_padded d) outer)
      | None => Ok (Half16, 0, k_padded d)
      end in
    let* _ := check_scheme t in
    let* expected_values := value_region_bytes d packing in
    let* _ := expect_len (len (rt_values t)) expected_values "repacked value region" in
    let n_blocks := n_padded d / 16 in
    let k_blocks := k_padded d / outer in
    let* _ := expect_len (len (rt_scales t)) (n_blocks * k_blocks * 16 * record) "repacked scale region" in
    Ok (packing, Z.to_nat record, Z.to_nat k_blocks).

Definition unpack_logical (t : RepackedTensor) (packing : Packing) : FormatResult (list Z) :=
  let d := rt_dims t in
  match packing with
  | Byte => l1_unpack_bytes (rt_values t) d
  | Nibble4 => l1_unpack_nibbles (rt_values t) d
  | Half16 => let* tiled := decode_halfs_le (rt_values t) in l1_unpack_halfs tiled d
  | BitPlanes bits => l1_unpack_planes (rt_values t) d bits
  end.

(** [soa_record] of [repack.rs] and, under another label, of [iq.rs]. *)
Definition soa_record (what : string) (scales : list Z) (record k_blocks nb kb row : nat) : FormatResult (list Z) :=
  let base := (((nb * k_blocks + kb) * 16 + row) * record)%nat in
  ok_or (slice base (base + record) scales)
    (LengthMismatch what (Z.of_nat (base + record)) (len scales)).

(** The loop that writes every wire block from its values and record. *)
Definition wire_loop (write : list Z → list Z → list Z → FormatResult (list Z)) (what : string)
    (logical scales : list Z) (n_rows row_blocks bytes stride count record k_blocks : nat) : FormatResult (list Z) :=
  ofoldM (λ wire row, ofoldM (λ wire b,
    let start := (row * stride + b * count)%nat in
    let* vals := index_slice start (start + count) logical in
    let* rec := soa_record what scales record k_blocks (row / 16) b (row mod 16) in
    let dest := ((row * row_blocks + b) * bytes)%nat in
    let* block := index_slice dest (dest + bytes) wire in
    let* block := write vals rec block in
    copy_into dest (dest + bytes) block wire) wire (seqn row_blocks))
    (replicate (n_rows * row_blocks * bytes) 0) (seqn n_rows).

(** The kind, the dimensions of the values, and the number of K-blocks. *)
Definition repacked_geometry_iq (t : RepackedTensor) : FormatResult (IqKind * PaddedDims * nat) :=
  let* kind := match iq_kind (rt_ggml t) with
               | Some kind => Ok kind
               | None => excluded (rt_ggml t) "iq ggml type"
               end in
  let* _ := check_scheme t in
  let d := rt_dims t in
  let record := Z.of_nat (record_len kind) in
  let* value_dims := if is_nibble_kind kind then Ok d else index_dims d kind in
  let packing := if is_nibble_kind kind then Nibble4 else Byte in
  let* expected_values := value_region_bytes value_dims packing in
  let* _ := expect_len (len (rt_values t)) expected_values "iq repacked value region" in
  let n_blocks := n_padded d / 16 in
  let k_blocks := k_padded d / iq_outer kind in
  let* _ := expect_len (len (rt_scales t)) (n_blocks * k_blocks * 16 * record) "iq repacked scale region" in
  Ok (kind, value_dims, Z.to_nat k_blocks).

Definition iq_logical (t : RepackedTensor) (kind : IqKind) (value_dims : PaddedDims) : FormatResult (list Z) :=
  if is_nibble_kind kind then l1_unpack_nibbles (rt_values t) value_dims else l1_unpack_bytes (rt_values t) value_dims.

Definition iq_unpack (t : RepackedTensor) : FormatResult (list Z) :=
  let* (kind, value_dims, k_blocks) := repacked_geometry_iq t in
  let g := rt_ggml t in
  let* logical := iq_logical t kind value_dims in
  wire_loop (λ vals rec block, write_block kind g vals rec block) "iq soa scale record" logical (rt_scales t)
    (Z.to_nat (pd_n (rt_dims t))) (Z.to_nat (pd_k (rt_dims t) / block_len g)) (Z.to_nat (block_bytes g))
    (Z.to_nat (k_padded value_dims)) (wire_index_len kind) (record_len kind) k_blocks.

Definition unpack_repacked (t : RepackedTensor) : FormatResult (list Z) :=
  if is_iq (rt_ggml t) then iq_unpack t
  else
    let* (packing, record, k_blocks) := repacked_geometry t in
    let g := rt_ggml t in
    let* logical := unpack_logical t packing in
    wire_loop (λ vals rec block, write_wire_block g vals rec block) "repacked scale record" logical (rt_scales t)
      (Z.to_nat (pd_n (rt_dims t))) (Z.to_nat (pd_k (rt_dims t) / block_len g)) (Z.to_nat (block_bytes g))
      (Z.to_nat (k_padded (rt_dims t))) (Z.to_nat (block_len g)) record k_blocks.
