(* ===== verification/RepackBlock.v ===== *)
(** * Wire blocks read back

    The bytes of a wire block are regrouped by shifts and masks.  A small
    reflective prover tracks where every bit of such an expression comes from;
    with it, every type's block is shown to be put together again from its
    values and its scale record. *)

From S2P Require Import Prelude Bytes Format Tiles Permute LaneCodec Ggml Repack.

Import GgmlType.

#[global] Open Scope Z_scope.

(** ** Bits of shift and mask expressions *)

(** Expressions over the bytes [b i] of a block. *)
Inductive bexp : Type :=
| BZero
| BByte (i : Z)
| BAnd (e : bexp) (m : Z)
| BOr (e f : bexp)
| BXor (e : bexp) (m : Z)
| BShl (e : bexp) (k : Z)
| BShr (e : bexp) (k : Z)
| BMod (e : bexp) (m : Z)
| BDiv (e : bexp)
| BCat (e f : bexp).

(** A bit: a constant, or a bit of a byte, perhaps inverted. *)
Inductive sbit : Type := Bit (c : bool) | Src (neg : bool) (i k : Z).

#[global] Instance sbit_eq_dec : EqDecision sbit.
Proof. solve_decision. Defined.

Definition invert (s : sbit) : sbit :=
  match s with Bit c => Bit (negb c) | Src neg i k => Src (negb neg) i k end.

Definition sbit_or (s t : sbit) : option sbit :=
  match s, t with
  | Bit true, _ | _, Bit true => Some (Bit true)
  | Bit false, u | u, Bit false => Some u
  | _, _ => if decide (s = t) then Some s else None
  end.

Fixpoint bits_or (l k : list sbit) : option (list sbit) :=
  match l, k with
  | [], u | u, [] => Some u
  | s :: l, t :: k => u ← sbit_or s t; us ← bits_or l k; Some (u :: us)
  end.

Definition bits_and (l : list sbit) (m : Z) : list sbit :=
  imap (λ k s, if Z.testbit m (Z.of_nat k) then s else Bit false) l.
Definition bits_xor (l : list sbit) (m : Z) : list sbit :=
  imap (λ k s, if Z.testbit m (Z.of_nat k) then invert s else s) l.
Definition widen (n : nat) (l : list sbit) : list sbit := l ++ replicate (n - length l) (Bit false).

(** The bits of an expression, lowest first. *)
Fixpoint bits (e : bexp) : option (list sbit) :=
  match e with
  | BZero => Some []
  | BByte i => Some (map (λ k, Src false i (Z.of_nat k)) (seqn 8))
  | BAnd e m => l ← bits e; Some (bits_and l m)
  | BOr e f => l ← bits e; k ← bits f; bits_or l k
  | BXor e m => l ← bits e; if (0 <=? m) && (m <? 256) then Some (bits_xor (widen 8 l) m) else None
  | BShl e k => l ← bits e; if 0 <=? k then Some (replicate (Z.to_nat k) (Bit false) ++ l) else None
  | BShr e k => l ← bits e; if 0 <=? k then Some (drop (Z.to_nat k) l) else None
  | BMod e m => l ← bits e; if m =? 2 ^ Z.log2 m then Some (take (Z.to_nat (Z.log2 m)) l) else None
  | BDiv e => l ← bits e; Some (drop 8 l)
  | BCat e f => l ← bits e; k ← bits f; if (length l <=? 8)%nat then Some (widen 8 l ++ k) else None
  end.

Definition high_zero (w : nat) (l : list sbit) : bool := forallb (λ s, bool_decide (s = Bit false)) (drop w l).

(** [e] is byte [i]. *)
Definition same_byte (e : bexp) (i : Z) : bool :=
  match bits e with
  | Some l => bool_decide (take 8 l = map (λ k, Src false i (Z.of_nat k)) (seqn 8)) && high_zero 8 l
  | None => false
  end.

(** [e] is below [2 ^ w]. *)
Definition fits (w : nat) (e : bexp) : bool :=
  match bits e with Some l => high_zero w l | None => false end.

Section beval.
Context (b : Z → Z) (Hb : ∀ i, is_byte (b i)).

Fixpoint beval (e : bexp) : Z :=
  match e with
  | BZero => 0
  | BByte i => b i
  | BAnd e m => Z.land (beval e) m
  | BOr e f => Z.lor (beval e) (beval f)
  | BXor e m => Z.lxor (beval e) m
  | BShl e k => Z.shiftl (beval e) k
  | BShr e k => Z.shiftr (beval e) k
  | BMod e m => beval e mod m
  | BDiv e => beval e / 256
  | BCat e f => beval e + 256 * beval f
  end.

Definition sval (s : sbit) : bool :=
  match s with Bit c => c | Src neg i k => xorb neg (Z.testbit (b i) k) end.

(** The bits of a list are those of a number. *)
Definition spells (l : list sbit) (x : Z) : Prop :=
  0 ≤ x ∧ ∀ k : nat, Z.testbit x (Z.of_nat k) = default false (sval <$> l !! k).

Lemma spells_eq l x y : spells l x → spells l y → x = y.
Proof using.
  intros [Hx Hlx] [Hy Hly]. apply Z.bits_inj'. intros n Hn. rewrite <- (Z2Nat.id n) by done. by rewrite Hlx, Hly.
Qed.

Lemma bits_above x k : 0 ≤ x < 2 ^ Z.of_nat k → ∀ i, (k ≤ i)%nat → Z.testbit x (Z.of_nat i) = false.
Proof using.
  intros Hx i Hi. destruct (decide (x = 0)) as [->|]; [apply Z.bits_0|].
  apply Z.bits_above_log2; [lia|]. apply Z.log2_lt_pow2; [lia|].
  apply Z.lt_le_trans with (2 ^ Z.of_nat k); [lia|]. apply Z.pow_le_mono_r; lia.
Qed.

Lemma spells_byte i : spells (map (λ k, Src false i (Z.of_nat k)) (seqn 8)) (b i).
Proof using Hb.
  split; [apply Hb|]. intros k. destruct (decide (k < 8)%nat) as [Hk|Hk].
  - do 8 (destruct k as [|k]; [reflexivity|]). lia.
  - rewrite lookup_ge_None_2 by (rewrite length_map; unfold seqn, seqn_from; rewrite length_seq; lia).
    apply (bits_above (b i) 8); [apply (Hb i)|lia].
Qed.

Lemma spells_lookup l x k s : spells l x → l !! k = Some s → Z.testbit x (Z.of_nat k) = sval s.
Proof using. intros [_ H] Hk. by rewrite H, Hk. Qed.

Lemma sbit_or_sval s t u : sbit_or s t = Some u → sval u = sval s || sval t.
Proof using.
  unfold sbit_or. destruct s as [[]|neg i k], t as [[]|neg' i' k']; try case_decide as He; intros [= <-];
    try injection He as <- <- <-; simpl; by rewrite ?orb_true_r, ?orb_false_r, ?orb_diag.
Qed.

Lemma spells_or l k u x y : bits_or l k = Some u → spells l x → spells k y → spells u (Z.lor x y).
Proof using.
  intros Hu [Hx Hlx] [Hy Hky]. split; [by apply Z.lor_nonneg|]. intros i. rewrite Z.lor_spec, Hlx, Hky. clear -Hu.
  revert k u i Hu. induction l as [|s l IH]; intros k u i Hu; [by injection Hu as <-|].
  destruct k as [|t k]; [injection Hu as <-; by rewrite orb_false_r|].
  simpl in Hu. destruct (sbit_or s t) as [v|] eqn:Hv; [|done]. simpl in Hu.
  destruct (bits_or l k) as [vs|] eqn:Hvs; [|done]. injection Hu as <-.
  destruct i as [|i]; simpl; [symmetry; by apply sbit_or_sval|by apply IH].
Qed.

Lemma spells_and l m x : spells l x → spells (bits_and l m) (Z.land x m).
Proof using.
  intros [Hx Hl]. split; [apply Z.land_nonneg; by left|]. intros k. rewrite Z.land_spec, Hl.
  unfold bits_and. rewrite list_lookup_imap. destruct (l !! k) as [s|]; simpl; [|done].
  destruct (Z.testbit m _); simpl; [by rewrite andb_true_r|by rewrite andb_false_r].
Qed.

Lemma spells_widen n l x : spells l x → spells (widen n l) x.
Proof using.
  intros [Hx Hl]. split; [done|]. intros k. rewrite Hl. unfold widen.
  destruct (decide (k < length l)%nat) as [Hk|Hk]; [by rewrite lookup_app_l|].
  rewrite (lookup_ge_None_2 l), lookup_app_r by lia.
  destruct (replicate _ _ !! _) as [s|] eqn:Hs; [|done]. by apply lookup_replicate in Hs as [-> _].
Qed.

Lemma invert_sval s : sval (invert s) = negb (sval s).
Proof using. destruct s as [c|[] i k]; simpl; [done|..]; by destruct (Z.testbit (b i) k). Qed.

Lemma spells_xor l m x : 0 ≤ m < 256 → spells l x → spells (bits_xor (widen 8 l) m) (Z.lxor x m).
Proof using.
  intros Hm Hs%(spells_widen 8). assert (8 ≤ length (widen 8 l))%nat as Hlen
    by (unfold widen; rewrite length_app, length_replicate; lia).
  revert Hs Hlen. generalize (widen 8 l) as l'. intros l' [Hx Hl] Hlen.
  split; [apply Z.lxor_nonneg; split; lia|]. intros k. rewrite Z.lxor_spec, Hl.
  unfold bits_xor. rewrite list_lookup_imap. destruct (l' !! k) as [s|] eqn:Hk; simpl.
  - destruct (Z.testbit m _); simpl; [by rewrite invert_sval, xorb_true_r|by rewrite xorb_false_r].
  - apply lookup_ge_None in Hk. by rewrite (bits_above m 8) by (done || lia).
Qed.

Lemma spells_shl l x k : 0 ≤ k → spells l x → spells (replicate (Z.to_nat k) (Bit false) ++ l) (Z.shiftl x k).
Proof using.
  intros Hk [Hx Hl]. split; [by apply Z.shiftl_nonneg|]. intros i.
  destruct (decide (i < Z.to_nat k)%nat) as [Hi|Hi].
  - rewrite Z.shiftl_spec_low by lia. rewrite lookup_app_l by (rewrite length_replicate; lia).
    by rewrite lookup_replicate_2.
  - rewrite Z.shiftl_spec by lia. rewrite lookup_app_r by (rewrite length_replicate; lia).
    rewrite length_replicate, <- Hl. f_equal. lia.
Qed.

Lemma spells_shr l x k : 0 ≤ k → spells l x → spells (drop (Z.to_nat k) l) (Z.shiftr x k).
Proof using.
  intros Hk [Hx Hl]. split; [by apply Z.shiftr_nonneg|]. intros i.
  rewrite Z.shiftr_spec by lia. rewrite lookup_drop, <- Hl. f_equal. lia.
Qed.

Lemma spells_mod l x n : 0 ≤ n → spells l x → spells (take (Z.to_nat n) l) (x mod 2 ^ n).
Proof using.
  intros Hn [Hx Hl]. split; [apply Z.mod_pos_bound, Z.pow_pos_nonneg; lia|]. intros i.
  destruct (decide (i < Z.to_nat n)%nat) as [Hi|Hi].
  - rewrite Z.mod_pow2_bits_low, lookup_take_lt by lia. apply Hl.
  - rewrite Z.mod_pow2_bits_high by lia. by rewrite lookup_take_ge by lia.
Qed.

Lemma spells_high l w x : high_zero w l = true → spells l x → x < 2 ^ Z.of_nat w.
Proof using.
  intros Hz [Hx Hl]. apply Z.lt_nge. intros Hge.
  assert (0 < x) as Hpos by (pose proof (Z.pow_pos_nonneg 2 (Z.of_nat w)); lia).
  assert (Z.of_nat w ≤ Z.log2 x) as Hw by (rewrite <- (Z.log2_pow2 (Z.of_nat w)) by lia; by apply Z.log2_le_mono).
  pose proof (Z.bit_log2 x Hpos) as Hbit. rewrite <- (Z2Nat.id (Z.log2 x)), Hl in Hbit by lia.
  destruct (l !! Z.to_nat (Z.log2 x)) as [s|] eqn:Hs; [|done].
  unfold high_zero in Hz. rewrite forallb_forall in Hz. specialize (Hz s).
  assert (s ∈ drop w l) as Hin.
  { apply list_elem_of_lookup. exists (Z.to_nat (Z.log2 x) - w)%nat. rewrite lookup_drop. by replace (w + _)%nat with (Z.to_nat (Z.log2 x)) by lia. }
  specialize (Hz (proj1 (list_elem_of_In _ _) Hin)). by apply bool_decide_eq_true in Hz as ->.
Qed.

Lemma spells_cat l k x y : (length l ≤ 8)%nat → spells l x → spells k y → spells (widen 8 l ++ k) (x + 256 * y).
Proof using.
  intros Hlen Hlx [Hy Hk].
  assert (x < 2 ^ 8) as Hx8.
  { apply (spells_high l 8); [|done]. unfold high_zero. by rewrite drop_ge by lia. }
  pose proof (proj1 Hlx) as Hx. rewrite Z.add_comm, Z.mul_comm.
  replace (y * 256 + x) with (Z.lor x (Z.shiftl y 8)) by (rewrite lor_above by lia; lia).
  split; [apply Z.lor_nonneg; split; [done|by apply Z.shiftl_nonneg]|].
  assert (length (widen 8 l) = 8%nat) as Hw by (unfold widen; rewrite length_app, length_replicate; lia).
  intros i. rewrite Z.lor_spec. rewrite (proj2 (spells_widen 8 l x Hlx)).
  destruct (decide (i < 8)%nat) as [Hi|Hi].
  - rewrite Z.shiftl_spec_low by lia. rewrite orb_false_r. by rewrite lookup_app_l by lia.
  - rewrite (lookup_ge_None_2 (widen 8 l)), lookup_app_r, Hw, Z.shiftl_spec by lia. simpl.
    rewrite <- Hk. f_equal. lia.
Qed.

(** The bits computed for an expression are its bits. *)
Lemma bits_sound e l : bits e = Some l → spells l (beval e).
Proof using Hb.
  revert l. induction e as [|i|e IH m|e IHe f IHf|e IH m|e IH k|e IH k|e IH m|e IH|e IHe f IHf]; intros l H; simpl in *.
  - injection H as <-. split; [done|]. intros k. apply Z.bits_0.
  - injection H as <-. apply spells_byte.
  - destruct (bits e); [|done]. injection H as <-. apply spells_and. by apply IH.
  - destruct (bits e); [|done]. destruct (bits f); [|done]. eapply spells_or; eauto.
  - destruct (bits e); [|done]. simpl in H. destruct (_ && _) eqn:Hm; [|done]. injection H as <-.
    apply spells_xor; [lia|by apply IH].
  - destruct (bits e); [|done]. simpl in H. destruct (Z.leb_spec 0 k); [|done]. injection H as <-.
    apply spells_shl; [done|by apply IH].
  - destruct (bits e); [|done]. simpl in H. destruct (Z.leb_spec 0 k); [|done]. injection H as <-.
    apply spells_shr; [done|by apply IH].
  - destruct (bits e); [|done]. simpl in H. destruct (Z.eqb_spec m (2 ^ Z.log2 m)) as [Hm|]; [|done]. injection H as <-.
    rewrite Hm at 2. apply spells_mod; [apply Z.log2_nonneg|by apply IH].
  - destruct (bits e); [|done]. injection H as <-. change 256 with (2 ^ 8). rewrite <- Z.shiftr_div_pow2 by done.
    apply (spells_shr _ _ 8); [done|by apply IH].
  - destruct (bits e); [|done]. destruct (bits f); [|done]. simpl in H.
    destruct (Nat.leb_spec (length l0) 8); [|done]. injection H as <-. apply spells_cat; [done|by apply IHe|by apply IHf].
Qed.

Lemma same_byte_sound e i : same_byte e i = true → beval e = b i.
Proof using Hb.
  unfold same_byte. destruct (bits e) as [l|] eqn:He; [|done]. intros [Ht Hz]%andb_true_iff.
  apply bool_decide_eq_true in Ht. apply bits_sound in He. pose proof (spells_high l 8 _ Hz He) as Hlt.
  pose proof (proj1 He) as H0. change (2 ^ Z.of_nat 8) with (2 ^ 8) in Hlt.
  apply (spells_mod l _ 8) in He; [|done]. rewrite Z.mod_small in He by lia.
  change (Z.to_nat 8) with 8%nat in He. rewrite Ht in He. eapply spells_eq; [exact He|apply spells_byte].
Qed.

Lemma fits_sound w e : fits w e = true → 0 ≤ beval e < 2 ^ Z.of_nat w.
Proof using Hb.
  unfold fits. destruct (bits e) as [l|] eqn:He; [|done]. intros Hz. apply bits_sound in He.
  split; [apply He|by apply (spells_high l)].
Qed.

Lemma same_bytes_sound es l :
  bool_decide (length es = length l) && forallb (λ '(e, i), same_byte e i) (zip es l) = true →
  map beval es = map b l.
Proof using Hb.
  intros [Hl%bool_decide_eq_true Hf]%andb_true_iff. revert l Hl Hf.
  induction es as [|e es IH]; intros [|i l]; simpl; intros Hl; try done.
  intros [He Hf]%andb_true_iff. f_equal; [by apply same_byte_sound|apply IH; [lia|done]].
Qed.

Lemma fits_all_sound w es : forallb (fits w) es = true → Forall (λ x, 0 ≤ x < 2 ^ Z.of_nat w) (map beval es).
Proof using Hb.
  intros Hf. apply Forall_map, Forall_forall. intros e He%list_elem_of_In.
  apply fits_sound. by apply (proj1 (forallb_forall _ _) Hf).
Qed.
End beval.

(** Running the code on symbolic bytes, and reading the result back as an
    expression. *)
Ltac symbolic :=
  cbv -[Z.land Z.lor Z.lxor Z.shiftl Z.shiftr Z.modulo Z.div Z.add Z.mul].

Ltac reify b t :=
  lazymatch t with
  | 0 => constr:(BZero)
  | b ?i => constr:(BByte i)
  | Z.land ?x ?m => let e := reify b x in constr:(BAnd e m)
  | Z.lor ?x ?y => let e := reify b x in let f := reify b y in constr:(BOr e f)
  | Z.lxor ?x ?m => let e := reify b x in constr:(BXor e m)
  | Z.shiftl ?x ?k => let e := reify b x in constr:(BShl e k)
  | Z.shiftr ?x ?k => let e := reify b x in constr:(BShr e k)
  | Z.modulo ?x ?m => let e := reify b x in constr:(BMod e m)
  | Z.div ?x 256 => let e := reify b x in constr:(BDiv e)
  | Z.add ?x (Z.mul 256 ?y) => let e := reify b x in let f := reify b y in constr:(BCat e f)
  end.

Ltac reify_list b l :=
  lazymatch l with
  | [] => constr:(@nil bexp)
  | ?x :: ?l => let e := reify b x in let es := reify_list b l in constr:(e :: es)
  end.

Ltac reify_ids b l :=
  lazymatch l with
  | [] => constr:(@nil Z)
  | b ?i :: ?l => let ids := reify_ids b l in constr:(i :: ids)
  end.

Ltac solve_fits b Hb :=
  lazymatch goal with
  | |- Forall _ ?l => let es := reify_list b l in apply (fits_all_sound b Hb _ es); vm_compute; reflexivity
  end.

Ltac solve_same b Hb :=
  lazymatch goal with
  | |- Ok ?l = Ok ?k =>
      let es := reify_list b l in let ids := reify_ids b k in
      apply (f_equal Ok (same_bytes_sound b Hb es ids ltac:(vm_compute; reflexivity)))
  end.

(** A block is the list of the bytes it holds. *)
Definition bytes_at (b : Z → Z) (n : nat) : list Z := map (λ i, b (Z.of_nat i)) (seqn n).

Lemma block_bytes_at (block : list Z) n :
  length block = n → ∃ b, block = bytes_at b n ∧ (Forall is_byte block → ∀ i, is_byte (b i)).
Proof.
  intros <-. exists (λ i, default 0 (block !! Z.to_nat i)). split.
  - unfold bytes_at. apply list_eq. intros i. unfold seqn, seqn_from. rewrite list_lookup_fmap.
    destruct (decide (i < length block)%nat) as [Hi|Hi].
    + rewrite lookup_seq_lt by done. simpl. rewrite Nat2Z.id.
      by destruct (lookup_lt_is_Some_2 block i Hi) as [x ->].
    + rewrite lookup_ge_None_2 by lia. by rewrite lookup_seq_ge by lia.
  - intros Hf i. destruct (block !! Z.to_nat i) as [x|] eqn:Hx; simpl; [|split; lia].
    rewrite Forall_forall in Hf. apply Hf. by eapply list_elem_of_lookup_2.
Qed.

(** The width of a type's logical values. *)
Definition value_bits (g : GgmlType.t) : nat :=
  match g with
  | F16 | BF16 => 16
  | Q8_0 => 8
  | Q4_0 | Q4_1 | Q4_K => 4
  | Q5_0 | Q5_1 | Q5_K => 5
  | Q6_K => 6
  | Q3_K => 3
  | Q2_K => 2
  | _ => 8
  end.

(** The record of a block, and its length; halves have none. *)
Definition record_bytes (g : GgmlType.t) : nat :=
  match ggml_scheme g with
  | Some s => match repack_record_bytes s with Ok n => Z.to_nat n | _ => 0 end
  | None => 0
  end.
Definition record_of (g : GgmlType.t) (scratch block : list Z) : FormatResult (list Z) :=
  match ggml_scheme g with Some _ => copy_block_record g block scratch | None => Ok [] end.

(** Reading a block and writing it back. *)
Definition block_regroups (g : GgmlType.t) (block out scratch : list Z) : Prop :=
  ∃ vals rec, block_values g block out = Ok vals ∧ record_of g scratch block = Ok rec ∧
    length vals = Z.to_nat (block_len g) ∧ length rec = record_bytes g ∧
    Forall (λ x, 0 ≤ x < 2 ^ Z.of_nat (value_bits g)) vals ∧
    write_wire_block g vals rec (replicate (Z.to_nat (block_bytes g)) 0) = Ok block.

Ltac block_case b Hb :=
  unfold block_regroups; eexists _, _; split_and!;
    [symbolic; reflexivity|symbolic; reflexivity|reflexivity|reflexivity|solve_fits b Hb|symbolic; solve_same b Hb].

Definition index_bits (k : IqKind) : nat := if is_nibble_kind k then 4 else 8.

Definition iq_block_regroups (g : GgmlType.t) (kind : IqKind) (block idx rec : list Z) : Prop :=
  ∃ idx' rec', parse_block kind g block idx rec = Ok (idx', rec') ∧
    length idx' = wire_index_len kind ∧ length rec' = record_len kind ∧
    Forall (λ x, 0 ≤ x < 2 ^ Z.of_nat (index_bits kind)) idx' ∧
    write_block kind g idx' rec' (replicate (Z.to_nat (block_bytes g)) 0) = Ok block.

Ltac iq_block_case b Hb :=
  unfold iq_block_regroups; eexists _, _; split_and!;
    [symbolic; reflexivity|reflexivity|reflexivity|solve_fits b Hb|symbolic; solve_same b Hb].

Section blocks.
Context (b o r : Z → Z) (Hb : ∀ i, is_byte (b i)).

Lemma regroups g :
  is_iq g = false →
  block_regroups g (bytes_at b (Z.to_nat (block_bytes g))) (bytes_at o (Z.to_nat (block_len g)))
    (bytes_at r (record_bytes g)).
Proof using Hb. destruct g; intros Hg; try discriminate Hg; clear Hg; block_case b Hb. Qed.

(** The codebook types. *)
Lemma iq_regroups g kind :
  iq_kind g = Some kind →
  iq_block_regroups g kind (bytes_at b (Z.to_nat (block_bytes g))) (bytes_at o (wire_index_len kind))
    (bytes_at r (record_len kind)).
Proof using Hb. destruct g; intros [= <-]; iq_block_case b Hb. Qed.
End blocks.

Lemma bytes_at_any (l : list Z) n : length l = n → ∃ b, l = bytes_at b n.
Proof. intros Hl. destruct (block_bytes_at l n Hl) as (b & Heq & _). eauto. Qed.

(** Every block of a type without a codebook, whatever the buffers held. *)
Theorem block_regroup g block out scratch :
  is_iq g = false → len block = block_bytes g → Forall is_byte block →
  len out = block_len g → length scratch = record_bytes g → block_regroups g block out scratch.
Proof.
  intros Hg Hl Hb Ho Hr. unfold len in *.
  destruct (block_bytes_at block (Z.to_nat (block_bytes g))) as (b & -> & Hbb); [lia|].
  destruct (bytes_at_any out (Z.to_nat (block_len g))) as [o ->]; [lia|].
  destruct (bytes_at_any scratch _ Hr) as [r ->]. apply regroups; auto.
Qed.

Theorem iq_block_regroup g kind block idx rec :
  iq_kind g = Some kind → len block = block_bytes g → Forall is_byte block →
  length idx = wire_index_len kind → length rec = record_len kind → iq_block_regroups g kind block idx rec.
Proof.
  intros Hg Hl Hb Ho Hr. unfold len in *.
  destruct (block_bytes_at block (Z.to_nat (block_bytes g))) as (b & -> & Hbb); [lia|].
  destruct (bytes_at_any idx _ Ho) as [o ->]. destruct (bytes_at_any rec _ Hr) as [r ->].
  apply iq_regroups; auto.
Qed.
