(* ===== verification/RepackSpec.v ===== *)
(** * Repacking loses nothing

    [repack] moves every value of a GGUF tensor into tile order and every
    scale record into its region, and [unpack_repacked] rebuilds the wire bytes
    exactly: for every type, every shape and every content. *)

From S2P Require Import Prelude Bytes Format Tiles Permute LaneCodec Regions Ggml Repack RepackBlock.

Import GgmlType.

#[global] Open Scope Z_scope.

(** ** Segments of a list *)

Definition segment {A} (a w : nat) (l : list A) : list A := take w (drop a l).
Definition apart (a v b w : nat) : Prop := (a + v ≤ b ∨ b + w ≤ a)%nat.

Section segments.
Context {A : Type}.
Implicit Types (l src : list A).

Lemma length_segment a w l : (a + w ≤ length l)%nat → length (segment a w l) = w.
Proof. intros. unfold segment. rewrite length_take, length_drop. lia. Qed.

Lemma slice_segment a w l : (a + w ≤ length l)%nat → slice a (a + w) l = Some (segment a w l).
Proof.
  intros. unfold slice. rewrite !(proj2 (Nat.leb_le _ _)) by lia. simpl. by replace (a + w - a)%nat with w by lia.
Qed.

Lemma lookup_segment a w l i : (i < w)%nat → segment a w l !! i = l !! (a + i)%nat.
Proof. intros. unfold segment. by rewrite lookup_take_lt, lookup_drop by done. Qed.

Lemma segment_ext a a' w l k :
  (a + w ≤ length l)%nat → (a' + w ≤ length k)%nat → (∀ i, (i < w)%nat → l !! (a + i)%nat = k !! (a' + i)%nat) →
  segment a w l = segment a' w k.
Proof.
  intros Hl Hk H. apply list_eq. intros i. destruct (decide (i < w)%nat) as [Hi|Hi].
  - rewrite !lookup_segment by done. by apply H.
  - by rewrite !lookup_ge_None_2 by (rewrite length_segment by lia; lia).
Qed.

Lemma length_splice a src l : (a + length src ≤ length l)%nat → length (splice a src l) = length l.
Proof. intros. unfold splice. rewrite !length_app, length_take, length_drop. lia. Qed.

Lemma lookup_splice a src l i :
  (a + length src ≤ length l)%nat →
  splice a src l !! i = if decide (a ≤ i < a + length src)%nat then src !! (i - a)%nat else l !! i.
Proof.
  intros Hl. unfold splice. assert (length (take a l) = a) as Ha by (rewrite length_take; lia).
  destruct (decide (i < a)%nat) as [Hi|Hi].
  { rewrite lookup_app_l by lia. rewrite lookup_take_lt by done. by rewrite decide_False by lia. }
  rewrite lookup_app_r by lia. rewrite Ha. case_decide as Hin.
  - by rewrite lookup_app_l by lia.
  - rewrite lookup_app_r by lia. rewrite lookup_drop. f_equal. lia.
Qed.

Lemma segment_splice_eq a src l : (a + length src ≤ length l)%nat → segment a (length src) (splice a src l) = src.
Proof.
  intros Hl. apply list_eq. intros i. destruct (decide (i < length src)%nat) as [Hi|Hi].
  - rewrite lookup_segment, lookup_splice by done. rewrite decide_True by lia. f_equal. lia.
  - rewrite (lookup_ge_None_2 src) by lia. apply lookup_ge_None_2. rewrite length_segment by (rewrite length_splice; lia). lia.
Qed.

Lemma segment_splice_ne a src l b w :
  (a + length src ≤ length l)%nat → (b + w ≤ length l)%nat → apart b w a (length src) →
  segment b w (splice a src l) = segment b w l.
Proof.
  intros Hl Hb Hd. unfold apart in Hd. apply segment_ext; [by rewrite length_splice|done|].
  intros i Hi. rewrite lookup_splice by done. by rewrite decide_False by lia.
Qed.

Lemma Forall_splice (P : A → Prop) a src l : Forall P src → Forall P l → Forall P (splice a src l).
Proof. intros Hs Hl. unfold splice. apply Forall_app; split; [by apply Forall_take|]. apply Forall_app; split; [done|by apply Forall_drop]. Qed.

Lemma copy_into_Ok {E} a w src dst :
  length src = w → (a + w ≤ length dst)%nat → copy_into (E:=E) a (a + w) src dst = Ok (splice a src dst).
Proof.
  intros Hs Hl. unfold copy_into. rewrite !(proj2 (Nat.leb_le _ _)) by lia.
  by rewrite (proj2 (Nat.eqb_eq _ _)) by lia.
Qed.

(** Lists of whole segments that agree on each of them are equal. *)
Lemma segments_eq w n l k :
  length l = (n * w)%nat → length k = (n * w)%nat →
  (∀ i, (i < n)%nat → segment (i * w) w l = segment (i * w) w k) → l = k.
Proof.
  intros Hl Hk H. apply list_eq_same_length with (n * w)%nat; [done..|]. intros i x y Hi Hx Hy.
  assert (0 < w)%nat as Hw by nia.
  pose proof (Nat.div_mod i w ltac:(lia)) as Hdm. pose proof (Nat.mod_upper_bound i w ltac:(lia)) as Hm.
  assert (i / w < n)%nat as Hd by (apply Nat.div_lt_upper_bound; lia).
  specialize (H _ Hd). apply (f_equal (λ s, s !! (i mod w)%nat)) in H. rewrite !lookup_segment in H by done.
  replace (i / w * w + i mod w)%nat with i in H by lia. congruence.
Qed.
End segments.

(** ** Loops that fill disjoint segments *)

Lemma ofoldM_ext {E A B} (f g : A → B → outcome E A) acc l :
  (∀ acc x, f acc x = g acc x) → ofoldM f acc l = ofoldM g acc l.
Proof. intros H. revert acc. induction l as [|x l IH]; intros acc; simpl; [done|]. rewrite H. destruct (g acc x); simpl; auto. Qed.

Lemma ofoldM_nested3 {E A B C D} (f : A → B → C → D → outcome E A) acc (lb : list B) (lc : list C) (ld : list D) :
  ofoldM (λ acc b, ofoldM (λ acc c, ofoldM (λ acc d, f acc b c d) acc ld) acc lc) acc lb =
  ofoldM (λ acc '(b, c, d), f acc b c d) acc (list_prod (list_prod lb lc) ld).
Proof.
  rewrite (ofoldM_nested (λ acc b c, ofoldM (λ acc d, f acc b c d) acc ld)).
  pose proof (ofoldM_nested (λ acc '(b, c) d, f acc b c d) acc (list_prod lb lc) ld) as H.
  etransitivity; [|etransitivity; [exact H|]]; apply ofoldM_ext; [by intros ? [b c]|by intros ? [[b c] d]].
Qed.

Section fill.
Context {A B E : Type} (place : B → nat) (w : nat) (value : B → list A).

Lemma fill_Ok (f : list A → B → outcome E (list A)) m dst0 l dst :
  length dst = m → NoDup l → (∀ b, b ∈ l → (place b + w ≤ m)%nat ∧ length (value b) = w) →
  (∀ b c, b ∈ l → c ∈ l → b ≠ c → apart (place b) w (place c) w) →
  (∀ b dst, b ∈ l → length dst = m → segment (place b) w dst = segment (place b) w dst0 →
     f dst b = Ok (splice (place b) (value b) dst)) →
  (∀ b, b ∈ l → segment (place b) w dst = segment (place b) w dst0) →
  ∃ dst', ofoldM f dst l = Ok dst' ∧ length dst' = m ∧
    (∀ b, b ∈ l → segment (place b) w dst' = value b) ∧
    (∀ c, (place c + w ≤ m)%nat → (∀ b, b ∈ l → apart (place c) w (place b) w) →
       segment (place c) w dst' = segment (place c) w dst) ∧
    (∀ P, Forall P dst → (∀ b, b ∈ l → Forall P (value b)) → Forall P dst').
Proof.
  intros Hm Hnd Hlen Hap Hf. revert dst Hm Hlen Hap Hf.
  induction Hnd as [|b l Hb Hnd IH]; intros dst Hm Hlen Hap Hf H0; simpl.
  { exists dst. split_and!; try done. by intros b ?%elem_of_nil. }
  destruct (Hlen b ltac:(by left)) as [Hle Hv].
  rewrite Hf by (by left || (apply H0; by left) || done). simpl.
  assert (∀ c, c ∈ l → segment (place c) w (splice (place b) (value b) dst) = segment (place c) w dst) as Hne.
  { intros c Hc. apply segment_splice_ne; [lia|rewrite Hm; apply Hlen; by right|].
    rewrite Hv. apply Hap; [by right|by left|]. by intros ->. }
  destruct (IH (splice (place b) (value b) dst)) as (dst' & Hd & Hl & Hin & Hout & HP).
  { rewrite length_splice; lia. } { intros c Hc. apply Hlen. by right. }
  { intros c e Hc He. apply Hap; by right. } { intros c e Hc. apply Hf. by right. }
  { intros c Hc. rewrite Hne by done. apply H0. by right. }
  exists dst'. split_and!; [done..| | |].
  - intros c [->|Hc]%elem_of_cons; [|by apply Hin].
    rewrite Hout; [rewrite <- Hv at 1; apply segment_splice_eq; lia|lia|].
    intros c Hc. apply Hap; [by left|by right|]. by intros ->.
  - intros c Hc Hd'. rewrite Hout; [|done|intros; apply Hd'; by right].
    apply segment_splice_ne; [lia|lia|]. rewrite Hv. apply Hd'. by left.
  - intros P HPd HPv. apply HP; [apply Forall_splice; [apply HPv; by left|done]|].
    intros c Hc. apply HPv. by right.
Qed.
End fill.

(** ** Indices *)

Lemma cells_bound n m (row b : nat) : (row, b) ∈ list_prod (seqn n) (seqn m) ↔ (row < n)%nat ∧ (b < m)%nat.
Proof. rewrite elem_of_list_prod', !elem_of_seqn. done. Qed.

Lemma NoDup_seqn n : NoDup (seqn n).
Proof. apply NoDup_seq. Qed.

Lemma index_apart (w i j : nat) : i ≠ j → apart (i * w) w (j * w) w.
Proof. intros Hne. unfold apart. destruct (lt_eq_lt_dec i j) as [[Hlt|?]|Hlt]; [left; nia|done|right; nia]. Qed.

Lemma block_index_lt (n m row b : nat) : (row < n)%nat → (b < m)%nat → (row * m + b < n * m)%nat.
Proof. nia. Qed.

(** Segments of a matrix laid out by rows. *)
Lemma rows_apart (m count stride row b row' b' : nat) :
  (m * count ≤ stride)%nat → (b < m)%nat → (b' < m)%nat → (row, b) ≠ (row', b') →
  apart (row * stride + b * count) count (row' * stride + b' * count) count.
Proof.
  intros Hs Hb Hb' Hne. unfold apart.
  assert (b * count + count ≤ stride)%nat by nia. assert (b' * count + count ≤ stride)%nat by nia.
  destruct (lt_eq_lt_dec row row') as [[Hlt| ->]|Hlt]; [left; nia| |right; nia].
  destruct (lt_eq_lt_dec b b') as [[Hlt| ->]|Hlt]; [left; nia|done|right; nia].
Qed.

(** ** Tensors of blocks *)

Section tensor.
Context (values_of record_of : list Z → FormatResult (list Z)) (write : list Z → list Z → list Z → FormatResult (list Z)).
Context (bytes count record n_rows row_blocks : nat) (P : Z → Prop).

(** What the readers and the writer of a block promise. *)
Definition block_codec : Prop := ∀ block, length block = bytes → Forall is_byte block →
  ∃ vals rec, values_of block = Ok vals ∧ record_of block = Ok rec ∧ length vals = count ∧ length rec = record ∧
    Forall P vals ∧ write vals rec (replicate bytes 0) = Ok block.

Context (Hcodec : block_codec) (wire : list Z).
Context (Hlen : length wire = (n_rows * row_blocks * bytes)%nat) (Hbytes : Forall is_byte wire).

Definition block_at (row b : nat) : list Z := segment ((row * row_blocks + b) * bytes) bytes wire.
Definition values_at (row b : nat) : list Z := match values_of (block_at row b) with Ok v => v | _ => [] end.
Definition record_at (row b : nat) : list Z := match record_of (block_at row b) with Ok r => r | _ => [] end.

Lemma block_place row b :
  (row < n_rows)%nat → (b < row_blocks)%nat → ((row * row_blocks + b) * bytes + bytes ≤ n_rows * row_blocks * bytes)%nat.
Proof using. clear. intros Hr Hb. pose proof (block_index_lt _ _ row b Hr Hb). nia. Qed.

(** One block. *)
Lemma block_facts row b :
  (row < n_rows)%nat → (b < row_blocks)%nat →
  index_slice ((row * row_blocks + b) * bytes) ((row * row_blocks + b) * bytes + bytes) wire = Ok (block_at row b) ∧
  values_of (block_at row b) = Ok (values_at row b) ∧ record_of (block_at row b) = Ok (record_at row b) ∧
  length (values_at row b) = count ∧ length (record_at row b) = record ∧ Forall P (values_at row b) ∧
  write (values_at row b) (record_at row b) (replicate bytes 0) = Ok (block_at row b) ∧
  length (block_at row b) = bytes.
Proof using Hcodec Hlen Hbytes.
  intros Hr Hb. pose proof (block_place row b Hr Hb) as Hp.
  assert (length (block_at row b) = bytes) as Hl by (apply length_segment; lia).
  destruct (Hcodec (block_at row b)) as (vals & rec & Hv & Hrec & Hlv & Hlr & HP & Hw);
    [done|by apply Forall_take, Forall_drop|].
  unfold values_at, record_at. rewrite Hv, Hrec. split_and!; try done.
  unfold index_slice. by rewrite slice_segment by lia.
Qed.

Lemma logical_loop_Ok stride total :
  (row_blocks * count ≤ stride)%nat → (n_rows * stride ≤ total)%nat → P 0 →
  ∃ logical, logical_loop values_of wire n_rows row_blocks bytes stride count total = Ok logical ∧
    length logical = total ∧ Forall P logical ∧
    ∀ row b, (row < n_rows)%nat → (b < row_blocks)%nat → segment (row * stride + b * count) count logical = values_at row b.
Proof using Hcodec Hlen Hbytes.
  intros Hs Ht HP0. unfold logical_loop. rewrite ofoldM_nested.
  assert (∀ row b, (row < n_rows)%nat → (b < row_blocks)%nat → (row * stride + b * count + count ≤ total)%nat) as Hle
    by (intros; assert (b * count + count ≤ stride)%nat by nia; nia).
  destruct (fill_Ok (E:=FormatError) (λ '(row, b), (row * stride + b * count)%nat) count (λ '(row, b), values_at row b)
    (λ logical '(row, b),
       let base := ((row * row_blocks + b) * bytes)%nat in
       let* block := index_slice base (base + bytes) wire in
       let* parsed := values_of block in
       let dest := (row * stride + b * count)%nat in
       copy_into dest (dest + count) parsed logical) total (replicate total 0)
    (list_prod (seqn n_rows) (seqn row_blocks)) (replicate total 0)) as (logical & Hf & Hl & Hin & _ & HP).
  - apply length_replicate.
  - apply NoDup_list_prod; apply NoDup_seqn.
  - intros [row b] [Hr Hb]%cells_bound. split; [by apply Hle|by apply block_facts].
  - intros [row b] [row' b'] [Hr Hb]%cells_bound [Hr' Hb']%cells_bound Hne. by apply (rows_apart row_blocks).
  - intros [row b] dst [Hr Hb]%cells_bound Hd _. destruct (block_facts row b Hr Hb) as (Hsl & Hv & _ & Hlv & _).
    simpl. rewrite Hsl. simpl. rewrite Hv. simpl. apply copy_into_Ok; [done|]. rewrite Hd. by apply Hle.
  - done.
  - exists logical. split_and!; [exact Hf|done| |].
    + apply HP; [by apply Forall_replicate|]. intros [row b] [Hr Hb]%cells_bound. by apply block_facts.
    + intros row b Hr Hb. apply (Hin (row, b)). by apply cells_bound.
Qed.

Lemma records_loop_Ok n_blocks :
  (n_rows ≤ n_blocks * 16)%nat →
  ∃ scales, records_loop record_of wire n_rows n_blocks row_blocks row_blocks bytes record = Ok scales ∧
    length scales = (n_blocks * row_blocks * 16 * record)%nat ∧
    ∀ row b, (row < n_rows)%nat → (b < row_blocks)%nat →
      segment (((row / 16 * row_blocks + b) * 16 + row mod 16) * record) record scales = record_at row b.
Proof using Hcodec Hlen Hbytes.
  intros Hn. unfold records_loop. set (total := (n_blocks * row_blocks * 16 * record)%nat).
  assert (∀ nb kb row : nat, (nb < n_blocks → kb < row_blocks → row < 16 →
    ((nb * row_blocks + kb) * 16 + row) * record + record ≤ total)%nat) as Hle.
  { intros nb kb row Hnb Hkb Hrow. unfold total.
    assert (nb * row_blocks + kb < n_blocks * row_blocks)%nat by nia.
    assert ((nb * row_blocks + kb) * 16 + row < n_blocks * row_blocks * 16)%nat by lia. nia. }
  set (zero := replicate total 0).
  set (rec := λ '(nb, kb, row), let source := (nb * 16 + row)%nat in
     if (source <? n_rows)%nat then record_at source kb else replicate record 0).
  destruct (fill_Ok (E:=FormatError) (λ '(nb, kb, row), (((nb * row_blocks + kb) * 16 + row) * record)%nat) record rec
    (λ out '(nb, kb, row),
       let source := (nb * 16 + row)%nat in
       let dest := (((nb * row_blocks + kb) * 16 + row) * record)%nat in
       if (source <? n_rows)%nat then
         let base := ((source * row_blocks + kb) * bytes)%nat in
         let* block := index_slice base (base + bytes) wire in
         let* scratch := record_of block in
         copy_into dest (dest + record) scratch out
       else Ok out) total zero
    (list_prod (list_prod (seqn n_blocks) (seqn row_blocks)) (seqn 16)) zero) as (scales & Hf & Hl & Hin & _ & _).
  - apply length_replicate.
  - apply NoDup_list_prod; [apply NoDup_list_prod|]; apply NoDup_seqn.
  - intros [[nb kb] row] [[Hnb Hkb]%cells_bound Hrow%elem_of_seqn]%elem_of_list_prod'. split; [by apply Hle|].
    simpl. destruct (Nat.ltb_spec (nb * 16 + row) n_rows) as [Hs|Hs]; [by apply block_facts|apply length_replicate].
  - intros [[nb kb] row] [[nb' kb'] row'] [[Hnb Hkb]%cells_bound Hrow%elem_of_seqn]%elem_of_list_prod'.
    intros [[Hnb' Hkb']%cells_bound Hrow'%elem_of_seqn]%elem_of_list_prod' Hne.
    apply index_apart. intros Heq. apply Hne. assert (row = row' ∧ nb * row_blocks + kb = nb' * row_blocks + kb')%nat as [-> Hk] by lia.
    assert (nb = nb') as -> by nia. do 2 f_equal. lia.
  - intros [[nb kb] row] dst [[Hnb Hkb]%cells_bound Hrow%elem_of_seqn]%elem_of_list_prod' Hd Hz. simpl.
    specialize (Hle nb kb row Hnb Hkb Hrow).
    destruct (Nat.ltb_spec (nb * 16 + row) n_rows) as [Hs|Hs].
    + destruct (block_facts _ kb Hs Hkb) as (Hsl & _ & Hrec & _ & Hlr & _). rewrite Hsl. simpl. rewrite Hrec. simpl.
      apply copy_into_Ok; [done|lia].
    + f_equal. symmetry. assert (replicate record 0 = segment (((nb * row_blocks + kb) * 16 + row) * record) record dst) as ->.
      { rewrite Hz. unfold segment, zero. rewrite drop_replicate, take_replicate. f_equal. lia. }
      unfold splice. rewrite length_segment by lia. unfold segment.
      rewrite <- drop_drop. by rewrite !take_drop.
  - done.
  - exists scales. rewrite ofoldM_nested3. split_and!; [exact Hf|done|].
    intros row b Hr Hb. pose proof (Nat.div_mod row 16 ltac:(lia)). pose proof (Nat.mod_upper_bound row 16 ltac:(lia)).
    etransitivity; [apply (Hin (row / 16, b, row mod 16)%nat)|].
    + apply elem_of_list_prod'. split; [apply cells_bound; split; [|done]|by apply elem_of_seqn].
      apply Nat.div_lt_upper_bound; lia.
    + unfold rec. replace (row / 16 * 16 + row mod 16)%nat with row by lia. by rewrite (proj2 (Nat.ltb_lt _ _)).
Qed.

(** The values and the record of every block are found where the decoders
    look for them. *)
Definition readable (what : string) (logical scales : list Z) (k_blocks stride : nat) : Prop :=
  ∀ row b, (row < n_rows)%nat → (b < row_blocks)%nat →
    index_slice (row * stride + b * count) (row * stride + b * count + count) logical = Ok (values_at row b) ∧
    soa_record what scales record k_blocks (row / 16) b (row mod 16) = Ok (record_at row b).

Lemma readable_intro what logical scales k_blocks stride :
  (row_blocks * count ≤ stride)%nat → (n_rows * stride ≤ length logical)%nat →
  (∀ row b, (row < n_rows)%nat → (b < row_blocks)%nat → segment (row * stride + b * count) count logical = values_at row b) →
  (∀ row b, (row < n_rows)%nat → (b < row_blocks)%nat →
     soa_record what scales record k_blocks (row / 16) b (row mod 16) = Ok (record_at row b)) →
  readable what logical scales k_blocks stride.
Proof using.
  clear. intros Hs Ht Hvals Hrec row b Hr Hb. split; [|by apply Hrec].
  unfold index_slice. rewrite slice_segment by (assert (b * count + count ≤ stride)%nat by nia; nia).
  cbn [or_panic]. by rewrite Hvals.
Qed.

Lemma wire_loop_Ok what logical scales k_blocks stride :
  readable what logical scales k_blocks stride →
  wire_loop write what logical scales n_rows row_blocks bytes stride count record k_blocks = Ok wire.
Proof using Hcodec Hlen Hbytes.
  intros Hread. unfold wire_loop. rewrite ofoldM_nested. set (total := (n_rows * row_blocks * bytes)%nat).
  destruct (fill_Ok (E:=FormatError) (λ '(row, b), ((row * row_blocks + b) * bytes)%nat) bytes (λ '(row, b), block_at row b)
    (λ wire '(row, b),
       let start := (row * stride + b * count)%nat in
       let* vals := index_slice start (start + count) logical in
       let* rec := soa_record what scales record k_blocks (row / 16) b (row mod 16) in
       let dest := ((row * row_blocks + b) * bytes)%nat in
       let* block := index_slice dest (dest + bytes) wire in
       let* block := write vals rec block in
       copy_into dest (dest + bytes) block wire) total (replicate total 0)
    (list_prod (seqn n_rows) (seqn row_blocks)) (replicate total 0)) as (wire' & Hf & Hl & Hin & _ & _).
  - apply length_replicate.
  - apply NoDup_list_prod; apply NoDup_seqn.
  - intros [row b] [Hr Hb]%cells_bound. split; [by apply block_place|by apply block_facts].
  - intros [row b] [row' b'] [Hr Hb]%cells_bound [Hr' Hb']%cells_bound Hne. apply index_apart. intros Heq. apply Hne.
    assert (row = row') as -> by nia. f_equal. lia.
  - intros [row b] dst [Hr Hb]%cells_bound Hd Hz. cbv beta iota zeta.
    destruct (block_facts row b Hr Hb) as (_ & _ & _ & _ & _ & _ & Hw & Hlb). pose proof (block_place row b Hr Hb).
    destruct (Hread row b Hr Hb) as [Hvals Hrec]. rewrite Hvals. cbn [obind]. rewrite Hrec. cbn [obind].
    unfold index_slice. rewrite slice_segment by (rewrite Hd; done). cbn [or_panic obind].
    assert (segment ((row * row_blocks + b) * bytes) bytes dst = replicate bytes 0) as ->.
    { rewrite Hz. unfold segment. rewrite drop_replicate, take_replicate. f_equal. unfold total. lia. }
    rewrite Hw. cbn [obind]. apply copy_into_Ok; [done|]. rewrite Hd. done.
  - done.
  - etransitivity; [exact Hf|]. f_equal. apply (segments_eq bytes (n_rows * row_blocks)); [done..|]. intros i Hi.
    assert (row_blocks ≠ 0)%nat as Hrb by nia.
    pose proof (Nat.div_mod i row_blocks Hrb). pose proof (Nat.mod_upper_bound i row_blocks Hrb).
    assert (i / row_blocks < n_rows)%nat as Hd by (apply Nat.div_lt_upper_bound; lia).
    specialize (Hin (i / row_blocks, i mod row_blocks)%nat (proj2 (cells_bound _ _ _ _) (conj Hd H0))).
    cbv beta iota in Hin. unfold block_at in Hin. by replace (i / row_blocks * row_blocks + i mod row_blocks)%nat with i in Hin by lia.
Qed.
End tensor.

(** ** Shapes *)

Lemma block_len_pos g : 1 ≤ block_len g.
Proof. by destruct g. Qed.
Lemma block_bytes_pos g : 1 ≤ block_bytes g.
Proof. by destruct g. Qed.

Lemma wire_geometry_total g wire n k : wire_geometry g wire n k ≠ Panic.
Proof.
  unfold wire_geometry. destruct (shape_problems g n k); [|done].
  apply obind_total; [auto with total|]. intros e _. by destruct (negb _).
Qed.

Lemma wire_geometry_Ok g wire n k geo :
  0 ≤ n → 0 ≤ k → wire_geometry g wire n k = Ok geo →
  1 ≤ n ∧ 1 ≤ k ∧ k mod block_len g = 0 ∧ wg_n_rows geo = n ∧ wg_blocks_per_row geo = k / block_len g ∧
  len wire = n * (k / block_len g) * block_bytes g.
Proof.
  intros Hn Hk. unfold wire_geometry. destruct (shape_problems g n k) as [|? ?] eqn:Hp; [|done].
  unfold shape_problems in Hp. apply app_nil in Hp as [Hn0%problem_if_nil [Hk0%problem_if_nil Hb%problem_if_nil]%app_nil].
  apply Z.eqb_neq in Hn0, Hk0. apply Z.eqb_neq in Hk0 as Hk0'. rewrite Hk0' in Hb. simpl in Hb.
  apply negb_false_iff, Z.eqb_eq in Hb.
  intros (e & He%ok_or_Ok & H)%obind_Ok_inv.
  destruct (checked_mul _ n _) as [v|] eqn:Hv; [|done]. apply checked_mul_Some in Hv as [-> _].
  simpl in He. apply checked_mul_Some in He as [-> _].
  destruct (Z.eqb_spec (len wire) (n * (k / block_len g) * block_bytes g)) as [Hl|]; [|done].
  injection H as <-. simpl. split_and!; (done || lia).
Qed.

Lemma superblock_k_some g s : superblock_k g = Some s → s = block_len g.
Proof. by destruct g; intros [= <-]. Qed.

Lemma superblock_k_nonneg g s : superblock_k g = Some s → 0 ≤ s.
Proof. by destruct g; intros [= <-]. Qed.

Lemma dims_of_blocks g n k d :
  0 ≤ n → 0 ≤ k → k mod block_len g = 0 → dims_new n k (superblock_k g) = Ok d →
  dims_ok d ∧ pd_n d = n ∧ pd_k d = k ∧ k_padded d < k + 16 ∧ (superblock_k g ≠ None → k_padded d = k).
Proof.
  intros Hn Hk Hm Hd. apply dims_new_Ok in Hd as (Hd & Hdn & Hdk & Hlt & Hpm); [|done|done|apply superblock_k_nonneg].
  destruct (superblock_k g) as [s|] eqn:Hs; simpl in *; [|by split_and!].
  assert (k_padded d = k) as Hkk.
  { apply superblock_k_some in Hs as ->. pose proof (do_k d Hd). pose proof (block_len_pos g).
    apply Z.mod_divide in Hm as [q Hq]; [|lia]. apply Z.mod_divide in Hpm as [p Hp]; [|lia].
    assert (p = q) as ->; [nia|lia]. }
  split_and!; (done || lia).
Qed.

(** [isize::MAX], which bounds the length of every slice. *)
Definition ISIZE_MAX : Z := 2 ^ 63 - 1.

Section shape.
Context (g : GgmlType.t) (wire : list Z) (n k : Z) (geo : WireGeometry) (d : PaddedDims).
Context (Hn : is_u32 n) (Hk : is_u32 k) (Hbytes : Forall is_byte wire) (Hmax : len wire ≤ ISIZE_MAX).
Context (Hgeo : wire_geometry g wire n k = Ok geo) (Hdims : dims_new n k (superblock_k g) = Ok d).

Definition rows : nat := Z.to_nat n.
Definition blocks : nat := Z.to_nat (k / block_len g).
Definition nbytes : nat := Z.to_nat (block_bytes g).

(** What the shape of an accepted tensor satisfies. *)
Record shape_ok : Prop := {
  so_rows : (rows ≤ Z.to_nat (n_padded d / 16) * 16)%nat;
  so_dims : dims_ok d;
  so_n : pd_n d = n;
  so_k : pd_k d = k;
  so_k_mul : k = k / block_len g * block_len g;
  so_k_pos : 1 ≤ k;
  so_padded : superblock_k g ≠ None → k_padded d = k;
  so_geo_rows : wg_n_rows geo = n;
  so_geo_blocks : wg_blocks_per_row geo = k / block_len g;
  so_wire : length wire = (rows * blocks * nbytes)%nat;
  so_wire_z : len wire = n * (k / block_len g) * block_bytes g;
  so_pad : n_padded d < n + 16 ∧ k_padded d < k + 16;
}.

Lemma shape_accepted : shape_ok.
Proof using Hn Hk Hgeo Hdims.
  destruct Hn as [Hn0 _], Hk as [Hk0 _].
  apply wire_geometry_Ok in Hgeo as (H1n & H1k & Hm & Hgn & Hgb & Hl); [|done..].
  destruct (dims_of_blocks g n k d Hn0 Hk0 Hm Hdims) as (Hd & Hdn & Hdk & Hlt & Hkp).
  pose proof (do_n d Hd). pose proof (do_n_tile d Hd) as Hnt. unfold n_tiles, TILE_N in Hnt.
  pose proof (do_n_tight d Hd) as Hnl. unfold TILE_N in Hnl.
  pose proof (block_len_pos g). pose proof (Z.div_mod k (block_len g) ltac:(lia)).
  pose proof (Z.div_pos k (block_len g) Hk0 ltac:(lia)). pose proof (block_bytes_pos g).
  split; try done; unfold rows, blocks, nbytes; try lia.
  unfold len in Hl. rewrite <- !Z2Nat.inj_mul by lia. lia.
Qed.
End shape.

(** ** Values in tile order *)

Definition packing_of (g : GgmlType.t) : Packing :=
  match ggml_scheme g with
  | Some s => match repack_packing s with Ok p => p | _ => Byte end
  | None => Half16
  end.

Lemma as_u8_small l : Forall (λ x, 0 ≤ x < 256) l → map as_u8 l = l.
Proof.
  induction 1 as [|x l Hx _ IH]; simpl; [done|]. rewrite IH. unfold as_u8. by rewrite Z.mod_small.
Qed.

Lemma below_u16 bits l : bits ≤ 16 → Forall (λ x, 0 ≤ x < 2 ^ bits) l → Forall is_u16 l ∧ Forall (λ x, x < 2 ^ bits) l.
Proof.
  intros Hb Hl. assert (2 ^ bits ≤ 65536) by (change 65536 with (2 ^ 16); apply Z.pow_le_mono_r; lia).
  split; eapply Forall_impl; try exact Hl; unfold is_u16; simpl; lia.
Qed.

Lemma codec_at pack unpack limit total nbytes src :
  codec_ok pack unpack limit total nbytes → Forall is_u16 src → len src = total → Forall (λ x, x < limit) src →
  ∃ bytes, pack src = Ok bytes ∧ len bytes = nbytes ∧ Forall is_byte bytes ∧ unpack bytes = Ok src.
Proof. intros H Hu Hl Hf. specialize (H src Hu). by rewrite !decide_True in H. Qed.

Section values.
Context (d : PaddedDims) (Hd : dims_ok d).

Lemma bytes_at_dims logical :
  len logical = elems d → Forall is_byte logical →
  ∃ values, l1_pack_bytes logical d = Ok values ∧ len values = tile_count d * tile_bytes Byte ∧
            l1_unpack_bytes values d = Ok logical.
Proof using Hd.
  intros Hl Hb. pose proof (forward_lossless d "l1 row-major bytes" "l1 tile-order bytes" Hd logical) as H.
  rewrite decide_True in H by done. destruct H as (t & Ht & Hlt & Hu). exists t. split_and!; [done| |done].
  rewrite Hlt, (elems_tiles d Hd). done.
Qed.

Lemma nibbles_at_dims logical :
  len logical = elems d → Forall (λ x, 0 ≤ x < 2 ^ 4) logical →
  ∃ values, l1_pack_nibbles logical d = Ok values ∧ len values = tile_count d * tile_bytes Nibble4 ∧
            l1_unpack_nibbles values d = Ok logical.
Proof using Hd.
  intros Hl Hb. destruct (below_u16 4 logical ltac:(lia) Hb) as [Hu Hlt].
  destruct (codec_at _ _ _ _ _ logical (nibbles_codec d Hd) Hu Hl Hlt) as (v & ? & ? & _ & ?). eauto.
Qed.

Lemma planes_at_dims bits p logical :
  bit_planes bits = Ok p → len logical = elems d → Forall (λ x, 0 ≤ x < 2 ^ bits) logical →
  ∃ values, l1_pack_planes logical d bits = Ok values ∧ len values = tile_count d * tile_bytes p ∧
            l1_unpack_planes values d bits = Ok logical.
Proof using Hd.
  intros Hp Hl Hb. destruct (bit_planes_Ok bits p Hp) as (_ & _ & -> & ?).
  destruct (below_u16 bits logical ltac:(lia) Hb) as [Hu Hlt].
  destruct (codec_at _ _ _ _ _ logical (planes_codec d Hd bits ltac:(eauto)) Hu Hl Hlt) as (v & ? & ? & _ & ?). eauto.
Qed.

Lemma halfs_at_dims logical :
  len logical = elems d → Forall is_u16 logical →
  ∃ tiled, l1_pack_halfs logical d = Ok tiled ∧ len (encode_halfs_le tiled) = tile_count d * tile_bytes Half16 ∧
           decode_halfs_le (encode_halfs_le tiled) = Ok tiled ∧ l1_unpack_halfs tiled d = Ok logical.
Proof using Hd.
  intros Hl Hu. pose proof (forward_lossless d "l1 row-major elements" "l1 tile-order elements" Hd logical) as H.
  rewrite decide_True in H by done. destruct H as (t & Ht & Hlt & Hi). exists t. split_and!; try done.
  - unfold encode_halfs_le, len. rewrite (length_concat_const 2), length_map.
    + unfold len in Hlt. rewrite Nat2Z.inj_mul, Hlt, (elems_tiles d Hd). unfold ELEMS_PER_TILE.
      change (tile_bytes Half16) with 512. lia.
    + apply Forall_map, Forall_forall. intros x _. apply length_le_bytes.
  - apply halfs_roundtrip. by eapply (forward_loop_Forall d Hd).
Qed.

(** Packed and unpacked again. *)
Lemma pack_logical_Ok g t logical :
  is_iq g = false → rt_dims t = d → len logical = elems d →
  Forall (λ x, 0 ≤ x < 2 ^ Z.of_nat (value_bits g)) logical →
  ∃ values, pack_logical g logical d = Ok values ∧ len values = tile_count d * tile_bytes (packing_of g) ∧
    (rt_values t = values → unpack_logical t (packing_of g) = Ok logical).
Proof using Hd.
  intros Hg Ht Hl Hf.
  assert (∀ p (pack : FormatResult (list Z)) (unpack : list Z → PaddedDims → FormatResult (list Z)),
    (∃ values, pack = Ok values ∧ len values = tile_count d * tile_bytes p ∧ unpack values d = Ok logical) →
    ∃ values, pack = Ok values ∧ len values = tile_count d * tile_bytes p ∧
      (rt_values t = values → unpack (rt_values t) (rt_dims t) = Ok logical)) as Hgo.
  { intros p pack unpack (v & ? & ? & ?). exists v. split_and!; [done..|]. intros ->. by rewrite Ht. }
  assert ((value_bits g ≤ 8)%nat → map as_u8 logical = logical) as Hu8.
  { intros Hw. apply as_u8_small. eapply Forall_impl; [exact Hf|]. simpl. intros x Hx.
    assert (2 ^ Z.of_nat (value_bits g) ≤ 2 ^ 8) by (apply Z.pow_le_mono_r; lia). lia. }
  destruct g; try discriminate Hg; unfold pack_logical, unpack_logical, packing_of; cbn [ggml_scheme repack_packing bit_planes].
  1,12: destruct (halfs_at_dims logical Hl Hf) as (tl & Hp & Hlt & Hdec & Hun); rewrite Hp; cbn [obind];
    exists (encode_halfs_le tl); split_and!; [done..|]; intros ->; by rewrite Hdec, Ht.
  all: try rewrite Hu8 by (simpl; lia).
  all: first [apply (Hgo _ _ l1_unpack_nibbles), nibbles_at_dims; done
             |apply (Hgo _ _ l1_unpack_bytes), bytes_at_dims; done
             |apply (Hgo (BitPlanes _) _ (λ v d, l1_unpack_planes v d _)), planes_at_dims; done].
Qed.
End values.

(** ** The theorem *)

Lemma scheme_facts g s :
  ggml_scheme g = Some s →
  repack_outer_block s = Ok (Some (block_len g)) ∧ repack_record_bytes s = Ok (Z.of_nat (record_bytes g)) ∧
  repack_packing s = Ok (packing_of g) ∧ superblock_k g ≠ None ∧ tile_bytes (packing_of g) ≤ 256.
Proof. destruct g; intros [= <-]; by split_and!. Qed.

Lemma halves_facts g :
  ggml_scheme g = None → block_len g = 1 ∧ block_bytes g = 2 ∧ record_bytes g = 0%nat ∧ packing_of g = Half16.
Proof. by destruct g. Qed.

(** The value region of an accepted tensor fits in a [u64]. *)
Lemma region_fits g wire n k geo d :
  is_u32 n → is_u32 k → len wire ≤ ISIZE_MAX → shape_ok g wire n k geo d →
  value_region_bytes d (packing_of g) = Ok (tile_count d * tile_bytes (packing_of g)).
Proof.
  intros [Hn0 Hn] [Hk0 Hk] Hmax Hs. unfold value_region_bytes. rewrite checked_mul_ok; [done|].
  pose proof (so_dims _ _ _ _ _ _ Hs) as Hd. pose proof (elems_u64 d Hd) as He. pose proof (elems_tiles d Hd) as Het.
  unfold ELEMS_PER_TILE in Het. destruct (ggml_scheme g) as [s|] eqn:Hsch.
  - apply scheme_facts in Hsch as (_ & _ & _ & _ & Ht). pose proof (tile_count_nonneg d Hd). nia.
  - destruct (halves_facts g Hsch) as (Hl & Hb & _ & ->). pose proof (so_wire_z _ _ _ _ _ _ Hs) as Hw.
    rewrite Hl, Hb, Z.div_1_r in Hw. pose proof (so_pad _ _ _ _ _ _ Hs) as [Hpn Hpk].
    change (tile_bytes Half16) with 512. unfold elems, ISIZE_MAX, U64_MAX, U32_MAX in *.
    assert (n_padded d * k_padded d ≤ (n + 15) * (k + 15)).
    { pose proof (do_n d Hd). pose proof (do_k d Hd). apply Z.mul_le_mono_nonneg; lia. }
    lia.
Qed.

Section plain.
Context (g : GgmlType.t) (wire : list Z) (n k : Z) (geo : WireGeometry) (d : PaddedDims).
Context (Hg : is_iq g = false) (Hn : is_u32 n) (Hk : is_u32 k) (Hbytes : Forall is_byte wire) (Hmax : len wire ≤ ISIZE_MAX).
Context (Hgeo : wire_geometry g wire n k = Ok geo) (Hdims : dims_new n k (superblock_k g) = Ok d).

Lemma plain_codec :
  block_codec (λ block, block_values g block (replicate (Z.to_nat (block_len g)) 0))
    (record_of g (replicate (record_bytes g) 0)) (λ vals rec block, write_wire_block g vals rec block)
    (Z.to_nat (block_bytes g)) (Z.to_nat (block_len g)) (record_bytes g) (λ x, 0 ≤ x < 2 ^ Z.of_nat (value_bits g)).
Proof using Hg.
  intros block Hl Hb. pose proof (block_bytes_pos g). pose proof (block_len_pos g).
  destruct (block_regroup g block (replicate (Z.to_nat (block_len g)) 0) (replicate (record_bytes g) 0)) as
    (vals & rec & Hr); [done|unfold len; lia|done|unfold len; rewrite length_replicate; lia|apply length_replicate|eauto].
Qed.

Lemma plain_shape : shape_ok g wire n k geo d.
Proof using Hn Hk Hgeo Hdims. by apply shape_accepted. Qed.

Lemma blocks_nonneg : 0 ≤ k / block_len g.
Proof using Hk. pose proof (block_len_pos g). apply Z.div_pos; [apply Hk|lia]. Qed.

(** The K-blocks of the scale region. *)
Definition scale_k_blocks : Z := k_padded d / match ggml_scheme g with Some _ => block_len g | None => k_padded d end.

Abbreviation record_in row b :=
  (record_at (record_of g (replicate (record_bytes g) 0)) (nbytes g) (blocks g k) wire row b).

Lemma plain_scales :
  ∃ scales, pack_scales g wire d geo = Ok scales ∧
    len scales = n_padded d / 16 * scale_k_blocks * 16 * Z.of_nat (record_bytes g) ∧
    ∀ what row b, (row < rows n)%nat → (b < blocks g k)%nat →
      soa_record what scales (record_bytes g) (Z.to_nat scale_k_blocks) (row / 16) b (row mod 16) = Ok (record_in row b).
Proof using Hg Hn Hk Hbytes Hgeo Hdims.
  pose proof plain_shape as Hs. pose proof (so_dims _ _ _ _ _ _ Hs) as Hd. pose proof (do_n d Hd) as Hdn.
  pose proof blocks_nonneg as Hq. unfold pack_scales, scale_k_blocks. destruct (ggml_scheme g) as [s|] eqn:Hsch.
  - destruct (scheme_facts g s Hsch) as (Ho & Hrb & _ & Hsb & _). rewrite Ho, Hrb. cbn [obind default].
    rewrite (so_padded _ _ _ _ _ _ Hs Hsb), (so_geo_rows _ _ _ _ _ _ Hs), (so_geo_blocks _ _ _ _ _ _ Hs), Nat2Z.id.
    change (Z.to_nat (k / block_len g)) with (blocks g k).
    assert (record_of g (replicate (record_bytes g) 0) = λ block, copy_block_record g block (replicate (record_bytes g) 0)) as Hro
      by (unfold record_of; by rewrite Hsch).
    destruct (records_loop_Ok _ _ _ _ _ _ (rows n) (blocks g k) _ plain_codec wire (so_wire _ _ _ _ _ _ Hs) Hbytes
      (Z.to_nat (n_padded d / 16)) (so_rows _ _ _ _ _ _ Hs)) as (scales & Hsc & Hl & Hat).
    exists scales. split_and!.
    + rewrite Hro in Hsc. exact Hsc.
    + unfold len, blocks in *. rewrite Hl, !Nat2Z.inj_mul, !Z2Nat.id by (done || apply Z.div_pos; lia). done.
    + intros what row b Hr Hb. unfold soa_record. rewrite slice_segment; [by rewrite Hat|].
      rewrite Hl. pose proof (so_rows _ _ _ _ _ _ Hs). pose proof (Nat.mod_upper_bound row 16 ltac:(lia)).
      assert (row / 16 < Z.to_nat (n_padded d / 16))%nat as Hr16 by (apply Nat.div_lt_upper_bound; lia).
      pose proof (block_index_lt _ _ _ _ Hr16 Hb). nia.
  - destruct (halves_facts g Hsch) as (_ & _ & Hr0 & _). exists []. rewrite Hr0. split_and!; [done|by rewrite Z.mul_0_r|].
    intros what row b _ _. unfold soa_record. rewrite Nat.mul_0_r. simpl. unfold record_at, record_of. by rewrite Hsch.
Qed.

(** The tensor's own geometry, as [unpack_repacked] recomputes it. *)
Lemma plain_geometry t :
  rt_ggml t = g → rt_scheme t = ggml_scheme g → rt_dims t = d →
  len (rt_values t) = tile_count d * tile_bytes (packing_of g) →
  len (rt_scales t) = n_padded d / 16 * scale_k_blocks * 16 * Z.of_nat (record_bytes g) →
  repacked_geometry t = Ok (packing_of g, record_bytes g, Z.to_nat scale_k_blocks).
Proof using Hg Hn Hk Hmax Hgeo Hdims.
  intros Hrg Hrs Hrd Hlv Hls. unfold repacked_geometry, check_scheme. rewrite Hrg, Hrd, Hrs, Hg.
  rewrite decide_True by done. pose proof (region_fits g wire n k geo d Hn Hk Hmax plain_shape) as Hfit.
  unfold scale_k_blocks in *. destruct (ggml_scheme g) as [s|] eqn:Hsch.
  - destruct (scheme_facts g s Hsch) as (Ho & Hrb & Hp & _). rewrite Ho, Hrb, Hp. cbn [obind default].
    rewrite Hfit. cbn [obind]. rewrite Hlv, expect_len_refl. cbn [obind]. rewrite Hls, expect_len_refl. cbn [obind].
    by rewrite Nat2Z.id.
  - destruct (halves_facts g Hsch) as (_ & _ & Hr0 & Hp). rewrite Hr0, Hp in *. cbn [obind].
    rewrite Hfit. cbn [obind]. rewrite Hlv, expect_len_refl. cbn [obind]. by rewrite Hls, expect_len_refl.
Qed.

(** The repacked tensor and what its readers find in it. *)
Lemma plain_stored :
  ∃ t logical, repack g wire n k = Ok t ∧ rt_ggml t = g ∧ rt_dims t = d ∧
    repacked_geometry t = Ok (packing_of g, record_bytes g, Z.to_nat scale_k_blocks) ∧
    unpack_logical t (packing_of g) = Ok logical ∧
    ∀ what, readable (λ block, block_values g block (replicate (Z.to_nat (block_len g)) 0))
      (record_of g (replicate (record_bytes g) 0)) (nbytes g) (Z.to_nat (block_len g)) (record_bytes g) (rows n) (blocks g k)
      wire what logical (rt_scales t) (Z.to_nat scale_k_blocks) (Z.to_nat (k_padded d)).
Proof using Hg Hn Hk Hbytes Hmax Hgeo Hdims.
  pose proof plain_shape as Hs. pose proof (so_dims _ _ _ _ _ _ Hs) as Hd. pose proof (do_n d Hd) as Hdn.
  pose proof (do_k d Hd) as Hdk. pose proof (block_len_pos g) as Hbl. pose proof blocks_nonneg as Hq.
  pose proof (so_k_mul _ _ _ _ _ _ Hs) as Hkm. pose proof (so_n _ _ _ _ _ _ Hs) as Hpn.
  pose proof (so_k _ _ _ _ _ _ Hs) as Hpk. rewrite Hpn in Hdn. rewrite Hpk in Hdk.
  assert (blocks g k * Z.to_nat (block_len g) ≤ Z.to_nat (k_padded d))%nat as Hstride
    by (unfold blocks; rewrite <- Z2Nat.inj_mul, <- Hkm by lia; lia).
  assert (rows n * Z.to_nat (k_padded d) ≤ Z.to_nat (n_padded d) * Z.to_nat (k_padded d))%nat as Htot
    by (apply Nat.mul_le_mono_r; unfold rows; lia).
  destruct (logical_loop_Ok _ _ _ _ _ _ (rows n) (blocks g k) _ plain_codec wire (so_wire _ _ _ _ _ _ Hs) Hbytes
    _ _ Hstride Htot) as (logical & Hlog & Hll & HP & Hat); [pose proof (Z.pow_pos_nonneg 2 (Z.of_nat (value_bits g))); lia|].
  assert (len logical = elems d) as Hlen by (unfold len, elems; rewrite Hll, Nat2Z.inj_mul, !Z2Nat.id; lia).
  destruct plain_scales as (scales & Hsc & Hls & Hrec).
  set (tensor := λ values, {| rt_ggml := g; rt_scheme := ggml_scheme g; rt_dims := d; rt_values := values; rt_scales := scales |}).
  assert (∃ values, pack_logical g logical d = Ok values ∧ len values = tile_count d * tile_bytes (packing_of g) ∧
    unpack_logical (tensor values) (packing_of g) = Ok logical) as (values & Hpack & Hlv & Hun).
  { destruct (pack_logical_Ok d Hd g (tensor []) logical) as (values & Hp & Hl & _); [done..|].
    destruct (pack_logical_Ok d Hd g (tensor values) logical) as (values' & Hp' & _ & Hu); [done..|].
    exists values. split_and!; [done..|]. apply Hu. simpl. congruence. }
  exists (tensor values), logical. pose proof (plain_geometry (tensor values) eq_refl eq_refl eq_refl Hlv Hls) as Hgeom.
  split_and!; [|done..|].
  - unfold repack. rewrite Hg, Hgeo. cbn [obind]. rewrite Hdims. cbn [obind].
    rewrite (so_geo_blocks _ _ _ _ _ _ Hs). fold (rows n) (blocks g k).
    etransitivity; [apply (f_equal (λ c, obind c _) Hlog)|]. cbn [obind]. rewrite Hpack. cbn [obind]. by rewrite Hsc.
  - intros what. apply readable_intro; [exact Hstride|by rewrite Hll|exact Hat|intros row b Hr Hb; by apply Hrec].
Qed.

Lemma plain_roundtrip :
  ∃ t, repack g wire n k = Ok t ∧ unpack_repacked t = Ok wire ∧ rt_ggml t = g ∧ rt_dims t = d.
Proof using Hg Hn Hk Hbytes Hmax Hgeo Hdims.
  pose proof plain_shape as Hs. destruct plain_stored as (t & logical & Ht & Hrg & Hrd & Hgeom & Hun & Hread).
  exists t. split_and!; try done. unfold unpack_repacked. rewrite Hrg, Hg, Hgeom. cbn [obind]. rewrite Hun. cbn [obind].
  rewrite Hrd, (so_n _ _ _ _ _ _ Hs), (so_k _ _ _ _ _ _ Hs).
  by eapply (wire_loop_Ok _ _ _ _ _ _ _ _ _ plain_codec wire (so_wire _ _ _ _ _ _ Hs) Hbytes).
Qed.
End plain.

(** ** Codebook types *)

Lemma kind_facts g kind :
  iq_kind g = Some kind →
  superblock_k g ≠ None ∧ iq_outer kind = block_len g ∧
  (is_nibble_kind kind = true → Z.of_nat (wire_index_len kind) = block_len g) ∧
  (is_nibble_kind kind = false → block_len g = 256 ∧ 4 ≤ index_granularity kind ≤ 8 ∧
     Z.of_nat (wire_index_len kind) * index_granularity kind = 256).
Proof. destruct g; intros [= <-]; by split_and!. Qed.

Lemma round_up_multiple x what : 0 ≤ x ≤ U32_MAX → x mod 16 = 0 → round_up_u32 x 16 what = Ok x.
Proof.
  intros Hx Hm. unfold round_up_u32. unfold U32_MAX in *. rewrite checked_add_ok by (unfold U64_MAX; lia). simpl.
  pose proof (Z.div_mod x 16 ltac:(lia)). replace (x + (16 - 1)) with (x / 16 * 16 + 15) by lia. rewrite Z.div_add_l by lia.
  change (15 / 16) with 0. replace ((x / 16 + 0) * 16) with x by lia. rewrite try_from_ok by (unfold U32_MAX; lia). done.
Qed.

(** The dimensions of the packed indices. *)
Lemma index_dims_Ok n k sb d kind q :
  0 ≤ n → 0 ≤ k → dims_new n k sb = Ok d → pd_n d = n → pd_k d = k → k ≤ U32_MAX → 1 ≤ k → k = q * 256 →
  4 ≤ index_granularity kind ≤ 8 → Z.of_nat (wire_index_len kind) * index_granularity kind = 256 →
  index_dims d kind = Ok {| pd_n := n; pd_k := q * Z.of_nat (wire_index_len kind); n_padded := n_padded d;
                            k_padded := q * Z.of_nat (wire_index_len kind) |}.
Proof.
  intros Hn Hk Hd Hdn Hdk Hmax H1 Hq Hg Hw. unfold index_dims.
  set (gr := index_granularity kind) in *. set (w := Z.of_nat (wire_index_len kind)) in *.
  rewrite (proj2 (Z.leb_gt _ _)) by lia. rewrite Hdn, Hdk.
  assert (k = q * w * gr) as Hkq by nia. assert (is_multiple_of k gr = true) as ->.
  { unfold is_multiple_of. apply Z.eqb_eq. rewrite Hkq. apply Z_mod_mult. }
  simpl. rewrite Hkq, Z.div_mul by lia.
  unfold dims_new in Hd |- *.
  apply obind_Ok_inv in Hd as ([] & Hp & (np & Hnp & (kp & _ & [= <-])%obind_Ok_inv)%obind_Ok_inv).
  apply collect_Ok, app_nil in Hp as [Hn0%problem_if_nil _].
  assert (0 ≤ q * w ≤ U32_MAX) by nia. assert (q * w =? 0 = false) as Hqw by (apply Z.eqb_neq; nia).
  unfold dims_problems. rewrite Hn0, Hqw. simpl. rewrite Hnp. simpl.
  assert ((q * w) mod 16 = 0) as Hm.
  { assert (w = 16 * (w / 16)) as ->; [unfold w; by destruct kind|]. rewrite (Z.mul_comm 16), Z.mul_assoc. apply Z_mod_mult. }
  change (Z.max TILE_K TILE_K) with 16. by rewrite round_up_multiple.
Qed.

Section codebook.
Context (g : GgmlType.t) (kind : IqKind) (wire : list Z) (n k : Z) (geo : WireGeometry) (d : PaddedDims).
Context (Hg : iq_kind g = Some kind) (Hn : is_u32 n) (Hk : is_u32 k) (Hbytes : Forall is_byte wire).
Context (Hgeo : wire_geometry g wire n k = Ok geo) (Hdims : dims_new n k (superblock_k g) = Ok d).

Abbreviation parsed block :=
  (parse_block kind g block (replicate (wire_index_len kind) 0) (replicate (record_len kind) 0)).
Definition index_reader (block : list Z) : FormatResult (list Z) :=
  let* (idx, _) := parsed block in index_slice 0 (wire_index_len kind) idx.
Definition record_reader (block : list Z) : FormatResult (list Z) := let* (_, rec) := parsed block in Ok rec.

Lemma codebook_codec :
  block_codec index_reader record_reader (λ vals rec block, write_block kind g vals rec block)
    (Z.to_nat (block_bytes g)) (wire_index_len kind) (record_len kind) (λ x, 0 ≤ x < 2 ^ Z.of_nat (index_bits kind)).
Proof using Hg.
  intros block Hl Hb. pose proof (block_bytes_pos g).
  destruct (iq_block_regroup g kind block (replicate (wire_index_len kind) 0) (replicate (record_len kind) 0)) as
    (idx & rec & Hp & Hli & Hlr & Hf & Hw); [done|unfold len; lia|done|apply length_replicate..|].
  exists idx, rec. unfold index_reader, record_reader. rewrite Hp. cbn [obind]. split_and!; try done.
  unfold index_slice, slice. cbn [Nat.leb andb]. rewrite (proj2 (Nat.leb_le _ _)) by lia.
  cbn [or_panic]. by rewrite drop_0, Nat.sub_0_r, <- Hli, firstn_all.
Qed.

Lemma codebook_shape : shape_ok g wire n k geo d.
Proof using Hn Hk Hgeo Hdims. by apply shape_accepted. Qed.

Lemma codebook_padded : k_padded d = k.
Proof using Hg Hn Hk Hgeo Hdims. apply (so_padded _ _ _ _ _ _ codebook_shape). by apply (kind_facts g kind). Qed.

(** The dimensions of the values: one column for each packed index. *)
Lemma codebook_dims :
  ∃ vd, (if is_nibble_kind kind then Ok d else index_dims d kind) = Ok (E:=FormatError) vd ∧ dims_ok vd ∧
    n_padded vd = n_padded d ∧ k_padded vd = k / block_len g * Z.of_nat (wire_index_len kind).
Proof using Hg Hn Hk Hgeo Hdims.
  pose proof codebook_shape as Hs. destruct (kind_facts g kind Hg) as (_ & _ & Hnib & Hgrid).
  pose proof (so_k_mul _ _ _ _ _ _ Hs) as Hkm. pose proof (so_dims _ _ _ _ _ _ Hs) as Hd.
  destruct (is_nibble_kind kind) eqn:Hnk.
  - exists d. rewrite codebook_padded, (Hnib eq_refl). by split_and!.
  - destruct (Hgrid eq_refl) as (Hbl & Hgr & Hw). rewrite Hbl in *. destruct Hn as [Hn0 _], Hk as [Hk0 Hkm'].
    pose proof (so_k_pos _ _ _ _ _ _ Hs) as Hk1.
    pose proof (index_dims_Ok n k _ d kind (k / 256) Hn0 Hk0 Hdims (so_n _ _ _ _ _ _ Hs) (so_k _ _ _ _ _ _ Hs)
      Hkm' Hk1 Hkm Hgr Hw) as Hi.
    eexists. split; [exact Hi|]. unfold index_dims in Hi.
    destruct (_ <=? 1); [done|]. destruct (negb _); [done|].
    apply dims_new_Ok in Hi as [Hok _]; [by split_and!|pose proof (do_n d Hd); lia|apply Z.div_pos; [|lia]|done].
    pose proof (do_k d Hd). lia.
Qed.

Lemma codebook_values vd logical :
  (if is_nibble_kind kind then Ok d else index_dims d kind) = Ok (E:=FormatError) vd → dims_ok vd → len logical = elems vd →
  Forall (λ x, 0 ≤ x < 2 ^ Z.of_nat (index_bits kind)) logical →
  ∃ values, (if is_nibble_kind kind then l1_pack_nibbles logical vd else l1_pack_bytes logical vd) = Ok values ∧
    value_region_bytes vd (if is_nibble_kind kind then Nibble4 else Byte) = Ok (len values) ∧
    (if is_nibble_kind kind then l1_unpack_nibbles values vd else l1_unpack_bytes values vd) = Ok logical.
Proof.
  intros _ Hd Hl Hf. pose proof (elems_u64 vd Hd) as He. rewrite (elems_tiles vd Hd) in He.
  unfold ELEMS_PER_TILE in He. pose proof (tile_count_nonneg vd Hd). unfold index_bits in Hf. unfold value_region_bytes.
  destruct (is_nibble_kind kind).
  - destruct (nibbles_at_dims vd Hd logical Hl Hf) as (v & Hp & Hlv & Hu). exists v. split_and!; try done.
    rewrite checked_mul_ok; [by rewrite Hlv|]. change (tile_bytes Nibble4) with 128. lia.
  - destruct (bytes_at_dims vd Hd logical Hl Hf) as (v & Hp & Hlv & Hu). exists v. split_and!; try done.
    rewrite checked_mul_ok; [by rewrite Hlv|]. change (tile_bytes Byte) with 256. lia.
Qed.

Lemma codebook_stored :
  ∃ t vd logical, repack g wire n k = Ok t ∧ rt_ggml t = g ∧ rt_dims t = d ∧
    repacked_geometry_iq t = Ok (kind, vd, blocks g k) ∧ iq_logical t kind vd = Ok logical ∧
    ∀ what, readable index_reader record_reader (nbytes g) (wire_index_len kind) (record_len kind) (rows n) (blocks g k)
      wire what logical (rt_scales t) (blocks g k) (Z.to_nat (k_padded vd)).
Proof using Hg Hn Hk Hbytes Hgeo Hdims.
  pose proof codebook_shape as Hs. pose proof (so_dims _ _ _ _ _ _ Hs) as Hd. pose proof (do_n d Hd) as Hdn.
  destruct codebook_dims as (vd & Hvd & Hvok & Hvn & Hvk). destruct (kind_facts g kind Hg) as (_ & Ho & _).
  pose proof (so_n _ _ _ _ _ _ Hs) as Hpn. rewrite Hpn in Hdn. pose proof (block_len_pos g).
  assert (0 ≤ k / block_len g) as Hq by (apply Z.div_pos; [apply Hk|lia]).
  assert (blocks g k * wire_index_len kind ≤ Z.to_nat (k_padded vd))%nat as Hstride
    by (rewrite Hvk; unfold blocks; rewrite Z2Nat.inj_mul, Nat2Z.id by lia; lia).
  assert (rows n * Z.to_nat (k_padded vd) ≤ Z.to_nat (n_padded d) * Z.to_nat (k_padded vd))%nat as Htot
    by (apply Nat.mul_le_mono_r; unfold rows; lia).
  destruct (logical_loop_Ok _ _ _ _ _ _ (rows n) (blocks g k) _ codebook_codec wire (so_wire _ _ _ _ _ _ Hs) Hbytes
    _ _ Hstride Htot) as (logical & Hlog & Hll & HP & Hat); [pose proof (Z.pow_pos_nonneg 2 (Z.of_nat (index_bits kind))); lia|].
  assert (len logical = elems vd) as Hlen.
  { pose proof (do_k vd Hvok). unfold len, elems. rewrite Hvn, Hll, Nat2Z.inj_mul, !Z2Nat.id; lia. }
  destruct (codebook_values vd logical Hvd Hvok Hlen HP) as (values & Hpack & Hreg & Hun).
  destruct (records_loop_Ok _ _ _ _ _ _ (rows n) (blocks g k) _ codebook_codec wire (so_wire _ _ _ _ _ _ Hs) Hbytes
    (Z.to_nat (n_padded d / 16)) (so_rows _ _ _ _ _ _ Hs)) as (scales & Hsc & Hls & Hrec).
  assert (is_iq g = true) as Hiq by (unfold is_iq; by rewrite Hg).
  assert (Z.to_nat (k_padded d / iq_outer kind) = blocks g k) as Hkb by (by rewrite codebook_padded, Ho).
  eexists _, vd, logical. split_and!.
  - unfold repack. rewrite Hiq. unfold iq_repack. rewrite Hg. cbn [obind]. rewrite Hgeo. cbn [obind].
    rewrite Hdims. cbn [obind]. rewrite Hvd. cbn [obind].
    rewrite (so_geo_blocks _ _ _ _ _ _ Hs), (so_geo_rows _ _ _ _ _ _ Hs), Hkb. fold (rows n) (blocks g k).
    etransitivity; [apply (f_equal (λ c, obind c _) Hlog)|]. cbn [obind]. rewrite Hpack. cbn [obind].
    etransitivity; [apply (f_equal (λ c, obind c _) Hsc)|]. reflexivity.
  - done.
  - done.
  - unfold repacked_geometry_iq, check_scheme. cbn [rt_ggml rt_scheme rt_dims rt_values rt_scales].
    rewrite Hg. cbn [obind]. rewrite decide_True by done.
    cbn [obind]. rewrite Hvd. cbn [obind]. rewrite Hreg. cbn [obind]. rewrite expect_len_refl. cbn [obind].
    assert (len scales = n_padded d / 16 * (k_padded d / iq_outer kind) * 16 * Z.of_nat (record_len kind)) as ->.
    { unfold len. rewrite Hls, !Nat2Z.inj_mul, <- Hkb, !Z2Nat.id;
        [done|rewrite codebook_padded, Ho; done|apply Z.div_pos; lia]. }
    rewrite expect_len_refl. cbn [obind]. by rewrite Hkb.
  - exact Hun.
  - intros what. apply readable_intro; [exact Hstride|by rewrite Hll|exact Hat|].
    intros row b Hr Hb. cbn [rt_scales]. unfold soa_record. rewrite slice_segment; [by rewrite Hrec|].
    rewrite Hls. pose proof (so_rows _ _ _ _ _ _ Hs). pose proof (Nat.mod_upper_bound row 16 ltac:(lia)).
    assert (row / 16 < Z.to_nat (n_padded d / 16))%nat as Hr16 by (apply Nat.div_lt_upper_bound; lia).
    pose proof (block_index_lt _ _ _ _ Hr16 Hb). nia.
Qed.

Lemma codebook_roundtrip :
  ∃ t, repack g wire n k = Ok t ∧ unpack_repacked t = Ok wire ∧ rt_ggml t = g ∧ rt_dims t = d.
Proof using Hg Hn Hk Hbytes Hgeo Hdims.
  pose proof codebook_shape as Hs. destruct codebook_stored as (t & vd & logical & Ht & Hrg & Hrd & Hgeom & Hun & Hread).
  exists t. split_and!; try done. unfold unpack_repacked. rewrite Hrg. unfold is_iq. rewrite Hg.
  unfold iq_unpack. rewrite Hgeom. cbn [obind]. rewrite Hun. cbn [obind].
  rewrite Hrg, Hrd, (so_n _ _ _ _ _ _ Hs), (so_k _ _ _ _ _ _ Hs).
  by eapply (wire_loop_Ok _ _ _ _ _ _ _ _ _ codebook_codec wire (so_wire _ _ _ _ _ _ Hs) Hbytes).
Qed.
End codebook.

(** C11: repacking a GGUF tensor loses nothing.  For every type, shape and
    content of a tensor's wire bytes, [repack] refuses it exactly where its
    geometry or its padded dimensions are refused, with their error, and
    otherwise builds a tensor of those dimensions that [unpack_repacked] turns
    back into the very same bytes; neither ever panics. *)
Theorem repack_roundtrip g wire n k :
  is_u32 n → is_u32 k → Forall is_byte wire → len wire ≤ ISIZE_MAX →
  match repack g wire n k with
  | Ok t => rt_ggml t = g ∧ dims_new n k (superblock_k g) = Ok (rt_dims t) ∧ unpack_repacked t = Ok wire
  | Err e => wire_geometry g wire n k = Err e ∨
             (∃ geo, wire_geometry g wire n k = Ok geo) ∧ dims_new n k (superblock_k g) = Err e
  | Panic => False
  end.
Proof.
  intros Hn Hk Hb Hmax. pose proof (wire_geometry_total g wire n k) as Hgt.
  pose proof (dims_new_total n k (superblock_k g)) as Hdt.
  destruct (wire_geometry g wire n k) as [geo|e|] eqn:Hgeo; [|unfold repack, iq_repack..]; [| |done].
  2:{ unfold is_iq. destruct (iq_kind g); cbn [obind]; rewrite Hgeo; by left. }
  destruct (dims_new n k (superblock_k g)) as [d|e|] eqn:Hd; [| |done].
  - assert (∃ t, repack g wire n k = Ok t ∧ unpack_repacked t = Ok wire ∧ rt_ggml t = g ∧ rt_dims t = d) as
      (t & -> & ? & ? & ->); [|done].
    destruct (iq_kind g) as [kind|] eqn:Hkind; [by eapply codebook_roundtrip|].
    destruct (plain_roundtrip g wire n k geo d) as (t & ? & ? & ? & ?); [unfold is_iq; by rewrite Hkind|done..|eauto].
  - unfold repack, iq_repack, is_iq. destruct (iq_kind g); cbn [obind]; rewrite Hgeo; cbn [obind]; rewrite Hd; by right; eauto.
Qed.

(** Two rows of one Q5_1 block each. *)
Definition demo_wire : list Z := map (λ i, Z.of_nat (i * 37 + i / 7) mod 256) (seqn 48).

Lemma repack_roundtrip_witness :
  ∃ t, repack Q5_1 demo_wire 2 32 = Ok t ∧ len (rt_values t) = 320 ∧ unpack_repacked t = Ok demo_wire.
Proof.
  pose proof (repack_roundtrip Q5_1 demo_wire 2 32) as H.
  assert (Forall is_byte demo_wire) as Hb.
  { apply Forall_map, Forall_forall. intros i _. pose proof (Z.mod_pos_bound (Z.of_nat (i * 37 + i / 7)) 256 eq_refl). split; lia. }
  specialize (H ltac:(split; vm_compute; discriminate) ltac:(split; vm_compute; discriminate) Hb ltac:(vm_compute; discriminate)).
  assert (match repack Q5_1 demo_wire 2 32 with Ok t => len (rt_values t) =? 320 | _ => false end = true) as E
    by (vm_compute; reflexivity).
  destruct (repack Q5_1 demo_wire 2 32) as [t| |]; [|discriminate E..].
  exists t. destruct H as (_ & _ & H). apply Z.eqb_eq in E. exact (conj eq_refl (conj E H)).
Defined.
