(* ===== verification/IqLut.v ===== *)
(** * Codebooks of the IQ types

    The tables of [crates/r9v-format/src/iq_lut.rs], line by line, and its
    bounds-checked readers. *)

From S2P Require Import Prelude Bytes Format Permute.

#[global] Open Scope Z_scope.

Definition IQ4_KVALUES : list Z := concat [
  [-127; -104; -83; -65; -49; -35; -22; -10; 1; 13; 25; 38; 53; 69; 89; 113]].

Definition IQ_SIGN_LUT : list Z := concat [
  [0; 129; 130; 3; 132; 5; 6; 135; 136; 9; 10; 139; 12; 141; 142; 15; 144; 17; 18; 147; 20; 149];
  [150; 23; 24; 153; 154; 27; 156; 29; 30; 159; 160; 33; 34; 163; 36; 165; 166; 39; 40; 169; 170];
  [43; 172; 45; 46; 175; 48; 177; 178; 51; 180; 53; 54; 183; 184; 57; 58; 187; 60; 189; 190; 63];
  [192; 65; 66; 195; 68; 197; 198; 71; 72; 201; 202; 75; 204; 77; 78; 207; 80; 209; 210; 83; 212];
  [85; 86; 215; 216; 89; 90; 219; 92; 221; 222; 95; 96; 225; 226; 99; 228; 101; 102; 231; 232];
  [105; 106; 235; 108; 237; 238; 111; 240; 113; 114; 243; 116; 245; 246; 119; 120; 249; 250; 123];
  [252; 125; 126; 255]].

Definition IQ2_XXS_GRID : list Z := concat [
  [8; 8; 8; 8; 8; 8; 8; 8; 43; 8; 8; 8; 8; 8; 8; 8; 25; 25; 8; 8; 8; 8; 8; 8; 8; 43; 8; 8; 8; 8];
  [8; 8; 43; 43; 8; 8; 8; 8; 8; 8; 25; 8; 25; 8; 8; 8; 8; 8; 8; 25; 25; 8; 8; 8; 8; 8; 8; 8; 43];
  [8; 8; 8; 8; 8; 43; 8; 43; 8; 8; 8; 8; 8; 8; 43; 43; 8; 8; 8; 8; 8; 43; 43; 43; 8; 8; 8; 8; 8];
  [25; 8; 8; 25; 8; 8; 8; 8; 8; 25; 8; 25; 8; 8; 8; 8; 8; 8; 25; 25; 8; 8; 8; 8; 8; 43; 25; 25; 8];
  [8; 8; 8; 25; 8; 43; 25; 8; 8; 8; 8; 8; 25; 43; 25; 8; 8; 8; 8; 8; 8; 8; 43; 8; 8; 8; 8; 43; 8];
  [8; 43; 8; 8; 8; 8; 43; 43; 8; 43; 8; 8; 8; 8; 43; 8; 43; 43; 8; 8; 8; 8; 25; 8; 8; 8; 25; 8; 8];
  [8; 8; 25; 8; 8; 25; 8; 8; 8; 8; 8; 25; 8; 25; 8; 8; 8; 25; 25; 25; 8; 25; 8; 8; 8; 8; 8; 8; 25];
  [25; 8; 8; 8; 8; 25; 8; 43; 25; 8; 8; 8; 8; 43; 25; 43; 25; 8; 8; 8; 8; 8; 8; 8; 43; 8; 8; 8];
  [43; 8; 8; 8; 43; 8; 8; 8; 43; 8; 43; 8; 43; 8; 8; 8; 43; 8; 8; 43; 43; 8; 8; 8; 25; 8; 8; 8; 8];
  [25; 8; 8; 8; 25; 8; 8; 8; 25; 8; 8; 8; 8; 25; 8; 8; 25; 8; 8; 25; 8; 43; 8; 8; 25; 8; 8; 8; 25];
  [43; 8; 8; 25; 8; 8; 8; 8; 8; 25; 8; 25; 8; 8; 43; 8; 8; 25; 8; 25; 8; 8; 8; 43; 8; 25; 8; 25];
  [8; 8; 8; 8; 43; 25; 8; 25; 8; 8; 25; 8; 8; 43; 8; 25; 8; 8; 8; 25; 8; 43; 8; 25; 8; 8; 8; 8];
  [25; 43; 8; 25; 8; 8; 8; 25; 43; 43; 8; 25; 8; 8; 8; 8; 8; 8; 25; 25; 8; 8; 43; 8; 8; 8; 25; 25];
  [8; 8; 8; 43; 8; 8; 25; 25; 8; 8; 8; 8; 43; 8; 25; 25; 8; 8; 43; 25; 8; 25; 25; 25; 8; 8; 25];
  [43; 43; 25; 25; 25; 8; 8; 8; 8; 8; 43; 25; 25; 8; 8; 25; 8; 25; 43; 25; 25; 8; 8; 25; 43; 8; 8];
  [43; 25; 8; 8; 8; 8; 25; 8; 43; 25; 8; 8; 8; 8; 8; 25; 43; 25; 8; 8; 8; 25; 8; 43; 43; 25; 8; 8];
  [8; 25; 43; 43; 43; 25; 8; 8; 8; 8; 8; 8; 8; 43; 8; 8; 25; 25; 8; 8; 8; 43; 8; 8; 8; 43; 8; 8];
  [8; 43; 8; 8; 8; 25; 25; 8; 8; 43; 8; 8; 8; 43; 43; 8; 8; 43; 8; 8; 25; 8; 8; 25; 8; 43; 8; 8];
  [8; 25; 8; 25; 8; 43; 8; 8; 8; 8; 25; 25; 8; 43; 8; 8; 43; 8; 25; 25; 8; 43; 8; 8; 8; 43; 8; 43];
  [8; 43; 8; 8; 8; 25; 8; 8; 25; 43; 8; 8; 8; 8; 8; 25; 25; 43; 8; 8; 43; 8; 8; 8; 43; 43; 8; 8];
  [8; 25; 25; 8; 43; 43; 8; 8; 25; 8; 8; 8; 8; 8; 25; 8; 8; 25; 8; 8; 8; 8; 25; 8; 8; 8; 25; 8; 8];
  [8; 25; 8; 25; 8; 43; 8; 8; 8; 25; 8; 8; 8; 8; 25; 8; 8; 25; 8; 8; 8; 43; 25; 8; 8; 25; 8; 8];
  [25; 8; 43; 8; 8; 25; 8; 8; 8; 25; 43; 8; 8; 25; 8; 25; 25; 25; 43; 8; 8; 25; 8; 8; 8; 8; 8; 25];
  [8; 25; 8; 8; 43; 8; 8; 25; 8; 25; 8; 8; 8; 43; 8; 25; 8; 25; 8; 8; 8; 25; 25; 25; 8; 25; 8; 43];
  [43; 25; 25; 25; 8; 25; 8; 8; 8; 8; 43; 25; 8; 25; 8; 8; 25; 43; 8; 43; 8; 25; 8; 25; 25; 8; 25];
  [43; 8; 25; 8; 8; 8; 8; 8; 8; 25; 25; 8; 8; 43; 8; 8; 8; 25; 25; 8; 8; 8; 43; 8; 8; 25; 25; 8];
  [25; 25; 43; 8; 8; 25; 25; 8; 25; 43; 8; 25; 8; 25; 25; 8; 8; 8; 8; 43; 8; 25; 25; 8; 8; 43; 25];
  [8; 25; 25; 25; 8; 43; 8; 43; 25; 25; 25; 25; 8; 8; 8; 8; 8; 43; 25; 25; 8; 43; 25; 25; 8; 43];
  [25; 25; 8; 25; 8; 8; 8; 8; 43; 25; 8; 8; 25; 8; 8; 8; 43; 25; 8; 8; 8; 25; 8; 8; 43; 25; 8; 8];
  [8; 8; 25; 8; 43; 25; 8; 25; 8; 8; 43; 8; 43; 25; 8; 8; 8; 8; 8; 25; 43; 25; 8; 25; 25; 8; 8];
  [25; 43; 25; 8; 8; 8; 43; 43; 25; 43; 25; 8; 25; 8; 25; 25; 43; 43; 25; 8; 8; 8; 8; 8; 8; 8; 43];
  [8; 43; 8; 8; 8; 8; 8; 43; 8; 43; 43; 8; 8; 8; 8; 43; 8; 8; 25; 8; 25; 8; 8; 43; 8; 25; 8; 43];
  [25; 8; 8; 43; 8; 8; 8; 8; 43; 8; 8; 43; 8; 43; 8; 8; 43; 8; 8; 43; 8; 25; 43; 43; 8; 25; 8; 43];
  [8; 8; 43; 8; 25; 25; 8; 43; 8; 8; 8; 8; 8; 43; 8; 43; 8; 43; 8; 8; 8; 43; 8; 43; 8; 25; 8; 8];
  [8; 8; 25; 43; 8; 8; 25; 8; 8; 8; 25; 43; 8; 8; 8; 25; 8; 8; 25; 43; 8; 8; 8; 8; 25; 8; 25; 43];
  [8; 43; 25; 25; 25; 8; 25; 43; 8; 8; 8; 8; 8; 25; 25; 43; 8; 25; 8; 8; 25; 25; 25; 43; 8; 8; 25];
  [43; 25; 25; 25; 43; 8; 8; 8; 25; 43; 43; 25; 43; 8; 8; 43; 8; 8; 8; 43; 43; 8; 8; 8; 43; 8; 8];
  [43; 43; 8; 8; 25; 25; 43; 8; 43; 43; 8; 8; 25; 8; 25; 43; 43; 43; 8; 25; 8; 8; 8; 8; 8; 8; 25];
  [8; 25; 8; 8; 8; 8; 8; 25; 8; 8; 25; 8; 8; 8; 8; 25; 8; 43; 25; 8; 8; 8; 8; 25; 25; 8; 43; 8; 8];
  [8; 8; 25; 8; 25; 43; 8; 8; 8; 8; 25; 8; 8; 8; 25; 8; 8; 8; 25; 8; 43; 8; 25; 8; 8; 8; 25; 43];
  [25; 25; 25; 8; 8; 8; 25; 8; 8; 43; 25; 8; 8; 8; 25; 25; 8; 8; 43; 8; 8; 8; 25; 8; 25; 8; 43; 8];
  [8; 8; 25; 8; 8; 25; 43; 8; 8; 8; 25; 8; 8; 8; 8; 25; 8; 8; 25; 8; 8; 43; 8; 25; 8; 8; 25; 25];
  [8; 43; 25; 25; 8; 8; 25; 8; 8; 8; 43; 25; 8; 8; 25; 25; 25; 8; 43; 25; 8; 8; 25; 25; 8; 8; 8];
  [43; 8; 8; 25; 8; 8; 25; 8; 43; 8; 8; 25; 8; 43; 8; 25; 43; 8; 8; 25; 43; 25; 25; 25; 43; 8; 8];
  [25; 8; 43; 43; 25; 43; 8; 8; 25; 8; 8; 8; 8; 8; 25; 8; 25; 8; 43; 8; 8; 8; 25; 8; 25; 8; 8; 43];
  [8; 8; 25; 8; 25; 8; 8; 8; 43; 8; 25; 8; 25; 25; 43; 25; 43; 8; 25; 8; 25; 43; 8; 25; 8; 25; 25];
  [8; 25; 8; 25; 43; 8; 25; 25; 8; 25; 8; 8; 8; 8; 43; 25; 8; 25; 25; 8; 8; 8; 8; 43; 8; 25; 8];
  [25; 8; 8; 8; 43; 8; 25; 8; 8; 25; 8; 8; 43; 8; 25; 8; 8; 8; 25; 8; 43; 8; 25; 25; 25; 8; 25; 8];
  [43; 8; 25; 8; 8; 8; 8; 25; 43; 8; 25; 8; 43; 25; 25; 25; 43; 8; 25; 25; 8; 43; 25; 25; 43; 8];
  [25; 43; 8; 8; 43; 25; 43; 8; 25; 25; 25; 8; 25; 43; 43; 8; 25; 8; 8; 25; 43; 43; 43; 8; 25; 8];
  [8; 8; 8; 8; 8; 25; 25; 8; 43; 8; 8; 8; 8; 25; 25; 25; 8; 25; 8; 8; 8; 25; 25; 25; 43; 25; 8; 8];
  [8; 25; 25; 8; 8; 43; 8; 8; 8; 25; 25; 8; 8; 8; 43; 8; 8; 25; 25; 8; 43; 8; 43; 8; 8; 25; 25; 8];
  [25; 8; 8; 25; 8; 25; 25; 43; 8; 8; 25; 25; 8; 25; 25; 8; 25; 43; 43; 25; 8; 25; 25; 25; 8; 25];
  [43; 43; 8; 25; 25; 8; 8; 25; 43; 8; 25; 25; 25; 43; 8; 25; 43; 8; 25; 25; 25; 43; 43; 8; 8; 25];
  [25; 25; 25; 25; 8; 8; 8; 43; 25; 25; 25; 8; 25; 25; 25; 43; 25; 25; 25; 8; 8; 8; 8; 8; 43; 25];
  [25; 25; 8; 25; 8; 8; 43; 25; 25; 25; 43; 25; 8; 8; 43; 25; 25; 8; 25; 43; 25; 8; 43; 25; 25; 8];
  [8; 8; 25; 25; 43; 25; 25; 8; 43; 8; 8; 43; 43; 25; 25; 8; 25; 8; 8; 8; 8; 43; 25; 8; 8; 25; 8];
  [8; 8; 43; 25; 8; 8; 8; 25; 8; 8; 43; 25; 8; 43; 43; 25; 8; 8; 43; 25; 8; 8; 8; 8; 25; 8; 43];
  [25; 25; 25; 25; 25; 25; 8; 43; 25; 8; 43; 25; 8; 43; 8; 43; 25; 8; 8; 43; 25; 43; 8; 43; 25; 8];
  [8; 8; 8; 8; 25; 43; 25; 25; 25; 8; 8; 8; 25; 43; 25; 8; 8; 25; 8; 25; 25; 43; 25; 43; 8; 25; 8];
  [25; 25; 43; 25; 8; 25; 8; 43; 25; 25; 43; 25; 43; 8; 8; 25; 8; 43; 43; 25; 8; 8; 8; 8; 8; 8; 8];
  [43; 43; 8; 8; 8; 8; 8; 8; 43; 43; 43; 8; 8; 8; 8; 8; 43; 25; 8; 8; 25; 8; 8; 8; 43; 43; 8; 8];
  [43; 8; 8; 8; 43; 8; 25; 8; 8; 25; 8; 8; 43; 8; 43; 25; 8; 25; 8; 8; 43; 8; 8; 8; 25; 25; 8; 8];
  [43; 25; 8; 25; 8; 43; 8; 8; 43; 25; 8; 8; 8; 8; 25; 8; 43; 8; 25; 8; 8; 8; 25; 8; 43; 8; 8; 25];
  [8; 8; 25; 8; 43; 25; 25; 25; 8; 8; 25; 8; 43; 8; 8; 8; 25; 8; 25; 8; 43; 8; 8; 43; 25; 8; 25];
  [8; 43; 8; 8; 8; 8; 25; 25; 8; 43; 43; 25; 8; 25; 25; 25; 8; 43; 8; 25; 25; 43; 25; 25; 8; 43];
  [25; 43; 8; 8; 43; 25; 8; 43; 8; 8; 8; 25; 43; 25; 8; 43; 8; 8; 43; 25; 43; 25; 8; 43; 43; 8; 8];
  [8; 8; 43; 8; 43; 8; 25; 8; 8; 25; 43; 8; 43; 25; 8; 25; 8; 43; 43; 8; 43; 8; 25; 8; 8; 8; 8];
  [25; 43; 8; 8; 25; 8; 8; 8; 25; 43; 8; 25; 43; 8; 8; 8; 25; 43; 8; 8; 8; 25; 8; 8; 25; 43; 25];
  [8; 43; 43; 8; 8; 25; 43; 43; 25; 25; 8; 25; 8; 25; 43; 8; 8; 8; 43; 25; 8; 25; 43; 25; 25; 8];
  [25; 43; 8; 25; 43; 8; 8; 8; 8; 8; 25; 25; 43; 43; 8; 43; 8; 8; 25; 25; 43; 8; 25; 8; 25; 8; 25];
  [25; 43; 25; 8; 25; 25; 25; 25; 25; 43; 25; 8; 8; 43; 8; 43; 25; 43; 8; 8; 43; 8; 25; 43; 25];
  [43; 43; 8; 8; 8; 8; 8; 43; 43; 8; 8; 25; 25; 8; 8; 43; 43; 25; 25; 8; 43; 8; 8; 43; 43; 25; 43];
  [8; 8; 25; 8; 43; 43; 8; 8; 8; 8; 43; 8; 43; 43; 8; 43; 25; 8; 8; 25; 43; 43; 8; 8; 25; 25; 8];
  [43; 43; 43; 8; 25; 8; 8; 25; 43; 43; 43]].

Definition IQ2_XS_GRID : list Z := concat [
  [8; 8; 8; 8; 8; 8; 8; 8; 43; 8; 8; 8; 8; 8; 8; 8; 25; 25; 8; 8; 8; 8; 8; 8; 8; 43; 8; 8; 8; 8];
  [8; 8; 43; 43; 8; 8; 8; 8; 8; 8; 25; 8; 25; 8; 8; 8; 8; 8; 8; 25; 25; 8; 8; 8; 8; 8; 43; 25; 25];
  [8; 8; 8; 8; 8; 25; 43; 25; 8; 8; 8; 8; 8; 8; 8; 43; 8; 8; 8; 8; 8; 43; 8; 43; 8; 8; 8; 8; 8];
  [25; 25; 43; 8; 8; 8; 8; 8; 8; 43; 43; 8; 8; 8; 8; 8; 25; 8; 8; 25; 8; 8; 8; 8; 8; 25; 8; 25; 8];
  [8; 8; 8; 43; 25; 8; 25; 8; 8; 8; 8; 25; 43; 8; 25; 8; 8; 8; 8; 8; 8; 25; 25; 8; 8; 8; 8; 43; 8];
  [25; 25; 8; 8; 8; 8; 25; 25; 25; 25; 8; 8; 8; 8; 8; 43; 25; 25; 8; 8; 8; 8; 25; 8; 43; 25; 8; 8];
  [8; 8; 8; 25; 43; 25; 8; 8; 8; 8; 8; 8; 8; 43; 8; 8; 8; 8; 43; 8; 8; 43; 8; 8; 8; 8; 25; 25; 8];
  [43; 8; 8; 8; 8; 8; 43; 8; 43; 8; 8; 8; 8; 25; 8; 25; 43; 8; 8; 8; 8; 8; 25; 25; 43; 8; 8; 8; 8];
  [25; 43; 25; 43; 8; 8; 8; 8; 8; 8; 43; 43; 8; 8; 8; 8; 25; 8; 8; 8; 25; 8; 8; 8; 8; 25; 8; 8];
  [25; 8; 8; 8; 43; 25; 8; 8; 25; 8; 8; 8; 25; 43; 8; 8; 25; 8; 8; 8; 8; 8; 25; 8; 25; 8; 8; 8];
  [43; 8; 25; 8; 25; 8; 8; 8; 25; 25; 25; 8; 25; 8; 8; 8; 8; 43; 25; 8; 25; 8; 8; 8; 43; 43; 25];
  [8; 25; 8; 8; 8; 25; 8; 43; 8; 25; 8; 8; 8; 8; 25; 43; 8; 25; 8; 8; 8; 8; 8; 8; 25; 25; 8; 8; 8];
  [43; 8; 8; 25; 25; 8; 8; 8; 25; 25; 8; 25; 25; 8; 8; 8; 8; 43; 8; 25; 25; 8; 8; 8; 25; 8; 25];
  [25; 25; 8; 8; 8; 8; 25; 25; 25; 25; 8; 8; 8; 8; 8; 43; 25; 25; 8; 8; 8; 8; 43; 43; 25; 25; 8];
  [8; 8; 25; 8; 8; 43; 25; 8; 8; 8; 8; 25; 8; 43; 25; 8; 8; 8; 8; 8; 25; 43; 25; 8; 8; 8; 8; 8; 8];
  [8; 43; 8; 8; 8; 43; 8; 8; 8; 43; 8; 8; 8; 25; 25; 8; 8; 43; 8; 8; 8; 8; 43; 8; 8; 43; 8; 8; 8];
  [25; 8; 25; 8; 43; 8; 8; 8; 8; 25; 25; 8; 43; 8; 8; 8; 8; 8; 43; 8; 43; 8; 8; 8; 25; 8; 8; 25];
  [43; 8; 8; 8; 8; 25; 8; 25; 43; 8; 8; 8; 8; 8; 25; 25; 43; 8; 8; 8; 25; 25; 25; 25; 43; 8; 8; 8];
  [8; 8; 8; 43; 43; 8; 8; 8; 43; 43; 8; 43; 43; 8; 8; 8; 25; 8; 8; 8; 8; 25; 8; 8; 8; 25; 8; 8; 8];
  [25; 8; 8; 43; 25; 8; 8; 8; 25; 8; 8; 25; 43; 8; 8; 8; 25; 8; 8; 8; 8; 25; 8; 8; 25; 8; 8; 43];
  [8; 25; 8; 8; 25; 8; 8; 25; 25; 25; 8; 8; 25; 8; 8; 8; 43; 25; 8; 8; 25; 8; 8; 25; 8; 43; 8; 8];
  [25; 8; 8; 8; 25; 43; 8; 8; 25; 8; 8; 8; 8; 8; 25; 8; 25; 8; 8; 43; 8; 8; 25; 8; 25; 8; 8; 25];
  [25; 8; 25; 8; 25; 8; 8; 8; 43; 8; 25; 8; 25; 8; 8; 25; 8; 25; 25; 8; 25; 8; 8; 8; 25; 25; 25];
  [8; 25; 8; 8; 43; 25; 25; 25; 8; 25; 8; 8; 8; 8; 43; 25; 8; 25; 8; 8; 25; 8; 8; 43; 8; 25; 8; 8];
  [8; 25; 8; 43; 8; 25; 8; 8; 8; 8; 25; 43; 8; 25; 8; 8; 8; 8; 8; 8; 25; 25; 8; 8; 43; 8; 8; 8];
  [25; 25; 8; 8; 25; 25; 8; 8; 25; 25; 8; 8; 8; 43; 8; 8; 25; 25; 8; 8; 25; 8; 25; 8; 25; 25; 8];
  [8; 8; 25; 25; 8; 25; 25; 8; 8; 8; 8; 43; 8; 25; 25; 8; 8; 25; 8; 8; 25; 25; 25; 8; 8; 8; 25; 8];
  [25; 25; 25; 8; 8; 8; 8; 25; 25; 25; 25; 8; 8; 25; 8; 43; 25; 25; 25; 8; 8; 8; 8; 8; 43; 25; 25];
  [8; 8; 25; 8; 8; 8; 43; 25; 8; 8; 8; 25; 8; 8; 43; 25; 8; 8; 8; 8; 25; 8; 43; 25; 8; 8; 43; 25];
  [43; 8; 43; 25; 8; 8; 8; 8; 8; 25; 43; 25; 8; 8; 43; 8; 8; 25; 43; 25; 8; 8; 8; 25; 8; 43; 43];
  [25; 8; 8; 8; 8; 8; 8; 8; 43; 8; 8; 43; 8; 8; 8; 8; 43; 8; 8; 25; 25; 8; 8; 8; 43; 8; 8; 8; 43];
  [8; 8; 8; 43; 8; 8; 43; 43; 8; 8; 8; 43; 8; 8; 25; 8; 25; 8; 8; 43; 8; 8; 8; 25; 25; 8; 8; 43];
  [8; 8; 8; 8; 43; 8; 8; 43; 8; 8; 25; 25; 43; 8; 8; 43; 8; 8; 25; 8; 8; 25; 8; 43; 8; 8; 8; 25];
  [8; 25; 8; 43; 8; 8; 8; 8; 25; 25; 8; 43; 8; 8; 8; 43; 25; 25; 8; 43; 8; 8; 8; 8; 8; 43; 8; 43];
  [8; 8; 8; 8; 43; 43; 8; 43; 8; 8; 43; 43; 43; 43; 8; 43; 8; 8; 25; 8; 8; 8; 25; 43; 8; 8; 8; 25];
  [8; 8; 25; 43; 8; 8; 8; 8; 25; 8; 25; 43; 8; 8; 8; 8; 8; 25; 25; 43; 8; 8; 25; 8; 8; 43; 25; 43];
  [8; 8; 25; 43; 8; 43; 25; 43; 8; 8; 8; 8; 8; 8; 43; 43; 8; 8; 8; 8; 43; 8; 43; 43; 8; 8; 8; 43];
  [43; 8; 43; 43; 8; 8; 43; 25; 25; 43; 43; 43; 8; 8; 8; 8; 43; 43; 43; 43; 8; 8; 25; 8; 8; 8; 8];
  [8; 25; 8; 8; 25; 8; 8; 8; 8; 25; 8; 43; 25; 8; 8; 8; 8; 25; 8; 25; 43; 8; 8; 8; 8; 25; 8; 8; 8];
  [25; 8; 8; 8; 25; 8; 43; 8; 25; 8; 8; 8; 25; 8; 25; 25; 25; 8; 8; 8; 25; 8; 8; 43; 25; 8; 8; 8];
  [25; 8; 25; 8; 43; 8; 8; 8; 25; 8; 8; 25; 43; 8; 8; 8; 25; 8; 8; 8; 8; 25; 8; 8; 25; 8; 43; 8];
  [8; 25; 8; 8; 25; 8; 25; 25; 8; 25; 8; 8; 25; 8; 8; 43; 8; 25; 8; 8; 25; 8; 25; 8; 25; 25; 8; 8];
  [25; 8; 8; 25; 25; 25; 8; 8; 25; 8; 8; 8; 43; 25; 8; 8; 25; 8; 43; 43; 43; 25; 8; 8; 25; 8; 25];
  [8; 8; 43; 8; 8; 25; 8; 8; 25; 8; 43; 8; 8; 25; 8; 8; 8; 25; 43; 8; 8; 25; 8; 8; 8; 8; 8; 25; 8];
  [25; 8; 43; 8; 8; 8; 25; 8; 25; 8; 25; 25; 8; 8; 25; 8; 25; 8; 8; 43; 8; 8; 25; 8; 25; 8; 25; 8];
  [25; 8; 25; 8; 25; 8; 8; 25; 25; 8; 25; 8; 25; 8; 8; 8; 43; 8; 25; 8; 25; 8; 25; 8; 8; 25; 25];
  [8; 25; 8; 8; 25; 8; 25; 25; 8; 25; 8; 8; 8; 25; 25; 25; 8; 25; 8; 8; 8; 8; 43; 25; 8; 25; 8; 8];
  [25; 25; 43; 25; 8; 25; 8; 43; 25; 25; 43; 25; 8; 25; 8; 25; 8; 8; 8; 43; 8; 25; 8; 8; 25; 8; 8];
  [43; 8; 25; 8; 43; 25; 8; 8; 43; 8; 25; 8; 8; 8; 25; 8; 43; 8; 25; 8; 8; 8; 8; 25; 43; 8; 25; 8];
  [8; 8; 43; 25; 43; 8; 25; 8; 8; 8; 8; 8; 8; 25; 25; 8; 43; 8; 8; 8; 8; 25; 25; 8; 25; 25; 8; 8];
  [8; 25; 25; 8; 8; 43; 8; 8; 8; 25; 25; 8; 25; 8; 25; 8; 8; 25; 25; 8; 8; 25; 25; 8; 8; 25; 25];
  [8; 8; 8; 43; 8; 8; 25; 25; 8; 25; 8; 8; 25; 8; 25; 25; 8; 8; 25; 8; 25; 8; 25; 25; 8; 25; 43];
  [8; 25; 8; 25; 25; 8; 8; 8; 25; 25; 8; 25; 25; 8; 8; 25; 43; 25; 8; 25; 25; 8; 8; 8; 8; 43; 8];
  [25; 25; 8; 25; 8; 8; 8; 25; 25; 25; 8; 8; 25; 8; 8; 25; 25; 25; 8; 8; 8; 25; 8; 25; 25; 25; 8];
  [8; 8; 8; 25; 25; 25; 25; 8; 8; 8; 8; 8; 43; 25; 25; 8; 8; 25; 25; 8; 43; 25; 25; 8; 25; 43; 8];
  [25; 43; 25; 25; 8; 25; 8; 8; 8; 8; 43; 25; 8; 8; 25; 8; 8; 8; 43; 25; 8; 8; 8; 25; 8; 8; 43];
  [25; 8; 43; 8; 25; 8; 8; 43; 25; 8; 8; 8; 8; 25; 8; 43; 25; 8; 8; 25; 25; 25; 8; 43; 25; 8; 43];
  [25; 8; 43; 8; 43; 25; 8; 8; 8; 8; 8; 25; 43; 25; 8; 25; 25; 8; 8; 25; 43; 25; 8; 43; 25; 43];
  [25; 25; 43; 25; 8; 25; 8; 25; 25; 43; 43; 25; 8; 25; 43; 43; 43; 43; 43; 25; 8; 8; 8; 8; 8; 8];
  [8; 43; 8; 43; 8; 8; 8; 8; 8; 43; 8; 25; 25; 8; 8; 8; 8; 43; 8; 8; 43; 8; 8; 8; 8; 43; 8; 43];
  [43; 8; 8; 8; 8; 43; 8; 25; 8; 25; 8; 8; 8; 43; 8; 8; 25; 25; 8; 8; 8; 43; 8; 8; 8; 43; 8; 8; 8];
  [43; 8; 25; 8; 8; 25; 8; 8; 43; 8; 8; 25; 8; 25; 8; 8; 43; 8; 8; 8; 25; 25; 8; 8; 43; 8; 8; 8];
  [8; 43; 8; 8; 43; 8; 8; 8; 43; 43; 8; 8; 43; 8; 25; 8; 8; 8; 25; 8; 43; 8; 8; 25; 8; 8; 25; 8];
  [43; 8; 8; 8; 25; 8; 25; 8; 43; 8; 8; 8; 8; 25; 25; 8; 43; 8; 8; 43; 8; 25; 25; 8; 43; 8; 25];
  [25; 43; 25; 25; 8; 43; 8; 8; 8; 8; 8; 43; 8; 43; 8; 43; 8; 43; 8; 43; 8; 43; 8; 8; 8; 8; 43];
  [43; 8; 43; 8; 8; 43; 43; 43; 43; 8; 43; 8; 25; 8; 8; 8; 8; 25; 43; 8; 8; 25; 8; 8; 8; 25; 43];
  [8; 8; 8; 25; 8; 8; 25; 43; 8; 25; 43; 43; 8; 8; 25; 43; 8; 8; 8; 8; 25; 8; 25; 43; 8; 8; 8; 8];
  [8; 25; 25; 43; 8; 25; 8; 8; 25; 25; 25; 43; 8; 43; 8; 25; 25; 25; 25; 43; 8; 25; 43; 25; 43];
  [25; 25; 43; 8; 25; 8; 8; 8; 43; 25; 43; 8; 43; 43; 25; 8; 43; 25; 43; 8; 43; 25; 43; 43; 43];
  [25; 43; 8; 8; 8; 8; 8; 8; 43; 43; 8; 8; 43; 8; 8; 8; 43; 43; 8; 43; 43; 8; 8; 8; 43; 43; 8; 8];
  [8; 43; 8; 8; 43; 43; 8; 25; 25; 25; 25; 8; 43; 43; 8; 8; 43; 8; 43; 8; 43; 43; 8; 43; 8; 43];
  [43; 8; 43; 43; 8; 8; 43; 43; 25; 25; 43; 43; 8; 8; 8; 25; 43; 25; 43; 43; 8; 8; 43; 8; 8; 43];
  [43; 43; 8; 8; 8; 43; 8; 43; 43; 43; 8; 43; 8; 8; 43; 43; 43; 43; 8; 8; 43; 8; 43; 43; 43; 43];
  [8; 43; 43; 8; 43; 43; 43; 43; 8; 25; 8; 8; 8; 8; 8; 8; 25; 8; 25; 8; 8; 8; 8; 8; 25; 43; 25; 8];
  [8; 8; 8; 8; 25; 25; 43; 8; 8; 8; 8; 8; 25; 8; 8; 25; 8; 8; 8; 8; 25; 43; 8; 25; 8; 8; 8; 8; 25];
  [25; 25; 25; 8; 8; 8; 8; 25; 8; 43; 25; 8; 8; 8; 8; 25; 25; 8; 43; 8; 8; 8; 8; 25; 8; 25; 43; 8];
  [8; 8; 8; 25; 8; 8; 8; 25; 8; 8; 8; 25; 43; 8; 8; 25; 8; 8; 8; 25; 25; 25; 8; 25; 8; 8; 8; 25];
  [8; 43; 8; 25; 8; 8; 8; 25; 43; 43; 8; 25; 8; 8; 8; 25; 25; 8; 25; 25; 8; 8; 8; 25; 8; 25; 25];
  [25; 8; 8; 8; 25; 8; 8; 43; 25; 8; 8; 8; 25; 25; 25; 43; 25; 8; 8; 8; 25; 25; 8; 8; 43; 8; 8; 8];
  [25; 8; 25; 8; 43; 8; 8; 8; 25; 8; 8; 25; 43; 8; 8; 8; 25; 8; 8; 8; 8; 25; 8; 8; 25; 43; 8; 8];
  [8; 25; 8; 8; 25; 25; 25; 8; 8; 25; 8; 8; 25; 8; 43; 8; 8; 25; 8; 8; 25; 25; 8; 25; 8; 25; 8; 8];
  [25; 8; 25; 25; 8; 25; 8; 8; 25; 8; 8; 43; 8; 25; 8; 8; 25; 25; 8; 8; 25; 25; 8; 8; 25; 8; 25];
  [8; 25; 25; 8; 8; 25; 8; 8; 25; 25; 25; 8; 8; 25; 8; 8; 8; 43; 25; 8; 8; 25; 25; 25; 8; 43; 25];
  [8; 8; 25; 43; 8; 43; 43; 25; 8; 8; 25; 25; 8; 8; 8; 43; 8; 8; 25; 8; 25; 8; 8; 43; 8; 8; 25; 8];
  [8; 25; 8; 43; 8; 8; 25; 43; 8; 25; 8; 43; 8; 8; 25; 25; 43; 43; 8; 43; 8; 8; 25; 8; 8; 8; 25];
  [43; 8; 8; 25; 8; 8; 8; 8; 8; 25; 8; 25; 43; 8; 8; 8; 8; 25; 8; 25; 25; 25; 8; 8; 8; 25; 8; 25];
  [8; 43; 8; 8; 8; 25; 8; 25; 25; 8; 25; 8; 8; 25; 8; 25; 8; 25; 25; 8; 8; 25; 8; 25; 25; 43; 25];
  [8; 8; 25; 8; 25; 8; 8; 43; 8; 8; 25; 8; 25; 25; 8; 8; 25; 8; 25; 8; 25; 8; 25; 8; 25; 8; 25; 8];
  [25; 8; 8; 25; 25; 8; 25; 8; 25; 8; 8; 8; 43; 8; 25; 8; 25; 8; 25; 25; 43; 8; 25; 8; 25; 25; 8];
  [8; 8; 25; 25; 8; 25; 8; 25; 8; 8; 25; 25; 8; 25; 8; 8; 25; 8; 25; 25; 8; 25; 8; 25; 43; 8; 25];
  [25; 8; 25; 8; 8; 8; 25; 25; 25; 8; 25; 43; 43; 25; 43; 25; 25; 8; 25; 8; 8; 8; 8; 43; 25; 8];
  [25; 43; 43; 8; 8; 43; 25; 8; 25; 8; 25; 8; 25; 43; 25; 8; 25; 8; 8; 25; 25; 43; 25; 8; 25; 25];
  [8; 8; 8; 8; 43; 8; 25; 8; 25; 8; 8; 8; 43; 8; 25; 8; 8; 25; 8; 8; 43; 8; 25; 8; 8; 8; 25; 8];
  [43; 8; 25; 25; 25; 8; 25; 8; 43; 8; 25; 8; 25; 25; 25; 8; 43; 8; 25; 43; 8; 43; 25; 8; 43; 8];
  [25; 8; 8; 8; 8; 25; 43; 8; 25; 25; 8; 25; 8; 25; 43; 8; 25; 8; 25; 8; 25; 25; 43; 8; 25; 8; 8];
  [25; 25; 25; 43; 8; 25; 25; 43; 43; 25; 25; 43; 8; 25; 8; 25; 8; 8; 43; 43; 8; 25; 8; 8; 8; 8];
  [8; 8; 25; 25; 43; 8; 8; 8; 8; 8; 25; 25; 25; 25; 8; 8; 8; 8; 25; 25; 8; 43; 8; 8; 8; 8; 25; 25];
  [25; 8; 25; 8; 8; 8; 25; 25; 8; 25; 25; 8; 8; 8; 25; 25; 8; 8; 43; 8; 8; 8; 25; 25; 8; 43; 43];
  [8; 8; 8; 25; 25; 25; 8; 8; 25; 8; 8; 25; 25; 8; 25; 8; 25; 8; 8; 25; 25; 8; 8; 25; 25; 8; 8];
  [25; 25; 8; 8; 8; 43; 8; 8; 25; 25; 25; 8; 8; 8; 25; 8; 25; 25; 8; 25; 8; 8; 25; 8; 25; 25; 8];
  [8; 25; 8; 25; 8; 25; 25; 25; 25; 25; 8; 25; 8; 25; 25; 8; 8; 8; 25; 25; 8; 25; 25; 43; 8; 8];
  [25; 25; 8; 25; 25; 8; 8; 8; 8; 43; 8; 25; 25; 8; 25; 8; 25; 43; 8; 25; 25; 43; 43; 43; 43; 43];
  [8; 25; 25; 25; 8; 8; 8; 8; 25; 25; 25; 8; 25; 8; 8; 8; 25; 25; 25; 8; 8; 25; 8; 8; 25; 25; 25];
  [25; 8; 43; 8; 8; 25; 25; 25; 8; 8; 8; 25; 8; 25; 25; 25; 8; 8; 43; 25; 8; 25; 25; 25; 25; 8; 8];
  [43; 8; 25; 25; 25; 25; 8; 43; 43; 8; 25; 25; 25; 8; 8; 8; 8; 25; 25; 25; 25; 8; 43; 8; 8; 25];
  [25; 25; 25; 8; 8; 8; 43; 25; 25; 25; 25; 8; 43; 8; 43; 25; 25; 25; 25; 25; 8; 43; 8; 43; 25];
  [25; 25; 8; 43; 43; 25; 43; 25; 25; 25; 25; 8; 43; 43; 43; 25; 25; 25; 8; 8; 8; 8; 8; 43; 25];
  [25; 8; 25; 25; 8; 8; 43; 25; 25; 25; 8; 8; 25; 8; 43; 25; 25; 8; 8; 25; 25; 8; 43; 25; 25; 25];
  [43; 25; 43; 8; 43; 25; 25; 43; 43; 25; 8; 25; 43; 25; 25; 8; 8; 8; 25; 25; 43; 25; 25; 43; 8];
  [8; 25; 25; 43; 25; 25; 25; 25; 8; 43; 43; 43; 25; 25; 25; 8; 8; 8; 8; 8; 43; 25; 8; 25; 8; 8];
  [8; 8; 43; 25; 8; 8; 25; 8; 8; 8; 43; 25; 8; 8; 8; 25; 8; 8; 43; 25; 8; 25; 25; 25; 8; 8; 43];
  [25; 43; 8; 43; 25; 8; 8; 43; 25; 43; 25; 8; 43; 8; 8; 43; 25; 25; 43; 43; 43; 8; 8; 43; 25; 8];
  [8; 8; 8; 25; 8; 43; 25; 8; 25; 43; 8; 43; 8; 43; 25; 43; 43; 8; 25; 43; 8; 43; 25; 43; 8; 25];
  [43; 43; 8; 43; 25; 8; 8; 8; 8; 8; 25; 43; 25; 43; 25; 25; 8; 8; 25; 43; 25; 8; 8; 25; 8; 25];
  [25; 43; 25; 8; 8; 8; 25; 25; 25; 43; 25; 25; 25; 8; 25; 25; 25; 43; 25; 8; 25; 43; 43; 25; 25];
  [43; 25; 25; 8; 8; 8; 8; 43; 43; 25; 43; 43; 43; 25; 8; 43; 43; 25; 25; 25; 43; 8; 25; 43; 43];
  [25; 43; 25; 8; 8; 43; 43; 43; 25; 8; 25; 25; 25; 43; 43; 43; 25; 43; 8; 43; 25; 43; 43; 43; 25];
  [8; 8; 8; 8; 8; 8; 8; 43; 43; 8; 8; 8; 8; 8; 8; 43; 25; 25; 8; 8; 8; 8; 8; 43; 8; 43; 8; 8; 8];
  [8; 8; 43; 25; 8; 25; 8; 8; 8; 8; 43; 8; 25; 25; 8; 8; 8; 8; 43; 8; 8; 43; 8; 8; 8; 8; 43; 43];
  [43; 43; 8; 8; 8; 8; 43; 25; 8; 8; 25; 8; 8; 8; 43; 8; 25; 8; 25; 8; 8; 8; 43; 8; 8; 25; 25; 8];
  [8; 8; 43; 8; 8; 8; 43; 8; 8; 8; 43; 43; 8; 8; 43; 8; 8; 8; 43; 8; 43; 43; 43; 8; 8; 8; 43; 43];
  [43; 43; 43; 8; 8; 8; 43; 25; 8; 8; 8; 25; 8; 8; 43; 8; 25; 8; 8; 25; 8; 8; 43; 43; 25; 8; 8];
  [25; 8; 8; 43; 8; 8; 25; 8; 25; 8; 8; 43; 8; 8; 8; 25; 25; 8; 8; 43; 25; 8; 25; 25; 25; 8; 8];
  [43; 25; 43; 25; 25; 25; 8; 8; 43; 8; 8; 8; 8; 43; 8; 8; 43; 8; 8; 43; 8; 43; 8; 8; 43; 8; 8; 8];
  [43; 43; 8; 8; 43; 43; 8; 8; 43; 43; 8; 8; 43; 8; 8; 43; 43; 43; 8; 8; 43; 8; 43; 43; 43; 43; 8];
  [8; 43; 25; 8; 8; 8; 8; 25; 8; 43; 8; 25; 8; 8; 8; 25; 8; 43; 8; 8; 25; 8; 8; 25; 8; 43; 43; 8];
  [25; 8; 8; 25; 8; 43; 25; 25; 25; 8; 8; 25; 8; 43; 8; 8; 8; 25; 8; 25; 8; 43; 8; 8; 43; 25; 8];
  [25; 8; 43; 25; 43; 8; 43; 8; 25; 8; 43; 8; 8; 8; 8; 25; 25; 8; 43; 8; 25; 8; 25; 25; 25; 8; 43];
  [25; 25; 43; 43; 25; 25; 8; 43; 8; 43; 25; 8; 43; 25; 8; 43; 43; 43; 43; 25; 43; 25; 8; 43; 8];
  [8; 8; 8; 8; 43; 8; 43; 8; 43; 8; 8; 8; 43; 8; 43; 25; 25; 43; 8; 8; 43; 8; 43; 43; 43; 25; 25];
  [8; 43; 8; 43; 8; 8; 8; 43; 8; 43; 8; 43; 43; 8; 8; 43; 8; 43; 8; 43; 8; 43; 43; 43; 8; 43; 8];
  [43; 43; 25; 8; 8; 25; 43; 8; 43; 43; 8; 43; 8; 43; 43; 8; 43; 8; 8; 8; 43; 43; 43; 8; 43; 8];
  [43; 8; 43; 43; 43; 8; 43; 43; 25; 25; 43; 43; 43; 8; 43; 8; 43; 43; 43; 43; 43; 8; 43; 25; 8];
  [8; 8; 8; 8; 25; 43; 8; 25; 8; 8; 8; 8; 25; 43; 8; 8; 25; 8; 8; 8; 25; 43; 8; 8; 8; 25; 8; 8];
  [25; 43; 43; 25; 25; 25; 8; 8; 25; 43; 8; 25; 8; 43; 8; 8; 25; 43; 8; 8; 8; 8; 25; 8; 25; 43];
  [43; 8; 43; 8; 25; 8; 25; 43; 8; 25; 43; 25; 25; 8; 25; 43; 43; 25; 25; 25; 43; 8; 25; 43; 25];
  [43; 8; 43; 43; 8; 25; 43; 8; 8; 8; 8; 8; 25; 25; 43; 25; 25; 8; 8; 8; 25; 25; 43; 8; 25; 8; 25];
  [8; 25; 25; 43; 8; 8; 25; 25; 8; 25; 25; 43; 8; 43; 25; 25; 8; 25; 25; 43; 25; 43; 43; 8; 25];
  [25; 25; 43; 8; 8; 25; 43; 25; 25; 25; 43; 43; 8; 25; 43; 25; 25; 25; 43; 25; 8; 8; 25; 43; 25];
  [25; 43; 25; 8; 25; 25; 8; 43; 25; 43; 43; 25; 43; 43; 8; 43; 25; 43; 25; 43; 8; 25; 25; 43; 25];
  [43; 25; 25; 25; 8; 43; 43; 25; 43; 8; 8; 43; 25; 43; 43; 25; 43; 8; 8; 8; 8; 8; 8; 43; 43; 43];
  [8; 8; 8; 8; 8; 43; 43; 8; 43; 8; 8; 8; 8; 43; 43; 43; 43; 8; 8; 8; 8; 43; 43; 8; 8; 43; 8; 8];
  [8; 43; 43; 43; 43; 43; 8; 8; 8; 43; 43; 8; 8; 43; 43; 8; 8; 43; 43; 25; 8; 25; 25; 25; 8; 43];
  [43; 25; 43; 25; 25; 25; 8; 43; 43; 43; 25; 43; 43; 25; 8; 43; 43; 8; 8; 8; 8; 43; 8; 43; 43];
  [43; 8; 8; 8; 43; 8; 43; 43; 8; 43; 8; 8; 43; 8; 43; 43; 43; 43; 43; 8; 43; 8; 43; 43; 8; 8; 8];
  [43; 43; 8; 43; 43; 8; 8; 43; 43; 43; 8; 43; 43; 8; 8; 8; 25; 8; 25; 43; 43; 25; 25; 25; 43; 8];
  [25; 43; 43; 25; 25; 43; 25; 43; 25; 43; 43; 8; 43; 25; 43; 43; 25; 43; 43; 43; 43; 8; 8; 8; 43];
  [43; 43; 8; 8; 43; 8; 8; 43; 43; 43; 43; 8; 43; 8; 8; 43; 43; 43; 8; 43; 43; 8; 8; 43; 43; 43];
  [8; 8; 43; 43; 8; 43; 43; 43; 8; 43; 43; 43; 8; 43; 43; 43; 8; 25; 8; 8; 25; 43; 43; 43; 8; 25];
  [8; 43; 25; 43; 43; 43; 43; 25; 8; 43; 25; 43; 43; 43; 8; 43; 43; 8; 43; 43; 43; 43; 43; 43; 43];
  [8; 43; 43; 43; 43; 25; 8; 25; 43; 43; 43; 43; 43; 43; 43; 43; 43; 43; 43; 43; 43]].

Definition IQ2_S_GRID : list Z := concat [
  [8; 8; 8; 8; 8; 8; 8; 8; 43; 8; 8; 8; 8; 8; 8; 8; 25; 25; 8; 8; 8; 8; 8; 8; 8; 43; 8; 8; 8; 8];
  [8; 8; 43; 43; 8; 8; 8; 8; 8; 8; 25; 8; 25; 8; 8; 8; 8; 8; 8; 25; 25; 8; 8; 8; 8; 8; 43; 25; 25];
  [8; 8; 8; 8; 8; 25; 43; 25; 8; 8; 8; 8; 8; 8; 8; 43; 8; 8; 8; 8; 8; 43; 8; 43; 8; 8; 8; 8; 8];
  [25; 25; 43; 8; 8; 8; 8; 8; 8; 43; 43; 8; 8; 8; 8; 8; 25; 8; 8; 25; 8; 8; 8; 8; 8; 25; 8; 25; 8];
  [8; 8; 8; 43; 25; 8; 25; 8; 8; 8; 8; 25; 43; 8; 25; 8; 8; 8; 8; 8; 8; 25; 25; 8; 8; 8; 8; 43; 8];
  [25; 25; 8; 8; 8; 8; 25; 25; 25; 25; 8; 8; 8; 8; 8; 43; 25; 25; 8; 8; 8; 8; 25; 8; 43; 25; 8; 8];
  [8; 8; 8; 25; 43; 25; 8; 8; 8; 8; 43; 25; 43; 25; 8; 8; 8; 8; 25; 43; 43; 25; 8; 8; 8; 8; 8; 8];
  [8; 43; 8; 8; 8; 8; 43; 8; 8; 43; 8; 8; 8; 8; 25; 25; 8; 43; 8; 8; 8; 8; 8; 43; 8; 43; 8; 8; 8];
  [8; 25; 8; 25; 43; 8; 8; 8; 8; 8; 25; 25; 43; 8; 8; 8; 8; 8; 8; 43; 43; 8; 8; 8; 8; 25; 25; 43];
  [43; 8; 8; 8; 8; 43; 43; 43; 43; 8; 8; 8; 8; 25; 8; 8; 8; 25; 8; 8; 8; 8; 25; 8; 8; 25; 8; 8; 8];
  [43; 25; 8; 8; 25; 8; 8; 8; 25; 43; 8; 8; 25; 8; 8; 8; 8; 8; 25; 8; 25; 8; 8; 8; 43; 8; 25; 8];
  [25; 8; 8; 8; 25; 25; 25; 8; 25; 8; 8; 8; 8; 43; 25; 8; 25; 8; 8; 8; 25; 8; 43; 8; 25; 8; 8; 8];
  [8; 25; 43; 8; 25; 8; 8; 8; 8; 8; 8; 25; 25; 8; 8; 8; 43; 8; 8; 25; 25; 8; 8; 8; 25; 25; 8; 25];
  [25; 8; 8; 8; 8; 43; 8; 25; 25; 8; 8; 8; 25; 8; 25; 25; 25; 8; 8; 8; 8; 25; 25; 25; 25; 8; 8; 8];
  [43; 25; 25; 25; 25; 8; 8; 8; 25; 43; 25; 25; 25; 8; 8; 8; 8; 8; 43; 25; 25; 8; 8; 8; 25; 25];
  [43; 25; 25; 8; 8; 8; 8; 43; 43; 25; 25; 8; 8; 8; 25; 8; 8; 43; 25; 8; 8; 8; 8; 25; 8; 43; 25];
  [8; 8; 8; 8; 8; 25; 43; 25; 8; 8; 8; 43; 8; 25; 43; 25; 8; 8; 8; 25; 25; 25; 43; 25; 8; 8; 8];
  [25; 8; 43; 43; 25; 8; 8; 8; 8; 25; 43; 43; 25; 8; 8; 8; 8; 8; 8; 8; 43; 8; 8; 8; 43; 8; 8; 8];
  [43; 8; 8; 8; 25; 25; 8; 8; 43; 8; 8; 8; 8; 43; 8; 8; 43; 8; 8; 8; 25; 8; 25; 8; 43; 8; 8; 8; 8];
  [25; 25; 8; 43; 8; 8; 8; 8; 8; 43; 8; 43; 8; 8; 8; 43; 43; 43; 8; 43; 8; 8; 8; 25; 8; 8; 25; 43];
  [8; 8; 8; 8; 25; 8; 25; 43; 8; 8; 8; 43; 25; 8; 25; 43; 8; 8; 8; 25; 43; 8; 25; 43; 8; 8; 8; 8];
  [8; 25; 25; 43; 8; 8; 8; 25; 25; 25; 25; 43; 8; 8; 8; 8; 8; 8; 43; 43; 8; 8; 8; 25; 25; 8; 43];
  [43; 8; 8; 8; 43; 43; 8; 43; 43; 8; 8; 8; 8; 25; 25; 43; 43; 8; 8; 8; 43; 8; 43; 43; 43; 8; 8];
  [8; 25; 8; 8; 8; 8; 25; 8; 8; 8; 25; 8; 8; 8; 25; 8; 8; 43; 25; 8; 8; 8; 25; 8; 8; 25; 43; 8; 8];
  [8; 25; 8; 8; 8; 8; 25; 8; 8; 25; 8; 8; 43; 8; 25; 8; 8; 25; 8; 8; 25; 25; 25; 8; 8; 25; 8; 8];
  [8; 43; 25; 8; 8; 25; 8; 8; 25; 8; 43; 8; 8; 25; 8; 8; 8; 25; 43; 8; 8; 25; 8; 8; 43; 25; 43; 8];
  [8; 25; 8; 8; 25; 43; 43; 8; 8; 25; 8; 8; 8; 8; 8; 25; 8; 25; 8; 8; 43; 8; 8; 25; 8; 25; 8; 8];
  [25; 25; 8; 25; 8; 25; 8; 8; 8; 43; 8; 25; 8; 25; 8; 8; 43; 43; 8; 25; 8; 25; 8; 8; 25; 8; 25];
  [25; 8; 25; 8; 8; 8; 25; 25; 25; 8; 25; 8; 8; 43; 25; 25; 25; 8; 25; 8; 8; 25; 43; 25; 25; 8];
  [25; 8; 8; 8; 8; 43; 25; 8; 25; 8; 8; 43; 8; 43; 25; 8; 25; 8; 8; 25; 25; 43; 25; 8; 25; 8; 8];
  [25; 8; 8; 43; 8; 25; 8; 8; 8; 25; 8; 43; 8; 25; 8; 8; 43; 25; 8; 43; 8; 25; 8; 8; 25; 43; 8];
  [43; 8; 25; 8; 8; 8; 8; 25; 43; 8; 25; 8; 8; 25; 25; 25; 43; 8; 25; 8; 8; 8; 43; 25; 43; 8; 25];
  [8; 8; 25; 8; 43; 43; 8; 25; 8; 8; 8; 25; 43; 43; 8; 25; 8; 8; 8; 8; 8; 8; 25; 25; 8; 8; 43; 8];
  [8; 8; 25; 25; 8; 8; 25; 25; 8; 8; 25; 25; 8; 8; 8; 43; 8; 8; 25; 25; 8; 8; 43; 43; 8; 8; 25];
  [25; 8; 8; 25; 8; 25; 8; 25; 25; 8; 8; 8; 25; 25; 8; 25; 25; 8; 8; 43; 25; 25; 8; 25; 25; 8; 8];
  [25; 43; 25; 8; 25; 25; 8; 8; 8; 8; 43; 8; 25; 25; 8; 8; 25; 25; 43; 8; 25; 25; 8; 8; 8; 43; 43];
  [8; 25; 25; 8; 8; 25; 8; 8; 25; 25; 25; 8; 8; 8; 25; 8; 25; 25; 25; 8; 8; 43; 25; 8; 25; 25; 25];
  [8; 8; 25; 43; 8; 25; 25; 25; 8; 8; 8; 8; 25; 25; 25; 25; 8; 8; 43; 8; 25; 25; 25; 25; 8; 8; 25];
  [25; 25; 25; 25; 25; 8; 8; 8; 43; 25; 25; 25; 25; 8; 8; 25; 8; 43; 25; 25; 25; 8; 8; 8; 25; 43];
  [25; 25; 25; 8; 8; 8; 8; 8; 43; 25; 25; 8; 8; 43; 8; 8; 43; 25; 25; 8; 8; 25; 25; 8; 43; 25; 25];
  [8; 8; 8; 43; 8; 43; 25; 25; 8; 8; 25; 8; 25; 43; 25; 25; 8; 8; 8; 25; 25; 43; 25; 25; 8; 8; 8];
  [8; 43; 43; 25; 25; 8; 8; 25; 8; 8; 8; 43; 25; 8; 8; 8; 25; 8; 8; 43; 25; 8; 8; 43; 25; 8; 8];
  [43; 25; 8; 8; 25; 43; 8; 8; 43; 25; 8; 8; 8; 8; 25; 8; 43; 25; 8; 8; 25; 25; 25; 8; 43; 25; 8];
  [8; 8; 8; 8; 25; 43; 25; 8; 8; 25; 25; 8; 25; 43; 25; 8; 8; 8; 43; 8; 25; 43; 25; 8; 8; 25; 8];
  [25; 25; 43; 25; 8; 8; 8; 25; 25; 25; 43; 25; 8; 8; 8; 8; 43; 25; 43; 25; 8; 8; 25; 8; 8; 43];
  [43; 25; 8; 8; 8; 25; 8; 43; 43; 25; 8; 8; 8; 8; 25; 43; 43; 25; 8; 8; 8; 8; 8; 8; 8; 43; 8; 8];
  [43; 8; 8; 8; 8; 43; 8; 8; 25; 25; 8; 8; 8; 43; 8; 8; 8; 43; 8; 8; 8; 43; 8; 8; 25; 8; 25; 8; 8];
  [43; 8; 8; 8; 25; 25; 8; 8; 43; 8; 8; 43; 25; 25; 8; 8; 43; 8; 8; 25; 43; 25; 8; 8; 43; 8; 8; 8];
  [8; 43; 8; 8; 43; 8; 8; 25; 25; 43; 8; 8; 43; 8; 8; 43; 43; 43; 8; 8; 43; 8; 8; 25; 8; 8; 25; 8];
  [43; 8; 8; 8; 25; 8; 25; 8; 43; 8; 8; 43; 25; 8; 25; 8; 43; 8; 8; 25; 43; 8; 25; 8; 43; 8; 8; 8];
  [8; 25; 25; 8; 43; 8; 8; 43; 8; 25; 25; 8; 43; 8; 8; 25; 25; 25; 25; 8; 43; 8; 8; 8; 43; 25; 25];
  [8; 43; 8; 8; 25; 8; 43; 25; 8; 43; 8; 8; 8; 25; 43; 25; 8; 43; 8; 8; 8; 8; 8; 43; 8; 43; 8; 8];
  [25; 25; 8; 43; 8; 43; 8; 8; 8; 25; 25; 43; 8; 43; 8; 8; 43; 43; 43; 43; 8; 43; 8; 8; 25; 8; 8];
  [8; 25; 43; 8; 8; 8; 25; 8; 8; 25; 43; 8; 8; 8; 8; 25; 8; 25; 43; 8; 8; 43; 8; 25; 8; 25; 43; 8];
  [8; 25; 25; 25; 8; 25; 43; 8; 8; 8; 43; 25; 8; 25; 43; 8; 8; 25; 8; 43; 8; 25; 43; 8; 8; 8; 8];
  [8; 25; 25; 43; 8; 8; 25; 25; 8; 25; 25; 43; 8; 8; 8; 43; 8; 25; 25; 43; 8; 8; 25; 8; 25; 25];
  [25; 43; 8; 8; 8; 25; 25; 25; 25; 43; 8; 8; 8; 8; 43; 25; 25; 43; 8; 8; 25; 8; 8; 43; 25; 43; 8];
  [8; 8; 8; 25; 43; 25; 43; 8; 8; 8; 8; 8; 8; 43; 43; 8; 8; 25; 8; 25; 8; 43; 43; 8; 8; 8; 25; 25];
  [8; 43; 43; 8; 8; 43; 8; 43; 8; 43; 43; 8; 8; 8; 43; 43; 8; 43; 43; 8; 8; 43; 43; 43; 8; 43; 43];
  [8; 8; 8; 8; 25; 25; 43; 43; 8; 8; 25; 43; 25; 43; 43; 43; 8; 8; 25; 8; 8; 8; 8; 8; 25; 8; 8];
  [25; 8; 8; 8; 8; 25; 8; 43; 25; 8; 8; 8; 8; 25; 8; 25; 43; 8; 8; 8; 8; 25; 8; 8; 8; 25; 8; 8; 8];
  [25; 8; 43; 8; 25; 8; 8; 8; 25; 8; 25; 25; 25; 8; 8; 8; 25; 8; 8; 43; 25; 8; 8; 8; 25; 8; 25; 8];
  [43; 8; 8; 8; 25; 8; 8; 25; 43; 8; 8; 8; 25; 8; 43; 25; 43; 8; 8; 8; 25; 8; 8; 8; 8; 25; 8; 8];
  [25; 8; 43; 8; 8; 25; 8; 8; 25; 8; 25; 25; 8; 25; 8; 8; 25; 8; 8; 43; 8; 25; 8; 8; 25; 8; 25; 8];
  [25; 25; 8; 8; 25; 8; 8; 25; 25; 25; 8; 8; 25; 8; 43; 25; 25; 25; 8; 8; 25; 8; 25; 43; 25; 25];
  [8; 8; 25; 8; 8; 8; 43; 25; 8; 8; 25; 8; 43; 8; 43; 25; 8; 8; 25; 8; 25; 25; 43; 25; 8; 8; 25];
  [8; 8; 43; 43; 25; 8; 8; 25; 8; 25; 8; 8; 43; 8; 8; 25; 8; 8; 25; 8; 43; 8; 8; 25; 8; 43; 25; 8];
  [43; 8; 8; 25; 8; 8; 8; 25; 43; 8; 8; 25; 8; 25; 25; 25; 43; 8; 8; 25; 8; 8; 43; 25; 43; 8; 8];
  [25; 8; 25; 8; 43; 43; 8; 8; 25; 8; 8; 25; 43; 43; 8; 8; 25; 8; 8; 8; 8; 8; 25; 8; 25; 8; 43; 8];
  [8; 8; 25; 8; 25; 8; 25; 25; 8; 8; 25; 8; 25; 8; 8; 43; 8; 8; 25; 8; 25; 8; 43; 43; 8; 8; 25; 8];
  [25; 8; 25; 8; 25; 8; 25; 8; 25; 8; 8; 25; 25; 8; 25; 8; 25; 8; 43; 25; 25; 8; 25; 8; 25; 8; 25];
  [43; 25; 8; 25; 8; 25; 8; 8; 8; 43; 8; 25; 8; 25; 8; 43; 8; 43; 8; 25; 8; 25; 8; 25; 25; 43; 8];
  [25; 8; 25; 8; 8; 43; 43; 8; 25; 8; 25; 8; 25; 8; 8; 25; 25; 8; 25; 8; 8; 25; 8; 25; 25; 8; 25];
  [8; 43; 25; 8; 25; 25; 8; 25; 8; 25; 43; 8; 25; 25; 8; 25; 8; 8; 8; 25; 25; 25; 8; 25; 8; 43; 8];
  [25; 25; 25; 8; 25; 8; 25; 25; 25; 25; 25; 8; 25; 8; 8; 43; 25; 25; 25; 8; 25; 8; 25; 8; 43; 25];
  [25; 8; 25; 8; 8; 25; 43; 25; 25; 8; 25; 8; 8; 8; 8; 43; 25; 8; 25; 8; 43; 8; 8; 43; 25; 8; 25];
  [8; 25; 25; 8; 43; 25; 8; 25; 8; 8; 43; 8; 43; 25; 8; 25; 8; 25; 8; 25; 43; 25; 8; 25; 8; 8; 25];
  [25; 43; 25; 8; 25; 8; 25; 8; 8; 8; 43; 8; 25; 8; 8; 25; 8; 8; 43; 8; 25; 8; 25; 43; 8; 8; 43];
  [8; 25; 8; 8; 8; 25; 8; 43; 8; 25; 8; 25; 25; 25; 8; 43; 8; 25; 8; 25; 8; 43; 8; 43; 8; 25; 8];
  [8; 25; 43; 8; 43; 8; 25; 8; 8; 8; 8; 25; 43; 8; 25; 8; 25; 25; 8; 25; 43; 8; 25; 8; 25; 8; 25];
  [25; 43; 8; 25; 8; 8; 25; 25; 25; 43; 8; 25; 8; 25; 8; 8; 43; 43; 8; 25; 8; 8; 25; 8; 43; 43; 8];
  [25; 8; 8; 8; 25; 43; 43; 8; 25; 8; 8; 8; 8; 8; 8; 25; 25; 8; 43; 8; 8; 8; 8; 25; 25; 8; 25; 25];
  [8; 8; 8; 25; 25; 8; 8; 43; 8; 8; 8; 25; 25; 8; 25; 8; 25; 8; 8; 25; 25; 8; 8; 25; 25; 8; 8; 25];
  [25; 8; 43; 25; 25; 8; 8; 25; 25; 8; 25; 43; 25; 8; 8; 25; 25; 8; 8; 8; 43; 8; 8; 25; 25; 8; 25];
  [25; 43; 8; 8; 25; 25; 8; 8; 43; 43; 8; 8; 25; 25; 8; 25; 8; 8; 25; 8; 25; 25; 8; 8; 25; 8; 25];
  [8; 25; 25; 8; 43; 25; 8; 25; 8; 25; 25; 8; 25; 43; 8; 25; 8; 25; 25; 8; 8; 8; 25; 25; 8; 25];
  [25; 8; 43; 8; 25; 25; 8; 25; 25; 8; 25; 25; 25; 25; 8; 25; 25; 8; 8; 43; 25; 25; 8; 25; 25; 8];
  [25; 8; 43; 25; 8; 25; 25; 8; 8; 25; 43; 25; 8; 25; 25; 8; 8; 8; 8; 43; 8; 25; 25; 8; 43; 8; 8];
  [43; 8; 25; 25; 8; 25; 25; 8; 43; 8; 25; 25; 8; 8; 43; 8; 43; 8; 25; 25; 8; 25; 8; 25; 43; 8];
  [25; 25; 8; 8; 25; 25; 43; 8; 25; 25; 8; 8; 8; 43; 43; 8; 25; 25; 8; 25; 8; 8; 8; 25; 25; 25; 8];
  [8; 25; 8; 8; 25; 25; 25; 8; 43; 25; 8; 8; 25; 25; 25; 8; 25; 43; 8; 8; 25; 25; 25; 8; 8; 8; 25];
  [8; 25; 25; 25; 8; 43; 8; 25; 8; 25; 25; 25; 8; 25; 25; 25; 8; 25; 25; 25; 8; 8; 43; 25; 8; 25];
  [25; 25; 8; 25; 8; 43; 8; 25; 25; 25; 8; 8; 25; 43; 8; 25; 25; 25; 8; 8; 8; 8; 25; 25; 25; 25];
  [8; 43; 8; 8; 25; 25; 25; 25; 8; 25; 25; 8; 25; 25; 25; 25; 8; 8; 43; 8; 25; 25; 25; 25; 8; 25];
  [8; 25; 25; 25; 25; 25; 8; 8; 25; 25; 25; 25; 25; 25; 8; 8; 8; 43; 25; 25; 25; 25; 8; 25; 8; 8];
  [43; 25; 25; 25; 8; 8; 25; 8; 43; 25; 25; 25; 8; 8; 8; 25; 43; 25; 25; 25; 8; 8; 8; 8; 8; 43];
  [25; 25; 8; 25; 25; 8; 8; 43; 25; 25; 8; 8; 43; 8; 8; 43; 25; 25; 8; 25; 8; 25; 8; 43; 25; 25];
  [8; 8; 25; 25; 8; 43; 25; 25; 8; 8; 8; 43; 8; 43; 25; 25; 8; 25; 8; 8; 25; 43; 25; 25; 8; 8; 25];
  [8; 25; 43; 25; 25; 8; 8; 8; 25; 25; 43; 25; 25; 8; 8; 8; 8; 43; 43; 25; 25; 8; 43; 43; 43; 43];
  [43; 25; 25; 8; 25; 8; 8; 8; 8; 43; 25; 8; 8; 25; 8; 8; 8; 43; 25; 8; 43; 25; 8; 8; 8; 43; 25];
  [8; 25; 43; 8; 8; 8; 43; 25; 8; 8; 8; 25; 8; 8; 43; 25; 8; 25; 25; 25; 8; 8; 43; 25; 8; 8; 43];
  [25; 8; 8; 43; 25; 8; 25; 8; 43; 8; 8; 43; 25; 8; 8; 8; 8; 25; 8; 43; 25; 8; 43; 8; 8; 25; 8];
  [43; 25; 8; 25; 25; 8; 25; 8; 43; 25; 8; 8; 43; 8; 25; 8; 43; 25; 8; 25; 8; 25; 25; 8; 43; 25];
  [8; 8; 25; 25; 25; 8; 43; 25; 8; 8; 8; 43; 25; 8; 43; 25; 8; 25; 8; 8; 43; 8; 43; 25; 8; 8; 25];
  [8; 43; 8; 43; 25; 8; 8; 8; 8; 8; 25; 43; 25; 8; 43; 8; 8; 8; 25; 43; 25; 8; 25; 25; 8; 8; 25];
  [43; 25; 8; 8; 43; 8; 8; 25; 43; 25; 8; 25; 8; 25; 8; 25; 43; 25; 8; 8; 25; 25; 8; 25; 43; 25];
  [8; 8; 8; 43; 8; 25; 43; 25; 8; 25; 8; 8; 25; 25; 43; 25; 8; 8; 25; 8; 25; 25; 43; 25; 8; 8; 8];
  [25; 25; 25; 43; 25; 8; 25; 43; 43; 25; 25; 43; 25; 8; 43; 8; 43; 43; 25; 43; 25; 8; 8; 25; 8];
  [8; 43; 43; 25; 8; 8; 8; 25; 8; 43; 43; 25; 8; 8; 8; 8; 25; 43; 43; 25; 8; 43; 25; 25; 25; 43];
  [43; 25; 8; 8; 8; 8; 8; 8; 8; 43; 8; 43; 8; 8; 8; 8; 8; 43; 8; 25; 25; 8; 8; 8; 8; 43; 8; 8; 43];
  [8; 8; 8; 8; 43; 8; 25; 8; 25; 8; 8; 8; 43; 8; 8; 25; 25; 8; 8; 8; 43; 8; 43; 25; 25; 8; 8; 8];
  [43; 8; 25; 43; 25; 8; 8; 8; 43; 8; 8; 8; 43; 8; 8; 8; 43; 8; 25; 25; 43; 8; 8; 8; 43; 8; 43];
  [43; 43; 8; 8; 8; 43; 8; 25; 8; 8; 25; 8; 8; 43; 8; 8; 25; 8; 25; 8; 8; 43; 8; 8; 8; 25; 25; 8];
  [8; 43; 8; 43; 8; 25; 25; 8; 8; 43; 8; 25; 25; 25; 25; 8; 8; 43; 8; 8; 25; 43; 25; 8; 8; 43; 8];
  [8; 8; 8; 43; 8; 8; 43; 8; 43; 43; 8; 43; 8; 8; 43; 8; 8; 25; 25; 43; 8; 8; 43; 8; 43; 43; 43];
  [43; 8; 8; 43; 8; 25; 8; 8; 8; 25; 8; 43; 8; 8; 25; 8; 8; 25; 8; 43; 8; 8; 8; 25; 8; 25; 8; 43];
  [8; 43; 8; 25; 8; 25; 8; 43; 8; 25; 25; 25; 8; 25; 8; 43; 8; 25; 8; 43; 8; 25; 8; 43; 8; 8; 8];
  [8; 25; 25; 8; 43; 8; 43; 8; 8; 25; 25; 8; 43; 8; 25; 25; 8; 25; 25; 8; 43; 8; 25; 8; 25; 25];
  [25; 8; 43; 8; 8; 25; 25; 25; 25; 8; 43; 8; 8; 8; 43; 25; 25; 8; 43; 8; 25; 8; 8; 43; 25; 8; 43];
  [8; 8; 25; 8; 43; 25; 8; 43; 8; 8; 8; 25; 43; 25; 8; 43; 8; 8; 8; 8; 8; 43; 8; 43; 8; 43; 43; 8];
  [8; 43; 8; 43; 8; 43; 8; 43; 8; 43; 8; 43; 8; 8; 43; 43; 8; 43; 8; 43; 8; 43; 43; 43; 8; 43; 8];
  [43; 8; 8; 25; 8; 25; 43; 8; 43; 8; 8; 8; 25; 25; 43; 8; 43; 8; 8; 43; 8; 43; 43; 8; 43; 8; 43];
  [43; 8; 43; 43; 8; 43; 8; 8; 43; 43; 43; 43; 8; 43; 8; 25; 8; 8; 8; 8; 25; 43; 8; 8; 25; 8; 8];
  [8; 25; 43; 8; 43; 25; 8; 8; 8; 25; 43; 8; 25; 43; 8; 8; 8; 25; 43; 8; 8; 8; 25; 8; 8; 25; 43];
  [8; 25; 25; 25; 8; 8; 25; 43; 8; 8; 43; 25; 8; 8; 25; 43; 8; 25; 8; 43; 8; 8; 25; 43; 8; 8; 25];
  [43; 8; 8; 25; 43; 8; 8; 8; 8; 25; 8; 25; 43; 8; 43; 8; 8; 25; 8; 25; 43; 8; 25; 25; 8; 25; 8];
  [25; 43; 8; 8; 43; 8; 25; 8; 25; 43; 8; 25; 8; 25; 25; 8; 25; 43; 8; 8; 25; 25; 25; 8; 25; 43];
  [8; 8; 8; 43; 25; 8; 25; 43; 8; 25; 8; 8; 43; 8; 25; 43; 8; 8; 25; 8; 43; 8; 25; 43; 8; 8; 8];
  [25; 43; 8; 25; 43; 8; 8; 8; 8; 8; 25; 25; 43; 8; 25; 25; 8; 8; 25; 25; 43; 8; 8; 43; 8; 8; 25];
  [25; 43; 8; 25; 8; 25; 8; 25; 25; 43; 8; 8; 25; 25; 8; 25; 25; 43; 8; 8; 8; 43; 8; 25; 25; 43];
  [8; 25; 8; 8; 25; 25; 25; 43; 8; 8; 25; 8; 25; 25; 25; 43; 8; 8; 8; 25; 25; 25; 25; 43; 8; 43];
  [25; 43; 25; 25; 25; 43; 8; 8; 8; 8; 43; 25; 25; 43; 8; 25; 8; 8; 8; 43; 25; 43; 8; 8; 25; 8; 8];
  [43; 25; 43; 8; 8; 8; 25; 8; 43; 25; 43; 8; 8; 8; 8; 25; 43; 25; 43; 8; 25; 43; 25; 25; 43; 25];
  [43; 8; 8; 8; 8; 8; 8; 43; 43; 8; 25; 25; 8; 8; 8; 43; 43; 8; 25; 8; 25; 8; 8; 43; 43; 8; 8; 25];
  [25; 8; 8; 43; 43; 8; 25; 8; 8; 25; 8; 43; 43; 8; 8; 25; 8; 25; 8; 43; 43; 8; 8; 8; 25; 25; 8];
  [43; 43; 8; 43; 43; 8; 43; 8; 43; 43; 8; 43; 43; 43; 43; 8; 43; 43; 8; 25; 8; 8; 8; 25; 43; 43];
  [8; 8; 25; 8; 8; 25; 43; 43; 8; 8; 8; 25; 8; 25; 43; 43; 8; 25; 25; 25; 43; 25; 43; 43; 8; 43];
  [43; 8; 8; 43; 43; 43; 8; 43; 8; 43; 8; 43; 43; 43; 8; 8; 25; 43; 25; 43; 43; 43; 8; 8; 43; 8];
  [43; 43; 43; 43; 8; 43; 43; 8; 43; 43; 43; 43; 8; 25; 8; 8; 8; 8; 8; 8; 25; 8; 25; 8; 8; 8; 8];
  [8; 25; 43; 25; 8; 8; 8; 8; 8; 25; 25; 43; 8; 8; 8; 8; 8; 25; 8; 8; 25; 8; 8; 8; 8; 25; 43; 8];
  [25; 8; 8; 8; 8; 25; 25; 25; 25; 8; 8; 8; 8; 25; 8; 43; 25; 8; 8; 8; 8; 25; 43; 43; 25; 8; 8; 8];
  [8; 25; 25; 8; 43; 8; 8; 8; 8; 25; 8; 25; 43; 8; 8; 8; 8; 25; 43; 25; 43; 8; 8; 8; 8; 25; 8; 8];
  [8; 25; 8; 8; 8; 25; 43; 8; 8; 25; 8; 8; 8; 25; 25; 25; 8; 25; 8; 8; 8; 25; 8; 43; 8; 25; 8; 8];
  [8; 25; 43; 43; 8; 25; 8; 8; 8; 25; 25; 8; 25; 25; 8; 8; 8; 25; 8; 25; 25; 25; 8; 8; 8; 25; 43];
  [25; 25; 25; 8; 8; 8; 25; 25; 43; 25; 25; 8; 8; 8; 25; 8; 8; 43; 25; 8; 8; 8; 25; 43; 8; 43; 25];
  [8; 8; 8; 25; 25; 25; 43; 25; 8; 8; 8; 25; 25; 8; 8; 43; 8; 8; 8; 25; 8; 25; 8; 43; 8; 8; 8; 25];
  [8; 8; 25; 43; 8; 8; 8; 25; 25; 25; 25; 43; 8; 8; 8; 25; 8; 43; 25; 43; 8; 8; 8; 25; 25; 8; 43];
  [43; 8; 8; 8; 25; 8; 25; 43; 43; 8; 8; 8; 25; 8; 8; 8; 8; 25; 8; 8; 25; 43; 8; 8; 8; 25; 8; 8];
  [25; 25; 25; 8; 8; 25; 8; 8; 25; 8; 43; 8; 8; 25; 8; 8; 25; 25; 8; 25; 8; 25; 8; 8; 25; 8; 25];
  [25; 8; 25; 8; 8; 25; 43; 25; 25; 8; 25; 8; 8; 25; 25; 43; 25; 8; 25; 8; 8; 25; 8; 8; 43; 8; 25];
  [8; 8; 25; 43; 8; 43; 8; 25; 8; 8; 25; 25; 25; 43; 8; 25; 8; 8; 25; 25; 8; 8; 25; 25; 8; 8; 25];
  [8; 25; 8; 25; 25; 8; 8; 25; 43; 25; 8; 25; 25; 8; 8; 25; 25; 43; 8; 25; 25; 8; 8; 25; 8; 8; 25];
  [25; 25; 8; 8; 25; 43; 8; 25; 25; 25; 8; 8; 25; 25; 25; 25; 25; 25; 8; 8; 25; 8; 43; 25; 25; 25];
  [8; 8; 25; 25; 8; 43; 25; 25; 8; 8; 25; 8; 25; 43; 25; 25; 8; 8; 25; 8; 8; 8; 43; 25; 8; 8; 25];
  [43; 8; 8; 43; 25; 8; 8; 25; 25; 25; 8; 43; 25; 8; 8; 25; 8; 43; 8; 43; 25; 8; 8; 25; 25; 8; 25];
  [43; 25; 8; 8; 25; 8; 25; 25; 43; 25; 8; 8; 25; 8; 8; 43; 43; 25; 8; 8; 25; 25; 8; 8; 8; 43; 8];
  [8; 25; 8; 25; 8; 8; 43; 8; 8; 25; 8; 8; 25; 8; 43; 8; 8; 25; 43; 8; 25; 8; 43; 8; 8; 25; 25];
  [25; 25; 8; 43; 8; 8; 25; 8; 43; 25; 8; 43; 8; 8; 25; 8; 25; 43; 8; 43; 8; 8; 25; 8; 8; 8; 25];
  [43; 8; 8; 25; 25; 25; 8; 25; 43; 8; 8; 25; 8; 43; 8; 25; 43; 8; 8; 25; 25; 8; 25; 25; 43; 8; 8];
  [25; 8; 25; 25; 25; 43; 8; 8; 25; 8; 8; 43; 25; 43; 8; 8; 25; 25; 8; 8; 43; 43; 8; 8; 25; 8; 25];
  [8; 43; 43; 8; 8; 25; 8; 8; 8; 8; 8; 25; 8; 25; 43; 8; 8; 8; 8; 25; 8; 25; 25; 25; 8; 8; 8; 25];
  [8; 25; 8; 43; 8; 8; 8; 25; 8; 25; 43; 43; 8; 8; 8; 25; 8; 25; 25; 8; 25; 8; 8; 25; 8; 25; 8];
  [25; 25; 8; 8; 25; 8; 25; 43; 25; 25; 8; 8; 25; 8; 25; 25; 43; 25; 8; 8; 25; 8; 25; 8; 8; 43; 8];
  [8; 25; 8; 25; 43; 8; 43; 8; 8; 25; 8; 25; 25; 25; 43; 8; 8; 25; 8; 25; 8; 43; 43; 8; 8; 25; 8];
  [25; 25; 8; 8; 25; 8; 25; 8; 25; 8; 25; 8; 25; 8; 25; 8; 25; 43; 25; 8; 25; 8; 25; 8; 25; 25];
  [43; 8; 25; 8; 25; 8; 25; 8; 8; 25; 25; 8; 25; 8; 25; 43; 8; 25; 25; 8; 25; 8; 25; 25; 25; 25];
  [25; 8; 25; 8; 25; 8; 43; 25; 25; 8; 25; 8; 25; 25; 8; 43; 25; 8; 25; 8; 25; 8; 25; 43; 25; 8];
  [25; 8; 25; 8; 8; 8; 43; 8; 25; 8; 25; 43; 8; 8; 43; 8; 25; 8; 25; 25; 25; 8; 43; 8; 25; 8; 25];
  [8; 43; 8; 43; 8; 25; 8; 25; 25; 8; 25; 43; 8; 25; 8; 25; 8; 25; 25; 43; 8; 25; 8; 25; 8; 8; 43];
  [43; 8; 25; 8; 25; 25; 8; 8; 8; 25; 25; 8; 25; 8; 25; 8; 8; 25; 25; 8; 25; 43; 25; 8; 8; 25; 25];
  [8; 25; 25; 43; 8; 8; 25; 25; 8; 25; 8; 8; 25; 8; 25; 25; 8; 25; 43; 8; 25; 8; 25; 25; 8; 25];
  [25; 25; 25; 8; 25; 25; 8; 25; 8; 43; 25; 8; 25; 25; 8; 25; 25; 8; 43; 8; 25; 25; 8; 25; 8; 25];
  [43; 8; 25; 25; 8; 25; 8; 8; 8; 25; 25; 25; 8; 25; 43; 8; 8; 25; 25; 25; 8; 25; 25; 25; 8; 25];
  [25; 25; 8; 25; 8; 43; 8; 25; 25; 25; 8; 25; 25; 8; 25; 25; 25; 25; 8; 25; 8; 25; 25; 25; 25];
  [25; 8; 25; 8; 8; 43; 25; 25; 25; 8; 25; 43; 43; 43; 25; 25; 25; 8; 25; 25; 8; 8; 43; 25; 25; 8];
  [25; 8; 25; 8; 43; 25; 25; 8; 25; 8; 8; 25; 43; 25; 25; 8; 25; 8; 8; 8; 8; 43; 25; 8; 25; 43; 8];
  [8; 8; 43; 25; 8; 25; 25; 25; 8; 8; 43; 25; 8; 25; 8; 43; 8; 8; 43; 25; 8; 25; 25; 8; 25; 8; 43];
  [25; 8; 25; 8; 25; 25; 8; 43; 25; 8; 25; 8; 8; 43; 8; 43; 25; 8; 25; 25; 8; 8; 25; 43; 25; 8];
  [25; 8; 25; 8; 25; 43; 25; 8; 25; 8; 8; 25; 25; 43; 25; 8; 25; 8; 8; 8; 43; 43; 25; 8; 25; 25];
  [25; 43; 43; 43; 25; 8; 25; 25; 8; 8; 8; 8; 43; 8; 25; 8; 25; 8; 8; 8; 43; 8; 25; 25; 43; 8; 8];
  [8; 43; 8; 25; 8; 8; 25; 8; 8; 43; 8; 25; 43; 8; 25; 8; 8; 43; 8; 25; 25; 25; 25; 8; 8; 43; 8];
  [25; 8; 43; 25; 8; 8; 43; 8; 25; 25; 8; 43; 8; 8; 43; 8; 25; 8; 25; 43; 8; 8; 43; 8; 25; 8; 8];
  [8; 25; 8; 43; 8; 25; 43; 8; 8; 25; 8; 43; 8; 25; 25; 25; 8; 25; 8; 43; 8; 25; 8; 43; 8; 25; 8];
  [43; 8; 25; 25; 8; 25; 25; 8; 43; 8; 25; 8; 25; 25; 25; 8; 43; 8; 25; 8; 8; 43; 25; 8; 43; 8];
  [25; 8; 25; 8; 43; 8; 43; 8; 25; 8; 8; 25; 43; 8; 43; 8; 25; 8; 8; 8; 8; 25; 43; 8; 25; 43; 8];
  [8; 8; 25; 43; 8; 25; 25; 25; 8; 8; 25; 43; 8; 25; 8; 43; 8; 8; 25; 43; 8; 25; 25; 8; 25; 8; 25];
  [43; 8; 25; 8; 25; 25; 8; 25; 43; 8; 25; 8; 8; 43; 8; 25; 43; 8; 25; 25; 8; 8; 25; 25; 43; 8];
  [25; 8; 25; 8; 25; 25; 43; 8; 25; 8; 8; 25; 25; 25; 43; 8; 25; 8; 8; 8; 43; 25; 43; 8; 25; 43];
  [25; 25; 43; 25; 43; 8; 25; 25; 8; 8; 8; 43; 43; 8; 25; 8; 25; 8; 8; 43; 43; 8; 25; 8; 8; 25; 8];
  [43; 43; 8; 25; 8; 8; 8; 25; 43; 43; 8; 25; 8; 8; 8; 8; 8; 8; 25; 25; 43; 8; 8; 8; 8; 8; 25; 25];
  [25; 25; 8; 8; 8; 8; 25; 25; 8; 43; 8; 8; 8; 8; 25; 25; 25; 8; 25; 8; 8; 8; 25; 25; 8; 25; 25];
  [8; 8; 8; 25; 25; 43; 25; 25; 8; 8; 8; 25; 25; 25; 43; 25; 8; 8; 8; 25; 25; 8; 8; 43; 8; 8; 8];
  [25; 25; 43; 8; 43; 8; 8; 8; 25; 25; 25; 25; 43; 8; 8; 8; 25; 25; 8; 43; 43; 8; 8; 8; 25; 25];
  [25; 8; 8; 25; 8; 8; 25; 25; 8; 25; 8; 25; 8; 8; 25; 25; 43; 25; 8; 25; 8; 8; 25; 25; 25; 43; 8];
  [25; 8; 8; 25; 25; 8; 8; 25; 25; 8; 8; 25; 25; 43; 8; 25; 25; 8; 8; 25; 25; 25; 25; 25; 25; 8];
  [8; 25; 25; 8; 43; 25; 25; 8; 8; 25; 25; 25; 8; 43; 25; 8; 8; 25; 25; 8; 25; 43; 25; 8; 8; 25];
  [25; 8; 8; 8; 43; 8; 8; 25; 25; 43; 8; 8; 43; 8; 8; 25; 25; 25; 25; 8; 43; 8; 8; 25; 25; 8; 43];
  [8; 43; 8; 8; 25; 25; 25; 8; 25; 43; 8; 8; 25; 25; 8; 25; 25; 43; 8; 8; 25; 25; 25; 8; 8; 8; 25];
  [8; 25; 25; 8; 25; 8; 8; 25; 8; 25; 25; 43; 25; 8; 8; 25; 8; 25; 25; 25; 43; 8; 8; 25; 8; 25];
  [25; 8; 8; 25; 8; 25; 8; 25; 25; 43; 8; 25; 8; 25; 8; 25; 25; 25; 25; 25; 8; 25; 8; 25; 25; 8];
  [43; 25; 8; 25; 8; 25; 25; 25; 8; 43; 8; 25; 8; 25; 25; 8; 25; 43; 8; 25; 8; 25; 25; 8; 8; 8];
  [25; 25; 8; 25; 25; 43; 8; 8; 25; 25; 8; 25; 25; 25; 25; 8; 25; 25; 8; 25; 25; 8; 43; 8; 25; 25];
  [8; 25; 25; 25; 8; 25; 25; 25; 8; 25; 25; 8; 25; 25; 25; 25; 8; 25; 25; 8; 8; 43; 25; 25; 8; 25];
  [25; 25; 8; 8; 43; 25; 8; 25; 25; 8; 25; 8; 43; 25; 8; 25; 25; 8; 8; 25; 43; 25; 8; 25; 25; 8];
  [8; 8; 8; 43; 8; 25; 25; 25; 25; 8; 8; 43; 8; 25; 25; 8; 43; 8; 8; 43; 8; 25; 25; 25; 8; 25; 8];
  [43; 8; 25; 25; 8; 25; 25; 8; 43; 8; 25; 25; 8; 8; 43; 8; 43; 8; 25; 25; 25; 8; 8; 25; 43; 8];
  [25; 25; 8; 25; 8; 25; 43; 8; 25; 25; 8; 8; 25; 25; 43; 8; 25; 25; 25; 43; 43; 25; 43; 8; 25];
  [25; 8; 8; 8; 43; 43; 8; 25; 25; 25; 8; 8; 8; 8; 25; 25; 25; 8; 25; 8; 8; 8; 25; 25; 25; 43; 25];
  [8; 8; 8; 25; 25; 25; 25; 43; 8; 8; 8; 25; 25; 25; 8; 8; 25; 8; 8; 25; 25; 25; 43; 8; 25; 8; 8];
  [25; 25; 25; 25; 25; 25; 8; 8; 25; 25; 25; 8; 43; 25; 8; 8; 25; 25; 25; 25; 8; 43; 8; 8; 25; 25];
  [25; 8; 25; 43; 8; 8; 25; 25; 25; 8; 8; 8; 25; 8; 25; 25; 25; 43; 8; 8; 25; 8; 25; 25; 25; 25];
  [25; 8; 25; 8; 25; 25; 25; 8; 43; 8; 25; 8; 25; 25; 25; 25; 8; 25; 25; 8; 25; 25; 25; 8; 25; 25];
  [25; 8; 25; 25; 25; 8; 8; 43; 25; 8; 25; 25; 25; 25; 8; 8; 43; 8; 25; 25; 25; 8; 25; 8; 43; 8];
  [25; 25; 25; 8; 8; 25; 43; 8; 25; 25; 25; 8; 8; 8; 8; 25; 25; 25; 25; 43; 8; 8; 8; 25; 25; 25];
  [25; 25; 25; 8; 8; 25; 25; 25; 25; 8; 43; 8; 8; 25; 25; 25; 25; 25; 8; 25; 8; 25; 25; 25; 25; 8];
  [25; 25; 8; 25; 25; 25; 25; 8; 8; 43; 8; 25; 25; 25; 25; 25; 8; 8; 25; 25; 25; 25; 25; 8; 25; 8];
  [25; 25; 25; 25; 25; 8; 8; 25; 25; 25; 25; 25; 25; 8; 8; 8; 43; 25; 25; 25; 25; 25; 8; 8; 8; 43];
  [25; 25; 25; 8; 25; 8; 8; 43; 25; 25; 25; 8; 8; 25; 8; 43; 25; 25; 25; 43; 25; 43; 8; 43; 25];
  [25; 25; 8; 8; 8; 25; 43; 25; 25; 25; 8; 8; 8; 8; 8; 43; 25; 25; 43; 8; 8; 8; 8; 43; 25; 25; 25];
  [25; 8; 8; 8; 43; 25; 25; 8; 43; 8; 8; 8; 43; 25; 25; 25; 8; 25; 8; 8; 43; 25; 25; 8; 25; 25; 8];
  [8; 43; 25; 25; 8; 8; 43; 8; 8; 43; 25; 25; 25; 8; 8; 25; 8; 43; 25; 25; 8; 25; 8; 25; 8; 43];
  [25; 25; 8; 8; 25; 25; 8; 43; 25; 25; 43; 43; 25; 25; 8; 43; 25; 25; 8; 8; 8; 43; 8; 43; 25; 25];
  [25; 8; 8; 8; 25; 43; 25; 25; 8; 25; 8; 8; 25; 43; 25; 25; 8; 8; 25; 8; 25; 43; 25; 25; 8; 8; 8];
  [25; 25; 43; 25; 25; 8; 8; 8; 8; 43; 43; 25; 25; 25; 43; 25; 8; 43; 43; 25; 25; 25; 25; 8; 43];
  [43; 43; 25; 25; 8; 43; 43; 43; 43; 43; 25; 25; 25; 8; 8; 8; 8; 8; 43; 25; 8; 25; 8; 8; 8; 8];
  [43; 25; 43; 25; 8; 8; 8; 8; 43; 25; 8; 8; 25; 8; 8; 8; 43; 25; 43; 8; 25; 8; 8; 8; 43; 25; 25];
  [25; 25; 8; 8; 8; 43; 25; 8; 43; 25; 8; 8; 8; 43; 25; 25; 8; 43; 8; 8; 8; 43; 25; 8; 25; 43; 8];
  [8; 8; 43; 25; 8; 8; 8; 25; 8; 8; 43; 25; 25; 25; 8; 25; 8; 8; 43; 25; 8; 43; 8; 25; 8; 8; 43];
  [25; 25; 8; 25; 25; 8; 8; 43; 25; 8; 25; 25; 25; 8; 8; 43; 25; 8; 8; 43; 25; 8; 8; 43; 25; 8];
  [25; 8; 43; 8; 8; 43; 25; 8; 8; 25; 43; 8; 8; 43; 25; 8; 8; 8; 8; 25; 8; 43; 25; 43; 8; 8; 8];
  [25; 8; 43; 25; 25; 25; 8; 8; 25; 8; 43; 25; 8; 43; 8; 8; 25; 8; 43; 25; 25; 8; 25; 8; 25; 8];
  [43; 25; 8; 25; 25; 8; 25; 8; 43; 25; 8; 8; 43; 8; 25; 8; 43; 25; 25; 8; 8; 25; 25; 8; 43; 25];
  [8; 25; 8; 25; 25; 8; 43; 25; 8; 8; 25; 25; 25; 8; 43; 25; 8; 8; 8; 43; 25; 8; 43; 25; 25; 43];
  [25; 43; 25; 8; 43; 25; 8; 25; 8; 8; 43; 8; 43; 25; 8; 8; 25; 8; 43; 8; 43; 25; 8; 8; 8; 25; 43];
  [8; 43; 25; 43; 25; 25; 25; 43; 8; 43; 25; 25; 8; 43; 43; 43; 8; 43; 25; 8; 8; 8; 8; 8; 25; 43];
  [25; 25; 25; 8; 8; 8; 25; 43; 25; 8; 43; 8; 8; 8; 25; 43; 25; 25; 8; 25; 8; 8; 25; 43; 25; 8];
  [25; 25; 8; 8; 25; 43; 25; 8; 8; 43; 8; 8; 25; 43; 25; 25; 8; 8; 25; 8; 25; 43; 25; 8; 25; 8];
  [25; 8; 25; 43; 25; 8; 8; 25; 25; 8; 25; 43; 25; 8; 8; 8; 43; 8; 25; 43; 25; 25; 8; 8; 8; 25];
  [25; 43; 25; 8; 25; 8; 8; 25; 25; 43; 25; 8; 8; 25; 8; 25; 25; 43; 25; 8; 8; 8; 25; 25; 25; 43];
  [25; 43; 43; 8; 25; 25; 25; 43; 25; 8; 43; 43; 25; 25; 25; 43; 25; 43; 8; 25; 43; 25; 25; 43];
  [25; 8; 8; 8; 8; 43; 25; 43; 25; 8; 25; 25; 43; 43; 25; 43; 25; 25; 8; 8; 8; 8; 43; 43; 25; 8];
  [25; 8; 8; 8; 43; 43; 25; 8; 8; 25; 8; 8; 43; 43; 25; 25; 25; 43; 25; 8; 43; 43; 25; 8; 43; 25];
  [43; 8; 43; 43; 25; 8; 8; 8; 8; 25; 43; 43; 25; 43; 43; 43; 8; 25; 43; 43; 25; 43; 8; 8; 25; 43];
  [43; 43; 25; 25; 8; 43; 43; 43; 43; 43; 25; 8; 8; 8; 8; 8; 8; 8; 43; 43; 8; 8; 8; 8; 8; 8; 43];
  [25; 25; 8; 8; 8; 8; 8; 43; 8; 43; 8; 8; 8; 8; 8; 43; 25; 8; 25; 8; 8; 8; 8; 43; 8; 25; 25; 8];
  [8; 8; 8; 43; 25; 43; 25; 8; 8; 8; 8; 43; 8; 8; 43; 8; 8; 8; 8; 43; 25; 25; 43; 8; 8; 8; 8; 43];
  [25; 8; 8; 25; 8; 8; 8; 43; 8; 25; 8; 25; 8; 8; 8; 43; 8; 8; 25; 25; 8; 8; 8; 43; 43; 8; 25; 25];
  [8; 8; 8; 43; 25; 25; 25; 25; 8; 8; 8; 43; 8; 43; 25; 25; 8; 8; 8; 43; 25; 8; 43; 25; 8; 8; 8];
  [43; 8; 8; 8; 43; 8; 8; 8; 43; 25; 25; 8; 43; 8; 8; 8; 43; 25; 8; 25; 43; 8; 8; 8; 43; 8; 25];
  [25; 43; 8; 8; 8; 43; 25; 8; 8; 8; 25; 8; 8; 43; 8; 25; 8; 8; 25; 8; 8; 43; 25; 43; 8; 8; 25; 8];
  [8; 43; 8; 8; 25; 8; 25; 8; 8; 43; 43; 8; 25; 8; 25; 8; 8; 43; 25; 25; 25; 8; 25; 8; 8; 43; 8];
  [43; 25; 8; 25; 8; 8; 43; 25; 8; 43; 8; 25; 8; 8; 43; 8; 25; 43; 8; 25; 8; 8; 43; 8; 8; 8; 25];
  [25; 8; 8; 43; 43; 8; 8; 25; 25; 8; 8; 43; 25; 25; 8; 25; 25; 8; 8; 43; 8; 43; 8; 25; 25; 8; 8];
  [43; 25; 8; 25; 25; 25; 8; 8; 43; 8; 25; 25; 25; 25; 8; 8; 43; 25; 8; 8; 43; 25; 8; 8; 43; 8];
  [25; 8; 43; 25; 8; 8; 43; 8; 8; 25; 43; 25; 8; 8; 43; 25; 43; 43; 43; 25; 8; 8; 43; 8; 8; 8; 8];
  [43; 8; 8; 43; 25; 25; 8; 8; 43; 8; 8; 43; 43; 43; 8; 8; 43; 8; 8; 43; 25; 8; 25; 8; 43; 8; 8];
  [43; 8; 25; 25; 8; 43; 8; 8; 43; 25; 8; 8; 25; 43; 8; 8; 43; 8; 25; 8; 25; 43; 8; 8; 43; 8; 8];
  [25; 25; 43; 8; 8; 43; 25; 8; 8; 8; 8; 25; 8; 43; 8; 25; 8; 8; 8; 25; 8; 43; 43; 25; 8; 8; 8];
  [25; 8; 43; 25; 43; 8; 8; 8; 25; 8; 43; 8; 8; 25; 8; 8; 25; 8; 43; 43; 8; 25; 8; 8; 25; 8; 43];
  [25; 25; 25; 8; 8; 25; 8; 43; 8; 43; 25; 8; 8; 25; 8; 43; 25; 8; 43; 8; 8; 25; 8; 43; 8; 8; 8];
  [25; 8; 25; 8; 43; 43; 8; 8; 25; 8; 25; 8; 43; 25; 25; 8; 25; 8; 25; 8; 43; 8; 43; 8; 25; 8; 25];
  [8; 43; 25; 8; 25; 25; 8; 25; 8; 43; 8; 25; 25; 25; 8; 25; 8; 43; 8; 8; 43; 25; 8; 25; 8; 43];
  [25; 8; 8; 43; 8; 25; 8; 43; 8; 25; 8; 43; 8; 25; 8; 43; 8; 8; 25; 43; 8; 25; 8; 43; 8; 8; 8; 8];
  [25; 25; 8; 43; 43; 8; 8; 8; 25; 25; 8; 43; 25; 25; 8; 8; 25; 25; 8; 43; 8; 43; 8; 8; 25; 25; 8];
  [43; 25; 8; 25; 8; 25; 25; 8; 43; 8; 25; 25; 8; 25; 25; 8; 43; 8; 8; 43; 8; 25; 25; 8; 43; 25];
  [8; 8; 25; 25; 25; 8; 43; 8; 25; 8; 25; 25; 25; 8; 43; 8; 8; 25; 25; 25; 25; 8; 43; 8; 8; 8; 43];
  [25; 25; 8; 43; 43; 43; 8; 43; 25; 25; 8; 43; 25; 8; 8; 8; 43; 25; 8; 43; 8; 25; 8; 8; 43; 25];
  [8; 43; 8; 8; 25; 8; 43; 25; 8; 43; 25; 43; 43; 8; 43; 25; 8; 43; 8; 8; 8; 25; 43; 25; 8; 43; 8];
  [8; 8; 8; 8; 43; 8; 43; 25; 25; 8; 8; 8; 43; 8; 43; 25; 8; 25; 8; 8; 43; 8; 43; 8; 25; 25; 8; 8];
  [43; 8; 43; 25; 8; 8; 25; 8; 43; 8; 43; 8; 25; 8; 25; 8; 43; 8; 43; 8; 8; 25; 25; 8; 43; 8; 43];
  [43; 8; 43; 43; 8; 43; 8; 43; 25; 8; 8; 8; 25; 43; 8; 43; 8; 25; 8; 8; 25; 43; 8; 43; 8; 8; 8];
  [25; 25; 43; 8; 43; 25; 25; 43; 25; 25; 43; 8; 43; 43; 8; 43; 8; 43; 43; 8; 43; 8; 43; 25; 25];
  [43; 43; 8; 43; 43; 43; 25; 25; 43; 43; 8; 43; 43; 8; 8; 43; 43; 43; 8; 43; 43; 8; 43; 43; 43];
  [43; 8; 43; 25; 8; 8; 8; 8; 8; 25; 43; 8; 25; 8; 8; 8; 8; 25; 43; 25; 43; 8; 8; 8; 8; 25; 43; 8];
  [8; 25; 8; 8; 8; 25; 43; 43; 8; 25; 8; 8; 8; 25; 43; 25; 25; 25; 8; 8; 8; 25; 43; 8; 43; 25; 8];
  [8; 8; 25; 43; 8; 25; 43; 8; 8; 8; 25; 43; 8; 8; 8; 25; 8; 8; 25; 43; 43; 8; 8; 25; 8; 8; 25];
  [43; 25; 25; 8; 25; 8; 8; 25; 43; 8; 43; 8; 25; 8; 8; 25; 43; 25; 8; 25; 25; 8; 8; 25; 43; 8];
  [25; 25; 25; 8; 8; 25; 43; 8; 8; 43; 25; 8; 8; 25; 43; 25; 8; 8; 43; 8; 8; 25; 43; 8; 25; 8; 43];
  [8; 8; 25; 43; 8; 8; 25; 43; 8; 8; 25; 43; 8; 8; 8; 8; 25; 8; 25; 43; 25; 25; 8; 8; 25; 8; 25];
  [43; 25; 8; 25; 8; 25; 8; 25; 43; 8; 25; 25; 8; 25; 8; 25; 43; 25; 8; 8; 25; 25; 8; 25; 43; 8];
  [25; 8; 25; 25; 8; 25; 43; 8; 8; 25; 25; 25; 8; 25; 43; 43; 43; 25; 25; 25; 8; 25; 43; 25; 8; 8];
  [8; 43; 8; 25; 43; 8; 25; 8; 8; 43; 8; 25; 43; 8; 8; 25; 8; 43; 8; 25; 43; 8; 8; 8; 25; 43; 8];
  [25; 43; 43; 25; 43; 43; 43; 8; 25; 43; 8; 8; 8; 8; 8; 25; 25; 43; 43; 8; 8; 8; 8; 25; 25; 43];
  [25; 25; 8; 8; 8; 25; 25; 43; 8; 43; 8; 8; 8; 25; 25; 43; 25; 8; 25; 8; 8; 25; 25; 43; 8; 25];
  [25; 8; 8; 25; 25; 43; 8; 8; 43; 8; 8; 25; 25; 43; 25; 8; 8; 25; 8; 25; 25; 43; 8; 25; 8; 25; 8];
  [25; 25; 43; 8; 8; 25; 25; 8; 25; 25; 43; 8; 8; 8; 43; 8; 25; 25; 43; 43; 25; 25; 43; 8; 25; 25];
  [43; 25; 8; 8; 8; 25; 25; 25; 43; 8; 25; 8; 8; 25; 25; 25; 43; 8; 8; 25; 8; 25; 25; 25; 43; 8];
  [8; 8; 25; 25; 25; 25; 43; 8; 43; 25; 43; 25; 25; 25; 43; 25; 8; 43; 43; 25; 25; 25; 43; 8; 8];
  [8; 8; 43; 25; 25; 43; 43; 25; 8; 25; 43; 25; 25; 43; 8; 25; 43; 25; 43; 25; 25; 43; 25; 8; 8];
  [8; 8; 43; 25; 43; 8; 25; 8; 8; 8; 43; 25; 43; 8; 8; 25; 8; 8; 43; 25; 43; 43; 25; 43; 8; 8; 43];
  [25; 43; 8; 8; 8; 25; 8; 43; 25; 43; 25; 43; 43; 43; 8; 43; 25; 43; 8; 8; 8; 8; 25; 43; 25; 43];
  [25; 43; 8; 25; 25; 43; 25; 43; 43; 8; 25; 25; 25; 43; 25; 43; 8; 8; 25; 43; 43; 43; 25; 43; 8];
  [8; 8; 8; 8; 8; 43; 43; 25; 25; 8; 8; 8; 8; 43; 43; 43; 43; 8; 8; 8; 8; 43; 43; 8; 25; 25; 8; 8];
  [8; 43; 43; 43; 8; 43; 8; 8; 8; 43; 43; 43; 43; 43; 8; 8; 8; 43; 43; 25; 8; 8; 25; 8; 8; 43; 43];
  [8; 25; 8; 25; 8; 8; 43; 43; 8; 8; 25; 25; 8; 8; 43; 43; 43; 8; 43; 43; 8; 8; 43; 43; 43; 43];
  [43; 43; 8; 8; 43; 43; 8; 8; 8; 25; 25; 8; 43; 43; 25; 25; 43; 25; 25; 8; 43; 43; 43; 8; 8; 8];
  [43; 8; 43; 43; 43; 43; 8; 8; 43; 8; 43; 43; 43; 8; 43; 8; 43; 8; 43; 43; 8; 43; 43; 8; 43; 8];
  [43; 43; 43; 43; 43; 8; 43; 8; 43; 43; 43; 8; 8; 43; 43; 8; 43; 43; 8; 43; 8; 43; 43; 8; 43; 43];
  [43; 43; 8; 43; 43; 8; 43; 43; 8; 43; 43; 43; 43; 8; 43; 43; 25; 8; 8; 8; 8; 25; 43; 43; 8; 25];
  [8; 8; 8; 25; 43; 43; 8; 8; 25; 8; 8; 25; 43; 43; 8; 8; 8; 25; 8; 25; 43; 43; 25; 43; 8; 43; 8];
  [25; 43; 43; 8; 25; 43; 43; 8; 25; 43; 43; 8; 8; 8; 8; 25; 25; 43; 43; 25; 43; 25; 8; 25; 25];
  [43; 43; 25; 8; 25; 25; 43; 25; 43; 43; 43; 43; 8; 8; 8; 43; 43; 43; 8; 43; 43; 8; 8; 43; 43];
  [43; 43; 8; 43; 43; 8; 43; 43; 43; 8; 25; 25; 25; 25; 43; 43; 43; 43; 25; 8; 43; 25; 43; 43; 43];
  [8; 43; 8; 8; 43; 43; 43; 43; 43; 43; 8; 8; 43; 43; 43; 43; 8; 8; 43; 8; 43; 43; 43; 43; 43; 8];
  [43; 8; 43; 43; 43; 43; 8; 43; 43; 8; 43; 43; 43; 43; 8; 43; 8; 43; 43; 43; 43; 43; 43; 43; 43];
  [43; 43; 43; 43; 43]].

Definition IQ3_XXS_GRID : list Z := concat [
  [4; 4; 4; 4; 20; 4; 4; 4; 36; 4; 4; 4; 12; 12; 4; 4; 28; 12; 4; 4; 62; 12; 4; 4; 4; 20; 4; 4];
  [20; 20; 4; 4; 12; 28; 4; 4; 20; 36; 4; 4; 28; 62; 4; 4; 44; 62; 4; 4; 12; 4; 12; 4; 28; 4; 12];
  [4; 4; 12; 12; 4; 20; 12; 12; 4; 12; 20; 12; 4; 44; 20; 12; 4; 4; 28; 12; 4; 20; 28; 12; 4; 12];
  [36; 12; 4; 36; 44; 12; 4; 4; 62; 12; 4; 4; 4; 20; 4; 20; 4; 20; 4; 36; 4; 20; 4; 12; 12; 20; 4];
  [4; 20; 20; 4; 20; 20; 20; 4; 12; 28; 20; 4; 28; 28; 20; 4; 62; 28; 20; 4; 12; 44; 20; 4; 62];
  [44; 20; 4; 44; 62; 20; 4; 12; 4; 28; 4; 62; 4; 28; 4; 4; 12; 28; 4; 20; 12; 28; 4; 44; 20; 28];
  [4; 4; 62; 28; 4; 28; 12; 36; 4; 62; 28; 36; 4; 36; 36; 36; 4; 62; 44; 36; 4; 28; 62; 36; 4; 44];
  [62; 36; 4; 12; 4; 44; 4; 62; 4; 44; 4; 20; 28; 44; 4; 20; 44; 44; 4; 44; 28; 52; 4; 36; 52; 52];
  [4; 4; 12; 62; 4; 36; 12; 62; 4; 52; 12; 62; 4; 28; 36; 62; 4; 12; 52; 62; 4; 12; 4; 4; 12; 28];
  [4; 4; 12; 4; 12; 4; 12; 20; 12; 4; 12; 12; 20; 4; 12; 28; 20; 4; 12; 4; 28; 4; 12; 20; 28; 4];
  [12; 36; 28; 4; 12; 62; 36; 4; 12; 4; 44; 4; 12; 4; 4; 12; 12; 20; 4; 12; 12; 12; 12; 12; 12; 4];
  [20; 12; 12; 20; 20; 12; 12; 12; 4; 20; 12; 28; 4; 20; 12; 4; 12; 20; 12; 20; 12; 20; 12; 12];
  [20; 20; 12; 4; 28; 20; 12; 20; 62; 20; 12; 4; 4; 28; 12; 20; 4; 28; 12; 4; 20; 28; 12; 12; 28];
  [28; 12; 52; 36; 28; 12; 52; 52; 28; 12; 12; 4; 36; 12; 44; 4; 36; 12; 4; 44; 36; 12; 4; 20; 44];
  [12; 36; 20; 44; 12; 52; 36; 44; 12; 12; 62; 44; 12; 44; 4; 52; 12; 20; 20; 62; 12; 4; 36; 62];
  [12; 4; 4; 4; 20; 20; 4; 4; 20; 12; 12; 4; 20; 28; 12; 4; 20; 4; 20; 4; 20; 20; 20; 4; 20; 52];
  [20; 4; 20; 12; 28; 4; 20; 20; 36; 4; 20; 12; 4; 12; 20; 28; 4; 12; 20; 44; 4; 12; 20; 4; 12];
  [12; 20; 20; 12; 12; 20; 12; 20; 12; 20; 4; 28; 12; 20; 28; 52; 12; 20; 62; 52; 12; 20; 4; 62];
  [12; 20; 4; 4; 20; 20; 20; 4; 20; 20; 12; 12; 20; 20; 62; 12; 20; 20; 4; 20; 20; 20; 20; 20; 20];
  [20; 62; 28; 20; 20; 4; 36; 20; 20; 44; 44; 20; 20; 12; 4; 28; 20; 4; 12; 28; 20; 36; 12; 28];
  [20; 4; 62; 28; 20; 36; 62; 28; 20; 44; 28; 36; 20; 28; 44; 36; 20; 28; 4; 44; 20; 62; 20; 44];
  [20; 12; 36; 44; 20; 36; 62; 44; 20; 12; 4; 62; 20; 28; 4; 62; 20; 52; 12; 62; 20; 44; 36; 62];
  [20; 12; 4; 4; 28; 4; 12; 4; 28; 20; 12; 4; 28; 12; 20; 4; 28; 28; 20; 4; 28; 4; 44; 4; 28; 44];
  [52; 4; 28; 20; 62; 4; 28; 4; 4; 12; 28; 20; 4; 12; 28; 4; 20; 12; 28; 12; 28; 12; 28; 36; 36];
  [12; 28; 52; 36; 12; 28; 12; 4; 20; 28; 28; 4; 20; 28; 4; 12; 20; 28; 44; 20; 20; 28; 20; 44];
  [20; 28; 20; 62; 20; 28; 12; 12; 28; 28; 28; 28; 28; 28; 4; 28; 36; 28; 62; 36; 36; 28; 20; 62];
  [36; 28; 4; 4; 44; 28; 52; 4; 44; 28; 20; 20; 44; 28; 44; 44; 44; 28; 36; 12; 52; 28; 52; 28];
  [52; 28; 28; 52; 52; 28; 28; 28; 62; 28; 4; 52; 62; 28; 36; 4; 4; 36; 62; 12; 4; 36; 44; 28; 4];
  [36; 62; 28; 4; 36; 28; 44; 4; 36; 62; 44; 4; 36; 36; 62; 12; 36; 4; 20; 20; 36; 62; 28; 20; 36];
  [4; 36; 20; 36; 4; 52; 20; 36; 52; 52; 20; 36; 62; 4; 28; 36; 44; 36; 28; 36; 36; 4; 36; 36; 12];
  [44; 36; 36; 36; 52; 36; 36; 44; 20; 44; 36; 28; 36; 44; 36; 4; 62; 44; 36; 44; 4; 62; 36; 4];
  [12; 62; 36; 20; 12; 62; 36; 4; 28; 62; 36; 20; 12; 4; 44; 12; 36; 4; 44; 4; 62; 4; 44; 4; 4];
  [12; 44; 52; 4; 12; 44; 52; 20; 12; 44; 44; 44; 12; 44; 36; 12; 20; 44; 20; 28; 20; 44; 20; 62];
  [20; 44; 20; 4; 28; 44; 28; 44; 28; 44; 4; 12; 36; 44; 28; 20; 36; 44; 62; 20; 36; 44; 20; 62];
  [36; 44; 20; 4; 44; 44; 12; 28; 44; 44; 4; 44; 52; 44; 36; 20; 62; 44; 20; 36; 62; 44; 36; 20];
  [4; 52; 36; 36; 4; 52; 52; 36; 4; 52; 36; 52; 4; 52; 12; 20; 12; 52; 12; 52; 12; 52; 62; 12; 20];
  [52; 36; 52; 20; 52; 4; 28; 28; 52; 52; 28; 28; 52; 36; 36; 36; 52; 44; 4; 44; 52; 20; 44; 44];
  [52; 28; 28; 52; 52; 28; 4; 62; 52; 12; 20; 62; 52; 28; 4; 4; 62; 44; 4; 4; 62; 62; 4; 4; 62; 4];
  [12; 4; 62; 20; 28; 4; 62; 20; 44; 4; 62; 52; 20; 12; 62; 4; 36; 12; 62; 20; 12; 20; 62; 44; 36];
  [20; 62; 20; 44; 20; 62; 4; 4; 28; 62; 44; 12; 28; 62; 28; 28; 28; 62; 4; 52; 28; 62; 12; 20];
  [36; 62; 12; 36; 36; 62; 4; 4; 44; 62; 20; 4; 44; 62; 36; 20; 44; 62; 4; 28; 52; 62]].

Definition IQ3_S_GRID : list Z := concat [
  [1; 1; 1; 1; 3; 1; 1; 1; 5; 1; 1; 1; 11; 1; 1; 1; 15; 1; 1; 1; 1; 3; 1; 1; 3; 3; 1; 1; 5; 3; 1];
  [1; 9; 3; 1; 1; 13; 3; 1; 1; 1; 5; 1; 1; 3; 5; 1; 1; 11; 5; 1; 1; 7; 7; 1; 1; 1; 9; 1; 1; 5; 9];
  [1; 1; 11; 9; 1; 1; 15; 9; 1; 1; 3; 11; 1; 1; 7; 11; 1; 1; 1; 13; 1; 1; 5; 13; 1; 1; 3; 15; 1];
  [1; 9; 15; 1; 1; 15; 15; 1; 1; 1; 1; 3; 1; 3; 1; 3; 1; 5; 1; 3; 1; 9; 1; 3; 1; 1; 3; 3; 1; 3; 3];
  [3; 1; 11; 3; 3; 1; 1; 5; 3; 1; 7; 5; 3; 1; 15; 5; 3; 1; 3; 7; 3; 1; 11; 7; 3; 1; 9; 9; 3; 1; 3];
  [13; 3; 1; 11; 13; 3; 1; 5; 15; 3; 1; 1; 1; 5; 1; 3; 1; 5; 1; 11; 1; 5; 1; 15; 1; 5; 1; 1; 3; 5];
  [1; 7; 3; 5; 1; 13; 3; 5; 1; 3; 5; 5; 1; 11; 5; 5; 1; 1; 7; 5; 1; 9; 7; 5; 1; 5; 9; 5; 1; 11; 9];
  [5; 1; 15; 9; 5; 1; 3; 11; 5; 1; 7; 11; 5; 1; 1; 15; 5; 1; 7; 15; 5; 1; 7; 1; 7; 1; 3; 3; 7; 1];
  [11; 3; 7; 1; 1; 5; 7; 1; 5; 5; 7; 1; 3; 7; 7; 1; 7; 7; 7; 1; 13; 7; 7; 1; 9; 9; 7; 1; 1; 11; 7];
  [1; 5; 11; 7; 1; 15; 13; 7; 1; 3; 15; 7; 1; 11; 15; 7; 1; 1; 1; 9; 1; 7; 3; 9; 1; 15; 3; 9; 1];
  [3; 5; 9; 1; 9; 5; 9; 1; 5; 7; 9; 1; 1; 9; 9; 1; 7; 9; 9; 1; 3; 11; 9; 1; 1; 15; 9; 1; 5; 1; 11];
  [1; 9; 1; 11; 1; 1; 5; 11; 1; 5; 5; 11; 1; 13; 5; 11; 1; 7; 7; 11; 1; 3; 9; 11; 1; 11; 9; 11; 1];
  [15; 9; 11; 1; 13; 13; 11; 1; 7; 15; 11; 1; 13; 1; 13; 1; 3; 3; 13; 1; 7; 3; 13; 1; 3; 7; 13; 1];
  [5; 11; 13; 1; 3; 15; 13; 1; 1; 1; 15; 1; 5; 1; 15; 1; 9; 1; 15; 1; 1; 5; 15; 1; 5; 5; 15; 1];
  [13; 5; 15; 1; 7; 7; 15; 1; 1; 11; 15; 1; 9; 11; 15; 1; 1; 1; 1; 3; 3; 1; 1; 3; 5; 1; 1; 3; 9];
  [1; 1; 3; 1; 3; 1; 3; 3; 3; 1; 3; 7; 3; 1; 3; 11; 3; 1; 3; 15; 3; 1; 3; 1; 5; 1; 3; 5; 5; 1; 3];
  [3; 7; 1; 3; 9; 7; 1; 3; 13; 7; 1; 3; 9; 11; 1; 3; 13; 11; 1; 3; 3; 13; 1; 3; 5; 15; 1; 3; 1; 1];
  [3; 3; 3; 1; 3; 3; 7; 1; 3; 3; 13; 1; 3; 3; 1; 3; 3; 3; 9; 3; 3; 3; 3; 5; 3; 3; 1; 7; 3; 3; 7];
  [7; 3; 3; 3; 9; 3; 3; 1; 11; 3; 3; 5; 11; 3; 3; 1; 15; 3; 3; 13; 15; 3; 3; 1; 1; 5; 3; 5; 3; 5];
  [3; 11; 3; 5; 3; 15; 3; 5; 3; 1; 5; 5; 3; 9; 5; 5; 3; 5; 7; 5; 3; 1; 9; 5; 3; 7; 9; 5; 3; 11];
  [11; 5; 3; 1; 13; 5; 3; 5; 15; 5; 3; 3; 1; 7; 3; 9; 1; 7; 3; 15; 1; 7; 3; 1; 3; 7; 3; 7; 3; 7];
  [3; 3; 5; 7; 3; 15; 5; 7; 3; 1; 7; 7; 3; 9; 7; 7; 3; 3; 9; 7; 3; 5; 13; 7; 3; 1; 15; 7; 3; 7; 1];
  [9; 3; 11; 1; 9; 3; 5; 3; 9; 3; 9; 3; 9; 3; 3; 7; 9; 3; 7; 7; 9; 3; 5; 9; 9; 3; 13; 9; 9; 3; 1];
  [11; 9; 3; 9; 11; 9; 3; 3; 1; 11; 3; 1; 3; 11; 3; 7; 3; 11; 3; 3; 5; 11; 3; 1; 7; 11; 3; 5; 7];
  [11; 3; 3; 11; 11; 3; 1; 5; 13; 3; 9; 5; 13; 3; 15; 5; 13; 3; 9; 9; 13; 3; 13; 9; 13; 3; 3; 1];
  [15; 3; 7; 1; 15; 3; 1; 3; 15; 3; 5; 3; 15; 3; 3; 5; 15; 3; 11; 7; 15; 3; 3; 9; 15; 3; 5; 13];
  [15; 3; 1; 15; 15; 3; 1; 1; 1; 5; 3; 1; 1; 5; 7; 1; 1; 5; 11; 1; 1; 5; 15; 1; 1; 5; 1; 3; 1; 5];
  [5; 3; 1; 5; 9; 3; 1; 5; 13; 3; 1; 5; 3; 5; 1; 5; 7; 5; 1; 5; 15; 5; 1; 5; 1; 7; 1; 5; 5; 7; 1];
  [5; 3; 9; 1; 5; 7; 9; 1; 5; 11; 9; 1; 5; 1; 11; 1; 5; 5; 11; 1; 5; 15; 13; 1; 5; 1; 15; 1; 5; 7];
  [15; 1; 5; 11; 15; 1; 5; 1; 1; 3; 5; 5; 1; 3; 5; 1; 3; 3; 5; 7; 3; 3; 5; 15; 3; 3; 5; 5; 5; 3];
  [5; 11; 5; 3; 5; 3; 7; 3; 5; 9; 7; 3; 5; 5; 9; 3; 5; 3; 11; 3; 5; 3; 1; 5; 5; 9; 1; 5; 5; 15; 1];
  [5; 5; 3; 5; 5; 5; 7; 5; 5; 5; 1; 7; 5; 5; 15; 7; 5; 5; 3; 9; 5; 5; 7; 11; 5; 5; 15; 11; 5; 5];
  [3; 15; 5; 5; 9; 15; 5; 5; 1; 1; 7; 5; 5; 1; 7; 5; 11; 1; 7; 5; 3; 3; 7; 5; 5; 5; 7; 5; 9; 5; 7];
  [5; 3; 7; 7; 5; 7; 7; 7; 5; 5; 9; 7; 5; 1; 11; 7; 5; 13; 13; 7; 5; 3; 1; 9; 5; 15; 1; 9; 5; 1];
  [5; 9; 5; 7; 5; 9; 5; 5; 7; 9; 5; 11; 7; 9; 5; 3; 9; 9; 5; 5; 15; 9; 5; 11; 15; 9; 5; 9; 1; 11];
  [5; 3; 3; 11; 5; 5; 5; 11; 5; 15; 7; 11; 5; 1; 9; 11; 5; 7; 11; 11; 5; 1; 15; 11; 5; 1; 1; 13];
  [5; 5; 1; 13; 5; 15; 1; 13; 5; 3; 5; 13; 5; 11; 11; 13; 5; 3; 13; 13; 5; 11; 1; 15; 5; 3; 3; 15];
  [5; 13; 5; 15; 5; 1; 7; 15; 5; 7; 9; 15; 5; 1; 11; 15; 5; 5; 1; 1; 7; 3; 3; 1; 7; 7; 3; 1; 7];
  [11; 3; 1; 7; 15; 3; 1; 7; 5; 5; 1; 7; 3; 7; 1; 7; 7; 7; 1; 7; 11; 7; 1; 7; 5; 9; 1; 7; 9; 9; 1];
  [7; 15; 9; 1; 7; 3; 11; 1; 7; 7; 13; 1; 7; 3; 15; 1; 7; 3; 1; 3; 7; 7; 1; 3; 7; 11; 1; 3; 7; 9];
  [3; 3; 7; 3; 5; 3; 7; 7; 5; 3; 7; 1; 9; 3; 7; 1; 13; 3; 7; 5; 15; 3; 7; 13; 15; 3; 7; 1; 1; 5];
  [7; 5; 3; 5; 7; 1; 5; 5; 7; 5; 7; 5; 7; 9; 7; 5; 7; 1; 11; 5; 7; 3; 1; 7; 7; 1; 3; 7; 7; 9; 3];
  [7; 7; 3; 5; 7; 7; 7; 5; 7; 7; 15; 5; 7; 7; 1; 7; 7; 7; 3; 9; 7; 7; 7; 9; 7; 7; 15; 9; 7; 7; 11];
  [11; 7; 7; 7; 15; 7; 7; 7; 1; 9; 7; 3; 3; 9; 7; 13; 3; 9; 7; 5; 5; 9; 7; 3; 7; 9; 7; 5; 11; 9];
  [7; 1; 13; 9; 7; 9; 13; 9; 7; 3; 1; 11; 7; 1; 3; 11; 7; 5; 3; 11; 7; 11; 5; 11; 7; 5; 7; 11; 7];
  [9; 9; 11; 7; 13; 11; 11; 7; 7; 15; 11; 7; 13; 3; 13; 7; 3; 9; 13; 7; 3; 1; 15; 7; 7; 1; 15; 7];
  [1; 5; 15; 7; 5; 5; 15; 7; 11; 7; 15; 7; 1; 1; 1; 9; 9; 1; 1; 9; 5; 3; 1; 9; 1; 5; 1; 9; 9; 5];
  [1; 9; 15; 5; 1; 9; 5; 7; 1; 9; 3; 9; 1; 9; 1; 11; 1; 9; 1; 15; 1; 9; 5; 1; 3; 9; 15; 1; 3; 9];
  [3; 3; 3; 9; 7; 3; 3; 9; 5; 5; 3; 9; 1; 7; 3; 9; 11; 7; 3; 9; 7; 9; 3; 9; 3; 11; 3; 9; 11; 11];
  [3; 9; 3; 1; 5; 9; 7; 1; 5; 9; 1; 3; 5; 9; 11; 3; 5; 9; 3; 5; 5; 9; 7; 7; 5; 9; 1; 9; 5; 9; 15];
  [11; 5; 9; 5; 13; 5; 9; 1; 15; 5; 9; 9; 1; 7; 9; 3; 3; 7; 9; 7; 3; 7; 9; 1; 5; 7; 9; 5; 5; 7; 9];
  [3; 7; 7; 9; 11; 7; 7; 9; 1; 1; 9; 9; 5; 1; 9; 9; 9; 5; 9; 9; 15; 7; 9; 9; 1; 9; 9; 9; 3; 15; 9];
  [9; 11; 1; 11; 9; 15; 1; 11; 9; 3; 5; 11; 9; 5; 13; 11; 9; 7; 3; 13; 9; 9; 7; 13; 9; 1; 13; 13];
  [9; 1; 3; 15; 9; 11; 3; 15; 9; 1; 7; 15; 9; 7; 9; 15; 9; 3; 11; 15; 9; 5; 1; 1; 11; 1; 3; 1; 11];
  [9; 3; 1; 11; 5; 5; 1; 11; 1; 9; 1; 11; 9; 9; 1; 11; 15; 9; 1; 11; 5; 11; 1; 11; 13; 13; 1; 11];
  [9; 15; 1; 11; 3; 1; 3; 11; 7; 1; 3; 11; 11; 1; 3; 11; 5; 3; 3; 11; 3; 5; 3; 11; 5; 7; 3; 11; 5];
  [15; 3; 11; 1; 1; 5; 11; 3; 3; 5; 11; 7; 5; 5; 11; 1; 7; 5; 11; 13; 7; 5; 11; 7; 11; 5; 11; 5];
  [1; 7; 11; 15; 1; 7; 11; 1; 3; 7; 11; 15; 5; 7; 11; 9; 9; 7; 11; 3; 11; 7; 11; 11; 13; 7; 11; 7];
  [15; 7; 11; 3; 1; 9; 11; 9; 1; 9; 11; 1; 5; 9; 11; 5; 7; 9; 11; 13; 9; 9; 11; 5; 3; 11; 11; 13];
  [5; 11; 11; 3; 11; 11; 11; 7; 11; 11; 11; 5; 9; 13; 11; 5; 1; 15; 11; 9; 1; 15; 11; 5; 5; 15];
  [11; 3; 3; 1; 13; 7; 3; 1; 13; 11; 3; 1; 13; 3; 7; 1; 13; 7; 7; 1; 13; 1; 13; 1; 13; 1; 1; 3];
  [13; 1; 5; 3; 13; 15; 5; 3; 13; 9; 13; 3; 13; 5; 3; 5; 13; 9; 7; 5; 13; 5; 9; 5; 13; 11; 11; 5];
  [13; 5; 13; 5; 13; 1; 15; 5; 13; 1; 1; 7; 13; 9; 3; 7; 13; 3; 5; 7; 13; 1; 9; 7; 13; 11; 5; 9];
  [13; 7; 9; 9; 13; 5; 13; 9; 13; 1; 1; 11; 13; 7; 1; 11; 13; 9; 7; 11; 13; 1; 13; 11; 13; 11; 1];
  [13; 13; 1; 9; 13; 13; 3; 3; 15; 13; 7; 3; 15; 13; 1; 1; 1; 15; 9; 1; 1; 15; 15; 1; 1; 15; 1; 5];
  [1; 15; 5; 5; 1; 15; 13; 7; 1; 15; 1; 9; 1; 15; 9; 11; 1; 15; 5; 13; 1; 15; 5; 1; 3; 15; 3; 3];
  [3; 15; 9; 5; 3; 15; 7; 9; 3; 15; 11; 9; 3; 15; 3; 1; 5; 15; 9; 1; 5; 15; 1; 3; 5; 15; 13; 3; 5];
  [15; 3; 5; 5; 15; 1; 7; 5; 15; 3; 11; 5; 15; 5; 1; 7; 15; 5; 7; 7; 15; 11; 7; 7; 15; 7; 11; 7];
  [15; 3; 1; 9; 15; 11; 1; 9; 15; 7; 3; 9; 15; 1; 5; 9; 15; 1; 11; 9; 15; 5; 5; 11; 15; 5; 9; 11];
  [15; 5; 1; 13; 15; 3; 7; 13; 15; 1; 1; 15; 15]].

Definition IQ1_GRID : list Z := concat [
  [-1; -1; -1; -1; -1; -1; -1; -1; 1; -1; -1; -1; -1; -1; -1; -1; 0; 0; -1; -1; -1; -1; -1; -1];
  [-1; 1; -1; -1; -1; -1; -1; -1; 1; 1; -1; -1; -1; -1; -1; -1; 0; -1; 0; -1; -1; -1; -1; -1; 0];
  [0; 0; -1; -1; -1; -1; -1; -1; -1; 1; -1; -1; -1; -1; -1; 1; -1; 1; -1; -1; -1; -1; -1; -1; 1];
  [1; -1; -1; -1; -1; -1; 1; 1; 1; -1; -1; -1; -1; -1; 0; 0; -1; 0; -1; -1; -1; -1; 0; -1; 0; 0];
  [-1; -1; -1; -1; -1; 0; 0; 0; -1; -1; -1; -1; 1; 0; 0; 0; -1; -1; -1; -1; 0; 0; 1; 0; -1; -1];
  [-1; -1; -1; -1; -1; 1; -1; -1; -1; -1; 1; -1; -1; 1; -1; -1; -1; -1; -1; 1; -1; 1; -1; -1; -1];
  [-1; 1; 1; -1; 1; -1; -1; -1; -1; 0; 0; 0; 1; -1; -1; -1; -1; -1; -1; 1; 1; -1; -1; -1; -1; 1];
  [-1; 1; 1; -1; -1; -1; -1; -1; 1; 1; 1; -1; -1; -1; -1; 1; 1; 1; 1; -1; -1; -1; -1; -1; 0; -1];
  [-1; 0; -1; -1; -1; 0; 0; -1; -1; 0; -1; -1; -1; 0; -1; 0; -1; 0; -1; -1; -1; -1; 0; 0; -1; 0];
  [-1; -1; -1; 1; 0; 0; -1; 0; -1; -1; -1; 0; 1; 0; -1; 0; -1; -1; -1; 1; 1; 0; -1; 0; -1; -1; -1];
  [0; 0; 1; -1; 0; -1; -1; -1; 0; -1; -1; 0; 0; -1; -1; -1; 1; 0; -1; 0; 0; -1; -1; -1; 0; 1; -1];
  [0; 0; -1; -1; -1; 1; -1; 0; 0; 0; -1; -1; -1; 0; 0; 0; 0; 0; -1; -1; -1; 1; 1; 0; 0; 0; -1; -1];
  [-1; 0; -1; 1; 0; 0; -1; -1; -1; -1; 0; 1; 0; 0; -1; -1; -1; 1; 0; 1; 0; 0; -1; -1; -1; -1; 1];
  [1; 0; 0; -1; -1; -1; 0; 0; -1; 1; 0; -1; -1; -1; 0; -1; 0; 1; 0; -1; -1; -1; -1; 0; 0; 1; 0];
  [-1; -1; -1; 1; 0; 0; 1; 0; -1; -1; -1; 0; 0; 1; 1; 0; -1; -1; -1; -1; -1; -1; -1; 1; -1; -1];
  [-1; 1; -1; -1; -1; 1; -1; -1; -1; -1; 1; -1; -1; 1; -1; -1; -1; 1; 1; -1; -1; 1; -1; -1; -1; 0];
  [0; 0; -1; 1; -1; -1; -1; -1; -1; 1; -1; 1; -1; -1; -1; 1; -1; 1; -1; 1; -1; -1; -1; -1; 1; 1];
  [-1; 1; -1; -1; -1; 1; 1; 1; -1; 1; -1; -1; -1; 0; 0; -1; 0; 1; -1; -1; -1; 0; -1; 0; 0; 1; -1];
  [-1; -1; 0; 1; 0; 0; 1; -1; -1; -1; -1; 0; 1; 0; 1; -1; -1; -1; 0; 1; 1; 0; 1; -1; -1; -1; -1];
  [-1; -1; 1; 1; -1; -1; -1; 1; -1; -1; 1; 1; -1; -1; -1; -1; 1; -1; 1; 1; -1; -1; -1; 1; 1; -1];
  [1; 1; -1; -1; -1; 0; -1; 0; 1; 1; -1; -1; -1; 0; 0; 0; 1; 1; -1; -1; -1; 0; 1; 0; 1; 1; -1; -1];
  [-1; -1; -1; 1; 1; 1; -1; -1; -1; 1; -1; 1; 1; 1; -1; -1; -1; -1; 1; 1; 1; 1; -1; -1; -1; 1; 1];
  [1; 1; 1; -1; -1; -1; 0; -1; 0; -1; -1; 0; -1; -1; -1; 0; 0; -1; -1; 0; -1; -1; 1; 0; 0; -1; -1];
  [0; -1; -1; 0; 0; 1; -1; -1; 0; -1; -1; 0; -1; -1; 0; -1; 0; -1; -1; 0; 1; -1; 0; -1; 0; -1; -1];
  [0; 0; 0; 0; -1; 0; -1; -1; 1; 1; 0; 0; -1; 0; -1; -1; -1; 0; 1; 0; -1; 0; -1; -1; 0; 0; 1; 0];
  [-1; 0; -1; -1; 0; -1; 0; 1; -1; 0; -1; -1; 0; 1; 0; 1; -1; 0; -1; -1; 0; 0; 1; 1; -1; 0; -1];
  [-1; 0; -1; -1; -1; 0; 0; -1; -1; -1; 0; -1; -1; 0; 0; -1; -1; 0; 0; -1; -1; 0; 0; -1; -1; 1; 0];
  [-1; -1; 0; 0; -1; -1; 0; 0; 0; -1; 0; 0; -1; -1; -1; 1; 0; -1; 0; 0; -1; -1; 1; 1; 0; -1; 0; 0];
  [-1; -1; 0; 1; 1; -1; 0; 0; -1; -1; -1; -1; -1; 0; 0; 0; -1; -1; 0; 0; -1; 0; 0; 0; -1; -1; 1];
  [1; -1; 0; 0; 0; -1; -1; -1; -1; 0; 0; 0; 0; -1; -1; 0; -1; 0; 0; 0; 0; -1; -1; -1; 0; 0; 0; 0];
  [0; -1; -1; 0; 0; 0; 0; 0; 0; -1; -1; 1; 0; 0; 0; 0; 0; -1; -1; 0; 1; 0; 0; 0; 0; -1; -1; -1];
  [-1; 1; 0; 0; 0; -1; -1; 1; -1; 1; 0; 0; 0; -1; -1; 0; 0; 1; 0; 0; 0; -1; -1; -1; 1; 1; 0; 0; 0];
  [-1; -1; 1; 1; 1; 0; 0; 0; -1; -1; 0; -1; -1; 1; 0; 0; -1; -1; 0; -1; 0; 1; 0; 0; -1; -1; 0; 0];
  [0; 1; 0; 0; -1; -1; -1; 1; 0; 1; 0; 0; -1; -1; 1; 1; 0; 1; 0; 0; -1; -1; 0; -1; 1; 1; 0; 0; -1];
  [-1; -1; 0; 1; 1; 0; 0; -1; -1; 0; 0; 1; 1; 0; 0; -1; -1; 1; 0; 1; 1; 0; 0; -1; -1; 0; 1; 1; 1];
  [0; 0; -1; -1; -1; 0; 0; -1; 1; 0; -1; -1; 0; 1; 0; -1; 1; 0; -1; -1; 0; -1; -1; 0; 1; 0; -1];
  [-1; -1; 0; -1; 0; 1; 0; -1; -1; -1; -1; 0; 0; 1; 0; -1; -1; 1; -1; 0; 0; 1; 0; -1; -1; 0; 0; 0];
  [0; 1; 0; -1; -1; -1; 1; 0; 0; 1; 0; -1; -1; -1; -1; 1; 0; 1; 0; -1; -1; 0; -1; 1; 0; 1; 0; -1];
  [-1; 1; 0; 1; 0; 1; 0; -1; -1; 0; 1; 1; 0; 1; 0; -1; -1; 0; 0; -1; 1; 1; 0; -1; -1; 0; -1; 0; 1];
  [1; 0; -1; -1; -1; 0; 0; 1; 1; 0; -1; -1; 0; 1; 0; 1; 1; 0; -1; -1; -1; -1; -1; -1; -1; 1; -1];
  [-1; 1; -1; -1; -1; -1; 1; -1; -1; -1; 1; -1; -1; -1; 1; -1; -1; 1; 1; -1; -1; -1; 1; -1; -1; 0];
  [0; 0; -1; -1; 1; -1; -1; -1; -1; 1; -1; -1; 1; -1; -1; 1; -1; 1; -1; -1; 1; -1; -1; -1; 1; 1];
  [-1; -1; 1; -1; -1; 1; 1; 1; -1; -1; 1; -1; -1; 0; 0; -1; 0; -1; 1; -1; -1; 0; -1; 0; 0; -1; 1];
  [-1; -1; 1; 0; 0; 0; -1; 1; -1; -1; 0; 0; 1; 0; -1; 1; -1; -1; -1; -1; -1; 1; -1; 1; -1; -1; 1];
  [-1; -1; 1; -1; 1; -1; -1; -1; 1; -1; 1; -1; 1; -1; -1; 1; 1; -1; 1; -1; 1; -1; -1; 0; 0; 0; 1];
  [-1; 1; -1; -1; -1; -1; 1; 1; -1; 1; -1; -1; 1; -1; 1; 1; -1; 1; -1; -1; -1; 1; 1; 1; -1; 1; -1];
  [-1; 1; 1; 1; 1; -1; 1; -1; -1; 0; 0; -1; -1; 0; 1; -1; -1; 0; -1; 0; -1; 0; 1; -1; -1; -1; 0];
  [0; -1; 0; 1; -1; -1; 0; 1; 0; -1; 0; 1; -1; -1; -1; 0; 1; -1; 0; 1; -1; -1; 0; 0; 1; -1; 0; 1];
  [-1; -1; 0; -1; -1; 0; 0; 1; -1; -1; -1; -1; 0; 0; 0; 1; -1; -1; 0; -1; 0; 0; 0; 1; -1; -1; 0];
  [0; 0; 0; 0; 1; -1; -1; 0; -1; 1; 0; 0; 1; -1; -1; -1; 0; 1; 0; 0; 1; -1; -1; 0; 1; 1; 0; 0; 1];
  [-1; -1; 0; -1; 0; 1; 0; 1; -1; -1; -1; 0; 0; 1; 0; 1; -1; -1; 1; 0; 0; 1; 0; 1; -1; -1; 0; 1];
  [0; 1; 0; 1; -1; -1; 0; 0; 1; 1; 0; 1; -1; -1; -1; -1; -1; -1; 1; 1; -1; -1; 1; -1; -1; -1; 1];
  [1; -1; -1; -1; 1; -1; -1; 1; 1; -1; -1; 1; 1; -1; -1; 1; 1; -1; -1; 0; 0; 0; -1; 1; 1; -1; -1];
  [-1; -1; 1; -1; 1; 1; -1; -1; 1; -1; 1; -1; 1; 1; -1; -1; -1; 1; 1; -1; 1; 1; -1; -1; 1; 1; 1];
  [-1; 1; 1; -1; -1; 0; 0; -1; 0; 1; 1; -1; -1; 0; -1; 0; 0; 1; 1; -1; -1; 0; 1; 0; 0; 1; 1; -1];
  [-1; 0; -1; 1; 0; 1; 1; -1; -1; 0; 0; 1; 0; 1; 1; -1; -1; -1; -1; -1; 1; 1; 1; -1; -1; 1; -1];
  [-1; 1; 1; 1; -1; -1; 0; 0; -1; 1; 1; 1; -1; -1; -1; 1; -1; 1; 1; 1; -1; -1; 1; 1; -1; 1; 1; 1];
  [-1; -1; 0; 0; 0; 1; 1; 1; -1; -1; -1; -1; 1; 1; 1; 1; -1; -1; 1; -1; 1; 1; 1; 1; -1; -1; -1; 1];
  [1; 1; 1; 1; -1; -1; 1; 1; 1; 1; 1; 1; -1; -1; -1; -1; 0; -1; -1; -1; 0; -1; 0; -1; 0; -1; -1];
  [-1; 0; -1; -1; 0; 0; -1; -1; -1; 0; -1; 0; 1; 0; -1; -1; -1; 0; -1; -1; 0; 1; -1; -1; -1; 0];
  [-1; 0; 0; 1; -1; -1; -1; 0; -1; 0; -1; -1; 0; -1; -1; 0; -1; -1; 0; -1; 0; -1; -1; 0; -1; -1];
  [-1; 0; 0; -1; -1; 0; -1; 0; 0; 0; 0; -1; -1; 0; -1; -1; 1; 0; 0; -1; -1; 0; -1; 0; -1; 1; 0];
  [-1; -1; 0; -1; -1; 0; 1; 0; -1; -1; 0; -1; 0; 0; 1; 0; -1; -1; 0; -1; 0; 1; 1; 0; -1; -1; 0];
  [-1; 0; -1; 0; 1; -1; -1; 0; -1; -1; 0; 0; 1; -1; -1; 0; -1; 1; 0; 0; 1; -1; -1; 0; -1; 0; -1];
  [1; 1; -1; -1; 0; -1; 0; 0; 1; 1; -1; -1; 0; -1; 0; -1; -1; -1; 0; -1; 0; -1; -1; 0; -1; -1; 0];
  [-1; 0; -1; 1; 0; -1; -1; 0; -1; 0; -1; 0; 1; -1; -1; 0; -1; 0; -1; -1; -1; 0; -1; 0; -1; 0; -1];
  [1; -1; 0; -1; 0; -1; 0; -1; 0; 0; 0; -1; 0; -1; 0; -1; -1; 1; 0; -1; 0; -1; 0; -1; 0; -1; 1];
  [-1; 0; -1; 0; -1; -1; 0; 1; -1; 0; -1; 0; -1; 0; 1; 1; -1; 0; -1; 0; -1; 0; 0; -1; 0; 0; -1; 0];
  [-1; 1; 1; -1; 0; 0; -1; 0; -1; -1; -1; 0; 0; 0; -1; 0; -1; 0; -1; 0; 0; 0; -1; 0; -1; 1; -1; 0];
  [0; 0; -1; 0; -1; -1; 0; 0; 0; 0; -1; 0; -1; 0; 0; 0; 0; 0; -1; 0; -1; 1; 0; 0; 0; 0; -1; 0; -1];
  [0; 1; 0; 0; 0; -1; 0; -1; -1; -1; 1; 0; 0; -1; 0; -1; 0; 0; 1; 0; 0; -1; 0; -1; -1; 0; -1; 1];
  [0; -1; 0; -1; 1; -1; 0; 1; 0; -1; 0; -1; 0; 0; 0; 1; 0; -1; 0; -1; 0; -1; 1; 1; 0; -1; 0; -1];
  [-1; 0; 1; 1; 0; -1; 0; -1; 0; -1; 0; -1; 1; -1; 0; -1; -1; 0; 0; -1; 1; -1; 0; -1; 1; 0; 0; -1];
  [1; -1; 0; -1; 0; 0; 1; -1; 1; -1; 0; -1; -1; -1; -1; 0; 1; -1; 0; -1; 1; 0; -1; 0; 1; -1; 0];
  [-1; 0; 1; -1; 0; 1; -1; 0; -1; 1; -1; 0; 0; 1; -1; 0; -1; 0; 0; 0; 0; 1; -1; 0; -1; -1; 1; 0];
  [0; 1; -1; 0; -1; 1; 1; 0; 0; 1; -1; 0; -1; -1; 0; 1; 0; 1; -1; 0; -1; 1; 0; 1; 0; 1; -1; 0; -1];
  [0; 0; -1; 1; 1; -1; 0; -1; 0; -1; 0; 1; 1; -1; 0; -1; -1; 0; 0; 1; 1; -1; 0; -1; 1; 0; 0; 1; 1];
  [-1; 0; -1; 0; 0; 1; 1; 1; -1; 0; -1; 0; -1; -1; -1; -1; 0; 0; -1; 1; 0; -1; -1; -1; 0; 0; -1];
  [0; 1; -1; -1; -1; 0; 0; -1; -1; 0; 0; -1; -1; 0; 0; -1; 0; 0; 0; -1; -1; 0; 0; -1; -1; 1; 0];
  [-1; -1; 0; 0; -1; 0; 1; 0; -1; -1; 0; 0; -1; 0; -1; 1; -1; -1; 0; 0; -1; 1; 0; 1; -1; -1; 0; 0];
  [-1; 0; -1; -1; 0; -1; 0; 0; -1; 0; 0; -1; 0; -1; 0; 0; -1; 1; 0; -1; 0; -1; 0; 0; -1; -1; 1];
  [-1; 0; -1; 0; 0; -1; 1; 1; -1; 0; -1; 0; 0; -1; 0; -1; 0; 0; -1; 0; 0; -1; -1; 0; 0; 0; -1; 0];
  [0; -1; 0; 0; 0; 0; -1; 0; 0; -1; 1; 0; 0; 0; -1; 0; 0; -1; 0; 1; 0; 0; -1; 0; 0; -1; 1; -1; 1];
  [0; -1; 0; 0; -1; 0; 0; 1; 0; -1; 0; 0; -1; -1; 1; 1; 0; -1; 0; 0; -1; -1; 0; -1; 1; -1; 0; 0];
  [-1; 0; 1; -1; 1; -1; 0; 0; -1; -1; -1; 0; 1; -1; 0; 0; -1; -1; 0; 0; 1; -1; 0; 0; -1; 0; 0; 0];
  [1; -1; 0; 0; -1; -1; 1; 0; 1; -1; 0; 0; -1; 0; 1; 0; 1; -1; 0; 0; -1; 1; 1; 0; 1; -1; 0; 0; -1];
  [0; -1; 1; 1; -1; 0; 0; -1; -1; 0; 1; 1; -1; 0; 0; -1; 0; 0; 1; 1; -1; 0; 0; -1; 0; 1; 1; 1; -1];
  [0; 0; -1; 1; -1; -1; -1; 0; 0; 0; -1; 0; 0; -1; -1; 0; 0; 0; -1; 1; 1; -1; -1; 0; 0; 0; -1; 0];
  [-1; 0; -1; 0; 0; 0; -1; -1; 0; 0; -1; 0; 0; 0; -1; 0; 0; 0; -1; 0; 0; 0; -1; 1; 0; 0; -1; 0; 0];
  [0; -1; 0; 1; 0; -1; 0; 0; 0; -1; -1; -1; 1; -1; 0; 0; 0; -1; 1; -1; 1; -1; 0; 0; 0; -1; 0; 0];
  [1; -1; 0; 0; 0; -1; -1; 1; 1; -1; 0; 0; 0; -1; 1; 1; 1; -1; 0; 0; 0; -1; 0; -1; -1; 0; 0; 0; 0];
  [-1; -1; 0; -1; 0; 0; 0; 0; -1; 0; 0; -1; 0; 0; 0; 0; -1; 1; 0; -1; 0; 0; 0; 0; -1; 0; -1; 0; 0];
  [0; 0; 0; -1; 1; -1; 0; 0; 0; 0; 0; -1; -1; 0; 0; 0; 0; 0; 0; -1; 0; 0; 0; 0; 0; 0; 0; -1; 1; 0];
  [0; 0; 0; 0; 0; -1; 0; 1; 0; 0; 0; 0; 0; -1; 1; 1; 0; 0; 0; 0; 0; -1; 0; -1; 1; 0; 0; 0; 0; -1];
  [-1; 0; 1; 0; 0; 0; 0; -1; 0; 0; 1; 0; 0; 0; 0; -1; 1; 0; 1; 0; 0; 0; 0; -1; 0; 1; 1; 0; 0; 0];
  [0; -1; -1; -1; -1; 1; 0; 0; 0; -1; 1; -1; -1; 1; 0; 0; 0; -1; -1; 0; -1; 1; 0; 0; 0; -1; 0; 0];
  [-1; 1; 0; 0; 0; -1; -1; 1; -1; 1; 0; 0; 0; -1; 1; 1; -1; 1; 0; 0; 0; -1; -1; -1; 0; 1; 0; 0; 0];
  [-1; 0; -1; 0; 1; 0; 0; 0; -1; -1; 0; 0; 1; 0; 0; 0; -1; 0; 0; 0; 1; 0; 0; 0; -1; 1; 0; 0; 1; 0];
  [0; 0; -1; 0; 1; 0; 1; 0; 0; 0; -1; 1; 1; 0; 1; 0; 0; 0; -1; -1; -1; 1; 1; 0; 0; 0; -1; 1; -1];
  [1; 1; 0; 0; 0; -1; 0; 0; 1; 1; 0; 0; 0; -1; 0; -1; -1; -1; 1; 0; 0; -1; -1; 0; -1; -1; 1; 0; 0];
  [-1; 0; 0; -1; -1; 1; 0; 0; -1; 1; 0; -1; -1; 1; 0; 0; -1; 0; 0; 0; -1; 1; 0; 0; -1; 1; 0; 0];
  [-1; 1; 0; 0; -1; -1; 1; 0; -1; 1; 0; 0; -1; 1; 1; 0; -1; 1; 0; 0; -1; 0; -1; 1; -1; 1; 0; 0];
  [-1; 1; 0; 1; -1; 1; 0; 0; -1; -1; -1; -1; 0; 1; 0; 0; -1; 1; -1; -1; 0; 1; 0; 0; -1; -1; 0; -1];
  [0; 1; 0; 0; -1; 0; 0; -1; 0; 1; 0; 0; -1; -1; 1; -1; 0; 1; 0; 0; -1; 1; 1; -1; 0; 1; 0; 0; -1];
  [0; -1; 0; 0; 1; 0; 0; -1; 0; 0; 0; 0; 1; 0; 0; -1; 1; 0; 0; 0; 1; 0; 0; -1; -1; 1; 0; 0; 1; 0];
  [0; -1; 0; 1; 0; 0; 1; 0; 0; -1; 0; -1; 1; 0; 1; 0; 0; -1; -1; 0; 1; 0; 1; 0; 0; -1; 0; 0; 1; 0];
  [1; 0; 0; -1; -1; 1; 1; 0; 1; 0; 0; -1; 0; 1; 1; 0; 1; 0; 0; -1; 1; 1; 1; 0; 1; 0; 0; -1; 1; 0];
  [-1; 1; 1; 0; 0; -1; 1; 1; -1; 1; 1; 0; 0; -1; 1; -1; 0; 1; 1; 0; 0; -1; 0; 0; 0; 1; 1; 0; 0];
  [-1; -1; 0; 1; 1; 1; 0; 0; -1; 0; 1; 1; 1; 1; 0; 0; -1; 0; -1; 0; -1; -1; 1; 0; -1; 1; 0; 0; -1];
  [-1; 1; 0; -1; 0; 0; 1; -1; -1; 1; 0; -1; 0; -1; -1; 0; -1; 1; 0; -1; -1; 0; -1; 0; -1; 1; 0];
  [-1; 1; 0; -1; 0; -1; 1; 0; -1; 0; 1; -1; 0; -1; 1; 0; -1; -1; -1; 0; 0; -1; 1; 0; -1; 0; 0; 0];
  [0; -1; 1; 0; -1; -1; 1; 0; 0; -1; 1; 0; -1; 1; 1; 0; 0; -1; 1; 0; -1; -1; -1; 1; 0; -1; 1; 0];
  [-1; 0; -1; 1; 0; -1; 1; 0; -1; -1; 0; 1; 0; -1; 1; 0; -1; 1; 0; 1; 0; -1; 1; 0; -1; 0; 1; 1; 0];
  [-1; 1; 0; -1; 0; 0; -1; 1; -1; 1; 0; -1; 0; -1; 0; 1; -1; 1; 0; -1; -1; 0; 0; 1; -1; 1; 0; -1];
  [0; 0; 1; 1; -1; 1; 0; -1; -1; -1; 0; -1; 0; 1; 0; -1; 1; -1; 0; -1; 0; 1; 0; -1; 0; 0; 0; -1];
  [0; 1; 0; -1; 1; 1; 0; -1; 0; 1; 0; -1; 0; -1; 1; -1; 0; 1; 0; -1; 0; 0; 1; -1; 0; 1; 0; -1; 1];
  [-1; -1; 0; 0; 1; 0; -1; -1; 0; -1; 0; 0; 1; 0; -1; 0; 0; -1; 0; 0; 1; 0; -1; -1; 1; -1; 0; 0];
  [1; 0; -1; 0; -1; 0; 0; 0; 1; 0; -1; -1; 0; 0; 0; 0; 1; 0; -1; 0; 0; 0; 0; 0; 1; 0; -1; 1; 0; 0];
  [0; 0; 1; 0; -1; 0; 1; 0; 0; 0; 1; 0; -1; 1; 1; 0; 0; 0; 1; 0; -1; -1; -1; 1; 0; 0; 1; 0; -1; 0];
  [0; 1; 0; 0; 1; 0; -1; 1; 1; 1; 0; 0; 1; 0; -1; 0; 1; -1; 1; 0; 1; 0; -1; 0; -1; 0; 1; 0; 1; 0];
  [-1; 1; -1; 0; 1; 0; 1; 0; -1; 0; 0; 0; 1; 0; 1; 0; -1; -1; 1; 0; 1; 0; 1; 0; -1; 0; -1; 1; 1];
  [0; 1; 0; -1; 1; 0; 1; 1; 0; 1; 0; -1; 0; 1; 1; 1; 0; 1; 0; -1; 0; 1; -1; -1; 1; 1; 0; -1; 1; 0];
  [0; -1; 1; 1; 0; -1; -1; 0; 1; -1; 1; 1; 0; -1; 1; 0; 1; -1; 1; 1; 0; -1; -1; 0; -1; 0; 1; 1; 0];
  [-1; 1; 0; -1; 0; 1; 1; 0; -1; 0; 1; -1; 0; 1; 1; 0; -1; -1; -1; 0; 0; 1; 1; 0; -1; 1; -1; 0; 0];
  [1; 1; 0; -1; 0; 0; 0; 0; 1; 1; 0; -1; -1; 1; 0; 0; 1; 1; 0; -1; 0; -1; 1; 0; 1; 1; 0; -1; 1; 0];
  [1; 0; 1; 1; 0; -1; 0; 1; 1; 0; 1; 1; 0; -1; 0; 0; -1; 1; 1; 1; 0; -1; 0; -1; 0; 1; 1; 1; 0; -1];
  [1; 0; 0; 1; 1; 1; 0; -1; 1; 1; 0; 1; 1; 1; 0; -1; -1; -1; -1; -1; -1; -1; 1; -1; 1; -1; -1; -1];
  [-1; -1; 1; -1; -1; 1; -1; -1; -1; -1; 1; -1; 1; 1; -1; -1; -1; -1; 1; -1; 0; 0; 0; -1; -1; -1];
  [1; -1; -1; -1; 1; -1; -1; -1; 1; -1; 1; -1; 1; -1; -1; -1; 1; -1; 0; 0; 1; -1; -1; -1; 1; -1];
  [-1; 1; 1; -1; -1; -1; 1; -1; 1; 1; 1; -1; -1; -1; 1; -1; 0; 0; -1; 0; -1; -1; 1; -1; 0; -1; 0];
  [0; -1; -1; 1; -1; 0; 1; 0; 0; -1; -1; 1; -1; 0; -1; 1; 0; -1; -1; 1; -1; 0; 0; 1; 0; -1; -1; 1];
  [-1; -1; -1; -1; 1; -1; -1; 1; -1; 1; -1; -1; 1; -1; -1; 1; -1; -1; 1; -1; 1; -1; -1; 1; -1; 1];
  [1; -1; 1; -1; -1; 1; -1; 0; 0; 0; 1; -1; -1; 1; -1; -1; -1; 1; 1; -1; -1; 1; -1; 1; -1; 1; 1];
  [-1; -1; 1; -1; 0; 0; 1; 1; -1; -1; 1; -1; -1; 1; 1; 1; -1; -1; 1; -1; 1; 1; 1; 1; -1; -1; 1];
  [-1; 0; 0; -1; -1; 0; -1; 1; -1; 0; -1; 0; -1; 0; -1; 1; -1; -1; 0; 0; -1; 0; -1; 1; -1; 0; 1];
  [0; -1; 0; -1; 1; -1; 0; 0; 1; -1; 0; -1; 1; -1; 1; -1; -1; 0; 0; -1; 1; -1; -1; 0; -1; 0; 0];
  [-1; 1; -1; 0; 1; -1; 0; 0; -1; 1; -1; 0; 0; 0; 0; 0; -1; 1; -1; -1; 1; 0; 0; 0; -1; 1; -1; 1];
  [1; 0; 0; 0; -1; 1; -1; 0; -1; 1; 0; 0; -1; 1; -1; -1; 0; 1; 0; 0; -1; 1; -1; 0; 0; 1; 0; 0; -1];
  [1; -1; 1; 0; 1; 0; 0; -1; 1; -1; 0; 0; -1; 1; 0; -1; 1; -1; -1; -1; 0; 1; 0; -1; 1; -1; 1; 0];
  [0; 1; 0; -1; 1; -1; 0; 1; 0; 1; 0; -1; 1; -1; 0; 0; 1; 1; 0; -1; 1; -1; 0; -1; -1; -1; 1; -1];
  [1; -1; -1; 1; -1; -1; 1; -1; 1; -1; 1; 1; -1; -1; 1; -1; 1; -1; 0; -1; 0; -1; 1; -1; 1; -1; 0];
  [0; 0; -1; 1; -1; 1; -1; -1; -1; 1; -1; 1; -1; 1; -1; 1; -1; 1; -1; 1; -1; 1; -1; -1; 1; 1; -1];
  [1; -1; 1; -1; 1; 1; 1; -1; 1; -1; 1; -1; 0; 0; -1; 0; 1; -1; 1; -1; 0; -1; 0; 0; 1; -1; 1; -1];
  [1; 0; 0; 0; 1; -1; 1; -1; 0; 1; 0; 0; 1; -1; 1; -1; 0; 0; 1; 0; 1; -1; 1; -1; 0; -1; -1; 1; 1];
  [-1; 1; -1; -1; 1; -1; 1; 1; -1; 1; -1; 1; 1; -1; 1; 1; -1; 1; -1; 0; -1; 0; 1; 1; -1; 1; -1; 0];
  [0; 0; 1; 1; -1; 1; -1; -1; -1; 1; 1; 1; -1; 1; -1; 1; -1; 1; 1; 1; -1; 1; -1; -1; 1; 1; 1; 1];
  [-1; 1; -1; 1; 1; 1; 1; 1; -1; 1; -1; 0; 0; -1; -1; -1; 0; 1; -1; -1; 0; 0; -1; -1; 0; 1; -1; 1];
  [0; 0; -1; -1; 0; 1; -1; 0; 1; 0; -1; -1; 0; 1; -1; 0; 0; 1; -1; -1; 0; 1; -1; -1; 0; -1; 0; -1];
  [0; 1; -1; 0; 0; -1; 0; -1; 0; 1; -1; 1; 0; -1; 0; -1; 0; 1; -1; 0; 1; -1; 0; -1; 0; 1; -1; 1];
  [-1; 0; 0; -1; 0; 1; -1; 0; 0; 0; 0; -1; 0; 1; -1; -1; 1; 0; 0; -1; 0; 1; -1; 1; 1; 0; 0; -1; 0];
  [1; -1; 1; 0; 1; 0; -1; 0; 1; -1; 0; 0; -1; 1; -1; 0; 1; -1; 0; -1; 0; 1; -1; 0; 1; -1; -1; 0];
  [0; 1; -1; 0; 1; -1; 0; 1; 0; 1; -1; 0; 1; -1; 0; -1; 1; 1; -1; 0; 1; -1; 0; 0; 1; 1; -1; 0; 1];
  [-1; 0; 1; -1; -1; 0; 0; 1; -1; 0; 0; 0; -1; 0; 0; 1; -1; 0; -1; 1; -1; 0; 0; 1; -1; 0; 1; 1];
  [-1; 0; 0; 1; -1; -1; -1; -1; 0; 0; 0; 1; -1; 0; 0; -1; 0; 0; 0; 1; -1; -1; 1; -1; 0; 0; 0; 1];
  [-1; 0; -1; 0; 0; 0; 0; 1; -1; -1; 0; 0; 0; 0; 0; 1; -1; 0; 0; 0; 0; 0; 0; 1; -1; 0; 1; 0; 0; 0];
  [0; 1; -1; 1; -1; 1; 0; 0; 0; 1; -1; 0; 0; 1; 0; 0; 0; 1; -1; -1; 1; 1; 0; 0; 0; 1; -1; 0; 1];
  [-1; 1; 0; 0; 1; -1; -1; -1; 0; 1; 0; 0; 1; -1; -1; 0; 0; 1; 0; 0; 1; -1; 0; 0; 0; 1; 0; 0; 1];
  [-1; -1; 1; 0; 1; 0; 0; 1; -1; 1; 1; 0; 1; 0; 0; 1; -1; 0; -1; 1; 1; 0; 0; 1; -1; -1; 0; 1; 1];
  [0; 0; 1; -1; 1; 0; 1; 1; 0; 0; 1; -1; 0; 1; 1; 1; 0; 0; 1; -1; 0; 0; -1; -1; 1; 0; 1; -1; -1];
  [-1; 0; -1; 1; 0; 1; -1; 1; -1; 0; -1; 1; 0; 1; -1; 0; 1; 0; -1; 1; 0; 1; -1; 0; 0; 1; -1; 1; 0];
  [1; -1; 0; -1; -1; 0; 1; 0; 1; -1; 0; 1; -1; 0; 1; 0; 1; -1; 0; 0; 0; 0; 1; 0; 1; -1; -1; -1; 1];
  [0; 1; 0; 1; -1; 0; -1; 1; 0; 1; 0; 1; -1; 0; 1; 1; 0; 1; 0; 1; -1; -1; 0; -1; 1; 1; 0; 1; -1];
  [1; 0; -1; 1; 1; 0; 1; -1; -1; -1; 0; 1; 1; 0; 1; -1; 1; 1; 0; 1; 1; 0; 1; -1; -1; -1; -1; -1];
  [-1; 1; 1; -1; 1; -1; -1; -1; -1; 1; 1; -1; -1; 1; -1; -1; -1; 1; 1; -1; 1; 1; -1; -1; -1; 1; 1];
  [-1; 0; 0; 0; -1; -1; 1; 1; -1; -1; -1; 1; -1; -1; 1; 1; -1; 1; -1; 1; -1; -1; 1; 1; -1; -1; 1];
  [1; -1; -1; 1; 1; -1; 1; 1; 1; -1; -1; 1; 1; -1; 0; 0; -1; 0; -1; 1; 1; -1; 0; -1; 0; 0; -1; 1];
  [1; -1; -1; 0; 0; 0; -1; 1; 1; -1; 0; 0; 1; 0; -1; 1; 1; -1; -1; -1; -1; 1; -1; 1; 1; -1; 1; -1];
  [-1; 1; -1; 1; 1; -1; -1; 1; -1; 1; -1; 1; 1; -1; 1; 1; -1; 1; -1; 1; 1; -1; -1; -1; 1; 1; -1];
  [1; 1; -1; 1; -1; 1; 1; -1; 1; 1; -1; -1; 1; 1; 1; -1; 1; 1; -1; 1; 1; 1; 1; -1; 1; 1; -1; 0; 1];
  [-1; -1; 0; 1; 1; -1; 0; -1; 0; -1; 0; 1; 1; -1; -1; 0; 0; -1; 0; 1; 1; -1; 0; 1; 0; -1; 0; 1];
  [1; -1; 0; 0; 1; -1; 0; 1; 1; -1; 1; 0; -1; 0; 0; 1; 1; -1; 0; 1; -1; 0; 0; 1; 1; -1; 1; -1; 0];
  [0; 0; 1; 1; -1; 0; 0; 0; 0; 0; 1; 1; -1; 0; -1; 1; 0; 0; 1; 1; -1; -1; 0; 1; 0; 0; 1; 1; -1; 1];
  [0; 1; 0; 0; 1; 1; -1; 0; 1; 1; 0; 0; 1; 1; -1; 0; 0; -1; 1; 0; 1; 1; -1; -1; -1; 0; 1; 0; 1; 1];
  [-1; 1; 0; 0; 1; 0; 1; 1; -1; 0; 1; 0; 1; 0; 1; 1; -1; -1; 0; 1; 1; 0; 1; 1; -1; 0; 0; 1; 1; 0];
  [1; 1; -1; -1; -1; -1; -1; 1; 1; 1; -1; 1; -1; -1; -1; 1; 1; 1; -1; -1; 1; -1; -1; 1; 1; 1; -1];
  [1; 1; -1; -1; 1; 1; 1; -1; -1; -1; 1; -1; 1; 1; 1; -1; 1; -1; 1; -1; 1; 1; 1; -1; -1; 1; 1; -1];
  [1; 1; 1; -1; 1; 1; 1; -1; 1; 1; 1; -1; 0; 0; -1; 0; 1; 1; 1; -1; 0; -1; 0; 0; 1; 1; 1; -1; 1];
  [0; 0; 0; 1; 1; 1; -1; 0; 1; 0; 0; 1; 1; 1; -1; 0; 0; 1; 0; 1; 1; 1; -1; -1; -1; -1; 1; 1; 1; 1];
  [-1; 1; -1; -1; 1; 1; 1; 1; -1; -1; 1; -1; 1; 1; 1; 1; -1; 1; 1; -1; 1; 1; 1; 1; -1; 0; 0; 0; 1];
  [1; 1; 1; -1; -1; -1; 1; 1; 1; 1; 1; -1; 1; -1; 1; 1; 1; 1; 1; -1; -1; 1; 1; 1; 1; 1; 1; -1; 1];
  [1; 1; 1; 1; 1; 1; -1; 0; 0; -1; -1; -1; -1; -1; 0; 0; -1; 0; -1; -1; -1; -1; 0; 1; 0; 0; -1];
  [-1; -1; -1; 0; 0; 0; 1; -1; -1; -1; -1; 0; 0; 1; -1; 0; -1; -1; -1; 0; 1; -1; 0; 0; -1; -1; -1];
  [0; 0; 0; 0; 0; -1; -1; -1; 0; -1; 1; 0; 0; -1; -1; -1; 0; 1; 1; 0; 0; -1; -1; -1; 0; 0; -1; 1];
  [0; -1; -1; -1; 0; -1; 0; 1; 0; -1; -1; -1; 0; 1; 0; 1; 0; -1; -1; -1; 0; -1; 0; 0; 1; -1; -1];
  [-1; 0; 0; 1; 0; 1; -1; -1; -1; 0; 0; -1; 1; 1; -1; -1; -1; 0; 1; 0; 1; 1; -1; -1; -1; 0; -1];
  [-1; -1; -1; 0; -1; -1; 0; 0; -1; -1; -1; 0; -1; -1; 0; -1; 0; -1; -1; 0; -1; -1; 0; 1; 0; -1];
  [-1; 0; -1; -1; 0; 0; 1; -1; -1; 0; -1; -1; 0; 1; -1; 0; -1; 0; -1; -1; 0; 0; 0; 0; -1; 0; -1];
  [-1; 0; 1; 0; 0; -1; 0; -1; -1; 0; -1; 1; 0; -1; 0; -1; -1; 0; 1; 1; 0; -1; 0; -1; -1; 0; 0; -1];
  [1; -1; 0; -1; -1; 0; 1; 0; 1; -1; 0; -1; -1; 0; 0; 1; 1; -1; 0; -1; -1; 0; 0; 0; -1; 0; 0; -1];
  [-1; 0; -1; 1; -1; 0; 0; -1; -1; 0; 1; 1; -1; 0; 0; -1; -1; 0; 0; -1; 0; 0; 0; -1; -1; 0; -1; 0];
  [0; 0; 0; -1; -1; 0; 0; 0; 0; 0; 0; -1; -1; 0; 1; 0; 0; 0; 0; -1; -1; 0; 0; 1; 0; 0; 0; -1; -1];
  [0; 1; 1; 0; 0; 0; -1; -1; 0; 0; 0; 1; 0; 0; -1; -1; 0; -1; 1; 1; 0; 0; -1; -1; 0; 1; 1; 1; 0];
  [0; -1; -1; 0; 0; -1; -1; 1; 0; -1; -1; 0; -1; 0; -1; 1; 0; -1; -1; 0; 1; 0; -1; 1; 0; -1; -1];
  [0; -1; -1; 0; 1; 0; -1; -1; 0; 1; -1; 0; 1; 0; -1; -1; 0; 0; 0; 0; 1; 0; -1; -1; 0; -1; -1; 1];
  [1; 0; -1; -1; 0; 0; -1; 1; 1; 0; -1; -1; 0; 1; -1; 1; 1; 0; -1; -1; 0; 0; 0; -1; -1; 1; -1; -1];
  [0; 0; -1; 0; -1; 1; -1; -1; 0; -1; 0; 0; -1; 1; -1; -1; 0; 1; 0; 0; -1; 1; -1; -1; 0; 0; 0; 1];
  [-1; 1; -1; -1; 0; 0; -1; -1; 0; 1; -1; -1; 0; 1; -1; 0; 0; 1; -1; -1; 0; 0; 0; 0; 0; 1; -1; -1];
  [0; 1; 1; 0; 0; 1; -1; -1; 0; -1; 0; 1; 0; 1; -1; -1; 0; 0; 1; 1; 0; 1; -1; -1; 0; 0; 1; -1; 1];
  [1; -1; -1; 0; -1; 0; 0; 1; 1; -1; -1; 0; 0; 0; 1; 1; 1; -1; -1; 0; 0; -1; -1; -1; -1; 0; -1; 0];
  [0; 0; 0; -1; -1; 0; -1; 0; 0; 1; 0; -1; -1; 0; -1; 0; 0; 1; 1; -1; -1; 0; -1; 0; 0; 0; -1; 0];
  [-1; 0; -1; 0; -1; 1; -1; 0; -1; 0; -1; 0; 1; 1; -1; 0; -1; 0; -1; 0; 0; -1; 0; 0; -1; 0; -1; 0];
  [-1; 0; 0; 0; -1; 0; -1; 0; 0; 0; 0; 0; -1; 0; -1; 0; 1; 0; 0; 0; -1; 0; -1; 0; 0; -1; 1; 0; -1];
  [0; -1; 0; 1; -1; 1; 0; -1; 0; -1; 0; 0; 0; 1; 0; -1; 0; -1; 0; -1; 1; 1; 0; -1; 0; -1; 0; 1; 1];
  [1; 0; -1; 0; -1; 0; 0; -1; -1; 1; -1; 0; -1; 0; 1; 0; -1; 1; -1; 0; -1; 0; 0; 1; -1; 1; -1; 0];
  [-1; 0; -1; -1; 0; 1; -1; 0; -1; 0; 1; -1; 0; 1; -1; 0; -1; 0; 0; 0; 0; 1; -1; 0; -1; 0; -1; -1];
  [1; 1; -1; 0; -1; 0; 0; -1; 1; 1; -1; 0; -1; 0; 0; 1; 1; 1; -1; 0; -1; 0; 0; -1; -1; -1; 0; 0];
  [-1; 0; 1; -1; -1; -1; 0; 0; -1; 0; 0; 0; -1; -1; 0; 0; -1; 0; 1; 1; -1; -1; 0; 0; -1; 0; 0; -1];
  [0; -1; 0; 0; -1; 0; -1; 0; 0; -1; 0; 0; -1; 0; 0; 0; 0; -1; 0; 0; -1; 0; 1; 0; 0; -1; 0; 0; -1];
  [0; 0; 1; 0; -1; 0; 0; -1; 0; -1; -1; 1; -1; 0; 0; -1; 0; 0; 0; 1; -1; 0; 0; -1; 0; 1; 1; 1; -1];
  [0; 0; -1; 0; 0; -1; -1; 0; 0; 0; -1; 0; -1; 0; -1; 0; 0; 0; -1; 0; 0; 0; -1; 0; 0; 0; -1; 0; 1];
  [0; -1; 0; 0; 0; -1; 0; 0; 1; -1; 0; 0; 0; -1; 0; -1; -1; 0; 0; 0; 0; -1; 0; 0; -1; 0; 0; 0; 0];
  [-1; 0; -1; 0; 0; 0; 0; 0; -1; 0; 0; 0; 0; 0; 0; 0; -1; 0; 1; 0; 0; 0; 0; 0; -1; 0; -1; 1; 0; 0];
  [0; 0; -1; 0; 0; 1; 0; 0; 0; 0; -1; 0; 0; -1; 1; 0; 0; 0; -1; 0; -1; 0; 1; 0; 0; 0; -1; 0; 0; 0];
  [1; 0; 0; 0; -1; 0; 1; 0; 1; 0; 0; 0; -1; 0; 0; 1; 1; 0; 0; 0; -1; 0; 1; -1; -1; 1; 0; 0; -1; 0];
  [-1; 0; -1; 1; 0; 0; -1; 0; 0; 0; -1; 1; 0; 0; -1; 0; -1; 1; -1; 1; 0; 0; -1; 0; 0; -1; 0; 1; 0];
  [0; -1; 0; -1; 0; 0; 1; 0; 0; -1; 0; 0; 0; 0; 1; 0; 0; -1; 0; 1; 0; 0; 1; 0; 0; -1; 0; 0; 1; 0];
  [1; 0; 0; -1; 0; 1; 1; 0; 1; 0; 0; -1; 0; 0; 0; 1; 1; 0; 0; -1; 0; -1; 1; 1; 1; 0; 0; -1; 0; 1];
  [1; 1; 1; 0; 0; -1; 0; 0; -1; -1; -1; 1; 0; -1; 0; 0; 0; -1; -1; 1; 0; -1; 0; 0; 1; -1; -1; 1];
  [0; -1; 0; -1; 0; 0; -1; 1; 0; -1; 0; 0; 0; 0; -1; 1; 0; -1; 0; -1; 1; 0; -1; 1; 0; -1; 0; 1; 1];
  [0; -1; 1; 0; -1; 0; 0; -1; 1; -1; 1; 0; -1; 0; -1; 0; 1; -1; 1; 0; -1; 0; 0; 1; 1; -1; 1; 0];
  [-1; 0; -1; -1; -1; 0; 1; 0; -1; 0; 1; -1; -1; 0; 1; 0; -1; 0; 0; 0; -1; 0; 1; 0; -1; 0; -1; 1];
  [-1; 0; 1; 0; -1; 0; -1; -1; 0; 0; 1; 0; -1; 0; 0; -1; 0; 0; 1; 0; -1; 0; 1; -1; 0; 0; 1; 0; -1];
  [0; 0; 0; 0; 0; 1; 0; -1; 0; 1; 0; 0; 0; 1; 0; -1; 0; 0; 1; 0; 0; 1; 0; -1; 0; 1; -1; 1; 0; 1];
  [0; -1; 0; 0; 0; 1; 0; 1; 0; -1; 0; -1; 1; 1; 0; 1; 0; -1; 0; 0; -1; -1; 1; 1; 0; -1; 0; 0; 0];
  [-1; 1; 1; 0; -1; 0; 1; 1; -1; 1; 1; 0; -1; 0; -1; 0; 0; 1; 1; 0; -1; 0; 0; 0; 0; 1; 1; 0; -1];
  [0; 0; -1; 1; 1; 1; 0; -1; 0; -1; 0; 1; 1; 1; 0; -1; 0; 1; 0; 1; 1; 1; 0; -1; 0; 0; 0; -1; -1];
  [-1; 1; -1; 0; 0; -1; 0; -1; -1; 1; -1; 0; 0; 0; 0; -1; -1; 1; -1; 0; 1; 1; 0; -1; -1; 1; -1; 0];
  [0; 0; 1; -1; -1; 1; -1; 0; 1; -1; -1; 0; -1; 1; -1; 0; 0; 1; -1; 0; -1; 1; -1; 0; -1; -1; 0; 0];
  [-1; 1; -1; 0; 0; 0; 0; 0; -1; 1; -1; 0; -1; 1; 0; 0; -1; 1; -1; 0; 0; -1; 1; 0; -1; 1; -1; 0];
  [-1; 0; 1; 0; -1; 1; -1; 0; 1; 0; 1; 0; -1; 1; -1; 0; 0; 1; 1; 0; -1; 1; -1; 0; 0; 0; -1; 1; -1];
  [1; -1; 0; 0; -1; 0; 1; -1; 1; -1; 0; -1; 0; 0; 1; -1; 1; -1; 0; 1; 0; 0; 1; -1; 1; -1; 0; 0; 1];
  [0; 1; -1; 1; -1; 0; 0; 0; 1; 1; -1; 1; -1; 0; 0; -1; -1; -1; 0; 1; -1; 0; 0; 0; -1; -1; 0; 1];
  [-1; 0; 1; 0; -1; -1; 0; 1; -1; 0; 1; 1; -1; -1; 0; 1; -1; 0; -1; -1; 0; -1; 0; 1; -1; 0; -1; 0];
  [0; -1; 0; 1; -1; 0; 0; 0; 0; -1; 0; 1; -1; 0; -1; 1; 0; -1; 0; 1; -1; 0; 0; -1; 1; -1; 0; 1];
  [-1; 0; -1; 0; 1; -1; 0; 1; -1; 0; 1; 0; 1; -1; 0; 1; -1; 0; -1; -1; -1; 0; 0; 1; -1; 0; 0; 0];
  [-1; 0; 0; 1; -1; 0; 1; 1; -1; 0; 0; 1; -1; 0; 0; -1; 0; 0; 0; 1; -1; 0; 1; -1; 0; 0; 0; 1; -1];
  [0; -1; 0; 0; 0; 0; 1; -1; 0; 0; 0; 0; 0; 0; 1; -1; 0; 1; 0; 0; 0; 0; 1; -1; 0; 0; 1; 0; 0; 0];
  [1; -1; 0; -1; -1; 1; 0; 0; 1; -1; 0; 1; -1; 1; 0; 0; 1; -1; 0; 0; 0; 1; 0; 0; 1; -1; 0; 1; 0];
  [1; 0; 0; 1; -1; 0; 1; 1; 1; 0; 0; 1; -1; 0; 1; 0; -1; 1; 0; 1; -1; 0; 0; 1; -1; 1; 0; 1; -1; 0];
  [1; -1; 0; 1; 0; 1; -1; 0; 0; 0; 0; 1; 0; 1; -1; 0; 1; 0; 0; 1; 0; 1; -1; 0; -1; 1; 0; 1; 0; 1];
  [-1; 0; 0; -1; 1; 1; 0; 1; -1; 0; -1; 0; 1; 1; 0; 1; -1; 0; 1; 0; 1; 1; 0; 1; -1; 0; 0; 1; 1; 1];
  [0; 1; -1; 0; 1; 0; 0; -1; 1; 1; -1; 0; -1; 0; -1; 0; 1; 1; -1; 0; 1; 0; -1; 0; 1; 1; -1; 0; 0];
  [1; -1; 0; 1; 1; -1; 0; 0; 0; 0; 0; 1; 1; -1; 0; -1; 1; 0; 0; 1; 1; -1; 0; 1; 1; 0; 0; 1; 1; -1];
  [0; -1; 0; 1; 0; 1; 1; -1; 0; 0; 1; 1; 0; 1; 1; -1; 0; -1; 0; 0; 1; 1; 1; -1; 0; 0; 0; 1; 1; 1];
  [1; -1; 0; 0; -1; -1; -1; -1; -1; 0; 0; -1; 0; -1; -1; -1; -1; 0; 0; 0; 0; -1; -1; -1; -1; 0; 0];
  [1; 0; -1; -1; -1; -1; 0; 0; 0; 1; -1; -1; -1; -1; 0; 0; 1; -1; 0; -1; -1; -1; 0; 0; 0; 0; 0];
  [-1; -1; -1; 0; 0; 1; 1; 0; -1; -1; -1; 0; 0; 0; -1; 1; -1; -1; -1; 0; 0; -1; 0; 1; -1; -1; -1];
  [0; 0; 0; 1; 1; -1; -1; -1; 0; 0; -1; -1; -1; 0; -1; -1; 0; 0; 0; 0; -1; 0; -1; -1; 0; 0; -1; 1];
  [-1; 0; -1; -1; 0; 0; 0; -1; 0; 0; -1; -1; 0; 0; -1; 0; 0; 0; -1; -1; 0; 0; 0; 0; 0; 0; -1; -1];
  [0; 0; 1; 0; 0; 0; -1; -1; 0; 0; 0; 1; 0; 0; -1; -1; 0; 0; 0; 0; 1; 0; -1; -1; 0; 0; -1; 1; 1];
  [0; -1; -1; 0; 0; 1; 0; -1; 1; -1; -1; 0; 0; 0; 1; -1; 1; -1; -1; 0; 0; 0; 0; 0; 1; -1; -1; 0];
  [0; -1; 1; 0; 1; -1; -1; 0; 0; -1; -1; 1; 1; -1; -1; 0; 0; 0; -1; 1; 1; -1; -1; 0; 0; 1; 0; 1];
  [1; -1; -1; 0; 0; 0; 1; 1; 1; -1; -1; 0; 0; 0; 0; -1; -1; 0; -1; 0; 0; -1; 1; -1; -1; 0; -1; 0];
  [0; 0; 1; -1; -1; 0; -1; 0; 0; 1; 1; -1; -1; 0; -1; 0; 0; 0; -1; 0; -1; 0; -1; 0; 0; -1; 0; 0];
  [-1; 0; -1; 0; 0; 0; 0; 0; -1; 0; -1; 0; 0; 1; 0; 0; -1; 0; -1; 0; 0; -1; 1; 0; -1; 0; -1; 0; 0];
  [0; 1; 0; -1; 0; -1; 0; 0; -1; -1; 1; -1; 0; -1; 0; 0; 0; 0; 1; -1; 0; -1; 0; 0; 1; 0; 1; -1; 0];
  [-1; 0; 0; -1; 1; 1; -1; 0; -1; 0; 0; 1; 1; 1; -1; 0; -1; 0; 0; 0; -1; -1; 0; 0; -1; 0; 0; -1];
  [0; -1; 0; 0; -1; 0; 0; 0; 0; -1; 0; 0; -1; 0; 0; 1; 0; -1; 0; 0; -1; 0; 0; 0; 1; -1; 0; 0; -1];
  [0; 0; -1; -1; 0; 0; 0; -1; 0; 0; 0; -1; 0; 0; 0; -1; 0; 0; 1; -1; 0; 0; 0; -1; 0; 0; -1; 0; 0];
  [0; 0; -1; 0; 0; 0; 0; 0; 0; 0; -1; 0; 0; 1; 0; 0; 0; 0; -1; 0; 0; -1; 1; 0; 0; 0; -1; 0; 0; 0];
  [1; 0; 0; 0; -1; 0; 0; 1; 1; 0; 0; 0; -1; 0; 0; 0; -1; 1; 0; 0; -1; 0; 0; -1; 0; 1; 0; 0; -1; 0];
  [0; 0; 0; 1; 0; 0; -1; 0; 0; 1; 0; 1; 0; 0; -1; 0; 0; 0; 1; 1; 0; 0; -1; 0; 0; 1; -1; -1; 1; 0];
  [-1; 0; 0; 0; 0; -1; 1; 0; -1; 0; 0; 0; -1; 0; 1; 0; -1; 0; 0; -1; 0; 0; 1; 0; -1; 0; 0; 0; 0];
  [0; 1; 0; -1; 0; 0; 1; 0; 0; 1; 0; -1; 0; 0; 0; 1; 0; 1; 0; -1; 0; 0; -1; -1; 1; 1; 0; -1; 0; 0];
  [0; 0; 1; 1; 0; -1; 0; 0; 1; 1; 1; 1; 0; -1; 0; 0; 0; -1; -1; -1; 1; -1; 0; 0; 1; 0; -1; -1; 1];
  [-1; 0; 0; 1; -1; 0; -1; 1; -1; 0; 0; 0; 0; 0; -1; 1; -1; 0; 0; 1; 1; 0; -1; 1; -1; 0; 0; 0; -1];
  [1; -1; 1; -1; 0; 0; -1; 0; 1; -1; 1; -1; 0; 0; 1; -1; -1; 0; 1; -1; 0; 0; 0; 0; -1; 0; 1; -1];
  [0; 0; 1; 1; -1; 0; 1; -1; 0; 0; 0; -1; 0; 0; 1; -1; 0; 0; -1; 0; 0; 0; 1; -1; 0; 0; 0; 0; 0; 0];
  [1; -1; 0; 0; 1; 0; 0; 0; 1; -1; 0; 0; 0; 1; 0; 0; 1; -1; 0; 0; 1; -1; 1; 0; 1; -1; 0; 0; 0; 0];
  [1; 0; 1; -1; 0; 0; 0; 0; -1; 1; 1; -1; 0; 0; -1; -1; 0; 1; 1; -1; 0; 0; 1; -1; 0; 1; 1; -1; 0];
  [0; 0; 0; 0; 1; 1; -1; 0; 0; 0; 1; 0; 1; 1; -1; 0; 0; 1; 1; 0; 1; 1; -1; 0; 0; -1; 0; 1; 1; 1];
  [-1; 0; 0; -1; 0; -1; -1; -1; 0; 0; 0; 0; 0; -1; -1; -1; 0; 0; 0; 0; -1; 0; -1; -1; 0; 0; 0; -1];
  [0; 0; -1; -1; 0; 0; 0; 0; 0; 0; -1; -1; 0; 0; 0; 1; 0; 0; -1; -1; 0; 0; 0; -1; 1; 0; -1; -1; 0];
  [0; 0; 0; 1; 0; -1; -1; 0; 0; 0; 0; -1; 1; -1; -1; 0; 0; 0; 0; 0; 1; -1; -1; 0; 0; 0; -1; 1; 1];
  [-1; -1; 0; 0; 0; 1; 1; 1; -1; -1; 0; 0; 0; 0; -1; -1; 0; -1; 0; 0; 0; -1; 0; -1; 0; -1; 0; 0];
  [0; 0; 0; -1; 0; -1; 0; 0; 0; 1; 0; -1; 0; -1; 0; 0; 0; 0; 1; -1; 0; -1; 0; 0; 0; 1; 1; -1; 0];
  [-1; 0; 0; 0; -1; -1; 0; 0; -1; 0; 0; 0; 0; -1; 0; 0; -1; 0; 0; 0; -1; 0; 0; 0; -1; 0; 0; 0; 0];
  [0; 0; 0; -1; 0; 0; 0; 1; 0; 0; 0; -1; 0; 0; 0; -1; 1; 0; 0; -1; 0; 0; 0; 0; 1; 0; 0; -1; 0; 0];
  [0; 1; 1; 0; 0; -1; 0; 0; 0; 0; -1; 1; 0; -1; 0; 0; 0; 1; -1; 1; 0; -1; 0; 0; 0; -1; 0; 1; 0];
  [-1; 0; 0; 0; 0; 0; 1; 0; -1; 0; 0; 0; 1; 0; 1; 0; -1; 0; 0; 0; 0; 1; 1; 0; -1; 0; 0; 0; -1; -1];
  [-1; 1; -1; 0; 0; 0; -1; 1; -1; 1; -1; 0; 0; 0; 1; 1; -1; 1; -1; 0; 0; 0; 0; -1; 0; 1; -1; 0; 0];
  [0; -1; 0; 0; 1; -1; 0; 0; 0; 0; 0; 0; 1; -1; 0; 0; 0; 1; 0; 0; 1; -1; 0; 0; 0; 0; 1; 0; 1; -1];
  [0; 0; 0; 0; -1; 1; 1; -1; 0; 0; 0; -1; 0; 1; 1; -1; 0; 0; 0; 0; 0; 1; 1; -1; 0; 0; 0; 1; 1; 1];
  [1; -1; 0; 0; 0; 0; -1; -1; -1; 0; 0; 0; 0; 1; -1; -1; -1; 0; 0; 0; 0; -1; 0; -1; -1; 0; 0; 0];
  [0; 0; 0; -1; -1; 0; 0; 0; 0; 1; 0; -1; -1; 0; 0; 0; 0; 0; 1; -1; -1; 0; 0; 0; 0; -1; -1; 0; -1];
  [0; 0; 0; 0; 0; -1; 0; -1; 0; 0; 0; 0; 1; -1; 0; -1; 0; 0; 0; 0; -1; 0; 0; -1; 0; 0; 0; 0; 0; 0];
  [0; -1; 0; 0; 0; 0; 1; 0; 0; -1; 0; 0; 0; 0; 0; 1; 0; -1; 0; 0; 0; 0; 1; 1; 0; -1; 0; 0; 0; 0];
  [0; -1; 1; -1; 0; 0; 0; 0; -1; 0; 1; -1; 0; 0; 0; 0; 0; 0; 1; -1; 0; 0; 0; 0; 1; 0; 1; -1; 0; 0];
  [0; 0; 0; 1; 1; -1; 0; 0; 0; 0; -1; -1; -1; 0; 0; 0; 0; 0; 0; -1; -1; 0; 0; 0; 0; 0; 1; -1; -1];
  [0; 0; 0; 0; 0; -1; 0; -1; 0; 0; 0; 0; 0; 0; 0; -1; 0; 0; 0; 0; 0; 1; 0; -1; 0; 0; 0; 0; 0; -1];
  [1; -1; 0; 0; 0; 0; 0; 0; 1; -1; 0; 0; 0; 0; 0; -1; -1; 0; 0; 0; 0; 0; 0; 0; -1; 0; 0; 0; 0; 0];
  [0; 1; -1; 0; 0; 0; 0; 0; 0; -1; 0; 0; 0; 0; 0; 0; 0; 0; 0; 0; 0; 0; 0; 0; 0; 1; 0; 0; 0; 0; 0];
  [0; 0; -1; 1; 0; 0; 0; 0; 0; 0; 0; 1; 0; 0; 0; 0; 0; 0; 1; 1; 0; 0; 0; 0; 0; 0; -1; -1; 1; 0; 0];
  [0; 0; 0; 0; -1; 1; 0; 0; 0; 0; 0; -1; 0; 1; 0; 0; 0; 0; 0; 0; 0; 1; 0; 0; 0; 0; 0; 1; 0; 1; 0];
  [0; 0; 0; 0; -1; 1; 1; 0; 0; 0; 0; 0; 0; 1; 1; 0; 0; 0; 0; 0; 1; 1; 1; 0; 0; 0; 0; 0; 0; -1; -1];
  [1; 0; 0; 0; 0; -1; 0; -1; 1; 0; 0; 0; 0; 0; 0; -1; 1; 0; 0; 0; 0; 0; 1; -1; 1; 0; 0; 0; 0; 1];
  [1; -1; 1; 0; 0; 0; 0; -1; -1; 0; 1; 0; 0; 0; 0; 0; -1; 0; 1; 0; 0; 0; 0; -1; 0; 0; 1; 0; 0; 0];
  [0; 0; 0; 0; 1; 0; 0; 0; 0; 1; 0; 0; 1; 0; 0; 0; 0; -1; 1; 0; 1; 0; 0; 0; 0; 0; 1; 0; 1; 0; 0];
  [0; 0; 0; -1; 1; 1; 0; 0; 0; 0; -1; 0; 1; 1; 0; 0; 0; 0; 0; 0; 1; 1; 0; 0; 0; 0; 1; 0; 1; 1; 0];
  [0; 0; 0; 0; 1; 1; 1; 0; 0; 0; 0; -1; -1; -1; -1; 1; 0; 0; 0; 0; -1; -1; -1; 1; 0; 0; 0; 1; -1];
  [-1; -1; 1; 0; 0; 0; -1; 0; -1; -1; 1; 0; 0; 0; 1; 0; -1; -1; 1; 0; 0; 0; -1; 1; -1; -1; 1; 0];
  [0; 0; 0; 1; -1; -1; 1; 0; 0; 0; 0; -1; 0; -1; 1; 0; 0; 0; -1; 0; 0; -1; 1; 0; 0; 0; 0; 0; 0];
  [-1; 1; 0; 0; 0; -1; 1; 0; -1; 1; 0; 0; 0; 0; 1; 0; -1; 1; 0; 0; 0; -1; -1; 1; -1; 1; 0; 0; 0];
  [0; -1; 1; -1; 1; 0; 0; 0; 1; -1; 1; -1; 1; 0; 0; 0; -1; 0; 1; -1; 1; 0; 0; 0; 0; 0; 1; -1; 1];
  [0; 0; 0; 1; 0; 1; -1; 1; 0; 0; 0; -1; 1; 1; -1; 1; 0; 0; 0; 0; 1; 1; -1; 1; 0; 0; 0; 0; -1; -1];
  [0; 1; 0; 0; 0; 0; 0; -1; 0; 1; 0; 0; 0; 1; 0; -1; 0; 1; 0; 0; 0; -1; 1; -1; 0; 1; 0; 0; 0; 0];
  [1; -1; 0; 1; 0; 0; 0; 1; 1; -1; 0; 1; 0; 0; 0; -1; -1; 0; 0; 1; 0; 0; 0; 0; -1; 0; 0; 1; 0; 0];
  [0; 1; -1; 0; 0; 1; 0; 0; 0; -1; 0; 0; 0; 1; 0; 0; 0; 0; 0; 0; 0; 1; 0; 0; 0; 1; 0; 0; 0; 1; 0];
  [0; 0; -1; 1; 0; 0; 1; 0; 0; 0; 0; 1; 0; 0; 1; 0; 0; 0; 1; 1; 0; 0; 1; 0; 0; 0; 0; -1; 1; 0; 1];
  [0; 0; 0; -1; 0; 1; 0; 1; 0; 0; 0; 0; 0; 1; 0; 1; 0; 0; 0; 0; 1; 1; 0; 1; 0; 0; 0; 1; -1; -1; 1];
  [1; 0; 0; 0; 0; 0; -1; 1; 1; 0; 0; 0; 1; 0; -1; 1; 1; 0; 0; 0; -1; 1; -1; 1; 1; 0; 0; 0; 0; 1];
  [-1; 1; 1; 0; 0; 0; 1; 1; -1; 1; 1; 0; 0; 0; 0; -1; 0; 1; 1; 0; 0; 0; 0; 0; 0; 1; 1; 0; 0; 0; 1];
  [1; 0; 1; 1; 0; 0; 0; 1; -1; 1; 1; 1; 0; 0; 0; 0; 0; 1; 1; 1; 0; 0; 0; 1; 0; 1; 1; 1; 0; 0; 0];
  [-1; 1; 1; 1; 1; 0; 0; 0; 0; 1; 1; 1; 1; 0; 0; 0; -1; 0; -1; -1; -1; 1; 0; 0; 0; 0; -1; -1; -1];
  [1; 0; 0; 1; 0; -1; -1; -1; 1; 0; 0; 0; 1; -1; -1; -1; 1; 0; 0; -1; -1; 0; -1; -1; 1; 0; 0; 0];
  [0; 0; -1; -1; 1; 0; 0; -1; 1; 0; -1; -1; 1; 0; 0; 0; -1; 1; -1; -1; 1; 0; 0; 1; 1; 1; -1; -1];
  [1; 0; 0; 0; 0; -1; 0; -1; 1; 0; 0; -1; 1; -1; 0; -1; 1; 0; 0; 1; 1; -1; 0; -1; 1; 0; 0; 0; -1];
  [0; 0; -1; 1; 0; 0; -1; 0; 0; 0; -1; 1; 0; 0; 0; 0; 0; 0; -1; 1; 0; 0; 1; 0; 0; 0; -1; 1; 0; 0];
  [-1; 1; 0; 0; -1; 1; 0; 0; 0; 1; 0; 0; -1; 1; 0; 0; -1; -1; 1; 0; -1; 1; 0; 0; 1; -1; 1; 0; -1];
  [1; 0; 0; -1; 0; 1; 0; -1; 1; 0; 0; 0; 0; 1; 0; -1; 1; 0; 0; 1; -1; -1; 1; -1; 1; 0; 0; 0; 1];
  [-1; 1; -1; 1; 0; 0; -1; -1; 0; 1; -1; 1; 0; 0; 1; -1; 0; 1; -1; 1; 0; 0; 0; 0; 0; 1; -1; 1; 0];
  [0; -1; 1; 0; 1; -1; 1; 0; 0; 0; -1; 1; 1; -1; 1; 0; 0; 0; 1; 1; 1; -1; 1; 0; 0; 0; -1; -1; -1];
  [0; 1; 0; 0; 1; -1; -1; -1; 0; 1; 0; 0; 0; 0; -1; -1; 0; 1; 0; 0; 1; 1; -1; -1; 0; 1; 0; 0; 0];
  [-1; 0; -1; 0; 1; 0; 0; -1; 0; 0; -1; 0; 1; 0; 0; 0; 0; 0; -1; 0; 1; 0; 0; 1; 0; 0; -1; 0; 1; 0];
  [0; 0; 1; 0; -1; 0; 1; 0; 0; 0; 0; 1; -1; 0; 1; 0; 0; 0; -1; -1; 0; 0; 1; 0; 0; -1; 0; -1; 0; 0];
  [1; 0; 0; 0; 0; -1; 0; 0; 1; 0; 0; 1; 0; -1; 0; 0; 1; 0; 0; 0; 1; -1; 0; 0; 1; 0; 0; -1; -1; 0];
  [0; 0; 1; 0; 0; 0; -1; 0; 0; 0; 1; 0; 0; 1; -1; 0; 0; 0; 1; 0; 0; -1; 0; 0; 0; 0; 1; 0; 0; 0; 0];
  [0; 0; 0; 1; 0; 0; 1; 0; 0; 0; 0; 1; 0; 0; -1; 1; 0; 0; 0; 1; 0; 0; 0; 1; 0; 0; 0; 1; 0; 0; 1];
  [1; 0; 0; 0; 1; 0; 0; 0; -1; 1; 0; 0; 1; 0; 0; -1; 0; 1; 0; 0; 1; 0; 0; 0; 0; 1; 0; 0; 1; 0; 0];
  [1; 0; 1; 0; 0; 1; 0; 0; 0; 1; 1; 0; 0; 1; 0; 0; 0; -1; -1; 1; 0; 1; 0; 0; 0; 0; -1; 1; 0; 1; 0];
  [0; 0; 1; -1; 1; 0; 1; 0; 0; 0; -1; 0; 1; 0; 1; 0; 0; -1; 0; 0; 1; 0; 1; 0; 0; 0; 0; 0; 1; 0; 1];
  [0; 0; 1; 0; 0; 1; 0; 1; 0; 0; -1; 1; 0; 1; 0; 1; 0; 0; 0; 1; 0; 1; 0; 1; 0; 0; 0; 0; 1; 1; 0];
  [1; 0; 0; -1; 0; -1; -1; 1; 1; 0; 0; -1; 1; -1; -1; 1; 1; 0; 0; 0; 0; 0; -1; 1; 1; 0; 0; 1; 1];
  [0; -1; 1; 1; 0; 0; -1; -1; 1; -1; 1; 1; 0; 0; 0; 0; 1; -1; 1; 1; 0; 0; 1; 0; 1; -1; 1; 1; 0; 0];
  [0; 1; 1; -1; 1; 1; 0; 0; 0; 0; -1; 0; 1; 1; 0; 0; -1; 1; -1; 0; 1; 1; 0; 0; 0; 1; -1; 0; 1; 1];
  [0; 0; 0; -1; 0; 0; 1; 1; 0; 0; 0; 0; 0; 0; 1; 1; 0; 0; 1; 0; 0; 0; 1; 1; 0; 0; -1; 1; 0; 0; 1];
  [1; 0; 0; 0; 1; 0; 0; 1; 1; 0; 0; 1; -1; 1; 0; 1; 1; 0; 0; 0; 0; 1; 0; 1; 1; 0; 0; -1; 1; 1; 0];
  [1; 1; 0; 0; 1; 1; 1; 0; 1; 1; 0; 0; 0; -1; -1; 1; 1; 1; 0; 0; 1; 1; -1; 1; 1; 1; 0; 0; 1; -1];
  [0; 1; 1; 1; 0; 0; 0; 0; 0; 1; 1; 1; 0; 0; 1; 0; 0; 1; 1; 1; 0; 0; -1; 1; 0; 1; 1; 1; 0; 0; 1];
  [1; 0; 1; 1; 1; 0; 0; 0; -1; 1; 1; 1; 1; 0; 0; 0; 0; -1; -1; -1; -1; 1; 0; -1; 0; 0; -1; -1; -1];
  [1; 0; 1; 0; 0; -1; -1; -1; 1; 0; 0; 1; 0; -1; -1; -1; 1; 0; 0; 0; 1; -1; -1; -1; 1; 0; -1; 0];
  [-1; 0; -1; -1; 1; 0; -1; -1; 0; 0; -1; -1; 1; 0; 0; 0; 0; 0; -1; -1; 1; 0; 1; 0; 0; 0; -1; -1];
  [1; 0; -1; 1; 0; 0; -1; -1; 1; 0; 1; 1; 0; 0; -1; -1; 1; 0; 0; -1; 1; 0; -1; -1; 1; 0; -1; 0; 1];
  [0; -1; -1; 1; 0; 1; 0; 1; 0; -1; -1; 1; 0; 0; 1; 1; 0; -1; -1; 1; 0; 0; -1; -1; 1; -1; -1; 1];
  [0; 1; 0; 0; 1; -1; -1; 1; 0; 0; 0; 1; 1; -1; -1; 1; 0; 0; -1; -1; -1; 0; -1; 1; 0; -1; 0; -1];
  [-1; 0; -1; 1; 0; 1; 0; -1; -1; 0; -1; 1; 0; 0; 1; -1; -1; 0; -1; 1; 0; 1; -1; 0; -1; 0; -1; 1];
  [0; 0; 0; 0; -1; 0; -1; 1; 0; 0; -1; 1; -1; 0; -1; 1; 0; 1; -1; 1; -1; 0; -1; 1; 0; 1; 0; 1; -1];
  [0; -1; 1; 0; 0; 1; 1; -1; 0; -1; 1; 0; 0; 0; -1; 0; 0; -1; 1; 0; 0; 1; -1; 0; 0; -1; 1; 0; 0];
  [-1; 0; 0; 0; -1; 1; 0; 0; 0; 0; 0; 0; -1; 1; 0; 1; 0; 0; 0; 0; -1; 1; 0; 0; 1; 0; 0; 0; -1; 1];
  [0; 0; 0; 1; 0; 0; -1; 1; 0; 1; 0; 1; 0; 0; -1; 1; 0; 1; 1; 1; 0; 0; -1; 1; 0; -1; 0; -1; 1; 0];
  [-1; 1; 0; 1; 1; -1; 1; 0; -1; 1; 0; 1; -1; 0; 1; 0; -1; 1; 0; 0; 0; 0; 1; 0; -1; 1; 0; 0; -1];
  [1; 1; 0; -1; 1; 0; 1; 0; 1; 1; 0; -1; 1; 0; 0; 1; 1; 1; 0; -1; 1; 0; 0; -1; 0; -1; 1; -1; 1; 0];
  [1; 0; 0; -1; 1; -1; 1; 0; 0; 1; 0; -1; 1; -1; 1; 0; -1; -1; -1; 0; 1; -1; 1; 0; 0; -1; -1; 0];
  [1; -1; 1; 0; 1; 0; -1; 0; 1; -1; 1; 0; 0; 0; 0; 0; 1; -1; 1; 0; 1; 0; 0; 0; 1; -1; 1; 0; -1; 1];
  [0; 0; 1; -1; 1; 0; -1; -1; 1; 0; 1; -1; 1; 0; 0; 0; -1; 1; 1; -1; 1; 0; 0; -1; 0; 1; 1; -1; 1];
  [0; 1; 0; 0; 1; 1; -1; 1; 0; 0; 0; 1; 1; 1; -1; 1; 0; 0; -1; 0; -1; -1; 0; 1; 0; 1; -1; 0; -1];
  [-1; 0; 1; 0; 0; 0; 0; -1; -1; 0; 1; 0; 1; 0; 0; -1; -1; 0; 1; 0; 1; 1; 0; -1; -1; 0; 1; 0; 0];
  [-1; 1; -1; -1; 0; 1; 0; 1; 0; 1; -1; -1; 0; 1; 0; 0; 1; 1; -1; -1; 0; 1; 0; -1; -1; -1; 0; -1];
  [0; 1; 0; 1; -1; -1; 0; -1; 0; 1; 0; 0; 0; -1; 0; -1; 0; 1; 0; -1; 1; -1; 0; -1; 0; 1; 0; 1; 1];
  [-1; 0; -1; 0; 1; 0; 0; -1; 0; 0; -1; 0; 1; 0; -1; 0; 0; 0; -1; 0; 1; 0; 0; 0; 0; 0; -1; 0; 1];
  [0; 1; 0; 0; 0; -1; 0; 1; 0; 0; 1; 0; 0; -1; 0; 1; 0; 1; 1; 0; 0; -1; 0; 1; 0; -1; -1; 1; 0; -1];
  [0; 1; 0; 1; -1; 1; 0; -1; 0; 1; 0; 0; 0; 1; 0; -1; 0; 1; 0; -1; 0; -1; 1; -1; 0; 1; 0; 0; 0];
  [-1; 1; -1; 0; 1; 0; 0; 1; -1; 1; -1; 0; 1; 0; -1; -1; 0; 1; -1; 0; 1; 0; 1; -1; 0; 1; -1; 0; 1];
  [0; -1; 0; 0; 1; -1; 0; 1; 0; 0; 0; 0; 1; -1; 0; 1; 0; 1; 0; 0; 1; -1; 0; 1; 0; -1; 1; 0; 1; -1];
  [0; 1; 0; 1; 1; 0; 1; -1; 0; 1; 0; 0; -1; 1; 1; -1; 0; 1; 0; -1; 0; 1; 1; -1; 0; 1; 0; 0; 1; 1];
  [1; -1; 0; 1; 0; 0; 0; -1; -1; 0; 0; 1; 0; -1; 1; -1; -1; 0; 0; 1; 0; 1; 1; -1; -1; 0; 0; 1; 0];
  [0; -1; 0; -1; 0; 0; 1; 0; 0; 0; 0; -1; 0; 0; 1; 0; 1; 0; 0; -1; 0; 0; 1; 0; 0; 1; 0; -1; 0; 0];
  [1; 0; -1; 0; -1; 0; 0; 0; 1; 0; 0; 0; -1; 0; 0; 0; 1; 0; 1; 0; -1; 0; 0; 0; 1; 0; 0; 1; -1; 0];
  [0; 0; 1; 0; -1; -1; 0; 0; 0; 0; 1; 0; 0; -1; 0; 0; 0; 0; 1; 0; -1; 0; 0; 0; 0; 0; 1; 0; 0; 0];
  [0; 0; 0; 0; 1; 0; 1; 0; 0; 0; 0; 0; 1; 0; 0; 1; 0; 0; 0; 0; 1; 0; 0; -1; 1; 0; 0; 0; 1; 0; -1];
  [0; 1; 0; 0; 0; 1; 0; 0; 0; 1; 0; 0; 0; 1; 0; 1; 0; 1; 0; 0; 0; 1; 0; 0; 1; 1; 0; 0; 0; 1; 0; 1];
  [0; -1; 1; 0; 0; 1; 0; 0; 1; -1; 1; 0; 0; 1; 0; 1; 1; -1; 1; 0; 0; 1; 0; 0; -1; 0; 1; 0; 0; 1];
  [0; 0; 0; 0; 1; 0; 0; 1; 0; 1; 0; 0; 1; 0; 0; 1; 0; 0; 1; 0; 1; 0; 0; 1; 0; 1; 1; 0; 1; 0; 0; 1];
  [0; 1; -1; 1; 1; 0; 0; 1; 0; 0; 0; 1; 1; 0; 0; 1; 0; 1; 0; 1; 1; 0; 0; 1; 0; -1; 1; 1; 1; 0; 0];
  [1; 0; 1; -1; -1; -1; 1; 0; 1; 0; 0; 1; -1; -1; 1; 0; 1; 0; 0; 0; 0; -1; 1; 0; 1; 0; -1; -1; 1];
  [-1; 1; 0; 1; 0; 1; 0; 1; -1; 1; 0; 1; 0; -1; 1; 1; -1; 1; 0; 1; 0; 0; 1; 1; -1; 1; 0; 1; 0; -1];
  [-1; -1; 0; 1; 0; 1; 0; 0; 0; -1; 0; 1; 0; 1; 0; -1; 1; -1; 0; 1; 0; 1; 0; 1; 1; -1; 0; 1; 0; 1];
  [0; 0; -1; 0; 0; 1; 0; 1; 0; -1; 0; 0; 0; 1; 0; 1; 0; 0; 0; 0; 0; 1; 0; 1; 0; 1; 0; 0; 0; 1; 0];
  [1; 0; -1; 1; 0; 0; 1; 0; 1; 0; 1; 1; 0; 0; 1; 0; 1; 0; -1; -1; 1; 0; 1; 0; 1; 0; 0; 0; 1; 0; 1];
  [0; 1; 0; -1; 1; 1; 0; 1; 0; 1; 0; -1; -1; -1; 1; 1; 0; 1; 0; 1; -1; -1; 1; 1; 0; 1; 0; 0; 0];
  [-1; 1; 1; 0; 1; 0; 1; 1; -1; 1; 1; 0; 1; 0; -1; 0; 0; 1; 1; 0; 1; 0; 1; 0; 0; 1; 1; 0; 1; 0];
  [-1; 1; 0; 1; 1; 0; 1; 0; 0; 1; 0; 1; 1; 0; 1; 0; -1; -1; 1; 1; 1; 0; 1; 0; -1; 0; 1; 1; 1; 0];
  [1; 0; 1; 0; 1; 1; 1; 0; 1; 0; 1; 1; 1; 1; 1; 0; 1; 0; 1; 0; 0; -1; -1; 1; 1; 0; 0; 1; 0; -1];
  [-1; 1; 1; 0; 0; 0; 1; -1; -1; 1; 1; 0; 0; -1; -1; 0; -1; 1; 1; 0; 1; -1; 0; 0; -1; 1; 1; 0; 0];
  [0; 0; 0; -1; 1; 1; 0; 1; 1; 0; 0; -1; 1; 1; 0; 0; -1; 1; 0; -1; 1; 1; 0; 0; 1; 1; 0; -1; 1; 1];
  [0; 0; 0; -1; 1; -1; 1; 1; 0; 0; -1; 0; 1; -1; 1; 1; 0; -1; 1; 0; 1; -1; 1; 1; 0; 1; 0; 1; 1];
  [-1; 1; 1; 0; 0; -1; -1; -1; 0; 1; 1; 0; -1; 0; -1; -1; 0; 1; 1; 0; -1; -1; 0; -1; 0; 1; 1; 0];
  [0; 0; 0; -1; 0; 1; 1; 0; 0; -1; 1; -1; 0; 1; 1; 0; -1; 0; 1; -1; 0; 1; 1; 0; 1; 0; 1; -1; 0; 1];
  [1; 0; 0; 1; 1; -1; 0; 1; 1; 0; -1; -1; -1; 0; 0; 1; 1; 0; 0; -1; -1; 0; 0; 1; 1; 0; 0; 0; -1];
  [0; 0; 1; 1; 0; 1; 0; -1; 0; 0; 1; 1; 0; -1; 1; -1; 0; 0; 1; 1; 0; 0; -1; 0; 0; 0; 1; 1; 0; -1];
  [0; 0; 0; 0; 1; 1; 0; 0; 0; 0; 0; 0; 1; 1; 0; 1; 0; 0; 0; 0; 1; 1; 0; 0; 1; 0; 0; 0; 1; 1; 0];
  [-1; -1; 1; 0; 0; 1; 1; 0; 0; 0; 1; 0; 0; 1; 1; 0; 1; 1; 1; 0; 0; 1; 1; 0; 1; -1; -1; 1; 0; 1];
  [1; 0; -1; 0; -1; 1; 0; 1; 1; 0; 1; 1; -1; 1; 0; 1; 1; 0; 0; 0; 0; 1; 0; 1; 1; 0; 0; -1; 1; 1];
  [0; 1; 1; 0; -1; 0; 1; 1; 0; 1; 1; 0; 0; 0; 1; 1; 0; 1; 1; 0; 0; 1; 1; 1; 0; 1; 1; 0; 0; -1; 0];
  [-1; 1; 1; 1; 0; 1; 0; 0; -1; 1; 1; 1; 0; -1; 1; 0; -1; 1; 1; 1; 0; 0; -1; -1; 0; 1; 1; 1; 0];
  [-1; 0; -1; 0; 1; 1; 1; 0; 0; 1; -1; 0; 1; 1; 1; 0; -1; -1; 0; 0; 1; 1; 1; 0; 0; 0; 0; 0; 1; 1];
  [1; 0; -1; 1; 0; 0; 1; 1; 1; 0; 1; 1; 0; 0; 1; 1; 1; 0; -1; 0; 1; 0; 1; 1; 1; 0; 0; 0; 1; 0; 1];
  [1; 1; 0; 0; 1; 1; 0; 1; 1; 1; 0; 1; 0; -1; 1; 1; 1; 1; 0; -1; 0; 0; 1; 1; 1; 1; 0; -1; 1; 0; 1];
  [1; 1; 1; 0; 1; 1; 0; 1; 1; 1; 1; 0; 1; 0; 1; 1; 1; 1; 1; 0; -1; -1; -1; -1; -1; -1; -1; 1; 1];
  [-1; -1; -1; -1; -1; -1; 1; -1; 1; -1; -1; -1; -1; -1; 1; 1; 1; -1; -1; -1; -1; -1; 1; -1; -1];
  [1; -1; -1; -1; -1; 1; 1; -1; 1; -1; -1; -1; -1; 1; -1; 1; 1; -1; -1; -1; -1; 1; 1; 1; 1; -1];
  [-1; -1; -1; 1; 0; 0; -1; 0; -1; -1; -1; 1; -1; -1; 0; 0; -1; -1; -1; 1; 0; -1; 0; 0; -1; -1];
  [-1; 1; -1; 0; 0; 0; -1; -1; -1; 1; 1; 0; 0; 0; -1; -1; -1; 1; 0; 1; 0; 0; -1; -1; -1; 1; 0; 0];
  [1; 0; -1; -1; -1; 1; -1; -1; -1; 1; -1; -1; -1; 1; 1; -1; -1; 1; -1; -1; -1; 1; -1; 1; -1; 1];
  [-1; -1; -1; 1; 1; 1; -1; 1; -1; -1; -1; 1; 0; 0; 0; 1; -1; -1; -1; 1; -1; -1; 1; 1; -1; -1; -1];
  [1; 1; -1; 1; 1; -1; -1; -1; 1; -1; 1; 1; 1; -1; -1; -1; 1; 1; 1; 1; 1; -1; -1; -1; 1; 0; 0; -1];
  [-1; 0; -1; -1; 1; 0; -1; 0; -1; 0; -1; -1; 1; -1; 0; 0; -1; 0; -1; -1; 1; 1; 0; 0; -1; 0; -1];
  [-1; 1; 0; 1; 0; -1; 0; -1; -1; 1; 0; 0; 1; -1; 0; -1; -1; 1; 0; -1; -1; 0; 0; -1; -1; 1; -1; 0];
  [-1; 0; 0; -1; -1; 1; 0; 1; -1; 0; 0; -1; -1; 1; -1; -1; 0; 0; 0; -1; -1; 1; 1; -1; 0; 0; 0; -1];
  [-1; 1; 0; 0; 0; 0; 0; -1; -1; 1; 1; 0; 0; 0; 0; -1; -1; 1; -1; 1; 0; 0; 0; -1; -1; 1; 0; 1; 0];
  [0; 0; -1; -1; 1; -1; 0; 1; 0; 0; -1; -1; 1; 1; 0; 1; 0; 0; -1; -1; 1; 0; 1; 1; 0; 0; -1; -1; 1];
  [0; 0; -1; 1; 0; -1; -1; 1; 0; 1; -1; 1; 0; -1; -1; 1; -1; 0; 0; 1; 0; -1; -1; 1; 1; 0; 0; 1; 0];
  [-1; -1; 1; 0; 1; 0; 1; 0; -1; -1; 1; 0; 0; 1; 1; 0; -1; -1; 1; -1; -1; -1; -1; 1; -1; -1; 1; 1];
  [-1; -1; -1; 1; -1; -1; 1; -1; 1; -1; -1; 1; -1; -1; 1; 1; 1; -1; -1; 1; -1; -1; 1; 0; 0; 0; -1];
  [1; -1; -1; 1; -1; -1; 1; -1; 1; -1; -1; 1; 1; -1; 1; -1; 1; -1; -1; 1; -1; 1; 1; -1; 1; -1; -1];
  [1; 1; 1; 1; -1; 1; -1; -1; 1; 0; -1; 0; 0; 1; -1; -1; 1; -1; 0; 0; 0; 1; -1; -1; 1; 0; 1; 0; 0];
  [1; -1; -1; 1; 0; 0; 1; 0; 1; -1; -1; 1; -1; -1; -1; 1; 1; -1; -1; 1; 1; -1; -1; 1; 1; -1; -1];
  [1; -1; 1; -1; 1; 1; -1; -1; 1; 1; 1; -1; 1; 1; -1; -1; 1; 0; 0; 0; 1; 1; -1; -1; 1; -1; -1; 1];
  [1; 1; -1; -1; 1; 1; -1; 1; 1; 1; -1; -1; 1; -1; 1; 1; 1; 1; -1; -1; 1; 1; 1; 1; 1; 1; -1; -1];
  [1; -1; 0; 0; -1; -1; 0; -1; 1; 0; 1; 0; -1; -1; 0; -1; 1; 0; -1; -1; 0; -1; 0; -1; 1; -1; 0];
  [-1; 0; -1; 0; -1; 1; 0; -1; 0; 0; -1; 0; -1; 1; 0; 0; 0; 0; -1; 0; -1; 1; 1; 1; 0; 0; -1; 0];
  [-1; 1; 0; -1; 1; 0; -1; 0; -1; 1; -1; 0; 1; 0; -1; 0; -1; 1; 0; 1; 1; 0; -1; 0; -1; 1; -1; 0];
  [0; 1; -1; 0; -1; 1; 0; 1; 0; 1; -1; 0; -1; 1; 0; -1; -1; -1; 0; 0; -1; 1; 0; 1; -1; -1; 0; 0];
  [-1; 1; 1; -1; 0; -1; 0; 0; -1; 1; 0; 0; 0; -1; 0; 0; -1; 1; 1; 1; 0; -1; 0; 0; -1; 1; 1; 0; 1];
  [-1; 0; 0; -1; 1; 0; 1; 1; -1; 0; 0; -1; 1; -1; -1; -1; 0; 0; 0; -1; 1; 0; -1; -1; 0; 0; 0; -1];
  [1; 0; 0; -1; 0; 0; 0; -1; 1; -1; 1; -1; 0; 0; 0; -1; 1; 0; -1; 0; 0; 0; 0; -1; 1; -1; 0; 0; 0];
  [0; 0; -1; 1; 0; 0; 0; 0; 0; 0; -1; 1; 1; 0; 0; 0; 0; 0; -1; 1; 0; 1; 0; 0; 0; 0; -1; 1; 1; 1];
  [0; 0; 0; 0; -1; 1; 0; 0; 1; 0; 0; 0; -1; 1; 1; 0; 1; 0; 0; 0; -1; 1; -1; 1; 1; 0; 0; 0; -1; 1];
  [1; 1; 1; 0; 0; 0; -1; 1; 0; -1; -1; 1; 0; 0; -1; 1; -1; 0; -1; 1; 0; 0; -1; 1; 1; 0; -1; 1; 0];
  [0; -1; 1; 0; 1; -1; 1; 0; 0; -1; 1; -1; -1; 0; 1; 0; 0; -1; 1; 1; -1; 0; 1; 0; 0; -1; 1; 0; 0];
  [0; 1; 0; 0; -1; 1; -1; 1; 0; 1; 0; 0; -1; 1; 1; 0; 1; 1; 0; 0; -1; 1; 0; -1; 0; -1; 1; 0; -1];
  [1; 1; 0; 0; -1; 1; 0; -1; 1; 0; 1; 0; -1; 1; 0; -1; 1; 0; 0; 1; -1; 1; 0; -1; 1; 0; -1; -1; 0];
  [1; 0; -1; 1; -1; 0; -1; 0; 1; 0; -1; 1; 0; 1; -1; 0; 1; 0; -1; 1; 1; 1; -1; 0; 1; 0; -1; 1; -1];
  [-1; 0; 0; 1; 0; -1; 1; 0; 0; 0; 0; 1; 0; -1; 1; 0; 1; 0; 0; 1; 0; -1; 1; 1; 1; 0; 0; 1; 0; -1];
  [1; 0; -1; 1; 0; 1; 0; -1; 1; 1; 0; 1; 0; 1; 0; -1; 1; 1; 1; 1; 0; 1; 0; -1; 1; 0; 0; -1; 1; 1];
  [0; -1; 1; 0; -1; 0; 1; 1; 0; -1; 1; 1; 1; 0; 1; 1; 0; -1; 1; -1; 0; 1; 1; 1; 0; -1; 1; -1; -1];
  [-1; -1; -1; 1; -1; 1; 1; -1; -1; -1; -1; 1; -1; 1; -1; 1; -1; -1; -1; 1; -1; 1; 1; 1; -1; -1];
  [-1; 1; -1; 1; 0; 0; 0; -1; -1; 1; -1; 1; -1; -1; 1; -1; -1; 1; -1; 1; 1; -1; 1; -1; -1; 1; -1];
  [1; -1; 1; 1; -1; -1; 1; -1; 1; 1; 1; 1; -1; -1; 1; -1; 1; 0; -1; -1; 0; -1; 1; -1; 1; 0; 0; -1];
  [0; -1; 1; -1; 1; 0; -1; 0; 0; -1; 1; -1; 1; -1; 0; 0; 0; -1; 1; -1; 1; 0; 1; 0; 0; -1; 1; -1];
  [1; 0; 0; 1; 0; -1; 1; -1; 1; 0; 1; 1; 0; -1; 1; -1; 1; -1; -1; -1; 1; -1; 1; -1; 1; 1; -1; -1];
  [1; -1; 1; -1; 1; -1; 1; -1; 1; -1; 1; -1; 1; 1; 1; -1; 1; -1; 1; -1; 1; 0; 0; 0; 1; -1; 1; -1];
  [1; -1; -1; 1; 1; -1; 1; -1; 1; 1; -1; 1; 1; -1; 1; -1; 1; -1; 1; 1; 1; -1; 1; -1; 1; 1; 1; 1];
  [1; -1; 1; -1; 1; 0; 0; -1; -1; 0; 1; -1; 1; 1; 0; -1; -1; 0; 1; -1; 1; 0; -1; 0; -1; 0; 1; -1];
  [1; -1; 0; 0; -1; 0; 1; -1; 1; 1; 0; 0; -1; 0; 1; -1; 1; 0; 0; 1; -1; 0; 1; -1; 1; 0; -1; -1; 0];
  [0; 1; -1; 1; -1; 0; -1; 0; 0; 1; -1; 1; 1; 0; -1; 0; 0; 1; -1; 1; 0; 1; -1; 0; 0; 1; -1; 1; -1];
  [-1; 0; 0; 0; 1; -1; 1; 1; -1; 0; 0; 0; 1; -1; 1; 0; 0; 0; 0; 0; 1; -1; 1; 1; 1; 0; 0; 0; 1; -1];
  [1; 0; -1; 1; 0; 0; 1; -1; 1; -1; 0; 1; 0; 0; 1; -1; 1; 0; 0; -1; 1; 0; 1; -1; 1; 1; 0; 0; 1; 0];
  [1; -1; 1; 0; 1; 0; 1; 0; 1; -1; 1; 0; 0; 1; 1; 0; 1; -1; 1; -1; -1; -1; -1; 1; 1; -1; 1; 1; -1];
  [-1; -1; 1; 1; -1; 1; -1; 1; -1; -1; 1; 1; -1; 1; 1; 1; -1; -1; 1; 1; -1; 1; 0; 0; 0; -1; 1; 1];
  [-1; 1; -1; -1; 1; -1; 1; 1; -1; 1; 1; -1; 1; -1; 1; 1; -1; 1; -1; 1; 1; -1; 1; 1; -1; 1; 1; 1];
  [1; -1; 1; 1; -1; 1; 0; 0; -1; 0; 1; 1; -1; 1; 0; -1; 0; 0; 1; 1; -1; 1; -1; 0; 0; 0; 1; 1; -1];
  [1; 1; 0; 0; 0; 1; 1; -1; 1; -1; -1; -1; 1; 1; 1; -1; 1; 1; -1; -1; 1; 1; 1; -1; 1; -1; 1; -1];
  [1; 1; 1; -1; 1; 1; 1; -1; 1; 1; 1; -1; 1; 0; 0; 0; 1; 1; 1; -1; 1; -1; -1; 1; 1; 1; 1; -1; 1];
  [1; -1; 1; 1; 1; 1; -1; 1; -1; 1; 1; 1; 1; 1; -1; 1; 1; 1; 1; 1; 1; 1; -1; 1; 0; 0; -1; -1; -1];
  [-1; 0; 1; 0; -1; 0; -1; -1; -1; 0; 1; 1; 0; 0; -1; -1; -1; 0; 1; -1; 1; 0; -1; -1; -1; 0; 1; 0];
  [1; 0; -1; -1; -1; 0; 1; 0; 0; 1; -1; -1; -1; 0; 1; 0; -1; -1; 0; -1; -1; 0; 1; 1; 0; -1; 0; -1];
  [-1; 0; 1; 0; 1; -1; 0; -1; -1; 0; 1; 0; 0; 0; 0; -1; -1; 0; 1; -1; 1; 0; 0; -1; -1; 0; 1; 1; 1];
  [0; 0; -1; -1; 0; 1; 0; 1; 1; 0; -1; -1; 0; 1; 1; 1; 1; 0; -1; -1; 0; 1; 0; 0; -1; 1; -1; -1; 0];
  [1; 0; -1; 0; 1; -1; -1; 0; 1; -1; 0; 0; 1; -1; -1; 0; 1; 1; 0; 0; 1; -1; -1; 0; 1; 0; 1; 0; 1];
  [-1; -1; 0; 1; 0; 0; 1; 1; -1; -1; 0; 1; 0; -1; -1; -1; 0; -1; 0; 1; -1; 0; -1; -1; 0; -1; 0; 1];
  [1; 0; -1; -1; 0; -1; 0; 1; 0; 1; -1; -1; 0; -1; 0; 1; -1; -1; 0; -1; 0; -1; 0; 1; 0; 0; 0; -1];
  [0; -1; 0; 1; -1; 1; 0; -1; 0; -1; 0; 1; 1; 1; 0; -1; 0; -1; 0; 1; 0; -1; 1; -1; 0; -1; 0; 1];
  [-1; 0; 1; -1; 0; -1; 0; 1; 1; 0; 1; -1; 0; -1; 0; 1; 0; 1; 1; -1; 0; -1; 0; 1; -1; -1; -1; 0];
  [0; -1; 0; 1; 0; 0; -1; 0; 0; -1; 0; 1; -1; -1; 0; 0; 0; -1; 0; 1; 0; -1; 0; 0; 0; -1; 0; 1; -1];
  [0; 0; 0; 0; -1; 0; 1; 0; 0; 0; 0; 0; -1; 0; 1; 1; 0; 0; 0; 0; -1; 0; 1; 0; 1; 0; 0; 0; -1; 0];
  [1; 1; -1; 1; 0; 0; -1; 0; 1; 0; 0; 1; 0; 0; -1; 0; 1; -1; 0; -1; 1; 0; -1; 0; 1; 1; 0; -1; 1];
  [0; -1; 0; 1; 1; -1; 0; 1; 0; -1; 0; 1; 0; 0; 0; 1; 0; -1; 0; 1; -1; 1; 0; 1; 0; -1; 0; 1; 0];
  [-1; 1; 1; 0; -1; 0; 1; -1; 0; 1; 1; 0; -1; 0; 1; 1; 0; 1; 1; 0; -1; 0; 1; 0; 1; 1; 1; 0; -1; 0];
  [1; 0; 0; -1; -1; 1; -1; 0; 1; 0; -1; 0; -1; 1; -1; 0; 1; -1; 0; 0; -1; 1; -1; 0; 1; 0; 1; 0];
  [-1; 1; -1; 0; 1; 0; 0; 1; -1; 1; -1; 0; 1; -1; 0; -1; 0; 1; -1; 0; 1; 1; 0; -1; 0; 1; -1; 0; 1];
  [0; 1; -1; 0; 1; -1; 0; 1; -1; -1; 0; 0; 1; -1; 0; 1; 1; -1; 0; 0; 1; -1; 0; 1; 0; 0; 0; 0; 1];
  [-1; 0; 1; -1; 1; 0; 0; 1; -1; 0; 1; 1; 0; 1; 0; 1; -1; 0; 1; 0; 1; 1; 0; 1; -1; 0; 1; 0; 0; -1];
  [1; 1; -1; 0; 1; -1; 0; 0; 1; 1; -1; 0; 1; 1; 0; 0; 1; 1; -1; 0; 1; 0; 1; 1; 1; 1; -1; 0; 1; 0];
  [-1; -1; -1; -1; 0; 0; 1; -1; 0; -1; -1; -1; 0; 0; 1; 1; 0; -1; -1; -1; 0; 0; 1; -1; -1; 0; -1];
  [-1; 0; 0; 1; 0; 0; 0; -1; -1; 0; 0; 1; -1; 1; 0; -1; -1; 0; 0; 1; 1; 0; 1; -1; -1; 0; 0; 1; -1];
  [-1; -1; 0; -1; 0; 0; 1; 1; 1; -1; 0; -1; 0; 0; 1; 0; -1; 0; 0; -1; 0; 0; 1; -1; 0; 0; 0; -1; 0];
  [0; 1; 0; 0; 0; 0; -1; 0; 0; 1; 1; 0; 0; 0; -1; 0; 0; 1; -1; 1; 0; 0; -1; 0; 0; 1; 0; 1; 0; 0];
  [-1; 0; 0; 1; -1; -1; 1; 0; -1; 0; 0; 1; 0; -1; 1; 0; -1; 0; 0; 1; 1; -1; 1; 0; -1; 0; 0; 1; 0];
  [0; 1; 0; -1; 0; 0; 1; -1; 0; -1; 1; -1; 0; 0; 1; 1; 0; -1; 1; -1; 0; 0; 1; 1; -1; 0; 1; -1; 0];
  [0; 1; -1; 0; 0; 1; -1; 0; 0; 1; 0; 0; 0; 1; -1; 0; 0; 1; -1; 1; 0; 1; -1; 0; 0; 1; 0; -1; 1; 1];
  [-1; 0; 0; 1; 0; 1; 1; 1; -1; 0; 0; 1; -1; -1; -1; -1; 0; 0; 0; 1; 0; 0; -1; -1; 0; 0; 0; 1; -1];
  [1; -1; -1; 0; 0; 0; 1; 1; 1; -1; -1; 0; 0; 0; 1; -1; -1; 0; -1; 0; 0; 0; 1; 0; -1; 0; -1; 0; 0];
  [0; 1; -1; 0; 0; -1; 0; 0; 0; 1; 0; 0; 0; -1; 0; 0; 0; 1; 1; 0; 0; -1; 0; 0; 0; 1; 0; 1; 0; -1];
  [0; 0; 0; 1; 0; -1; 1; -1; 0; 0; 0; 1; 0; 0; 1; -1; 0; 0; 0; 1; 0; 1; 1; -1; 0; 0; 0; 1; 1; 1];
  [1; -1; 0; 0; 0; 1; 0; -1; -1; 0; 0; 0; 0; 1; -1; 0; -1; 0; 0; 0; 0; 1; 0; 0; -1; 0; 0; 0; 0; 1];
  [1; 0; -1; 0; 0; 0; 0; 1; 0; 1; -1; 0; 0; 0; 0; 1; -1; -1; 0; 0; 0; 0; 0; 1; 0; -1; 0; 0; 0; 0];
  [0; 1; 1; -1; 0; 0; 0; 0; 0; 1; -1; 0; 0; 0; 0; 0; 0; 1; 0; 0; 0; 0; 0; 0; 0; 1; 1; 0; 0; 0; 0];
  [0; 0; 1; -1; 1; 0; 0; 0; 0; 0; 1; 0; 1; 0; 0; 0; 0; 0; 1; 1; 1; 0; 0; 0; 0; 0; 1; 0; -1; 1; 0];
  [0; 0; 0; 1; -1; 0; 1; 0; 0; 0; 0; 1; 0; 0; 1; 0; 0; 0; 0; 1; 1; 0; 1; 0; 0; 0; 0; 1; 0; 1; 1];
  [0; 0; 0; 0; 1; 0; -1; -1; 1; 0; 0; 0; 1; 0; 0; -1; 1; 0; 0; 0; 1; -1; 1; -1; 1; 0; 0; 0; 1; 0];
  [-1; 0; 1; 0; 0; 0; 1; 1; -1; 0; 1; 0; 0; 0; 1; -1; 0; 0; 1; 0; 0; 0; 1; 0; 0; 0; 1; 0; 0; 0; 1];
  [1; 0; 0; 1; 0; 0; 0; 1; 0; 1; 0; 1; 0; 0; 0; 1; 1; 1; 0; 1; 0; 0; 0; 1; -1; -1; 1; 1; 0; 0; 0];
  [1; 1; -1; 1; 1; 0; 0; 0; 1; 0; 0; 1; 1; 0; 0; 0; 1; -1; 1; 1; 1; 0; 0; 0; 1; 1; 1; 1; 1; 0; 0];
  [0; 1; 0; -1; -1; -1; 1; 0; 0; 1; -1; 0; -1; -1; 1; 0; 0; 1; -1; -1; 0; -1; 1; 0; 0; 1; 0; 0; 0];
  [-1; 1; 0; 0; 1; 0; 1; 0; -1; 1; 0; 0; 1; -1; -1; 1; -1; 1; 0; 0; 1; 1; 0; 1; -1; 1; 0; 0; 1; 0];
  [1; 1; -1; 1; 0; 0; 1; 0; 0; -1; 0; 1; 0; 0; 1; -1; 1; -1; 0; 1; 0; 0; 1; 0; 1; -1; 0; 1; 0; 0];
  [1; 0; -1; 0; 0; 1; 0; 0; 1; 1; -1; 0; 0; 1; 0; 0; 1; 0; 0; 0; 0; 1; 0; 0; 1; 1; 0; 0; 0; 1; 0];
  [0; 1; 0; 1; 0; 0; 1; 0; 0; 1; 0; 0; 1; 0; 1; 0; 0; 1; -1; 1; 1; 0; 1; 0; 0; 1; 1; -1; -1; 1; 1];
  [0; 0; 1; -1; 0; -1; 1; 1; 0; 0; 1; 0; 1; -1; 1; 1; 0; 0; 1; 1; 1; -1; 1; 1; 0; 0; 1; 1; -1; 0];
  [1; 1; 0; 0; 1; -1; 0; 0; 1; 1; 0; 0; 1; 0; 0; 0; 1; 1; 0; 0; 1; -1; 0; 1; 1; 1; 0; 0; 1; 1; 0];
  [1; 1; 1; 0; 0; 1; 0; 1; 1; 1; 1; 0; 0; 1; 0; 0; -1; -1; -1; 1; 0; 1; 1; 0; 0; -1; -1; 1; 0; 1];
  [0; 1; 0; -1; -1; 1; 0; 1; 0; 0; 1; -1; -1; 1; 0; 1; 0; -1; -1; 0; -1; 1; 0; 1; 1; 0; -1; 0; -1];
  [1; 0; 1; -1; -1; 0; 0; -1; 1; 0; 1; 1; -1; 0; 0; -1; 1; 0; 1; 0; 0; 0; 0; -1; 1; 0; 1; 1; 0; 0];
  [0; -1; 1; 0; 1; 1; 1; 0; 0; -1; 1; 0; 1; -1; 0; 1; 0; -1; 1; 0; 1; 0; 0; 1; 0; -1; 1; 0; 1; 0];
  [0; -1; 1; -1; 1; 0; 1; 0; -1; 0; 1; -1; 1; 0; 1; 1; 0; 0; 1; -1; 1; 0; 1; 0; 1; 0; 1; -1; 1; 0];
  [1; 0; 0; 1; 1; -1; 1; 0; 1; -1; 0; -1; -1; 0; 1; 0; 1; 1; 0; -1; -1; 0; 1; 0; 1; 0; 1; -1; -1];
  [0; 1; 0; 1; -1; -1; 0; -1; 0; 1; 0; 1; 1; -1; 0; -1; 0; 1; 0; 1; 0; 0; 0; -1; 0; 1; 0; 1; -1];
  [1; 0; -1; 0; 1; 0; 1; 1; 1; 0; -1; 0; 1; 0; 1; -1; -1; 1; -1; 0; 1; 0; 1; 0; -1; 1; -1; 0; 1];
  [0; 1; -1; 0; 1; -1; 0; 1; 0; 1; 1; 0; 1; -1; 0; 1; 0; 1; -1; -1; -1; 0; 0; 1; 0; 1; 1; -1; -1];
  [0; 0; 1; 0; 1; 0; 0; -1; 0; 0; 1; 0; 1; -1; 1; -1; 0; 0; 1; 0; 1; 1; 1; -1; 0; 0; 1; 0; 1; 0];
  [-1; 0; 0; 0; 1; 0; 1; -1; 0; 0; 0; 0; 1; 0; 1; 0; 0; 0; 0; 0; 1; 0; 1; 1; 0; 0; 0; 0; 1; 0; 1];
  [0; 1; 0; 0; 0; 1; 0; 1; 1; -1; 1; 0; 0; 1; 0; 1; 0; 0; 1; 0; 0; 1; 0; 1; 1; 0; 1; 0; 0; 1; 0];
  [1; 1; 1; 1; 0; 0; 1; 0; 1; 0; -1; -1; 1; 0; 1; 0; 1; -1; 0; -1; 1; 0; 1; 0; 1; -1; -1; 0; 1; 0];
  [1; 0; 1; 1; -1; 0; 1; 0; 1; 0; 1; 0; 0; 0; 1; 0; 1; 0; 1; 1; 1; 0; 1; 0; 1; 0; 1; 0; -1; 1; 1];
  [0; 1; 0; 1; 1; 0; 1; 1; 0; 1; 0; 1; 0; 0; -1; -1; 1; 1; 0; 1; 0; 0; 0; -1; 1; 1; 0; 1; 0; 0; 1];
  [-1; 1; 1; 0; 1; -1; 0; -1; 0; 1; 1; 0; 1; 1; 0; -1; 0; 1; 1; 0; 1; 0; 1; -1; 0; 1; 1; 0; 1; -1];
  [-1; 0; 0; 1; 1; 0; 1; 0; 0; 0; 0; 1; 1; 0; 1; -1; 1; 0; 0; 1; 1; 0; 1; 0; -1; 1; 0; 1; 1; 0; 1];
  [0; 0; -1; 1; 1; 1; 0; 1; 0; -1; 0; 1; 1; 1; 0; 1; -1; 0; 0; 1; 1; 1; 0; 1; 0; 0; 0; 1; 1; 1; 0];
  [1; 1; 0; 0; 1; 1; 1; 0; 1; -1; -1; -1; -1; -1; -1; 1; 1; 1; -1; -1; -1; -1; -1; 1; 1; -1; 1];
  [-1; -1; -1; -1; 1; 1; 1; 1; -1; -1; -1; -1; 1; 1; 0; 0; 0; -1; -1; -1; 1; 1; -1; -1; 1; -1; -1];
  [-1; 1; 1; 1; -1; 1; -1; -1; -1; 1; 1; -1; 1; 1; -1; -1; -1; 1; 1; 1; 1; 1; -1; -1; -1; 1; 1; 0];
  [0; -1; 0; -1; -1; 1; 1; 0; -1; 0; 0; -1; -1; 1; 1; -1; 0; 0; 0; -1; -1; 1; 1; 1; 0; 0; 0; -1];
  [-1; 1; 1; 0; 1; 0; 0; -1; -1; 1; 1; -1; -1; -1; 1; -1; -1; 1; 1; 1; -1; -1; 1; -1; -1; 1; 1];
  [-1; 1; -1; 1; -1; -1; 1; 1; 1; 1; -1; 1; -1; -1; 1; 1; 0; 0; 0; 1; -1; -1; 1; 1; -1; -1; 1; 1];
  [-1; -1; 1; 1; 1; -1; 1; 1; -1; -1; 1; 1; -1; 1; 1; 1; -1; -1; 1; 1; 1; 1; 1; 1; -1; -1; 1; 1];
  [0; 0; -1; -1; 0; -1; 1; 1; 0; 1; -1; -1; 0; -1; 1; 1; 0; -1; 0; -1; 0; -1; 1; 1; -1; 0; 0; -1];
  [0; -1; 1; 1; 1; 0; 0; -1; 0; -1; 1; 1; 0; 1; 0; -1; 0; -1; 1; 1; 1; 1; 0; -1; 0; -1; 1; 1; 1];
  [0; -1; 0; 0; -1; 1; 1; 0; 1; -1; 0; 0; -1; 1; 1; 0; -1; 0; 0; 0; -1; 1; 1; 0; 0; 0; 0; 0; -1];
  [1; 1; -1; 1; 0; 0; 0; -1; 1; 1; 1; 1; 0; 0; 0; -1; 1; 1; 0; -1; 1; 0; 0; -1; 1; 1; -1; 0; 1; 0];
  [0; -1; 1; 1; 0; 0; -1; 1; 0; -1; 1; 1; -1; -1; 0; 1; 0; -1; 1; 1; 1; -1; 0; 1; 0; -1; 1; 1; 1];
  [0; 0; 1; 0; -1; 1; 1; 0; 1; 0; 1; 0; -1; 1; 1; 1; -1; -1; -1; 1; -1; 1; 1; -1; 1; -1; -1; 1];
  [-1; 1; 1; 1; 1; -1; -1; 1; -1; 1; 1; -1; -1; 0; -1; 1; -1; 1; 1; 0; 1; 0; -1; 1; -1; 1; 1; 1];
  [-1; 1; -1; 1; -1; 1; 1; -1; 1; 1; -1; 1; -1; 1; 1; 1; 1; 1; -1; 1; -1; 1; 1; 0; 0; -1; 0; 1];
  [-1; 1; 1; 0; -1; 0; 0; 1; -1; 1; 1; 1; 0; 0; 0; 1; -1; 1; 1; 0; 1; 0; 0; 1; -1; 1; 1; 0; 0; 1];
  [0; 1; -1; 1; 1; -1; -1; -1; 1; 1; -1; 1; 1; 1; -1; -1; 1; 1; -1; 1; 1; -1; 1; -1; 1; 1; -1; 1];
  [1; 1; 1; -1; 1; 1; -1; 1; 1; 0; 0; 0; 1; 1; -1; 1; 1; -1; -1; 1; 1; 1; -1; 1; 1; 1; -1; 1; 1];
  [1; -1; 1; 1; -1; 1; 1; 1; 1; -1; 1; 1; 1; 1; 1; 1; 1; -1; 1; 1; 0; 1; 0; -1; -1; 0; 1; 1; 0; 0];
  [1; -1; -1; 0; 1; 1; 0; -1; -1; 0; -1; 0; 1; 1; -1; 0; -1; 0; -1; 0; 1; 1; -1; -1; 0; 0; -1; 0];
  [1; 1; -1; 0; 0; 0; -1; 0; 1; 1; 0; 0; 0; 0; -1; 0; 1; 1; -1; 1; 0; 0; -1; 0; 1; 1; 1; 1; 0; 0];
  [-1; 0; 1; 1; 0; -1; 1; 0; -1; 0; 1; 1; 0; 0; 1; 0; -1; 0; 1; 1; 1; 0; 1; 0; -1; 0; 1; 1; -1; 1];
  [1; 0; -1; 0; 1; 1; 0; 1; 1; 0; -1; 0; 1; 1; 0; 0; -1; 1; -1; 0; 1; 1; 1; 0; -1; -1; 0; 0; 1; 1];
  [0; 1; -1; -1; 0; 0; 1; 1; -1; -1; 0; -1; 0; 0; 1; 1; 1; -1; 0; -1; 0; 0; 1; 1; 0; 0; 0; -1; 0];
  [0; 1; 1; -1; 1; 0; -1; 0; 0; 1; 1; 1; 0; 1; -1; 0; 0; 1; 1; 0; 1; 1; -1; 0; 0; 1; 1; 1; -1; -1];
  [0; 0; 0; 1; 1; 0; 0; -1; 0; 0; 0; 1; 1; 0; -1; 0; 0; 0; 0; 1; 1; -1; 0; 0; 0; 0; 0; 1; 1; 0; 0];
  [0; 0; 0; 0; 1; 1; 1; 0; 0; 0; 0; 0; 1; 1; 0; 1; 0; 0; 0; 0; 1; 1; 0; 0; 1; 0; 0; 0; 1; 1; 1; 1];
  [1; 0; 0; 0; 1; 1; 0; -1; -1; 1; 0; 0; 1; 1; -1; 0; -1; 1; 0; 0; 1; 1; 0; 0; -1; 1; 0; 0; 1; 1];
  [1; 0; -1; 1; 0; 0; 1; 1; 0; 1; -1; 1; 0; 0; 1; 1; 1; -1; 0; 1; 0; 0; 1; 1; 0; 0; 0; 1; 0; 0; 1];
  [1; -1; 1; 0; 1; 0; 0; 1; 1; 0; 0; -1; -1; 1; 0; 1; 1; 0; -1; 0; -1; 1; 0; 1; 1; 1; 0; 0; -1; 1];
  [0; 1; 1; 1; 1; 0; -1; 1; 0; 1; 1; 0; -1; 1; -1; 1; 0; 1; 1; 0; 0; 1; -1; 1; 0; 1; 1; -1; 0; -1];
  [0; 1; 0; 1; 1; 1; 0; -1; 0; 1; 0; 1; 1; 1; 1; -1; 0; 1; 0; 1; 1; 1; -1; 0; 0; 1; 0; 1; 1; 0; 0];
  [0; 0; 1; 0; 1; 1; 1; 0; 0; 0; 1; 0; 1; 1; -1; 1; 0; 0; 1; 0; 1; 1; -1; -1; 1; 0; 1; 0; 1; 1; 1];
  [-1; 1; 0; 1; 0; 1; 1; 1; 0; -1; 1; 1; 0; 1; 1; -1; -1; 0; 1; 1; 0; 1; 1; 0; 0; 0; 1; 1; 0; 1];
  [1; 1; 0; 0; 1; 1; 0; 1; 1; 0; 1; 0; 1; 1; 0; 1; 1; 0; -1; 1; 1; 1; 0; 1; 1; -1; 0; 1; 1; 1; 0];
  [1; 1; 1; 0; 1; 1; 1; 0; 1; 1; -1; -1; -1; -1; -1; 1; 1; 1; 1; -1; -1; -1; -1; 1; 1; 1; -1; 1];
  [-1; -1; -1; 1; 1; 1; 1; 1; -1; -1; -1; 1; 1; 1; -1; -1; 1; -1; -1; 1; 1; 1; 1; -1; 1; -1; -1];
  [1; 1; 1; -1; 1; 1; -1; -1; 1; 1; 1; 1; 1; 1; -1; -1; 1; 1; 1; 0; -1; 0; 0; -1; 1; 1; 1; -1; 0];
  [0; 0; -1; 1; 1; 1; 1; 0; 0; 0; -1; 1; 1; 1; 0; 1; 0; 0; -1; 1; 1; 1; -1; -1; -1; 1; -1; 1; 1];
  [1; 1; -1; -1; 1; -1; 1; 1; 1; -1; 1; -1; 1; -1; 1; 1; 1; 1; 1; -1; 1; -1; 1; 1; 1; 0; 0; 0; 1];
  [-1; 1; 1; 1; -1; -1; 1; 1; -1; 1; 1; 1; 1; -1; 1; 1; -1; 1; 1; 1; -1; 1; 1; 1; -1; 1; 1; 1; 1];
  [1; 1; 1; -1; 1; 1; 1; 0; 0; -1; -1; 0; 1; 1; 1; -1; 0; 0; -1; 0; 1; 1; 1; 0; 1; 0; -1; 0; 1; 1];
  [1; 0; -1; 1; -1; 0; 1; 1; 1; 0; 0; 1; -1; 0; 1; 1; 1; 0; -1; -1; 0; 0; 1; 1; 1; -1; -1; 0; 0];
  [0; 1; 1; 1; 0; 0; 0; 0; 0; 1; 1; 1; 1; 1; 0; 0; 0; 1; 1; 1; 0; -1; 1; 0; 0; 1; 1; 1; 1; 0; 1];
  [0; 0; 1; 1; 1; 0; 1; 1; 0; 0; 1; 1; 1; -1; -1; 0; 1; 0; 1; 1; 1; 1; 0; 0; 1; 0; 1; 1; 1; -1];
  [-1; -1; -1; 1; 1; 1; 1; 1; -1; -1; -1; 1; 1; 1; 1; -1; 1; -1; -1; 1; 1; 1; 1; 1; 1; -1; -1; 1];
  [1; 1; 1; -1; -1; 1; -1; 1; 1; 1; 1; 1; -1; 1; -1; 1; 1; 1; 1; -1; 1; 1; -1; 1; 1; 1; 1; 1; 1];
  [1; -1; 1; 1; 1; 1; 0; -1; 0; 0; 1; 1; 1; 1; -1; 0; 0; 0; 1; 1; 1; 1; 1; 0; 0; 0; 1; 1; 1; 1];
  [-1; -1; -1; 1; 1; 1; 1; 1; 1; -1; -1; 1; 1; 1; 1; 1; -1; 1; -1; 1; 1; 1; 1; 1; 1; 1; -1; 1; 1];
  [1; 1; 1; 0; 0; 0; 1; 1; 1; 1; 1; -1; -1; 1; 1; 1; 1; 1; 1; 1; -1; 1; 1; 1; 1; 1; 1; -1; 1; 1];
  [1; 1; 1; 1; 1; 1; 1; 1; 1; 1; 1; 1; 1]].

(** [grid_slot] and [grid_slot_signed]. *)
Definition grid_slot (grid : list Z) (index : nat) (what : string) : FormatResult Z :=
  ok_or (grid !! index) (LengthMismatch what (Z.of_nat (index + 1)) (len grid)).

(** The sizes the decoders index by. *)
Lemma grid_lengths :
  len IQ4_KVALUES = 16 ∧
  len IQ_SIGN_LUT = 128 ∧
  len IQ2_XXS_GRID = 2048 ∧
  len IQ2_XS_GRID = 4096 ∧
  len IQ2_S_GRID = 8192 ∧
  len IQ3_XXS_GRID = 1024 ∧
  len IQ3_S_GRID = 2048 ∧
  len IQ1_GRID = 16384.
Proof. split_and!; vm_compute; reflexivity. Qed.
