(* ===== verification/Dequant.v ===== *)
(** * Dequantization

    The two readers of a quantised tensor: [ggml_dequantize] of [ggml.rs] and
    [source_dequantize] of [iq.rs] decode wire blocks; [repack_dequantize] of
    [repack.rs] and [repacked_dequantize] of [iq.rs] decode the tiles and scale
    records of the repacked form.  Half-precision scales are those of
    [scales.rs]; an [f32] is the Standard Library's [spec_float], whose NaN has
    no payload. *)

From S2P Require Import Prelude Bytes Format Tiles Permute Regions Ggml Repack IqLut.

Import GgmlType.

#[global] Open Scope Z_scope.

(** ** Half-precision scales *)

(** [while m & 0x400 == 0 { m <<= 1; e -= 1; }]: a mantissa of ten bits that is
    not zero needs at most ten turns. *)
Fixpoint renormalize (fuel : nat) (m e : Z) : Z * Z :=
  match fuel with
  | O => (m, e)
  | S fuel => if Z.land m 1024 =? 0 then renormalize fuel (Z.shiftl m 1) (e - 1) else (m, e)
  end.

(** The bits [f16_to_f32] builds. *)
Definition f16_wide (bits : Z) : Z :=
  let sign := Z.shiftl (Z.land bits 32768) 16 in
  let exp := Z.land (Z.shiftr bits 10) 31 in
  let mant := Z.land bits 1023 in
  if exp =? 0 then
    if mant =? 0 then sign
    else
      let '(m, e) := renormalize 10 mant 1 in
      Z.lor (Z.lor sign (Z.shiftl (e + 112) 23)) (Z.shiftl (Z.land m 1023) 13)
  else if exp =? 31 then Z.lor (Z.lor sign 2139095040) (Z.shiftl mant 13)
  else Z.lor (Z.lor sign (Z.shiftl (exp + 112) 23)) (Z.shiftl mant 13).

Definition f16_to_f32 (bits : Z) : f32 := f32_from_bits (f16_wide bits).
Definition bf16_to_f32 (bits : Z) : f32 := f32_from_bits (Z.shiftl bits 16).

(** The value of a scale; the error names its bits, which [to_bits] returns as
    [from_bits] took them. *)
Definition check_wire_f16 (scheme : string) (record bits : Z) : FormatResult f32 :=
  match f16_to_f32 bits with
  | S754_nan => Err (InvalidScale scheme record (f16_wide bits) "nan")
  | S754_infinity _ => Err (InvalidScale scheme record (f16_wide bits) "infinite")
  | value => Ok value
  end.

(** [x as i8] and [x as f32]. *)
Definition as_i8 (x : Z) : Z := (x + 128) mod 256 - 128.

(** ** Packed scales *)

Definition unpack_k4_scales (payload : list Z) : FormatResult (list Z * list Z) :=
  let* _ := expect_len (len payload) 12 "q4_k/q5_k scale payload" in
  let byte i := or_panic (payload !! i) in
  let* low := omapM (λ j, let* s := byte j in let* m := byte (j + 4)%nat in Ok (Z.land s 63, Z.land m 63)) (seqn 4) in
  let* high := omapM (λ j,
    let* x := byte (j + 4)%nat in
    let* s := byte (j - 4)%nat in
    let* m := byte j in
    Ok (Z.lor (Z.land x 15) (Z.land (Z.shiftr s 2) 48), Z.lor (Z.shiftr x 4) (Z.land (Z.shiftr m 2) 48)))
    (seqn_from 4 4) in
  Ok (map fst (low ++ high), map snd (low ++ high)).

Definition unpack_q3_scales (payload : list Z) : FormatResult (list Z) :=
  let* _ := expect_len (len payload) 12 "q3_k scale payload" in
  omapM (λ j,
    let* a := or_panic (payload !! (j mod 8)%nat) in
    let* b := or_panic (payload !! (8 + j mod 4)%nat) in
    let low := Z.land (Z.shiftr a (Z.of_nat (j / 8 * 4))) 15 in
    let high := Z.land (Z.shiftr b (Z.of_nat (j / 4 * 2))) 3 in
    Ok (as_i8 (Z.lor low (Z.shiftl high 4)) - 32)) (seqn 16).

(** ** Formulas *)

Definition scaled (d : f32) (x : Z) : f32 := f32_mul d (f32_of_Z x).
(** [d * (v as f32 - c)], [d * v as f32 + m] and [d * v as f32 - m]. *)
Definition centered (d : f32) (c v : Z) : f32 := f32_mul d (f32_sub (f32_of_Z v) (f32_of_Z c)).
Definition shifted (d m : f32) (v : Z) : f32 := f32_add (scaled d v) m.
Definition lowered (d m : f32) (v : Z) : f32 := f32_sub (scaled d v) m.
(** The value of [Q3_K]: low bits less the high one. *)
Definition q3_value (v : Z) : Z := as_i8 (Z.land v 3) - Z.shiftl (as_i8 (Z.land (Z.shiftr v 2) 1)) 2.

(** [for j in 0..n { for v in &values[j * w..(j + 1) * w] { out.push(..) } }]. *)
Definition by_group (n w : nat) (values : list Z) (f : nat → FormatResult (Z → f32)) : FormatResult (list f32) :=
  oflatM (λ j,
    let* formula := f j in
    let* vs := index_slice (j * w) ((j + 1) * w) values in
    Ok (map formula vs)) (seqn n).

(** ** From wire blocks *)

(** The values the block appends. *)
Definition dequant_block (g : GgmlType.t) (scheme : string) (record : Z) (block values : list Z)
    : FormatResult (list f32) :=
  let scale offset what := let* bits := u16_le block offset what in check_wire_f16 scheme record bits in
  match g with
  | F16 => Ok (map f16_to_f32 values)
  | BF16 => Ok (map bf16_to_f32 values)
  | Q8_0 =>
      let* d := scale 0%nat "q8_0 scale" in
      Ok (map (λ v, scaled d (as_i8 (as_u8 v))) values)
  | Q4_0 =>
      let* d := scale 0%nat "q4_0 scale" in
      Ok (map (centered d 8) values)
  | Q4_1 =>
      let* d := scale 0%nat "q4_1 scale" in
      let* m := scale 2%nat "q4_1 min" in
      Ok (map (shifted d m) values)
  | Q5_0 =>
      let* d := scale 0%nat "q5_0 scale" in
      Ok (map (centered d 16) values)
  | Q5_1 =>
      let* d := scale 0%nat "q5_1 scale" in
      let* m := scale 2%nat "q5_1 min" in
      Ok (map (shifted d m) values)
  | Q4_K | Q5_K =>
      let* d := scale 0%nat "qk scale" in
      let* dmin := scale 2%nat "qk min scale" in
      let* payload := get_span "qk scale payload" 16 block 4 16 in
      let* (sc, mn) := unpack_k4_scales payload in
      by_group 8 32 values (λ j,
        let* s := or_panic (sc !! j) in
        let* m := or_panic (mn !! j) in
        let dl := scaled d s in
        let ml := scaled dmin m in
        Ok (lowered dl ml))
  | Q6_K =>
      let* scales := get_span "q6_k scales" 208 block 192 208 in
      let* d := scale 208%nat "q6_k scale" in
      by_group 16 16 values (λ j,
        let* s := or_panic (scales !! j) in
        let dl := scaled d (as_i8 s) in
        Ok (centered dl 32))
  | Q3_K =>
      let* payload := get_span "q3_k scale payload" 108 block 96 108 in
      let* sc := unpack_q3_scales payload in
      let* d := scale 108%nat "q3_k scale" in
      by_group 16 16 values (λ j,
        let* s := or_panic (sc !! j) in
        let dl := scaled d s in
        Ok (λ v, scaled dl (q3_value v)))
  | Q2_K =>
      let* scales := get_span "q2_k scales" 16 block 0 16 in
      let* d := scale 80%nat "q2_k scale" in
      let* dmin := scale 82%nat "q2_k min scale" in
      by_group 16 16 values (λ j,
        let* s := or_panic (scales !! j) in
        let dl := scaled d (Z.land s 15) in
        let ml := scaled dmin (Z.shiftr s 4) in
        Ok (lowered dl ml))
  | IQ4_NL | IQ4_XS | IQ3_XXS | IQ3_S | IQ2_XXS | IQ2_XS | IQ2_S | IQ1_S | IQ1_M =>
      excluded g "card-A2.3 source decode (iq decodes via crate::iq)"
  end.

(** A decoder's state: the values so far and the problems. *)
Abbreviation decoded := (list f32 * list FormatError)%type.

(** One block: its input, whose failure is a problem, and its decoding, whose
    problems are flattened into the list. *)
Definition decode_step {A} (input : FormatResult A) (decode : A → FormatResult (list f32)) (st : decoded)
    : FormatResult decoded :=
  let '(out, problems) := st in
  match input with
  | Ok a =>
      match decode a with
      | Ok vs => Ok (out ++ vs, problems)
      | Err (Multiple inner) => Ok (out, problems ++ inner)
      | Err single => Ok (out, problems ++ [single])
      | Panic => Panic
      end
  | Err e => Ok (out, problems ++ [e])
  | Panic => Panic
  end.

(** The loop over the blocks of every row, and the collection of what failed. *)
Definition decode_rows (n_rows row_blocks : nat) (step : nat → nat → decoded → FormatResult decoded)
    : FormatResult (list f32) :=
  let* (out, problems) :=
    ofoldM (λ st row, ofoldM (λ st b, step row b st) st (seqn row_blocks)) ([], []) (seqn n_rows) in
  let* _ := collect problems in
  Ok out.

(** The name a scale error carries. *)
Definition decode_name (g : GgmlType.t) : string :=
  match ggml_scheme g with Some s => scheme_name s | None => ggml_name g end.

(** ** Codebook types from wire blocks *)

Definition sign_factor (bit : Z) : f32 := if bit =? 0 then f32_of_Z 1 else f32_of_Z (-1).
(** [IQ_SIGN_LUT[(field & 0x7F) as usize]]. *)
Definition sign_byte (field : Z) : FormatResult Z := vec_get IQ_SIGN_LUT (Z.land field 127).

(** [grid[index] as f32]. *)
Definition grid_at (grid : list Z) (index : Z) : FormatResult f32 := let* x := vec_get grid index in Ok (f32_of_Z x).

Definition f32_half : f32 := f32_lit 1 2.
Definition f32_quarter : f32 := f32_lit 1 4.
Definition f32_eighth : f32 := f32_lit 1 8.
Definition f32_neg_eighth : f32 := f32_lit (-1) 8.

(** [(d * (0.5 + s as f32)) * c]. *)
Definition half_step (d : f32) (s : Z) (c : f32) : f32 := f32_mul (f32_mul d (f32_add f32_half (f32_of_Z s))) c.

(** [n] values of a grid from [index], signed by the bits of [signs] from
    [base]: [(db * grid) * sign_factor((signs >> (base + b)) & 1)]. *)
Definition signed_run (grid : list Z) (index : Z) (n : nat) (db : f32) (signs base : Z) : FormatResult (list f32) :=
  omapM (λ b,
    let* x := grid_at grid (index * Z.of_nat n + Z.of_nat b) in
    Ok (f32_mul (f32_mul db x) (sign_factor (Z.land (Z.shiftr signs (base + Z.of_nat b)) 1)))) (seqn n).

(** Eight values [dl * (grid + delta)]. *)
Definition delta_run (index : Z) (dl delta : f32) : FormatResult (list f32) :=
  omapM (λ b, let* x := grid_at IQ1_GRID (index * 8 + Z.of_nat b) in Ok (f32_mul dl (f32_add x delta))) (seqn 8).

(** [IQ4_KVALUES[(q & 0x0F) as usize]]. *)
Definition kvalue (d : f32) (q : Z) : FormatResult f32 :=
  let* x := vec_get IQ4_KVALUES (Z.land q 15) in Ok (scaled d x).

(** A nibble of a byte: [(byte >> (n * 4)) & 0x0F]. *)
Definition nibble (byte : Z) (n : nat) : Z := Z.land (Z.shiftr byte (Z.of_nat (n * 4))) 15.

(** [lo | (hi << 4)] as a scale of [IQ4_XS], less 32. *)
Definition iq4_xs_scale (low_byte scales_h : Z) (gr : nat) : f32 :=
  let lo := nibble low_byte (gr mod 2) in
  let hi := Z.land (Z.shiftr scales_h (Z.of_nat (2 * gr))) 3 in
  f32_sub (f32_of_Z (as_i8 (Z.lor lo (Z.shiftl hi 4)))) (f32_of_Z 32).

(** The scale of [IQ1_M], spread over the top nibbles of four words. *)
Definition iq1_m_bits (w0 w1 w2 w3 : Z) : Z :=
  Z.lor (Z.lor (Z.lor (Z.shiftr (Z.land w0 61440) 12) (Z.shiftr (Z.land w1 61440) 8))
           (Z.shiftr (Z.land w2 61440) 4)) (Z.land w3 61440).

Definition iq1_delta (field mask : Z) : f32 := if Z.land field mask =? 0 then f32_eighth else f32_neg_eighth.

Section readers.
Context (scheme : string) (index : Z).

Definition source_block (k : IqKind) (block : list Z) : FormatResult (list f32) :=
  let at_ i := or_panic (block !! i) in
  let scale offset what := let* bits := u16_le block offset what in check_wire_f16 scheme index bits in
  let sized n what (decode : FormatResult (list f32)) :=
    if negb (len block =? n) then Err (LengthMismatch what n (len block)) else decode in
  match k with
  | KIq4Nl => sized 18 "iq4_nl wire block"
      (let* d := scale 0%nat "iq4_nl scale" in
       omapM (λ j, let* byte := at_ (2 + j mod 16)%nat in
                   kvalue d (if (j <? 16)%nat then Z.land byte 15 else Z.shiftr byte 4)) (seqn 32))
  | KIq4Xs => sized 136 "iq4_xs wire block"
      (let* d := scale 0%nat "iq4_xs scale" in
       let* scales_h := u16_le block 2 "iq4_xs scale high" in
       oflatM (λ gr,
         let* low := at_ (4 + gr / 2)%nat in
         let dl := f32_mul d (iq4_xs_scale low scales_h gr) in
         omapM (λ j, let* byte := at_ (8 + gr * 16 + j mod 16)%nat in
                     kvalue dl (if (j <? 16)%nat then Z.land byte 15 else Z.shiftr byte 4)) (seqn 32)) (seqn 8))
  | KIq2Xxs => sized 66 "iq2_xxs wire block"
      (let* d := scale 0%nat "iq2_xxs scale" in
       oflatM (λ e,
         let* u_even := u32_le block (2 + 8 * e) "iq2_xxs indices" in
         let* u_odd := u32_le block (2 + 8 * e + 4) "iq2_xxs signs" in
         let db := half_step d (Z.shiftr u_odd 28) f32_quarter in
         oflatM (λ s,
           let grid_idx := Z.land (Z.shiftr u_even (Z.of_nat (8 * s))) 255 in
           let* signs := sign_byte (Z.shiftr u_odd (Z.of_nat (7 * s))) in
           signed_run IQ2_XXS_GRID grid_idx 8 db signs 0) (seqn 4)) (seqn 8))
  | KIq2Xs => sized 74 "iq2_xs wire block"
      (let* d := scale 0%nat "iq2_xs scale" in
       oflatM (λ t,
         let* entry := u16_le block (2 + 2 * t) "iq2_xs indices" in
         let gr := (t / 2)%nat in
         let* sb := at_ (66 + gr / 2)%nat in
         let db := half_step d (nibble sb (gr mod 2)) f32_quarter in
         let* signs := sign_byte (Z.shiftr entry 9) in
         signed_run IQ2_XS_GRID (Z.land entry 511) 8 db signs 0) (seqn 32))
  | KIq2S => sized 82 "iq2_s wire block"
      (let* d := scale 0%nat "iq2_s scale" in
       oflatM (λ t,
         let gr := (t / 2)%nat in
         let e := (t mod 2)%nat in
         let* sb := at_ (74 + gr / 2)%nat in
         let db := half_step d (nibble sb (gr mod 2)) f32_quarter in
         let* qb := at_ (66 + t / 4)%nat in
         let qh := Z.land (Z.shiftr qb (Z.of_nat (t mod 4 * 2))) 3 in
         let* ib := at_ (2 + t)%nat in
         let* sign_row := at_ (34 + 2 * gr + e)%nat in
         signed_run IQ2_S_GRID (Z.lor ib (Z.shiftl qh 8)) 8 db sign_row 0) (seqn 32))
  | KIq3Xxs => sized 98 "iq3_xxs wire block"
      (let* d := scale 0%nat "iq3_xxs scale" in
       oflatM (λ gr,
         let* u := u32_le block (66 + 4 * gr) "iq3_xxs scales" in
         let db := half_step d (Z.shiftr u 28) f32_half in
         oflatM (λ t,
           let* grid_idx := at_ (2 + gr * 8 + t)%nat in
           let* signs := sign_byte (Z.shiftr u (Z.of_nat (7 * (t / 2)))) in
           signed_run IQ3_XXS_GRID grid_idx 4 db signs (Z.of_nat (t mod 2 * 4))) (seqn 8)) (seqn 8))
  | KIq3S => sized 110 "iq3_s wire block"
      (let* d := scale 0%nat "iq3_s scale" in
       oflatM (λ gr,
         let* sb := at_ (106 + gr / 2)%nat in
         let db := f32_mul d (f32_add (f32_of_Z 1) (f32_mul (f32_of_Z 2) (f32_of_Z (nibble sb (gr mod 2))))) in
         oflatM (λ sg,
           let i := (gr * 8 + sg)%nat in
           let* hb := at_ (66 + gr)%nat in
           let bit := Z.land (Z.shiftr hb (Z.of_nat sg)) 1 in
           let* ib := at_ (2 + i)%nat in
           let* sign_row := at_ (74 + gr * 4 + sg / 2)%nat in
           signed_run IQ3_S_GRID (Z.lor ib (Z.shiftl bit 8)) 4 db sign_row (Z.of_nat (sg mod 2 * 4)))
         (seqn 8)) (seqn 8))
  | KIq1S => sized 50 "iq1_s wire block"
      (let* d := scale 0%nat "iq1_s scale" in
       oflatM (λ t,
         let gr := (t / 4)%nat in
         let* qh := u16_le block (34 + 2 * gr) "iq1_s high bits" in
         let dl := scaled d (2 * Z.land (Z.shiftr qh 12) 7 + 1) in
         let delta := iq1_delta qh 32768 in
         let field := Z.land (Z.shiftr qh (Z.of_nat (t mod 4 * 3))) 7 in
         let* ib := at_ (2 + t)%nat in
         delta_run (Z.lor ib (Z.shiftl field 8)) dl delta) (seqn 32))
  | KIq1M => sized 56 "iq1_m wire block"
      (let* w0 := u16_le block 48 "iq1_m scales" in
       let* w1 := u16_le block 50 "iq1_m scales" in
       let* w2 := u16_le block 52 "iq1_m scales" in
       let* w3 := u16_le block 54 "iq1_m scales" in
       let* d := check_wire_f16 scheme index (iq1_m_bits w0 w1 w2 w3) in
       oflatM (λ t,
         let gr := (t / 4)%nat in
         let h := (t / 2 mod 2)%nat in
         let i := (gr * 2 + h)%nat in
         let* dl_word := u16_le block (48 + 2 * (i / 4)) "iq1_m scales" in
         let dl := scaled d (2 * Z.land (Z.shiftr dl_word (Z.of_nat (i mod 4 * 3))) 7 + 1) in
         let* qb := at_ (32 + t / 2)%nat in
         let field := nibble qb (t mod 2) in
         let* ib := at_ t in
         delta_run (Z.lor ib (Z.shiftl (Z.land field 7) 8)) dl (iq1_delta field 8)) (seqn 32))
  end.

(** ** Codebook types from the repacked form *)

Definition repacked_block (k : IqKind) (idx rec : list Z) : FormatResult (list f32) :=
  let rec_at i := or_panic (rec !! i) in
  let idx_at i := or_panic (idx !! i) in
  let scale offset what := let* bits := u16_le rec offset what in check_wire_f16 scheme index bits in
  let* _ := expect_parsed k idx rec in
  match k with
  | KIq4Nl =>
      let* d := scale 0%nat "repacked iq4_nl scale" in
      omapM (kvalue d) (take 32 idx)
  | KIq4Xs =>
      let* d := scale 0%nat "repacked iq4_xs scale" in
      let* scales_h := u16_le rec 2 "repacked iq4_xs scale high" in
      oflatM (λ gr,
        let* low := rec_at (4 + gr / 2)%nat in
        let dl := f32_mul d (iq4_xs_scale low scales_h gr) in
        omapM (kvalue dl) (take 32 (drop (gr * 32) idx))) (seqn 8)
  | KIq2Xxs =>
      let* d := scale 0%nat "repacked iq2_xxs scale" in
      oflatM (λ e,
        let* u_even := u32_le idx (8 * e) "repacked iq2_xxs indices" in
        let* u_odd := u32_le idx (8 * e + 4) "repacked iq2_xxs signs" in
        let db := half_step d (Z.shiftr u_odd 28) f32_quarter in
        oflatM (λ s,
          let grid_idx := Z.land (Z.shiftr u_even (Z.of_nat (8 * s))) 255 in
          let* signs := sign_byte (Z.shiftr u_odd (Z.of_nat (7 * s))) in
          signed_run IQ2_XXS_GRID grid_idx 8 db signs 0) (seqn 4)) (seqn 8)
  | KIq2Xs =>
      let* d := scale 0%nat "repacked iq2_xs scale" in
      oflatM (λ t,
        let* entry := u16_le idx (2 * t) "repacked iq2_xs indices" in
        let gr := (t / 2)%nat in
        let* sb := rec_at (2 + gr / 2)%nat in
        let db := half_step d (nibble sb (gr mod 2)) f32_quarter in
        let* signs := sign_byte (Z.shiftr entry 9) in
        signed_run IQ2_XS_GRID (Z.land entry 511) 8 db signs 0) (seqn 32)
  | KIq2S =>
      let* d := scale 0%nat "repacked iq2_s scale" in
      oflatM (λ t,
        let gr := (t / 2)%nat in
        let e := (t mod 2)%nat in
        let* sb := rec_at (42 + gr / 2)%nat in
        let db := half_step d (nibble sb (gr mod 2)) f32_quarter in
        let* qb := rec_at (34 + t / 4)%nat in
        let qh := Z.land (Z.shiftr qb (Z.of_nat (t mod 4 * 2))) 3 in
        let* ib := idx_at t in
        let* sign_row := rec_at (2 + 2 * gr + e)%nat in
        signed_run IQ2_S_GRID (Z.lor ib (Z.shiftl qh 8)) 8 db sign_row 0) (seqn 32)
  | KIq3Xxs =>
      let* d := scale 0%nat "repacked iq3_xxs scale" in
      oflatM (λ gr,
        let* u := u32_le rec (2 + 4 * gr) "repacked iq3_xxs scales" in
        let db := half_step d (Z.shiftr u 28) f32_half in
        oflatM (λ t,
          let* grid_idx := idx_at (gr * 8 + t)%nat in
          let* signs := sign_byte (Z.shiftr u (Z.of_nat (7 * (t / 2)))) in
          signed_run IQ3_XXS_GRID grid_idx 4 db signs (Z.of_nat (t mod 2 * 4))) (seqn 8)) (seqn 8)
  | KIq3S =>
      let* d := scale 0%nat "repacked iq3_s scale" in
      oflatM (λ gr,
        let* sb := rec_at (42 + gr / 2)%nat in
        let db := f32_mul d (f32_add (f32_of_Z 1) (f32_mul (f32_of_Z 2) (f32_of_Z (nibble sb (gr mod 2))))) in
        oflatM (λ sg,
          let i := (gr * 8 + sg)%nat in
          let* hb := rec_at (2 + gr)%nat in
          let bit := Z.land (Z.shiftr hb (Z.of_nat sg)) 1 in
          let* ib := idx_at i in
          let* sign_row := rec_at (10 + gr * 4 + sg / 2)%nat in
          signed_run IQ3_S_GRID (Z.lor ib (Z.shiftl bit 8)) 4 db sign_row (Z.of_nat (sg mod 2 * 4)))
        (seqn 8)) (seqn 8)
  | KIq1S =>
      let* d := scale 0%nat "repacked iq1_s scale" in
      oflatM (λ '(t, qb),
        let gr := (t / 4)%nat in
        let* qh := u16_le rec (2 + 2 * gr) "repacked iq1_s high bits" in
        let dl := scaled d (2 * Z.land (Z.shiftr qh 12) 7 + 1) in
        let delta := iq1_delta qh 32768 in
        let field := Z.land (Z.shiftr qh (Z.of_nat (t mod 4 * 3))) 7 in
        delta_run (Z.lor qb (Z.shiftl field 8)) dl delta) (take 32 (enumerate idx))
  | KIq1M =>
      let* w0 := u16_le rec 16 "repacked iq1_m scales" in
      let* w1 := u16_le rec 18 "repacked iq1_m scales" in
      let* w2 := u16_le rec 20 "repacked iq1_m scales" in
      let* w3 := u16_le rec 22 "repacked iq1_m scales" in
      let* d := check_wire_f16 scheme index (iq1_m_bits w0 w1 w2 w3) in
      oflatM (λ t,
        let gr := (t / 4)%nat in
        let h := (t / 2 mod 2)%nat in
        let i := (gr * 2 + h)%nat in
        let* dl_word := u16_le rec (16 + 2 * (i / 4)) "repacked iq1_m scales" in
        let dl := scaled d (2 * Z.land (Z.shiftr dl_word (Z.of_nat (i mod 4 * 3))) 7 + 1) in
        let* qb := rec_at (t / 2)%nat in
        let field := nibble qb (t mod 2) in
        let* ib := idx_at t in
        delta_run (Z.lor ib (Z.shiftl (Z.land field 7) 8)) dl (iq1_delta field 8)) (seqn 32)
  end.

(** ** The other types from the repacked form *)

Definition dequant_simple (g : GgmlType.t) (d m : f32) (value : Z) : FormatResult f32 :=
  match g with
  | Q8_0 => Ok (scaled d (as_i8 (as_u8 value)))
  | Q4_0 => Ok (centered d 8 value)
  | Q4_1 => Ok (shifted d m value)
  | Q5_0 => Ok (centered d 16 value)
  | Q5_1 => Ok (shifted d m value)
  | _ => excluded g "32-block _0/_1 type"
  end.

Definition dequant_parsed (g : GgmlType.t) (record values : list Z) : FormatResult (list f32) :=
  let scale offset what := let* bits := u16_le record offset what in check_wire_f16 scheme index bits in
  match g with
  | F16 => Ok (map f16_to_f32 values)
  | BF16 => Ok (map bf16_to_f32 values)
  | Q8_0 | Q4_0 | Q5_0 =>
      let* d := scale 0%nat "repacked scale" in
      omapM (dequant_simple g d f32_zero) values
  | Q4_1 | Q5_1 =>
      let* d := scale 0%nat "repacked scale" in
      let* m := scale 2%nat "repacked min" in
      omapM (dequant_simple g d m) values
  | Q4_K | Q5_K =>
      let* d := scale 0%nat "repacked scale" in
      let* dmin := scale 2%nat "repacked min scale" in
      let* payload := get_span "repacked k4 payload" 16 record 4 16 in
      let* (sc, mn) := unpack_k4_scales payload in
      by_group 8 32 values (λ j,
        let* s := or_panic (sc !! j) in
        let* m := or_panic (mn !! j) in
        let dl := scaled d s in
        let ml := scaled dmin m in
        Ok (lowered dl ml))
  | Q6_K =>
      let* d := scale 0%nat "repacked scale" in
      let* scales := get_span "repacked i6_k scales" 18 record 2 18 in
      by_group 16 16 values (λ j,
        let* s := or_panic (scales !! j) in
        let dl := scaled d (as_i8 s) in
        Ok (centered dl 32))
  | Q3_K =>
      let* payload := get_span "repacked q3_k payload" 12 record 0 12 in
      let* sc := unpack_q3_scales payload in
      let* d := scale 12%nat "repacked scale" in
      by_group 16 16 values (λ j,
        let* s := or_panic (sc !! j) in
        let dl := scaled d s in
        Ok (λ v, scaled dl (q3_value v)))
  | Q2_K =>
      let* scales := get_span "repacked q2_k scales" 16 record 0 16 in
      let* d := scale 16%nat "repacked scale" in
      let* dmin := scale 18%nat "repacked min scale" in
      by_group 16 16 values (λ j,
        let* s := or_panic (scales !! j) in
        let dl := scaled d (Z.land s 15) in
        let ml := scaled dmin (Z.shiftr s 4) in
        Ok (lowered dl ml))
  | IQ4_NL | IQ4_XS | IQ3_XXS | IQ3_S | IQ2_XXS | IQ2_XS | IQ2_S | IQ1_S | IQ1_M =>
      excluded g "card-A2.3 repacked decode (iq decodes via crate::iq)"
  end.
End readers.

(** ** Tensors *)

Definition source_dequantize (g : GgmlType.t) (wire : list Z) (n_rows k : Z) : FormatResult (list f32) :=
  let* kind := match iq_kind g with Some kind => Ok kind | None => excluded g "iq ggml type" end in
  let* geo := wire_geometry g wire n_rows k in
  let bytes := Z.to_nat (block_bytes g) in
  let row_blocks := Z.to_nat (wg_blocks_per_row geo) in
  decode_rows (Z.to_nat n_rows) row_blocks (λ row b st,
    let base := (row * (row_blocks * bytes) + b * bytes)%nat in
    let* block := index_slice base (base + bytes) wire in
    let record := Z.of_nat (row * row_blocks + b) in
    decode_step (Ok block) (source_block (decode_name g) record kind) st).

Definition ggml_dequantize (g : GgmlType.t) (wire : list Z) (n_rows k : Z) : FormatResult (list f32) :=
  if is_iq g then source_dequantize g wire n_rows k
  else
    let* geo := wire_geometry g wire n_rows k in
    let bytes := Z.to_nat (block_bytes g) in
    let row_blocks := Z.to_nat (wg_blocks_per_row geo) in
    decode_rows (Z.to_nat n_rows) row_blocks (λ row b st,
      let base := (row * (row_blocks * bytes) + b * bytes)%nat in
      let* block := index_slice base (base + bytes) wire in
      let record := Z.of_nat (row * row_blocks + b) in
      decode_step (block_values g block (replicate (Z.to_nat (block_len g)) 0))
        (dequant_block g (decode_name g) record block) st).

Definition repacked_dequantize (t : RepackedTensor) : FormatResult (list f32) :=
  let* (kind, value_dims, k_blocks) := repacked_geometry_iq t in
  let g := rt_ggml t in
  let* logical := iq_logical t kind value_dims in
  let count := wire_index_len kind in
  let row_blocks := Z.to_nat (pd_k (rt_dims t) / block_len g) in
  decode_rows (Z.to_nat (pd_n (rt_dims t))) row_blocks (λ row b st,
    let start := (row * Z.to_nat (k_padded value_dims) + b * count)%nat in
    let* vals := index_slice start (start + count) logical in
    let index := Z.of_nat (row * row_blocks + b) in
    decode_step (soa_record "iq soa scale record" (rt_scales t) (record_len kind) k_blocks (row / 16) b (row mod 16))
      (repacked_block (decode_name g) index kind vals) st).

Definition repack_dequantize (t : RepackedTensor) : FormatResult (list f32) :=
  if is_iq (rt_ggml t) then repacked_dequantize t
  else
    let* (packing, record, k_blocks) := repacked_geometry t in
    let* logical := unpack_logical t packing in
    let g := rt_ggml t in
    let count := Z.to_nat (block_len g) in
    let row_blocks := Z.to_nat (pd_k (rt_dims t) / block_len g) in
    decode_rows (Z.to_nat (pd_n (rt_dims t))) row_blocks (λ row b st,
      let start := (row * Z.to_nat (k_padded (rt_dims t)) + b * count)%nat in
      let* vals := index_slice start (start + count) logical in
      let index := Z.of_nat (row * row_blocks + b) in
      decode_step (soa_record "repacked scale record" (rt_scales t) record k_blocks (row / 16) b (row mod 16))
        (λ rec, dequant_parsed (decode_name g) index g rec vals) st).

(** Half-precision values read exactly: one, the smallest subnormal, the
    largest finite value. *)
Example f16_one : f16_to_f32 15360 = f32_of_Z 1.
Proof. reflexivity. Qed.
Example f16_tiny : f16_to_f32 1 = f32_lit 1 16777216.
Proof. reflexivity. Qed.
Example f16_max : f16_to_f32 31743 = f32_of_Z 65504.
Proof. reflexivity. Qed.
