(* ===== verification/DequantSpec.v ===== *)
(** * The two readers agree

    Decoding the repacked form of a tensor and decoding its wire bytes give the
    same outcome: the same values, or the same collected scale errors; and
    neither panics.  Half-precision scales are widened exactly. *)

From S2P Require Import Prelude Bytes Format Tiles Permute LaneCodec Regions Ggml Repack RepackBlock RepackSpec IqLut Dequant.

Import GgmlType.

#[global] Open Scope Z_scope.

(** ** Half-precision scales are exact *)

(** Sign, biased exponent and mantissa side by side. *)
Definition pack_f32 (s exponent mantissa : Z) : Z := s * 2 ^ 31 + exponent * 2 ^ 23 + mantissa.

Lemma lor_f32 s exponent mantissa :
  0 ≤ exponent < 2 ^ 8 → 0 ≤ mantissa < 2 ^ 23 →
  Z.lor (Z.lor (s * 2 ^ 31) (Z.shiftl exponent 23)) mantissa = pack_f32 s exponent mantissa.
Proof.
  intros He Hm. unfold pack_f32. rewrite <- (Z.shiftl_mul_pow2 s) by done.
  rewrite (Z.lor_comm (Z.shiftl s 31)), (lor_above 31) by (try rewrite Z.shiftl_mul_pow2; lia).
  rewrite Z.lor_comm, Z.shiftl_mul_pow2 by done.
  replace (exponent * 2 ^ 23 + s * 2 ^ 31) with ((exponent + s * 2 ^ 8) * 2 ^ 23) by lia.
  rewrite <- (Z.shiftl_mul_pow2 (_ + _) 23), lor_above by (done || lia). rewrite Z.shiftl_mul_pow2 by done. lia.
Qed.

(** Reading them back. *)
Lemma f32_from_fields s exponent mantissa :
  (s = 0 ∨ s = 1) → 0 ≤ exponent < 2 ^ 8 → 0 ≤ mantissa < 2 ^ 23 →
  f32_from_bits (pack_f32 s exponent mantissa) =
  if exponent =? 255 then if mantissa =? 0 then S754_infinity (s =? 1) else S754_nan
  else if exponent =? 0 then match mantissa with Z.pos m => S754_finite (s =? 1) m (-149) | _ => S754_zero (s =? 1) end
  else S754_finite (s =? 1) (Z.to_pos (mantissa + 2 ^ 23)) (exponent - 150).
Proof.
  intros Hs He Hm. unfold f32_from_bits, pack_f32.
  replace (s * 2 ^ 31 + exponent * 2 ^ 23 + mantissa) with (mantissa + (exponent + s * 2 ^ 8) * 2 ^ 23) by lia.
  rewrite Z.div_add, Z.div_small, Z.add_0_l, !Z.mod_add, !(Z.mod_small exponent), (Z.mod_small mantissa) by lia.
  assert (2 ^ 31 <=? mantissa + (exponent + s * 2 ^ 8) * 2 ^ 23 = (s =? 1)) as ->
    by (destruct Hs as [-> | ->]; apply Z.leb_gt || apply Z.leb_le; lia).
  destruct (exponent =? 255); [done|]. destruct (exponent =? 0); [done|].
  destruct (mantissa + 2 ^ 23) as [|p|] eqn:Hp; [lia|done|lia].
Qed.

(** [m] times two to the [e] is the magnitude, and [s] the sign, of a number. *)
Definition f32_is (x : f32) (s : bool) (m e : Z) : Prop :=
  match x with
  | S754_zero s' => s' = s ∧ m = 0
  | S754_finite s' n f => s' = s ∧ Z.pos n * 2 ^ (f + 149) = m * 2 ^ (e + 149)
  | _ => False
  end.

Lemma land_sign bits : Z.land bits 32768 = bits / 2 ^ 15 mod 2 * 2 ^ 15.
Proof.
  rewrite <- Z.shiftr_div_pow2, <- Z.shiftl_mul_pow2 by done. change 2 with (2 ^ 1) at 1. rewrite <- Z.land_ones by done.
  apply Z.bits_inj'. intros i Hi. rewrite Z.land_spec, Z.shiftl_spec by done.
  destruct (Z.lt_ge_cases i 15).
  - rewrite (Z.testbit_neg_r _ (i - 15)) by lia.
    change 32768 with (2 ^ 15). rewrite Z.pow2_bits_false by lia. apply andb_false_r.
  - rewrite Z.land_spec, Z.shiftr_spec by lia. replace (i - 15 + 15) with i by lia. f_equal.
    change 32768 with (2 ^ 15). rewrite Z.pow2_bits_eqb by done. change (Z.ones 1) with (2 ^ 0). rewrite Z.pow2_bits_eqb by done.
    apply eq_bool_prop_intro. rewrite !Is_true_true, !Z.eqb_eq. lia.
Qed.

(** Ten turns of [renormalize] end its loop. *)
Lemma renormalize_done m :
  0 < m < 1024 → 1024 ≤ (renormalize 10 m 1).1 < 2048 ∧ -9 ≤ (renormalize 10 m 1).2 ≤ 1 ∧
  (renormalize 10 m 1).1 = m * 2 ^ (1 - (renormalize 10 m 1).2).
Proof.
  intros Hm. rewrite <- (Z2Nat.id m) in * by lia. assert (Z.to_nat m ∈ seq 1 1023) as Hin by (apply elem_of_seq; lia).
  revert Hin. generalize (Z.to_nat m). clear m Hm. apply Forall_forall. apply Forall_fold_right. vm_compute.
  repeat split; discriminate.
Qed.

(** What [x] must be for the bits of a half: sign, five bits of exponent, ten
    of mantissa. *)
Definition f16_widened (bits : Z) (x : f32) : Prop :=
  let s := 32768 <=? bits in
  let exp := bits / 2 ^ 10 mod 2 ^ 5 in
  let mant := bits mod 2 ^ 10 in
  if exp =? 31 then x = if mant =? 0 then S754_infinity s else S754_nan
  else if exp =? 0 then f32_is x s mant (-24)
  else f32_is x s (1024 + mant) (exp - 25).

Lemma f16_to_f32_exact bits : 0 ≤ bits < 2 ^ 16 → f16_widened bits (f16_to_f32 bits).
Proof.
  intros Hb. unfold f16_widened, f16_to_f32, f16_wide.
  rewrite land_sign, Z.shiftr_div_pow2, (Z.land_ones _ 5 ltac:(done) : Z.land _ 31 = _) by done.
  rewrite !(Z.land_ones _ 10 ltac:(done) : Z.land _ 1023 = _).
  rewrite (Z.shiftl_mul_pow2 _ 16), <- Z.mul_assoc by done. change (2 ^ 15 * 2 ^ 16) with (2 ^ 31).
  assert (bits / 2 ^ 15 mod 2 = 0 ∧ 32768 <=? bits = false ∨ bits / 2 ^ 15 mod 2 = 1 ∧ 32768 <=? bits = true) as Hs.
  { rewrite Z.leb_gt, Z.leb_le. destruct (Z.lt_ge_cases bits 32768); [left|right]; split; try done.
    - by rewrite Z.div_small by lia.
    - replace (bits / 2 ^ 15) with 1; [done|]. apply Z.div_unique with (bits - 32768); lia. }
  pose proof (Z.mod_pos_bound (bits / 2 ^ 10) (2 ^ 5) eq_refl) as He.
  pose proof (Z.mod_pos_bound bits (2 ^ 10) eq_refl) as Hm. revert Hs He Hm.
  generalize (bits / 2 ^ 15 mod 2) (bits / 2 ^ 10 mod 2 ^ 5) (bits mod 2 ^ 10) (32768 <=? bits). clear bits Hb.
  intros s exp mant neg Hs He Hm. assert (s = 0 ∨ s = 1) as Hs' by tauto.
  assert ((s =? 1) = neg) as <- by (by destruct Hs as [[-> ->]|[-> ->]]). clear Hs.
  destruct (Z.eqb_spec exp 0) as [->|H0]; [destruct (Z.eqb_spec mant 0) as [->|Hmant]|destruct (Z.eqb_spec exp 31) as [->|H31]].
  - replace (s * 2 ^ 31) with (pack_f32 s 0 0) by (unfold pack_f32; lia). by rewrite f32_from_fields.
  - destruct (renormalize_done mant) as (H1 & H2 & H3); [lia|].
    destruct (renormalize 10 mant 1) as [m e]. simpl in H1, H2, H3.
    rewrite (Z.land_ones m 10 ltac:(done) : Z.land m 1023 = _).
    replace (m mod 2 ^ 10) with (m - 1024) by (apply Z.mod_unique_pos with 1; lia).
    rewrite lor_f32, f32_from_fields by (done || rewrite ?Z.shiftl_mul_pow2; lia).
    rewrite !(proj2 (Z.eqb_neq _ _)), Z.shiftl_mul_pow2 by lia. split; [done|].
    rewrite Z2Pos.id by lia. replace ((m - 1024) * 2 ^ 13 + 2 ^ 23) with (m * 2 ^ 13) by lia. rewrite H3, <- !Z.mul_assoc, <- !Z.pow_add_r by lia.
    do 2 f_equal. lia.
  - change 2139095040 with (Z.shiftl 255 23). rewrite lor_f32, f32_from_fields by (done || rewrite ?Z.shiftl_mul_pow2; lia).
    rewrite Z.shiftl_mul_pow2 by done. simpl. destruct (Z.eqb_spec mant 0) as [->|]; [done|]. by rewrite (proj2 (Z.eqb_neq _ _)) by lia.
  - rewrite lor_f32, f32_from_fields by (done || rewrite ?Z.shiftl_mul_pow2; lia).
    rewrite !(proj2 (Z.eqb_neq _ _)), Z.shiftl_mul_pow2 by lia. split; [done|].
    rewrite Z2Pos.id by lia. replace (mant * 2 ^ 13 + 2 ^ 23) with ((1024 + mant) * 2 ^ 13) by lia.
    rewrite <- Z.mul_assoc, <- Z.pow_add_r by lia. do 2 f_equal. lia.
Qed.

(** ** Blocks *)

(** Running both readers on symbolic bytes; arithmetic stays as it is. *)
Ltac run_readers :=
  cbv -[Z.land Z.lor Z.lxor Z.shiftl Z.shiftr Z.modulo Z.div Z.add Z.mul
        f32_mul f32_add f32_sub f32_of_Z f32_zero check_wire_f16 f16_to_f32 bf16_to_f32 vec_get
        sign_factor iq1_delta f32_half f32_quarter f32_eighth f32_neg_eighth
        IQ4_KVALUES IQ_SIGN_LUT IQ2_XXS_GRID IQ2_XS_GRID IQ2_S_GRID IQ3_XXS_GRID IQ3_S_GRID IQ1_GRID].

Section symbolic_blocks.
Context (scheme : string) (index : Z) (b o r : Z → Z).

Lemma plain_readers g :
  is_iq g = false →
  match record_of g (bytes_at r (record_bytes g)) (bytes_at b (Z.to_nat (block_bytes g))) with
  | Ok rec => dequant_parsed scheme index g rec (bytes_at o (Z.to_nat (block_len g))) =
              dequant_block g scheme index (bytes_at b (Z.to_nat (block_bytes g))) (bytes_at o (Z.to_nat (block_len g)))
  | _ => False
  end.
Proof. destruct g; intros Hg; try discriminate Hg; clear Hg; run_readers; reflexivity. Qed.

Lemma codebook_readers g kind :
  iq_kind g = Some kind →
  match parse_block kind g (bytes_at b (Z.to_nat (block_bytes g))) (bytes_at o (wire_index_len kind))
          (bytes_at r (record_len kind)) with
  | Ok (idx, rec) => repacked_block scheme index kind idx rec =
                     source_block scheme index kind (bytes_at b (Z.to_nat (block_bytes g)))
  | _ => False
  end.
Proof. destruct g; intros [= <-]; run_readers; reflexivity. Qed.
End symbolic_blocks.

Lemma plain_reader g scheme index block vals scratch rec :
  is_iq g = false → len block = block_bytes g → length vals = Z.to_nat (block_len g) →
  length scratch = record_bytes g → record_of g scratch block = Ok rec →
  dequant_parsed scheme index g rec vals = dequant_block g scheme index block vals.
Proof.
  intros Hg Hl Hv Hs Hr. unfold len in Hl.
  destruct (bytes_at_any block (Z.to_nat (block_bytes g))) as [b ->]; [lia|].
  destruct (bytes_at_any vals _ Hv) as [o ->]. destruct (bytes_at_any scratch _ Hs) as [r ->].
  pose proof (plain_readers scheme index b o r g Hg) as H. by rewrite Hr in H.
Qed.

Lemma codebook_reader g kind scheme index block idx0 rec0 idx rec :
  iq_kind g = Some kind → len block = block_bytes g → length idx0 = wire_index_len kind →
  length rec0 = record_len kind → parse_block kind g block idx0 rec0 = Ok (idx, rec) →
  repacked_block scheme index kind idx rec = source_block scheme index kind block.
Proof.
  intros Hg Hl Hi Hr Hp. unfold len in Hl.
  destruct (bytes_at_any block (Z.to_nat (block_bytes g))) as [b ->]; [lia|].
  destruct (bytes_at_any idx0 _ Hi) as [o ->]. destruct (bytes_at_any rec0 _ Hr) as [r ->].
  pose proof (codebook_readers scheme index b o r g kind Hg) as H. by rewrite Hp in H.
Qed.

(** ** Blocks decode or report one problem *)

(** No panic, and no error that stands for several. *)
Definition single {A} (c : FormatResult A) : Prop :=
  match c with Ok _ => True | Err (Multiple _) | Panic => False | Err _ => True end.

Lemma single_total {A} (c : FormatResult A) : single c → c ≠ Panic.
Proof. by destruct c. Qed.

Lemma obind_single {A B} (c : FormatResult A) (k : A → FormatResult B) :
  single c → (∀ a, c = Ok a → single (k a)) → single (obind c k).
Proof. destruct c as [a|e|]; simpl; intros Hc Hk; [by apply Hk|done..]. Qed.

Lemma check_wire_f16_total scheme record bits : single (check_wire_f16 scheme record bits).
Proof. unfold check_wire_f16. by destruct (f16_to_f32 bits). Qed.

Lemma plain_total g scheme index block vals :
  is_iq g = false → len block = block_bytes g → length vals = Z.to_nat (block_len g) →
  single (dequant_block g scheme index block vals).
Proof.
  intros Hg Hl Hv. unfold len in Hl.
  destruct (bytes_at_any block (Z.to_nat (block_bytes g))) as [b ->]; [lia|].
  destruct (bytes_at_any vals _ Hv) as [o ->]. pose proof check_wire_f16_total as Hc.
  destruct g; try discriminate Hg; run_readers;
    repeat match goal with
    | |- context [check_wire_f16 ?s ?i ?x] =>
        pose proof (Hc s i x); destruct (check_wire_f16 s i x) as [?|[]|]
    end; first [exact I|assumption].
Qed.

Lemma omapM_single {A B} (f : A → FormatResult B) l : (∀ x, x ∈ l → single (f x)) → single (omapM f l).
Proof.
  intros H. pose proof (omapM_result f l) as Hr. destruct (omapM f l) as [?|e|]; [done|..];
    destruct Hr as (x & Hx & Hf); specialize (H x Hx); by rewrite Hf in H.
Qed.

Lemma oflatM_single {A B} (f : A → FormatResult (list B)) l : (∀ x, x ∈ l → single (f x)) → single (oflatM f l).
Proof. intros H. unfold oflatM. apply obind_single; [by apply omapM_single|done]. Qed.

(** A table read in range, and everything read through one. *)
Lemma table_total (table : list Z) i : 0 ≤ i < len table → single (vec_get table i).
Proof. intros Hi. by rewrite vec_get_Ok. Qed.

Lemma grid_at_total grid i : 0 ≤ i < len grid → single (grid_at grid i).
Proof. intros Hi. unfold grid_at. apply obind_single; [by apply table_total|done]. Qed.

Lemma land_bound x n : 0 ≤ n → 0 ≤ Z.land x (Z.ones n) < 2 ^ n.
Proof. intros Hn. rewrite Z.land_ones by done. apply Z.mod_pos_bound, Z.pow_pos_nonneg; lia. Qed.

Lemma signed_run_total grid index n db signs base :
  0 ≤ index → (index + 1) * Z.of_nat n ≤ len grid → single (signed_run grid index n db signs base).
Proof.
  intros H0 Hl. apply omapM_single. intros b Hb%elem_of_seqn.
  apply obind_single; [apply grid_at_total; nia|done].
Qed.

Lemma delta_run_total index dl delta : 0 ≤ index < 2048 → single (delta_run index dl delta).
Proof.
  intros Hi. apply omapM_single. intros b Hb%elem_of_seqn.
  apply obind_single; [apply grid_at_total; destruct grid_lengths as (_ & _ & _ & _ & _ & _ & _ & ->); lia|done].
Qed.

Lemma kvalue_total d q : single (kvalue d q).
Proof.
  apply obind_single; [|done]. apply table_total. rewrite (proj1 grid_lengths). apply (land_bound q 4). lia.
Qed.

Lemma sign_byte_total field : single (sign_byte field).
Proof. apply table_total. rewrite (proj1 (proj2 grid_lengths)). apply (land_bound field 7). lia. Qed.

(** An index byte with [w] more bits above it. *)
Lemma grid_index_bound x field w : 0 ≤ w → is_byte x → 0 ≤ field < 2 ^ w → 0 ≤ Z.lor x (Z.shiftl field 8) < 256 * 2 ^ w.
Proof. intros Hw Hx Hf. unfold is_byte in Hx. rewrite lor_above by (change (2 ^ 8) with 256; lia). change (2 ^ 8) with 256. lia. Qed.

Lemma mask_bound x m w : m = Z.ones w → 0 ≤ w → 0 ≤ Z.land x m < 2 ^ w.
Proof. intros ->. apply land_bound. Qed.

(** Quotients and remainders of indices, and masked or byte-sized table
    indices. *)
Ltac name_division a c :=
  pose proof (Nat.div_mod_eq a c); pose proof (Nat.mod_upper_bound a c ltac:(discriminate));
  generalize dependent (a mod c)%nat; generalize dependent (a / c)%nat; intros.

Ltac bound_index :=
  repeat match goal with
  | |- context [(?a / ?c)%nat] => name_division a c
  | |- context [(?a mod ?c)%nat] => name_division a c
  | H : context [(?a / ?c)%nat] |- _ => name_division a c
  end;
  try match goal with
  | |- context [Z.lor ?x (Z.shiftl (Z.land ?y ?m) 8)] =>
      let w := eval compute in (Z.log2 m + 1) in
      pose proof (grid_index_bound x (Z.land y m) w ltac:(lia) ltac:(done) (mask_bound y m w eq_refl ltac:(lia)))
  | |- context [Z.land ?y ?m] =>
      let w := eval compute in (Z.log2 m + 1) in pose proof (mask_bound y m w eq_refl ltac:(lia))
  end;
  unfold is_byte in *; lia.

Section source_total.
Context (scheme : string) (index : Z) (block : list Z) (Hb : Forall is_byte block).

Lemma at_total i : (i < length block)%nat → single (or_panic (E:=FormatError) (block !! i)).
Proof using. clear. intros Hi. by destruct (lookup_lt_is_Some_2 block i Hi) as [x ->]. Qed.

Lemma at_byte i x : or_panic (E:=FormatError) (block !! i) = Ok x → is_byte x.
Proof using Hb.
  destruct (block !! i) as [y|] eqn:Hy; [|done]. intros [= <-]. rewrite Forall_forall in Hb.
  apply Hb. by eapply list_elem_of_lookup_2.
Qed.

Lemma u16_le_total offset what : single (u16_le block offset what).
Proof using. clear. unfold u16_le. by destruct (block !! offset), (block !! S offset). Qed.
Lemma u32_le_total offset what : single (u32_le block offset what).
Proof using. clear. apply obind_single; [|done]. apply omapM_single. intros i _. by destruct (block !! _). Qed.

Lemma scale_total offset what : single (let* bits := u16_le block offset what in check_wire_f16 scheme index bits).
Proof using. clear. apply obind_single; [apply u16_le_total|intros; apply check_wire_f16_total]. Qed.

(** One step of a reader. *)
Ltac total_step :=
  match goal with
  | |- single (if _ then _ else _) => case_match
  | |- single (Err _) => done
  | |- single (omapM _ _) => apply omapM_single; intros ? ?%elem_of_seqn
  | |- single (oflatM _ _) => apply oflatM_single; intros ? ?%elem_of_seqn
  | |- single (obind (obind (u16_le _ _ _) _) _) => apply obind_single; [apply scale_total|intros ? _]
  | |- single (obind (u16_le _ _ _) _) => apply obind_single; [apply u16_le_total|intros ? _]
  | |- single (obind (u32_le _ _ _) _) => apply obind_single; [apply u32_le_total|intros ? _]
  | |- single (obind (check_wire_f16 _ _ _) _) => apply obind_single; [apply check_wire_f16_total|intros ? _]
  | |- single (obind (sign_byte _) _) => apply obind_single; [apply sign_byte_total|intros ? _]
  | |- single (obind (or_panic _) _) => apply obind_single; [apply at_total|intros ? ?%at_byte]
  | |- single (kvalue _ _) => apply kvalue_total
  end.

Lemma source_block_total kind g :
  iq_kind g = Some kind → len block = block_bytes g → single (source_block scheme index kind block).
Proof using Hb.
  intros Hg Hl. destruct grid_lengths as (_ & _ & H1 & H2 & H3 & H4 & H5 & _). unfold len in Hl.
  destruct g; (discriminate Hg || injection Hg as <-); unfold source_block; simpl block_bytes in Hl; repeat total_step.
  all: lazymatch goal with
       | |- single (delta_run _ _ _) => apply delta_run_total
       | |- single (signed_run _ _ _ _ _ _) => apply signed_run_total
       | |- _ => idtac
       end; rewrite ?H1, ?H2, ?H3, ?H4, ?H5; bound_index.
Qed.
End source_total.

(** ** Tensors *)

Lemma ofoldM_ext_in {E A B} (f g : A → B → outcome E A) acc l :
  (∀ acc x, x ∈ l → f acc x = g acc x) → ofoldM f acc l = ofoldM g acc l.
Proof.
  revert acc. induction l as [|x l IH]; intros acc H; simpl; [done|]. rewrite H by by left.
  destruct (g acc x); simpl; [|done..]. apply IH. intros acc' y Hy. apply H. by right.
Qed.

Lemma ofoldM_no_panic {E A B} (f : A → B → outcome E A) acc l :
  (∀ acc x, x ∈ l → f acc x ≠ Panic) → ofoldM f acc l ≠ Panic.
Proof.
  revert acc. induction l as [|x l IH]; intros acc H; simpl; [done|].
  apply obind_total; [apply H; by left|]. intros a _. apply IH. intros acc' y Hy. apply H. by right.
Qed.

Lemma decode_rows_ext n m step step' :
  (∀ row b st, (row < n)%nat → (b < m)%nat → step row b st = step' row b st) → decode_rows n m step = decode_rows n m step'.
Proof.
  intros H. unfold decode_rows. f_equal. apply ofoldM_ext_in. intros st row Hr%elem_of_seqn.
  apply ofoldM_ext_in. intros st' b Hb%elem_of_seqn. by apply H.
Qed.

Lemma decode_rows_total n m step :
  (∀ row b st, (row < n)%nat → (b < m)%nat → step row b st ≠ Panic) → decode_rows n m step ≠ Panic.
Proof.
  intros H. unfold decode_rows. apply obind_total.
  - apply ofoldM_no_panic. intros st row Hr%elem_of_seqn. apply ofoldM_no_panic. intros st' b Hb%elem_of_seqn. by apply H.
  - intros [out problems] _. apply obind_total; [apply collect_total|done].
Qed.

Lemma decode_step_total {A} (input : FormatResult A) decode st :
  input ≠ Panic → (∀ a, input = Ok a → decode a ≠ Panic) → decode_step input decode st ≠ Panic.
Proof.
  intros Hi Hd. unfold decode_step. destruct st as [out problems], input as [a|e|]; [|done..].
  specialize (Hd a eq_refl). destruct (decode a) as [?|[]|]; done.
Qed.

(** ** How many values *)

Lemma omapM_length {E A B} (f : A → outcome E B) l vs : omapM f l = Ok vs → length vs = length l.
Proof. intros H%omapM_Forall2. symmetry. by eapply Forall2_length. Qed.

Lemma oflatM_length {E A B} (f : A → outcome E (list B)) l c vs :
  (∀ x r, f x = Ok r → length r = c) → oflatM f l = Ok vs → length vs = (length l * c)%nat.
Proof.
  intros H. unfold oflatM. intros (ls & Hls & [= <-])%obind_Ok_inv.
  rewrite (length_concat_const c); [by rewrite (omapM_length _ _ _ Hls)|].
  apply omapM_Forall2 in Hls. apply Forall_forall. intros r (i & Hi)%list_elem_of_lookup.
  destruct (Forall2_lookup_r _ _ _ _ _ Hls Hi) as (x & _ & Hx). by eapply H.
Qed.

Lemma plain_length g scheme index block vals vs :
  is_iq g = false → len block = block_bytes g → length vals = Z.to_nat (block_len g) →
  dequant_block g scheme index block vals = Ok vs → length vs = Z.to_nat (block_len g).
Proof.
  intros Hg Hl Hv. unfold len in Hl.
  destruct (bytes_at_any block (Z.to_nat (block_bytes g))) as [b ->]; [lia|].
  destruct (bytes_at_any vals _ Hv) as [o ->].
  destruct g; try discriminate Hg; run_readers;
    repeat match goal with
    | |- context [check_wire_f16 ?s ?i ?x] => destruct (check_wire_f16 s i x); [|discriminate..]
    end; intros H; injection H as <-; reflexivity.
Qed.

Ltac length_step :=
  match goal with
  | H : (if _ then Err _ else _) = Ok _ |- _ => destruct (negb _) in H; [discriminate H|]
  | H : obind _ _ = Ok _ |- _ => apply obind_Ok_inv in H as (? & _ & H)
  | H : omapM _ _ = Ok _ |- _ => apply omapM_length in H; exact H
  | H : signed_run _ _ _ _ _ _ = Ok _ |- _ => apply omapM_length in H; exact H
  | H : delta_run _ _ _ = Ok _ |- _ => apply omapM_length in H; exact H
  end.

Lemma source_block_length scheme index block kind g vs :
  iq_kind g = Some kind → source_block scheme index kind block = Ok vs → length vs = Z.to_nat (block_len g).
Proof.
  intros Hg H. destruct g; (discriminate Hg || injection Hg as <-); unfold source_block in H; repeat length_step.
  all: match type of H with oflatM _ ?l = _ =>
         let c := eval compute in (256 / length l)%nat in apply (oflatM_length _ _ c) in H; [exact H|clear H]
       end; intros ? ? H; repeat length_step.
  all: match type of H with oflatM _ ?l = _ =>
         let c := eval compute in (32 / length l)%nat in apply (oflatM_length _ _ c) in H; [exact H|clear H]
       end; intros ? ? H; repeat length_step.
Qed.

(** A step that leaves no problem adds [c] values. *)
Definition clean_step (c : nat) (st st' : decoded) : Prop := st'.2 = [] → st.2 = [] ∧ length st'.1 = (length st.1 + c)%nat.

Lemma ofoldM_length {B} (f : decoded → B → FormatResult decoded) c l st st' :
  (∀ st b st', b ∈ l → f st b = Ok st' → clean_step c st st') → ofoldM f st l = Ok st' → clean_step (length l * c) st st'.
Proof.
  revert st. induction l as [|b l IH]; intros st H Hf; simpl in *.
  - injection Hf as ->. intros Hp. split; [done|lia].
  - apply obind_Ok_inv in Hf as (st1 & H1 & Hf). intros Hp. destruct (IH st1) as [Hp1 Hl]; [|done..|].
    { intros ? c' ? Hc. apply H. by right. }
    destruct (H _ _ _ ltac:(by left) H1 Hp1) as [? ?]. split; [done|lia].
Qed.

Lemma decode_step_clean {A} (input : FormatResult A) decode c st st' :
  (∀ a, input = Ok a → single (decode a) ∧ ∀ vs, decode a = Ok vs → length vs = c) →
  decode_step input decode st = Ok st' → clean_step c st st'.
Proof.
  intros H. unfold decode_step, clean_step. destruct st as [out problems]. simpl. intros Hs Hp.
  destruct input as [a|e|]; [|injection Hs as <-; by destruct problems|done].
  destruct (H a eq_refl) as [H1 Hl]. destruct (decode a) as [vs|e|] eqn:Hd; [| |done].
  - injection Hs as <-. simpl in *. split; [done|]. by rewrite length_app, (Hl vs).
  - destruct e; [..|destruct H1]; injection Hs as <-; by destruct problems.
Qed.

Lemma decode_rows_length n m c step out :
  (∀ row b st st', (row < n)%nat → (b < m)%nat → step row b st = Ok st' → clean_step c st st') →
  decode_rows n m step = Ok out → length out = (n * (m * c))%nat.
Proof.
  intros H. unfold decode_rows. intros ([out' problems] & Hf & Hc)%obind_Ok_inv.
  apply obind_Ok_inv in Hc as ([] & Hc%collect_Ok & [= <-]).
  assert (∀ k, length (seqn k) = k) as Hseq by (intros; apply length_seq).
  apply (ofoldM_length _ (m * c)) in Hf.
  - destruct (Hf Hc) as [_ Hl]. by rewrite Hseq in Hl.
  - intros st row st' Hr%elem_of_seqn Hst. apply (ofoldM_length _ c) in Hst; [by rewrite Hseq in Hst|].
    intros st1 b st2 Hb%elem_of_seqn. by apply H.
Qed.

(** Both readers of a tensor give the same outcome, which is not a panic and
    when it is a list of values has one for each element. *)
Definition readers_agree (wire : list Z) (g : GgmlType.t) (n k : Z) (t : RepackedTensor) : Prop :=
  repack_dequantize t = ggml_dequantize g wire n k ∧ ggml_dequantize g wire n k ≠ Panic ∧
  ∀ values, ggml_dequantize g wire n k = Ok values → len values = n * k.

Lemma shape_elements g wire n k geo d (values : list f32) :
  is_u32 n → is_u32 k → shape_ok g wire n k geo d →
  length values = (rows n * (blocks g k * Z.to_nat (block_len g)))%nat → len values = n * k.
Proof.
  intros Hn Hk Hs Hl. pose proof (so_k_mul _ _ _ _ _ _ Hs) as Hm. pose proof (block_len_pos g).
  assert (0 ≤ k / block_len g) by (apply Z.div_pos; [apply Hk|lia]).
  unfold len. rewrite Hl. unfold rows, blocks. destruct Hn, Hk. rewrite !Nat2Z.inj_mul, !Z2Nat.id by lia.
  pose proof (Z.div_mod k (block_len g) ltac:(lia)). nia.
Qed.

Lemma plain_readers_agree g wire n k geo d :
  is_iq g = false → is_u32 n → is_u32 k → Forall is_byte wire → len wire ≤ ISIZE_MAX →
  wire_geometry g wire n k = Ok geo → dims_new n k (superblock_k g) = Ok d →
  ∃ t, repack g wire n k = Ok t ∧ readers_agree wire g n k t.
Proof.
  intros Hg Hn Hk Hb Hmax Hgeo Hd. pose proof (plain_shape g wire n k geo d Hn Hk Hgeo Hd) as Hs.
  destruct (plain_stored g wire n k geo d Hg Hn Hk Hb Hmax Hgeo Hd) as (t & logical & Ht & Hrg & Hrd & Hgeom & Hun & Hread).
  exists t. split; [done|]. unfold readers_agree, repack_dequantize, ggml_dequantize.
  rewrite Hrg, Hg, Hgeom, Hgeo, Hrd. cbn [obind]. rewrite Hun. cbn [obind].
  rewrite (so_n _ _ _ _ _ _ Hs), (so_k _ _ _ _ _ _ Hs), (so_geo_blocks _ _ _ _ _ _ Hs).
  fold (rows n) (blocks g k) (nbytes g). pose proof (block_bytes_pos g) as Hbb.
  assert (∀ row b, (row < rows n)%nat → (b < blocks g k)%nat → ∃ block vals rec,
    index_slice (row * (blocks g k * nbytes g) + b * nbytes g) (row * (blocks g k * nbytes g) + b * nbytes g + nbytes g) wire = Ok block ∧
    index_slice (row * Z.to_nat (k_padded d) + b * Z.to_nat (block_len g))
      (row * Z.to_nat (k_padded d) + b * Z.to_nat (block_len g) + Z.to_nat (block_len g)) logical = Ok vals ∧
    soa_record "repacked scale record" (rt_scales t) (record_bytes g) (Z.to_nat (scale_k_blocks g d)) (row / 16) b (row mod 16) = Ok rec ∧
    block_values g block (replicate (Z.to_nat (block_len g)) 0) = Ok vals ∧
    (∀ i, dequant_parsed (decode_name g) i g rec vals = dequant_block g (decode_name g) i block vals) ∧
    ∀ i, single (dequant_block g (decode_name g) i block vals) ∧
         ∀ vs, dequant_block g (decode_name g) i block vals = Ok vs → length vs = Z.to_nat (block_len g)) as Hblock.
  { intros row b Hr Hbl.
    destruct (block_facts _ _ _ _ _ _ (rows n) (blocks g k) _ (plain_codec g Hg) wire (so_wire _ _ _ _ _ _ Hs) Hb row b Hr Hbl)
      as (Hsl & Hv & Hrec & Hlv & _ & _ & _ & Hlb). destruct (Hread "repacked scale record" row b Hr Hbl) as [Hvs Hrs].
    eexists _, _, _. replace (row * (blocks g k * nbytes g) + b * nbytes g)%nat with ((row * blocks g k + b) * nbytes g)%nat by lia.
    assert (∀ l : list Z, length l = Z.to_nat (block_bytes g) → len l = block_bytes g) as Hlen by (unfold len; lia).
    split_and!; [exact Hsl|exact Hvs|exact Hrs|exact Hv| |]; intros i.
    - eapply plain_reader; [done|by apply Hlen|done|apply length_replicate|exact Hrec].
    - split; [apply plain_total; [done|by apply Hlen|done]|]. intros vs. apply plain_length; [done|by apply Hlen|done]. }
  split_and!.
  - apply decode_rows_ext. intros row b st Hr Hbl. destruct (Hblock row b Hr Hbl) as (block & vals & rec & -> & -> & -> & Hv & H & _).
    cbn [obind]. rewrite Hv. unfold decode_step. destruct st. by rewrite H.
  - apply decode_rows_total. intros row b st Hr Hbl. destruct (Hblock row b Hr Hbl) as (block & vals & rec & -> & _ & _ & Hv & _ & H).
    cbn [obind]. rewrite Hv. apply decode_step_total; [done|]. intros a [= <-]. apply single_total, H.
  - intros values Hvs. apply (shape_elements g wire n k geo d); [done..|]. revert Hvs. apply decode_rows_length.
    intros row b st st' Hr Hbl. destruct (Hblock row b Hr Hbl) as (block & vals & rec & -> & _ & _ & Hv & _ & H).
    cbn [obind]. rewrite Hv. apply decode_step_clean. intros a [= <-]. apply H.
Qed.

Lemma codebook_readers_agree g kind wire n k geo d :
  iq_kind g = Some kind → is_u32 n → is_u32 k → Forall is_byte wire →
  wire_geometry g wire n k = Ok geo → dims_new n k (superblock_k g) = Ok d →
  ∃ t, repack g wire n k = Ok t ∧ readers_agree wire g n k t.
Proof.
  intros Hg Hn Hk Hb Hgeo Hd. pose proof (codebook_shape g wire n k geo d Hn Hk Hgeo Hd) as Hs.
  destruct (codebook_stored g kind wire n k geo d Hg Hn Hk Hb Hgeo Hd) as (t & vd & logical & Ht & Hrg & Hrd & Hgeom & Hun & Hread).
  exists t. split; [done|]. unfold readers_agree, repack_dequantize, ggml_dequantize.
  assert (is_iq g = true) as Hiq by (unfold is_iq; by rewrite Hg).
  rewrite Hrg, Hiq. unfold repacked_dequantize, source_dequantize. rewrite Hgeom, Hgeo, Hg, Hrg, Hrd. cbn [obind].
  rewrite Hun. cbn [obind]. rewrite (so_n _ _ _ _ _ _ Hs), (so_k _ _ _ _ _ _ Hs), (so_geo_blocks _ _ _ _ _ _ Hs).
  fold (rows n) (blocks g k) (nbytes g). pose proof (block_bytes_pos g) as Hbb.
  assert (∀ row b, (row < rows n)%nat → (b < blocks g k)%nat → ∃ block idx rec,
    index_slice (row * (blocks g k * nbytes g) + b * nbytes g) (row * (blocks g k * nbytes g) + b * nbytes g + nbytes g) wire = Ok block ∧
    index_slice (row * Z.to_nat (k_padded vd) + b * wire_index_len kind)
      (row * Z.to_nat (k_padded vd) + b * wire_index_len kind + wire_index_len kind) logical = Ok idx ∧
    soa_record "iq soa scale record" (rt_scales t) (record_len kind) (blocks g k) (row / 16) b (row mod 16) = Ok rec ∧
    (∀ i, repacked_block (decode_name g) i kind idx rec = source_block (decode_name g) i kind block) ∧
    ∀ i, single (source_block (decode_name g) i kind block) ∧
         ∀ vs, source_block (decode_name g) i kind block = Ok vs → length vs = Z.to_nat (block_len g)) as Hblock.
  { intros row b Hr Hbl.
    destruct (block_facts _ _ _ _ _ _ (rows n) (blocks g k) _ (codebook_codec g kind Hg) wire (so_wire _ _ _ _ _ _ Hs) Hb row b Hr Hbl)
      as (Hsl & Hv & Hrec & _ & _ & _ & _ & Hlb). destruct (Hread "iq soa scale record" row b Hr Hbl) as [Hvs Hrs].
    eexists _, _, _. replace (row * (blocks g k * nbytes g) + b * nbytes g)%nat with ((row * blocks g k + b) * nbytes g)%nat by lia.
    assert (∀ l : list Z, length l = Z.to_nat (block_bytes g) → len l = block_bytes g) as Hlen by (unfold len; lia).
    split_and!; [exact Hsl|exact Hvs|exact Hrs| |]; intros i.
    - clear Hvs Hrs. change (Z.to_nat (block_bytes g)) with (nbytes g) in *. revert Hv Hrec.
      generalize (values_at (index_reader g kind) (nbytes g) (blocks g k) wire row b) as vals.
      generalize (record_at (record_reader g kind) (nbytes g) (blocks g k) wire row b) as rec0. intros rec0 vals Hv Hrec.
      unfold index_reader, record_reader in Hv, Hrec.
      destruct (parse_block kind g _ _ _) as [[idx rec]| |] eqn:Hp in Hv, Hrec; [|done..]. cbn [obind] in Hv, Hrec.
      injection Hrec as Hrec. rewrite <- Hrec.
      assert (idx = vals) as <-.
      { destruct (iq_block_regroup g kind _ _ _ Hg (Hlen _ Hlb) (Forall_take _ _ _ (Forall_drop _ _ _ Hb))
          (length_replicate (wire_index_len kind) 0) (length_replicate (record_len kind) 0)) as (idx' & rec' & Hp' & Hli & _).
        rewrite Hp' in Hp. injection Hp as <- <-.
        unfold index_slice, slice in Hv. rewrite Hli, Nat.leb_refl in Hv. cbn in Hv.
        rewrite Nat.sub_0_r, <- Hli, firstn_all in Hv. by injection Hv. }
      eapply codebook_reader; [done|by apply Hlen|apply length_replicate|apply length_replicate|exact Hp].
    - split; [apply (source_block_total _ _ _ (Forall_take _ _ _ (Forall_drop _ _ _ Hb)) kind g); [done|by apply Hlen]|].
      intros vs. by apply source_block_length. }
  split_and!.
  - apply decode_rows_ext. intros row b st Hr Hbl. destruct (Hblock row b Hr Hbl) as (block & idx & rec & -> & -> & -> & H & _).
    cbn [obind]. unfold decode_step. destruct st. by rewrite H.
  - apply decode_rows_total. intros row b st Hr Hbl. destruct (Hblock row b Hr Hbl) as (block & idx & rec & -> & _ & _ & _ & H).
    cbn [obind]. apply decode_step_total; [done|]. intros a [= <-]. apply single_total, H.
  - intros values Hvs. apply (shape_elements g wire n k geo d); [done..|]. revert Hvs. apply decode_rows_length.
    intros row b st st' Hr Hbl. destruct (Hblock row b Hr Hbl) as (block & idx & rec & -> & _ & _ & _ & H).
    cbn [obind]. apply decode_step_clean. intros a [= <-]. apply H.
Qed.

(** C12: decoding the repacked tensor is decoding the wire bytes.  Whenever
    [repack] accepts a tensor, of any type, [repack_dequantize] of its result
    and [ggml_dequantize] of the wire bytes give the same outcome: the same
    values, one for each element, or the same collected scale errors; and
    neither panics. *)
Theorem repack_dequantize_exact g wire n k t :
  is_u32 n → is_u32 k → Forall is_byte wire → len wire ≤ ISIZE_MAX → repack g wire n k = Ok t →
  repack_dequantize t = ggml_dequantize g wire n k ∧ ggml_dequantize g wire n k ≠ Panic ∧
  ∀ values, ggml_dequantize g wire n k = Ok values → len values = n * k.
Proof.
  intros Hn Hk Hb Hmax Ht.
  destruct (wire_geometry g wire n k) as [geo|e|] eqn:Hgeo, (dims_new n k (superblock_k g)) as [d|e'|] eqn:Hd;
    try (unfold repack, iq_repack, is_iq in Ht; destruct (iq_kind g); cbn [obind] in Ht; rewrite Hgeo in Ht;
         cbn [obind] in Ht; rewrite ?Hd in Ht; discriminate Ht).
  destruct (iq_kind g) as [kind|] eqn:Hkind.
  - destruct (codebook_readers_agree g kind wire n k geo d) as (t' & Ht' & H); [done..|]. rewrite Ht in Ht'. by injection Ht' as <-.
  - destruct (plain_readers_agree g wire n k geo d) as (t' & Ht' & H); [unfold is_iq; by rewrite Hkind|done..|].
    rewrite Ht in Ht'. by injection Ht' as <-.
Qed.

(** One row of one Q4_0 block with scale 1.0. *)
Definition demo_block : list Z := [0; 60] ++ map (λ i, Z.of_nat (i * 37 + 5) mod 256) (seqn 16).

Lemma repack_dequantize_exact_witness :
  ∃ t values, repack Q4_0 demo_block 1 32 = Ok t ∧ repack_dequantize t = Ok values ∧ len values = 32 ∧
    take 2 values = [f32_of_Z (-3); f32_of_Z 2].
Proof.
  assert (Forall is_byte demo_block) as Hb by (repeat constructor; vm_compute; discriminate).
  destruct (repack Q4_0 demo_block 1 32) as [t| |] eqn:Ht; [|vm_compute in Ht; discriminate Ht..].
  destruct (repack_dequantize_exact Q4_0 demo_block 1 32 t) as (Heq & _ & Hlen);
    [split; vm_compute; discriminate..|exact Hb|vm_compute; discriminate|exact Ht|].
  assert (match ggml_dequantize Q4_0 demo_block 1 32 with
          | Ok values => take 2 values = [f32_of_Z (-3); f32_of_Z 2] | _ => False end) as E
    by (vm_compute; reflexivity).
  destruct (ggml_dequantize Q4_0 demo_block 1 32) as [values| |]; [|contradiction E..].
  exists t, values. exact (conj eq_refl (conj Heq (conj (Hlen _ eq_refl) E))).
Defined.
