(* ===== verification/Ops.v ===== *)
(** * The op catalog

    The attribute types and the op descriptors of [crates/r9v-ir/src/op.rs]:
    one record per op with the source's fields, and the closed [Op] sum.

    Tensors of the Op IR: [Tensor::new] of [crates/r9v-ir/src/tensor.rs]: the constructor that checks
    the structural rules once and reports every one that fails.  [tensor_ok]
    states the rules as properties; the constructor accepts exactly them. *)

From S2P Require Import Prelude Bytes Errors.

#[global] Open Scope Z_scope.

Record Tensor : Type := {
  tn_shape : list Dim.t;
  tn_dtype : DType.t;
  tn_quant : QuantScheme.t;
  tn_layout : Z;
  tn_placement : Placement.t;
  tn_sharding : ShardLayout.t;
  tn_class : TensorClass.t
}.

#[global] Instance Tensor_eq_dec : EqDecision Tensor.
Proof. solve_decision. Defined.

Definition rank (t : Tensor) : nat := length (tn_shape t).

(** ** The constructor *)

Definition rank_problems (shape : list Dim.t) : list IrError :=
  if bool_decide (shape = []) || (4 <? length shape)%nat then [InvalidRank (length shape)] else [].

Definition extent_problems (shape : list Dim.t) : list IrError :=
  concat (imap (λ axis d, if bool_decide (d = Dim.Concrete 0) then [ZeroExtent axis] else []) shape).

Definition placement_problems (p : Placement.t) (c : TensorClass.t) : list IrError :=
  match p, c with
  | Placement.Device _, _ => []
  | (Placement.Host | Placement.Tiered), TensorClass.Weight => []
  | (Placement.Host | Placement.Tiered), _ => [PlacementForClass p c]
  end.

Definition quant_problems (q : QuantScheme.t) (c : TensorClass.t) : list IrError :=
  match q, c with
  | QuantScheme.None, _ => []
  | (QuantScheme.PerRow | QuantScheme.Scheme _), (TensorClass.Weight | TensorClass.Staging) => []
  | (QuantScheme.PerToken | QuantScheme.PerBlock32), TensorClass.Activation => []
  | _, _ => [QuantForClass q c]
  end.

Definition invalid_layout (layout : Z) (c : TensorClass.t) : bool :=
  (bool_decide (c = TensorClass.Activation) && negb (layout =? LayoutId.CONTIGUOUS))
  || (((layout =? LayoutId.L1) || (layout =? LayoutId.L1S)) && negb (bool_decide (c = TensorClass.Weight))).

Definition invalid_i4 (d : DType.t) (c : TensorClass.t) : bool :=
  bool_decide (d = DType.I4)
  && negb (match c with TensorClass.Weight | TensorClass.Staging => true | _ => false end).

Definition invalid_quant_dtype (q : QuantScheme.t) (d : DType.t) : bool :=
  match q with
  | QuantScheme.PerToken => negb (match d with DType.I8 | DType.E4m3 => true | _ => false end)
  | QuantScheme.PerBlock32 => negb (bool_decide (d = DType.I8))
  | QuantScheme.PerRow | QuantScheme.Scheme _ =>
      match d with
      | DType.F32 | DType.Bf16 | DType.E5m2 | DType.I32 | DType.U32 | DType.Bool => true
      | _ => false
      end
  | QuantScheme.None => bool_decide (d = DType.I4)
  end.

Definition tensor_problems (t : Tensor) : list IrError :=
  rank_problems (tn_shape t) ++
  extent_problems (tn_shape t) ++
  placement_problems (tn_placement t) (tn_class t) ++
  quant_problems (tn_quant t) (tn_class t) ++
  (if invalid_layout (tn_layout t) (tn_class t)
   then [LayoutForClass (tn_layout t) (tn_class t)] else []) ++
  (if invalid_i4 (tn_dtype t) (tn_class t) then [DTypeForClass (tn_dtype t) (tn_class t)] else []) ++
  (if invalid_quant_dtype (tn_quant t) (tn_dtype t)
   then [QuantDType (tn_quant t) (tn_dtype t)] else []).

Definition tensor_new shape dtype quant layout placement sharding class : outcome IrError Tensor :=
  let t := {| tn_shape := shape; tn_dtype := dtype; tn_quant := quant; tn_layout := layout;
              tn_placement := placement; tn_sharding := sharding; tn_class := class |} in
  let* _ := from_problems (tensor_problems t) in
  Ok t.

(** ** The rules *)

Record tensor_ok (t : Tensor) : Prop := {
  ok_rank : (1 ≤ rank t ≤ 4)%nat;
  ok_extents : Dim.Concrete 0 ∉ tn_shape t;
  ok_placement : (∃ r, tn_placement t = Placement.Device r) ∨ tn_class t = TensorClass.Weight;
  ok_quant : match tn_quant t with
             | QuantScheme.None => True
             | QuantScheme.PerRow | QuantScheme.Scheme _ =>
                 tn_class t = TensorClass.Weight ∨ tn_class t = TensorClass.Staging
             | QuantScheme.PerToken | QuantScheme.PerBlock32 => tn_class t = TensorClass.Activation
             end;
  ok_layout : (tn_class t = TensorClass.Activation → tn_layout t = LayoutId.CONTIGUOUS)
              ∧ (tn_layout t = LayoutId.L1 ∨ tn_layout t = LayoutId.L1S → tn_class t = TensorClass.Weight);
  ok_dtype : match tn_quant t with
             | QuantScheme.None => tn_dtype t ≠ DType.I4
             | QuantScheme.PerRow | QuantScheme.Scheme _ =>
                 tn_dtype t ∈ [DType.F16; DType.E4m3; DType.I8; DType.I4]
             | QuantScheme.PerToken => tn_dtype t ∈ [DType.I8; DType.E4m3]
             | QuantScheme.PerBlock32 => tn_dtype t = DType.I8
             end
}.

Lemma rank_problems_nil shape : rank_problems shape = [] ↔ (1 ≤ length shape ≤ 4)%nat.
Proof.
  unfold rank_problems. destruct shape as [|d l]; cbn [length]; [simpl; split; [done|lia]|].
  rewrite bool_decide_eq_false_2 by done. cbn [orb].
  destruct (Nat.ltb_spec 4 (S (length l))); split; intros; try done; lia.
Qed.

Lemma extent_problems_nil shape : extent_problems shape = [] ↔ Dim.Concrete 0 ∉ shape.
Proof.
  unfold extent_problems.
  assert (∀ k, concat (imap (λ axis d, if bool_decide (d = Dim.Concrete 0) then [ZeroExtent (k + axis)] else []) shape)
    = [] ↔ Dim.Concrete 0 ∉ shape) as H; [|apply (H 0%nat)].
  induction shape as [|d l IH]; intros k; [simpl; set_solver|].
  cbn [imap concat]. case_bool_decide as Hd; [set_solver|].
  rewrite not_elem_of_cons, app_nil_l, <- (IH (S k)). split.
  - intros H. split; [done|]. etrans; [|exact H]. apply (f_equal (@concat _)), imap_ext. intros i x _. cbn. by rewrite Nat.add_succ_r.
  - intros [_ H]. etrans; [|exact H]. apply (f_equal (@concat _)), imap_ext. intros i x _. cbn. by rewrite Nat.add_succ_r.
Qed.

Lemma if_nil {A} (b : bool) (x : A) : (if b then [x] else []) = [] ↔ b = false.
Proof. by destruct b. Qed.

Lemma placement_problems_nil p c :
  placement_problems p c = [] ↔ (∃ r, p = Placement.Device r) ∨ c = TensorClass.Weight.
Proof. destruct p, c; simpl; naive_solver. Qed.

Lemma quant_problems_nil q c :
  quant_problems q c = [] ↔
  match q with
  | QuantScheme.None => True
  | QuantScheme.PerRow | QuantScheme.Scheme _ => c = TensorClass.Weight ∨ c = TensorClass.Staging
  | QuantScheme.PerToken | QuantScheme.PerBlock32 => c = TensorClass.Activation
  end.
Proof. destruct q, c; simpl; naive_solver. Qed.

Lemma invalid_layout_false l c :
  invalid_layout l c = false ↔
  (c = TensorClass.Activation → l = LayoutId.CONTIGUOUS)
  ∧ (l = LayoutId.L1 ∨ l = LayoutId.L1S → c = TensorClass.Weight).
Proof.
  unfold invalid_layout. rewrite orb_false_iff, !andb_false_iff, orb_false_iff, !negb_false_iff, bool_decide_eq_false,
    bool_decide_eq_true, !Z.eqb_neq, Z.eqb_eq.
  destruct (decide (c = TensorClass.Activation)), (decide (c = TensorClass.Weight)),
    (decide (l = LayoutId.L1)), (decide (l = LayoutId.L1S)); naive_solver.
Qed.

Lemma tensor_problems_nil t : tensor_problems t = [] ↔ tensor_ok t.
Proof.
  unfold tensor_problems. rewrite !app_nil, !if_nil, rank_problems_nil, extent_problems_nil,
    placement_problems_nil, quant_problems_nil, invalid_layout_false.
  split.
  - intros (Hr & He & Hp & Hq & Hl & Hi & Hd). split; try done.
    destruct (tn_quant t), (tn_dtype t); simpl in Hd; try done; clear; set_solver.
  - intros [Hr He Hp Hq Hl Hd]. refine (conj Hr (conj He (conj Hp (conj Hq (conj Hl (conj _ _)))))).
    + unfold invalid_i4. destruct (tn_quant t), (tn_dtype t); try done.
      all: try (by destruct Hq as [-> | ->]); exfalso; clear -Hd; set_solver.
    + destruct (tn_quant t), (tn_dtype t); try done; exfalso; clear -Hd; set_solver.
Qed.

(** [Tensor::new] accepts exactly the tensors the rules allow, and returns the
    fields it was given. *)
Lemma tensor_new_Ok shape dtype quant layout placement sharding class t :
  tensor_new shape dtype quant layout placement sharding class = Ok t ↔
  t = {| tn_shape := shape; tn_dtype := dtype; tn_quant := quant; tn_layout := layout;
         tn_placement := placement; tn_sharding := sharding; tn_class := class |} ∧ tensor_ok t.
Proof.
  unfold tensor_new. set (u := Build_Tensor _ _ _ _ _ _ _). split.
  - destruct (from_problems (tensor_problems u)) as [[]|e|] eqn:E; try done. cbn. intros [= <-].
    apply from_problems_Ok, tensor_problems_nil in E. done.
  - intros [-> Hok]. apply tensor_problems_nil, from_problems_Ok in Hok. by rewrite Hok.
Qed.

Lemma tensor_new_no_panic shape dtype quant layout placement sharding class :
  tensor_new shape dtype quant layout placement sharding class ≠ Panic.
Proof.
  unfold tensor_new. intros H.
  destruct (from_problems _) eqn:E in H; try done. by apply from_problems_no_panic in E.
Qed.

#[export] Hint Resolve tensor_new_no_panic : core.

(** * The op catalog *)

(** ** Attributes *)

Module NgramCombine.
Inductive t : Type := Concat | Sum.
End NgramCombine.
Module NgramSource.
Inductive t : Type := Staged | Device.
End NgramSource.
Module Smoothing.
Inductive t : Type := None | Folded.
End Smoothing.
Module NormKind.
Inductive t : Type := Rms | Layer.
End NormKind.
Module NormAxis.
Inductive t : Type := Last | Head (d : Z).
End NormAxis.
Module ActivationKind.
Inductive t : Type := Silu | Gelu | GeluTanh | Relu2 | Identity.
End ActivationKind.
Module RopeStyle.
Inductive t : Type := Neox | Interleaved.
End RopeStyle.
Module RopeScaling.
Inductive t : Type :=
| None
| Linear (factor : f32)
| Yarn (factor beta_fast beta_slow : f32) (orig_ctx : Z) (mscale : f32)
| Dynamic.
End RopeScaling.
Module Epilogue.
Inductive t : Type := None | Bias | Residual | Act (a : ActivationKind.t).
End Epilogue.
Module MoeScoring.
Inductive t : Type := Softmax | Sigmoid.
End MoeScoring.
Record MoeGroup : Type := { mg_n_group : Z; mg_topk_group : Z }.
Module CacheScaleGranularity.
Inductive t : Type := PerTokenHead | PerBlock.
End CacheScaleGranularity.
Record MlaLatent : Type := { ml_kv_lora_rank : Z; ml_rope_dim : Z }.
Module AttentionMask.
Inductive t : Type := Causal | CausalWindow (w : Z) | Tree.
End AttentionMask.
Record MlaAttentionSpec : Type := {
  ma_q_lora_rank : option Z; ma_kv_lora_rank : Z; ma_qk_nope_dim : Z; ma_qk_rope_dim : Z; ma_v_dim : Z
}.
Module ConvActivation.
Inductive t : Type := Silu | Identity.
End ConvActivation.
Module LinearAttnKind.
Inductive t : Type := GatedDeltaNet | GLA | Mamba2.
End LinearAttnKind.
Module RngAlgorithm.
Inductive t : Type := Philox4x32.
End RngAlgorithm.
Module VerifyMethod.
Inductive t : Type := Rejection | Greedy | TypicalAcceptance (eps delta : f32).
End VerifyMethod.
Module ReduceOp.
Inductive t : Type := Sum.
End ReduceOp.
Module CopyKind.
Inductive t : Type := Contiguize | DeviceToDevice | HostToDevice | DeviceToHost.
End CopyKind.

(** ** Descriptors *)

Record EmbedGatherOp : Type := { eg_scale : f32; eg_out_dtype : DType.t }.
Record NgramGatherOp : Type := {
  ng_source : NgramSource.t; ng_orders : list Z; ng_heads : Z; ng_hash : Z; ng_table_sizes : list Z;
  ng_combine : NgramCombine.t; ng_out_dtype : DType.t
}.
Record QuantActOp : Type := { qa_scheme : QuantScheme.t; qa_target : DType.t; qa_smoothing : Smoothing.t }.
Record CastOp : Type := { ca_dtype : DType.t }.
Record CopyOp : Type := { co_kind : CopyKind.t }.
Record SplitOp : Type := { sl_first : Z }.
Record NormOp : Type := {
  nm_kind : NormKind.t; nm_eps : f32; nm_axis : NormAxis.t; nm_weight_offset : f32; nm_out_dtype : DType.t
}.
Record ResidualAddOp : Type := { ra_out_dtype : DType.t; ra_scale : f32 }.
Record ActMulOp : Type := { am_act : ActivationKind.t; am_clamp : option f32 }.
Record ActivationOp : Type := { ac_act : ActivationKind.t; ac_clamp : option f32 }.
Record LogitSoftcapOp : Type := { lc_cap : f32 }.
Record RopeOp : Type := {
  ro_rot_dim : Z; ro_theta : f32; ro_style : RopeStyle.t; ro_scaling : RopeScaling.t;
  ro_mrope_sections : option (Z * Z * Z); ro_out_dtype : DType.t
}.
Record MatmulOp : Type := { mm_out_dtype : DType.t; mm_epilogue : Epilogue.t; mm_transpose_w : bool }.
Record MoeRouteOp : Type := {
  mr_top_k : Z; mr_scoring : MoeScoring.t; mr_renormalize : bool; mr_group : option MoeGroup; mr_scale : f32
}.
Record MoeFfnOp : Type := { mf_act : ActivationKind.t; mf_out_dtype : DType.t; mf_shared_experts : Z }.
Record StateWriteKvOp : Type := {
  sw_cache_dtype : DType.t; sw_scale_granularity : CacheScaleGranularity.t; sw_latent : option MlaLatent;
  sw_handle : StateHandle
}.
Record AttentionOp : Type := {
  at_softmax_scale : f32; at_mask : AttentionMask.t; at_sinks : Z; at_logit_softcap : option f32;
  at_mla : option MlaAttentionSpec; at_out_dtype : DType.t; at_handle : StateHandle
}.
Record CausalConv1dOp : Type := { cc_kernel : Z; cc_act : ConvActivation.t; cc_handle : StateHandle }.
Record LinearAttnScanOp : Type := {
  la_kind : LinearAttnKind.t; la_chunk : Z; la_out_dtype : DType.t; la_handle : StateHandle
}.
Record SampleOp : Type := { sa_rng : RngAlgorithm.t }.
Record VerifyOp : Type := { ve_method : VerifyMethod.t }.
Record AllReduceOp : Type := { ar_group : Z; ar_op : ReduceOp.t; ar_dtype : DType.t; ar_reduce_in : DType.t }.
Record AllGatherOp : Type := { ag_group : Z; ag_axis : Z; ag_dtype : DType.t }.
Record ReduceScatterOp : Type := {
  rs_group : Z; rs_axis : Z; rs_op : ReduceOp.t; rs_dtype : DType.t; rs_reduce_in : DType.t
}.
Record AllToAllOp : Type := { aa_group : Z; aa_dtype : DType.t }.
Record SendOp : Type := { sd_group : Z; sd_peer : Z; sd_dtype : DType.t }.
Record RecvOp : Type := { rv_group : Z; rv_peer : Z; rv_shape : list Dim.t; rv_dtype : DType.t }.
Record BarrierOp : Type := { ba_group : Z }.

(** [GatherRowsOp], [ScatterAddRowsOp], [ConcatOp] and [LogitsPostprocessOp]
    are unit structs: they have no attribute. *)
Module Op.
Inductive t : Type :=
| EmbedGather (o : EmbedGatherOp)
| NgramGather (o : NgramGatherOp)
| QuantAct (o : QuantActOp)
| Cast (o : CastOp)
| Copy (o : CopyOp)
| GatherRows
| ScatterAddRows
| Split (o : SplitOp)
| Concat
| Norm (o : NormOp)
| ResidualAdd (o : ResidualAddOp)
| ActMul (o : ActMulOp)
| Activation (o : ActivationOp)
| LogitSoftcap (o : LogitSoftcapOp)
| Rope (o : RopeOp)
| Matmul (o : MatmulOp)
| MoeRoute (o : MoeRouteOp)
| MoeFfn (o : MoeFfnOp)
| StateWriteKv (o : StateWriteKvOp)
| Attention (o : AttentionOp)
| CausalConv1d (o : CausalConv1dOp)
| LinearAttnScan (o : LinearAttnScanOp)
| LogitsPostprocess
| Sample (o : SampleOp)
| Verify (o : VerifyOp)
| AllReduce (o : AllReduceOp)
| AllGather (o : AllGatherOp)
| ReduceScatter (o : ReduceScatterOp)
| AllToAll (o : AllToAllOp)
| Send (o : SendOp)
| Recv (o : RecvOp)
| Barrier (o : BarrierOp).
End Op.
