(* ===== verification/OpCheck.v ===== *)
(** * Checks of an op signature

    The helper routines of [crates/r9v-ir/src/op.rs] that every [validate]
    calls.  A [validate] pushes problems onto a vector and never returns early:
    a check is the list it pushes, or [None] when it indexes a slice out of
    range.  [safe] says a check does not panic, with the rules that push it
    through the combinators. *)

From S2P Require Import Prelude Bytes Errors Ops.

#[global] Open Scope Z_scope.

(** ** Collecting problems *)

Definition chk : Type := option (list IrError).

Definition pass : chk := Some [].
Definition push (bad : bool) (e : IrError) : chk := Some (if bad then [e] else []).
Definition both (a b : chk) : chk :=
  match a, b with Some p, Some q => Some (p ++ q) | _, _ => None end.
Definition when (b : bool) (c : chk) : chk := if b then c else pass.

(** [v[i]], which panics out of range. *)
Definition index {A} (l : list A) (i : nat) (k : A → chk) : chk :=
  match l !! i with Some x => k x | None => None end.

(** [IrError::from_problems] at the end of a [validate]. *)
Definition finish (c : chk) : outcome IrError unit :=
  match c with Some problems => from_problems problems | None => Panic end.

Declare Scope check_scope.
Delimit Scope check_scope with check.
Notation "a '+++' b" := (both a b) (at level 60, right associativity) : check_scope.
Notation "'idx' x ':=' l 'at_index' i 'in' k" := (index l i (λ x, k))
  (at level 200, x name, l at level 100, i at level 100, k at level 200) : check_scope.
#[global] Open Scope check_scope.


Definition count_is {A} (l : list A) (n : nat) : bool := (length l =? n)%nat.
Definition is_rank (t : Tensor) (n : nat) : bool := (rank t =? n)%nat.

(** ** The routines *)

Definition check_rank (op name : string) (t : Tensor) (expected : nat) : chk :=
  push (negb (is_rank t expected)) (OpRankMismatch op name expected (rank t)).

Definition check_dtype_in (op name : string) (t : Tensor) (allowed : list DType.t) : chk :=
  push (bool_decide (tn_dtype t ∉ allowed)) (OpDTypeMismatch op name allowed (tn_dtype t)).

Definition check_dim_match (op t1_name : string) (d1 : Dim.t) (t2_name : string) (d2 : Dim.t)
    (axis_name : string) : chk :=
  match d1, d2 with
  | Dim.Concrete a, Dim.Concrete b =>
      push (negb (a =? b)) (OpShapeMismatch op t1_name
        (msg "axis `{axis_name}` extent {a} does not match `{t2_name}` extent {b}"
           [Name axis_name; Num a; Name t2_name; Num b]))
  | Dim.Symbolic s1, Dim.Symbolic s2 =>
      push (bool_decide (s1 ≠ s2)) (OpShapeMismatch op t1_name
        (msg "axis `{axis_name}` symbol {s1:?} does not match `{t2_name}` symbol {s2:?}"
           [Name axis_name; Symbol s1; Name t2_name; Symbol s2]))
  | Dim.Concrete _, Dim.Symbolic _ | Dim.Symbolic _, Dim.Concrete _ => pass
  end.

Definition bad_quant (op name : string) (t : Tensor) (ok : bool) : chk :=
  push (negb ok) (OpQuantMismatch op name (tn_quant t)).

Definition weight_quant (q : QuantScheme.t) : bool :=
  match q with QuantScheme.PerRow | QuantScheme.Scheme _ => true | _ => false end.

Definition check_gemm_activation_operand (op name : string) (t : Tensor) : chk :=
  check_dtype_in op name t [DType.F16; DType.Bf16; DType.I8; DType.E4m3] +++
  bad_quant op name t
    (match tn_dtype t with
     | DType.F16 | DType.Bf16 => bool_decide (tn_quant t = QuantScheme.None)
     | DType.I8 => match tn_quant t with QuantScheme.PerToken | QuantScheme.PerBlock32 => true | _ => false end
     | DType.E4m3 => bool_decide (tn_quant t = QuantScheme.PerToken)
     | _ => true
     end).

Definition check_gemm_weight_operand (op name : string) (t : Tensor) : chk :=
  check_dtype_in op name t [DType.I4; DType.I8; DType.E4m3; DType.F16] +++
  bad_quant op name t
    (match tn_dtype t with
     | DType.I4 | DType.I8 | DType.E4m3 => weight_quant (tn_quant t)
     | DType.F16 => bool_decide (tn_quant t = QuantScheme.None)
     | _ => true
     end).

(** ** The tests every [validate] writes out *)

Definition attr (op attribute : string) (bad : bool) (reason : Text) : chk :=
  push bad (OpAttributeInvalid op attribute reason).

Definition shape_problem (op name : string) (bad : bool) (detail : Text) : chk :=
  push bad (OpShapeMismatch op name detail).

Definition input_count (op : string) (inputs : list Tensor) (expected : nat) : chk :=
  push (negb (count_is inputs expected)) (OpInputCountMismatch op expected (length inputs)).

Definition output_count (op : string) (outputs : list Tensor) (expected : nat) : chk :=
  push (negb (count_is outputs expected)) (OpOutputCountMismatch op expected (length outputs)).

(** [expected] lists the accepted counts. *)
Definition input_count_in (op : string) (inputs : list Tensor) (expected : list nat) : chk :=
  push (negb (existsb (Nat.eqb (length inputs)) expected))
    (OpInputCountCandidatesMismatch op expected (length inputs)).

Definition output_count_in (op : string) (outputs : list Tensor) (expected : list nat) : chk :=
  push (negb (existsb (Nat.eqb (length outputs)) expected))
    (OpOutputCountCandidatesMismatch op expected (length outputs)).

Definition class_among (op name : string) (t : Tensor) (accepted : list TensorClass.t)
    (expected : TensorClass.t) : chk :=
  push (bool_decide (tn_class t ∉ accepted)) (OpClassMismatch op name expected (tn_class t)).

Definition class_is (op name : string) (t : Tensor) (c : TensorClass.t) : chk :=
  push (bool_decide (tn_class t ≠ c)) (OpClassMismatch op name c (tn_class t)).

Definition is_device (p : Placement.t) : bool :=
  match p with Placement.Device _ => true | _ => false end.

Definition bad_placement (op name : string) (t : Tensor) (ok : bool) : chk :=
  push (negb ok) (OpPlacementMismatch op name (tn_placement t)).

Definition device_operand (op name : string) (t : Tensor) : chk :=
  bad_placement op name t (is_device (tn_placement t)).

Definition dtype_is (op name : string) (t : Tensor) (d : DType.t) : chk :=
  push (bool_decide (tn_dtype t ≠ d)) (OpDTypeMismatch op name [d] (tn_dtype t)).

Definition quant_is (op name : string) (t : Tensor) (q : QuantScheme.t) : chk :=
  bad_quant op name t (bool_decide (tn_quant t = q)).

Definition layout_is (op name : string) (t : Tensor) (l : Z) : chk :=
  push (negb (tn_layout t =? l)) (OpLayoutMismatch op name l (tn_layout t)).

(** [check_dim_match] on [t1.shape()[i]] and [t2.shape()[j]]. *)
Definition dims_match (op n1 : string) (t1 : Tensor) (i : nat) (n2 : string) (t2 : Tensor) (j : nat)
    (axis : string) : chk :=
  idx d1 := tn_shape t1 at_index i in
  idx d2 := tn_shape t2 at_index j in
  check_dim_match op n1 d1 n2 d2 axis.

(** [if let Dim::Concrete(c) = d]. *)
Definition concrete (d : Dim.t) (k : Z → chk) : chk :=
  match d with Dim.Concrete c => k c | Dim.Symbolic _ => pass end.

(** The element types an op may produce. *)
Definition float_dtype (d : DType.t) : bool :=
  match d with DType.F16 | DType.Bf16 | DType.F32 => true | _ => false end.
Definition floats : list DType.t := [DType.F16; DType.Bf16; DType.F32].

Definition out_dtype_attr (op : string) (d : DType.t) : chk :=
  attr op "out_dtype" (negb (float_dtype d)) (msg "must be f16, bf16, or f32, got {:?}" [Dtype d]).

Definition not_positive (x : f32) : bool := negb (is_finite x) || f32_le x f32_zero.

(** [for i in 0..t2.rank()] of the same check. *)
Fixpoint dims_from (op n1 : string) (t1 : Tensor) (n2 : string) (t2 : Tensor) (i n : nat) : chk :=
  match n with
  | O => pass
  | S n => dims_match op n1 t1 i n2 t2 i "dim" +++ dims_from op n1 t1 n2 t2 (S i) n
  end.

(** Equal ranks, then equal dimensions. *)
Definition same_dims (op n1 : string) (t1 : Tensor) (n2 : string) (t2 : Tensor) : chk :=
  if negb (rank t1 =? rank t2)%nat
  then push true (OpRankMismatch op n1 (rank t2) (rank t1))
  else dims_from op n1 t1 n2 t2 0 (rank t2).

(** [if let Some(x) = v.get(i)]. *)
Definition if_get {A} (l : list A) (i : nat) (k : A → chk) : chk :=
  match l !! i with Some x => k x | None => pass end.
Notation "'opt' x ':=' l 'at_index' i 'in' k" := (if_get l i (λ x, k))
  (at level 200, x name, l at level 100, i at level 100, k at level 200) : check_scope.

Definition handle_is (op : string) (h : StateHandle) (expected : StateKind.t) : chk :=
  push (bool_decide (h_kind h ≠ expected)) (StateHandleKindMismatch op expected (h_kind h)).

(** ** Checks that do not panic *)

Definition safe (c : chk) : Prop := c ≠ None.

Create HintDb check_safe.

Lemma safe_Some p : safe (Some p).
Proof. done. Qed.
#[export] Hint Resolve safe_Some : check_safe.

Lemma safe_push b e : safe (push b e).
Proof. done. Qed.
#[export] Hint Extern 5 (safe _) => (unfold safe; discriminate) : check_safe.

Lemma safe_both a b : safe (a +++ b) ↔ safe a ∧ safe b.
Proof. unfold safe. destruct a, b; simpl; naive_solver. Qed.

Lemma safe_when b c : safe (when b c) ↔ (b = true → safe c).
Proof. unfold safe. destruct b; simpl; naive_solver. Qed.

Lemma safe_index {A} (l : list A) i k : safe (index l i k) ↔ ∃ x, l !! i = Some x ∧ safe (k x).
Proof. unfold safe, index. destruct (l !! i); naive_solver. Qed.

Lemma safe_index_lt {A} (l : list A) i k :
  (i < length l)%nat → (∀ x, l !! i = Some x → safe (k x)) → safe (index l i k).
Proof. intros [x Hx]%lookup_lt_is_Some_2 Hk. apply safe_index. eauto. Qed.

Lemma safe_if_get {A} (l : list A) i k : (∀ x, l !! i = Some x → safe (k x)) → safe (if_get l i k).
Proof. unfold if_get. destruct (l !! i); intros; by auto with check_safe. Qed.

Lemma safe_concrete d k : (∀ c, safe (k c)) → safe (concrete d k).
Proof. by destruct d; simpl; auto with check_safe. Qed.

Lemma safe_check_dim_match op n1 d1 n2 d2 axis : safe (check_dim_match op n1 d1 n2 d2 axis).
Proof. by destruct d1, d2. Qed.
#[export] Hint Resolve safe_check_dim_match : check_safe.

Lemma safe_dims_match op n1 t1 i n2 t2 j axis :
  (i < rank t1)%nat → (j < rank t2)%nat → safe (dims_match op n1 t1 i n2 t2 j axis).
Proof.
  intros H1 H2. apply safe_index_lt; [done|]. intros d1 _. apply safe_index_lt; [done|]. auto with check_safe.
Qed.

Lemma safe_dims_from op n1 t1 n2 t2 i n :
  (i + n ≤ rank t1)%nat → (i + n ≤ rank t2)%nat → safe (dims_from op n1 t1 n2 t2 i n).
Proof.
  revert i. induction n as [|n IH]; intros i H1 H2; [done|].
  apply safe_both. split; [apply safe_dims_match; lia|]. apply IH; lia.
Qed.

Lemma safe_same_dims op n1 t1 n2 t2 : safe (same_dims op n1 t1 n2 t2).
Proof.
  unfold same_dims. destruct (Nat.eqb_spec (rank t1) (rank t2)) as [E|]; simpl; [|done].
  apply safe_dims_from; lia.
Qed.
#[export] Hint Resolve safe_same_dims : check_safe.

Lemma count_is_true {A} (l : list A) n : count_is l n = true ↔ length l = n.
Proof. apply Nat.eqb_eq. Qed.

Lemma is_rank_true t n : is_rank t n = true ↔ rank t = n.
Proof. apply Nat.eqb_eq. Qed.

Lemma ok_rank_pos ts i t : Forall tensor_ok ts → ts !! i = Some t → (1 ≤ rank t)%nat.
Proof. intros H Ht. eapply Forall_lookup_1 in H as [[? _] _]; done. Qed.

(** The facts a guard gives: lengths and ranks. *)
Ltac guard_facts :=
  repeat match goal with
  | H : _ && _ = true |- _ => apply andb_true_iff in H as [? ?]
  | H : _ || _ = true |- _ => apply orb_true_iff in H as [?|?]
  | H : count_is _ _ = true |- _ => apply count_is_true in H
  | H : is_rank _ _ = true |- _ => apply is_rank_true in H
  | H : ?ts !! _ = Some ?t, Hok : Forall tensor_ok ?ts |- _ =>
      lazymatch goal with
      | _ : (1 ≤ rank t)%nat |- _ => fail
      | _ => pose proof (ok_rank_pos _ _ _ Hok H)
      end
  end.

Ltac in_range := guard_facts; unfold rank in *; simpl in *; lia.

(** Splits a check into its parts and discharges the indices. *)
Ltac check_safe :=
  repeat match goal with
  | |- safe (_ +++ _) => apply safe_both; split
  | |- safe (when _ _) => apply safe_when; intros ?
  | |- safe (index _ _ _) => apply safe_index_lt; [in_range|intros ? ?]
  | |- safe (if_get _ _ _) => apply safe_if_get; intros ? ?
  | |- safe (concrete _ _) => apply safe_concrete; intros ?
  | |- safe (dims_match _ _ _ _ _ _ _ _) => apply safe_dims_match; in_range
  | |- safe (dims_from _ _ _ _ _ _ _) => apply safe_dims_from; in_range
  | |- safe (match ?x with _ => _ end) => destruct x eqn:?
  | |- safe _ => solve [auto with check_safe]
  end.

Lemma finish_panic c : finish c = Panic ↔ ¬ safe c.
Proof.
  unfold safe. destruct c as [p|]; simpl; [|tauto].
  split; [intros H; by apply from_problems_no_panic in H|]. intros H. by exfalso; apply H.
Qed.
