(* ===== verification/OpMove.v ===== *)
(** * Signatures of data movement and lookup

    The [validate] of each op of section 4.A of [crates/r9v-ir/src/op.rs]:
    embedding and n-gram gathers, activation quantization, casts, copies, row
    gathers and scatters, splits and concatenations. *)

From S2P Require Import Prelude Bytes Errors Ops OpCheck.

#[global] Open Scope Z_scope.

Section Signatures.
Context (inputs outputs : list Tensor).

(** ** Token embedding lookup *)

Definition embed_gather_attrs (o : EmbedGatherOp) : chk :=
  attr "embed_gather" "scale" (not_positive (eg_scale o))
    (msg "must be finite and > 0, got {}" [Float (eg_scale o)]) +++
  out_dtype_attr "embed_gather" (eg_out_dtype o) +++
  input_count "embed_gather" inputs 2 +++
  output_count "embed_gather" outputs 1.

Definition embed_gather_inputs : chk :=
  idx token_ids := inputs at_index 0 in
  idx table := inputs at_index 1 in
  check_rank "embed_gather" "token_ids" token_ids 1 +++
  check_dtype_in "embed_gather" "token_ids" token_ids [DType.U32] +++
  class_is "embed_gather" "token_ids" token_ids TensorClass.Activation +++
  device_operand "embed_gather" "token_ids" token_ids +++
  check_rank "embed_gather" "table" table 2 +++
  check_dtype_in "embed_gather" "table" table [DType.I4; DType.I8; DType.F16] +++
  class_is "embed_gather" "table" table TensorClass.Weight +++
  bad_placement "embed_gather" "table" table
    (match tn_placement table with Placement.Device _ | Placement.Tiered => true | Placement.Host => false end) +++
  bad_quant "embed_gather" "table" table
    (match tn_dtype table with
     | DType.F16 => bool_decide (tn_quant table = QuantScheme.None)
     | DType.I4 | DType.I8 => weight_quant (tn_quant table)
     | _ => true
     end).

Definition embed_gather_outputs (o : EmbedGatherOp) : chk :=
  idx x := outputs at_index 0 in
  check_rank "embed_gather" "x" x 2 +++
  dtype_is "embed_gather" "x" x (eg_out_dtype o) +++
  class_is "embed_gather" "x" x TensorClass.Activation +++
  device_operand "embed_gather" "x" x.

Definition embed_gather_relations : chk :=
  idx token_ids := inputs at_index 0 in
  idx table := inputs at_index 1 in
  idx x := outputs at_index 0 in
  when (is_rank token_ids 1 && is_rank x 2)
    (dims_match "embed_gather" "x" x 0 "token_ids" token_ids 0 "T") +++
  when (is_rank table 2 && is_rank x 2)
    (dims_match "embed_gather" "x" x 1 "table" table 1 "Dm").

Definition embed_gather_validate (o : EmbedGatherOp) : chk :=
  embed_gather_attrs o +++
  when (count_is inputs 2) embed_gather_inputs +++
  when (count_is outputs 1) (embed_gather_outputs o) +++
  when (count_is inputs 2 && count_is outputs 1) embed_gather_relations.

(** ** N-gram gather *)

Definition ngram_gather_attrs (o : NgramGatherOp) : chk :=
  attr "ngram_gather" "heads" (ng_heads o =? 0) (msg "heads must be > 0" []) +++
  attr "ngram_gather" "orders" (bool_decide (ng_orders o = []) || bool_decide (0 ∈ ng_orders o))
    (msg "orders must be non-empty with elements > 0" []) +++
  attr "ngram_gather" "table_sizes"
    (bool_decide (ng_table_sizes o = []) || bool_decide (0 ∈ ng_table_sizes o))
    (msg "table_sizes must be non-empty with elements > 0" []) +++
  attr "ngram_gather" "orders" (negb (Z.of_nat (length (ng_orders o)) =? ng_heads o))
    (msg "length {} must equal heads {}" [Num (Z.of_nat (length (ng_orders o))); Num (ng_heads o)]) +++
  attr "ngram_gather" "table_sizes" (negb (Z.of_nat (length (ng_table_sizes o)) =? ng_heads o))
    (msg "length {} must equal heads {}" [Num (Z.of_nat (length (ng_table_sizes o))); Num (ng_heads o)]) +++
  out_dtype_attr "ngram_gather" (ng_out_dtype o) +++
  input_count "ngram_gather" inputs 2 +++
  output_count "ngram_gather" outputs 1.

Definition ngram_staged_inputs (o : NgramGatherOp) : chk :=
  idx staging := inputs at_index 0 in
  idx scales := inputs at_index 1 in
  check_rank "ngram_gather" "gather_staging" staging 3 +++
  check_dtype_in "ngram_gather" "gather_staging" staging [DType.I4; DType.I8] +++
  bad_quant "ngram_gather" "gather_staging" staging
    (match tn_quant staging with QuantScheme.Scheme _ => true | _ => false end) +++
  class_among "ngram_gather" "gather_staging" staging [TensorClass.Staging; TensorClass.Weight]
    TensorClass.Staging +++
  device_operand "ngram_gather" "gather_staging" staging +++
  push (negb (is_rank scales 1) && negb (is_rank scales 2))
    (OpRankMismatch "ngram_gather" "row_scales" 2 (rank scales)) +++
  check_dtype_in "ngram_gather" "row_scales" scales [DType.F32; DType.F16] +++
  class_among "ngram_gather" "row_scales" scales [TensorClass.Activation; TensorClass.Staging]
    TensorClass.Activation +++
  device_operand "ngram_gather" "row_scales" scales +++
  when (is_rank staging 3)
    (idx d := tn_shape staging at_index 1 in
     concrete d (λ heads, shape_problem "ngram_gather" "gather_staging" (negb (heads =? ng_heads o))
       (msg "dim 1 heads {heads} != attr heads {}" [Num heads; Num (ng_heads o)]))) +++
  when (is_rank staging 3 && (is_rank scales 1 || is_rank scales 2))
    (dims_match "ngram_gather" "row_scales" scales 0 "gather_staging" staging 0 "T" +++
     when (is_rank scales 2)
       (idx sc := tn_shape scales at_index 1 in
        idx st := tn_shape staging at_index 1 in
        concrete sc (λ sc_h, concrete st (λ st_h,
          shape_problem "ngram_gather" "row_scales" (negb (sc_h =? 1) && negb (sc_h =? st_h))
            (msg "axis 1 heads {sc_h} != gather_staging heads {st_h}" [Num sc_h; Num st_h]))))).

(** The [u32] sum of the table sizes. *)
Definition expected_entries (table_sizes : list Z) : option Z :=
  foldl (λ sum size, match sum with Some s => checked_add U32_MAX s size | None => None end)
    (Some 0) table_sizes.

Definition ngram_device_inputs (o : NgramGatherOp) : chk :=
  idx token_ids := inputs at_index 0 in
  idx table := inputs at_index 1 in
  check_rank "ngram_gather" "token_ids" token_ids 1 +++
  check_dtype_in "ngram_gather" "token_ids" token_ids [DType.U32] +++
  class_is "ngram_gather" "token_ids" token_ids TensorClass.Activation +++
  device_operand "ngram_gather" "token_ids" token_ids +++
  check_rank "ngram_gather" "table" table 2 +++
  check_dtype_in "ngram_gather" "table" table [DType.I4; DType.I8; DType.F16; DType.Bf16; DType.F32] +++
  class_is "ngram_gather" "table" table TensorClass.Weight +++
  device_operand "ngram_gather" "table" table +++
  when (is_rank table 2)
    (idx d := tn_shape table at_index 0 in
     match d, expected_entries (ng_table_sizes o) with
     | Dim.Concrete e, Some expected =>
         shape_problem "ngram_gather" "table" (negb (e =? expected))
           (msg "table dim 0 extent {e} != sum of table_sizes ({expected})" [Num e; Num expected])
     | _, None => attr "ngram_gather" "table_sizes" true (msg "sum of table_sizes exceeds u32::MAX" [])
     | Dim.Symbolic _, Some _ => pass
     end).

Definition ngram_gather_outputs (o : NgramGatherOp) : chk :=
  idx x := outputs at_index 0 in
  check_rank "ngram_gather" "x" x 2 +++
  dtype_is "ngram_gather" "x" x (ng_out_dtype o) +++
  class_is "ngram_gather" "x" x TensorClass.Activation +++
  device_operand "ngram_gather" "x" x.

Definition ngram_width (o : NgramGatherOp) (x_d dn : Z) : chk :=
  match ng_combine o with
  | NgramCombine.Concat =>
      shape_problem "ngram_gather" "x"
        (bool_decide (checked_mul U32_MAX (ng_heads o) dn ≠ Some x_d))
        (msg "concat dim 1 {x_d} != heads({}) * Dn({})" [Num x_d; Num (ng_heads o); Num dn])
  | NgramCombine.Sum =>
      shape_problem "ngram_gather" "x" (negb (x_d =? dn)) (msg "sum dim 1 {x_d} != Dn({})" [Num x_d; Num dn])
  end.

Definition ngram_gather_relations (o : NgramGatherOp) : chk :=
  idx x := outputs at_index 0 in
  match ng_source o with
  | NgramSource.Staged =>
      idx staging := inputs at_index 0 in
      when (is_rank staging 3 && is_rank x 2)
        (dims_match "ngram_gather" "x" x 0 "gather_staging" staging 0 "T" +++
         idx dx := tn_shape x at_index 1 in
         idx ds := tn_shape staging at_index 2 in
         concrete dx (λ x_d, concrete ds (λ st_d, ngram_width o x_d st_d)))
  | NgramSource.Device =>
      idx token_ids := inputs at_index 0 in
      idx table := inputs at_index 1 in
      when (is_rank token_ids 1 && is_rank x 2)
        (dims_match "ngram_gather" "x" x 0 "token_ids" token_ids 0 "T") +++
      when (is_rank table 2 && is_rank x 2)
        (idx dx := tn_shape x at_index 1 in
         idx dt := tn_shape table at_index 1 in
         concrete dx (λ x_d, concrete dt (λ tb_d, ngram_width o x_d tb_d)))
  end.

Definition ngram_gather_validate (o : NgramGatherOp) : chk :=
  ngram_gather_attrs o +++
  when (count_is inputs 2)
    (match ng_source o with
     | NgramSource.Staged => ngram_staged_inputs o
     | NgramSource.Device => ngram_device_inputs o
     end) +++
  when (count_is outputs 1) (ngram_gather_outputs o) +++
  when (count_is inputs 2 && count_is outputs 1) (ngram_gather_relations o).

(** ** Activation quantization *)

Definition quant_act_attrs (o : QuantActOp) : chk :=
  attr "quant_act" "scheme"
    (negb (match qa_scheme o with QuantScheme.PerToken | QuantScheme.PerBlock32 => true | _ => false end))
    (msg "must be PerToken or PerBlock32, got {:?}" [Quant (qa_scheme o)]) +++
  attr "quant_act" "target"
    (bool_decide (qa_target o ≠ DType.I8) && bool_decide (qa_target o ≠ DType.E4m3))
    (msg "must be i8 or e4m3, got {:?}" [Dtype (qa_target o)]) +++
  attr "quant_act" "target"
    (bool_decide (qa_scheme o = QuantScheme.PerBlock32) && bool_decide (qa_target o ≠ DType.I8))
    (msg "PerBlock32 activation quantization is only valid with target i8, got {:?}" [Dtype (qa_target o)]) +++
  input_count "quant_act" inputs 1 +++
  output_count "quant_act" outputs 2.

Definition quant_act_inputs : chk :=
  idx x := inputs at_index 0 in
  check_rank "quant_act" "x" x 2 +++
  check_dtype_in "quant_act" "x" x floats +++
  class_is "quant_act" "x" x TensorClass.Activation.

Definition quant_act_outputs (o : QuantActOp) : chk :=
  idx xq := outputs at_index 0 in
  idx scale := outputs at_index 1 in
  check_rank "quant_act" "xq" xq 2 +++
  dtype_is "quant_act" "xq" xq (qa_target o) +++
  quant_is "quant_act" "xq" xq (qa_scheme o) +++
  class_is "quant_act" "xq" xq TensorClass.Activation +++
  device_operand "quant_act" "xq" xq +++
  match qa_scheme o with
  | QuantScheme.PerToken => check_rank "quant_act" "scale" scale 1
  | QuantScheme.PerBlock32 => check_rank "quant_act" "scale" scale 2
  | QuantScheme.None | QuantScheme.PerRow | QuantScheme.Scheme _ => check_rank "quant_act" "scale" scale 1
  end +++
  check_dtype_in "quant_act" "scale" scale [DType.F32] +++
  quant_is "quant_act" "scale" scale QuantScheme.None +++
  class_is "quant_act" "scale" scale TensorClass.Activation +++
  device_operand "quant_act" "scale" scale.

Definition quant_act_relations (o : QuantActOp) : chk :=
  idx x := inputs at_index 0 in
  idx xq := outputs at_index 0 in
  idx scale := outputs at_index 1 in
  when (is_rank x 2 && is_rank xq 2)
    (dims_match "quant_act" "xq" xq 0 "x" x 0 "T" +++ dims_match "quant_act" "xq" xq 1 "x" x 1 "N") +++
  when (is_rank x 2)
    (dims_match "quant_act" "scale" scale 0 "x" x 0 "T" +++
     when (bool_decide (qa_scheme o = QuantScheme.PerBlock32))
       (idx dn := tn_shape x at_index 1 in
        concrete dn (λ n,
          if negb (n mod 32 =? 0)
          then shape_problem "quant_act" "x" true
                 (msg "axis 1 extent {n} must be divisible by 32 for PerBlock32" [Num n])
          else when (is_rank scale 2)
                 (idx db := tn_shape scale at_index 1 in
                  concrete db (λ scale_blocks,
                    shape_problem "quant_act" "scale" (negb (scale_blocks =? n / 32))
                      (msg "scale axis 1 extent {scale_blocks} != N/32 ({})" [Num scale_blocks; Num (n / 32)])))))).

Definition quant_act_validate (o : QuantActOp) : chk :=
  quant_act_attrs o +++
  when (count_is inputs 1) quant_act_inputs +++
  when (count_is outputs 2) (quant_act_outputs o) +++
  when (count_is inputs 1 && count_is outputs 2) (quant_act_relations o).

(** ** Casts and copies *)

Definition cast_validate (o : CastOp) : chk :=
  input_count "cast" inputs 1 +++
  output_count "cast" outputs 1 +++
  when (count_is outputs 1) (idx y := outputs at_index 0 in dtype_is "cast" "y" y (ca_dtype o)) +++
  when (count_is inputs 1 && count_is outputs 1)
    (idx x := inputs at_index 0 in
     idx y := outputs at_index 0 in
     same_dims "cast" "y" y "x" x +++
     layout_is "cast" "y" y (tn_layout x) +++
     quant_is "cast" "y" y (tn_quant x) +++
     bad_placement "cast" "y" y (bool_decide (tn_placement y = tn_placement x)) +++
     class_is "cast" "y" y (tn_class x)).

Definition is_host (p : Placement.t) : bool :=
  match p with Placement.Host | Placement.Tiered => true | Placement.Device _ => false end.

Definition copy_placement (o : CopyOp) (x y : Tensor) : chk :=
  match co_kind o with
  | CopyKind.Contiguize =>
      bad_placement "copy" "y" y (bool_decide (tn_placement x = tn_placement y)) +++
      layout_is "copy" "y" y LayoutId.CONTIGUOUS
  | CopyKind.DeviceToDevice =>
      device_operand "copy" "x" x +++
      device_operand "copy" "y" y +++
      bad_placement "copy" "y" y
        (negb (is_device (tn_placement x) && is_device (tn_placement y)
               && bool_decide (tn_placement x = tn_placement y))) +++
      layout_is "copy" "y" y (tn_layout x)
  | CopyKind.HostToDevice =>
      bad_placement "copy" "x" x (is_host (tn_placement x)) +++
      device_operand "copy" "y" y +++
      layout_is "copy" "y" y (tn_layout x)
  | CopyKind.DeviceToHost =>
      device_operand "copy" "x" x +++
      bad_placement "copy" "y" y (is_host (tn_placement y)) +++
      layout_is "copy" "y" y (tn_layout x)
  end.

Definition copy_validate (o : CopyOp) : chk :=
  input_count "copy" inputs 1 +++
  output_count "copy" outputs 1 +++
  when (count_is inputs 1 && count_is outputs 1)
    (idx x := inputs at_index 0 in
     idx y := outputs at_index 0 in
     dtype_is "copy" "y" y (tn_dtype x) +++
     same_dims "copy" "y" y "x" x +++
     quant_is "copy" "y" y (tn_quant x) +++
     class_is "copy" "y" y (tn_class x) +++
     copy_placement o x y).

(** ** Row gathers and scatters *)

Definition gather_rows_validate : chk :=
  input_count "gather_rows" inputs 2 +++
  output_count "gather_rows" outputs 1 +++
  when (count_is inputs 2)
    (idx x := inputs at_index 0 in
     idx indices := inputs at_index 1 in
     check_rank "gather_rows" "x" x 2 +++
     check_dtype_in "gather_rows" "x" x floats +++
     class_is "gather_rows" "x" x TensorClass.Activation +++
     check_rank "gather_rows" "indices" indices 1 +++
     check_dtype_in "gather_rows" "indices" indices [DType.U32] +++
     class_is "gather_rows" "indices" indices TensorClass.Activation) +++
  when (count_is outputs 1)
    (idx y := outputs at_index 0 in
     check_rank "gather_rows" "y" y 2 +++
     class_is "gather_rows" "y" y TensorClass.Activation) +++
  when (count_is inputs 2 && count_is outputs 1)
    (idx x := inputs at_index 0 in
     idx indices := inputs at_index 1 in
     idx y := outputs at_index 0 in
     dtype_is "gather_rows" "y" y (tn_dtype x) +++
     when (is_rank indices 1 && is_rank y 2)
       (dims_match "gather_rows" "y" y 0 "indices" indices 0 "M") +++
     when (is_rank x 2 && is_rank y 2) (dims_match "gather_rows" "y" y 1 "x" x 1 "D")).

Definition scatter_add_rows_inputs : chk :=
  idx x := inputs at_index 0 in
  idx indices := inputs at_index 1 in
  check_rank "scatter_add_rows" "x" x 2 +++
  check_dtype_in "scatter_add_rows" "x" x floats +++
  class_is "scatter_add_rows" "x" x TensorClass.Activation +++
  check_rank "scatter_add_rows" "indices" indices 1 +++
  check_dtype_in "scatter_add_rows" "indices" indices [DType.U32] +++
  class_is "scatter_add_rows" "indices" indices TensorClass.Activation +++
  when (count_is inputs 3)
    (idx dest := inputs at_index 2 in
     check_rank "scatter_add_rows" "dest" dest 2 +++
     dtype_is "scatter_add_rows" "dest" dest (tn_dtype x) +++
     class_is "scatter_add_rows" "dest" dest TensorClass.Activation) +++
  when (is_rank x 2 && is_rank indices 1)
    (dims_match "scatter_add_rows" "x" x 0 "indices" indices 0 "M") +++
  when (count_is inputs 3)
    (idx dest := inputs at_index 2 in
     when (is_rank dest 2 && is_rank x 2) (dims_match "scatter_add_rows" "dest" dest 1 "x" x 1 "D")).

Definition scatter_add_rows_relations : chk :=
  idx x := inputs at_index 0 in
  idx y := outputs at_index 0 in
  dtype_is "scatter_add_rows" "y" y (tn_dtype x) +++
  when (is_rank x 2 && is_rank y 2) (dims_match "scatter_add_rows" "y" y 1 "x" x 1 "D") +++
  when (count_is inputs 3)
    (idx dest := inputs at_index 2 in
     when (is_rank dest 2 && is_rank y 2) (dims_match "scatter_add_rows" "y" y 0 "dest" dest 0 "N")).

Definition scatter_add_rows_validate : chk :=
  let input_count_valid := count_is inputs 2 || count_is inputs 3 in
  input_count_in "scatter_add_rows" inputs [2%nat; 3%nat] +++
  output_count "scatter_add_rows" outputs 1 +++
  when input_count_valid scatter_add_rows_inputs +++
  when (count_is outputs 1)
    (idx y := outputs at_index 0 in
     check_rank "scatter_add_rows" "y" y 2 +++
     class_is "scatter_add_rows" "y" y TensorClass.Activation) +++
  when (input_count_valid && count_is outputs 1) scatter_add_rows_relations.

(** ** Splits and concatenations of the last axis *)

Definition split_part (name : string) (t : Tensor) : chk :=
  check_rank "split" name t 3 +++
  check_dtype_in "split" name t floats +++
  class_is "split" name t TensorClass.Activation.

Definition split_inputs (o : SplitOp) : chk :=
  idx x := inputs at_index 0 in
  split_part "x" x +++
  when (is_rank x 3)
    (idx dd := tn_shape x at_index 2 in
     concrete dd (λ d, attr "split" "first" (d <=? sl_first o)
       (msg "split width {} must be < last-axis dim {d} so both outputs are non-empty"
          [Num (sl_first o); Num d]))).

Definition split_widths (o : SplitOp) (d da db : Z) : chk :=
  match checked_add U32_MAX da db with
  | Some sum => shape_problem "split" "a/b" (negb (sum =? d))
      (msg "output widths {da} + {db} = {sum} do not reconstruct input dim {d}" [Num da; Num db; Num sum; Num d])
  | None => shape_problem "split" "a/b" true (msg "output widths {da} + {db} overflow u32" [Num da; Num db])
  end +++
  shape_problem "split" "a" (negb (da =? sl_first o))
    (msg "first output width {da} does not match split attr first={}" [Num da; Num (sl_first o)]).

Definition split_relations (o : SplitOp) : chk :=
  idx x := inputs at_index 0 in
  idx a := outputs at_index 0 in
  idx b := outputs at_index 1 in
  dtype_is "split" "a" a (tn_dtype x) +++
  dtype_is "split" "b" b (tn_dtype x) +++
  when (is_rank x 3 && is_rank a 3 && is_rank b 3)
    (dims_match "split" "a" a 0 "x" x 0 "T" +++
     dims_match "split" "b" b 0 "x" x 0 "T" +++
     dims_match "split" "a" a 1 "x" x 1 "H" +++
     dims_match "split" "b" b 1 "x" x 1 "H" +++
     idx dx := tn_shape x at_index 2 in
     idx dna := tn_shape a at_index 2 in
     idx dnb := tn_shape b at_index 2 in
     concrete dx (λ d, concrete dna (λ da, concrete dnb (λ db, split_widths o d da db)))).

Definition split_validate (o : SplitOp) : chk :=
  attr "split" "first" (sl_first o =? 0) (msg "split width must be > 0 so both outputs are non-empty" []) +++
  input_count "split" inputs 1 +++
  output_count "split" outputs 2 +++
  when (count_is inputs 1) (split_inputs o) +++
  when (count_is outputs 2)
    (idx a := outputs at_index 0 in idx b := outputs at_index 1 in split_part "a" a +++ split_part "b" b) +++
  when (count_is inputs 1 && count_is outputs 2) (split_relations o).

Definition concat_part (name : string) (t : Tensor) : chk :=
  check_rank "concat" name t 3 +++
  check_dtype_in "concat" name t floats +++
  class_is "concat" name t TensorClass.Activation.

Definition concat_inputs : chk :=
  idx a := inputs at_index 0 in
  idx b := inputs at_index 1 in
  concat_part "a" a +++
  concat_part "b" b +++
  dtype_is "concat" "b" b (tn_dtype a) +++
  when (is_rank a 3 && is_rank b 3)
    (dims_match "concat" "b" b 0 "a" a 0 "T" +++ dims_match "concat" "b" b 1 "a" a 1 "H").

Definition concat_widths (da db dy : Z) : chk :=
  match checked_add U32_MAX da db with
  | Some sum => shape_problem "concat" "y" (negb (sum =? dy))
      (msg "input widths {da} + {db} = {sum} do not match output dim {dy}" [Num da; Num db; Num sum; Num dy])
  | None => shape_problem "concat" "y" true (msg "input widths {da} + {db} overflow u32" [Num da; Num db])
  end.

Definition concat_relations : chk :=
  idx a := inputs at_index 0 in
  idx b := inputs at_index 1 in
  idx y := outputs at_index 0 in
  dtype_is "concat" "y" y (tn_dtype a) +++
  when (is_rank a 3 && is_rank b 3 && is_rank y 3)
    (dims_match "concat" "y" y 0 "a" a 0 "T" +++
     dims_match "concat" "y" y 1 "a" a 1 "H" +++
     idx dna := tn_shape a at_index 2 in
     idx dnb := tn_shape b at_index 2 in
     idx dny := tn_shape y at_index 2 in
     concrete dna (λ da, concrete dnb (λ db, concrete dny (λ dy, concat_widths da db dy)))).

Definition concat_validate : chk :=
  input_count "concat" inputs 2 +++
  output_count "concat" outputs 1 +++
  when (count_is inputs 2) concat_inputs +++
  when (count_is outputs 1) (idx y := outputs at_index 0 in concat_part "y" y) +++
  when (count_is inputs 2 && count_is outputs 1) concat_relations.

End Signatures.
