(* ===== verification/OpMatmul.v ===== *)
(** * Signatures of matrix products and mixtures of experts

    The [validate] of each op of section 4.C of [crates/r9v-ir/src/op.rs].

    Signatures of normalization and elementwise ops: The [validate] of each op of section 4.B of [crates/r9v-ir/src/op.rs]:
    normalization, residual additions, activations, soft caps and rotary
    embedding. *)

From S2P Require Import Prelude Bytes Errors Ops OpCheck.

#[global] Open Scope Z_scope.

(** [0.0 == x], of either sign. *)
Definition f32_is_zero (x : f32) : bool := match x with S754_zero _ => true | _ => false end.

(** The [u32] sum of three sections. *)
Definition section_sum (s : Z * Z * Z) : option Z :=
  let '(a, b, c) := s in
  match checked_add U32_MAX 0 a with
  | Some x => match checked_add U32_MAX x b with Some y => checked_add U32_MAX y c | None => None end
  | None => None
  end.

Section Signatures.
Context (inputs outputs : list Tensor).

(** ** Normalization *)

Definition norm_attrs (o : NormOp) : chk :=
  attr "norm" "eps" (not_positive (nm_eps o)) (msg "must be finite and > 0, got {}" [Float (nm_eps o)]) +++
  out_dtype_attr "norm" (nm_out_dtype o) +++
  attr "norm" "weight_offset" (negb (is_finite (nm_weight_offset o)))
    (msg "must be finite, got {}" [Float (nm_weight_offset o)]) +++
  match nm_axis o with
  | NormAxis.Head d => attr "norm" "axis" (d =? 0) (msg "head dimension must be > 0" [])
  | NormAxis.Last => pass
  end +++
  input_count_in "norm" inputs [2%nat; 3%nat] +++
  output_count "norm" outputs 1.

Definition norm_parameter (name : string) (t : Tensor) : chk :=
  check_rank "norm" name t 1 +++
  check_dtype_in "norm" name t [DType.F32] +++
  class_among "norm" name t [TensorClass.Weight; TensorClass.Param] TensorClass.Weight.

Definition norm_inputs (o : NormOp) : chk :=
  idx x := inputs at_index 0 in
  idx weight := inputs at_index 1 in
  check_rank "norm" "x" x 2 +++
  check_dtype_in "norm" "x" x floats +++
  class_is "norm" "x" x TensorClass.Activation +++
  norm_parameter "weight" weight +++
  when (count_is inputs 3) (idx bias := inputs at_index 2 in norm_parameter "bias" bias) +++
  when (is_rank x 2 && is_rank weight 1)
    (dims_match "norm" "weight" weight 0 "x" x 1 "N" +++
     idx last_dim := tn_shape x at_index 1 in
     match nm_axis o, last_dim with
     | NormAxis.Head d, Dim.Concrete n =>
         shape_problem "norm" "x" ((0 <? d) && negb (n mod d =? 0))
           (msg "feature dim N={n} not divisible by head dim {d}" [Num n; Num d])
     | _, _ => pass
     end) +++
  when (count_is inputs 3)
    (idx bias := inputs at_index 2 in
     when (is_rank weight 1 && is_rank bias 1) (dims_match "norm" "bias" bias 0 "weight" weight 0 "N")).

Definition norm_outputs (o : NormOp) : chk :=
  idx y := outputs at_index 0 in
  check_rank "norm" "y" y 2 +++
  dtype_is "norm" "y" y (nm_out_dtype o) +++
  class_is "norm" "y" y TensorClass.Activation.

Definition norm_relations : chk :=
  idx x := inputs at_index 0 in
  idx y := outputs at_index 0 in
  when (is_rank x 2 && is_rank y 2)
    (dims_match "norm" "y" y 0 "x" x 0 "T" +++ dims_match "norm" "y" y 1 "x" x 1 "N").

Definition norm_validate (o : NormOp) : chk :=
  let input_count_valid := count_is inputs 2 || count_is inputs 3 in
  norm_attrs o +++
  when input_count_valid (norm_inputs o) +++
  when (count_is outputs 1) (norm_outputs o) +++
  when (input_count_valid && count_is outputs 1) norm_relations.

(** ** Residual addition *)

Definition residual_add_attrs (o : ResidualAddOp) : chk :=
  out_dtype_attr "residual_add" (ra_out_dtype o) +++
  attr "residual_add" "scale" (negb (is_finite (ra_scale o)) || f32_is_zero (ra_scale o))
    (msg "must be finite and non-zero, got {}" [Float (ra_scale o)]) +++
  input_count "residual_add" inputs 2 +++
  output_count "residual_add" outputs 1.

Definition residual_add_inputs : chk :=
  idx a := inputs at_index 0 in
  idx b := inputs at_index 1 in
  check_dtype_in "residual_add" "a" a floats +++
  class_is "residual_add" "a" a TensorClass.Activation +++
  check_dtype_in "residual_add" "b" b floats +++
  class_is "residual_add" "b" b TensorClass.Activation +++
  same_dims "residual_add" "b" b "a" a.

Definition residual_add_validate (o : ResidualAddOp) : chk :=
  residual_add_attrs o +++
  when (count_is inputs 2) residual_add_inputs +++
  when (count_is outputs 1)
    (idx y := outputs at_index 0 in
     dtype_is "residual_add" "y" y (ra_out_dtype o) +++
     class_is "residual_add" "y" y TensorClass.Activation) +++
  when (count_is inputs 2 && count_is outputs 1)
    (idx a := inputs at_index 0 in
     idx y := outputs at_index 0 in
     same_dims "residual_add" "y" y "a" a).

(** ** Activations *)

Definition clamp_attr (op : string) (clamp : option f32) : chk :=
  match clamp with
  | Some c => attr op "clamp" (not_positive c) (msg "must be finite and > 0, got {c}" [Float c])
  | None => pass
  end.

Definition act_mul_inputs : chk :=
  idx gate := inputs at_index 0 in
  idx up := inputs at_index 1 in
  check_rank "act_mul" "gate" gate 2 +++
  check_rank "act_mul" "up" up 2 +++
  check_dtype_in "act_mul" "gate" gate floats +++
  check_dtype_in "act_mul" "up" up floats +++
  dtype_is "act_mul" "up" up (tn_dtype gate) +++
  class_is "act_mul" "gate" gate TensorClass.Activation +++
  class_is "act_mul" "up" up TensorClass.Activation +++
  when (is_rank gate 2 && is_rank up 2)
    (dims_match "act_mul" "up" up 0 "gate" gate 0 "T" +++ dims_match "act_mul" "up" up 1 "gate" gate 1 "Dff").

Definition act_mul_validate (o : ActMulOp) : chk :=
  clamp_attr "act_mul" (am_clamp o) +++
  input_count "act_mul" inputs 2 +++
  output_count "act_mul" outputs 1 +++
  when (count_is inputs 2) act_mul_inputs +++
  when (count_is outputs 1)
    (idx y := outputs at_index 0 in
     check_rank "act_mul" "y" y 2 +++ class_is "act_mul" "y" y TensorClass.Activation) +++
  when (count_is inputs 2 && count_is outputs 1)
    (idx gate := inputs at_index 0 in
     idx y := outputs at_index 0 in
     dtype_is "act_mul" "y" y (tn_dtype gate) +++
     when (is_rank gate 2 && is_rank y 2)
       (dims_match "act_mul" "y" y 0 "gate" gate 0 "T" +++ dims_match "act_mul" "y" y 1 "gate" gate 1 "Dff")).

Definition activation_validate (o : ActivationOp) : chk :=
  clamp_attr "activation" (ac_clamp o) +++
  input_count "activation" inputs 1 +++
  output_count "activation" outputs 1 +++
  when (count_is inputs 1)
    (idx x := inputs at_index 0 in
     check_rank "activation" "x" x 2 +++
     check_dtype_in "activation" "x" x floats +++
     class_is "activation" "x" x TensorClass.Activation) +++
  when (count_is outputs 1)
    (idx y := outputs at_index 0 in
     check_rank "activation" "y" y 2 +++ class_is "activation" "y" y TensorClass.Activation) +++
  when (count_is inputs 1 && count_is outputs 1)
    (idx x := inputs at_index 0 in
     idx y := outputs at_index 0 in
     dtype_is "activation" "y" y (tn_dtype x) +++
     when (is_rank x 2 && is_rank y 2)
       (dims_match "activation" "y" y 0 "x" x 0 "T" +++ dims_match "activation" "y" y 1 "x" x 1 "Dff")).

Definition logit_softcap_validate (o : LogitSoftcapOp) : chk :=
  attr "logit_softcap" "cap" (not_positive (lc_cap o)) (msg "must be finite and > 0, got {}" [Float (lc_cap o)]) +++
  input_count "logit_softcap" inputs 1 +++
  output_count "logit_softcap" outputs 1 +++
  when (count_is inputs 1)
    (idx x := inputs at_index 0 in
     check_rank "logit_softcap" "x" x 2 +++
     check_dtype_in "logit_softcap" "x" x [DType.F32] +++
     class_is "logit_softcap" "x" x TensorClass.Activation) +++
  when (count_is outputs 1)
    (idx y := outputs at_index 0 in
     check_rank "logit_softcap" "y" y 2 +++
     check_dtype_in "logit_softcap" "y" y [DType.F32] +++
     class_is "logit_softcap" "y" y TensorClass.Activation) +++
  when (count_is inputs 1 && count_is outputs 1)
    (idx x := inputs at_index 0 in
     idx y := outputs at_index 0 in
     when (is_rank x 2 && is_rank y 2)
       (dims_match "logit_softcap" "y" y 0 "x" x 0 "T" +++ dims_match "logit_softcap" "y" y 1 "x" x 1 "V")).

(** ** Rotary embedding *)

Definition mrope_attrs (rot_dim : Z) (s : Z * Z * Z) : chk :=
  let '(a, b, c) := s in
  attr "rope" "mrope_sections" (bool_decide (0 ∈ [a; b; c])) (msg "mrope sections must be positive" []) +++
  attr "rope" "mrope_sections" (existsb (λ s, negb (s mod 2 =? 0)) [a; b; c])
    (msg "mrope section dimensions must be even" []) +++
  match section_sum s with
  | Some total => attr "rope" "mrope_sections" (rot_dim <? total)
      (msg "sum of mrope sections {total} exceeds rot_dim {}" [Num total; Num rot_dim])
  | None => attr "rope" "mrope_sections" true (msg "sum of mrope sections exceeds u32::MAX" [])
  end.

Definition positive_attr (attribute name : string) (x : f32) : chk :=
  attr "rope" attribute (not_positive x) (msg ("must be finite and > 0, got " ++ name) [Float x]).

Definition rope_scaling_attrs (s : RopeScaling.t) : chk :=
  match s with
  | RopeScaling.None | RopeScaling.Dynamic => pass
  | RopeScaling.Linear factor => positive_attr "scaling.factor" "{factor}" factor
  | RopeScaling.Yarn factor beta_fast beta_slow orig_ctx mscale =>
      positive_attr "scaling.factor" "{factor}" factor +++
      positive_attr "scaling.beta_fast" "{beta_fast}" beta_fast +++
      positive_attr "scaling.beta_slow" "{beta_slow}" beta_slow +++
      attr "rope" "scaling.beta_slow" (f32_lt beta_fast beta_slow)
        (msg "beta_slow ({beta_slow}) cannot exceed beta_fast ({beta_fast})" [Float beta_slow; Float beta_fast]) +++
      attr "rope" "scaling.orig_ctx" (orig_ctx =? 0) (msg "must be > 0" []) +++
      positive_attr "scaling.mscale" "{mscale}" mscale
  end.

Definition rope_attrs (o : RopeOp) : chk :=
  attr "rope" "rot_dim" ((ro_rot_dim o =? 0) || negb (ro_rot_dim o mod 2 =? 0))
    (msg "rot_dim must be positive and even, got {}" [Num (ro_rot_dim o)]) +++
  attr "rope" "theta" (not_positive (ro_theta o)) (msg "theta must be finite and > 0, got {}" [Float (ro_theta o)]) +++
  match ro_mrope_sections o with Some s => mrope_attrs (ro_rot_dim o) s | None => pass end +++
  out_dtype_attr "rope" (ro_out_dtype o) +++
  rope_scaling_attrs (ro_scaling o) +++
  input_count "rope" inputs 2 +++
  output_count "rope" outputs 1.

Definition rope_inputs (o : RopeOp) : chk :=
  idx x := inputs at_index 0 in
  idx positions := inputs at_index 1 in
  check_rank "rope" "x" x 3 +++
  check_dtype_in "rope" "x" x floats +++
  class_is "rope" "x" x TensorClass.Activation +++
  match ro_mrope_sections o with
  | Some _ =>
      check_rank "rope" "positions" positions 2 +++
      when (is_rank positions 2)
        (idx d := tn_shape positions at_index 1 in
         concrete d (λ width, shape_problem "rope" "positions" (negb (width =? 3))
           (msg "mrope position width must be 3, got {width}" [Num width])))
  | None => check_rank "rope" "positions" positions 1
  end +++
  check_dtype_in "rope" "positions" positions [DType.U32] +++
  class_is "rope" "positions" positions TensorClass.Activation +++
  when (is_rank x 3 && (is_rank positions 1 || is_rank positions 2))
    (dims_match "rope" "positions" positions 0 "x" x 0 "T") +++
  when (is_rank x 3)
    (idx dd := tn_shape x at_index 2 in
     concrete dd (λ d, attr "rope" "rot_dim" (d <? ro_rot_dim o)
       (msg "rot_dim {} exceeds head dim {}" [Num (ro_rot_dim o); Num d]))).

Definition rope_validate (o : RopeOp) : chk :=
  rope_attrs o +++
  when (count_is inputs 2) (rope_inputs o) +++
  when (count_is outputs 1)
    (idx x_prime := outputs at_index 0 in
     check_rank "rope" "x_prime" x_prime 3 +++
     dtype_is "rope" "x_prime" x_prime (ro_out_dtype o) +++
     class_is "rope" "x_prime" x_prime TensorClass.Activation) +++
  when (count_is inputs 2 && count_is outputs 1)
    (idx x := inputs at_index 0 in
     idx x_prime := outputs at_index 0 in
     when (is_rank x 3 && is_rank x_prime 3) (dims_from "rope" "x_prime" x_prime "x" x 0 3)).

End Signatures.

(** * Signatures of matrix products and mixtures of experts *)

Section MatmulSignatures.
Context (inputs outputs : list Tensor).

(** ** Matrix product *)

Definition matmul_input_count (o : MatmulOp) : nat :=
  match mm_epilogue o with Epilogue.Bias | Epilogue.Residual => 3 | Epilogue.None | Epilogue.Act _ => 2 end.

Definition matmul_epilogue_operand (o : MatmulOp) : chk :=
  match mm_epilogue o with
  | Epilogue.Bias =>
      idx bias := inputs at_index 2 in
      check_rank "matmul" "bias" bias 1 +++
      check_dtype_in "matmul" "bias" bias [DType.F32] +++
      class_is "matmul" "bias" bias TensorClass.Param
  | Epilogue.Residual =>
      idx residual := inputs at_index 2 in
      check_rank "matmul" "residual" residual 2 +++
      check_dtype_in "matmul" "residual" residual floats +++
      class_is "matmul" "residual" residual TensorClass.Activation
  | Epilogue.None | Epilogue.Act _ => pass
  end.

(** The axes of [w] that carry [K] and [N]. *)
Definition k_axis (o : MatmulOp) : nat := if mm_transpose_w o then 0 else 1.
Definition n_axis (o : MatmulOp) : nat := if mm_transpose_w o then 1 else 0.

Definition matmul_input_relations (o : MatmulOp) (x w : Tensor) : chk :=
  dims_match "matmul" "w" w (k_axis o) "x" x 1 "K" +++
  match mm_epilogue o with
  | Epilogue.Bias =>
      idx bias := inputs at_index 2 in
      when (is_rank bias 1) (dims_match "matmul" "bias" bias 0 "w" w (n_axis o) "N")
  | Epilogue.Residual =>
      idx residual := inputs at_index 2 in
      when (is_rank residual 2)
        (dims_match "matmul" "residual" residual 0 "x" x 0 "M" +++
         dims_match "matmul" "residual" residual 1 "w" w (n_axis o) "N")
  | Epilogue.None | Epilogue.Act _ => pass
  end.

Definition matmul_inputs (o : MatmulOp) : chk :=
  idx x := inputs at_index 0 in
  idx w := inputs at_index 1 in
  check_rank "matmul" "x" x 2 +++
  check_gemm_activation_operand "matmul" "x" x +++
  class_is "matmul" "x" x TensorClass.Activation +++
  check_rank "matmul" "w" w 2 +++
  check_gemm_weight_operand "matmul" "w" w +++
  class_is "matmul" "w" w TensorClass.Weight +++
  device_operand "matmul" "w" w +++
  matmul_epilogue_operand o +++
  when (is_rank x 2 && is_rank w 2) (matmul_input_relations o x w).

Definition matmul_outputs (o : MatmulOp) : chk :=
  idx y := outputs at_index 0 in
  check_rank "matmul" "y" y 2 +++
  dtype_is "matmul" "y" y (mm_out_dtype o) +++
  class_is "matmul" "y" y TensorClass.Activation.

Definition matmul_relations (o : MatmulOp) : chk :=
  idx x := inputs at_index 0 in
  idx w := inputs at_index 1 in
  idx y := outputs at_index 0 in
  when (is_rank x 2 && is_rank y 2) (dims_match "matmul" "y" y 0 "x" x 0 "M") +++
  when (is_rank w 2 && is_rank y 2) (dims_match "matmul" "y" y 1 "w" w (n_axis o) "N").

Definition matmul_validate (o : MatmulOp) : chk :=
  let input_count_valid := count_is inputs (matmul_input_count o) in
  out_dtype_attr "matmul" (mm_out_dtype o) +++
  input_count "matmul" inputs (matmul_input_count o) +++
  output_count "matmul" outputs 1 +++
  when input_count_valid (matmul_inputs o) +++
  when (count_is outputs 1) (matmul_outputs o) +++
  when (input_count_valid && count_is outputs 1) (matmul_relations o).

(** ** Expert routing *)

Definition moe_route_attrs (o : MoeRouteOp) : chk :=
  attr "moe_route" "top_k" (mr_top_k o =? 0) (msg "top_k must be > 0" []) +++
  attr "moe_route" "scale" (not_positive (mr_scale o))
    (msg "scale must be finite and > 0, got {}" [Float (mr_scale o)]) +++
  match mr_group o with
  | Some g =>
      attr "moe_route" "group.n_group" (mg_n_group g =? 0) (msg "n_group must be > 0" []) +++
      attr "moe_route" "group.topk_group" (mg_topk_group g =? 0) (msg "topk_group must be > 0" []) +++
      attr "moe_route" "group.topk_group" (mr_top_k o <? mg_topk_group g)
        (msg "topk_group {} cannot exceed top_k {}" [Num (mg_topk_group g); Num (mr_top_k o)])
  | None => pass
  end +++
  input_count_in "moe_route" inputs [1%nat; 2%nat] +++
  output_count "moe_route" outputs 2.

Definition moe_route_group (o : MoeRouteOp) (e : Z) : chk :=
  match mr_group o with
  | Some g =>
      when (0 <? mg_n_group g)
        (if negb (e mod mg_n_group g =? 0)
         then shape_problem "moe_route" "logits" true
                (msg "experts E={e} must be divisible by n_group={}" [Num e; Num (mg_n_group g)])
         else attr "moe_route" "topk_group" (e / mg_n_group g <? mg_topk_group g)
                (msg "topk_group {} exceeds experts per group {}"
                   [Num (mg_topk_group g); Num (e / mg_n_group g)]))
  | None => pass
  end.

Definition moe_route_inputs (o : MoeRouteOp) : chk :=
  idx logits := inputs at_index 0 in
  check_rank "moe_route" "logits" logits 2 +++
  check_dtype_in "moe_route" "logits" logits [DType.F32] +++
  class_is "moe_route" "logits" logits TensorClass.Activation +++
  when (count_is inputs 2)
    (idx bias := inputs at_index 1 in
     check_rank "moe_route" "bias" bias 1 +++
     check_dtype_in "moe_route" "bias" bias [DType.F32] +++
     class_is "moe_route" "bias" bias TensorClass.Param) +++
  when (is_rank logits 2)
    (idx de := tn_shape logits at_index 1 in
     concrete de (λ e,
       attr "moe_route" "top_k" (e <? mr_top_k o)
         (msg "top_k {} cannot exceed number of experts E={e}" [Num (mr_top_k o); Num e]) +++
       when (count_is inputs 2)
         (idx bias := inputs at_index 1 in
          when (is_rank bias 1) (dims_match "moe_route" "bias" bias 0 "logits" logits 1 "E")) +++
       moe_route_group o e)).

(** The last test reads axis 1 of [expert_ids] whatever its rank. *)
Definition moe_route_outputs (o : MoeRouteOp) : chk :=
  idx expert_ids := outputs at_index 0 in
  idx weights := outputs at_index 1 in
  check_rank "moe_route" "expert_ids" expert_ids 2 +++
  check_dtype_in "moe_route" "expert_ids" expert_ids [DType.U32] +++
  class_is "moe_route" "expert_ids" expert_ids TensorClass.Activation +++
  check_rank "moe_route" "weights" weights 2 +++
  check_dtype_in "moe_route" "weights" weights [DType.F32] +++
  class_is "moe_route" "weights" weights TensorClass.Activation +++
  when (is_rank expert_ids 2 && is_rank weights 2)
    (dims_match "moe_route" "weights" weights 0 "expert_ids" expert_ids 0 "T" +++
     dims_match "moe_route" "weights" weights 1 "expert_ids" expert_ids 1 "K") +++
  idx dk := tn_shape expert_ids at_index 1 in
  concrete dk (λ k, shape_problem "moe_route" "expert_ids" (negb (k =? mr_top_k o))
    (msg "axis 1 extent {k} != top_k {}" [Num k; Num (mr_top_k o)])).

Definition moe_route_relations : chk :=
  idx logits := inputs at_index 0 in
  idx expert_ids := outputs at_index 0 in
  when (is_rank logits 2 && is_rank expert_ids 2)
    (dims_match "moe_route" "expert_ids" expert_ids 0 "logits" logits 0 "T").

Definition moe_route_validate (o : MoeRouteOp) : chk :=
  let input_count_valid := count_is inputs 1 || count_is inputs 2 in
  moe_route_attrs o +++
  when input_count_valid (moe_route_inputs o) +++
  when (count_is outputs 2) (moe_route_outputs o) +++
  when (input_count_valid && count_is outputs 2) moe_route_relations.

(** ** Expert feed-forward *)

Definition expert_weight (name : string) (w : Tensor) : chk :=
  check_rank "moe_ffn" name w 3 +++
  check_gemm_weight_operand "moe_ffn" name w +++
  class_is "moe_ffn" name w TensorClass.Weight +++
  bad_placement "moe_ffn" name w
    (match tn_placement w with Placement.Device _ | Placement.Tiered => true | Placement.Host => false end).

Definition moe_ffn_operands : chk :=
  idx x := inputs at_index 0 in
  idx expert_ids := inputs at_index 1 in
  idx weights := inputs at_index 2 in
  idx w_gate_up := inputs at_index 3 in
  idx w_down := inputs at_index 4 in
  check_rank "moe_ffn" "x" x 2 +++
  check_gemm_activation_operand "moe_ffn" "x" x +++
  class_is "moe_ffn" "x" x TensorClass.Activation +++
  check_rank "moe_ffn" "expert_ids" expert_ids 2 +++
  check_dtype_in "moe_ffn" "expert_ids" expert_ids [DType.U32] +++
  class_is "moe_ffn" "expert_ids" expert_ids TensorClass.Activation +++
  check_rank "moe_ffn" "weights" weights 2 +++
  check_dtype_in "moe_ffn" "weights" weights [DType.F32] +++
  class_is "moe_ffn" "weights" weights TensorClass.Activation +++
  expert_weight "w_gate_up" w_gate_up +++
  expert_weight "w_down" w_down.

(** [2 * dff] as a [u32], against the rows of [w_gate_up]. *)
Definition gate_up_width (gu dff : Z) : chk :=
  shape_problem "moe_ffn" "w_gate_up" (bool_decide (checked_mul U32_MAX dff 2 ≠ Some gu))
    (msg "w_gate_up dim 1 extent {gu} != 2 * w_down dim 2 ({expected})"
       [Num gu; match checked_mul U32_MAX dff 2 with
                | Some v => Num v
                | None => Name "overflow (> u32::MAX)"
                end]).

Definition moe_ffn_input_relations : chk :=
  idx x := inputs at_index 0 in
  idx expert_ids := inputs at_index 1 in
  idx weights := inputs at_index 2 in
  idx w_gate_up := inputs at_index 3 in
  idx w_down := inputs at_index 4 in
  when (is_rank expert_ids 2 && is_rank x 2)
    (dims_match "moe_ffn" "expert_ids" expert_ids 0 "x" x 0 "T") +++
  when (is_rank weights 2 && is_rank x 2) (dims_match "moe_ffn" "weights" weights 0 "x" x 0 "T") +++
  when (is_rank expert_ids 2 && is_rank weights 2)
    (dims_match "moe_ffn" "expert_ids" expert_ids 1 "weights" weights 1 "K") +++
  when (is_rank w_gate_up 3 && is_rank x 2) (dims_match "moe_ffn" "w_gate_up" w_gate_up 2 "x" x 1 "Dm") +++
  when (is_rank w_down 3 && is_rank x 2) (dims_match "moe_ffn" "w_down" w_down 1 "x" x 1 "Dm") +++
  when (is_rank w_gate_up 3 && is_rank w_down 3)
    (dims_match "moe_ffn" "w_gate_up" w_gate_up 0 "w_down" w_down 0 "E" +++
     idx dg := tn_shape w_gate_up at_index 1 in
     idx dd := tn_shape w_down at_index 2 in
     concrete dg (λ gu, concrete dd (λ dff, gate_up_width gu dff))).

Definition moe_ffn_outputs (o : MoeFfnOp) : chk :=
  idx y := outputs at_index 0 in
  check_rank "moe_ffn" "y" y 2 +++
  dtype_is "moe_ffn" "y" y (mf_out_dtype o) +++
  class_is "moe_ffn" "y" y TensorClass.Activation.

Definition moe_ffn_relations : chk :=
  idx x := inputs at_index 0 in
  idx y := outputs at_index 0 in
  when (is_rank x 2 && is_rank y 2)
    (dims_match "moe_ffn" "y" y 0 "x" x 0 "T" +++ dims_match "moe_ffn" "y" y 1 "x" x 1 "Dm").

Definition moe_ffn_validate (o : MoeFfnOp) : chk :=
  out_dtype_attr "moe_ffn" (mf_out_dtype o) +++
  input_count "moe_ffn" inputs 5 +++
  output_count "moe_ffn" outputs 1 +++
  when (count_is inputs 5) (moe_ffn_operands +++ moe_ffn_input_relations) +++
  when (count_is outputs 1) (moe_ffn_outputs o) +++
  when (count_is inputs 5 && count_is outputs 1) moe_ffn_relations.

End MatmulSignatures.
