(* ===== verification/OpSample.v ===== *)
(** * Signatures of sampling and verification

    The [validate] of each op of section 4.F of [crates/r9v-ir/src/op.rs]:
    logits post-processing, sampling and draft verification.

    Signatures of the collectives: The [validate] of each op of section 4.G of [crates/r9v-ir/src/op.rs].

    Signatures of the stateful ops: The [validate] of each op of sections 4.D and 4.E of
    [crates/r9v-ir/src/op.rs]: cache writes, attention, causal convolution and
    the linear-attention scan.  They check each operand that is present,
    whatever the number of operands. *)

From S2P Require Import Prelude Bytes Errors Ops OpCheck.

#[global] Open Scope Z_scope.

Section StateSignatures.
Context (inputs outputs : list Tensor).

(** ** Cache writes *)

Definition state_write_kv_attrs (o : StateWriteKvOp) : chk :=
  attr "state_write_kv" "cache_dtype"
    (negb (match sw_cache_dtype o with DType.F16 | DType.I8 | DType.E4m3 => true | _ => false end))
    (msg "must be f16, i8, or e4m3; got {:?}" [Dtype (sw_cache_dtype o)]) +++
  match sw_latent o with
  | Some l =>
      attr "state_write_kv" "latent.kv_lora_rank" (ml_kv_lora_rank l =? 0) (msg "kv_lora_rank must be > 0" []) +++
      attr "state_write_kv" "latent.rope_dim" (ml_rope_dim l =? 0) (msg "rope_dim must be > 0" []) +++
      handle_is "state_write_kv" (sw_handle o) StateKind.KvLatent
  | None => handle_is "state_write_kv" (sw_handle o) StateKind.KvPaged
  end +++
  input_count "state_write_kv" inputs 2 +++
  output_count "state_write_kv" outputs 0.

Definition state_operand (op name : string) (t : Tensor) : chk :=
  check_rank op name t 3 +++
  check_dtype_in op name t floats +++
  class_is op name t TensorClass.Activation.

(** The combined latent, or the exact split pair. *)
Definition latent_pair (l : MlaLatent) (d0 d1 : Z) : bool :=
  bool_decide (checked_add U32_MAX (ml_kv_lora_rank l) (ml_rope_dim l) = Some d0)
  || ((d0 =? ml_kv_lora_rank l) && (d1 =? ml_rope_dim l)).

Definition latent_dims (l : MlaLatent) (k v : Tensor) : chk :=
  if is_rank k 3 && is_rank v 3
  then idx dk := tn_shape k at_index 2 in
       idx dv := tn_shape v at_index 2 in
       concrete dk (λ d0, concrete dv (λ d1,
         shape_problem "state_write_kv" "k/v" (negb (latent_pair l d0 d1))
           (msg "MLA latent dim {d0} / rotary dim {d1} must be the combined latent (rank {} + rope {}) or the exact split pair (latent {} / rotary {})"
              [Num d0; Num d1; Num (ml_kv_lora_rank l); Num (ml_rope_dim l); Num (ml_kv_lora_rank l);
               Num (ml_rope_dim l)])))
  else when (is_rank k 3)
         (idx dk := tn_shape k at_index 2 in
          concrete dk (λ d,
            shape_problem "state_write_kv" "k"
              (bool_decide (checked_add U32_MAX (ml_kv_lora_rank l) (ml_rope_dim l) ≠ Some d)
               && negb (d =? ml_kv_lora_rank l))
              (msg "latent dim {d} does not match MLA latent specs (rank {} + rope {} or rank {})"
                 [Num d; Num (ml_kv_lora_rank l); Num (ml_rope_dim l); Num (ml_kv_lora_rank l)]))).

Definition state_write_kv_relations (o : StateWriteKvOp) (k v : Tensor) : chk :=
  dtype_is "state_write_kv" "v" v (tn_dtype k) +++
  when (is_rank k 3 && is_rank v 3)
    (dims_match "state_write_kv" "v" v 0 "k" k 0 "T" +++ dims_match "state_write_kv" "v" v 1 "k" k 1 "Hkv") +++
  match sw_latent o with Some l => latent_dims l k v | None => pass end.

Definition state_write_kv_validate (o : StateWriteKvOp) : chk :=
  state_write_kv_attrs o +++
  (opt k := inputs at_index 0 in state_operand "state_write_kv" "k" k) +++
  (opt v := inputs at_index 1 in state_operand "state_write_kv" "v" v) +++
  opt k := inputs at_index 0 in
  opt v := inputs at_index 1 in
  state_write_kv_relations o k v.

(** ** Attention *)

Definition mla_attrs (m : MlaAttentionSpec) : chk :=
  attr "attention" "mla.kv_lora_rank" (ma_kv_lora_rank m =? 0) (msg "kv_lora_rank must be > 0" []) +++
  attr "attention" "mla.qk_nope_dim" (ma_qk_nope_dim m =? 0) (msg "qk_nope_dim must be > 0" []) +++
  attr "attention" "mla.qk_rope_dim" (ma_qk_rope_dim m =? 0) (msg "qk_rope_dim must be > 0" []) +++
  attr "attention" "mla.v_dim" (ma_v_dim m =? 0) (msg "v_dim must be > 0" []) +++
  attr "attention" "mla.q_lora_rank" (bool_decide (ma_q_lora_rank m = Some 0)) (msg "q_lora_rank must be > 0" []).

Definition attention_attrs (o : AttentionOp) : chk :=
  attr "attention" "softmax_scale" (not_positive (at_softmax_scale o))
    (msg "must be finite and > 0, got {}" [Float (at_softmax_scale o)]) +++
  out_dtype_attr "attention" (at_out_dtype o) +++
  match at_mask o with
  | AttentionMask.CausalWindow w => attr "attention" "mask" (w =? 0) (msg "causal window must be > 0" [])
  | AttentionMask.Causal | AttentionMask.Tree => pass
  end +++
  match at_logit_softcap o with
  | Some c => attr "attention" "logit_softcap" (not_positive c) (msg "must be finite and > 0, got {c}" [Float c])
  | None => pass
  end +++
  match at_mla o with
  | Some m => mla_attrs m +++ handle_is "attention" (at_handle o) StateKind.KvLatent
  | None => handle_is "attention" (at_handle o) StateKind.KvPaged
  end +++
  input_count "attention" inputs 1 +++
  output_count "attention" outputs 1.

Definition attention_query (o : AttentionOp) (q : Tensor) : chk :=
  state_operand "attention" "q" q +++
  match at_mla o with
  | Some m =>
      when (is_rank q 3)
        (idx d := tn_shape q at_index 2 in
         concrete d (λ qd,
           shape_problem "attention" "q"
             (bool_decide (checked_add U32_MAX (ma_qk_nope_dim m) (ma_qk_rope_dim m) ≠ Some qd))
             (msg "q head dim {qd} != qk_nope_dim({}) + qk_rope_dim({})"
                [Num qd; Num (ma_qk_nope_dim m); Num (ma_qk_rope_dim m)])))
  | None => pass
  end.

Definition attention_output (o : AttentionOp) (out : Tensor) : chk :=
  check_rank "attention" "o" out 3 +++
  dtype_is "attention" "o" out (at_out_dtype o) +++
  class_is "attention" "o" out TensorClass.Activation +++
  match at_mla o with
  | Some m =>
      when (is_rank out 3)
        (idx d := tn_shape out at_index 2 in
         concrete d (λ od, shape_problem "attention" "o" (negb (od =? ma_v_dim m))
           (msg "o head dim {od} != v_dim {}" [Num od; Num (ma_v_dim m)])))
  | None => pass
  end.

Definition attention_relations (o : AttentionOp) (q out : Tensor) : chk :=
  when (is_rank q 3 && is_rank out 3)
    (dims_match "attention" "o" out 0 "q" q 0 "T" +++
     dims_match "attention" "o" out 1 "q" q 1 "H" +++
     match at_mla o with
     | None => dims_match "attention" "o" out 2 "q" q 2 "D"
     | Some _ => pass
     end).

Definition attention_validate (o : AttentionOp) : chk :=
  attention_attrs o +++
  (opt q := inputs at_index 0 in attention_query o q) +++
  (opt out := outputs at_index 0 in attention_output o out) +++
  opt q := inputs at_index 0 in
  opt out := outputs at_index 0 in
  attention_relations o q out.

(** ** Causal convolution *)

Definition conv_attrs (o : CausalConv1dOp) : chk :=
  attr "causal_conv1d" "kernel" (cc_kernel o =? 0) (msg "kernel must be > 0" []) +++
  handle_is "causal_conv1d" (cc_handle o) StateKind.ConvWindow +++
  input_count_in "causal_conv1d" inputs [2%nat; 3%nat] +++
  output_count "causal_conv1d" outputs 1.

Definition conv_activation (name : string) (t : Tensor) : chk :=
  check_rank "causal_conv1d" name t 2 +++
  check_dtype_in "causal_conv1d" name t floats +++
  class_is "causal_conv1d" name t TensorClass.Activation.

Definition conv_weight (o : CausalConv1dOp) (w : Tensor) : chk :=
  check_rank "causal_conv1d" "w" w 2 +++
  check_dtype_in "causal_conv1d" "w" w [DType.F16; DType.Bf16; DType.F32; DType.I8; DType.I4] +++
  class_is "causal_conv1d" "w" w TensorClass.Weight +++
  when (is_rank w 2)
    (idx d := tn_shape w at_index 1 in
     concrete d (λ k, shape_problem "causal_conv1d" "w" (negb (k =? cc_kernel o))
       (msg "kernel width {k} != attr kernel {}" [Num k; Num (cc_kernel o)]))).

Definition conv_bias (bias : Tensor) : chk :=
  check_rank "causal_conv1d" "bias" bias 1 +++
  check_dtype_in "causal_conv1d" "bias" bias floats +++
  class_is "causal_conv1d" "bias" bias TensorClass.Param +++
  opt x := inputs at_index 0 in
  when (is_rank x 2 && is_rank bias 1) (dims_match "causal_conv1d" "bias" bias 0 "x" x 1 "C").

Definition causal_conv1d_validate (o : CausalConv1dOp) : chk :=
  conv_attrs o +++
  (opt x := inputs at_index 0 in conv_activation "x" x) +++
  (opt w := inputs at_index 1 in conv_weight o w) +++
  (opt x := inputs at_index 0 in
   opt w := inputs at_index 1 in
   when (is_rank x 2 && is_rank w 2) (dims_match "causal_conv1d" "w" w 0 "x" x 1 "C")) +++
  (opt bias := inputs at_index 2 in conv_bias bias) +++
  (opt y := outputs at_index 0 in conv_activation "y" y) +++
  opt x := inputs at_index 0 in
  opt y := outputs at_index 0 in
  dtype_is "causal_conv1d" "y" y (tn_dtype x) +++
  when (is_rank x 2 && is_rank y 2)
    (dims_match "causal_conv1d" "y" y 0 "x" x 0 "T" +++ dims_match "causal_conv1d" "y" y 1 "x" x 1 "C").

(** ** Linear-attention scan *)

Definition scan_attrs (o : LinearAttnScanOp) : chk :=
  attr "linear_attn_scan" "chunk" (la_chunk o =? 0) (msg "chunk must be > 0" []) +++
  out_dtype_attr "linear_attn_scan" (la_out_dtype o) +++
  handle_is "linear_attn_scan" (la_handle o) StateKind.Recurrent +++
  input_count "linear_attn_scan" inputs 5 +++
  output_count "linear_attn_scan" outputs 1.

(** [k] and [v] also have the element type of [q]. *)
Definition scan_operand (name : string) (t : Tensor) : chk :=
  state_operand "linear_attn_scan" name t +++
  opt q := inputs at_index 0 in
  dtype_is "linear_attn_scan" name t (tn_dtype q).

Definition scan_gate (name : string) (t : Tensor) : chk :=
  check_rank "linear_attn_scan" name t 2 +++
  check_dtype_in "linear_attn_scan" name t [DType.F32] +++
  class_is "linear_attn_scan" name t TensorClass.Activation.

Definition scan_operands : chk :=
  (opt q := inputs at_index 0 in state_operand "linear_attn_scan" "q" q) +++
  (opt k := inputs at_index 1 in scan_operand "k" k) +++
  (opt v := inputs at_index 2 in scan_operand "v" v) +++
  (opt alpha := inputs at_index 3 in scan_gate "alpha" alpha) +++
  opt beta := inputs at_index 4 in scan_gate "beta" beta.

Definition token_heads (name : string) (t q : Tensor) : chk :=
  dims_match "linear_attn_scan" name t 0 "q" q 0 "T" +++ dims_match "linear_attn_scan" name t 1 "q" q 1 "H".

Definition scan_relations (q : Tensor) : chk :=
  (opt k := inputs at_index 1 in
   when (is_rank q 3 && is_rank k 3)
     (token_heads "k" k q +++ dims_match "linear_attn_scan" "k" k 2 "q" q 2 "D")) +++
  (opt v := inputs at_index 2 in when (is_rank q 3 && is_rank v 3) (token_heads "v" v q)) +++
  (opt alpha := inputs at_index 3 in when (is_rank q 3 && is_rank alpha 2) (token_heads "alpha" alpha q)) +++
  opt beta := inputs at_index 4 in when (is_rank q 3 && is_rank beta 2) (token_heads "beta" beta q).

Definition scan_outputs (o : LinearAttnScanOp) : chk :=
  (opt out := outputs at_index 0 in
   check_rank "linear_attn_scan" "o" out 3 +++
   dtype_is "linear_attn_scan" "o" out (la_out_dtype o) +++
   class_is "linear_attn_scan" "o" out TensorClass.Activation) +++
  (opt q := inputs at_index 0 in
   opt out := outputs at_index 0 in
   when (is_rank q 3 && is_rank out 3) (token_heads "o" out q)) +++
  opt v := inputs at_index 2 in
  opt out := outputs at_index 0 in
  when (is_rank v 3 && is_rank out 3) (dims_match "linear_attn_scan" "o" out 2 "v" v 2 "Dv").

Definition linear_attn_scan_validate (o : LinearAttnScanOp) : chk :=
  scan_attrs o +++
  scan_operands +++
  (opt q := inputs at_index 0 in scan_relations q) +++
  scan_outputs o.

End StateSignatures.

(** * Signatures of sampling and verification *)

Section Signatures.
Context (inputs outputs : list Tensor).

(** ** Logits post-processing *)

Definition grammar_mask_operand (mask : Tensor) : chk :=
  check_rank "logits_postprocess" "grammar_mask" mask 3 +++
  check_dtype_in "logits_postprocess" "grammar_mask" mask [DType.Bool] +++
  class_is "logits_postprocess" "grammar_mask" mask TensorClass.Activation +++
  opt logits := inputs at_index 0 in
  when (is_rank logits 3 && is_rank mask 3)
    (dims_match "logits_postprocess" "grammar_mask" mask 0 "logits" logits 0 "S" +++
     dims_match "logits_postprocess" "grammar_mask" mask 1 "logits" logits 1 "q" +++
     dims_match "logits_postprocess" "grammar_mask" mask 2 "logits" logits 2 "V").

Definition history_operand (history : Tensor) : chk :=
  check_rank "logits_postprocess" "history_counts" history 2 +++
  check_dtype_in "logits_postprocess" "history_counts" history [DType.U32] +++
  class_is "logits_postprocess" "history_counts" history TensorClass.Activation +++
  opt logits := inputs at_index 0 in
  when (is_rank logits 3 && is_rank history 2)
    (dims_match "logits_postprocess" "history_counts" history 0 "logits" logits 0 "S" +++
     dims_match "logits_postprocess" "history_counts" history 1 "logits" logits 2 "V").

(** With two operands the second is a mask when it looks like one. *)
Definition optional_operands : chk :=
  if count_is inputs 2
  then idx second := inputs at_index 1 in
       if bool_decide (tn_dtype second = DType.Bool) || is_rank second 3
       then grammar_mask_operand second
       else history_operand second
  else when (count_is inputs 3)
         (idx history := inputs at_index 1 in
          idx mask := inputs at_index 2 in
          history_operand history +++ grammar_mask_operand mask).

Definition logits_operand (name : string) (t : Tensor) : chk :=
  check_rank "logits_postprocess" name t 3 +++
  check_dtype_in "logits_postprocess" name t [DType.F32] +++
  class_is "logits_postprocess" name t TensorClass.Activation.

Definition logits_postprocess_validate : chk :=
  input_count_in "logits_postprocess" inputs [1%nat; 2%nat; 3%nat] +++
  output_count "logits_postprocess" outputs 1 +++
  (opt logits := inputs at_index 0 in logits_operand "logits" logits) +++
  optional_operands +++
  (opt probs := outputs at_index 0 in logits_operand "probs" probs) +++
  opt logits := inputs at_index 0 in
  opt probs := outputs at_index 0 in
  when (is_rank logits 3 && is_rank probs 3)
    (dims_match "logits_postprocess" "probs" probs 0 "logits" logits 0 "S" +++
     dims_match "logits_postprocess" "probs" probs 1 "logits" logits 1 "q" +++
     dims_match "logits_postprocess" "probs" probs 2 "logits" logits 2 "V").

(** ** Sampling *)

Definition sample_validate (o : SampleOp) : chk :=
  input_count "sample" inputs 1 +++
  output_count "sample" outputs 1 +++
  (opt probs := inputs at_index 0 in
   check_rank "sample" "probs" probs 2 +++
   check_dtype_in "sample" "probs" probs [DType.F32] +++
   class_is "sample" "probs" probs TensorClass.Activation) +++
  (opt token := outputs at_index 0 in
   check_rank "sample" "token" token 1 +++
   check_dtype_in "sample" "token" token [DType.U32] +++
   class_is "sample" "token" token TensorClass.Activation) +++
  opt probs := inputs at_index 0 in
  opt token := outputs at_index 0 in
  when (is_rank probs 2 && is_rank token 1) (dims_match "sample" "token" token 0 "probs" probs 0 "S").

(** ** Draft verification *)

Definition verify_attrs (o : VerifyOp) : chk :=
  match ve_method o with
  | VerifyMethod.Rejection | VerifyMethod.Greedy => pass
  | VerifyMethod.TypicalAcceptance eps delta =>
      attr "verify" "method.eps" (not_positive eps) (msg "eps must be finite and > 0, got {eps}" [Float eps]) +++
      attr "verify" "method.delta" (not_positive delta)
        (msg "delta must be finite and > 0, got {delta}" [Float delta])
  end +++
  input_count_in "verify" inputs [2%nat; 3%nat] +++
  output_count "verify" outputs 2.

(** The optional draft probabilities come before the target ones. *)
Definition draft_probs_opt : option Tensor := if count_is inputs 3 then inputs !! 1%nat else None.
Definition target_probs_opt : option Tensor :=
  if count_is inputs 2 then inputs !! 1%nat else if count_is inputs 3 then inputs !! 2%nat else None.

(** Axis 1 of [t] is one more than axis 1 of [draft_tokens]. *)
Definition one_more (name : string) (draft_tokens t : Tensor) : chk :=
  idx dk := tn_shape draft_tokens at_index 1 in
  idx dt := tn_shape t at_index 1 in
  concrete dk (λ k, concrete dt (λ k1,
    shape_problem "verify" name (bool_decide (checked_add U32_MAX k 1 ≠ Some k1))
      (msg (name ++ " axis 1 extent {} != draft_tokens axis 1 + 1 ({})")
         [Num k1; match checked_add U32_MAX k 1 with
                  | Some e => Num e
                  | None => Name "overflow (> u32::MAX)"
                  end]))).

Definition verify_tokens (name : string) (t : Tensor) : chk :=
  check_rank "verify" name t 2 +++
  check_dtype_in "verify" name t [DType.U32] +++
  class_is "verify" name t TensorClass.Activation.

Definition verify_probs (name : string) (t : Tensor) : chk :=
  check_rank "verify" name t 3 +++
  check_dtype_in "verify" name t [DType.F32] +++
  class_is "verify" name t TensorClass.Activation.

Definition verify_target (target_probs : Tensor) : chk :=
  verify_probs "target_probs" target_probs +++
  opt draft_tokens := inputs at_index 0 in
  when (is_rank draft_tokens 2 && is_rank target_probs 3)
    (dims_match "verify" "target_probs" target_probs 0 "draft_tokens" draft_tokens 0 "S" +++
     one_more "target_probs" draft_tokens target_probs).

Definition verify_draft (draft_probs : Tensor) : chk :=
  verify_probs "draft_probs" draft_probs +++
  (opt draft_tokens := inputs at_index 0 in
   when (is_rank draft_tokens 2 && is_rank draft_probs 3)
     (dims_match "verify" "draft_probs" draft_probs 0 "draft_tokens" draft_tokens 0 "S" +++
      dims_match "verify" "draft_probs" draft_probs 1 "draft_tokens" draft_tokens 1 "k")) +++
  match target_probs_opt with
  | Some target_probs =>
      when (is_rank draft_probs 3 && is_rank target_probs 3)
        (dims_match "verify" "draft_probs" draft_probs 2 "target_probs" target_probs 2 "V")
  | None => pass
  end.

Definition verify_accepted (accepted : Tensor) : chk :=
  verify_tokens "accepted" accepted +++
  opt draft_tokens := inputs at_index 0 in
  when (is_rank draft_tokens 2 && is_rank accepted 2)
    (dims_match "verify" "accepted" accepted 0 "draft_tokens" draft_tokens 0 "S" +++
     one_more "accepted" draft_tokens accepted).

Definition verify_accept_len (accept_len : Tensor) : chk :=
  check_rank "verify" "accept_len" accept_len 1 +++
  check_dtype_in "verify" "accept_len" accept_len [DType.U32] +++
  class_is "verify" "accept_len" accept_len TensorClass.Activation +++
  opt draft_tokens := inputs at_index 0 in
  when (is_rank draft_tokens 2 && is_rank accept_len 1)
    (dims_match "verify" "accept_len" accept_len 0 "draft_tokens" draft_tokens 0 "S").

Definition verify_validate (o : VerifyOp) : chk :=
  verify_attrs o +++
  (opt draft_tokens := inputs at_index 0 in verify_tokens "draft_tokens" draft_tokens) +++
  match target_probs_opt with Some t => verify_target t | None => pass end +++
  match draft_probs_opt with Some t => verify_draft t | None => pass end +++
  (opt accepted := outputs at_index 0 in verify_accepted accepted) +++
  opt accept_len := outputs at_index 1 in verify_accept_len accept_len.

End Signatures.

(** * Signatures of the collectives *)

Section Signatures.
Context (inputs outputs : list Tensor).

Definition reduce_in_attr (op : string) (d : DType.t) : chk :=
  attr op "reduce_in" (bool_decide (d ≠ DType.F32)) (msg "must be f32 per Spec 1 §4.G, got {:?}" [Dtype d]).

(** The element type and class every operand of a collective has. *)
Definition exchanged (op name : string) (t : Tensor) (d : DType.t) : chk :=
  dtype_is op name t d +++ class_is op name t TensorClass.Activation.

Definition axis_attr (op : string) (axis : Z) (t : Tensor) : chk :=
  attr op "axis" (Z.of_nat (rank t) <=? axis)
    (msg "axis {} out of bounds for rank {}" [Num axis; Num (Z.of_nat (rank t))]).

Definition all_reduce_validate (o : AllReduceOp) : chk :=
  reduce_in_attr "all_reduce" (ar_reduce_in o) +++
  input_count "all_reduce" inputs 1 +++
  output_count "all_reduce" outputs 1 +++
  (opt x := inputs at_index 0 in exchanged "all_reduce" "x" x (ar_dtype o)) +++
  (opt y := outputs at_index 0 in exchanged "all_reduce" "y" y (ar_dtype o)) +++
  opt x := inputs at_index 0 in
  opt y := outputs at_index 0 in
  same_dims "all_reduce" "y" y "x" x.

(** The axes of [x] and [y] agree but for [axis], where [bad] refuses a pair
    of extents with the problem [detail]. *)
Fixpoint axes_from (op : string) (axis : Z) (bad : Z → Z → bool) (detail : Z → Z → Text) (x y : Tensor)
    (i n : nat) : chk :=
  match n with
  | O => pass
  | S n =>
      (if negb (Z.of_nat i =? axis) then dims_match op "y" y i "x" x i "dim"
       else idx dx := tn_shape x at_index i in
            idx dy := tn_shape y at_index i in
            concrete dx (λ x_dim, concrete dy (λ y_dim,
              shape_problem op "y" (bad x_dim y_dim) (detail x_dim y_dim)))) +++
      axes_from op axis bad detail x y (S i) n
  end.

Definition scaled_axes (op : string) (axis : Z) (bad : Z → Z → bool) (detail : Z → Z → Text) (x y : Tensor) : chk :=
  if negb (rank y =? rank x)%nat
  then push true (OpRankMismatch op "y" (rank x) (rank y))
  else axes_from op axis bad detail x y 0 (rank x).

(** [output] is a positive multiple of [input]. *)
Definition bad_gather (x_dim y_dim : Z) : bool :=
  (x_dim =? 0) || (y_dim <? x_dim) || negb (y_dim mod x_dim =? 0).
Definition bad_scatter (x_dim y_dim : Z) : bool :=
  (y_dim =? 0) || (x_dim <? y_dim) || negb (x_dim mod y_dim =? 0).

Definition all_gather_validate (o : AllGatherOp) : chk :=
  input_count "all_gather" inputs 1 +++
  output_count "all_gather" outputs 1 +++
  (opt x := inputs at_index 0 in
   exchanged "all_gather" "x" x (ag_dtype o) +++ axis_attr "all_gather" (ag_axis o) x) +++
  (opt y := outputs at_index 0 in
   exchanged "all_gather" "y" y (ag_dtype o) +++
   when (count_is inputs 0) (axis_attr "all_gather" (ag_axis o) y)) +++
  opt x := inputs at_index 0 in
  opt y := outputs at_index 0 in
  scaled_axes "all_gather" (ag_axis o) bad_gather
    (λ x_dim y_dim,
       msg "gathered axis {} output extent {y_dim} is not a valid non-zero multiple of input extent {x_dim}"
         [Num (ag_axis o); Num y_dim; Num x_dim]) x y.

Definition reduce_scatter_validate (o : ReduceScatterOp) : chk :=
  reduce_in_attr "reduce_scatter" (rs_reduce_in o) +++
  input_count "reduce_scatter" inputs 1 +++
  output_count "reduce_scatter" outputs 1 +++
  (opt x := inputs at_index 0 in
   exchanged "reduce_scatter" "x" x (rs_dtype o) +++ axis_attr "reduce_scatter" (rs_axis o) x) +++
  (opt y := outputs at_index 0 in
   exchanged "reduce_scatter" "y" y (rs_dtype o) +++
   when (count_is inputs 0) (axis_attr "reduce_scatter" (rs_axis o) y)) +++
  opt x := inputs at_index 0 in
  opt y := outputs at_index 0 in
  scaled_axes "reduce_scatter" (rs_axis o) bad_scatter
    (λ x_dim y_dim,
       msg "scattered axis {} output extent {y_dim} is not a valid non-zero divisor of input extent {x_dim}"
         [Num (rs_axis o); Num y_dim; Num x_dim]) x y.

Definition all_to_all_validate (o : AllToAllOp) : chk :=
  input_count "all_to_all" inputs 2 +++
  output_count "all_to_all" outputs 1 +++
  (opt x := inputs at_index 0 in exchanged "all_to_all" "x" x (aa_dtype o)) +++
  (opt counts := inputs at_index 1 in
   check_rank "all_to_all" "counts" counts 1 +++
   check_dtype_in "all_to_all" "counts" counts [DType.U32] +++
   class_is "all_to_all" "counts" counts TensorClass.Activation) +++
  (opt y := outputs at_index 0 in exchanged "all_to_all" "y" y (aa_dtype o)) +++
  opt x := inputs at_index 0 in
  opt y := outputs at_index 0 in
  if negb (rank y =? rank x)%nat
  then push true (OpRankMismatch "all_to_all" "y" (rank x) (rank y))
  else when (2 <=? rank x)%nat (dims_from "all_to_all" "y" y "x" x 1 (rank x - 1)).

Definition send_validate (o : SendOp) : chk :=
  input_count "send" inputs 1 +++
  output_count "send" outputs 0 +++
  opt x := inputs at_index 0 in exchanged "send" "x" x (sd_dtype o).

(** The dimensions of [y] against the declared shape, from axis [i]. *)
Fixpoint recv_dims (y : Tensor) (shape : list Dim.t) (i : nat) : chk :=
  match shape with
  | [] => pass
  | d :: shape =>
      (idx dy := tn_shape y at_index i in check_dim_match "recv" "y" dy "attr.shape" d "dim") +++
      recv_dims y shape (S i)
  end.

Definition recv_validate (o : RecvOp) : chk :=
  input_count "recv" inputs 0 +++
  output_count "recv" outputs 1 +++
  opt y := outputs at_index 0 in
  exchanged "recv" "y" y (rv_dtype o) +++
  (if negb (rank y =? length (rv_shape o))%nat
   then push true (OpRankMismatch "recv" "y" (length (rv_shape o)) (rank y))
   else recv_dims y (rv_shape o) 0).

Definition barrier_validate (o : BarrierOp) : chk :=
  input_count "barrier" inputs 0 +++ output_count "barrier" outputs 0.

End Signatures.
