(* ===== verification/OpValidate.v ===== *)
(** * Op validation

    [Op::validate] of [crates/r9v-ir/src/op.rs]: the dispatch over the closed
    catalog.  On tensors [Tensor::new] accepted, no [validate] reads a slice out
    of range, but for one: [moe_route] reads axis 1 of [expert_ids] without
    testing its rank.

    The typing rule of the matrix product: [validate] as a type checker: on shapes without symbols, which is what a
    captured graph holds, [MatmulOp::validate] accepts exactly the operands the
    documented signature [x [M, K], w [N, K], bias? [N] f32 -> y [M, N]] allows.
    [clean] reads a check that pushes nothing as the condition it tests. *)

From S2P Require Import Prelude Bytes Errors Ops OpCheck OpMove OpMatmul OpSample.

#[global] Open Scope Z_scope.

Definition op_checks (op : Op.t) (inputs outputs : list Tensor) : chk :=
  match op with
  | Op.EmbedGather o => embed_gather_validate inputs outputs o
  | Op.NgramGather o => ngram_gather_validate inputs outputs o
  | Op.QuantAct o => quant_act_validate inputs outputs o
  | Op.Cast o => cast_validate inputs outputs o
  | Op.Copy o => copy_validate inputs outputs o
  | Op.GatherRows => gather_rows_validate inputs outputs
  | Op.ScatterAddRows => scatter_add_rows_validate inputs outputs
  | Op.Split o => split_validate inputs outputs o
  | Op.Concat => concat_validate inputs outputs
  | Op.Norm o => norm_validate inputs outputs o
  | Op.ResidualAdd o => residual_add_validate inputs outputs o
  | Op.ActMul o => act_mul_validate inputs outputs o
  | Op.Activation o => activation_validate inputs outputs o
  | Op.LogitSoftcap o => logit_softcap_validate inputs outputs o
  | Op.Rope o => rope_validate inputs outputs o
  | Op.Matmul o => matmul_validate inputs outputs o
  | Op.MoeRoute o => moe_route_validate inputs outputs o
  | Op.MoeFfn o => moe_ffn_validate inputs outputs o
  | Op.StateWriteKv o => state_write_kv_validate inputs outputs o
  | Op.Attention o => attention_validate inputs outputs o
  | Op.CausalConv1d o => causal_conv1d_validate inputs outputs o
  | Op.LinearAttnScan o => linear_attn_scan_validate inputs outputs o
  | Op.LogitsPostprocess => logits_postprocess_validate inputs outputs
  | Op.Sample o => sample_validate inputs outputs o
  | Op.Verify o => verify_validate inputs outputs o
  | Op.AllReduce o => all_reduce_validate inputs outputs o
  | Op.AllGather o => all_gather_validate inputs outputs o
  | Op.ReduceScatter o => reduce_scatter_validate inputs outputs o
  | Op.AllToAll o => all_to_all_validate inputs outputs o
  | Op.Send o => send_validate inputs outputs o
  | Op.Recv o => recv_validate inputs outputs o
  | Op.Barrier o => barrier_validate inputs outputs o
  end.

Definition op_validate (op : Op.t) (inputs outputs : list Tensor) : outcome IrError unit :=
  finish (op_checks op inputs outputs).

(** ** No op but one panics *)

Section Safe.
Context (inputs outputs : list Tensor) (Hin : Forall tensor_ok inputs) (Hout : Forall tensor_ok outputs).

Lemma embed_gather_safe o : safe (embed_gather_validate inputs outputs o).
Proof.
  unfold embed_gather_validate, embed_gather_attrs, embed_gather_inputs, embed_gather_outputs,
    embed_gather_relations. check_safe.
Qed.

Lemma ngram_width_safe o a b : safe (ngram_width o a b).
Proof. unfold ngram_width. check_safe. Qed.
#[local] Hint Resolve ngram_width_safe : check_safe.

Lemma ngram_gather_safe o : safe (ngram_gather_validate inputs outputs o).
Proof.
  unfold ngram_gather_validate, ngram_gather_attrs, ngram_staged_inputs, ngram_device_inputs,
    ngram_gather_outputs, ngram_gather_relations. check_safe.
Qed.

Lemma quant_act_safe o : safe (quant_act_validate inputs outputs o).
Proof.
  unfold quant_act_validate, quant_act_attrs, quant_act_inputs, quant_act_outputs, quant_act_relations.
  check_safe.
Qed.

Lemma cast_safe o : safe (cast_validate inputs outputs o).
Proof. unfold cast_validate. check_safe. Qed.

Lemma copy_safe o : safe (copy_validate inputs outputs o).
Proof. unfold copy_validate, copy_placement. check_safe. Qed.

Lemma gather_rows_safe : safe (gather_rows_validate inputs outputs).
Proof. unfold gather_rows_validate. check_safe. Qed.

Lemma scatter_add_rows_safe : safe (scatter_add_rows_validate inputs outputs).
Proof.
  unfold scatter_add_rows_validate, scatter_add_rows_inputs, scatter_add_rows_relations. check_safe.
Qed.

Lemma split_safe o : safe (split_validate inputs outputs o).
Proof. unfold split_validate, split_inputs, split_relations, split_part, split_widths. check_safe. Qed.

Lemma concat_safe : safe (concat_validate inputs outputs).
Proof. unfold concat_validate, concat_inputs, concat_relations, concat_part, concat_widths. check_safe. Qed.

Lemma norm_safe o : safe (norm_validate inputs outputs o).
Proof.
  unfold norm_validate, norm_attrs, norm_inputs, norm_outputs, norm_relations, norm_parameter. check_safe.
Qed.

Lemma residual_add_safe o : safe (residual_add_validate inputs outputs o).
Proof. unfold residual_add_validate, residual_add_attrs, residual_add_inputs. check_safe. Qed.

Lemma act_mul_safe o : safe (act_mul_validate inputs outputs o).
Proof. unfold act_mul_validate, act_mul_inputs, clamp_attr. check_safe. Qed.

Lemma activation_safe o : safe (activation_validate inputs outputs o).
Proof. unfold activation_validate, clamp_attr. check_safe. Qed.

Lemma logit_softcap_safe o : safe (logit_softcap_validate inputs outputs o).
Proof. unfold logit_softcap_validate. check_safe. Qed.

Lemma rope_safe o : safe (rope_validate inputs outputs o).
Proof.
  unfold rope_validate, rope_attrs, rope_inputs, mrope_attrs, rope_scaling_attrs. check_safe.
Qed.

Lemma matmul_safe o : safe (matmul_validate inputs outputs o).
Proof.
  unfold matmul_validate, matmul_inputs, matmul_outputs, matmul_relations, matmul_epilogue_operand,
    matmul_input_relations, matmul_input_count, k_axis, n_axis.
  destruct (mm_epilogue o), (mm_transpose_w o); check_safe.
Qed.

Lemma moe_ffn_safe o : safe (moe_ffn_validate inputs outputs o).
Proof.
  unfold moe_ffn_validate, moe_ffn_operands, moe_ffn_input_relations, moe_ffn_outputs, moe_ffn_relations,
    expert_weight. check_safe.
Qed.

Lemma state_write_kv_safe o : safe (state_write_kv_validate inputs outputs o).
Proof.
  unfold state_write_kv_validate, state_write_kv_attrs, state_operand, state_write_kv_relations, latent_dims.
  check_safe.
Qed.

Lemma attention_safe o : safe (attention_validate inputs outputs o).
Proof.
  unfold attention_validate, attention_attrs, mla_attrs, attention_query, attention_output,
    attention_relations, state_operand. check_safe.
Qed.

Lemma causal_conv1d_safe o : safe (causal_conv1d_validate inputs outputs o).
Proof.
  unfold causal_conv1d_validate, conv_attrs, conv_activation, conv_weight, conv_bias. check_safe.
Qed.

Lemma linear_attn_scan_safe o : safe (linear_attn_scan_validate inputs outputs o).
Proof.
  unfold linear_attn_scan_validate, scan_attrs, scan_operands, scan_operand, scan_gate, scan_relations,
    scan_outputs, token_heads, state_operand. check_safe.
Qed.

Lemma logits_postprocess_safe : safe (logits_postprocess_validate inputs outputs).
Proof.
  unfold logits_postprocess_validate, optional_operands, grammar_mask_operand, history_operand, logits_operand.
  check_safe.
Qed.

Lemma sample_safe o : safe (sample_validate inputs outputs o).
Proof. unfold sample_validate. check_safe. Qed.

Lemma verify_safe o : safe (verify_validate inputs outputs o).
Proof.
  unfold verify_validate, verify_attrs, verify_tokens, verify_target, verify_draft, verify_accepted,
    verify_accept_len, verify_probs, one_more, target_probs_opt. check_safe.
Qed.

Lemma all_reduce_safe o : safe (all_reduce_validate inputs outputs o).
Proof. unfold all_reduce_validate, exchanged. check_safe. Qed.

Lemma axes_from_safe op axis bad detail x y i n :
  (i + n ≤ rank x)%nat → (i + n ≤ rank y)%nat → safe (axes_from op axis bad detail x y i n).
Proof.
  revert i. induction n as [|n IH]; intros i Hx Hy; [done|].
  cbn [axes_from]. apply safe_both. split; [check_safe|apply IH; lia].
Qed.

Lemma scaled_axes_safe op axis bad detail x y : safe (scaled_axes op axis bad detail x y).
Proof.
  unfold scaled_axes. destruct (Nat.eqb_spec (rank y) (rank x)); simpl; [|done].
  apply axes_from_safe; lia.
Qed.
#[local] Hint Resolve scaled_axes_safe : check_safe.

Lemma all_gather_safe o : safe (all_gather_validate inputs outputs o).
Proof. unfold all_gather_validate, exchanged. check_safe. Qed.

Lemma reduce_scatter_safe o : safe (reduce_scatter_validate inputs outputs o).
Proof. unfold reduce_scatter_validate, exchanged. check_safe. Qed.

Lemma all_to_all_safe o : safe (all_to_all_validate inputs outputs o).
Proof.
  unfold all_to_all_validate, exchanged. check_safe.
  apply negb_false_iff, Nat.eqb_eq in Heqb. apply Nat.leb_le in H1. check_safe.
Qed.

Lemma send_safe o : safe (send_validate inputs outputs o).
Proof. unfold send_validate, exchanged. check_safe. Qed.

Lemma recv_dims_safe y shape i : (i + length shape ≤ rank y)%nat → safe (recv_dims y shape i).
Proof.
  revert i. induction shape as [|d shape IH]; intros i Hi; [done|]. cbn [recv_dims length] in *.
  apply safe_both. split; [check_safe|apply IH; lia].
Qed.

Lemma recv_safe o : safe (recv_validate inputs outputs o).
Proof.
  unfold recv_validate, exchanged. check_safe.
  apply recv_dims_safe. apply negb_false_iff, Nat.eqb_eq in Heqb. lia.
Qed.

Lemma moe_route_safe o :
  safe (moe_route_validate inputs outputs o) ↔
  ¬ ∃ expert_ids weights, outputs = [expert_ids; weights] ∧ rank expert_ids = 1%nat.
Proof.
  unfold moe_route_validate. rewrite !safe_both. split.
  - intros (_ & _ & Hs & _) (e & w & -> & Hr). rewrite safe_when in Hs. specialize (Hs eq_refl).
    unfold moe_route_outputs in Hs. apply safe_index in Hs as (e' & [= <-] & Hs).
    apply safe_index in Hs as (w' & [= <-] & Hs). rewrite !safe_both, safe_index in Hs.
    destruct Hs as (_ & _ & _ & _ & _ & _ & _ & d & Hd & _). apply lookup_lt_Some in Hd. unfold rank in Hr. lia.
  - intros Hn. unfold moe_route_attrs, moe_route_inputs, moe_route_relations, moe_route_group.
    repeat split; try solve [check_safe]. apply safe_when. intros Hc. guard_facts.
    destruct outputs as [|e [|w [|]]]; try done. unfold moe_route_outputs.
    assert (2 ≤ rank e)%nat.
    { assert (rank e ≠ 1)%nat by (intros ?; apply Hn; eauto).
      apply Forall_cons in Hout as [[? _] _]. lia. }
    apply safe_index. exists e. split; [done|]. cbv beta. apply safe_index. exists w. split; [done|]. cbv beta. check_safe.
Qed.

End Safe.

(** C24: validating an op against tensors [Tensor::new] accepted reads no slice
    out of range, whatever the number, ranks and types of the operands, except
    in one case: [moe_route] with two outputs of which the first,
    [expert_ids], has rank 1.  There [validate] panics at
    [expert_ids.shape()[1]] instead of reporting the rank it has just found
    wrong. *)
Theorem op_validate_panics_exactly op inputs outputs :
  Forall tensor_ok inputs → Forall tensor_ok outputs →
  op_validate op inputs outputs = Panic ↔
  ∃ o expert_ids weights, op = Op.MoeRoute o ∧ outputs = [expert_ids; weights] ∧ rank expert_ids = 1%nat.
Proof.
  intros Hin Hout. unfold op_validate. rewrite finish_panic.
  destruct op; simpl.
  all: try (split; [intros Hs; exfalso; apply Hs|intros (? & ? & ? & [=] & _)];
    eauto using embed_gather_safe, ngram_gather_safe, quant_act_safe, cast_safe, copy_safe, gather_rows_safe,
      scatter_add_rows_safe, split_safe, concat_safe, norm_safe, residual_add_safe, act_mul_safe, activation_safe,
      logit_softcap_safe, rope_safe, matmul_safe, moe_ffn_safe, state_write_kv_safe, attention_safe,
      causal_conv1d_safe, linear_attn_scan_safe, logits_postprocess_safe, sample_safe, verify_safe,
      all_reduce_safe, all_gather_safe, reduce_scatter_safe, all_to_all_safe, send_safe, recv_safe; done).
  rewrite moe_route_safe by done. split; [|naive_solver].
  intros Hn. destruct outputs as [|e [|w [|]]].
  1,2,4: by exfalso; apply Hn; intros (? & ? & [=] & _).
  destruct (decide (rank e = 1%nat)); [by eauto 8|]. exfalso. apply Hn. by intros (? & ? & [= <- <-] & ?).
Qed.

Definition demo_tensor (shape : list Dim.t) (d : DType.t) : Tensor :=
  {| tn_shape := shape; tn_dtype := d; tn_quant := QuantScheme.None; tn_layout := LayoutId.CONTIGUOUS;
     tn_placement := Placement.Device 0; tn_sharding := ShardLayout.Replicated;
     tn_class := TensorClass.Activation |}.

Lemma op_validate_panics_exactly_witness :
  op_validate
    (Op.MoeRoute {| mr_top_k := 2; mr_scoring := MoeScoring.Softmax; mr_renormalize := true;
                    mr_group := None; mr_scale := f32_of_Z 1 |})
    [demo_tensor [Dim.Concrete 4; Dim.Concrete 8] DType.F32]
    [demo_tensor [Dim.Concrete 4] DType.U32; demo_tensor [Dim.Concrete 4; Dim.Concrete 2] DType.F32] = Panic.
Proof.
  apply op_validate_panics_exactly.
  - apply Forall_cons; split; [by apply tensor_problems_nil|done].
  - repeat (apply Forall_cons; split); [by apply tensor_problems_nil..|done].
  - by eexists _, _, _.
Defined.

(** * The typing rule of the matrix product *)

Definition clean (c : chk) : Prop := c = Some [].

Lemma finish_Ok c : finish c = Ok tt ↔ clean c.
Proof.
  unfold clean. destruct c as [p|]; simpl; [|naive_solver].
  rewrite from_problems_Ok. naive_solver.
Qed.

Lemma clean_push b e : clean (push b e) ↔ b = false.
Proof. unfold clean, push. destruct b; naive_solver. Qed.

Lemma clean_both a b : clean (a +++ b) ↔ clean a ∧ clean b.
Proof.
  unfold clean. destruct a as [p|], b as [q|]; simpl; try naive_solver.
  split; [intros [= [-> ->]%app_nil]; done|intros [[= ->] [= ->]]; done].
Qed.

Lemma clean_when b c : clean (when b c) ↔ (b = true → clean c).
Proof. unfold clean. destruct b; simpl; naive_solver. Qed.

Lemma clean_index {A} (l : list A) i k : clean (index l i k) ↔ ∃ x, l !! i = Some x ∧ clean (k x).
Proof. unfold clean, index. destruct (l !! i); naive_solver. Qed.

Lemma clean_pass : clean pass ↔ True.
Proof. done. Qed.

Lemma clean_class op name t c : clean (class_is op name t c) ↔ tn_class t = c.
Proof. unfold class_is. rewrite clean_push, bool_decide_eq_false. split; [apply dec_stable|naive_solver]. Qed.

Lemma clean_dtype op name t d : clean (dtype_is op name t d) ↔ tn_dtype t = d.
Proof. unfold dtype_is. rewrite clean_push, bool_decide_eq_false. split; [apply dec_stable|naive_solver]. Qed.

Lemma clean_dtype_in op name t l : clean (check_dtype_in op name t l) ↔ tn_dtype t ∈ l.
Proof. unfold check_dtype_in. rewrite clean_push, bool_decide_eq_false. split; [apply dec_stable|naive_solver]. Qed.

Lemma clean_rank op name t n : clean (check_rank op name t n) ↔ rank t = n.
Proof. unfold check_rank. by rewrite clean_push, negb_false_iff, is_rank_true. Qed.

Lemma clean_placement op name t b : clean (bad_placement op name t b) ↔ b = true.
Proof. unfold bad_placement. by rewrite clean_push, negb_false_iff. Qed.

Lemma clean_quant op name t b : clean (bad_quant op name t b) ↔ b = true.
Proof. unfold bad_quant. by rewrite clean_push, negb_false_iff. Qed.

Lemma clean_input_count op ts n : clean (input_count op ts n) ↔ length ts = n.
Proof. unfold input_count. by rewrite clean_push, negb_false_iff, count_is_true. Qed.

Lemma clean_output_count op ts n : clean (output_count op ts n) ↔ length ts = n.
Proof. unfold output_count. by rewrite clean_push, negb_false_iff, count_is_true. Qed.

Lemma clean_out_dtype op d : clean (out_dtype_attr op d) ↔ float_dtype d = true.
Proof. unfold out_dtype_attr, attr. by rewrite clean_push, negb_false_iff. Qed.

Lemma clean_device op name t : clean (device_operand op name t) ↔ ∃ r, tn_placement t = Placement.Device r.
Proof. unfold device_operand. rewrite clean_placement. destruct (tn_placement t); naive_solver. Qed.

(** ** Shapes without symbols *)

Definition has_dims (t : Tensor) (dims : list Z) : Prop := tn_shape t = Dim.Concrete <$> dims.

Definition is_concrete (t : Tensor) : Prop := ∃ dims, has_dims t dims.

Lemma has_dims_rank t dims : has_dims t dims → rank t = length dims.
Proof. unfold has_dims, rank. intros ->. apply length_fmap. Qed.

#[export] Instance Concrete_inj : Inj (=) (=) Dim.Concrete.
Proof. by intros a b [= ->]. Qed.

Lemma has_dims_inj t l1 l2 : has_dims t l1 → has_dims t l2 → l1 = l2.
Proof. unfold has_dims. intros ->. by intros H%(inj (fmap Dim.Concrete)). Qed.

Lemma clean_dim_match op n1 a n2 b axis :
  clean (check_dim_match op n1 (Dim.Concrete a) n2 (Dim.Concrete b) axis) ↔ a = b.
Proof. unfold check_dim_match. by rewrite clean_push, negb_false_iff, Z.eqb_eq. Qed.

Lemma clean_dims_match op n1 t1 i n2 t2 j axis l1 l2 :
  has_dims t1 l1 → has_dims t2 l2 →
  clean (dims_match op n1 t1 i n2 t2 j axis) ↔ ∃ a, l1 !! i = Some a ∧ l2 !! j = Some a.
Proof.
  intros H1 H2. unfold dims_match. rewrite H1, H2. setoid_rewrite clean_index. setoid_rewrite clean_index.
  setoid_rewrite list_lookup_fmap. split.
  - intros (d1 & (a & Ha & ->)%fmap_Some_1 & d2 & (b & Hb & ->)%fmap_Some_1 & Hc).
    apply clean_dim_match in Hc as ->. eauto.
  - intros (a & Ha & Hb). exists (Dim.Concrete a). rewrite Ha. split; [done|].
    exists (Dim.Concrete a). rewrite Hb. split; [done|]. by apply clean_dim_match.
Qed.

Lemma concrete_2 t : is_concrete t → rank t = 2%nat ↔ ∃ a b, has_dims t [a; b].
Proof.
  intros [l Hl]. rewrite (has_dims_rank _ _ Hl). split.
  - intros H. destruct l as [|a [|b [|]]]; naive_solver.
  - intros (a & b & H). unfold has_dims in *. rewrite Hl in H. apply (f_equal length) in H.
    by rewrite !length_fmap in H.
Qed.

(** ** The rule *)

(** The element types and quantizations a matrix product multiplies. *)
Definition gemm_activation (t : Tensor) : Prop :=
  match tn_dtype t with
  | DType.F16 | DType.Bf16 => tn_quant t = QuantScheme.None
  | DType.I8 => tn_quant t = QuantScheme.PerToken ∨ tn_quant t = QuantScheme.PerBlock32
  | DType.E4m3 => tn_quant t = QuantScheme.PerToken
  | _ => False
  end.

Definition gemm_weight (t : Tensor) : Prop :=
  match tn_dtype t with
  | DType.I4 | DType.I8 | DType.E4m3 => weight_quant (tn_quant t) = true
  | DType.F16 => tn_quant t = QuantScheme.None
  | _ => False
  end.

(** The operand a fused epilogue adds to a product of [M] rows and [N] columns. *)
Definition epilogue_typed (e : Epilogue.t) (m n : Z) (extra : list Tensor) : Prop :=
  match e with
  | Epilogue.None | Epilogue.Act _ => extra = []
  | Epilogue.Bias => ∃ bias, extra = [bias] ∧ has_dims bias [n] ∧
      tn_dtype bias = DType.F32 ∧ tn_class bias = TensorClass.Param
  | Epilogue.Residual => ∃ residual, extra = [residual] ∧ has_dims residual [m; n] ∧
      tn_dtype residual ∈ floats ∧ tn_class residual = TensorClass.Activation
  end.

Inductive matmul_typed (o : MatmulOp) : list Tensor → list Tensor → Prop :=
| matmul_rule x w extra y m k n :
    has_dims x [m; k] → gemm_activation x → tn_class x = TensorClass.Activation →
    has_dims w (if mm_transpose_w o then [k; n] else [n; k]) → gemm_weight w →
    tn_class w = TensorClass.Weight → (∃ r, tn_placement w = Placement.Device r) →
    epilogue_typed (mm_epilogue o) m n extra →
    has_dims y [m; n] → tn_dtype y = mm_out_dtype o → tn_class y = TensorClass.Activation →
    float_dtype (mm_out_dtype o) = true →
    matmul_typed o (x :: w :: extra) [y].

Lemma clean_gemm_activation op name t : clean (check_gemm_activation_operand op name t) ↔ gemm_activation t.
Proof.
  unfold check_gemm_activation_operand, gemm_activation. rewrite clean_both, clean_dtype_in, clean_quant.
  destruct (tn_dtype t), (tn_quant t); simpl; set_solver.
Qed.

Lemma clean_gemm_weight op name t : clean (check_gemm_weight_operand op name t) ↔ gemm_weight t.
Proof.
  unfold check_gemm_weight_operand, gemm_weight. rewrite clean_both, clean_dtype_in, clean_quant.
  destruct (tn_dtype t), (tn_quant t); simpl; set_solver.
Qed.

Lemma clean_index_Some {A} (l : list A) i k x : l !! i = Some x → clean (index l i k) ↔ clean (k x).
Proof. intros H. rewrite clean_index, H. naive_solver. Qed.

Section Matmul.
Context (o : MatmulOp) (x w y : Tensor) (extra : list Tensor).
Context (Hx : is_concrete x) (Hw : is_concrete w) (Hy : is_concrete y) (Hextra : Forall is_concrete extra).

Definition w_dims (k n : Z) : list Z := if mm_transpose_w o then [k; n] else [n; k].

Lemma w_dims_axes k n : w_dims k n !! k_axis o = Some k ∧ w_dims k n !! n_axis o = Some n.
Proof. unfold w_dims, k_axis, n_axis. by destruct (mm_transpose_w o). Qed.

Lemma w_dims_2 a b : ∃ k n, [a; b] = w_dims k n.
Proof. unfold w_dims. destruct (mm_transpose_w o); eauto. Qed.

Lemma operand_clean m k n :
  has_dims x [m; k] → has_dims w (w_dims k n) → (2 + length extra)%nat = matmul_input_count o →
  clean (matmul_epilogue_operand (x :: w :: extra) o) ∧ clean (matmul_input_relations (x :: w :: extra) o x w) ↔
  epilogue_typed (mm_epilogue o) m n extra.
Proof.
  intros Hdx Hdw Hn. destruct (w_dims_axes k n) as [Hk1 Hn1].
  unfold matmul_epilogue_operand, matmul_input_relations, epilogue_typed. rewrite clean_both.
  rewrite (clean_dims_match _ _ _ _ _ _ _ _ _ _ Hdw Hdx).
  assert (∃ a, w_dims k n !! k_axis o = Some a ∧ [m; k] !! 1%nat = Some a) as HK by eauto.
  unfold matmul_input_count in Hn. destruct (mm_epilogue o); simpl in Hn.
  - destruct extra; [|done]. rewrite !clean_pass. naive_solver.
  - destruct extra as [|b [|]]; try done. apply Forall_cons_1 in Hextra as [[l Hl] _].
    rewrite !(clean_index_Some _ 2 _ b) by done.
    rewrite !clean_both, clean_rank, clean_dtype_in, clean_class, clean_when, is_rank_true, list_elem_of_singleton.
    rewrite (clean_dims_match _ _ _ _ _ _ _ _ _ _ Hl Hdw), (has_dims_rank _ _ Hl), Hn1. split.
    + intros ((Hr & Hd & Hc) & _ & Hm). destruct (Hm Hr) as (a & Ha & [= <-]).
      exists b. split; [done|]. destruct l as [|a' [|]]; try done. injection Ha as ->. done.
    + intros (b' & [= <-] & Hdb & Hd & Hc). pose proof (has_dims_inj _ _ _ Hl Hdb) as ->.
      simpl. naive_solver.
  - destruct extra as [|b [|]]; try done. apply Forall_cons_1 in Hextra as [[l Hl] _].
    rewrite !(clean_index_Some _ 2 _ b) by done.
    rewrite !clean_both, clean_rank, clean_dtype_in, clean_class, clean_when, is_rank_true, clean_both.
    rewrite (clean_dims_match _ _ _ _ _ _ _ _ _ _ Hl Hdw), (clean_dims_match _ _ _ _ _ _ _ _ _ _ Hl Hdx),
      (has_dims_rank _ _ Hl), Hn1. split.
    + intros ((Hr & Hd & Hc) & _ & Hm). destruct (Hm Hr) as [(a & Ha & [= <-]) (c & Hc' & [= <-])].
      exists b. split; [done|]. destruct l as [|a' [|b' [|]]]; try done. injection Ha as ->. by injection Hc' as ->.
    + intros (b' & [= <-] & Hdb & Hd & Hc). pose proof (has_dims_inj _ _ _ Hl Hdb) as ->.
      simpl. naive_solver.
  - destruct extra; [|done]. rewrite !clean_pass. naive_solver.
Qed.

Lemma matmul_clean :
  clean (matmul_validate (x :: w :: extra) [y] o) ↔ matmul_typed o (x :: w :: extra) [y].
Proof.
  unfold matmul_validate, matmul_inputs, matmul_outputs, matmul_relations. cbv zeta.
  rewrite !clean_both, !clean_when.
  rewrite !(clean_index_Some (x :: w :: extra) 0 _ x) by done. cbv beta.
  rewrite !(clean_index_Some (x :: w :: extra) 1 _ w) by done. cbv beta.
  rewrite !(clean_index_Some [y] 0 _ y) by done. cbv beta.
  rewrite !clean_both, !clean_when, !andb_true_iff, !count_is_true, !clean_rank,
    !clean_class, clean_dtype, clean_device, clean_out_dtype, clean_input_count, clean_output_count,
    clean_gemm_activation, clean_gemm_weight, !is_rank_true.
  split.
  - intros (Hf & Hi & _ & Hin & Hout & Hrel).
    destruct (Hin Hi) as (Hrx & Hgx & Hcx & Hrw & Hgw & Hcw & Hd & He & Hr).
    destruct (Hout eq_refl) as (Hry & Hdy & Hcy). destruct (Hrel (conj Hi eq_refl)) as [Hm Hn].
    apply concrete_2 in Hrx as (m & k & Hdx); [|done]. apply concrete_2 in Hrw as (a & b & Hdw); [|done].
    destruct (w_dims_2 a b) as (k' & n & E). rewrite E in Hdw. destruct (w_dims_axes k' n) as [Hk1 Hn1].
    apply concrete_2 in Hry as (m' & n' & Hdy'); [|done].
    pose proof (has_dims_rank _ _ Hdx) as Hrx. pose proof (has_dims_rank _ _ Hdy') as Hry.
    assert (rank w = 2%nat) as Hrw by (rewrite (has_dims_rank _ _ Hdw); unfold w_dims; by destruct (mm_transpose_w o)).
    specialize (Hr (conj Hrx Hrw)). specialize (Hm (conj Hrx Hry)). specialize (Hn (conj Hrw Hry)).
    rewrite (clean_dims_match _ _ _ _ _ _ _ _ _ _ Hdy' Hdx) in Hm. destruct Hm as (? & [= <-] & [= <-]).
    rewrite (clean_dims_match _ _ _ _ _ _ _ _ _ _ Hdy' Hdw), Hn1 in Hn. destruct Hn as (? & [= <-] & [= <-]).
    assert (k = k') as <-.
    { unfold matmul_input_relations in Hr. rewrite clean_both in Hr. destruct Hr as [Hr _].
      rewrite (clean_dims_match _ _ _ _ _ _ _ _ _ _ Hdw Hdx), Hk1 in Hr. by destruct Hr as (? & [= <-] & [= <-]). }
    econstructor; eauto. by eapply operand_clean.
  - intros H. inversion H as [x' w' extra' y' m k n Hdx Hgx Hcx Hdw Hgw Hcw Hd He Hdy Hty Hcy Hf]; subst.
    pose proof (has_dims_rank _ _ Hdx) as Hrx. pose proof (has_dims_rank _ _ Hdy) as Hry.
    pose proof Hdw as Hrw. apply has_dims_rank in Hrw.
    replace (length (if mm_transpose_w o then [k; n] else [n; k])) with 2%nat in Hrw by (by destruct (mm_transpose_w o)).
    assert ((2 + length extra)%nat = matmul_input_count o) as Hcount.
    { unfold matmul_input_count. destruct (mm_epilogue o); simpl in He; destruct_and?; naive_solver. }
    destruct (w_dims_axes k n) as [Hk1 Hn1].
    apply (operand_clean m k n) in He as [He Hr]; [|done..].
    rewrite (clean_dims_match _ _ _ _ _ _ _ _ _ _ Hdy Hdx), (clean_dims_match _ _ _ _ _ _ _ _ _ _ Hdy Hdw).
    change (if mm_transpose_w o then [k; n] else [n; k]) with (w_dims k n). rewrite Hn1.
    split_and!; try done; intros; split_and!; eauto.
Qed.
End Matmul.

(** C25: on concrete shapes [MatmulOp::validate] accepts operands exactly when
    there are extents [M], [K] and [N] with which they have the documented
    signature: [x] is an activation [[M, K]] of a type and quantization the
    product multiplies, [w] a device weight [[N, K]], or [[K, N]] when stored
    transposed, the fused operand is a [[N]] bias or a [[M, N]] residual as the
    epilogue says, and [y] is an activation [[M, N]] of the declared type. *)
Theorem matmul_validates o inputs outputs :
  Forall is_concrete inputs → Forall is_concrete outputs →
  op_validate (Op.Matmul o) inputs outputs = Ok tt ↔ matmul_typed o inputs outputs.
Proof.
  intros Hin Hout. unfold op_validate. rewrite finish_Ok. change (op_checks (Op.Matmul o) inputs outputs) with (matmul_validate inputs outputs o).
  split.
  - intros H. pose proof H as Hc. unfold matmul_validate in Hc. cbv zeta in Hc.
    rewrite !clean_both, clean_input_count, clean_output_count in Hc. destruct Hc as (_ & Hi & Ho & _).
    destruct outputs as [|y [|]]; try done.
    destruct inputs as [|x [|w extra]].
    1,2: unfold matmul_input_count in Hi; destruct (mm_epilogue o); done.
    apply Forall_cons_1 in Hin as [Hx [Hw Hextra]%Forall_cons_1]. apply Forall_cons_1 in Hout as [Hy _].
    by apply matmul_clean.
  - intros H. destruct H as [x w extra y m k n]. 
    apply Forall_cons_1 in Hin as [Hx [Hw Hextra]%Forall_cons_1]. apply Forall_cons_1 in Hout as [Hy _].
    apply matmul_clean; try done. by econstructor.
Qed.

Lemma matmul_validates_witness :
  op_validate (Op.Matmul {| mm_out_dtype := DType.F16; mm_epilogue := Epilogue.Bias; mm_transpose_w := false |})
    [{| tn_shape := [Dim.Concrete 4; Dim.Concrete 64]; tn_dtype := DType.I8; tn_quant := QuantScheme.PerToken;
        tn_layout := LayoutId.CONTIGUOUS; tn_placement := Placement.Device 0; tn_sharding := ShardLayout.Replicated;
        tn_class := TensorClass.Activation |};
     {| tn_shape := [Dim.Concrete 32; Dim.Concrete 64]; tn_dtype := DType.I4; tn_quant := QuantScheme.Scheme 7;
        tn_layout := LayoutId.L1; tn_placement := Placement.Device 0; tn_sharding := ShardLayout.Replicated;
        tn_class := TensorClass.Weight |};
     {| tn_shape := [Dim.Concrete 32]; tn_dtype := DType.F32; tn_quant := QuantScheme.None;
        tn_layout := LayoutId.CONTIGUOUS; tn_placement := Placement.Device 0; tn_sharding := ShardLayout.Replicated;
        tn_class := TensorClass.Param |}]
    [{| tn_shape := [Dim.Concrete 4; Dim.Concrete 32]; tn_dtype := DType.F16; tn_quant := QuantScheme.None;
        tn_layout := LayoutId.CONTIGUOUS; tn_placement := Placement.Device 0; tn_sharding := ShardLayout.Replicated;
        tn_class := TensorClass.Activation |}] = Ok tt.
Proof.
  apply matmul_validates.
  - repeat (apply Forall_cons; split); [by exists [4; 64]|by exists [32; 64]|by exists [32]|done].
  - apply Forall_cons; split; [by exists [4; 32]|done].
  - apply (matmul_rule _ _ _ _ _ 4 64 32); try done; [by left|by exists 0|by eexists].
Defined.
