(* ===== verification/Graph.v ===== *)
(** * Step graphs

    [crates/r9v-ir/src/graph.rs]: a step graph is a DAG of op instances over
    tensor edges, built by appending sources, views and ops, with strides
    tracked along views and copies inserted where a kernel asks for contiguous
    memory.  A method on [&mut self] is an [stm] action on the graph, its edges
    and nodes are vectors indexed by their identifiers, and an index out of
    range is a [Panic]. *)

From stdpp Require Import gmap sorting.
From S2P Require Import Prelude Bytes Errors SchedError Cost Ops OpValidate.

#[global] Open Scope Z_scope.

(** ** Keys *)

(** One axis of [StepGraphKey::new]. *)
Definition axis_problems (axis : string) (zero_ok : bool) (v : Z) : list IrError :=
  if 4096 <? v then [BucketExceeded axis v 4096]
  else if negb (zero_ok && (v =? 0)) && negb (bool_decide (v ∈ BUCKET_SIZES)) then [InvalidBucket axis v]
  else [].

Definition key_new (plan_id rank s t_dec t_pre segment : Z) : outcome IrError StepGraphKey :=
  let* _ := from_problems (axis_problems "S" false s ++ axis_problems "T_dec" false t_dec
                           ++ axis_problems "T_pre" true t_pre) in
  Ok {| k_plan_id := plan_id; k_rank := rank; k_s := s; k_t_dec := t_dec; k_t_pre := t_pre; k_segment := segment |}.

Definition from_unbucketed (plan_id rank raw_s raw_t_dec raw_t_pre segment : Z) : outcome IrError StepGraphKey :=
  let* r := bucket_step raw_s raw_t_dec raw_t_pre in
  let '(s, t_dec, t_pre) := r in
  Ok {| k_plan_id := plan_id; k_rank := rank; k_s := s; k_t_dec := t_dec; k_t_pre := t_pre; k_segment := segment |}.

(** ** External bindings *)

Module ExternalInput.
Inductive t : Type :=
| Tensor (kind : ExternalInputKind.t) (edge : nat) | BatchMeta | SamplingParams | RngState.

#[global] Instance eq_dec : EqDecision t.
Proof. solve_decision. Defined.

Definition kind (i : t) : ExternalInputKind.t :=
  match i with
  | Tensor k _ => k
  | BatchMeta => ExternalInputKind.BatchMeta
  | SamplingParams => ExternalInputKind.SamplingParams
  | RngState => ExternalInputKind.RngState
  end.

Definition edge_id (i : t) : option nat := match i with Tensor _ e => Some e | _ => None end.
End ExternalInput.

Module ExternalOutput.
Inductive t : Type := Tensor (kind : ExternalOutputKind.t) (edge : nat) | UpdatedRngState.

#[global] Instance eq_dec : EqDecision t.
Proof. solve_decision. Defined.

Definition kind (o : t) : ExternalOutputKind.t :=
  match o with Tensor k _ => k | UpdatedRngState => ExternalOutputKind.UpdatedRngState end.

Definition edge_id (o : t) : option nat := match o with Tensor _ e => Some e | UpdatedRngState => None end.
End ExternalOutput.

Definition bucket_dim_matches (d : Dim.t) (concrete : Z) (symbolic : ShapeSymbol.t) : bool :=
  bool_decide (d = Dim.Concrete concrete) || bool_decide (d = Dim.Symbolic symbolic).

(** The contract of a tensor-backed binding: role, rank, element types, class
    and leading dimension. *)
Definition external_common (role : string) (t : Tensor) (expected_rank : nat) (dtypes : list DType.t)
    (class : TensorClass.t) (device_rank : Z) : list IrError :=
  (if negb (length (tn_shape t) =? expected_rank)%nat
   then [OpRankMismatch "step_graph_external" role expected_rank (length (tn_shape t))] else []) ++
  (if bool_decide (tn_dtype t ∉ dtypes)
   then [OpDTypeMismatch "step_graph_external" role dtypes (tn_dtype t)] else []) ++
  (if bool_decide (tn_class t ≠ class)
   then [OpClassMismatch "step_graph_external" role class (tn_class t)] else []) ++
  (if negb (tn_layout t =? LayoutId.CONTIGUOUS)
   then [OpLayoutMismatch "step_graph_external" role LayoutId.CONTIGUOUS (tn_layout t)] else []) ++
  (if bool_decide (tn_placement t ≠ Placement.Device device_rank)
   then [OpPlacementMismatch "step_graph_external" role (tn_placement t)] else []).

Definition external_quant (role : string) (t : Tensor) (ok : bool) : list IrError :=
  if negb ok then [OpQuantMismatch "step_graph_external" role (tn_quant t)] else [].

Definition external_leading (role : string) (t : Tensor) (concrete : Z) (symbolic : ShapeSymbol.t) : list IrError :=
  match tn_shape t with
  | d :: _ =>
      if bucket_dim_matches d concrete symbolic then []
      else [OpShapeMismatch "step_graph_external" role
              (msg "leading dimension must be {concrete} for this bucket or symbolic {symbolic:?}, got {dim:?}"
                 [Num concrete; Symbol symbolic; Extent d])]
  | [] => []
  end.

Definition total_tokens (key : StepGraphKey) : Z := saturating_add U32_MAX (k_t_dec key) (k_t_pre key).

Definition hidden_dtypes : list DType.t := [DType.F16; DType.Bf16; DType.F32].

(** Role, rank, types, class and leading dimension of an input kind. *)
Definition input_contract (key : StepGraphKey) (kind : ExternalInputKind.t)
    : option (string * nat * list DType.t * TensorClass.t * (Z * ShapeSymbol.t)) :=
  match kind with
  | ExternalInputKind.TokenIds =>
      Some ("token_ids"%string, 1%nat, [DType.U32], TensorClass.Activation, (total_tokens key, ShapeSymbol.T))
  | ExternalInputKind.GatherStaging =>
      Some ("gather_staging"%string, 3%nat, [DType.I4; DType.I8], TensorClass.Staging, (total_tokens key, ShapeSymbol.T))
  | ExternalInputKind.GrammarMask =>
      Some ("grammar_mask"%string, 3%nat, [DType.Bool], TensorClass.Activation, (k_s key, ShapeSymbol.S))
  | ExternalInputKind.EmbedOverride =>
      Some ("embed_override"%string, 2%nat, hidden_dtypes, TensorClass.Activation, (total_tokens key, ShapeSymbol.T))
  | ExternalInputKind.EmbedMask =>
      Some ("embed_mask"%string, 1%nat, [DType.Bool], TensorClass.Activation, (total_tokens key, ShapeSymbol.T))
  | ExternalInputKind.SubgraphHidden =>
      Some ("subgraph_hidden"%string, 2%nat, hidden_dtypes, TensorClass.Activation, (total_tokens key, ShapeSymbol.T))
  | ExternalInputKind.BatchMeta | ExternalInputKind.RngState | ExternalInputKind.SamplingParams => None
  end.

Definition input_quant_ok (kind : ExternalInputKind.t) (q : QuantScheme.t) : bool :=
  match kind with
  | ExternalInputKind.GatherStaging => match q with QuantScheme.Scheme _ => true | _ => false end
  | ExternalInputKind.TokenIds | ExternalInputKind.GrammarMask | ExternalInputKind.EmbedOverride
  | ExternalInputKind.EmbedMask | ExternalInputKind.SubgraphHidden => bool_decide (q = QuantScheme.None)
  | ExternalInputKind.BatchMeta | ExternalInputKind.RngState | ExternalInputKind.SamplingParams => false
  end.

Definition validate_external_input_tensor (key : StepGraphKey) (kind : ExternalInputKind.t) (t : Tensor)
    : outcome IrError unit :=
  match input_contract key kind with
  | None => Err (OpAttributeInvalid "add_external_input" "kind"
                   (msg "{kind:?} is non-tensor structured data and cannot bind a Tensor edge" [InputKind kind]))
  | Some (role, rank, dtypes, class, (concrete, symbolic)) =>
      from_problems (external_common role t rank dtypes class (k_rank key) ++
                     external_quant role t (input_quant_ok kind (tn_quant t)) ++
                     external_leading role t concrete symbolic)
  end.

Definition output_contract (key : StepGraphKey) (kind : ExternalOutputKind.t)
    : option (string * nat * list DType.t * (Z * ShapeSymbol.t)) :=
  match kind with
  | ExternalOutputKind.Sampled => Some ("sampled"%string, 2%nat, [DType.U32], (k_s key, ShapeSymbol.S))
  | ExternalOutputKind.AcceptLen => Some ("accept_len"%string, 1%nat, [DType.U32], (k_s key, ShapeSymbol.S))
  | ExternalOutputKind.Logits => Some ("logits"%string, 3%nat, [DType.F32], (k_s key, ShapeSymbol.S))
  | ExternalOutputKind.Hidden => Some ("hidden"%string, 2%nat, hidden_dtypes, (total_tokens key, ShapeSymbol.T))
  | ExternalOutputKind.UpdatedRngState => None
  end.

Definition validate_external_output_tensor (key : StepGraphKey) (kind : ExternalOutputKind.t) (t : Tensor)
    : outcome IrError unit :=
  match output_contract key kind with
  | None => Err (OpAttributeInvalid "add_external_output" "kind"
                   (msg "UpdatedRngState is non-tensor structured data and cannot bind a Tensor edge" []))
  | Some (role, rank, dtypes, (concrete, symbolic)) =>
      from_problems (external_common role t rank dtypes TensorClass.Activation (k_rank key) ++
                     external_quant role t (bool_decide (tn_quant t = QuantScheme.None)) ++
                     external_leading role t concrete symbolic)
  end.

(** ** Strides *)

Definition I64_MAX : Z := 2 ^ 63 - 1.
Definition I64_MIN : Z := - 2 ^ 63.

(** [i64::saturating_mul]. *)
Definition i64_saturating_mul (a b : Z) : Z := Z.max I64_MIN (Z.min I64_MAX (a * b)).

(** A symbolic dimension counts as two. *)
Definition stride_extent (d : Dim.t) : Z :=
  match d with Dim.Concrete c => c | Dim.Symbolic _ => 2 end.

(** The strides of a shape, with the stride its next outer axis would get. *)
Fixpoint strides_of (shape : list Dim.t) : list Z * Z :=
  match shape with
  | [] => ([], 1)
  | d :: shape =>
      let '(strides, stride) := strides_of shape in
      (stride :: strides, i64_saturating_mul stride (Z.max (stride_extent d) 1))
  end.

Definition compute_contiguous_strides (shape : list Dim.t) : list Z := (strides_of shape).1.

Module StrideRequirement.
Inductive t : Type := Any | Contiguous.

#[global] Instance eq_dec : EqDecision t.
Proof. solve_decision. Defined.

Definition is_satisfied (r : t) (strides : list Z) (shape : list Dim.t) : bool :=
  match r with
  | Any => true
  | Contiguous => bool_decide (strides = compute_contiguous_strides shape)
  end.
End StrideRequirement.

(** The product of the extents as a [u128], which the multiplication must fit;
    [None] with a symbolic dimension. *)
Definition U128_MAX : Z := 2 ^ 128 - 1.

Fixpoint element_count_from (count : Z) (shape : list Dim.t) : outcome IrError (option Z) :=
  match shape with
  | [] => Ok (Some count)
  | Dim.Concrete extent :: shape =>
      let* count := or_panic (checked_mul U128_MAX count extent) in element_count_from count shape
  | Dim.Symbolic _ :: _ => Ok None
  end.

Definition concrete_element_count : list Dim.t → outcome IrError (option Z) := element_count_from 1.

(** ** The graph *)

Record GraphEdge : Type := {
  e_id : nat;
  e_tensor : Tensor;
  e_strides : list Z;
  e_source_edge : option nat
}.

Definition is_contiguous (e : GraphEdge) : bool :=
  bool_decide (e_strides e = compute_contiguous_strides (tn_shape (e_tensor e))).

Record GraphNode : Type := {
  n_id : nat;
  n_op : Op.t;
  n_inputs : list nat;
  n_requirements : list StrideRequirement.t;
  n_outputs : list nat
}.

Record InsertedCopy : Type := {
  ic_copy_node : nat;
  ic_source_edge : nat;
  ic_dest_edge : nat;
  ic_consumer_nodes : list nat;
  ic_actual_strides : list Z;
  ic_expected_strides : list Z
}.

Record Graph : Type := {
  gr_key : StepGraphKey;
  gr_nodes : list GraphNode;
  gr_edges : list GraphEdge;
  gr_external_inputs : list ExternalInput.t;
  gr_external_outputs : list ExternalOutput.t;
  gr_inserted_copies : list InsertedCopy;
  gr_positions : option (PositionsKind.t * nat)
}.

Definition graph_new (key : StepGraphKey) : Graph :=
  {| gr_key := key; gr_nodes := []; gr_edges := []; gr_external_inputs := []; gr_external_outputs := [];
     gr_inserted_copies := []; gr_positions := None |}.

Definition set_edges (es : list GraphEdge) (g : Graph) : Graph :=
  {| gr_key := gr_key g; gr_nodes := gr_nodes g; gr_edges := es; gr_external_inputs := gr_external_inputs g;
     gr_external_outputs := gr_external_outputs g; gr_inserted_copies := gr_inserted_copies g;
     gr_positions := gr_positions g |}.

Definition set_nodes (ns : list GraphNode) (g : Graph) : Graph :=
  {| gr_key := gr_key g; gr_nodes := ns; gr_edges := gr_edges g; gr_external_inputs := gr_external_inputs g;
     gr_external_outputs := gr_external_outputs g; gr_inserted_copies := gr_inserted_copies g;
     gr_positions := gr_positions g |}.

Definition set_external_inputs (inputs : list ExternalInput.t) (g : Graph) : Graph :=
  {| gr_key := gr_key g; gr_nodes := gr_nodes g; gr_edges := gr_edges g; gr_external_inputs := inputs;
     gr_external_outputs := gr_external_outputs g; gr_inserted_copies := gr_inserted_copies g;
     gr_positions := gr_positions g |}.

Definition set_external_outputs (outputs : list ExternalOutput.t) (g : Graph) : Graph :=
  {| gr_key := gr_key g; gr_nodes := gr_nodes g; gr_edges := gr_edges g;
     gr_external_inputs := gr_external_inputs g; gr_external_outputs := outputs;
     gr_inserted_copies := gr_inserted_copies g; gr_positions := gr_positions g |}.

Definition set_copies (cs : list InsertedCopy) (g : Graph) : Graph :=
  {| gr_key := gr_key g; gr_nodes := gr_nodes g; gr_edges := gr_edges g;
     gr_external_inputs := gr_external_inputs g; gr_external_outputs := gr_external_outputs g;
     gr_inserted_copies := cs; gr_positions := gr_positions g |}.

Definition set_positions (p : PositionsKind.t * nat) (g : Graph) : Graph :=
  {| gr_key := gr_key g; gr_nodes := gr_nodes g; gr_edges := gr_edges g;
     gr_external_inputs := gr_external_inputs g; gr_external_outputs := gr_external_outputs g;
     gr_inserted_copies := gr_inserted_copies g; gr_positions := Some p |}.

Abbreviation graph A := (stm Graph IrError A).

(** ** Sources *)

Definition graph_get {A} (f : Graph → A) : graph A := let! g := sget in sret (f g).
Definition refuse_problems (ps : list IrError) : graph unit := slift (from_problems ps).

Definition push_edge (t : Tensor) (strides : list Z) (source : option nat) : graph nat :=
  let! edge_id := graph_get (λ g, length (gr_edges g)) in
  let! _ := smodify (λ g, set_edges (gr_edges g ++
    [{| e_id := edge_id; e_tensor := t; e_strides := strides; e_source_edge := source |}]) g) in
  sret edge_id.

Definition push_tensor_edge (t : Tensor) : graph nat :=
  push_edge t (compute_contiguous_strides (tn_shape t)) None.

Definition add_tensor (t : Tensor) : graph nat :=
  let! g := sget in
  let! _ := refuse_problems
    ((match tn_class t with
      | TensorClass.Weight | TensorClass.Param | TensorClass.State => []
      | TensorClass.Activation | TensorClass.Staging => [GraphSourceClassInvalid (tn_class t)]
      end) ++
     (match tn_placement t with
      | Placement.Device rank =>
          if negb (rank =? k_rank (gr_key g))
          then [GraphTensorRankMismatch (length (gr_edges g)) rank (k_rank (gr_key g))] else []
      | Placement.Host | Placement.Tiered => []
      end)) in
  push_tensor_edge t.

Definition kind_refused {A} (op : string) (reason : Text) : graph A := sfail (OpAttributeInvalid op "kind" reason).

Definition add_external_input (kind : ExternalInputKind.t) (t : Tensor) : graph nat :=
  if negb (ExternalInputKind.is_tensor_backed kind)
  then kind_refused "add_external_input"
         (msg "{kind:?} is a non-tensor input; register without a fake Tensor descriptor via add_external_non_tensor or convenience method"
            [InputKind kind])
  else
    let! g := sget in
    if existsb (λ i, bool_decide (ExternalInput.kind i = kind)) (gr_external_inputs g)
    then kind_refused "add_external_input" (msg "duplicate {kind:?} external input" [InputKind kind])
    else
      let! _ := slift (validate_external_input_tensor (gr_key g) kind t) in
      let! edge_id := push_tensor_edge t in
      let! _ := smodify (λ g, set_external_inputs
        (gr_external_inputs g ++ [ExternalInput.Tensor kind edge_id]) g) in
      sret edge_id.

(** Registers [input], at most once. *)
Definition add_structured (input : ExternalInput.t) (name : string) : graph unit :=
  let! g := sget in
  if bool_decide (input ∈ gr_external_inputs g)
  then kind_refused "add_external_non_tensor"
         (msg "duplicate {} external input; step graph admits exactly one {}" [Name name; Name name])
  else smodify (λ g, set_external_inputs (gr_external_inputs g ++ [input]) g).

Definition add_external_non_tensor (kind : ExternalInputKind.t) : graph unit :=
  match kind with
  | ExternalInputKind.BatchMeta => add_structured ExternalInput.BatchMeta "BatchMeta"
  | ExternalInputKind.SamplingParams => add_structured ExternalInput.SamplingParams "SamplingParams"
  | ExternalInputKind.RngState => add_structured ExternalInput.RngState "RngState"
  | ExternalInputKind.TokenIds | ExternalInputKind.GatherStaging | ExternalInputKind.GrammarMask
  | ExternalInputKind.EmbedOverride | ExternalInputKind.EmbedMask | ExternalInputKind.SubgraphHidden =>
      kind_refused "add_external_non_tensor"
        (msg "{kind:?} is a tensor-backed input; register via add_external_input with a valid Tensor descriptor"
           [InputKind kind])
  end.

Definition add_external_non_tensor_output (kind : ExternalOutputKind.t) : graph unit :=
  match kind with
  | ExternalOutputKind.UpdatedRngState =>
      let! g := sget in
      if bool_decide (ExternalOutput.UpdatedRngState ∈ gr_external_outputs g)
      then kind_refused "add_external_non_tensor_output"
             (msg "duplicate UpdatedRngState external output; step graph admits exactly one UpdatedRngState" [])
      else smodify (λ g, set_external_outputs (gr_external_outputs g ++ [ExternalOutput.UpdatedRngState]) g)
  | ExternalOutputKind.Sampled | ExternalOutputKind.AcceptLen | ExternalOutputKind.Logits
  | ExternalOutputKind.Hidden =>
      kind_refused "add_external_non_tensor_output"
        (msg "{kind:?} is a tensor-backed output; register via add_external_output with a valid EdgeId"
           [OutputKind kind])
  end.

Definition bind_positions (kind : PositionsKind.t) : graph nat :=
  let! g := sget in
  match gr_positions g with
  | Some (existing, _) => sfail (PositionsConflict existing kind)
  | None =>
      if negb (bool_decide (ExternalInput.BatchMeta ∈ gr_external_inputs g))
      then sfail (GraphExternalInputMissing ExternalInputKind.BatchMeta "positions")
      else
        let shape := match kind with
                     | PositionsKind.Scalar => [Dim.Symbolic ShapeSymbol.T]
                     | PositionsKind.Mrope => [Dim.Symbolic ShapeSymbol.T; Dim.Concrete 3]
                     end in
        let! t := slift (tensor_new shape DType.U32 QuantScheme.None LayoutId.CONTIGUOUS
                           (Placement.Device (k_rank (gr_key g))) ShardLayout.Replicated TensorClass.Activation) in
        let! edge_id := push_tensor_edge t in
        let! _ := smodify (set_positions (kind, edge_id)) in
        sret edge_id
  end.

(** ** Ops *)

Definition missing_edges (g : Graph) (edges : list nat) : list IrError :=
  concat (map (λ e, if (length (gr_edges g) <=? e)%nat then [GraphEdgeNotFound e] else []) edges).

Fixpoint push_outputs (ts : list Tensor) : graph (list nat) :=
  match ts with
  | [] => sret []
  | t :: ts =>
      let! edge_id := push_tensor_edge t in
      let! ids := push_outputs ts in
      sret (edge_id :: ids)
  end.

Definition push_node (op : Op.t) (inputs : list nat) (requirements : list StrideRequirement.t) (outputs : list nat)
    : graph nat :=
  let! node_id := graph_get (λ g, length (gr_nodes g)) in
  let! _ := smodify (λ g, set_nodes (gr_nodes g ++
    [{| n_id := node_id; n_op := op; n_inputs := inputs; n_requirements := requirements; n_outputs := outputs |}]) g) in
  sret node_id.

Definition add_op_with_requirements (op : Op.t) (input_edges : list nat)
    (input_requirements : list StrideRequirement.t) (output_tensors : list Tensor) : graph nat :=
  let! g := sget in
  let! _ := refuse_problems
    (missing_edges g input_edges ++
     (if negb (length input_requirements =? length input_edges)%nat
      then [OpInputCountMismatch "add_op" (length input_edges) (length input_requirements)] else [])) in
  let! outputs := push_outputs output_tensors in
  push_node op input_edges input_requirements outputs.

Definition add_op (op : Op.t) (input_edges : list nat) (output_tensors : list Tensor) : graph nat :=
  add_op_with_requirements op input_edges (replicate (length input_edges) StrideRequirement.Any) output_tensors.

(** ** Producers *)

(** The map from an edge to the op that produced it: a later op wins. *)
Definition producer_map (g : Graph) : gmap nat nat :=
  foldl (λ m node, foldl (λ m output, <[output := n_id node]> m) m (n_outputs node)) ∅ (gr_nodes g).

(** Follows view parents to an edge an op produced. *)
Fixpoint resolve_loop (g : Graph) (producers : gmap nat nat) (steps : nat) (current : nat) : option nat :=
  match steps with
  | O => None
  | S steps =>
      match producers !! current with
      | Some p => Some p
      | None =>
          match gr_edges g !! current with
          | Some e => match e_source_edge e with
                      | Some source => resolve_loop g producers steps source
                      | None => None
                      end
          | None => None
          end
      end
  end.

Definition resolve_producer (g : Graph) (producers : gmap nat nat) (edge : nat) : option nat :=
  resolve_loop g producers (S (length (gr_edges g))) edge.

Definition add_external_output (kind : ExternalOutputKind.t) (edge : nat) : graph unit :=
  if negb (ExternalOutputKind.is_tensor_backed kind)
  then kind_refused "add_external_output"
         (msg "{kind:?} is a non-tensor output; register without a fake Tensor descriptor via add_external_non_tensor_output or add_updated_rng_state_output"
            [OutputKind kind])
  else
    let! g := sget in
    match gr_edges g !! edge with
    | None => sfail (GraphEdgeNotFound edge)
    | Some e =>
        if existsb (λ o, bool_decide (ExternalOutput.kind o = kind)) (gr_external_outputs g)
        then kind_refused "add_external_output" (msg "duplicate {kind:?} external output" [OutputKind kind])
        else
          let! _ := slift (validate_external_output_tensor (gr_key g) kind (e_tensor e)) in
          match resolve_producer g (producer_map g) edge with
          | None => sfail (GraphExternalOutputUnproduced kind edge)
          | Some _ => smodify (λ g, set_external_outputs
                        (gr_external_outputs g ++ [ExternalOutput.Tensor kind edge]) g)
          end
    end.

(** ** Topological order *)

(** [v[i] += 1], [v[i] -= 1] and [v[i].push(x)], which panic out of range;
    the subtraction also when it would go below zero. *)
Definition vec_incr (i : nat) (l : list nat) : outcome IrError (list nat) :=
  let* x := or_panic (l !! i) in Ok (<[i := S x]> l).
Definition vec_decr (i : nat) (l : list nat) : outcome IrError (list nat) :=
  let* x := or_panic (l !! i) in
  match x with O => Panic | S x => Ok (<[i := x]> l) end.
Definition vec_push_at {A} (i : nat) (x : A) (l : list (list A)) : outcome IrError (list (list A)) :=
  let* xs := or_panic (l !! i) in Ok (<[i := xs ++ [x]]> l).

Record Degrees : Type := {
  d_adjacency : list (list nat);
  d_in_degree : list nat;
  d_problems : list IrError
}.

(** One input of one node. *)
Definition count_input (g : Graph) (producers : gmap nat nat) (node input : nat) (d : Degrees)
    : outcome IrError Degrees :=
  if (length (gr_edges g) <=? input)%nat
  then Ok {| d_adjacency := d_adjacency d; d_in_degree := d_in_degree d;
             d_problems := d_problems d ++ [GraphEdgeNotFound input] |}
  else match resolve_producer g producers input with
       | Some producer =>
           let* adjacency := vec_push_at producer node (d_adjacency d) in
           let* in_degree := vec_incr node (d_in_degree d) in
           Ok {| d_adjacency := adjacency; d_in_degree := in_degree; d_problems := d_problems d |}
       | None => Ok d
       end.

Fixpoint count_inputs (g : Graph) (producers : gmap nat nat) (inputs : list (nat * nat)) (d : Degrees)
    : outcome IrError Degrees :=
  match inputs with
  | [] => Ok d
  | (node, input) :: inputs =>
      let* d := count_input g producers node input d in count_inputs g producers inputs d
  end.

(** Every input of every node, in order. *)
Definition all_inputs (g : Graph) : list (nat * nat) :=
  concat (map (λ node, map (pair (n_id node)) (n_inputs node)) (gr_nodes g)).

(** The consumers of a node popped from the queue. *)
Fixpoint release_consumers (consumers : list nat) (in_degree queue : list nat) : outcome IrError (list nat * list nat) :=
  match consumers with
  | [] => Ok (in_degree, queue)
  | c :: consumers =>
      let* in_degree := vec_decr c in_degree in
      let* degree := or_panic (in_degree !! c) in
      release_consumers consumers in_degree (if (degree =? 0)%nat then queue ++ [c] else queue)
  end.

(** The loop over the queue.  Every node enters it at most once, so the number
    of nodes bounds the iterations; running out of them is a [Panic], which no
    graph reaches ([topological_order_correct] of [GraphSchedule.v]). *)
Fixpoint kahn (fuel : nat) (adjacency : list (list nat)) (in_degree queue order : list nat)
    : outcome IrError (list nat * list nat) :=
  match queue with
  | [] => Ok (in_degree, order)
  | node :: queue =>
      match fuel with
      | O => Panic
      | S fuel =>
          let* consumers := or_panic (adjacency !! node) in
          let* r := release_consumers consumers in_degree queue in
          let '(in_degree, queue) := r in
          kahn fuel adjacency in_degree queue (order ++ [node])
      end
  end.

Definition ready (in_degree : list nat) : list nat :=
  filter (λ v, in_degree !! v = Some 0%nat) (seq 0 (length in_degree)).

(** [in_degree.iter().position(|&degree| degree > 0).unwrap_or(0)]. *)
Definition first_stuck (in_degree : list nat) : nat :=
  match list_find (λ d, 0 < d)%nat in_degree with Some (i, _) => i | None => 0 end.

Definition topological_order (g : Graph) : outcome IrError (list nat) :=
  let node_count := length (gr_nodes g) in
  let* d := count_inputs g (producer_map g) (all_inputs g)
              {| d_adjacency := replicate node_count []; d_in_degree := replicate node_count 0%nat;
                 d_problems := [] |} in
  let* _ := from_problems (d_problems d) in
  let* r := kahn node_count (d_adjacency d) (d_in_degree d) (ready (d_in_degree d)) [] in
  let '(in_degree, order) := r in
  if (length order =? node_count)%nat then Ok order else Err (GraphCycle (first_stuck in_degree)).

(** ** Edges and inputs of a built graph *)

Definition with_edge_strides (strides : list Z) (e : GraphEdge) : GraphEdge :=
  {| e_id := e_id e; e_tensor := e_tensor e; e_strides := strides; e_source_edge := e_source_edge e |}.

Definition set_edge_strides (edge : nat) (strides : list Z) : graph unit :=
  let! g := sget in
  match gr_edges g !! edge with
  | None => sfail (GraphEdgeNotFound edge)
  | Some e =>
      let rank := length (tn_shape (e_tensor e)) in
      if negb (length strides =? rank)%nat
      then sfail (OpRankMismatch "set_edge_strides" "edge" rank (length strides))
      else smodify (λ g, set_edges (<[edge := with_edge_strides strides e]> (gr_edges g)) g)
  end.

Definition with_requirements (rs : list StrideRequirement.t) (n : GraphNode) : GraphNode :=
  {| n_id := n_id n; n_op := n_op n; n_inputs := n_inputs n; n_requirements := rs; n_outputs := n_outputs n |}.

Definition with_inputs (inputs : list nat) (n : GraphNode) : GraphNode :=
  {| n_id := n_id n; n_op := n_op n; n_inputs := inputs; n_requirements := n_requirements n;
     n_outputs := n_outputs n |}.

Definition set_node_input_requirement (node input_pos : nat) (requirement : StrideRequirement.t) : graph unit :=
  let! g := sget in
  match gr_nodes g !! node with
  | None => sfail (GraphNodeNotFound node)
  | Some n =>
      if (length (n_inputs n) <=? input_pos)%nat
      then sfail (OpInputCountMismatch "set_node_input_requirement" (length (n_inputs n)) input_pos)
      else
        let! rs := slift (vec_set input_pos requirement (n_requirements n)) in
        smodify (λ g, set_nodes (<[node := with_requirements rs n]> (gr_nodes g)) g)
  end.

(** [self.nodes[node].inputs[pos] = edge]. *)
Definition assign_input (node pos edge : nat) : graph unit :=
  let! g := sget in
  let! n := slift (or_panic (gr_nodes g !! node)) in
  let! inputs := slift (vec_set pos edge (n_inputs n)) in
  smodify (λ g, set_nodes (<[node := with_inputs inputs n]> (gr_nodes g)) g).

Definition rewire_node_input (node input_pos new_edge : nat) : graph unit :=
  let! g := sget in
  let! _ := refuse_problems
    ((if (length (gr_nodes g) <=? node)%nat then [GraphNodeNotFound node] else []) ++
     (if (length (gr_edges g) <=? new_edge)%nat then [GraphEdgeNotFound new_edge] else []) ++
     (match gr_nodes g !! node with
      | Some n => if (length (n_inputs n) <=? input_pos)%nat
                  then [OpInputCountMismatch "rewire" (length (n_inputs n)) input_pos] else []
      | None => []
      end)) in
  assign_input node input_pos new_edge.

(** ** Views *)

Record PermScan : Type := { ps_seen : list bool; ps_out_of_bounds : list nat; ps_duplicates : list nat }.

Definition scan_axis (s : PermScan) (p : nat) : PermScan :=
  match ps_seen s !! p with
  | None => {| ps_seen := ps_seen s; ps_out_of_bounds := ps_out_of_bounds s ++ [p];
               ps_duplicates := ps_duplicates s |}
  | Some true => {| ps_seen := ps_seen s; ps_out_of_bounds := ps_out_of_bounds s;
                    ps_duplicates := ps_duplicates s ++ [p] |}
  | Some false => {| ps_seen := <[p := true]> (ps_seen s); ps_out_of_bounds := ps_out_of_bounds s;
                     ps_duplicates := ps_duplicates s |}
  end.

Definition scan_perm (rank : nat) (perm : list nat) : PermScan :=
  foldl scan_axis {| ps_seen := replicate rank false; ps_out_of_bounds := []; ps_duplicates := [] |} perm.

Definition missing_axes (seen : list bool) : list nat :=
  filter (λ i, seen !! i = Some false) (seq 0 (length seen)).

Definition axes (l : list nat) : Arg := Nums (map Z.of_nat l).

Definition perm_problems (rank : nat) (perm : list nat) : list IrError :=
  let s := scan_perm rank perm in
  let missing := missing_axes (ps_seen s) in
  (if bool_decide (ps_out_of_bounds s ≠ [])
   then [OpAttributeInvalid "transpose_view" "perm"
           (msg "permutation indices {out_of_bounds:?} out of bounds for rank {rank}"
              [axes (ps_out_of_bounds s); Num (Z.of_nat rank)])] else []) ++
  (if bool_decide (ps_duplicates s ≠ [])
   then [OpAttributeInvalid "transpose_view" "perm"
           (msg "permutation contains duplicate axes: {duplicates:?}" [axes (ps_duplicates s)])] else []) ++
  (if bool_decide (missing ≠ []) && bool_decide (ps_duplicates s = []) && bool_decide (ps_out_of_bounds s = [])
   then [OpAttributeInvalid "transpose_view" "perm"
           (msg "permutation missing axes: {missing:?}" [axes missing])] else []).

(** [perm.iter().position(..).map_or(old_axis, ..)]. *)
Definition remap_axis (perm : list nat) (old_axis : Z) : Z :=
  match list_find (λ p, Z.of_nat p = old_axis) perm with
  | Some (new_axis, _) => as_u32 (Z.of_nat new_axis)
  | None => old_axis
  end.

Definition remap_sharding (perm : list nat) (s : ShardLayout.t) : ShardLayout.t :=
  match s with
  | ShardLayout.ColShard axis => ShardLayout.ColShard (remap_axis perm axis)
  | ShardLayout.RowShard axis => ShardLayout.RowShard (remap_axis perm axis)
  | _ => s
  end.

(** [v[p]] for each [p]. *)
Definition gather_axes {A} (v : list A) (perm : list nat) : outcome IrError (list A) :=
  omapM (λ p, or_panic (v !! p)) perm.

Definition transpose_edge (edge : nat) (perm : list nat) : graph nat :=
  let! g := sget in
  match gr_edges g !! edge with
  | None => sfail (GraphEdgeNotFound edge)
  | Some old =>
      let t := e_tensor old in
      let rank := length (tn_shape t) in
      if negb (length perm =? rank)%nat
      then sfail (OpRankMismatch "transpose_view" "edge" rank (length perm))
      else
        let! _ := refuse_problems (perm_problems rank perm) in
        let! new_shape := slift (gather_axes (tn_shape t) perm) in
        let! new_strides := slift (gather_axes (e_strides old) perm) in
        let! new_tensor := slift (tensor_new new_shape (tn_dtype t) (tn_quant t) (tn_layout t) (tn_placement t)
                                    (remap_sharding perm (tn_sharding t)) (tn_class t)) in
        push_edge new_tensor new_strides (Some edge)
  end.

Definition keeps_sharding (s : ShardLayout.t) : bool :=
  match s with ShardLayout.Replicated | ShardLayout.Partial => true | _ => false end.

Definition reshape_edge (edge : nat) (new_shape : list Dim.t) : graph nat :=
  let! g := sget in
  match gr_edges g !! edge with
  | None => sfail (GraphEdgeNotFound edge)
  | Some old =>
      let t := e_tensor old in
      let expected_strides := compute_contiguous_strides (tn_shape t) in
      if bool_decide (e_strides old ≠ expected_strides)
      then sfail (StrideMismatch edge (e_strides old) expected_strides)
      else if negb (tn_layout t =? LayoutId.CONTIGUOUS)
      then sfail (OpLayoutMismatch "reshape_view" "edge" LayoutId.CONTIGUOUS (tn_layout t))
      else if bool_decide (new_shape ≠ tn_shape t) && negb (keeps_sharding (tn_sharding t))
      then sfail (OpAttributeInvalid "reshape_view" "sharding"
                    (msg "reshape of {:?} requires an explicit sharding remap" [Shard (tn_sharding t)]))
      else
        let! old_count := slift (concrete_element_count (tn_shape t)) in
        let! new_count := slift (concrete_element_count new_shape) in
        let! _ := slift
          (match old_count, new_count with
           | Some o, Some n =>
               if negb (o =? n)
               then Err (OpShapeMismatch "reshape_view" "edge"
                           (msg "reshape must preserve element count, got {old_count} -> {new_count}" [Num o; Num n]))
               else Ok tt
           | _, _ => Ok tt
           end) in
        let! new_tensor := slift (tensor_new new_shape (tn_dtype t) (tn_quant t) (tn_layout t) (tn_placement t)
                                    (tn_sharding t) (tn_class t)) in
        push_edge new_tensor (compute_contiguous_strides (tn_shape new_tensor)) (Some edge)
  end.
