(* ===== verification/Materialize.v ===== *)
(** * Copy insertion and validation of a step graph

    [materialize_copies], [validate] and [summary] of
    [crates/r9v-ir/src/graph.rs].  The scan plans one copy per source edge whose
    strides fail a contiguous requirement, the apply phases rewire the
    consumers. *)

From stdpp Require Import gmap sorting.
From S2P Require Import Prelude Bytes Errors SchedError Ops OpValidate Graph.

#[global] Open Scope Z_scope.

(** ** The scan *)

Record CopyPlan : Type := {
  cp_src_edge_id : nat;
  cp_actual_strides : list Z;
  cp_expected_strides : list Z;
  cp_consumers : list (nat * nat)
}.

Record Scan : Type := {
  sc_plans : list CopyPlan;
  sc_plan_by_source : gmap nat nat;
  sc_existing_rewires : list (nat * nat * nat)
}.

Definition add_consumer (c : nat * nat) (p : CopyPlan) : CopyPlan :=
  {| cp_src_edge_id := cp_src_edge_id p; cp_actual_strides := cp_actual_strides p;
     cp_expected_strides := cp_expected_strides p; cp_consumers := cp_consumers p ++ [c] |}.

Definition is_copy (op : Op.t) : bool := match op with Op.Copy _ => true | _ => false end.

Definition requirement (n : GraphNode) (pos : nat) : StrideRequirement.t :=
  match n_requirements n !! pos with Some r => r | None => StrideRequirement.Any end.

(** The inserted copy of a source edge. *)
Definition find_copy (g : Graph) (edge : nat) : option InsertedCopy :=
  snd <$> list_find (λ c, ic_source_edge c = edge) (gr_inserted_copies g).

(** One input with a contiguous requirement. *)
Definition scan_contiguous (g : Graph) (node_idx input_pos edge_id : nat) (s : Scan) : outcome IrError Scan :=
  let* edge := or_panic (gr_edges g !! edge_id) in
  let expected := compute_contiguous_strides (tn_shape (e_tensor edge)) in
  if bool_decide (e_strides edge = expected) then Ok s
  else match find_copy g edge_id with
       | Some existing =>
           Ok {| sc_plans := sc_plans s; sc_plan_by_source := sc_plan_by_source s;
                 sc_existing_rewires := sc_existing_rewires s ++ [(ic_dest_edge existing, node_idx, input_pos)] |}
       | None =>
           match sc_plan_by_source s !! edge_id with
           | Some plan_idx =>
               let* plan := or_panic (sc_plans s !! plan_idx) in
               Ok {| sc_plans := <[plan_idx := add_consumer (node_idx, input_pos) plan]> (sc_plans s);
                     sc_plan_by_source := sc_plan_by_source s;
                     sc_existing_rewires := sc_existing_rewires s |}
           | None =>
               Ok {| sc_plans := sc_plans s ++
                       [{| cp_src_edge_id := edge_id; cp_actual_strides := e_strides edge;
                           cp_expected_strides := expected; cp_consumers := [(node_idx, input_pos)] |}];
                     sc_plan_by_source := <[edge_id := length (sc_plans s)]> (sc_plan_by_source s);
                     sc_existing_rewires := sc_existing_rewires s |}
           end
       end.

(** The inputs to visit: every input of every node but the copies, with its
    node, position and requirement. *)
Definition visits (g : Graph) : list (nat * nat * nat * StrideRequirement.t) :=
  concat (imap (λ node_idx n,
    if is_copy (n_op n) then []
    else imap (λ pos edge, (node_idx, pos, edge, requirement n pos)) (n_inputs n)) (gr_nodes g)).

Fixpoint scan_visits (g : Graph) (vs : list (nat * nat * nat * StrideRequirement.t)) (s : Scan)
    : outcome IrError Scan :=
  match vs with
  | [] => Ok s
  | (node_idx, input_pos, edge_id, req) :: vs =>
      let* s := match req with
                | StrideRequirement.Any => Ok s
                | StrideRequirement.Contiguous => scan_contiguous g node_idx input_pos edge_id s
                end in
      scan_visits g vs s
  end.

Definition scan (g : Graph) : outcome IrError Scan :=
  scan_visits g (visits g) {| sc_plans := []; sc_plan_by_source := ∅; sc_existing_rewires := [] |}.

(** ** Applying the plans *)

(** [sort_by_key(|n| n.0)] and [dedup]. *)
Definition sort_nodes : list nat → list nat := merge_sort Nat.le.

Fixpoint dedup (l : list nat) : list nat :=
  match l with
  | x :: (y :: _) as l => if bool_decide (x = y) then dedup l else x :: dedup l
  | l => l
  end.

Definition with_consumers (ns : list nat) (c : InsertedCopy) : InsertedCopy :=
  {| ic_copy_node := ic_copy_node c; ic_source_edge := ic_source_edge c; ic_dest_edge := ic_dest_edge c;
     ic_consumer_nodes := ns; ic_actual_strides := ic_actual_strides c;
     ic_expected_strides := ic_expected_strides c |}.

Definition record_consumer (dest node_idx : nat) (cs : list InsertedCopy) : list InsertedCopy :=
  match list_find (λ c, ic_dest_edge c = dest) cs with
  | Some (i, c) =>
      if bool_decide (node_idx ∈ ic_consumer_nodes c) then cs
      else <[i := with_consumers (sort_nodes (ic_consumer_nodes c ++ [node_idx])) c]> cs
  | None => cs
  end.

Definition apply_existing (r : nat * nat * nat) : graph unit :=
  let '(dest_edge, node_idx, input_pos) := r in
  let! _ := assign_input node_idx input_pos dest_edge in
  smodify (λ g, set_copies (record_consumer dest_edge node_idx (gr_inserted_copies g)) g).

Definition apply_plan (plan : CopyPlan) : graph unit :=
  let! g := sget in
  let! src := slift (or_panic (gr_edges g !! cp_src_edge_id plan)) in
  let t := e_tensor src in
  let! copy_out := slift (tensor_new (tn_shape t) (tn_dtype t) (tn_quant t) LayoutId.CONTIGUOUS (tn_placement t)
                            (tn_sharding t) (tn_class t)) in
  let! copy_out_edge := push_tensor_edge copy_out in
  let! copy_node := push_node (Op.Copy {| co_kind := CopyKind.Contiguize |}) [cp_src_edge_id plan]
                      [StrideRequirement.Any] [copy_out_edge] in
  let! _ := sfor (λ '(node_idx, input_pos), assign_input node_idx input_pos copy_out_edge) (cp_consumers plan) in
  smodify (λ g, set_copies (gr_inserted_copies g ++
    [{| ic_copy_node := copy_node; ic_source_edge := cp_src_edge_id plan; ic_dest_edge := copy_out_edge;
        ic_consumer_nodes := dedup (sort_nodes (map fst (cp_consumers plan)));
        ic_actual_strides := cp_actual_strides plan; ic_expected_strides := cp_expected_strides plan |}]) g).

Definition materialize_copies : graph nat :=
  let! g := sget in
  let! s := slift (scan g) in
  let! _ := sfor apply_existing (sc_existing_rewires s) in
  let count := length (sc_plans s) in
  let! _ := sfor apply_plan (sc_plans s) in
  sret count.

(** ** Validation *)

(** [Multiple] is spliced, another problem kept. *)
Definition spliced (r : outcome IrError unit) : option (list IrError) :=
  match r with
  | Ok _ => Some []
  | Err (Multiple problems) => Some problems
  | Err e => Some [e]
  | Panic => None
  end.

Definition rank_mismatches (g : Graph) : list IrError :=
  concat (map (λ e, match tn_placement (e_tensor e) with
                    | Placement.Device rank =>
                        if negb (rank =? k_rank (gr_key g))
                        then [GraphTensorRankMismatch (e_id e) rank (k_rank (gr_key g))] else []
                    | _ => []
                    end) (gr_edges g)).

Definition graph_needs (f : Op.t → bool) (g : Graph) : bool := existsb (λ n, f (n_op n)) (gr_nodes g).

Definition is_attention (o : Op.t) : bool := match o with Op.Attention _ => true | _ => false end.
Definition is_state_write (o : Op.t) : bool := match o with Op.StateWriteKv _ => true | _ => false end.
Definition is_logits_postprocess (o : Op.t) : bool := match o with Op.LogitsPostprocess => true | _ => false end.
Definition is_sample (o : Op.t) : bool := match o with Op.Sample _ => true | _ => false end.
Definition is_verify (o : Op.t) : bool := match o with Op.Verify _ => true | _ => false end.
Definition is_rope (o : Op.t) : bool := match o with Op.Rope _ => true | _ => false end.

Definition missing_input (g : Graph) (needed : bool) (input : ExternalInput.t) (kind : ExternalInputKind.t)
    (required_by : string) : list IrError :=
  if needed && negb (bool_decide (input ∈ gr_external_inputs g))
  then [GraphExternalInputMissing kind required_by] else [].

Definition missing_output (g : Graph) (needed : bool) (required_by : string) : list IrError :=
  if needed && negb (bool_decide (ExternalOutput.UpdatedRngState ∈ gr_external_outputs g))
  then [GraphExternalOutputMissing ExternalOutputKind.UpdatedRngState required_by] else [].

Definition structured_problems (g : Graph) : list IrError :=
  missing_input g (graph_needs is_attention g) ExternalInput.BatchMeta ExternalInputKind.BatchMeta "attention" ++
  missing_input g (graph_needs is_state_write g) ExternalInput.BatchMeta ExternalInputKind.BatchMeta "state_write_kv" ++
  missing_input g (graph_needs is_logits_postprocess g) ExternalInput.SamplingParams ExternalInputKind.SamplingParams
    "logits_postprocess" ++
  missing_input g (graph_needs is_sample g) ExternalInput.RngState ExternalInputKind.RngState "sample" ++
  missing_input g (graph_needs is_verify g) ExternalInput.RngState ExternalInputKind.RngState "verify" ++
  missing_output g (graph_needs is_sample g) "sample" ++
  missing_output g (graph_needs is_verify g) "verify".

Definition rope_problems (g : Graph) (n : GraphNode) : list IrError :=
  if is_rope (n_op n)
  then match gr_positions g with
       | None => [GraphPositionsMissing "rope"]
       | Some (_, expected) =>
           match n_inputs n !! 1%nat with
           | Some edge => if bool_decide (edge = expected) then []
                          else [GraphRopePositionsMismatch (n_id n) edge expected]
           | None => [GraphPositionsMissing "rope"]
           end
       end
  else [].

(** The tensors of the edges that exist, and a problem for each that does not. *)
Definition edge_tensors (g : Graph) (edges : list nat) : list Tensor * list IrError :=
  (omap (λ e, e_tensor <$> gr_edges g !! e) edges, missing_edges g edges).

Definition node_problems (g : Graph) (n : GraphNode) : option (list IrError) :=
  let '(in_tensors, in_missing) := edge_tensors g (n_inputs n) in
  let '(out_tensors, out_missing) := edge_tensors g (n_outputs n) in
  match in_missing ++ out_missing with
  | [] => spliced (op_validate (n_op n) in_tensors out_tensors)
  | missing => Some missing
  end.

Fixpoint all_node_problems (g : Graph) (ns : list GraphNode) : option (list IrError) :=
  match ns with
  | [] => Some []
  | n :: ns =>
      match node_problems g n, all_node_problems g ns with
      | Some p, Some q => Some (p ++ q)
      | _, _ => None
      end
  end.

Definition output_problems (g : Graph) : list IrError :=
  concat (map (λ o, match ExternalOutput.edge_id o with
                    | Some e => if (length (gr_edges g) <=? e)%nat then [GraphEdgeNotFound e] else []
                    | None => []
                    end) (gr_external_outputs g)).

Definition graph_validate (g : Graph) : outcome IrError unit :=
  match spliced (let* _ := topological_order g in Ok tt), all_node_problems g (gr_nodes g) with
  | Some order_problems, Some op_problems =>
      from_problems (rank_mismatches g ++ order_problems ++ structured_problems g ++
                     concat (map (rope_problems g) (gr_nodes g)) ++ op_problems ++ output_problems g)
  | _, _ => Panic
  end.

(** ** Summary *)

Record GraphSummary : Type := {
  gs_key : StepGraphKey;
  gs_op_count : nat;
  gs_edge_count : nat;
  gs_external_inputs : list ExternalInputKind.t;
  gs_external_outputs : list ExternalOutputKind.t;
  gs_inserted_copies : list InsertedCopy
}.

Definition summary (g : Graph) : GraphSummary :=
  {| gs_key := gr_key g; gs_op_count := length (gr_nodes g); gs_edge_count := length (gr_edges g);
     gs_external_inputs := map ExternalInput.kind (gr_external_inputs g);
     gs_external_outputs := map ExternalOutput.kind (gr_external_outputs g);
     gs_inserted_copies := gr_inserted_copies g |}.
