(* ===== verification/GraphInv.v ===== *)
(** * Well-formed step graphs

    The invariant [wf] of a step graph and that every builder method keeps it,
    on success and on refusal alike, and never panics: identifiers are
    positions, references are in range, every edge has one origin (an op, a
    view of an earlier edge, or a source), every tensor obeys the rules of
    [Tensor::new], and every stride vector has its tensor's rank.

    The topological order of a step graph: Kahn's algorithm of [Graph.topological_order] of
    [crates/r9v-ir/src/graph.rs], first over a list of dependencies between
    numbered nodes.  [indeg] counts the dependencies on nodes not yet in the
    order; the invariant [kahn_inv] says the in-degrees hold those counts, the
    queue holds the nodes whose count is zero, and the order respects every
    dependency. *)

From stdpp Require Import gmap sorting relations.
From stdpp Require Import gmap sorting.
From S2P Require Import Prelude Wp Bytes Errors SchedError Ops OpValidate Graph Materialize.

#[global] Open Scope Z_scope.
#[local] Open Scope nat_scope.

(** ** Counting *)

Definition cnt (v : nat) (l : list nat) : nat := length (filter (.= v) l).

Lemma cnt_cons v c l : cnt v (c :: l) = (if decide (c = v) then 1 else 0) + cnt v l.
Proof. unfold cnt. rewrite filter_cons. by case_decide. Qed.

Lemma cnt_pos v l : v ∈ l ↔ 0 < cnt v l.
Proof.
  induction l as [|c l IH]; [split; [by intros ?%not_elem_of_nil|cbn; lia]|].
  rewrite cnt_cons, elem_of_cons, IH. case_decide; subst; split; intros; try lia; naive_solver lia.
Qed.

Lemma cnt_zero v l : v ∉ l ↔ cnt v l = 0.
Proof. rewrite cnt_pos. lia. Qed.

Section Kahn.
Context (E : list (nat * nat)) (n : nat).

(** The dependencies of [v] on nodes outside [order]. *)
Definition indeg (v : nat) (order : list nat) : nat :=
  length (filter (λ d, d.2 = v ∧ d.1 ∉ order) E).

Definition consumers_of (p : nat) : list nat := snd <$> filter (λ d, d.1 = p) E.

Lemma elem_of_consumers p v : v ∈ consumers_of p ↔ (p, v) ∈ E.
Proof.
  unfold consumers_of. rewrite list_elem_of_fmap. setoid_rewrite list_elem_of_filter. split.
  - by intros ([? ?] & -> & <- & ?).
  - intros ?. by exists (p, v).
Qed.

Lemma indeg_pos v order : 0 < indeg v order → ∃ p, (p, v) ∈ E ∧ p ∉ order.
Proof.
  unfold indeg. intros H. destruct (filter _ E) as [|[p c] l] eqn:F; [simpl in H; lia|].
  assert ((p, c) ∈ filter (λ d, d.2 = v ∧ d.1 ∉ order) E) as Hin by (rewrite F; left).
  apply list_elem_of_filter in Hin as [[? ?] ?]; simpl in *; subst. eauto.
Qed.

Lemma indeg_in p v order : (p, v) ∈ E → p ∉ order → 0 < indeg v order.
Proof.
  intros Hp Hn. unfold indeg.
  assert ((p, v) ∈ filter (λ d, d.2 = v ∧ d.1 ∉ order) E) as Hin by (by apply list_elem_of_filter).
  destruct (filter _ E); [by apply not_elem_of_nil in Hin|]. simpl. lia.
Qed.

Lemma indeg_zero v order : indeg v order = 0 ↔ ∀ p, (p, v) ∈ E → p ∈ order.
Proof.
  split.
  - intros Hz p Hp. destruct (decide (p ∈ order)); [done|]. pose proof (indeg_in p v order). naive_solver lia.
  - intros Hall. destruct (indeg v order) eqn:D; [done|]. destruct (indeg_pos v order) as (p & Hp & Hn); [lia|].
    naive_solver.
Qed.

(** Putting [u] in the order takes its consumers' counts down. *)
Lemma indeg_snoc v order u : u ∉ order → indeg v order = indeg v (order ++ [u]) + cnt v (consumers_of u).
Proof.
  intros Hu. unfold indeg, cnt, consumers_of. induction E as [|[p c] l IH]; [done|].
  rewrite !filter_cons. cbn [fst snd].
  destruct (decide (p = u)) as [->|Hp].
  - rewrite (decide_False (P:=c = v ∧ u ∉ order ++ [u])) by set_solver. rewrite fmap_cons, filter_cons. cbn [snd].
    destruct (decide (c = v)) as [->|Hc].
    + rewrite decide_True by done. cbn [length]. lia.
    + rewrite decide_False by naive_solver. lia.
  - destruct (decide (c = v ∧ p ∉ order)).
    + rewrite decide_True by set_solver. cbn [length]. lia.
    + rewrite decide_False by set_solver. lia.
Qed.

(** ** Releasing the consumers of one node *)

Lemma release_spec (base : nat → nat) cs deg queue :
  length deg = n → Forall (λ c, c < n) cs →
  (∀ v, v < n → deg !! v = Some (base v + cnt v cs)) →
  NoDup queue → (∀ v, v ∈ queue → v ∉ cs) →
  ∃ deg' queue',
    release_consumers cs deg queue = Ok (deg', queue') ∧ length deg' = n ∧ (∀ v, v < n → deg' !! v = Some (base v)) ∧
    NoDup queue' ∧ (∀ v, v ∈ queue' ↔ v ∈ queue ∨ (v ∈ cs ∧ base v = 0)).
Proof.
  revert deg queue. induction cs as [|c cs IH]; intros deg queue Hlen Hcs Hdeg Hnd Hq.
  - exists deg, queue. cbn. split_and!; try done.
    + intros v Hv. rewrite (Hdeg v Hv). by rewrite Nat.add_0_r.
    + set_solver.
  - apply Forall_cons in Hcs as [Hc Hcs]. cbn [release_consumers]. unfold vec_decr.
    assert (Hdc := Hdeg c Hc). rewrite cnt_cons, decide_True in Hdc by done.
    replace (base c + (1 + cnt c cs)) with (S (base c + cnt c cs)) in Hdc by lia.
    rewrite Hdc. cbn -[cnt]. rewrite list_lookup_insert_eq by lia. cbn -[cnt].
    set (deg1 := <[c:=base c + cnt c cs]> deg).
    assert (Hdeg1 : ∀ v, v < n → deg1 !! v = Some (base v + cnt v cs)).
    { intros v Hv. subst deg1. destruct (decide (v = c)) as [->|].
      - by rewrite list_lookup_insert_eq by lia.
      - rewrite list_lookup_insert_ne, Hdeg, cnt_cons by done. by rewrite decide_False. }
    destruct (Nat.eqb_spec (base c + cnt c cs) 0) as [Hz|Hz].
    + destruct (IH deg1 (queue ++ [c])) as (deg' & queue' & Hr & Hl & Hd & Hn & Hin); try done.
      * subst deg1. by rewrite length_insert.
      * apply NoDup_app. split_and!; [done| |apply NoDup_singleton].
        intros x Hx ->%list_elem_of_singleton. apply (Hq c Hx). left.
      * intros v. rewrite elem_of_app, list_elem_of_singleton. intros [Hv | ->].
        -- specialize (Hq v Hv). set_solver.
        -- apply cnt_zero. lia.
      * exists deg', queue'. split_and!; try done. intros v. rewrite Hin, elem_of_app, list_elem_of_singleton, elem_of_cons.
        split; [|naive_solver]. intros [[? | ->]|[? ?]]; [by left|right; split; [by left|lia]|right; naive_solver].
    + destruct (IH deg1 queue) as (deg' & queue' & Hr & Hl & Hd & Hn & Hin); try done.
      * subst deg1. by rewrite length_insert.
      * intros v Hv. specialize (Hq v Hv). set_solver.
      * exists deg', queue'. split_and!; try done. intros v. rewrite Hin, elem_of_cons.
        split; [naive_solver|]. intros [?|[[-> | ?] ?]]; [by left| |right; done].
        destruct (decide (c ∈ cs)) as [|Hnin]; [right; done|]. apply cnt_zero in Hnin. lia.
Qed.

(** ** The loop *)

(** Every node comes after the nodes it depends on. *)
Definition ordered (order : list nat) : Prop :=
  ∀ l1 v l2, order = l1 ++ v :: l2 → ∀ p, (p, v) ∈ E → p ∈ l1.

Record kahn_inv (deg queue order : list nat) : Prop := {
  ki_nodup : NoDup (order ++ queue);
  ki_range : Forall (λ v, v < n) (order ++ queue);
  ki_length : length deg = n;
  ki_degree : ∀ v, v < n → deg !! v = Some (indeg v order);
  ki_ready : ∀ v, v < n → v ∈ order ++ queue ↔ indeg v order = 0;
  ki_ordered : ordered order
}.

Lemma ordered_snoc order v : ordered order → (∀ p, (p, v) ∈ E → p ∈ order) → ordered (order ++ [v]).
Proof.
  intros Ho Hv l1 u l2 Heq p Hp. destruct l2 as [|w l2 _] using rev_ind.
  - apply app_inj_tail in Heq as [-> ->]. by apply Hv.
  - rewrite app_comm_cons, app_assoc in Heq. apply app_inj_tail in Heq as [-> _]. by eapply Ho.
Qed.

Lemma bounded_length l : NoDup l → Forall (λ v, v < n) l → length l ≤ n.
Proof.
  intros Hnd Hr. rewrite <- (length_seq n 0). apply submseteq_length, NoDup_submseteq; [done|].
  intros v Hv. eapply Forall_forall in Hr; [|done]. apply elem_of_seq. lia.
Qed.

Context (adjacency : list (list nat)).
Context (HE : Forall (λ d, d.1 < n ∧ d.2 < n) E).
Context (Hadj : ∀ p, p < n → adjacency !! p = Some (consumers_of p)).

Lemma consumers_range p : Forall (λ c, c < n) (consumers_of p).
Proof.
  apply Forall_forall. intros v Hv%elem_of_consumers. eapply Forall_forall in HE; [|done]. by destruct HE.
Qed.

(** One iteration. *)
Lemma kahn_step deg queue order node :
  kahn_inv deg (node :: queue) order →
  ∃ deg' queue', release_consumers (consumers_of node) deg queue = Ok (deg', queue') ∧ kahn_inv deg' queue' (order ++ [node]).
Proof.
  intros [Hnd Hr Hl Hd Hz Ho].
  apply NoDup_app in Hnd as (Hno & Hdisj & [Hnq Hnd]%NoDup_cons).
  apply Forall_app in Hr as [Hro [Hrn Hrq]%Forall_cons].
  assert (node ∉ order) as Hnode by (intros ?; apply (Hdisj node); [done|left]).
  assert (Hq : ∀ v, v ∈ order ++ node :: queue → v < n).
  { intros v [Hv|[->|Hv]%elem_of_cons]%elem_of_app; [by eapply Forall_forall in Hro|done|by eapply Forall_forall in Hrq]. }
  destruct (release_spec (λ v, indeg v (order ++ [node])) (consumers_of node) deg queue)
    as (deg' & queue' & Hrel & Hl' & Hd' & Hnd' & Hin); try done.
  - apply consumers_range.
  - intros v Hv. rewrite (Hd v Hv). by rewrite (indeg_snoc v order node).
  - intros v Hv. assert (indeg v order = 0) as H0 by (apply Hz; [apply Hq|]; set_solver).
    rewrite (indeg_snoc v order node) in H0 by done. apply cnt_zero. lia.
  - exists deg', queue'. split; [done|]. assert (Hmono : ∀ v, indeg v order = 0 → indeg v (order ++ [node]) = 0).
    { intros v H0. rewrite (indeg_snoc v order node) in H0 by done. lia. }
    split; try done.
    + rewrite <- app_assoc. simpl. apply NoDup_app. split_and!; [done| |].
      * intros v Hv. rewrite elem_of_cons, Hin. intros [-> |[Hvq|[Hvc _]]]; [done|apply (Hdisj v); set_solver|].
        assert (indeg v order = 0) as H0 by (apply Hz; [apply Hq|]; set_solver).
        rewrite (indeg_snoc v order node) in H0 by done. apply cnt_pos in Hvc. lia.
      * apply NoDup_cons. split; [|done]. rewrite Hin. intros [?|[Hvc _]]; [done|].
        assert (indeg node order = 0) as H0 by (apply Hz; [done|]; set_solver).
        rewrite (indeg_snoc node order node) in H0 by done. apply cnt_pos in Hvc. lia.
    + apply Forall_forall. intros v. rewrite !elem_of_app, Hin, list_elem_of_singleton.
      intros [[Hv| ->]|[Hv|[Hv _]]]; [apply Hq; set_solver|done|apply Hq; set_solver|].
      pose proof (consumers_range node) as Hc. by eapply Forall_forall in Hc.
    + intros v Hv. rewrite !elem_of_app, Hin, list_elem_of_singleton. split.
      * intros [[Ho'| ->]|[Hvq|[_ H0]]]; [| | |done]; apply Hmono, Hz; set_solver.
      * intros H0. destruct (decide (indeg v order = 0)) as [Hz0|Hnz].
        -- apply Hz in Hz0; [|done]. set_solver.
        -- right. right. split; [|done]. rewrite (indeg_snoc v order node) in Hnz by done. apply cnt_pos. lia.
    + apply ordered_snoc; [done|]. apply indeg_zero, Hz; [done|]. set_solver.
Qed.

Lemma kahn_total fuel deg queue order :
  kahn_inv deg queue order → n ≤ fuel + length order →
  ∃ deg' order', kahn fuel adjacency deg queue order = Ok (deg', order') ∧ kahn_inv deg' [] order'.
Proof.
  revert deg queue order. induction fuel as [|fuel IH]; intros deg queue order Hinv Hfuel.
  - destruct queue as [|node queue]; [by exists deg, order|]. exfalso.
    pose proof (bounded_length _ (ki_nodup _ _ _ Hinv) (ki_range _ _ _ Hinv)) as Hb.
    rewrite length_app in Hb. simpl in Hb. lia.
  - destruct queue as [|node queue]; [by exists deg, order|].
    destruct (kahn_step _ _ _ _ Hinv) as (deg' & queue' & Hrel & Hinv').
    assert (node < n) as Hn.
    { pose proof (ki_range _ _ _ Hinv) as Hr. apply Forall_app in Hr as [_ [? _]%Forall_cons]. done. }
    destruct (IH deg' queue' (order ++ [node])) as (deg'' & order' & Hk & Hinv''); [done|rewrite length_app; simpl; lia|].
    exists deg'', order'. split; [|done]. cbn [kahn]. rewrite (Hadj _ Hn). cbn. by rewrite Hrel.
Qed.

(** The nodes a finished loop has not reached depend on one another. *)
Lemma kahn_stuck deg order v :
  kahn_inv deg [] order → v < n → v ∉ order → ∃ p, (p, v) ∈ E ∧ p < n ∧ p ∉ order.
Proof.
  intros Hinv Hv Hn. destruct (indeg_pos v order) as (p & Hp & Hpo).
  - destruct (indeg v order) eqn:D; [|lia]. apply (ki_ready _ _ _ Hinv) in D; [|done].
    by rewrite app_nil_r in D.
  - exists p. split_and!; try done. eapply Forall_forall in HE; [|done]. by destruct HE.
Qed.
End Kahn.

(** ** Cycles *)

(** In a finite set in which every element has a predecessor, every element is
    on a cycle or after one. *)
Lemma predecessor_cycle (R : relation nat) (stuck : list nat) :
  (∀ v, v ∈ stuck → ∃ p, R p v ∧ p ∈ stuck) → ∀ v, v ∈ stuck → ∃ u, u ∈ stuck ∧ tc R u u ∧ tc R u v.
Proof.
  intros Hpred v Hv.
  assert (∀ k h path, h ∈ path → v ∈ path → NoDup path → (∀ u, u ∈ path → u ∈ stuck) →
    (∀ u, u ∈ path → u = h ∨ tc R h u) →
    length stuck < k + length path → ∃ u, u ∈ stuck ∧ tc R u u ∧ tc R u v) as Hpath.
  { intros k. induction k as [|k IH]; intros h path Hh Hvp Hnd Hsub Hreach Hlen.
    - exfalso. pose proof (NoDup_submseteq _ _ Hnd Hsub) as Hle%submseteq_length. lia.
    - destruct (Hpred h) as (p & Hp & Hps); [by apply Hsub|].
      assert (∀ u, u ∈ path → tc R p u) as Hr.
      { intros u Hu. destruct (Hreach u Hu) as [-> |?]; [by apply tc_once|by eapply tc_l]. }
      destruct (decide (p ∈ path)) as [Hin|Hnin]; [exists p; auto|].
      apply (IH p (p :: path)); [left|by right|by apply NoDup_cons| | |simpl; lia].
      + intros u [-> |?]%elem_of_cons; auto.
      + intros u [-> |?]%elem_of_cons; auto. }
  apply (Hpath (length stuck) v [v]); [left|left|apply NoDup_singleton| | |simpl; lia].
  - by intros u ->%list_elem_of_singleton.
  - intros u ->%list_elem_of_singleton. by left.
Qed.

(** An order that respects the dependencies leaves no cycle among them. *)
Lemma ordered_acyclic (E : list (nat * nat)) order :
  NoDup order → ordered E order → (∀ d, d ∈ E → d.2 ∈ order) → ∀ v, ¬ tc (λ p v, (p, v) ∈ E) v v.
Proof.
  intros Hnd Ho Hin.
  assert (∀ u w, tc (λ p v, (p, v) ∈ E) u w → ∀ l1 l2, order = l1 ++ w :: l2 → u ∈ l1) as Hbefore.
  { intros u w Ht. induction Ht as [u w Huw|u x w Hux Ht IH]; intros l1 l2 Heq; [by eapply Ho|].
    specialize (IH _ _ Heq). apply list_elem_of_split in IH as (k1 & k2 & ->).
    rewrite <- app_assoc in Heq. simpl in Heq. pose proof (Ho _ _ _ Heq _ Hux). set_solver. }
  assert (∀ u w, tc (λ p v, (p, v) ∈ E) u w → w ∈ order) as Hend.
  { intros u w Ht. induction Ht as [u w Huw|u x w _ _ IH]; [by apply (Hin (u, w))|done]. }
  intros v Ht. pose proof (Hend _ _ Ht) as (l1 & l2 & Heq)%list_elem_of_split.
  pose proof (Hbefore _ _ Ht _ _ Heq) as Hv. rewrite Heq in Hnd.
  apply NoDup_app in Hnd as (_ & Hdisj & _). apply (Hdisj v Hv). left.
Qed.

#[local] Open Scope Z_scope.

(** * Well-formed step graphs *)

(** The extents of a shape are [u32]s. *)
Definition dim_u32 (d : Dim.t) : Prop :=
  match d with Dim.Concrete c => is_u32 c | Dim.Symbolic _ => True end.

Definition tensor_wf (t : Tensor) : Prop := tensor_ok t ∧ Forall dim_u32 (tn_shape t).

Record edge_wf (i : nat) (e : GraphEdge) : Prop := {
  ew_id : e_id e = i;
  ew_source : ∀ s, e_source_edge e = Some s → (s < i)%nat;
  ew_tensor : tensor_wf (e_tensor e);
  ew_strides : length (e_strides e) = rank (e_tensor e)
}.

Record node_wf (edges i : nat) (n : GraphNode) : Prop := {
  nw_id : n_id n = i;
  nw_inputs : ∀ e, e ∈ n_inputs n → (e < edges)%nat;
  nw_outputs : ∀ e, e ∈ n_outputs n → (e < edges)%nat;
  nw_requirements : length (n_requirements n) = length (n_inputs n)
}.

(** Node [p] has [e] among its outputs. *)
Definition outputs_edge (g : Graph) (p e : nat) : Prop :=
  ∃ n, gr_nodes g !! p = Some n ∧ e ∈ n_outputs n.

(** [e] is a view of [s]. *)
Definition views (g : Graph) (e s : nat) : Prop :=
  ∃ ed, gr_edges g !! e = Some ed ∧ e_source_edge ed = Some s.

Record wf (g : Graph) : Prop := {
  wf_edges : ∀ i e, gr_edges g !! i = Some e → edge_wf i e;
  wf_nodes : ∀ i n, gr_nodes g !! i = Some n → node_wf (length (gr_edges g)) i n;
  wf_once : ∀ p q e, outputs_edge g p e → outputs_edge g q e → p = q;
  wf_view : ∀ p e s, outputs_edge g p e → ¬ views g e s;
  wf_copies : ∀ c, c ∈ gr_inserted_copies g → (ic_dest_edge c < length (gr_edges g))%nat;
  wf_external : ∀ o e, o ∈ gr_external_outputs g → ExternalOutput.edge_id o = Some e →
    (e < length (gr_edges g))%nat
}.

Lemma graph_new_wf key : wf (graph_new key).
Proof. split; try done; unfold outputs_edge; simpl; set_solver. Qed.

Lemma outputs_range g p e : wf g → outputs_edge g p e → (e < length (gr_edges g))%nat.
Proof. intros Hwf (n & Hn & He). by eapply nw_outputs; [eapply wf_nodes|]. Qed.

Lemma elem_of_concat {A} (ls : list (list A)) x : x ∈ concat ls ↔ ∃ l, l ∈ ls ∧ x ∈ l.
Proof.
  induction ls as [|l ls IH]; [set_solver|]. cbn [concat]. rewrite elem_of_app, IH. set_solver.
Qed.

Lemma snoc_Some {A} (l : list A) x i y :
  (l ++ [x]) !! i = Some y ↔ l !! i = Some y ∨ (i = length l ∧ x = y).
Proof.
  rewrite lookup_app_Some, list_lookup_singleton_Some. split.
  - intros [?|(? & ? & ->)]; [by left|right; split; [lia|done]].
  - intros [?|[-> ->]]; [by left|right; split_and!; [lia|lia|done]].
Qed.

(** Appending an edge changes no other. *)
Lemma push_edge_wf g t strides source :
  wf g → tensor_wf t → length strides = rank t → (∀ s, source = Some s → (s < length (gr_edges g))%nat) →
  wf (set_edges (gr_edges g ++
        [{| e_id := length (gr_edges g); e_tensor := t; e_strides := strides; e_source_edge := source |}]) g).
Proof.
  intros Hwf Ht Hs Hsrc. pose proof Hwf as [He Hn Ho Hv Hc Hx]. split; simpl.
  - intros i e [?|[-> <-]]%snoc_Some; [by apply He|]. split; simpl; auto.
  - intros i n Hi. destruct (Hn i n Hi) as [H1 H2 H3 H4]. rewrite length_app. simpl.
    split; try done; intros e ?; [specialize (H2 e)|specialize (H3 e)]; naive_solver lia.
  - apply Ho.
  - intros p e s Hp (ed & Hed & Hse). apply snoc_Some in Hed as [?|[-> <-]].
    + eapply Hv; [exact Hp|]. by eexists.
    + apply (outputs_range g) in Hp; [lia|done].
  - intros c ?%Hc. rewrite length_app. lia.
  - intros o e ??. rewrite length_app. specialize (Hx o e). naive_solver lia.
Qed.

Lemma wp_push_edge t strides source (Q : nat → Graph → Prop) R g :
  Q (length (gr_edges g))
    (set_edges (gr_edges g ++
       [{| e_id := length (gr_edges g); e_tensor := t; e_strides := strides; e_source_edge := source |}]) g) →
  wp (push_edge t strides source) Q R g.
Proof. done. Qed.

Lemma strides_of_length shape : length (strides_of shape).1 = length shape.
Proof.
  induction shape as [|d shape IH]; [done|]. simpl. destruct (strides_of shape) as [ss st] eqn:E. simpl in *. by f_equal.
Qed.

Lemma contiguous_length t : length (compute_contiguous_strides (tn_shape t)) = rank t.
Proof. apply strides_of_length. Qed.

(** Appending a node whose outputs have no other origin. *)
Lemma push_node_wf g op inputs requirements outputs :
  wf g → (∀ e, e ∈ inputs → (e < length (gr_edges g))%nat) →
  length requirements = length inputs →
  (∀ e, e ∈ outputs → (e < length (gr_edges g))%nat ∧ (∀ p, ¬ outputs_edge g p e) ∧ (∀ s, ¬ views g e s)) →
  wf (set_nodes (gr_nodes g ++
        [{| n_id := length (gr_nodes g); n_op := op; n_inputs := inputs; n_requirements := requirements;
            n_outputs := outputs |}]) g).
Proof.
  intros Hwf Hin Hr Hout. pose proof Hwf as [He Hn Ho Hv Hc Hx].
  assert (∀ p e, outputs_edge (set_nodes (gr_nodes g ++
        [{| n_id := length (gr_nodes g); n_op := op; n_inputs := inputs; n_requirements := requirements;
            n_outputs := outputs |}]) g) p e → outputs_edge g p e ∨ p = length (gr_nodes g) ∧ e ∈ outputs) as Hcases.
  { intros p e (n & Hp & Hen). simpl in Hp. apply snoc_Some in Hp as [?|[-> <-]]; [left; by exists n|by right]. }
  split; simpl; try done.
  - intros i n [?|[-> <-]]%snoc_Some; [by apply Hn|]. split; simpl; try done. intros e ?%Hout. naive_solver.
  - intros p q e [Hp|[-> Hp]]%Hcases [Hq|[-> Hq]]%Hcases; [by eapply Ho| | |done].
    + apply Hout in Hq as (_ & Hq & _). by apply Hq in Hp.
    + apply Hout in Hp as (_ & Hp & _). by apply Hp in Hq.
  - intros p e s [Hp|[-> Hp]]%Hcases Hview; [by eapply Hv|]. apply Hout in Hp as (_ & _ & Hp). by eapply Hp.
Qed.

(** Changes that keep edges, nodes and copies. *)
Lemma wf_same g g' :
  gr_edges g' = gr_edges g → gr_nodes g' = gr_nodes g → gr_inserted_copies g' = gr_inserted_copies g →
  (∀ o e, o ∈ gr_external_outputs g' → ExternalOutput.edge_id o = Some e → (e < length (gr_edges g))%nat) →
  wf g → wf g'.
Proof.
  intros E1 E2 E3 Hx [He Hn Ho Hv Hc _].
  split; unfold outputs_edge, views in *; rewrite ?E1, ?E2, ?E3 in *; eauto.
Qed.

(** Replacing the inputs or requirements of a node. *)
Lemma set_node_wf g i n n' :
  wf g → gr_nodes g !! i = Some n → n_id n' = n_id n → n_outputs n' = n_outputs n →
  (∀ e, e ∈ n_inputs n' → (e < length (gr_edges g))%nat) → length (n_requirements n') = length (n_inputs n') →
  wf (set_nodes (<[i := n']> (gr_nodes g)) g).
Proof.
  intros [He Hn Ho Hv Hc Hx] Hi Hid Hout Hin Hr.
  assert (∀ p e, outputs_edge (set_nodes (<[i := n']> (gr_nodes g)) g) p e → outputs_edge g p e) as Hcases.
  { intros p e (m & Hp & Hen). simpl in Hp. apply list_lookup_insert_Some in Hp as [(<- & <- & _)|[_ Hp]].
    - rewrite Hout in Hen. by exists n.
    - by exists m. }
  split; simpl; try done.
  - intros j m [(<- & <- & _)|[_ Hj]]%list_lookup_insert_Some; [|by apply Hn].
    destruct (Hn i n Hi) as [H1 H2 H3 H4]. split; [congruence|done|by rewrite Hout|done].
  - intros p q e ?%Hcases ?%Hcases. by eapply Ho.
  - intros p e s ?%Hcases. by eapply Hv.
Qed.

Lemma wp_vec_set {S E A} i (x : A) l (Q : list A → S → Prop) (R : E → S → Prop) s :
  (i < length l)%nat → Q (<[i := x]> l) s → wp (slift (vec_set i x l)) Q R s.
Proof. intros Hi HQ. unfold vec_set. apply Nat.ltb_lt in Hi. rewrite Hi. done. Qed.

(** [self.nodes[node].inputs[pos] = edge]. *)
Lemma wp_assign_input node pos edge n (Q : unit → Graph → Prop) R g :
  gr_nodes g !! node = Some n → (pos < length (n_inputs n))%nat →
  Q tt (set_nodes (<[node := with_inputs (<[pos := edge]> (n_inputs n)) n]> (gr_nodes g)) g) →
  wp (assign_input node pos edge) Q R g.
Proof.
  intros Hn Hp HQ. unfold assign_input. wp_step. wp_step. wp_step.
  rewrite Hn. wp_step; [done|intros ? [= <-]|done]. wp_step. apply wp_vec_set; [done|]. by wp_step.
Qed.

Lemma assign_input_wf node pos edge n g :
  wf g → gr_nodes g !! node = Some n → (pos < length (n_inputs n))%nat → (edge < length (gr_edges g))%nat →
  wf (set_nodes (<[node := with_inputs (<[pos := edge]> (n_inputs n)) n]> (gr_nodes g)) g).
Proof.
  intros Hwf Hn Hp He. pose proof (wf_nodes _ Hwf _ _ Hn) as [H1 H2 H3 H4].
  eapply set_node_wf; try done; simpl.
  - intros e [j Hj]%list_elem_of_lookup. apply list_lookup_insert_Some in Hj as [(_ & <- & _)|[_ Hj]]; [done|].
    eapply H2, list_elem_of_lookup_2; done.
  - by rewrite length_insert.
Qed.

(** Replacing the strides of an edge by as many. *)
Lemma set_strides_wf edge strides e g :
  wf g → gr_edges g !! edge = Some e → length strides = rank (e_tensor e) →
  wf (set_edges (<[edge := with_edge_strides strides e]> (gr_edges g)) g).
Proof.
  intros [He Hn Ho Hv Hc Hx] Hi Hs.
  assert (∀ v s, views (set_edges (<[edge := with_edge_strides strides e]> (gr_edges g)) g) v s → views g v s) as Hviews.
  { intros v s (ed & Hed & Hse). simpl in Hed. apply list_lookup_insert_Some in Hed as [(<- & <- & _)|[_ Hed]];
      [by exists e|by exists ed]. }
  split; simpl; rewrite ?length_insert; try done.
  - intros i ed [(<- & <- & _)|[_ Hj]]%list_lookup_insert_Some; [|by apply He].
    destruct (He edge e Hi). by split.
  - intros p v s ? ?%Hviews. by eapply Hv.
Qed.

(** ** The methods *)

(** The call does not panic; it keeps the invariant, and refused it changes nothing. *)
Notation keeps c g := (wp c (λ _, wf) (λ _ g', g' = g) g).

Lemma wp_refuse_problems ps (Q : unit → Graph → Prop) (R : IrError → Graph → Prop) g :
  (ps = [] → Q tt g) → (∀ e, R e g) → wp (refuse_problems ps) Q R g.
Proof.
  intros HQ HR. unfold refuse_problems. wp_step; [apply from_problems_no_panic| |auto].
  intros []. by rewrite from_problems_Ok.
Qed.

Lemma push_tensor_edge_keeps t g : wf g → tensor_wf t → keeps (push_tensor_edge t) g.
Proof. intros Hwf Ht. apply wp_push_edge, push_edge_wf; [done|done|apply contiguous_length|done]. Qed.

Lemma add_tensor_keeps t g : wf g → tensor_wf t → keeps (add_tensor t) g.
Proof.
  intros. unfold add_tensor. wp_step. wp_step. wp_step. apply wp_refuse_problems; [|done]. intros _.
  by apply push_tensor_edge_keeps.
Qed.

Lemma kind_refused_keeps {A} op reason g : wf g → keeps (kind_refused (A:=A) op reason) g.
Proof. done. Qed.
#[export] Hint Resolve kind_refused_keeps : wp.

Lemma validate_input_no_panic key kind t : validate_external_input_tensor key kind t ≠ Panic.
Proof.
  unfold validate_external_input_tensor. destruct (input_contract key kind) as [[[[[? ?] ?] ?] [? ?]]|]; [|done].
  apply from_problems_no_panic.
Qed.

Lemma validate_output_no_panic key kind t : validate_external_output_tensor key kind t ≠ Panic.
Proof.
  unfold validate_external_output_tensor. destruct (output_contract key kind) as [[[[? ?] ?] [? ?]]|]; [|done].
  apply from_problems_no_panic.
Qed.

Lemma add_external_input_keeps kind t g : wf g → tensor_wf t → keeps (add_external_input kind t) g.
Proof.
  intros Hwf Ht. unfold add_external_input. case_match; [auto with wp|]. wp_step. wp_step.
  case_match; [auto with wp|]. wp_step. wp_step; [apply validate_input_no_panic| |done]. intros _ _.
  wp_step. eapply wp_mono; [by apply push_tensor_edge_keeps| |done]. intros e g' Hwf'. cbn beta.
  wp_step. wp_step. wp_step. by eapply wf_same; [..|exact Hwf']; [done..|apply Hwf'].
Qed.

Lemma add_structured_keeps input name g : wf g → keeps (add_structured input name) g.
Proof.
  intros Hwf. unfold add_structured. wp_step. wp_step. case_match; [auto with wp|]. wp_step.
  by eapply wf_same; [..|exact Hwf]; [done..|apply Hwf].
Qed.

Lemma add_external_non_tensor_keeps kind g : wf g → keeps (add_external_non_tensor kind) g.
Proof. intros. destruct kind; simpl; auto using add_structured_keeps with wp. Qed.

Lemma add_external_non_tensor_output_keeps kind g : wf g → keeps (add_external_non_tensor_output kind) g.
Proof.
  intros Hwf. destruct kind; simpl; auto with wp. wp_step. wp_step. case_match; [auto with wp|]. wp_step.
  eapply wf_same; [..|exact Hwf]; [done..|]. intros o e. simpl. rewrite elem_of_app, list_elem_of_singleton.
  intros [Ho| ->]; [by apply Hwf|done].
Qed.

Lemma add_external_output_keeps kind edge g : wf g → keeps (add_external_output kind edge) g.
Proof.
  intros Hwf. unfold add_external_output. case_match; [auto with wp|]. wp_step. wp_step.
  destruct (gr_edges g !! edge) as [e|] eqn:He; [|by wp_step]. case_match; [auto with wp|].
  wp_step. wp_step; [apply validate_output_no_panic| |done]. intros _ _.
  case_match; [|by wp_step]. wp_step. eapply wf_same; [..|exact Hwf]; [done..|].
  intros o e'. simpl. rewrite elem_of_app, list_elem_of_singleton. intros [Ho| ->]; [by apply Hwf|].
  intros [= <-]. by eapply lookup_lt_Some.
Qed.

Lemma bind_positions_keeps kind g : wf g → keeps (bind_positions kind) g.
Proof.
  intros Hwf. unfold bind_positions. wp_step. wp_step. destruct (gr_positions g) as [[existing ?]|]; [by wp_step|].
  case_match; [by wp_step|]. wp_step. wp_step; [auto| |done]. intros t [-> Ht]%tensor_new_Ok.
  wp_step. eapply wp_mono; [apply push_tensor_edge_keeps; [done|split; [done|by destruct kind; repeat apply Forall_cons_2]]| |done]. intros e g' Hwf'. cbn beta.
  wp_step. wp_step. wp_step. by eapply wf_same; [..|exact Hwf']; [done..|apply Hwf'].
Qed.

(** The edges a new op produces are the next identifiers, with no other origin. *)
Definition fresh_edge (i : nat) (t : Tensor) : GraphEdge :=
  {| e_id := i; e_tensor := t; e_strides := compute_contiguous_strides (tn_shape t); e_source_edge := None |}.

Definition fresh_edges (ts : list Tensor) (g : Graph) : Graph :=
  set_edges (gr_edges g ++ imap (λ i, fresh_edge (length (gr_edges g) + i)) ts) g.

Lemma fresh_edges_cons t ts g :
  fresh_edges (t :: ts) g = fresh_edges ts (set_edges (gr_edges g ++ [fresh_edge (length (gr_edges g)) t]) g).
Proof.
  unfold fresh_edges, set_edges. simpl. f_equal. rewrite <- app_assoc, length_app. simpl. f_equal. rewrite Nat.add_0_r. f_equal.
  apply imap_ext. intros i x _. simpl. f_equal. lia.
Qed.

Lemma push_outputs_run ts g :
  push_outputs ts g = (Ok (seq (length (gr_edges g)) (length ts)), fresh_edges ts g).
Proof.
  revert g. induction ts as [|t ts IH]; intros g.
  - unfold fresh_edges. simpl. rewrite app_nil_r. by destruct g.
  - cbn [push_outputs]. unfold sbind at 1. unfold push_tensor_edge, push_edge. simpl.
    unfold sbind at 1. rewrite IH, fresh_edges_cons. simpl. rewrite length_app. simpl. by rewrite Nat.add_1_r.
Qed.

Lemma fresh_edges_wf ts g : wf g → Forall tensor_wf ts → wf (fresh_edges ts g).
Proof.
  revert g. induction ts as [|t ts IH]; intros g Hwf Hts.
  - unfold fresh_edges. simpl. rewrite app_nil_r. by destruct g.
  - apply Forall_cons in Hts as [Ht Hts]. rewrite fresh_edges_cons. apply IH; [|done].
    apply push_edge_wf; [done|done|apply contiguous_length|done].
Qed.

Lemma fresh_edges_unowned ts g e :
  wf g → Forall tensor_wf ts → e ∈ seq (length (gr_edges g)) (length ts) →
  (e < length (gr_edges (fresh_edges ts g)))%nat ∧ (∀ p, ¬ outputs_edge (fresh_edges ts g) p e) ∧
  (∀ s, ¬ views (fresh_edges ts g) e s).
Proof.
  intros Hwf Hts He%elem_of_seq. unfold fresh_edges. simpl. rewrite length_app, length_imap. split_and!.
  - lia.
  - intros p Hp. apply (outputs_range g) in Hp; [lia|done].
  - intros s (ed & Hed & Hs). simpl in Hed. rewrite lookup_app_r in Hed by lia.
    rewrite list_lookup_imap in Hed. apply fmap_Some in Hed as (t & _ & ->). done.
Qed.

Lemma missing_edges_nil g es : missing_edges g es = [] ↔ ∀ e, e ∈ es → (e < length (gr_edges g))%nat.
Proof.
  unfold missing_edges. induction es as [|e es IH]; [simpl; split; [intros _ ? ?%not_elem_of_nil|]; done|].
  cbn [map concat]. rewrite app_nil, IH. setoid_rewrite elem_of_cons.
  destruct (Nat.leb_spec (length (gr_edges g)) e); split; [naive_solver| |naive_solver|].
  - intros Hall. specialize (Hall e (or_introl eq_refl)). lia.
  - split; [done|auto].
Qed.

Lemma add_op_with_requirements_keeps op inputs requirements outputs g :
  wf g → Forall tensor_wf outputs → keeps (add_op_with_requirements op inputs requirements outputs) g.
Proof.
  intros Hwf Hts. unfold add_op_with_requirements. wp_step. wp_step. wp_step. apply wp_refuse_problems; [|done].
  intros [Hmissing Hlen]%app_nil. rewrite missing_edges_nil in Hmissing. wp_step. unfold wp at 1.
  rewrite push_outputs_run. apply push_node_wf.
  - by apply fresh_edges_wf.
  - intros e ?%Hmissing. unfold fresh_edges. simpl. rewrite length_app. lia.
  - destruct (Nat.eqb_spec (length requirements) (length inputs)); done.
  - intros e He. by apply fresh_edges_unowned.
Qed.

Lemma add_op_keeps op inputs outputs g :
  wf g → Forall tensor_wf outputs → keeps (add_op op inputs outputs) g.
Proof. apply add_op_with_requirements_keeps. Qed.

Lemma set_edge_strides_keeps edge strides g : wf g → keeps (set_edge_strides edge strides) g.
Proof.
  intros Hwf. unfold set_edge_strides. wp_step. wp_step.
  destruct (gr_edges g !! edge) as [e|] eqn:He; [|by wp_step]. case_match eqn:Hlen; [by wp_step|]. wp_step.
  apply set_strides_wf; [done|done|]. by apply negb_false_iff, Nat.eqb_eq in Hlen.
Qed.

Lemma set_node_input_requirement_keeps node pos r g : wf g → keeps (set_node_input_requirement node pos r) g.
Proof.
  intros Hwf. unfold set_node_input_requirement. wp_step. wp_step.
  destruct (gr_nodes g !! node) as [n|] eqn:Hn; [|by wp_step]. case_match eqn:Hp; [by wp_step|].
  apply Nat.leb_gt in Hp. pose proof (wf_nodes _ Hwf _ _ Hn) as [H1 H2 H3 H4].
  wp_step. apply wp_vec_set; [lia|]. wp_step.
  eapply set_node_wf; try done. simpl. by rewrite length_insert.
Qed.

Lemma rewire_node_input_keeps node pos edge g : wf g → keeps (rewire_node_input node pos edge) g.
Proof.
  intros Hwf. unfold rewire_node_input. wp_step. wp_step. wp_step. apply wp_refuse_problems; [|done].
  intros [Hn [He Hp]%app_nil]%app_nil.
  destruct (Nat.leb_spec (length (gr_nodes g)) node) as [|Hnode]; [done|].
  destruct (Nat.leb_spec (length (gr_edges g)) edge) as [|Hedge]; [done|].
  apply lookup_lt_is_Some in Hnode as [n Hnode]. rewrite Hnode in Hp.
  destruct (Nat.leb_spec (length (n_inputs n)) pos) as [|Hpos]; [done|].
  eapply wp_assign_input; [done|done|]. by eapply assign_input_wf.
Qed.

(** ** Permutations *)

Lemma scan_perm_grows perm s :
  (∃ k, ps_out_of_bounds (foldl scan_axis s perm) = ps_out_of_bounds s ++ k) ∧
  (∃ k, ps_duplicates (foldl scan_axis s perm) = ps_duplicates s ++ k).
Proof.
  revert s. induction perm as [|p perm IH]; intros s; simpl; [split; exists []; by rewrite app_nil_r|].
  destruct (IH (scan_axis s p)) as [[k1 ->] [k2 ->]]. unfold scan_axis.
  destruct (ps_seen s !! p) as [[]|]; simpl; rewrite <- ?app_assoc; eauto.
Qed.

Lemma scan_perm_clean perm s :
  ps_out_of_bounds s = [] → ps_duplicates s = [] →
  ps_out_of_bounds (foldl scan_axis s perm) = [] ∧ ps_duplicates (foldl scan_axis s perm) = [] ↔
  NoDup perm ∧ ∀ p, p ∈ perm → ps_seen s !! p = Some false.
Proof.
  revert s. induction perm as [|p perm IH]; intros s Ho Hd; simpl.
  { split; [split; [apply NoDup_nil_2|by intros ? ?%not_elem_of_nil]|done]. }
  rewrite NoDup_cons. setoid_rewrite elem_of_cons.
  destruct (scan_perm_grows perm (scan_axis s p)) as [[k1 H1] [k2 H2]].
  unfold scan_axis in *. destruct (ps_seen s !! p) as [[]|] eqn:Hp; simpl in *.
  - rewrite H2, Hd. split; [intros [_ [=]]|]. intros [_ Hall]. specialize (Hall p). rewrite Hp in Hall. naive_solver.
  - rewrite IH by done. simpl. split.
    + intros [Hnd Hall]. assert (p ∉ perm) as Hpn.
      { intros Hin. specialize (Hall p Hin). rewrite list_lookup_insert_eq in Hall by (by eapply lookup_lt_Some). done. }
      split; [done|]. intros q [->|Hq]; [done|]. specialize (Hall q Hq).
      rewrite list_lookup_insert_ne in Hall; [done|]. by intros ->.
    + intros [[Hpn Hnd] Hall]. split; [done|]. intros q Hq. rewrite list_lookup_insert_ne; [auto|]. by intros ->.
  - rewrite H1, Ho. split; [intros [[=] _]|]. intros [_ Hall]. specialize (Hall p). rewrite Hp in Hall. naive_solver.
Qed.

Lemma scan_perm_unseen perm s i :
  ps_seen (foldl scan_axis s perm) !! i = Some false → ps_seen s !! i = Some false ∧ i ∉ perm.
Proof.
  revert s. induction perm as [|p perm IH]; intros s; simpl; [by intros; split; [|apply not_elem_of_nil]|].
  intros [Hi Hn]%IH. rewrite not_elem_of_cons. unfold scan_axis in Hi.
  destruct (ps_seen s !! p) as [[]|] eqn:Hp; simpl in Hi; split_and!; try done; try congruence.
  - apply list_lookup_insert_Some in Hi. naive_solver.
  - intros ->. rewrite list_lookup_insert_eq in Hi by (by eapply lookup_lt_Some). done.
Qed.

Lemma range_perm (n : nat) l : NoDup l → (∀ v, v ∈ l → (v < n)%nat) → length l = n → l ≡ₚ seq 0 n.
Proof.
  intros Hnd Hr Hl. apply submseteq_length_Permutation; [|rewrite length_seq; lia].
  apply NoDup_submseteq; [done|]. intros v ?%Hr. apply elem_of_seq. lia.
Qed.

(** [transpose_edge] accepts exactly the permutations of the axes. *)
Lemma perm_problems_nil rank perm :
  length perm = rank → perm_problems rank perm = [] ↔ perm ≡ₚ seq 0 rank.
Proof.
  intros Hlen. unfold perm_problems, scan_perm.
  set (s := {| ps_seen := replicate rank false; ps_out_of_bounds := []; ps_duplicates := [] |}).
  assert (∀ p, ps_seen s !! p = Some false ↔ (p < rank)%nat) as Hrep.
  { intros p. simpl. rewrite lookup_replicate. naive_solver. }
  pose proof (scan_perm_clean perm s eq_refl eq_refl) as Hclean. setoid_rewrite Hrep in Hclean.
  pose proof (scan_perm_unseen perm s) as Hunseen. set (r := foldl scan_axis s perm) in *.
  split.
  - intros [Ho [Hd _]%app_nil]%app_nil.
    destruct (ps_out_of_bounds r) eqn:Eo; [|done]. destruct (ps_duplicates r) eqn:Ed; [|done].
    destruct Hclean as [Hc _]. destruct Hc; [done|]. by apply range_perm.
  - intros Hp. destruct Hclean as [_ Hc]. destruct Hc as [-> ->].
    { split; [rewrite Hp; apply NoDup_seq|]. intros p. rewrite Hp. intros ?%elem_of_seq. lia. }
    simpl. rewrite bool_decide_eq_false_2; [done|]. intros Hm. apply Hm. unfold missing_axes.
    destruct (filter _ _) as [|i l] eqn:F; [done|].
    assert (i ∈ filter (λ i, ps_seen r !! i = Some false) (seq 0 (length (ps_seen r)))) as Hi by (rewrite F; left).
    apply list_elem_of_filter in Hi as [[Hi Hn]%Hunseen _]. exfalso. apply Hn. rewrite Hp. apply elem_of_seq.
    apply Hrep in Hi. lia.
Qed.

Lemma gather_total {A} (v : list A) perm :
  (∀ p, p ∈ perm → (p < length v)%nat) →
  ∃ r, gather_axes v perm = Ok r ∧ length r = length perm ∧ ∀ i, r !! i = perm !! i ≫= λ p, v !! p.
Proof.
  unfold gather_axes. induction perm as [|p perm IH]; intros Hp; simpl; [by exists []|].
  destruct IH as (r & -> & Hl & Hr); [set_solver|].
  destruct (lookup_lt_is_Some_2 v p) as [x Hx]; [apply Hp; left|]. rewrite Hx. simpl.
  exists (x :: r). simpl. split_and!; [done|by f_equal|]. intros [|i]; simpl; [done|apply Hr].
Qed.

(** A view appends one edge, whose source is the edge viewed. *)
Definition appends_view (c : graph nat) (edge : nat) (g : Graph) : Prop :=
  ∀ Q : nat → Graph → Prop,
  (∀ t strides, tensor_wf t → length strides = rank t → (edge < length (gr_edges g))%nat →
     Q (length (gr_edges g))
       (set_edges (gr_edges g ++
          [{| e_id := length (gr_edges g); e_tensor := t; e_strides := strides; e_source_edge := Some edge |}]) g)) →
  wp c Q (λ _ g', g' = g) g.

Lemma appends_view_keeps c edge g : wf g → appends_view c edge g → keeps c g.
Proof.
  intros Hwf Hc. apply Hc. intros t strides Ht Hs He. apply push_edge_wf; try done. by intros s [= <-].
Qed.

Lemma transpose_edge_view edge perm g : wf g → appends_view (transpose_edge edge perm) edge g.
Proof.
  intros Hwf Q HQ. unfold transpose_edge. wp_step. wp_step.
  destruct (gr_edges g !! edge) as [old|] eqn:He; [|by wp_step]. case_match eqn:Hlen; [by wp_step|].
  apply negb_false_iff, Nat.eqb_eq in Hlen. wp_step. apply wp_refuse_problems; [|done].
  intros Hp%perm_problems_nil; [|done]. pose proof (wf_edges _ Hwf _ _ He) as [H1 H2 H3 H4].
  assert (∀ p, p ∈ perm → (p < rank (e_tensor old))%nat) as Hr.
  { intros p. rewrite Hp. intros ?%elem_of_seq. unfold rank. lia. }
  destruct (gather_total (tn_shape (e_tensor old)) perm) as (shape & -> & Hsl & Hsh); [done|].
  destruct (gather_total (e_strides old) perm) as (strides & -> & Htl & _); [by rewrite H4|].
  wp_step. wp_step; [done|intros ? [= <-]|done]. wp_step. wp_step; [done|intros ? [= <-]|done].
  wp_step. wp_step; [auto| |done]. intros t [-> Ht]%tensor_new_Ok.
  apply wp_push_edge, HQ; [|unfold rank; simpl; lia|by eapply lookup_lt_Some].
  split; [done|]. simpl. apply Forall_lookup. intros i d Hi. rewrite Hsh in Hi.
  apply bind_Some in Hi as (p & _ & Hd). destruct H3 as [_ H3]. by eapply Forall_lookup_1 in H3.
Qed.

Lemma transpose_edge_keeps edge perm g : wf g → keeps (transpose_edge edge perm) g.
Proof. eauto using appends_view_keeps, transpose_edge_view. Qed.

(** A count that fits, or one that meets a symbolic dimension first, does not
    panic; the extents of a tensor always fit. *)
Lemma element_count_fits count shape :
  Forall dim_u32 shape → 0 ≤ count → count * 2 ^ (32 * Z.of_nat (length shape)) ≤ 2 ^ 128 →
  element_count_from count shape ≠ Panic.
Proof.
  revert count. induction shape as [|[c|] shape IH]; intros count Hs H0 Hc; try done.
  apply Forall_cons in Hs as [Hcu Hs]. simpl in Hcu. unfold is_u32, U32_MAX in Hcu.
  cbn [length] in Hc. rewrite Nat2Z.inj_succ, Z.mul_succ_r, Z.pow_add_r in Hc by lia.
  set (w := 2 ^ (32 * Z.of_nat (length shape))) in *. assert (1 ≤ w) by (subst w; lia).
  assert (count * c ≤ count * (2 ^ 32 - 1)) by nia. assert (count * c * w ≤ 2 ^ 128) by nia.
  assert (count * c ≤ U128_MAX).
  { unfold U128_MAX. destruct (decide (count = 0)); [nia|]. nia. }
  cbn [element_count_from]. unfold checked_mul. rewrite (proj2 (Z.leb_le _ _)) by done. cbn. apply IH; [done|nia|done].
Qed.

Lemma old_count_fits t : tensor_wf t → concrete_element_count (tn_shape t) ≠ Panic.
Proof.
  intros [[[_ Hr] _ _ _ _ _] Hd]. apply element_count_fits; [done|lia|].
  unfold rank in Hr. transitivity (2 ^ (32 * 4)); [|done]. rewrite Z.mul_1_l. apply Z.pow_le_mono_r; lia.
Qed.

Lemma reshape_edge_view edge shape g :
  wf g → Forall dim_u32 shape → concrete_element_count shape ≠ Panic →
  appends_view (reshape_edge edge shape) edge g.
Proof.
  intros Hwf Hd Hcount Q HQ. unfold reshape_edge. wp_step. wp_step.
  destruct (gr_edges g !! edge) as [old|] eqn:He; [|by wp_step].
  case_match; [by wp_step|]. case_match; [by wp_step|]. case_match; [by wp_step|].
  pose proof (wf_edges _ Hwf _ _ He) as [_ _ Hold _].
  wp_step. wp_step; [by apply old_count_fits| |done]. intros old_count _.
  wp_step. wp_step; [done| |done]. intros new_count _.
  wp_step. wp_step; [by destruct old_count, new_count; try case_match| |done]. intros _ _.
  wp_step. wp_step; [auto| |done]. intros t [-> Ht]%tensor_new_Ok.
  apply wp_push_edge, HQ; [by split|apply (contiguous_length {| tn_shape := shape |})|by eapply lookup_lt_Some].
Qed.

Lemma reshape_edge_keeps edge shape g :
  wf g → Forall dim_u32 shape → concrete_element_count shape ≠ Panic → keeps (reshape_edge edge shape) g.
Proof. eauto using appends_view_keeps, reshape_edge_view. Qed.
