(* ===== verification/GraphTopo.v ===== *)
(** * The topological order of a well-formed graph

    [topological_order] of [crates/r9v-ir/src/graph.rs] against the dependencies
    between ops: one op depends on another when an input of it is, through any
    number of views, an output of the other.

    Copy insertion: What [materialize_copies] of [crates/r9v-ir/src/graph.rs] does to a
    well-formed graph.  [violation] is an input whose contiguous requirement the
    strides of its edge fail; the scan finds exactly the violations, groups the
    new ones by source edge, and the apply phases redirect each to a contiguous
    copy. *)

From stdpp Require Import gmap sorting relations.
From stdpp Require Import gmap sorting.
From S2P Require Import Prelude Wp Bytes Errors SchedError Ops OpValidate Graph Materialize GraphInv.

#[global] Open Scope Z_scope.
#[local] Open Scope nat_scope.

(** ** Dependencies *)

(** Edge [e] is, through views, an output of node [p]. *)
Inductive derived (g : Graph) : nat → nat → Prop :=
| derived_output p e : outputs_edge g p e → derived g e p
| derived_view p e s : views g e s → derived g s p → derived g e p.

Lemma derived_inv g e p : derived g e p ↔ outputs_edge g p e ∨ ∃ s, views g e s ∧ derived g s p.
Proof.
  split; [inversion 1; subst; eauto|]. intros [?|(s & ? & ?)]; [by constructor|by apply derived_view with s].
Qed.

(** Node [v] reads an edge derived from node [p]. *)
Definition depends (g : Graph) (p v : nat) : Prop :=
  ∃ n e, gr_nodes g !! v = Some n ∧ e ∈ n_inputs n ∧ derived g e p.

(** ** Producers *)

Lemma producer_outputs outs id (m : gmap nat nat) e :
  foldl (λ m output, <[output := id]> m) m outs !! e = if bool_decide (e ∈ outs) then Some id else m !! e.
Proof.
  revert m. induction outs as [|o outs IH]; intros m; [done|]. simpl. rewrite IH.
  destruct (decide (e ∈ outs)) as [Hin|Hnin].
  - rewrite !bool_decide_eq_true_2; [done|by right|done].
  - rewrite bool_decide_eq_false_2 by done. destruct (decide (o = e)) as [->|Hne].
    + rewrite lookup_insert_eq, bool_decide_eq_true_2; [done|left].
    + rewrite lookup_insert_ne, bool_decide_eq_false_2; [done|set_solver|done].
Qed.

Definition producers_of (ns : list GraphNode) : gmap nat nat :=
  foldl (λ m node, foldl (λ m output, <[output := n_id node]> m) m (n_outputs node)) ∅ ns.

Lemma producers_of_Some ns e p :
  producers_of ns !! e = Some p → ∃ n, n ∈ ns ∧ n_id n = p ∧ e ∈ n_outputs n.
Proof.
  unfold producers_of. induction ns as [|n ns IH] using rev_ind; [done|].
  rewrite foldl_snoc, producer_outputs. case_bool_decide; [intros [= <-]; set_solver|].
  intros (n' & ? & ? & ?)%IH. set_solver.
Qed.

Lemma producers_of_None ns e n : n ∈ ns → e ∈ n_outputs n → producers_of ns !! e ≠ None.
Proof.
  unfold producers_of. induction ns as [|n' ns IH] using rev_ind; [set_solver|].
  rewrite foldl_snoc, producer_outputs. case_bool_decide; [done|]. set_solver.
Qed.

Lemma producer_map_spec g e p : wf g → producer_map g !! e = Some p ↔ outputs_edge g p e.
Proof.
  intros Hwf. change (producer_map g) with (producers_of (gr_nodes g)). split.
  - intros (n & [i Hi]%list_elem_of_lookup & <- & He)%producers_of_Some.
    rewrite (nw_id _ _ _ (wf_nodes _ Hwf _ _ Hi)). by exists n.
  - intros Hout. destruct Hout as (n & Hn & He) eqn:E. clear E.
    destruct (producers_of (gr_nodes g) !! e) as [q|] eqn:Hq.
    + apply producers_of_Some in Hq as (m & [i Hi]%list_elem_of_lookup & <- & Hm).
      rewrite (nw_id _ _ _ (wf_nodes _ Hwf _ _ Hi)). f_equal. apply (wf_once _ Hwf i p e); [by exists m|by exists n].
    + exfalso. eapply producers_of_None; [by eapply list_elem_of_lookup_2|done|done].
Qed.

Lemma resolve_loop_spec g steps e p :
  wf g → e < steps → resolve_loop g (producer_map g) steps e = Some p ↔ derived g e p.
Proof.
  intros Hwf. revert e. induction steps as [|steps IH]; intros e Hlt; [lia|]. cbn [resolve_loop].
  rewrite derived_inv. destruct (producer_map g !! e) as [q|] eqn:Hq.
  - apply producer_map_spec in Hq; [|done]. split.
    + intros [= <-]. by left.
    + intros [Hp|(s & Hv & _)]; [f_equal; by eapply wf_once|exfalso; by eapply wf_view].
  - rewrite <- producer_map_spec, Hq by done. unfold views.
    destruct (gr_edges g !! e) as [ed|] eqn:He; [|naive_solver].
    pose proof (wf_edges _ Hwf _ _ He) as [_ Hsrc _ _].
    destruct (e_source_edge ed) as [s|] eqn:Hs; [|naive_solver].
    rewrite IH by (specialize (Hsrc s eq_refl); lia). naive_solver.
Qed.

Lemma derived_range g e p : wf g → derived g e p → e < length (gr_edges g) ∧ p < length (gr_nodes g).
Proof.
  intros Hwf. induction 1 as [p e Hp|p e s (ed & He & _) _ [_ ?]].
  - split; [by eapply outputs_range|]. destruct Hp as (n & Hn & _). by eapply lookup_lt_Some.
  - split; [by eapply lookup_lt_Some|done].
Qed.

(** The bound on the steps is never what ends the search. *)
Lemma resolve_producer_spec g e p :
  wf g → resolve_producer g (producer_map g) e = Some p ↔ derived g e p.
Proof.
  intros Hwf. unfold resolve_producer. destruct (decide (e < S (length (gr_edges g)))) as [|He].
  - by apply resolve_loop_spec.
  - split; [|intros [? _]%derived_range; [lia|done]]. cbn [resolve_loop].
    destruct (producer_map g !! e) as [q|] eqn:Hq.
    + apply producer_map_spec, outputs_range in Hq; [lia|done|done].
    + by rewrite lookup_ge_None_2 by lia.
Qed.

(** ** In-degrees *)

Definition producer_of (g : Graph) (e : nat) : option nat := resolve_producer g (producer_map g) e.

(** The dependencies of the listed inputs, in order and with repetitions. *)
Definition deps_of (g : Graph) (inputs : list (nat * nat)) : list (nat * nat) :=
  omap (λ '(v, e), (λ p, (p, v)) <$> producer_of g e) inputs.

Lemma lookup_update {A} (l : list A) p w x y z :
  l !! w = Some y → l !! p = Some z → <[p:=x]> l !! w = Some (if decide (w = p) then x else y).
Proof.
  intros Hw Hp. destruct (decide (w = p)) as [->|]; [|by rewrite list_lookup_insert_ne by done].
  apply list_lookup_insert_eq. by eapply lookup_lt_Some.
Qed.

Lemma count_inputs_spec g inputs d n (adj : nat → list nat) (deg : nat → nat) :
  (∀ v e, (v, e) ∈ inputs → v < n ∧ e < length (gr_edges g)) →
  (∀ e p, producer_of g e = Some p → p < n) →
  (∀ v, v < n → d_adjacency d !! v = Some (adj v) ∧ d_in_degree d !! v = Some (deg v)) →
  length (d_in_degree d) = n →
  ∃ d', count_inputs g (producer_map g) inputs d = Ok d' ∧ d_problems d' = d_problems d ∧ length (d_in_degree d') = n ∧
    (∀ v, v < n → d_adjacency d' !! v = Some (adj v ++ consumers_of (deps_of g inputs) v) ∧
                  d_in_degree d' !! v = Some (deg v + indeg (deps_of g inputs) v [])).
Proof.
  intros Hin Hprod. revert d adj deg. induction inputs as [|[v e] inputs IH]; intros d adj deg Hd Hl.
  - exists d. split_and!; try done. intros w Hw. destruct (Hd w Hw) as [-> ->].
    by rewrite app_nil_r, Nat.add_0_r.
  - destruct (Hin v e) as [Hv He]; [left|]. cbn [count_inputs]. unfold count_input.
    rewrite (proj2 (Nat.leb_gt _ _)) by done. unfold deps_of in *. cbn [omap list_omap]. unfold producer_of in *.
    destruct (resolve_producer g (producer_map g) e) as [p|] eqn:Hp; cbn [fmap option_fmap option_map].
    + pose proof (Hprod _ _ Hp) as Hpn. unfold vec_push_at, vec_incr.
      destruct (Hd p Hpn) as [Ha _]. destruct (Hd v Hv) as [_ Hg]. rewrite Ha, Hg. cbn [or_panic obind].
      match goal with |- context [count_inputs _ _ inputs ?d1] =>
        destruct (IH ltac:(set_solver) d1 (λ w, if decide (w = p) then adj p ++ [v] else adj w)
                   (λ w, if decide (w = v) then S (deg v) else deg w)) as (d' & Hc & Hpr & Hl' & Hd')
      end.
      * intros w Hw. cbn [d_adjacency d_in_degree]. destruct (Hd w Hw) as [Haw Hgw].
        split; (eapply lookup_update; [eassumption|eassumption]).
      * cbn. by rewrite length_insert.
      * exists d'. split_and!; [exact Hc|done|done|]. intros w Hw. destruct (Hd' w Hw) as [-> ->].
        unfold consumers_of, indeg. rewrite !filter_cons. cbn [fst snd]. split; f_equal.
        -- destruct (decide (w = p)) as [->|]; [|by rewrite decide_False by congruence].
           rewrite decide_True by done. by rewrite fmap_cons, <- app_assoc.
        -- destruct (decide (w = v)) as [->|]; [|by rewrite decide_False by naive_solver].
           rewrite decide_True; [simpl; lia|]. split; [done|apply not_elem_of_nil].
    + cbn [obind]. apply IH; [set_solver|done|done].
Qed.

Lemma elem_of_all_inputs g v e :
  wf g → (v, e) ∈ all_inputs g ↔ ∃ n, gr_nodes g !! v = Some n ∧ e ∈ n_inputs n.
Proof.
  intros Hwf. unfold all_inputs. rewrite elem_of_concat_map. setoid_rewrite list_elem_of_fmap. split.
  - intros (n & [i Hi]%list_elem_of_lookup & (e' & [= -> ->] & He)). rewrite (nw_id _ _ _ (wf_nodes _ Hwf _ _ Hi)). eauto.
  - intros (n & Hn & He). exists n. split; [by eapply list_elem_of_lookup_2|].
    exists e. by rewrite (nw_id _ _ _ (wf_nodes _ Hwf _ _ Hn)).
Qed.

Definition dependencies (g : Graph) : list (nat * nat) := deps_of g (all_inputs g).

Lemma elem_of_dependencies g p v : wf g → (p, v) ∈ dependencies g ↔ depends g p v.
Proof.
  intros Hwf. unfold dependencies, deps_of, depends. rewrite list_elem_of_omap. split.
  - intros ([w e] & (n & ? & ?)%elem_of_all_inputs & Hp); [|done].
    apply fmap_Some in Hp as (q & Hq & [= -> ->]). apply resolve_producer_spec in Hq; [|done]. eauto.
  - intros (n & e & Hn & He & Hd). exists (v, e). split; [apply elem_of_all_inputs; eauto|].
    apply (resolve_producer_spec _ _ _ Hwf) in Hd. unfold producer_of. by rewrite Hd.
Qed.

Lemma depends_range g p v : wf g → depends g p v → p < length (gr_nodes g) ∧ v < length (gr_nodes g).
Proof. intros Hwf (n & e & Hn & _ & [_ ?]%derived_range); [|done]. split; [done|by eapply lookup_lt_Some]. Qed.

(** The counts of the dependencies, and the nodes without any. *)
Lemma count_all g :
  wf g → let n := length (gr_nodes g) in let E := dependencies g in
  ∃ d, count_inputs g (producer_map g) (all_inputs g)
         {| d_adjacency := replicate n []; d_in_degree := replicate n 0; d_problems := [] |} = Ok d ∧
       d_problems d = [] ∧ (∀ v, v < n → d_adjacency d !! v = Some (consumers_of E v)) ∧
       kahn_inv E n (d_in_degree d) (ready (d_in_degree d)) [].
Proof.
  intros Hwf n E.
  destruct (count_inputs_spec g (all_inputs g)
              {| d_adjacency := replicate n []; d_in_degree := replicate n 0; d_problems := [] |} n (λ _, []) (λ _, 0))
    as (d & Hd & Hp & Hl & Hspec).
  - intros v e (nd & Hn & He)%elem_of_all_inputs; [|done]. split; [by eapply lookup_lt_Some|].
    by eapply nw_inputs; [eapply wf_nodes|].
  - intros e p Hp%resolve_producer_spec; [|done]. by apply derived_range in Hp as [_ ?].
  - intros v Hv. simpl. by rewrite !lookup_replicate_2.
  - apply length_replicate.
  - exists d. split_and!; [done|done|by intros v Hv; destruct (Hspec v Hv)|].
    assert (∀ v, v ∈ ready (d_in_degree d) ↔ v < n ∧ indeg E v [] = 0) as Hready.
    { intros v. unfold ready. rewrite list_elem_of_filter, elem_of_seq, Hl. split.
      - intros [H0 Hv]. split; [lia|]. destruct (Hspec v) as [_ H1]; [lia|]. rewrite H1 in H0. by injection H0.
      - intros [Hv H0]. split; [|lia]. destruct (Hspec v) as [_ ->]; [done|]. simpl. by rewrite <- H0. }
    split; simpl.
    + apply NoDup_filter, NoDup_seq.
    + apply Forall_forall. by intros v [? _]%Hready.
    + done.
    + by intros v Hv; destruct (Hspec v Hv).
    + intros v Hv. rewrite Hready. naive_solver.
    + intros l1 v l2 Hnil. by destruct l1.
Qed.

Lemma first_stuck_spec deg : (∃ v d, deg !! v = Some d ∧ 0 < d) → ∃ d, deg !! first_stuck deg = Some d ∧ 0 < d.
Proof.
  intros (v & d & Hv & Hd). unfold first_stuck.
  destruct (list_find (λ d, 0 < d) deg) as [[i x]|] eqn:F.
  - apply list_find_Some in F as (? & ? & _). eauto.
  - apply list_find_None in F. eapply Forall_lookup_1 in F; [|exact Hv]. simpl in F. lia.
Qed.

Lemma missing_node n order :
  NoDup order → Forall (λ v, v < n) order → length order ≠ n → ∃ w, w < n ∧ w ∉ order.
Proof.
  intros Hnd Hr Hne. destruct (filter (.∉ order) (seq 0 n)) as [|w l] eqn:F.
  - exfalso. apply Hne. rewrite <- (length_seq n 0). apply Permutation_length, NoDup_Permutation; [done|apply NoDup_seq|].
    intros v. rewrite elem_of_seq. split; [intros Hv; eapply Forall_forall in Hr; [|done]; lia|].
    intros [_ Hv]. destruct (decide (v ∈ order)) as [|Hn]; [done|].
    exfalso. apply (filter_nil_not_elem_of _ _ v F Hn), elem_of_seq. lia.
  - assert (w ∈ filter (.∉ order) (seq 0 n)) as [? ?%elem_of_seq]%list_elem_of_filter by (rewrite F; left).
    exists w. split; [lia|done].
Qed.

Lemma tc_depends g u v : wf g → tc (λ p v, (p, v) ∈ dependencies g) u v → tc (depends g) u v.
Proof. intros Hwf. apply (tc_congruence id). intros p w. by apply elem_of_dependencies. Qed.

Lemma tc_dependencies g u v : wf g → tc (depends g) u v → tc (λ p v, (p, v) ∈ dependencies g) u v.
Proof. intros Hwf. apply (tc_congruence id). intros p w. by apply elem_of_dependencies. Qed.

(** Every op comes after the ops it depends on. *)
Definition schedules (g : Graph) (order : list nat) : Prop :=
  order ≡ₚ seq 0 (length (gr_nodes g)) ∧
  ∀ l1 v l2, order = l1 ++ v :: l2 → ∀ p, depends g p v → p ∈ l1.

Definition acyclic (g : Graph) : Prop := ∀ v, ¬ tc (depends g) v v.

Lemma schedules_acyclic g order : wf g → schedules g order → acyclic g.
Proof.
  intros Hwf [Hp Ho] v Ht%tc_dependencies; [|done]. revert v Ht. apply ordered_acyclic with order.
  - rewrite Hp. apply NoDup_seq.
  - intros l1 w l2 -> p ?%elem_of_dependencies; [by eapply Ho|done].
  - intros [p w] [_ ?]%elem_of_dependencies%depends_range; [|done|done]. rewrite Hp. apply elem_of_seq. simpl. lia.
Qed.

(** The loop ends, with a schedule or with nodes that depend on one another. *)
Lemma topological_order_cases g :
  wf g →
  match topological_order g with
  | Ok order => schedules g order ∧ acyclic g
  | Err e => ∃ u v, e = GraphCycle v ∧ tc (depends g) u u ∧ tc (depends g) u v
  | Panic => False
  end.
Proof.
  intros Hwf. unfold topological_order. destruct (count_all g Hwf) as (d & -> & Hp & Hadj & Hinv). cbn [obind].
  rewrite Hp. set (n := length (gr_nodes g)) in *. set (E := dependencies g) in *. cbn [from_problems obind].
  assert (Forall (λ d, d.1 < n ∧ d.2 < n) E) as HE.
  { apply Forall_forall. intros [p v] ?%elem_of_dependencies; [|done]. by apply depends_range. }
  destruct (kahn_total E n (d_adjacency d) HE Hadj n _ _ _ Hinv) as (deg & order & -> & Hfin); [simpl; lia|].
  cbn [obind]. pose proof Hfin as [Hnd Hr Hl Hd Hready Ho]. rewrite app_nil_r in *.
  destruct (Nat.eqb_spec (length order) n) as [Heq|Hne].
  - assert (schedules g order) as Hs.
    { split; [apply range_perm; [done|by apply Forall_forall|done]|].
      intros l1 v l2 -> p ?%elem_of_dependencies; [by eapply Ho|done]. }
    split; [done|]. by eapply schedules_acyclic.
  - assert (∃ v, v < n ∧ v ∉ order) as (w & Hw & Hwo).
    { by apply missing_node. }
    destruct (first_stuck_spec deg) as (x & Hx & Hx0).
    { exists w. rewrite Hd by done. eexists. split; [done|]. assert (indeg E w order ≠ 0); [|lia]. by rewrite <- Hready. }
    set (v := first_stuck deg) in *. apply lookup_lt_Some in Hx as Hv. rewrite Hl in Hv.
    rewrite Hd in Hx by done. injection Hx as <-.
    destruct (predecessor_cycle (λ p v, (p, v) ∈ E) (filter (.∉ order) (seq 0 n))) with v as (u & _ & Huu & Huv).
    + intros y [Hy [_ Hyn]%elem_of_seq]%list_elem_of_filter.
      destruct (kahn_stuck E n HE deg order y Hfin) as (p & Hpy & Hpn & Hpo); [lia|done|].
      exists p. split; [done|]. apply list_elem_of_filter. split; [done|]. apply elem_of_seq. lia.
    + apply list_elem_of_filter. split; [|apply elem_of_seq; lia]. rewrite Hready by done. lia.
    + exists u, v. split_and!; [done|by apply tc_depends|by apply tc_depends].
Qed.

#[local] Open Scope Z_scope.

(** * Copy insertion *)

(** ** Violations *)

Definition strided (g : Graph) (e : nat) : Prop :=
  ∃ ed, gr_edges g !! e = Some ed ∧ e_strides ed ≠ compute_contiguous_strides (tn_shape (e_tensor ed)).

(** Input [pos] of node [i] is the edge [e] and must be contiguous. *)
Definition demands (g : Graph) (i pos e : nat) : Prop :=
  ∃ n, gr_nodes g !! i = Some n ∧ is_copy (n_op n) = false ∧ n_inputs n !! pos = Some e ∧
       requirement n pos = StrideRequirement.Contiguous.

Definition violation (g : Graph) (i pos e : nat) : Prop := demands g i pos e ∧ strided g e.

#[global] Instance strided_dec g e : Decision (strided g e).
Proof.
  destruct (gr_edges g !! e) as [ed|] eqn:He.
  - destruct (decide (e_strides ed = compute_contiguous_strides (tn_shape (e_tensor ed)))).
    + right. intros (? & ? & ?). naive_solver.
    + left. by exists ed.
  - right. intros (? & ? & ?). naive_solver.
Defined.

Lemma elem_of_visits g i pos e r :
  (i, pos, e, r) ∈ visits g ↔
  ∃ n, gr_nodes g !! i = Some n ∧ is_copy (n_op n) = false ∧ n_inputs n !! pos = Some e ∧ r = requirement n pos.
Proof.
  unfold visits. rewrite elem_of_concat. setoid_rewrite elem_of_lookup_imap. split.
  - intros (l & (j & n & -> & Hn) & Hin). destruct (is_copy (n_op n)) eqn:Hc; [by apply not_elem_of_nil in Hin|].
    apply elem_of_lookup_imap in Hin as (q & x & [= -> -> -> ->] & Hx). eauto 10.
  - intros (n & Hn & Hc & He & ->). eexists. split; [exists i, n; split; [done|exact Hn]|].
    rewrite Hc. apply elem_of_lookup_imap. eauto.
Qed.

Lemma demands_visit g i pos e :
  demands g i pos e ↔ (i, pos, e, StrideRequirement.Contiguous) ∈ visits g.
Proof. rewrite elem_of_visits. unfold demands. naive_solver. Qed.

(** ** The scan *)

Section Scan.
Context (g : Graph).

Definition plan_ok (p : CopyPlan) : Prop :=
  ∃ ed, gr_edges g !! cp_src_edge_id p = Some ed ∧
    cp_actual_strides p = e_strides ed ∧
    cp_expected_strides p = compute_contiguous_strides (tn_shape (e_tensor ed)) ∧
    cp_actual_strides p ≠ cp_expected_strides p ∧
    find_copy g (cp_src_edge_id p) = None.

Definition planned (s : Scan) (i pos e : nat) : Prop :=
  ∃ p, p ∈ sc_plans s ∧ cp_src_edge_id p = e ∧ (i, pos) ∈ cp_consumers p.

Record scan_inv (seen : list (nat * nat * nat * StrideRequirement.t)) (s : Scan) : Prop := {
  si_plans : Forall plan_ok (sc_plans s);
  si_index : ∀ e k, sc_plan_by_source s !! e = Some k ↔ ∃ p, sc_plans s !! k = Some p ∧ cp_src_edge_id p = e;
  si_planned : ∀ i pos e, planned s i pos e ↔
    (i, pos, e, StrideRequirement.Contiguous) ∈ seen ∧ strided g e ∧ find_copy g e = None;
  si_existing : ∀ d i pos, (d, i, pos) ∈ sc_existing_rewires s ↔
    ∃ e c, (i, pos, e, StrideRequirement.Contiguous) ∈ seen ∧ strided g e ∧ find_copy g e = Some c ∧ d = ic_dest_edge c
}.

Lemma scan_inv_skip seen s v :
  scan_inv seen s → v.2 = StrideRequirement.Any → scan_inv (seen ++ [v]) s.
Proof.
  intros [H1 H2 H3 H4] Hv. destruct v as [[[i' pos'] e'] r]. simpl in Hv. subst r.
  split; try done; setoid_rewrite elem_of_app; setoid_rewrite list_elem_of_singleton; intros.
  - rewrite H3. naive_solver.
  - rewrite H4. naive_solver.
Qed.

Lemma planned_add s k p c i pos e :
  sc_plans s !! k = Some p →
  (∃ p', p' ∈ <[k := add_consumer c p]> (sc_plans s) ∧ cp_src_edge_id p' = e ∧ (i, pos) ∈ cp_consumers p') ↔
  planned s i pos e ∨ (e = cp_src_edge_id p ∧ (i, pos) = c).
Proof.
  intros Hk. unfold planned. split.
  - intros (p' & [j Hj]%list_elem_of_lookup & He & Hc).
    apply list_lookup_insert_Some in Hj as [(<- & <- & _)|[_ Hj]].
    + simpl in *. apply elem_of_app in Hc as [Hc|Hc%list_elem_of_singleton]; [|by right].
      left. exists p. split_and!; [by eapply list_elem_of_lookup_2|done|done].
    + left. exists p'. split_and!; [by eapply list_elem_of_lookup_2|done|done].
  - intros [(p' & [j Hj]%list_elem_of_lookup & He & Hc)|[-> ->]].
    + destruct (decide (j = k)) as [->|Hne].
      * rewrite Hk in Hj. injection Hj as <-. exists (add_consumer c p). split_and!; [|done|simpl; set_solver].
        eapply list_elem_of_lookup_2, list_lookup_insert_eq, lookup_lt_Some, Hk.
      * exists p'. split_and!; [|done|done]. eapply list_elem_of_lookup_2. by rewrite list_lookup_insert_ne.
    + exists (add_consumer c p). split_and!; [|done|simpl; set_solver].
      eapply list_elem_of_lookup_2, list_lookup_insert_eq, lookup_lt_Some, Hk.
Qed.

(** The scan of one input that must be contiguous. *)
Lemma scan_contiguous_step seen s i pos e :
  (e < length (gr_edges g))%nat → scan_inv seen s →
  ∃ s', scan_contiguous g i pos e s = Ok s' ∧ scan_inv (seen ++ [(i, pos, e, StrideRequirement.Contiguous)]) s'.
Proof.
  intros [ed He]%lookup_lt_is_Some Hinv. pose proof Hinv as [H1 H2 H3 H4]. unfold scan_contiguous. rewrite He. cbn [or_panic obind].
  assert (strided g e ↔ e_strides ed ≠ compute_contiguous_strides (tn_shape (e_tensor ed))) as Hst.
  { unfold strided. rewrite He. naive_solver. }
  case_bool_decide as Hs.
  { exists s. split; [done|]. split; try done; intros; rewrite ?H3, ?H4; setoid_rewrite elem_of_app;
      setoid_rewrite list_elem_of_singleton; naive_solver. }
  destruct (find_copy g e) as [existing|] eqn:Hf.
  { eexists. split; [done|]. split; try done; cbn [sc_existing_rewires].
    - intros i' pos' e'. unfold planned. cbn [sc_plans]. fold (planned s i' pos' e').
      rewrite H3, elem_of_app, list_elem_of_singleton. naive_solver.
    - intros d i' pos'. rewrite elem_of_app, H4, list_elem_of_singleton. setoid_rewrite elem_of_app.
      setoid_rewrite list_elem_of_singleton. naive_solver. }
  destruct (sc_plan_by_source s !! e) as [k|] eqn:Hk.
  - pose proof Hk as (p & Hp & Hsrc)%H2. rewrite Hp. eexists. split; [done|]. split; cbn [sc_plans sc_plan_by_source].
    + apply Forall_insert; [done|]. exact (Forall_lookup_1 _ _ _ _ H1 Hp).
    + intros e' k'. rewrite H2. setoid_rewrite list_lookup_insert_Some. split.
      * intros (p' & Hp' & <-). destruct (decide (k = k')) as [<-|]; [|naive_solver].
        exists (add_consumer (i, pos) p). split; [left; split_and!; [done|done|by eapply lookup_lt_Some]|]. simpl. congruence.
      * intros (p' & [(<- & <- & _)|[_ ?]] & <-); eauto.
    + intros i' pos' e'. unfold planned. cbn [sc_plans]. rewrite planned_add, H3, elem_of_app, list_elem_of_singleton by done.
      naive_solver.
    + intros d i' pos'. rewrite H4. setoid_rewrite elem_of_app. setoid_rewrite list_elem_of_singleton. naive_solver.
  - eexists. split; [done|]. split; cbn [sc_plans sc_plan_by_source].
    + apply Forall_app. split; [done|]. apply Forall_singleton. exists ed. naive_solver.
    + intros e' k'. setoid_rewrite snoc_Some. destruct (decide (e = e')) as [<-|Hne].
      * rewrite lookup_insert_eq. split; [intros [= <-]; naive_solver|].
        intros (p & [Hp|[-> <-]] & Hpe); [|done]. exfalso. assert (sc_plan_by_source s !! e = Some k') by (apply H2; eauto). congruence.
      * rewrite lookup_insert_ne, H2 by done. naive_solver.
    + intros i' pos' e'. unfold planned. cbn [sc_plans]. setoid_rewrite elem_of_app. setoid_rewrite list_elem_of_singleton.
      split.
      * intros (p & [Hp|Hp] & Hpe & Hc).
        -- assert (planned s i' pos' e') as Hpl by (exists p; done). apply H3 in Hpl. naive_solver.
        -- subst p. simpl in *. apply list_elem_of_singleton in Hc as [= -> ->]. subst. naive_solver.
      * intros ([Hin|[= -> -> ->]] & Hs' & Hf').
        -- assert (planned s i' pos' e') as (p & ? & ? & ?) by (apply H3; done). naive_solver.
        -- eexists. split; [by right|]. simpl. split; [done|left].
    + intros d i' pos'. rewrite H4. setoid_rewrite elem_of_app. setoid_rewrite list_elem_of_singleton. naive_solver.
Qed.

Lemma scan_visits_inv seen vs s :
  (∀ i pos e r, (i, pos, e, r) ∈ vs → (e < length (gr_edges g))%nat) → scan_inv seen s →
  ∃ s', scan_visits g vs s = Ok s' ∧ scan_inv (seen ++ vs) s'.
Proof.
  revert seen s. induction vs as [|[[[i pos] e] r] vs IH]; intros seen s Hr Hinv.
  { exists s. by rewrite app_nil_r. }
  cbn [scan_visits]. assert (∃ s1, (match r with
      | StrideRequirement.Any => Ok s
      | StrideRequirement.Contiguous => scan_contiguous g i pos e s
      end) = Ok s1 ∧ scan_inv (seen ++ [(i, pos, e, r)]) s1) as (s1 & -> & H1).
  { destruct r; [exists s; split; [done|by apply scan_inv_skip]|]. apply scan_contiguous_step; [|done]. eapply Hr. left. }
  cbn [obind]. destruct (IH _ _ ltac:(set_solver) H1) as (s' & Hs & H'). exists s'. split; [done|].
  by rewrite <- app_assoc in H'.
Qed.

(** The scan of a well-formed graph. *)
Lemma scan_spec : wf g → ∃ s, scan g = Ok s ∧ scan_inv (visits g) s.
Proof.
  intros Hwf. destruct (scan_visits_inv [] (visits g)
    {| sc_plans := []; sc_plan_by_source := ∅; sc_existing_rewires := [] |}) as (s & Hs & Hinv); [| |by exists s].
  - intros i pos e r (n & Hn & _ & He & _)%elem_of_visits. eapply nw_inputs; [by eapply wf_nodes|].
    by eapply list_elem_of_lookup_2.
  - split; [done| | |]; unfold planned; simpl; set_solver.
Qed.

Lemma scan_inv_sources seen s : scan_inv seen s → NoDup (map cp_src_edge_id (sc_plans s)).
Proof.
  intros [_ H2 _ _]. apply NoDup_alt. intros j k e.
  assert (∀ k, map cp_src_edge_id (sc_plans s) !! k = Some e → sc_plan_by_source s !! e = Some k) as H.
  { intros l (p & -> & Hp)%list_lookup_fmap_Some. apply H2. eauto. }
  intros Hj%H Hk%H. congruence.
Qed.

Lemma scan_nothing vs s :
  (∀ i pos e, (i, pos, e, StrideRequirement.Contiguous) ∈ vs → (e < length (gr_edges g))%nat ∧ ¬ strided g e) →
  scan_visits g vs s = Ok s.
Proof.
  induction vs as [|[[[i pos] e] r] vs IH]; intros Hvs; [done|]. cbn [scan_visits].
  assert ((match r with
      | StrideRequirement.Any => Ok s
      | StrideRequirement.Contiguous => scan_contiguous g i pos e s
      end) = Ok s) as ->.
  { destruct r; [done|]. destruct (Hvs i pos e) as [[ed He]%lookup_lt_is_Some Hst]; [left|].
    unfold scan_contiguous. rewrite He. cbn [or_panic obind]. rewrite bool_decide_eq_true_2; [done|].
    destruct (decide (e_strides ed = compute_contiguous_strides (tn_shape (e_tensor ed)))); [done|].
    exfalso. apply Hst. by exists ed. }
  cbn [obind]. apply IH. set_solver.
Qed.
End Scan.
