(* ===== verification/GraphMaterialize.v ===== *)
(** * The apply phases of copy insertion

    The two phases of [materialize_copies] of [crates/r9v-ir/src/graph.rs] that
    change the graph, as explicit states: inputs redirected to a contiguous
    copy, and for a new plan the copy's edge, node and record. *)

From stdpp Require Import gmap sorting.
From S2P Require Import Prelude Wp Bytes Errors SchedError Ops OpValidate Graph Materialize GraphInv GraphTopo.

#[global] Open Scope Z_scope.

(** ** Redirecting inputs *)

Definition redirect (d : nat) (c : nat * nat) (ns : list GraphNode) : list GraphNode :=
  alter (λ n, with_inputs (<[c.2 := d]> (n_inputs n)) n) c.1 ns.

Definition redirect_all (d : nat) (cs : list (nat * nat)) (ns : list GraphNode) : list GraphNode :=
  foldl (λ ns c, redirect d c ns) ns cs.

(** The input exists. *)
Definition input_slot (ns : list GraphNode) (c : nat * nat) : Prop :=
  ∃ n, ns !! c.1 = Some n ∧ (c.2 < length (n_inputs n))%nat.

Lemma slot_redirect d c c' ns : input_slot (redirect d c' ns) c ↔ input_slot ns c.
Proof.
  unfold input_slot, redirect. rewrite list_lookup_alter. case_decide as H; [rewrite H|done].
  split.
  - intros (n & Hn & Hl). apply fmap_Some in Hn as (m & Hm & ->). exists m. simpl in Hl. by rewrite length_insert in Hl.
  - intros (n & -> & Hl). eexists. split; [done|]. simpl. by rewrite length_insert.
Qed.

Lemma assign_input_run i pos d g :
  input_slot (gr_nodes g) (i, pos) → assign_input i pos d g = (Ok tt, set_nodes (redirect d (i, pos) (gr_nodes g)) g).
Proof.
  intros (n & Hn & Hl). simpl in *. unfold assign_input, sbind, sget, slift, smodify. rewrite Hn. cbn [or_panic].
  unfold vec_set. rewrite (proj2 (Nat.ltb_lt _ _) Hl). unfold redirect. simpl.
  f_equal. unfold set_nodes. f_equal. apply list_eq. intros j. rewrite list_lookup_alter.
  case_decide as Hj; subst.
  - rewrite list_lookup_insert_eq by (by eapply lookup_lt_Some). by rewrite Hn.
  - by rewrite list_lookup_insert_ne.
Qed.

Lemma redirect_all_cons d c cs ns : redirect_all d (c :: cs) ns = redirect_all d cs (redirect d c ns).
Proof. done. Qed.

Lemma slot_redirect_all d cs c ns : input_slot (redirect_all d cs ns) c ↔ input_slot ns c.
Proof.
  revert ns. induction cs as [|c' cs IH]; intros ns; [done|]. by rewrite redirect_all_cons, IH, slot_redirect.
Qed.

Lemma length_redirect_all d cs ns : length (redirect_all d cs ns) = length ns.
Proof.
  revert ns. induction cs as [|c cs IH]; intros ns; [done|]. rewrite redirect_all_cons, IH. unfold redirect. by rewrite length_alter.
Qed.

(** A node keeps everything but the inputs the list names. *)
Definition redirected (d : nat) (cs : list (nat * nat)) (i : nat) (inputs : list nat) : list nat :=
  imap (λ pos e, if decide ((i, pos) ∈ cs) then d else e) inputs.

Lemma with_inputs_same n : with_inputs (n_inputs n) n = n.
Proof. by destruct n. Qed.

Lemma redirected_lookup d cs i inputs pos :
  redirected d cs i inputs !! pos = (λ e, if decide ((i, pos) ∈ cs) then d else e) <$> inputs !! pos.
Proof. apply list_lookup_imap. Qed.

Lemma redirected_nil d i inputs : redirected d [] i inputs = inputs.
Proof.
  apply list_eq. intros pos. rewrite redirected_lookup.
  destruct (inputs !! pos); [|done]. cbn -[decide]. by rewrite decide_False by apply not_elem_of_nil.
Qed.

Lemma redirected_cons d i pos cs inputs :
  redirected d ((i, pos) :: cs) i inputs = redirected d cs i (<[pos := d]> inputs).
Proof.
  apply list_eq. intros p. rewrite !redirected_lookup. destruct (decide (p = pos)) as [->|Hne].
  - destruct (inputs !! pos) as [e|] eqn:He.
    + rewrite list_lookup_insert_eq by (by eapply lookup_lt_Some). cbn -[decide]. rewrite decide_True by left.
      by case_decide.
    + by rewrite list_insert_ge, He by (by apply lookup_ge_None).
  - rewrite list_lookup_insert_ne by done. destruct (inputs !! p); [|done]. cbn -[decide]. f_equal.
    apply decide_ext. rewrite elem_of_cons. naive_solver.
Qed.

Lemma redirected_other d c cs i inputs : c.1 ≠ i → redirected d (c :: cs) i inputs = redirected d cs i inputs.
Proof.
  intros Hc. unfold redirected. apply imap_ext. intros pos e _. apply decide_ext. rewrite elem_of_cons.
  split; [|by right]. intros [<-|?]; done.
Qed.

Lemma redirect_all_lookup d cs ns i :
  redirect_all d cs ns !! i = (λ n, with_inputs (redirected d cs i (n_inputs n)) n) <$> ns !! i.
Proof.
  revert ns. induction cs as [|[j pos] cs IH]; intros ns.
  - change (redirect_all d [] ns) with ns. destruct (ns !! i) as [n|]; [|done]. cbn. by rewrite redirected_nil, with_inputs_same.
  - rewrite redirect_all_cons, IH. unfold redirect. cbn [fst snd].
    rewrite list_lookup_alter. case_decide as H; subst.
    + destruct (ns !! i) as [n|]; [|done]. cbn. by rewrite redirected_cons.
    + destruct (ns !! i) as [n|]; [|done]. cbn. by rewrite redirected_other.
Qed.

Lemma assign_all_run d cs g :
  Forall (input_slot (gr_nodes g)) cs →
  sfor (λ '(i, pos), assign_input i pos d) cs g = (Ok tt, set_nodes (redirect_all d cs (gr_nodes g)) g).
Proof.
  revert g. induction cs as [|[i pos] cs IH]; intros g Hcs; [by destruct g|].
  apply Forall_cons in Hcs as [Hc Hcs]. cbn [sfor]. unfold sbind at 1. rewrite assign_input_run by done.
  rewrite IH; [done|]. simpl. eapply Forall_impl; [exact Hcs|]. intros c. by rewrite slot_redirect.
Qed.

Lemma redirect_all_wf d cs g :
  wf g → (d < length (gr_edges g))%nat → wf (set_nodes (redirect_all d cs (gr_nodes g)) g).
Proof.
  intros Hwf Hd. pose proof Hwf as [He Hn Ho Hv Hc Hx].
  assert (∀ i n', redirect_all d cs (gr_nodes g) !! i = Some n' →
    ∃ n, gr_nodes g !! i = Some n ∧ n' = with_inputs (redirected d cs i (n_inputs n)) n) as Hl.
  { intros i n'. rewrite redirect_all_lookup. intros (n & -> & Hi)%fmap_Some. eauto. }
  assert (∀ p e, outputs_edge (set_nodes (redirect_all d cs (gr_nodes g)) g) p e → outputs_edge g p e) as Hcases.
  { intros p e (n' & (n & Hp & ->)%Hl & Hen). by exists n. }
  split; simpl; try done.
  - intros i n' (n & Hi & ->)%Hl. destruct (Hn i n Hi) as [H1 H2 H3 H4]. split; simpl; try done.
    + intros e (pos & x & -> & Hp)%elem_of_lookup_imap. case_decide; [done|]. eapply H2, list_elem_of_lookup_2, Hp.
    + unfold redirected. by rewrite length_imap.
  - intros p q e ?%Hcases ?%Hcases. by eapply Ho.
  - intros p e s ?%Hcases. by eapply Hv.
Qed.

(** ** Copies *)

Definition copy_tensor (t : Tensor) : Tensor :=
  {| tn_shape := tn_shape t; tn_dtype := tn_dtype t; tn_quant := tn_quant t; tn_layout := LayoutId.CONTIGUOUS;
     tn_placement := tn_placement t; tn_sharding := tn_sharding t; tn_class := tn_class t |}.

Lemma copy_tensor_wf t : tensor_wf t → tensor_wf (copy_tensor t).
Proof. intros [[H1 H2 H3 H4 H5 H6] Hd]. split; [|done]. split; try done. split; [done|]. intros [H|H]; discriminate H. Qed.

Lemma copy_tensor_new t :
  tensor_wf t →
  tensor_new (tn_shape t) (tn_dtype t) (tn_quant t) LayoutId.CONTIGUOUS (tn_placement t) (tn_sharding t) (tn_class t)
  = Ok (copy_tensor t).
Proof.
  intros [Hok _]%copy_tensor_wf. by apply tensor_new_Ok.
Qed.

(** Node [node] copies edge [src] into the contiguous edge [dst]. *)
Definition copy_ok (g : Graph) (node src dst : nat) : Prop :=
  ∃ n s d, gr_nodes g !! node = Some n ∧ is_copy (n_op n) = true ∧ n_inputs n = [src] ∧ n_outputs n = [dst] ∧
    gr_edges g !! src = Some s ∧ gr_edges g !! dst = Some d ∧ e_tensor d = copy_tensor (e_tensor s) ∧
    e_strides d = compute_contiguous_strides (tn_shape (e_tensor d)).

Definition copies_ok (g : Graph) : Prop :=
  ∀ c, c ∈ gr_inserted_copies g → copy_ok g (ic_copy_node c) (ic_source_edge c) (ic_dest_edge c).

Lemma copy_ok_dest g node src dst : copy_ok g node src dst → ¬ strided g dst.
Proof. intros (n & s & d & _ & _ & _ & _ & _ & Hd & _ & Hs) (d' & Hd' & Hn). congruence. Qed.

(** What a record says of the graph, its consumers apart. *)
Definition core (c : InsertedCopy) : nat * nat * nat := (ic_copy_node c, ic_source_edge c, ic_dest_edge c).

Lemma record_consumer_core d i cs : map core (record_consumer d i cs) = map core cs.
Proof.
  unfold record_consumer. destruct (list_find _ cs) as [[j c]|] eqn:F; [|done]. case_bool_decide; [done|].
  apply list_find_Some in F as (Hj & _ & _). apply list_eq. intros k. rewrite !list_lookup_fmap.
  destruct (decide (j = k)) as [->|]; [|by rewrite list_lookup_insert_ne].
  by rewrite list_lookup_insert_eq, Hj by (by eapply lookup_lt_Some).
Qed.

Lemma core_elem g g' c :
  map core (gr_inserted_copies g') = map core (gr_inserted_copies g) → c ∈ gr_inserted_copies g →
  ∃ c', c' ∈ gr_inserted_copies g' ∧ core c' = core c.
Proof.
  intros Hc Hin. assert (core c ∈ map core (gr_inserted_copies g)) as H by (apply list_elem_of_fmap; eauto).
  rewrite <- Hc in H. apply list_elem_of_fmap in H as (c' & -> & ?). eauto.
Qed.

(** ** What a run has done so far *)

(** [g'] is [g] with copies added and the inputs in [P] reading the copy of the
    edge they read in [g]. *)
Record progress (g : Graph) (P : nat → nat → Prop) (g' : Graph) : Prop := {
  pg_wf : wf g';
  pg_copies : copies_ok g → copies_ok g';
  pg_edges : gr_edges g `prefix_of` gr_edges g';
  pg_old : ∀ i n, gr_nodes g !! i = Some n →
    ∃ inputs, gr_nodes g' !! i = Some (with_inputs inputs n) ∧ length inputs = length (n_inputs n) ∧
      ∀ pos e, n_inputs n !! pos = Some e →
        (¬ P i pos ∧ inputs !! pos = Some e) ∨
        (P i pos ∧ ∃ c, c ∈ gr_inserted_copies g' ∧ ic_source_edge c = e ∧ inputs !! pos = Some (ic_dest_edge c));
  pg_new : ∀ i n, gr_nodes g' !! i = Some n →
    (i < length (gr_nodes g))%nat ∨
    ∃ c, c ∈ gr_inserted_copies g' ∧ ic_copy_node c = i ∧ (length (gr_edges g) ≤ ic_dest_edge c)%nat ∧
      (ic_source_edge c < length (gr_edges g))%nat;
  pg_kept : ∀ c, c ∈ gr_inserted_copies g → core c ∈ map core (gr_inserted_copies g')
}.

Lemma progress_start g : wf g → progress g (λ _ _, False) g.
Proof.
  intros Hwf. split; try done.
  - intros i n Hn. exists (n_inputs n). rewrite with_inputs_same. split_and!; [done|done|]. intros pos e He. left. auto.
  - intros i n Hn. left. by eapply lookup_lt_Some.
  - intros c Hin. apply list_elem_of_fmap. eauto.
Qed.

Lemma progress_ext g P Q g' : (∀ i pos, P i pos ↔ Q i pos) → progress g P g' → progress g Q g'.
Proof.
  intros HPQ [H1 H2 H3 H4 H5 H6]. split; try done. intros i n Hn. destruct (H4 i n Hn) as (inputs & ? & ? & H).
  exists inputs. split_and!; [done|done|]. intros pos e He. rewrite <- HPQ. by apply H.
Qed.

(** Redirecting inputs that demand a contiguous edge to a copy of it. *)
Lemma progress_redirect g P g1 cs c :
  progress g P g1 → c ∈ gr_inserted_copies g1 →
  (∀ i pos, (i, pos) ∈ cs → demands g i pos (ic_source_edge c)) →
  progress g (λ i pos, P i pos ∨ (i, pos) ∈ cs)
    (set_nodes (redirect_all (ic_dest_edge c) cs (gr_nodes g1)) g1).
Proof.
  intros [H1 H2 H3 H4 H5 H6] Hc Hcs.
  assert (∀ i n, gr_nodes g1 !! i = Some n → is_copy (n_op n) = true → ∀ inputs,
            redirected (ic_dest_edge c) cs i inputs = inputs) as Hskip.
  { intros i n Hn Hcopy inputs. apply list_eq. intros pos. rewrite redirected_lookup.
    destruct (inputs !! pos); [|done]. cbn -[decide]. rewrite decide_False; [done|].
    intros (m & Hn0 & Hnc & _)%Hcs. destruct (H4 _ _ Hn0) as (? & Hn1 & _). rewrite Hn in Hn1. injection Hn1 as ->.
    simpl in Hcopy. congruence. }
  split; try done.
  - apply redirect_all_wf; [done|]. by apply (wf_copies _ H1).
  - intros Hok c' Hc'. destruct (H2 Hok c' Hc') as (n & s & d & Hn & Hcp & Hin & Hrest). exists n, s, d. split; [|done].
    simpl. rewrite redirect_all_lookup, Hn. simpl. by rewrite (Hskip _ _ Hn Hcp), with_inputs_same.
  - intros i n Hn. destruct (H4 i n Hn) as (inputs & Hn1 & Hl & Hin). exists (redirected (ic_dest_edge c) cs i inputs).
    simpl. rewrite redirect_all_lookup, Hn1. split_and!; [done|unfold redirected; by rewrite length_imap|].
    intros pos e He. rewrite redirected_lookup. destruct (decide ((i, pos) ∈ cs)) as [Hp|Hp].
    + right. split; [by right|]. exists c. split; [done|].
      destruct (Hcs _ _ Hp) as (m & Hn0 & _ & He0 & _). split; [congruence|].
      destruct (Hin pos e He) as [[_ ->]|(_ & ? & _ & _ & ->)]; done.
    + destruct (Hin pos e He) as [[HP ->]|(HP & c' & Hc' & Hs & ->)]; cbn.
      * left. split; [naive_solver|done].
      * right. split; [by left|]. eauto.
  - intros i n. simpl. rewrite redirect_all_lookup. intros (m & Hm & ->)%fmap_Some. by eapply H5.
Qed.

Lemma progress_record g P d i g1 :
  progress g P g1 → progress g P (set_copies (record_consumer d i (gr_inserted_copies g1)) g1).
Proof.
  intros [H1 H2 H3 H4 H5 H6]. set (g2 := set_copies _ _).
  assert (map core (gr_inserted_copies g2) = map core (gr_inserted_copies g1)) as Hcore by apply record_consumer_core.
  pose proof (λ c, core_elem g1 g2 c Hcore) as Hfwd. pose proof (λ c, core_elem g2 g1 c (eq_sym Hcore)) as Hbwd.
  split; try done.
  - destruct H1 as [He Hn Ho Hv Hc Hx]. split; try done. intros c (c' & Hin & [= _ _ <-])%Hbwd. by apply Hc.
  - intros Hok c (c' & Hin & [= <- <- <-])%Hbwd. by apply H2.
  - intros j n Hn. destruct (H4 j n Hn) as (inputs & Hn' & Hl & Hin). exists inputs. split_and!; [done|done|].
    intros pos e He. destruct (Hin pos e He) as [?|(HP & c & (c' & Hc' & [= _ Hs Hd])%Hfwd & <- & ->)]; [by left|].
    right. split; [done|]. exists c'. naive_solver.
  - intros j n Hn. destruct (H5 j n Hn) as [?|(c & (c' & Hc' & [= Hn' Hs Hd])%Hfwd & <- & ? & ?)]; [by left|].
    right. exists c'. rewrite Hn', Hs, Hd. done.
  - intros c Hin. rewrite Hcore. by apply H6.
Qed.

(** ** A new copy *)

Definition copy_node (g : Graph) (src : nat) : GraphNode :=
  {| n_id := length (gr_nodes g); n_op := Op.Copy {| co_kind := CopyKind.Contiguize |}; n_inputs := [src];
     n_requirements := [StrideRequirement.Any]; n_outputs := [length (gr_edges g)] |}.

(** The copy's edge and node. *)
Definition with_copy (src : nat) (t : Tensor) (g : Graph) : Graph :=
  set_nodes (gr_nodes g ++ [copy_node g src])
    (set_edges (gr_edges g ++ [fresh_edge (length (gr_edges g)) (copy_tensor t)]) g).

Definition plan_record (p : CopyPlan) (g : Graph) : InsertedCopy :=
  {| ic_copy_node := length (gr_nodes g); ic_source_edge := cp_src_edge_id p; ic_dest_edge := length (gr_edges g);
     ic_consumer_nodes := dedup (sort_nodes (map fst (cp_consumers p)));
     ic_actual_strides := cp_actual_strides p; ic_expected_strides := cp_expected_strides p |}.

Lemma set_copies_wf cs g :
  wf g → (∀ c, c ∈ cs → (ic_dest_edge c < length (gr_edges g))%nat) → wf (set_copies cs g).
Proof. intros [He Hn Ho Hv Hc Hx] Hcs. by split. Qed.

Lemma with_copy_wf src t g :
  wf g → (src < length (gr_edges g))%nat → tensor_wf t → wf (with_copy src t g).
Proof.
  intros Hwf Hsrc Ht. assert (wf (fresh_edges [copy_tensor t] g)) as Hwf'.
  { apply fresh_edges_wf; [done|]. apply Forall_singleton. by apply copy_tensor_wf. }
  assert (fresh_edges [copy_tensor t] g = set_edges (gr_edges g ++ [fresh_edge (length (gr_edges g)) (copy_tensor t)]) g)
    as Heq by (unfold fresh_edges; simpl; by rewrite Nat.add_0_r).
  unfold with_copy. rewrite <- Heq in *. apply (push_node_wf (fresh_edges [copy_tensor t] g)); [done| |done|].
  - intros e ->%list_elem_of_singleton. rewrite Heq. simpl. rewrite length_app. lia.
  - intros e ->%list_elem_of_singleton. apply (fresh_edges_unowned [copy_tensor t]); [done| |simpl; left].
    apply Forall_singleton. by apply copy_tensor_wf.
Qed.

Lemma prefix_lookup_edge g g' i e :
  gr_edges g `prefix_of` gr_edges g' → gr_edges g !! i = Some e → gr_edges g' !! i = Some e.
Proof. intros Hp He. by eapply prefix_lookup_Some. Qed.

Lemma progress_copy g P g1 src ed r :
  progress g P g1 → gr_edges g !! src = Some ed → tensor_wf (e_tensor ed) →
  core r = (length (gr_nodes g1), src, length (gr_edges g1)) →
  progress g P (set_copies (gr_inserted_copies g1 ++ [r]) (with_copy src (e_tensor ed) g1)).
Proof.
  intros [H1 H2 H3 H4 H5 H6] He Ht [= Hrn Hrs Hrd]. set (g2 := with_copy src (e_tensor ed) g1).
  assert (gr_edges g1 !! src = Some ed) as He1 by (by eapply prefix_lookup_edge).
  assert (wf g2) as Hwf2 by (apply with_copy_wf; [done|by eapply lookup_lt_Some|done]).
  assert (∀ i n, gr_nodes g1 !! i = Some n → gr_nodes g2 !! i = Some n) as Hnodes
    by (intros; by apply lookup_app_l_Some).
  assert (∀ i e, gr_edges g1 !! i = Some e → gr_edges g2 !! i = Some e) as Hedges
    by (intros; by apply lookup_app_l_Some).
  split; simpl.
  - apply set_copies_wf; [done|]. simpl. rewrite length_app. simpl.
    intros c [Hc%(wf_copies _ H1)|Hc%list_elem_of_singleton]%elem_of_app; [lia|]. rewrite Hc, Hrd. lia.
  - intros Hok c [Hc|Hc%list_elem_of_singleton]%elem_of_app.
    + destruct (H2 Hok c Hc) as (n & s & d & ? & ? & ? & ? & ? & ? & ? & ?). exists n, s, d. split_and!; auto.
    + rewrite Hc, Hrn, Hrs, Hrd. exists (copy_node g1 src), ed, (fresh_edge (length (gr_edges g1)) (copy_tensor (e_tensor ed))).
      split_and!; try done; [|by apply Hedges|]; by apply list_lookup_middle.
  - etrans; [exact H3|]. by eexists.
  - intros i n Hn. destruct (H4 i n Hn) as (inputs & Hn' & Hl & Hin). exists inputs. split_and!; [by apply Hnodes|done|].
    intros pos e Hpos. destruct (Hin pos e Hpos) as [?|(HP & c & Hc & ? & ?)]; [by left|]. right. split; [done|].
    exists c. rewrite elem_of_app. auto.
  - intros i n [Hi|[-> <-]]%snoc_Some.
    + destruct (H5 i n Hi) as [?|(c & Hc & ?)]; [by left|]. right. exists c. rewrite elem_of_app. auto.
    + right. exists r. rewrite Hrn, Hrs, Hrd. split_and!; [apply elem_of_app; right; left|done| |by eapply lookup_lt_Some].
      by apply prefix_length.
  - intros c Hc%H6. rewrite map_app. apply elem_of_app. by left.
Qed.

(** ** Running the phases *)

Lemma demands_slot g P g1 i pos e : progress g P g1 → demands g i pos e → input_slot (gr_nodes g1) (i, pos).
Proof.
  intros Hp (n & Hn & _ & He & _). destruct (pg_old _ _ _ Hp _ _ Hn) as (inputs & Hn' & Hl & _).
  exists (with_inputs inputs n). split; [done|]. simpl. rewrite Hl. by eapply lookup_lt_Some.
Qed.

Lemma apply_existing_run g P g1 d i pos e c :
  progress g P g1 → demands g i pos e → c ∈ gr_inserted_copies g → ic_source_edge c = e → ic_dest_edge c = d →
  ∃ g2, apply_existing (d, i, pos) g1 = (Ok tt, g2) ∧ progress g (λ i' pos', P i' pos' ∨ (i', pos') = (i, pos)) g2 ∧
    gr_edges g2 = gr_edges g1 ∧ length (gr_nodes g2) = length (gr_nodes g1) ∧
    map core (gr_inserted_copies g2) = map core (gr_inserted_copies g1).
Proof.
  intros Hp Hd Hc <- <-. unfold apply_existing. eexists. split.
  { unfold sbind. rewrite assign_input_run by (by eapply demands_slot). done. }
  pose proof (pg_kept _ _ _ Hp c Hc) as (c1 & [= _ Hs Hdst] & Hc1)%list_elem_of_fmap.
  pose proof (progress_redirect g P g1 [(i, pos)] c1 Hp Hc1) as Hr. rewrite <- Hs, <- Hdst in Hr.
  split_and!; [|done|simpl; unfold redirect; by rewrite length_alter|apply record_consumer_core].
  apply (progress_record g _ (ic_dest_edge c) i) in Hr; [|by intros ? ? [= -> ->]%list_elem_of_singleton].
  eapply progress_ext; [|exact Hr]. intros i' pos'. cbn. by rewrite list_elem_of_singleton.
Qed.

Definition plan_spec (g : Graph) (p : CopyPlan) : Prop :=
  (∃ ed, gr_edges g !! cp_src_edge_id p = Some ed) ∧
  ∀ i pos, (i, pos) ∈ cp_consumers p → demands g i pos (cp_src_edge_id p).

Lemma apply_plan_run g P g1 p :
  progress g P g1 → plan_spec g p →
  ∃ g2, apply_plan p g1 = (Ok tt, g2) ∧ progress g (λ i pos, P i pos ∨ (i, pos) ∈ cp_consumers p) g2 ∧
    length (gr_edges g2) = S (length (gr_edges g1)) ∧ length (gr_nodes g2) = S (length (gr_nodes g1)) ∧
    map ic_source_edge (gr_inserted_copies g2) = map ic_source_edge (gr_inserted_copies g1) ++ [cp_src_edge_id p].
Proof.
  intros Hp [[ed He] Hcs]. pose proof (pg_wf _ _ _ Hp) as Hwf.
  assert (gr_edges g1 !! cp_src_edge_id p = Some ed) as He1 by (eapply prefix_lookup_edge; [apply Hp|done]).
  pose proof (ew_tensor _ _ (wf_edges _ Hwf _ _ He1)) as Ht.
  pose proof (progress_copy g P g1 _ ed (plan_record p g1) Hp He Ht eq_refl) as Hp1.
  set (g2 := with_copy (cp_src_edge_id p) (e_tensor ed) g1) in *.
  pose proof (progress_redirect g P _ (cp_consumers p) (plan_record p g1) Hp1 ltac:(apply elem_of_app; right; left) Hcs) as Hp2.
  eexists. split; [|split; [exact Hp2|]].
  - unfold apply_plan, sget, slift, push_tensor_edge, push_edge, push_node, graph_get, smodify, sret, sbind.
    rewrite He1. cbn [or_panic]. rewrite copy_tensor_new by done. cbn -[sfor redirect_all].
    unfold sget, sret, sbind. cbn -[sfor redirect_all].
    change (set_nodes _ (set_edges _ g1)) with g2.
    rewrite (assign_all_run (length (gr_edges g1)) (cp_consumers p) g2); [done|].
    apply Forall_forall. intros [i pos] Hc%Hcs. by eapply (demands_slot g P _ i pos) in Hp1.
  - simpl. rewrite length_redirect_all, !length_app, map_app. simpl. split_and!; [lia|lia|done].
Qed.

Lemma apply_existing_all g P g1 rs :
  progress g P g1 →
  (∀ d i pos, (d, i, pos) ∈ rs → ∃ e c, demands g i pos e ∧ c ∈ gr_inserted_copies g ∧ ic_source_edge c = e ∧ ic_dest_edge c = d) →
  ∃ g2, sfor apply_existing rs g1 = (Ok tt, g2) ∧
    progress g (λ i pos, P i pos ∨ ∃ d, (d, i, pos) ∈ rs) g2 ∧
    gr_edges g2 = gr_edges g1 ∧ length (gr_nodes g2) = length (gr_nodes g1) ∧
    map core (gr_inserted_copies g2) = map core (gr_inserted_copies g1).
Proof.
  revert P g1. induction rs as [|[[d i] pos] rs IH]; intros P g1 Hp Hrs.
  - exists g1. split_and!; try done. eapply progress_ext; [|exact Hp]. set_solver.
  - destruct (Hrs d i pos) as (e & c & Hd & Hc & Hs & Hdst); [left|].
    destruct (apply_existing_run g P g1 d i pos e c) as (g2 & Hr & Hp2 & He2 & Hn2 & Hc2); [done..|].
    destruct (IH _ g2 Hp2) as (g3 & Hr3 & Hp3 & He3 & Hn3 & Hc3).
    { intros d' i' pos' Hin. apply Hrs. by right. }
    exists g3. split_and!; [|eapply progress_ext; [|exact Hp3]|congruence|congruence|congruence].
    + cbn [sfor]. unfold sbind. by rewrite Hr.
    + intros i' pos'. cbn. setoid_rewrite elem_of_cons. split.
      * intros [[?|[= -> ->]]|[d' ?]]; eauto.
      * intros [?|[d' [[= -> -> ->]|?]]]; eauto.
Qed.

Lemma apply_plans_all g P g1 plans :
  progress g P g1 → Forall (plan_spec g) plans →
  ∃ g2, sfor apply_plan plans g1 = (Ok tt, g2) ∧
    progress g (λ i pos, P i pos ∨ ∃ p, p ∈ plans ∧ (i, pos) ∈ cp_consumers p) g2 ∧
    length (gr_edges g2) = (length (gr_edges g1) + length plans)%nat ∧
    length (gr_nodes g2) = (length (gr_nodes g1) + length plans)%nat ∧
    map ic_source_edge (gr_inserted_copies g2) = map ic_source_edge (gr_inserted_copies g1) ++ map cp_src_edge_id plans.
Proof.
  revert P g1. induction plans as [|p plans IH]; intros P g1 Hp Hps.
  - exists g1. split_and!; try done; [|by rewrite Nat.add_0_r..|by rewrite app_nil_r].
    eapply progress_ext; [|exact Hp]. set_solver.
  - apply Forall_cons in Hps as [Hpl Hps].
    destruct (apply_plan_run g P g1 p) as (g2 & Hr & Hp2 & He2 & Hn2 & Hc2); [done..|].
    destruct (IH _ g2 Hp2 Hps) as (g3 & Hr3 & Hp3 & He3 & Hn3 & Hc3).
    exists g3. split_and!; [|eapply progress_ext; [|exact Hp3]|simpl; lia|simpl; lia|].
    + cbn [sfor]. unfold sbind. by rewrite Hr.
    + intros i' pos'. cbn. setoid_rewrite elem_of_cons. split.
      * intros [[?|?]|(p' & ? & ?)]; eauto.
      * intros [?|(p' & [->|?] & ?)]; eauto.
    + rewrite Hc3, Hc2, <- app_assoc. done.
Qed.

(** ** The method *)

Definition violates (g : Graph) (i pos : nat) : Prop := ∃ e, violation g i pos e.

Lemma find_copy_Some g e c : find_copy g e = Some c → c ∈ gr_inserted_copies g ∧ ic_source_edge c = e.
Proof.
  unfold find_copy. intros ([j x] & Hx & ->)%fmap_Some. apply list_find_Some in Hx as (Hj & Hs & _).
  split; [by eapply list_elem_of_lookup_2|done].
Qed.

Lemma find_copy_None g e : find_copy g e = None ↔ e ∉ map ic_source_edge (gr_inserted_copies g).
Proof.
  unfold find_copy. rewrite fmap_None, list_find_None, Forall_forall. split.
  - intros Hall (c & -> & Hc)%list_elem_of_fmap. by apply (Hall c).
  - intros Hn c Hc <-. apply Hn, list_elem_of_fmap. eauto.
Qed.

Lemma materialize_run g :
  wf g →
  ∃ plans g', materialize_copies g = (Ok (length plans), g') ∧ progress g (violates g) g' ∧
    length (gr_edges g') = (length (gr_edges g) + length plans)%nat ∧
    length (gr_nodes g') = (length (gr_nodes g) + length plans)%nat ∧
    map ic_source_edge (gr_inserted_copies g') = map ic_source_edge (gr_inserted_copies g) ++ plans ∧
    NoDup plans ∧ (∀ e, e ∈ plans → e ∉ map ic_source_edge (gr_inserted_copies g)).
Proof.
  intros Hwf. destruct (scan_spec g Hwf) as (s & Hs & Hinv). pose proof Hinv as [H1 H2 H3 H4].
  destruct (apply_existing_all g _ g (sc_existing_rewires s) (progress_start g Hwf)) as (g1 & Hr1 & Hp1 & He1 & Hn1 & Hc1).
  { intros d i pos (e & c & Hv & _ & [Hc <-]%find_copy_Some & ->)%H4. exists (ic_source_edge c), c.
    split_and!; [by apply demands_visit|done..]. }
  destruct (apply_plans_all g _ g1 (sc_plans s) Hp1) as (g2 & Hr2 & Hp2 & He2 & Hn2 & Hc2).
  { eapply Forall_forall. intros p Hp. pose proof Hp as (ed & He & _)%(proj1 (Forall_forall _ _) H1). split; [eauto|].
    intros i pos Hc. apply demands_visit. by apply (H3 i pos (cp_src_edge_id p)); exists p. }
  exists (map cp_src_edge_id (sc_plans s)), g2. rewrite !length_map. split_and!.
  - unfold materialize_copies, sbind, sget, slift. rewrite Hs, Hr1, Hr2. done.
  - eapply progress_ext; [|exact Hp2]. intros i pos. cbn. unfold violates, violation. setoid_rewrite demands_visit. split.
    + intros [[[]|(d & (e & c & ? & ? & _)%H4)]|(p & Hp & Hc)]; [eauto|].
      destruct (H3 i pos (cp_src_edge_id p)) as [Hpl _]. destruct Hpl as (? & ? & _); [by exists p|]. eauto.
    + intros (e & Hv & Hst). destruct (find_copy g e) as [c|] eqn:Hf.
      * left. right. exists (ic_dest_edge c). apply H4. eauto 10.
      * right. destruct (H3 i pos e) as [_ Hpl]. destruct Hpl as (p & ? & _ & ?); eauto.
  - rewrite He2. by rewrite He1.
  - rewrite Hn2. by rewrite Hn1.
  - rewrite Hc2. f_equal. transitivity (map (snd ∘ fst) (map core (gr_inserted_copies g1))); [by rewrite map_map|].
    rewrite Hc1. by rewrite map_map.
  - by eapply scan_inv_sources.
  - intros e (p & -> & Hp)%list_elem_of_fmap. apply find_copy_None.
    by pose proof Hp as (ed & _ & _ & _ & _ & ?)%(proj1 (Forall_forall _ _) H1).
Qed.
