(* ===== verification/GraphSchedule.v ===== *)
(** * Copy insertion as a whole

    The contract of [materialize_copies] of [crates/r9v-ir/src/graph.rs]: every
    input that must be contiguous becomes so, nothing else changes, a second
    run does nothing, and a graph that had a topological order keeps one. *)

From stdpp Require Import gmap sorting relations.
From S2P Require Import Prelude Wp Bytes Errors SchedError Ops OpValidate Graph Materialize GraphInv GraphTopo GraphMaterialize.

#[global] Open Scope Z_scope.
#[local] Open Scope nat_scope.

(** ** Dependencies after a run *)

Section Progress.
Context (g g' : Graph) (Hwf : wf g) (Hok : copies_ok g) (Hp : progress g (violates g) g').

Lemma old_node i n :
  gr_nodes g !! i = Some n → is_copy (n_op n) = true → gr_nodes g' !! i = Some n.
Proof.
  intros Hn Hc. destruct (pg_old _ _ _ Hp i n Hn) as (inputs & Hn' & Hl & Hin). rewrite Hn'. f_equal.
  assert (inputs = n_inputs n) as ->; [|apply with_inputs_same].
  apply list_eq_same_length with (length inputs); [done|done|]. intros pos x y _ Hx Hy.
  destruct (Hin pos y Hy) as [[_ ?]|[(e & (m & Hm & Hmc & _) & _) _]]; congruence.
Qed.

(** A record of [g'] copies an edge of [g]. *)
Lemma record_copy c :
  c ∈ gr_inserted_copies g' →
  ic_source_edge c < length (gr_edges g) ∧
  (∀ n, gr_nodes g' !! ic_copy_node c = Some n → n_inputs n = [ic_source_edge c]) ∧
  (∀ e, outputs_edge g' (ic_copy_node c) e ↔ e = ic_dest_edge c) ∧
  (∀ n, gr_nodes g !! ic_copy_node c = Some n → n_inputs n = [ic_source_edge c]).
Proof.
  intros Hc. destruct (pg_copies _ _ _ Hp Hok c Hc) as (n & s & d & Hn & Hcp & Hin & Hout & _).
  assert (∀ m, gr_nodes g !! ic_copy_node c = Some m → m = n) as Hold.
  { intros m Hm. destruct (pg_old _ _ _ Hp _ _ Hm) as (inputs & Hn' & _). rewrite Hn in Hn'. injection Hn' as ->.
    apply (old_node _ m) in Hm; [|done]. rewrite Hn in Hm. by injection Hm. }
  split_and!.
  - destruct (pg_new _ _ _ Hp _ _ Hn) as [[m Hm]%lookup_lt_is_Some|(c' & Hc' & Heq & _ & Hs)].
    + pose proof (Hold m Hm) as ->. eapply nw_inputs; [by eapply wf_nodes|]. rewrite Hin. left.
    + destruct (pg_copies _ _ _ Hp Hok c' Hc') as (n' & _ & _ & Hn' & _ & Hin' & _).
      rewrite Heq, Hn in Hn'. injection Hn' as <-. rewrite Hin in Hin'. injection Hin' as ->. done.
  - intros m Hm. congruence.
  - intros e. unfold outputs_edge. rewrite Hn. split; [intros (m & [= <-] & He)|intros ->; exists n; rewrite Hout; split; [done|left]].
    rewrite Hout in He. by apply list_elem_of_singleton in He.
  - intros m ->%Hold. done.
Qed.

Lemma outputs_old p e : e < length (gr_edges g) → outputs_edge g' p e ↔ outputs_edge g p e.
Proof.
  intros He. split.
  - intros (n & Hn & Hout). destruct (pg_new _ _ _ Hp _ _ Hn) as [[m Hm]%lookup_lt_is_Some|(c & Hc & <- & Hd & _)].
    + exists m. split; [done|]. destruct (pg_old _ _ _ Hp _ _ Hm) as (inputs & Hn' & _). rewrite Hn in Hn'.
      by injection Hn' as ->.
    + destruct (record_copy c Hc) as (_ & _ & Ho & _). assert (e = ic_dest_edge c); [|lia]. apply Ho. by exists n.
  - intros (n & Hn & Hout). destruct (pg_old _ _ _ Hp _ _ Hn) as (inputs & Hn' & _). by exists (with_inputs inputs n).
Qed.

Lemma views_old e s : e < length (gr_edges g) → views g' e s ↔ views g e s.
Proof.
  intros [ed He]%lookup_lt_is_Some. unfold views. rewrite He.
  by rewrite (prefix_lookup_edge _ _ _ _ (pg_edges _ _ _ Hp) He).
Qed.

Lemma derived_old e p : e < length (gr_edges g) → derived g' e p ↔ derived g e p.
Proof.
  induction (lt_wf e) as [e _ IH]. intros He. rewrite !derived_inv, outputs_old by done. setoid_rewrite views_old; [|done].
  f_equiv. split; intros (s & Hv & Hd); exists s; (split; [done|]).
  all: destruct Hv as (ed & Hed & Hs); pose proof (ew_source _ _ (wf_edges _ Hwf _ _ Hed) _ Hs); apply IH; [lia|lia|done].
Qed.

Lemma derived_dest c p : c ∈ gr_inserted_copies g' → derived g' (ic_dest_edge c) p → p = ic_copy_node c.
Proof.
  intros Hc Hd. destruct (record_copy c Hc) as (_ & _ & Ho & _).
  assert (outputs_edge g' (ic_copy_node c) (ic_dest_edge c)) as Hout by (by apply Ho).
  pose proof (pg_wf _ _ _ Hp) as Hwf'. apply derived_inv in Hd as [Hd|(s & Hv & _)]; [by eapply wf_once|].
  exfalso. by eapply wf_view.
Qed.

Definition copy_at (x : nat) : option InsertedCopy :=
  snd <$> list_find (λ c, ic_copy_node c = x) (gr_inserted_copies g').

Lemma copy_at_Some x c : copy_at x = Some c → c ∈ gr_inserted_copies g' ∧ ic_copy_node c = x.
Proof.
  unfold copy_at. intros ([j y] & Hy & ->)%fmap_Some. apply list_find_Some in Hy as (Hj & Hs & _).
  split; [by eapply list_elem_of_lookup_2|done].
Qed.

Lemma copy_at_is_Some c : c ∈ gr_inserted_copies g' →
  ∃ c', copy_at (ic_copy_node c) = Some c' ∧ ic_source_edge c' = ic_source_edge c.
Proof.
  intros Hc. unfold copy_at. destruct (list_find _ _) as [[j c']|] eqn:F.
  - apply list_find_Some in F as (Hj & Hs & _). exists c'. split; [done|].
    apply list_elem_of_lookup_2 in Hj. destruct (record_copy c Hc) as (_ & H1 & _), (record_copy c' Hj) as (_ & H2 & _).
    destruct (pg_copies _ _ _ Hp Hok c Hc) as (n & _ & _ & Hn & _). rewrite Hs in H2.
    specialize (H1 n Hn). specialize (H2 n Hn). congruence.
  - apply list_find_None in F. eapply Forall_forall in F; [|exact Hc]. done.
Qed.

(** What a node of [g'] depends on: a copy, on what produced its source; another
    node, on what it did, or on a copy of an edge it read. *)
Lemma depends_cases p v :
  depends g' p v →
  match copy_at v with
  | Some c => derived g (ic_source_edge c) p
  | None => v < length (gr_nodes g) ∧
      (depends g p v ∨
       ∃ c, c ∈ gr_inserted_copies g' ∧ ic_copy_node c = p ∧ ∀ q, derived g (ic_source_edge c) q → depends g q v)
  end.
Proof.
  intros (n & e & Hn & He & Hd). destruct (copy_at v) as [c|] eqn:Hcv.
  { apply copy_at_Some in Hcv as [Hc <-]. destruct (record_copy c Hc) as (Hs & Hi & _).
    rewrite (Hi n Hn) in He. apply list_elem_of_singleton in He as ->. by apply derived_old. }
  destruct (pg_new _ _ _ Hp _ _ Hn) as [Hv|(c & Hc & <- & _)].
  - split; [done|]. apply lookup_lt_is_Some in Hv as [m Hm].
    destruct (pg_old _ _ _ Hp _ _ Hm) as (inputs & Hn' & Hl & Hin). rewrite Hn in Hn'. injection Hn' as ->.
    apply list_elem_of_lookup in He as [pos He]. simpl in He.
    destruct (lookup_lt_is_Some_2 (n_inputs m) pos) as [e0 He0]; [rewrite <- Hl; by eapply lookup_lt_Some|].
    pose proof (list_elem_of_lookup_2 _ _ _ He0) as Hin0.
    destruct (Hin pos e0 He0) as [[_ He1]|(_ & c & Hc & <- & He1)]; rewrite He in He1; injection He1 as ->.
    + left. exists m, e0. split_and!; [done|done|]. apply derived_old; [|done]. by eapply nw_inputs; [eapply wf_nodes|].
    + right. exists c. split_and!; [done|by symmetry; apply derived_dest|]. intros q Hq. by exists m, (ic_source_edge c).
  - apply copy_at_is_Some in Hc as (c' & Hc' & _). congruence.
Qed.

(** A dependency of [g] remains, directly or through a copy. *)
Lemma depends_kept p v : depends g p v → tc (depends g') p v.
Proof.
  intros (n & e & Hn & He & Hd). destruct (pg_old _ _ _ Hp _ _ Hn) as (inputs & Hn' & _ & Hin).
  assert (e < length (gr_edges g)) as Hlt by (by eapply nw_inputs; [eapply wf_nodes|]).
  apply (derived_old e p Hlt) in Hd. apply list_elem_of_lookup in He as [pos He].
  destruct (Hin pos e He) as [[_ He1]|(_ & c & Hc & <- & He1)]; apply list_elem_of_lookup_2 in He1.
  - apply tc_once. by exists (with_inputs inputs n), e.
  - destruct (record_copy c Hc) as (_ & Hi & Ho & _).
    destruct (pg_copies _ _ _ Hp Hok c Hc) as (m & _ & _ & Hm & _).
    apply tc_l with (ic_copy_node c); [|apply tc_once].
    + exists m, (ic_source_edge c). split_and!; [done|rewrite (Hi m Hm); left|done].
    + exists (with_inputs inputs n), (ic_dest_edge c). split_and!; [done|done|]. by apply derived_output, Ho.
Qed.

Lemma acyclic_before : acyclic g' → acyclic g.
Proof.
  assert (∀ u v, tc (depends g) u v → tc (depends g') u v) as Hkept.
  { intros u v. induction 1 as [u v ?|u v w ? _ IH]; [by apply depends_kept|]. etrans; [by apply depends_kept|done]. }
  intros Ha v Ht%Hkept. by apply (Ha v).
Qed.

(** ** Ranks *)

Context (rank : nat → nat) (Hrank : ∀ p v, depends g p v → rank p < rank v).

(** A copy ranks just after what produced its source. *)
Definition new_rank (x : nat) : nat :=
  match copy_at x with
  | Some c => match producer_of g (ic_source_edge c) with Some p => 2 * rank p + 3 | None => 1 end
  | None => 2 * rank x + 2
  end.

Lemma new_rank_old x : x < length (gr_nodes g) → new_rank x ≤ 2 * rank x + 2.
Proof.
  intros [n Hn]%lookup_lt_is_Some. unfold new_rank. destruct (copy_at x) as [c|] eqn:Hc; [|lia].
  apply copy_at_Some in Hc as [Hc <-]. destruct (producer_of g _) as [q|] eqn:Hq; [|lia].
  apply resolve_producer_spec in Hq; [|done]. destruct (record_copy c Hc) as (_ & _ & _ & Hin).
  assert (rank q < rank (ic_copy_node c)); [|lia]. apply Hrank. exists n, (ic_source_edge c).
  split_and!; [done|rewrite (Hin n Hn); left|done].
Qed.

Lemma new_rank_copy c : c ∈ gr_inserted_copies g' →
  new_rank (ic_copy_node c) =
    match producer_of g (ic_source_edge c) with Some p => 2 * rank p + 3 | None => 1 end.
Proof. intros (c' & Hc' & Hs)%copy_at_is_Some. unfold new_rank. by rewrite Hc', Hs. Qed.

Lemma new_rank_decreases p v : depends g' p v → new_rank p < new_rank v.
Proof.
  intros Hcases%depends_cases. unfold new_rank at 2. destruct (copy_at v) as [c|].
  - pose proof Hcases as Hpr%resolve_producer_spec; [|done]. unfold producer_of. rewrite Hpr.
    apply derived_range in Hcases as [_ ?]; [|done]. pose proof (new_rank_old p). lia.
  - destruct Hcases as (Hv & [Hd|(c & Hc & <- & Hd)]).
    + pose proof (new_rank_old p). apply depends_range in Hd as Hdr; [|done]. apply Hrank in Hd. lia.
    + rewrite new_rank_copy by done. destruct (producer_of g _) as [q|] eqn:Hq; [|lia].
      apply resolve_producer_spec, Hd, Hrank in Hq; [lia|done].
Qed.
End Progress.

(** ** Ranks and schedules *)

Lemma ranked_acyclic g (rank : nat → nat) : (∀ p v, depends g p v → rank p < rank v) → acyclic g.
Proof.
  intros Hr. assert (∀ u v, tc (depends g) u v → rank u < rank v) as H.
  { intros u v. induction 1 as [u v ?|u v w Huv _ IH]; [by apply Hr|]. apply Hr in Huv. lia. }
  intros v Hv%H. lia.
Qed.

Definition order_position (order : list nat) (v : nat) : nat :=
  match list_find (λ x, x = v) order with Some (i, _) => i | None => 0 end.

Lemma position_at l1 v l2 : v ∉ l1 → order_position (l1 ++ v :: l2) v = length l1.
Proof.
  intros Hn. unfold order_position. rewrite (proj2 (list_find_Some _ (l1 ++ v :: l2) (length l1) v)); [done|].
  split_and!; [by apply list_lookup_middle|done|].
  intros j y Hj Hlt ->. rewrite lookup_app_l in Hj by done. by apply list_elem_of_lookup_2 in Hj.
Qed.

Lemma schedule_rank g order p v : wf g → schedules g order → depends g p v → order_position order p < order_position order v.
Proof.
  intros Hwf [Hperm Ho] Hd. assert (NoDup order) as Hnd by (rewrite Hperm; apply NoDup_seq).
  destruct (depends_range _ _ _ Hwf Hd) as [_ Hv].
  assert (v ∈ order) as (l1 & l2 & ->)%list_elem_of_split by (rewrite Hperm; apply elem_of_seq; lia).
  pose proof (Ho _ _ _ eq_refl _ Hd) as (k1 & k2 & ->)%list_elem_of_split.
  apply NoDup_app in Hnd as (Hnd1 & Hdisj & _).
  rewrite position_at by (intros ?; eapply Hdisj; [done|left]).
  rewrite <- app_assoc. simpl. rewrite position_at, length_app; [simpl; lia|].
  apply NoDup_app in Hnd1 as (_ & Hdis & _). intros Hin. eapply Hdis; [done|left].
Qed.

(** ** The contract *)

(** Every input that must be contiguous is. *)
Definition satisfied (g : Graph) : Prop := ∀ i pos e, demands g i pos e → ¬ strided g e.

(** [g'] extends [g]: its edges are those of [g] and more; a node of [g] keeps its
    op, requirements and outputs, and an input of it still reads the same edge,
    or, if it had to be contiguous and was not, a recorded copy of that edge. *)
Definition refines (g g' : Graph) : Prop :=
  gr_edges g `prefix_of` gr_edges g' ∧
  ∀ i n, gr_nodes g !! i = Some n →
    ∃ inputs, gr_nodes g' !! i = Some (with_inputs inputs n) ∧ length inputs = length (n_inputs n) ∧
      ∀ pos e, n_inputs n !! pos = Some e →
        (¬ violation g i pos e ∧ inputs !! pos = Some e) ∨
        (violation g i pos e ∧
         ∃ c, c ∈ gr_inserted_copies g' ∧ ic_source_edge c = e ∧ inputs !! pos = Some (ic_dest_edge c)).

Lemma violates_at g i pos e n :
  gr_nodes g !! i = Some n → n_inputs n !! pos = Some e → violates g i pos ↔ violation g i pos e.
Proof.
  intros Hn He. split; [|by exists e]. intros (e' & (m & Hm & ? & He' & ?) & ?).
  assert (m = n) as -> by congruence. assert (e' = e) as -> by congruence. split; [by exists n|done].
Qed.

Lemma progress_refines g g' : progress g (violates g) g' → refines g g'.
Proof.
  intros Hp. split; [apply Hp|]. intros i n Hn. destruct (pg_old _ _ _ Hp i n Hn) as (inputs & Hn' & Hl & Hin).
  exists inputs. split_and!; [done|done|]. intros pos e He.
  destruct (Hin pos e He) as [[HP ?]|[HP ?]]; [left|right]; by rewrite (violates_at _ _ _ _ _ Hn He) in HP.
Qed.

Lemma strided_old g g' e :
  gr_edges g `prefix_of` gr_edges g' → e < length (gr_edges g) → strided g' e → strided g e.
Proof.
  intros Hpre [ed He]%lookup_lt_is_Some (ed' & He' & Hs). exists ed. split; [done|].
  rewrite (prefix_lookup_edge _ _ _ _ Hpre He) in He'. congruence.
Qed.

Lemma progress_satisfied g g' : wf g → copies_ok g → progress g (violates g) g' → satisfied g'.
Proof.
  intros Hwf Hok Hp i pos e' (n' & Hn' & Hc & He' & Hreq). pose proof (pg_copies _ _ _ Hp Hok) as Hok'.
  destruct (pg_new _ _ _ Hp _ _ Hn') as [[n Hn]%lookup_lt_is_Some|(c & Hin & <- & _)].
  - destruct (pg_old _ _ _ Hp i n Hn) as (inputs & Hn1 & Hl & Hin). rewrite Hn' in Hn1. injection Hn1 as ->.
    destruct (lookup_lt_is_Some_2 (n_inputs n) pos) as [e He]; [rewrite <- Hl; by eapply lookup_lt_Some|].
    destruct (Hin pos e He) as [[HP He1]|(_ & c & Hcin & _ & He1)]; simpl in He'; rewrite He' in He1; injection He1 as ->.
    + intros Hs. apply (strided_old g) in Hs; [|apply Hp|eapply nw_inputs; [by eapply wf_nodes|by eapply list_elem_of_lookup_2]].
      apply HP. exists e. split; [by exists n|done].
    + by apply (copy_ok_dest _ _ _ _ (Hok' c Hcin)).
  - destruct (Hok' c Hin) as (m & _ & _ & Hm & Hmc & _). congruence.
Qed.

(** With nothing to do, a run does nothing. *)
Lemma materialize_nothing g : wf g → satisfied g → materialize_copies g = (Ok 0, g).
Proof.
  intros Hwf Hsat. unfold materialize_copies, sbind, sget, slift, scan. rewrite scan_nothing; [done|].
  intros i pos e Hd%demands_visit. split; [|by eapply Hsat]. destruct Hd as (n & Hn & _ & He & _).
  eapply nw_inputs; [by eapply wf_nodes|by eapply list_elem_of_lookup_2].
Qed.

Lemma topological_order_acyclic g : wf g → acyclic g ↔ ∃ order, topological_order g = Ok order.
Proof.
  intros Hwf. pose proof (topological_order_cases g Hwf) as Ht.
  destruct (topological_order g) as [order|e|]; [|destruct Ht as (u & v & _ & Hu & _)|done].
  - split; [eauto|]. by intros _; apply Ht.
  - split; [intros Ha; by destruct (Ha u)|by intros [? [=]]].
Qed.

Lemma progress_acyclic g g' :
  wf g → copies_ok g → progress g (violates g) g' → acyclic g ↔ acyclic g'.
Proof.
  intros Hwf Hok Hp. split; [|by apply acyclic_before].
  intros [order Ho]%topological_order_acyclic; [|done].
  pose proof (topological_order_cases g Hwf) as Ht. rewrite Ho in Ht. destruct Ht as [Hs _].
  apply ranked_acyclic with (new_rank g g' (order_position order)). intros p v.
  apply new_rank_decreases; [done..|]. intros p' v'. by apply schedule_rank.
Qed.

(** C19: [topological_order] on a well-formed graph.  It returns exactly when no
    op depends on itself, and then a permutation of the ops in which every op
    comes after the ops it depends on, through any number of views; otherwise
    it refuses with [GraphCycle], naming an op on a cycle or after one. *)
Theorem topological_order_correct g :
  wf g →
  (acyclic g ∧ ∃ order, topological_order g = Ok order ∧ schedules g order) ∨
  (∃ u v, topological_order g = Err (GraphCycle v) ∧ tc (depends g) u u ∧ tc (depends g) u v).
Proof.
  intros Hwf. pose proof (topological_order_cases g Hwf) as Ht.
  destruct (topological_order g) as [order|e|]; [left|right|done].
  - destruct Ht. eauto.
  - destruct Ht as (u & v & -> & ? & ?). by exists u, v.
Qed.

(** C20: [materialize_copies] on a well-formed graph whose earlier copies are
    still contiguous.  It succeeds; every input that must be contiguous then is;
    the graph only gains copies, one new edge and node per new source edge, and
    the inputs that were not contiguous read them; the result is well formed,
    and a second run finds nothing to copy and leaves it as it is. *)
Theorem materialize_copies_correct g :
  wf g → copies_ok g →
  ∃ n g', materialize_copies g = (Ok n, g') ∧ wf g' ∧ copies_ok g' ∧ satisfied g' ∧ refines g g' ∧
    length (gr_edges g') = length (gr_edges g) + n ∧ length (gr_nodes g') = length (gr_nodes g) + n ∧
    (NoDup (map ic_source_edge (gr_inserted_copies g)) → NoDup (map ic_source_edge (gr_inserted_copies g'))) ∧
    materialize_copies g' = (Ok 0, g').
Proof.
  intros Hwf Hok. destruct (materialize_run g Hwf) as (plans & g' & Hr & Hp & He & Hn & Hs & Hnd & Hnew).
  assert (satisfied g') as Hsat by (by apply (progress_satisfied g)). pose proof (pg_wf _ _ _ Hp) as Hwf'.
  exists (length plans), g'. split_and!; try done; [by apply Hp|by apply progress_refines| |by apply materialize_nothing].
  intros Hnd0. rewrite Hs. apply NoDup_app. split_and!; [done| |done]. intros e He0 He1. by apply (Hnew e).
Qed.

(** C21: Copy insertion neither breaks nor repairs a schedule: the graph with its
    copies has a topological order exactly when the graph before had one. *)
Theorem materialize_copies_schedulable g n g' :
  wf g → copies_ok g → materialize_copies g = (Ok n, g') →
  (∃ order, topological_order g = Ok order) ↔ (∃ order, topological_order g' = Ok order).
Proof.
  intros Hwf Hok Hr. destruct (materialize_run g Hwf) as (plans & g1 & Hr1 & Hp & _).
  rewrite Hr in Hr1. injection Hr1 as _ <-. pose proof (pg_wf _ _ _ Hp) as Hwf'.
  rewrite <- !topological_order_acyclic by done. by apply progress_acyclic.
Qed.
