(* ===== verification/GraphBuild.v ===== *)
(** * Building a step graph

    The builder methods of [crates/r9v-ir/src/graph.rs] as calls, and the graphs
    any sequence of them reaches: a call never panics and a refused one changes
    nothing, whatever came before; without [rewire_node_input] and
    [set_edge_strides] the graph always has a topological order.

    Step graphs on concrete calls: The theorems on the builder, the topological order and copy insertion
    applied to a graph built by a sequence of calls: a transposed weight read by
    an op that needs it contiguous, and a chain of ops rewired into a cycle. *)

From stdpp Require Import gmap sorting relations.
From S2P Require Import Prelude Wp Bytes Errors SchedError Ops OpValidate Graph Materialize GraphInv GraphTopo GraphMaterialize GraphSchedule.

#[global] Open Scope Z_scope.
#[local] Open Scope nat_scope.

(** ** Calls *)

Inductive Call : Type :=
| CAddTensor (t : Tensor)
| CAddExternalInput (kind : ExternalInputKind.t) (t : Tensor)
| CAddExternalNonTensor (kind : ExternalInputKind.t)
| CAddExternalOutput (kind : ExternalOutputKind.t) (edge : nat)
| CAddExternalNonTensorOutput (kind : ExternalOutputKind.t)
| CBindPositions (kind : PositionsKind.t)
| CAddOp (op : Op.t) (inputs : list nat) (outputs : list Tensor)
| CAddOpWithRequirements (op : Op.t) (inputs : list nat) (rs : list StrideRequirement.t) (outputs : list Tensor)
| CSetEdgeStrides (edge : nat) (strides : list Z)
| CSetNodeInputRequirement (node pos : nat) (r : StrideRequirement.t)
| CTransposeEdge (edge : nat) (perm : list nat)
| CReshapeEdge (edge : nat) (shape : list Dim.t)
| CRewireNodeInput (node pos edge : nat)
| CMaterializeCopies.

Definition ignore {A} (c : graph A) : graph unit := let! _ := c in sret tt.

Definition run_call (c : Call) : graph unit :=
  match c with
  | CAddTensor t => ignore (add_tensor t)
  | CAddExternalInput k t => ignore (add_external_input k t)
  | CAddExternalNonTensor k => add_external_non_tensor k
  | CAddExternalOutput k e => add_external_output k e
  | CAddExternalNonTensorOutput k => add_external_non_tensor_output k
  | CBindPositions k => ignore (bind_positions k)
  | CAddOp op inputs outputs => ignore (add_op op inputs outputs)
  | CAddOpWithRequirements op inputs rs outputs => ignore (add_op_with_requirements op inputs rs outputs)
  | CSetEdgeStrides e strides => set_edge_strides e strides
  | CSetNodeInputRequirement n p r => set_node_input_requirement n p r
  | CTransposeEdge e perm => ignore (transpose_edge e perm)
  | CReshapeEdge e shape => ignore (reshape_edge e shape)
  | CRewireNodeInput n p e => rewire_node_input n p e
  | CMaterializeCopies => ignore materialize_copies
  end.

(** A caller that goes on after a refusal. *)
Definition run_calls (cs : list Call) (g : Graph) : Graph := foldl (λ g c, (run_call c g).2) g cs.

(** The arguments a caller can have: tensors [Tensor::new] returned, and for a
    reshape [u32] extents whose product fits a [u128]. *)
Definition call_ok (c : Call) : Prop :=
  match c with
  | CAddTensor t | CAddExternalInput _ t => tensor_wf t
  | CAddOp _ _ outputs | CAddOpWithRequirements _ _ _ outputs => Forall tensor_wf outputs
  | CReshapeEdge _ shape => Forall dim_u32 shape ∧ concrete_element_count shape ≠ Panic
  | _ => True
  end.

Lemma ignore_keeps {A} (c : graph A) g : keeps c g → keeps (ignore c) g.
Proof. intros Hc. unfold ignore. wp_step. eapply wp_mono; [exact Hc|done|done]. Qed.

Lemma materialize_keeps g : wf g → keeps materialize_copies g.
Proof.
  intros Hwf. destruct (materialize_run g Hwf) as (plans & g' & Hr & Hp & _). unfold wp. rewrite Hr. apply Hp.
Qed.

Lemma run_call_keeps c g : wf g → call_ok c → keeps (run_call c) g.
Proof.
  intros Hwf Hc. destruct c; simpl in *;
    eauto using ignore_keeps, add_tensor_keeps, add_external_input_keeps, add_external_non_tensor_keeps,
      add_external_output_keeps, add_external_non_tensor_output_keeps, bind_positions_keeps, add_op_keeps,
      add_op_with_requirements_keeps, set_edge_strides_keeps, set_node_input_requirement_keeps,
      transpose_edge_keeps, rewire_node_input_keeps, materialize_keeps.
  destruct Hc. eauto using ignore_keeps, reshape_edge_keeps.
Qed.

Lemma run_call_wf c g : wf g → call_ok c → wf (run_call c g).2.
Proof.
  intros Hwf Hc. pose proof (run_call_keeps c g Hwf Hc) as Hk. unfold wp in Hk.
  by destruct (run_call c g) as [[]]; simpl; subst.
Qed.

Lemma run_calls_inv (I : Graph → Prop) (ok : Call → Prop) cs g :
  (∀ c g, ok c → I g → I (run_call c g).2) → Forall ok cs → I g → I (run_calls cs g).
Proof.
  intros Hstep. revert g. induction cs as [|c cs IH]; intros g Hcs Hg; [done|].
  apply Forall_cons in Hcs as [Hc Hcs]. apply IH; auto.
Qed.

(** ** What appending does to the dependencies *)

Record extends (g g' : Graph) : Prop := {
  ex_edges : gr_edges g `prefix_of` gr_edges g';
  ex_old : ∀ i n, gr_nodes g !! i = Some n →
    ∃ n', gr_nodes g' !! i = Some n' ∧ n_op n' = n_op n ∧ n_inputs n' = n_inputs n ∧ n_outputs n' = n_outputs n;
  ex_new : ∀ i n', gr_nodes g' !! i = Some n' → length (gr_nodes g) ≤ i →
    (∀ e, e ∈ n_inputs n' → e < length (gr_edges g)) ∧ (∀ e, e ∈ n_outputs n' → length (gr_edges g) ≤ e);
  ex_copies : gr_inserted_copies g' = gr_inserted_copies g
}.

Lemma extends_same g g' :
  gr_edges g `prefix_of` gr_edges g' → gr_nodes g' = gr_nodes g → gr_inserted_copies g' = gr_inserted_copies g →
  extends g g'.
Proof.
  intros He Hn Hc. split; [done| | |done]; rewrite Hn.
  - intros i n Hi. by exists n.
  - intros i n Hi%lookup_lt_Some Hge. lia.
Qed.

Lemma extends_refl g : extends g g.
Proof. by apply extends_same. Qed.

Lemma extends_copies_ok g g' : extends g g' → copies_ok g → copies_ok g'.
Proof.
  intros Hx Hok c. rewrite (ex_copies _ _ Hx). intros (n & s & d & Hn & Hcp & Hi & Ho & Hs & Hd & Ht & Hst)%Hok.
  destruct (ex_old _ _ Hx _ _ Hn) as (n' & Hn' & Eop & Ei & Eo). exists n', s, d.
  rewrite Eop, Ei, Eo. split_and!; try done; eapply prefix_lookup_edge; [apply Hx|done|apply Hx|done].
Qed.

Section Extends.
Context (g g' : Graph) (Hwf : wf g) (Hx : extends g g').

Lemma extends_node i n' :
  gr_nodes g' !! i = Some n' → i < length (gr_nodes g) →
  ∃ n, gr_nodes g !! i = Some n ∧ n_inputs n' = n_inputs n ∧ n_outputs n' = n_outputs n.
Proof.
  intros Hn' [n Hn]%lookup_lt_is_Some. destruct (ex_old _ _ Hx _ _ Hn) as (m & Hm & _ & ? & ?).
  exists n. assert (m = n') as -> by congruence. done.
Qed.

Lemma extends_outputs p e : e < length (gr_edges g) → outputs_edge g' p e → outputs_edge g p e.
Proof.
  intros He (n' & Hn' & Ho). destruct (decide (p < length (gr_nodes g))) as [Hp|Hp].
  - destruct (extends_node _ _ Hn' Hp) as (n & Hn & _ & Eo). exists n. by rewrite <- Eo.
  - apply (ex_new _ _ Hx _ _ Hn') in Ho; lia.
Qed.

Lemma extends_derived e p : e < length (gr_edges g) → derived g' e p → derived g e p.
Proof.
  intros He Hd. revert He. induction Hd as [p e Ho|p e s (ed & Hed & Hs) _ IH]; intros He.
  - constructor. by apply extends_outputs.
  - apply lookup_lt_is_Some in He as [ed' He]. rewrite (prefix_lookup_edge _ _ _ _ (ex_edges _ _ Hx) He) in Hed.
    injection Hed as ->. pose proof (ew_source _ _ (wf_edges _ Hwf _ _ He) _ Hs).
    apply derived_view with s; [by exists ed|]. apply IH. apply lookup_lt_Some in He. lia.
Qed.

(** Only nodes of [g] are depended on, by nodes of [g] as before. *)
Lemma extends_depends p v :
  depends g' p v → p < length (gr_nodes g) ∧ (v < length (gr_nodes g) → depends g p v).
Proof.
  intros (n' & e & Hn' & He & Hd). destruct (decide (v < length (gr_nodes g))) as [Hv|Hv].
  - destruct (extends_node _ _ Hn' Hv) as (n & Hn & Ei & _). rewrite Ei in He.
    assert (derived g e p) as Hd' by (apply extends_derived; [by eapply nw_inputs; [eapply wf_nodes|]|done]).
    split; [by apply derived_range in Hd' as [_ ?]|]. intros _. by exists n, e.
  - destruct (ex_new _ _ Hx _ _ Hn') as [Hlt _]; [lia|].
    apply extends_derived in Hd; [|by apply Hlt]. apply derived_range in Hd as [_ Hp]; [|done]. done.
Qed.

Lemma extends_acyclic : acyclic g → acyclic g'.
Proof.
  intros Ha.
  assert (∀ u v, tc (depends g') u v → u < length (gr_nodes g) ∧ (v < length (gr_nodes g) → tc (depends g) u v)) as H.
  { intros u v. induction 1 as [u v Hd|u v w Hd _ [Hv IH]]; apply extends_depends in Hd as [Hu Hd].
    - split; [done|]. intros ?. apply tc_once. auto.
    - split; [done|]. intros ?. apply tc_l with v; auto. }
  intros v Ht. apply (Ha v). by apply H in Ht as [Hv Ht]; apply Ht.
Qed.
End Extends.

(** ** The methods that append *)

Notation grows c g := (wp c (λ _, extends g) (λ _ _, True) g).

Lemma ignore_grows {A} (c : graph A) g : grows c g → grows (ignore c) g.
Proof. intros Hc. unfold ignore. wp_step. eapply wp_mono; [exact Hc|done|done]. Qed.

Lemma push_edge_grows t strides source g : grows (push_edge t strides source) g.
Proof. apply wp_push_edge. apply extends_same; [by eexists|done|done]. Qed.

(** After an edge, records other than nodes, edges and copies. *)
Lemma extends_then g g1 g2 :
  extends g g1 → gr_edges g2 = gr_edges g1 → gr_nodes g2 = gr_nodes g1 →
  gr_inserted_copies g2 = gr_inserted_copies g1 → extends g g2.
Proof. intros [H1 H2 H3 H4] E1 E2 E3. by split; rewrite ?E1, ?E2, ?E3. Qed.

Ltac grow_leaf := wp_step; by apply extends_same.

Lemma add_tensor_grows t g : grows (add_tensor t) g.
Proof.
  unfold add_tensor. wp_step. wp_step. wp_step. apply wp_refuse_problems; [|done]. intros _. apply push_edge_grows.
Qed.

Lemma add_external_input_grows kind t g : grows (add_external_input kind t) g.
Proof.
  unfold add_external_input. case_match; [done|]. wp_step. wp_step. case_match; [done|]. wp_step.
  wp_step; [apply validate_input_no_panic| |done]. intros _ _.
  wp_step. eapply wp_mono; [apply push_edge_grows| |done]. intros e g' Hx. cbn beta.
  wp_step. wp_step. wp_step. by apply (extends_then _ _ _ Hx).
Qed.

Lemma add_structured_grows input name g : grows (add_structured input name) g.
Proof. unfold add_structured. wp_step. wp_step. case_match; [done|grow_leaf]. Qed.

Lemma add_external_output_grows kind e g : grows (add_external_output kind e) g.
Proof.
  unfold add_external_output. case_match; [done|]. wp_step. wp_step. case_match; [|done]. case_match; [done|].
  wp_step. wp_step; [apply validate_output_no_panic| |done]. intros _ _. case_match; [grow_leaf|done].
Qed.

Lemma add_external_non_tensor_output_grows kind g : grows (add_external_non_tensor_output kind) g.
Proof. destruct kind; simpl; try done. wp_step. wp_step. case_match; [done|grow_leaf]. Qed.

Lemma bind_positions_grows kind g : grows (bind_positions kind) g.
Proof.
  unfold bind_positions. wp_step. wp_step. destruct (gr_positions g) as [[]|]; [done|]. case_match; [done|].
  wp_step. wp_step; [auto| |done]. intros t _. wp_step. eapply wp_mono; [apply push_edge_grows| |done].
  intros e g' Hx. cbn beta. wp_step. wp_step. wp_step. by apply (extends_then _ _ _ Hx).
Qed.

Lemma add_op_with_requirements_grows op inputs rs outputs g :
  grows (add_op_with_requirements op inputs rs outputs) g.
Proof.
  unfold add_op_with_requirements. wp_step. wp_step. wp_step. apply wp_refuse_problems; [|done].
  intros [Hmissing _]%app_nil. rewrite missing_edges_nil in Hmissing. wp_step. unfold wp at 1.
  rewrite push_outputs_run. unfold push_node, graph_get. wp_step. wp_step. wp_step. wp_step. wp_step. wp_step. wp_step.
  split; simpl; [by eexists| | |done].
  - intros i n Hn. exists n. split; [by apply lookup_app_l_Some|done].
  - intros i n [Hi%lookup_lt_Some|[-> <-]]%snoc_Some Hge; [lia|]. simpl. split; [done|].
    intros e He%elem_of_seq. lia.
Qed.

Lemma set_node_input_requirement_grows node pos r g : wf g → grows (set_node_input_requirement node pos r) g.
Proof.
  intros Hwf. unfold set_node_input_requirement. wp_step. wp_step.
  destruct (gr_nodes g !! node) as [n|] eqn:Hn; [|done]. case_match eqn:Hp; [done|].
  apply Nat.leb_gt in Hp. pose proof (nw_requirements _ _ _ (wf_nodes _ Hwf _ _ Hn)) as Hr.
  wp_step. apply wp_vec_set; [lia|]. wp_step. split; simpl; [done| | |done].
  - intros i m Hm. destruct (decide (i = node)) as [->|]; [|exists m; by rewrite list_lookup_insert_ne by done].
    assert (m = n) as -> by congruence. eexists. split; [apply list_lookup_insert_eq; by eapply lookup_lt_Some|done].
  - intros i m Hm%lookup_lt_Some Hge. rewrite length_insert in Hm. lia.
Qed.

Lemma view_grows c edge g : appends_view c edge g → grows c g.
Proof.
  intros Hc. eapply wp_mono; [apply (Hc (λ _, extends g))|done|done].
  intros t strides _ _ _. apply extends_same; [by eexists|done|done].
Qed.

(** ** Any sequence of calls *)

(** The calls that change neither the strides of an edge nor the edge an input
    reads, copy insertion apart. *)
Definition appending (c : Call) : bool :=
  match c with CSetEdgeStrides _ _ | CRewireNodeInput _ _ _ => false | _ => true end.

Lemma appending_grows c g :
  wf g → call_ok c → appending c = true → c ≠ CMaterializeCopies → grows (run_call c) g.
Proof.
  intros Hwf Hc Ha Hm. destruct c; simpl in *; try done;
    eauto using ignore_grows, add_tensor_grows, add_external_input_grows, add_external_output_grows,
      add_external_non_tensor_output_grows, bind_positions_grows, add_op_with_requirements_grows,
      set_node_input_requirement_grows, view_grows, transpose_edge_view.
  - destruct kind; simpl; auto using add_structured_grows; done.
  - destruct Hc. eauto using ignore_grows, view_grows, reshape_edge_view.
Qed.

Record sound (g : Graph) : Prop := { sd_wf : wf g; sd_copies : copies_ok g; sd_acyclic : acyclic g }.

Lemma run_call_sound c g : call_ok c ∧ appending c = true → sound g → sound (run_call c g).2.
Proof.
  intros [Hc Ha] [Hwf Hok Hac]. pose proof (run_call_wf c g Hwf Hc) as Hwf'.
  assert (c = CMaterializeCopies ∨ c ≠ CMaterializeCopies) as [->|Hm] by (destruct c; auto).
  - destruct (materialize_run g Hwf) as (plans & g' & Hr & Hp & _). simpl in *. unfold ignore, sbind in *.
    rewrite Hr in *. simpl in *. split; [done|by apply Hp|by apply (progress_acyclic g g')].
  - pose proof (run_call_keeps c g Hwf Hc) as Hk. pose proof (appending_grows c g Hwf Hc Ha Hm) as Hx.
    unfold wp in Hk, Hx. destruct (run_call c g) as [[[]|e|] g']; simpl in *; [|by subst|done].
    split; [done|by apply (extends_copies_ok g)|by apply (extends_acyclic g)].
Qed.

Lemma graph_new_sound key : sound (graph_new key).
Proof.
  split; [apply graph_new_wf|by intros c ?%not_elem_of_nil|].
  apply ranked_acyclic with id. intros p v (n & e & Hn & _). done.
Qed.


(** C22: A graph built by appending sources, views and ops, and inserting copies
    at any point, has a topological order. *)
Theorem built_graph_schedules key cs :
  Forall (λ c, call_ok c ∧ appending c = true) cs →
  let g := run_calls cs (graph_new key) in ∃ order, topological_order g = Ok order ∧ schedules g order.
Proof.
  intros Hcs g. assert (sound g) as [Hwf _ Ha].
  { apply (run_calls_inv sound (λ c, call_ok c ∧ appending c = true)); [|done|apply graph_new_sound].
    intros. by apply run_call_sound. }
  pose proof (topological_order_cases g Hwf) as Ht. destruct (topological_order g) as [order|e|]; [|exfalso|done].
  - destruct Ht. eauto.
  - destruct Ht as (u & v & _ & Hu & _). by apply (Ha u).
Qed.

#[local] Open Scope Z_scope.

(** * Step graphs on concrete calls *)

Definition demo_key : StepGraphKey :=
  {| k_plan_id := 0; k_rank := 0; k_s := 1; k_t_dec := 1; k_t_pre := 0; k_segment := 0 |}.

Definition demo_weight : Tensor :=
  {| tn_shape := [Dim.Concrete 4; Dim.Concrete 8]; tn_dtype := DType.F16; tn_quant := QuantScheme.None;
     tn_layout := LayoutId.CONTIGUOUS; tn_placement := Placement.Device 0; tn_sharding := ShardLayout.Replicated;
     tn_class := TensorClass.Weight |}.

Definition demo_out : Tensor := demo_tensor [Dim.Concrete 8; Dim.Concrete 4] DType.F16.

(** Edge 0 the weight, 1 its transpose; op 0 reads edge 1 contiguous and makes
    edge 2, op 1 reads edge 2 and makes edge 3, op 2 reads edge 3. *)
Definition demo_calls : list Call :=
  [CAddTensor demo_weight; CTransposeEdge 0 [1; 0]%nat;
   CAddOpWithRequirements (Op.Cast {| ca_dtype := DType.F16 |}) [1%nat] [StrideRequirement.Contiguous] [demo_out];
   CAddOp (Op.Cast {| ca_dtype := DType.F16 |}) [2%nat] [demo_out];
   CAddOp (Op.Cast {| ca_dtype := DType.F16 |}) [3%nat] [demo_out];
   CAddTensor demo_out].

Definition demo_graph : Graph := run_calls demo_calls (graph_new demo_key).
Definition demo_copied : Graph := (materialize_copies demo_graph).2.

(** Op 1 rewired to read what op 2 makes, and op 0 too: op 0 only follows the
    cycle. *)
Definition demo_cycle_calls : list Call :=
  demo_calls ++ [CRewireNodeInput 1 0 4; CRewireNodeInput 0 0 4].
Definition demo_cycle : Graph := run_calls demo_cycle_calls (graph_new demo_key).

Lemma demo_calls_ok : Forall (λ c, call_ok c ∧ appending c = true) demo_calls.
Proof.
  assert (tensor_wf demo_weight) as Hw.
  { split; [by apply tensor_problems_nil|]. by repeat apply Forall_cons_2. }
  assert (tensor_wf demo_out) as Ho.
  { split; [by apply tensor_problems_nil|]. by repeat apply Forall_cons_2. }
  repeat apply Forall_cons_2; simpl; try (split; [|done]); auto using Forall_cons_2, Forall_nil_2.
Qed.

Lemma demo_cycle_ok : Forall call_ok demo_cycle_calls.
Proof.
  apply Forall_app. split; [|by repeat apply Forall_cons_2].
  eapply Forall_impl; [apply demo_calls_ok|by intros ? []].
Qed.

Lemma demo_sound : sound demo_graph.
Proof. apply (run_calls_inv sound _ _ _ run_call_sound demo_calls_ok), graph_new_sound. Qed.

Lemma demo_cycle_wf : wf demo_cycle.
Proof.
  apply (run_calls_inv wf call_ok _ _ (λ c g Hc Hw, run_call_wf c g Hw Hc) demo_cycle_ok), graph_new_wf.
Qed.

Lemma topological_order_correct_witness :
  wf demo_cycle ∧ topological_order demo_cycle = Err (GraphCycle 0) ∧
  ∃ u, tc (depends demo_cycle) u u ∧ tc (depends demo_cycle) u 0%nat.
Proof.
  split; [exact demo_cycle_wf|]. assert (topological_order demo_cycle = Err (GraphCycle 0)) as E by (vm_compute; reflexivity).
  split; [exact E|]. destruct (topological_order_correct demo_cycle demo_cycle_wf) as [(_ & o & Ho & _)|(u & v & Ho & Hu & Hv)].
  - rewrite E in Ho. discriminate Ho.
  - rewrite E in Ho. injection Ho as <-. exists u. split; assumption.
Defined.

Lemma materialize_copies_correct_witness :
  wf demo_graph ∧ copies_ok demo_graph ∧ ¬ satisfied demo_graph ∧
  materialize_copies demo_graph = (Ok 1%nat, demo_copied) ∧ satisfied demo_copied.
Proof.
  split; [apply demo_sound|]. split; [apply demo_sound|]. split.
  { intros H. apply (H 0%nat 0%nat 1%nat).
    - eexists. split; [vm_compute; reflexivity|]. split; [reflexivity|]. split; reflexivity.
    - eexists. split; [vm_compute; reflexivity|]. vm_compute. discriminate. }
  assert (materialize_copies demo_graph = (Ok 1%nat, demo_copied)) as E by (vm_compute; reflexivity).
  split; [exact E|].
  destruct (materialize_copies_correct demo_graph (sd_wf _ demo_sound) (sd_copies _ demo_sound))
    as (n & g' & Hr & _ & _ & Hs & _).
  rewrite E in Hr. injection Hr as _ Hg. rewrite Hg. exact Hs.
Defined.

Lemma materialize_copies_schedulable_witness :
  materialize_copies demo_graph = (Ok 1%nat, demo_copied) ∧ topological_order demo_graph = Ok [0; 1; 2]%nat ∧
  topological_order demo_copied = Ok [3; 0; 1; 2]%nat ∧
  ((∃ order, topological_order demo_graph = Ok order) ↔ (∃ order, topological_order demo_copied = Ok order)).
Proof.
  assert (materialize_copies demo_graph = (Ok 1%nat, demo_copied)) as E by (vm_compute; reflexivity).
  split; [exact E|]. split; [vm_compute; reflexivity|]. split; [vm_compute; reflexivity|].
  exact (materialize_copies_schedulable demo_graph 1 demo_copied (sd_wf _ demo_sound) (sd_copies _ demo_sound) E).
Defined.


Lemma built_graph_schedules_witness :
  ∃ order, topological_order (run_calls (demo_calls ++ [CMaterializeCopies]) (graph_new demo_key)) = Ok order ∧
    schedules (run_calls (demo_calls ++ [CMaterializeCopies]) (graph_new demo_key)) order.
Proof.
  apply (built_graph_schedules demo_key (demo_calls ++ [CMaterializeCopies])).
  apply Forall_app. split; [exact demo_calls_ok|]. apply Forall_singleton. split; reflexivity.
Defined.
