(* ===== verification/RegStatic.v ===== *)
(** * Static descriptors of kernel variants

    [crates/r9v-registry/src/types.rs] and [error.rs]: the descriptor of every
    op that a kernel is specialised on, its validation, and its derivation from
    an op of the IR and the facts of the resolved graph. *)

From S2P Require Import Prelude Bytes SchedError Ops.

#[global] Open Scope Z_scope.

(** ** Errors *)

(** [RegistryError]; a foreign error is its text. *)
Inductive RegistryError : Type :=
| UnlistedArchRefused (arch : ArchName) (supported : list ArchName)
| GenVersionMismatch (expected got : Z) (path : option (list Z))
| VariantNotFound (op : OpId.t) (arch : ArchName) (static_hash : Z)
| VariantNotValidated (hash : Z) (op : OpId.t) (arch : ArchName)
| T1FallbackFailed (op : OpId.t) (arch : ArchName) (detail : Text)
| ManifestParseError (path : list Z) (detail : Text)
| TuneParseError (path : list Z) (detail : Text)
| ModuleLoadError (hash : Z) (symbol : list Z) (detail : Text)
| SymbolNotFound (symbol : list Z) (detail : Text)
| LaunchError (symbol : list Z) (detail : Text)
| JitFailed (hash : Z) (detail : Text)
| ValidationFailed (problems : list Text)
| StaticOpMismatch (op static_op : OpId.t)
| FactsOpMismatch (op : OpId.t) (detail : string)
| LockPoisoned (resource : string)
| MultipleRegistry (problems : list RegistryError)
| Io (detail : Text)
| Hip (detail : Text)
| IrRefused (detail : Text).

(** [Result<T, RegistryError>]. *)
Abbreviation RegResult := (outcome RegistryError).

(** ** Identifiers *)

(** [OpId::as_str]. *)
Definition op_as_str (op : OpId.t) : string :=
  match op with
  | OpId.EmbedGather => "embed_gather"
  | OpId.NgramGather => "ngram_gather"
  | OpId.QuantAct => "quant_act"
  | OpId.Cast => "cast"
  | OpId.Copy => "copy"
  | OpId.GatherRows => "gather_rows"
  | OpId.ScatterAddRows => "scatter_add_rows"
  | OpId.Split => "split"
  | OpId.Concat => "concat"
  | OpId.Norm => "norm"
  | OpId.ResidualAdd => "residual_add"
  | OpId.ActMul => "act_mul"
  | OpId.Activation => "activation"
  | OpId.LogitSoftcap => "logit_softcap"
  | OpId.Rope => "rope"
  | OpId.Matmul => "matmul"
  | OpId.MoeRoute => "moe_route"
  | OpId.MoeFfn => "moe_ffn"
  | OpId.StateWriteKv => "state_write_kv"
  | OpId.Attention => "attention"
  | OpId.CausalConv1d => "causal_conv1d"
  | OpId.LinearAttnScan => "linear_attn_scan"
  | OpId.LogitsPostprocess => "logits_postprocess"
  | OpId.Sample => "sample"
  | OpId.Verify => "verify"
  | OpId.AllReduce => "all_reduce"
  | OpId.AllGather => "all_gather"
  | OpId.ReduceScatter => "reduce_scatter"
  | OpId.AllToAll => "all_to_all"
  | OpId.Send => "send"
  | OpId.Recv => "recv"
  | OpId.Barrier => "barrier"
  end.

(** [OpId::from_str]. *)
Definition op_from_str (s : list Z) : RegResult OpId.t :=
  if decide (s = lit "embed_gather") then Ok OpId.EmbedGather
  else if decide (s = lit "ngram_gather") then Ok OpId.NgramGather
  else if decide (s = lit "quant_act") then Ok OpId.QuantAct
  else if decide (s = lit "cast") then Ok OpId.Cast
  else if decide (s = lit "copy") then Ok OpId.Copy
  else if decide (s = lit "gather_rows") then Ok OpId.GatherRows
  else if decide (s = lit "scatter_add_rows") then Ok OpId.ScatterAddRows
  else if decide (s = lit "split") then Ok OpId.Split
  else if decide (s = lit "concat") then Ok OpId.Concat
  else if decide (s = lit "norm") then Ok OpId.Norm
  else if decide (s = lit "residual_add") then Ok OpId.ResidualAdd
  else if decide (s = lit "act_mul") then Ok OpId.ActMul
  else if decide (s = lit "activation") then Ok OpId.Activation
  else if decide (s = lit "logit_softcap") then Ok OpId.LogitSoftcap
  else if decide (s = lit "rope") then Ok OpId.Rope
  else if decide (s = lit "matmul") then Ok OpId.Matmul
  else if decide (s = lit "moe_route") then Ok OpId.MoeRoute
  else if decide (s = lit "moe_ffn") then Ok OpId.MoeFfn
  else if decide (s = lit "state_write_kv") then Ok OpId.StateWriteKv
  else if decide (s = lit "attention") then Ok OpId.Attention
  else if decide (s = lit "causal_conv1d") then Ok OpId.CausalConv1d
  else if decide (s = lit "linear_attn_scan") then Ok OpId.LinearAttnScan
  else if decide (s = lit "logits_postprocess") then Ok OpId.LogitsPostprocess
  else if decide (s = lit "sample") then Ok OpId.Sample
  else if decide (s = lit "verify") then Ok OpId.Verify
  else if decide (s = lit "all_reduce") then Ok OpId.AllReduce
  else if decide (s = lit "all_gather") then Ok OpId.AllGather
  else if decide (s = lit "reduce_scatter") then Ok OpId.ReduceScatter
  else if decide (s = lit "all_to_all") then Ok OpId.AllToAll
  else if decide (s = lit "send") then Ok OpId.Send
  else if decide (s = lit "recv") then Ok OpId.Recv
  else if decide (s = lit "barrier") then Ok OpId.Barrier
  else Err (ValidationFailed [msg "unknown op '{other}'" [Str s]]).

(** [OpId::parse_op]. *)
Definition parse_op (s : list Z) : option OpId.t :=
  match op_from_str s with Ok op => Some op | _ => None end.

(** [OpId::from_op]. *)
Definition op_id_from_op (op : Op.t) : OpId.t :=
  match op with
  | Op.EmbedGather _ => OpId.EmbedGather
  | Op.NgramGather _ => OpId.NgramGather
  | Op.QuantAct _ => OpId.QuantAct
  | Op.Cast _ => OpId.Cast
  | Op.Copy _ => OpId.Copy
  | Op.GatherRows => OpId.GatherRows
  | Op.ScatterAddRows => OpId.ScatterAddRows
  | Op.Split _ => OpId.Split
  | Op.Concat => OpId.Concat
  | Op.Norm _ => OpId.Norm
  | Op.ResidualAdd _ => OpId.ResidualAdd
  | Op.ActMul _ => OpId.ActMul
  | Op.Activation _ => OpId.Activation
  | Op.LogitSoftcap _ => OpId.LogitSoftcap
  | Op.Rope _ => OpId.Rope
  | Op.Matmul _ => OpId.Matmul
  | Op.MoeRoute _ => OpId.MoeRoute
  | Op.MoeFfn _ => OpId.MoeFfn
  | Op.StateWriteKv _ => OpId.StateWriteKv
  | Op.Attention _ => OpId.Attention
  | Op.CausalConv1d _ => OpId.CausalConv1d
  | Op.LinearAttnScan _ => OpId.LinearAttnScan
  | Op.LogitsPostprocess => OpId.LogitsPostprocess
  | Op.Sample _ => OpId.Sample
  | Op.Verify _ => OpId.Verify
  | Op.AllReduce _ => OpId.AllReduce
  | Op.AllGather _ => OpId.AllGather
  | Op.ReduceScatter _ => OpId.ReduceScatter
  | Op.AllToAll _ => OpId.AllToAll
  | Op.Send _ => OpId.Send
  | Op.Recv _ => OpId.Recv
  | Op.Barrier _ => OpId.Barrier
  end.

(** [Tier::as_str] and [Tier::from_str], which ignores case. *)
Definition tier_as_str (t : Tier) : string :=
  match t with T0 => "t0" | T0v => "t0v" | T1 => "t1" | T2 => "t2" end.

Definition eq_ignore_ascii_case (a b : list Z) : bool :=
  bool_decide (to_ascii_lowercase a = to_ascii_lowercase b).

Definition tier_from_str (s : list Z) : RegResult Tier :=
  if eq_ignore_ascii_case s (lit "t0") then Ok T0
  else if eq_ignore_ascii_case s (lit "t0v") then Ok T0v
  else if eq_ignore_ascii_case s (lit "t1") then Ok T1
  else if eq_ignore_ascii_case s (lit "t2") then Ok T2
  else Err (ValidationFailed [msg "unknown tier '{s}', expected one of: t0, t0v, t1, t2" [Str s]]).

(** ** Attribute types of descriptors *)

Module ScanMode.
Inductive t : Type := Chunked | Recurrent.
End ScanMode.

Module P2pTransport.
Inductive t : Type := Direct | HostStaged.
End P2pTransport.

(** [PlacementKind]: a placement without its rank. *)
Module PlacementKind.
Inductive t : Type := Device | Host | Tiered.
End PlacementKind.

Definition placement_as_str (k : PlacementKind.t) : string :=
  match k with
  | PlacementKind.Device => "device"
  | PlacementKind.Host => "host"
  | PlacementKind.Tiered => "tiered"
  end.

Definition placement_from_str (s : list Z) : RegResult PlacementKind.t :=
  let lower := to_ascii_lowercase s in
  if decide (lower = lit "device") then Ok PlacementKind.Device
  else if decide (lower = lit "host") then Ok PlacementKind.Host
  else if decide (lower = lit "tiered") then Ok PlacementKind.Tiered
  else Err (ValidationFailed
    [msg "unknown placement kind '{other}', expected one of: device, host, tiered" [Str lower]]).

Definition placement_kind_of (p : Placement.t) : PlacementKind.t :=
  match p with
  | Placement.Device _ => PlacementKind.Device
  | Placement.Host => PlacementKind.Host
  | Placement.Tiered => PlacementKind.Tiered
  end.

(** [VerifyMethodStatic]: the thresholds by their bits. *)
Module VerifyMethodStatic.
Inductive t : Type := Rejection | Greedy | TypicalAcceptance (eps_bits delta_bits : Z).

Definition typical (eps delta : f32) : t := TypicalAcceptance (f32_to_bits eps) (f32_to_bits delta).

Definition from_ir (m : VerifyMethod.t) : t :=
  match m with
  | VerifyMethod.Rejection => Rejection
  | VerifyMethod.Greedy => Greedy
  | VerifyMethod.TypicalAcceptance eps delta => typical eps delta
  end.

Definition to_ir (s : t) : VerifyMethod.t :=
  match s with
  | Rejection => VerifyMethod.Rejection
  | Greedy => VerifyMethod.Greedy
  | TypicalAcceptance eps_bits delta_bits =>
      VerifyMethod.TypicalAcceptance (f32_from_bits eps_bits) (f32_from_bits delta_bits)
  end.
End VerifyMethodStatic.

Module RopeScalingStatic.
Inductive t : Type :=
| None
| Linear (factor_bits : Z)
| Yarn (factor_bits beta_fast_bits beta_slow_bits orig_ctx mscale_bits : Z)
| Dynamic.

Definition linear (factor : f32) : t := Linear (f32_to_bits factor).
Definition yarn (factor beta_fast beta_slow : f32) (orig_ctx : Z) (mscale : f32) : t :=
  Yarn (f32_to_bits factor) (f32_to_bits beta_fast) (f32_to_bits beta_slow) orig_ctx (f32_to_bits mscale).

Definition from_ir (s : RopeScaling.t) : t :=
  match s with
  | RopeScaling.None => None
  | RopeScaling.Linear factor => linear factor
  | RopeScaling.Yarn factor beta_fast beta_slow orig_ctx mscale =>
      yarn factor beta_fast beta_slow orig_ctx mscale
  | RopeScaling.Dynamic => Dynamic
  end.

Definition to_ir (s : t) : RopeScaling.t :=
  match s with
  | None => RopeScaling.None
  | Linear factor_bits => RopeScaling.Linear (f32_from_bits factor_bits)
  | Yarn factor_bits beta_fast_bits beta_slow_bits orig_ctx mscale_bits =>
      RopeScaling.Yarn (f32_from_bits factor_bits) (f32_from_bits beta_fast_bits)
        (f32_from_bits beta_slow_bits) orig_ctx (f32_from_bits mscale_bits)
  | Dynamic => RopeScaling.Dynamic
  end.
End RopeScalingStatic.

Record MlaAttentionStatic : Type := {
  mas_q_lora_rank : option Z; mas_kv_lora_rank : Z; mas_qk_nope_dim : Z; mas_qk_rope_dim : Z; mas_v_dim : Z
}.
Definition mla_attention_from_ir (spec : MlaAttentionSpec) : MlaAttentionStatic :=
  {| mas_q_lora_rank := ma_q_lora_rank spec; mas_kv_lora_rank := ma_kv_lora_rank spec;
     mas_qk_nope_dim := ma_qk_nope_dim spec; mas_qk_rope_dim := ma_qk_rope_dim spec;
     mas_v_dim := ma_v_dim spec |}.
Definition mla_attention_to_ir (s : MlaAttentionStatic) : MlaAttentionSpec :=
  {| ma_q_lora_rank := mas_q_lora_rank s; ma_kv_lora_rank := mas_kv_lora_rank s;
     ma_qk_nope_dim := mas_qk_nope_dim s; ma_qk_rope_dim := mas_qk_rope_dim s; ma_v_dim := mas_v_dim s |}.

Record MlaLatentStatic : Type := { mls_kv_lora_rank : Z; mls_rope_dim : Z }.
Definition mla_latent_from_ir (latent : MlaLatent) : MlaLatentStatic :=
  {| mls_kv_lora_rank := ml_kv_lora_rank latent; mls_rope_dim := ml_rope_dim latent |}.
Definition mla_latent_to_ir (s : MlaLatentStatic) : MlaLatent :=
  {| ml_kv_lora_rank := mls_kv_lora_rank s; ml_rope_dim := mls_rope_dim s |}.

(** ** Descriptors *)

Record MatmulStatic : Type := {
  mms_m_bucket : Z; mms_n : Z; mms_k : Z; mms_w_dtype : DType.t; mms_w_scheme : QuantScheme.t;
  mms_w_layout : Z; mms_in_dtype : DType.t; mms_act_scheme : QuantScheme.t; mms_out_dtype : DType.t;
  mms_epilogue : Epilogue.t; mms_residual_dtype : option DType.t; mms_transpose_w : bool;
  mms_interleave : bool; mms_sparse : bool
}.
Record MoeRouteStatic : Type := {
  mrs_t_bucket : Z; mrs_e_total : Z; mrs_top_k : Z; mrs_scoring : MoeScoring.t; mrs_renormalize : bool;
  mrs_group : option MoeGroup; mrs_scale_bits : Z; mrs_has_bias : bool
}.
Record MoeFfnProjStatic : Type := {
  mp_dtype : DType.t; mp_scheme : QuantScheme.t; mp_layout : Z
}.
Record MoeFfnStatic : Type := {
  mfs_t_bucket : Z; mfs_e_local : Z; mfs_k_topk : Z; mfs_dm : Z; mfs_dff : Z;
  mfs_gate_up : MoeFfnProjStatic; mfs_down : MoeFfnProjStatic; mfs_in_dtype : DType.t;
  mfs_act_scheme : QuantScheme.t; mfs_act : ActivationKind.t; mfs_out_dtype : DType.t;
  mfs_shared_experts : Z; mfs_placement_kind : PlacementKind.t
}.
Record AttentionStatic : Type := {
  ats_q_bucket : Z; ats_h_local : Z; ats_hkv_local : Z; ats_d : Z; ats_dv : Z; ats_q_dtype : DType.t;
  ats_cache_dtype : DType.t; ats_attention_layout : Z; ats_mask_kind : AttentionMask.t;
  ats_softmax_scale_bits : Z; ats_out_dtype : DType.t; ats_mla : option MlaAttentionStatic;
  ats_softcap_bits : option Z; ats_sinks : Z
}.
Record StateWriteKvStatic : Type := {
  sws_hkv_local : Z; sws_d : Z; sws_dv : Z; sws_in_dtype : DType.t; sws_cache_dtype : DType.t;
  sws_scale_granularity : CacheScaleGranularity.t; sws_attention_layout : Z;
  sws_latent : option MlaLatentStatic
}.
Record CausalConv1dStatic : Type := {
  ccs_t_bucket : Z; ccs_channels : Z; ccs_kernel : Z; ccs_act : ConvActivation.t; ccs_x_dtype : DType.t;
  ccs_w_dtype : DType.t; ccs_w_scheme : QuantScheme.t; ccs_w_layout : Z; ccs_out_dtype : DType.t;
  ccs_bias_dtype : option DType.t
}.
Record LinearAttnScanStatic : Type := {
  lss_kind : LinearAttnKind.t; lss_h_local : Z; lss_d : Z; lss_dv : Z; lss_chunk : Z;
  lss_mode : ScanMode.t; lss_in_dtype : DType.t; lss_out_dtype : DType.t
}.
Record EmbedGatherStatic : Type := {
  egs_scale_bits : Z; egs_table_placement : PlacementKind.t; egs_table_dtype : DType.t;
  egs_table_scheme : QuantScheme.t; egs_table_layout : Z; egs_out_dtype : DType.t;
  egs_vocab_size : Z; egs_dim : Z
}.
Record NgramGatherStatic : Type := {
  ngs_source : NgramSource.t; ngs_hash : Z; ngs_orders : list Z; ngs_heads : Z; ngs_table_sizes : list Z;
  ngs_dn : Z; ngs_table_dtype : DType.t; ngs_table_scheme : QuantScheme.t; ngs_table_layout : Z;
  ngs_staging_dtype : DType.t; ngs_staging_scheme : QuantScheme.t; ngs_staging_layout : Z;
  ngs_scales_dtype : option DType.t; ngs_combine : NgramCombine.t; ngs_out_dtype : DType.t
}.
Record QuantActStatic : Type := {
  qas_scheme : QuantScheme.t; qas_in_dtype : DType.t; qas_target : DType.t; qas_smoothing : Smoothing.t;
  qas_n : Z
}.
Record CastStatic : Type := { cas_in_dtype : DType.t; cas_out_dtype : DType.t; cas_n : Z }.
Record CopyStatic : Type := { cos_kind : CopyKind.t; cos_dtype : DType.t; cos_n : Z }.
Record GatherRowsStatic : Type := { grs_dtype : DType.t; grs_index_dtype : DType.t; grs_width : Z }.
Record ScatterAddRowsStatic : Type := {
  sas_dtype : DType.t; sas_index_dtype : DType.t; sas_width : Z; sas_has_dest : bool
}.
Record SplitStatic : Type := { sls_first : Z; sls_total : Z; sls_dtype : DType.t }.
Record ConcatStatic : Type := {
  cts_c0 : Z; cts_c1 : Z; cts_a_dtype : DType.t; cts_b_dtype : DType.t; cts_out_dtype : DType.t
}.
Record NormStatic : Type := {
  nms_kind : NormKind.t; nms_eps_bits : Z; nms_axis : NormAxis.t; nms_weight_offset_bits : Z;
  nms_in_dtype : DType.t; nms_out_dtype : DType.t; nms_n : Z; nms_has_bias : bool
}.
Record ResidualAddStatic : Type := {
  ras_a_dtype : DType.t; ras_b_dtype : DType.t; ras_out_dtype : DType.t; ras_scale_bits : Z; ras_n : Z
}.
Record ActMulStatic : Type := {
  ams_act : ActivationKind.t; ams_clamp_bits : option Z; ams_dtype : DType.t; ams_width : Z
}.
Record ActivationStatic : Type := {
  acs_act : ActivationKind.t; acs_clamp_bits : option Z; acs_dtype : DType.t; acs_width : Z
}.
Record LogitSoftcapStatic : Type := { lcs_cap_bits : Z; lcs_v : Z }.
Record RopeStatic : Type := {
  ros_rot_dim : Z; ros_theta_bits : Z; ros_style : RopeStyle.t; ros_scaling : RopeScalingStatic.t;
  ros_mrope_sections : option (Z * Z * Z); ros_in_dtype : DType.t; ros_out_dtype : DType.t; ros_h : Z;
  ros_d : Z
}.

Module ElementwiseParams.
Inductive t : Type :=
| EmbedGather (s : EmbedGatherStatic)
| NgramGather (s : NgramGatherStatic)
| QuantAct (s : QuantActStatic)
| Cast (s : CastStatic)
| Copy (s : CopyStatic)
| GatherRows (s : GatherRowsStatic)
| ScatterAddRows (s : ScatterAddRowsStatic)
| Split (s : SplitStatic)
| Concat (s : ConcatStatic)
| Norm (s : NormStatic)
| ResidualAdd (s : ResidualAddStatic)
| ActMul (s : ActMulStatic)
| Activation (s : ActivationStatic)
| LogitSoftcap (s : LogitSoftcapStatic)
| Rope (s : RopeStatic).

Definition op_id (p : t) : OpId.t :=
  match p with
  | EmbedGather _ => OpId.EmbedGather
  | NgramGather _ => OpId.NgramGather
  | QuantAct _ => OpId.QuantAct
  | Cast _ => OpId.Cast
  | Copy _ => OpId.Copy
  | GatherRows _ => OpId.GatherRows
  | ScatterAddRows _ => OpId.ScatterAddRows
  | Split _ => OpId.Split
  | Concat _ => OpId.Concat
  | Norm _ => OpId.Norm
  | ResidualAdd _ => OpId.ResidualAdd
  | ActMul _ => OpId.ActMul
  | Activation _ => OpId.Activation
  | LogitSoftcap _ => OpId.LogitSoftcap
  | Rope _ => OpId.Rope
  end.
End ElementwiseParams.

Record ElementwiseStatic : Type := {
  els_t_bucket : Z; els_fused_with : option OpId.t; els_op_params : ElementwiseParams.t
}.

Record LogitsPostprocessStatic : Type := {
  lps_s_bucket : Z; lps_v : Z; lps_q_bucket : Z; lps_has_history_counts : bool; lps_has_grammar_mask : bool
}.
Record SampleStatic : Type := { sms_s_bucket : Z; sms_v : Z; sms_rng : RngAlgorithm.t }.
Record VerifyStatic : Type := {
  ves_s_bucket : Z; ves_v : Z; ves_q_bucket : Z; ves_method : VerifyMethodStatic.t; ves_tree : bool;
  ves_has_draft_probs : bool
}.
Definition verify_typical (s_bucket v q_bucket : Z) (eps delta : f32) (tree has_draft_probs : bool)
    : VerifyStatic :=
  {| ves_s_bucket := s_bucket; ves_v := v; ves_q_bucket := q_bucket;
     ves_method := VerifyMethodStatic.typical eps delta; ves_tree := tree;
     ves_has_draft_probs := has_draft_probs |}.

Module SamplingStatic.
Inductive t : Type :=
| LogitsPostprocess (s : LogitsPostprocessStatic)
| Sample (s : SampleStatic)
| Verify (s : VerifyStatic).

Definition op_id (s : t) : OpId.t :=
  match s with
  | LogitsPostprocess _ => OpId.LogitsPostprocess
  | Sample _ => OpId.Sample
  | Verify _ => OpId.Verify
  end.
End SamplingStatic.

Record AllReduceStatic : Type := {
  ars_group : Z; ars_rank : Z; ars_world : Z; ars_dtype : DType.t; ars_reduce_in : DType.t;
  ars_reduction_op : ReduceOp.t; ars_transport : P2pTransport.t; ars_bytes_bucket : Z
}.
Record AllGatherStatic : Type := {
  ags_group : Z; ags_rank : Z; ags_world : Z; ags_dtype : DType.t; ags_axis : Z;
  ags_transport : P2pTransport.t; ags_bytes_bucket : Z
}.
Record ReduceScatterStatic : Type := {
  rss_group : Z; rss_rank : Z; rss_world : Z; rss_dtype : DType.t; rss_reduce_in : DType.t;
  rss_reduction_op : ReduceOp.t; rss_axis : Z; rss_transport : P2pTransport.t; rss_bytes_bucket : Z
}.
Record AllToAllStatic : Type := {
  aas_group : Z; aas_rank : Z; aas_world : Z; aas_dtype : DType.t; aas_transport : P2pTransport.t;
  aas_bytes_bucket : Z
}.
Record SendStatic : Type := {
  sds_group : Z; sds_rank : Z; sds_world : Z; sds_peer : Z; sds_dtype : DType.t;
  sds_transport : P2pTransport.t; sds_bytes_bucket : Z
}.
Record RecvStatic : Type := {
  rcs_group : Z; rcs_rank : Z; rcs_world : Z; rcs_peer : Z; rcs_shape : list Z; rcs_dtype : DType.t;
  rcs_transport : P2pTransport.t; rcs_bytes_bucket : Z
}.
Record BarrierStatic : Type := {
  bas_group : Z; bas_rank : Z; bas_world : Z; bas_transport : P2pTransport.t
}.

Module CollectivesStatic.
Inductive t : Type :=
| AllReduce (s : AllReduceStatic)
| AllGather (s : AllGatherStatic)
| ReduceScatter (s : ReduceScatterStatic)
| AllToAll (s : AllToAllStatic)
| Send (s : SendStatic)
| Recv (s : RecvStatic)
| Barrier (s : BarrierStatic).

Definition op_id (s : t) : OpId.t :=
  match s with
  | AllReduce _ => OpId.AllReduce
  | AllGather _ => OpId.AllGather
  | ReduceScatter _ => OpId.ReduceScatter
  | AllToAll _ => OpId.AllToAll
  | Send _ => OpId.Send
  | Recv _ => OpId.Recv
  | Barrier _ => OpId.Barrier
  end.
End CollectivesStatic.

(** [OpStatic], its family, and the one op it describes. *)
Module OpStatic.
Inductive t : Type :=
| Matmul (s : MatmulStatic)
| MoeRoute (s : MoeRouteStatic)
| MoeFfn (s : MoeFfnStatic)
| Attention (s : AttentionStatic)
| StateWriteKv (s : StateWriteKvStatic)
| CausalConv1d (s : CausalConv1dStatic)
| LinearAttnScan (s : LinearAttnScanStatic)
| Elementwise (s : ElementwiseStatic)
| Sampling (s : SamplingStatic.t)
| Collectives (s : CollectivesStatic.t).

Definition family_name (s : t) : string :=
  match s with
  | Matmul _ => "matmul"
  | MoeRoute _ => "moe_route"
  | MoeFfn _ => "moe_ffn"
  | Attention _ => "attention"
  | StateWriteKv _ => "state_write_kv"
  | CausalConv1d _ => "causal_conv1d"
  | LinearAttnScan _ => "linear_attn_scan"
  | Elementwise _ => "elementwise"
  | Sampling _ => "sampling"
  | Collectives _ => "collectives"
  end.

Definition op_id (s : t) : OpId.t :=
  match s with
  | Matmul _ => OpId.Matmul
  | MoeRoute _ => OpId.MoeRoute
  | MoeFfn _ => OpId.MoeFfn
  | Attention _ => OpId.Attention
  | StateWriteKv _ => OpId.StateWriteKv
  | CausalConv1d _ => OpId.CausalConv1d
  | LinearAttnScan _ => OpId.LinearAttnScan
  | Elementwise s => ElementwiseParams.op_id (els_op_params s)
  | Sampling s => SamplingStatic.op_id s
  | Collectives s => CollectivesStatic.op_id s
  end.

Definition check_pair (s : t) (op : OpId.t) : RegResult unit :=
  let mine := op_id s in
  if decide (mine = op) then Ok tt else Err (StaticOpMismatch op mine).
End OpStatic.

(** ** Validation *)

(** [if b { problems.push(..) }]. *)
Definition problem (b : bool) (t : Text) : list Text := if b then [t] else [].

Definition positive (field : string) (v : Z) : list Text :=
  problem (v =? 0) (msg (field +:+ " must be > 0") []).

Definition is_half_or_single (d : DType.t) : bool :=
  match d with DType.F16 | DType.Bf16 | DType.F32 => true | _ => false end.

(** [PerRow] or a block scheme. *)
Definition is_weight_scheme (q : QuantScheme.t) : bool :=
  match q with QuantScheme.PerRow | QuantScheme.Scheme _ => true | _ => false end.
Definition is_block_scheme (q : QuantScheme.t) : bool :=
  match q with QuantScheme.Scheme _ => true | _ => false end.

Definition check_moe_proj_problems (name : string) (proj : MoeFfnProjStatic) : list Text :=
  match mp_dtype proj with
  | DType.I4 | DType.I8 | DType.E4m3 =>
      problem (negb (is_weight_scheme (mp_scheme proj)))
        (msg "moe_ffn.{name}.scheme must be PerRow or a spec 2 block scheme for {:?} weights, got {:?}"
           [Name name; Dtype (mp_dtype proj); Quant (mp_scheme proj)])
  | DType.F16 =>
      problem (bool_decide (mp_scheme proj ≠ QuantScheme.None))
        (msg "moe_ffn.{name}.scheme must be None for f16 weights, got {:?}" [Name name; Quant (mp_scheme proj)])
  | other => [msg "moe_ffn.{name}.dtype must be i4, i8, e4m3, or f16, got {other:?}" [Name name; Dtype other]]
  end.

Definition matmul_static_problems (s : MatmulStatic) : list Text :=
  positive "matmul.m_bucket" (mms_m_bucket s) ++ positive "matmul.n" (mms_n s) ++
  positive "matmul.k" (mms_k s) ++
  (let wants_residual := match mms_epilogue s with Epilogue.Residual => true | _ => false end in
   problem (negb (Bool.eqb (bool_decide (is_Some (mms_residual_dtype s))) wants_residual))
     (msg "matmul.residual_dtype must be Some exactly when the epilogue is Residual" [])) ++
  match mms_residual_dtype s with
  | Some d => problem (negb (is_half_or_single d))
                (msg "matmul.residual_dtype must be f16, bf16, or f32, got {d:?}" [Dtype d])
  | None => []
  end.

Definition moe_route_static_problems (s : MoeRouteStatic) : list Text :=
  positive "moe_route.t_bucket" (mrs_t_bucket s) ++ positive "moe_route.e_total" (mrs_e_total s) ++
  positive "moe_route.top_k" (mrs_top_k s) ++
  problem (mrs_e_total s <? mrs_top_k s)
    (msg "moe_route.top_k ({}) must not exceed e_total ({})" [Num (mrs_top_k s); Num (mrs_e_total s)]) ++
  match mrs_group s with
  | Some g =>
      positive "moe_route.group.n_group" (mg_n_group g) ++
      positive "moe_route.group.topk_group" (mg_topk_group g) ++
      problem (mrs_top_k s <? mg_topk_group g)
        (msg "moe_route.group.topk_group ({}) must not exceed top_k ({})"
           [Num (mg_topk_group g); Num (mrs_top_k s)])
  | None => []
  end.

Definition moe_ffn_static_problems (s : MoeFfnStatic) : list Text :=
  positive "moe_ffn.t_bucket" (mfs_t_bucket s) ++ positive "moe_ffn.e_local" (mfs_e_local s) ++
  positive "moe_ffn.k_topk" (mfs_k_topk s) ++ positive "moe_ffn.dm" (mfs_dm s) ++
  positive "moe_ffn.dff" (mfs_dff s) ++
  check_moe_proj_problems "gate_up" (mfs_gate_up s) ++ check_moe_proj_problems "down" (mfs_down s).

Definition mla_static_problems (mla : MlaAttentionStatic) : list Text :=
  positive "attention.mla.kv_lora_rank" (mas_kv_lora_rank mla) ++
  positive "attention.mla.qk_nope_dim" (mas_qk_nope_dim mla) ++
  positive "attention.mla.qk_rope_dim" (mas_qk_rope_dim mla) ++
  positive "attention.mla.v_dim" (mas_v_dim mla) ++
  match mas_q_lora_rank mla with
  | Some q => problem (q =? 0) (msg "attention.mla.q_lora_rank must be > 0 when present" [])
  | None => []
  end.

Definition attention_static_problems (s : AttentionStatic) : list Text :=
  positive "attention.q_bucket" (ats_q_bucket s) ++
  problem (negb (is_half_or_single (ats_q_dtype s)))
    (msg "attention.q_dtype must be f16, bf16, or f32, got {:?}" [Dtype (ats_q_dtype s)]) ++
  positive "attention.h_local" (ats_h_local s) ++ positive "attention.hkv_local" (ats_hkv_local s) ++
  positive "attention.d" (ats_d s) ++ positive "attention.dv" (ats_dv s) ++
  match ats_mla s with Some mla => mla_static_problems mla | None => [] end.

Definition state_write_kv_static_problems (s : StateWriteKvStatic) : list Text :=
  positive "state_write_kv.hkv_local" (sws_hkv_local s) ++ positive "state_write_kv.d" (sws_d s) ++
  positive "state_write_kv.dv" (sws_dv s) ++
  match sws_latent s with
  | Some l => positive "state_write_kv.latent.kv_lora_rank" (mls_kv_lora_rank l) ++
              positive "state_write_kv.latent.rope_dim" (mls_rope_dim l)
  | None => []
  end.

Definition causal_conv1d_static_problems (s : CausalConv1dStatic) : list Text :=
  positive "causal_conv1d.t_bucket" (ccs_t_bucket s) ++ positive "causal_conv1d.channels" (ccs_channels s) ++
  positive "causal_conv1d.kernel" (ccs_kernel s) ++
  match ccs_w_dtype s with
  | DType.F16 | DType.Bf16 | DType.F32 =>
      problem (bool_decide (ccs_w_scheme s ≠ QuantScheme.None))
        (msg "causal_conv1d.w_scheme must be None for {:?} weights, got {:?}"
           [Dtype (ccs_w_dtype s); Quant (ccs_w_scheme s)])
  | DType.I8 | DType.I4 =>
      problem (negb (is_weight_scheme (ccs_w_scheme s)))
        (msg "causal_conv1d.w_scheme must be PerRow or a spec 2 block scheme for {:?} weights, got {:?}"
           [Dtype (ccs_w_dtype s); Quant (ccs_w_scheme s)])
  | other => [msg "causal_conv1d.w_dtype must be f16, bf16, f32, i8, or i4, got {other:?}" [Dtype other]]
  end ++
  match ccs_bias_dtype s with
  | Some d => problem (negb (is_half_or_single d))
                (msg "causal_conv1d.bias_dtype must be f16, bf16, or f32, got {d:?}" [Dtype d])
  | None => []
  end.

Definition linear_attn_scan_static_problems (s : LinearAttnScanStatic) : list Text :=
  positive "linear_attn_scan.h_local" (lss_h_local s) ++ positive "linear_attn_scan.d" (lss_d s) ++
  positive "linear_attn_scan.dv" (lss_dv s) ++ positive "linear_attn_scan.chunk" (lss_chunk s).

Definition ngram_gather_static_problems (p : NgramGatherStatic) : list Text :=
  match ngs_source p with
  | NgramSource.Staged =>
      problem (negb (is_block_scheme (ngs_staging_scheme p)))
        (msg "ngram_gather.staging_scheme must be a spec 2 block scheme in Staged mode, got {:?}"
           [Quant (ngs_staging_scheme p)]) ++
      match ngs_scales_dtype p with
      | Some (DType.F32 | DType.F16) => []
      | other => [msg "ngram_gather.scales_dtype must be Some(f32|f16) in Staged mode, got {other:?}"
                    [MaybeDtype other]]
      end
  | NgramSource.Device =>
      problem (bool_decide (is_Some (ngs_scales_dtype p)))
        (msg "ngram_gather.scales_dtype must be None in Device-table mode" [])
  end ++
  positive "ngram_gather.heads" (ngs_heads p) ++
  problem (negb (Z.of_nat (length (ngs_orders p)) =? ngs_heads p))
    (msg "ngram_gather.orders len ({}) must equal heads ({})"
       [Num (Z.of_nat (length (ngs_orders p))); Num (ngs_heads p)]) ++
  problem (negb (Z.of_nat (length (ngs_table_sizes p)) =? ngs_heads p))
    (msg "ngram_gather.table_sizes len ({}) must equal heads ({})"
       [Num (Z.of_nat (length (ngs_table_sizes p))); Num (ngs_heads p)]) ++
  positive "ngram_gather.dn" (ngs_dn p).

Definition split_static_problems (p : SplitStatic) : list Text :=
  positive "split.first" (sls_first p) ++ positive "split.total" (sls_total p) ++
  problem (sls_total p <=? sls_first p)
    (msg "split requires 0 < first ({}) < total ({})" [Num (sls_first p); Num (sls_total p)]).

Definition residual_add_static_problems (p : ResidualAddStatic) : list Text :=
  positive "residual_add.n" (ras_n p) ++
  concat (map (λ '(name, d), problem (negb (is_half_or_single d))
      (msg "residual_add.{name} must be f16, bf16, or f32, got {d:?}" [Name name; Dtype d]))
    [("a_dtype"%string, ras_a_dtype p); ("b_dtype"%string, ras_b_dtype p)]).

Definition elementwise_static_problems (s : ElementwiseStatic) : list Text :=
  positive "elementwise.t_bucket" (els_t_bucket s) ++
  match els_op_params s with
  | ElementwiseParams.NgramGather p => ngram_gather_static_problems p
  | ElementwiseParams.Split p => split_static_problems p
  | ElementwiseParams.Concat p => positive "concat.c0" (cts_c0 p) ++ positive "concat.c1" (cts_c1 p)
  | ElementwiseParams.QuantAct p => positive "quant_act.n" (qas_n p)
  | ElementwiseParams.Cast p => positive "cast.n" (cas_n p)
  | ElementwiseParams.Copy p => positive "copy.n" (cos_n p)
  | ElementwiseParams.GatherRows p => positive "gather_rows.width" (grs_width p)
  | ElementwiseParams.ScatterAddRows p => positive "scatter_add_rows.width" (sas_width p)
  | ElementwiseParams.Norm p => positive "norm.n" (nms_n p)
  | ElementwiseParams.ResidualAdd p => residual_add_static_problems p
  | ElementwiseParams.ActMul p => positive "act_mul.width" (ams_width p)
  | ElementwiseParams.Activation p => positive "activation.width" (acs_width p)
  | ElementwiseParams.LogitSoftcap p => positive "logit_softcap.v" (lcs_v p)
  | ElementwiseParams.Rope p =>
      positive "rope.h" (ros_h p) ++ positive "rope.d" (ros_d p) ++ positive "rope.rot_dim" (ros_rot_dim p)
  | ElementwiseParams.EmbedGather p =>
      positive "embed_gather.vocab_size" (egs_vocab_size p) ++ positive "embed_gather.dim" (egs_dim p)
  end.

Definition sampling_static_problems (s : SamplingStatic.t) : list Text :=
  match s with
  | SamplingStatic.LogitsPostprocess p =>
      positive "logits_postprocess.s_bucket" (lps_s_bucket p) ++ positive "logits_postprocess.v" (lps_v p) ++
      positive "logits_postprocess.q_bucket" (lps_q_bucket p)
  | SamplingStatic.Sample p => positive "sample.s_bucket" (sms_s_bucket p) ++ positive "sample.v" (sms_v p)
  | SamplingStatic.Verify p =>
      positive "verify.s_bucket" (ves_s_bucket p) ++ positive "verify.v" (ves_v p) ++
      positive "verify.q_bucket" (ves_q_bucket p)
  end.

(** The rank of a collective, and its peer, are below its world. *)
Definition world_problems (op : string) (rank world : Z) : list Text :=
  positive (op +:+ ".world") world ++
  problem (world <=? rank) (msg (op +:+ ".rank ({}) must be < world ({})") [Num rank; Num world]).
Definition peer_problems (op : string) (peer world : Z) : list Text :=
  problem (world <=? peer) (msg (op +:+ ".peer ({}) must be < world ({})") [Num peer; Num world]).
Definition reduce_in_problems (op : string) (d : DType.t) : list Text :=
  problem (bool_decide (d ≠ DType.F32)) (msg (op +:+ ".reduce_in must be f32 per Spec 1 §4.G, got {:?}") [Dtype d]).

Definition collectives_static_problems (s : CollectivesStatic.t) : list Text :=
  match s with
  | CollectivesStatic.AllReduce p =>
      world_problems "all_reduce" (ars_rank p) (ars_world p) ++ reduce_in_problems "all_reduce" (ars_reduce_in p) ++
      positive "all_reduce.bytes_bucket" (ars_bytes_bucket p)
  | CollectivesStatic.AllGather p =>
      world_problems "all_gather" (ags_rank p) (ags_world p) ++
      positive "all_gather.bytes_bucket" (ags_bytes_bucket p)
  | CollectivesStatic.ReduceScatter p =>
      world_problems "reduce_scatter" (rss_rank p) (rss_world p) ++
      reduce_in_problems "reduce_scatter" (rss_reduce_in p) ++
      positive "reduce_scatter.bytes_bucket" (rss_bytes_bucket p)
  | CollectivesStatic.AllToAll p =>
      world_problems "all_to_all" (aas_rank p) (aas_world p) ++
      positive "all_to_all.bytes_bucket" (aas_bytes_bucket p)
  | CollectivesStatic.Send p =>
      world_problems "send" (sds_rank p) (sds_world p) ++ peer_problems "send" (sds_peer p) (sds_world p) ++
      positive "send.bytes_bucket" (sds_bytes_bucket p)
  | CollectivesStatic.Recv p =>
      world_problems "recv" (rcs_rank p) (rcs_world p) ++ peer_problems "recv" (rcs_peer p) (rcs_world p) ++
      problem (bool_decide (rcs_shape p = [])) (msg "recv.shape must be non-empty" []) ++
      problem (existsb (Z.eqb 0) (rcs_shape p)) (msg "recv.shape extents must all be > 0" []) ++
      positive "recv.bytes_bucket" (rcs_bytes_bucket p)
  | CollectivesStatic.Barrier p => world_problems "barrier" (bas_rank p) (bas_world p)
  end.

Definition op_static_problems (s : OpStatic.t) : list Text :=
  match s with
  | OpStatic.Matmul s => matmul_static_problems s
  | OpStatic.MoeRoute s => moe_route_static_problems s
  | OpStatic.MoeFfn s => moe_ffn_static_problems s
  | OpStatic.Attention s => attention_static_problems s
  | OpStatic.StateWriteKv s => state_write_kv_static_problems s
  | OpStatic.CausalConv1d s => causal_conv1d_static_problems s
  | OpStatic.LinearAttnScan s => linear_attn_scan_static_problems s
  | OpStatic.Elementwise s => elementwise_static_problems s
  | OpStatic.Sampling s => sampling_static_problems s
  | OpStatic.Collectives s => collectives_static_problems s
  end.

(** What every validator of the crate ends with. *)
Definition refuse_registry (problems : list Text) : RegResult unit :=
  match problems with [] => Ok tt | _ => Err (ValidationFailed problems) end.

(** [OpStatic::validate]. *)
Definition op_static_validate (s : OpStatic.t) : RegResult unit := refuse_registry (op_static_problems s).

(** ** Facts of the resolved graph *)

Record MatmulFacts : Type := {
  mmf_m_bucket : Z; mmf_n : Z; mmf_k : Z; mmf_w_dtype : DType.t; mmf_w_scheme : QuantScheme.t;
  mmf_w_layout : Z; mmf_in_dtype : DType.t; mmf_act_scheme : QuantScheme.t;
  mmf_residual_dtype : option DType.t; mmf_interleave : bool; mmf_sparse : bool
}.
Record MoeRouteFacts : Type := { mrf_t_bucket : Z; mrf_e_total : Z; mrf_has_bias : bool }.
Record MoeFfnFacts : Type := {
  mff_t_bucket : Z; mff_e_local : Z; mff_k_topk : Z; mff_dm : Z; mff_dff : Z;
  mff_gate_up : MoeFfnProjStatic; mff_down : MoeFfnProjStatic; mff_in_dtype : DType.t;
  mff_act_scheme : QuantScheme.t; mff_placement_kind : PlacementKind.t
}.
Record AttentionFacts : Type := {
  atf_q_bucket : Z; atf_h_local : Z; atf_hkv_local : Z; atf_d : Z; atf_dv : Z; atf_q_dtype : DType.t;
  atf_cache_dtype : DType.t; atf_attention_layout : Z
}.
Record StateWriteKvFacts : Type := {
  swf_hkv_local : Z; swf_d : Z; swf_dv : Z; swf_in_dtype : DType.t; swf_attention_layout : Z
}.
Record CausalConv1dFacts : Type := {
  ccf_t_bucket : Z; ccf_channels : Z; ccf_x_dtype : DType.t; ccf_w_dtype : DType.t;
  ccf_w_scheme : QuantScheme.t; ccf_w_layout : Z; ccf_out_dtype : DType.t; ccf_bias_dtype : option DType.t
}.
Record LinearAttnScanFacts : Type := {
  laf_h_local : Z; laf_d : Z; laf_dv : Z; laf_in_dtype : DType.t; laf_mode : ScanMode.t
}.

Module ElementwiseFacts.
Inductive t : Type :=
| EmbedGather (table_placement : PlacementKind.t) (table_dtype : DType.t) (table_scheme : QuantScheme.t)
    (table_layout vocab_size dim : Z)
| NgramGather (dn : Z) (table_dtype : DType.t) (table_scheme : QuantScheme.t) (table_layout : Z)
    (staging_dtype : DType.t) (staging_scheme : QuantScheme.t) (staging_layout : Z)
    (scales_dtype : option DType.t)
| QuantAct (in_dtype : DType.t) (n : Z)
| Cast (in_dtype : DType.t) (n : Z)
| Copy (dtype : DType.t) (n : Z)
| GatherRows (dtype index_dtype : DType.t) (width : Z)
| ScatterAddRows (dtype index_dtype : DType.t) (width : Z) (has_dest : bool)
| Split (total : Z) (dtype : DType.t)
| Concat (c0 c1 : Z) (a_dtype b_dtype out_dtype : DType.t)
| Norm (in_dtype : DType.t) (n : Z) (has_bias : bool)
| ResidualAdd (a_dtype b_dtype : DType.t) (n : Z)
| ActMul (dtype : DType.t) (width : Z)
| Activation (dtype : DType.t) (width : Z)
| LogitSoftcap (v : Z)
| Rope (in_dtype : DType.t) (h d : Z).

Definition op_id (f : t) : OpId.t :=
  match f with
  | EmbedGather _ _ _ _ _ _ => OpId.EmbedGather
  | NgramGather _ _ _ _ _ _ _ _ => OpId.NgramGather
  | QuantAct _ _ => OpId.QuantAct
  | Cast _ _ => OpId.Cast
  | Copy _ _ => OpId.Copy
  | GatherRows _ _ _ => OpId.GatherRows
  | ScatterAddRows _ _ _ _ => OpId.ScatterAddRows
  | Split _ _ => OpId.Split
  | Concat _ _ _ _ _ => OpId.Concat
  | Norm _ _ _ => OpId.Norm
  | ResidualAdd _ _ _ => OpId.ResidualAdd
  | ActMul _ _ => OpId.ActMul
  | Activation _ _ => OpId.Activation
  | LogitSoftcap _ => OpId.LogitSoftcap
  | Rope _ _ _ => OpId.Rope
  end.
End ElementwiseFacts.

Module SamplingFacts.
Inductive t : Type :=
| LogitsPostprocess (s_bucket v q_bucket : Z) (has_history_counts has_grammar_mask : bool)
| Sample (s_bucket v : Z)
| Verify (s_bucket v q_bucket : Z) (tree has_draft_probs : bool).

Definition op_id (f : t) : OpId.t :=
  match f with
  | LogitsPostprocess _ _ _ _ _ => OpId.LogitsPostprocess
  | Sample _ _ => OpId.Sample
  | Verify _ _ _ _ _ => OpId.Verify
  end.
End SamplingFacts.

Module CollectiveFacts.
Inductive t : Type :=
| AllReduce (rank world : Z) (transport : P2pTransport.t) (bytes_bucket : Z)
| AllGather (rank world : Z) (transport : P2pTransport.t) (bytes_bucket : Z)
| ReduceScatter (rank world : Z) (transport : P2pTransport.t) (bytes_bucket : Z)
| AllToAll (rank world : Z) (transport : P2pTransport.t) (bytes_bucket : Z)
| Send (rank world : Z) (transport : P2pTransport.t) (bytes_bucket : Z)
| Recv (rank world : Z) (transport : P2pTransport.t) (bytes_bucket : Z) (shape : list Z)
| Barrier (rank world : Z) (transport : P2pTransport.t).

Definition op_id (f : t) : OpId.t :=
  match f with
  | AllReduce _ _ _ _ => OpId.AllReduce
  | AllGather _ _ _ _ => OpId.AllGather
  | ReduceScatter _ _ _ _ => OpId.ReduceScatter
  | AllToAll _ _ _ _ => OpId.AllToAll
  | Send _ _ _ _ => OpId.Send
  | Recv _ _ _ _ _ => OpId.Recv
  | Barrier _ _ _ => OpId.Barrier
  end.
End CollectiveFacts.

Module StaticFacts.
Inductive t : Type :=
| Matmul (f : MatmulFacts)
| MoeRoute (f : MoeRouteFacts)
| MoeFfn (f : MoeFfnFacts)
| Attention (f : AttentionFacts)
| StateWriteKv (f : StateWriteKvFacts)
| CausalConv1d (f : CausalConv1dFacts)
| LinearAttnScan (f : LinearAttnScanFacts)
| Elementwise (t_bucket : Z) (fused_with : option OpId.t) (params : ElementwiseFacts.t)
| Sampling (f : SamplingFacts.t)
| Collectives (f : CollectiveFacts.t).
End StaticFacts.

(** ** From an op of the IR *)

Definition facts_mismatch (op : OpId.t) (what : string) : RegistryError := FactsOpMismatch op what.

Definition elementwise (t_bucket : Z) (fused_with : option OpId.t) (p : ElementwiseParams.t) : OpStatic.t :=
  OpStatic.Elementwise {| els_t_bucket := t_bucket; els_fused_with := fused_with; els_op_params := p |}.

Definition matmul_from_op (o : MatmulOp) (f : MatmulFacts) : RegResult OpStatic.t :=
  let wants_residual := match mm_epilogue o with Epilogue.Residual => true | _ => false end in
  if negb (Bool.eqb (bool_decide (is_Some (mmf_residual_dtype f))) wants_residual) then
    Err (facts_mismatch OpId.Matmul "matmul facts residual_dtype presence must match a Residual epilogue")
  else Ok (OpStatic.Matmul
    {| mms_m_bucket := mmf_m_bucket f; mms_n := mmf_n f; mms_k := mmf_k f; mms_w_dtype := mmf_w_dtype f;
       mms_w_scheme := mmf_w_scheme f; mms_w_layout := mmf_w_layout f; mms_in_dtype := mmf_in_dtype f;
       mms_act_scheme := mmf_act_scheme f; mms_out_dtype := mm_out_dtype o; mms_epilogue := mm_epilogue o;
       mms_residual_dtype := mmf_residual_dtype f; mms_transpose_w := mm_transpose_w o;
       mms_interleave := mmf_interleave f; mms_sparse := mmf_sparse f |}).

Definition moe_ffn_from_op (o : MoeFfnOp) (f : MoeFfnFacts) : OpStatic.t :=
  OpStatic.MoeFfn
    {| mfs_t_bucket := mff_t_bucket f; mfs_e_local := mff_e_local f; mfs_k_topk := mff_k_topk f;
       mfs_dm := mff_dm f; mfs_dff := mff_dff f; mfs_gate_up := mff_gate_up f; mfs_down := mff_down f;
       mfs_in_dtype := mff_in_dtype f; mfs_act_scheme := mff_act_scheme f; mfs_act := mf_act o;
       mfs_out_dtype := mf_out_dtype o; mfs_shared_experts := mf_shared_experts o;
       mfs_placement_kind := mff_placement_kind f |}.

Definition attention_from_op (o : AttentionOp) (f : AttentionFacts) : OpStatic.t :=
  OpStatic.Attention
    {| ats_q_bucket := atf_q_bucket f; ats_h_local := atf_h_local f; ats_hkv_local := atf_hkv_local f;
       ats_d := atf_d f; ats_dv := atf_dv f; ats_q_dtype := atf_q_dtype f; ats_cache_dtype := atf_cache_dtype f;
       ats_attention_layout := atf_attention_layout f; ats_mask_kind := at_mask o;
       ats_softmax_scale_bits := f32_to_bits (at_softmax_scale o); ats_out_dtype := at_out_dtype o;
       ats_mla := mla_attention_from_ir <$> at_mla o; ats_softcap_bits := f32_to_bits <$> at_logit_softcap o;
       ats_sinks := at_sinks o |}.

Definition ngram_gather_from_op (o : NgramGatherOp) (t_bucket : Z) (fused_with : option OpId.t) (dn : Z)
    (table_dtype : DType.t) (table_scheme : QuantScheme.t) (table_layout : Z) (staging_dtype : DType.t)
    (staging_scheme : QuantScheme.t) (staging_layout : Z) (scales_dtype : option DType.t)
    : RegResult OpStatic.t :=
  let staged := match ng_source o with NgramSource.Staged => true | NgramSource.Device => false end in
  if negb (Bool.eqb (bool_decide (is_Some scales_dtype)) staged) then
    Err (facts_mismatch OpId.NgramGather "ngram_gather facts scales_dtype presence must match Staged source")
  else Ok (elementwise t_bucket fused_with (ElementwiseParams.NgramGather
    {| ngs_source := ng_source o; ngs_hash := ng_hash o; ngs_orders := ng_orders o; ngs_heads := ng_heads o;
       ngs_table_sizes := ng_table_sizes o; ngs_dn := dn; ngs_table_dtype := table_dtype;
       ngs_table_scheme := table_scheme; ngs_table_layout := table_layout; ngs_staging_dtype := staging_dtype;
       ngs_staging_scheme := staging_scheme; ngs_staging_layout := staging_layout;
       ngs_scales_dtype := scales_dtype; ngs_combine := ng_combine o; ngs_out_dtype := ng_out_dtype o |})).

(** The loop of [Recv] over the extents of the facts; its product is only
    checked for overflow. *)
Fixpoint recv_extents (dims : list Dim.t) (axis : nat) (shape : list Z) (elements : Z) : RegResult unit :=
  match shape with
  | [] => Ok tt
  | extent :: shape =>
      if extent =? 0 then Err (facts_mismatch OpId.Recv "recv facts shape extents must all be > 0")
      else
        let* dim := or_panic (dims !! axis) in
        let differs := match dim with Dim.Concrete concrete => negb (extent =? concrete) | Dim.Symbolic _ => false end in
        if differs then Err (facts_mismatch OpId.Recv "recv facts shape extent must equal the concrete IR extent")
        else
          let* elements := ok_or (checked_mul U64_MAX elements extent)
                             (facts_mismatch OpId.Recv "recv facts shape product overflows u64") in
          recv_extents dims (S axis) shape elements
  end.

Definition recv_from_op (o : RecvOp) (rank world : Z) (transport : P2pTransport.t) (bytes_bucket : Z)
    (shape : list Z) : RegResult OpStatic.t :=
  if negb (length shape =? length (rv_shape o))%nat then
    Err (facts_mismatch OpId.Recv "recv facts shape rank must match IR recv shape rank")
  else
    let* _ := recv_extents (rv_shape o) 0 shape 1 in
    Ok (OpStatic.Collectives (CollectivesStatic.Recv
      {| rcs_group := rv_group o; rcs_rank := rank; rcs_world := world; rcs_peer := rv_peer o;
         rcs_shape := shape; rcs_dtype := rv_dtype o; rcs_transport := transport;
         rcs_bytes_bucket := bytes_bucket |})).

(** [OpStatic::from_op]. *)
Definition from_op (op : Op.t) (facts : StaticFacts.t) : RegResult OpStatic.t :=
  match op, facts with
  | Op.Matmul o, StaticFacts.Matmul f => matmul_from_op o f
  | Op.MoeRoute o, StaticFacts.MoeRoute f => Ok (OpStatic.MoeRoute
      {| mrs_t_bucket := mrf_t_bucket f; mrs_e_total := mrf_e_total f; mrs_top_k := mr_top_k o;
         mrs_scoring := mr_scoring o; mrs_renormalize := mr_renormalize o; mrs_group := mr_group o;
         mrs_scale_bits := f32_to_bits (mr_scale o); mrs_has_bias := mrf_has_bias f |})
  | Op.MoeFfn o, StaticFacts.MoeFfn f => Ok (moe_ffn_from_op o f)
  | Op.Attention o, StaticFacts.Attention f => Ok (attention_from_op o f)
  | Op.StateWriteKv o, StaticFacts.StateWriteKv f => Ok (OpStatic.StateWriteKv
      {| sws_hkv_local := swf_hkv_local f; sws_d := swf_d f; sws_dv := swf_dv f; sws_in_dtype := swf_in_dtype f;
         sws_cache_dtype := sw_cache_dtype o; sws_scale_granularity := sw_scale_granularity o;
         sws_attention_layout := swf_attention_layout f; sws_latent := mla_latent_from_ir <$> sw_latent o |})
  | Op.CausalConv1d o, StaticFacts.CausalConv1d f => Ok (OpStatic.CausalConv1d
      {| ccs_t_bucket := ccf_t_bucket f; ccs_channels := ccf_channels f; ccs_kernel := cc_kernel o;
         ccs_act := cc_act o; ccs_x_dtype := ccf_x_dtype f; ccs_w_dtype := ccf_w_dtype f;
         ccs_w_scheme := ccf_w_scheme f; ccs_w_layout := ccf_w_layout f; ccs_out_dtype := ccf_out_dtype f;
         ccs_bias_dtype := ccf_bias_dtype f |})
  | Op.LinearAttnScan o, StaticFacts.LinearAttnScan f => Ok (OpStatic.LinearAttnScan
      {| lss_kind := la_kind o; lss_h_local := laf_h_local f; lss_d := laf_d f; lss_dv := laf_dv f;
         lss_chunk := la_chunk o; lss_mode := laf_mode f; lss_in_dtype := laf_in_dtype f;
         lss_out_dtype := la_out_dtype o |})
  | Op.EmbedGather o, StaticFacts.Elementwise t_bucket fused_with
      (ElementwiseFacts.EmbedGather table_placement table_dtype table_scheme table_layout vocab_size dim) =>
      Ok (elementwise t_bucket fused_with (ElementwiseParams.EmbedGather
        {| egs_scale_bits := f32_to_bits (eg_scale o); egs_table_placement := table_placement;
           egs_table_dtype := table_dtype; egs_table_scheme := table_scheme; egs_table_layout := table_layout;
           egs_out_dtype := eg_out_dtype o; egs_vocab_size := vocab_size; egs_dim := dim |}))
  | Op.NgramGather o, StaticFacts.Elementwise t_bucket fused_with
      (ElementwiseFacts.NgramGather dn table_dtype table_scheme table_layout staging_dtype staging_scheme
         staging_layout scales_dtype) =>
      ngram_gather_from_op o t_bucket fused_with dn table_dtype table_scheme table_layout staging_dtype
        staging_scheme staging_layout scales_dtype
  | Op.QuantAct o, StaticFacts.Elementwise t_bucket fused_with (ElementwiseFacts.QuantAct in_dtype n) =>
      Ok (elementwise t_bucket fused_with (ElementwiseParams.QuantAct
        {| qas_scheme := qa_scheme o; qas_in_dtype := in_dtype; qas_target := qa_target o;
           qas_smoothing := qa_smoothing o; qas_n := n |}))
  | Op.Cast o, StaticFacts.Elementwise t_bucket fused_with (ElementwiseFacts.Cast in_dtype n) =>
      Ok (elementwise t_bucket fused_with (ElementwiseParams.Cast
        {| cas_in_dtype := in_dtype; cas_out_dtype := ca_dtype o; cas_n := n |}))
  | Op.Copy o, StaticFacts.Elementwise t_bucket fused_with (ElementwiseFacts.Copy dtype n) =>
      Ok (elementwise t_bucket fused_with (ElementwiseParams.Copy
        {| cos_kind := co_kind o; cos_dtype := dtype; cos_n := n |}))
  | Op.GatherRows, StaticFacts.Elementwise t_bucket fused_with
      (ElementwiseFacts.GatherRows dtype index_dtype width) =>
      Ok (elementwise t_bucket fused_with (ElementwiseParams.GatherRows
        {| grs_dtype := dtype; grs_index_dtype := index_dtype; grs_width := width |}))
  | Op.ScatterAddRows, StaticFacts.Elementwise t_bucket fused_with
      (ElementwiseFacts.ScatterAddRows dtype index_dtype width has_dest) =>
      Ok (elementwise t_bucket fused_with (ElementwiseParams.ScatterAddRows
        {| sas_dtype := dtype; sas_index_dtype := index_dtype; sas_width := width; sas_has_dest := has_dest |}))
  | Op.Split o, StaticFacts.Elementwise t_bucket fused_with (ElementwiseFacts.Split total dtype) =>
      Ok (elementwise t_bucket fused_with (ElementwiseParams.Split
        {| sls_first := sl_first o; sls_total := total; sls_dtype := dtype |}))
  | Op.Concat, StaticFacts.Elementwise t_bucket fused_with
      (ElementwiseFacts.Concat c0 c1 a_dtype b_dtype out_dtype) =>
      Ok (elementwise t_bucket fused_with (ElementwiseParams.Concat
        {| cts_c0 := c0; cts_c1 := c1; cts_a_dtype := a_dtype; cts_b_dtype := b_dtype;
           cts_out_dtype := out_dtype |}))
  | Op.Norm o, StaticFacts.Elementwise t_bucket fused_with (ElementwiseFacts.Norm in_dtype n has_bias) =>
      Ok (elementwise t_bucket fused_with (ElementwiseParams.Norm
        {| nms_kind := nm_kind o; nms_eps_bits := f32_to_bits (nm_eps o); nms_axis := nm_axis o;
           nms_weight_offset_bits := f32_to_bits (nm_weight_offset o); nms_in_dtype := in_dtype;
           nms_out_dtype := nm_out_dtype o; nms_n := n; nms_has_bias := has_bias |}))
  | Op.ResidualAdd o, StaticFacts.Elementwise t_bucket fused_with
      (ElementwiseFacts.ResidualAdd a_dtype b_dtype n) =>
      Ok (elementwise t_bucket fused_with (ElementwiseParams.ResidualAdd
        {| ras_a_dtype := a_dtype; ras_b_dtype := b_dtype; ras_out_dtype := ra_out_dtype o;
           ras_scale_bits := f32_to_bits (ra_scale o); ras_n := n |}))
  | Op.ActMul o, StaticFacts.Elementwise t_bucket fused_with (ElementwiseFacts.ActMul dtype width) =>
      Ok (elementwise t_bucket fused_with (ElementwiseParams.ActMul
        {| ams_act := am_act o; ams_clamp_bits := f32_to_bits <$> am_clamp o; ams_dtype := dtype;
           ams_width := width |}))
  | Op.Activation o, StaticFacts.Elementwise t_bucket fused_with (ElementwiseFacts.Activation dtype width) =>
      Ok (elementwise t_bucket fused_with (ElementwiseParams.Activation
        {| acs_act := ac_act o; acs_clamp_bits := f32_to_bits <$> ac_clamp o; acs_dtype := dtype;
           acs_width := width |}))
  | Op.LogitSoftcap o, StaticFacts.Elementwise t_bucket fused_with (ElementwiseFacts.LogitSoftcap v) =>
      Ok (elementwise t_bucket fused_with (ElementwiseParams.LogitSoftcap
        {| lcs_cap_bits := f32_to_bits (lc_cap o); lcs_v := v |}))
  | Op.Rope o, StaticFacts.Elementwise t_bucket fused_with (ElementwiseFacts.Rope in_dtype h d) =>
      Ok (elementwise t_bucket fused_with (ElementwiseParams.Rope
        {| ros_rot_dim := ro_rot_dim o; ros_theta_bits := f32_to_bits (ro_theta o); ros_style := ro_style o;
           ros_scaling := RopeScalingStatic.from_ir (ro_scaling o); ros_mrope_sections := ro_mrope_sections o;
           ros_in_dtype := in_dtype; ros_out_dtype := ro_out_dtype o; ros_h := h; ros_d := d |}))
  | Op.LogitsPostprocess, StaticFacts.Sampling
      (SamplingFacts.LogitsPostprocess s_bucket v q_bucket has_history_counts has_grammar_mask) =>
      Ok (OpStatic.Sampling (SamplingStatic.LogitsPostprocess
        {| lps_s_bucket := s_bucket; lps_v := v; lps_q_bucket := q_bucket;
           lps_has_history_counts := has_history_counts; lps_has_grammar_mask := has_grammar_mask |}))
  | Op.Sample o, StaticFacts.Sampling (SamplingFacts.Sample s_bucket v) =>
      Ok (OpStatic.Sampling (SamplingStatic.Sample
        {| sms_s_bucket := s_bucket; sms_v := v; sms_rng := sa_rng o |}))
  | Op.Verify o, StaticFacts.Sampling (SamplingFacts.Verify s_bucket v q_bucket tree has_draft_probs) =>
      Ok (OpStatic.Sampling (SamplingStatic.Verify
        {| ves_s_bucket := s_bucket; ves_v := v; ves_q_bucket := q_bucket;
           ves_method := VerifyMethodStatic.from_ir (ve_method o); ves_tree := tree;
           ves_has_draft_probs := has_draft_probs |}))
  | Op.AllReduce o, StaticFacts.Collectives (CollectiveFacts.AllReduce rank world transport bytes_bucket) =>
      Ok (OpStatic.Collectives (CollectivesStatic.AllReduce
        {| ars_group := ar_group o; ars_rank := rank; ars_world := world; ars_dtype := ar_dtype o;
           ars_reduce_in := ar_reduce_in o; ars_reduction_op := ar_op o; ars_transport := transport;
           ars_bytes_bucket := bytes_bucket |}))
  | Op.AllGather o, StaticFacts.Collectives (CollectiveFacts.AllGather rank world transport bytes_bucket) =>
      Ok (OpStatic.Collectives (CollectivesStatic.AllGather
        {| ags_group := ag_group o; ags_rank := rank; ags_world := world; ags_dtype := ag_dtype o;
           ags_axis := ag_axis o; ags_transport := transport; ags_bytes_bucket := bytes_bucket |}))
  | Op.ReduceScatter o, StaticFacts.Collectives
      (CollectiveFacts.ReduceScatter rank world transport bytes_bucket) =>
      Ok (OpStatic.Collectives (CollectivesStatic.ReduceScatter
        {| rss_group := rs_group o; rss_rank := rank; rss_world := world; rss_dtype := rs_dtype o;
           rss_reduce_in := rs_reduce_in o; rss_reduction_op := rs_op o; rss_axis := rs_axis o;
           rss_transport := transport; rss_bytes_bucket := bytes_bucket |}))
  | Op.AllToAll o, StaticFacts.Collectives (CollectiveFacts.AllToAll rank world transport bytes_bucket) =>
      Ok (OpStatic.Collectives (CollectivesStatic.AllToAll
        {| aas_group := aa_group o; aas_rank := rank; aas_world := world; aas_dtype := aa_dtype o;
           aas_transport := transport; aas_bytes_bucket := bytes_bucket |}))
  | Op.Send o, StaticFacts.Collectives (CollectiveFacts.Send rank world transport bytes_bucket) =>
      Ok (OpStatic.Collectives (CollectivesStatic.Send
        {| sds_group := sd_group o; sds_rank := rank; sds_world := world; sds_peer := sd_peer o;
           sds_dtype := sd_dtype o; sds_transport := transport; sds_bytes_bucket := bytes_bucket |}))
  | Op.Recv o, StaticFacts.Collectives (CollectiveFacts.Recv rank world transport bytes_bucket shape) =>
      recv_from_op o rank world transport bytes_bucket shape
  | Op.Barrier o, StaticFacts.Collectives (CollectiveFacts.Barrier rank world transport) =>
      Ok (OpStatic.Collectives (CollectivesStatic.Barrier
        {| bas_group := ba_group o; bas_rank := rank; bas_world := world; bas_transport := transport |}))
  | other, _ => Err (facts_mismatch (op_id_from_op other) "facts variant does not match op")
  end.
