(* ===== verification/RegStaticSpec.v ===== *)
(** * What a static descriptor says

    The descriptor derived from an op pairs with that op and no other, the
    derivation refuses exactly the facts that do not fit, and the descriptor
    loses nothing a kernel is specialised on: [of_static] reads it back. *)

From S2P Require Import Prelude Bytes SchedError Ops RegStatic.

#[global] Open Scope Z_scope.

(** ** Floats by their bits *)

(** The canonical binary32 representations; every [f32] of a program is one. *)
Definition f32_ok (x : f32) : Prop := valid_binary f32_prec f32_emax x = true.

Lemma digits2_pos_bounds m : 2 ^ (Z.pos (digits2_pos m) - 1) ≤ Z.pos m < 2 ^ Z.pos (digits2_pos m).
Proof.
  replace (digits2_pos m) with (Pos.size m) by (induction m; simpl; congruence).
  pose proof (Pos.size_gt m). pose proof (Pos.size_le m).
  rewrite Z.sub_1_r, <- Pos2Z.inj_pow in *. 
  assert (2 ^ Z.pos (Pos.size m) = 2 * 2 ^ Z.pred (Z.pos (Pos.size m))).
  { rewrite <- Z.pow_succ_r by lia. f_equal. lia. }
  rewrite <- Pos2Z.inj_pow in *. lia.
Qed.

Lemma f32_finite_cases s m e : f32_ok (S754_finite s m e) →
  2 ^ 23 ≤ Z.pos m < 2 ^ 24 ∧ - 149 ≤ e ≤ 104 ∨ Z.pos m < 2 ^ 23 ∧ e = - 149.
Proof.
  unfold f32_ok, valid_binary, bounded, canonical_mantissa, fexp, emin, f32_prec, f32_emax. intros H.
  apply andb_true_iff in H as [H1 H2]. apply Zeq_bool_eq in H1. apply Z.leb_le in H2.
  pose proof (digits2_pos_bounds m) as Hd. set (d := Z.pos (digits2_pos m)) in *.
  assert (d = 24 ∨ d ≤ 23 ∧ e = -149) as [Hd'|[Hd' ->]] by lia.
  - rewrite Hd' in Hd. left. lia.
  - right. split; [|done]. apply Z.lt_le_trans with (2 ^ d); [lia|]. apply Z.pow_le_mono_r; lia.
Qed.

Lemma f32_bits_fields (s : bool) (x y : Z) : 0 ≤ x < 2 ^ 8 → 0 ≤ y < 2 ^ 23 →
  let b := (if s then 2 ^ 31 else 0) + (x * 2 ^ 23 + y) in
  (2 ^ 31 <=? b) = s ∧ b / 2 ^ 23 mod 2 ^ 8 = x ∧ b mod 2 ^ 23 = y.
Proof.
  intros Hx Hy b.
  assert (b / 2 ^ 23 = (if s then 2 ^ 8 else 0) + x) as Hq by (symmetry; apply Z.div_unique with y; destruct s; lia).
  assert (b mod 2 ^ 23 = y) as Hr by (symmetry; apply Z.mod_unique with ((if s then 2 ^ 8 else 0) + x); destruct s; lia).
  split_and!; [|rewrite Hq|done].
  - subst b. destruct s; [apply Z.leb_le|apply Z.leb_gt]; lia.
  - symmetry. apply Z.mod_unique with (if s then 1 else 0); destruct s; lia.
Qed.

Lemma f32_from_to_bits x : f32_ok x → f32_from_bits (f32_to_bits x) = x.
Proof.
  intros Hok. destruct x as [[]|[]| |s m e]; [done..|].
  destruct (f32_finite_cases _ _ _ Hok) as [[Hm He]|[Hm ->]]; cbn [f32_to_bits].
  - rewrite (proj2 (Z.ltb_ge _ _)) by lia.
    destruct (f32_bits_fields s (e + 150) (Z.pos m - 2 ^ 23)) as (H1 & H2 & H3); [lia..|].
    unfold f32_from_bits. rewrite H1, H2, H3, (proj2 (Z.eqb_neq _ _)), (proj2 (Z.eqb_neq _ 0)) by lia.
    replace (Z.pos m - 2 ^ 23 + 2 ^ 23) with (Z.pos m) by lia. f_equal. lia.
  - rewrite (proj2 (Z.ltb_lt _ _)) by done.
    destruct (f32_bits_fields s 0 (Z.pos m)) as (H1 & H2 & H3); [lia..|].
    rewrite Z.mul_0_l, Z.add_0_l in *. unfold f32_from_bits. by rewrite H1, H2, H3.
Qed.

Lemma f32_to_bits_inj x y : f32_ok x → f32_ok y → f32_to_bits x = f32_to_bits y → x = y.
Proof. intros Hx Hy H. rewrite <- (f32_from_to_bits x), <- (f32_from_to_bits y) by done. by f_equal. Qed.

(** ** Names *)

Lemma op_from_str_spec s op : op_from_str s = Ok op ↔ s = lit (op_as_str op).
Proof.
  split; [|intros ->; by destruct op].
  unfold op_from_str. repeat (case_decide; [by intros [= <-]|]). done.
Qed.

Lemma op_as_str_inj : Inj (=) (=) (λ op, lit (op_as_str op)).
Proof. intros a b H. assert (op_from_str (lit (op_as_str a)) = Ok b) as E by by apply op_from_str_spec.
  rewrite (proj2 (op_from_str_spec _ a) eq_refl) in E. by injection E. Qed.

(** ** From an op and back *)

(** The op a descriptor of [facts] must come from. *)
Definition facts_op_id (facts : StaticFacts.t) : OpId.t :=
  match facts with
  | StaticFacts.Matmul _ => OpId.Matmul
  | StaticFacts.MoeRoute _ => OpId.MoeRoute
  | StaticFacts.MoeFfn _ => OpId.MoeFfn
  | StaticFacts.Attention _ => OpId.Attention
  | StaticFacts.StateWriteKv _ => OpId.StateWriteKv
  | StaticFacts.CausalConv1d _ => OpId.CausalConv1d
  | StaticFacts.LinearAttnScan _ => OpId.LinearAttnScan
  | StaticFacts.Elementwise _ _ params => ElementwiseFacts.op_id params
  | StaticFacts.Sampling f => SamplingFacts.op_id f
  | StaticFacts.Collectives f => CollectiveFacts.op_id f
  end.

Definition dim_admits (d : Dim.t) (extent : Z) : Prop :=
  0 < extent ∧ match d with Dim.Concrete c => extent = c | Dim.Symbolic _ => True end.

(** What facts of the right op must agree with it on. *)
Definition facts_agree (op : Op.t) (facts : StaticFacts.t) : Prop :=
  match op, facts with
  | Op.Matmul o, StaticFacts.Matmul f => is_Some (mmf_residual_dtype f) ↔ mm_epilogue o = Epilogue.Residual
  | Op.NgramGather o, StaticFacts.Elementwise _ _ (ElementwiseFacts.NgramGather _ _ _ _ _ _ _ scales_dtype) =>
      is_Some scales_dtype ↔ ng_source o = NgramSource.Staged
  | Op.Recv o, StaticFacts.Collectives (CollectiveFacts.Recv _ _ _ _ shape) =>
      Forall2 dim_admits (rv_shape o) shape ∧ foldr Z.mul 1 shape ≤ U64_MAX
  | _, _ => True
  end.

(** The extents of a shape are unsigned. *)
Definition facts_typed (facts : StaticFacts.t) : Prop :=
  match facts with
  | StaticFacts.Collectives (CollectiveFacts.Recv _ _ _ _ shape) => Forall is_u32 shape
  | _ => True
  end.

Lemma foldr_mul_pos l : Forall (λ x, 0 < x) l → 0 < foldr Z.mul 1 l.
Proof. induction 1; simpl; lia. Qed.

Lemma recv_extents_spec dims axis shape elements : Forall is_u32 shape → 0 < elements ≤ U64_MAX →
  length shape = length (drop axis dims) →
  match recv_extents dims axis shape elements with
  | Ok _ => Forall2 dim_admits (drop axis dims) shape ∧ elements * foldr Z.mul 1 shape ≤ U64_MAX
  | Err e => (∃ what, e = facts_mismatch OpId.Recv what) ∧
      ¬ (Forall2 dim_admits (drop axis dims) shape ∧ elements * foldr Z.mul 1 shape ≤ U64_MAX)
  | Panic => False
  end.
Proof.
  intros Hu. revert axis elements. induction Hu as [|x shape Hx Hu IH]; intros axis elements He Hlen.
  { destruct (drop axis dims); [|done]. simpl. split; [constructor|lia]. }
  destruct (drop axis dims) as [|d ds] eqn:Hdrop; [done|].
  assert (dims !! axis = Some d) as Hd by by rewrite <- (Nat.add_0_r axis), <- lookup_drop, Hdrop.
  assert (drop (S axis) dims = ds) as Hds by by rewrite <- Nat.add_1_r, <- drop_drop, Hdrop.
  unfold is_u32 in Hx. cbn [recv_extents]. destruct (Z.eqb_spec x 0) as [->|Hx0].
  { split; [by eexists|]. intros [HF _]. inversion HF as [|???? [? _]]. lia. }
  rewrite Hd. cbn [or_panic obind].
  assert (dim_admits d x ↔ match d with Dim.Concrete c => negb (x =? c) | Dim.Symbolic _ => false end = false) as Hadm.
  { unfold dim_admits. destruct d as [c|]; [destruct (Z.eqb_spec x c); simpl|]; intuition lia. }
  destruct (match d with Dim.Concrete _ => _ | _ => _ end).
  { split; [by eexists|]. intros [HF _]. inversion HF as [|???? Ha]. by apply Hadm in Ha. }
  specialize (IH (S axis)). rewrite Hds in IH.
  unfold checked_mul. destruct (Z.leb_spec (elements * x) U64_MAX) as [Hm|Hm]; cbn [ok_or obind].
  - specialize (IH (elements * x) ltac:(nia) ltac:(simpl in Hlen; lia)).
    cbn [foldr]. rewrite Z.mul_assoc. destruct recv_extents as [[]|e|]; [|destruct IH as [? Hno]|done].
    + destruct IH. split; [|done]. constructor; tauto.
    + split; [done|]. intros [HF ?]. inversion HF. tauto.
  - split; [by eexists|]. intros [HF Hle]. inversion HF as [|???? _ HF']; subst.
    assert (0 < foldr Z.mul 1 shape).
    { apply foldr_mul_pos. clear -HF'. induction HF' as [|???? [? _]]; by constructor. }
    cbn [foldr] in Hle. nia.
Qed.

Lemma check_pair_iff s op : OpStatic.check_pair s op = Ok tt ↔ op = OpStatic.op_id s.
Proof. unfold OpStatic.check_pair. case_decide; naive_solver. Qed.

Lemma eqb_is_Some_iff {A} (o : option A) (b : bool) (P : Prop) :
  (b = true ↔ P) → negb (Bool.eqb (bool_decide (is_Some o)) b) = false ↔ (is_Some o ↔ P).
Proof. intros Hb. case_bool_decide; destruct b; simpl; naive_solver. Qed.

(** What [from_op] promises of a result. *)
Definition derived_for (op : Op.t) (facts : StaticFacts.t) (r : RegResult OpStatic.t) : Prop :=
  match r with
  | Ok s => (facts_op_id facts = op_id_from_op op ∧ facts_agree op facts) ∧ OpStatic.op_id s = op_id_from_op op
  | Err e => ¬ (facts_op_id facts = op_id_from_op op ∧ facts_agree op facts) ∧
      ∃ what, e = FactsOpMismatch (op_id_from_op op) what
  | Panic => False
  end.

Lemma matmul_from_op_derived o f : derived_for (Op.Matmul o) (StaticFacts.Matmul f) (matmul_from_op o f).
Proof.
  unfold matmul_from_op.
  pose proof (eqb_is_Some_iff (mmf_residual_dtype f)
    (match mm_epilogue o with Epilogue.Residual => true | _ => false end) (mm_epilogue o = Epilogue.Residual)
    ltac:(by destruct (mm_epilogue o))) as H.
  destruct (negb _); cbn; [split; [|by eexists]|]; naive_solver.
Qed.

Lemma ngram_from_op_derived o t fw dn td ts tl sd ss sl sc :
  derived_for (Op.NgramGather o) (StaticFacts.Elementwise t fw (ElementwiseFacts.NgramGather dn td ts tl sd ss sl sc))
    (ngram_gather_from_op o t fw dn td ts tl sd ss sl sc).
Proof.
  unfold ngram_gather_from_op.
  pose proof (eqb_is_Some_iff sc
    (match ng_source o with NgramSource.Staged => true | NgramSource.Device => false end)
    (ng_source o = NgramSource.Staged) ltac:(by destruct (ng_source o))) as H.
  destruct (negb _); cbn; [split; [|by eexists]|]; naive_solver.
Qed.

Lemma recv_from_op_derived o rank world tr bb shape : Forall is_u32 shape →
  derived_for (Op.Recv o) (StaticFacts.Collectives (CollectiveFacts.Recv rank world tr bb shape))
    (recv_from_op o rank world tr bb shape).
Proof.
  intros Hu. unfold recv_from_op. destruct (Nat.eqb_spec (length shape) (length (rv_shape o))) as [Hlen|Hlen]; cbn [negb].
  - pose proof (recv_extents_spec (rv_shape o) 0 shape 1 Hu ltac:(by vm_compute) Hlen) as H.
    rewrite Z.mul_1_l in H. destruct recv_extents as [[]|e|]; cbn; [done| |done].
    destruct H as [[what ->] H]. split; [tauto|by eexists].
  - cbn. split; [|by eexists]. intros (_ & HF & _). apply Hlen. symmetry. by eapply Forall2_length.
Qed.

Lemma from_op_cases op facts : facts_typed facts → derived_for op facts (from_op op facts).
Proof.
  intros Ht.
  destruct op, facts as [f|f|f|f|f|f|f|t_bucket fused_with f|f|f]; try destruct f;
    try solve [simpl; split; [by intros [? _]|by eexists] | by repeat split
              | by apply matmul_from_op_derived | by apply ngram_from_op_derived | by apply recv_from_op_derived].
Qed.

(** C34: deriving a descriptor never panics; it succeeds exactly when the facts
    are facts of that op and agree with it, and then the descriptor pairs with
    the op; a refusal names the op. *)
Theorem from_op_spec op facts : facts_typed facts →
  match from_op op facts with
  | Ok s => (facts_op_id facts = op_id_from_op op ∧ facts_agree op facts) ∧
      OpStatic.op_id s = op_id_from_op op ∧ ∀ id, OpStatic.check_pair s id = Ok tt ↔ id = op_id_from_op op
  | Err e => ¬ (facts_op_id facts = op_id_from_op op ∧ facts_agree op facts) ∧
      ∃ what, e = FactsOpMismatch (op_id_from_op op) what
  | Panic => False
  end.
Proof.
  intros Ht. pose proof (from_op_cases op facts Ht) as H. destruct (from_op op facts) as [s|e|]; [|done|done].
  destruct H as [Hfacts Hid]. split; [exact Hfacts|]. split; [exact Hid|]. intros id. by rewrite check_pair_iff, Hid.
Qed.

(** ** Nothing is lost *)

(** A descriptor does not know which layer's state an op works on, and knows
    the extents of a received tensor instead of its symbols. *)
Definition any_handle : StateHandle := {| h_layer := 0; h_kind := StateKind.KvPaged |}.

Definition specialised (op : Op.t) (facts : StaticFacts.t) : Op.t :=
  match op, facts with
  | Op.StateWriteKv o, _ => Op.StateWriteKv
      {| sw_cache_dtype := sw_cache_dtype o; sw_scale_granularity := sw_scale_granularity o;
         sw_latent := sw_latent o; sw_handle := any_handle |}
  | Op.Attention o, _ => Op.Attention
      {| at_softmax_scale := at_softmax_scale o; at_mask := at_mask o; at_sinks := at_sinks o;
         at_logit_softcap := at_logit_softcap o; at_mla := at_mla o; at_out_dtype := at_out_dtype o;
         at_handle := any_handle |}
  | Op.CausalConv1d o, _ => Op.CausalConv1d
      {| cc_kernel := cc_kernel o; cc_act := cc_act o; cc_handle := any_handle |}
  | Op.LinearAttnScan o, _ => Op.LinearAttnScan
      {| la_kind := la_kind o; la_chunk := la_chunk o; la_out_dtype := la_out_dtype o; la_handle := any_handle |}
  | Op.Recv o, StaticFacts.Collectives (CollectiveFacts.Recv _ _ _ _ shape) => Op.Recv
      {| rv_group := rv_group o; rv_peer := rv_peer o; rv_shape := map Dim.Concrete shape; rv_dtype := rv_dtype o |}
  | _, _ => op
  end.

(** Reading a descriptor back. *)
Definition of_elementwise (s : ElementwiseParams.t) : Op.t * ElementwiseFacts.t :=
  match s with
  | ElementwiseParams.EmbedGather p =>
      (Op.EmbedGather {| eg_scale := f32_from_bits (egs_scale_bits p); eg_out_dtype := egs_out_dtype p |},
       ElementwiseFacts.EmbedGather (egs_table_placement p) (egs_table_dtype p) (egs_table_scheme p)
         (egs_table_layout p) (egs_vocab_size p) (egs_dim p))
  | ElementwiseParams.NgramGather p =>
      (Op.NgramGather {| ng_source := ngs_source p; ng_orders := ngs_orders p; ng_heads := ngs_heads p;
         ng_hash := ngs_hash p; ng_table_sizes := ngs_table_sizes p; ng_combine := ngs_combine p;
         ng_out_dtype := ngs_out_dtype p |},
       ElementwiseFacts.NgramGather (ngs_dn p) (ngs_table_dtype p) (ngs_table_scheme p) (ngs_table_layout p)
         (ngs_staging_dtype p) (ngs_staging_scheme p) (ngs_staging_layout p) (ngs_scales_dtype p))
  | ElementwiseParams.QuantAct p =>
      (Op.QuantAct {| qa_scheme := qas_scheme p; qa_target := qas_target p; qa_smoothing := qas_smoothing p |},
       ElementwiseFacts.QuantAct (qas_in_dtype p) (qas_n p))
  | ElementwiseParams.Cast p =>
      (Op.Cast {| ca_dtype := cas_out_dtype p |}, ElementwiseFacts.Cast (cas_in_dtype p) (cas_n p))
  | ElementwiseParams.Copy p =>
      (Op.Copy {| co_kind := cos_kind p |}, ElementwiseFacts.Copy (cos_dtype p) (cos_n p))
  | ElementwiseParams.GatherRows p =>
      (Op.GatherRows, ElementwiseFacts.GatherRows (grs_dtype p) (grs_index_dtype p) (grs_width p))
  | ElementwiseParams.ScatterAddRows p =>
      (Op.ScatterAddRows,
       ElementwiseFacts.ScatterAddRows (sas_dtype p) (sas_index_dtype p) (sas_width p) (sas_has_dest p))
  | ElementwiseParams.Split p =>
      (Op.Split {| sl_first := sls_first p |}, ElementwiseFacts.Split (sls_total p) (sls_dtype p))
  | ElementwiseParams.Concat p =>
      (Op.Concat, ElementwiseFacts.Concat (cts_c0 p) (cts_c1 p) (cts_a_dtype p) (cts_b_dtype p) (cts_out_dtype p))
  | ElementwiseParams.Norm p =>
      (Op.Norm {| nm_kind := nms_kind p; nm_eps := f32_from_bits (nms_eps_bits p); nm_axis := nms_axis p;
         nm_weight_offset := f32_from_bits (nms_weight_offset_bits p); nm_out_dtype := nms_out_dtype p |},
       ElementwiseFacts.Norm (nms_in_dtype p) (nms_n p) (nms_has_bias p))
  | ElementwiseParams.ResidualAdd p =>
      (Op.ResidualAdd {| ra_out_dtype := ras_out_dtype p; ra_scale := f32_from_bits (ras_scale_bits p) |},
       ElementwiseFacts.ResidualAdd (ras_a_dtype p) (ras_b_dtype p) (ras_n p))
  | ElementwiseParams.ActMul p =>
      (Op.ActMul {| am_act := ams_act p; am_clamp := f32_from_bits <$> ams_clamp_bits p |},
       ElementwiseFacts.ActMul (ams_dtype p) (ams_width p))
  | ElementwiseParams.Activation p =>
      (Op.Activation {| ac_act := acs_act p; ac_clamp := f32_from_bits <$> acs_clamp_bits p |},
       ElementwiseFacts.Activation (acs_dtype p) (acs_width p))
  | ElementwiseParams.LogitSoftcap p =>
      (Op.LogitSoftcap {| lc_cap := f32_from_bits (lcs_cap_bits p) |}, ElementwiseFacts.LogitSoftcap (lcs_v p))
  | ElementwiseParams.Rope p =>
      (Op.Rope {| ro_rot_dim := ros_rot_dim p; ro_theta := f32_from_bits (ros_theta_bits p);
         ro_style := ros_style p; ro_scaling := RopeScalingStatic.to_ir (ros_scaling p);
         ro_mrope_sections := ros_mrope_sections p; ro_out_dtype := ros_out_dtype p |},
       ElementwiseFacts.Rope (ros_in_dtype p) (ros_h p) (ros_d p))
  end.

Definition of_sampling (s : SamplingStatic.t) : Op.t * SamplingFacts.t :=
  match s with
  | SamplingStatic.LogitsPostprocess p =>
      (Op.LogitsPostprocess, SamplingFacts.LogitsPostprocess (lps_s_bucket p) (lps_v p) (lps_q_bucket p)
         (lps_has_history_counts p) (lps_has_grammar_mask p))
  | SamplingStatic.Sample p => (Op.Sample {| sa_rng := sms_rng p |}, SamplingFacts.Sample (sms_s_bucket p) (sms_v p))
  | SamplingStatic.Verify p =>
      (Op.Verify {| ve_method := VerifyMethodStatic.to_ir (ves_method p) |},
       SamplingFacts.Verify (ves_s_bucket p) (ves_v p) (ves_q_bucket p) (ves_tree p) (ves_has_draft_probs p))
  end.

Definition of_collectives (s : CollectivesStatic.t) : Op.t * CollectiveFacts.t :=
  match s with
  | CollectivesStatic.AllReduce p =>
      (Op.AllReduce {| ar_group := ars_group p; ar_op := ars_reduction_op p; ar_dtype := ars_dtype p;
         ar_reduce_in := ars_reduce_in p |},
       CollectiveFacts.AllReduce (ars_rank p) (ars_world p) (ars_transport p) (ars_bytes_bucket p))
  | CollectivesStatic.AllGather p =>
      (Op.AllGather {| ag_group := ags_group p; ag_axis := ags_axis p; ag_dtype := ags_dtype p |},
       CollectiveFacts.AllGather (ags_rank p) (ags_world p) (ags_transport p) (ags_bytes_bucket p))
  | CollectivesStatic.ReduceScatter p =>
      (Op.ReduceScatter {| rs_group := rss_group p; rs_axis := rss_axis p; rs_op := rss_reduction_op p;
         rs_dtype := rss_dtype p; rs_reduce_in := rss_reduce_in p |},
       CollectiveFacts.ReduceScatter (rss_rank p) (rss_world p) (rss_transport p) (rss_bytes_bucket p))
  | CollectivesStatic.AllToAll p =>
      (Op.AllToAll {| aa_group := aas_group p; aa_dtype := aas_dtype p |},
       CollectiveFacts.AllToAll (aas_rank p) (aas_world p) (aas_transport p) (aas_bytes_bucket p))
  | CollectivesStatic.Send p =>
      (Op.Send {| sd_group := sds_group p; sd_peer := sds_peer p; sd_dtype := sds_dtype p |},
       CollectiveFacts.Send (sds_rank p) (sds_world p) (sds_transport p) (sds_bytes_bucket p))
  | CollectivesStatic.Recv p =>
      (Op.Recv {| rv_group := rcs_group p; rv_peer := rcs_peer p; rv_shape := map Dim.Concrete (rcs_shape p);
         rv_dtype := rcs_dtype p |},
       CollectiveFacts.Recv (rcs_rank p) (rcs_world p) (rcs_transport p) (rcs_bytes_bucket p) (rcs_shape p))
  | CollectivesStatic.Barrier p =>
      (Op.Barrier {| ba_group := bas_group p |},
       CollectiveFacts.Barrier (bas_rank p) (bas_world p) (bas_transport p))
  end.

Definition of_static (s : OpStatic.t) : Op.t * StaticFacts.t :=
  match s with
  | OpStatic.Matmul p =>
      (Op.Matmul {| mm_out_dtype := mms_out_dtype p; mm_epilogue := mms_epilogue p; mm_transpose_w := mms_transpose_w p |},
       StaticFacts.Matmul {| mmf_m_bucket := mms_m_bucket p; mmf_n := mms_n p; mmf_k := mms_k p;
         mmf_w_dtype := mms_w_dtype p; mmf_w_scheme := mms_w_scheme p; mmf_w_layout := mms_w_layout p;
         mmf_in_dtype := mms_in_dtype p; mmf_act_scheme := mms_act_scheme p;
         mmf_residual_dtype := mms_residual_dtype p; mmf_interleave := mms_interleave p; mmf_sparse := mms_sparse p |})
  | OpStatic.MoeRoute p =>
      (Op.MoeRoute {| mr_top_k := mrs_top_k p; mr_scoring := mrs_scoring p; mr_renormalize := mrs_renormalize p;
         mr_group := mrs_group p; mr_scale := f32_from_bits (mrs_scale_bits p) |},
       StaticFacts.MoeRoute {| mrf_t_bucket := mrs_t_bucket p; mrf_e_total := mrs_e_total p;
         mrf_has_bias := mrs_has_bias p |})
  | OpStatic.MoeFfn p =>
      (Op.MoeFfn {| mf_act := mfs_act p; mf_out_dtype := mfs_out_dtype p; mf_shared_experts := mfs_shared_experts p |},
       StaticFacts.MoeFfn {| mff_t_bucket := mfs_t_bucket p; mff_e_local := mfs_e_local p;
         mff_k_topk := mfs_k_topk p; mff_dm := mfs_dm p; mff_dff := mfs_dff p; mff_gate_up := mfs_gate_up p;
         mff_down := mfs_down p; mff_in_dtype := mfs_in_dtype p; mff_act_scheme := mfs_act_scheme p;
         mff_placement_kind := mfs_placement_kind p |})
  | OpStatic.Attention p =>
      (Op.Attention {| at_softmax_scale := f32_from_bits (ats_softmax_scale_bits p); at_mask := ats_mask_kind p;
         at_sinks := ats_sinks p; at_logit_softcap := f32_from_bits <$> ats_softcap_bits p;
         at_mla := mla_attention_to_ir <$> ats_mla p; at_out_dtype := ats_out_dtype p; at_handle := any_handle |},
       StaticFacts.Attention {| atf_q_bucket := ats_q_bucket p; atf_h_local := ats_h_local p;
         atf_hkv_local := ats_hkv_local p; atf_d := ats_d p; atf_dv := ats_dv p; atf_q_dtype := ats_q_dtype p;
         atf_cache_dtype := ats_cache_dtype p; atf_attention_layout := ats_attention_layout p |})
  | OpStatic.StateWriteKv p =>
      (Op.StateWriteKv {| sw_cache_dtype := sws_cache_dtype p; sw_scale_granularity := sws_scale_granularity p;
         sw_latent := mla_latent_to_ir <$> sws_latent p; sw_handle := any_handle |},
       StaticFacts.StateWriteKv {| swf_hkv_local := sws_hkv_local p; swf_d := sws_d p; swf_dv := sws_dv p;
         swf_in_dtype := sws_in_dtype p; swf_attention_layout := sws_attention_layout p |})
  | OpStatic.CausalConv1d p =>
      (Op.CausalConv1d {| cc_kernel := ccs_kernel p; cc_act := ccs_act p; cc_handle := any_handle |},
       StaticFacts.CausalConv1d {| ccf_t_bucket := ccs_t_bucket p; ccf_channels := ccs_channels p;
         ccf_x_dtype := ccs_x_dtype p; ccf_w_dtype := ccs_w_dtype p; ccf_w_scheme := ccs_w_scheme p;
         ccf_w_layout := ccs_w_layout p; ccf_out_dtype := ccs_out_dtype p; ccf_bias_dtype := ccs_bias_dtype p |})
  | OpStatic.LinearAttnScan p =>
      (Op.LinearAttnScan {| la_kind := lss_kind p; la_chunk := lss_chunk p; la_out_dtype := lss_out_dtype p;
         la_handle := any_handle |},
       StaticFacts.LinearAttnScan {| laf_h_local := lss_h_local p; laf_d := lss_d p; laf_dv := lss_dv p;
         laf_in_dtype := lss_in_dtype p; laf_mode := lss_mode p |})
  | OpStatic.Elementwise p =>
      let '(op, f) := of_elementwise (els_op_params p) in
      (op, StaticFacts.Elementwise (els_t_bucket p) (els_fused_with p) f)
  | OpStatic.Sampling p => let '(op, f) := of_sampling p in (op, StaticFacts.Sampling f)
  | OpStatic.Collectives p => let '(op, f) := of_collectives p in (op, StaticFacts.Collectives f)
  end.

(** The float attributes of an op. *)
Definition floats_of (op : Op.t) : list f32 :=
  match op with
  | Op.EmbedGather o => [eg_scale o]
  | Op.Norm o => [nm_eps o; nm_weight_offset o]
  | Op.ResidualAdd o => [ra_scale o]
  | Op.ActMul o => option_list (am_clamp o)
  | Op.Activation o => option_list (ac_clamp o)
  | Op.LogitSoftcap o => [lc_cap o]
  | Op.Rope o => ro_theta o ::
      match ro_scaling o with
      | RopeScaling.Linear factor => [factor]
      | RopeScaling.Yarn factor beta_fast beta_slow _ mscale => [factor; beta_fast; beta_slow; mscale]
      | _ => []
      end
  | Op.MoeRoute o => [mr_scale o]
  | Op.Attention o => at_softmax_scale o :: option_list (at_logit_softcap o)
  | Op.Verify o => match ve_method o with VerifyMethod.TypicalAcceptance eps delta => [eps; delta] | _ => [] end
  | _ => []
  end.

Ltac float_back := repeat match goal with
  | H : Forall _ (_ :: _) |- _ => apply Forall_cons in H as [? H]
  | H : f32_ok ?x |- _ => rewrite (f32_from_to_bits x H); clear H
  end.

Lemma from_op_if {A E} (b : bool) (e : E) (x y : A) : (if b then Err e else Ok x) = Ok y → x = y.
Proof. destruct b; [done|]. by intros [= ->]. Qed.

Lemma of_static_from_op op facts s : Forall f32_ok (floats_of op) → from_op op facts = Ok s →
  of_static s = (specialised op facts, facts).
Proof.
  intros Hf H.
  destruct op as [o|o|o|o|o| | |o| |o|o|o|o|o|o|o|o|o|o|o|o|o| |o|o|o|o|o|o|o|o|o],
    facts as [f|f|f|f|f|f|f|t_bucket fused_with f|f|f]; try discriminate H;
    try (destruct f; try discriminate H); try destruct o; cbn in H, Hf.
  all: try (first [injection H as <- | apply from_op_if in H as <-
                 | revert H; unfold recv_from_op; case_match; [done|]; destruct recv_extents; [|done..];
                   intros [= <-] ]; cbn; float_back).
  all: repeat match goal with x : option ?T |- _ => destruct x end; cbn in Hf |- *; float_back.
  all: try match goal with x : RopeScaling.t |- _ => destruct x | x : VerifyMethod.t |- _ => destruct x end;
    cbn in Hf |- *; float_back.
  all: repeat match goal with x : MlaAttentionSpec |- _ => destruct x | x : MlaLatent |- _ => destruct x end.
  all: reflexivity.
Qed.

Lemma recv_concrete shape : Forall is_u32 shape → Forall (λ x, 0 < x) shape → foldr Z.mul 1 shape ≤ U64_MAX →
  recv_extents (map Dim.Concrete shape) 0 shape 1 = Ok tt.
Proof.
  intros Hu Hpos Hle.
  pose proof (recv_extents_spec (map Dim.Concrete shape) 0 shape 1 Hu ltac:(by vm_compute)
    ltac:(by rewrite drop_0, length_map)) as H.
  rewrite drop_0, Z.mul_1_l in H. destruct recv_extents as [[]|e|]; [done| |done].
  destruct H as [_ []]. split; [|done]. clear -Hpos. induction Hpos; simpl; by constructor.
Qed.

Lemma from_op_specialised op facts s : facts_typed facts → from_op op facts = Ok s →
  from_op (specialised op facts) facts = Ok s.
Proof.
  intros Ht H. pose proof (from_op_cases op facts Ht) as Hc. rewrite H in Hc. destruct Hc as [[_ Ha] _].
  destruct op as [o|o|o|o|o| | |o| |o|o|o|o|o|o|o|o|o|o|o|o|o| |o|o|o|o|o|o|o|o|o]; try done.
  all: destruct facts as [f|f|f|f|f|f|f|t_bucket fused_with f|f|f]; try discriminate H; try destruct f; try done.
  cbn in H, Ha, Ht |- *. destruct Ha as [HF Hle]. revert H. unfold recv_from_op. cbn.
  rewrite length_map, Nat.eqb_refl. case_match; [done|]. cbn.
  rewrite recv_concrete; [|done| |done].
  - by destruct recv_extents.
  - clear -HF. induction HF as [|???? [? _]]; by constructor.
Qed.

(** C35: a descriptor identifies what it was derived from: two ops with their facts
    have the same descriptor exactly when they have the same facts and are the
    same op, up to the layer whose state they use and to symbolic extents. *)
Theorem op_static_identifies op1 facts1 s1 op2 facts2 s2 :
  Forall f32_ok (floats_of op1) → Forall f32_ok (floats_of op2) → facts_typed facts1 →
  from_op op1 facts1 = Ok s1 → from_op op2 facts2 = Ok s2 →
  s1 = s2 ↔ facts1 = facts2 ∧ specialised op1 facts1 = specialised op2 facts2.
Proof.
  intros Hf1 Hf2 Ht H1 H2. split.
  - intros <-. apply of_static_from_op in H1, H2; [|done..]. rewrite H1 in H2. by injection H2.
  - intros [<- Heq]. apply from_op_specialised in H1, H2; [|done..]. rewrite Heq, H2 in H1. by injection H1.
Qed.

Definition demo_embed : Op.t := Op.EmbedGather {| eg_scale := f32_lit 1 10; eg_out_dtype := DType.F16 |}.
Definition demo_embed_facts : StaticFacts.t :=
  StaticFacts.Elementwise 8 None
    (ElementwiseFacts.EmbedGather PlacementKind.Device DType.F16 QuantScheme.None LayoutId.CONTIGUOUS 1000 64).
Definition demo_recv (symbolic : bool) : Op.t := Op.Recv
  {| rv_group := 3; rv_peer := 1; rv_dtype := DType.F16;
     rv_shape := [(if symbolic then Dim.Symbolic ShapeSymbol.T else Dim.Concrete 4); Dim.Concrete 64] |}.
Definition demo_recv_facts : StaticFacts.t :=
  StaticFacts.Collectives (CollectiveFacts.Recv 0 2 P2pTransport.Direct 512 [4; 64]).

Lemma from_op_spec_witness :
  facts_typed demo_recv_facts ∧
  (∃ s, from_op (demo_recv true) demo_recv_facts = Ok s ∧ OpStatic.op_id s = OpId.Recv ∧
     op_static_validate s = Ok tt) ∧
  from_op demo_embed demo_recv_facts = Err (FactsOpMismatch OpId.EmbedGather "facts variant does not match op").
Proof.
  assert (facts_typed demo_recv_facts) as Ht by (repeat constructor; by vm_compute).
  pose proof (from_op_spec (demo_recv true) demo_recv_facts Ht) as H.
  split_and!; [done| |done].
  destruct (from_op (demo_recv true) demo_recv_facts) as [s|e|] eqn:E; [|by destruct H as [[]]|done].
  destruct H as (_ & H & _). exists s. split_and!; [done|done|]. injection E as <-. reflexivity.
Defined.

Lemma op_static_identifies_witness :
  ∃ s1 s2, from_op (demo_recv true) demo_recv_facts = Ok s1 ∧ from_op (demo_recv false) demo_recv_facts = Ok s2 ∧
    s1 = s2.
Proof.
  do 2 eexists. split_and!; [reflexivity..|].
  apply (op_static_identifies (demo_recv true) demo_recv_facts _ (demo_recv false) demo_recv_facts);
    [constructor|constructor|repeat constructor; by vm_compute|reflexivity|reflexivity|split; reflexivity].
Defined.
