(* ===== verification/Registry.v ===== *)
(** * The kernel registry

    [crates/r9v-registry/src]: bundle manifests ([manifest.rs]), tune files
    ([tune.rs]), variant keys and hashes ([variant.rs], [types.rs]) and the
    resolution of an op to a kernel variant ([resolution.rs]).

    A map keyed by strings is finite, and is walked in the order of its keys.
    Hash functions over serialized descriptors, the JIT provider, the file
    system and the device's module loader are parameters. *)

From S2P Require Import Prelude Bytes SchedError Capture RegStatic.

#[global] Open Scope Z_scope.

(** ** Strings *)

(** The scalar values of the White_Space property, by their UTF-8 bytes. *)
Fixpoint is_blank (s : list Z) : bool :=
  match s with
  | [] => true
  | b0 :: s0 =>
      if between 9 13 b0 || (b0 =? 32) then is_blank s0
      else match s0 with
           | [] => false
           | b1 :: s1 =>
               if (b0 =? 194) && ((b1 =? 133) || (b1 =? 160)) then is_blank s1
               else match s1 with
                    | [] => false
                    | b2 :: s2 =>
                        if (b0 =? 225) && (b1 =? 154) && (b2 =? 128)
                           || (b0 =? 226) && (b1 =? 128) &&
                              (between 128 138 b2 || (b2 =? 168) || (b2 =? 169) || (b2 =? 175))
                           || (b0 =? 226) && (b1 =? 129) && (b2 =? 159)
                           || (b0 =? 227) && (b1 =? 128) && (b2 =? 128)
                        then is_blank s2 else false
                    end
           end
  end.

(** [str::contains] of a string. *)
Fixpoint contains_str (needle s : list Z) : bool :=
  starts_with needle s || match s with [] => false | _ :: s => contains_str needle s end.

(** [str::split_once] at a byte. *)
Fixpoint split_once (c : Z) (s : list Z) : option (list Z * list Z) :=
  match s with
  | [] => None
  | b :: s =>
      if b =? c then Some ([], s)
      else match split_once c s with Some (x, y) => Some (b :: x, y) | None => None end
  end.

(** [str::strip_prefix]. *)
Definition strip_prefix (prefix s : list Z) : option (list Z) :=
  if starts_with prefix s then Some (drop (length prefix) s) else None.

(** ** Paths

    A Unix path by its bytes: [components] splits at the slashes and drops the
    empty pieces and the dots that do not lead. *)
Definition SLASH : Z := 47.

Inductive PathComponent : Type := RootDir | CurDir | ParentDir | Normal (name : list Z).

#[global] Instance PathComponent_eq_dec : EqDecision PathComponent.
Proof. solve_decision. Defined.

Fixpoint pieces (s : list Z) (current : list Z) : list (list Z) :=
  match s with
  | [] => [current]
  | b :: s => if b =? SLASH then current :: pieces s [] else pieces s (current ++ [b])
  end.

Definition path_is_absolute (p : list Z) : bool := starts_with [SLASH] p.

Definition piece_component (leading : bool) (piece : list Z) : option PathComponent :=
  if decide (piece = []) then None
  else if decide (piece = lit ".") then if leading then Some CurDir else None
  else if decide (piece = lit "..") then Some ParentDir
  else Some (Normal piece).

Definition path_components (p : list Z) : list PathComponent :=
  match pieces p [] with
  | [] => []
  | first :: rest =>
      (if path_is_absolute p then [RootDir] else option_list (piece_component true first)) ++
      omap (piece_component false) rest
  end.

(** [Path::join]: a relative path goes under the base. *)
Definition path_join (base rel : list Z) : list Z :=
  if path_is_absolute rel then rel
  else if decide (base = []) then rel
  else if bool_decide (last base = Some SLASH) then base ++ rel
  else base ++ SLASH :: rel.

(** [Path::starts_with] compares whole components. *)
Fixpoint components_prefix (base p : list PathComponent) : bool :=
  match base, p with
  | [], _ => true
  | c :: base, d :: p => bool_decide (c = d) && components_prefix base p
  | _ :: _, [] => false
  end.
Definition path_starts_with (p base : list Z) : bool :=
  components_prefix (path_components base) (path_components p).

(** The two tests every code object path goes through. *)
Definition path_is_rooted (s : list Z) : bool :=
  path_is_absolute s || starts_with [SLASH] s || starts_with [92] s.
Definition path_climbs (s : list Z) : bool :=
  existsb (λ c, bool_decide (c = ParentDir)) (path_components s) || contains_str (lit "..") s.

(** ** Variant hashes *)

Definition hex_digit (d : Z) : Z := if d <? 10 then 48 + d else 87 + d.

(** [format!("{:0n$x}", x)] of an [x] of at most [n] digits. *)
Fixpoint hex_digits (n : nat) (x : Z) : list Z :=
  match n with
  | O => []
  | S n => hex_digits n (x / 16) ++ [hex_digit (x mod 16)]
  end.

(** [VariantHash::to_hex]. *)
Definition to_hex (hash : Z) : list Z := hex_digits 16 hash.

(** [char::to_digit(16)]. *)
Definition to_digit (b : Z) : option Z :=
  if between 48 57 b then Some (b - 48)
  else if between 97 102 b then Some (b - 87)
  else if between 65 70 b then Some (b - 55)
  else None.

Inductive ParseIntError : Type := EmptyInt | InvalidDigit | PosOverflow.

Fixpoint parse_digits (s : list Z) (acc : Z) : outcome ParseIntError Z :=
  match s with
  | [] => Ok acc
  | b :: s =>
      let* digit := ok_or (to_digit b) InvalidDigit in
      let* acc := ok_or (checked_mul U64_MAX acc 16) PosOverflow in
      let* acc := ok_or (checked_add U64_MAX acc digit) PosOverflow in
      parse_digits s acc
  end.

(** [u64::from_str_radix(s, 16)]: a leading plus is skipped, unless alone. *)
Definition from_str_radix_16 (s : list Z) : outcome ParseIntError Z :=
  match s with
  | [] => Err EmptyInt
  | [b] => parse_digits [b] 0
  | b :: rest => if b =? 43 then parse_digits rest 0 else parse_digits s 0
  end.

(** [VariantHash::from_hex]. *)
Definition from_hex (s : list Z) : outcome ParseIntError Z :=
  from_str_radix_16 (default s (strip_prefix (lit "0x") s)).

Definition parse_int_text (e : ParseIntError) : Text :=
  match e with
  | EmptyInt => msg "cannot parse integer from empty string" []
  | InvalidDigit => msg "invalid digit found in string" []
  | PosOverflow => msg "number too large to fit in target type" []
  end.

(** ** Tile configurations *)

Record TileConfig : Type := {
  tc_block_m : Z; tc_block_n : Z; tc_block_k : Z; tc_waves_m : Z; tc_waves_n : Z; tc_waves_k : Z;
  tc_k_splits : Z; tc_lds_bytes : Z; tc_vgprs : Z
}.

Definition tile_config_new (block_m block_n block_k : Z) : TileConfig :=
  {| tc_block_m := block_m; tc_block_n := block_n; tc_block_k := block_k; tc_waves_m := 1; tc_waves_n := 1;
     tc_waves_k := 1; tc_k_splits := 1; tc_lds_bytes := 0; tc_vgprs := 0 |}.

Definition any_zero (d : Z * Z * Z) : bool := let '(x, y, z) := d in (x =? 0) || (y =? 0) || (z =? 0).

Definition triple (d : Z * Z * Z) : list Z := let '(x, y, z) := d in [x; y; z].

Definition tile_config_problems (c : TileConfig) (context : list Z) : list Text :=
  problem (any_zero (tc_block_m c, tc_block_n c, tc_block_k c))
    (msg "{context}: tile dimensions must be non-zero, got ({}, {}, {})"
       (Str context :: map Num [tc_block_m c; tc_block_n c; tc_block_k c])) ++
  problem (any_zero (tc_waves_m c, tc_waves_n c, tc_waves_k c))
    (msg "{context}: wave counts must be non-zero, got ({}, {}, {})"
       (Str context :: map Num [tc_waves_m c; tc_waves_n c; tc_waves_k c])) ++
  problem (tc_k_splits c =? 0) (msg "{context}: k_splits must be non-zero" [Str context]).

(** [VariantKey]. *)
Record VariantKey : Type := {
  vk_op : OpId.t; vk_arch : ArchName; vk_gen_version : Z; vk_static_params : OpStatic.t; vk_config : TileConfig
}.

(** ** Bundle manifests *)

Record ManifestVariantEntry : Type := {
  me_arch : ArchName;
  me_file : list Z;
  me_tier : Tier;
  me_entry_symbol : list Z;
  me_launch_geometry : LaunchGeometry;
  me_workspace_bytes : Z;
  me_static_bytes : Z;
  me_static_flops : Z;
  me_op : option OpId.t;
  me_static_hash : option Z;
  me_validated : bool;
  me_validated_on : option (list Z)
}.

Definition matches_request (e : ManifestVariantEntry) (requested : OpId.t) : bool :=
  match me_op e with Some entry_op => bool_decide (entry_op = requested) | None => true end.

Record BundleManifest : Type := {
  bm_gen_version : Z;
  bm_archs : list ArchName;
  bm_variants : gmap (list Z) ManifestVariantEntry
}.

Definition manifest_new (gen_version : Z) (archs : list ArchName) : BundleManifest :=
  {| bm_gen_version := gen_version; bm_archs := archs; bm_variants := ∅ |}.

(** A map in the order of its string keys. *)
Definition entry_le {A} (a b : list Z * A) : Prop := lex_le a.1 b.1 = true.
#[global] Instance entry_le_dec {A} : RelDecision (@entry_le A).
Proof. intros a b. unfold entry_le. apply _. Defined.
Definition sorted_entries {A} (m : gmap (list Z) A) : list (list Z * A) := merge_sort entry_le (map_to_list m).

(** The names of the architectures, each seen once. *)
Fixpoint arch_problems (seen : list ArchName) (archs : list ArchName) : list Text :=
  match archs with
  | [] => []
  | arch :: archs =>
      problem (is_blank arch) (msg "architecture name in manifest archs cannot be empty" []) ++
      problem (bool_decide (arch ∈ seen)) (msg "duplicate architecture '{arch}' in manifest archs" [Str arch]) ++
      arch_problems (arch :: seen) archs
  end.

Definition variant_hash_problems (hash_str : list Z) : list Text :=
  problem (negb (length hash_str =? 16)%nat)
    (msg "invalid variant hash '{hash_str}': length must be exactly 16 hex characters, got {}"
       [Str hash_str; Num (Z.of_nat (length hash_str))]) ++
  problem (negb (is_Ok (from_hex hash_str)))
    (msg "invalid variant hash '{hash_str}': must be valid hexadecimal string" [Str hash_str]).

Definition variant_file_problems (hash_str file : list Z) : list Text :=
  problem (path_is_rooted file)
    (msg "variant '{hash_str}': disallowed code object path '{}' is absolute; only relative paths are permitted"
       [Str hash_str; Str file]) ++
  problem (path_climbs file)
    (msg "variant '{hash_str}': disallowed code object path '{}' contains parent traversal ('..')"
       [Str hash_str; Str file]) ++
  problem (is_blank file) (msg "variant '{hash_str}': code object file path cannot be empty" [Str hash_str]).

Definition variant_arch_problems (archs : list ArchName) (hash_str : list Z) (e : ManifestVariantEntry) : list Text :=
  (if is_blank (me_arch e) then [msg "variant '{hash_str}': architecture name cannot be empty" [Str hash_str]]
   else problem (negb (bool_decide (me_arch e ∈ archs)))
          (msg "variant '{hash_str}': architecture '{}' is not listed in manifest archs: {:?}"
             [Str hash_str; Str (me_arch e); Strs archs])) ++
  match split_once SLASH (me_file e) with
  | Some (first_component, _) =>
      if starts_with (lit "gfx") first_component then
        problem (negb (bool_decide (first_component ∈ archs)))
          (msg "variant '{hash_str}': file path '{}' references architecture '{first_component}' not listed in manifest archs: {:?}"
             [Str hash_str; Str (me_file e); Str first_component; Strs archs]) ++
        problem (negb (bool_decide (me_arch e = [])) && negb (bool_decide (first_component = me_arch e)))
          (msg "variant '{hash_str}': file path '{}' architecture prefix '{first_component}' does not match entry architecture '{}'"
             [Str hash_str; Str (me_file e); Str first_component; Str (me_arch e)])
      else []
  | None => []
  end.

(** A geometry launches at least one thread. *)
Definition geometry_problems (what : string) (key : list Z) (g : LaunchGeometry) : list Text :=
  problem (any_zero (g_grid g))
    (msg (what +:+ ": launch geometry grid dimensions must be non-zero, got {:?}") [Str key; Nums (triple (g_grid g))]) ++
  problem (any_zero (g_block g))
    (msg (what +:+ ": launch geometry block dimensions must be non-zero, got {:?}") [Str key; Nums (triple (g_block g))]).

Definition variant_problems (archs : list ArchName) (entry : list Z * ManifestVariantEntry) : list Text :=
  let '(hash_str, e) := entry in
  variant_hash_problems hash_str ++ variant_file_problems hash_str (me_file e) ++
  variant_arch_problems archs hash_str e ++
  geometry_problems "variant '{hash_str}'" hash_str (me_launch_geometry e) ++
  problem (is_blank (me_entry_symbol e)) (msg "variant '{hash_str}': entry_symbol cannot be empty" [Str hash_str]).

(** [BundleManifest::validate]. *)
Definition manifest_validate (m : BundleManifest) : RegResult unit :=
  refuse_registry
    (problem (bool_decide (bm_archs m = [])) (msg "manifest archs list cannot be empty" []) ++
     arch_problems [] (bm_archs m) ++
     concat (map (variant_problems (bm_archs m)) (sorted_entries (bm_variants m)))).

Definition validate_version (m : BundleManifest) (expected : Z) (path : option (list Z)) : RegResult unit :=
  if negb (bm_gen_version m =? expected) then Err (GenVersionMismatch expected (bm_gen_version m) path) else Ok tt.

Definition manifest_supports (m : BundleManifest) (arch : ArchName) : bool := bool_decide (arch ∈ bm_archs m).
Definition get_variant (m : BundleManifest) (hash : Z) : option ManifestVariantEntry := bm_variants m !! to_hex hash.

Definition check_entry_for (e : ManifestVariantEntry) (requested : OpId.t) : RegResult unit :=
  match me_op e with
  | Some entry_op => if negb (bool_decide (entry_op = requested)) then Err (StaticOpMismatch requested entry_op) else Ok tt
  | None => Ok tt
  end.

Definition insert_variant (hash : Z) (e : ManifestVariantEntry) (m : BundleManifest) : BundleManifest :=
  {| bm_gen_version := bm_gen_version m; bm_archs := bm_archs m;
     bm_variants := <[to_hex hash := e]> (bm_variants m) |}.

(** ** Tune files *)

Record TuneMeasuredOn : Type := { mo_driver : list Z; mo_rocm : list Z; mo_clock_mhz : f32 }.

(** [median_us] is a binary64. *)
Record TuneEntry : Type := {
  te_config : TileConfig;
  te_median_us : spec_float;
  te_bytes : Z;
  te_flops : Z;
  te_launch_geometry : LaunchGeometry;
  te_workspace_bytes : Z;
  te_code_object : option (list Z);
  te_validated : bool;
  te_partial : bool;
  te_measured_on : option TuneMeasuredOn
}.

Record TuneFile : Type := {
  tf_arch : ArchName;
  tf_gen_version : Z;
  tf_driver_hash : option (list Z);
  tf_measured_on : option TuneMeasuredOn;
  tf_entries : gmap (list Z) TuneEntry
}.

Definition tune_file_new (arch : ArchName) (gen_version : Z) : TuneFile :=
  {| tf_arch := arch; tf_gen_version := gen_version; tf_driver_hash := None; tf_measured_on := None;
     tf_entries := ∅ |}.

(** [!x.is_finite() || x <= 0.0]. *)
Definition not_positive (x : spec_float) : bool := negb (is_finite x) || SFleb x f32_zero.

Definition tune_key_problems (key : list Z) : list Text :=
  match split_once 46 key with
  | Some (op_str, hash_str) =>
      problem (negb (bool_decide (is_Some (parse_op op_str))))
        (msg "malformed tune entry key '{key}': unknown op '{op_str}'" [Str key; Str op_str]) ++
      problem (negb (length hash_str =? 16)%nat || negb (is_Ok (from_str_radix_16 hash_str)))
        (msg "malformed tune entry key '{key}': static hash must be exactly 16 hex characters" [Str key])
  | None => [msg "malformed tune entry key '{key}': expected format '<op>.<static_hash_hex>'" [Str key]]
  end.

Definition tune_code_problems (key co : list Z) : list Text :=
  problem (path_is_rooted co)
    (msg "tune entry '{key}': disallowed code object path '{co}' is absolute; only relative paths are permitted"
       [Str key; Str co]) ++
  problem (path_climbs co)
    (msg "tune entry '{key}': disallowed code object path '{co}' contains parent traversal ('..')"
       [Str key; Str co]) ++
  problem (is_blank co) (msg "tune entry '{key}': code object path cannot be empty" [Str key]).

Definition tune_entry_problems (entry : list Z * TuneEntry) : list Text :=
  let '(key, e) := entry in
  tune_key_problems key ++
  match te_code_object e with Some co => tune_code_problems key co | None => [] end ++
  problem (not_positive (te_median_us e))
    (msg "tune entry '{key}': median_us must be finite and positive, got {}" [Str key; Float (te_median_us e)]) ++
  geometry_problems "tune entry '{key}'" key (te_launch_geometry e) ++
  tile_config_problems (te_config e) (lit "tune entry '" ++ key ++ lit "'") ++
  match te_measured_on e with
  | Some mo => problem (not_positive (mo_clock_mhz mo))
      (msg "tune entry '{key}': clock_mhz must be finite and positive, got {}" [Str key; Float (mo_clock_mhz mo)])
  | None => []
  end.

(** [TuneFile::validate]. *)
Definition tune_validate (f : TuneFile) : RegResult unit :=
  refuse_registry
    (problem (is_blank (tf_arch f)) (msg "tune file arch cannot be empty" []) ++
     match tf_measured_on f with
     | Some mo => problem (not_positive (mo_clock_mhz mo))
         (msg "tune file clock_mhz must be finite and positive, got {}" [Float (mo_clock_mhz mo)])
     | None => []
     end ++
     concat (map tune_entry_problems (sorted_entries (tf_entries f)))).

(** [TuneFile::entry_key]: the name of the op, a dot, sixteen hexadecimal digits. *)
Definition entry_key (op : OpId.t) (static_hash : Z) : list Z :=
  lit (op_as_str op) ++ 46 :: hex_digits 16 static_hash.

Definition set_entries (entries : gmap (list Z) TuneEntry) (f : TuneFile) : TuneFile :=
  {| tf_arch := tf_arch f; tf_gen_version := tf_gen_version f; tf_driver_hash := tf_driver_hash f;
     tf_measured_on := tf_measured_on f; tf_entries := entries |}.

(** [TuneFile::merge_local]: the entries of [local] win. *)
Definition merge_local (local : TuneFile) : stm TuneFile RegistryError bool :=
  let! _ := sread tune_validate in
  let! _ := slift (tune_validate local) in
  let! f := sget in
  if negb (tf_gen_version f =? tf_gen_version local) || negb (bool_decide (tf_arch f = tf_arch local)) then sret false
  else
    let! _ := smodify (set_entries (tf_entries local ∪ tf_entries f)) in
    sret true.

Definition get_entry (f : TuneFile) (op : OpId.t) (static_hash : Z) : option TuneEntry :=
  tf_entries f !! entry_key op static_hash.
Definition insert_entry (op : OpId.t) (static_hash : Z) (e : TuneEntry) (f : TuneFile) : TuneFile :=
  set_entries (<[entry_key op static_hash := e]> (tf_entries f)) f.

(** ** The registry *)

Record RegistryConfig : Type := {
  rc_gen_version : Z; rc_allow_jit : bool; rc_tune_budget_ms : Z; rc_allow_nondeterministic : bool
}.
Definition registry_config_default : RegistryConfig :=
  {| rc_gen_version := 1; rc_allow_jit := true; rc_tune_budget_ms := 2000; rc_allow_nondeterministic := false |}.

(** [JitProvider::jit_compile_and_validate]. *)
Definition JitProvider : Type := OpId.t → ArchName → OpStatic.t → RegResult ResolvedVariant.

(** The registry without its shared module cache, which is below. *)
Record Registry : Type := {
  rg_config : RegistryConfig;
  rg_bundle_dir : option (list Z);
  rg_manifest : option BundleManifest;
  rg_tune_entries : gmap (ArchName * Z * list Z) (TuneEntry * option (list Z));
  rg_jit_provider : option JitProvider
}.

Definition registry_new (config : RegistryConfig) : Registry :=
  {| rg_config := config; rg_bundle_dir := None; rg_manifest := None; rg_tune_entries := ∅;
     rg_jit_provider := None |}.

Definition set_bundle (dir : option (list Z)) (m : BundleManifest) (r : Registry) : Registry :=
  {| rg_config := rg_config r; rg_bundle_dir := dir; rg_manifest := Some m;
     rg_tune_entries := rg_tune_entries r; rg_jit_provider := rg_jit_provider r |}.

(** Writing through [Registry::config_mut]. *)
Definition set_config (config : RegistryConfig) (r : Registry) : Registry :=
  {| rg_config := config; rg_bundle_dir := rg_bundle_dir r; rg_manifest := rg_manifest r;
     rg_tune_entries := rg_tune_entries r; rg_jit_provider := rg_jit_provider r |}.

Abbreviation registry := (stm Registry RegistryError).

(** [Registry::set_manifest]. *)
Definition set_manifest (m : BundleManifest) (dir : option (list Z)) : registry unit :=
  let! _ := slift (manifest_validate m) in
  let! r := sget in
  let! _ := slift (validate_version m (rc_gen_version (rg_config r)) None) in
  smodify (set_bundle dir m).

(** [BundleManifest::from_file], over the reader and the JSON parser, and
    [Registry::load_bundle]. *)
Section files.
Context (read_to_string : list Z → outcome Text (list Z))
        (manifest_from_json : list Z → outcome Text BundleManifest)
        (tune_from_toml : list Z → outcome Text TuneFile).

Definition manifest_from_file (path : list Z) : RegResult BundleManifest :=
  let* content := omap_err Io (read_to_string path) in
  let* manifest := omap_err (ManifestParseError path) (manifest_from_json content) in
  let* _ := manifest_validate manifest in
  Ok manifest.

Definition load_bundle (bundle_dir : list Z) : registry unit :=
  let manifest_path := path_join bundle_dir (lit "manifest.json") in
  let! manifest := slift (manifest_from_file manifest_path) in
  let! r := sget in
  let! _ := slift (validate_version manifest (rc_gen_version (rg_config r)) (Some manifest_path)) in
  smodify (set_bundle (Some bundle_dir) manifest).

(** [TuneFile::from_file]. *)
Definition tune_from_file (path : list Z) : RegResult TuneFile :=
  let* text := omap_err Io (read_to_string path) in
  let* tune := omap_err (TuneParseError path) (tune_from_toml text) in
  let* _ := tune_validate tune in
  Ok tune.
End files.

(** A relative code object needs a base to be relative to. *)
Definition baseless_problems (f : TuneFile) (base_dir : option (list Z)) : list Text :=
  match base_dir with
  | Some _ => []
  | None => omap (λ '(key, e), match te_code_object e with
      | Some co => Some (msg "tune entry '{key}': code object '{co}' is relative-only but no base directory was provided"
                           [Str key; Str co])
      | None => None
      end) (sorted_entries (tf_entries f))
  end.

Definition insert_tune (f : TuneFile) (base : option (list Z)) (entry : list Z * TuneEntry) (r : Registry) : Registry :=
  {| rg_config := rg_config r; rg_bundle_dir := rg_bundle_dir r; rg_manifest := rg_manifest r;
     rg_tune_entries := <[(tf_arch f, tf_gen_version f, entry.1) := (entry.2, base)]> (rg_tune_entries r);
     rg_jit_provider := rg_jit_provider r |}.

(** [Registry::load_tune_file]: whether its entries were taken. *)
Definition load_tune_file (f : TuneFile) (base_dir : option (list Z)) : registry bool :=
  let! _ := slift (tune_validate f) in
  let! _ := slift (refuse_registry (baseless_problems f base_dir)) in
  let! r := sget in
  if negb (tf_gen_version f =? rc_gen_version (rg_config r)) then sret false
  else
    let! _ := sfor (λ entry, smodify (insert_tune f base_dir entry)) (sorted_entries (tf_entries f)) in
    sret true.

Definition register_jit_provider (provider : JitProvider) (r : Registry) : Registry :=
  {| rg_config := rg_config r; rg_bundle_dir := rg_bundle_dir r; rg_manifest := rg_manifest r;
     rg_tune_entries := rg_tune_entries r; rg_jit_provider := Some provider |}.

Definition is_arch_supported (r : Registry) (arch : ArchName) : bool :=
  match rg_manifest r with Some m => manifest_supports m arch | None => false end.
Definition supported_archs (r : Registry) : list ArchName :=
  match rg_manifest r with Some m => bm_archs m | None => [] end.

(** ** Resolution *)

(** A variant of the bundle. *)
Definition shipped_variant (arch : ArchName) (op : OpId.t) (tier : Tier) (vhash : Z) (e : ManifestVariantEntry)
    : ResolvedVariant :=
  {| v_variant_hash := vhash; v_arch := arch; v_op := op; v_tier := tier; v_entry_symbol := me_entry_symbol e;
     v_launch_geometry := me_launch_geometry e; v_workspace_bytes := me_workspace_bytes e;
     v_static_bytes := me_static_bytes e; v_static_flops := me_static_flops e;
     v_code_object_path := Some (me_file e); v_artifact_origin := Some Shipped; v_code_object_bytes := None;
     v_validated := true |}.

(** A variant of a tune file. *)
Definition local_variant (arch : ArchName) (op : OpId.t) (vhash : Z) (e : TuneEntry) (base : option (list Z))
    : ResolvedVariant :=
  {| v_variant_hash := vhash; v_arch := arch; v_op := op; v_tier := T2;
     v_entry_symbol := lit (op_as_str op) ++ 95 :: hex_digits 16 vhash;
     v_launch_geometry := te_launch_geometry e; v_workspace_bytes := te_workspace_bytes e;
     v_static_bytes := te_bytes e; v_static_flops := te_flops e; v_code_object_path := te_code_object e;
     v_artifact_origin := Some (Local base); v_code_object_bytes := None; v_validated := true |}.

(** A JIT variant is local when it does not say where it is from. *)
Definition with_local_origin (v : ResolvedVariant) : ResolvedVariant :=
  match v_artifact_origin v with
  | Some _ => v
  | None =>
      {| v_variant_hash := v_variant_hash v; v_arch := v_arch v; v_op := v_op v; v_tier := v_tier v;
         v_entry_symbol := v_entry_symbol v; v_launch_geometry := v_launch_geometry v;
         v_workspace_bytes := v_workspace_bytes v; v_static_bytes := v_static_bytes v;
         v_static_flops := v_static_flops v; v_code_object_path := v_code_object_path v;
         v_artifact_origin := Some (Local None); v_code_object_bytes := v_code_object_bytes v;
         v_validated := v_validated v |}
  end.

Definition hash_of_key (hash_str : list Z) : RegResult Z :=
  omap_err (λ e, ManifestParseError (lit "variant_hash") (parse_int_text e)) (from_hex hash_str).

Section resolution.
Context (static_hash : OpStatic.t → Z) (variant_hash : VariantKey → Z).

(** The entries a tier's loop looks at, and the loop: the first one in the
    order of the keys is the answer, an unvalidated T2 is passed over. *)
Definition t2_candidate (arch : ArchName) (op : OpId.t) (shash : Z) (e : ManifestVariantEntry) : bool :=
  bool_decide (me_tier e = T2) && bool_decide (me_arch e = arch) && matches_request e op &&
  bool_decide (me_static_hash e = Some shash).

Fixpoint shipped_t2 (arch : ArchName) (op : OpId.t) (shash : Z) (entries : list (list Z * ManifestVariantEntry))
    : RegResult (option ResolvedVariant) :=
  match entries with
  | [] => Ok None
  | (hash_str, e) :: entries =>
      if t2_candidate arch op shash e then
        let* _ := check_entry_for e op in
        if me_validated e then
          let* vhash := hash_of_key hash_str in
          Ok (Some (shipped_variant arch op T2 vhash e))
        else shipped_t2 arch op shash entries
      else shipped_t2 arch op shash entries
  end.

Definition t1_candidate (arch : ArchName) (op : OpId.t) (shash : Z) (e : ManifestVariantEntry) : bool :=
  bool_decide (me_tier e = T1) && bool_decide (me_arch e = arch) && bool_decide (me_op e = Some op) &&
  (bool_decide (me_static_hash e = Some shash) || bool_decide (me_static_hash e = None)) && me_validated e.

Fixpoint shipped_t1 (arch : ArchName) (op : OpId.t) (shash : Z) (entries : list (list Z * ManifestVariantEntry))
    : RegResult (option ResolvedVariant) :=
  match entries with
  | [] => Ok None
  | (hash_str, e) :: entries =>
      if t1_candidate arch op shash e then
        let* _ := check_entry_for e op in
        let* vhash := hash_of_key hash_str in
        Ok (Some (shipped_variant arch op T1 vhash e))
      else shipped_t1 arch op shash entries
  end.

(** The local tune entry of the request, under the configured version. *)
Definition local_t2 (r : Registry) (op : OpId.t) (arch : ArchName) (op_static : OpStatic.t) : option ResolvedVariant :=
  let tune_key := entry_key op (static_hash op_static) in
  match rg_tune_entries r !! (arch, rc_gen_version (rg_config r), tune_key) with
  | Some (e, base_dir) =>
      if te_validated e && bool_decide (is_Some (te_code_object e)) then
        let vkey := {| vk_op := op; vk_arch := arch; vk_gen_version := rc_gen_version (rg_config r);
                       vk_static_params := op_static; vk_config := te_config e |} in
        Some (local_variant arch op (variant_hash vkey) e base_dir)
      else None
  | None => None
  end.

(** The provider, where JIT compilation is allowed. *)
Definition allowed_jit (r : Registry) : option JitProvider :=
  if rc_allow_jit (rg_config r) then rg_jit_provider r else None.

(** An architecture the manifest does not list: compile, or refuse. *)
Definition resolve_unlisted (r : Registry) (op : OpId.t) (arch : ArchName) (op_static : OpStatic.t)
    : RegResult ResolvedVariant :=
  match allowed_jit r with
  | Some jit =>
      let* variant := jit op arch op_static in
      if negb (v_validated variant) then Err (VariantNotValidated (v_variant_hash variant) op arch)
      else Ok variant
  | None => Err (UnlistedArchRefused arch (supported_archs r))
  end.

(** On a listed one a refusal of the provider falls through. *)
Definition jit_t2 (r : Registry) (op : OpId.t) (arch : ArchName) (op_static : OpStatic.t)
    : RegResult (option ResolvedVariant) :=
  match allowed_jit r with
  | Some jit =>
      match jit op arch op_static with
      | Ok variant => if v_validated variant then Ok (Some (with_local_origin variant)) else Ok None
      | Err _ => Ok None
      | Panic => Panic
      end
  | None => Ok None
  end.

Definition t1_fallback (r : Registry) (op : OpId.t) (arch : ArchName) (shash : Z) : RegResult ResolvedVariant :=
  match rg_manifest r with
  | Some manifest =>
      let* found := shipped_t1 arch op shash (sorted_entries (bm_variants manifest)) in
      match found with
      | Some v => Ok v
      | None => Err (T1FallbackFailed op arch
          (msg "no validated T1 entry found in manifest for op '{op}' on arch '{arch}'" [Name (op_as_str op); Str arch]))
      end
  | None => Err (VariantNotFound op arch shash)
  end.

(** [Registry::resolve]. *)
Definition resolve (r : Registry) (op : OpId.t) (arch : ArchName) (op_static : OpStatic.t)
    : RegResult ResolvedVariant :=
  let* _ := OpStatic.check_pair op_static op in
  let* _ := op_static_validate op_static in
  let shash := static_hash op_static in
  if negb (is_arch_supported r arch) then resolve_unlisted r op arch op_static
  else
    let* shipped := match rg_manifest r with
                    | Some manifest => shipped_t2 arch op shash (sorted_entries (bm_variants manifest))
                    | None => Ok None
                    end in
    match shipped with
    | Some v => Ok v
    | None =>
        match local_t2 r op arch op_static with
        | Some v => Ok v
        | None =>
            let* compiled := jit_t2 r op arch op_static in
            match compiled with
            | Some v => Ok v
            | None => t1_fallback r op arch shash
            end
        end
    end.
End resolution.

(** ** Modules

    The cache is shared by the clones of a registry, behind a lock that a
    panicking writer poisons. *)
Record ModuleCache (Module_ : Type) : Type := { mc_modules : gmap Z Module_; mc_poisoned : bool }.
Arguments Build_ModuleCache {Module_} _ _.
Arguments mc_modules {Module_} _.
Arguments mc_poisoned {Module_} _.

Section modules.
Context {Module_ : Type}.
(** [Path::canonicalize], [fs::read] and [Module::load_data]. *)
Context (canonicalize : list Z → option (list Z)) (read_file : list Z → outcome Text (list Z))
        (load_data : list Z → outcome Text Module_).

Abbreviation cache_action := (stm (ModuleCache Module_) RegistryError).

(** Taking the lock. *)
Definition with_lock {A} (f : gmap Z Module_ → A) : cache_action A :=
  sread (λ c, if mc_poisoned c then Err (LockPoisoned "loaded_modules") else Ok (f (mc_modules c))).

(** [Registry::insert_loaded_module]. *)
Definition insert_loaded_module (hash : Z) (m : Module_) : cache_action unit :=
  let! modules := with_lock (λ modules, modules) in
  smodify (λ c, {| mc_modules := <[hash := m]> modules; mc_poisoned := mc_poisoned c |}).

Definition load_error (v : ResolvedVariant) (detail : Text) : RegistryError :=
  ModuleLoadError (v_variant_hash v) (v_entry_symbol v) detail.

(** The directory a relative code object is relative to. *)
Definition base_dir_of (r : Registry) (v : ResolvedVariant) : RegResult (list Z) :=
  match v_artifact_origin v with
  | Some Shipped =>
      ok_or (rg_bundle_dir r) (load_error v (msg "bundle directory not configured for shipped variant" []))
  | Some (Local (Some b)) => Ok b
  | Some (Local None) => Err (load_error v (msg "no base directory configured for relative local code object" []))
  | None => ok_or (rg_bundle_dir r) (load_error v (msg "no base directory or bundle directory configured" []))
  end.

Definition check_code_path (v : ResolvedVariant) (path : list Z) : RegResult unit :=
  if path_is_rooted path then
    Err (load_error v (msg "disallowed code object path '{path_str}': path is absolute" [Str path]))
  else if path_climbs path then
    Err (load_error v (msg "disallowed code object path '{path_str}': parent traversal ('..') is prohibited" [Str path]))
  else if is_blank path then Err (load_error v (msg "code object path cannot be empty" []))
  else Ok tt.

(** The file of a relative code object, checked to stay under its base. *)
Definition code_file (r : Registry) (v : ResolvedVariant) (path : list Z) : RegResult (list Z) :=
  let* _ := check_code_path v path in
  let* base := base_dir_of r v in
  let full_path := path_join base path in
  let escapes := match canonicalize base, canonicalize full_path with
                 | Some canon_base, Some canon_full => negb (path_starts_with canon_full canon_base)
                 | _, _ => false
                 end in
  if escapes then
    Err (load_error v (msg "path traversal detected: '{path_str}' resolved outside base '{}'" [Str path; Str base]))
  else Ok full_path.

Definition code_bytes (r : Registry) (v : ResolvedVariant) : RegResult (list Z) :=
  match v_code_object_bytes v with
  | Some b => Ok b
  | None =>
      match v_code_object_path v with
      | Some path =>
          let* full_path := code_file r v path in
          omap_err Io (read_file full_path)
      | None => Err (load_error v (msg "no code object bytes or file path provided for variant" []))
      end
  end.

(** [Registry::load_module]. *)
Definition load_module (r : Registry) (v : ResolvedVariant) : cache_action Module_ :=
  if negb (v_validated v) then sfail (VariantNotValidated (v_variant_hash v) (v_op v) (v_arch v))
  else
    let! cached := with_lock (λ modules, modules !! v_variant_hash v) in
    match cached with
    | Some m => sret m
    | None =>
        let! bytes := slift (code_bytes r v) in
        let! m := slift (omap_err (load_error v) (load_data bytes)) in
        let! _ := insert_loaded_module (v_variant_hash v) m in
        sret m
    end.
End modules.
