(* ===== verification/RegistrySpec.v ===== *)
(** * What the registry resolves

    The registry invariant and that every call keeps it; [resolve] against the
    order of its sources, stated as a relation; and that a listed architecture
    with a fallback is always served. *)

From S2P Require Import Prelude Bytes SchedError Capture RegStatic RegStaticSpec Registry.

#[global] Open Scope Z_scope.

(** ** Strings in order *)

Lemma lex_le_refl a : lex_le a a = true.
Proof. induction a as [|x a IH]; simpl; [done|]. rewrite Z.ltb_irrefl, Z.eqb_refl. exact IH. Qed.

Lemma lex_le_cons x a y b : lex_le (x :: a) (y :: b) = true ↔ x < y ∨ x = y ∧ lex_le a b = true.
Proof. simpl. rewrite orb_true_iff, andb_true_iff, Z.ltb_lt, Z.eqb_eq. done. Qed.

Lemma lex_le_trans a b c : lex_le a b = true → lex_le b c = true → lex_le a c = true.
Proof.
  revert b c. induction a as [|x a IH]; intros [|y b] [|z c]; try done.
  rewrite !lex_le_cons. intros [?|[-> ?]] [?|[-> ?]]; [left; lia|by left|by left|]. right. split; [done|by apply IH with b].
Qed.

Lemma lex_le_total a b : lex_le a b = true ∨ lex_le b a = true.
Proof.
  revert b. induction a as [|x a IH]; intros [|y b]; [by left|by left|by right|].
  rewrite !lex_le_cons. destruct (Z.lt_trichotomy x y) as [?|[->|?]]; [by do 2 left| |by right; left].
  destruct (IH b); [left|right]; by right.
Qed.


#[global] Instance entry_le_trans {A} : Transitive (@entry_le A).
Proof. intros a b c. apply lex_le_trans. Qed.
#[global] Instance entry_le_total {A} : Total (@entry_le A).
Proof. intros a b. apply lex_le_total. Qed.

Lemma elem_of_sorted_entries {A} (m : gmap (list Z) A) k x : (k, x) ∈ sorted_entries m ↔ m !! k = Some x.
Proof. unfold sorted_entries. by rewrite merge_sort_Permutation, elem_of_map_to_list. Qed.

(** The least key whose entry satisfies [p]. *)
Definition least {A} (p : A → bool) (m : gmap (list Z) A) (k : list Z) (x : A) : Prop :=
  m !! k = Some x ∧ p x = true ∧ ∀ k' x', m !! k' = Some x' → p x' = true → lex_le k k' = true.


(** The first match of a walk, which is the least in a sorted one. *)
Fixpoint first_match {A} (p : A → bool) (l : list (list Z * A)) : option (list Z * A) :=
  match l with
  | [] => None
  | (k, x) :: l => if p x then Some (k, x) else first_match p l
  end.

Lemma first_match_spec {A} (p : A → bool) l : StronglySorted entry_le l →
  match first_match p l with
  | Some (k, x) => (k, x) ∈ l ∧ p x = true ∧ ∀ k' x', (k', x') ∈ l → p x' = true → lex_le k k' = true
  | None => ∀ k x, (k, x) ∈ l → p x = false
  end.
Proof.
  induction 1 as [|[k x] l _ IH Hall]; simpl; [by intros k x ?%elem_of_nil|].
  destruct (p x) eqn:Hp.
  - split_and!; [left|done|]. intros k' x' [[= -> ->]|Hin]%elem_of_cons _; [apply lex_le_refl|].
    rewrite Forall_forall in Hall. apply (Hall _ Hin).
  - destruct (first_match p l) as [[k0 x0]|].
    + destruct IH as (Hin & Hp0 & Hmin). split_and!; [by right|done|].
      intros k' x' [[= -> ->]|Hin']%elem_of_cons Hp'; [congruence|by apply (Hmin k' x')].
    + intros k' x' [[= -> ->]|Hin]%elem_of_cons; [done|by apply (IH k')].
Qed.

Lemma find_least {A} (p : A → bool) (m : gmap (list Z) A) :
  match first_match p (sorted_entries m) with
  | Some (k, x) => least p m k x
  | None => ∀ k x, ¬ least p m k x
  end.
Proof.
  pose proof (first_match_spec p (sorted_entries m) (StronglySorted_merge_sort _ _)) as H.
  destruct (first_match _ _) as [[k x]|].
  - destruct H as (Hin & Hp & Hmin). split_and!; [by apply elem_of_sorted_entries|done|].
    intros k' x' Hk'. by apply Hmin, elem_of_sorted_entries.
  - intros k x (Hk & Hp & _). apply elem_of_sorted_entries, H in Hk. congruence.
Qed.

(** ** Hexadecimal *)

Lemma to_digit_hex d : 0 ≤ d < 16 → to_digit (hex_digit d) = Some d.
Proof.
  intros Hd. unfold hex_digit, to_digit, between.
  destruct (Z.ltb_spec d 10);
    repeat match goal with |- context [?a <=? ?b] => destruct (Z.leb_spec a b); try lia end; simpl; f_equal; lia.
Qed.

Lemma length_hex_digits n x : length (hex_digits n x) = n.
Proof. revert x. induction n as [|n IH]; intros x; simpl; [done|]. rewrite length_app, IH. simpl. lia. Qed.

Lemma parse_hex_digits n x rest acc : 0 ≤ x < 16 ^ Z.of_nat n → 0 ≤ acc →
  acc * 16 ^ Z.of_nat n + x ≤ U64_MAX →
  parse_digits (hex_digits n x ++ rest) acc = parse_digits rest (acc * 16 ^ Z.of_nat n + x).
Proof.
  revert x rest. induction n as [|n IH]; intros x rest Hx Hacc Hle.
  { simpl. f_equal. simpl in Hx. lia. }
  rewrite Nat2Z.inj_succ, Z.pow_succ_r in * by lia. set (p := 16 ^ Z.of_nat n) in *.
  pose proof (Z.div_mod x 16 ltac:(done)) as Hdm. pose proof (Z.mod_pos_bound x 16 ltac:(done)) as Hmod.
  cbn [hex_digits]. rewrite <- app_assoc, IH by nia. cbn [app parse_digits].
  rewrite to_digit_hex by done. cbn [ok_or obind]. unfold checked_mul, checked_add.
  rewrite (proj2 (Z.leb_le ((acc * p + x / 16) * 16) U64_MAX)) by nia. cbn [ok_or obind].
  rewrite (proj2 (Z.leb_le ((acc * p + x / 16) * 16 + x mod 16) U64_MAX)) by nia. cbn [ok_or obind].
  f_equal. nia.
Qed.

Lemma hex_digit_not d b : 0 ≤ d < 16 → between 48 57 b || between 97 102 b = false → hex_digit d ≠ b.
Proof. unfold hex_digit, between. intros Hd Hb <-. destruct (Z.ltb_spec d 10); lia. Qed.

Lemma hex_digits_all n x : Forall (λ b, ∃ d, b = hex_digit d ∧ 0 ≤ d < 16) (hex_digits n x).
Proof.
  revert x. induction n as [|n IH]; intros x; simpl; [constructor|].
  apply Forall_app. split; [done|]. constructor; [|constructor]. eexists. split; [done|]. by apply Z.mod_pos_bound.
Qed.

(** At least two digits: neither a sign nor a prefix is in the way. *)
Lemma hex_digits_two n x : ∃ d0 d1 rest, hex_digits (S (S n)) x = hex_digit d0 :: hex_digit d1 :: rest ∧
  0 ≤ d0 < 16 ∧ 0 ≤ d1 < 16.
Proof.
  pose proof (length_hex_digits (S (S n)) x) as Hlen. pose proof (hex_digits_all (S (S n)) x) as Hall.
  destruct (hex_digits (S (S n)) x) as [|b0 [|b1 rest]]; [done..|].
  apply Forall_cons in Hall as [(d0 & -> & ?) Hall]. apply Forall_cons in Hall as [(d1 & -> & ?) _]. eauto 10.
Qed.

Lemma from_str_radix_hex n x : (2 ≤ n ≤ 16)%nat → 0 ≤ x < 16 ^ Z.of_nat n → from_str_radix_16 (hex_digits n x) = Ok x.
Proof.
  intros Hn Hx. destruct n as [|[|n]]; [lia..|].
  assert (parse_digits (hex_digits (S (S n)) x) 0 = Ok x) as Hp.
  { assert (16 ^ Z.of_nat (S (S n)) ≤ 16 ^ 16) by (apply Z.pow_le_mono_r; lia).
    pose proof (parse_hex_digits (S (S n)) x [] 0 Hx ltac:(done)) as Hp. rewrite app_nil_r in Hp.
    apply Hp. unfold U64_MAX. lia. }
  destruct (hex_digits_two n x) as (d0 & d1 & rest & Heq & ? & ?). rewrite Heq in Hp |- *. unfold from_str_radix_16.
  by rewrite (proj2 (Z.eqb_neq _ _)) by by apply hex_digit_not.
Qed.

Lemma from_hex_to_hex h : is_u64 h → from_hex (to_hex h) = Ok h.
Proof.
  intros Hh. unfold from_hex, to_hex.
  assert (strip_prefix (lit "0x") (hex_digits 16 h) = None) as ->.
  { destruct (hex_digits_two 14 h) as (d0 & d1 & rest & -> & ? & ?). unfold strip_prefix. change (lit "0x") with [48; 120]. cbn [starts_with].
    rewrite (proj2 (Z.eqb_neq 120 _)) by (apply not_eq_sym; by apply hex_digit_not). by rewrite andb_false_r. }
  apply from_str_radix_hex; [lia|]. unfold is_u64, U64_MAX in Hh. change (Z.of_nat 16) with 16. lia.
Qed.

Lemma to_hex_inj h h' : is_u64 h → is_u64 h' → to_hex h = to_hex h' → h = h'.
Proof. intros Hh Hh' H. apply (f_equal from_hex) in H. rewrite !from_hex_to_hex in H by done. by injection H. Qed.

(** ** What validation guarantees *)

Lemma refuse_registry_Ok problems : refuse_registry problems = Ok tt ↔ problems = [].
Proof. destruct problems; simpl; naive_solver. Qed.
Lemma refuse_registry_total problems : refuse_registry problems ≠ Panic.
Proof. by destruct problems. Qed.
#[export] Hint Resolve refuse_registry_total : total.

Lemma problem_nil b t : problem b t = [] ↔ b = false.
Proof. by destruct b. Qed.

Lemma concat_map_empty {A B} (f : A → list B) l : concat (map f l) = [] ↔ ∀ x, x ∈ l → f x = [].
Proof.
  induction l as [|x l IH]; simpl; [split; [by intros _ x ?%elem_of_nil|done]|].
  rewrite app_nil, IH. split.
  - intros [Hx Hl] y [->|Hy]%elem_of_cons; auto.
  - intros H. split; [apply H; left|]. intros y Hy. apply H. by right.
Qed.

(** A code object path that passed the tests: relative, without a parent
    component, and not blank. *)
Record path_ok (p : list Z) : Prop := {
  po_relative : path_is_absolute p = false;
  po_descends : ParentDir ∉ path_components p;
  po_named : is_blank p = false
}.

Lemma path_checks_ok p : path_is_rooted p = false → path_climbs p = false → is_blank p = false → path_ok p.
Proof.
  unfold path_is_rooted, path_climbs. intros [[? _]%orb_false_iff _]%orb_false_iff [Hc _]%orb_false_iff ?.
  constructor; [done| |done]. intros Hin.
  assert (existsb (λ c, bool_decide (c = ParentDir)) (path_components p) = true) as E; [|congruence].
  apply existsb_exists. exists ParentDir. split; [by apply list_elem_of_In|]. by apply bool_decide_eq_true.
Qed.

Definition geometry_ok (g : LaunchGeometry) : Prop := any_zero (g_grid g) = false ∧ any_zero (g_block g) = false.

(** An entry of a valid manifest, under its key. *)
Record variant_ok (archs : list ArchName) (key : list Z) (e : ManifestVariantEntry) : Prop := {
  vo_hash : length key = 16%nat ∧ ∃ h, from_hex key = Ok h;
  vo_file : path_ok (me_file e);
  vo_arch : me_arch e ∈ archs;
  vo_geometry : geometry_ok (me_launch_geometry e);
  vo_symbol : is_blank (me_entry_symbol e) = false
}.

Record manifest_ok (m : BundleManifest) : Prop := {
  mo_archs : bm_archs m ≠ [] ∧ NoDup (bm_archs m) ∧ ∀ a, a ∈ bm_archs m → is_blank a = false;
  mo_variants key e : bm_variants m !! key = Some e → variant_ok (bm_archs m) key e
}.

Lemma geometry_problems_ok what key g : geometry_problems what key g = [] → geometry_ok g.
Proof. unfold geometry_problems. by rewrite app_nil, !problem_nil. Qed.

Lemma is_Ok_inv {E A} (c : outcome E A) : is_Ok c = true → ∃ a, c = Ok a.
Proof. destruct c; [eauto|done..]. Qed.

Lemma variant_problems_ok archs key e : variant_problems archs (key, e) = [] → variant_ok archs key e.
Proof.
  unfold variant_problems, variant_hash_problems, variant_file_problems, variant_arch_problems.
  rewrite !app_nil, !problem_nil, !negb_false_iff. intros ([Hlen Hhex] & (Hr & Hc & Hb) & [Ha _] & Hg & Hs).
  constructor; [|by apply path_checks_ok| |by eapply geometry_problems_ok|done].
  - split; [by apply Nat.eqb_eq|by apply is_Ok_inv].
  - destruct (is_blank (me_arch e)); [done|]. rewrite problem_nil, negb_false_iff in Ha. by apply bool_decide_eq_true in Ha.
Qed.

Lemma arch_problems_ok seen archs : arch_problems seen archs = [] →
  NoDup archs ∧ ∀ a, a ∈ archs → is_blank a = false ∧ a ∉ seen.
Proof.
  revert seen. induction archs as [|a archs IH]; intros seen; simpl.
  - intros _. split; [constructor|]. by intros a ?%elem_of_nil.
  - rewrite !app_nil, !problem_nil, bool_decide_eq_false. intros (Hb & Hs & [Hnd Hall]%IH). split.
    + constructor; [|done]. intros Ha. apply Hall in Ha as [_ []]. left.
    + intros b [->|Hin]%elem_of_cons; [done|]. destruct (Hall b Hin) as [? Hn]. split; [done|].
      intros ?. apply Hn. by right.
Qed.

Lemma manifest_validate_ok m : manifest_validate m = Ok tt → manifest_ok m.
Proof.
  unfold manifest_validate. rewrite refuse_registry_Ok, !app_nil, problem_nil, bool_decide_eq_false, concat_map_empty.
  intros (Hne & [Hnd Ha]%arch_problems_ok & Hv). constructor.
  - split_and!; [done|done|]. intros a Hin. by apply Ha.
  - intros key e Hk. apply variant_problems_ok, Hv. by apply elem_of_sorted_entries.
Qed.

(** An entry of a valid tune file, under its key. *)
Record tune_ok (key : list Z) (e : TuneEntry) : Prop := {
  to_key : ∃ op h, split_once 46 key = Some (lit (op_as_str op), h) ∧ length h = 16%nat ∧
    is_Ok (from_str_radix_16 h) = true;
  to_code co : te_code_object e = Some co → path_ok co;
  to_median : not_positive (te_median_us e) = false;
  to_geometry : geometry_ok (te_launch_geometry e)
}.

Lemma tune_key_problems_ok key : tune_key_problems key = [] →
  ∃ op h, split_once 46 key = Some (lit (op_as_str op), h) ∧ length h = 16%nat ∧ is_Ok (from_str_radix_16 h) = true.
Proof.
  unfold tune_key_problems. destruct (split_once 46 key) as [[s h]|]; [|done].
  rewrite app_nil, !problem_nil, negb_false_iff, bool_decide_eq_true, orb_false_iff, !negb_false_iff.
  intros ([op Hop] & Hlen & Hr). exists op, h. split_and!; [|by apply Nat.eqb_eq|done].
  unfold parse_op in Hop. destruct (op_from_str s) as [op'| |] eqn:E; [|done..]. injection Hop as ->.
  apply op_from_str_spec in E. by rewrite E.
Qed.

Lemma tune_entry_problems_ok key e : tune_entry_problems (key, e) = [] → tune_ok key e.
Proof.
  unfold tune_entry_problems. rewrite !app_nil, problem_nil. intros (Hk & Hco & Hm & Hg & _).
  constructor; [by apply tune_key_problems_ok| |done|by eapply geometry_problems_ok].
  intros co Heq. rewrite Heq in Hco. unfold tune_code_problems in Hco. rewrite !app_nil, !problem_nil in Hco.
  destruct Hco as (? & ? & ?). by apply path_checks_ok.
Qed.

Lemma tune_validate_ok f : tune_validate f = Ok tt → ∀ key e, tf_entries f !! key = Some e → tune_ok key e.
Proof.
  unfold tune_validate. rewrite refuse_registry_Ok, !app_nil, concat_map_empty. intros (_ & _ & He) key e Hk.
  apply tune_entry_problems_ok, He. by apply elem_of_sorted_entries.
Qed.

(** ** The registry invariant *)

Record registry_inv (r : Registry) : Prop := {
  ri_manifest m : rg_manifest r = Some m → manifest_ok m;
  ri_tune arch gen key e base : rg_tune_entries r !! (arch, gen, key) = Some (e, base) →
    tune_ok key e ∧ (is_Some (te_code_object e) → is_Some base)
}.

Lemma registry_new_inv config : registry_inv (registry_new config).
Proof. constructor; [done|]. intros arch gen key e base H. cbn [rg_tune_entries registry_new] in H. by rewrite lookup_empty in H. Qed.

Lemma set_bundle_inv dir m r : registry_inv r → manifest_ok m → registry_inv (set_bundle dir m r).
Proof. intros [? Ht] Hm. constructor; [by intros m' [= <-]|exact Ht]. Qed.

Lemma manifest_validate_total m : manifest_validate m ≠ Panic.
Proof. apply refuse_registry_total. Qed.
Lemma tune_validate_total f : tune_validate f ≠ Panic.
Proof. apply refuse_registry_total. Qed.
Lemma validate_version_total m v path : validate_version m v path ≠ Panic.
Proof. unfold validate_version. by case_match. Qed.

(** The entries of a file go over those of its architecture and version. *)
Definition tuned (f : TuneFile) (base : option (list Z)) (arch : ArchName) (gen : Z) (key : list Z)
    : option (TuneEntry * option (list Z)) :=
  if decide (arch = tf_arch f ∧ gen = tf_gen_version f) then (λ e, (e, base)) <$> tf_entries f !! key else None.

Lemma insert_tunes f base entries r :
  ∃ r', sfor (λ entry, smodify (insert_tune f base entry)) entries r = (Ok (E:=RegistryError) tt, r') ∧
    rg_config r' = rg_config r ∧ rg_bundle_dir r' = rg_bundle_dir r ∧ rg_manifest r' = rg_manifest r ∧
    rg_jit_provider r' = rg_jit_provider r ∧
    rg_tune_entries r' = foldl (λ t entry, <[(tf_arch f, tf_gen_version f, entry.1) := (entry.2, base)]> t)
                           (rg_tune_entries r) entries.
Proof.
  revert r. induction entries as [|entry entries IH]; intros r; simpl; [by exists r|].
  destruct (IH (insert_tune f base entry r)) as (r' & Hrun & H). exists r'. split; [|done].
  erewrite sbind_Ok by reflexivity. exact Hrun.
Qed.

Lemma foldl_insert_lookup {K A} `{Countable K} (kf : list Z → K) (vf : A → (A * option (list Z)))
    (l : list (list Z * A)) (t : gmap K (A * option (list Z))) k :
  Inj (=) (=) kf → NoDup l.*1 →
  foldl (λ t entry, <[kf entry.1 := vf entry.2]> t) t l !! k =
    match list_find (λ entry : list Z * A, kf entry.1 = k) l with
    | Some (_, entry) => Some (vf entry.2)
    | None => t !! k
    end.
Proof.
  intros Hinj. revert t. induction l as [|[key x] l IH]; intros t Hnd; [done|].
  apply NoDup_cons in Hnd as [Hni Hnd]. cbn [foldl list_find]. rewrite IH by done.
  case_decide as Hk; simpl in Hk.
  - subst k. destruct (list_find _ l) as [[i [key' y]]|] eqn:Hf; cbn.
    + apply list_find_Some in Hf as (Hi & Hk & _). simpl in Hk. apply Hinj in Hk as ->.
      destruct Hni. apply list_elem_of_fmap. exists (key, y). split; [done|]. by eapply list_elem_of_lookup_2.
    + by rewrite lookup_insert_eq.
  - destruct (list_find _ l) as [[i [key' y]]|]; cbn; [done|]. by rewrite lookup_insert_ne.
Qed.

Lemma sorted_entries_keys {A} (m : gmap (list Z) A) : NoDup (sorted_entries m).*1.
Proof. unfold sorted_entries. rewrite merge_sort_Permutation. apply NoDup_fst_map_to_list. Qed.

(** [load_tune_file]: takes the entries of a valid file with bases for its code
    under the configured version, and otherwise changes nothing. *)
Lemma load_tune_file_spec f base r :
  match load_tune_file f base r with
  | (Ok taken, r') => tune_validate f = Ok tt ∧ taken = (tf_gen_version f =? rc_gen_version (rg_config r)) ∧
      (∀ key e, tf_entries f !! key = Some e → is_Some (te_code_object e) → is_Some base) ∧
      rg_config r' = rg_config r ∧ rg_manifest r' = rg_manifest r ∧ rg_bundle_dir r' = rg_bundle_dir r ∧
      rg_jit_provider r' = rg_jit_provider r ∧
      ∀ arch gen key, rg_tune_entries r' !! (arch, gen, key) =
        (if taken then tuned f base arch gen key else None) ∪ rg_tune_entries r !! (arch, gen, key)
  | (Err e, r') => r' = r
  | (Panic, _) => False
  end.
Proof.
  unfold load_tune_file. pose proof (tune_validate_total f) as Hp.
  destruct (tune_validate f) as [[]|e|] eqn:Hv; [|done|done].
  erewrite sbind_Ok by reflexivity. clear Hp Hv.
  destruct (baseless_problems f base) as [|p ps] eqn:Hb; [|done].
  erewrite sbind_Ok by reflexivity. erewrite sbind_Ok by reflexivity.
  assert (∀ key e, tf_entries f !! key = Some e → is_Some (te_code_object e) → is_Some base) as Hbase.
  { intros key e Hk [co Hco]. destruct base; [by eexists|]. simpl in Hb.
    apply elem_of_sorted_entries in Hk.
    assert (∀ t, t ∉ ([] : list Text)) as Hn by (intros ? Hin; by apply elem_of_nil in Hin).
    edestruct Hn. rewrite <- Hb. apply list_elem_of_omap. exists (key, e). split; [done|]. by rewrite Hco. }
  destruct (tf_gen_version f =? rc_gen_version (rg_config r)) eqn:Hg; cbn [negb].
  - destruct (insert_tunes f base (sorted_entries (tf_entries f)) r) as (r' & Hrun & Hc & Hd & Hm & Hj & Ht).
    erewrite sbind_Ok by exact Hrun. cbn. split_and!; [done..|].
    intros arch gen key. rewrite Ht.
    rewrite (foldl_insert_lookup (λ key, (tf_arch f, tf_gen_version f, key)) (λ e, (e, base)));
      [|by intros ?? [=]|apply sorted_entries_keys].
    unfold tuned. destruct (list_find _ _) as [[i [key' e]]|] eqn:Hf.
    + apply list_find_Some in Hf as (Hi & Hk & _). injection Hk as <- <- <-.
      apply list_elem_of_lookup_2, elem_of_sorted_entries in Hi. rewrite decide_True, Hi by done. cbn [snd fmap option_fmap option_map]. by destruct (rg_tune_entries r !! _).
    + apply list_find_None in Hf. case_decide as Hd'; [|by rewrite (left_id None _)].
      destruct Hd' as [-> ->]. destruct (tf_entries f !! key) as [e|] eqn:Hk; [|by rewrite (left_id None _)].
      rewrite Forall_forall in Hf. by destruct (Hf (key, e)); [apply elem_of_sorted_entries|].
  - cbn. split_and!; [done..|]. intros. by rewrite (left_id None _).
Qed.

(** ** Calls on a registry *)

Section calls.
Context (read_to_string : list Z → outcome Text (list Z))
        (manifest_from_json : list Z → outcome Text BundleManifest).

(** The calls that change a registry, in any order. *)
Inductive reg_call : Type :=
| SetManifest (m : BundleManifest) (dir : option (list Z))
| LoadBundle (dir : list Z)
| LoadTune (f : TuneFile) (base : option (list Z))
| ConfigMut (config : RegistryConfig)
| RegisterJit (provider : JitProvider).

Definition perform_reg (c : reg_call) : registry unit :=
  match c with
  | SetManifest m dir => set_manifest m dir
  | LoadBundle dir => load_bundle read_to_string manifest_from_json dir
  | LoadTune f base => let! _ := load_tune_file f base in sret tt
  | ConfigMut config => smodify (set_config config)
  | RegisterJit provider => smodify (register_jit_provider provider)
  end.

Definition perform_all (calls : list reg_call) (r : Registry) : Registry :=
  foldl (λ r c, (perform_reg c r).2) r calls.

(** The file reader and the JSON parser answer. *)
Definition files_total : Prop :=
  (∀ path, read_to_string path ≠ Panic) ∧ ∀ content, manifest_from_json content ≠ Panic.

Definition unchanged_or_inv (c : registry unit) : Prop :=
  ∀ r, registry_inv r → match c r with
    | (Ok _, r') => registry_inv r'
    | (Err _, r') => r' = r
    | (Panic, _) => False
    end.

Lemma set_bundle_call m dir path : manifest_validate m = Ok tt →
  unchanged_or_inv (let! r := sget in
    let! _ := slift (validate_version m (rc_gen_version (rg_config r)) path) in smodify (set_bundle dir m)).
Proof.
  intros Hm r Hr. erewrite sbind_Ok by reflexivity.
  pose proof (validate_version_total m (rc_gen_version (rg_config r)) path).
  destruct (validate_version _ _ _) as [[]|e|]; [|done|done]. cbn.
  apply set_bundle_inv; [done|by apply manifest_validate_ok].
Qed.

Lemma perform_reg_inv c : files_total → unchanged_or_inv (perform_reg c).
Proof.
  intros [Hread Hjson]. destruct c as [m dir|dir|f base|config|provider]; cbn [perform_reg].
  - intros r Hr. unfold set_manifest. pose proof (manifest_validate_total m).
    destruct (manifest_validate m) as [[]|e|] eqn:Hv; [|done|done]. erewrite sbind_Ok by reflexivity.
    by apply set_bundle_call.
  - intros r Hr. unfold load_bundle, manifest_from_file.
    set (path := path_join dir (lit "manifest.json")). specialize (Hread path).
    destruct (read_to_string path) as [content| |]; [|done|done]. cbn [omap_err obind]. specialize (Hjson content).
    destruct (manifest_from_json content) as [m| |]; [|done|done]. cbn [omap_err obind].
    pose proof (manifest_validate_total m). destruct (manifest_validate m) as [[]|e|] eqn:Hv; [|done|done].
    erewrite sbind_Ok by reflexivity. by apply set_bundle_call.
  - intros r Hr. pose proof (load_tune_file_spec f base r) as H. unfold sbind.
    destruct (load_tune_file f base r) as [[taken|e|] r']; [|exact H|done]. cbn.
    destruct H as (Hv & _ & Hbase & _ & Hm & _ & _ & Ht). destruct Hr as [Hmf Htf]. constructor; [by rewrite Hm|].
    intros arch gen key e b Hk. rewrite Ht in Hk.
    destruct (if taken then tuned f base arch gen key else None) as [x|] eqn:Hx; [|by rewrite (left_id None _) in Hk; eapply Htf].
    assert (tuned f base arch gen key = Some (e, b)) as Hx'.
    { destruct taken; [|done]. rewrite Hx. destruct (rg_tune_entries r !! _); cbn in Hk; by injection Hk as ->. }
    unfold tuned in Hx'. case_decide; [|done]. destruct (tf_entries f !! key) as [e'|] eqn:He; [|done].
    injection Hx' as -> ->. split; [by eapply tune_validate_ok|by eapply Hbase].
  - intros r [? ?]. by constructor.
  - intros r [? ?]. by constructor.
Qed.

Lemma perform_all_inv calls r : files_total → registry_inv r → registry_inv (perform_all calls r).
Proof.
  intros Hf. unfold perform_all. revert r. induction calls as [|c calls IH]; intros r Hr; [done|]. cbn. apply IH.
  pose proof (perform_reg_inv c Hf r Hr) as H. destruct (perform_reg c r) as [[[]|e|] r']; cbn; [done|by subst|done].
Qed.
End calls.

(** C30: whatever calls built a registry, its manifest and tune entries are valid
    (hashes are hexadecimal, code paths relative and below their base,
    architectures listed, geometries non-empty, local code has a base); a further
    call does not panic and changes nothing when refused; and a tune file only
    touches the entries of its own architecture and version. *)
Theorem registry_calls_safe read_to_string manifest_from_json config calls c :
  files_total read_to_string manifest_from_json →
  let r := perform_all read_to_string manifest_from_json calls (registry_new config) in
  registry_inv r ∧
  match perform_reg read_to_string manifest_from_json c r with
  | (Ok _, r') => registry_inv r' ∧
      ∀ f base, c = LoadTune f base → ∀ arch gen key,
        arch ≠ tf_arch f ∨ gen ≠ tf_gen_version f ∨ tf_entries f !! key = None →
        rg_tune_entries r' !! (arch, gen, key) = rg_tune_entries r !! (arch, gen, key)
  | (Err _, r') => r' = r
  | (Panic, _) => False
  end.
Proof.
  intros Hf r. assert (registry_inv r) as Hr by by apply perform_all_inv, registry_new_inv.
  split; [done|]. pose proof (perform_reg_inv _ _ c Hf r Hr) as H.
  destruct (perform_reg read_to_string manifest_from_json c r) as [[[]|e|] r'] eqn:Hrun; [|done..].
  split; [done|]. intros f base -> arch gen key Hother. cbn in Hrun.
  pose proof (load_tune_file_spec f base r) as Ht. unfold sbind in Hrun.
  destruct (load_tune_file f base r) as [[taken|?|] r1]; [|done..]. injection Hrun as <-.
  destruct Ht as (_ & _ & _ & _ & _ & _ & _ & ->). unfold tuned.
  destruct taken; [|by rewrite (left_id None _)]. case_decide as Hd; [|by rewrite (left_id None _)].
  destruct Hd as [-> ->]. destruct Hother as [?|[?|Hk]]; [done..|]. rewrite Hk. by rewrite (left_id None _).
Qed.

(** ** The order of the sources *)

(** A T2 entry is used only when it is validated. *)
Definition usable_t2 (arch : ArchName) (op : OpId.t) (shash : Z) (e : ManifestVariantEntry) : bool :=
  t2_candidate arch op shash e && me_validated e.

Lemma check_entry_matches e op : matches_request e op = true → check_entry_for e op = Ok tt.
Proof. unfold matches_request, check_entry_for. destruct (me_op e) as [o|]; [|done]. by intros ->. Qed.

Lemma shipped_t2_spec arch op shash entries :
  shipped_t2 arch op shash entries =
    match first_match (usable_t2 arch op shash) entries with
    | Some (k, e) => let* h := hash_of_key k in Ok (Some (shipped_variant arch op T2 h e))
    | None => Ok None
    end.
Proof.
  induction entries as [|[k e] entries IH]; simpl; [done|]. unfold usable_t2 at 1.
  destruct (t2_candidate arch op shash e) eqn:Hc; [|done]. simpl.
  unfold t2_candidate in Hc. apply andb_true_iff in Hc as [[[_ _]%andb_true_iff Hm]%andb_true_iff _].
  rewrite (check_entry_matches _ _ Hm). cbn [obind]. by destruct (me_validated e).
Qed.

Lemma shipped_t1_spec arch op shash entries :
  shipped_t1 arch op shash entries =
    match first_match (t1_candidate arch op shash) entries with
    | Some (k, e) => let* h := hash_of_key k in Ok (Some (shipped_variant arch op T1 h e))
    | None => Ok None
    end.
Proof.
  induction entries as [|[k e] entries IH]; simpl; [done|].
  destruct (t1_candidate arch op shash e) eqn:Hc; [|done].
  unfold t1_candidate in Hc. repeat apply andb_true_iff in Hc as [Hc ?].
  assert (me_op e = Some op) as Hop by by eapply bool_decide_eq_true.
  rewrite check_entry_matches; [done|]. unfold matches_request. rewrite Hop. by apply bool_decide_eq_true.
Qed.

Section resolution_spec.
Context (static_hash : OpStatic.t → Z) (variant_hash : VariantKey → Z).
Local Notation resolve := (resolve static_hash variant_hash).
Local Notation local_t2 := (local_t2 static_hash variant_hash).

(** The variant of the least usable entry of a tier. *)
Definition shipped (r : Registry) (p : ManifestVariantEntry → bool) (arch : ArchName) (op : OpId.t) (tier : Tier)
    (v : ResolvedVariant) : Prop :=
  ∃ m k e h, rg_manifest r = Some m ∧ least p (bm_variants m) k e ∧ from_hex k = Ok h ∧
    v = shipped_variant arch op tier h e.

(** A variant the JIT provider compiled and validated. *)
Definition compiled (r : Registry) (op : OpId.t) (arch : ArchName) (s : OpStatic.t) (v : ResolvedVariant) : Prop :=
  ∃ jit v0, allowed_jit r = Some jit ∧ jit op arch s = Ok v0 ∧ v_validated v0 = true ∧ v = with_local_origin v0.

(** Shipped T2, then local T2, then the JIT, then shipped T1: each source only
    when the ones before it have nothing. *)
Inductive chosen (r : Registry) (op : OpId.t) (arch : ArchName) (s : OpStatic.t) : ResolvedVariant → Prop :=
| chosen_shipped v :
    shipped r (usable_t2 arch op (static_hash s)) arch op T2 v → chosen r op arch s v
| chosen_local v :
    (∀ v, ¬ shipped r (usable_t2 arch op (static_hash s)) arch op T2 v) →
    local_t2 r op arch s = Some v → chosen r op arch s v
| chosen_compiled v :
    (∀ v, ¬ shipped r (usable_t2 arch op (static_hash s)) arch op T2 v) →
    local_t2 r op arch s = None → compiled r op arch s v → chosen r op arch s v
| chosen_fallback v :
    (∀ v, ¬ shipped r (usable_t2 arch op (static_hash s)) arch op T2 v) →
    local_t2 r op arch s = None → (∀ v, ¬ compiled r op arch s v) →
    shipped r (t1_candidate arch op (static_hash s)) arch op T1 v → chosen r op arch s v.





(** The provider answers. *)
Definition jit_total (r : Registry) : Prop :=
  ∀ jit op arch s, rg_jit_provider r = Some jit → jit op arch s ≠ Panic.

Lemma shipped_loop r m p arch op tier : manifest_ok m → rg_manifest r = Some m →
  match first_match p (sorted_entries (bm_variants m)) with
  | Some (k, e) => ∃ h, hash_of_key k = Ok h ∧ shipped r p arch op tier (shipped_variant arch op tier h e)
  | None => ∀ v, ¬ shipped r p arch op tier v
  end.
Proof.
  intros Hm Hr. pose proof (find_least p (bm_variants m)) as H. destruct (first_match _ _) as [[k e]|].
  - destruct (vo_hash _ _ _ (mo_variants _ Hm _ _ (proj1 H))) as [_ [h Hh]]. exists h.
    split; [unfold hash_of_key; by rewrite Hh|]. by exists m, k, e, h.
  - intros v (m' & k & e & h & Hm' & Hl & _). assert (m = m') as <- by congruence. by apply (H k e).
Qed.

Lemma jit_t2_spec r op arch s : jit_total r →
  match jit_t2 r op arch s with
  | Ok (Some v) => compiled r op arch s v
  | Ok None => ∀ v, ¬ compiled r op arch s v
  | _ => False
  end.
Proof.
  intros Hj. unfold jit_t2, compiled. destruct (allowed_jit r) as [jit|] eqn:Ha; [|by intros v (? & ? & ? & _)].
  assert (jit op arch s ≠ Panic) as Hp.
  { apply Hj. unfold allowed_jit in Ha. by destruct (rc_allow_jit (rg_config r)). }
  destruct (jit op arch s) as [v|e|] eqn:Hv; [| |done].
  - destruct (v_validated v) eqn:Hval; [by exists jit, v|]. intros v' (jit' & v0 & [= <-] & ? & ? & _). congruence.
  - intros v' (jit' & v0 & [= <-] & ? & _). congruence.
Qed.

(** What a listed architecture gets. *)
Definition serve_listed (r : Registry) (op : OpId.t) (arch : ArchName) (s : OpStatic.t) (m : BundleManifest)
    : RegResult ResolvedVariant :=
  let* found := shipped_t2 arch op (static_hash s) (sorted_entries (bm_variants m)) in
  match found with
  | Some v => Ok v
  | None =>
      match local_t2 r op arch s with
      | Some v => Ok v
      | None =>
          let* compiled := jit_t2 r op arch s in
          match compiled with Some v => Ok v | None => t1_fallback r op arch (static_hash s) end
      end
  end.

Lemma serve_listed_spec r op arch s m : manifest_ok m → rg_manifest r = Some m → jit_total r →
  match serve_listed r op arch s m with
  | Ok v => chosen r op arch s v
  | Err e => (∀ v, ¬ chosen r op arch s v) ∧ ∃ detail, e = T1FallbackFailed op arch detail
  | Panic => False
  end.
Proof.
  intros Hm Hr Hj. unfold serve_listed. rewrite shipped_t2_spec.
  pose proof (shipped_loop r m (usable_t2 arch op (static_hash s)) arch op T2 Hm Hr) as H2.
  destruct (first_match (usable_t2 _ _ _) _) as [[k e]|].
  { destruct H2 as (h & -> & H2). by apply chosen_shipped. }
  cbn [obind]. destruct (local_t2 r op arch s) as [v|] eqn:Hl; [by apply chosen_local|].
  pose proof (jit_t2_spec r op arch s Hj) as Hjit.
  destruct (jit_t2 r op arch s) as [[v|]|e|]; [by apply chosen_compiled| |done..].
  cbn [obind]. unfold t1_fallback. rewrite Hr, shipped_t1_spec.
  pose proof (shipped_loop r m (t1_candidate arch op (static_hash s)) arch op T1 Hm Hr) as H1.
  destruct (first_match (t1_candidate _ _ _) _) as [[k e]|].
  { destruct H1 as (h & -> & H1). by apply chosen_fallback. }
  split; [|by eexists]. intros v [|? ? ?|? ? ? ?|? ? ? ? ?]; naive_solver.
Qed.

(** Where nothing is chosen, no fallback ships. *)
Lemma no_chosen_no_fallback r op arch s : jit_total r → (∀ v, ¬ chosen r op arch s v) →
  ∀ v, ¬ shipped r (t1_candidate arch op (static_hash s)) arch op T1 v.
Proof.
  intros Hj Hno v Hv.
  assert (∀ v, ¬ shipped r (usable_t2 arch op (static_hash s)) arch op T2 v) as H2.
  { intros w Hw. by apply (Hno w), chosen_shipped. }
  destruct (local_t2 r op arch s) as [w|] eqn:Hl; [by apply (Hno w), chosen_local|].
  apply (Hno v), chosen_fallback; [done..| |done]. intros w Hw. by apply (Hno w), chosen_compiled.
Qed.

Definition request_ok (op : OpId.t) (s : OpStatic.t) : Prop := OpStatic.op_id s = op ∧ op_static_problems s = [].

Lemma resolve_request r op arch s :
  resolve r op arch s =
    if decide (OpStatic.op_id s = op) then
      match op_static_problems s with
      | [] => match rg_manifest r with
              | Some m => if manifest_supports m arch then serve_listed r op arch s m
                          else resolve_unlisted r op arch s
              | None => resolve_unlisted r op arch s
              end
      | problems => Err (ValidationFailed problems)
      end
    else Err (StaticOpMismatch op (OpStatic.op_id s)).
Proof.
  unfold Registry.resolve, OpStatic.check_pair, op_static_validate, refuse_registry, is_arch_supported.
  case_decide; cbn [obind]; [|done]. destruct (op_static_problems s); cbn [obind]; [|done].
  destruct (rg_manifest r) as [m|]; [|done]. by destruct (manifest_supports m arch).
Qed.
End resolution_spec.


(** C33: resolution does not fail where a fallback ships: whatever the valid
    descriptor, an op is served on the architecture of a validated T1 entry for
    the op that is not tied to one descriptor. *)
Theorem resolve_served static_hash variant_hash r op arch s m k e : registry_inv r → jit_total r →
  request_ok op s → rg_manifest r = Some m → bm_variants m !! k = Some e →
  me_tier e = T1 → me_arch e = arch → me_op e = Some op → me_static_hash e = None → me_validated e = true →
  ∃ v, resolve static_hash variant_hash r op arch s = Ok v.
Proof.
  intros Hr Hj [Hop Hp] Hm Hk Ht Ha Ho Hs Hv. pose proof (ri_manifest r Hr m Hm) as Hmok.
  rewrite resolve_request, decide_True, Hp, Hm by done.
  assert (manifest_supports m arch = true) as ->.
  { apply bool_decide_eq_true. rewrite <- Ha. by eapply vo_arch, mo_variants. }
  pose proof (serve_listed_spec static_hash variant_hash r op arch s m Hmok Hm Hj) as H.
  destruct serve_listed as [v|err|]; [by exists v| |done]. exfalso. destruct H as [Hno _].
  assert (t1_candidate arch op (static_hash s) e = true) as Hc.
  { unfold t1_candidate. rewrite Ht, Ha, Ho, Hs, Hv, !bool_decide_eq_true_2 by done. by rewrite orb_true_r. }
  pose proof (shipped_loop r m (t1_candidate arch op (static_hash s)) arch op T1 Hmok Hm) as H1.
  pose proof (first_match_spec (t1_candidate arch op (static_hash s)) (sorted_entries (bm_variants m))
    (StronglySorted_merge_sort _ _)) as Hfm.
  destruct (first_match _ _) as [[k' e']|].
  - destruct H1 as (h & _ & H1). apply (no_chosen_no_fallback static_hash variant_hash r op arch s Hj Hno _ H1).
  - apply elem_of_sorted_entries, Hfm in Hk. congruence.
Qed.
