(* ===== verification/RegistryUse.v ===== *)
(** * What a resolved variant is used for

    The two users of a registry: the capture of a step graph, which launches
    validated variants only, and the module loader, which reads code from under
    the base of a variant.  A small registry is the witness of the theorems. *)

From S2P Require Import Prelude Bytes SchedError Arena Capture CaptureSpec Ops RegStatic Registry RegistrySpec.

#[global] Open Scope Z_scope.

(** ** Captured graphs *)


Section captured.
Context (static_hash : OpStatic.t → Z) (variant_hash : VariantKey → Z) (to_string : RegistryError → Text).







End captured.


(** ** Modules come from under their base *)

Lemma pieces_app a b current : pieces (a ++ SLASH :: b) current = pieces a current ++ pieces b [].
Proof.
  revert current. induction a as [|x a IH]; intros current; cbn [app pieces].
  - by rewrite Z.eqb_refl.
  - destruct (x =? SLASH); cbn [app]; by rewrite IH.
Qed.

Lemma pieces_cons s current : ∃ first rest, pieces s current = first :: rest.
Proof. revert current. induction s as [|b s IH]; intros current; simpl; [eauto|]. destruct (b =? SLASH); eauto. Qed.

Lemma components_app a b : a ≠ [] →
  path_components (a ++ SLASH :: b) = path_components a ++ omap (piece_component false) (pieces b []).
Proof.
  intros Ha. unfold path_components. rewrite pieces_app. destruct (pieces_cons a []) as (first & rest & ->).
  cbn [app]. rewrite omap_app, app_assoc. f_equal. f_equal.
  assert (path_is_absolute (a ++ SLASH :: b) = path_is_absolute a) as ->; [|done].
  destruct a as [|x a]; [done|]. unfold path_is_absolute. cbn [app starts_with]. by rewrite !andb_true_r.
Qed.

Lemma parent_piece leading piece : piece_component leading piece = Some ParentDir → piece = lit "..".
Proof. unfold piece_component. repeat case_decide; by destruct leading. Qed.

Lemma parent_component b : path_is_absolute b = false → ParentDir ∈ omap (piece_component false) (pieces b []) →
  ParentDir ∈ path_components b.
Proof.
  intros Hb (piece & Hin & Hp)%list_elem_of_omap. apply parent_piece in Hp as ->.
  unfold path_components. destruct (pieces_cons b []) as (first & rest & Heq). rewrite Heq in Hin |- *. rewrite Hb.
  apply elem_of_app. apply elem_of_cons in Hin as [<-|Hin]; [left; by left|right].
  apply list_elem_of_omap. by exists (lit "..").
Qed.

(** Below [base], without climbing back. *)
Definition below (base p : list Z) : Prop :=
  ∃ tail, path_components p = path_components base ++ tail ∧ ParentDir ∉ tail.

Lemma path_join_below base rel : path_ok rel → below base (path_join base rel).
Proof.
  intros [Hrel Hup _]. unfold path_join, below. rewrite Hrel. case_decide as Hb.
  { subst base. by exists (path_components rel). }
  exists (omap (piece_component false) (pieces rel [])).
  assert (ParentDir ∉ omap (piece_component false) (pieces rel [])) as Hno by (intros H; by apply Hup, parent_component).
  split; [|done]. case_bool_decide as Hl; [|by apply components_app].
  apply last_Some in Hl as [base' ->]. rewrite <- app_assoc. cbn [app].
  destruct base' as [|x base']; [done|].
  rewrite (components_app (x :: base') rel), (components_app (x :: base') []) by done.
  by rewrite app_nil_r.
Qed.

Section load.
Context {Module_ : Type}.
Context (canonicalize : list Z → option (list Z)) (read_file : list Z → outcome Text (list Z))
        (load_data : list Z → outcome Text Module_).

(** The file reader and the module loader answer. *)
Definition loader_total : Prop := (∀ p, read_file p ≠ Panic) ∧ ∀ b, load_data b ≠ Panic.

(** Where the code of [v] may come from: its own bytes, or a file below the
    directory its origin names, whose resolved path does not leave it. *)
Definition code_source (r : Registry) (v : ResolvedVariant) (bytes : list Z) : Prop :=
  v_code_object_bytes v = Some bytes ∨
  v_code_object_bytes v = None ∧ ∃ path base, v_code_object_path v = Some path ∧ base_dir_of r v = Ok base ∧
    read_file (path_join base path) = Ok bytes ∧ below base (path_join base path) ∧
    ∀ canon_base canon_file, canonicalize base = Some canon_base →
      canonicalize (path_join base path) = Some canon_file → path_starts_with canon_file canon_base = true.

Lemma check_code_path_cases v path :
  match check_code_path v path with Ok _ => path_ok path | Err _ => True | Panic => False end.
Proof.
  unfold check_code_path. destruct (path_is_rooted path) eqn:?; [done|]. destruct (path_climbs path) eqn:?; [done|].
  destruct (is_blank path) eqn:?; [done|]. by apply path_checks_ok.
Qed.

Lemma base_dir_of_total r v : base_dir_of r v ≠ Panic.
Proof. unfold base_dir_of. repeat case_match; auto with total. Qed.

Lemma code_bytes_cases r v : loader_total →
  match code_bytes canonicalize read_file r v with
  | Ok bytes => code_source r v bytes
  | Err _ => True
  | Panic => False
  end.
Proof.
  intros [Hread _]. unfold code_bytes, code_source.
  destruct (v_code_object_bytes v) as [b|]; [by left|]. destruct (v_code_object_path v) as [path|]; [|done].
  unfold code_file. pose proof (check_code_path_cases v path) as Hc.
  destruct (check_code_path v path) as [[]|e|]; [|done|done]. cbn [obind].
  pose proof (base_dir_of_total r v). destruct (base_dir_of r v) as [base|e|] eqn:Hb; [|done|done]. cbn [obind].
  destruct (match canonicalize base with Some _ => _ | None => _ end) eqn:Hesc; [done|]. cbn [obind].
  specialize (Hread (path_join base path)). destruct (read_file (path_join base path)) as [bytes| |] eqn:Hbytes; [|done..].
  right. split; [done|]. exists path, base. split_and!; [done..|by apply path_join_below|].
  intros cb cf Hcb Hcf. rewrite Hcb, Hcf in Hesc. by apply negb_false_iff in Hesc.
Qed.

Lemma load_module_cases r v c : loader_total →
  match load_module canonicalize read_file load_data r v c with
  | (Ok m, c') => v_validated v = true ∧ mc_poisoned c = false ∧
      (mc_modules c !! v_variant_hash v = Some m ∧ c' = c ∨
       mc_modules c !! v_variant_hash v = None ∧ mc_poisoned c' = false ∧
       mc_modules c' = <[v_variant_hash v := m]> (mc_modules c) ∧
       ∃ bytes, code_source r v bytes ∧ load_data bytes = Ok m)
  | (Err _, c') => c' = c
  | (Panic, _) => False
  end.
Proof.
  intros Hl. unfold load_module. destruct (v_validated v); [|done]. cbn [negb]. unfold sbind at 1, with_lock, sread.
  destruct (mc_poisoned c) eqn:Hp; [done|]. destruct (mc_modules c !! v_variant_hash v) as [m|] eqn:Hk; [cbn; by auto|].
  pose proof (code_bytes_cases r v Hl) as Hb. unfold sbind at 1, slift.
  destruct (code_bytes canonicalize read_file r v) as [bytes|e|]; [|done|done].
  unfold sbind at 1. pose proof (proj2 Hl bytes) as Hd. destruct (load_data bytes) as [m|e|] eqn:Hm; [|done|done].
  cbn [omap_err]. unfold insert_loaded_module, with_lock, sread, sbind. cbn. rewrite Hp. cbn.
  split_and!; [done|done|]. right. split_and!; [done|done|done|by exists bytes].
Qed.
End load.

(** C32: a module is loaded from under its base.  Loading never panics and a refusal
    leaves the shared cache alone; a success is of a validated variant, from the
    cache unchanged, or newly added under the variant's hash and no other, from
    the variant's own bytes or from a file whose path stays below the directory
    of its origin, lexically and after resolving links; loading it again is
    answered from the cache, whatever the files have become. *)
Theorem load_module_confined {Module_} canonicalize read_file (load_data : list Z → outcome Text Module_) r v c :
  loader_total read_file load_data →
  match load_module canonicalize read_file load_data r v c with
  | (Ok m, c') => v_validated v = true ∧
      (mc_modules c !! v_variant_hash v = Some m ∧ c' = c ∨
       mc_modules c !! v_variant_hash v = None ∧ mc_modules c' = <[v_variant_hash v := m]> (mc_modules c) ∧
       ∃ bytes, code_source canonicalize read_file r v bytes ∧ load_data bytes = Ok m) ∧
      ∀ canonicalize' read_file' load_data', load_module canonicalize' read_file' load_data' r v c' = (Ok m, c')
  | (Err _, c') => c' = c
  | (Panic, _) => False
  end.
Proof.
  intros Hl. pose proof (load_module_cases canonicalize read_file load_data r v c Hl) as H.
  destruct (load_module canonicalize read_file load_data r v c) as [[m|e|] c']; [|done|done].
  destruct H as (Hv & Hp & H). split; [done|]. split; [naive_solver|]. intros can' read' load'.
  assert (mc_poisoned c' = false ∧ mc_modules c' !! v_variant_hash v = Some m) as [Hp' Hk].
  { destruct H as [[? ->]|(_ & ? & Hm & _)]; [done|]. split; [done|]. rewrite Hm. by rewrite lookup_insert_eq. }
  unfold load_module, sbind, with_lock, sread. rewrite Hv. cbn [negb]. by rewrite Hp', Hk.
Qed.

(** ** A small registry *)

Definition demo_arch : ArchName := lit "gfx1100".
Definition demo_geometry : LaunchGeometry := {| g_grid := (4, 1, 1); g_block := (64, 1, 1); g_shared_mem_bytes := 0 |}.

Definition demo_entry (tier : Tier) (op : option OpId.t) (hash : option Z) (validated : bool) : ManifestVariantEntry :=
  {| me_arch := demo_arch; me_file := lit "gfx1100/kernel.co"; me_tier := tier; me_entry_symbol := lit "kernel";
     me_launch_geometry := demo_geometry; me_workspace_bytes := 256; me_static_bytes := 0; me_static_flops := 0;
     me_op := op; me_static_hash := hash; me_validated := validated; me_validated_on := None |}.

(** A validated T2 matmul for descriptor hash 7 behind an unvalidated one, a T1
    matmul for any, and an untagged T1. *)
Definition demo_manifest : BundleManifest :=
  insert_variant 1 (demo_entry T2 (Some OpId.Matmul) (Some 7) false)
  (insert_variant 2 (demo_entry T2 (Some OpId.Matmul) (Some 7) true)
  (insert_variant 3 (demo_entry T1 (Some OpId.Matmul) None true)
  (insert_variant 4 (demo_entry T1 None None true) (manifest_new 1 [demo_arch])))).

Definition demo_matmul : OpStatic.t := OpStatic.Matmul
  {| mms_m_bucket := 1; mms_n := 8; mms_k := 8; mms_w_dtype := DType.F16; mms_w_scheme := QuantScheme.None;
     mms_w_layout := LayoutId.CONTIGUOUS; mms_in_dtype := DType.F16; mms_act_scheme := QuantScheme.None;
     mms_out_dtype := DType.F16; mms_epilogue := Epilogue.None; mms_residual_dtype := None;
     mms_transpose_w := false; mms_interleave := false; mms_sparse := false |}.
Definition demo_sample : OpStatic.t := OpStatic.Sampling (SamplingStatic.Sample
  {| sms_s_bucket := 1; sms_v := 100; sms_rng := RngAlgorithm.Philox4x32 |}).

Definition demo_read (path : list Z) : outcome Text (list Z) := Ok path.
Definition demo_json (content : list Z) : outcome Text BundleManifest := Err (msg "not a manifest" []).

Definition demo_calls : list reg_call := [SetManifest demo_manifest (Some (lit "/bundle"))].
Definition demo_registry : Registry :=
  perform_all demo_read demo_json demo_calls (registry_new registry_config_default).

(** Hash functions that tell matmuls from the rest. *)
Definition demo_static_hash (s : OpStatic.t) : Z := match s with OpStatic.Matmul _ => 7 | _ => 8 end.
Definition demo_variant_hash (k : VariantKey) : Z := 9.

Lemma demo_files_total : files_total demo_read demo_json.
Proof. done. Qed.
Lemma demo_registry_inv : registry_inv demo_registry.
Proof. apply perform_all_inv; [apply demo_files_total|apply registry_new_inv]. Qed.
Lemma demo_manifest_loaded : rg_manifest demo_registry = Some demo_manifest.
Proof. reflexivity. Qed.
Lemma demo_no_jit : rg_jit_provider demo_registry = None.
Proof. vm_compute. reflexivity. Qed.
Lemma demo_jit_total : jit_total demo_registry.
Proof. intros jit op arch s. by rewrite demo_no_jit. Qed.

Definition demo_resolve (op : OpId.t) (s : OpStatic.t) : RegResult ResolvedVariant :=
  resolve demo_static_hash demo_variant_hash demo_registry op demo_arch s.

(** The unvalidated entry with the smaller hash is passed over. *)
Example demo_resolves : omap_err (λ _, tt) (let* v := demo_resolve OpId.Matmul demo_matmul in
  Ok (v_variant_hash v, v_tier v, v_validated v)) = Ok (2, T2, true).
Proof. vm_compute. reflexivity. Qed.

(** The documentation calls untagged T1 entries generic fallbacks that match any
    request; the T1 loop asks for the tag and never uses one. *)
Lemma untagged_fallback_unused arch op shash e : me_op e = None →
  matches_request e op = true ∧ t1_candidate arch op shash e = false.
Proof. intros H. unfold matches_request, t1_candidate. rewrite H. cbn. by rewrite !andb_false_r. Qed.

Example demo_untagged_unused : matches_request (demo_entry T1 None None true) OpId.Sample = true ∧
  demo_resolve OpId.Sample demo_sample = Err (T1FallbackFailed OpId.Sample demo_arch
    (msg "no validated T1 entry found in manifest for op '{op}' on arch '{arch}'" [Name "sample"; Str demo_arch])).
Proof. vm_compute. split; reflexivity. Qed.

Lemma registry_calls_safe_witness :
  registry_inv demo_registry ∧
  (perform_reg demo_read demo_json (SetManifest (manifest_new 2 [demo_arch]) None) demo_registry).1 =
    Err (GenVersionMismatch 1 2 None) ∧
  (perform_reg demo_read demo_json (SetManifest (manifest_new 2 [demo_arch]) None) demo_registry).2 = demo_registry.
Proof.
  pose proof (registry_calls_safe demo_read demo_json registry_config_default demo_calls
    (SetManifest (manifest_new 2 [demo_arch]) None) demo_files_total) as [Hinv H].
  split; [exact Hinv|]. split; reflexivity.
Defined.


Lemma resolve_served_witness : ∃ v,
  resolve (λ _, 5) demo_variant_hash demo_registry OpId.Matmul demo_arch demo_matmul = Ok v.
Proof.
  apply (resolve_served (λ _, 5) demo_variant_hash demo_registry OpId.Matmul demo_arch demo_matmul demo_manifest
    (to_hex 3) (demo_entry T1 (Some OpId.Matmul) None true) demo_registry_inv demo_jit_total);
    [split; reflexivity|apply demo_manifest_loaded|vm_compute; reflexivity|reflexivity..].
Defined.





Lemma load_module_confined_witness : ∃ v, demo_resolve OpId.Matmul demo_matmul = Ok v ∧
  load_module (λ _, None) demo_read (λ bytes, Ok bytes) demo_registry v (Build_ModuleCache ∅ false) =
    (Ok (lit "/bundle/gfx1100/kernel.co"), Build_ModuleCache {[2 := lit "/bundle/gfx1100/kernel.co"]} false) ∧
  code_source (λ _, None) demo_read demo_registry v (lit "/bundle/gfx1100/kernel.co").
Proof.
  eexists. split; [vm_compute; reflexivity|].
  match goal with |- load_module _ _ _ _ ?v ?c = _ ∧ _ =>
    pose proof (load_module_confined (λ _, None) demo_read (λ bytes, Ok bytes) demo_registry v c
      ltac:(split; done)) as H end.
  split; [vm_compute; reflexivity|].
  revert H. vm_compute load_module. intros (_ & [[[=] _]|(_ & _ & bytes & Hsrc & [= ->])] & _). exact Hsrc.
Defined.
