(* ===== verification/Sharding.v ===== *)
(** * Sharding, fusion and numerics tables of the ops

    The declared tables of the Op IR: the legal sharding layouts of
    [crates/r9v-ir/src/sharding.rs], the closed fusion table of
    [crates/r9v-ir/src/fusion.rs] and the numerics contracts of
    [crates/r9v-ir/src/numerics.rs] and [op.rs].  A rule matches a tuple of
    layouts exactly when one choice of the symbolic head and expert counts
    makes it that tuple; the op validator and the tables agree on arities, but
    for a matrix product with a fused operand; a fusion is granted only for a
    pattern of the table; an op that validates has a numerics contract. *)

From S2P Require Import Prelude Bytes Errors Ops OpCheck OpMove OpMatmul OpSample OpValidate.

#[global] Open Scope Z_scope.

(** ** Layout patterns *)

(** [HeadCount] and [ExpertCount] are the same sum under two names. *)
Module HeadCount.
Inductive t : Type := Concrete (n : Z) | Symbolic.
End HeadCount.

Module ExpertCount.
Inductive t : Type := Concrete (n : Z) | Symbolic.
End ExpertCount.

Module Pattern.
Inductive t : Type :=
| Replicated
| ColShard (axis : Z)
| RowShard (axis : Z)
| HeadShard (heads : HeadCount.t)
| ExpertShard (experts : ExpertCount.t)
| Partial.

Definition matches_layout (p : t) (layout : ShardLayout.t) : bool :=
  match p, layout with
  | Replicated, ShardLayout.Replicated => true
  | ColShard a1, ShardLayout.ColShard a2 => a1 =? a2
  | RowShard a1, ShardLayout.RowShard a2 => a1 =? a2
  | HeadShard heads, ShardLayout.HeadShard concrete =>
      match heads with
      | HeadCount.Concrete expected => (0 <? concrete) && (concrete =? expected)
      | HeadCount.Symbolic => 0 <? concrete
      end
  | ExpertShard experts, ShardLayout.ExpertShard concrete =>
      match experts with
      | ExpertCount.Concrete expected => (0 <? concrete) && (concrete =? expected)
      | ExpertCount.Symbolic => 0 <? concrete
      end
  | Partial, ShardLayout.Partial => true
  | _, _ => false
  end.

Definition to_concrete (p : t) (heads experts : Z) : option ShardLayout.t :=
  match p with
  | Replicated => Some ShardLayout.Replicated
  | ColShard axis => Some (ShardLayout.ColShard axis)
  | RowShard axis => Some (ShardLayout.RowShard axis)
  | HeadShard HeadCount.Symbolic => if 0 <? heads then Some (ShardLayout.HeadShard heads) else None
  | HeadShard (HeadCount.Concrete c) => if 0 <? c then Some (ShardLayout.HeadShard c) else None
  | ExpertShard ExpertCount.Symbolic => if 0 <? experts then Some (ShardLayout.ExpertShard experts) else None
  | ExpertShard (ExpertCount.Concrete c) => if 0 <? c then Some (ShardLayout.ExpertShard c) else None
  | Partial => Some ShardLayout.Partial
  end.
End Pattern.

Notation HeadShard_symbolic := (Pattern.HeadShard HeadCount.Symbolic) (only parsing).
Notation ExpertShard_symbolic := (Pattern.ExpertShard ExpertCount.Symbolic) (only parsing).

(** ** Rules *)

Record ShardingRule : Type := { ru_inputs : list Pattern.t; ru_outputs : list Pattern.t }.

Definition rule (inputs outputs : list Pattern.t) : ShardingRule :=
  {| ru_inputs := inputs; ru_outputs := outputs |}.

Definition rule_output (r : ShardingRule) : option Pattern.t := ru_outputs r !! 0%nat.
Definition as_tuple (r : ShardingRule) : list Pattern.t * list Pattern.t := (ru_inputs r, ru_outputs r).

(** The two counts [match_pattern_with_bindings] binds. *)
Record Bindings : Type := { bound_heads : option Z; bound_experts : option Z }.

Definition unbound : Bindings := {| bound_heads := None; bound_experts := None |}.

(** [None] is the answer false, after which no caller reads the bindings. *)
Definition match_pattern_with_bindings (pattern : Pattern.t) (layout : ShardLayout.t) (b : Bindings)
    : option Bindings :=
  match pattern, layout with
  | Pattern.Replicated, ShardLayout.Replicated => Some b
  | Pattern.ColShard a1, ShardLayout.ColShard a2 => if a1 =? a2 then Some b else None
  | Pattern.RowShard a1, ShardLayout.RowShard a2 => if a1 =? a2 then Some b else None
  | Pattern.HeadShard heads, ShardLayout.HeadShard concrete =>
      if concrete =? 0 then None
      else match heads with
           | HeadCount.Concrete expected => if concrete =? expected then Some b else None
           | HeadCount.Symbolic =>
               match bound_heads b with
               | Some existing => if existing =? concrete then Some b else None
               | None => Some {| bound_heads := Some concrete; bound_experts := bound_experts b |}
               end
           end
  | Pattern.ExpertShard experts, ShardLayout.ExpertShard concrete =>
      if concrete =? 0 then None
      else match experts with
           | ExpertCount.Concrete expected => if concrete =? expected then Some b else None
           | ExpertCount.Symbolic =>
               match bound_experts b with
               | Some existing => if existing =? concrete then Some b else None
               | None => Some {| bound_heads := bound_heads b; bound_experts := Some concrete |}
               end
           end
  | Pattern.Partial, ShardLayout.Partial => Some b
  | _, _ => None
  end.

(** The two [for] loops: patterns and layouts in step, the bindings threaded. *)
Fixpoint match_all (pairs : list (Pattern.t * ShardLayout.t)) (b : Bindings) : option Bindings :=
  match pairs with
  | [] => Some b
  | (p, l) :: rest => match match_pattern_with_bindings p l b with Some b' => match_all rest b' | None => None end
  end.

Definition rule_arity {A} (r : ShardingRule) (inputs outputs : list A) : bool :=
  (length (ru_inputs r) =? length inputs)%nat && (length (ru_outputs r) =? length outputs)%nat.

Definition rule_matches (r : ShardingRule) (inputs outputs : list ShardLayout.t) : bool :=
  if negb (rule_arity r inputs outputs) then false
  else match match_all (zip (ru_inputs r) inputs) unbound with
       | None => false
       | Some b => bool_decide (is_Some (match_all (zip (ru_outputs r) outputs) b))
       end.

(** What [matches_tensors] asks of one tensor's declared sharding. *)
Definition sharding_fits (t : Tensor) : bool :=
  match tn_sharding t with
  | ShardLayout.ColShard axis | ShardLayout.RowShard axis => axis <? Z.of_nat (rank t)
  | ShardLayout.HeadShard heads => negb (heads =? 0)
  | ShardLayout.ExpertShard experts => negb (experts =? 0)
  | ShardLayout.Replicated | ShardLayout.Partial => true
  end.

Definition rule_matches_tensors (r : ShardingRule) (inputs outputs : list Tensor) : bool :=
  if negb (rule_arity r inputs outputs) then false
  else if negb (forallb sharding_fits (inputs ++ outputs)) then false
  else match match_all (zip (ru_inputs r) (tn_sharding <$> inputs)) unbound with
       | None => false
       | Some b => bool_decide (is_Some (match_all (zip (ru_outputs r) (tn_sharding <$> outputs)) b))
       end.

(** ** The tables *)

Section Tables.
Import Pattern.

Definition EMBED_GATHER_RULES : list ShardingRule :=
  [rule [Replicated; Replicated] [Replicated];
   rule [Replicated; RowShard 0] [Partial]].

Definition NGRAM_GATHER_RULES : list ShardingRule :=
  [rule [Replicated; Replicated] [Replicated];
   rule [RowShard 1; RowShard 1] [RowShard 1];
   rule [RowShard 1; Replicated] [RowShard 1]].

Definition QUANT_ACT_RULES : list ShardingRule :=
  [rule [Replicated] [Replicated; Replicated];
   rule [ColShard 1] [ColShard 1; Replicated]].

Definition PASSTHROUGH_RULES : list ShardingRule :=
  [rule [Replicated] [Replicated];
   rule [ColShard 0] [ColShard 0];
   rule [ColShard 1] [ColShard 1];
   rule [RowShard 0] [RowShard 0];
   rule [RowShard 1] [RowShard 1];
   rule [HeadShard_symbolic] [HeadShard_symbolic];
   rule [ExpertShard_symbolic] [ExpertShard_symbolic]].

Definition GATHER_ROWS_RULES : list ShardingRule :=
  [rule [Replicated; Replicated] [Replicated];
   rule [ColShard 1; Replicated] [ColShard 1]].

Definition SCATTER_ADD_ROWS_RULES : list ShardingRule :=
  [rule [Replicated; Replicated] [Replicated];
   rule [ColShard 1; Replicated] [ColShard 1];
   rule [Replicated; Replicated; Replicated] [Replicated];
   rule [ColShard 1; Replicated; ColShard 1] [ColShard 1]].

Definition NORM_RULES : list ShardingRule :=
  [rule [Replicated; Replicated] [Replicated];
   rule [Replicated; Replicated; Replicated] [Replicated]].

Definition RESIDUAL_ADD_RULES : list ShardingRule :=
  [rule [Replicated; Replicated] [Replicated];
   rule [Partial; Replicated] [Partial];
   rule [Replicated; Partial] [Partial];
   rule [Partial; Partial] [Partial];
   rule [ColShard 1; ColShard 1] [ColShard 1];
   rule [RowShard 1; RowShard 1] [RowShard 1];
   rule [HeadShard_symbolic; HeadShard_symbolic] [HeadShard_symbolic]].

Definition ACT_MUL_RULES : list ShardingRule :=
  [rule [Replicated; Replicated] [Replicated];
   rule [ColShard 1; ColShard 1] [ColShard 1]].

Definition ACTIVATION_RULES : list ShardingRule :=
  [rule [Replicated] [Replicated];
   rule [ColShard 1] [ColShard 1]].

Definition ROPE_RULES : list ShardingRule :=
  [rule [Replicated; Replicated] [Replicated];
   rule [HeadShard_symbolic; Replicated] [HeadShard_symbolic]].

Definition MATMUL_RULES : list ShardingRule :=
  [rule [Replicated; ColShard 0] [ColShard 1];
   rule [ColShard 1; RowShard 1] [Partial];
   rule [Replicated; Replicated] [Replicated]].

Definition MOE_ROUTE_RULES : list ShardingRule :=
  [rule [Replicated] [Replicated; Replicated];
   rule [Replicated; Replicated] [Replicated; Replicated]].

Definition MOE_FFN_RULES : list ShardingRule :=
  [rule [Replicated; Replicated; Replicated; ExpertShard_symbolic; ExpertShard_symbolic] [Partial];
   rule [Replicated; Replicated; Replicated; Replicated; Replicated] [Replicated]].

Definition STATE_WRITE_KV_RULES : list ShardingRule :=
  [rule [Replicated; Replicated] [];
   rule [HeadShard_symbolic; HeadShard_symbolic] []].

Definition ATTENTION_RULES : list ShardingRule :=
  [rule [Replicated] [Replicated];
   rule [HeadShard_symbolic] [HeadShard_symbolic]].

Definition CAUSAL_CONV1D_RULES : list ShardingRule :=
  [rule [Replicated; Replicated] [Replicated];
   rule [ColShard 1; ColShard 0] [ColShard 1];
   rule [Replicated; Replicated; Replicated] [Replicated];
   rule [ColShard 1; ColShard 0; ColShard 0] [ColShard 1]].

Definition LINEAR_ATTN_SCAN_RULES : list ShardingRule :=
  [rule [Replicated; Replicated; Replicated; Replicated; Replicated] [Replicated];
   rule [HeadShard_symbolic; HeadShard_symbolic; HeadShard_symbolic; HeadShard_symbolic; HeadShard_symbolic] [HeadShard_symbolic]].

Definition LOGITS_POSTPROCESS_RULES : list ShardingRule :=
  [rule [Replicated] [Replicated];
   rule [Replicated; Replicated] [Replicated];
   rule [Replicated; Replicated; Replicated] [Replicated]].

Definition SAMPLE_RULES : list ShardingRule :=
  [rule [Replicated] [Replicated]].

Definition VERIFY_RULES : list ShardingRule :=
  [rule [Replicated; Replicated] [Replicated; Replicated];
   rule [Replicated; Replicated; Replicated] [Replicated; Replicated]].

Definition ALL_REDUCE_RULES : list ShardingRule :=
  [rule [Partial] [Replicated]].

Definition ALL_GATHER_RULES : list ShardingRule :=
  [rule [ColShard 0] [Replicated];
   rule [ColShard 1] [Replicated];
   rule [RowShard 0] [Replicated];
   rule [RowShard 1] [Replicated]].

Definition REDUCE_SCATTER_RULES : list ShardingRule :=
  [rule [Partial] [RowShard 0];
   rule [Partial] [RowShard 1];
   rule [Partial] [ColShard 0];
   rule [Partial] [ColShard 1]].

Definition ALL_TO_ALL_RULES : list ShardingRule :=
  [rule [ExpertShard_symbolic; Replicated] [ExpertShard_symbolic];
   rule [Replicated; Replicated] [Replicated]].

Definition SEND_RULES : list ShardingRule :=
  [rule [Replicated] [];
   rule [ColShard 0] [];
   rule [ColShard 1] []].

Definition RECV_RULES : list ShardingRule :=
  [rule [] [Replicated];
   rule [] [ColShard 0];
   rule [] [ColShard 1]].

Definition BARRIER_RULES : list ShardingRule :=
  [rule [] []].

Definition SPLIT_RULES : list ShardingRule :=
  [rule [Replicated] [Replicated; Replicated]].

Definition CONCAT_RULES : list ShardingRule :=
  [rule [Replicated; Replicated] [Replicated]].

Definition LOGIT_SOFTCAP_RULES : list ShardingRule :=
  [rule [Replicated] [Replicated]].
End Tables.

Definition legal_layouts (op : Op.t) : list ShardingRule :=
  match op with
  | Op.EmbedGather _ => EMBED_GATHER_RULES
  | Op.NgramGather _ => NGRAM_GATHER_RULES
  | Op.QuantAct _ => QUANT_ACT_RULES
  | Op.Cast _ => PASSTHROUGH_RULES
  | Op.Copy _ => PASSTHROUGH_RULES
  | Op.GatherRows => GATHER_ROWS_RULES
  | Op.ScatterAddRows => SCATTER_ADD_ROWS_RULES
  | Op.Split _ => SPLIT_RULES
  | Op.Concat => CONCAT_RULES
  | Op.Norm _ => NORM_RULES
  | Op.ResidualAdd _ => RESIDUAL_ADD_RULES
  | Op.ActMul _ => ACT_MUL_RULES
  | Op.Activation _ => ACTIVATION_RULES
  | Op.LogitSoftcap _ => LOGIT_SOFTCAP_RULES
  | Op.Rope _ => ROPE_RULES
  | Op.Matmul _ => MATMUL_RULES
  | Op.MoeRoute _ => MOE_ROUTE_RULES
  | Op.MoeFfn _ => MOE_FFN_RULES
  | Op.StateWriteKv _ => STATE_WRITE_KV_RULES
  | Op.Attention _ => ATTENTION_RULES
  | Op.CausalConv1d _ => CAUSAL_CONV1D_RULES
  | Op.LinearAttnScan _ => LINEAR_ATTN_SCAN_RULES
  | Op.LogitsPostprocess => LOGITS_POSTPROCESS_RULES
  | Op.Sample _ => SAMPLE_RULES
  | Op.Verify _ => VERIFY_RULES
  | Op.AllReduce _ => ALL_REDUCE_RULES
  | Op.AllGather _ => ALL_GATHER_RULES
  | Op.ReduceScatter _ => REDUCE_SCATTER_RULES
  | Op.AllToAll _ => ALL_TO_ALL_RULES
  | Op.Send _ => SEND_RULES
  | Op.Recv _ => RECV_RULES
  | Op.Barrier _ => BARRIER_RULES
  end.

Definition legal_layout_tuples (op : Op.t) : list (list Pattern.t * list Pattern.t) :=
  as_tuple <$> legal_layouts op.

(** ** Fusion *)

Module FusionPattern.
Inductive t : Type :=
| ResidualAddNorm
| NormQuantAct
| MatmulEpilogue
| GatedMatmulActMul
| RopeStateWriteKv
| RopeAttentionPrefill
| StateWriteKvAttentionDecode
| LogitsPostprocessSample
| QuantActAllToAll.

#[global] Instance eq_dec : EqDecision t.
Proof. solve_decision. Defined.
End FusionPattern.

Record FusionEntry : Type := {
  fe_pattern : FusionPattern.t; fe_description : string; fe_condition : option string
}.

Definition FUSION_TABLE : list FusionEntry :=
  [{| fe_pattern := FusionPattern.ResidualAddNorm;
      fe_description := "fused add-norm, f32 stats"; fe_condition := None |};
   {| fe_pattern := FusionPattern.NormQuantAct;
      fe_description := "norm emits quantized activation + per-token scale directly"; fe_condition := None |};
   {| fe_pattern := FusionPattern.MatmulEpilogue; fe_description := "epilogue"; fe_condition := None |};
   {| fe_pattern := FusionPattern.GatedMatmulActMul;
      fe_description := "interleaved gate/up GEMM with gated epilogue"; fe_condition := None |};
   {| fe_pattern := FusionPattern.RopeStateWriteKv;
      fe_description := "rope applied on the write path"; fe_condition := None |};
   {| fe_pattern := FusionPattern.RopeAttentionPrefill;
      fe_description := "rope applied in the Q load"; fe_condition := Some "prefill" |};
   {| fe_pattern := FusionPattern.StateWriteKvAttentionDecode;
      fe_description := "single launch: write the new K/V, then attend; prefill keeps them separate";
      fe_condition := Some "decode, query_len <= 16" |};
   {| fe_pattern := FusionPattern.LogitsPostprocessSample;
      fe_description := "single sampling kernel"; fe_condition := None |};
   {| fe_pattern := FusionPattern.QuantActAllToAll;
      fe_description := "dispatch already-quantized tokens"; fe_condition := Some "EP" |}].

Definition is_permitted_fusion (pattern : FusionPattern.t) : bool :=
  existsb (λ entry, bool_decide (fe_pattern entry = pattern)) FUSION_TABLE.

Definition no_epilogue (e : Epilogue.t) : bool := match e with Epilogue.None => true | _ => false end.

Definition match_pair (producer consumer : Op.t) : option FusionPattern.t :=
  match producer, consumer with
  | Op.ResidualAdd _, Op.Norm _ => Some FusionPattern.ResidualAddNorm
  | Op.Norm _, Op.QuantAct _ => Some FusionPattern.NormQuantAct
  | Op.Matmul matmul, (Op.ResidualAdd _ | Op.Activation _) =>
      if no_epilogue (mm_epilogue matmul) then Some FusionPattern.MatmulEpilogue else None
  | Op.Rope _, Op.StateWriteKv _ => Some FusionPattern.RopeStateWriteKv
  | Op.Rope _, Op.Attention _ => Some FusionPattern.RopeAttentionPrefill
  | Op.StateWriteKv _, Op.Attention _ => Some FusionPattern.StateWriteKvAttentionDecode
  | Op.LogitsPostprocess, Op.Sample _ => Some FusionPattern.LogitsPostprocessSample
  | Op.QuantAct _, Op.AllToAll _ => Some FusionPattern.QuantActAllToAll
  | _, _ => None
  end.

Definition is_permitted_pair (producer consumer : Op.t) : option FusionPattern.t := match_pair producer consumer.

Definition match_gated_pair (gate_producer up_producer consumer : Op.t) : option FusionPattern.t :=
  match gate_producer, up_producer, consumer with
  | Op.Matmul gate, Op.Matmul up, Op.ActMul _ =>
      if no_epilogue (mm_epilogue gate) && no_epilogue (mm_epilogue up)
      then Some FusionPattern.GatedMatmulActMul else None
  | _, _, _ => None
  end.

Definition match_chain (ops : list Op.t) : option FusionPattern.t :=
  match ops with [producer; consumer] => is_permitted_pair producer consumer | _ => None end.

(** ** Numerics *)

Module ReductionOrder.
Inductive t : Type :=
| None | AscendingK | AscendingBlock | AscendingAxis | AscendingRank | AscendingIndex.
End ReductionOrder.

Record Numerics : Type := { nu_accumulator : option DType.t; nu_reduction_order : ReductionOrder.t }.

Definition numerics_new (accumulator : option DType.t) (order : ReductionOrder.t) : outcome IrError Numerics :=
  let accepted := Ok {| nu_accumulator := accumulator; nu_reduction_order := order |} in
  match accumulator with
  | Some acc =>
      if bool_decide (acc ≠ DType.F32) && bool_decide (acc ≠ DType.I32) then Err (InvalidAccumulator acc)
      else accepted
  | None => accepted
  end.

Definition numerics_f32 (order : ReductionOrder.t) : Numerics :=
  {| nu_accumulator := Some DType.F32; nu_reduction_order := order |}.
Definition numerics_i32 (order : ReductionOrder.t) : Numerics :=
  {| nu_accumulator := Some DType.I32; nu_reduction_order := order |}.
Definition numerics_none : Numerics :=
  {| nu_accumulator := None; nu_reduction_order := ReductionOrder.None |}.

Definition valid_x_quant (x_dtype : DType.t) (x_quant : QuantScheme.t) : outcome IrError bool :=
  match x_dtype with
  | DType.F16 | DType.Bf16 => Ok (bool_decide (x_quant = QuantScheme.None))
  | DType.I8 => Ok (match x_quant with QuantScheme.PerToken | QuantScheme.PerBlock32 => true | _ => false end)
  | DType.E4m3 => Ok (bool_decide (x_quant = QuantScheme.PerToken))
  | DType.F32 | DType.E5m2 | DType.I4 | DType.I32 | DType.U32 | DType.Bool =>
      Err (OpDTypeMismatch "matmul" "x" [DType.F16; DType.Bf16; DType.I8; DType.E4m3] x_dtype)
  end.

Definition valid_w_quant (w_dtype : DType.t) (w_quant : QuantScheme.t) : outcome IrError bool :=
  match w_dtype with
  | DType.I4 | DType.I8 | DType.E4m3 =>
      Ok (match w_quant with QuantScheme.PerRow | QuantScheme.Scheme _ => true | _ => false end)
  | DType.F16 => Ok (bool_decide (w_quant = QuantScheme.None))
  | DType.F32 | DType.Bf16 | DType.E5m2 | DType.I32 | DType.U32 | DType.Bool =>
      Err (OpDTypeMismatch "matmul" "w" [DType.I4; DType.I8; DType.E4m3; DType.F16] w_dtype)
  end.

Definition matmul_order (x_quant w_quant : QuantScheme.t) : ReductionOrder.t :=
  if bool_decide (x_quant = QuantScheme.PerBlock32)
     || match w_quant with QuantScheme.Scheme _ => true | _ => false end
  then ReductionOrder.AscendingBlock else ReductionOrder.AscendingK.

Definition matmul_numerics (x_dtype w_dtype : DType.t) (x_quant w_quant : QuantScheme.t)
    : outcome IrError Numerics :=
  let* vx := valid_x_quant x_dtype x_quant in
  if negb vx then Err (OpQuantMismatch "matmul" "x" x_quant)
  else
    let* vw := valid_w_quant w_dtype w_quant in
    if negb vw then Err (OpQuantMismatch "matmul" "w" w_quant)
    else
      let reduction_order := matmul_order x_quant w_quant in
      if bool_decide (x_dtype = DType.I8)
         && match w_dtype with DType.I4 | DType.I8 => true | _ => false end
      then Ok (numerics_i32 reduction_order)
      else Ok (numerics_f32 reduction_order).

Definition moe_ffn_gemm_numerics (x_dtype w_dtype : DType.t) (x_quant w_quant : QuantScheme.t)
    : outcome IrError Numerics := matmul_numerics x_dtype w_dtype x_quant w_quant.

Definition numerics_for (x w : Tensor) : outcome IrError Numerics :=
  matmul_numerics (tn_dtype x) (tn_dtype w) (tn_quant x) (tn_quant w).

Definition at_or_panic {A} (l : list A) (i : nat) : outcome IrError A :=
  match l !! i with Some x => Ok x | None => Panic end.

(** [Op::numerics]. *)
Definition op_numerics (op : Op.t) (inputs : list Tensor) : outcome IrError Numerics :=
  match op with
  | Op.EmbedGather _ => Ok (numerics_f32 ReductionOrder.None)
  | Op.NgramGather o =>
      Ok (match ng_combine o with
          | NgramCombine.Concat => numerics_f32 ReductionOrder.None
          | NgramCombine.Sum => numerics_f32 ReductionOrder.AscendingIndex
          end)
  | Op.QuantAct _ | Op.Norm _ => Ok (numerics_f32 ReductionOrder.AscendingAxis)
  | Op.Cast _ | Op.Copy _ | Op.GatherRows | Op.Split _ | Op.Concat => Ok numerics_none
  | Op.ResidualAdd _ | Op.ActMul _ | Op.Activation _ | Op.LogitSoftcap _ | Op.Rope _ =>
      Ok (numerics_f32 ReductionOrder.None)
  | Op.Matmul _ =>
      if (length inputs <? 2)%nat then Err (OpInputCountMismatch "matmul_numerics" 2 (length inputs))
      else
        let* x := at_or_panic inputs 0 in
        let* w := at_or_panic inputs 1 in
        numerics_for x w
  | Op.MoeFfn _ =>
      if (length inputs <? 5)%nat then Err (OpInputCountMismatch "moe_ffn_numerics" 5 (length inputs))
      else
        let* x := at_or_panic inputs 0 in
        let* w_gate_up := at_or_panic inputs 3 in
        let* w_down := at_or_panic inputs 4 in
        let* n := numerics_for x w_gate_up in
        let* _ := numerics_for x w_down in
        Ok n
  | Op.Attention _ => Ok (numerics_f32 ReductionOrder.AscendingBlock)
  | Op.ScatterAddRows | Op.MoeRoute _ | Op.CausalConv1d _ | Op.LinearAttnScan _ | Op.LogitsPostprocess
  | Op.Sample _ | Op.Verify _ => Ok (numerics_f32 ReductionOrder.AscendingIndex)
  | Op.AllReduce _ | Op.ReduceScatter _ => Ok (numerics_f32 ReductionOrder.AscendingRank)
  | Op.StateWriteKv _ | Op.AllGather _ | Op.AllToAll _ | Op.Send _ | Op.Recv _ | Op.Barrier _ => Ok numerics_none
  end.

(** ** A rule is matched by its instances *)

(** The counts of a declared layout are of type [u32]. *)
Definition layout_typed (l : ShardLayout.t) : Prop :=
  match l with ShardLayout.HeadShard n | ShardLayout.ExpertShard n => 0 ≤ n | _ => True end.

(** [pats] instantiated with [heads] and [experts] is [layouts]. *)
Definition instance_of (heads experts : Z) (pats : list Pattern.t) (layouts : list ShardLayout.t) : Prop :=
  Forall2 (λ p l, Pattern.to_concrete p heads experts = Some l) pats layouts.

(** Case analysis on the integer tests of a matcher, each read as the fact it
    decides. *)
Ltac cases_decided :=
  repeat case_match;
  repeat match goal with
         | H : (_ =? _) = true |- _ => apply Z.eqb_eq in H
         | H : (_ =? _) = false |- _ => apply Z.eqb_neq in H
         | H : (_ <? _) = true |- _ => apply Z.ltb_lt in H
         | H : (_ <? _) = false |- _ => apply Z.ltb_ge in H
         end; simplify_eq/=.

Section Matching.
Context (heads experts : Z) (Hh : 0 < heads) (He : 0 < experts).

(** The bindings made so far are of these counts. *)
Definition agrees (b : Bindings) : Prop :=
  (∀ n, bound_heads b = Some n → n = heads) ∧ (∀ n, bound_experts b = Some n → n = experts).

Lemma pattern_instance p l b :
  layout_typed l →
  (∃ b', match_pattern_with_bindings p l b = Some b' ∧ agrees b') ↔
  Pattern.to_concrete p heads experts = Some l ∧ agrees b.
Proof.
  destruct b as [bh be]. unfold agrees.
  destruct p as [|a|a|[c|]|[c|]|], l as [|a'|a'|n|n|]; simpl; intros Hl;
    cases_decided; split; naive_solver lia.
Qed.

Lemma all_instance pats layouts b :
  length pats = length layouts → Forall layout_typed layouts →
  (∃ b', match_all (zip pats layouts) b = Some b' ∧ agrees b') ↔ instance_of heads experts pats layouts ∧ agrees b.
Proof.
  unfold instance_of. revert layouts b. induction pats as [|p pats IH]; intros [|l layouts] b Hlen Hl; try done; simpl.
  { rewrite Forall2_nil. naive_solver. }
  apply Forall_cons_1 in Hl as [Hl Hls]. injection Hlen as Hlen. rewrite Forall2_cons.
  pose proof (pattern_instance p l b Hl) as Hp. split.
  - apply proj1 in Hp. destruct (match_pattern_with_bindings p l b) as [b1|]; [|intros (? & [=] & _)].
    intros H. apply IH in H as [Hi Ha]; [|done..]. destruct Hp as [Hc Hb]; [by exists b1|]. done.
  - intros [[Hc Hi] Ha]. apply proj2 in Hp. destruct (Hp (conj Hc Ha)) as (b1 & -> & Ha1). apply IH; auto.
Qed.
End Matching.

(** The counts bound are positive: a zero extent never matches. *)
Definition bound_positive (b : Bindings) : Prop :=
  0 < default 1 (bound_heads b) ∧ 0 < default 1 (bound_experts b).

Lemma match_all_positive pairs b b' :
  Forall (λ pl, layout_typed pl.2) pairs → match_all pairs b = Some b' → bound_positive b → bound_positive b'.
Proof.
  revert b. induction pairs as [|[p l] pairs IH]; intros b; simpl; [naive_solver|].
  intros [Hl Hls]%Forall_cons_1 H Hb. case_match eqn:E; [|done]. eapply IH; [done..|]. simpl in Hl. clear -Hl E Hb.
  destruct b as [bh be]. unfold bound_positive in *. destruct p as [|a|a|[c|]|[c|]|], l as [|a'|a'|n|n|]; simpl in *;
    cases_decided; naive_solver lia.
Qed.

Lemma match_all_app xs ys b :
  match_all (xs ++ ys) b = match match_all xs b with Some b' => match_all ys b' | None => None end.
Proof. revert b. induction xs as [|[p l] xs IH]; intros b; simpl; [done|]. case_match; auto. Qed.

Lemma zip_typed (pats : list Pattern.t) layouts :
  Forall layout_typed layouts → Forall (λ pl, layout_typed pl.2) (zip pats layouts).
Proof.
  intros H. apply Forall_forall. intros [p l] Hin%elem_of_zip_r. simpl. by eapply Forall_forall in H.
Qed.

Lemma rule_matches_match_all r inputs outputs :
  rule_matches r inputs outputs = true ↔
  (length (ru_inputs r) = length inputs ∧ length (ru_outputs r) = length outputs) ∧
  is_Some (match_all (zip (ru_inputs r) inputs ++ zip (ru_outputs r) outputs) unbound).
Proof.
  unfold rule_matches, rule_arity. rewrite match_all_app. destruct (_ && _) eqn:E; simpl.
  - apply andb_true_iff in E as [Hi%Nat.eqb_eq Ho%Nat.eqb_eq]. case_match; [rewrite bool_decide_eq_true; naive_solver|].
    split; [done|]. intros [_ [? ?]]. done.
  - split; [done|]. intros [[Hi Ho] _]. apply andb_false_iff in E as [E|E]; apply Nat.eqb_neq in E; done.
Qed.

(** C26: a sharding rule matches a tuple of layouts exactly when its patterns,
    instantiated with one positive head count and one positive expert count,
    are those layouts: symbolic counts are bound consistently across all inputs
    and outputs, and a zero extent never matches. *)
Theorem rule_matches_exactly r inputs outputs :
  Forall layout_typed (inputs ++ outputs) →
  rule_matches r inputs outputs = true ↔
  ∃ heads experts, 0 < heads ∧ 0 < experts ∧
    instance_of heads experts (ru_inputs r) inputs ∧ instance_of heads experts (ru_outputs r) outputs.
Proof.
  intros [Hi Ho]%Forall_app. rewrite rule_matches_match_all. split.
  - intros [[Li Lo] [b Hb]].
    assert (bound_positive b) as [Hh He].
    { eapply match_all_positive; [|done|by vm_compute]. apply Forall_app. auto using zip_typed. }
    exists (default 1 (bound_heads b)), (default 1 (bound_experts b)). split; [done|]. split; [done|].
    rewrite match_all_app in Hb. destruct (match_all (zip (ru_inputs r) inputs) unbound) as [b1|] eqn:E1; [|done].
    assert (agrees (default 1 (bound_heads b)) (default 1 (bound_experts b)) b) as Ha.
    { split; intros n ->; done. }
    destruct (proj1 (all_instance _ _ Hh He (ru_outputs r) outputs b1 Lo Ho)) as [HO Ha1]; [by exists b|].
    destruct (proj1 (all_instance _ _ Hh He (ru_inputs r) inputs unbound Li Hi)) as [HI _]; [by exists b1|]. done.
  - intros (heads & experts & Hh & He & HI & HO).
    pose proof (Forall2_length _ _ _ HI) as Li. pose proof (Forall2_length _ _ _ HO) as Lo. split; [done|].
    destruct (proj2 (all_instance _ _ Hh He (ru_inputs r) inputs unbound Li Hi)) as (b1 & E1 & Ha1).
    { split; [done|]. split; intros n [=]. }
    destruct (proj2 (all_instance _ _ Hh He (ru_outputs r) outputs b1 Lo Ho)) as (b2 & E2 & _); [done|].
    rewrite match_all_app, E1, E2. eauto.
Qed.

Lemma rule_matches_exactly_witness :
  rule_matches (rule [Pattern.HeadShard HeadCount.Symbolic; Pattern.Replicated] [Pattern.HeadShard HeadCount.Symbolic])
    [ShardLayout.HeadShard 8; ShardLayout.Replicated] [ShardLayout.HeadShard 8] = true.
Proof.
  apply rule_matches_exactly; [repeat constructor; done|]. exists 8, 1. repeat split; repeat constructor.
Defined.

(** A tensor's axis sharding stays within its rank. *)
Definition axis_in_rank (t : Tensor) : bool :=
  match tn_sharding t with
  | ShardLayout.ColShard axis | ShardLayout.RowShard axis => axis <? Z.of_nat (rank t)
  | _ => true
  end.

(** The zero tests of [matches_tensors] repeat those of the pattern matcher. *)
Lemma match_all_nonzero pairs b b' :
  match_all pairs b = Some b' →
  Forall (λ pl, pl.2 ≠ ShardLayout.HeadShard 0 ∧ pl.2 ≠ ShardLayout.ExpertShard 0) pairs.
Proof.
  revert b. induction pairs as [|[p l] pairs IH]; intros b; simpl; [constructor|].
  case_match eqn:E; [|done]. intros H. constructor; [|by eapply IH]. simpl. clear -E.
  destruct p, l; simpl in E; cases_decided; split; congruence.
Qed.

Lemma fits_axis ts :
  Forall (λ l, l ≠ ShardLayout.HeadShard 0 ∧ l ≠ ShardLayout.ExpertShard 0) (tn_sharding <$> ts) →
  forallb sharding_fits ts = forallb axis_in_rank ts.
Proof.
  induction ts as [|t ts IH]; [done|]. rewrite fmap_cons. intros [[Hh He] H]%Forall_cons_1. simpl.
  rewrite IH by done. f_equal. unfold sharding_fits, axis_in_rank. destruct (tn_sharding t); try done.
  - destruct (Z.eqb_spec heads 0); naive_solver.
  - destruct (Z.eqb_spec experts 0); naive_solver.
Qed.

Lemma zip_nonzero (P : ShardLayout.t → Prop) (pats : list Pattern.t) layouts :
  length pats = length layouts → Forall (λ pl, P pl.2) (zip pats layouts) → Forall P layouts.
Proof.
  intros Hlen H. rewrite <- (snd_zip pats layouts) by lia. by apply Forall_fmap.
Qed.

(** Matching tensors is matching their declared layouts, with every sharded
    axis inside the rank of its tensor. *)
Lemma matches_tensors_exactly r inputs outputs :
  rule_matches_tensors r inputs outputs =
  rule_matches r (tn_sharding <$> inputs) (tn_sharding <$> outputs) && forallb axis_in_rank (inputs ++ outputs).
Proof.
  unfold rule_matches_tensors. pose proof (rule_matches_match_all r (tn_sharding <$> inputs) (tn_sharding <$> outputs)) as Hm.
  assert (rule_arity r (tn_sharding <$> inputs) (tn_sharding <$> outputs) = rule_arity r inputs outputs) as Ha.
  { unfold rule_arity. by rewrite !length_fmap. }
  unfold rule_matches in *. rewrite Ha in *. destruct (rule_arity r inputs outputs); [|done]. simpl in *.
  rewrite match_all_app in Hm. destruct (match_all _ unbound) as [b|] eqn:E1.
  2:{ by destruct (forallb sharding_fits _). }
  destruct (match_all (zip (ru_outputs r) _) b) as [b'|] eqn:E2.
  2:{ by destruct (forallb sharding_fits _). }
  rewrite bool_decide_eq_true_2 in * by eauto. destruct (proj1 Hm eq_refl) as [[Li Lo] _]. simpl.
  rewrite !forallb_app, !fits_axis; [by destruct (_ && _)| |].
  - eapply zip_nonzero; [exact Lo|]. by eapply match_all_nonzero.
  - eapply zip_nonzero; [exact Li|]. by eapply match_all_nonzero.
Qed.

(** ** The tables and the validators *)

(** The counts of inputs and outputs a [validate] accepts. *)
Definition op_arities (op : Op.t) : list (nat * nat) :=
  match op with
  | Op.EmbedGather _ | Op.NgramGather _ | Op.GatherRows | Op.Concat | Op.ResidualAdd _ | Op.ActMul _ | Op.Rope _
  | Op.AllToAll _ => [(2, 1)]
  | Op.QuantAct _ | Op.Split _ => [(1, 2)]
  | Op.Cast _ | Op.Copy _ | Op.Activation _ | Op.LogitSoftcap _ | Op.Attention _ | Op.Sample _
  | Op.AllReduce _ | Op.AllGather _ | Op.ReduceScatter _ => [(1, 1)]
  | Op.ScatterAddRows | Op.Norm _ | Op.CausalConv1d _ => [(2, 1); (3, 1)]
  | Op.Matmul o => [(matmul_input_count o, 1)]
  | Op.MoeRoute _ => [(1, 2); (2, 2)]
  | Op.MoeFfn _ | Op.LinearAttnScan _ => [(5, 1)]
  | Op.StateWriteKv _ => [(2, 0)]
  | Op.LogitsPostprocess => [(1, 1); (2, 1); (3, 1)]
  | Op.Verify _ => [(2, 2); (3, 2)]
  | Op.Send _ => [(1, 0)]
  | Op.Recv _ => [(0, 1)]
  | Op.Barrier _ => [(0, 0)]
  end%nat.

Lemma clean_input_count_in op ts ns : clean (input_count_in op ts ns) ↔ length ts ∈ ns.
Proof.
  unfold input_count_in. rewrite clean_push, negb_false_iff, existsb_exists. split.
  - intros (n & Hin%list_elem_of_In & ->%Nat.eqb_eq). done.
  - intros Hin. exists (length ts). split; [by apply list_elem_of_In|apply Nat.eqb_refl].
Qed.

(** The conjuncts of an accepted check that fix the arity. *)
Ltac decompose_clean H :=
  destruct_and? H; repeat match goal with K : clean _ |- _ => clear K | K : _ ∈ _ |- _ => rewrite ?elem_of_cons, ?list_elem_of_singleton, ?elem_of_nil in K end.

Lemma validated_arity op inputs outputs :
  op_validate op inputs outputs = Ok tt → (length inputs, length outputs) ∈ op_arities op.
Proof.
  unfold op_validate. rewrite finish_Ok.
  destruct op; simpl;
    unfold embed_gather_validate, embed_gather_attrs, ngram_gather_validate, ngram_gather_attrs,
      quant_act_validate, quant_act_attrs, cast_validate, copy_validate, gather_rows_validate,
      scatter_add_rows_validate, split_validate, concat_validate, norm_validate, norm_attrs,
      residual_add_validate, residual_add_attrs, act_mul_validate, activation_validate,
      logit_softcap_validate, rope_validate, rope_attrs, matmul_validate, moe_route_validate, moe_route_attrs,
      moe_ffn_validate, state_write_kv_validate, state_write_kv_attrs, attention_validate, attention_attrs,
      causal_conv1d_validate, conv_attrs, linear_attn_scan_validate, scan_attrs, logits_postprocess_validate,
      sample_validate, verify_validate, verify_attrs, all_reduce_validate, all_gather_validate,
      reduce_scatter_validate, all_to_all_validate, send_validate, recv_validate, barrier_validate; cbv zeta;
    rewrite ?clean_both, ?clean_input_count, ?clean_output_count, ?clean_input_count_in.
  all: intros H; decompose_clean H.
  all: rewrite !elem_of_cons, ?elem_of_nil; destruct_or?; try done;
    repeat match goal with K : length _ = _ |- _ => rewrite K; clear K end; tauto.
Qed.

(** A matrix product whose epilogue reads a third operand. *)
Definition fused_operand (op : Op.t) : bool :=
  match op with
  | Op.Matmul o => match mm_epilogue o with Epilogue.Bias | Epilogue.Residual => true | _ => false end
  | _ => false
  end.

(** The collectives whose input must be sharded or partial. *)
Definition needs_sharding (op : Op.t) : bool :=
  match op with Op.AllReduce _ | Op.AllGather _ | Op.ReduceScatter _ => true | _ => false end.

Definition unsharded (t : Tensor) : Prop := tn_sharding t = ShardLayout.Replicated.

Lemma unsharded_layouts ts :
  Forall unsharded ts → tn_sharding <$> ts = replicate (length ts) ShardLayout.Replicated ∧ forallb sharding_fits ts = true.
Proof.
  induction 1 as [|t ts Ht _ [IH1 IH2]]; [done|]. unfold unsharded in Ht.
  rewrite fmap_cons, IH1. simpl. unfold sharding_fits at 1. by rewrite Ht, IH2.
Qed.

Lemma rule_arity_lengths {A B} r (inputs outputs : list A) (inputs' outputs' : list B) :
  length inputs = length inputs' → length outputs = length outputs' →
  rule_arity r inputs outputs = rule_arity r inputs' outputs'.
Proof. unfold rule_arity. by intros -> ->. Qed.

Lemma unsharded_matches r inputs outputs :
  Forall unsharded inputs → Forall unsharded outputs →
  rule_matches_tensors r inputs outputs =
  rule_matches r (replicate (length inputs) ShardLayout.Replicated) (replicate (length outputs) ShardLayout.Replicated).
Proof.
  intros [Hi Fi]%unsharded_layouts [Ho Fo]%unsharded_layouts. unfold rule_matches_tensors, rule_matches.
  rewrite forallb_app, Fi, Fo, Hi, Ho. cbv beta iota.
  rewrite (rule_arity_lengths r inputs outputs (replicate (length inputs) ShardLayout.Replicated)
    (replicate (length outputs) ShardLayout.Replicated)) by (by rewrite length_replicate).
  by destruct (rule_arity _ _ _).
Qed.

(** C27: the sharding tables agree with the validators: for the tensors an op
    accepts, its table has a rule of their arity unless the op is a matrix
    product with a fused bias or residual operand, and the unsharded tensors
    match a rule unless the op is such a product or one of the collectives that
    reduce or gather a sharded tensor. *)
Theorem legal_layouts_cover op inputs outputs :
  op_validate op inputs outputs = Ok tt →
  Forall unsharded inputs → Forall unsharded outputs →
  existsb (λ r, rule_arity r inputs outputs) (legal_layouts op) = negb (fused_operand op) ∧
  existsb (λ r, rule_matches_tensors r inputs outputs) (legal_layouts op) =
    negb (fused_operand op) && negb (needs_sharding op).
Proof.
  intros Hv Hi Ho. apply validated_arity in Hv.
  assert (∀ rs, existsb (λ r, rule_matches_tensors r inputs outputs) rs =
    existsb (λ r, rule_matches r (replicate (length inputs) ShardLayout.Replicated)
      (replicate (length outputs) ShardLayout.Replicated)) rs) as ->.
  { induction rs as [|r rs IH]; simpl; [done|]. by rewrite IH, unsharded_matches. }
  unfold rule_arity. revert Hv. clear Hi Ho. generalize (length inputs) (length outputs). intros i o Hv.
  destruct op as [| | | | | | | | | | | | | | |m| | | | | | | | | | | | | | | |]; simpl op_arities in Hv;
    try (unfold matmul_input_count in Hv; destruct m as [d [| | |] t]; simpl in Hv);
    rewrite !elem_of_cons, ?elem_of_nil in Hv; destruct_or? Hv; try done; injection Hv as -> ->; by vm_compute.
Qed.

Lemma legal_layouts_cover_witness :
  let x := {| tn_shape := [Dim.Concrete 4; Dim.Concrete 64]; tn_dtype := DType.F16; tn_quant := QuantScheme.None;
              tn_layout := LayoutId.CONTIGUOUS; tn_placement := Placement.Device 0;
              tn_sharding := ShardLayout.Replicated; tn_class := TensorClass.Activation |} in
  existsb (λ r, rule_matches_tensors r [x; x] [x]) (legal_layouts (Op.ActMul {| am_act := ActivationKind.Silu; am_clamp := None |})) = true.
Proof.
  intros x.
  exact (proj2 (legal_layouts_cover (Op.ActMul {| am_act := ActivationKind.Silu; am_clamp := None |}) [x; x] [x]
    eq_refl ltac:(repeat constructor) ltac:(repeat constructor))).
Defined.

(** ** Fusion grants table patterns only *)

(** The ops a granted pattern may absorb as a producer. *)
Definition fusible (pattern : FusionPattern.t) (producer : Op.t) : bool :=
  match pattern, producer with
  | FusionPattern.ResidualAddNorm, Op.ResidualAdd _
  | FusionPattern.NormQuantAct, Op.Norm _
  | (FusionPattern.RopeStateWriteKv | FusionPattern.RopeAttentionPrefill), Op.Rope _
  | FusionPattern.StateWriteKvAttentionDecode, Op.StateWriteKv _
  | FusionPattern.LogitsPostprocessSample, Op.LogitsPostprocess
  | FusionPattern.QuantActAllToAll, Op.QuantAct _ => true
  | (FusionPattern.MatmulEpilogue | FusionPattern.GatedMatmulActMul), Op.Matmul o => no_epilogue (mm_epilogue o)
  | _, _ => false
  end.

Lemma permitted_all pattern : is_permitted_fusion pattern = true.
Proof. by destruct pattern; vm_compute. Qed.

Lemma pair_fusible p c pattern : is_permitted_pair p c = Some pattern → fusible pattern p = true.
Proof. unfold is_permitted_pair. destruct p, c; simpl; try done; repeat case_match; naive_solver. Qed.

Lemma gated_fusible g u c pattern :
  match_gated_pair g u c = Some pattern → fusible pattern g = true ∧ fusible pattern u = true.
Proof.
  destruct g; simpl; try done. destruct u; simpl; try done. destruct c; simpl; try done.
  case_match eqn:E; [|done]. intros [= <-]. by apply andb_true_iff in E.
Qed.

(** A chain fuses exactly when it is a pair of the table. *)
Lemma chain_is_pair ops pattern :
  match_chain ops = Some pattern ↔ ∃ p c, ops = [p; c] ∧ is_permitted_pair p c = Some pattern.
Proof. unfold match_chain. destruct ops as [|p [|c [|]]]; naive_solver. Qed.

(** ** Numerics contracts *)

(** The contract passes the check of [Numerics::new]. *)
Definition contract_ok (n : Numerics) : Prop := numerics_new (nu_accumulator n) (nu_reduction_order n) = Ok n.

(** Whether the activation and the weight are both integers. *)
Definition integer_product (x w : Tensor) : bool :=
  bool_decide (tn_dtype x = DType.I8) && match tn_dtype w with DType.I4 | DType.I8 => true | _ => false end.

Lemma numerics_for_spec x w :
  gemm_activation x → gemm_weight w →
  ∃ n, numerics_for x w = Ok n ∧ contract_ok n ∧
    nu_accumulator n = Some (if integer_product x w then DType.I32 else DType.F32).
Proof.
  unfold gemm_activation, gemm_weight, numerics_for, integer_product, matmul_numerics.
  intros Hx Hw.
  assert (valid_x_quant (tn_dtype x) (tn_quant x) = Ok true) as ->.
  { destruct (tn_dtype x); try done; simpl; destruct_or?; by rewrite Hx. }
  simpl. assert (valid_w_quant (tn_dtype w) (tn_quant w) = Ok true) as ->.
  { destruct (tn_dtype w); try done; simpl; try (by rewrite Hw); by destruct (tn_quant w). }
  simpl. destruct (bool_decide (tn_dtype x = DType.I8) && _); eexists; split_and!; reflexivity.
Qed.

Lemma matmul_operands o inputs outputs :
  op_validate (Op.Matmul o) inputs outputs = Ok tt →
  ∃ x w rest, inputs = x :: w :: rest ∧ gemm_activation x ∧ gemm_weight w.
Proof.
  intros Hv. pose proof (validated_arity _ _ _ Hv) as Ha. simpl in Ha. apply list_elem_of_singleton in Ha.
  injection Ha as Hi _. unfold op_validate in Hv. rewrite finish_Ok in Hv. simpl in Hv. unfold matmul_validate in Hv.
  cbv zeta in Hv. rewrite !clean_both, !clean_when, count_is_true in Hv. destruct Hv as (_ & _ & _ & Hin & _).
  specialize (Hin Hi).
  destruct inputs as [|x [|w rest]]; 
    [unfold matmul_input_count in Hi; destruct (mm_epilogue o); discriminate Hi..|].
  exists x, w, rest. split; [done|]. unfold matmul_inputs in Hin.
  rewrite (clean_index_Some (x :: w :: rest) 0 _ x), (clean_index_Some (x :: w :: rest) 1 _ w) in Hin by done.
  rewrite !clean_both, clean_gemm_activation, clean_gemm_weight in Hin. by destruct_and? Hin.
Qed.

Lemma moe_ffn_operands_typed o inputs outputs :
  op_validate (Op.MoeFfn o) inputs outputs = Ok tt →
  ∃ x ids ws w_gate_up w_down, inputs = [x; ids; ws; w_gate_up; w_down] ∧
    gemm_activation x ∧ gemm_weight w_gate_up ∧ gemm_weight w_down.
Proof.
  intros Hv. pose proof (validated_arity _ _ _ Hv) as Ha. simpl in Ha. apply list_elem_of_singleton in Ha.
  injection Ha as Hi _. unfold op_validate in Hv. rewrite finish_Ok in Hv. simpl in Hv. unfold moe_ffn_validate in Hv.
  rewrite !clean_both, !clean_when, count_is_true in Hv. destruct Hv as (_ & _ & _ & Hin & _).
  specialize (Hin Hi). rewrite clean_both in Hin. apply proj1 in Hin.
  destruct inputs as [|x [|ids [|ws [|gu [|down [|]]]]]]; try done. exists x, ids, ws, gu, down. split; [done|].
  unfold moe_ffn_operands, expert_weight in Hin. unfold index in Hin. simpl lookup in Hin.
  cbv beta iota in Hin. rewrite !clean_both, clean_gemm_activation, !clean_gemm_weight in Hin.
  by destruct_and? Hin.
Qed.

(** C28: every op that validates has a numerics contract, and the contract
    accumulates in [f32], in [i32] or not at all.  A matrix product accumulates
    in [i32] exactly when it multiplies [i8] activations by integer weights. *)
Theorem validated_numerics op inputs outputs :
  op_validate op inputs outputs = Ok tt →
  ∃ n, op_numerics op inputs = Ok n ∧ contract_ok n ∧
    ∀ o x w rest, op = Op.Matmul o → inputs = x :: w :: rest →
      nu_accumulator n = Some (if integer_product x w then DType.I32 else DType.F32).
Proof.
  intros Hv. destruct op as [|o| | | | | | | | | | | | | |o| |o| | | | | | | | | | | | | |];
    try (eexists; split; [reflexivity|]; split; [reflexivity|]; discriminate).
  - simpl. destruct (ng_combine o); eexists; (split; [reflexivity|]; split; [reflexivity|]; discriminate).
  - destruct (matmul_operands _ _ _ Hv) as (x & w & rest & -> & Hx & Hw).
    destruct (numerics_for_spec x w Hx Hw) as (n & E & Hc & Ha). exists n. split; [exact E|]. split; [exact Hc|].
    intros o' x' w' rest' _ [= <- <- _]. exact Ha.
  - destruct (moe_ffn_operands_typed _ _ _ Hv) as (x & ids & ws & gu & down & -> & Hx & Hg & Hd).
    destruct (numerics_for_spec x gu Hx Hg) as (n & E & Hc & _), (numerics_for_spec x down Hx Hd) as (n' & E' & _).
    exists n. split; [simpl; by rewrite E; simpl; rewrite E'|]. split; [exact Hc|]. discriminate.
Qed.

Lemma validated_numerics_witness :
  let device class shape dtype quant layout :=
    {| tn_shape := Dim.Concrete <$> shape; tn_dtype := dtype; tn_quant := quant; tn_layout := layout;
       tn_placement := Placement.Device 0; tn_sharding := ShardLayout.Replicated; tn_class := class |} in
  let x := device TensorClass.Activation [4; 64] DType.I8 QuantScheme.PerToken LayoutId.CONTIGUOUS in
  let w := device TensorClass.Weight [32; 64] DType.I4 (QuantScheme.Scheme 7) LayoutId.L1 in
  let y := device TensorClass.Activation [4; 32] DType.F16 QuantScheme.None LayoutId.CONTIGUOUS in
  let op := Op.Matmul {| mm_out_dtype := DType.F16; mm_epilogue := Epilogue.None; mm_transpose_w := false |} in
  ∃ n, op_numerics op [x; w] = Ok n ∧ contract_ok n ∧ nu_accumulator n = Some DType.I32.
Proof.
  intros device x w y op.
  destruct (validated_numerics op [x; w] [y] eq_refl) as (n & E & Hc & Ha).
  exists n. split; [exact E|]. split; [exact Hc|]. exact (Ha _ x w [] eq_refl eq_refl).
Defined.
